(* ===== verification/_CoqProject ===== *)
-Q . S2P
Prelude.v
GoStrings.v
NetIP.v
Bytes.v
ConnTrack.v
TCPTrack.v
TCPTrackFacts.v
TimedTable.v
UDPTrack.v
ICMPTrack.v
Fragment.v
Order.v
FwTypes.v
PeerRules.v
Checksum.v
DNAT.v
RouteRules.v
Filter.v
FilterPaths.v
FilterOps.v
FilterFacts.v
FilterPolicy.v
FilterTotal.v
FilterRouting.v
FilterCases.v
NetParse.v
NetipUtil.v
AclManager.v
AclFacts.v
AclRun.v
AclUsp.v
AclPolicy.v
AclCases.v
RelayMessages.v
RelayCodec.v
RelayAuth.v
RelayStore.v
RelayServer.v
RelayFacts.v
RelayNotify.v
RelayHeard.v
RelayReport.v
RelayCases.v
NmData.v
FwGen.v
NetMap.v
NetMapBuild.v
AddrText.v
NetMapFacts.v
NetMapSelect.v
NetMapExact.v
NetMapEncode.v
NetMapPolicy.v
NetMapMerge.v
NetMapEnforced.v
NetMapCases.v
IPAlloc.v
IPAlloc6.v
RouteSelector.v
RouteSelectorFacts.v
DnsChain.v
DnsLocal.v
DnsLocalFacts.v
FakeIP.v
RefCounter.v
AllowedIPs.v
FlowRoutes.v
Netflow.v
FlowLogger.v
FlowWire.v
FlowOutbox.v
FlowDurable.v
FlowManager.v
FlowKernel.v
NetflowCases.v
LazyConn.v
ConnMgr.v
LazyFacts.v
LazyGroups.v
LazySync.v
