(* ===== verification/Prelude.v ===== *)
(** * Verification of an overlay network: policies, firewall, routes, names and relay

    The repository is a mesh VPN.  A management server keeps accounts with
    peers, groups, policies and posture checks and computes from them the
    network map of each peer; a client builds WireGuard tunnels to the peers
    of its map and filters what comes out of them; relays carry the traffic of
    peers that cannot reach each other.  This library models, from the Go
    source, the path of a policy from the account to the decision about a
    packet, the addresses of the overlay, the routes and names a client uses,
    the connections it keeps, the relay server, and the traffic events a
    client reports.

    ** The program and its model

    The management server selects the components of a peer from the account
    ([shared/management/networkmap]), computes its network map
    ([shared/management/types]) and sends its rules.  The client's ACL manager
    ([client/internal/acl]) turns them into rules of the packet filter
    ([client/firewall/uspfilter]).  The filter parses a packet, translates it
    (port redirection, then 1:1 DNAT), compares it with the connection
    trackers and then with the peer rules (traffic for the host) or the route
    rules (traffic to be routed); fragments go through a table of verdicts.
    The server also gives the peers their addresses.  The client selects which
    routes of its map it uses, counts who needs them and on which peer their
    prefixes are, and answers DNS queries from the zones of the map or passes
    them along a chain of handlers.  The events of the connection trackers (or
    of the kernel's) go to a logger, are aggregated per window, kept in an
    outbox until the server acknowledges them, and sent again until then.
    With every map the client removes, replaces and adds connections; those to
    peers that are lazy by policy are opened when there is traffic or a signal
    and closed when they are idle, together with the other routers of their
    networks.

    Foundations
    - [Prelude] (this file): integers, map iteration order, runs, list lemmas.
    - [GoStrings]: what is used of [strings].
    - [NetIP], [NetParse], [AddrText]: [net/netip] addresses and prefixes,
      their parsers and their text; [Bytes]: byte strings and numbers;
      [Order]: comparisons and sorting; [NetipUtil]: the compact form of
      prefixes of [shared/netiputil].

    The packet filter, [client/firewall/uspfilter]
    - [ConnTrack], [TCPTrack], [UDPTrack], [ICMPTrack]: the trackers;
      [TimedTable] is what UDP and ICMP share, against the interface
      [TrackedConn].  Facts on TCP are in [TCPTrackFacts].
    - [Fragment]: the verdict table of [fragment.go].
    - [FwTypes]: ports, networks, rule identifiers and packet layers.
    - [PeerRules], [RouteRules]: both kinds of rules, their indices and
      decisions.
    - [Checksum], [DNAT]: checksums and translation on bytes.
    - [Filter], [FilterPaths], [FilterOps]: the [Manager], the packet paths,
      and the entry points with runs of the whole filter; [FilterFacts],
      [FilterPolicy], [FilterTotal], [FilterRouting] (with MSS clamping): the
      theorems about it; [FilterCases]: concrete runs.

    The ACL manager, [client/internal/acl/manager.go]
    - [AclManager]: decoding, grouping, installation with roll back, teardown,
      against the class [Firewall]; [AclFacts], [AclRun]: theorems for every
      backend that satisfies [FirewallSpec]; [AclUsp]: the packet filter as
      such a backend; [AclPolicy]: from the map to the packet; [AclCases].

    The network map, [shared/management]
    - [NmData]: the account data and the posture checks ([nmdata]).
    - [FwGen]: firewall rules from policy rules ([firewall_helpers.go],
      [firewall_rule.go]).
    - [NetMap]: [Calculate] of [networkmap_components.go]; [NetMapMerge]:
      [Merge] of [network.go].
    - [NetMapBuild]: the selection of [networkmapcompute.go], the policies
      of [proxypolicies.go], the posture cache and [NetworkMapFromData].
    - [NetMapEncode]: the rules on the wire ([encode.go]).
    - [NetMapFacts] (what [Calculate] generates), [NetMapSelect] (what the
      selection keeps), [NetMapExact] (both against the account),
      [NetMapPolicy] (rules and packets against policies), [NetMapEnforced]
      (composition with the ACL manager and the filter), [NetMapCases].

    Addresses, [management/server]
    - [IPAlloc], [IPAlloc6]: the allocation of [types/network.go] and the
      assignment to the peers of an account in [account.go].

    Routes of the client, [client/internal]
    - [RouteSelector]: [routeselector], the requests of the user and the choice
      of the exit node in [routemanager]; [RouteSelectorFacts].
    - [RefCounter], [AllowedIPs]: the counters of [routemanager/refcounter]
      against the system they program.
    - [FakeIP]: the pools of [routemanager/fakeip].

    Names, [client/internal/dns]
    - [DnsChain]: the handler chain against a registry.
    - [DnsLocal], [DnsLocalFacts]: the local resolver, by itself and in the
      chain.

    The relay, [relay/server] and [shared/relay]
    - [RelayMessages], [RelayCodec]: messages and their round trips.
    - [RelayAuth]: tokens and the handshake.
    - [RelayStore]: the sharded store against one map.
    - [RelayServer]: the server as a step relation between lock and channel
      operations; [RelayFacts], [RelayNotify], [RelayHeard], [RelayReport]:
      invariants and what subscribers learn; [RelayCases]: concrete runs, also
      ones that stall.

    Traffic events, [client/internal/netflow]
    - [FlowRoutes]: the resource of an address ([client/internal/peer/route.go]).
    - [Netflow]: the aggregating and the bounded store
      ([store/memory.go]).
    - [FlowLogger]: the logger ([logger/logger.go]) as steps
      between lock and channel operations.
    - [FlowWire]: the messages; [FlowOutbox]: the outbox ([store/outbox.go]) in
      a monad of system calls that may fail or be the last, with a program
      logic for it; [FlowDurable]: runs over crashes and restarts.
    - [FlowManager]: configuration, sender and retries
      ([manager.go]); [FlowKernel]: events of the kernel's tracker
      ([conntrack/conntrack.go]); [NetflowCases].

    Connections on demand, [client/internal]
    - [LazyConn]: [lazyconn] with its activity and inactivity managers, the
      store of [peerstore] and whether a connection is open ([peer/conn.go]).
    - [ConnMgr]: [conn_mgr.go] and, of [engine.go], [reconcilePeers] with the
      exclude list; runs in which the engine, the DNS path, the listeners, the
      tickers and the loop of the manager interleave.
    - [LazyFacts]: the invariant of these runs; [LazyGroups]: who is woken and
      who goes to sleep; [LazySync]: what a network map does to the
      connections, concrete runs, also ones that leave a peer behind, and the
      endpoints of sleeping peers.

    ** Conventions

    State is explicit: an operation takes the state and returns the new one.
    [None] is a run-time panic (a write to a nil map, a call on a nil
    pointer, an index out of range); in the rule stores it is the error
    result where the comment says so; [Res] of [DNAT] separates the two.  Go
    maps are [gmap]s, a nil map is [None] of an option where the code can
    tell, and the order of [range] is a parameter ([MapOrder], with a choice
    per loop) over which every theorem quantifies.  Clock, [uuid.New] and
    iteration choice come with each operation; flow events are collected in
    order.  Integers are [Z] with their width written out where it matters.
    In the filter calls are atomic, as its mutexes make them; the relay is a
    step relation whose steps lie between blocking operations.

    Parameters of the model, with no definition made up for them: the packet
    parsers of gopacket (class [Gopacket]), SHA-256 and HMAC-SHA256,
    hashstructure, idna, the version library (class [VersionLib]), the DNS
    library (class [MiekgDns], with what is used of it in [MiekgDnsSpec]), the
    host resolver, protobuf and uuid (class [FlowLibs], with what is used of
    them in [FlowLibsSpec]), [sort.Slice] (class [SortSlice]), random draws,
    what the file system answers to the outbox, what the system answers to a
    route counter and to the lazy manager ([Sys]), the comparison of versions,
    [os.Getenv], [time.ParseDuration], the packet hooks, the interfaces of the
    host, and whether a forwarder can be created.

    ** What is shown

    - policies to packets: the server answers every validated peer; the rules
      of its map are exactly those the policies ask for, on the wire, after
      the ACL manager and in the filter; connections are mutual, maps are well
      formed, the posture cache and merging change nothing;
    - the ACL manager: for every backend, what is applied is what the map
      says, no rule is lost track of, denials fail closed;
    - the whole filter: what an accepted packet, a passed fragment and a
      forwarded packet mean in terms of rules and earlier packets; the exact
      verdict and its totality; default deny; routing on and off;
    - trackers: tables within their caps, start and end events in balance, no
      second end, replies only to opened flows, exact clean-up, forward-only
      TCP states, panics only after [Close]; fragments fail closed;
    - rules: the indexed and the sorted decisions equal the decisions of the
      rule lists; packets: checksums equal their references, rewriting keeps
      them valid, translation is inverted, MSS clamping is exact;
    - addresses: what is allocated is assignable, free and unique, and an
      allocation fails only when nothing is left; fake addresses and real ones
      belong to each other and the search for one ends;
    - routes: of the exit nodes at most one, IPv6 pairs apart, is in use after
      every map and it is the one the rules name, pairs follow one map later; counters hold exactly
      what the system has, a prefix is on a peer that references it;
    - names: a query is answered by the best registered handler, the local
      resolver answers from its zones, less the records of disconnected peers,
      and names of authoritative zones do not leave the client;
    - the relay: messages carry the identity of their sender, one connection
      per identifier, every subscriber is told of arrivals and departures,
      codecs and tokens round-trip, and two ways in which it falls short;
    - traffic events: every capture is counted and only traffic that may be
      reported is kept; aggregation and the sender lose no packet or byte
      uncounted and what is kept is sent; what the outbox accepted survives
      crashes until it is acknowledged; retries go by age; what runs follows the
      configuration, but for the interval and the counters;
    - connections on demand: a network map leaves exactly its peers, with its
      addresses, and the eager ones open while the system opens; a sleeping peer is
      listened for and, with a userspace bind, an awake one watched, in every
      interleaving; no stored connection is left closed with
      nobody to open it, but for the defects below; the routers of a network
      wake together and sleep only together.

    Loops whose recursion is not structural carry fuel that is provably
    enough: [fold_loop] three rounds for a 32-bit sum, [sum_from] and
    [icmp_rounds] the length of the data, [marshal_loop] the number of peers,
    [dec_digits] the nineteen digits of a 64-bit number, [allocate_loop] one
    round more than there are addresses in use.  [follow] has the eight rounds
    of the code.

    Theorems that exhibit defects: [stale_dnat_port],
    [conntrack_disabled_panics], [native_routing_stays],
    [tcp_track_after_close_panics], [incrementalUpdate_udp_zero],
    [incrementalUpdate_odd_off], [dnat_stale_reverse], [UpdateSet_forgets],
    [port_key_truncated], [domain_set_not_unique], [relay_deadlocks],
    [relay_reports_reordered], [merge_drops_sources], [exit_pair_leaks],
    [auto_apply_sticks], [wildcard_cname_shadows], [root_ties_with_tld],
    [ignored_reference_steals], [null_counter_panics], [failed_update_sticks],
    [interval_change_ignored], [counters_change_ignored],
    [proxy_targets_merged], [leaked_file_blocks_recovery],
    [clock_step_drops_window], [ghost_never_connects],
    [unsupported_goes_lazy], [stale_waiter_wakes], [stale_warm_up_strands],
    [failed_arm_sleeps_deaf], [endpoints_collide].

    ** Not modelled

    Logging, metrics and the tracer, which decide nothing; the gVisor forwarder
    behind the injection point, the kernel backends, the system routing table
    and the host-firewall integration, which are libraries and system calls;
    of the network map the encoding of DNS, routes and SSH users and the
    component envelope, which copy fields; the choice of a route by latency,
    which is in floating point; how a connection is established (ICE, the
    handshake, the guard), the client side of the
    relay and the upstream resolvers, which are dialling, timers and retries
    around the protocols modelled here, as are the gRPC stream of the traffic
    events, its back-off and the netlink listener; loss of power between a write
    and its synchronisation; the account management, whose logic is
    in the queries and transactions of the store; HTTP, gRPC, the reverse proxy
    and the user interfaces. *)

From Stdlib Require Export Ascii.
From stdpp Require Export base tactics list gmap sets strings pretty.
From Stdlib Require Export ZArith Lia.

#[export] Set Default Goal Selector "!".

(** ** Machine integers

    Go's fixed-width integers are [Z] values with the wrap-around written
    out.  [uint w] is the conversion [uintW(x)]. *)
Declare Scope go_scope.
Delimit Scope go_scope with go.

Definition uint (w : Z) (x : Z) : Z := (x mod 2 ^ w)%Z.
Definition in_width (w : Z) (x : Z) : Prop := (0 <= x < 2 ^ w)%Z.

#[global] Arguments uint : simpl never.
#[global] Arguments in_width : simpl never.
#[global] Arguments Z.shiftr : simpl never.
#[global] Arguments Z.shiftl : simpl never.
#[global] Arguments Z.land : simpl never.
#[global] Arguments Z.lor : simpl never.
#[global] Arguments Z.lxor : simpl never.
#[global] Arguments Z.pow : simpl never.

Notation "'uint8' x" := (uint 8 x) (at level 10, only parsing) : go_scope.
Notation "'uint16' x" := (uint 16 x) (at level 10, only parsing) : go_scope.
Notation "'uint32' x" := (uint 32 x) (at level 10, only parsing) : go_scope.
Notation "'uint64' x" := (uint 64 x) (at level 10, only parsing) : go_scope.

(** [has f m] is the Go test [f & m != 0]; [hasnt f m] is [f & m == 0]. *)
Definition has (f m : Z) : bool := negb (Z.land f m =? 0)%Z.
Definition hasnt (f m : Z) : bool := (Z.land f m =? 0)%Z.

(** ** Tactics *)

(** Split every [if] and [match] of the goal and discharge what is
    immediate. *)
Ltac split_cases := repeat (case_match; simplify_eq/=; try done).

(** Turn the boolean tests of the hypotheses and the goal into
    propositions. *)
Ltac bools :=
  rewrite ?andb_true_iff, ?orb_true_iff, ?negb_true_iff, ?andb_false_iff,
    ?orb_false_iff, ?negb_false_iff, ?Z.eqb_eq, ?Z.eqb_neq, ?Z.ltb_lt,
    ?Z.ltb_ge, ?Z.leb_le, ?Z.leb_gt, ?bool_decide_eq_true,
    ?bool_decide_eq_false in *.

(** Destruct a tuple-valued call and remember the equation. *)
Tactic Notation "dcall" constr(t) "as" simple_intropattern(p) "eqn" ident(H) :=
  destruct t as p eqn:H; simplify_eq/=.

Create HintDb netbird discriminated.
Create Rewrite HintDb netbird.

(** ** Integer lemmas *)

Lemma uint_range w x : (0 <= w)%Z → in_width w (uint w x).
Proof. intros Hw. apply Z.mod_pos_bound. by apply Z.pow_pos_nonneg. Qed.

Lemma uint_id w x : in_width w x → uint w x = x.
Proof. intros H. by apply Z.mod_small. Qed.

Lemma uint_idemp w x : (0 <= w)%Z → uint w (uint w x) = uint w x.
Proof. intros Hw. by apply uint_id, uint_range. Qed.

Lemma hasnt_negb f m : hasnt f m = negb (has f m).
Proof. unfold has, hasnt. by rewrite negb_involutive. Qed.

#[export] Hint Resolve uint_range : netbird.
#[export] Hint Rewrite hasnt_negb : netbird.

(** ** Go maps and their iteration order

    A Go [map] is a [gmap].  [for k, v := range m] visits the entries in an
    unspecified order that may change from one statement to the next.  The
    order is a parameter of the model: [range_list seed m] lists the entries
    visited by one [range] statement, [seed] standing for the run-time choice
    made at that statement.  Theorems hold for every instance. *)
Class MapOrder := {
  range_list : ∀ {K V : Type} `{Countable K}, nat → gmap K V → list (K * V);
  range_list_perm : ∀ {K V : Type} `{Countable K} (seed : nat) (m : gmap K V),
    range_list seed m ≡ₚ map_to_list m
}.

(** The order in which [map_to_list] enumerates, for concrete runs. *)
Definition canonical_order : MapOrder :=
  {| range_list := λ K V _ _ _ m, map_to_list m;
     range_list_perm := λ K V _ _ _ m, reflexivity _ |}.

Section MapRange.
Context {MO : MapOrder} {K V : Type} `{Countable K}.
Implicit Types m : gmap K V.

Lemma elem_of_range_list seed m k v :
  (k, v) ∈ range_list seed m ↔ m !! k = Some v.
Proof. by rewrite range_list_perm, elem_of_map_to_list. Qed.

Lemma NoDup_range_list seed m : NoDup (range_list seed m).
Proof. rewrite range_list_perm. apply NoDup_map_to_list. Qed.

Lemma NoDup_fst_range_list seed m : NoDup (range_list seed m).*1.
Proof. rewrite range_list_perm. apply NoDup_fst_map_to_list. Qed.

Lemma length_range_list seed m : length (range_list seed m) = size m.
Proof. rewrite range_list_perm. apply length_map_to_list. Qed.

Lemma list_to_map_range_list seed m :
  list_to_map (range_list seed m) = m.
Proof.
  rewrite <- (list_to_map_to_list m) at 2.
  apply list_to_map_proper; [apply NoDup_fst_range_list | apply range_list_perm].
Qed.
End MapRange.

(** [for k := range s] over a set-like map [map[K]struct{}]. *)
Definition range_set {MO : MapOrder} {K} `{Countable K} (seed : nat) (s : gset K) : list K :=
  (range_list seed (gset_to_gmap () s)).*1.

Lemma elem_of_range_set {MO : MapOrder} {K} `{Countable K} seed (s : gset K) k :
  k ∈ range_set seed s ↔ k ∈ s.
Proof.
  unfold range_set. rewrite list_elem_of_fmap. split.
  - intros ([k' u] & -> & Hin). rewrite elem_of_range_list in Hin.
    by apply lookup_gset_to_gmap_Some in Hin as [? _].
  - intros Hk. exists (k, ()). split; [done|].
    by rewrite elem_of_range_list, lookup_gset_to_gmap_Some.
Qed.

Lemma NoDup_range_set {MO : MapOrder} {K} `{Countable K} seed (s : gset K) :
  NoDup (range_set seed s).
Proof. apply NoDup_fst_range_list. Qed.

#[export] Hint Resolve NoDup_range_list NoDup_fst_range_list NoDup_range_set : netbird.

(** ** Lists *)

(** The Go loop [for _, x := range l { if p(x) { return x } }]. *)
Fixpoint find_first {A} (p : A → bool) (l : list A) : option A :=
  match l with
  | [] => None
  | x :: l' => if p x then Some x else find_first p l'
  end.

Lemma find_first_Some {A} (p : A → bool) l x :
  find_first p l = Some x → x ∈ l ∧ p x = true.
Proof.
  induction l as [|y l IH]; simpl; [done|]. destruct (p y) eqn:E.
  - intros [= ->]. split; [left|done].
  - intros [? ?]%IH. split; [by right|done].
Qed.

Lemma find_first_None {A} (p : A → bool) l :
  find_first p l = None ↔ ∀ x, x ∈ l → p x = false.
Proof.
  induction l as [|y l IH]; simpl.
  - split; [intros _ x Hx; by apply elem_of_nil in Hx | done].
  - destruct (p y) eqn:E; split.
    + done.
    + intros Hall. rewrite (Hall y) in E; [done | left].
    + intros Hl x [-> | Hx]%elem_of_cons; [done | by apply IH].
    + intros Hall. apply IH. intros x Hx. apply Hall. by right.
Qed.

Lemma Forall_filter_keep {A} (P Q : A → Prop) `{∀ x, Decision (Q x)} l :
  Forall P l → Forall P (filter Q l).
Proof. rewrite !Forall_forall. intros Hl x [_ Hx]%list_elem_of_filter. auto. Qed.

(** [slices.Contains]. *)
Definition contains {A} `{EqDecision A} (l : list A) (x : A) : bool :=
  bool_decide (x ∈ l).

Lemma contains_true {A} `{EqDecision A} (l : list A) x :
  contains l x = true ↔ x ∈ l.
Proof. apply bool_decide_eq_true. Qed.

(** Number of elements satisfying a test. *)
Definition count {A} (p : A → bool) (l : list A) : nat :=
  length (filter (λ x, p x = true) l).

Lemma count_app {A} (p : A → bool) l k : count p (l ++ k) = count p l + count p k.
Proof. unfold count. by rewrite filter_app, length_app. Qed.

Lemma count_nil {A} (p : A → bool) : count p [] = 0.
Proof. done. Qed.

Lemma count_singleton {A} (p : A → bool) x : count p [x] = if p x then 1 else 0.
Proof. unfold count. rewrite filter_cons, filter_nil. by destruct (p x). Qed.

Lemma count_0 {A} (p : A → bool) l : (∀ x, x ∈ l → p x = false) → count p l = 0.
Proof.
  induction l as [|x l IH]; intros Hall; [done|]. unfold count in *. rewrite filter_cons.
  rewrite decide_False; [|rewrite (Hall x); [done|left]].
  apply IH. intros y Hy. apply Hall. by right.
Qed.

(** An attribute without duplicates takes a value at most once. *)
Lemma NoDup_count_le_1 {A B} `{EqDecision B} (g : A → B) (l : list A) b :
  NoDup (g <$> l) → count (λ x, bool_decide (g x = b)) l <= 1.
Proof.
  induction l as [|x l IH]; simpl; [unfold count; simpl; lia|].
  intros [Hni Hnd]%NoDup_cons. pose proof (IH Hnd) as Hle.
  destruct (decide (g x = b)) as [Hd|Hd]; unfold count in *; rewrite filter_cons.
  - rewrite decide_True by (by apply bool_decide_eq_true). simpl.
    assert (count (λ x, bool_decide (g x = b)) l = 0) as Hz; [|unfold count in Hz; lia].
    apply count_0. intros y Hy. apply bool_decide_eq_false. intros <-. apply Hni.
    apply list_elem_of_fmap. by exists y.
  - by rewrite decide_False by (by rewrite bool_decide_eq_true).
Qed.

#[export] Hint Rewrite @count_app @count_nil @count_singleton : netbird.

(** A call that returns returns its value: only the test is evaluated. *)
Lemma some_default {A} (d : A) (o : option A) :
  (if o then true else false) = true → o = Some (default d o).
Proof. by destruct o. Qed.

Lemma pair_of_snd {A B} (p : A * B) b : p.2 = b → p = (p.1, b).
Proof. destruct p. by intros <-. Qed.

(** ** Runs of a component

    A component is a step function on its state; [None] is a run-time panic,
    which ends the run. *)
Section Run.
Context {S O : Type} (step : S → O → option S).

Fixpoint run (s : S) (ops : list O) : option S :=
  match ops with
  | [] => Some s
  | o :: ops' => match step s o with Some s' => run s' ops' | None => None end
  end.

Lemma run_app s l1 l2 :
  run s (l1 ++ l2) = match run s l1 with Some s' => run s' l2 | None => None end.
Proof. revert s. induction l1 as [|o l1 IH]; intros s; simpl; [done|]. by destruct (step s o). Qed.

(** Rule induction: what every step preserves holds along every run. *)
Lemma run_ind (P : S → Prop) :
  (∀ s o s', P s → step s o = Some s' → P s') →
  ∀ ops s s', P s → run s ops = Some s' → P s'.
Proof.
  intros Hstep ops. induction ops as [|o ops IH]; intros s s' Hs; simpl; [by intros [= <-]|].
  destruct (step s o) as [s1|] eqn:E; [|done]. apply IH. by eapply Hstep.
Qed.

(** What appears along a run was there, or an operation made it appear. *)
Lemma run_origin (Q : S → Prop) (R : O → Prop) :
  (∀ s o s', step s o = Some s' → Q s' → Q s ∨ R o) →
  ∀ ops s s', run s ops = Some s' → Q s' → Q s ∨ Exists R ops.
Proof.
  intros Hstep ops. induction ops as [|o ops IH]; intros s s'; simpl; [intros [= <-]; auto|].
  destruct (step s o) as [s1|] eqn:E; [|done]. intros Hrun Hq.
  destruct (IH _ _ Hrun Hq) as [Hq1|]; [|auto]. destruct (Hstep _ _ _ E Hq1); auto.
Qed.

(** The same, with the step that made it appear. *)
Lemma run_source (Q : S → Prop) :
  (∀ s : S, Decision (Q s)) →
  ∀ ops s s', run s ops = Some s' → Q s' → ¬ Q s →
  ∃ pre o post s1 s2, ops = pre ++ o :: post ∧ run s pre = Some s1 ∧ step s1 o = Some s2 ∧
    ¬ Q s1 ∧ Q s2.
Proof.
  intros Hdec ops. induction ops as [|o ops IH]; intros s s'; simpl; [by intros [= <-]|].
  destruct (step s o) as [s1|] eqn:E; [|done]. intros Hrun Hq Hn.
  destruct (decide (Q s1)) as [Hq1|Hq1].
  - by exists [], o, ops, s, s1.
  - destruct (IH _ _ Hrun Hq Hq1) as (pre & o' & post & s2 & s3 & -> & Hr & Hs).
    exists (o :: pre), o', post, s2, s3. simpl. by rewrite E.
Qed.

(** Steps that cannot panic make runs that cannot panic. *)
Lemma run_total (P : S → Prop) (G : O → Prop) :
  (∀ s o, P s → G o → ∃ s', step s o = Some s' ∧ P s') →
  ∀ ops s, P s → Forall G ops → ∃ s', run s ops = Some s' ∧ P s'.
Proof.
  intros Hstep ops. induction ops as [|o ops IH]; intros s Hs Hops; simpl; [eauto|].
  apply Forall_cons in Hops as [Ho Hops].
  destruct (Hstep s o Hs Ho) as (s1 & -> & Hs1). by apply IH.
Qed.
End Run.

(** ** [strconv] and [strings]

    [Atoi] and [ParseUint] in base 10: an optional sign (for [Atoi]), at
    least one digit, nothing else, and a value within the type's range. *)
Definition digit_val (c : ascii) : option Z :=
  let n := Z.of_N (Ascii.N_of_ascii c) in
  if ((48 <=? n) && (n <=? 57))%Z then Some (n - 48)%Z else None.

Fixpoint parse_digits (acc : Z) (s : string) : option Z :=
  match s with
  | EmptyString => Some acc
  | String c s' =>
      match digit_val c with
      | Some d => parse_digits (acc * 10 + d)%Z s'
      | None => None
      end
  end.

Definition parse_unsigned (s : string) : option Z :=
  match s with EmptyString => None | _ => parse_digits 0 s end.

Definition ParseUint (bits : Z) (s : string) : option Z :=
  match parse_unsigned s with
  | Some n => if (n <? 2 ^ bits)%Z then Some n else None
  | None => None
  end.

Definition Atoi (s : string) : option Z :=
  let '(neg, body) :=
    match s with
    | String "-"%char s' => (true, s')
    | String "+"%char s' => (false, s')
    | _ => (false, s)
    end in
  match parse_unsigned body with
  | Some n =>
      let v := (if neg then - n else n)%Z in
      if ((- 2 ^ 63 <=? v) && (v <? 2 ^ 63))%Z then Some v else None
  | None => None
  end.

Example Atoi_plus : Atoi "+42" = Some 42%Z.
Proof. reflexivity. Qed.
Example Atoi_bad : Atoi "4x" = None.
Proof. reflexivity. Qed.

Lemma digit_val_range c d : digit_val c = Some d → (0 <= d <= 9)%Z.
Proof. unfold digit_val. intros H. case_match eqn:E; simplify_eq. bools. lia. Qed.

Lemma parse_digits_ge acc s n :
  (0 <= acc)%Z → parse_digits acc s = Some n → (acc <= n)%Z.
Proof.
  revert acc. induction s as [|c s IH]; intros acc Hacc; simpl.
  - intros [= <-]. lia.
  - destruct (digit_val c) as [d|] eqn:Ed; [|done]. apply digit_val_range in Ed.
    intros H. apply IH in H; lia.
Qed.

Lemma ParseUint_range bits s n :
  ParseUint bits s = Some n → in_width bits n.
Proof.
  unfold ParseUint, parse_unsigned. destruct s; [done|].
  destruct (parse_digits 0 _) as [m|] eqn:E; [|done].
  apply parse_digits_ge in E; [|lia]. unfold in_width.
  destruct (Z.ltb_spec m (2 ^ bits)); intros; simplify_eq; lia.
Qed.

(** [strings.Split(s, sep)[0]] for a one-character separator: the part of
    [s] before the first [sep]. *)
Fixpoint split_head (sep : ascii) (s : string) : string :=
  match s with
  | EmptyString => EmptyString
  | String c s' => if Ascii.eqb c sep then EmptyString else String c (split_head sep s')
  end.

(** [strings.HasPrefix]. *)
Fixpoint HasPrefix (s p : string) : bool :=
  match p, s with
  | EmptyString, _ => true
  | String a p', String b s' => Ascii.eqb a b && HasPrefix s' p'
  | _, _ => false
  end.

Lemma split_head_app sep s t :
  (∀ n, String.get n s ≠ Some sep) →
  split_head sep (s +:+ String sep t) = s.
Proof.
  induction s as [|c s IH]; intros Hs; simpl.
  - by rewrite Ascii.eqb_refl.
  - destruct (Ascii.eqb_spec c sep) as [->|Hne]; [by destruct (Hs 0%nat)|].
    f_equal. apply IH. intros n. apply (Hs (S n)).
Qed.
