(* ===== verification/GoStrings.v ===== *)
(** * Texts

    What the components use of Go's [strings], and lemmas on concatenation. *)
From S2P Require Import Prelude.
Open Scope Z_scope.

(** [strings.ToLower]; domains are punycode, hence ASCII. *)
Definition lower (c : ascii) : ascii :=
  let n := Ascii.N_of_ascii c in
  if ((65 <=? n) && (n <=? 90))%N then Ascii.ascii_of_N (n + 32) else c.

Fixpoint ToLower (s : string) : string :=
  match s with EmptyString => s | String c s' => String (lower c) (ToLower s') end.

(** [strings.EqualFold], on ASCII. *)
Definition EqualFold (s t : string) : bool := String.eqb (ToLower s) (ToLower t).

Definition HasSuffix (s suffix : string) : bool :=
  (String.length suffix <=? String.length s)%nat &&
  String.eqb (String.substring (String.length s - String.length suffix) (String.length suffix) s) suffix.

Definition TrimSuffix (s suffix : string) : string :=
  if HasSuffix s suffix then String.substring 0 (String.length s - String.length suffix) s else s.

(** [strings.Contains]. *)
Fixpoint strings_Contains (s sub : string) : bool :=
  HasPrefix s sub || match s with EmptyString => false | String _ s' => strings_Contains s' sub end.

(** [strings.Count] of one character. *)
Fixpoint count_char (c : ascii) (s : string) : nat :=
  match s with EmptyString => 0 | String c' s' => if Ascii.eqb c' c then S (count_char c s') else count_char c s' end.

(** The text after the first separator: [s[strings.Index(s, sep)+1:]]. *)
Fixpoint cut_first (sep : ascii) (s : string) : option string :=
  match s with
  | EmptyString => None
  | String c s' => if Ascii.eqb c sep then Some s' else cut_first sep s'
  end.

(** ** Concatenation *)

Lemma cons_app x (a b : string) : String x a +:+ b = String x (a +:+ b).
Proof. reflexivity. Qed.

Lemma nil_app (b : string) : "" +:+ b = b.
Proof. reflexivity. Qed.

Lemma length_string_app (x y : string) :
  String.length (x +:+ y) = (String.length x + String.length y)%nat.
Proof. induction x as [|c x IH]; [done|]. rewrite cons_app. simpl. by rewrite IH. Qed.

Lemma string_app_assoc (a b c : string) : (a +:+ b) +:+ c = a +:+ b +:+ c.
Proof. induction a as [|x a IH]; [done|]. by rewrite !cons_app, IH. Qed.

Lemma string_app_inj_r (a b s : string) : a +:+ s = b +:+ s → a = b.
Proof.
  revert b. induction a as [|x a IH]; intros [|y b] E; rewrite ?cons_app, ?nil_app in E; [done| | |].
  - apply (f_equal String.length) in E. simpl in E. rewrite length_string_app in E. lia.
  - apply (f_equal String.length) in E. simpl in E. rewrite length_string_app in E. lia.
  - injection E as -> E. f_equal. by apply IH.
Qed.

(** ** Lower case *)

Lemma lower_idemp c : lower (lower c) = lower c.
Proof. destruct c as [[] [] [] [] [] [] [] []]; reflexivity. Qed.

Lemma ToLower_idemp s : ToLower (ToLower s) = ToLower s.
Proof. induction s as [|c s IH]; [done|]. simpl. by rewrite lower_idemp, IH. Qed.

Lemma EqualFold_lower s t : EqualFold (ToLower s) t = String.eqb (ToLower s) (ToLower t).
Proof. unfold EqualFold. by rewrite ToLower_idemp. Qed.

(** ** Suffixes *)

Lemma substring_all s : String.substring 0 (String.length s) s = s.
Proof. induction s as [|c s IH]; [done|]. simpl. by rewrite IH. Qed.

Lemma substring_skip p t n : String.substring (String.length p) n (p +:+ t) = String.substring 0 n t.
Proof. induction p as [|c p IH]; [done|]. rewrite cons_app. exact IH. Qed.

Lemma substring_split n s : (n <= String.length s)%nat →
  String.substring 0 n s +:+ String.substring n (String.length s - n) s = s.
Proof.
  revert n. induction s as [|c s IH]; intros [|n] H; simpl in *; [done|lia| |].
  - by rewrite nil_app, substring_all.
  - rewrite cons_app, IH by lia. done.
Qed.

Lemma HasSuffix_iff s t : HasSuffix s t = true ↔ ∃ p, s = p +:+ t.
Proof.
  unfold HasSuffix. rewrite andb_true_iff, Nat.leb_le, String.eqb_eq. split.
  - intros [Hl E]. exists (String.substring 0 (String.length s - String.length t) s).
    pose proof (substring_split (String.length s - String.length t) s ltac:(lia)) as H.
    replace (String.length s - (String.length s - String.length t))%nat with (String.length t) in H by lia.
    by rewrite E in H.
  - intros [p ->]. rewrite length_string_app. split; [lia|].
    replace (String.length p + String.length t - String.length t)%nat with (String.length p) by lia.
    by rewrite substring_skip, substring_all.
Qed.
