(* ===== verification/NetIP.v ===== *)
(** * [net/netip] as the sources use it

    The Standard Library's [netip.Addr] and [netip.Prefix]: an address is
    invalid (the zero [Addr]), a 32-bit IPv4 value or a 128-bit IPv6 value
    with a zone; a prefix is an address without zone and a length, the length
    being -1 when the prefix is invalid.  The printers follow
    [Addr.String]/[Prefix.String] because rule keys are built from printed
    addresses. *)
From S2P Require Import Prelude.
Open Scope Z_scope.

Inductive Addr :=
| AddrInvalid
| AddrV4 (v : Z)
| AddrV6 (v : Z) (zone : string).

#[global] Instance Addr_eq_dec : EqDecision Addr.
Proof. solve_decision. Defined.

#[global] Instance Addr_countable : Countable Addr.
Proof.
  apply (inj_countable'
    (λ a, match a with
          | AddrInvalid => inl ()
          | AddrV4 v => inr (inl v)
          | AddrV6 v z => inr (inr (v, z)) end)
    (λ x, match x with
          | inl _ => AddrInvalid
          | inr (inl v) => AddrV4 v
          | inr (inr (v, z)) => AddrV6 v z end)).
  by intros [].
Defined.

Definition IsValid (a : Addr) : bool :=
  match a with AddrInvalid => false | _ => true end.

Definition Is4 (a : Addr) : bool :=
  match a with AddrV4 _ => true | _ => false end.

Definition Is6 (a : Addr) : bool :=
  match a with AddrV6 _ _ => true | _ => false end.

(** An IPv4-mapped IPv6 address [::ffff:a.b.c.d]. *)
Definition Is4In6 (a : Addr) : bool :=
  match a with AddrV6 v _ => Z.shiftr v 32 =? 0xffff | _ => false end.

Definition Unmap (a : Addr) : Addr :=
  match a with
  | AddrV6 v _ => if Is4In6 a then AddrV4 (uint 32 v) else a
  | _ => a
  end.

Definition BitLen (a : Addr) : Z :=
  match a with AddrInvalid => 0 | AddrV4 _ => 32 | AddrV6 _ _ => 128 end.

Definition addr_val (a : Addr) : Z :=
  match a with AddrInvalid => 0 | AddrV4 v => v | AddrV6 v _ => v end.

Definition addr_zone (a : Addr) : string :=
  match a with AddrV6 _ z => z | _ => "" end.

Definition withoutZone (a : Addr) : Addr :=
  match a with AddrV6 v _ => AddrV6 v "" | _ => a end.

(** Every value fits its family's width. *)
Definition addr_wf (a : Addr) : Prop :=
  match a with
  | AddrInvalid => True
  | AddrV4 v => in_width 32 v
  | AddrV6 v _ => in_width 128 v
  end.

(** ** Printing *)

Definition dec (z : Z) : string := pretty z.

Definition hex_digit (d : Z) : string :=
  match d with
  | 0 => "0" | 1 => "1" | 2 => "2" | 3 => "3" | 4 => "4" | 5 => "5"
  | 6 => "6" | 7 => "7" | 8 => "8" | 9 => "9" | 10 => "a" | 11 => "b"
  | 12 => "c" | 13 => "d" | 14 => "e" | _ => "f"
  end.

(** A 16-bit group without leading zeros. *)
Definition hex16 (g : Z) : string :=
  let d3 := Z.land (Z.shiftr g 12) 15 in
  let d2 := Z.land (Z.shiftr g 8) 15 in
  let d1 := Z.land (Z.shiftr g 4) 15 in
  let d0 := Z.land g 15 in
  (if 0x1000 <=? g then hex_digit d3 else "") +:+
  (if 0x100 <=? g then hex_digit d2 else "") +:+
  (if 0x10 <=? g then hex_digit d1 else "") +:+ hex_digit d0.

Definition octet (v : Z) (i : Z) : Z := Z.land (Z.shiftr v (8 * i)) 255.

Definition string4 (v : Z) : string :=
  dec (octet v 3) +:+ "." +:+ dec (octet v 2) +:+ "." +:+
  dec (octet v 1) +:+ "." +:+ dec (octet v 0).

Definition groups6 (v : Z) : list Z :=
  (λ i, Z.land (Z.shiftr v (16 * i)) 0xffff) <$> [7; 6; 5; 4; 3; 2; 1; 0].

(** Length of the run of zero groups that starts a list. *)
Fixpoint zero_run (gs : list Z) : nat :=
  match gs with
  | g :: gs' => if g =? 0 then S (zero_run gs') else 0
  | [] => 0
  end.

(** The first longest run of at least two zero groups: start and length. *)
Fixpoint longest_run (i : nat) (gs : list Z) (best : nat * nat) : nat * nat :=
  match gs with
  | [] => best
  | _ :: gs' =>
      let l := zero_run gs in
      longest_run (S i) gs' (if (2 <=? l)%nat && (snd best <? l)%nat then (i, l) else best)
  end.

Definition string6 (v : Z) : string :=
  let gs := groups6 v in
  let '(start, len) := longest_run 0 gs (0%nat, 0%nat) in
  if (len =? 0)%nat then String.concat ":" (hex16 <$> gs)
  else String.concat ":" (hex16 <$> take start gs) +:+ "::" +:+
       String.concat ":" (hex16 <$> drop (start + len) gs).

Definition addr_String (a : Addr) : string :=
  match a with
  | AddrInvalid => "invalid IP"
  | AddrV4 v => string4 v
  | AddrV6 v z =>
      let base := if Is4In6 a then "::ffff:" +:+ string4 (uint 32 v) else string6 v in
      if String.eqb z "" then base else base +:+ "%" +:+ z
  end.

(** ** Prefixes *)

Record Prefix := MkPrefix { prefix_Addr : Addr; prefix_Bits : Z }.

#[global] Instance Prefix_eq_dec : EqDecision Prefix.
Proof. solve_decision. Defined.

#[global] Instance Prefix_countable : Countable Prefix.
Proof.
  refine (inj_countable' (λ p, (prefix_Addr p, prefix_Bits p)) (λ '(a, b), MkPrefix a b) _). by intros [].
Defined.

Definition PrefixZero : Prefix := MkPrefix AddrInvalid (-1).

(** [netip.PrefixFrom]. *)
Definition PrefixFrom (a : Addr) (bits : Z) : Prefix :=
  MkPrefix (withoutZone a)
    (if IsValid a && (0 <=? bits) && (bits <=? BitLen a) then bits else -1).

Definition prefix_IsValid (p : Prefix) : bool := 0 <=? prefix_Bits p.

(** [Prefix.Contains]: same family, no zone, and equal leading bits. *)
Definition prefix_Contains (p : Prefix) (a : Addr) : bool :=
  prefix_IsValid p && String.eqb (addr_zone a) "" &&
  negb (BitLen (prefix_Addr p) =? 0) && (BitLen (prefix_Addr p) =? BitLen a) &&
  (Z.shiftr (Z.lxor (addr_val a) (addr_val (prefix_Addr p)))
     (BitLen a - prefix_Bits p) =? 0).

Definition mask_low (v n : Z) : Z := Z.shiftl (Z.shiftr v n) n.

Definition prefix_Masked (p : Prefix) : Prefix :=
  if prefix_IsValid p then
    match prefix_Addr p with
    | AddrV4 v => MkPrefix (AddrV4 (mask_low v (32 - prefix_Bits p))) (prefix_Bits p)
    | AddrV6 v z => MkPrefix (AddrV6 (mask_low v (128 - prefix_Bits p)) "") (prefix_Bits p)
    | AddrInvalid => PrefixZero
    end
  else PrefixZero.

Definition prefix_String (p : Prefix) : string :=
  if prefix_IsValid p then addr_String (prefix_Addr p) +:+ "/" +:+ dec (prefix_Bits p)
  else "invalid Prefix".

(** What the constructors of the package guarantee of a valid prefix. *)
Definition prefix_wf (p : Prefix) : Prop :=
  addr_wf (prefix_Addr p) ∧ addr_zone (prefix_Addr p) = "" ∧
  (prefix_IsValid p = true →
     IsValid (prefix_Addr p) = true ∧ prefix_Bits p <= BitLen (prefix_Addr p)).

(** A host prefix: [/32] for IPv4, [/128] for IPv6. *)
Definition is_host (p : Prefix) : bool := prefix_Bits p =? BitLen (prefix_Addr p).

(** ** Lemmas *)

Lemma Unmap_wf a : addr_wf a → addr_wf (Unmap a).
Proof.
  destruct a as [|v|v z]; cbn [Unmap]; [done|done|]. intros H.
  destruct (Is4In6 _); [|exact H]. apply uint_range. lia.
Qed.

Lemma Unmap_not_Is4In6 a : Is4In6 (Unmap a) = false.
Proof.
  destruct a as [|v|v z]; cbn [Unmap]; [done|done|].
  destruct (Is4In6 (AddrV6 v z)) eqn:E; [done | exact E].
Qed.

Lemma PrefixFrom_wf a bits : addr_wf a → prefix_wf (PrefixFrom a bits).
Proof.
  intros Ha. unfold PrefixFrom, prefix_wf. simpl. split_and!.
  - by destruct a.
  - by destruct a.
  - unfold prefix_IsValid. simpl. destruct (_ && _ && _) eqn:E; bools; [|lia].
    intros _. by destruct a; naive_solver.
Qed.

(** A host prefix contains exactly its own address. *)
Lemma host_prefix_Contains p a :
  prefix_wf p → is_host p = true → prefix_IsValid p = true →
  prefix_Contains p a = true ↔ a = prefix_Addr p.
Proof.
  intros (Hwf & Hz & Hv) Hh Hvalid. destruct (Hv Hvalid) as [Hva _].
  unfold is_host, prefix_Contains in *. rewrite Hvalid. bools.
  rewrite Hh, String.eqb_eq. destruct p as [pa pb]. simpl in *. split.
  - intros ((([_ Hz'] & Hb0) & Hb) & Hx). rewrite Hb, Z.sub_diag, Z.shiftr_0_r in Hx.
    apply Z.lxor_eq in Hx. destruct a, pa; simpl in *; try done; congruence.
  - intros ->. rewrite Z.sub_diag, Z.lxor_nilpotent, Z.shiftr_0_l.
    split_and!; try done. by destruct pa.
Qed.

(** Containment is scoped to the family of the prefix. *)
Lemma prefix_Contains_family p a :
  prefix_Contains p a = true → BitLen (prefix_Addr p) = BitLen a.
Proof. unfold prefix_Contains. intros H. bools. tauto. Qed.

Example addr_String_v4 : addr_String (AddrV4 1684300801) = "100.100.100.1".
Proof. reflexivity. Qed.
Example addr_String_v6 :
  addr_String (AddrV6 0xfd000000000000000000000000010001 "") = "fd00::1:1".
Proof. reflexivity. Qed.
Example addr_String_zero6 : addr_String (AddrV6 0 "") = "::".
Proof. reflexivity. Qed.
