(* ===== verification/Bytes.v ===== *)
(** * Bytes

    Byte strings as lists of integers, big-endian values, slices and writes,
    and the [netip] addresses that are read from and written to them. *)
From S2P Require Import Prelude NetIP.
Open Scope Z_scope.

Definition byte (b : Z) : Prop := 0 <= b < 256.
Definition bytes (l : list Z) : Prop := Forall byte l.

#[global] Instance bytes_dec l : Decision (bytes l).
Proof. unfold bytes, byte. apply _. Defined.

(** Digits of a base-[b] number, most significant first. *)
Definition be_val (b : Z) (ds : list Z) : Z := foldl (λ v d, v * b + d) 0 ds.

Definition be_value (bs : list Z) : Z := be_val 256 bs.

Fixpoint be_bytes (n : nat) (v : Z) : list Z :=
  match n with O => [] | S n' => be_bytes n' (v / 256) ++ [v mod 256] end.

Definition slice (l : list Z) (i n : nat) : list Z := take n (drop i l).

(** [copy(l[i:], bs)]. *)
Definition put_bytes (l : list Z) (i : nat) (bs : list Z) : list Z :=
  take i l ++ bs ++ drop (i + length bs) l.

Definition AddrFrom4 (bs : list Z) : Addr := AddrV4 (be_value bs).
Definition AddrFrom16 (bs : list Z) : Addr := AddrV6 (be_value bs) "".

(** [netip.AddrFromSlice]: four or sixteen bytes. *)
Definition AddrFromSlice (bs : list Z) : Addr :=
  if (length bs =? 4)%nat then AddrFrom4 bs
  else if (length bs =? 16)%nat then AddrFrom16 bs
  else AddrInvalid.

(** [Addr.AsSlice]; [nil] for the invalid address. *)
Definition AsSlice (a : Addr) : list Z :=
  match a with
  | AddrInvalid => []
  | AddrV4 v => be_bytes 4 v
  | AddrV6 v _ => be_bytes 16 v
  end.

(** ** Lemmas *)

Lemma be_val_app b ds d : be_val b (ds ++ [d]) = be_val b ds * b + d.
Proof. unfold be_val. by rewrite foldl_app. Qed.

Lemma be_val_range b ds :
  0 < b → Forall (λ d, 0 <= d < b) ds → 0 <= be_val b ds < b ^ Z.of_nat (length ds).
Proof.
  intros Hb. induction ds as [|d ds IH] using rev_ind; intros Hds; [vm_compute; by split|].
  apply Forall_app in Hds as [Hds [Hd _]%Forall_cons]. specialize (IH Hds).
  rewrite be_val_app, length_app. simpl. rewrite Nat.add_1_r, Nat2Z.inj_succ, Z.pow_succ_r by lia.
  nia.
Qed.

Lemma length_be_bytes n v : length (be_bytes n v) = n.
Proof. revert v. induction n as [|n IH]; intros v; simpl; [done|]. rewrite length_app, IH. simpl. lia. Qed.

Lemma be_bytes_range n v : bytes (be_bytes n v).
Proof.
  revert v. induction n as [|n IH]; intros v; simpl; [constructor|].
  apply Forall_app. split; [apply IH|]. constructor; [|constructor]. apply Z.mod_pos_bound. lia.
Qed.

Lemma be_value_snoc l b : be_value (l ++ [b]) = be_value l * 256 + b.
Proof. apply be_val_app. Qed.

Lemma be_value_bytes n v : 0 <= v < 256 ^ Z.of_nat n → be_value (be_bytes n v) = v.
Proof.
  revert v. induction n as [|n IH]; intros v Hv; cbn [be_bytes].
  - unfold be_value, be_val. simpl. rewrite Z.pow_0_r in Hv. lia.
  - rewrite be_value_snoc, IH.
    + pose proof (Z.div_mod v 256). lia.
    + rewrite Nat2Z.inj_succ, Z.pow_succ_r in Hv by lia.
      split; [apply Z.div_pos; lia|]. apply Z.div_lt_upper_bound; lia.
Qed.

Lemma be_bytes_value bs : bytes bs → be_bytes (length bs) (be_value bs) = bs.
Proof.
  induction bs as [|b bs IH] using rev_ind; intros Hb; [done|].
  apply Forall_app in Hb as [Hb [Hx _]%Forall_cons]. rewrite length_app, Nat.add_1_r, be_value_snoc.
  cbn [be_bytes]. unfold byte in Hx. rewrite Z.div_add_l, (Z.div_small b 256), Z.add_0_r by lia.
  rewrite (Z.add_comm _ b), Z.mod_add, (Z.mod_small b 256) by lia. by rewrite IH.
Qed.

Lemma length_AsSlice a : length (AsSlice a) = Z.to_nat (BitLen a / 8).
Proof. by destruct a; simpl; rewrite ?length_app, ?length_be_bytes. Qed.

Lemma AsSlice_bytes a : bytes (AsSlice a).
Proof. destruct a; [constructor|apply be_bytes_range..]. Qed.

Lemma AddrFrom4_wf bs : bytes bs → length bs = 4%nat → addr_wf (AddrFrom4 bs).
Proof.
  intros Hb Hl. pose proof (be_val_range 256 bs ltac:(lia) Hb) as Hr. rewrite Hl in Hr. exact Hr.
Qed.

Lemma AddrFrom16_wf bs : bytes bs → length bs = 16%nat → addr_wf (AddrFrom16 bs).
Proof.
  intros Hb Hl. pose proof (be_val_range 256 bs ltac:(lia) Hb) as Hr. rewrite Hl in Hr. exact Hr.
Qed.
