(* ===== verification/ConnTrack.v ===== *)
(** * Connection tracking: what the trackers share

    [client/firewall/uspfilter/conntrack/common.go] and the flow-event types
    of [client/internal/netflow/types/types.go].  A tracker's table is a Go
    map; [None] is the nil map a closed tracker is left with.  Flow events
    are what the code hands to [FlowLogger.StoreEvent], in order. *)
From S2P Require Import Prelude NetIP.
Open Scope Z_scope.

(** What one operation reads from outside: the clock, the identifier
    [uuid.New] returns and the run-time choice of a map's iteration order. *)
Record Env := { env_now : Z; env_uuid : N; env_seed : nat }.

Inductive Direction := DirectionUnknown | Ingress | Egress.
Inductive EventType := TypeUnknown | TypeStart | TypeEnd | TypeDrop.

#[global] Instance Direction_eq_dec : EqDecision Direction.
Proof. solve_decision. Defined.
#[global] Instance EventType_eq_dec : EqDecision EventType.
Proof. solve_decision. Defined.

(** IP protocol numbers of [nftypes.Protocol]. *)
Definition ProtocolUnknown : Z := 0.
Definition ICMP : Z := 1.
Definition TCP : Z := 6.
Definition UDP : Z := 17.
Definition ICMPv6 : Z := 58.

Record EventFields := {
  ev_FlowID : N;
  ev_Type : EventType;
  ev_RuleID : list Z;
  ev_Direction : Direction;
  ev_Protocol : Z;
  ev_SourceIP : Addr;
  ev_DestIP : Addr;
  ev_SourcePort : Z;
  ev_DestPort : Z;
  ev_ICMPType : Z;
  ev_ICMPCode : Z;
  ev_RxPackets : Z;
  ev_TxPackets : Z;
  ev_RxBytes : Z;
  ev_TxBytes : Z;
}.

(** Events of one flow, of one type. *)
Definition is_event (ty : EventType) (f : N) (e : EventFields) : bool :=
  bool_decide (ev_Type e = ty) && bool_decide (ev_FlowID e = f).

Record BaseConnTrack := {
  FlowId : N;
  conn_Direction : Direction;
  SourceIP : Addr;
  DestIP : Addr;
  lastSeen : Z;
  PacketsTx : Z;
  PacketsRx : Z;
  BytesTx : Z;
  BytesRx : Z;
  DNATOrigPort : Z;
}.

(** A zeroed [BaseConnTrack] with the fields the composite literals set. *)
Definition newBase (id : N) (dir : Direction) (src dst : Addr) (origPort : Z) : BaseConnTrack :=
  {| FlowId := id; conn_Direction := dir; SourceIP := src; DestIP := dst;
     lastSeen := 0; PacketsTx := 0; PacketsRx := 0; BytesTx := 0; BytesRx := 0;
     DNATOrigPort := uint 32 origPort |}.

Definition UpdateLastSeen (now : Z) (b : BaseConnTrack) : BaseConnTrack :=
  {| FlowId := FlowId b; conn_Direction := conn_Direction b;
     SourceIP := SourceIP b; DestIP := DestIP b; lastSeen := now;
     PacketsTx := PacketsTx b; PacketsRx := PacketsRx b;
     BytesTx := BytesTx b; BytesRx := BytesRx b; DNATOrigPort := DNATOrigPort b |}.

Definition UpdateCounters (dir : Direction) (bytes : Z) (b : BaseConnTrack) : BaseConnTrack :=
  if decide (dir = Egress) then
    {| FlowId := FlowId b; conn_Direction := conn_Direction b;
       SourceIP := SourceIP b; DestIP := DestIP b; lastSeen := lastSeen b;
       PacketsTx := uint 64 (PacketsTx b + 1); PacketsRx := PacketsRx b;
       BytesTx := uint 64 (BytesTx b + uint 64 bytes); BytesRx := BytesRx b;
       DNATOrigPort := DNATOrigPort b |}
  else
    {| FlowId := FlowId b; conn_Direction := conn_Direction b;
       SourceIP := SourceIP b; DestIP := DestIP b; lastSeen := lastSeen b;
       PacketsTx := PacketsTx b; PacketsRx := uint 64 (PacketsRx b + 1);
       BytesTx := BytesTx b; BytesRx := uint 64 (BytesRx b + uint 64 bytes);
       DNATOrigPort := DNATOrigPort b |}.

(** [Time.Sub] saturates at the bounds of the 64-bit [Duration]. *)
Definition time_Sub (t u : Z) : Z :=
  Z.max (- 2 ^ 63) (Z.min (2 ^ 63 - 1) (t - u)).

Definition timeoutExceeded (now timeout : Z) (b : BaseConnTrack) : bool :=
  timeout <? time_Sub now (lastSeen b).

Record ConnKey := { SrcIP : Addr; DstIP : Addr; SrcPort : Z; DstPort : Z }.

#[global] Instance ConnKey_eq_dec : EqDecision ConnKey.
Proof. solve_decision. Defined.
#[global] Instance ConnKey_countable : Countable ConnKey.
Proof.
  apply (inj_countable' (λ k, (SrcIP k, DstIP k, SrcPort k, DstPort k))
    (λ '(a, b, c, d), {| SrcIP := a; DstIP := b; SrcPort := c; DstPort := d |})).
  by intros [].
Defined.

Definition MkKey (src dst : Addr) (sp dp : Z) : ConnKey :=
  {| SrcIP := src; DstIP := dst; SrcPort := sp; DstPort := dp |}.

(** The key of the packets that flow the other way. *)
Definition reverse_key (k : ConnKey) : ConnKey :=
  MkKey (DstIP k) (SrcIP k) (DstPort k) (SrcPort k).

(** ** Environment overrides

    [Getenv] is the process environment and [ParseDuration] the Standard
    Library's parser; both stay arguments. *)
Section Overrides.
Context (Getenv : string → string) (ParseDuration : string → option Z).

Definition envDuration (name : string) (def : Z) : Z :=
  let v := Getenv name in
  if String.eqb v "" then def
  else match ParseDuration v with
       | None => def
       | Some d => if d <=? 0 then def else d
       end.

Definition envInt (name : string) (def : Z) : Z :=
  let v := Getenv name in
  if String.eqb v "" then def
  else match Atoi v with
       | None => def
       | Some n => if n <=? 0 then def else n
       end.

Lemma envDuration_pos name def : 0 < def → 0 < envDuration name def.
Proof. intros. unfold envDuration. split_cases; bools; lia. Qed.

Lemma envInt_pos name def : 0 < def → 0 < envInt name def.
Proof. intros. unfold envInt. split_cases; bools; lia. Qed.
End Overrides.

(** ** Bounded eviction scan

    The loop shared by the [evictOneLocked] methods: it keeps the entry with
    the smallest [lastSeen] among the first [evictSampleSize] entries the
    iteration yields. *)
Definition evictSampleSize : nat := 8.

Section Scan.
Context {K C : Type} (seen : C → Z).

Fixpoint scan_oldest (sampled : nat) (l : list (K * C)) (cand : option (K * Z))
    : option (K * Z) :=
  match l with
  | [] => cand
  | (k, c) :: l' =>
      let cand' :=
        match cand with
        | None => Some (k, seen c)
        | Some (_, s) => if seen c <? s then Some (k, seen c) else cand
        end in
      if (evictSampleSize <=? S sampled)%nat then cand'
      else scan_oldest (S sampled) l' cand'
  end.

(** The candidate comes from the sample, or was there before. *)
Lemma scan_oldest_elem sampled l cand k s :
  scan_oldest sampled l cand = Some (k, s) →
  cand = Some (k, s) ∨ ∃ c, (k, c) ∈ l ∧ s = seen c.
Proof.
  revert sampled cand. induction l as [|[k' c'] l IH]; intros n cand; cbn [scan_oldest]; [auto|].
  set (cand' := match cand with None => _ | Some _ => _ end).
  assert (Hc : cand' = cand ∨ cand' = Some (k', seen c')).
  { subst cand'. destruct cand as [[? ?]|]; [destruct (_ <? _)|]; auto. }
  intros H.
  assert (cand' = Some (k, s) ∨ ∃ c, (k, c) ∈ l ∧ s = seen c) as [E|(c & Hin & ->)].
  { destruct (_ <=? _)%nat; [by left | by eapply IH]. }
  - destruct Hc as [Hc|Hc]; rewrite Hc in E; [by left|].
    injection E as <- <-. right. exists c'. split; [left|done].
  - right. exists c. split; [by right|done].
Qed.

(** A non-empty table always yields a candidate. *)
Lemma scan_oldest_is_Some sampled l cand :
  is_Some cand → is_Some (scan_oldest sampled l cand).
Proof.
  revert sampled cand. induction l as [|[k c] l IH]; intros n cand Hc; cbn [scan_oldest]; [done|].
  destruct Hc as [[k' s] ->].
  destruct (_ <=? _)%nat; [|apply IH]; destruct (_ <? _); eauto.
Qed.

Lemma scan_oldest_nonempty l : l ≠ [] → is_Some (scan_oldest 0 l None).
Proof.
  destruct l as [|[k c] l]; [done|]. intros _. cbn [scan_oldest].
  apply scan_oldest_is_Some. eauto.
Qed.

(** The candidate is at most as recent as every entry of the sample. *)
Lemma scan_oldest_min sampled l cand k s :
  scan_oldest sampled l cand = Some (k, s) →
  (∀ k' s', cand = Some (k', s') → s <= s') ∧
  (∀ k' c, (k', c) ∈ take (evictSampleSize - sampled) l → s <= seen c).
Proof.
  revert sampled cand. induction l as [|[k0 c0] l IH]; intros n cand; cbn [scan_oldest].
  { intros ->. split; [by intros ?? [= <- <-]|]. rewrite take_nil.
    intros k' c H. by apply elem_of_nil in H. }
  set (cand' := match cand with None => _ | Some _ => _ end).
  assert (Hc : (∀ k' s', cand = Some (k', s') → ∃ k'' s'', cand' = Some (k'', s'') ∧ s'' <= s')
             ∧ ∃ k'' s'', cand' = Some (k'', s'') ∧ s'' <= seen c0).
  { subst cand'. destruct cand as [[k1 s1]|]; [destruct (Z.ltb_spec (seen c0) s1)|];
      split; intros; simplify_eq; eauto 6 using Z.lt_le_incl, Z.le_refl. }
  destruct Hc as [Hcand (k2 & s2 & Hc' & Hle)]. intros H.
  assert (s <= s2 ∧ ∀ k' c, (k', c) ∈ take (evictSampleSize - S n) l → s <= seen c) as [Hs Hl].
  { destruct (Nat.leb_spec evictSampleSize (S n)).
    - rewrite H in Hc'. simplify_eq. split; [done|].
      replace (evictSampleSize - S n)%nat with 0%nat by lia.
      intros ?? Hin. by apply elem_of_nil in Hin.
    - apply IH in H as [Ha Hb]. split; [by eapply Ha | exact Hb]. }
  split.
  - intros k' s' E. destruct (Hcand _ _ E) as (? & ? & E' & ?). simplify_eq. lia.
  - intros k' c. destruct (evictSampleSize - n)%nat as [|j] eqn:Ej; simpl.
    { intros Hin. by apply elem_of_nil in Hin. }
    replace j with (evictSampleSize - S n)%nat by lia.
    intros [E|Hin]%elem_of_cons; [simplify_eq; lia | by eapply Hl].
Qed.
End Scan.

(** ** Base lemmas *)

Definition base_wf (b : BaseConnTrack) : Prop :=
  in_width 64 (PacketsTx b) ∧ in_width 64 (PacketsRx b) ∧
  in_width 64 (BytesTx b) ∧ in_width 64 (BytesRx b) ∧ in_width 32 (DNATOrigPort b).

Lemma newBase_wf id dir src dst p : base_wf (newBase id dir src dst p).
Proof. unfold base_wf; simpl. split_and!; try (by apply uint_range; lia); done. Qed.

Lemma UpdateLastSeen_wf now b : base_wf b → base_wf (UpdateLastSeen now b).
Proof. done. Qed.

Lemma UpdateCounters_wf dir n b : base_wf b → base_wf (UpdateCounters dir n b).
Proof.
  unfold base_wf, UpdateCounters. intros (?&?&?&?&?).
  case_decide; simpl; split_and!; try done; apply uint_range; lia.
Qed.

#[export] Hint Resolve newBase_wf UpdateLastSeen_wf UpdateCounters_wf : netbird.

Lemma UpdateCounters_id dir n b :
  FlowId (UpdateCounters dir n b) = FlowId b ∧
  SourceIP (UpdateCounters dir n b) = SourceIP b ∧
  DestIP (UpdateCounters dir n b) = DestIP b ∧
  conn_Direction (UpdateCounters dir n b) = conn_Direction b ∧
  lastSeen (UpdateCounters dir n b) = lastSeen b ∧
  DNATOrigPort (UpdateCounters dir n b) = DNATOrigPort b.
Proof. unfold UpdateCounters. by case_decide. Qed.

Lemma reverse_key_involutive k : reverse_key (reverse_key k) = k.
Proof. by destruct k. Qed.
