(* ===== verification/TCPTrack.v ===== *)
(** * TCP connection tracking

    [client/firewall/uspfilter/conntrack/tcp.go]: the connection state
    machine, the table with its cap and eviction, the periodic clean-up and
    the flow events.  Every operation is the whole method; a write to the nil
    map of a closed tracker is a run-time panic, the result [None]. *)
From S2P Require Import Prelude NetIP ConnTrack.
Open Scope Z_scope.

Definition TCPFin : Z := 0x01.
Definition TCPSyn : Z := 0x02.
Definition TCPRst : Z := 0x04.
Definition TCPPush : Z := 0x08.
Definition TCPAck : Z := 0x10.
Definition TCPUrg : Z := 0x20.

(** Durations in nanoseconds. *)
Definition Second : Z := 1000000000.
Definition MSL : Z := 120 * Second.
Definition TimeWaitTimeout : Z := 2 * MSL.
Definition DefaultTCPTimeout : Z := 3 * 3600 * Second.
Definition TCPHandshakeTimeout : Z := 60 * Second.
Definition FinWaitTimeout : Z := 60 * Second.
Definition CloseWaitTimeout : Z := 60 * Second.
Definition LastAckTimeout : Z := 30 * Second.
Definition DefaultMaxTCPEntries : Z := 65536.

(** In the order of the [iota] block: [TCPStateNew] is the zero value, which
    [nextState] also uses for "no transition". *)
Inductive TCPState :=
| TCPStateNew | TCPStateSynSent | TCPStateSynReceived | TCPStateEstablished
| TCPStateFinWait1 | TCPStateFinWait2 | TCPStateClosing | TCPStateTimeWait
| TCPStateCloseWait | TCPStateLastAck | TCPStateClosed.

#[global] Instance TCPState_eq_dec : EqDecision TCPState.
Proof. solve_decision. Defined.

Record TCPConnTrack := {
  tcp_base : BaseConnTrack;
  tcp_SourcePort : Z;
  tcp_DestPort : Z;
  tcp_state : TCPState;
  tcp_tombstone : bool;
}.

Definition GetState (c : TCPConnTrack) : TCPState := tcp_state c.

Definition SetState (s : TCPState) (c : TCPConnTrack) : TCPConnTrack :=
  {| tcp_base := tcp_base c; tcp_SourcePort := tcp_SourcePort c;
     tcp_DestPort := tcp_DestPort c; tcp_state := s;
     tcp_tombstone := tcp_tombstone c |}.

Definition SetTombstone (c : TCPConnTrack) : TCPConnTrack :=
  {| tcp_base := tcp_base c; tcp_SourcePort := tcp_SourcePort c;
     tcp_DestPort := tcp_DestPort c; tcp_state := tcp_state c;
     tcp_tombstone := true |}.

Definition set_tcp_base (b : BaseConnTrack) (c : TCPConnTrack) : TCPConnTrack :=
  {| tcp_base := b; tcp_SourcePort := tcp_SourcePort c;
     tcp_DestPort := tcp_DestPort c; tcp_state := tcp_state c;
     tcp_tombstone := tcp_tombstone c |}.

Definition CompareAndSwapState (old new : TCPState) (c : TCPConnTrack) : TCPConnTrack * bool :=
  if decide (tcp_state c = old) then (SetState new c, true) else (c, false).

Definition IsTombstone (c : TCPConnTrack) : bool := tcp_tombstone c.

Definition IsSupersededBy (flags : Z) (c : TCPConnTrack) : bool :=
  if tcp_tombstone c then true
  else has flags TCPSyn && hasnt flags TCPAck && bool_decide (tcp_state c = TCPStateTimeWait).

Definition isValidFlagCombination (flags : Z) : bool :=
  if has flags TCPSyn && has flags TCPFin then false
  else if has flags TCPRst && (has flags TCPSyn || has flags TCPFin) then false
  else true.

Definition tcp_sendEvent (typ : EventType) (c : TCPConnTrack) (ruleID : list Z) : EventFields :=
  let b := tcp_base c in
  let counters := bool_decide (typ = TypeEnd) in
  {| ev_FlowID := FlowId b; ev_Type := typ; ev_RuleID := ruleID;
     ev_Direction := conn_Direction b; ev_Protocol := TCP;
     ev_SourceIP := SourceIP b; ev_DestIP := DestIP b;
     ev_SourcePort := tcp_SourcePort c; ev_DestPort := tcp_DestPort c;
     ev_ICMPType := 0; ev_ICMPCode := 0;
     ev_RxPackets := if counters then PacketsRx b else 0;
     ev_TxPackets := if counters then PacketsTx b else 0;
     ev_RxBytes := if counters then BytesRx b else 0;
     ev_TxBytes := if counters then BytesTx b else 0 |}.

(** ** The state table *)

Definition transNew (flags : Z) (connDir : Direction) (_ : bool) : TCPState :=
  if has flags TCPSyn && hasnt flags TCPAck then
    if decide (connDir = Egress) then TCPStateSynSent else TCPStateSynReceived
  else TCPStateNew.

Definition transSynSent (flags : Z) (_ : Direction) (same : bool) : TCPState :=
  if has flags TCPSyn && has flags TCPAck then
    if same then TCPStateSynReceived else TCPStateEstablished
  else TCPStateNew.

Definition transSynReceived (flags : Z) (_ : Direction) (same : bool) : TCPState :=
  if has flags TCPAck && hasnt flags TCPSyn && same then TCPStateEstablished
  else TCPStateNew.

Definition transEstablished (flags : Z) (_ : Direction) (same : bool) : TCPState :=
  if hasnt flags TCPFin then TCPStateNew
  else if same then TCPStateFinWait1 else TCPStateCloseWait.

Definition transFinWait1 (flags : Z) (_ : Direction) (same : bool) : TCPState :=
  if same then TCPStateNew
  else if has flags TCPFin && has flags TCPAck then TCPStateTimeWait
  else if has flags TCPFin then TCPStateClosing
  else if has flags TCPAck then TCPStateFinWait2
  else TCPStateNew.

Definition transFinWait2 (flags : Z) (_ : Direction) (same : bool) : TCPState :=
  if has flags TCPFin && negb same then TCPStateTimeWait else TCPStateNew.

Definition transClosing (flags : Z) (_ : Direction) (same : bool) : TCPState :=
  if has flags TCPAck && negb same then TCPStateTimeWait else TCPStateNew.

Definition transCloseWait (flags : Z) (_ : Direction) (same : bool) : TCPState :=
  if has flags TCPFin && same then TCPStateLastAck else TCPStateNew.

Definition transLastAck (flags : Z) (_ : Direction) (same : bool) : TCPState :=
  if has flags TCPAck && negb same then TCPStateClosed else TCPStateNew.

Definition stateTable (s : TCPState) : option (Z → Direction → bool → TCPState) :=
  match s with
  | TCPStateNew => Some transNew
  | TCPStateSynSent => Some transSynSent
  | TCPStateSynReceived => Some transSynReceived
  | TCPStateEstablished => Some transEstablished
  | TCPStateFinWait1 => Some transFinWait1
  | TCPStateFinWait2 => Some transFinWait2
  | TCPStateClosing => Some transClosing
  | TCPStateCloseWait => Some transCloseWait
  | TCPStateLastAck => Some transLastAck
  | TCPStateTimeWait | TCPStateClosed => None
  end.

Definition nextState (cur : TCPState) (connDir packetDir : Direction) (flags : Z) : TCPState :=
  match stateTable cur with
  | None => TCPStateNew
  | Some fn => fn flags connDir (bool_decide (packetDir = connDir))
  end.

(** ** One packet on one connection *)

Definition handleRst (c : TCPConnTrack) (cur : TCPState) (packetDir : Direction)
    : TCPConnTrack * list EventFields :=
  if decide (cur = TCPStateTimeWait) then (c, [])
  else if bool_decide (cur = TCPStateSynSent) &&
          bool_decide (packetDir = conn_Direction (tcp_base c)) then (c, [])
  else
    let '(c', ok) := CompareAndSwapState cur TCPStateClosed c in
    if negb ok then (c', [])
    else let c'' := SetTombstone c' in (c'', [tcp_sendEvent TypeEnd c'' []]).

Definition onTransition (c : TCPConnTrack) (to : TCPState) : TCPConnTrack * list EventFields :=
  match to with
  | TCPStateTimeWait => (c, [tcp_sendEvent TypeEnd c []])
  | TCPStateClosed => let c' := SetTombstone c in (c', [tcp_sendEvent TypeEnd c' []])
  | _ => (c, [])
  end.

Definition updateState (now : Z) (c : TCPConnTrack) (flags : Z) (packetDir : Direction) (size : Z)
    : TCPConnTrack * list EventFields :=
  let c := set_tcp_base (UpdateCounters packetDir size (tcp_base c)) c in
  if negb (isValidFlagCombination flags) then (c, [])
  else
    let c := set_tcp_base (UpdateLastSeen now (tcp_base c)) c in
    let cur := GetState c in
    if has flags TCPRst then handleRst c cur packetDir
    else
      let new := nextState cur (conn_Direction (tcp_base c)) packetDir flags in
      if decide (new = TCPStateNew) then (c, [])
      else
        let '(c', ok) := CompareAndSwapState cur new c in
        if ok then onTransition c' new else (c', []).

Definition isValidStateForFlags (s : TCPState) (flags : Z) : bool :=
  if has flags TCPRst then
    if decide (s = TCPStateSynSent) then has flags TCPAck else true
  else
    match s with
    | TCPStateNew => has flags TCPSyn && hasnt flags TCPAck
    | TCPStateSynSent => has flags TCPSyn && has flags TCPAck
    | TCPStateSynReceived | TCPStateEstablished => has flags TCPAck
    | TCPStateFinWait1 | TCPStateFinWait2 => has flags TCPFin || has flags TCPAck
    | TCPStateClosing | TCPStateTimeWait => has flags TCPAck
    | TCPStateCloseWait => has flags TCPFin || has flags TCPAck
    | TCPStateLastAck | TCPStateClosed => has flags TCPAck
    end.

(** ** The tracker *)

Record TCPTracker := {
  tt_connections : option (gmap ConnKey TCPConnTrack);
  tt_timeout : Z;
  tt_waitTimeout : Z;
  tt_finWaitTimeout : Z;
  tt_closeWaitTimeout : Z;
  tt_lastAckTimeout : Z;
  tt_maxEntries : Z;
  tt_events : list EventFields;
}.

(** Reading a nil map is reading an empty one. *)
Definition tcp_conns (t : TCPTracker) : gmap ConnKey TCPConnTrack :=
  default ∅ (tt_connections t).

Definition set_tcp_table (m : option (gmap ConnKey TCPConnTrack)) (evs : list EventFields)
    (t : TCPTracker) : TCPTracker :=
  {| tt_connections := m; tt_timeout := tt_timeout t; tt_waitTimeout := tt_waitTimeout t;
     tt_finWaitTimeout := tt_finWaitTimeout t; tt_closeWaitTimeout := tt_closeWaitTimeout t;
     tt_lastAckTimeout := tt_lastAckTimeout t; tt_maxEntries := tt_maxEntries t;
     tt_events := tt_events t ++ evs |}.

(** Mutation through a pointer the table holds: the entry changes in place. *)
Definition tcp_store (key : ConnKey) (r : TCPConnTrack * list EventFields) (t : TCPTracker)
    : TCPTracker :=
  set_tcp_table (<[key := fst r]> <$> tt_connections t) (snd r) t.

Definition NewTCPTracker (Getenv : string → string) (ParseDuration : string → option Z)
    (timeout : Z) : TCPTracker :=
  let '(timeout, wait) :=
    if timeout =? 0 then (DefaultTCPTimeout, TimeWaitTimeout)
    else (timeout, Z.quot timeout 45) in
  {| tt_connections := Some ∅; tt_timeout := timeout; tt_waitTimeout := wait;
     tt_finWaitTimeout :=
       envDuration Getenv ParseDuration "NB_CONNTRACK_TCP_FIN_WAIT_TIMEOUT" FinWaitTimeout;
     tt_closeWaitTimeout :=
       envDuration Getenv ParseDuration "NB_CONNTRACK_TCP_CLOSE_WAIT_TIMEOUT" CloseWaitTimeout;
     tt_lastAckTimeout :=
       envDuration Getenv ParseDuration "NB_CONNTRACK_TCP_LAST_ACK_TIMEOUT" LastAckTimeout;
     tt_maxEntries := envInt Getenv "NB_CONNTRACK_TCP_MAX" DefaultMaxTCPEntries;
     tt_events := [] |}.

(** The tracker after the call, the stored DNAT port and [exists]. *)
Definition tcp_updateIfExists (env : Env) (t : TCPTracker) (src dst : Addr) (sp dp : Z)
    (flags : Z) (dir : Direction) (size : Z) : TCPTracker * Z * bool :=
  let key := MkKey src dst sp dp in
  match tcp_conns t !! key with
  | Some conn =>
      if negb (IsSupersededBy flags conn) then
        let r := updateState (env_now env) conn flags dir size in
        (tcp_store key r t, uint 16 (DNATOrigPort (tcp_base (fst r))), true)
      else (t, 0, false)
  | None => (t, 0, false)
  end.

Section TCPTable.
Context {MO : MapOrder}.

(** The scan of [evictOneLocked]: a tombstone ends it at once; otherwise
    the oldest of the sample. *)
Fixpoint tcp_evict_scan (sampled : nat) (l : list (ConnKey * TCPConnTrack))
    (cand : option (ConnKey * Z)) : ConnKey + option (ConnKey * Z) :=
  match l with
  | [] => inr cand
  | (k, c) :: l' =>
      if IsTombstone c then inl k
      else
        let seen := lastSeen (tcp_base c) in
        let cand' :=
          match cand with
          | None => Some (k, seen)
          | Some (_, s) => if seen <? s then Some (k, seen) else cand
          end in
        if (evictSampleSize <=? S sampled)%nat then inr cand'
        else tcp_evict_scan (S sampled) l' cand'
  end.

Definition tcp_evictOneLocked (seed : nat) (t : TCPTracker) : TCPTracker :=
  match tt_connections t with
  | None => t
  | Some m =>
      match tcp_evict_scan 0 (range_list seed m) None with
      | inl k => set_tcp_table (Some (delete k m)) [] t
      | inr (Some (k, _)) =>
          let evs :=
            match m !! k with
            | Some c =>
                if negb (bool_decide (GetState c = TCPStateTimeWait)) && negb (IsTombstone c)
                then [tcp_sendEvent TypeEnd c []] else []
            | None => []
            end in
          set_tcp_table (Some (delete k m)) evs t
      | inr None => t
      end
  end.

Definition tcp_track (env : Env) (t : TCPTracker) (src dst : Addr) (sp dp : Z) (flags : Z)
    (dir : Direction) (ruleID : list Z) (size origPort : Z) : option TCPTracker :=
  let '(t, _, exists_) := tcp_updateIfExists env t src dst sp dp flags dir size in
  if exists_ || hasnt flags TCPSyn then Some t
  else if negb (isValidFlagCombination flags) then Some t
  else
    let conn :=
      {| tcp_base := newBase (env_uuid env) dir src dst origPort;
         tcp_SourcePort := sp; tcp_DestPort := dp;
         tcp_state := TCPStateNew; tcp_tombstone := false |} in
    let '(conn, evs) := updateState (env_now env) conn flags dir size in
    let t := set_tcp_table (tt_connections t) evs t in
    let t :=
      if (0 <? tt_maxEntries t) && (tt_maxEntries t <=? Z.of_nat (base.size (tcp_conns t)))
      then tcp_evictOneLocked (env_seed env) t else t in
    match tt_connections t with
    | None => None
    | Some m =>
        Some (set_tcp_table (Some (<[MkKey src dst sp dp := conn]> m))
                [tcp_sendEvent TypeStart conn ruleID] t)
    end.

Definition tcp_TrackOutbound (env : Env) (t : TCPTracker) (src dst : Addr) (sp dp : Z)
    (flags size : Z) : option (TCPTracker * Z) :=
  let '(t, origPort, exists_) := tcp_updateIfExists env t dst src dp sp flags Egress size in
  if exists_ then Some (t, origPort)
  else
    match tcp_track env t src dst sp dp flags Egress [] size 0 with
    | Some t => Some (t, 0)
    | None => None
    end.

Definition tcp_TrackInbound (env : Env) (t : TCPTracker) (src dst : Addr) (sp dp : Z)
    (flags : Z) (ruleID : list Z) (size dnatOrigPort : Z) : option TCPTracker :=
  tcp_track env t src dst sp dp flags Ingress ruleID size dnatOrigPort.

Definition tcp_IsValidInbound (env : Env) (t : TCPTracker) (src dst : Addr) (sp dp : Z)
    (flags size : Z) : TCPTracker * bool :=
  let key := MkKey dst src dp sp in
  match tcp_conns t !! key with
  | None => (t, false)
  | Some conn =>
      if IsSupersededBy flags conn then (t, false)
      else if negb (isValidFlagCombination flags) then (t, false)
      else if negb (isValidStateForFlags (GetState conn) flags) then (t, false)
      else (tcp_store key (updateState (env_now env) conn flags Ingress size) t, true)
  end.

(** The timeout [cleanup] applies to a state. *)
Definition cleanup_timeout (t : TCPTracker) (s : TCPState) : Z :=
  match s with
  | TCPStateTimeWait => tt_waitTimeout t
  | TCPStateEstablished => tt_timeout t
  | TCPStateFinWait1 | TCPStateFinWait2 | TCPStateClosing => tt_finWaitTimeout t
  | TCPStateCloseWait => tt_closeWaitTimeout t
  | TCPStateLastAck => tt_lastAckTimeout t
  | _ => TCPHandshakeTimeout
  end.

(** One iteration of the loop of [cleanup]. *)
Definition tcp_cleanup_entry (now : Z) (t : TCPTracker) (kc : ConnKey * TCPConnTrack)
    : TCPTracker :=
  let '(key, conn) := kc in
  if IsTombstone conn then set_tcp_table (delete key <$> tt_connections t) [] t
  else
    let s := GetState conn in
    if timeoutExceeded now (cleanup_timeout t s) (tcp_base conn) then
      set_tcp_table (delete key <$> tt_connections t)
        (if bool_decide (s = TCPStateTimeWait) then [] else [tcp_sendEvent TypeEnd conn []]) t
    else t.

Definition tcp_cleanup (env : Env) (t : TCPTracker) : TCPTracker :=
  foldl (tcp_cleanup_entry (env_now env)) t (range_list (env_seed env) (tcp_conns t)).
End TCPTable.

Definition tcp_GetConnection (t : TCPTracker) (src : Addr) (sp : Z) (dst : Addr) (dp : Z)
    : option TCPConnTrack :=
  tcp_conns t !! MkKey src dst sp dp.

Definition tcp_Close (t : TCPTracker) : TCPTracker := set_tcp_table None [] t.
