(* ===== verification/TCPTrackFacts.v ===== *)
(** * Properties of the TCP tracker

    The state machine only moves forward; the table stays well formed and
    within its cap; every flow that starts ends exactly once; an inbound
    packet is accepted only on a connection that a SYN opened. *)
From S2P Require Import Prelude NetIP ConnTrack TCPTrack.
Open Scope Z_scope.

(** ** The state machine *)

(** Position of a state on the way from opening to closing. *)
Definition state_rank (s : TCPState) : Z :=
  match s with
  | TCPStateNew => 0 | TCPStateSynSent => 1 | TCPStateSynReceived => 2
  | TCPStateEstablished => 3 | TCPStateFinWait1 => 4 | TCPStateCloseWait => 4
  | TCPStateFinWait2 => 5 | TCPStateClosing => 5 | TCPStateLastAck => 5
  | TCPStateTimeWait => 6 | TCPStateClosed => 7
  end.

Lemma state_rank_bounds s : 0 <= state_rank s <= 7.
Proof. destruct s; simpl; lia. Qed.

Lemma nextState_rank s cd pd flags :
  nextState s cd pd flags = TCPStateNew ∨
  state_rank s < state_rank (nextState s cd pd flags).
Proof.
  unfold nextState. destruct (stateTable s) as [fn|] eqn:E; [|by left].
  destruct s; simplify_eq/=;
    unfold transNew, transSynSent, transSynReceived, transEstablished, transFinWait1,
      transFinWait2, transClosing, transCloseWait, transLastAck;
    split_cases; auto; right; simpl; lia.
Qed.

Lemma nextState_Closed s cd pd flags :
  nextState s cd pd flags = TCPStateClosed → s = TCPStateLastAck.
Proof.
  unfold nextState. destruct s; simpl;
    unfold transNew, transSynSent, transSynReceived, transEstablished, transFinWait1,
      transFinWait2, transClosing, transCloseWait, transLastAck; by split_cases.
Qed.

(** ** One packet on one connection *)

(** A connection still owes its end event. *)
Definition live (c : TCPConnTrack) : bool :=
  negb (tcp_tombstone c) && negb (bool_decide (tcp_state c = TCPStateTimeWait)).

Definition live_flow (f : N) (c : TCPConnTrack) : bool :=
  live c && bool_decide (FlowId (tcp_base c) = f).

(** A connection is tombstoned exactly when it is closed. *)
Definition conn_wf (c : TCPConnTrack) : Prop :=
  base_wf (tcp_base c) ∧ (tcp_tombstone c = true ↔ tcp_state c = TCPStateClosed).

Definition same_identity (c c' : TCPConnTrack) : Prop :=
  FlowId (tcp_base c') = FlowId (tcp_base c) ∧
  conn_Direction (tcp_base c') = conn_Direction (tcp_base c) ∧
  SourceIP (tcp_base c') = SourceIP (tcp_base c) ∧
  DestIP (tcp_base c') = DestIP (tcp_base c) ∧
  DNATOrigPort (tcp_base c') = DNATOrigPort (tcp_base c) ∧
  tcp_SourcePort c' = tcp_SourcePort c ∧ tcp_DestPort c' = tcp_DestPort c.

(** Every outcome of [updateState], as a relation: the counters always move;
    the state and the events follow one of these cases. *)
Inductive packet_effect (c : TCPConnTrack) : TCPConnTrack → list EventFields → Prop :=
| effect_stay c' :
    tcp_state c' = tcp_state c → tcp_tombstone c' = tcp_tombstone c →
    packet_effect c c' []
| effect_move c' s :
    tcp_state c' = s → tcp_tombstone c' = tcp_tombstone c →
    s ≠ TCPStateTimeWait → s ≠ TCPStateClosed → tcp_state c ≠ TCPStateTimeWait →
    state_rank (tcp_state c) < state_rank s →
    packet_effect c c' []
| effect_time_wait c' :
    tcp_state c' = TCPStateTimeWait → tcp_tombstone c' = tcp_tombstone c →
    tcp_state c ≠ TCPStateTimeWait → tcp_state c ≠ TCPStateClosed →
    packet_effect c c' [tcp_sendEvent TypeEnd c' []]
| effect_close c' :
    tcp_state c' = TCPStateClosed → tcp_tombstone c' = true →
    tcp_state c ≠ TCPStateTimeWait →
    packet_effect c c' [tcp_sendEvent TypeEnd c' []].

Lemma updateState_effect now c flags dir size c' evs :
  updateState now c flags dir size = (c', evs) → packet_effect c c' evs.
Proof.
  unfold updateState, handleRst, onTransition, CompareAndSwapState.
  set (c1 := set_tcp_base (UpdateCounters _ _ _) c).
  set (c2 := set_tcp_base (UpdateLastSeen _ _) c1).
  change (GetState c2) with (tcp_state c). change (tcp_state c2) with (tcp_state c).
  destruct (isValidFlagCombination flags) eqn:Ev; simpl;
    [|intros [= <- <-]; by apply effect_stay].
  destruct (has flags TCPRst) eqn:Er.
  - case_decide; [intros [= <- <-]; by apply effect_stay|].
    destruct (_ && _); [intros [= <- <-]; by apply effect_stay|].
    rewrite decide_True by done. intros [= <- <-]. by apply effect_close.
  - set (new := nextState _ _ _ _). case_decide as Hn; [intros [= <- <-]; by apply effect_stay|].
    rewrite decide_True by done.
    assert (Hr : state_rank (tcp_state c) < state_rank new).
    { destruct (nextState_rank (tcp_state c) (conn_Direction (tcp_base c2)) dir flags); done. }
    assert (Ht : tcp_state c ≠ TCPStateTimeWait).
    { intros E. apply Hn. subst new. by rewrite E. }
    assert (Hcl : tcp_state c ≠ TCPStateClosed).
    { intros E. apply Hn. subst new. by rewrite E. }
    destruct new eqn:En; intros [= <- <-];
      first [ by apply effect_time_wait | by apply effect_close
            | by eapply effect_move; [reflexivity|..] ].
Qed.

Lemma updateState_identity now c flags dir size :
  same_identity c (fst (updateState now c flags dir size)).
Proof.
  unfold updateState, handleRst, onTransition, CompareAndSwapState.
  pose proof (UpdateCounters_id dir size (tcp_base c)) as (?&?&?&?&?&?).
  split_cases; unfold same_identity; by split_and!.
Qed.

Lemma updateState_wf now c flags dir size :
  conn_wf c → tcp_tombstone c = false → conn_wf (fst (updateState now c flags dir size)).
Proof.
  intros [Hb Hi] Ht. destruct (updateState _ _ _ _ _) as [c' evs] eqn:E. simpl. split.
  - revert E. unfold updateState, handleRst, onTransition, CompareAndSwapState.
    split_cases; intros; simplify_eq/=; auto with netbird.
  - apply updateState_effect in E.
    assert (tcp_state c ≠ TCPStateClosed) by (intros ?%Hi; congruence).
    destruct E; split; intros; congruence.
Qed.

(** What a packet does to a flow's account: an end event is sent exactly when
    the connection stops being live, and a packet never starts a flow. *)
Lemma updateState_account now c flags dir size c' evs f :
  conn_wf c → tcp_tombstone c = false →
  updateState now c flags dir size = (c', evs) →
  count (is_event TypeStart f) evs = 0%nat ∧
  (count (is_event TypeEnd f) evs + (if live_flow f c' then 1 else 0) =
   if live_flow f c then 1 else 0)%nat.
Proof.
  intros [_ Hi] Ht E. pose proof (updateState_identity now c flags dir size) as Hid.
  rewrite E in Hid. destruct Hid as (Hf & _). simpl in Hf.
  apply updateState_effect in E.
  assert (tcp_state c ≠ TCPStateClosed) by (intros ?%Hi; congruence).
  unfold live_flow, live. rewrite Hf, Ht.
  destruct E; autorewrite with netbird; unfold is_event; simpl; rewrite ?Hf;
    repeat match goal with H : tcp_state _ = _ |- _ => rewrite H end;
    repeat match goal with H : tcp_tombstone _ = _ |- _ => rewrite H end;
    rewrite ?Ht; split; repeat case_bool_decide; simpl; congruence.
Qed.

(** ** Tables *)

(** Number of live connections that carry the flow [f]. *)
Definition live_count (f : N) (m : gmap ConnKey TCPConnTrack) : nat :=
  size (filter (λ kc, live_flow f (snd kc) = true) m).

Lemma live_count_delete f m k :
  live_count f m =
  (live_count f (delete k m) +
   match m !! k with Some c => if live_flow f c then 1 else 0 | None => 0 end)%nat.
Proof.
  unfold live_count. destruct (m !! k) as [c|] eqn:E.
  - rewrite <- (insert_delete_id m k c E) at 1. destruct (live_flow f c) eqn:El.
    + rewrite map_filter_insert_True by done. rewrite map_size_insert_None; [lia|].
      apply map_lookup_filter_None. left. apply lookup_delete_eq.
    + rewrite map_filter_insert_False by (simpl; congruence). rewrite delete_delete_eq. lia.
  - rewrite delete_id by done. lia.
Qed.

Lemma live_count_insert f m k c :
  live_count f (<[k := c]> m) =
  (live_count f (delete k m) + if live_flow f c then 1 else 0)%nat.
Proof. by rewrite (live_count_delete f _ k), lookup_insert_eq, delete_insert_eq. Qed.

Definition key_of (c : TCPConnTrack) : ConnKey :=
  MkKey (SourceIP (tcp_base c)) (DestIP (tcp_base c)) (tcp_SourcePort c) (tcp_DestPort c).

(** Starts and ends recorded for a flow. *)
Definition starts (f : N) (t : TCPTracker) : nat := count (is_event TypeStart f) (tt_events t).
Definition ends (f : N) (t : TCPTracker) : nat := count (is_event TypeEnd f) (tt_events t).

(** The invariant of a tracker: entries are well formed and stored under
    their own key, the cap holds, and while the tracker is open every flow's
    starts equal its ends plus its live connections. *)
Record tcp_inv (t : TCPTracker) : Prop := {
  inv_conn k c : tcp_conns t !! k = Some c → conn_wf c ∧ key_of c = k;
  inv_cap : 0 < tt_maxEntries t → Z.of_nat (size (tcp_conns t)) <= tt_maxEntries t;
  inv_balance : is_Some (tt_connections t) →
    ∀ f, starts f t = (ends f t + live_count f (tcp_conns t))%nat;
}.

Lemma map_size_insert_le {K V} `{Countable K} (m : gmap K V) k v :
  (size (<[k := v]> m) <= S (size m))%nat.
Proof. rewrite map_size_insert. case_match; simpl; lia. Qed.

Lemma tcp_conns_store k r t :
  is_Some (tcp_conns t !! k) →
  tcp_conns (tcp_store k r t) = <[k := fst r]> (tcp_conns t).
Proof.
  unfold tcp_conns, tcp_store. simpl. destruct (tt_connections t); simpl; [done|].
  intros [? E]. by rewrite lookup_empty in E.
Qed.

Lemma live_not_tombstone c flags :
  IsSupersededBy flags c = false → tcp_tombstone c = false.
Proof. unfold IsSupersededBy. by destruct (tcp_tombstone c). Qed.

Lemma superseded_not_live c flags f :
  IsSupersededBy flags c = true → live_flow f c = false.
Proof.
  unfold IsSupersededBy, live_flow, live. destruct (tcp_tombstone c); simpl; [done|].
  intros H. bools. naive_solver.
Qed.

(** Mutating a tracked connection keeps the invariant. *)
Lemma tcp_store_inv t k c now flags dir sz :
  tcp_inv t → tcp_conns t !! k = Some c → tcp_tombstone c = false →
  tcp_inv (tcp_store k (updateState now c flags dir sz) t).
Proof.
  intros [Hc Hcap Hbal] Hk Ht. destruct (Hc _ _ Hk) as [Hwf Hkey].
  destruct (updateState now c flags dir sz) as [c' evs] eqn:E.
  pose proof (updateState_wf now c flags dir sz Hwf Ht) as Hwf'. rewrite E in Hwf'.
  pose proof (updateState_identity now c flags dir sz) as Hid. rewrite E in Hid.
  assert (Hconns := tcp_conns_store k (c', evs) t (ltac:(by eexists))). simpl in *.
  split.
  - intros k' c0. rewrite Hconns, lookup_insert. case_decide as Hkk; [|apply Hc].
    intros [= <-]. subst k'. split; [done|].
    destruct Hid as (_&_&Hs&Hd&_&Hsp&Hdp). unfold key_of. rewrite Hs, Hd, Hsp, Hdp. exact Hkey.
  - intros Hm. rewrite Hconns, map_size_insert_Some by (by eexists). by apply Hcap.
  - intros Hopen f. simpl in Hopen. rewrite fmap_is_Some in Hopen.
    specialize (Hbal Hopen f). unfold starts, ends in *. simpl. rewrite Hconns.
    destruct (updateState_account _ _ _ _ _ _ _ f Hwf Ht E) as [Hs He].
    rewrite (live_count_delete f _ k), Hk in Hbal.
    rewrite !count_app, live_count_insert, Hs. lia.
Qed.

Lemma tcp_evict_scan_spec sampled l cand :
  match tcp_evict_scan sampled l cand with
  | inl k => ∃ c, (k, c) ∈ l ∧ tcp_tombstone c = true
  | inr (Some (k, s)) => cand = Some (k, s) ∨ ∃ c, (k, c) ∈ l
  | inr None => cand = None ∧ l = []
  end.
Proof.
  revert sampled cand. induction l as [|[k c] l IH]; intros n cand; cbn [tcp_evict_scan].
  { destruct cand as [[? ?]|]; auto. }
  unfold IsTombstone. destruct (tcp_tombstone c) eqn:Et; [exists c; split; [left|done]|].
  set (cand' := match cand with None => _ | Some _ => _ end).
  assert (Hc : ∃ k' s', cand' = Some (k', s') ∧ (cand = Some (k', s') ∨ k' = k)).
  { subst cand'. destruct cand as [[k1 s1]|]; [destruct (_ <? _)|]; eauto. }
  destruct Hc as (k' & s' & Hc & Hor).
  assert (Hstep : ∀ kk ss, cand' = Some (kk, ss) ∨ (∃ c0, (kk, c0) ∈ l) →
            cand = Some (kk, ss) ∨ ∃ c0, (kk, c0) ∈ (k, c) :: l).
  { intros kk ss [Heq|[c0 Hin]]; [|right; exists c0; by right].
    rewrite Hc in Heq. simplify_eq. destruct Hor as [->| ->]; [by left|].
    right. exists c. left. }
  destruct (_ <=? _)%nat.
  - rewrite Hc. eauto.
  - specialize (IH (S n) cand'). destruct (tcp_evict_scan _ _ _) as [k0|[[k0 s0]|]].
    + destruct IH as (c0 & Hin & Ht). exists c0. split; [by right|done].
    + eauto.
    + destruct IH as [Heq _]. congruence.
Qed.

(** Deleting an entry together with its end event, if it owes one. *)
Lemma tcp_remove_inv t m k c evs :
  tcp_inv t → tt_connections t = Some m → m !! k = Some c →
  (∀ f, count (is_event TypeStart f) evs = 0%nat ∧
        count (is_event TypeEnd f) evs = if live_flow f c then 1%nat else 0%nat) →
  tcp_inv (set_tcp_table (Some (delete k m)) evs t).
Proof.
  intros [Hc Hcap Hbal] Ht Hk Hev. unfold tcp_conns in *. rewrite Ht in *. simpl in *. split.
  - intros k' c'. cbn. rewrite lookup_delete_Some. intros [_ ?]. by apply Hc.
  - cbn. intros Hm. specialize (Hcap Hm). rewrite map_size_delete, Hk. simpl. lia.
  - intros _ f. specialize (Hbal (ltac:(by eexists)) f). specialize (Hev f) as [Hs He].
    rewrite (live_count_delete f m k), Hk in Hbal. unfold starts, ends, tcp_conns in *. simpl in *.
    rewrite !count_app, Hs, He. lia.
Qed.

Lemma end_event_account c f :
  count (is_event TypeStart f) [tcp_sendEvent TypeEnd c []] = 0%nat ∧
  count (is_event TypeEnd f) [tcp_sendEvent TypeEnd c []] =
    if bool_decide (FlowId (tcp_base c) = f) then 1%nat else 0%nat.
Proof. by rewrite !count_singleton. Qed.

Lemma start_event_account c r f :
  count (is_event TypeStart f) [tcp_sendEvent TypeStart c r] =
    (if bool_decide (FlowId (tcp_base c) = f) then 1%nat else 0%nat) ∧
  count (is_event TypeEnd f) [tcp_sendEvent TypeStart c r] = 0%nat.
Proof. by rewrite !count_singleton. Qed.

(** Eviction keeps the invariant and makes room. *)
Lemma tcp_evict_inv {MO : MapOrder} seed t :
  tcp_inv t → tcp_inv (tcp_evictOneLocked seed t).
Proof.
  intros Hinv. unfold tcp_evictOneLocked. destruct (tt_connections t) as [m|] eqn:Hm; [|done].
  pose proof (tcp_evict_scan_spec 0 (range_list seed m) None) as Hs.
  destruct (tcp_evict_scan _ _ _) as [k|[[k s]|]]; [..|done].
  - destruct Hs as (c & Hin%elem_of_range_list & Hts).
    apply (tcp_remove_inv _ _ _ c); try done.
    intros f. unfold live_flow, live. by rewrite Hts.
  - destruct Hs as [?|(c & Hin%elem_of_range_list)]; [done|]. rewrite Hin.
    apply (tcp_remove_inv _ _ _ c); try done.
    intros f. destruct (end_event_account c f) as [H1 H2].
    unfold GetState, IsTombstone, live_flow, live.
    destruct (tcp_tombstone c), (bool_decide (tcp_state c = _)); by simpl.
Qed.

Lemma tcp_evict_size {MO : MapOrder} seed t m :
  tt_connections t = Some m → m ≠ ∅ →
  ∃ m', tt_connections (tcp_evictOneLocked seed t) = Some m' ∧
        m' ⊆ m ∧ S (size m') = size m.
Proof.
  intros Hm Hne. unfold tcp_evictOneLocked. rewrite Hm.
  pose proof (tcp_evict_scan_spec 0 (range_list seed m) None) as Hs.
  assert (Hdel : ∀ k c, m !! k = Some c → S (size (delete k m)) = size m).
  { intros k c Hk. rewrite map_size_delete, Hk. simpl.
    assert (size m ≠ 0%nat); [|lia]. intros ?%map_size_empty_inv. by subst. }
  destruct (tcp_evict_scan _ _ _) as [k|[[k s]|]]; simpl.
  - destruct Hs as (c & Hin%elem_of_range_list & _).
    eexists. split_and!; [done|apply delete_subseteq|by eapply Hdel].
  - destruct Hs as [?|(c & Hin%elem_of_range_list)]; [done|].
    eexists. split_and!; [done|apply delete_subseteq|by eapply Hdel].
  - destruct Hs as [_ Hnil]. exfalso. apply Hne.
    pose proof (length_range_list seed m) as Hl. rewrite Hnil in Hl. simpl in Hl.
    by apply map_size_empty_inv.
Qed.

Lemma tcp_evict_closed {MO : MapOrder} seed t :
  tt_connections t = None → tcp_evictOneLocked seed t = t.
Proof. intros H. unfold tcp_evictOneLocked. by rewrite H. Qed.

Lemma tcp_evict_maxEntries {MO : MapOrder} seed t :
  tt_maxEntries (tcp_evictOneLocked seed t) = tt_maxEntries t.
Proof. unfold tcp_evictOneLocked. split_cases. Qed.

(** ** The operations *)

Lemma tcp_updateIfExists_inv env t src dst sp dp flags dir sz :
  tcp_inv t → tcp_inv (tcp_updateIfExists env t src dst sp dp flags dir sz).1.1.
Proof.
  intros Hinv. unfold tcp_updateIfExists. destruct (tcp_conns t !! _) as [c|] eqn:E; [|done].
  destruct (IsSupersededBy flags c) eqn:Es; simpl; [done|].
  apply (tcp_store_inv _ _ c); auto. by eapply live_not_tombstone.
Qed.

(** A miss leaves the tracker alone and its key without a live entry. *)
Lemma tcp_updateIfExists_miss env t src dst sp dp flags dir sz t' p :
  tcp_updateIfExists env t src dst sp dp flags dir sz = (t', p, false) →
  t' = t ∧ p = 0 ∧
  (∀ f c, tcp_conns t !! MkKey src dst sp dp = Some c → live_flow f c = false).
Proof.
  unfold tcp_updateIfExists. destruct (tcp_conns t !! _) as [c|] eqn:E.
  - destruct (IsSupersededBy flags c) eqn:Es; simpl; intros; simplify_eq.
    split_and!; try done. intros f c' ?. simplify_eq. by eapply superseded_not_live.
  - intros; simplify_eq. split_and!; try done.
Qed.

(** The entry a SYN creates. *)
Definition fresh_conn (env : Env) (src dst : Addr) (sp dp : Z) (dir : Direction) (origPort : Z)
    : TCPConnTrack :=
  {| tcp_base := newBase (env_uuid env) dir src dst origPort;
     tcp_SourcePort := sp; tcp_DestPort := dp;
     tcp_state := TCPStateNew; tcp_tombstone := false |}.

(** Inserting a fresh connection over a dead entry keeps the invariant. *)
Lemma tcp_insert_inv t m env src dst sp dp flags dir sz origPort ruleID c' evs :
  tcp_inv t → tt_connections t = Some m →
  (∀ f c, m !! MkKey src dst sp dp = Some c → live_flow f c = false) →
  (0 < tt_maxEntries t → Z.of_nat (size m) < tt_maxEntries t) →
  updateState (env_now env) (fresh_conn env src dst sp dp dir origPort) flags dir sz = (c', evs) →
  tcp_inv (set_tcp_table (Some (<[MkKey src dst sp dp := c']> m))
             (evs ++ [tcp_sendEvent TypeStart c' ruleID]) t).
Proof.
  intros [Hc Hcap Hbal] Hm Hdead Hroom E. unfold tcp_conns in *. rewrite Hm in *. simpl in *.
  set (c0 := fresh_conn env src dst sp dp dir origPort) in *.
  assert (Hwf0 : conn_wf c0) by (split; [apply newBase_wf | done]).
  pose proof (updateState_wf (env_now env) c0 flags dir sz Hwf0 eq_refl) as Hwf'.
  pose proof (updateState_identity (env_now env) c0 flags dir sz) as Hid.
  rewrite E in Hwf', Hid. simpl in *. destruct Hid as (Hf&_&Hs&Hd&_&Hsp&Hdp).
  split; unfold tcp_conns; simpl.
  - intros k c. rewrite lookup_insert. case_decide as Hk; [|apply Hc].
    intros [= <-]. subst k. split; [done|]. unfold key_of. by rewrite Hs, Hd, Hsp, Hdp.
  - intros Hmax. specialize (Hroom Hmax). pose proof (map_size_insert_le m (MkKey src dst sp dp) c'). lia.
  - intros _ f. specialize (Hbal (ltac:(by eexists)) f). unfold starts, ends in *. simpl in *.
    destruct (updateState_account _ _ _ _ _ _ _ f Hwf0 eq_refl E) as [Hst Hen].
    rewrite (live_count_delete f m (MkKey src dst sp dp)) in Hbal.
    assert (match m !! MkKey src dst sp dp with
            | Some c => if live_flow f c then 1%nat else 0%nat | None => 0%nat end = 0%nat) as Hz.
    { destruct (m !! _) as [c|] eqn:Ek; [|done]. by rewrite (Hdead f c eq_refl). }
    rewrite Hz in Hbal. destruct (start_event_account c' ruleID f) as [H1 H2].
    rewrite !count_app, live_count_insert, Hst, H1, H2, Hf.
    unfold live_flow at 2 in Hen. simpl in Hen. unfold c0 in Hen. simpl in Hen. lia.
Qed.

Lemma set_tcp_table_id t : set_tcp_table (tt_connections t) [] t = t.
Proof. destruct t. unfold set_tcp_table. simpl. by rewrite app_nil_r. Qed.

(** A well-formed SYN opens a connection without sending any event. *)
Lemma fresh_conn_syn env src dst sp dp dir origPort flags sz :
  has flags TCPSyn = true → isValidFlagCombination flags = true →
  (updateState (env_now env) (fresh_conn env src dst sp dp dir origPort) flags dir sz).2 = [].
Proof.
  intros Hs Hv. unfold updateState. rewrite Hv. simpl.
  assert (Hr : has flags TCPRst = false).
  { revert Hv. unfold isValidFlagCombination. rewrite Hs. simpl.
    destruct (has flags TCPFin), (has flags TCPRst); done. }
  rewrite Hr. unfold onTransition, nextState. simpl. unfold transNew. split_cases.
Qed.

Section Ops.
Context {MO : MapOrder}.

Lemma tcp_track_inv env t src dst sp dp flags dir ruleID sz origPort t' :
tcp_inv t → tcp_track env t src dst sp dp flags dir ruleID sz origPort = Some t' → tcp_inv t'.
Proof.
intros Hinv. unfold tcp_track.
pose proof (tcp_updateIfExists_inv env t src dst sp dp flags dir sz Hinv) as Hinv1.
destruct (tcp_updateIfExists _ _ _ _ _ _ _ _ _) as [[t1 p] ex] eqn:E. simpl in Hinv1.
destruct ex; [by intros [= <-]|]. apply tcp_updateIfExists_miss in E as (-> & _ & Hdead).
rewrite hasnt_negb. destruct (has flags TCPSyn) eqn:Hsyn; simpl; [|by intros [= <-]].
destruct (isValidFlagCombination flags) eqn:Hv; simpl; [|by intros [= <-]].
pose proof (fresh_conn_syn env src dst sp dp dir origPort flags sz Hsyn Hv) as Hev.
fold (fresh_conn env src dst sp dp dir origPort).
destruct (updateState _ _ _ _ _) as [c' evs] eqn:Eu. simpl in Hev. subst evs.
rewrite set_tcp_table_id.
destruct (tt_connections t) as [m|] eqn:Hm.
- assert (Hcm : tcp_conns t = m) by (unfold tcp_conns; by rewrite Hm).
  rewrite Hcm in *.
  destruct ((0 <? tt_maxEntries t) && (tt_maxEntries t <=? Z.of_nat (size m))) eqn:Hfull.
  + bools. destruct Hfull as [Hpos Hfull].
    destruct (tcp_evict_size (env_seed env) t m Hm) as (m' & Hm' & Hsub & Hsz).
    { intros ->. rewrite map_size_empty in Hfull. lia. }
    rewrite Hm'. intros [= <-].
    apply (tcp_insert_inv _ _ env _ _ _ _ flags dir sz origPort ruleID c' []); try done.
    * by apply tcp_evict_inv.
    * intros f c Hk. apply (Hdead f). by eapply lookup_weaken.
    * rewrite tcp_evict_maxEntries. intros Hp.
      pose proof (inv_cap _ Hinv Hp) as Hcap. rewrite Hcm in Hcap. lia.
  + rewrite Hm. intros [= <-].
    apply (tcp_insert_inv _ _ env _ _ _ _ flags dir sz origPort ruleID c' []); try done.
    intros Hp. bools. lia.
- destruct (_ && _); [rewrite tcp_evict_closed by done|]; by rewrite Hm.
Qed.

Lemma tcp_TrackOutbound_inv env t src dst sp dp flags sz t' p :
tcp_inv t → tcp_TrackOutbound env t src dst sp dp flags sz = Some (t', p) → tcp_inv t'.
Proof.
intros Hinv. unfold tcp_TrackOutbound.
pose proof (tcp_updateIfExists_inv env t dst src dp sp flags Egress sz Hinv) as Hinv1.
destruct (tcp_updateIfExists _ _ _ _ _ _ _ _ _) as [[t1 p1] ex] eqn:E. simpl in Hinv1.
destruct ex; [by intros [= <- <-]|].
destruct (tcp_track _ _ _ _ _ _ _ _ _ _) as [t2|] eqn:Et; [|done].
intros [= <- <-]. by eapply tcp_track_inv.
Qed.

Lemma tcp_IsValidInbound_inv env t src dst sp dp flags sz :
tcp_inv t → tcp_inv (tcp_IsValidInbound env t src dst sp dp flags sz).1.
Proof.
intros Hinv. unfold tcp_IsValidInbound. destruct (tcp_conns t !! _) as [c|] eqn:E; [|done].
destruct (IsSupersededBy flags c) eqn:Es; [done|].
destruct (isValidFlagCombination flags), (isValidStateForFlags _ _); try done. simpl.
apply (tcp_store_inv _ _ c); auto. by eapply live_not_tombstone.
Qed.

(** Whether [cleanup] removes an entry. *)
Definition stale (now : Z) (t : TCPTracker) (c : TCPConnTrack) : bool :=
IsTombstone c || timeoutExceeded now (cleanup_timeout t (GetState c)) (tcp_base c).

Lemma tcp_cleanup_entry_spec now t k c m :
tt_connections t = Some m →
tt_connections (tcp_cleanup_entry now t (k, c)) =
  Some (if stale now t c then delete k m else m) ∧
(∀ s, cleanup_timeout (tcp_cleanup_entry now t (k, c)) s = cleanup_timeout t s) ∧
tt_maxEntries (tcp_cleanup_entry now t (k, c)) = tt_maxEntries t.
Proof.
intros Hm. unfold tcp_cleanup_entry, stale.
destruct (IsTombstone c); simpl; rewrite ?Hm; [done|].
destruct (timeoutExceeded _ _ _); simpl; rewrite ?Hm; done.
Qed.

Lemma tcp_cleanup_entry_inv now t k c :
tcp_inv t → tcp_conns t !! k = Some c → tcp_inv (tcp_cleanup_entry now t (k, c)).
Proof.
intros Hinv Hk. unfold tcp_conns in Hk. destruct (tt_connections t) as [m|] eqn:Hm;
  simpl in Hk; [|by rewrite lookup_empty in Hk].
unfold tcp_cleanup_entry, IsTombstone, GetState. rewrite Hm. simpl.
destruct (tcp_tombstone c) eqn:Et.
{ apply (tcp_remove_inv _ _ _ c); try done. intros f. unfold live_flow, live. by rewrite Et. }
destruct (timeoutExceeded _ _ _); [|done].
apply (tcp_remove_inv _ _ _ c); try done. intros f. unfold live_flow, live. rewrite Et.
destruct (end_event_account c f) as [H1 H2].
by destruct (bool_decide (tcp_state c = _)).
Qed.

(** The whole loop: what is left is the fresh part of the table. *)
Lemma tcp_cleanup_fold now l t m :
tt_connections t = Some m → NoDup l.*1 → (∀ k c, (k, c) ∈ l → m !! k = Some c) →
tcp_inv t →
tcp_inv (foldl (tcp_cleanup_entry now) t l) ∧
∃ m', tt_connections (foldl (tcp_cleanup_entry now) t l) = Some m' ∧
  ∀ k, m' !! k = match m !! k with
                 | Some c => if bool_decide (k ∈ l.*1) && stale now t c then None else Some c
                 | None => None end.
Proof.
revert t m. induction l as [|[k c] l IH]; intros t m Hm Hnd Hl Hinv; simpl.
{ split; [done|]. exists m. split; [done|]. intros k. by destruct (m !! k). }
apply NoDup_cons in Hnd as [Hni Hnd]. assert (Hk : m !! k = Some c) by (apply Hl; left).
destruct (tcp_cleanup_entry_spec now t k c m Hm) as (Hm1 & Hto & _).
set (t1 := tcp_cleanup_entry now t (k, c)) in *.
set (m1 := if stale now t c then delete k m else m) in *.
assert (Hstale : ∀ c', stale now t1 c' = stale now t c').
{ intros c'. unfold stale. by rewrite Hto. }
assert (Hm1k : ∀ k', k' ≠ k → m1 !! k' = m !! k').
{ intros k' Hne. unfold m1. destruct (stale now t c); [by rewrite lookup_delete_ne|done]. }
destruct (IH t1 m1 Hm1 Hnd) as (Hinv' & m' & Hm' & Hlook).
{ intros k' c' Hin. rewrite Hm1k; [apply Hl; by right|]. intros ->. apply Hni.
  apply list_elem_of_fmap. by exists (k, c'). }
{ apply tcp_cleanup_entry_inv; [done|]. unfold tcp_conns. by rewrite Hm. }
split; [done|]. exists m'. split; [done|]. intros k'. rewrite Hlook.
destruct (decide (k' = k)) as [->|Hne].
- rewrite Hk. unfold m1. rewrite (bool_decide_true (k ∈ k :: _)) by left.
  destruct (stale now t c) eqn:Es; simpl; [by rewrite lookup_delete_eq|].
  rewrite Hk, Hstale, Es. by rewrite andb_false_r.
- rewrite Hm1k by done. destruct (m !! k') as [c'|]; [|done]. rewrite Hstale.
  repeat case_bool_decide; try done; exfalso; set_solver.
Qed.

Lemma tcp_cleanup_closed env t : tt_connections t = None → tcp_cleanup env t = t.
Proof.
intros H. unfold tcp_cleanup, tcp_conns. rewrite H. simpl.
assert (range_list (env_seed env) (∅ : gmap ConnKey TCPConnTrack) = []) as ->; [|done].
apply nil_length_inv. rewrite length_range_list. apply map_size_empty.
Qed.

Lemma tcp_cleanup_spec env t m :
tcp_inv t → tt_connections t = Some m →
tcp_inv (tcp_cleanup env t) ∧
∃ m', tt_connections (tcp_cleanup env t) = Some m' ∧
  ∀ k, m' !! k = match m !! k with
                 | Some c => if stale (env_now env) t c then None else Some c
                 | None => None end.
Proof.
intros Hinv Hm. unfold tcp_cleanup.
assert (Hc : tcp_conns t = m) by (unfold tcp_conns; by rewrite Hm). rewrite Hc.
destruct (tcp_cleanup_fold (env_now env) (range_list (env_seed env) m) t m Hm) as (Hi & m' & Hm' & Hl);
  [apply NoDup_fst_range_list | by intros k c ?%elem_of_range_list | done |].
split; [done|]. exists m'. split; [done|]. intros k. rewrite Hl.
destruct (m !! k) as [c|] eqn:Ek; [|done]. rewrite bool_decide_true; [done|].
apply list_elem_of_fmap. exists (k, c). split; [done|]. by rewrite elem_of_range_list.
Qed.

(** ** Runs *)

Inductive TCPOp :=
| OpOutbound (src dst : Addr) (sp dp flags size : Z)
| OpInbound (src dst : Addr) (sp dp flags : Z) (ruleID : list Z) (size dnatOrigPort : Z)
| OpValidInbound (src dst : Addr) (sp dp flags size : Z)
| OpCleanup
| OpClose.

(** One call on the tracker; [None] is a run-time panic. *)
Definition tcp_step (t : TCPTracker) (eo : Env * TCPOp) : option TCPTracker :=
let '(env, op) := eo in
match op with
| OpOutbound src dst sp dp flags sz =>
    fst <$> tcp_TrackOutbound env t src dst sp dp flags sz
| OpInbound src dst sp dp flags r sz dnat =>
    tcp_TrackInbound env t src dst sp dp flags r sz dnat
| OpValidInbound src dst sp dp flags sz =>
    Some (tcp_IsValidInbound env t src dst sp dp flags sz).1
| OpCleanup => Some (tcp_cleanup env t)
| OpClose => Some (tcp_Close t)
end.

Definition tcp_run : TCPTracker → list (Env * TCPOp) → option TCPTracker := run tcp_step.

Lemma tcp_step_inv t o t' : tcp_inv t → tcp_step t o = Some t' → tcp_inv t'.
Proof.
intros Hinv. destruct o as [env []]; cbn [tcp_step].
- destruct (tcp_TrackOutbound _ _ _ _ _ _ _ _) as [[t1 p]|] eqn:E; simpl; [|done].
  intros [= <-]. by eapply tcp_TrackOutbound_inv.
- apply tcp_track_inv. done.
- intros [= <-]. by apply tcp_IsValidInbound_inv.
- intros [= <-]. destruct (tt_connections t) eqn:Hm.
  + by eapply tcp_cleanup_spec.
  + by rewrite tcp_cleanup_closed.
- intros [= <-]. destruct Hinv as [Hc Hcap _]. split; unfold tcp_conns, starts, ends; simpl.
  + intros k c H. by rewrite lookup_empty in H.
  + intros Hp. rewrite map_size_empty. lia.
  + by intros [? ?].
Qed.

Lemma NewTCPTracker_inv Getenv PD timeout : tcp_inv (NewTCPTracker Getenv PD timeout).
Proof.
unfold NewTCPTracker. destruct (timeout =? 0);
  (split; unfold tcp_conns, starts, ends; simpl;
   [ intros k c H; by rewrite lookup_empty in H
   | rewrite map_size_empty; lia
   | intros _ f; by rewrite !count_nil ]).
Qed.

Lemma tcp_reachable_inv Getenv PD timeout ops t :
tcp_run (NewTCPTracker Getenv PD timeout) ops = Some t → tcp_inv t.
Proof. apply run_ind; [apply tcp_step_inv | apply NewTCPTracker_inv]. Qed.

(** No operation changes the configuration. *)
Definition tcp_config (t : TCPTracker) : Z * Z * Z * Z * Z * Z :=
(tt_timeout t, tt_waitTimeout t, tt_finWaitTimeout t, tt_closeWaitTimeout t,
 tt_lastAckTimeout t, tt_maxEntries t).

Lemma tcp_updateIfExists_config env t s d sp dp fl dir sz :
tcp_config (tcp_updateIfExists env t s d sp dp fl dir sz).1.1 = tcp_config t.
Proof. unfold tcp_updateIfExists. split_cases. Qed.

Lemma tcp_evict_config seed t : tcp_config (tcp_evictOneLocked seed t) = tcp_config t.
Proof. unfold tcp_evictOneLocked. split_cases. Qed.

Lemma tcp_track_config env t s d sp dp fl dir r sz op t' :
tcp_track env t s d sp dp fl dir r sz op = Some t' → tcp_config t' = tcp_config t.
Proof.
unfold tcp_track. pose proof (tcp_updateIfExists_config env t s d sp dp fl dir sz) as Hu.
destruct (tcp_updateIfExists _ _ _ _ _ _ _ _ _) as [[t1 p] ex]. simpl in Hu.
destruct (_ || _); [by intros [= <-]|]. destruct (negb _); [by intros [= <-]|].
destruct (updateState _ _ _ _ _) as [c evs]. set (t2 := set_tcp_table _ _ t1).
pose proof (tcp_evict_config (env_seed env) t2) as He. change (tcp_config t2) with (tcp_config t1) in He.
match goal with |- match tt_connections ?x with _ => _ end = _ → _ => set (t3 := x) end.
assert (tcp_config t3 = tcp_config t) as <- by (subst t3; case_match; [congruence | exact Hu]).
destruct (tt_connections t3); [by intros [= <-] | done].
Qed.

Lemma tcp_cleanup_config env t : tcp_config (tcp_cleanup env t) = tcp_config t.
Proof.
unfold tcp_cleanup. generalize (range_list (env_seed env) (tcp_conns t)) as l. intros l.
revert t. induction l as [|[k c] l IH]; intros t; simpl; [done|]. rewrite IH.
unfold tcp_cleanup_entry. split_cases.
Qed.

Lemma tcp_step_config t o t' : tcp_step t o = Some t' → tcp_config t' = tcp_config t.
Proof.
destruct o as [env []]; cbn [tcp_step].
- unfold tcp_TrackOutbound.
  pose proof (tcp_updateIfExists_config env t dst src dp sp flags Egress size) as Hu.
  destruct (tcp_updateIfExists _ _ _ _ _ _ _ _ _) as [[t2 p] ex]. simpl in Hu.
  destruct ex; [by intros [= <-]|].
  destruct (tcp_track _ _ _ _ _ _ _ _ _ _) as [t3|] eqn:Et; simpl; [|done]. intros [= <-].
  apply tcp_track_config in Et. congruence.
- apply tcp_track_config.
- intros [= <-]. unfold tcp_IsValidInbound. split_cases.
- intros [= <-]. apply tcp_cleanup_config.
- by intros [= <-].
Qed.

Lemma tcp_run_config ops t t' : tcp_run t ops = Some t' → tcp_config t' = tcp_config t.
Proof.
apply (run_ind _ (λ t', tcp_config t' = tcp_config t)); [|done].
intros t1 o t2 <- H. by eapply tcp_step_config.
Qed.

(** ** What [track] does, case by case *)

(** Either the packet only touched an existing entry, or it was a legal SYN
  and a fresh connection replaced whatever dead entry was under its key. *)
Lemma tcp_track_cases env t src dst sp dp flags dir r sz op t' :
tcp_track env t src dst sp dp flags dir r sz op = Some t' →
(t' = (tcp_updateIfExists env t src dst sp dp flags dir sz).1.1 ∧
 ((tcp_updateIfExists env t src dst sp dp flags dir sz).2 || hasnt flags TCPSyn ||
  negb (isValidFlagCombination flags)) = true) ∨
(has flags TCPSyn = true ∧ isValidFlagCombination flags = true ∧
 ∃ m m' evs,
   let c := (updateState (env_now env) (fresh_conn env src dst sp dp dir op) flags dir sz).1 in
   tt_connections t = Some m ∧ m' ⊆ m ∧
   (size m < size m' + 2)%nat ∧
   (∀ f, count (is_event TypeStart f) evs = 0%nat) ∧
   tt_connections t' = Some (<[MkKey src dst sp dp := c]> m') ∧
   tt_events t' = tt_events t ++ evs ++ [tcp_sendEvent TypeStart c r]).
Proof.
unfold tcp_track. destruct (tcp_updateIfExists _ _ _ _ _ _ _ _ _) as [[t1 p] ex] eqn:E. simpl.
destruct ex; [intros [= <-]; by left|]. apply tcp_updateIfExists_miss in E as (-> & _ & _).
rewrite hasnt_negb. destruct (has flags TCPSyn) eqn:Hsyn; simpl; [|intros [= <-]; by left].
destruct (isValidFlagCombination flags) eqn:Hv; simpl; [|intros [= <-]; by left].
pose proof (fresh_conn_syn env src dst sp dp dir op flags sz Hsyn Hv) as Hev.
fold (fresh_conn env src dst sp dp dir op).
destruct (updateState _ _ _ _ _) as [c' evs]. simpl in *. subst evs. rewrite set_tcp_table_id.
destruct (tt_connections t) as [m|] eqn:Hm;
  [|by destruct (_ && _); [rewrite tcp_evict_closed by done|]; rewrite Hm].
intros H. right. split; [done|]. split; [done|]. exists m.
assert (Hcm : tcp_conns t = m) by (unfold tcp_conns; by rewrite Hm). rewrite Hcm in *.
destruct (_ && _) eqn:Hfull.
- bools. destruct (tcp_evict_size (env_seed env) t m Hm) as (m' & Hm' & Hsub & Hsz).
  { intros ->. rewrite map_size_empty in *. lia. }
  rewrite Hm' in H. simplify_eq/=.
  assert (∃ e, tt_events (tcp_evictOneLocked (env_seed env) t) = tt_events t ++ e ∧
            ∀ f, count (is_event TypeStart f) e = 0%nat) as (e & -> & He).
  { unfold tcp_evictOneLocked. rewrite Hm. repeat case_match; simpl;
      try (eexists; split; [reflexivity|]; intros; try done; by rewrite count_singleton).
    exists []. by rewrite app_nil_r. }
  exists m', e. split_and!; try done; [lia|]. by rewrite app_assoc.
- rewrite Hm in H. injection H as <-. exists m, []. simpl. split_and!; try done. lia.
Qed.

Lemma tcp_updateIfExists_open env t s d sp dp fl dir sz :
is_Some (tt_connections (tcp_updateIfExists env t s d sp dp fl dir sz).1.1) ↔
is_Some (tt_connections t).
Proof. unfold tcp_updateIfExists. split_cases. apply fmap_is_Some. Qed.

(** While the map is not nil, tracking always returns. *)
Lemma tcp_track_total env t src dst sp dp flags dir r sz op :
is_Some (tt_connections t) →
∃ t', tcp_track env t src dst sp dp flags dir r sz op = Some t' ∧ is_Some (tt_connections t').
Proof.
intros Ho. unfold tcp_track.
pose proof (tcp_updateIfExists_open env t src dst sp dp flags dir sz) as Ho1.
destruct (tcp_updateIfExists _ _ _ _ _ _ _ _ _) as [[t1 p] ex] eqn:E. simpl in Ho1.
apply Ho1 in Ho. clear Ho1 E. destruct (_ || _); [eauto|]. destruct (negb _); [eauto|].
destruct (updateState _ _ _ _ _) as [c evs]. set (t2 := set_tcp_table _ _ t1).
assert (is_Some (tt_connections (tcp_evictOneLocked (env_seed env) t2))).
{ destruct Ho as [m Hm]. unfold tcp_evictOneLocked. simpl. rewrite Hm. split_cases; eauto. }
destruct (_ && _).
- destruct (tt_connections (tcp_evictOneLocked _ t2)) eqn:Hm; [|by destruct H].
  eexists. split; [done|]. by eexists.
- change (tt_connections t2) with (tt_connections t1).
  destruct (tt_connections t1) eqn:Hm; [|by destruct Ho]. eexists. split; [done|]. by eexists.
Qed.

Lemma tcp_cleanup_open env t :
is_Some (tt_connections t) → is_Some (tt_connections (tcp_cleanup env t)).
Proof.
unfold tcp_cleanup. generalize (range_list (env_seed env) (tcp_conns t)) as l. intros l.
revert t. induction l as [|[k c] l IH]; intros t [m Hm]; cbn [foldl]; [by eexists|]. apply IH.
destruct (tcp_cleanup_entry_spec (env_now env) t k c m Hm) as [-> _]. by eexists.
Qed.

Definition is_close (eo : Env * TCPOp) : bool :=
match eo.2 with OpClose => true | _ => false end.

Lemma tcp_step_total t o :
is_Some (tt_connections t) → is_close o = false →
∃ t', tcp_step t o = Some t' ∧ is_Some (tt_connections t').
Proof.
intros Ho. destruct o as [env []]; cbn [tcp_step]; intros Hcl; try done.
- unfold tcp_TrackOutbound.
  pose proof (tcp_updateIfExists_open env t dst src dp sp flags Egress size) as Ho1.
  destruct (tcp_updateIfExists _ _ _ _ _ _ _ _ _) as [[t1 p] ex]. simpl in Ho1.
  apply Ho1 in Ho. destruct ex; simpl; [eauto|].
  destruct (tcp_track_total env t1 src dst sp dp flags Egress [] size 0 Ho) as (t2 & -> & ?).
  simpl. eauto.
- by apply tcp_track_total.
- eexists. split; [done|]. unfold tcp_IsValidInbound. split_cases. by apply fmap_is_Some.
- eexists. split; [done|]. by apply tcp_cleanup_open.
Qed.

(** ** Which operations open connections, and which start flows *)

(** [op] carries a legal SYN under the key [k]. *)
Definition opens (k : ConnKey) (eo : Env * TCPOp) : Prop :=
match eo.2 with
| OpOutbound src dst sp dp flags _ | OpInbound src dst sp dp flags _ _ _ =>
    MkKey src dst sp dp = k ∧ has flags TCPSyn = true ∧ isValidFlagCombination flags = true
| _ => False
end.

Lemma tcp_conns_store_dom k0 r t k :
is_Some (tcp_conns (tcp_store k0 r t) !! k) → is_Some (tcp_conns t !! k0) →
is_Some (tcp_conns t !! k).
Proof.
intros H Hk0. rewrite tcp_conns_store in H by done. rewrite lookup_insert in H.
case_decide; by simplify_eq.
Qed.

Lemma tcp_updateIfExists_dom env t s d sp dp fl dir sz k :
is_Some (tcp_conns (tcp_updateIfExists env t s d sp dp fl dir sz).1.1 !! k) →
is_Some (tcp_conns t !! k).
Proof.
unfold tcp_updateIfExists. destruct (tcp_conns t !! MkKey _ _ _ _) eqn:E; [|done].
destruct (IsSupersededBy _ _); simpl; [done|]. intros H.
eapply tcp_conns_store_dom; [done|]. by eexists.
Qed.

Lemma tcp_track_dom env t src dst sp dp flags dir r sz op t' k :
tcp_track env t src dst sp dp flags dir r sz op = Some t' →
is_Some (tcp_conns t' !! k) →
is_Some (tcp_conns t !! k) ∨
(MkKey src dst sp dp = k ∧ has flags TCPSyn = true ∧ isValidFlagCombination flags = true).
Proof.
intros [[-> _]|(Hs & Hv & m & m' & evs & Hm & Hsub & _ & _ & Hm' & _)]%tcp_track_cases Hk.
- left. by eapply tcp_updateIfExists_dom.
- unfold tcp_conns in *. rewrite Hm' in Hk. rewrite Hm. simpl in *. rewrite lookup_insert in Hk.
  case_decide as Hkk; [by right|]. left. destruct Hk as [c Hk].
  exists c. by eapply lookup_weaken.
Qed.

Lemma tcp_cleanup_dom env t k :
is_Some (tcp_conns (tcp_cleanup env t) !! k) → is_Some (tcp_conns t !! k).
Proof.
unfold tcp_cleanup. generalize (range_list (env_seed env) (tcp_conns t)) as l. intros l.
revert t. induction l as [|[k0 c] l IH]; intros t; cbn [foldl]; [done|]. intros H%IH. revert H.
unfold tcp_cleanup_entry, tcp_conns. destruct (tt_connections t) as [m|] eqn:Hm;
  split_cases; rewrite ?Hm; simpl; try done;
  by intros [? [_ ?]%lookup_delete_Some].
Qed.

(** A key enters the table only through an operation that opens it. *)
Lemma tcp_step_dom t o t' k :
tcp_step t o = Some t' → is_Some (tcp_conns t' !! k) →
is_Some (tcp_conns t !! k) ∨ opens k o.
Proof.
destruct o as [env []]; cbn [tcp_step].
- unfold tcp_TrackOutbound. intros H Hk.
  pose proof (tcp_updateIfExists_dom env t dst src dp sp flags Egress size k) as Hd.
  destruct (tcp_updateIfExists _ _ _ _ _ _ _ _ _) as [[t1 p] ex]. simpl in Hd.
  destruct ex; [simplify_eq/=; auto|].
  destruct (tcp_track _ _ _ _ _ _ _ _ _ _) eqn:E; simplify_eq/=.
  destruct (tcp_track_dom _ _ _ _ _ _ _ _ _ _ _ _ k E Hk); auto.
- apply tcp_track_dom.
- intros [= <-] Hk. left. revert Hk. unfold tcp_IsValidInbound.
  destruct (tcp_conns t !! MkKey _ _ _ _) eqn:E; [|done]. split_cases.
  intros Hk. eapply tcp_conns_store_dom; [done|]. by eexists.
- intros [= <-] Hk. left. by eapply tcp_cleanup_dom.
- intros [= <-] Hk. unfold tcp_conns in Hk. simpl in Hk. destruct Hk as [? Hk].
  by rewrite lookup_empty in Hk.
Qed.

Lemma tcp_run_dom ops t t' k :
tcp_run t ops = Some t' → is_Some (tcp_conns t' !! k) →
is_Some (tcp_conns t !! k) ∨ Exists (opens k) ops.
Proof.
apply (run_origin _ (λ t, is_Some (tcp_conns t !! k))). intros t1 o t2. apply tcp_step_dom.
Qed.

Lemma updateState_no_start now c flags dir sz f :
count (is_event TypeStart f) (updateState now c flags dir sz).2 = 0%nat.
Proof.
destruct (updateState _ _ _ _ _) as [c' evs] eqn:E. simpl. apply updateState_effect in E.
destruct E; by rewrite ?count_singleton.
Qed.

Lemma tcp_updateIfExists_starts env t s d sp dp fl dir sz f :
starts f (tcp_updateIfExists env t s d sp dp fl dir sz).1.1 = starts f t.
Proof.
unfold tcp_updateIfExists. split_cases. unfold starts. simpl.
by rewrite count_app, updateState_no_start, Nat.add_0_r.
Qed.

Lemma tcp_track_starts env t s d sp dp fl dir r sz op t' f :
tcp_track env t s d sp dp fl dir r sz op = Some t' →
(starts f t' <= starts f t + if bool_decide (env_uuid env = f) then 1 else 0)%nat.
Proof.
intros [[-> _]|(_ & _ & m & m' & evs & _ & _ & _ & Hevs & _ & Ht')]%tcp_track_cases.
- rewrite tcp_updateIfExists_starts. lia.
- unfold starts. rewrite Ht', !count_app, Hevs.
  match goal with |- context [tcp_sendEvent _ ?c _] =>
    destruct (start_event_account c r f) as [-> _];
    assert (FlowId (tcp_base c) = env_uuid env) as -> end; [|lia].
  exact (proj1 (updateState_identity _ (fresh_conn env s d sp dp dir op) _ _ _)).
Qed.

Lemma tcp_cleanup_starts env t f : starts f (tcp_cleanup env t) = starts f t.
Proof.
unfold tcp_cleanup. generalize (range_list (env_seed env) (tcp_conns t)) as l. intros l.
revert t. induction l as [|[k c] l IH]; intros t; cbn [foldl]; [done|]. rewrite IH.
unfold tcp_cleanup_entry, starts. split_cases; rewrite ?count_app, ?count_nil, ?count_singleton; simpl; lia.
Qed.

Lemma tcp_step_starts t o t' f :
tcp_step t o = Some t' →
(starts f t' <= starts f t + if bool_decide (env_uuid o.1 = f) then 1 else 0)%nat.
Proof.
destruct o as [env []]; cbn [tcp_step fst].
- unfold tcp_TrackOutbound.
  pose proof (tcp_updateIfExists_starts env t dst src dp sp flags Egress size f) as Hu.
  destruct (tcp_updateIfExists _ _ _ _ _ _ _ _ _) as [[t1 p] ex]. simpl in Hu. intros H.
  destruct ex; [simplify_eq/=; lia|].
  destruct (tcp_track _ _ _ _ _ _ _ _ _ _) eqn:E; simplify_eq/=.
  apply (tcp_track_starts _ _ _ _ _ _ _ _ _ _ _ _ f) in E. lia.
- apply tcp_track_starts.
- intros [= <-]. unfold tcp_IsValidInbound. split_cases; try lia;
    unfold starts; simpl; rewrite count_app, updateState_no_start; lia.
- intros [= <-]. rewrite tcp_cleanup_starts. lia.
- intros [= <-]. unfold starts. simpl. rewrite app_nil_r. lia.
Qed.

(** A flow identifier is started at most as often as [uuid.New] returned it. *)
Lemma tcp_run_starts ops t t' f :
tcp_run t ops = Some t' →
(starts f t' <= starts f t + count (λ o, bool_decide (env_uuid o.1 = f)) ops)%nat.
Proof.
revert t. induction ops as [|o ops IH]; intros t; simpl; [intros [= <-]; lia|].
destruct (tcp_step t o) as [t1|] eqn:E; [|done]. intros H%IH.
apply (tcp_step_starts _ _ _ f) in E. unfold count in *. rewrite filter_cons.
destruct (decide (bool_decide (env_uuid o.1 = f) = true)) as [Hd|Hd];
  [rewrite Hd in E; simpl; lia|].
apply not_true_is_false in Hd. rewrite Hd in E. lia.
Qed.

(** ** The tracker's guarantees *)

(** From [NewTCPTracker], whatever calls are made and whatever order the
  map is iterated in, the table never holds more entries than the cap read
  from NB_CONNTRACK_TCP_MAX, which is positive. *)
Theorem tcp_table_bounded Getenv PD timeout ops t :
tcp_run (NewTCPTracker Getenv PD timeout) ops = Some t →
0 < tt_maxEntries t ∧ Z.of_nat (size (tcp_conns t)) <= tt_maxEntries t ∧
tt_maxEntries t = envInt Getenv "NB_CONNTRACK_TCP_MAX" DefaultMaxTCPEntries.
Proof.
intros H. assert (Hmax : tt_maxEntries t = envInt Getenv "NB_CONNTRACK_TCP_MAX" DefaultMaxTCPEntries).
{ pose proof (tcp_run_config _ _ _ H) as Hc.
  assert (tt_maxEntries t = tt_maxEntries (NewTCPTracker Getenv PD timeout)) as ->
    by (unfold tcp_config in Hc; congruence).
  unfold NewTCPTracker. by destruct (timeout =? 0). }
assert (Hpos : 0 < tt_maxEntries t) by (rewrite Hmax; by apply envInt_pos).
split_and!; [done | apply (inv_cap t); [by eapply tcp_reachable_inv | done] | done].
Qed.

(** While a tracker is open, every flow's start events are matched: they
  are exactly its end events plus its connections that can still end. *)
Theorem tcp_flow_balance Getenv PD timeout ops t f :
tcp_run (NewTCPTracker Getenv PD timeout) ops = Some t →
is_Some (tt_connections t) →
starts f t = (ends f t + live_count f (tcp_conns t))%nat.
Proof. intros H Ho. apply (inv_balance t); [by eapply tcp_reachable_inv | done]. Qed.

(** When [uuid.New] does not repeat, no flow ends twice, no flow ends
  without a start, and a flow with a live connection has not ended. *)
Theorem tcp_flow_ends_once Getenv PD timeout ops t f :
NoDup ((λ o, env_uuid o.1) <$> ops) →
tcp_run (NewTCPTracker Getenv PD timeout) ops = Some t →
is_Some (tt_connections t) →
(starts f t <= 1)%nat ∧ (ends f t <= starts f t)%nat ∧
((0 < live_count f (tcp_conns t))%nat → starts f t = 1%nat ∧ ends f t = 0%nat).
Proof.
intros Hnd H Ho. pose proof (tcp_run_starts _ _ _ f H) as Hs.
pose proof (inv_balance t (tcp_reachable_inv _ _ _ _ _ H) Ho f) as Hb.
pose proof (NoDup_count_le_1 (λ o, env_uuid o.1) ops f Hnd) as Hle.
assert (starts f (NewTCPTracker Getenv PD timeout) = 0%nat) as H0.
{ unfold NewTCPTracker. by destruct (timeout =? 0). }
rewrite H0 in Hs. lia.
Qed.

(** Until [Close] is called no operation panics: every run returns and
  the tracker stays open. *)
Theorem tcp_no_panic_before_close Getenv PD timeout ops :
Forall (λ o, is_close o = false) ops →
∃ t, tcp_run (NewTCPTracker Getenv PD timeout) ops = Some t ∧ is_Some (tt_connections t).
Proof.
assert (Ho : is_Some (tt_connections (NewTCPTracker Getenv PD timeout))).
{ unfold NewTCPTracker. destruct (timeout =? 0); by eexists. }
apply (run_total _ (λ t, is_Some (tt_connections t))); [apply tcp_step_total | done].
Qed.

(** After [Close] a packet with a legal SYN makes [track] write to the
  nil map: a run-time panic, in either direction. *)
Theorem tcp_track_after_close_panics env t src dst sp dp flags dir r sz op :
has flags TCPSyn = true → isValidFlagCombination flags = true →
tcp_track env (tcp_Close t) src dst sp dp flags dir r sz op = None.
Proof.
intros Hs Hv. unfold tcp_track, tcp_updateIfExists.
change (tcp_conns (tcp_Close t)) with (∅ : gmap ConnKey TCPConnTrack). rewrite lookup_empty.
rewrite hasnt_negb, Hs, Hv. simpl. destruct (updateState _ _ _ _ _) as [c evs].
match goal with |- match tt_connections (if ?b then tcp_evictOneLocked ?s ?x else ?x) with _ => _ end = _ =>
  destruct b; [rewrite (tcp_evict_closed s x eq_refl)|] end; done.
Qed.

(** An inbound packet is accepted only as the reply side of a connection
  that an earlier call opened with a legal SYN under the mirrored key. *)
Theorem tcp_inbound_needs_syn Getenv PD timeout ops t env src dst sp dp flags sz t' :
tcp_run (NewTCPTracker Getenv PD timeout) ops = Some t →
tcp_IsValidInbound env t src dst sp dp flags sz = (t', true) →
Exists (opens (reverse_key (MkKey src dst sp dp))) ops.
Proof.
intros H Hv.
assert (Hk : is_Some (tcp_conns t !! MkKey dst src dp sp)).
{ revert Hv. unfold tcp_IsValidInbound. by destruct (tcp_conns t !! _). }
destruct (tcp_run_dom _ _ _ _ H Hk) as [[c Hc]|]; [|done]. exfalso. revert Hc.
unfold NewTCPTracker, tcp_conns. destruct (timeout =? 0); simpl; by rewrite lookup_empty.
Qed.

(** [cleanup] removes exactly the tombstones and the entries idle for
  longer than the timeout of their state, in any iteration order; the
  others are kept unchanged. *)
Theorem tcp_cleanup_exact Getenv PD timeout ops t m env :
tcp_run (NewTCPTracker Getenv PD timeout) ops = Some t → tt_connections t = Some m →
tt_connections (tcp_cleanup env t) =
  Some (filter (λ kc, stale (env_now env) t kc.2 = false) m).
Proof.
intros H Hm. destruct (tcp_cleanup_spec env t m) as (_ & m' & -> & Hl);
  [by eapply tcp_reachable_inv | done |].
f_equal. apply map_eq. intros k. rewrite Hl. symmetry.
destruct (m !! k) as [c|] eqn:Ek; [|apply map_lookup_filter_None; by left].
destruct (stale _ t c) eqn:Es.
- apply map_lookup_filter_None. right. intros c' ?. simplify_eq. simpl. congruence.
- apply map_lookup_filter_Some. by split.
Qed.
End Ops.

(** ** Packets on one connection *)

Record Packet := { pk_now : Z; pk_flags : Z; pk_dir : Direction; pk_size : Z }.

Definition on_packet (c : TCPConnTrack) (p : Packet) : TCPConnTrack :=
  (updateState (pk_now p) c (pk_flags p) (pk_dir p) (pk_size p)).1.

(** How often the state changes along a sequence of packets. *)
Fixpoint state_changes (c : TCPConnTrack) (ps : list Packet) : nat :=
  match ps with
  | [] => 0
  | p :: ps' =>
      ((if decide (tcp_state (on_packet c p) = tcp_state c) then 0 else 1) +
       state_changes (on_packet c p) ps')%nat
  end.

Lemma updateState_rank now c flags dir sz :
  let c' := (updateState now c flags dir sz).1 in
  tcp_state c' = tcp_state c ∨ state_rank (tcp_state c) < state_rank (tcp_state c').
Proof.
  destruct (updateState now c flags dir sz) as [c' evs] eqn:E. simpl.
  apply updateState_effect in E. destruct E as [? ?|? ? ->|? ->|? ->]; auto.
  - right. by destruct (tcp_state c).
  - destruct (tcp_state c); auto; by right.
Qed.

(** The state of a connection only moves forward, so it changes at most
    seven times however many packets arrive. *)
Theorem tcp_state_forward c ps :
  Z.of_nat (state_changes c ps) + state_rank (tcp_state c) <=
    state_rank (tcp_state (foldl on_packet c ps)) ∧
  (state_changes c ps <= 7)%nat.
Proof.
  assert (Hle : Z.of_nat (state_changes c ps) + state_rank (tcp_state c) <=
                state_rank (tcp_state (foldl on_packet c ps))).
  { revert c. induction ps as [|p ps IH]; intros c; cbn [state_changes foldl]; [lia|].
    specialize (IH (on_packet c p)).
    destruct (updateState_rank (pk_now p) c (pk_flags p) (pk_dir p) (pk_size p)) as [E|E];
      fold (on_packet c p) in E; case_decide as Hd; try done.
    - rewrite E in IH. lia.
    - rewrite Hd in E. lia.
    - lia. }
  split; [done|].
  pose proof (state_rank_bounds (tcp_state c)).
  pose proof (state_rank_bounds (tcp_state (foldl on_packet c ps))). lia.
Qed.

(** A reset closes the connection, tombstones it and sends its end event,
    except in TIME-WAIT and except a reset sent by the opener of a connection
    still in SYN-SENT, which change nothing but counters and time. *)
Theorem tcp_reset_spec now c flags dir sz :
  has flags TCPRst = true → isValidFlagCombination flags = true →
  let '(c', evs) := updateState now c flags dir sz in
  let protected := bool_decide (tcp_state c = TCPStateTimeWait) ||
    (bool_decide (tcp_state c = TCPStateSynSent) &&
     bool_decide (dir = conn_Direction (tcp_base c))) in
  if protected
  then tcp_state c' = tcp_state c ∧ tcp_tombstone c' = tcp_tombstone c ∧ evs = []
  else tcp_state c' = TCPStateClosed ∧ tcp_tombstone c' = true ∧
       evs = [tcp_sendEvent TypeEnd c' []].
Proof.
  intros Hr Hv. unfold updateState. rewrite Hr, Hv. simpl.
  unfold handleRst, CompareAndSwapState, GetState. simpl.
  destruct (UpdateCounters_id dir sz (tcp_base c)) as (_&_&_&Hd&_&_). rewrite Hd.
  destruct (decide (tcp_state c = TCPStateTimeWait)) as [E|E]; simpl.
  - rewrite bool_decide_true by done. done.
  - rewrite (bool_decide_false (tcp_state c = TCPStateTimeWait)) by done. simpl.
    destruct (_ && _); [done|]. by rewrite decide_True by done.
Qed.

Lemma tcp_syn_inserts {MO : MapOrder} env t m src dst sp dp flags dir r sz op :
  has flags TCPSyn = true → isValidFlagCombination flags = true →
  tt_connections t = Some m → m !! MkKey src dst sp dp = None →
  ∃ t', tcp_track env t src dst sp dp flags dir r sz op = Some t' ∧
    tcp_conns t' !! MkKey src dst sp dp =
      Some (updateState (env_now env) (fresh_conn env src dst sp dp dir op) flags dir sz).1.
Proof.
  intros Hs Hv Hm Hk.
  destruct (tcp_track_total env t src dst sp dp flags dir r sz op) as (t' & Ht & Ho); [by eexists|].
  exists t'. split; [done|].
  destruct (tcp_track_cases _ _ _ _ _ _ _ _ _ _ _ _ Ht) as
    [[_ H]|(_ & _ & m0 & m' & evs & _ & _ & _ & _ & Hm' & _)];
    [|unfold tcp_conns; rewrite Hm'; apply lookup_insert_eq].
  revert H. unfold tcp_updateIfExists, tcp_conns. rewrite Hm. simpl. rewrite Hk.
  by rewrite hasnt_negb, Hs, Hv.
Qed.

(** The handshake: an outbound SYN towards an address the table does not
    know is tracked, the mirrored SYN-ACK is accepted and the connection is
    established. *)
Theorem tcp_handshake {MO : MapOrder} env1 env2 t m src dst sp dp sz1 sz2 :
  tt_connections t = Some m →
  m !! MkKey src dst sp dp = None → m !! MkKey dst src dp sp = None →
  ∃ t1 t2 c,
    tcp_TrackOutbound env1 t src dst sp dp TCPSyn sz1 = Some (t1, 0) ∧
    tcp_IsValidInbound env2 t1 dst src dp sp (Z.lor TCPSyn TCPAck) sz2 = (t2, true) ∧
    tcp_GetConnection t2 src sp dst dp = Some c ∧
    tcp_state c = TCPStateEstablished ∧ tcp_tombstone c = false ∧
    FlowId (tcp_base c) = env_uuid env1 ∧ conn_Direction (tcp_base c) = Egress.
Proof.
  intros Hm Hk Hrk. unfold tcp_TrackOutbound.
  assert (tcp_updateIfExists env1 t dst src dp sp TCPSyn Egress sz1 = (t, 0, false)) as ->.
  { unfold tcp_updateIfExists, tcp_conns. by rewrite Hm; simpl; rewrite Hrk. }
  destruct (tcp_syn_inserts env1 t m src dst sp dp TCPSyn Egress [] sz1 0)
    as (t1 & -> & Hc); [done..|].
  exists t1. unfold tcp_IsValidInbound. rewrite Hc. cbn -[tcp_store].
  do 2 eexists. split; [done|]. split; [done|]. unfold tcp_GetConnection.
  rewrite tcp_conns_store, lookup_insert_eq by (by eexists). split; [reflexivity|]. done.
Qed.

(** ** Concrete runs *)

Definition no_env : string → string := λ _, "".
Definition no_duration : string → option Z := λ _, None.
Definition wA : Addr := AddrV4 1684300801.
Definition wB : Addr := AddrV4 1684300802.
Definition w_env (n : N) : Env := {| env_now := Z.of_N n; env_uuid := n; env_seed := 0 |}.

(** Open a connection, accept the reply, acknowledge, reset. *)
Definition w_ops : list (Env * TCPOp) :=
  [ (w_env 1, OpOutbound wA wB 4000 80 TCPSyn 60);
    (w_env 2, OpValidInbound wB wA 80 4000 (Z.lor TCPSyn TCPAck) 60);
    (w_env 3, OpOutbound wA wB 4000 80 TCPAck 52);
    (w_env 4, OpInbound wB wA 5000 22 TCPSyn [] 60 0) ].

Definition w_new : TCPTracker := NewTCPTracker no_env no_duration 0.
Definition w_tracker : TCPTracker :=
  default w_new (tcp_run (MO := canonical_order) w_new w_ops).
Definition w_table : gmap ConnKey TCPConnTrack := tcp_conns w_tracker.

Lemma w_run : tcp_run (MO := canonical_order) w_new w_ops = Some w_tracker.
Proof. apply some_default. vm_compute. reflexivity. Qed.

Lemma w_open : tt_connections w_tracker = Some w_table.
Proof. apply some_default. vm_compute. reflexivity. Qed.

Lemma tcp_table_bounded_witness :
  0 < tt_maxEntries w_tracker ∧
  Z.of_nat (size (tcp_conns w_tracker)) <= tt_maxEntries w_tracker ∧
  tt_maxEntries w_tracker = envInt no_env "NB_CONNTRACK_TCP_MAX" DefaultMaxTCPEntries.
Proof. exact (tcp_table_bounded (MO := canonical_order) _ _ _ _ _ w_run). Defined.

Lemma tcp_flow_balance_witness :
  starts 1 w_tracker = (ends 1 w_tracker + live_count 1 (tcp_conns w_tracker))%nat.
Proof.
  exact (tcp_flow_balance (MO := canonical_order) _ _ _ _ _ 1 w_run (ex_intro _ _ w_open)).
Defined.

Lemma tcp_flow_ends_once_witness :
  (starts 1 w_tracker <= 1)%nat ∧ (ends 1 w_tracker <= starts 1 w_tracker)%nat ∧
  ((0 < live_count 1 (tcp_conns w_tracker))%nat →
     starts 1 w_tracker = 1%nat ∧ ends 1 w_tracker = 0%nat).
Proof.
  assert (Hnd : NoDup ((λ o, env_uuid o.1) <$> w_ops))
    by (apply (bool_decide_unpack _); vm_compute; exact I).
  exact (tcp_flow_ends_once (MO := canonical_order) _ _ _ _ _ 1 Hnd w_run (ex_intro _ _ w_open)).
Defined.

Lemma tcp_no_panic_before_close_witness :
  ∃ t, tcp_run (MO := canonical_order) w_new w_ops = Some t ∧ is_Some (tt_connections t).
Proof.
  apply (tcp_no_panic_before_close (MO := canonical_order) no_env no_duration 0 w_ops).
  repeat constructor.
Defined.

Lemma tcp_track_after_close_panics_witness :
  tcp_track (MO := canonical_order) (w_env 5) (tcp_Close w_tracker) wA wB 4001 80 TCPSyn
    Egress [] 60 0 = None.
Proof. apply tcp_track_after_close_panics; reflexivity. Defined.

Lemma tcp_inbound_needs_syn_witness :
  Exists (opens (reverse_key (MkKey wB wA 80 4000))) w_ops.
Proof.
  assert (Hv : tcp_IsValidInbound (w_env 6) w_tracker wB wA 80 4000 TCPAck 52 =
    ((tcp_IsValidInbound (w_env 6) w_tracker wB wA 80 4000 TCPAck 52).1, true))
    by (apply pair_of_snd; vm_compute; reflexivity).
  exact (tcp_inbound_needs_syn (MO := canonical_order) _ _ _ _ _ _ _ _ _ _ _ _ _ w_run Hv).
Defined.

Lemma tcp_cleanup_exact_witness :
  tt_connections (tcp_cleanup (MO := canonical_order) (w_env 7) w_tracker) =
    Some (filter (λ kc, stale (env_now (w_env 7)) w_tracker kc.2 = false) w_table).
Proof. exact (tcp_cleanup_exact (MO := canonical_order) _ _ _ _ _ _ (w_env 7) w_run w_open). Defined.

Lemma tcp_reset_spec_witness :
  let '(c', evs) := updateState 9 (fresh_conn (w_env 1) wA wB 4000 80 Egress 0) TCPRst Ingress 40 in
  tcp_state c' = TCPStateClosed ∧ tcp_tombstone c' = true ∧ evs = [tcp_sendEvent TypeEnd c' []].
Proof.
  exact (tcp_reset_spec 9 (fresh_conn (w_env 1) wA wB 4000 80 Egress 0) TCPRst Ingress 40
    eq_refl eq_refl).
Defined.

Lemma tcp_handshake_witness :
  ∃ t1 t2 c,
    tcp_TrackOutbound (MO := canonical_order) (w_env 1) w_new wA wB 4000 80 TCPSyn 60 = Some (t1, 0) ∧
    tcp_IsValidInbound (w_env 2) t1 wB wA 80 4000 (Z.lor TCPSyn TCPAck) 60 = (t2, true) ∧
    tcp_GetConnection t2 wA 4000 wB 80 = Some c ∧
    tcp_state c = TCPStateEstablished ∧ tcp_tombstone c = false ∧
    FlowId (tcp_base c) = 1%N ∧ conn_Direction (tcp_base c) = Egress.
Proof. apply (tcp_handshake (MO := canonical_order) (w_env 1) (w_env 2) w_new ∅); reflexivity. Defined.
