(* ===== verification/TimedTable.v ===== *)
(** * Timed connection tables

    What [client/firewall/uspfilter/conntrack/udp.go] and [icmp.go] share: a
    capped table of connections that expire when idle, with a start event per
    entry and an end event when it leaves.  The connection type is the
    interface [TrackedConn]; the two trackers instantiate it, and the
    theorems proved here against the interface hold for both. *)
From S2P Require Import Prelude NetIP ConnTrack.
Open Scope Z_scope.

(** What a connection type gives to the table. *)
Class TrackedConn (C : Type) := {
  tc_base : C → BaseConnTrack;
  tc_set_base : BaseConnTrack → C → C;
  tc_sendEvent : EventType → C → list Z → EventFields;
  tc_base_set b c : tc_base (tc_set_base b c) = b;
  tc_event_type ty c r : ev_Type (tc_sendEvent ty c r) = ty;
  tc_event_flow ty c r : ev_FlowID (tc_sendEvent ty c r) = FlowId (tc_base c);
  tc_event_counters c r :
    ev_RxPackets (tc_sendEvent TypeStart c r) = 0 ∧ ev_TxPackets (tc_sendEvent TypeStart c r) = 0;
}.

Record Table (K C : Type) `{Countable K} := {
  tb_connections : option (gmap K C);
  tb_timeout : Z;
  tb_maxEntries : Z;
  tb_events : list EventFields;
}.
Arguments tb_connections {_ _ _ _} _.
Arguments tb_timeout {_ _ _ _} _.
Arguments tb_maxEntries {_ _ _ _} _.
Arguments tb_events {_ _ _ _} _.

Section Operations.
Context {MO : MapOrder} {K C : Type} `{Countable K} {TC : TrackedConn C}.
Implicit Types t : Table K C.

Definition tb_conns t : gmap K C := default ∅ (tb_connections t).

Definition set_table (m : option (gmap K C)) (evs : list EventFields) t : Table K C :=
  {| tb_connections := m; tb_timeout := tb_timeout t; tb_maxEntries := tb_maxEntries t;
     tb_events := tb_events t ++ evs |}.

(** [conn.UpdateLastSeen(); conn.UpdateCounters(dir, size)]. *)
Definition touch (now : Z) (dir : Direction) (size : Z) (c : C) : C :=
  tc_set_base (UpdateCounters dir size (UpdateLastSeen now (tc_base c))) c.

Definition tb_updateIfExists (env : Env) t (key : K) (dir : Direction) (size : Z)
    : Table K C * option C :=
  match tb_conns t !! key with
  | Some conn =>
      let conn' := touch (env_now env) dir size conn in
      (set_table (<[key := conn']> <$> tb_connections t) [] t, Some conn')
  | None => (t, None)
  end.

Definition tb_evictOneLocked (seed : nat) t : Table K C :=
  match tb_connections t with
  | None => t
  | Some m =>
      match scan_oldest (λ c, lastSeen (tc_base c)) 0 (range_list seed m) None with
      | Some (k, _) =>
          set_table (Some (delete k m))
            (match m !! k with Some c => [tc_sendEvent TypeEnd c []] | None => [] end) t
      | None => t
      end
  end.

(** The locked section of [track] and the start event that follows it;
    [None] is the panic of a write to the nil map. *)
Definition tb_insert (seed : nat) t (key : K) (conn : C) (ruleID : list Z)
    : option (Table K C) :=
  let t :=
    if (0 <? tb_maxEntries t) && (tb_maxEntries t <=? Z.of_nat (base.size (tb_conns t)))
    then tb_evictOneLocked seed t else t in
  match tb_connections t with
  | None => None
  | Some m => Some (set_table (Some (<[key := conn]> m)) [tc_sendEvent TypeStart conn ruleID] t)
  end.

(** The lookup half of [IsValidInbound]. *)
Definition tb_valid (env : Env) t (key : K) (size : Z) : Table K C * bool :=
  match tb_conns t !! key with
  | None => (t, false)
  | Some conn =>
      if timeoutExceeded (env_now env) (tb_timeout t) (tc_base conn) then (t, false)
      else (set_table (<[key := touch (env_now env) Ingress size conn]> <$> tb_connections t) [] t,
            true)
  end.

Definition tb_cleanup_entry (now : Z) t (kc : K * C) : Table K C :=
  let '(key, conn) := kc in
  if timeoutExceeded now (tb_timeout t) (tc_base conn) then
    set_table (delete key <$> tb_connections t) [tc_sendEvent TypeEnd conn []] t
  else t.

Definition tb_cleanup (env : Env) t : Table K C :=
  foldl (tb_cleanup_entry (env_now env)) t (range_list (env_seed env) (tb_conns t)).

Definition tb_Close t : Table K C := set_table None [] t.

(** ** Accounting *)

(** A start event that announces a tracked connection: its packet counters
    are zero. *)
Definition is_start (f : N) (e : EventFields) : bool :=
  is_event TypeStart f e && (ev_RxPackets e =? 0) && (ev_TxPackets e =? 0).

Definition tb_starts (f : N) t : nat := count (is_start f) (tb_events t).
Definition tb_ends (f : N) t : nat := count (is_event TypeEnd f) (tb_events t).

Definition of_flow (f : N) (c : C) : bool := bool_decide (FlowId (tc_base c) = f).

Definition flow_count (f : N) (m : gmap K C) : nat :=
  size (filter (λ kc, of_flow f kc.2 = true) m).

Lemma flow_count_delete f m k :
  flow_count f m =
  (flow_count f (delete k m) +
   match m !! k with Some c => if of_flow f c then 1 else 0 | None => 0 end)%nat.
Proof.
  unfold flow_count. destruct (m !! k) as [c|] eqn:E.
  - rewrite <- (insert_delete_id m k c E) at 1. destruct (of_flow f c) eqn:El.
    + rewrite map_filter_insert_True by done. rewrite map_size_insert_None; [lia|].
      apply map_lookup_filter_None. left. apply lookup_delete_eq.
    + rewrite map_filter_insert_False by (simpl; congruence). rewrite delete_delete_eq. lia.
  - rewrite delete_id by done. lia.
Qed.

Lemma flow_count_insert f m k c :
  flow_count f (<[k := c]> m) =
  (flow_count f (delete k m) + if of_flow f c then 1 else 0)%nat.
Proof. by rewrite (flow_count_delete f _ k), lookup_insert_eq, delete_insert_eq. Qed.

Lemma end_account c f :
  count (is_start f) [tc_sendEvent TypeEnd c []] = 0%nat ∧
  count (is_event TypeEnd f) [tc_sendEvent TypeEnd c []] = if of_flow f c then 1%nat else 0%nat.
Proof.
  rewrite !count_singleton. unfold is_start, is_event, of_flow.
  by rewrite tc_event_type, tc_event_flow.
Qed.

Lemma start_account c r f :
  count (is_start f) [tc_sendEvent TypeStart c r] = (if of_flow f c then 1%nat else 0%nat) ∧
  count (is_event TypeEnd f) [tc_sendEvent TypeStart c r] = 0%nat.
Proof.
  rewrite !count_singleton. unfold is_start, is_event, of_flow.
  rewrite tc_event_type, tc_event_flow. destruct (tc_event_counters c r) as [-> ->].
  by destruct (bool_decide (FlowId _ = f)).
Qed.

(** The invariant: the counters fit their width, the cap holds, and while
    the table is open the tracked starts of each flow are its ends plus the
    entries that carry it. *)
Record tb_inv t : Prop := {
  tb_inv_wf k c : tb_conns t !! k = Some c → base_wf (tc_base c);
  tb_inv_cap : 0 < tb_maxEntries t → Z.of_nat (size (tb_conns t)) <= tb_maxEntries t;
  tb_inv_balance : is_Some (tb_connections t) →
    ∀ f, tb_starts f t = (tb_ends f t + flow_count f (tb_conns t))%nat;
}.

Lemma touch_flow now dir sz c f : of_flow f (touch now dir sz c) = of_flow f c.
Proof.
  unfold of_flow, touch. rewrite tc_base_set.
  by destruct (UpdateCounters_id dir sz (UpdateLastSeen now (tc_base c))) as (-> & _).
Qed.

Lemma touch_lastSeen now dir sz c : lastSeen (tc_base (touch now dir sz c)) = now.
Proof.
  unfold touch. rewrite tc_base_set.
  by destruct (UpdateCounters_id dir sz (UpdateLastSeen now (tc_base c))) as (_&_&_&_&->&_).
Qed.

Lemma touch_wf now dir sz c : base_wf (tc_base c) → base_wf (tc_base (touch now dir sz c)).
Proof. intros. unfold touch. rewrite tc_base_set. auto with netbird. Qed.

(** Touching an entry in place. *)
Lemma tb_touch_inv t k c now dir sz :
  tb_inv t → tb_conns t !! k = Some c →
  tb_inv (set_table (<[k := touch now dir sz c]> <$> tb_connections t) [] t).
Proof.
  intros [Hwf Hcap Hbal] Hk. unfold tb_conns in *.
  destruct (tb_connections t) as [m|] eqn:Hm; simpl in *; [|by rewrite lookup_empty in Hk].
  split; unfold tb_conns, tb_starts, tb_ends in *; simpl; rewrite ?app_nil_r.
  - intros k' c'. rewrite lookup_insert. case_decide; [|by apply Hwf].
    intros [= <-]. by eapply touch_wf, Hwf.
  - by rewrite map_size_insert_Some by (by eexists).
  - intros _ f. rewrite (Hbal (ltac:(by eexists)) f), flow_count_insert, touch_flow.
    by rewrite (flow_count_delete f m k), Hk.
Qed.

Lemma tb_remove_inv t m k c :
  tb_inv t → tb_connections t = Some m → m !! k = Some c →
  tb_inv (set_table (Some (delete k m)) [tc_sendEvent TypeEnd c []] t).
Proof.
  intros [Hwf Hcap Hbal] Hm Hk. unfold tb_conns, tb_starts, tb_ends in *. rewrite Hm in *.
  simpl in *. split; unfold tb_conns, tb_starts, tb_ends; simpl.
  - intros k' c'. rewrite lookup_delete_Some. intros [_ ?]. by eapply Hwf.
  - intros Hp. specialize (Hcap Hp). rewrite map_size_delete, Hk. simpl. lia.
  - intros _ f. specialize (Hbal (ltac:(by eexists)) f). destruct (end_account c f) as [Hs He].
    rewrite !count_app, Hs, He. rewrite (flow_count_delete f m k), Hk in Hbal. lia.
Qed.

(** What eviction does to an open, non-empty table: it removes one entry,
    no younger than any other of the sample, and sends its end event. *)
Lemma tb_evict_spec seed t m :
  tb_connections t = Some m → m ≠ ∅ →
  ∃ k c, m !! k = Some c ∧
    tb_evictOneLocked seed t = set_table (Some (delete k m)) [tc_sendEvent TypeEnd c []] t ∧
    ∀ k' c', (k', c') ∈ take evictSampleSize (range_list seed m) →
      lastSeen (tc_base c) <= lastSeen (tc_base c').
Proof.
  intros Hm Hne. unfold tb_evictOneLocked. rewrite Hm.
  set (seen := λ c, lastSeen (tc_base c)).
  destruct (scan_oldest_nonempty seen (range_list seed m)) as [[k s] Hs].
  { intros Hnil. apply Hne. pose proof (length_range_list seed m) as Hl.
    rewrite Hnil in Hl. by apply map_size_empty_inv. }
  rewrite Hs.
  destruct (scan_oldest_elem _ _ _ _ _ _ Hs) as [?|(c & Hin & ->)]; [done|].
  apply elem_of_range_list in Hin. exists k, c. rewrite Hin. split_and!; [done..|].
  intros k' c' Hin'. by apply (proj2 (scan_oldest_min seen 0 _ _ _ _ Hs) k' c').
Qed.

Lemma tb_evict_closed seed t : tb_connections t = None → tb_evictOneLocked seed t = t.
Proof. intros Hm. unfold tb_evictOneLocked. by rewrite Hm. Qed.

Lemma set_table_conns m evs t : tb_conns (set_table (Some m) evs t) = m.
Proof. done. Qed.

(** Inserting a new connection under a free key. *)
Lemma tb_put_inv t m k c r :
  tb_inv t → tb_connections t = Some m → m !! k = None → base_wf (tc_base c) →
  (0 < tb_maxEntries t → Z.of_nat (size m) < tb_maxEntries t) →
  tb_inv (set_table (Some (<[k := c]> m)) [tc_sendEvent TypeStart c r] t).
Proof.
  intros [Hwf Hcap Hbal] Hm Hk Hc Hroom. unfold tb_conns, tb_starts, tb_ends in *.
  rewrite Hm in *. simpl in *. split; unfold tb_conns, tb_starts, tb_ends; simpl.
  - intros k' c'. rewrite lookup_insert. case_decide; [by intros [= <-]|by apply Hwf].
  - rewrite map_size_insert_None by done. intros Hp. specialize (Hroom Hp). lia.
  - intros _ f. specialize (Hbal (ltac:(by eexists)) f). destruct (start_account c r f) as [Hs He].
    rewrite !count_app, Hs, He, flow_count_insert, delete_id by done. lia.
Qed.

Lemma tb_insert_cases seed t k c r t' :
  tb_insert seed t k c r = Some t' →
  ∃ m, tb_connections t = Some m ∧
    ((t' = set_table (Some (<[k := c]> m)) [tc_sendEvent TypeStart c r] t ∧
      (0 < tb_maxEntries t → Z.of_nat (size m) < tb_maxEntries t)) ∨
     ∃ k0 c0, m !! k0 = Some c0 ∧ 0 < tb_maxEntries t ∧
      tb_maxEntries t <= Z.of_nat (size m) ∧
      t' = set_table (Some (<[k := c]> (delete k0 m)))
             [tc_sendEvent TypeEnd c0 []; tc_sendEvent TypeStart c r] t).
Proof.
  unfold tb_insert. destruct (tb_connections t) as [m|] eqn:Hm.
  - assert (Hcm : tb_conns t = m) by (unfold tb_conns; by rewrite Hm). rewrite Hcm.
    intros Ht. exists m. split; [done|]. destruct (_ && _) eqn:Hfull; bools.
    + destruct (tb_evict_spec seed t m Hm) as (k0 & c0 & Hk0 & He & _).
      { intros ->. rewrite map_size_empty in Hfull. lia. }
      rewrite He in Ht. injection Ht as <-. right. exists k0, c0. split_and!; try tauto.
      unfold set_table. simpl. by rewrite <- app_assoc.
    + rewrite Hm in Ht. injection Ht as <-. left. split; [done|]. lia.
  - intros Ht. exfalso. revert Ht. destruct (_ && _); [rewrite tb_evict_closed by done|]; by rewrite Hm.
Qed.

Lemma tb_insert_inv seed t k c r t' :
  tb_inv t → tb_conns t !! k = None → base_wf (tc_base c) →
  tb_insert seed t k c r = Some t' → tb_inv t'.
Proof.
  intros Hinv Hk Hc (m & Hm & Hcase)%tb_insert_cases.
  assert (Hcm : tb_conns t = m) by (unfold tb_conns; by rewrite Hm). rewrite Hcm in Hk.
  destruct Hcase as [[-> Hroom]|(k0 & c0 & Hk0 & Hpos & Hfull & ->)].
  - by apply tb_put_inv.
  - pose proof (tb_remove_inv t m k0 c0 Hinv Hm Hk0) as Hinv'.
    set (t1 := set_table (Some (delete k0 m)) _ t) in Hinv'.
    assert (set_table (Some (<[k:=c]> (delete k0 m)))
              [tc_sendEvent TypeEnd c0 []; tc_sendEvent TypeStart c r] t =
            set_table (Some (<[k:=c]> (delete k0 m))) [tc_sendEvent TypeStart c r] t1) as ->.
    { unfold set_table, t1. simpl. by rewrite <- app_assoc. }
    apply tb_put_inv; try done.
    + rewrite lookup_delete_None. by right.
    + intros _. pose proof (tb_inv_cap t Hinv Hpos) as Hcap. rewrite Hcm in Hcap.
      cbn [tb_maxEntries t1 set_table]. rewrite map_size_delete, Hk0. simpl.
      assert (size m ≠ 0%nat); [|lia]. intros Hz%map_size_empty_inv.
      by rewrite Hz, lookup_empty in Hk0.
Qed.

(** ** Clean-up *)

Definition expired (now : Z) t (c : C) : bool :=
  timeoutExceeded now (tb_timeout t) (tc_base c).

Lemma tb_cleanup_entry_spec now t k c m :
  tb_connections t = Some m → m !! k = Some c →
  tb_connections (tb_cleanup_entry now t (k, c)) =
    Some (if expired now t c then delete k m else m) ∧
  tb_timeout (tb_cleanup_entry now t (k, c)) = tb_timeout t ∧
  (tb_inv t → tb_inv (tb_cleanup_entry now t (k, c))).
Proof.
  intros Hm Hk. unfold tb_cleanup_entry, expired.
  destruct (timeoutExceeded _ _ _); simpl; rewrite Hm; [|done].
  split_and!; [done..|]. intros. by apply tb_remove_inv.
Qed.

Lemma tb_cleanup_fold now l t m :
  tb_connections t = Some m → NoDup l.*1 → (∀ k c, (k, c) ∈ l → m !! k = Some c) →
  let t' := foldl (tb_cleanup_entry now) t l in
  (tb_inv t → tb_inv t') ∧
  ∃ m', tb_connections t' = Some m' ∧
    ∀ k, m' !! k = match m !! k with
                   | Some c => if bool_decide (k ∈ l.*1) && expired now t c then None else Some c
                   | None => None end.
Proof.
  revert t m. induction l as [|[k c] l IH]; intros t m Hm Hnd Hl; cbn [foldl].
  { split; [done|]. exists m. split; [done|]. intros k. by destruct (m !! k). }
  apply NoDup_cons in Hnd as [Hni Hnd]. assert (Hk : m !! k = Some c) by (apply Hl; left).
  destruct (tb_cleanup_entry_spec now t k c m Hm Hk) as (Hm1 & Hto & Hinv1).
  set (t1 := tb_cleanup_entry now t (k, c)) in *.
  set (m1 := if expired now t c then delete k m else m) in *.
  assert (Hexp : ∀ c', expired now t1 c' = expired now t c').
  { intros c'. unfold expired. by rewrite Hto. }
  assert (Hm1k : ∀ k', k' ≠ k → m1 !! k' = m !! k').
  { intros k' Hne. unfold m1. destruct (expired now t c); [by rewrite lookup_delete_ne|done]. }
  destruct (IH t1 m1 Hm1 Hnd) as (Hinv' & m' & Hm' & Hlook).
  { intros k' c' Hin. rewrite Hm1k; [apply Hl; by right|]. intros ->. apply Hni.
    apply list_elem_of_fmap. by exists (k, c'). }
  split; [auto|]. exists m'. split; [done|]. intros k'. rewrite Hlook.
  change (((k, c) :: l).*1) with (k :: l.*1). destruct (decide (k' = k)) as [->|Hne].
  - rewrite Hk. unfold m1. rewrite (bool_decide_true (k ∈ k :: _)) by left.
    destruct (expired now t c) eqn:Es; simpl; [by rewrite lookup_delete_eq|].
    rewrite Hk, Hexp, Es. by rewrite andb_false_r.
  - rewrite Hm1k by done. destruct (m !! k') as [c'|]; [|done]. rewrite Hexp.
    simpl. repeat case_bool_decide; try done; exfalso; set_solver.
Qed.

(** The clean-up keeps exactly the entries that have not expired. *)
Lemma tb_cleanup_spec env t m :
  tb_connections t = Some m →
  (tb_inv t → tb_inv (tb_cleanup env t)) ∧
  tb_connections (tb_cleanup env t) =
    Some (filter (λ kc, expired (env_now env) t kc.2 = false) m).
Proof.
  intros Hm. unfold tb_cleanup.
  assert (Hcm : tb_conns t = m) by (unfold tb_conns; by rewrite Hm). rewrite Hcm.
  destruct (tb_cleanup_fold (env_now env) (range_list (env_seed env) m) t m Hm)
    as (Hi & m' & -> & Hl);
    [apply NoDup_fst_range_list | by intros k c ?%elem_of_range_list |].
  split; [done|]. f_equal. apply map_eq. intros k. rewrite Hl. symmetry.
  destruct (m !! k) as [c|] eqn:Ek; [|apply map_lookup_filter_None; by left].
  rewrite bool_decide_true; [|apply list_elem_of_fmap; exists (k, c); by rewrite elem_of_range_list].
  destruct (expired _ t c) eqn:Es; simpl.
  - apply map_lookup_filter_None. right. intros c' ?. simplify_eq. simpl. congruence.
  - apply map_lookup_filter_Some. by split.
Qed.

Lemma tb_cleanup_closed env t : tb_connections t = None → tb_cleanup env t = t.
Proof.
  intros Hm. unfold tb_cleanup, tb_conns. rewrite Hm. simpl.
  assert (range_list (env_seed env) (∅ : gmap K C) = []) as ->; [|done].
  apply nil_length_inv. rewrite length_range_list. apply map_size_empty.
Qed.

Lemma tb_cleanup_inv env t : tb_inv t → tb_inv (tb_cleanup env t).
Proof.
  intros Hinv. destruct (tb_connections t) as [m|] eqn:Hm.
  - by eapply tb_cleanup_spec.
  - by rewrite tb_cleanup_closed.
Qed.

Lemma tb_Close_inv t : tb_inv t → tb_inv (tb_Close t).
Proof.
  intros _. split; unfold tb_conns; simpl.
  - intros k c Hk. by rewrite lookup_empty in Hk.
  - rewrite map_size_empty. lia.
  - by intros [? ?].
Qed.

Lemma tb_updateIfExists_inv env t k dir sz :
  tb_inv t → tb_inv (tb_updateIfExists env t k dir sz).1.
Proof.
  intros Hinv. unfold tb_updateIfExists. destruct (tb_conns t !! k) as [c|] eqn:E; [|done].
  by apply tb_touch_inv.
Qed.

Lemma tb_updateIfExists_miss env t k dir sz t' :
  tb_updateIfExists env t k dir sz = (t', None) → t' = t ∧ tb_conns t !! k = None.
Proof. unfold tb_updateIfExists. destruct (tb_conns t !! k); naive_solver. Qed.

Lemma tb_valid_inv env t k sz : tb_inv t → tb_inv (tb_valid env t k sz).1.
Proof.
  intros Hinv. unfold tb_valid. destruct (tb_conns t !! k) as [c|] eqn:E; [|done].
  destruct (timeoutExceeded _ _ _); [done|]. by apply tb_touch_inv.
Qed.

(** ** Keys *)

Lemma tb_touch_dom t k0 c0 c k evs :
  tb_conns t !! k0 = Some c0 →
  is_Some (tb_conns (set_table (<[k0 := c]> <$> tb_connections t) evs t) !! k) →
  is_Some (tb_conns t !! k).
Proof.
  unfold tb_conns. destruct (tb_connections t) as [m|]; simpl; [|done].
  intros Hk0. rewrite lookup_insert. case_decide; by simplify_eq.
Qed.

Lemma tb_updateIfExists_dom env t k0 dir sz k :
  is_Some (tb_conns (tb_updateIfExists env t k0 dir sz).1 !! k) → is_Some (tb_conns t !! k).
Proof.
  unfold tb_updateIfExists. destruct (tb_conns t !! k0) eqn:E; [|done]. by eapply tb_touch_dom.
Qed.

Lemma tb_valid_dom env t k0 sz k :
  is_Some (tb_conns (tb_valid env t k0 sz).1 !! k) → is_Some (tb_conns t !! k).
Proof.
  unfold tb_valid. destruct (tb_conns t !! k0) eqn:E; [|done].
  destruct (timeoutExceeded _ _ _); [done|]. by eapply tb_touch_dom.
Qed.

Lemma tb_insert_dom seed t k0 c r t' k :
  tb_insert seed t k0 c r = Some t' → is_Some (tb_conns t' !! k) →
  is_Some (tb_conns t !! k) ∨ k = k0.
Proof.
  intros (m & Hm & Hcase)%tb_insert_cases.
  assert (Hcm : tb_conns t = m) by (unfold tb_conns; by rewrite Hm). rewrite Hcm.
  destruct Hcase as [[-> _]|(k1 & c1 & _ & _ & _ & ->)];
    rewrite set_table_conns, lookup_insert; case_decide; auto.
  intros [? [_ ?]%lookup_delete_Some]. left. by eexists.
Qed.

Lemma tb_cleanup_dom env t k :
  is_Some (tb_conns (tb_cleanup env t) !! k) → is_Some (tb_conns t !! k).
Proof.
  unfold tb_conns at 2. destruct (tb_connections t) as [m|] eqn:Hm.
  - destruct (tb_cleanup_spec env t m Hm) as [_ Hc]. unfold tb_conns. rewrite Hc. simpl.
    intros [c [? _]%map_lookup_filter_Some]. by eexists.
  - rewrite tb_cleanup_closed by done. unfold tb_conns. by rewrite Hm.
Qed.

(** ** Configuration *)

Definition tb_config t : Z * Z := (tb_timeout t, tb_maxEntries t).

Lemma tb_updateIfExists_config env t k dir sz :
  tb_config (tb_updateIfExists env t k dir sz).1 = tb_config t.
Proof. unfold tb_updateIfExists. by case_match. Qed.

Lemma tb_insert_config seed t k c r t' :
  tb_insert seed t k c r = Some t' → tb_config t' = tb_config t.
Proof. by intros (m & _ & [[-> _]|(? & ? & _ & _ & _ & ->)])%tb_insert_cases. Qed.

Lemma tb_valid_config env t k sz : tb_config (tb_valid env t k sz).1 = tb_config t.
Proof. unfold tb_valid. by repeat case_match. Qed.

Lemma tb_cleanup_config env t : tb_config (tb_cleanup env t) = tb_config t.
Proof.
  unfold tb_cleanup. generalize (range_list (env_seed env) (tb_conns t)) as l. intros l.
  revert t. induction l as [|[k c] l IH]; intros t; cbn [foldl]; [done|]. rewrite IH.
  unfold tb_cleanup_entry. by case_match.
Qed.

(** An accepted packet belongs to an entry that had not expired. *)
Lemma tb_valid_true env t k sz t' :
  tb_valid env t k sz = (t', true) →
  ∃ c, tb_conns t !! k = Some c ∧ expired (env_now env) t c = false ∧
    tb_conns t' !! k = Some (touch (env_now env) Ingress sz c).
Proof.
  unfold tb_valid, expired. destruct (tb_conns t !! k) as [c|] eqn:E; [|done].
  destruct (timeoutExceeded _ _ _) eqn:Et; [done|]. intros [= <-]. exists c.
  split_and!; [done..|]. unfold tb_conns in *. destruct (tb_connections t); simpl in *.
  - by rewrite lookup_insert_eq.
  - by rewrite lookup_empty in E.
Qed.

(** ** Totality *)

Lemma tb_updateIfExists_open env t k dir sz :
  is_Some (tb_connections t) → is_Some (tb_connections (tb_updateIfExists env t k dir sz).1).
Proof. unfold tb_updateIfExists. split_cases. by rewrite fmap_is_Some. Qed.

Lemma tb_valid_open env t k sz :
  is_Some (tb_connections t) → is_Some (tb_connections (tb_valid env t k sz).1).
Proof. unfold tb_valid. split_cases. by rewrite fmap_is_Some. Qed.

Lemma tb_cleanup_open env t :
  is_Some (tb_connections t) → is_Some (tb_connections (tb_cleanup env t)).
Proof. intros [m Hm]. destruct (tb_cleanup_spec env t m Hm) as [_ ->]. by eexists. Qed.

Lemma tb_insert_total seed t k c r :
  is_Some (tb_connections t) →
  ∃ t', tb_insert seed t k c r = Some t' ∧ is_Some (tb_connections t') ∧
        tb_conns t' !! k = Some c.
Proof.
  intros [m Hm]. unfold tb_insert.
  assert (∃ m', tb_connections (tb_evictOneLocked seed t) = Some m') as [m' Hm'].
  { destruct (decide (m = ∅)) as [->|Hne].
    - unfold tb_evictOneLocked. rewrite Hm. case_match; [|eauto]. case_match; simpl; eauto.
    - destruct (tb_evict_spec seed t m Hm Hne) as (? & ? & _ & -> & _). simpl. eauto. }
  destruct (_ && _); rewrite ?Hm, ?Hm'; eexists; (split; [done|]);
    (split; [by eexists|]); by rewrite set_table_conns, lookup_insert_eq.
Qed.

Lemma tb_insert_closed seed t k c r :
  tb_connections t = None → tb_insert seed t k c r = None.
Proof.
  intros Hm. unfold tb_insert. destruct (_ && _); [rewrite tb_evict_closed by done|]; by rewrite Hm.
Qed.
End Operations.
