(* ===== verification/UDPTrack.v ===== *)
(** * UDP connection tracking

    [client/firewall/uspfilter/conntrack/udp.go].  The table is
    [TimedTable.Table]; this file gives the connection type, the methods and
    what the tracker guarantees. *)
From S2P Require Import Prelude NetIP ConnTrack TimedTable.
Open Scope Z_scope.

Definition DefaultUDPTimeout : Z := 30 * 1000000000.
Definition DefaultMaxUDPEntries : Z := 16384.

Record UDPConnTrack := { udp_base : BaseConnTrack; udp_SourcePort : Z; udp_DestPort : Z }.

Definition udp_sendEvent (typ : EventType) (conn : UDPConnTrack) (ruleID : list Z) : EventFields :=
  let b := udp_base conn in
  let counters := bool_decide (typ = TypeEnd) in
  {| ev_FlowID := FlowId b; ev_Type := typ; ev_RuleID := ruleID;
     ev_Direction := conn_Direction b; ev_Protocol := UDP;
     ev_SourceIP := SourceIP b; ev_DestIP := DestIP b;
     ev_SourcePort := udp_SourcePort conn; ev_DestPort := udp_DestPort conn;
     ev_ICMPType := 0; ev_ICMPCode := 0;
     ev_RxPackets := if counters then PacketsRx b else 0;
     ev_TxPackets := if counters then PacketsTx b else 0;
     ev_RxBytes := if counters then BytesRx b else 0;
     ev_TxBytes := if counters then BytesTx b else 0 |}.

#[global] Instance UDP_TrackedConn : TrackedConn UDPConnTrack := {|
  tc_base := udp_base;
  tc_set_base := λ b c,
    {| udp_base := b; udp_SourcePort := udp_SourcePort c; udp_DestPort := udp_DestPort c |};
  tc_sendEvent := udp_sendEvent;
  tc_base_set := λ b c, eq_refl;
  tc_event_type := λ ty c r, eq_refl;
  tc_event_flow := λ ty c r, eq_refl;
  tc_event_counters := λ c r, conj eq_refl eq_refl
|}.

Definition UDPTracker : Type := Table ConnKey UDPConnTrack.

Definition NewUDPTracker (Getenv : string → string) (timeout : Z) : UDPTracker :=
  {| tb_connections := Some ∅;
     tb_timeout := if timeout =? 0 then DefaultUDPTimeout else timeout;
     tb_maxEntries := envInt Getenv "NB_CONNTRACK_UDP_MAX" DefaultMaxUDPEntries;
     tb_events := [] |}.

Section UDPMethods.
Context {MO : MapOrder}.

(** The tracker, the stored DNAT port and [exists]. *)
Definition udp_updateIfExists (env : Env) (t : UDPTracker) (src dst : Addr) (sp dp : Z)
    (dir : Direction) (size : Z) : UDPTracker * Z * bool :=
  match tb_updateIfExists env t (MkKey src dst sp dp) dir size with
  | (t', Some conn) => (t', uint 16 (DNATOrigPort (udp_base conn)), true)
  | (t', None) => (t', 0, false)
  end.

Definition udp_track (env : Env) (t : UDPTracker) (src dst : Addr) (sp dp : Z)
    (dir : Direction) (ruleID : list Z) (size origPort : Z) : option UDPTracker :=
  let '(t, _, exists_) := udp_updateIfExists env t src dst sp dp dir size in
  if exists_ then Some t
  else
    let conn :=
      {| udp_base := UpdateCounters dir size
           (UpdateLastSeen (env_now env) (newBase (env_uuid env) dir src dst origPort));
         udp_SourcePort := sp; udp_DestPort := dp |} in
    tb_insert (env_seed env) t (MkKey src dst sp dp) conn ruleID.

Definition udp_TrackOutbound (env : Env) (t : UDPTracker) (src dst : Addr) (sp dp size : Z)
    : option (UDPTracker * Z) :=
  let '(t, origPort, exists_) := udp_updateIfExists env t dst src dp sp Egress size in
  if exists_ then Some (t, origPort)
  else (λ t, (t, 0)) <$> udp_track env t src dst sp dp Egress [] size 0.

Definition udp_TrackInbound (env : Env) (t : UDPTracker) (src dst : Addr) (sp dp : Z)
    (ruleID : list Z) (size dnatOrigPort : Z) : option UDPTracker :=
  udp_track env t src dst sp dp Ingress ruleID size dnatOrigPort.

Definition udp_IsValidInbound (env : Env) (t : UDPTracker) (src dst : Addr) (sp dp size : Z)
    : UDPTracker * bool :=
  tb_valid env t (MkKey dst src dp sp) size.

Definition udp_evictOneLocked (seed : nat) (t : UDPTracker) : UDPTracker :=
  tb_evictOneLocked seed t.

Definition udp_cleanup (env : Env) (t : UDPTracker) : UDPTracker := tb_cleanup env t.

Definition udp_Close (t : UDPTracker) : UDPTracker := tb_Close t.

Definition udp_GetConnection (t : UDPTracker) (src : Addr) (sp : Z) (dst : Addr) (dp : Z)
    : option UDPConnTrack :=
  tb_conns t !! MkKey src dst sp dp.

(** ** Runs *)

Inductive UDPOp :=
| UdpOutbound (src dst : Addr) (sp dp size : Z)
| UdpInbound (src dst : Addr) (sp dp : Z) (ruleID : list Z) (size dnatOrigPort : Z)
| UdpValidInbound (src dst : Addr) (sp dp size : Z)
| UdpCleanup
| UdpClose.

Definition udp_step (t : UDPTracker) (eo : Env * UDPOp) : option UDPTracker :=
  let '(env, op) := eo in
  match op with
  | UdpOutbound src dst sp dp sz => fst <$> udp_TrackOutbound env t src dst sp dp sz
  | UdpInbound src dst sp dp r sz dnat => udp_TrackInbound env t src dst sp dp r sz dnat
  | UdpValidInbound src dst sp dp sz => Some (udp_IsValidInbound env t src dst sp dp sz).1
  | UdpCleanup => Some (udp_cleanup env t)
  | UdpClose => Some (udp_Close t)
  end.

Definition udp_run : UDPTracker → list (Env * UDPOp) → option UDPTracker :=
  run udp_step.

Lemma udp_updateIfExists_table env t src dst sp dp dir sz :
  let r := udp_updateIfExists env t src dst sp dp dir sz in
  r.1.1 = (tb_updateIfExists env t (MkKey src dst sp dp) dir sz).1 ∧
  (r.2 = false → r.1.1 = t ∧ tb_conns t !! MkKey src dst sp dp = None).
Proof.
  unfold udp_updateIfExists, tb_updateIfExists.
  destruct (tb_conns t !! _) eqn:E; simpl; [done|auto].
Qed.

(** [track] either touches an entry or inserts a fresh one under a free key. *)
Lemma udp_track_cases env t src dst sp dp dir r sz op :
  let k := MkKey src dst sp dp in
  (is_Some (tb_conns t !! k) ∧
   udp_track env t src dst sp dp dir r sz op = Some (tb_updateIfExists env t k dir sz).1) ∨
  (tb_conns t !! k = None ∧
   ∃ c, base_wf (tc_base c) ∧
     udp_track env t src dst sp dp dir r sz op = tb_insert (env_seed env) t k c r).
Proof.
  simpl. unfold udp_track, udp_updateIfExists, tb_updateIfExists.
  destruct (tb_conns t !! MkKey src dst sp dp) as [c|] eqn:E; simpl; [left; eauto|].
  right. split; [done|]. eexists. split; [|reflexivity]. simpl. auto with netbird.
Qed.

Lemma udp_track_inv env t src dst sp dp dir r sz op t' :
  tb_inv t → udp_track env t src dst sp dp dir r sz op = Some t' → tb_inv t'.
Proof.
  intros Hinv. destruct (udp_track_cases env t src dst sp dp dir r sz op)
    as [[_ ->]|(Hk & c & Hc & ->)].
  - intros [= <-]. by apply tb_updateIfExists_inv.
  - by apply tb_insert_inv.
Qed.

Lemma udp_step_inv t o t' : tb_inv t → udp_step t o = Some t' → tb_inv t'.
Proof.
  intros Hinv. destruct o as [env []]; cbn [udp_step].
  - unfold udp_TrackOutbound.
    destruct (udp_updateIfExists_table env t dst src dp sp Egress size) as [Ht _].
    pose proof (tb_updateIfExists_inv env t (MkKey dst src dp sp) Egress size Hinv) as Hi.
    rewrite <- Ht in Hi. destruct (udp_updateIfExists _ _ _ _ _ _ _ _) as [[t1 p] ex].
    simpl in Hi. destruct ex; [by intros [= <-]|].
    destruct (udp_track _ _ _ _ _ _ _ _ _) eqn:E; simpl; [|done]. intros [= <-].
    by eapply udp_track_inv.
  - apply udp_track_inv. done.
  - intros [= <-]. by apply tb_valid_inv.
  - intros [= <-]. by apply tb_cleanup_inv.
  - intros [= <-]. by apply tb_Close_inv.
Qed.

Lemma NewUDPTracker_inv Getenv timeout : tb_inv (NewUDPTracker Getenv timeout).
Proof.
  split; unfold tb_conns, tb_starts, tb_ends; simpl.
  - intros k c Hk. by rewrite lookup_empty in Hk.
  - rewrite map_size_empty. lia.
  - intros _ f. by rewrite !count_nil.
Qed.

Lemma udp_track_config env t src dst sp dp dir r sz op t' :
  udp_track env t src dst sp dp dir r sz op = Some t' → tb_config t' = tb_config t.
Proof.
  destruct (udp_track_cases env t src dst sp dp dir r sz op) as [[_ ->]|(_ & c & _ & ->)].
  - intros [= <-]. apply tb_updateIfExists_config.
  - apply tb_insert_config.
Qed.

(** An outbound packet touches the mirrored entry or goes through [track]. *)
Lemma udp_TrackOutbound_cases env t src dst sp dp sz :
  let k := MkKey dst src dp sp in
  (∃ p, udp_TrackOutbound env t src dst sp dp sz =
     Some ((tb_updateIfExists env t k Egress sz).1, p)) ∨
  (tb_conns t !! k = None ∧
   udp_TrackOutbound env t src dst sp dp sz =
     (λ t, (t, 0)) <$> udp_track env t src dst sp dp Egress [] sz 0).
Proof.
  simpl. unfold udp_TrackOutbound, udp_updateIfExists, tb_updateIfExists.
  destruct (tb_conns t !! MkKey dst src dp sp) eqn:E; simpl; [left; eauto | by right].
Qed.

Lemma udp_step_config t o t' : udp_step t o = Some t' → tb_config t' = tb_config t.
Proof.
  destruct o as [env []]; cbn [udp_step].
  - destruct (udp_TrackOutbound_cases env t src dst sp dp size) as [[p ->]|[_ ->]].
    + intros [= <-]. apply tb_updateIfExists_config.
    + destruct (udp_track _ _ _ _ _ _ _ _ _) eqn:E; simpl; [|done]. intros [= <-].
      by eapply udp_track_config.
  - apply udp_track_config.
  - intros [= <-]. apply tb_valid_config.
  - intros [= <-]. apply tb_cleanup_config.
  - by intros [= <-].
Qed.

(** [op] carries a packet under the key [k]. *)
Definition udp_opens (k : ConnKey) (eo : Env * UDPOp) : Prop :=
  match eo.2 with
  | UdpOutbound src dst sp dp _ | UdpInbound src dst sp dp _ _ _ => MkKey src dst sp dp = k
  | _ => False
  end.

Lemma udp_track_dom env t src dst sp dp dir r sz op t' k :
  udp_track env t src dst sp dp dir r sz op = Some t' → is_Some (tb_conns t' !! k) →
  is_Some (tb_conns t !! k) ∨ MkKey src dst sp dp = k.
Proof.
  destruct (udp_track_cases env t src dst sp dp dir r sz op) as [[_ ->]|(_ & c & _ & ->)].
  - intros [= <-] Hk. left. by eapply tb_updateIfExists_dom.
  - intros Ht Hk. destruct (tb_insert_dom _ _ _ _ _ _ _ Ht Hk); auto.
Qed.

Lemma udp_step_dom k t o t' :
  udp_step t o = Some t' → is_Some (tb_conns t' !! k) →
  is_Some (tb_conns t !! k) ∨ udp_opens k o.
Proof.
  destruct o as [env []]; cbn [udp_step].
  - destruct (udp_TrackOutbound_cases env t src dst sp dp size) as [[p ->]|[_ ->]].
    + intros [= <-] Hk. left. by eapply tb_updateIfExists_dom.
    + destruct (udp_track _ _ _ _ _ _ _ _ _) eqn:E; simpl; [|done]. intros [= <-].
      by eapply udp_track_dom.
  - apply udp_track_dom.
  - intros [= <-] Hk. left. by eapply tb_valid_dom.
  - intros [= <-] Hk. left. by eapply tb_cleanup_dom.
  - intros [= <-] [c Hk]. unfold tb_conns in Hk. simpl in Hk. by rewrite lookup_empty in Hk.
Qed.

Definition udp_not_close (eo : Env * UDPOp) : Prop :=
  match eo.2 with UdpClose => False | _ => True end.

Lemma udp_track_total env t src dst sp dp dir r sz op :
  is_Some (tb_connections t) →
  ∃ t', udp_track env t src dst sp dp dir r sz op = Some t' ∧ is_Some (tb_connections t').
Proof.
  intros Ho. destruct (udp_track_cases env t src dst sp dp dir r sz op) as [[_ ->]|(_ & c & _ & ->)].
  - eexists. split; [done|]. by apply tb_updateIfExists_open.
  - destruct (tb_insert_total (env_seed env) t (MkKey src dst sp dp) c r Ho) as (t' & ? & ? & _).
    eauto.
Qed.

Lemma udp_step_total t o :
  is_Some (tb_connections t) → udp_not_close o →
  ∃ t', udp_step t o = Some t' ∧ is_Some (tb_connections t').
Proof.
  intros Ho. destruct o as [env []]; cbn [udp_step]; intros Hcl; try done.
  - destruct (udp_TrackOutbound_cases env t src dst sp dp size) as [[p ->]|[_ ->]]; simpl.
    + eexists. split; [done|]. by apply tb_updateIfExists_open.
    + destruct (udp_track_total env t src dst sp dp Egress [] size 0 Ho) as (t' & -> & ?).
      simpl. eauto.
  - by apply udp_track_total.
  - eexists. split; [done|]. by apply tb_valid_open.
  - eexists. split; [done|]. by apply tb_cleanup_open.
Qed.

(** ** What the tracker guarantees *)

Lemma udp_reachable_inv Getenv timeout ops t :
  udp_run (NewUDPTracker Getenv timeout) ops = Some t →
  tb_inv t ∧ tb_config t = tb_config (NewUDPTracker Getenv timeout).
Proof.
  apply (run_ind _ (λ t, tb_inv t ∧ tb_config t = tb_config (NewUDPTracker Getenv timeout))).
  - intros t1 o t2 [Hi Hc] Hs. split; [by eapply udp_step_inv|].
    rewrite (udp_step_config _ _ _ Hs). done.
  - split; [apply NewUDPTracker_inv | done].
Qed.

(** The UDP table stays within the cap of NB_CONNTRACK_UDP_MAX, and
    while the tracker is open each flow's start events are its end events
    plus the entries that carry it. *)
Theorem udp_table_accounted Getenv timeout ops t :
  udp_run (NewUDPTracker Getenv timeout) ops = Some t →
  Z.of_nat (size (tb_conns t)) <= envInt Getenv "NB_CONNTRACK_UDP_MAX" DefaultMaxUDPEntries ∧
  (is_Some (tb_connections t) →
   ∀ f, tb_starts f t = (tb_ends f t + flow_count f (tb_conns t))%nat).
Proof.
  intros [Hinv Hc]%udp_reachable_inv. split; [|apply Hinv].
  injection Hc as _ Hmax. rewrite <- Hmax. apply Hinv. rewrite Hmax. by apply envInt_pos.
Qed.

(** An inbound datagram is accepted only as the reply side of a key
    that an earlier call tracked, and only while that entry has been idle
    for at most the timeout; acceptance refreshes the entry. *)
Theorem udp_inbound_is_reply Getenv timeout ops t env src dst sp dp sz t' :
  udp_run (NewUDPTracker Getenv timeout) ops = Some t →
  udp_IsValidInbound env t src dst sp dp sz = (t', true) →
  Exists (udp_opens (reverse_key (MkKey src dst sp dp))) ops ∧
  ∃ c c', udp_GetConnection t dst dp src sp = Some c ∧
    time_Sub (env_now env) (lastSeen (udp_base c)) <= tb_timeout t ∧
    udp_GetConnection t' dst dp src sp = Some c' ∧ lastSeen (udp_base c') = env_now env.
Proof.
  intros Hrun (c & Hk & He & Hk')%tb_valid_true. split.
  - destruct (run_origin _ (λ t, is_Some (tb_conns t !! MkKey dst src dp sp)) _
      (udp_step_dom _) _ _ _ Hrun) as [[c0 Hc0]|]; [by eexists| |done].
    unfold tb_conns in Hc0. simpl in Hc0. by rewrite lookup_empty in Hc0.
  - exists c. eexists. split; [done|]. split; [unfold expired, timeoutExceeded in He; bools; done|].
    split; [done|]. exact (touch_lastSeen (env_now env) Ingress sz c).
Qed.

(** Until [Close] every run of the UDP tracker returns, whatever the
    traffic; after it, a datagram that is not tracked yet panics. *)
Theorem udp_panics_only_after_close Getenv timeout ops env src dst sp dp dir r sz op :
  Forall udp_not_close ops →
  ∃ t, udp_run (NewUDPTracker Getenv timeout) ops = Some t ∧
    is_Some (tb_connections t) ∧
    udp_track env (udp_Close t) src dst sp dp dir r sz op = None.
Proof.
  intros Hops.
  destruct (run_total _ (λ t, is_Some (tb_connections t)) _ udp_step_total ops
    (NewUDPTracker Getenv timeout)) as (t & Ht & Ho); [by eexists | done |].
  exists t. split_and!; [done..|].
  destruct (udp_track_cases env (udp_Close t) src dst sp dp dir r sz op)
    as [[[c Hc] _]|(_ & c & _ & ->)].
  - unfold tb_conns in Hc. simpl in Hc. by rewrite lookup_empty in Hc.
  - by apply tb_insert_closed.
Qed.

(** Eviction removes one entry together with its end event, and the
    evicted entry is the least recently seen of the sample: of the whole
    table when it holds at most eight entries. *)
Theorem udp_evict_oldest seed (t : UDPTracker) m :
  tb_connections t = Some m → m ≠ ∅ →
  ∃ k c, m !! k = Some c ∧
    tb_connections (udp_evictOneLocked seed t) = Some (delete k m) ∧
    tb_events (udp_evictOneLocked seed t) = tb_events t ++ [udp_sendEvent TypeEnd c []] ∧
    (∀ k' c', (k', c') ∈ take evictSampleSize (range_list seed m) →
       lastSeen (udp_base c) <= lastSeen (udp_base c')) ∧
    ((size m <= evictSampleSize)%nat →
       ∀ k' c', m !! k' = Some c' → lastSeen (udp_base c) <= lastSeen (udp_base c')).
Proof.
  intros Hm Hne. destruct (tb_evict_spec seed t m Hm Hne) as (k & c & Hk & He & Hold).
  exists k, c. unfold udp_evictOneLocked. rewrite He. split_and!; [done..|].
  intros Hsz k' c' Hk'. apply (Hold k'). rewrite take_ge by (by rewrite length_range_list).
  by rewrite elem_of_range_list.
Qed.
End UDPMethods.

(** ** Concrete runs *)

Definition u_env (n : N) : Env := {| env_now := Z.of_N n; env_uuid := n; env_seed := 0 |}.
Definition uA : Addr := AddrV4 1684300801.
Definition uB : Addr := AddrV4 1684300802.
Definition u_ops : list (Env * UDPOp) :=
  [ (u_env 1, UdpOutbound uA uB 4000 53 60);
    (u_env 2, UdpValidInbound uB uA 53 4000 90);
    (u_env 3, UdpCleanup) ].
Definition u_tracker : UDPTracker :=
  default (NewUDPTracker (λ _, "") 0)
    (udp_run (MO := canonical_order) (NewUDPTracker (λ _, "") 0) u_ops).

Lemma udp_table_accounted_witness :
  Z.of_nat (size (tb_conns u_tracker)) <= 16384 ∧
  (is_Some (tb_connections u_tracker) →
   ∀ f, tb_starts f u_tracker = (tb_ends f u_tracker + flow_count f (tb_conns u_tracker))%nat).
Proof.
  assert (H : udp_run (MO := canonical_order) (NewUDPTracker (λ _, "") 0) u_ops = Some u_tracker)
    by (apply some_default; vm_compute; reflexivity).
  exact (udp_table_accounted (MO := canonical_order) (λ _, "") 0 u_ops u_tracker H).
Defined.

Lemma udp_inbound_is_reply_witness :
  Exists (udp_opens (reverse_key (MkKey uB uA 53 4000))) u_ops.
Proof.
  assert (H : udp_run (MO := canonical_order) (NewUDPTracker (λ _, "") 0) u_ops = Some u_tracker)
    by (apply some_default; vm_compute; reflexivity).
  assert (H' : udp_IsValidInbound (u_env 9) u_tracker uB uA 53 4000 90 =
    ((udp_IsValidInbound (u_env 9) u_tracker uB uA 53 4000 90).1, true)) by (apply pair_of_snd; vm_compute; reflexivity).
  exact (proj1 (udp_inbound_is_reply (MO := canonical_order) (λ _, "") 0 u_ops u_tracker
    (u_env 9) uB uA 53 4000 90 _ H H')).
Defined.

Lemma udp_panics_only_after_close_witness :
  ∃ t, udp_run (MO := canonical_order) (NewUDPTracker (λ _, "") 0) u_ops = Some t ∧
    is_Some (tb_connections t) ∧
    udp_track (MO := canonical_order) (u_env 9) (udp_Close t) uA uB 1 2 Egress [] 60 0 = None.
Proof. apply udp_panics_only_after_close. repeat constructor. Defined.

Lemma udp_evict_oldest_witness :
  ∃ k c, tb_conns u_tracker !! k = Some c ∧
    tb_connections (udp_evictOneLocked (MO := canonical_order) 0 u_tracker) =
      Some (delete k (tb_conns u_tracker)).
Proof.
  assert (Hm : tb_connections u_tracker = Some (tb_conns u_tracker))
    by (apply some_default; vm_compute; reflexivity).
  assert (Hne : tb_conns u_tracker ≠ ∅) by (apply (bool_decide_unpack _); vm_compute; exact I).
  destruct (udp_evict_oldest (MO := canonical_order) 0 u_tracker (tb_conns u_tracker) Hm Hne)
    as (k & c & Hk & He & _).
  exists k, c. split; [exact Hk | exact He].
Defined.
