(* ===== verification/ICMPTrack.v ===== *)
(** * ICMP connection tracking

    [client/firewall/uspfilter/conntrack/icmp.go].  Only echo requests get an
    entry; every other untracked message is reported by a start event of its
    own that already carries its packet.  The decoded type and code of a
    message are arguments. *)
From S2P Require Import Prelude NetIP ConnTrack TimedTable.
Open Scope Z_scope.

Definition DefaultICMPTimeout : Z := 30 * 1000000000.
Definition DefaultMaxICMPEntries : Z := 2048.
Definition ICMPv4TypeEchoReply : Z := 0.
Definition ICMPv4TypeEchoRequest : Z := 8.
Definition ICMPv6TypeEchoReply : Z := 129.

Record ICMPConnKey := { icmp_SrcIP : Addr; icmp_DstIP : Addr; icmp_ID : Z }.

#[global] Instance ICMPConnKey_eq_dec : EqDecision ICMPConnKey.
Proof. solve_decision. Defined.
#[global] Instance ICMPConnKey_countable : Countable ICMPConnKey.
Proof.
  apply (inj_countable' (λ k, (icmp_SrcIP k, icmp_DstIP k, icmp_ID k))
    (λ '(a, b, c), {| icmp_SrcIP := a; icmp_DstIP := b; icmp_ID := c |})).
  by intros [].
Defined.

Definition MkICMPKey (src dst : Addr) (id : Z) : ICMPConnKey :=
  {| icmp_SrcIP := src; icmp_DstIP := dst; icmp_ID := id |}.

Record ICMPConnTrack := { icmp_base : BaseConnTrack; icmp_Type : Z; icmp_Code : Z }.

Definition icmpProtocolForAddr (ip : Addr) : Z := if Is6 ip then ICMPv6 else ICMP.

Definition icmp_sendEvent (typ : EventType) (conn : ICMPConnTrack) (ruleID : list Z) : EventFields :=
  let b := icmp_base conn in
  let counters := bool_decide (typ = TypeEnd) in
  {| ev_FlowID := FlowId b; ev_Type := typ; ev_RuleID := ruleID;
     ev_Direction := conn_Direction b; ev_Protocol := icmpProtocolForAddr (SourceIP b);
     ev_SourceIP := SourceIP b; ev_DestIP := DestIP b;
     ev_SourcePort := 0; ev_DestPort := 0;
     ev_ICMPType := icmp_Type conn; ev_ICMPCode := icmp_Code conn;
     ev_RxPackets := if counters then PacketsRx b else 0;
     ev_TxPackets := if counters then PacketsTx b else 0;
     ev_RxBytes := if counters then BytesRx b else 0;
     ev_TxBytes := if counters then BytesTx b else 0 |}.

Definition icmp_sendStartEvent (id : N) (dir : Direction) (src dst : Addr) (typ code : Z)
    (ruleID : list Z) (size : Z) : EventFields :=
  let rx := bool_decide (dir = Ingress) in
  {| ev_FlowID := id; ev_Type := TypeStart; ev_RuleID := ruleID;
     ev_Direction := dir; ev_Protocol := icmpProtocolForAddr src;
     ev_SourceIP := src; ev_DestIP := dst; ev_SourcePort := 0; ev_DestPort := 0;
     ev_ICMPType := typ; ev_ICMPCode := code;
     ev_RxPackets := if rx then 1 else 0; ev_TxPackets := if rx then 0 else 1;
     ev_RxBytes := if rx then uint 64 size else 0; ev_TxBytes := if rx then 0 else uint 64 size |}.

#[global] Instance ICMP_TrackedConn : TrackedConn ICMPConnTrack := {|
  tc_base := icmp_base;
  tc_set_base := λ b c,
    {| icmp_base := b; icmp_Type := icmp_Type c; icmp_Code := icmp_Code c |};
  tc_sendEvent := icmp_sendEvent;
  tc_base_set := λ b c, eq_refl;
  tc_event_type := λ ty c r, eq_refl;
  tc_event_flow := λ ty c r, eq_refl;
  tc_event_counters := λ c r, conj eq_refl eq_refl
|}.

Definition ICMPTracker : Type := Table ICMPConnKey ICMPConnTrack.

Definition NewICMPTracker (Getenv : string → string) (timeout : Z) : ICMPTracker :=
  {| tb_connections := Some ∅;
     tb_timeout := if timeout =? 0 then DefaultICMPTimeout else timeout;
     tb_maxEntries := envInt Getenv "NB_CONNTRACK_ICMP_MAX" DefaultMaxICMPEntries;
     tb_events := [] |}.

Section ICMPMethods.
Context {MO : MapOrder}.

Definition icmp_updateIfExists (env : Env) (t : ICMPTracker) (src dst : Addr) (id : Z)
    (dir : Direction) (size : Z) : ICMPTracker * bool :=
  match tb_updateIfExists env t (MkICMPKey src dst id) dir size with
  | (t', Some _) => (t', true)
  | (t', None) => (t', false)
  end.

Definition icmp_track (env : Env) (t : ICMPTracker) (src dst : Addr) (id typ code : Z)
    (dir : Direction) (ruleID : list Z) (size : Z) : option ICMPTracker :=
  let '(t, exists_) := icmp_updateIfExists env t src dst id dir size in
  if exists_ then Some t
  else if negb (typ =? ICMPv4TypeEchoRequest) then
    Some (set_table (tb_connections t)
            [icmp_sendStartEvent (env_uuid env) dir src dst typ code ruleID size] t)
  else
    let conn :=
      {| icmp_base := UpdateCounters dir size
           (UpdateLastSeen (env_now env) (newBase (env_uuid env) dir src dst 0));
         icmp_Type := typ; icmp_Code := code |} in
    tb_insert (env_seed env) t (MkICMPKey src dst id) conn ruleID.

Definition icmp_TrackOutbound (env : Env) (t : ICMPTracker) (src dst : Addr) (id typ code size : Z)
    : option ICMPTracker :=
  let '(t, exists_) := icmp_updateIfExists env t dst src id Egress size in
  if negb exists_ then icmp_track env t src dst id typ code Egress [] size else Some t.

Definition icmp_TrackInbound (env : Env) (t : ICMPTracker) (src dst : Addr) (id typ code : Z)
    (ruleID : list Z) (size : Z) : option ICMPTracker :=
  icmp_track env t src dst id typ code Ingress ruleID size.

Definition icmp_IsValidInbound (env : Env) (t : ICMPTracker) (src dst : Addr) (id icmpType size : Z)
    : ICMPTracker * bool :=
  if negb (icmpType =? ICMPv4TypeEchoReply) && negb (icmpType =? ICMPv6TypeEchoReply) then (t, false)
  else tb_valid env t (MkICMPKey dst src id) size.

Definition icmp_evictOneLocked (seed : nat) (t : ICMPTracker) : ICMPTracker :=
  tb_evictOneLocked seed t.

Definition icmp_cleanup (env : Env) (t : ICMPTracker) : ICMPTracker := tb_cleanup env t.

Definition icmp_Close (t : ICMPTracker) : ICMPTracker := tb_Close t.

Inductive ICMPOp :=
| IcmpOutbound (src dst : Addr) (id typ code size : Z)
| IcmpInbound (src dst : Addr) (id typ code : Z) (ruleID : list Z) (size : Z)
| IcmpValidInbound (src dst : Addr) (id icmpType size : Z)
| IcmpCleanup
| IcmpClose.

Definition icmp_step (t : ICMPTracker) (eo : Env * ICMPOp) : option ICMPTracker :=
  let '(env, op) := eo in
  match op with
  | IcmpOutbound src dst id typ code sz => icmp_TrackOutbound env t src dst id typ code sz
  | IcmpInbound src dst id typ code r sz => icmp_TrackInbound env t src dst id typ code r sz
  | IcmpValidInbound src dst id typ sz => Some (icmp_IsValidInbound env t src dst id typ sz).1
  | IcmpCleanup => Some (icmp_cleanup env t)
  | IcmpClose => Some (icmp_Close t)
  end.

Definition icmp_run : ICMPTracker → list (Env * ICMPOp) → option ICMPTracker := run icmp_step.

(** [track] touches the entry, reports a message that is not an echo
    request, or inserts a fresh entry under a free key. *)
Lemma icmp_track_cases env t src dst id typ code dir r sz :
  let k := MkICMPKey src dst id in
  (is_Some (tb_conns t !! k) ∧
   icmp_track env t src dst id typ code dir r sz = Some (tb_updateIfExists env t k dir sz).1) ∨
  (tb_conns t !! k = None ∧ typ ≠ ICMPv4TypeEchoRequest ∧
   icmp_track env t src dst id typ code dir r sz =
     Some (set_table (tb_connections t)
             [icmp_sendStartEvent (env_uuid env) dir src dst typ code r sz] t)) ∨
  (tb_conns t !! k = None ∧ typ = ICMPv4TypeEchoRequest ∧
   ∃ c, base_wf (tc_base c) ∧
     icmp_track env t src dst id typ code dir r sz = tb_insert (env_seed env) t k c r).
Proof.
  simpl. unfold icmp_track, icmp_updateIfExists, tb_updateIfExists.
  destruct (tb_conns t !! MkICMPKey src dst id) as [c|] eqn:E; simpl; [left; eauto|].
  right. destruct (Z.eqb_spec typ ICMPv4TypeEchoRequest); [right | by left].
  split_and!; [done..|]. eexists. split; [|reflexivity]. simpl. auto with netbird.
Qed.

Lemma icmp_TrackOutbound_cases env t src dst id typ code sz :
  let k := MkICMPKey dst src id in
  icmp_TrackOutbound env t src dst id typ code sz = Some (tb_updateIfExists env t k Egress sz).1 ∨
  (tb_conns t !! k = None ∧
   icmp_TrackOutbound env t src dst id typ code sz =
     icmp_track env t src dst id typ code Egress [] sz).
Proof.
  simpl. unfold icmp_TrackOutbound, icmp_updateIfExists, tb_updateIfExists.
  destruct (tb_conns t !! MkICMPKey dst src id) eqn:E; simpl; [by left | by right].
Qed.

(** A report changes neither the table nor the account of tracked flows. *)
Lemma icmp_report_inv env (t : ICMPTracker) dir src dst typ code r sz :
  tb_inv t →
  tb_inv (set_table (tb_connections t)
            [icmp_sendStartEvent (env_uuid env) dir src dst typ code r sz] t).
Proof.
  intros [Hwf Hcap Hbal].
  assert (Hev : ∀ f, count (is_start f) [icmp_sendStartEvent (env_uuid env) dir src dst typ code r sz] = 0%nat
             ∧ count (is_event TypeEnd f) [icmp_sendStartEvent (env_uuid env) dir src dst typ code r sz] = 0%nat).
  { intros f. rewrite !count_singleton. unfold is_start. simpl.
    destruct (bool_decide (dir = Ingress)); simpl; by rewrite ?andb_false_r. }
  split; [done..|]. unfold tb_starts, tb_ends in *. simpl. intros Ho f.
  rewrite !count_app. destruct (Hev f) as [-> ->]. rewrite !Nat.add_0_r. by apply Hbal.
Qed.

Lemma icmp_track_inv env t src dst id typ code dir r sz t' :
  tb_inv t → icmp_track env t src dst id typ code dir r sz = Some t' → tb_inv t'.
Proof.
  intros Hinv. destruct (icmp_track_cases env t src dst id typ code dir r sz)
    as [[_ ->]|[(_ & _ & ->)|(Hk & _ & c & Hc & ->)]].
  - intros [= <-]. by apply tb_updateIfExists_inv.
  - intros [= <-]. by apply icmp_report_inv.
  - by apply tb_insert_inv.
Qed.

Lemma icmp_step_inv t o t' : tb_inv t → icmp_step t o = Some t' → tb_inv t'.
Proof.
  intros Hinv. destruct o as [env []]; cbn [icmp_step].
  - destruct (icmp_TrackOutbound_cases env t src dst id typ code size) as [->|[_ ->]].
    + intros [= <-]. by apply tb_updateIfExists_inv.
    + by apply icmp_track_inv.
  - by apply icmp_track_inv.
  - intros [= <-]. unfold icmp_IsValidInbound. case_match; [done|]. by apply tb_valid_inv.
  - intros [= <-]. by apply tb_cleanup_inv.
  - intros [= <-]. by apply tb_Close_inv.
Qed.

Lemma icmp_track_config env t src dst id typ code dir r sz t' :
  icmp_track env t src dst id typ code dir r sz = Some t' → tb_config t' = tb_config t.
Proof.
  destruct (icmp_track_cases env t src dst id typ code dir r sz)
    as [[_ ->]|[(_ & _ & ->)|(Hk & _ & c & Hc & ->)]].
  - intros [= <-]. apply tb_updateIfExists_config.
  - by intros [= <-].
  - apply tb_insert_config.
Qed.

Lemma icmp_step_config t o t' : icmp_step t o = Some t' → tb_config t' = tb_config t.
Proof.
  destruct o as [env []]; cbn [icmp_step].
  - destruct (icmp_TrackOutbound_cases env t src dst id typ code size) as [->|[_ ->]].
    + intros [= <-]. apply tb_updateIfExists_config.
    + apply icmp_track_config.
  - apply icmp_track_config.
  - intros [= <-]. unfold icmp_IsValidInbound. case_match; [done|]. apply tb_valid_config.
  - intros [= <-]. apply tb_cleanup_config.
  - by intros [= <-].
Qed.

(** [op] carries an echo request under the key [k]. *)
Definition icmp_opens (k : ICMPConnKey) (eo : Env * ICMPOp) : Prop :=
  match eo.2 with
  | IcmpOutbound src dst id typ _ _ | IcmpInbound src dst id typ _ _ _ =>
      MkICMPKey src dst id = k ∧ typ = ICMPv4TypeEchoRequest
  | _ => False
  end.

Lemma icmp_track_dom env t src dst id typ code dir r sz t' k :
  icmp_track env t src dst id typ code dir r sz = Some t' → is_Some (tb_conns t' !! k) →
  is_Some (tb_conns t !! k) ∨ (MkICMPKey src dst id = k ∧ typ = ICMPv4TypeEchoRequest).
Proof.
  destruct (icmp_track_cases env t src dst id typ code dir r sz)
    as [[_ ->]|[(_ & _ & ->)|(Hk & Ht & c & Hc & ->)]].
  - intros [= <-] Hk. left. by eapply tb_updateIfExists_dom.
  - intros [= <-] Hk. by left.
  - intros Hi Hk'. destruct (tb_insert_dom _ _ _ _ _ _ _ Hi Hk'); auto.
Qed.

Lemma icmp_step_dom k t o t' :
  icmp_step t o = Some t' → is_Some (tb_conns t' !! k) →
  is_Some (tb_conns t !! k) ∨ icmp_opens k o.
Proof.
  destruct o as [env []]; cbn [icmp_step].
  - destruct (icmp_TrackOutbound_cases env t src dst id typ code size) as [->|[_ ->]].
    + intros [= <-] Hk. left. by eapply tb_updateIfExists_dom.
    + apply icmp_track_dom.
  - apply icmp_track_dom.
  - intros [= <-] Hk. left. revert Hk. unfold icmp_IsValidInbound. case_match; [done|].
    apply tb_valid_dom.
  - intros [= <-] Hk. left. by eapply tb_cleanup_dom.
  - intros [= <-] [c Hk]. unfold tb_conns in Hk. simpl in Hk. by rewrite lookup_empty in Hk.
Qed.

Lemma NewICMPTracker_inv Getenv timeout : tb_inv (NewICMPTracker Getenv timeout).
Proof.
  split; unfold tb_conns, tb_starts, tb_ends; simpl.
  - intros k c Hk. by rewrite lookup_empty in Hk.
  - rewrite map_size_empty. lia.
  - intros _ f. by rewrite !count_nil.
Qed.

Lemma icmp_reachable_inv Getenv timeout ops t :
  icmp_run (NewICMPTracker Getenv timeout) ops = Some t →
  tb_inv t ∧ tb_config t = tb_config (NewICMPTracker Getenv timeout).
Proof.
  apply (run_ind _ (λ t, tb_inv t ∧ tb_config t = tb_config (NewICMPTracker Getenv timeout))).
  - intros t1 o t2 [Hi Hc] Hs. split; [by eapply icmp_step_inv|].
    by rewrite (icmp_step_config _ _ _ Hs).
  - split; [apply NewICMPTracker_inv | done].
Qed.

(** The ICMP table stays within the cap of NB_CONNTRACK_ICMP_MAX, and
    while the tracker is open the start events of each flow that announce
    an entry are its end events plus the entries that carry it; start
    events of messages that get no entry carry their packet instead. *)
Theorem icmp_table_accounted Getenv timeout ops t :
  icmp_run (NewICMPTracker Getenv timeout) ops = Some t →
  Z.of_nat (size (tb_conns t)) <= envInt Getenv "NB_CONNTRACK_ICMP_MAX" DefaultMaxICMPEntries ∧
  (is_Some (tb_connections t) →
   ∀ f, tb_starts f t = (tb_ends f t + flow_count f (tb_conns t))%nat).
Proof.
  intros [Hinv Hc]%icmp_reachable_inv. split; [|apply Hinv].
  injection Hc as _ Hmax. rewrite <- Hmax. apply Hinv. rewrite Hmax. by apply envInt_pos.
Qed.

(** An inbound ICMP message is accepted only when it is an echo reply,
    an earlier call tracked an echo request with the same identifier in the
    opposite direction, and that request has not expired. *)
Theorem icmp_inbound_is_reply Getenv timeout ops t env src dst id typ sz t' :
  icmp_run (NewICMPTracker Getenv timeout) ops = Some t →
  icmp_IsValidInbound env t src dst id typ sz = (t', true) →
  (typ = ICMPv4TypeEchoReply ∨ typ = ICMPv6TypeEchoReply) ∧
  Exists (icmp_opens (MkICMPKey dst src id)) ops ∧
  ∃ c, tb_conns t !! MkICMPKey dst src id = Some c ∧
    time_Sub (env_now env) (lastSeen (icmp_base c)) <= tb_timeout t.
Proof.
  intros Hrun. unfold icmp_IsValidInbound. destruct (_ && _) eqn:Et; [done|]. bools.
  intros (c & Hk & He & _)%tb_valid_true. split; [lia|]. split.
  - destruct (run_origin _ (λ t, is_Some (tb_conns t !! MkICMPKey dst src id)) _
      (icmp_step_dom _) _ _ _ Hrun) as [[c0 Hc0]|]; [by eexists| |done].
    unfold tb_conns in Hc0. simpl in Hc0. by rewrite lookup_empty in Hc0.
  - exists c. split; [done|]. unfold expired, timeoutExceeded in He. bools. done.
Qed.
End ICMPMethods.

(** ** Concrete runs *)

Definition i_env (n : N) : Env := {| env_now := Z.of_N n; env_uuid := n; env_seed := 0 |}.
Definition iA : Addr := AddrV4 1684300801.
Definition iB : Addr := AddrV4 1684300802.
Definition i_ops : list (Env * ICMPOp) :=
  [ (i_env 1, IcmpOutbound iA iB 7 ICMPv4TypeEchoRequest 0 84);
    (i_env 2, IcmpValidInbound iB iA 7 ICMPv4TypeEchoReply 84);
    (i_env 3, IcmpInbound iB iA 0 3 1 [] 56) ].
Definition i_new : ICMPTracker := NewICMPTracker (λ _, "") 0.
Definition i_tracker : ICMPTracker :=
  default i_new (icmp_run (MO := canonical_order) i_new i_ops).

Lemma i_run : icmp_run (MO := canonical_order) i_new i_ops = Some i_tracker.
Proof. apply some_default. vm_compute. reflexivity. Qed.

Lemma icmp_table_accounted_witness :
  Z.of_nat (size (tb_conns i_tracker)) <= 2048 ∧
  (is_Some (tb_connections i_tracker) →
   ∀ f, tb_starts f i_tracker = (tb_ends f i_tracker + flow_count f (tb_conns i_tracker))%nat).
Proof. exact (icmp_table_accounted (MO := canonical_order) (λ _, "") 0 _ _ i_run). Defined.

Lemma icmp_inbound_is_reply_witness :
  Exists (icmp_opens (MkICMPKey iA iB 7)) i_ops.
Proof.
  assert (Hv : icmp_IsValidInbound (i_env 9) i_tracker iB iA 7 0 84 =
    ((icmp_IsValidInbound (i_env 9) i_tracker iB iA 7 0 84).1, true))
    by (apply pair_of_snd; vm_compute; reflexivity).
  exact (proj1 (proj2 (icmp_inbound_is_reply (MO := canonical_order) (λ _, "") 0 _ _ _ _ _ _ _ _ _
    i_run Hv))).
Defined.
