(* ===== verification/Fragment.v ===== *)
(** * Fragment verdicts

    [client/firewall/uspfilter/fragment.go]: the verdict of a datagram's first
    fragment is recorded so that the headerless fragments can inherit it.
    Everything that cannot be tied to an allowed, non-overlapping first
    fragment is denied.  Time is read once per call. *)
From S2P Require Import Prelude NetIP ConnTrack.
Open Scope Z_scope.

Definition defaultFragmentTimeout : Z := 30 * 1000000000.
Definition defaultMaxFragmentEntries : Z := 16384.

Inductive fragmentVerdict := fragmentDeny | fragmentAllow | fragmentOverlap.

#[global] Instance fragmentVerdict_eq_dec : EqDecision fragmentVerdict.
Proof. solve_decision. Defined.

Record fragmentKey := { fk_srcIP : Addr; fk_dstIP : Addr; fk_id : Z; fk_proto : Z }.

#[global] Instance fragmentKey_eq_dec : EqDecision fragmentKey.
Proof. solve_decision. Defined.
#[global] Instance fragmentKey_countable : Countable fragmentKey.
Proof.
  apply (inj_countable' (λ k, (fk_srcIP k, fk_dstIP k, fk_id k, fk_proto k))
    (λ '(a, b, c, d), {| fk_srcIP := a; fk_dstIP := b; fk_id := c; fk_proto := d |})).
  by intros [].
Defined.

Record fragmentEntry := { headerEndOctets : Z; recordedAt : Z }.

#[global] Instance fragmentEntry_eq_dec : EqDecision fragmentEntry.
Proof. solve_decision. Defined.

(** [ft_entries] is [None] after [Close]: the nil map. *)
Record fragmentTracker := {
  ft_entries : option (gmap fragmentKey fragmentEntry);
  ft_timeout : Z;
  ft_maxEntries : Z;
  ft_atCapacity : bool;
}.

Definition ft_map (t : fragmentTracker) : gmap fragmentKey fragmentEntry :=
  default ∅ (ft_entries t).

Definition set_entries (m : option (gmap fragmentKey fragmentEntry)) (t : fragmentTracker)
    : fragmentTracker :=
  {| ft_entries := m; ft_timeout := ft_timeout t; ft_maxEntries := ft_maxEntries t;
     ft_atCapacity := ft_atCapacity t |}.

Definition set_atCapacity (b : bool) (t : fragmentTracker) : fragmentTracker :=
  {| ft_entries := ft_entries t; ft_timeout := ft_timeout t; ft_maxEntries := ft_maxEntries t;
     ft_atCapacity := b |}.

Definition fragmentMaxEntries (Getenv : string → string) : Z :=
  let v := Getenv "NB_FRAGMENT_MAX_ENTRIES" in
  if String.eqb v "" then defaultMaxFragmentEntries
  else match Atoi v with
       | None => defaultMaxFragmentEntries
       | Some n => if n <=? 0 then defaultMaxFragmentEntries else n
       end.

Definition newFragmentTracker (Getenv : string → string) : fragmentTracker :=
  {| ft_entries := Some ∅; ft_timeout := defaultFragmentTimeout;
     ft_maxEntries := fragmentMaxEntries Getenv; ft_atCapacity := false |}.

Definition recordAllowed (now : Z) (t : fragmentTracker) (key : fragmentKey) (hdrEnd : Z)
    : fragmentTracker :=
  match ft_entries t with
  | None => t
  | Some m =>
      if bool_decide (m !! key = None) && (ft_maxEntries t <=? Z.of_nat (size m)) then
        if negb (ft_atCapacity t) then set_atCapacity true t else t
      else set_entries (Some (<[key := {| headerEndOctets := hdrEnd; recordedAt := now |}]> m)) t
  end.

Definition poison (t : fragmentTracker) (key : fragmentKey) : fragmentTracker :=
  set_entries (delete key <$> ft_entries t) t.

(** [time.Since(entry.recordedAt) > t.timeout]. *)
Definition frag_expired (now : Z) (t : fragmentTracker) (e : fragmentEntry) : bool :=
  ft_timeout t <? time_Sub now (recordedAt e).

Definition verdict (now : Z) (t : fragmentTracker) (key : fragmentKey) (fragOffsetOctets : Z)
    : fragmentTracker * fragmentVerdict :=
  match ft_map t !! key with
  | None => (t, fragmentDeny)
  | Some entry =>
      if frag_expired now t entry then (poison t key, fragmentDeny)
      else if fragOffsetOctets <? headerEndOctets entry then (poison t key, fragmentOverlap)
      else (t, fragmentAllow)
  end.

Section Cleanup.
Context {MO : MapOrder}.

Definition frag_cleanup (env : Env) (t : fragmentTracker) : fragmentTracker :=
  let t :=
    foldl (λ t (ke : fragmentKey * fragmentEntry),
             if frag_expired (env_now env) t ke.2 then poison t ke.1 else t)
      t (range_list (env_seed env) (ft_map t)) in
  if Z.of_nat (size (ft_map t)) <? ft_maxEntries t then set_atCapacity false t else t.
End Cleanup.

Definition frag_Close (t : fragmentTracker) : fragmentTracker := set_entries None t.

(** ** Operations as steps *)

Inductive FragOp :=
| FragRecord (key : fragmentKey) (hdrEnd : Z)
| FragPoison (key : fragmentKey)
| FragVerdict (key : fragmentKey) (off : Z)
| FragCleanup
| FragClose.

Definition frag_step `{MapOrder} (t : fragmentTracker) (eo : Env * FragOp)
    : option fragmentTracker :=
  let '(env, op) := eo in
  Some match op with
       | FragRecord key h => recordAllowed (env_now env) t key h
       | FragPoison key => poison t key
       | FragVerdict key off => (verdict (env_now env) t key off).1
       | FragCleanup => frag_cleanup env t
       | FragClose => frag_Close t
       end.

Definition frag_run `{MapOrder} : fragmentTracker → list (Env * FragOp) → option fragmentTracker :=
  run frag_step.

(** ** Lemmas *)

Lemma ft_map_poison t key : ft_map (poison t key) = delete key (ft_map t).
Proof. unfold ft_map, poison. simpl. destruct (ft_entries t); simpl; [done|]. by rewrite delete_empty. Qed.

Lemma fragmentMaxEntries_pos Getenv : 0 < fragmentMaxEntries Getenv.
Proof. unfold fragmentMaxEntries. split_cases. bools. lia. Qed.

Lemma verdict_map now t key off :
  ft_map (verdict now t key off).1 = ft_map t ∨
  ft_map (verdict now t key off).1 = delete key (ft_map t).
Proof. unfold verdict. split_cases; rewrite ?ft_map_poison; auto. Qed.

Lemma frag_fold_spec (env : Env) (l : list (fragmentKey * fragmentEntry)) t :
  let t' := foldl (λ t ke, if frag_expired (env_now env) t ke.2 then poison t ke.1 else t) t l in
  ft_map t' ⊆ ft_map t ∧ ft_timeout t' = ft_timeout t ∧ ft_maxEntries t' = ft_maxEntries t ∧
  ∀ k e, (k, e) ∈ l → frag_expired (env_now env) t e = true → ft_map t' !! k = None.
Proof.
  revert t. induction l as [|[k0 e0] l IH]; intros t; cbn [foldl fst snd].
  { split_and!; try done. intros k e Hin. by apply elem_of_nil in Hin. }
  set (t1 := if frag_expired _ _ _ then _ else t). destruct (IH t1) as (Hs & Ht & Hm & Hk).
  assert (H1 : ft_map t1 ⊆ ft_map t ∧ ft_timeout t1 = ft_timeout t ∧ ft_maxEntries t1 = ft_maxEntries t
     ∧ (frag_expired (env_now env) t e0 = true → ft_map t1 !! k0 = None)).
  { subst t1. destruct (frag_expired _ _ _) eqn:E; [|split_and!; done].
    rewrite ft_map_poison. split_and!; [apply delete_subseteq | done | done |].
    intros _. apply lookup_delete_eq. }
  destruct H1 as (Hs1 & Ht1 & Hm1 & Hk1).
  split_and!; [by etrans | congruence | congruence |].
  intros k e [Heq|Hin]%elem_of_cons Hexp.
  - simplify_eq. apply eq_None_not_Some. intros [e' E].
    rewrite (lookup_weaken _ _ _ _ E Hs) in Hk1. by specialize (Hk1 Hexp).
  - apply (Hk k e Hin). unfold frag_expired in *. by rewrite Ht1.
Qed.

Section Runs.
Context {MO : MapOrder}.

Lemma frag_cleanup_spec env t :
  ft_map (frag_cleanup env t) ⊆ ft_map t ∧
  ft_timeout (frag_cleanup env t) = ft_timeout t ∧
  ft_maxEntries (frag_cleanup env t) = ft_maxEntries t ∧
  ∀ k e, ft_map t !! k = Some e → frag_expired (env_now env) t e = true →
    ft_map (frag_cleanup env t) !! k = None.
Proof.
  unfold frag_cleanup.
  destruct (frag_fold_spec env (range_list (env_seed env) (ft_map t)) t) as (Hs & Ht & Hm & Hk).
  set (t' := foldl _ _ _) in *.
  assert (Hk' : ∀ k e, ft_map t !! k = Some e → frag_expired (env_now env) t e = true →
    ft_map t' !! k = None) by (intros k e He; apply Hk; by rewrite elem_of_range_list).
  destruct (_ <? _); split_and!; done.
Qed.

(** An operation that ends or replaces a verdict recorded for [key] with
    header end [h]. *)
Definition kills (key : fragmentKey) (h : Z) (eo : Env * FragOp) : Prop :=
  match eo.2 with
  | FragRecord k _ | FragPoison k => k = key
  | FragVerdict k off => k = key ∧ off < h
  | FragCleanup => False
  | FragClose => True
  end.

Definition records (key : fragmentKey) (eo : Env * FragOp) : Prop :=
  match eo.2 with FragRecord k _ => k = key | _ => False end.

(** An entry present after a step was recorded by it, or survived it. *)
Lemma frag_step_entry t o t' key e :
  frag_step t o = Some t' → ft_map t' !! key = Some e →
  (o.2 = FragRecord key (headerEndOctets e) ∧ recordedAt e = env_now o.1) ∨
  (ft_map t !! key = Some e ∧ ¬ kills key (headerEndOctets e) o).
Proof.
  destruct o as [env []]; cbn [frag_step]; intros [= <-].
  - unfold recordAllowed, ft_map. destruct (ft_entries t) as [m|] eqn:Hm; simpl.
    + destruct (bool_decide (m !! key0 = None) && _) eqn:Hfull.
      * intros He. right. bools. destruct Hfull as [Hnone _].
        assert (m !! key = Some e) as Hk by (destruct (negb _); simpl in He; by rewrite Hm in He).
        split; [done|]. unfold kills. simpl. intros ->. congruence.
      * cbn. rewrite lookup_insert. case_decide as Hk; [|by right].
        intros [= <-]. subst. by left.
    + rewrite Hm. simpl. by rewrite lookup_empty.
  - rewrite ft_map_poison, lookup_delete_Some. intros [Hne He]. right. split; [done|].
    unfold kills. simpl. congruence.
  - intros He. right. revert He. unfold verdict, kills. simpl.
    destruct (ft_map t !! key0) as [e0|] eqn:E0.
    + destruct (frag_expired _ _ _); [|destruct (Z.ltb_spec off (headerEndOctets e0))]; simpl;
        rewrite ?ft_map_poison, ?lookup_delete_Some; [naive_solver..|].
      intros He. split; [done|]. intros [-> ?]. simplify_eq. lia.
    + simpl. intros He. split; [done|]. intros [-> _]. congruence.
  - intros He. right. destruct (frag_cleanup_spec env t) as (Hs & _).
    split; [by eapply lookup_weaken | by intros []].
  - unfold ft_map. simpl. by rewrite lookup_empty.
Qed.

(** Where an entry comes from: a recording that nothing since has ended. *)
Lemma frag_run_entry ops t t' key e :
  frag_run t ops = Some t' → ft_map t' !! key = Some e → ft_map t !! key = None →
  ∃ l1 env l2, ops = l1 ++ (env, FragRecord key (headerEndOctets e)) :: l2 ∧
    recordedAt e = env_now env ∧ Forall (λ o, ¬ kills key (headerEndOctets e) o) l2.
Proof.
  revert t'. induction ops as [|o ops IH] using rev_ind; intros t' Hrun He H0.
  { injection Hrun as <-. congruence. }
  unfold frag_run in Hrun. rewrite run_app in Hrun.
  destruct (run frag_step t ops) as [t1|] eqn:Hr; [|done]. cbn [run] in Hrun.
  destruct (frag_step t1 o) as [t2|] eqn:Hs; [|done]. injection Hrun as ->.
  destruct (frag_step_entry _ _ _ _ _ Hs He) as [[Ho Hn]|[He1 Hk]].
  - exists ops, o.1, []. destruct o as [env op]. simpl in *. subst op. by split_and!.
  - destruct (IH t1 Hr He1 H0) as (l1 & env & l2 & -> & Hn & Hl2).
    exists l1, env, (l2 ++ [o]). rewrite <- app_assoc. split_and!; [done..|].
    apply Forall_app. split; [done|]. by apply Forall_singleton.
Qed.

Lemma frag_step_config t o t' :
  frag_step t o = Some t' → ft_timeout t' = ft_timeout t ∧ ft_maxEntries t' = ft_maxEntries t.
Proof.
  destruct o as [env []]; cbn [frag_step]; intros [= <-].
  - unfold recordAllowed. by repeat case_match.
  - done.
  - unfold verdict. by repeat case_match.
  - destruct (frag_cleanup_spec env t) as (_ & ? & ? & _). done.
  - done.
Qed.

Lemma frag_run_config ops t t' :
  frag_run t ops = Some t' → ft_timeout t' = ft_timeout t ∧ ft_maxEntries t' = ft_maxEntries t.
Proof.
  apply (run_ind _ (λ t', ft_timeout t' = ft_timeout t ∧ ft_maxEntries t' = ft_maxEntries t)); [|done].
  intros t1 o t2 [? ?] [? ?]%frag_step_config. split; congruence.
Qed.

(** Fail closed: a trailing fragment is let through only if the run
    recorded an allowed first fragment of the same datagram, at most 30
    seconds ago, whose header it does not overlap, and nothing since ended
    or replaced that verdict (no poisoning, no overlapping fragment, no
    new first fragment, no Close). *)
Theorem fragment_fail_closed Getenv ops t now key off t' :
  frag_run (newFragmentTracker Getenv) ops = Some t →
  verdict now t key off = (t', fragmentAllow) →
  ∃ l1 env h l2, ops = l1 ++ (env, FragRecord key h) :: l2 ∧
    h <= off ∧ time_Sub now (env_now env) <= defaultFragmentTimeout ∧
    Forall (λ o, ¬ kills key h o) l2.
Proof.
  intros Hrun Hv. unfold verdict in Hv. destruct (ft_map t !! key) as [e|] eqn:He; [|done].
  destruct (frag_expired now t e) eqn:Hexp; [done|].
  destruct (Z.ltb_spec off (headerEndOctets e)); [done|].
  destruct (frag_run_entry _ _ _ _ _ Hrun He) as (l1 & env & l2 & -> & Hn & Hl2); [done|].
  exists l1, env, (headerEndOctets e), l2. split_and!; try done.
  unfold frag_expired in Hexp. rewrite <- Hn. apply frag_run_config in Hrun as [Hto _].
  rewrite Hto in Hexp. by apply Z.ltb_ge in Hexp.
Qed.

(** A fragment that overlaps the inspected header condemns its whole
    datagram: every later fragment is denied until a new first fragment of
    that datagram is recorded. *)
Theorem fragment_overlap_poisons now t key off t1 ops t2 now' off' :
  verdict now t key off = (t1, fragmentOverlap) →
  frag_run t1 ops = Some t2 → Forall (λ o, ¬ records key o) ops →
  verdict now' t2 key off' = (t2, fragmentDeny).
Proof.
  intros Hv Hrun Hnr. unfold verdict.
  assert (H0 : ft_map t1 !! key = None).
  { revert Hv. unfold verdict. destruct (ft_map t !! key); [|done]. split_cases.
    intros [= <-]. rewrite ft_map_poison. apply lookup_delete_eq. }
  destruct (ft_map t2 !! key) as [e|] eqn:He; [|done].
  destruct (frag_run_entry _ _ _ _ _ Hrun He H0) as (l1 & env & l2 & -> & _).
  apply Forall_app in Hnr as [_ Hnr]. apply Forall_cons in Hnr as [Hr _].
  by destruct Hr.
Qed.

Lemma frag_step_size t o t' :
  frag_step t o = Some t' →
  Z.of_nat (size (ft_map t)) <= ft_maxEntries t → Z.of_nat (size (ft_map t')) <= ft_maxEntries t'.
Proof.
  intros Hs Hle. destruct (frag_step_config _ _ _ Hs) as [_ ->]. revert Hs.
  assert (Hsub : ∀ m, m ⊆ ft_map t → Z.of_nat (size m) <= ft_maxEntries t).
  { intros m Hm. pose proof (map_subseteq_size _ _ Hm). lia. }
  destruct o as [env []]; cbn [frag_step]; intros [= <-].
  - unfold recordAllowed, ft_map in *. destruct (ft_entries t) as [m|] eqn:Hm; simpl in *.
    + destruct (_ && _) eqn:Hfull; [destruct (negb _); simpl; by rewrite Hm|]. simpl. bools.
      rewrite map_size_insert. destruct (m !! key) eqn:Hk; simpl; [done|].
      destruct Hfull; [done|]. lia.
    + by rewrite Hm.
  - rewrite ft_map_poison. apply Hsub, delete_subseteq.
  - destruct (verdict_map (env_now env) t key off) as [->| ->]; [done|]. apply Hsub, delete_subseteq.
  - apply Hsub. by destruct (frag_cleanup_spec env t).
  - unfold ft_map. simpl. rewrite map_size_empty. lia.
Qed.

(** The verdict table never exceeds its cap, and the clean-up leaves
    no expired verdict behind. *)
Theorem fragment_table_bounded Getenv ops t :
  frag_run (newFragmentTracker Getenv) ops = Some t →
  Z.of_nat (size (ft_map t)) <= fragmentMaxEntries Getenv ∧
  ∀ env k e, ft_map (frag_cleanup env t) !! k = Some e → frag_expired (env_now env) t e = false.
Proof.
  intros Hrun. split.
  - destruct (frag_run_config _ _ _ Hrun) as [_ Hmax].
    change (fragmentMaxEntries Getenv) with (ft_maxEntries (newFragmentTracker Getenv)).
    rewrite <- Hmax. revert Hrun.
    apply (run_ind _ (λ t, Z.of_nat (size (ft_map t)) <= ft_maxEntries t)).
    + intros t1 o t2 Hle Hs. by eapply frag_step_size.
    + unfold ft_map. simpl. rewrite map_size_empty. pose proof (fragmentMaxEntries_pos Getenv). lia.
  - intros env k e He. destruct (frag_expired _ t e) eqn:Hexp; [|done].
    destruct (frag_cleanup_spec env t) as (Hs & _ & _ & Hk).
    rewrite (Hk k e) in He; [done | by eapply lookup_weaken | done].
Qed.
End Runs.

(** ** Concrete runs *)

Definition fr_key : fragmentKey :=
  {| fk_srcIP := AddrV4 1684300801; fk_dstIP := AddrV4 1684300802; fk_id := 77; fk_proto := 17 |}.
Definition fr_env (n : Z) : Env := {| env_now := n; env_uuid := 0; env_seed := 0 |}.
Definition fr_ops : list (Env * FragOp) := [(fr_env 5, FragRecord fr_key 185); (fr_env 6, FragCleanup)].
Definition fr_new : fragmentTracker := newFragmentTracker (λ _, "").
Definition fr_tracker : fragmentTracker :=
  default fr_new (frag_run (H := canonical_order) fr_new fr_ops).

Lemma fr_run : frag_run (H := canonical_order) fr_new fr_ops = Some fr_tracker.
Proof. apply some_default. vm_compute. reflexivity. Qed.

Lemma fragment_fail_closed_witness :
  ∃ l1 env h l2, fr_ops = l1 ++ (env, FragRecord fr_key h) :: l2 ∧ h <= 185 ∧
    time_Sub 7 (env_now env) <= defaultFragmentTimeout ∧ Forall (λ o, ¬ kills fr_key h o) l2.
Proof.
  assert (Hv : verdict 7 fr_tracker fr_key 185 = ((verdict 7 fr_tracker fr_key 185).1, fragmentAllow))
    by (apply pair_of_snd; vm_compute; reflexivity).
  exact (fragment_fail_closed (MO := canonical_order) _ _ _ _ _ _ _ fr_run Hv).
Defined.

Lemma fragment_overlap_poisons_witness :
  let t1 := (verdict 7 fr_tracker fr_key 1).1 in
  verdict 8 t1 fr_key 185 = (t1, fragmentDeny).
Proof.
  assert (Hv : verdict 7 fr_tracker fr_key 1 = ((verdict 7 fr_tracker fr_key 1).1, fragmentOverlap))
    by (apply pair_of_snd; vm_compute; reflexivity).
  exact (fragment_overlap_poisons (MO := canonical_order) _ _ _ _ _ [] _ 8 185 Hv eq_refl (Forall_nil_2 _)).
Defined.

Lemma fragment_table_bounded_witness :
  Z.of_nat (size (ft_map fr_tracker)) <= 16384.
Proof. exact (proj1 (fragment_table_bounded (MO := canonical_order) (λ _, "") _ _ fr_run)). Defined.
