(* ===== verification/Order.v ===== *)
(** * Three-way comparisons and sorting

    Go's [Compare] methods and the comparison functions handed to
    [slices.SortFunc], [sort.Slice] and [slices.SortStableFunc], as functions
    to [comparison].  A lawful comparison separates distinct values, so the
    result of a sort does not depend on the algorithm. *)
From stdpp Require Import sorting.
From S2P Require Import Prelude NetIP.
Open Scope Z_scope.

Class LawfulCmp {A} (cmp : A → A → comparison) : Prop := {
  cmp_sym x y : cmp y x = CompOpp (cmp x y);
  cmp_eq x y : cmp x y = Eq → x = y;
  cmp_trans x y z : cmp x y = Lt → cmp y z = Lt → cmp x z = Lt;
}.

#[global] Arguments cmp_sym {_} cmp {_} x y.
#[global] Arguments cmp_eq {_} cmp {_} x y _.
#[global] Arguments cmp_trans {_} cmp {_} x y z _ _.

(** [x] may come before [y]. *)
Definition cmp_le {A} (cmp : A → A → comparison) (x y : A) : Prop := cmp x y ≠ Gt.

#[global] Instance cmp_le_dec {A} (cmp : A → A → comparison) x y : Decision (cmp_le cmp x y).
Proof. unfold cmp_le. destruct (cmp x y); [left|left|right]; naive_solver. Defined.

(** ** Filters *)

Lemma filter_all_id {A} (P : A → Prop) `{∀ x, Decision (P x)} l : Forall P l → filter P l = l.
Proof. induction 1 as [|x l Hx _ IH]; [done|]. by rewrite filter_cons_True, IH. Qed.

Lemma filter_none_nil {A} (P : A → Prop) `{∀ x, Decision (P x)} l : Forall (λ x, ¬ P x) l → filter P l = [].
Proof. induction 1 as [|x l Hx _ IH]; [done|]. by rewrite filter_cons_False. Qed.

Lemma StronglySorted_filter' {A} (R : A → A → Prop) (P : A → Prop) `{∀ x, Decision (P x)} l :
  StronglySorted R l → StronglySorted R (filter P l).
Proof.
  induction 1 as [|x l Hl IH Hx]; [constructor|]. rewrite filter_cons. destruct (decide (P x)); [|done].
  constructor; [done|]. apply Forall_forall. intros y [_ Hy]%list_elem_of_filter. by eapply Forall_forall in Hx.
Qed.

(** ** Sorting *)

(** A sort by comparison. *)
Definition sort_by {A} (cmp : A → A → comparison) (l : list A) : list A :=
  merge_sort (cmp_le cmp) l.

Lemma sort_by_perm {A} (cmp : A → A → comparison) l : sort_by cmp l ≡ₚ l.
Proof. apply merge_sort_Permutation. Qed.

Section Lawful.
Context {A} (cmp : A → A → comparison) `{!LawfulCmp cmp}.

Lemma cmp_refl x : cmp x x = Eq.
Proof. pose proof (cmp_sym cmp x x) as E. by destruct (cmp x x). Qed.

#[global] Instance cmp_le_total : Total (cmp_le cmp).
Proof. intros x y. unfold cmp_le. rewrite (cmp_sym cmp x y). destruct (cmp x y); naive_solver. Qed.

#[global] Instance cmp_le_antisymm : AntiSymm (=) (cmp_le cmp).
Proof.
  intros x y. unfold cmp_le. rewrite (cmp_sym cmp x y). destruct (cmp x y) eqn:E; simpl; try done.
  intros _ _. by apply (cmp_eq cmp).
Qed.

#[global] Instance cmp_le_trans : Transitive (cmp_le cmp).
Proof.
  intros x y z. unfold cmp_le. intros Hxy Hyz.
  destruct (cmp x y) eqn:E1; [|destruct (cmp y z) eqn:E2|]; try done.
  - by apply (cmp_eq cmp) in E1 as ->.
  - apply (cmp_eq cmp) in E2 as ->. by rewrite E1.
  - by rewrite (cmp_trans cmp x y z).
Qed.

Lemma sort_by_sorted l : StronglySorted (cmp_le cmp) (sort_by cmp l).
Proof. apply StronglySorted_merge_sort; apply _. Qed.

(** The order of the input does not matter. *)
Lemma sort_by_unique l l' : l ≡ₚ l' → sort_by cmp l = sort_by cmp l'.
Proof.
  intros Hl. apply (StronglySorted_unique (cmp_le cmp)); [apply sort_by_sorted..|].
  by rewrite !sort_by_perm.
Qed.
End Lawful.

(** ** Comparisons *)

(** Compare by [f], and by [g] when [f] does not decide. *)
Definition cmp_then {A} (f g : A → A → comparison) (x y : A) : comparison :=
  match f x y with Eq => g x y | c => c end.

Lemma Zcompare_sym x y : (y ?= x) = CompOpp (x ?= y).
Proof. apply Z.compare_antisym. Qed.

(** Lexicographic order of sequences; a proper prefix comes first. *)
Fixpoint lex (a b : list Z) : comparison :=
  match a, b with
  | [], [] => Eq
  | [], _ => Lt
  | _, [] => Gt
  | x :: a', y :: b' => match x ?= y with Eq => lex a' b' | c => c end
  end.

#[global] Instance lex_lawful : LawfulCmp lex.
Proof.
  split.
  - induction x as [|a x IH]; intros [|b y]; simpl; try done.
    rewrite (Z.compare_antisym a b). destruct (a ?= b); simpl; auto.
  - induction x as [|a x IH]; intros [|b y]; simpl; try done.
    destruct (Z.compare_spec a b); try done. subst. by intros ->%IH.
  - induction x as [|a x IH]; intros [|b y] [|c z]; simpl; try done.
    destruct (Z.compare_spec a b), (Z.compare_spec b c), (Z.compare_spec a c);
      try done; try lia; subst; try lia. apply IH.
Qed.

(** The bytes of a string. *)
Fixpoint codes (s : string) : list Z :=
  match s with
  | EmptyString => []
  | String c s' => Z.of_N (Ascii.N_of_ascii c) :: codes s'
  end.

Lemma codes_inj s t : codes s = codes t → s = t.
Proof.
  revert t. induction s as [|a s IH]; intros [|b t]; simpl; try done.
  intros [= Hab Hst]. apply N2Z.inj in Hab.
  rewrite <- (ascii_N_embedding a), Hab, ascii_N_embedding. f_equal. by apply IH.
Qed.

(** [strings.Compare]. *)
Definition strings_Compare (s t : string) : comparison := lex (codes s) (codes t).

(** A comparison of keys is lawful when the key is injective. *)
Lemma cmp_on_lawful {A B} (f : A → B) (cmp : B → B → comparison) `{!LawfulCmp cmp} :
  (∀ x y, f x = f y → x = y) → LawfulCmp (λ x y, cmp (f x) (f y)).
Proof.
  intros Hinj. split.
  - intros x y. apply (cmp_sym cmp).
  - intros x y ?%(cmp_eq cmp). by apply Hinj.
  - intros x y z. apply (cmp_trans cmp).
Qed.

#[global] Instance strings_Compare_lawful : LawfulCmp strings_Compare.
Proof. apply (cmp_on_lawful codes lex). apply codes_inj. Qed.

(** [Addr.Compare]: by length, then value, then zone. *)
Definition addr_key (a : Addr) : list Z := BitLen a :: addr_val a :: codes (addr_zone a).

Definition addr_Compare (a b : Addr) : comparison := lex (addr_key a) (addr_key b).

#[global] Instance addr_Compare_lawful : LawfulCmp addr_Compare.
Proof.
  apply (cmp_on_lawful addr_key lex).
  intros [|v|v z] [|v'|v' z']; simpl; intros H; try done; injection H; intros; subst; try done.
  f_equal. by apply codes_inj.
Qed.

(** Pairs compared by an address first and by a length that decreases. *)
Lemma cmp_pair_lawful {A} (f : A → Addr) (g : A → Z) :
  (∀ x y, f x = f y → g x = g y → x = y) →
  LawfulCmp (cmp_then (λ x y, addr_Compare (f x) (f y)) (λ x y, g y ?= g x)).
Proof.
  intros Hinj. unfold cmp_then. split.
  - intros x y. rewrite (cmp_sym addr_Compare (f x) (f y)).
    destruct (addr_Compare (f x) (f y)); simpl; try done. apply Z.compare_antisym.
  - intros x y. destruct (addr_Compare (f x) (f y)) eqn:E; try done.
    intros ?%Z.compare_eq. apply Hinj; [by apply (cmp_eq addr_Compare) | done].
  - intros x y z.
    destruct (addr_Compare (f x) (f y)) eqn:E1; [|destruct (addr_Compare (f y) (f z)) eqn:E2|]; try done.
    + apply (cmp_eq addr_Compare) in E1. rewrite E1.
      destruct (addr_Compare (f y) (f z)) eqn:E2; try done.
      rewrite !Z.compare_lt_iff. lia.
    + apply (cmp_eq addr_Compare) in E2. rewrite <- E2, E1. done.
    + by rewrite (cmp_trans addr_Compare _ (f y) _).
Qed.
