(* ===== verification/FwTypes.v ===== *)
(** * Firewall rules: shared types and rule identifiers

    [client/firewall/manager/firewall.go], [port.go], [protocol.go],
    [set.go] and [client/internal/acl/id/id.go]; the layers a packet decodes
    into, as [client/firewall/uspfilter/filter.go] reads them.  SHA-256 is an
    argument of the functions that hash. *)
From S2P Require Import Prelude NetIP Order.
Open Scope Z_scope.

Definition RuleID : Type := string.

Inductive Action := ActionAccept | ActionDrop.

#[global] Instance Action_eq_dec : EqDecision Action.
Proof. solve_decision. Defined.

(** The [Protocol] string type: the four constants, and anything else. *)
Definition Protocol : Type := string.
Definition ProtocolTCP : Protocol := "tcp".
Definition ProtocolUDP : Protocol := "udp".
Definition ProtocolICMP : Protocol := "icmp".
Definition ProtocolALL : Protocol := "all".

Record Port := { IsRange : bool; Values : list Z }.

(** [None] is the error. *)
Fixpoint ports16 (ports : list Z) : option (list Z) :=
  match ports with
  | [] => Some []
  | p :: ps =>
      if (p <? 1) || (65535 <? p) then None
      else match ports16 ps with Some l => Some (uint 16 p :: l) | None => None end
  end.

Definition NewPort (ports : list Z) : option Port :=
  if (length ports =? 0)%nat then None
  else match ports16 ports with
       | Some l => Some {| IsRange := (1 <? length ports)%nat; Values := l |}
       | None => None
       end.

Definition port_String (p : Port) : string :=
  let ports :=
    foldl (λ acc v, (if String.eqb acc "" then acc else acc +:+ ",") +:+ dec v) "" (Values p) in
  if IsRange p then "range:" +:+ ports else ports.

(** A set: the first four bytes of a hash, and a comment. *)
Record Set_ := { set_hash : list Z; set_comment : string }.

#[global] Instance Set_eq_dec : EqDecision Set_.
Proof. solve_decision. Defined.

Definition SetZero : Set_ := {| set_hash := [0; 0; 0; 0]; set_comment := "" |}.

Definition hex_byte (b : Z) : string :=
  hex_digit (Z.land (Z.shiftr b 4) 15) +:+ hex_digit (Z.land b 15).

(** [hex.EncodeToString]. *)
Definition EncodeToString (bs : list Z) : string := foldr (λ b s, hex_byte b +:+ s) "" bs.

Definition HashedName (h : Set_) : string := "nb-" +:+ EncodeToString (set_hash h).

Record Network := { net_Set : Set_; net_Prefix : Prefix }.

Definition NetworkZero : Network := {| net_Set := SetZero; net_Prefix := MkPrefix AddrInvalid (-1) |}.

Definition net_IsSet (d : Network) : bool := negb (bool_decide (net_Set d = SetZero)).
Definition net_IsPrefix (d : Network) : bool := prefix_IsValid (net_Prefix d).
Definition net_IsZero (d : Network) : bool := negb (net_IsPrefix d) && negb (net_IsSet d).

Definition net_String (d : Network) : string :=
  if prefix_IsValid (net_Prefix d) then prefix_String (net_Prefix d)
  else if net_IsSet d then HashedName (net_Set d)
  else "<invalid network>".

Definition UnmapPrefix (p : Prefix) : Prefix :=
  let addr := prefix_Addr p in
  if negb (Is4In6 addr) then p
  else PrefixFrom (Unmap addr) (Z.max (prefix_Bits p - 96) 0).

(** Smallest address first; for one address the longest prefix first. *)
Definition prefix_cmp : Prefix → Prefix → comparison :=
  cmp_then (λ p q, addr_Compare (prefix_Addr p) (prefix_Addr q))
           (λ p q, prefix_Bits q ?= prefix_Bits p).

Definition SortPrefixes (prefixes : list Prefix) : list Prefix := sort_by prefix_cmp prefixes.

(** The last element of [merged] is the head of [acc]. *)
Fixpoint merge_loop (acc : list Prefix) (rest : list Prefix) : list Prefix :=
  match rest with
  | [] => reverse acc
  | p :: rest' =>
      match acc with
      | [] => merge_loop [p] rest'
      | last :: acc' =>
          if prefix_Contains last (prefix_Addr p) then merge_loop acc rest'
          else if prefix_Contains p (prefix_Addr last) then merge_loop (p :: acc') rest'
          else merge_loop (p :: acc) rest'
      end
  end.

Definition MergeIPRanges (prefixes : list Prefix) : list Prefix :=
  match prefixes with
  | [] => prefixes
  | p :: rest => merge_loop [p] rest
  end.

Section RuleIDs.
(** The SHA-256 digest of a text. *)
Context (sha256 : string → list Z).

Definition opt_port_String (p : option Port) : string :=
  match p with Some p => port_String p | None => "<nil>" end.

Definition action_int (a : Action) : Z :=
  match a with ActionAccept => 0 | ActionDrop => 1 end.

(** What [GenerateRuleID] feeds to the hash. *)
Definition rule_content (sources : list Prefix) (destination : Network) (proto : Protocol)
    (sPort dPort : option Port) (action : Action) : string :=
  "sources:" +:+ foldr (λ p s, prefix_String p +:+ "," +:+ s) "" (SortPrefixes sources) +:+
  "destination:" +:+ net_String destination +:+ "proto:" +:+ proto +:+
  "sPort:" +:+ opt_port_String sPort +:+ "dPort:" +:+ opt_port_String dPort +:+
  "action:" +:+ dec (action_int action).

Definition GenerateRuleID (sources : list Prefix) (destination : Network) (proto : Protocol)
    (sPort dPort : option Port) (action : Action) : RuleID :=
  let hash := EncodeToString (sha256 (rule_content sources destination proto sPort dPort action)) in
  net_String destination +:+ "-" +:+ String.substring 0 16 hash.
End RuleIDs.

(** ** Decoded packets *)

(** The layer types the filter distinguishes; [layerTypeNone] is 0 and
    [layerTypeAll] the constant 255 of the filter. *)
Inductive LayerType :=
| layerTypeNone | LayerTypeIPv4 | LayerTypeIPv6 | LayerTypeTCP | LayerTypeUDP
| LayerTypeICMPv4 | LayerTypeICMPv6 | layerTypeAll | LayerTypeOther (n : Z).

#[global] Instance LayerType_eq_dec : EqDecision LayerType.
Proof. solve_decision. Defined.
#[global] Instance LayerType_countable : Countable LayerType.
Proof.
  apply (inj_countable'
    (λ l, match l with
          | layerTypeNone => inl 0%nat | LayerTypeIPv4 => inl 1%nat | LayerTypeIPv6 => inl 2%nat
          | LayerTypeTCP => inl 3%nat | LayerTypeUDP => inl 4%nat | LayerTypeICMPv4 => inl 5%nat
          | LayerTypeICMPv6 => inl 6%nat | layerTypeAll => inl 7%nat | LayerTypeOther n => inr n end)
    (λ x, match x with
          | inl 0%nat => layerTypeNone | inl 1%nat => LayerTypeIPv4 | inl 2%nat => LayerTypeIPv6
          | inl 3%nat => LayerTypeTCP | inl 4%nat => LayerTypeUDP | inl 5%nat => LayerTypeICMPv4
          | inl 6%nat => LayerTypeICMPv6 | inl _ => layerTypeAll | inr n => LayerTypeOther n end)).
  by intros [].
Defined.

Record IPv4Layer := {
  ip4_SrcIP : list Z; ip4_DstIP : list Z; ip4_Id : Z; ip4_Flags : Z; ip4_FragOffset : Z;
  ip4_Protocol : Z; ip4_IHL : Z; ip4_Payload : list Z }.

Record IPv6Layer := {
  ip6_SrcIP : list Z; ip6_DstIP : list Z; ip6_NextHeader : Z; ip6_Payload : list Z }.

Record TCPOption := { opt_Type : Z; opt_Data : list Z }.

Record TCPLayer := {
  tcp_SrcPort : Z; tcp_DstPort : Z;
  tcp_SYN : bool; tcp_ACK : bool; tcp_FIN : bool; tcp_RST : bool; tcp_PSH : bool; tcp_URG : bool;
  tcp_Options : list TCPOption }.

Record UDPLayer := { udp_SrcPort : Z; udp_DstPort : Z }.
Record ICMPv4Layer := { icmp4_Type : Z; icmp4_Code : Z; icmp4_Id : Z }.
Record ICMPv6Layer := { icmp6_Type : Z; icmp6_Code : Z; icmp6_Payload : list Z }.

(** The [decoder]: the layers of the last packet decoded into it, their types
    in order, and the port-DNAT note. *)
Record decoder := {
  d_ip4 : IPv4Layer; d_ip6 : IPv6Layer; d_tcp : TCPLayer; d_udp : UDPLayer;
  d_icmp4 : ICMPv4Layer; d_icmp6 : ICMPv6Layer;
  decoded : list LayerType;
  dnatOrigPort : Z }.

Definition set_dnatOrigPort (p : Z) (d : decoder) : decoder :=
  {| d_ip4 := d_ip4 d; d_ip6 := d_ip6 d; d_tcp := d_tcp d; d_udp := d_udp d;
     d_icmp4 := d_icmp4 d; d_icmp6 := d_icmp6 d; decoded := decoded d; dnatOrigPort := p |}.

Definition set_decoded (l : list LayerType) (d : decoder) : decoder :=
  {| d_ip4 := d_ip4 d; d_ip6 := d_ip6 d; d_tcp := d_tcp d; d_udp := d_udp d;
     d_icmp4 := d_icmp4 d; d_icmp6 := d_icmp6 d; decoded := l; dnatOrigPort := dnatOrigPort d |}.

(** ** Ports, protocols and layers *)

(** [packetPort >= Values[0] && packetPort <= Values[1]]; a missing index is
    a run-time panic, the result [None]. *)
Definition portsMatch (rulePort : option Port) (packetPort : Z) : option bool :=
  match rulePort with
  | None => Some true
  | Some p =>
      if IsRange p then
        match Values p !! 0%nat with
        | None => None
        | Some lo =>
            if lo <=? packetPort then
              match Values p !! 1%nat with
              | None => None
              | Some hi => Some (packetPort <=? hi)
              end
            else Some false
        end
      else Some (existsb (λ v, v =? packetPort) (Values p))
  end.

Definition protoLayerMatches (ruleLayer packetLayer : LayerType) : bool :=
  if decide (ruleLayer = packetLayer) then true
  else if bool_decide (ruleLayer = LayerTypeICMPv4) && bool_decide (packetLayer = LayerTypeICMPv6) then true
  else if bool_decide (ruleLayer = LayerTypeICMPv6) && bool_decide (packetLayer = LayerTypeICMPv4) then true
  else false.

Definition ipLayerFromPrefix (p : Prefix) : LayerType :=
  if Is6 (prefix_Addr p) then LayerTypeIPv6 else LayerTypeIPv4.

Definition protoToLayer (proto : Protocol) (ipLayer : LayerType) : LayerType :=
  if String.eqb proto ProtocolTCP then LayerTypeTCP
  else if String.eqb proto ProtocolUDP then LayerTypeUDP
  else if String.eqb proto ProtocolICMP then
    if decide (ipLayer = LayerTypeIPv6) then LayerTypeICMPv6 else LayerTypeICMPv4
  else if String.eqb proto ProtocolALL then layerTypeAll
  else layerTypeNone.

(** The loop [for _, p := range sources { if p.Contains(src) ... }]. *)
Definition prefixesContain (sources : list Prefix) (src : Addr) : bool :=
  existsb (λ p, prefix_Contains p src) sources.

(** ** Lemmas *)

(** A range port has its two bounds. *)
Definition port_wf (p : option Port) : Prop :=
  match p with Some p => IsRange p = true → (2 <= length (Values p))%nat | None => True end.

(** The port test as a predicate. *)
Definition port_ok (p : option Port) (x : Z) : bool :=
  match p with
  | None => true
  | Some p =>
      if IsRange p then
        (default 0 (Values p !! 0%nat) <=? x) && (x <=? default 0 (Values p !! 1%nat))
      else existsb (λ v, v =? x) (Values p)
  end.

Lemma portsMatch_wf p x : port_wf p → portsMatch p x = Some (port_ok p x).
Proof.
  destruct p as [[r vs]|]; [|done]. unfold portsMatch, port_ok, port_wf. simpl.
  destruct r; [|done]. intros Hl. specialize (Hl eq_refl).
  destruct vs as [|a [|b vs]]; simpl in *; [lia..|]. by destruct (a <=? x).
Qed.

Lemma ports16_spec ports l :
  ports16 ports = Some l → l = ports ∧ Forall (λ p, 1 <= p <= 65535) l.
Proof.
  revert l. induction ports as [|p ps IH]; intros l; simpl; [by intros [= <-]|].
  destruct (_ || _) eqn:E; [done|]. destruct (ports16 ps) as [l'|]; [|done].
  intros [= <-]. bools. destruct (IH l' eq_refl) as [-> Hf].
  rewrite uint_id by (unfold in_width; lia). split; [done|]. constructor; [lia|done].
Qed.

(** A port that [NewPort] accepts is in range, and never makes [portsMatch]
    panic. *)
Lemma NewPort_wf ports p :
  NewPort ports = Some p →
  Values p = ports ∧ Forall (λ x, 1 <= x <= 65535) (Values p) ∧ port_wf (Some p).
Proof.
  unfold NewPort. destruct (length ports =? 0)%nat eqn:El; [done|].
  destruct (ports16 ports) as [l|] eqn:E; [|done]. intros [= <-]. simpl.
  apply ports16_spec in E as [-> Hf]. split_and!; [done..|].
  intros Hlt%Nat.ltb_lt. lia.
Qed.

#[global] Instance prefix_cmp_lawful : LawfulCmp prefix_cmp.
Proof. apply cmp_pair_lawful. intros [a b] [a' b']; simpl. congruence. Qed.

(** The identifier does not depend on the order of the sources. *)
Lemma GenerateRuleID_perm sha s s' d pr sp dp a :
  s ≡ₚ s' → GenerateRuleID sha s d pr sp dp a = GenerateRuleID sha s' d pr sp dp a.
Proof.
  intros Hs. unfold GenerateRuleID, rule_content, SortPrefixes.
  by rewrite (sort_by_unique prefix_cmp s s').
Qed.

Lemma prefixesContain_spec sources src :
  prefixesContain sources src = true ↔ ∃ p, p ∈ sources ∧ prefix_Contains p src = true.
Proof.
  unfold prefixesContain. rewrite existsb_exists.
  split; intros (p & Hp & Hc); exists p; (split; [by apply list_elem_of_In|done]).
Qed.

Lemma UnmapPrefix_wf p : prefix_wf p → prefix_wf (UnmapPrefix p).
Proof.
  intros Hp. unfold UnmapPrefix. destruct (Is4In6 (prefix_Addr p)); simpl; [|done].
  apply PrefixFrom_wf, Unmap_wf, Hp.
Qed.

Lemma Is4In6_withoutZone a : Is4In6 (withoutZone a) = Is4In6 a.
Proof. by destruct a. Qed.

Lemma UnmapPrefix_not_mapped p : Is4In6 (prefix_Addr (UnmapPrefix p)) = false.
Proof.
  unfold UnmapPrefix. destruct (Is4In6 (prefix_Addr p)) eqn:E; cbn [negb]; [|exact E].
  unfold PrefixFrom. cbn [prefix_Addr]. rewrite Is4In6_withoutZone. apply Unmap_not_Is4In6.
Qed.

Example GenerateRuleID_shape :
  GenerateRuleID (λ _, [171; 205; 239; 1; 35; 69; 103; 137; 255])
    [MkPrefix (AddrV4 1684300801) 32] NetworkZero ProtocolTCP None None ActionAccept =
  "<invalid network>-abcdef0123456789".
Proof. reflexivity. Qed.
