(* ===== verification/PeerRules.v ===== *)
(** * Peer ACL rules and their index

    [client/firewall/uspfilter/rule.go], [peer_index.go] and the peer-rule
    half of [filter.go]: rules live in two slices (deny, accept), each with an
    index by source address, and in a map by identifier.  Rules are heap
    objects: [pr_ptr] is the address that pointer comparison looks at. *)
From S2P Require Import Prelude NetIP Order FwTypes.
Open Scope Z_scope.

Record PeerRule := {
  pr_ptr : nat;
  pr_id : RuleID;
  pr_mgmtId : list Z;
  pr_sources : list Prefix;
  pr_sourceAddrs : gset Addr;
  pr_protoLayer : LayerType;
  pr_srcPort : option Port;
  pr_dstPort : option Port;
  pr_action : Action;
}.

Definition matchesSource (r : PeerRule) (src : Addr) : bool :=
  if decide (src ∈ pr_sourceAddrs r) then true
  else prefixesContain (pr_sources r) src.

(** The result of a matcher: the management identifier and the drop flag. *)
Definition MatchResult : Type := option (list Z * bool).

(** The outer [option] is a panic ([portsMatch] on a malformed range). *)
Definition matchProto (rule : PeerRule) (d : decoder) (payloadLayer : LayerType)
    : option MatchResult :=
  let drop := bool_decide (pr_action rule = ActionDrop) in
  let hit : MatchResult := Some (pr_mgmtId rule, drop) in
  let ports (sp dp : Z) : option MatchResult :=
    match portsMatch (pr_srcPort rule) sp with
    | None => None
    | Some false => Some None
    | Some true =>
        match portsMatch (pr_dstPort rule) dp with
        | None => None
        | Some b => Some (if b then hit else None)
        end
    end in
  if decide (pr_protoLayer rule = layerTypeAll) then Some hit
  else if negb (protoLayerMatches (pr_protoLayer rule) payloadLayer) then Some None
  else match payloadLayer with
       | LayerTypeTCP => ports (tcp_SrcPort (d_tcp d)) (tcp_DstPort (d_tcp d))
       | LayerTypeUDP => ports (udp_SrcPort (d_udp d)) (udp_DstPort (d_udp d))
       | LayerTypeICMPv4 | LayerTypeICMPv6 => Some hit
       | _ => Some None
       end.

(** ** The index *)

(** A nil [bySource] reads as the empty map, and [add] allocates it. *)
Record peerRuleIndex := {
  bySource : gmap Addr (list PeerRule);
  nonHost : list PeerRule;
}.

Definition empty_index : peerRuleIndex := {| bySource := ∅; nonHost := [] |}.

Definition entries (i : peerRuleIndex) (a : Addr) : list PeerRule := default [] (bySource i !! a).

Definition hasNonHostSource (r : PeerRule) : bool :=
  existsb (λ p, negb (prefix_Bits p =? BitLen (prefix_Addr p))) (pr_sources r).

Definition eqRule (target p : PeerRule) : bool := (pr_ptr p =? pr_ptr target)%nat.

(** [slices.DeleteFunc]. *)
Definition DeleteFunc {A} (del : A → bool) (l : list A) : list A :=
  filter (λ x, del x = false) l.

Section Index.
Context {MO : MapOrder}.

Definition index_add (seed : nat) (i : peerRuleIndex) (r : PeerRule) : peerRuleIndex :=
  if hasNonHostSource r then {| bySource := bySource i; nonHost := nonHost i ++ [r] |}
  else
    foldl (λ i a, {| bySource := <[a := entries i a ++ [r]]> (bySource i); nonHost := nonHost i |})
      i (range_set seed (pr_sourceAddrs r)).

Definition index_remove (seed : nat) (i : peerRuleIndex) (r : PeerRule) : peerRuleIndex :=
  if hasNonHostSource r then
    {| bySource := bySource i; nonHost := DeleteFunc (eqRule r) (nonHost i) |}
  else
    foldl (λ i a,
        let es := DeleteFunc (eqRule r) (entries i a) in
        {| bySource := if (length es =? 0)%nat then delete a (bySource i) else <[a := es]> (bySource i);
           nonHost := nonHost i |})
      i (range_set seed (pr_sourceAddrs r)).
End Index.

Definition index_reset (_ : peerRuleIndex) : peerRuleIndex := empty_index.

(** The two loops of [match]. *)
Fixpoint first_match (srcOk : PeerRule → bool) (rules : list PeerRule) (d : decoder) (pl : LayerType)
    : option MatchResult :=
  match rules with
  | [] => Some None
  | rule :: rules' =>
      if negb (srcOk rule) then first_match srcOk rules' d pl
      else match matchProto rule d pl with
           | None => None
           | Some (Some x) => Some (Some x)
           | Some None => first_match srcOk rules' d pl
           end
  end.

Definition index_match (i : peerRuleIndex) (src : Addr) (d : decoder) : option MatchResult :=
  match decoded d !! 1%nat with
  | None => None
  | Some payloadLayer =>
      match first_match (λ _, true) (entries i src) d payloadLayer with
      | None => None
      | Some (Some x) => Some (Some x)
      | Some None => first_match (λ r, prefixesContain (pr_sources r) src) (nonHost i) d payloadLayer
      end
  end.

(** ** The rule store *)

(** The peer-rule fields of [Manager]; [next_ptr] is the allocator. *)
Record PeerACL := {
  incomingDenyRules : list PeerRule;
  incomingAcceptRules : list PeerRule;
  incomingDenyIndex : peerRuleIndex;
  incomingAcceptIndex : peerRuleIndex;
  peerRulesMap : gmap RuleID PeerRule;
  next_ptr : nat;
}.

Definition NewPeerACL : PeerACL :=
  {| incomingDenyRules := []; incomingAcceptRules := [];
     incomingDenyIndex := empty_index; incomingAcceptIndex := empty_index;
     peerRulesMap := ∅; next_ptr := 0 |}.

Record peerRuleSpec := {
  ps_mgmtID : list Z;
  ps_sources : list Prefix;
  ps_ipLayer : LayerType;
  ps_proto : Protocol;
  ps_sPort : option Port;
  ps_dPort : option Port;
  ps_action : Action;
}.

Definition buildPeerRule (ptr : nat) (ruleID : RuleID) (spec : peerRuleSpec) : PeerRule :=
  {| pr_ptr := ptr; pr_id := ruleID; pr_mgmtId := ps_mgmtID spec; pr_sources := ps_sources spec;
     pr_sourceAddrs :=
       foldl (λ s p, if prefix_Bits p =? BitLen (prefix_Addr p) then {[prefix_Addr p]} ∪ s else s)
         ∅ (ps_sources spec);
     pr_protoLayer := protoToLayer (ps_proto spec) (ps_ipLayer spec);
     pr_srcPort := ps_sPort spec; pr_dstPort := ps_dPort spec; pr_action := ps_action spec |}.

(** [removeRuleByID]: the first rule with the identifier is cut out. *)
Fixpoint removeRuleByID {T} (id_of : T → RuleID) (rules : list T) (ruleID : RuleID)
    : list T * option T :=
  match rules with
  | [] => ([], None)
  | r :: rules' =>
      if String.eqb (id_of r) ruleID then (rules', Some r)
      else let '(trimmed, removed) := removeRuleByID id_of rules' ruleID in (r :: trimmed, removed)
  end.

Section Store.
Context {MO : MapOrder} (sha256 : string → list Z).

Definition registerPeerRule (seed : nat) (m : PeerACL) (r : PeerRule) : PeerACL :=
  if decide (pr_action r = ActionDrop) then
    {| incomingDenyRules := incomingDenyRules m ++ [r];
       incomingAcceptRules := incomingAcceptRules m;
       incomingDenyIndex := index_add seed (incomingDenyIndex m) r;
       incomingAcceptIndex := incomingAcceptIndex m;
       peerRulesMap := <[pr_id r := r]> (peerRulesMap m); next_ptr := next_ptr m |}
  else
    {| incomingDenyRules := incomingDenyRules m;
       incomingAcceptRules := incomingAcceptRules m ++ [r];
       incomingDenyIndex := incomingDenyIndex m;
       incomingAcceptIndex := index_add seed (incomingAcceptIndex m) r;
       peerRulesMap := <[pr_id r := r]> (peerRulesMap m); next_ptr := next_ptr m |}.

(** [&PeerRule{...}] takes a fresh address. *)
Definition alloc (m : PeerACL) : PeerACL * nat :=
  ({| incomingDenyRules := incomingDenyRules m; incomingAcceptRules := incomingAcceptRules m;
      incomingDenyIndex := incomingDenyIndex m; incomingAcceptIndex := incomingAcceptIndex m;
      peerRulesMap := peerRulesMap m; next_ptr := S (next_ptr m) |}, next_ptr m).

Definition addOnePeerRule (seed : nat) (m : PeerACL) (spec : peerRuleSpec) : PeerACL * PeerRule :=
  let ruleID := GenerateRuleID sha256 (ps_sources spec) NetworkZero (ps_proto spec)
                  (ps_sPort spec) (ps_dPort spec) (ps_action spec) in
  match peerRulesMap m !! ruleID with
  | Some existing => (m, existing)
  | None =>
      let '(m, ptr) := alloc m in
      let rule := buildPeerRule ptr ruleID spec in
      (registerPeerRule seed m rule, rule)
  end.

Definition addPeerRule (seed : nat) (m : PeerACL) (id : list Z) (sources : list Prefix)
    (proto : Protocol) (sPort dPort : option Port) (action : Action) : PeerACL * PeerRule :=
  let normalized := UnmapPrefix <$> sources in
  let ipLayer := if existsb (λ p, Is6 (prefix_Addr p)) normalized
                 then LayerTypeIPv6 else LayerTypeIPv4 in
  addOnePeerRule seed m
    {| ps_mgmtID := id; ps_sources := normalized; ps_ipLayer := ipLayer; ps_proto := proto;
       ps_sPort := sPort; ps_dPort := dPort; ps_action := action |}.

(** [None] is the error; the store is then unchanged. *)
Definition deletePeerRuleLocked (seed : nat) (m : PeerACL) (r : PeerRule) : option PeerACL :=
  if decide (pr_action r = ActionDrop) then
    match removeRuleByID pr_id (incomingDenyRules m) (pr_id r) with
    | (_, None) => None
    | (trimmed, Some stored) =>
        Some {| incomingDenyRules := trimmed; incomingAcceptRules := incomingAcceptRules m;
                incomingDenyIndex := index_remove seed (incomingDenyIndex m) stored;
                incomingAcceptIndex := incomingAcceptIndex m;
                peerRulesMap := delete (pr_id r) (peerRulesMap m); next_ptr := next_ptr m |}
    end
  else
    match removeRuleByID pr_id (incomingAcceptRules m) (pr_id r) with
    | (_, None) => None
    | (trimmed, Some stored) =>
        Some {| incomingDenyRules := incomingDenyRules m; incomingAcceptRules := trimmed;
                incomingDenyIndex := incomingDenyIndex m;
                incomingAcceptIndex := index_remove seed (incomingAcceptIndex m) stored;
                peerRulesMap := delete (pr_id r) (peerRulesMap m); next_ptr := next_ptr m |}
    end.
End Store.

(** The peer-rule part of [resetState]. *)
Definition resetPeerRules (m : PeerACL) : PeerACL :=
  {| incomingDenyRules := []; incomingAcceptRules := [];
     incomingDenyIndex := index_reset (incomingDenyIndex m);
     incomingAcceptIndex := index_reset (incomingAcceptIndex m);
     peerRulesMap := ∅; next_ptr := next_ptr m |}.

Definition isSpecialICMP (d : decoder) : option bool :=
  match decoded d !! 1%nat with
  | None => None
  | Some LayerTypeICMPv4 => Some ((icmp4_Type (d_icmp4 d) =? 3) || (icmp4_Type (d_icmp4 d) =? 11))
  | Some LayerTypeICMPv6 =>
      Some ((icmp6_Type (d_icmp6 d) =? 1) || (icmp6_Type (d_icmp6 d) =? 2) ||
            (icmp6_Type (d_icmp6 d) =? 3) || (icmp6_Type (d_icmp6 d) =? 4))
  | Some _ => Some false
  end.

(** The rule identifier and whether the packet is blocked. *)
Definition peerACLsBlock (m : PeerACL) (src : Addr) (d : decoder) : option (list Z * bool) :=
  match isSpecialICMP d with
  | None => None
  | Some true => Some ([], false)
  | Some false =>
      match index_match (incomingDenyIndex m) src d with
      | None => None
      | Some (Some (mgmtId, filter)) => Some (mgmtId, filter)
      | Some None =>
          match index_match (incomingAcceptIndex m) src d with
          | None => None
          | Some (Some (mgmtId, filter)) => Some (mgmtId, filter)
          | Some None => Some ([], true)
          end
      end
  end.

(** What [removeRuleByID] returns. *)
Lemma removeRuleByID_spec {T} (id_of : T → RuleID) rules id trimmed removed :
  removeRuleByID id_of rules id = (trimmed, removed) →
  match removed with
  | Some r => id_of r = id ∧ ∃ l1 l2, rules = l1 ++ r :: l2 ∧ trimmed = l1 ++ l2
  | None => trimmed = rules ∧ ∀ r, r ∈ rules → id_of r ≠ id
  end.
Proof.
  revert trimmed. induction rules as [|r rules IH]; intros trimmed; simpl.
  { intros [= <- <-]. set_solver. }
  destruct (String.eqb_spec (id_of r) id) as [Hid|Hid].
  - intros [= <- <-]. split; [done|]. by exists [], rules.
  - destruct (removeRuleByID id_of rules id) as [t' rm]. intros [= <- <-].
    specialize (IH t' eq_refl). destruct rm as [r'|].
    + destruct IH as (? & l1 & l2 & -> & ->). split; [done|]. by exists (r :: l1), l2.
    + destruct IH as [-> Hall]. split; [done|]. intros r' [->|?]%elem_of_cons; auto.
Qed.

(** ** Properties of the peer ACLs

    The index decides like a scan of the rule slices: a packet passes when it
    is a special ICMP error, or no deny rule matches it and some accept rule
    does.  Adding and deleting keep slices, indexes and map in step. *)

(** ** Matching one rule *)

Definition host_source (p : Prefix) : bool := prefix_Bits p =? BitLen (prefix_Addr p).

Record rule_wf (r : PeerRule) : Prop := {
  wf_sources : Forall prefix_wf (pr_sources r);
  wf_addrs a : a ∈ pr_sourceAddrs r ↔
    ∃ p, p ∈ pr_sources r ∧ host_source p = true ∧ prefix_Addr p = a;
  wf_srcPort : port_wf (pr_srcPort r);
  wf_dstPort : port_wf (pr_dstPort r);
}.

(** The protocol and port half of a rule, as a test. *)
Definition proto_ok (r : PeerRule) (d : decoder) (pl : LayerType) : bool :=
  if decide (pr_protoLayer r = layerTypeAll) then true
  else protoLayerMatches (pr_protoLayer r) pl &&
    match pl with
    | LayerTypeTCP => port_ok (pr_srcPort r) (tcp_SrcPort (d_tcp d)) &&
                      port_ok (pr_dstPort r) (tcp_DstPort (d_tcp d))
    | LayerTypeUDP => port_ok (pr_srcPort r) (udp_SrcPort (d_udp d)) &&
                      port_ok (pr_dstPort r) (udp_DstPort (d_udp d))
    | LayerTypeICMPv4 | LayerTypeICMPv6 => true
    | _ => false
    end.

(** The rule covers the packet. *)
Definition rule_matches (r : PeerRule) (src : Addr) (d : decoder) (pl : LayerType) : bool :=
  matchesSource r src && proto_ok r d pl.

Definition rule_result (r : PeerRule) : list Z * bool :=
  (pr_mgmtId r, bool_decide (pr_action r = ActionDrop)).

Lemma matchProto_ok r d pl :
  rule_wf r → matchProto r d pl = Some (if proto_ok r d pl then Some (rule_result r) else None).
Proof.
  intros [_ _ Hs Hd]. unfold matchProto, proto_ok, rule_result. case_decide; [done|].
  destruct (protoLayerMatches _ pl); simpl; [|done].
  destruct pl; try done; rewrite !portsMatch_wf by done;
    by destruct (port_ok (pr_srcPort r) _).
Qed.

Lemma host_source_wf p : prefix_wf p → host_source p = true →
  is_host p = true ∧ prefix_IsValid p = true.
Proof.
  intros (_ & _ & Hv) Hh. split; [done|]. unfold host_source, prefix_IsValid in *. bools.
  destruct (prefix_Addr p); simpl in *; lia.
Qed.

(** Being in the address set is being covered by a host source, so the set
    is only a shortcut. *)
Lemma matchesSource_prefixes r src :
  rule_wf r → matchesSource r src = prefixesContain (pr_sources r) src.
Proof.
  intros Hwf. unfold matchesSource. case_decide as Hin; [|done]. symmetry.
  apply (wf_addrs r Hwf) in Hin as (p & Hp & Hh & <-).
  apply prefixesContain_spec. exists p. split; [done|].
  pose proof (wf_sources r Hwf) as Hs. rewrite Forall_forall in Hs. specialize (Hs p Hp).
  destruct (host_source_wf p Hs Hh) as [H1 H2]. by apply host_prefix_Contains.
Qed.

(** A rule with host sources only matches exactly the addresses of its set. *)
Lemma matchesSource_hosts r src :
  rule_wf r → hasNonHostSource r = false →
  matchesSource r src = true ↔ src ∈ pr_sourceAddrs r.
Proof.
  intros Hwf Hnh. rewrite matchesSource_prefixes, prefixesContain_spec by done.
  rewrite (wf_addrs r Hwf). pose proof (wf_sources r Hwf) as Hs. rewrite Forall_forall in Hs.
  assert (Hhost : ∀ p, p ∈ pr_sources r → host_source p = true).
  { intros p Hp. unfold hasNonHostSource in Hnh. unfold host_source.
    destruct (prefix_Bits p =? _) eqn:E; [done|]. exfalso.
    assert (existsb (λ p, negb (prefix_Bits p =? BitLen (prefix_Addr p))) (pr_sources r) = true); [|congruence].
    apply existsb_exists. exists p. split; [by apply list_elem_of_In|]. by rewrite E. }
  split.
  - intros (p & Hp & Hc). exists p. split_and!; auto.
    destruct (host_source_wf p (Hs p Hp) (Hhost p Hp)) as [H1 H2].
    symmetry. apply (host_prefix_Contains p src); auto.
  - intros (p & Hp & Hh & Ha). exists p. split; [done|].
    destruct (host_source_wf p (Hs p Hp) Hh) as [H1 H2]. apply host_prefix_Contains; auto.
Qed.

(** ** The index *)

(** The index holds exactly the rules of the slice, each where the matcher
    looks for it. *)
Record index_ok (i : peerRuleIndex) (rules : list PeerRule) : Prop := {
  ok_source a r : r ∈ entries i a ↔
    r ∈ rules ∧ hasNonHostSource r = false ∧ a ∈ pr_sourceAddrs r;
  ok_nonHost r : r ∈ nonHost i ↔ r ∈ rules ∧ hasNonHostSource r = true;
}.

Lemma empty_index_ok : index_ok empty_index [].
Proof. split; set_solver. Qed.

Lemma elem_of_DeleteFunc {A} (del : A → bool) l x :
  x ∈ DeleteFunc del l ↔ x ∈ l ∧ del x = false.
Proof. unfold DeleteFunc. rewrite list_elem_of_filter. tauto. Qed.

Definition add_entry (r : PeerRule) (i : peerRuleIndex) (a : Addr) : peerRuleIndex :=
  {| bySource := <[a := entries i a ++ [r]]> (bySource i); nonHost := nonHost i |}.

Definition remove_entry (r : PeerRule) (i : peerRuleIndex) (a : Addr) : peerRuleIndex :=
  let es := DeleteFunc (eqRule r) (entries i a) in
  {| bySource := if (length es =? 0)%nat then delete a (bySource i) else <[a := es]> (bySource i);
     nonHost := nonHost i |}.

Lemma entries_add r i a a' :
  entries (add_entry r i a) a' = if decide (a = a') then entries i a ++ [r] else entries i a'.
Proof. unfold entries. simpl. rewrite lookup_insert. by case_decide. Qed.

Lemma entries_remove r i a a' :
  entries (remove_entry r i a) a' =
  if decide (a = a') then DeleteFunc (eqRule r) (entries i a) else entries i a'.
Proof.
  unfold remove_entry. set (es := DeleteFunc _ _). unfold entries at 1. simpl.
  destruct (length es =? 0)%nat eqn:E.
  - apply Nat.eqb_eq, nil_length_inv in E. rewrite lookup_delete. by case_decide.
  - rewrite lookup_insert. by case_decide.
Qed.

(** A loop that updates each key of a duplicate-free list once. *)
Lemma entries_fold (f : peerRuleIndex → Addr → peerRuleIndex) (g : list PeerRule → list PeerRule) l i :
  (∀ i a a', entries (f i a) a' = if decide (a = a') then g (entries i a) else entries i a') →
  (∀ i a, nonHost (f i a) = nonHost i) → NoDup l →
  nonHost (foldl f i l) = nonHost i ∧
  ∀ a, entries (foldl f i l) a = if decide (a ∈ l) then g (entries i a) else entries i a.
Proof.
  intros Hf Hn. revert i. induction l as [|a0 l IH]; intros i; cbn [foldl].
  { intros _. split; [done|]. intros a. by rewrite decide_False by (by intros ?%elem_of_nil). }
  intros [Hni Hnd]%NoDup_cons. destruct (IH (f i a0) Hnd) as [IH1 IH2].
  split; [by rewrite IH1|]. intros a. rewrite IH2, Hf.
  destruct (decide (a0 = a)) as [->|Hne].
  - by rewrite decide_False, decide_True by set_solver.
  - by destruct (decide (a ∈ l)), (decide (a ∈ a0 :: l)); set_solver.
Qed.

Section IndexOps.
Context {MO : MapOrder}.

Lemma index_add_ok seed i rules r :
  index_ok i rules → index_ok (index_add seed i r) (rules ++ [r]).
Proof.
  intros [Hs Hn]. unfold index_add. destruct (hasNonHostSource r) eqn:E.
  - split.
    + intros a r'. change (entries _ a) with (entries i a). rewrite Hs, elem_of_app, list_elem_of_singleton.
      split; [intros (? & ? & ?); auto|]. intros [[?| ->] [? ?]]; [auto|congruence].
    + intros r'. simpl. rewrite !elem_of_app, Hn, !list_elem_of_singleton.
      split; [intros [[? ?]| ->]; auto | intros [[?| ->] ?]; auto].
  - change (foldl _ i ?l) with (foldl (add_entry r) i l).
    destruct (entries_fold (add_entry r) (λ l, l ++ [r]) (range_set seed (pr_sourceAddrs r)) i)
      as [Hnh Hent]; [intros; by rewrite entries_add | done | apply NoDup_range_set |].
    split.
    + intros a r'. rewrite Hent, elem_of_app, list_elem_of_singleton. case_decide as Hin.
      * rewrite elem_of_range_set in Hin. rewrite elem_of_app, list_elem_of_singleton, Hs.
        split; [intros [(? & ? & ?)| ->]; auto | intros ([?| ->] & ? & ?); auto].
      * rewrite elem_of_range_set in Hin. rewrite Hs.
        split; [intros (? & ? & ?); auto | intros ([?| ->] & ? & ?); [auto | contradiction]].
    + intros r'. rewrite Hnh, Hn, elem_of_app, list_elem_of_singleton.
      split; [intros [? ?]; auto | intros [[?| ->] ?]; [auto | congruence]].
Qed.

Lemma index_remove_ok seed i rules rules' r :
  index_ok i rules → r ∈ rules →
  (∀ r', r' ∈ rules → pr_ptr r' = pr_ptr r → r' = r) →
  (∀ r', r' ∈ rules' ↔ r' ∈ rules ∧ r' ≠ r) →
  index_ok (index_remove seed i r) rules'.
Proof.
  intros [Hs Hn] Hr Hptr Hrules'.
  assert (Heq : ∀ r', r' ∈ rules → eqRule r r' = false ↔ r' ≠ r).
  { intros r' Hr'. unfold eqRule. rewrite Nat.eqb_neq. split; [congruence|].
    intros Hne Hp. by apply Hne, Hptr. }
  unfold index_remove. destruct (hasNonHostSource r) eqn:E.
  - split.
    + intros a r'. change (entries _ a) with (entries i a). rewrite Hs, Hrules'. split; [|tauto].
      intros (? & ? & ?). split_and!; try done. congruence.
    + intros r'. simpl. rewrite elem_of_DeleteFunc, Hn, Hrules'. split.
      * intros [[? ?] ?]. rewrite Heq in *; tauto.
      * intros [[? ?] ?]. rewrite Heq by done. tauto.
  - change (foldl _ i ?l) with (foldl (remove_entry r) i l).
    destruct (entries_fold (remove_entry r) (DeleteFunc (eqRule r))
      (range_set seed (pr_sourceAddrs r)) i)
      as [Hnh Hent]; [intros; by rewrite entries_remove | done | apply NoDup_range_set |].
    split.
    + intros a r'. rewrite Hent, Hrules'. case_decide as Hin; rewrite elem_of_range_set in Hin.
      * rewrite elem_of_DeleteFunc, Hs. split.
        -- intros [(? & ? & ?) He]. rewrite Heq in He; tauto.
        -- intros [[? ?] [? ?]]. rewrite Heq by done. tauto.
      * rewrite Hs. split; [|tauto]. intros (? & ? & ?). split_and!; try done. intros ->. done.
    + intros r'. rewrite Hnh, Hn, Hrules'. split; [|tauto]. intros [? ?]. split_and!; try done. congruence.
Qed.
End IndexOps.

Lemma first_match_spec srcOk rules d pl :
  (∀ r, r ∈ rules → rule_wf r) →
  first_match srcOk rules d pl =
  Some (rule_result <$> find_first (λ r, srcOk r && proto_ok r d pl) rules).
Proof.
  induction rules as [|r rules IH]; intros Hwf; cbn [first_match find_first]; [done|].
  rewrite matchProto_ok by (apply Hwf; left). rewrite IH by (intros; apply Hwf; by right).
  destruct (srcOk r); simpl; [|done]. by destruct (proto_ok r d pl).
Qed.

(** The indexed matcher finds a rule exactly when the slice has one. *)
Lemma index_match_spec i rules src d pl :
  index_ok i rules → (∀ r, r ∈ rules → rule_wf r) → decoded d !! 1%nat = Some pl →
  (index_match i src d = Some None ∧ ∀ r, r ∈ rules → rule_matches r src d pl = false) ∨
  ∃ r, index_match i src d = Some (Some (rule_result r)) ∧ r ∈ rules ∧
    rule_matches r src d pl = true.
Proof.
  intros [Hs Hn] Hwf Hpl. unfold index_match. rewrite Hpl.
  rewrite first_match_spec by (intros r [? _]%Hs; auto).
  destruct (find_first _ (entries i src)) as [r|] eqn:E1; simpl.
  - right. exists r. apply find_first_Some in E1 as [Hin Hp]. apply Hs in Hin as (Hin & Hnh & Ha).
    split_and!; [done..|]. unfold rule_matches. simpl in Hp. rewrite Hp, andb_true_r.
    apply matchesSource_hosts; auto.
  - rewrite first_match_spec by (intros r [? _]%Hn; auto).
    destruct (find_first _ (nonHost i)) as [r|] eqn:E2; simpl.
    + right. exists r. apply find_first_Some in E2 as [Hin Hp]. apply Hn in Hin as [Hin Hnh].
      split_and!; [done..|]. unfold rule_matches. by rewrite matchesSource_prefixes by auto.
    + left. split; [done|]. rewrite find_first_None in E1, E2. intros r Hr.
      unfold rule_matches. apply andb_false_iff.
      destruct (matchesSource r src) eqn:Em; [|by left]. right.
      destruct (hasNonHostSource r) eqn:Eh.
      * assert (Hin : r ∈ nonHost i) by (by apply Hn). specialize (E2 r Hin). simpl in E2.
        rewrite <- matchesSource_prefixes, Em in E2 by auto. done.
      * assert (Hin : r ∈ entries i src) by (apply Hs; split_and!; auto; by apply matchesSource_hosts; auto).
        by specialize (E1 r Hin).
Qed.

(** ** The store *)

Definition installed (m : PeerACL) : list PeerRule := incomingDenyRules m ++ incomingAcceptRules m.

Record acl_inv (m : PeerACL) : Prop := {
  acl_deny r : r ∈ incomingDenyRules m → pr_action r = ActionDrop;
  acl_accept r : r ∈ incomingAcceptRules m → pr_action r = ActionAccept;
  acl_wf r : r ∈ installed m → rule_wf r;
  acl_ids : NoDup (pr_id <$> installed m);
  acl_fresh r : r ∈ installed m → (pr_ptr r < next_ptr m)%nat;
  acl_ptrs : NoDup (pr_ptr <$> installed m);
  acl_map id r : peerRulesMap m !! id = Some r ↔ r ∈ installed m ∧ pr_id r = id;
  acl_deny_index : index_ok (incomingDenyIndex m) (incomingDenyRules m);
  acl_accept_index : index_ok (incomingAcceptIndex m) (incomingAcceptRules m);
}.

Lemma NewPeerACL_inv : acl_inv NewPeerACL.
Proof.
  split; unfold installed; simpl; try apply empty_index_ok; try apply NoDup_nil_2; try set_solver.
Qed.

Lemma NoDup_fmap_inj {A B} (f : A → B) l x y :
  NoDup (f <$> l) → x ∈ l → y ∈ l → f x = f y → x = y.
Proof.
  induction l as [|z l IH]; simpl; [set_solver|]. intros [Hni Hnd]%NoDup_cons.
  assert (Hf : ∀ w, w ∈ l → f w ≠ f z).
  { intros w Hw E. apply Hni. rewrite <- E. apply list_elem_of_fmap. eauto. }
  intros [->|Hx]%elem_of_cons [->|Hy]%elem_of_cons E; auto.
  - by destruct (Hf y Hy).
  - by destruct (Hf x Hx).
Qed.

(** Registering a rule with a fresh identifier and a fresh address. *)
Lemma registerPeerRule_inv `{MapOrder} seed m r :
  acl_inv m → rule_wf r → peerRulesMap m !! pr_id r = None →
  (∀ r', r' ∈ installed m → pr_ptr r' ≠ pr_ptr r) → (pr_ptr r < next_ptr m)%nat →
  acl_inv (registerPeerRule seed m r) ∧ installed (registerPeerRule seed m r) ≡ₚ r :: installed m.
Proof.
  intros Hinv Hwf Hid Hptr Hlt.
  assert (Hperm : installed (registerPeerRule seed m r) ≡ₚ r :: installed m).
  { unfold installed, registerPeerRule. case_decide; simpl; [|by rewrite app_assoc, <- Permutation_cons_append].
    rewrite <- app_assoc. simpl. by rewrite <- Permutation_middle. }
  split; [|done]. destruct Hinv as [Hd Ha Hw Hids Hf Hp Hm Hid1 Hid2].
  assert (Hnew : ∀ r', r' ∈ installed m → pr_id r' ≠ pr_id r).
  { intros r' Hr' E. by rewrite (proj2 (Hm (pr_id r) r') (conj Hr' E)) in Hid. }
  split.
  - intros r'. unfold registerPeerRule. case_decide; simpl; [|apply Hd].
    rewrite elem_of_app, list_elem_of_singleton. intros [?| ->]; auto.
  - intros r'. unfold registerPeerRule. case_decide; simpl; [apply Ha|].
    rewrite elem_of_app, list_elem_of_singleton. intros [?| ->]; auto. by destruct (pr_action r).
  - intros r'. rewrite Hperm. intros [->|?]%elem_of_cons; auto.
  - rewrite Hperm. simpl. apply NoDup_cons. split; [|done].
    intros (r' & E & Hr')%list_elem_of_fmap. by apply (Hnew r').
  - intros r'. rewrite Hperm.
    assert (next_ptr (registerPeerRule seed m r) = next_ptr m) as ->
      by (unfold registerPeerRule; by case_decide).
    intros [->|?]%elem_of_cons; auto.
  - rewrite Hperm. simpl. apply NoDup_cons. split; [|done].
    intros (r' & E & Hr')%list_elem_of_fmap. by apply (Hptr r').
  - intros id r'. rewrite Hperm.
    assert (peerRulesMap (registerPeerRule seed m r) = <[pr_id r := r]> (peerRulesMap m)) as ->
      by (unfold registerPeerRule; by case_decide).
    rewrite elem_of_cons, lookup_insert. case_decide as E; [subst id|rewrite Hm].
    + split; [intros [= <-]; auto|]. intros [[->|Hr'] E]; [done|]. by destruct (Hnew r').
    + split; [intros [? ?]; auto|]. intros [[->|Hr'] E']; [done|auto].
  - unfold registerPeerRule. case_decide; simpl; [by apply index_add_ok | done].
  - unfold registerPeerRule. case_decide; simpl; [done | by apply index_add_ok].
Qed.

Lemma build_sourceAddrs sources acc a :
  a ∈ foldl (λ s p, if prefix_Bits p =? BitLen (prefix_Addr p) then {[prefix_Addr p]} ∪ s else s)
        acc sources ↔
  a ∈ (acc : gset Addr) ∨ ∃ p, p ∈ sources ∧ host_source p = true ∧ prefix_Addr p = a.
Proof.
  revert acc. induction sources as [|p ps IH]; intros acc; cbn [foldl]; [set_solver|].
  rewrite IH. destruct (prefix_Bits p =? BitLen (prefix_Addr p)) eqn:E.
  - rewrite elem_of_union, elem_of_singleton. split.
    + intros [[->|?]|(q & ? & ? & ?)]; auto; right; [exists p | exists q]; split_and!; auto; by constructor.
    + intros [?|(q & [->|?]%elem_of_cons & ? & ?)]; auto. right. eauto.
  - split.
    + intros [?|(q & ? & ? & ?)]; auto. right. exists q. split_and!; auto. by constructor.
    + intros [?|(q & [->|?]%elem_of_cons & Hh & ?)]; auto; [|right; eauto].
      unfold host_source in Hh. congruence.
Qed.

Definition spec_wf (spec : peerRuleSpec) : Prop :=
  Forall prefix_wf (ps_sources spec) ∧ port_wf (ps_sPort spec) ∧ port_wf (ps_dPort spec).

Lemma buildPeerRule_wf ptr id spec : spec_wf spec → rule_wf (buildPeerRule ptr id spec).
Proof.
  intros (Hs & Hp1 & Hp2). split; simpl; try done. intros a. rewrite build_sourceAddrs. set_solver.
Qed.

Section StoreOps.
Context {MO : MapOrder} (sha256 : string → list Z).

Lemma addOnePeerRule_inv seed m spec m' r :
  acl_inv m → spec_wf spec → addOnePeerRule sha256 seed m spec = (m', r) →
  acl_inv m' ∧ r ∈ installed m' ∧
  (m' = m ∨ installed m' ≡ₚ r :: installed m).
Proof.
  intros Hinv Hspec. unfold addOnePeerRule. set (id := GenerateRuleID _ _ _ _ _ _ _).
  destruct (peerRulesMap m !! id) as [ex|] eqn:E.
  - intros [= <- <-]. split_and!; [done | by apply (acl_map m Hinv) in E as [? _] | by left].
  - simpl. intros [= <- <-].
    set (m1 := {| incomingDenyRules := _; next_ptr := S (next_ptr m) |}).
    assert (Hinv1 : acl_inv m1).
    { destruct Hinv as [H1 H2 H3 H4 Hf H6 H7 H8 H9]. split; try done. intros r' Hr'. apply Hf in Hr'. simpl. lia. }
    destruct (registerPeerRule_inv seed m1 (buildPeerRule (next_ptr m) id spec)) as [Hi Hp]; try done.
    + by apply buildPeerRule_wf.
    + intros r' Hr'. pose proof (acl_fresh m Hinv r' Hr'). simpl. lia.
    + simpl. lia.
    + split_and!; [done | rewrite Hp; left | by right].
Qed.

(** Cutting a rule out of a slice keeps everything else. *)
Lemma cut_elem (rules l1 l2 : list PeerRule) s :
  NoDup (pr_id <$> rules) → rules = l1 ++ s :: l2 →
  ∀ x, x ∈ l1 ++ l2 ↔ x ∈ rules ∧ x ≠ s.
Proof.
  intros Hnd -> x. rewrite fmap_app, fmap_cons in Hnd.
  apply NoDup_app in Hnd as (_ & Hd1 & Hd2). apply NoDup_cons in Hd2 as [Hd2 _].
  rewrite !elem_of_app, elem_of_cons. split.
  - intros [Hx|Hx]; (split; [tauto|]); intros ->.
    + apply (Hd1 (pr_id s)); [apply list_elem_of_fmap; eauto | left].
    + apply Hd2, list_elem_of_fmap. eauto.
  - tauto.
Qed.

(** A store that lost exactly the rule [s] keeps the invariant. *)
Lemma acl_shrink m m' s :
  acl_inv m → s ∈ installed m →
  (∀ x, x ∈ incomingDenyRules m' → x ∈ incomingDenyRules m) →
  (∀ x, x ∈ incomingAcceptRules m' → x ∈ incomingAcceptRules m) →
  sublist (installed m') (installed m) →
  (∀ x, x ∈ installed m' ↔ x ∈ installed m ∧ x ≠ s) →
  peerRulesMap m' = delete (pr_id s) (peerRulesMap m) → next_ptr m' = next_ptr m →
  index_ok (incomingDenyIndex m') (incomingDenyRules m') →
  index_ok (incomingAcceptIndex m') (incomingAcceptRules m') → acl_inv m'.
Proof.
  intros [Hd Ha Hw Hids Hf Hp Hm _ _] Hs Hsd Hsa Hsub Hel Hmap Hnext Hi1 Hi2. split; auto.
  - intros x [? _]%Hel. auto.
  - eapply sublist_NoDup; [exact Hids|]. by apply (fmap_sublist pr_id).
  - intros x [? _]%Hel. rewrite Hnext. auto.
  - eapply sublist_NoDup; [exact Hp|]. by apply (fmap_sublist pr_ptr).
  - intros id x. rewrite Hmap, lookup_delete_Some, Hm, Hel. split.
    + intros (Hne & Hx & <-). split_and!; try done. by intros ->.
    + intros [[Hx Hne] <-]. split_and!; try done. intros E. apply Hne.
      by apply (NoDup_fmap_inj pr_id (installed m)).
Qed.

Lemma index_remove_installed seed m i rules l1 l2 s :
  acl_inv m → index_ok i rules → (∀ x, x ∈ rules → x ∈ installed m) →
  NoDup (pr_id <$> rules) → rules = l1 ++ s :: l2 →
  index_ok (index_remove seed i s) (l1 ++ l2).
Proof.
  intros Hinv Hi Hsub Hnd Hl. assert (Hs : s ∈ rules) by (rewrite Hl; set_solver).
  eapply index_remove_ok; [done | done | | by apply (cut_elem rules)].
  intros x Hx E. apply (NoDup_fmap_inj pr_ptr (installed m)); auto. apply Hinv.
Qed.

Lemma deletePeerRule_inv seed m r m' :
  acl_inv m → deletePeerRuleLocked seed m r = Some m' →
  acl_inv m' ∧ ∃ s, s ∈ installed m ∧ pr_id s = pr_id r ∧ pr_action s = pr_action r ∧
    ∀ x, x ∈ installed m' ↔ x ∈ installed m ∧ x ≠ s.
Proof.
  intros Hinv. unfold deletePeerRuleLocked.
  pose proof (acl_ids m Hinv) as Hids. pose proof Hids as Hids'. unfold installed in Hids'.
  rewrite fmap_app in Hids'. apply NoDup_app in Hids' as (Hidd & _ & Hida).
  case_decide as Hact.
  - destruct (removeRuleByID pr_id (incomingDenyRules m) (pr_id r)) as [trimmed [s|]] eqn:E; [|done].
    apply removeRuleByID_spec in E as (Hid & l1 & l2 & Hl & ->). intros [= <-].
    assert (Hsd : s ∈ incomingDenyRules m) by (rewrite Hl; set_solver).
    assert (Hel : ∀ x, x ∈ (l1 ++ l2) ++ incomingAcceptRules m ↔ x ∈ installed m ∧ x ≠ s).
    { intros x. rewrite <- app_assoc. apply cut_elem; [done|].
      unfold installed. by rewrite Hl, <- app_assoc. }
    assert (Hs : s ∈ installed m) by (apply elem_of_app; by left).
    split; [|exists s; split_and!; auto; rewrite Hact; by apply Hinv].
    apply (acl_shrink m _ s); simpl; auto; try by rewrite Hid.
    + intros x Hx. by apply (cut_elem (incomingDenyRules m) l1 l2 s) in Hx as [? _].
    + unfold installed. simpl. rewrite Hl. apply sublist_app; [|done].
      apply sublist_app; [done|]. by apply sublist_cons.
    + apply (index_remove_installed seed m _ (incomingDenyRules m)); auto; [apply Hinv|].
      intros x ?. apply elem_of_app. by left.
    + apply Hinv.
  - destruct (removeRuleByID pr_id (incomingAcceptRules m) (pr_id r)) as [trimmed [s|]] eqn:E; [|done].
    apply removeRuleByID_spec in E as (Hid & l1 & l2 & Hl & ->). intros [= <-].
    assert (Hsa : s ∈ incomingAcceptRules m) by (rewrite Hl; set_solver).
    assert (Hel : ∀ x, x ∈ incomingDenyRules m ++ (l1 ++ l2) ↔ x ∈ installed m ∧ x ≠ s).
    { intros x. rewrite app_assoc. apply cut_elem; [done|].
      unfold installed. by rewrite Hl, <- app_assoc. }
    assert (Hs : s ∈ installed m) by (apply elem_of_app; by right).
    split; [|exists s; split_and!; auto; rewrite (acl_accept m Hinv s Hsa); by destruct (pr_action r)].
    apply (acl_shrink m _ s); simpl; auto; try by rewrite Hid.
    + intros x Hx. by apply (cut_elem (incomingAcceptRules m) l1 l2 s) in Hx as [? _].
    + unfold installed. simpl. rewrite Hl. apply sublist_app; [done|].
      apply sublist_app; [done|]. by apply sublist_cons.
    + apply Hinv.
    + apply (index_remove_installed seed m _ (incomingAcceptRules m)); auto; [apply Hinv|].
      intros x ?. apply elem_of_app. by right.
Qed.
End StoreOps.

(** ** Runs *)

Inductive PeerOp :=
| AddPeer (id : list Z) (sources : list Prefix) (proto : Protocol) (sPort dPort : option Port)
    (action : Action)
| DeletePeer (r : PeerRule)
| ResetPeers.

(** What callers pass: prefixes made by [netip], ranges with two bounds. *)
Definition op_wf (o : nat * PeerOp) : Prop :=
  match o.2 with
  | AddPeer _ sources _ sp dp _ => Forall prefix_wf sources ∧ port_wf sp ∧ port_wf dp
  | _ => True
  end.

Section PeerRuns.
Context {MO : MapOrder} (sha256 : string → list Z).

(** [AddFilterRule] without destination, [DeleteFilterRule] on a peer rule,
    and the reset; a call that returns an error leaves the store alone. *)
Definition peer_step (m : PeerACL) (o : nat * PeerOp) : option PeerACL :=
  let '(seed, op) := o in
  Some match op with
       | AddPeer id sources proto sp dp action =>
           if (length sources =? 0)%nat then m
           else (addPeerRule sha256 seed m id sources proto sp dp action).1
       | DeletePeer r => default m (deletePeerRuleLocked seed m r)
       | ResetPeers => resetPeerRules m
       end.

Definition peer_run : PeerACL → list (nat * PeerOp) → option PeerACL := run peer_step.

Lemma addPeerRule_inv seed m id sources proto sp dp action m' r :
  acl_inv m → Forall prefix_wf sources → port_wf sp → port_wf dp →
  addPeerRule sha256 seed m id sources proto sp dp action = (m', r) →
  acl_inv m' ∧ r ∈ installed m' ∧ (m' = m ∨ installed m' ≡ₚ r :: installed m).
Proof.
  intros Hinv Hs Hp1 Hp2. apply addOnePeerRule_inv; [done|]. split_and!; try done. simpl.
  apply Forall_fmap. eapply Forall_impl; [exact Hs|]. intros p. apply UnmapPrefix_wf.
Qed.

Lemma peer_step_inv m o m' : acl_inv m → op_wf o → peer_step m o = Some m' → acl_inv m'.
Proof.
  intros Hinv. destruct o as [seed []]; unfold op_wf; cbn [peer_step snd]; intros Hwf [= <-].
  - destruct (length sources =? 0)%nat; [done|]. destruct Hwf as (? & ? & ?).
    destruct (addPeerRule _ _ _ _ _ _ _ _ _) as [m1 r] eqn:E.
    by destruct (addPeerRule_inv _ _ _ _ _ _ _ _ _ _ Hinv H H0 H1 E).
  - destruct (deletePeerRuleLocked seed m r) as [m1|] eqn:E; simpl; [|done].
    by destruct (deletePeerRule_inv _ _ _ _ Hinv E).
  - destruct NewPeerACL_inv. split; try done. unfold installed. simpl. set_solver.
Qed.

Lemma peer_reachable_inv ops m :
  Forall op_wf ops → peer_run NewPeerACL ops = Some m → acl_inv m.
Proof.
  intros Hops. assert (Hinv := NewPeerACL_inv). revert Hinv. generalize NewPeerACL as m0.
  induction Hops as [|o ops Ho Hops IH]; intros m0 Hinv; cbn [peer_run run]; [by intros [= <-]|].
  destruct (peer_step m0 o) as [m1|] eqn:E; [|done]. apply IH. by eapply peer_step_inv.
Qed.

(** The decision as the rules state it, without index. *)
Definition acl_blocks (m : PeerACL) (src : Addr) (d : decoder) (pl : LayerType) : bool :=
  existsb (λ r, rule_matches r src d pl) (incomingDenyRules m) ||
  negb (existsb (λ r, rule_matches r src d pl) (incomingAcceptRules m)).

Lemma existsb_elem {A} (f : A → bool) l x : x ∈ l → f x = true → existsb f l = true.
Proof. intros Hx Hf. apply existsb_exists. exists x. split; [by apply list_elem_of_In|done]. Qed.

Lemma existsb_none {A} (f : A → bool) l : (∀ x, x ∈ l → f x = false) → existsb f l = false.
Proof.
  intros Hall. apply not_true_is_false. intros (x & Hx & Hf)%existsb_exists.
  apply list_elem_of_In in Hx. by rewrite (Hall x Hx) in Hf.
Qed.

Lemma peerACLsBlock_spec m src d pl :
  acl_inv m → decoded d !! 1%nat = Some pl →
  ∃ id special, isSpecialICMP d = Some special ∧
    peerACLsBlock m src d = Some (id, negb special && acl_blocks m src d pl) ∧
    (special = false →
     (id = [] ∧ (∀ r, r ∈ installed m → rule_matches r src d pl = false)) ∨
     ∃ r, r ∈ installed m ∧ rule_matches r src d pl = true ∧ id = pr_mgmtId r).
Proof.
  intros Hinv Hpl. unfold peerACLsBlock.
  assert (∃ sp, isSpecialICMP d = Some sp) as [sp Hsp].
  { unfold isSpecialICMP. rewrite Hpl. destruct pl; eauto. }
  rewrite Hsp. destruct sp; [by exists [], true|].
  destruct (index_match_spec _ _ src d pl (acl_deny_index m Hinv)) as [[-> Hno]|(r & -> & Hr & Hm)];
    [intros; apply (acl_wf m Hinv); unfold installed; set_solver | done | |].
  - destruct (index_match_spec _ _ src d pl (acl_accept_index m Hinv)) as [[-> Hno']|(r & -> & Hr & Hm)];
      [intros; apply (acl_wf m Hinv); unfold installed; set_solver | done | |].
    + exists [], false. unfold acl_blocks. rewrite !existsb_none by done. split_and!; [done..|].
      intros _. left. split; [done|]. intros r [?|?]%elem_of_app; auto.
    + exists (pr_mgmtId r), false. unfold acl_blocks, rule_result.
      rewrite existsb_none, (existsb_elem _ _ r Hr Hm) by done.
      rewrite (acl_accept m Hinv r Hr). split_and!; [done..|].
      intros _. right. exists r. split_and!; try done. apply elem_of_app. by right.
  - exists (pr_mgmtId r), false. unfold acl_blocks, rule_result.
    rewrite (existsb_elem _ _ r Hr Hm), (acl_deny m Hinv r Hr). split_and!; [done..|].
    intros _. right. exists r. split_and!; try done. apply elem_of_app. by left.
Qed.

(** C35. After any sequence of rule additions, deletions and resets, the
    indexed decision is the decision of the rules: never a panic; special
    ICMP errors pass; otherwise a packet is blocked exactly when a deny rule
    matches it or no accept rule does (deny wins, default deny); and the
    reported identifier belongs to a rule that matches. *)
Theorem peer_acl_decision ops m src d pl :
  Forall op_wf ops → peer_run NewPeerACL ops = Some m → decoded d !! 1%nat = Some pl →
  ∃ id special, isSpecialICMP d = Some special ∧
    peerACLsBlock m src d = Some (id, negb special && acl_blocks m src d pl) ∧
    (special = false →
     (id = [] ∧ (∀ r, r ∈ installed m → rule_matches r src d pl = false)) ∨
     ∃ r, r ∈ installed m ∧ rule_matches r src d pl = true ∧ id = pr_mgmtId r).
Proof. intros Hops Hrun. apply peerACLsBlock_spec. by eapply peer_reachable_inv. Qed.

Lemma deny_iff m x :
  acl_inv m → x ∈ incomingDenyRules m ↔ x ∈ installed m ∧ pr_action x = ActionDrop.
Proof.
  intros Hinv. unfold installed. rewrite elem_of_app. split.
  - intros Hx. split; [by left | by apply Hinv].
  - intros [[?|Hx] E]; [done|]. by rewrite (acl_accept m Hinv x Hx) in E.
Qed.

Lemma accept_iff m x :
  acl_inv m → x ∈ incomingAcceptRules m ↔ x ∈ installed m ∧ pr_action x = ActionAccept.
Proof.
  intros Hinv. unfold installed. rewrite elem_of_app. split.
  - intros Hx. split; [by right | by apply Hinv].
  - intros [[Hx|?] E]; [|done]. by rewrite (acl_deny m Hinv x Hx) in E.
Qed.

Lemma existsb_without f l l' (id : RuleID) :
  (∀ x, x ∈ l' ↔ x ∈ l ∧ pr_id x ≠ id) →
  existsb f l' = existsb (λ x, negb (String.eqb (pr_id x) id) && f x) l.
Proof.
  intros Hl. apply eq_true_iff_eq. rewrite !existsb_exists. setoid_rewrite <- list_elem_of_In.
  setoid_rewrite Hl. setoid_rewrite andb_true_iff. setoid_rewrite negb_true_iff.
  setoid_rewrite String.eqb_neq. split; intros (x & Hx); exists x; tauto.
Qed.

(** Deleting a rule removes exactly it: the deleted identifier is gone
    from slices and map, every other rule stays, and no packet is then
    decided by it. *)
Theorem peer_delete_exact ops m seed r m' :
  Forall op_wf ops → peer_run NewPeerACL ops = Some m →
  deletePeerRuleLocked seed m r = Some m' →
  peerRulesMap m' !! pr_id r = None ∧
  (∀ x, x ∈ installed m' ↔ x ∈ installed m ∧ pr_id x ≠ pr_id r) ∧
  (∀ src d pl, acl_blocks m' src d pl =
     existsb (λ x, negb (String.eqb (pr_id x) (pr_id r)) && rule_matches x src d pl) (incomingDenyRules m) ||
     negb (existsb (λ x, negb (String.eqb (pr_id x) (pr_id r)) && rule_matches x src d pl)
             (incomingAcceptRules m))).
Proof.
  intros Hops Hrun Hdel. pose proof (peer_reachable_inv _ _ Hops Hrun) as Hinv.
  destruct (deletePeerRule_inv _ _ _ _ Hinv Hdel) as (Hinv' & s & Hs & Hid & _ & Hel).
  assert (Hel' : ∀ x, x ∈ installed m' ↔ x ∈ installed m ∧ pr_id x ≠ pr_id r).
  { intros x. rewrite Hel. split; intros [Hx Hne]; (split; [done|]); [|congruence].
    intros E. apply Hne. apply (NoDup_fmap_inj pr_id (installed m)); [apply Hinv|done..|congruence]. }
  split_and!; [|done|].
  - apply eq_None_not_Some. intros [x [Hx Hxid]%(acl_map m' Hinv')]. by apply Hel' in Hx as [_ ?].
  - intros src d pl. unfold acl_blocks. f_equal; [|f_equal]; apply existsb_without; intros x.
    + rewrite !deny_iff, Hel' by done. tauto.
    + rewrite !accept_iff, Hel' by done. tauto.
Qed.

Lemma addOnePeerRule_id seed m spec m' r :
  addOnePeerRule sha256 seed m spec = (m', r) → acl_inv m' →
  peerRulesMap m' !! GenerateRuleID sha256 (ps_sources spec) NetworkZero (ps_proto spec)
    (ps_sPort spec) (ps_dPort spec) (ps_action spec) = Some r.
Proof.
  unfold addOnePeerRule. set (id := GenerateRuleID _ _ _ _ _ _ _).
  destruct (peerRulesMap m !! id) as [ex|] eqn:E; [by intros [= <- <-]|].
  simpl. intros [= <- <-] _. unfold registerPeerRule. case_decide; simpl; apply lookup_insert_eq.
Qed.

(** Adding the same rule again, with its sources in any order and
    whatever management identifier, installs nothing and returns the rule
    that is already there. *)
Theorem peer_add_idempotent ops m seed seed' id id' sources sources' proto sp dp action m' r :
  Forall op_wf ops → peer_run NewPeerACL ops = Some m →
  Forall prefix_wf sources → port_wf sp → port_wf dp → sources ≡ₚ sources' →
  addPeerRule sha256 seed m id sources proto sp dp action = (m', r) →
  addPeerRule sha256 seed' m' id' sources' proto sp dp action = (m', r).
Proof.
  intros Hops Hrun Hs Hsp Hdp Hperm Hadd. pose proof (peer_reachable_inv _ _ Hops Hrun) as Hinv.
  destruct (addPeerRule_inv _ _ _ _ _ _ _ _ _ _ Hinv Hs Hsp Hdp Hadd) as (Hinv' & _).
  unfold addPeerRule in *. apply addOnePeerRule_id in Hadd; [|done]. simpl in Hadd.
  unfold addOnePeerRule. simpl.
  rewrite <- (GenerateRuleID_perm sha256 (UnmapPrefix <$> sources)) by (by rewrite Hperm).
  by rewrite Hadd.
Qed.
End PeerRuns.

(** Sources are scoped to their address family: an installed rule whose
    sources are all IPv4 never matches an IPv6 packet and conversely, /0
    included. *)
Theorem peer_family_scope {MO : MapOrder} sha256 ops m r src :
  Forall op_wf ops → peer_run sha256 NewPeerACL ops = Some m → r ∈ installed m →
  (∀ p, p ∈ pr_sources r → BitLen (prefix_Addr p) ≠ BitLen src) →
  ∀ d pl, rule_matches r src d pl = false.
Proof.
  intros Hops Hrun Hr Hfam d pl. pose proof (peer_reachable_inv sha256 _ _ Hops Hrun) as Hinv.
  unfold rule_matches. rewrite matchesSource_prefixes by (by apply Hinv).
  destruct (prefixesContain (pr_sources r) src) eqn:E; [|done].
  apply prefixesContain_spec in E as (p & Hp & Hc). exfalso.
  apply (Hfam p Hp). by apply prefix_Contains_family.
Qed.

(** ** Concrete runs *)

Definition pw_sha (_ : string) : list Z := [1; 2; 3; 4; 5; 6; 7; 8; 9].
Definition pw_src : Addr := AddrV4 1684300801.
Definition pw_sources : list Prefix := [PrefixFrom pw_src 32].
Definition pw_op : nat * PeerOp :=
  (0%nat, AddPeer [7] pw_sources ProtocolTCP None (Some {| IsRange := true; Values := [80; 443] |}) ActionAccept).
Definition pw_acl : PeerACL :=
  default NewPeerACL (peer_run (MO := canonical_order) pw_sha NewPeerACL [pw_op]).

Lemma pw_run : peer_run (MO := canonical_order) pw_sha NewPeerACL [pw_op] = Some pw_acl.
Proof. reflexivity. Qed.

Lemma pw_prefix : Forall prefix_wf pw_sources.
Proof. constructor; [|constructor]. apply PrefixFrom_wf. unfold addr_wf, in_width. simpl. lia. Qed.

Lemma pw_wf : Forall op_wf [pw_op].
Proof.
  constructor; [|constructor]. split; [exact pw_prefix|]. split; [exact I|]. simpl. lia.
Qed.

Definition pw_decoder : decoder :=
  {| d_ip4 := {| ip4_SrcIP := []; ip4_DstIP := []; ip4_Id := 0; ip4_Flags := 0; ip4_FragOffset := 0;
                 ip4_Protocol := 6; ip4_IHL := 5; ip4_Payload := [] |};
     d_ip6 := {| ip6_SrcIP := []; ip6_DstIP := []; ip6_NextHeader := 0; ip6_Payload := [] |};
     d_tcp := {| tcp_SrcPort := 4000; tcp_DstPort := 100; tcp_SYN := true; tcp_ACK := false;
                 tcp_FIN := false; tcp_RST := false; tcp_PSH := false; tcp_URG := false;
                 tcp_Options := [] |};
     d_udp := {| udp_SrcPort := 0; udp_DstPort := 0 |};
     d_icmp4 := {| icmp4_Type := 0; icmp4_Code := 0; icmp4_Id := 0 |};
     d_icmp6 := {| icmp6_Type := 0; icmp6_Code := 0; icmp6_Payload := [] |};
     decoded := [LayerTypeIPv4; LayerTypeTCP]; dnatOrigPort := 0 |}.

Lemma peer_acl_decision_witness :
  ∃ id special, isSpecialICMP pw_decoder = Some special ∧
    peerACLsBlock pw_acl pw_src pw_decoder =
      Some (id, negb special && acl_blocks pw_acl pw_src pw_decoder LayerTypeTCP).
Proof.
  destruct (peer_acl_decision (MO := canonical_order) pw_sha [pw_op] pw_acl pw_src pw_decoder
    LayerTypeTCP pw_wf pw_run eq_refl) as (id & special & H1 & H2 & _).
  exists id, special. split; [exact H1 | exact H2].
Defined.

Definition pw_rule : PeerRule :=
  (addPeerRule (MO := canonical_order) pw_sha 0 NewPeerACL [7] pw_sources ProtocolTCP None
     (Some {| IsRange := true; Values := [80; 443] |}) ActionAccept).2.

Lemma peer_delete_exact_witness :
  ∃ m', deletePeerRuleLocked (MO := canonical_order) 0 pw_acl pw_rule = Some m' ∧
    peerRulesMap m' !! pr_id pw_rule = None.
Proof.
  exists (default pw_acl (deletePeerRuleLocked (MO := canonical_order) 0 pw_acl pw_rule)).
  assert (H : deletePeerRuleLocked (MO := canonical_order) 0 pw_acl pw_rule =
    Some (default pw_acl (deletePeerRuleLocked (MO := canonical_order) 0 pw_acl pw_rule)))
    by (apply some_default; vm_compute; reflexivity).
  split; [exact H|].
  exact (proj1 (peer_delete_exact (MO := canonical_order) pw_sha [pw_op] pw_acl 0 pw_rule _
    pw_wf pw_run H)).
Defined.

Lemma peer_add_idempotent_witness :
  addPeerRule (MO := canonical_order) pw_sha 3 pw_acl [9] pw_sources ProtocolTCP None
    (Some {| IsRange := true; Values := [80; 443] |}) ActionAccept = (pw_acl, pw_rule).
Proof.
  exact (peer_add_idempotent (MO := canonical_order) pw_sha [] NewPeerACL 0 3 [7] [9] pw_sources
    pw_sources ProtocolTCP None (Some {| IsRange := true; Values := [80; 443] |}) ActionAccept
    pw_acl pw_rule (Forall_nil_2 _) eq_refl pw_prefix I (λ _, le_n 2) (Permutation_refl _) eq_refl).
Defined.

Lemma peer_family_scope_witness :
  rule_matches pw_rule (AddrV6 1 "") pw_decoder LayerTypeTCP = false.
Proof.
  apply (peer_family_scope (MO := canonical_order) pw_sha [pw_op] pw_acl).
  - exact pw_wf.
  - exact pw_run.
  - assert (E : installed pw_acl = [pw_rule]) by reflexivity. rewrite E. left.
  - intros p [->|Hp]%elem_of_cons; [vm_compute; discriminate | by apply elem_of_nil in Hp].
Defined.
