(* ===== verification/Checksum.v ===== *)
(** * Internet checksums

    The checksum routines of [client/firewall/uspfilter/nat.go] and the TCP
    one of [filter.go], with 32-bit accumulators, and the one's-complement
    reference they implement (RFC 1071, RFC 1624).  Packets are lists of
    bytes. *)
From S2P Require Import Prelude NetIP Bytes.
Open Scope Z_scope.

Definition at_ (l : list Z) (i : nat) : Z := default 0 (l !! i).

(** [binary.BigEndian.Uint16(l[i : i+2])]. *)
Definition Uint16 (l : list Z) (i : nat) : Z := at_ l i * 256 + at_ l (S i).

Definition add32 (a b : Z) : Z := uint 32 (a + b).

(** [^x] on a [uint16]. *)
Definition not16 (x : Z) : Z := 65535 - uint 16 x.

(** [for i := ...; i < len(data)-1; i += 2 { sum += Uint16(data[i:i+2]) }]. *)
Fixpoint sum_from (fuel : nat) (f : Z → Z) (data : list Z) (i : nat) (sum : Z) : Z :=
  match fuel with
  | O => sum
  | S fuel' =>
      if (S i <? length data)%nat
      then sum_from fuel' f data (S (S i)) (add32 sum (f (Uint16 data i)))
      else sum
  end.

(** The single carry fold that ends the routines. *)
Definition carry_fold (sum : Z) : Z :=
  let sum := add32 (Z.land sum 0xFFFF) (Z.shiftr sum 16) in
  if 0xFFFF <? sum then add32 sum 1 else sum.

Definition ipv4Checksum (header : list Z) : Z :=
  if (length header <? 20)%nat then 0
  else
    let sum1 := add32 0 (Uint16 header 0) in
    let sum2 := add32 0 (Uint16 header 2) in
    let sum1 := add32 sum1 (Uint16 header 4) in
    let sum2 := add32 sum2 (Uint16 header 6) in
    let sum1 := add32 sum1 (Uint16 header 8) in
    let sum2 := add32 sum2 (Uint16 header 12) in
    let sum1 := add32 sum1 (Uint16 header 14) in
    let sum2 := add32 sum2 (Uint16 header 16) in
    let sum1 := add32 sum1 (Uint16 header 18) in
    let sum := add32 sum1 sum2 in
    let sum := sum_from (length header) (λ w, w) header 20 sum in
    let sum :=
      if (length header mod 2 =? 1)%nat
      then add32 sum (at_ header (length header - 1) * 256) else sum in
    not16 (carry_fold sum).

(** Sixteen bytes per round, into four accumulators. *)
Fixpoint icmp_rounds (fuel : nat) (data : list Z) (i : nat) (s1 s2 s3 s4 : Z)
    : nat * (Z * Z * Z * Z) :=
  match fuel with
  | O => (i, (s1, s2, s3, s4))
  | S fuel' =>
      if (i + 16 <=? length data)%nat then
        icmp_rounds fuel' data (i + 16)
          (add32 (add32 s1 (Uint16 data i)) (Uint16 data (i + 8)))
          (add32 (add32 s2 (Uint16 data (i + 2))) (Uint16 data (i + 10)))
          (add32 (add32 s3 (Uint16 data (i + 4))) (Uint16 data (i + 12)))
          (add32 (add32 s4 (Uint16 data (i + 6))) (Uint16 data (i + 14)))
      else (i, (s1, s2, s3, s4))
  end.

Definition icmpChecksum (data : list Z) : Z :=
  let '(i, (s1, s2, s3, s4)) := icmp_rounds (length data) data 0 0 0 0 0 in
  let sum := add32 (add32 (add32 s1 s2) s3) s4 in
  let sum := sum_from (length data) (λ w, w) data i sum in
  let sum :=
    if (length data mod 2 =? 1)%nat
    then add32 sum (at_ data (length data - 1) * 256) else sum in
  not16 (carry_fold sum).

Definition incrementalUpdate (oldChecksum : Z) (oldBytes newBytes : list Z) : Z :=
  let sum := not16 oldChecksum in
  let sum :=
    if (length oldBytes =? 4)%nat && (length newBytes =? 4)%nat then
      let sum := add32 sum (not16 (Uint16 oldBytes 0)) in
      let sum := add32 sum (not16 (Uint16 oldBytes 2)) in
      let sum := add32 sum (Uint16 newBytes 0) in
      add32 sum (Uint16 newBytes 2)
    else
      let sum := sum_from (length oldBytes) not16 oldBytes 0 sum in
      let sum :=
        if (length oldBytes mod 2 =? 1)%nat
        then add32 sum ((255 - at_ oldBytes (length oldBytes - 1)) * 256) else sum in
      let sum := sum_from (length newBytes) (λ w, w) newBytes 0 sum in
      if (length newBytes mod 2 =? 1)%nat
      then add32 sum (at_ newBytes (length newBytes - 1) * 256) else sum in
  not16 (carry_fold sum).

(** [for sum > 0xFFFF { sum = (sum & 0xFFFF) + (sum >> 16) }]: two rounds are
    enough for 32 bits. *)
Fixpoint fold_loop (fuel : nat) (sum : Z) : Z :=
  match fuel with
  | O => sum
  | S fuel' =>
      if 0xFFFF <? sum
      then fold_loop fuel' (add32 (Z.land sum 0xFFFF) (Z.shiftr sum 16)) else sum
  end.

(** The checksum [recalculateTCPChecksum] stores, for the pseudo-header sum
    and the TCP segment with its checksum field cleared. *)
Definition tcpChecksum (pseudoSum : Z) (tcpLayer : list Z) : Z :=
  let sum := sum_from (length tcpLayer) (λ w, w) tcpLayer 0 pseudoSum in
  let sum :=
    if (length tcpLayer mod 2 =? 1)%nat
    then add32 sum (at_ tcpLayer (length tcpLayer - 1) * 256) else sum in
  not16 (fold_loop 3 sum).

(** ** The reference *)

(** The 16-bit words of a buffer; an odd last byte is padded with zero. *)
Fixpoint words (l : list Z) : list Z :=
  match l with
  | [] => []
  | [a] => [a * 256]
  | a :: b :: l' => (a * 256 + b) :: words l'
  end.

Definition Zsum (l : list Z) : Z := foldr Z.add 0 l.

(** One's-complement addition: the carry out of 16 bits is added back. *)
Definition oc_add (a b : Z) : Z := if a + b <? 65536 then a + b else a + b - 65535.

(** RFC 1071: the complement of the one's-complement sum. *)
Definition rfc1071 (ws : list Z) : Z := 65535 - foldl oc_add 0 ws.

(** The value in 0..65535 a one's-complement sum of total [s] has. *)
Definition rep (s : Z) : Z := if s =? 0 then 0 else (s - 1) mod 65535 + 1.

Lemma rep_range s : 0 <= s → 0 <= rep s <= 65535.
Proof.
  intros Hs. unfold rep. destruct (Z.eqb_spec s 0); [lia|].
  pose proof (Z.mod_pos_bound (s - 1) 65535). lia.
Qed.

Lemma rep_mod s : 0 <= s → rep s mod 65535 = s mod 65535.
Proof.
  intros Hs. unfold rep. destruct (Z.eqb_spec s 0) as [->|Hne]; [done|].
  rewrite Z.add_mod_idemp_l by lia. f_equal. lia.
Qed.

Lemma rep_unique x s :
  0 <= s → 0 <= x <= 65535 → x mod 65535 = s mod 65535 → (x = 0 ↔ s = 0) → x = rep s.
Proof.
  intros Hs Hx Hm Hz. pose proof (rep_range s Hs) as Hr. pose proof (rep_mod s Hs) as Hrm.
  assert (Hrz : rep s = 0 ↔ s = 0).
  { unfold rep. destruct (Z.eqb_spec s 0); [done|].
    pose proof (Z.mod_pos_bound (s - 1) 65535). lia. }
  destruct (decide (s = 0)) as [->|Hne].
  - rewrite (proj2 Hz eq_refl). by rewrite (proj2 Hrz eq_refl).
  - assert (x ≠ 0) by tauto. assert (rep s ≠ 0) by tauto.
    rewrite <- Hrm in Hm. pose proof (Z.div_mod x 65535). pose proof (Z.div_mod (rep s) 65535).
    pose proof (Z.mod_pos_bound x 65535). pose proof (Z.mod_pos_bound (rep s) 65535). lia.
Qed.

Lemma oc_fold ws acc t :
  Forall (λ w, 0 <= w <= 65535) ws → 0 <= t → acc = rep t →
  foldl oc_add acc ws = rep (t + Zsum ws).
Proof.
  revert acc t. induction ws as [|w ws IH]; intros acc t Hws Ht ->; simpl.
  - by rewrite Z.add_0_r.
  - apply Forall_cons in Hws as [Hw Hws]. rewrite Z.add_assoc. apply IH; [done|lia|].
    pose proof (rep_range t Ht) as Hr. pose proof (rep_mod t Ht) as Hm. apply rep_unique.
    + lia.
    + unfold oc_add. destruct (Z.ltb_spec (rep t + w) 65536); lia.
    + assert ((rep t + w) mod 65535 = (t + w) mod 65535) as Hsum.
      { rewrite <- (Z.add_mod_idemp_l (rep t)), Hm, Z.add_mod_idemp_l by lia. done. }
      rewrite <- Hsum. unfold oc_add. destruct (_ <? _); [done|].
      replace (rep t + w - 65535) with (rep t + w + (-1) * 65535) by lia. apply Z.mod_add. lia.
    + assert (Hrz : rep t = 0 ↔ t = 0).
      { unfold rep. destruct (Z.eqb_spec t 0); [done|].
        pose proof (Z.mod_pos_bound (t - 1) 65535). lia. }
      unfold oc_add. destruct (Z.ltb_spec (rep t + w) 65536); lia.
Qed.

(** The reference depends on the total only. *)
Lemma rfc1071_rep ws :
  Forall (λ w, 0 <= w <= 65535) ws → rfc1071 ws = 65535 - rep (Zsum ws).
Proof. intros Hws. unfold rfc1071. by rewrite (oc_fold ws 0 0). Qed.

(** ** The routines compute the reference *)

Lemma land_ffff s : Z.land s 0xFFFF = s mod 65536.
Proof. change 0xFFFF with (Z.ones 16). by rewrite Z.land_ones by lia. Qed.

Lemma shiftr_16 s : Z.shiftr s 16 = s / 65536.
Proof. by rewrite Z.shiftr_div_pow2 by lia. Qed.

Lemma add32_small a b : 0 <= a + b < 2 ^ 32 → add32 a b = a + b.
Proof. apply uint_id. Qed.

(** One fold of a 32-bit sum keeps its class and shrinks it. *)
Lemma fold_step s :
  0 <= s < 2 ^ 32 →
  let s1 := add32 (Z.land s 0xFFFF) (Z.shiftr s 16) in
  0 <= s1 <= 131070 ∧ s1 mod 65535 = s mod 65535 ∧ (s1 = 0 ↔ s = 0) ∧ (s <= 131070 → s1 <= 65535).
Proof.
  intros Hs. rewrite land_ffff, shiftr_16.
  pose proof (Z.div_mod s 65536). pose proof (Z.mod_pos_bound s 65536).
  assert (0 <= s / 65536 <= 65535).
  { split; [apply Z.div_pos; lia|]. apply Z.lt_succ_r. apply Z.div_lt_upper_bound; lia. }
  simpl. rewrite add32_small by lia. split_and!; try lia.
  assert (E : s = s mod 65536 + s / 65536 + s / 65536 * 65535) by lia.
  rewrite E at 3. by rewrite Z.mod_add by lia.
Qed.

Lemma carry_fold_rep s : 0 <= s < 2 ^ 32 → uint 16 (carry_fold s) = rep s.
Proof.
  intros Hs. unfold carry_fold. destruct (fold_step s Hs) as (Hr & Hm & Hz & _).
  set (s1 := add32 _ _) in *. destruct (Z.ltb_spec 0xFFFF s1).
  - rewrite add32_small by lia.
    assert (uint 16 (s1 + 1) = s1 - 65535) as ->.
    { unfold uint. replace (s1 + 1) with (s1 - 65535 + 1 * 2 ^ 16) by lia.
      rewrite Z.mod_add by lia. apply Z.mod_small. lia. }
    apply rep_unique; try lia. rewrite <- Hm.
    replace (s1 - 65535) with (s1 + (-1) * 65535) by lia. by rewrite Z.mod_add by lia.
  - rewrite uint_id by (unfold in_width; lia). apply rep_unique; lia.
Qed.

Lemma fold_loop_rep s : 0 <= s < 2 ^ 32 → fold_loop 3 s = rep s.
Proof.
  assert (Hbase : ∀ s, 0 <= s <= 65535 → s = rep s) by (intros; apply rep_unique; lia).
  intros Hs. cbn [fold_loop]. destruct (Z.ltb_spec 0xFFFF s); [|apply Hbase; lia].
  destruct (fold_step s Hs) as (Hr & Hm & Hz & _). set (s1 := add32 _ _) in *.
  clearbody s1. destruct (Z.ltb_spec 0xFFFF s1); [|apply rep_unique; lia].
  destruct (fold_step s1) as (Hr2 & Hm2 & Hz2 & Hb); [lia|]. set (s2 := add32 _ _) in *.
  destruct (Z.ltb_spec 0xFFFF s2); [lia|]. apply rep_unique; lia.
Qed.

Lemma not16_range x : 0 <= not16 x <= 65535.
Proof. unfold not16. pose proof (uint_range 16 x ltac:(lia)) as H. unfold in_width in H. lia. Qed.

(** The complete pairs of a buffer, and its odd last byte. *)
Fixpoint pairs (l : list Z) : list Z :=
  match l with
  | a :: b :: l' => (a * 256 + b) :: pairs l'
  | _ => []
  end.

Definition tail_word (l : list Z) : Z :=
  if (length l mod 2 =? 1)%nat then at_ l (length l - 1) * 256 else 0.

Lemma list_ind2 (P : list Z → Prop) :
  P [] → (∀ a, P [a]) → (∀ a b l, P l → P (a :: b :: l)) → ∀ l, P l.
Proof.
  intros H0 H1 H2 l. enough (P l ∧ ∀ a, P (a :: l)) by tauto.
  induction l as [|b l [IH1 IH2]]; [auto|]. split; [apply IH2 | intros a; by apply H2].
Qed.

Lemma tail_word_cons2 a b l : tail_word (a :: b :: l) = tail_word l.
Proof.
  unfold tail_word. simpl length.
  assert (E : (S (S (length l)) mod 2 = length l mod 2)%nat).
  { replace (S (S (length l))) with (length l + 1 * 2)%nat by lia. by rewrite Nat.Div0.mod_add. }
  rewrite E. destruct (length l mod 2 =? 1)%nat eqn:Ho; [|done]. f_equal. unfold at_.
  destruct l as [|c l]; [done|]. simpl. by rewrite Nat.sub_0_r.
Qed.

Lemma words_split l : Zsum (words l) = Zsum (pairs l) + tail_word l.
Proof.
  induction l as [|a|a b l IH] using list_ind2; [done| |].
  - unfold tail_word, at_. simpl. lia.
  - rewrite tail_word_cons2. cbn [words pairs Zsum foldr]. fold (Zsum (words l)) (Zsum (pairs l)). lia.
Qed.

Lemma words_range l : bytes l → Forall (λ w, 0 <= w <= 65535) (words l).
Proof.
  induction l as [|a|a b l IH] using list_ind2; intros Hb.
  - constructor.
  - apply Forall_cons in Hb as [Ha _]. unfold byte in Ha. constructor; [lia|constructor].
  - apply Forall_cons in Hb as [Ha Hb]. apply Forall_cons in Hb as [Hb Hl]. unfold byte in *.
    constructor; [lia|]. by apply IH.
Qed.

Lemma Zsum_bound ws : Forall (λ w, 0 <= w <= 65535) ws → 0 <= Zsum ws <= 65535 * Z.of_nat (length ws).
Proof.
  induction 1 as [|w ws Hw Hws IH]; simpl; [lia|]. unfold Zsum in *. lia.
Qed.

Lemma length_words l : (2 * length (words l) <= S (length l))%nat.
Proof. induction l as [|a|a b l IH] using list_ind2; cbn [words length]; lia. Qed.

(** No packet overflows the 32-bit accumulators. *)
Lemma words_fit l : bytes l → Z.of_nat (length l) <= 131070 → 0 <= Zsum (words l) < 2 ^ 32.
Proof.
  intros Hb Hl. pose proof (Zsum_bound _ (words_range l Hb)). pose proof (length_words l). lia.
Qed.

Lemma Uint16_drop l i k : Uint16 l (i + k) = Uint16 (drop i l) k.
Proof. unfold Uint16, at_. rewrite !lookup_drop. by rewrite Nat.add_succ_r. Qed.

Lemma add32_congr a b c : uint 32 a = uint 32 b → uint 32 (a + c) = uint 32 (b + c).
Proof. unfold uint. intros E. by rewrite <- Z.add_mod_idemp_l, E, Z.add_mod_idemp_l by lia. Qed.

Lemma sum_from_spec fuel f data i sum :
  (length data <= fuel + i)%nat → in_width 32 sum →
  sum_from fuel f data i sum = uint 32 (sum + Zsum (f <$> pairs (drop i data))).
Proof.
  revert i sum. induction fuel as [|fuel IH]; intros i sum Hf Hs; cbn [sum_from].
  - rewrite drop_ge by lia. simpl. by rewrite Z.add_0_r, uint_id.
  - destruct (Nat.ltb_spec (S i) (length data)) as [Hlt|Hge].
    + rewrite IH; [|lia|apply uint_range; lia].
      assert (Uint16 data i = Uint16 (drop i data) 0) as ->
        by (by rewrite <- Uint16_drop, Nat.add_0_r).
      destruct (drop i data) as [|a [|b l]] eqn:E;
        [apply (f_equal length) in E; rewrite length_drop in E; simpl in E; lia..|].
      assert (drop (S (S i)) data = l) as ->.
      { replace (S (S i)) with (i + 2)%nat by lia. by rewrite <- drop_drop, E. }
      cbn [pairs]. rewrite fmap_cons. cbn [Zsum foldr].
      fold (Zsum (f <$> pairs l)). unfold add32.
      rewrite (Z.add_assoc sum). apply add32_congr. apply uint_idemp. lia.
    + assert (pairs (drop i data) = []) as ->.
      { destruct (drop i data) as [|a [|b l]] eqn:E; try done.
        apply (f_equal length) in E. rewrite length_drop in E. simpl in E. lia. }
      simpl. by rewrite Z.add_0_r, uint_id.
Qed.

(** The tail of every routine: add an odd last byte, fold, complement. *)
Lemma finish_rep data sum s :
  in_width 32 sum → sum = uint 32 s → 0 <= s + tail_word data < 2 ^ 32 →
  (if (length data mod 2 =? 1)%nat
   then add32 sum (at_ data (length data - 1) * 256) else sum) = s + tail_word data.
Proof.
  intros Hs -> Hr. unfold tail_word in *. destruct (length data mod 2 =? 1)%nat.
  - unfold add32. rewrite (add32_congr _ s); [by apply uint_id|]. apply uint_idemp. lia.
  - rewrite Z.add_0_r in *. by apply uint_id.
Qed.

Lemma Zsum_app a b : Zsum (a ++ b) = Zsum a + Zsum b.
Proof. induction a as [|x a IH]; simpl; [done|]. unfold Zsum in *. simpl. lia. Qed.

(** A round of sixteen bytes takes the next eight words. *)
Lemma pairs_round data i :
  (i + 16 <= length data)%nat →
  Zsum (pairs (drop i data)) =
  Uint16 data i + Uint16 data (i + 2) + Uint16 data (i + 4) + Uint16 data (i + 6) +
  Uint16 data (i + 8) + Uint16 data (i + 10) + Uint16 data (i + 12) + Uint16 data (i + 14) +
  Zsum (pairs (drop (i + 16) data)).
Proof.
  intros Hl. rewrite <- drop_drop.
  assert (Uint16 data i = Uint16 (drop i data) 0) as -> by (by rewrite <- Uint16_drop, Nat.add_0_r).
  rewrite !Uint16_drop. assert (Hd : (16 <= length (drop i data))%nat) by (rewrite length_drop; lia).
  revert Hd. generalize (drop i data) as l. intros l Hd.
  do 16 (destruct l as [|? l]; [simpl in Hd; lia|]).
  unfold Uint16, at_. cbn -[Z.mul Z.add]. rewrite drop_0. fold (Zsum (pairs l)). lia.
Qed.

Lemma add32_ex a b : ∃ k, add32 a b = a + b + k * 2 ^ 32.
Proof.
  exists (- ((a + b) / 2 ^ 32)). unfold add32, uint. pose proof (Z.div_mod (a + b) (2 ^ 32)). lia.
Qed.

Lemma uint_shift a b k : a = b + k * 2 ^ 32 → uint 32 a = uint 32 b.
Proof. intros ->. unfold uint. apply Z.mod_add. lia. Qed.

Lemma icmp_rounds_spec fuel data i s1 s2 s3 s4 i' t1 t2 t3 t4 :
  icmp_rounds fuel data i s1 s2 s3 s4 = (i', (t1, t2, t3, t4)) →
  uint 32 (t1 + t2 + t3 + t4 + Zsum (pairs (drop i' data))) =
  uint 32 (s1 + s2 + s3 + s4 + Zsum (pairs (drop i data))).
Proof.
  revert i s1 s2 s3 s4. induction fuel as [|fuel IH]; intros i s1 s2 s3 s4; cbn [icmp_rounds].
  { by intros [= -> -> -> -> ->]. }
  destruct (Nat.leb_spec (i + 16) (length data)) as [Hle|Hgt]; [|by intros [= -> -> -> -> ->]].
  intros ->%IH. rewrite (pairs_round data i Hle).
  repeat match goal with |- context [add32 (add32 ?s ?a) ?b] =>
    let k1 := fresh "k" in let k2 := fresh "k" in
    destruct (add32_ex s a) as [k1 ->]; destruct (add32_ex (s + a + k1 * 2 ^ 32) b) as [k2 ->] end.
  apply (uint_shift _ _ (k + k0 + (k1 + k2) + (k3 + k4) + (k5 + k6))). lia.
Qed.

Lemma icmp_rounds_even fuel data i s1 s2 s3 s4 i' r :
  icmp_rounds fuel data i s1 s2 s3 s4 = (i', r) → (i <= i')%nat.
Proof.
  revert i s1 s2 s3 s4. induction fuel as [|fuel IH]; intros i s1 s2 s3 s4; cbn [icmp_rounds].
  - by intros [= -> _].
  - case_match; [intros ?%IH; lia | by intros [= -> _]].
Qed.

(** The fuel of the loops is the length of the buffer, which is enough. *)
Lemma icmpChecksum_rep data :
  bytes data → Z.of_nat (length data) <= 131070 →
  icmpChecksum data = 65535 - rep (Zsum (words data)).
Proof.
  intros Hb Hl. unfold icmpChecksum.
  destruct (icmp_rounds _ _ _ _ _ _ _) as [i [[[t1 t2] t3] t4]] eqn:E.
  pose proof (icmp_rounds_spec _ _ _ _ _ _ _ _ _ _ _ _ E) as Hsum. rewrite drop_0 in Hsum.
  change (0 + 0 + 0 + 0 + Zsum (pairs data)) with (Zsum (pairs data)) in Hsum.
  pose proof (words_fit data Hb Hl) as Hfit. rewrite words_split in Hfit |- *.
  assert (Hs : sum_from (length data) (λ w, w) data i (add32 (add32 (add32 t1 t2) t3) t4) =
               uint 32 (Zsum (pairs data))).
  { rewrite sum_from_spec; [|lia | by apply uint_range]. rewrite list_fmap_id.
    rewrite <- Hsum. destruct (add32_ex t1 t2) as [k1 ->].
    destruct (add32_ex (t1 + t2 + k1 * 2 ^ 32) t3) as [k2 ->].
    destruct (add32_ex (t1 + t2 + k1 * 2 ^ 32 + t3 + k2 * 2 ^ 32) t4) as [k3 ->].
    apply (uint_shift _ _ (k1 + k2 + k3)). lia. }
  rewrite Hs. rewrite (finish_rep data _ (Zsum (pairs data)));
    [|apply uint_range; lia | done | done].
  unfold not16. by rewrite carry_fold_rep.
Qed.

Lemma tcpChecksum_rep pseudo seg :
  bytes seg → 0 <= pseudo < 2 ^ 31 → Z.of_nat (length seg) <= 65535 →
  tcpChecksum pseudo seg = 65535 - rep (pseudo + Zsum (words seg)).
Proof.
  intros Hb Hp Hl. unfold tcpChecksum.
  pose proof (Zsum_bound _ (words_range seg Hb)) as Hz. pose proof (length_words seg).
  rewrite words_split in Hz |- *. rewrite Z.add_assoc.
  rewrite (finish_rep seg _ (pseudo + Zsum (pairs seg))).
  - unfold not16. rewrite fold_loop_rep by lia.
    pose proof (rep_range (pseudo + Zsum (pairs seg) + tail_word seg)).
    rewrite uint_id by (unfold in_width; lia). done.
  - rewrite sum_from_spec by (unfold in_width; lia). apply uint_range. lia.
  - rewrite sum_from_spec by (unfold in_width; lia). by rewrite list_fmap_id.
  - lia.
Qed.

Lemma at_range l i : bytes l → 0 <= at_ l i <= 255.
Proof.
  intros Hb. unfold at_. destruct (l !! i) as [b|] eqn:E; simpl; [|lia].
  eapply Forall_lookup_1 in Hb; [|exact E]. unfold byte in Hb. lia.
Qed.

Lemma Uint16_range l i : bytes l → 0 <= Uint16 l i <= 65535.
Proof. intros Hb. unfold Uint16. pose proof (at_range l i Hb). pose proof (at_range l (S i) Hb). lia. Qed.

(** [binary.BigEndian.PutUint16(l[i:i+2], v)]. *)
Definition PutUint16 (l : list Z) (i : nat) (v : Z) : list Z :=
  <[S i := v mod 256]> (<[i := v / 256]> l).

Lemma PutUint16_bytes l i v : bytes l → 0 <= v <= 65535 → bytes (PutUint16 l i v).
Proof.
  intros Hb Hv. unfold PutUint16. repeat apply Forall_insert; try done; unfold byte.
  - split; [apply Z.div_pos; lia|]. apply Z.div_lt_upper_bound; lia.
  - apply Z.mod_pos_bound. lia.
Qed.

Lemma length_PutUint16 l i v : length (PutUint16 l i v) = length l.
Proof. unfold PutUint16. by rewrite !length_insert. Qed.

(** Storing a value at an even offset replaces one word of the sum. *)
Lemma words_put l i v :
  (i + i + 1 < length l)%nat →
  Zsum (words (PutUint16 l (i + i) v)) = Zsum (words l) - Uint16 l (i + i) + v.
Proof.
  revert l. induction i as [|i IH]; intros l Hl.
  - destruct l as [|a [|b l]]; simpl in Hl; [lia..|]. unfold PutUint16, Uint16, at_. simpl.
    fold (Zsum (words l)). pose proof (Z.div_mod v 256). lia.
  - destruct l as [|a [|b l]]; simpl in Hl; [lia..|].
    replace (S i + S i)%nat with (S (S (i + i))) by lia.
    change (PutUint16 (a :: b :: l) (S (S (i + i))) v) with (a :: b :: PutUint16 l (i + i) v).
    change (Uint16 (a :: b :: l) (S (S (i + i)))) with (Uint16 l (i + i)).
    cbn [words Zsum foldr]. fold (Zsum (words l)) (Zsum (words (PutUint16 l (i + i) v))).
    rewrite IH by lia. lia.
Qed.

Lemma ipv4Checksum_rep h :
  bytes h → (20 <= length h)%nat → Z.of_nat (length h) <= 65535 →
  ipv4Checksum h = 65535 - rep (Zsum (words (PutUint16 h 10 0))).
Proof.
  intros Hb Hl Hu. pose proof (words_put h 5 0 ltac:(lia)) as Hput.
  change (5 + 5)%nat with 10%nat in Hput. 
  pose proof (words_fit (PutUint16 h 10 0) (PutUint16_bytes h 10 0 Hb ltac:(lia))) as Hfit.
  rewrite length_PutUint16 in Hfit. specialize (Hfit ltac:(lia)). rewrite Hput in *. clear Hput.
  unfold ipv4Checksum. rewrite (proj2 (Nat.ltb_ge _ _) Hl).
  pose proof (Uint16_range h 0 Hb); pose proof (Uint16_range h 2 Hb); pose proof (Uint16_range h 4 Hb);
    pose proof (Uint16_range h 6 Hb); pose proof (Uint16_range h 8 Hb); pose proof (Uint16_range h 10 Hb);
    pose proof (Uint16_range h 12 Hb); pose proof (Uint16_range h 14 Hb);
    pose proof (Uint16_range h 16 Hb); pose proof (Uint16_range h 18 Hb).
  repeat match goal with |- context [add32 ?a ?b] =>
    lazymatch a with context [add32] => fail | context [sum_from] => fail | _ =>
    lazymatch b with context [add32] => fail | _ => rewrite (add32_small a b) by lia end end end.
  assert (Hw : Zsum (words h) = Uint16 h 0 + Uint16 h 2 + Uint16 h 4 + Uint16 h 6 + Uint16 h 8 +
    Uint16 h 10 + Uint16 h 12 + Uint16 h 14 + Uint16 h 16 + Uint16 h 18 +
    Zsum (pairs (drop 20 h)) + tail_word h).
  { rewrite words_split. revert Hl. clear. intros Hl.
    do 20 (destruct h as [|? h]; [simpl in Hl; lia|]).
    unfold Uint16, at_. cbn -[Z.mul Z.add tail_word]. rewrite drop_0. fold (Zsum (pairs h)). lia. }
  set (first := 0 + Uint16 h 0 + _ + _ + _ + _ + _) in *.
  rewrite (finish_rep h _ (first + Zsum (pairs (drop 20 h)))).
  - unfold not16. rewrite carry_fold_rep by (subst first; lia). f_equal. f_equal. subst first. lia.
  - rewrite sum_from_spec; [apply uint_range; lia | lia | unfold in_width; subst first; lia].
  - rewrite sum_from_spec; [by rewrite list_fmap_id | lia | unfold in_width; subst first; lia].
  - subst first. lia.
Qed.

Lemma rep_ex s : 0 <= s → ∃ q, rep s = s + q * 65535.
Proof.
  intros Hs. unfold rep. destruct (Z.eqb_spec s 0) as [->|Hne]; [by exists 0|].
  exists (- ((s - 1) / 65535)). pose proof (Z.div_mod (s - 1) 65535). lia.
Qed.

Lemma Zsum_not16 ws :
  Forall (λ w, 0 <= w <= 65535) ws →
  Zsum (not16 <$> ws) = 65535 * Z.of_nat (length ws) - Zsum ws.
Proof.
  induction 1 as [|w ws Hw Hws IH]; [done|]. rewrite fmap_cons. cbn [Zsum foldr length].
  fold (Zsum (not16 <$> ws)) (Zsum ws). rewrite IH.
  assert (not16 w = 65535 - w) as -> by (unfold not16; rewrite uint_id; unfold in_width; lia). lia.
Qed.

Lemma even_words l : (length l mod 2 = 0)%nat → words l = pairs l ∧ tail_word l = 0.
Proof.
  intros He. unfold tail_word. rewrite He. simpl. split; [|done]. revert He.
  induction l as [|a|a b l IH] using list_ind2; intros He; [done|done|].
  cbn [words pairs]. f_equal. apply IH. simpl length in He.
  replace (S (S (length l))) with (length l + 1 * 2)%nat in He by lia.
  by rewrite Nat.Div0.mod_add in He.
Qed.

Lemma incrementalUpdate_rep c old new :
  bytes old → bytes new → 0 <= c <= 65535 →
  (length old mod 2 = 0)%nat → (length new mod 2 = 0)%nat →
  Z.of_nat (length old) <= 1000 → Z.of_nat (length new) <= 1000 →
  incrementalUpdate c old new =
  65535 - rep (65535 - c + Zsum (not16 <$> words old) + Zsum (words new)).
Proof.
  intros Ho Hn Hc Heo Hen Hlo Hln. unfold incrementalUpdate.
  assert (not16 c = 65535 - c) as -> by (unfold not16; rewrite uint_id; unfold in_width; lia).
  pose proof (words_range old Ho) as Hwo. pose proof (words_range new Hn) as Hwn.
  pose proof (Zsum_bound _ Hwo). pose proof (Zsum_bound _ Hwn). pose proof (Zsum_not16 _ Hwo).
  pose proof (length_words old). pose proof (length_words new).
  assert (Hfit : 0 <= 65535 - c + Zsum (not16 <$> words old) + Zsum (words new) < 2 ^ 32) by lia.
  destruct (even_words old Heo) as [Hpo _]. destruct (even_words new Hen) as [Hpn _].
  unfold not16 at 1. f_equal. rewrite <- carry_fold_rep by done. f_equal. f_equal.
  destruct ((length old =? 4)%nat && (length new =? 4)%nat) eqn:E4.
  - bools. rewrite !Nat.eqb_eq in E4. destruct E4 as [E1 E2].
    destruct old as [|o1 [|o2 [|o3 [|o4 [|? old]]]]]; try done.
    destruct new as [|n1 [|n2 [|n3 [|n4 [|? new]]]]]; try done.
    change (Uint16 [o1; o2; o3; o4] 0) with (o1 * 256 + o2).
    change (Uint16 [o1; o2; o3; o4] 2) with (o3 * 256 + o4).
    change (Uint16 [n1; n2; n3; n4] 0) with (n1 * 256 + n2).
    change (Uint16 [n1; n2; n3; n4] 2) with (n3 * 256 + n4).
    pose proof (not16_range (o1 * 256 + o2)). pose proof (not16_range (o3 * 256 + o4)).
    cbn [words fmap list_fmap Zsum foldr] in *. apply Forall_cons in Hwn as [? Hwn].
    apply Forall_cons in Hwn as [? _].
    repeat match goal with |- context [add32 ?a ?b] =>
      lazymatch a with context [add32] => fail | _ => rewrite (add32_small a b) by lia end end. lia.
  - rewrite Heo, Hen. simpl.
    rewrite (sum_from_spec (length new)); [|lia|];
      (rewrite (sum_from_spec (length old)); [|lia|unfold in_width; lia]); [|apply uint_range; lia].
    rewrite !drop_0, list_fmap_id, <- Hpo, <- Hpn.
    unfold uint. rewrite Z.add_mod_idemp_l by lia. apply Z.mod_small. lia.
Qed.

Lemma incrementalUpdate_total rest c old new :
  bytes old → bytes new → 0 <= c <= 65535 →
  (length old mod 2 = 0)%nat → (length new mod 2 = 0)%nat →
  Z.of_nat (length old) <= 1000 → Z.of_nat (length new) <= 1000 →
  (rest + c + Zsum (words old)) mod 65535 = 0 →
  let c' := incrementalUpdate c old new in
  0 <= c' <= 65535 ∧ (rest + c' + Zsum (words new)) mod 65535 = 0.
Proof.
  intros Ho Hn Hc Heo Hen Hlo Hln Hval. cbn zeta. rewrite incrementalUpdate_rep by done.
  pose proof (words_range old Ho) as Hwo. pose proof (Zsum_bound _ (words_range new Hn)).
  pose proof (Zsum_bound _ Hwo). pose proof (Zsum_not16 _ Hwo) as Hn16. pose proof (length_words old).
  set (T := 65535 - c + Zsum (not16 <$> words old) + Zsum (words new)) in *.
  destruct (rep_ex T) as [q Hq]; [lia|]. pose proof (rep_range T). split; [lia|]. rewrite Hq.
  rewrite <- Hval. set (k := Z.of_nat (length (words old))) in *.
  replace (rest + (65535 - (T + q * 65535)) + Zsum (words new))
    with (rest + c + Zsum (words old) + (- k - q) * 65535) by lia.
  apply Z.mod_add. lia.
Qed.

Lemma ipv4Checksum_stored h :
  bytes h → (20 <= length h)%nat → Z.of_nat (length h) <= 60 →
  rfc1071 (words (PutUint16 h 10 (ipv4Checksum h))) = 0.
Proof.
  intros Hb Hl Hu. pose proof (PutUint16_bytes h 10 0 Hb ltac:(lia)) as Hb0.
  pose proof (ipv4Checksum_rep h Hb Hl ltac:(lia)) as Hc.
  pose proof (words_fit _ Hb0) as Hfit. rewrite length_PutUint16 in Hfit.
  specialize (Hfit ltac:(lia)). pose proof (rep_range _ (proj1 Hfit)) as Hr.
  set (c := ipv4Checksum h) in *. assert (0 <= c <= 65535) by lia.
  rewrite rfc1071_rep by (apply words_range, PutUint16_bytes; [done|lia]).
  pose proof (words_put h 5 0 ltac:(lia)) as H0. pose proof (words_put h 5 c ltac:(lia)) as H1.
  change (5 + 5)%nat with 10%nat in *. rewrite H1.
  replace (Zsum (words h) - Uint16 h 10 + c) with (Zsum (words (PutUint16 h 10 0)) + c) by lia.
  set (S := Zsum (words (PutUint16 h 10 0))) in *. destruct (rep_ex S) as [q Hq]; [lia|].
  rewrite <- (rep_unique 65535 (S + c)); [lia | lia | lia | | ].
  - rewrite Hc, Hq. replace (S + (65535 - (S + q * 65535))) with (0 + (1 - q) * 65535) by lia.
    by rewrite Z.mod_add.
  - split; [lia|]. intros Hz. assert (S = 0) as HS by lia. rewrite HS in Hc. simpl in Hc.
    change (rep 0) with 0 in Hc. lia.
Qed.

(** ** What the routines guarantee *)

(** [icmpChecksum], four interleaved accumulators and a single carry
    fold, computes the RFC 1071 checksum of every message that fits an IP
    packet, odd lengths included. *)
Theorem icmpChecksum_rfc1071 data :
  bytes data → Z.of_nat (length data) <= 131070 → icmpChecksum data = rfc1071 (words data).
Proof. intros Hb Hl. rewrite rfc1071_rep by (by apply words_range). by apply icmpChecksum_rep. Qed.

(** [ipv4Checksum] skips the checksum field and returns the RFC 1071
    checksum of the rest, so a header that stores it verifies: the checksum
    over the whole stored header is zero. *)
Theorem ipv4Checksum_verifies h :
  bytes h → (20 <= length h)%nat → Z.of_nat (length h) <= 60 →
  ipv4Checksum h = rfc1071 (words (PutUint16 h 10 0)) ∧
  rfc1071 (words (PutUint16 h 10 (ipv4Checksum h))) = 0.
Proof.
  intros Hb Hl Hu. split; [|by apply ipv4Checksum_stored].
  rewrite rfc1071_rep by (apply words_range, PutUint16_bytes; [done|lia]).
  apply ipv4Checksum_rep; [done..|lia].
Qed.

(** RFC 1624: when a packet's one's-complement total is valid before an
    address or port is replaced, it is valid after [incrementalUpdate] has
    replaced the checksum, whatever the rest of the packet holds. *)
Theorem incrementalUpdate_valid rest c old new :
  bytes old → bytes new → 0 <= c <= 65535 →
  (length old mod 2 = 0)%nat → (length new mod 2 = 0)%nat →
  Z.of_nat (length old) <= 1000 → Z.of_nat (length new) <= 1000 →
  (rest + c + Zsum (words old)) mod 65535 = 0 →
  let c' := incrementalUpdate c old new in
  0 <= c' <= 65535 ∧ (rest + c' + Zsum (words new)) mod 65535 = 0.
Proof. apply incrementalUpdate_total. Qed.

(** The full recomputation used for MSS clamping stores the RFC 1071
    checksum of pseudo-header and segment: the loop of folds ends, and within
    32 bits nothing overflows. *)
Theorem tcpChecksum_rfc1071 pseudo seg :
  bytes seg → Forall (λ w, 0 <= w <= 65535) pseudo → (length pseudo <= 40)%nat →
  Z.of_nat (length seg) <= 65535 →
  tcpChecksum (Zsum pseudo) seg = rfc1071 (pseudo ++ words seg).
Proof.
  intros Hb Hp Hlp Hl. pose proof (Zsum_bound _ Hp).
  rewrite rfc1071_rep by (apply Forall_app; split; [done | by apply words_range]).
  rewrite tcpChecksum_rep by (done || lia). by rewrite Zsum_app.
Qed.

(** A nonzero UDP checksum can be updated to zero, which in UDP means
    that no checksum was computed; RFC 768 transmits 0xFFFF instead.  Here the
    port 53 of a datagram with checksum 5300 is rewritten to 5353. *)
Theorem incrementalUpdate_udp_zero :
  incrementalUpdate 5300 [0; 53] [20; 233] = 0 ∧
  ((65535 + Zsum (words [20; 233])) mod 65535 = (5300 + Zsum (words [0; 53])) mod 65535).
Proof. split; vm_compute; reflexivity. Qed.

(** With operands of odd length the update is off: replacing a byte by
    itself changes the checksum, because the pad byte is complemented to
    zero rather than to 0xFF. *)
Theorem incrementalUpdate_odd_off :
  incrementalUpdate 0x1234 [7] [7] ≠ 0x1234.
Proof. vm_compute. discriminate. Qed.

(** ** Witnesses *)

Lemma icmpChecksum_rfc1071_witness :
  icmpChecksum [8; 0; 0; 0; 0; 7; 0; 1; 97] = rfc1071 (words [8; 0; 0; 0; 0; 7; 0; 1; 97]).
Proof.
  apply icmpChecksum_rfc1071; [|simpl; lia]. repeat constructor; unfold byte; lia.
Defined.

Definition w_header : list Z :=
  [69; 0; 0; 60; 28; 70; 64; 0; 64; 6; 1; 2; 172; 16; 10; 99; 172; 16; 10; 12].

Lemma w_header_bytes : bytes w_header.
Proof. repeat constructor; unfold byte; lia. Qed.

Lemma ipv4Checksum_verifies_witness :
  ipv4Checksum w_header = rfc1071 (words (PutUint16 w_header 10 0)) ∧
  rfc1071 (words (PutUint16 w_header 10 (ipv4Checksum w_header))) = 0.
Proof. apply ipv4Checksum_verifies; [exact w_header_bytes | simpl; lia | simpl; lia]. Defined.

Lemma incrementalUpdate_valid_witness :
  let c' := incrementalUpdate 5300 [0; 53] [20; 233] in
  0 <= c' <= 65535 ∧ (60182 + c' + Zsum (words [20; 233])) mod 65535 = 0.
Proof.
  apply (incrementalUpdate_valid 60182 5300 [0; 53] [20; 233]);
    try reflexivity; try (simpl; lia); repeat constructor; unfold byte; lia.
Defined.

Lemma tcpChecksum_rfc1071_witness :
  tcpChecksum (Zsum [44048; 2659; 44048; 2572; 6; 4]) [0; 80; 0; 81] =
  rfc1071 ([44048; 2659; 44048; 2572; 6; 4] ++ words [0; 80; 0; 81]).
Proof.
  apply tcpChecksum_rfc1071; try (simpl; lia); repeat constructor; unfold byte; lia.
Defined.
