(* ===== verification/DNAT.v ===== *)
(** * Address and port translation

    [client/firewall/uspfilter/nat.go] and [localip.go]: the local address
    snapshot, the 1:1 address mappings, the port redirections and the packet
    rewriting with its checksum updates.  A rewrite returns the new packet, an
    error, or panics when it slices outside the packet. *)
From S2P Require Import Prelude NetIP Bytes Order FwTypes Checksum.
Open Scope Z_scope.

Inductive Res (A : Type) := Ok (a : A) | Err | Panic.
Arguments Ok {_} _.
Arguments Err {_}.
Arguments Panic {_}.

Definition res_bind {A B} (r : Res A) (k : A → Res B) : Res B :=
  match r with Ok a => k a | Err => Err | Panic => Panic end.

Notation "'let!' x := r 'in' k" := (res_bind r (λ x, k))
  (at level 200, x name, r at level 100, k at level 200) : go_scope.

(** ** Local addresses *)

Definition IPv6Loopback : Addr := AddrV6 1 "".

(** [processInterface]: [None] where the address list could not be read or an
    entry is not an IP address. *)
Definition processInterface (ips : gset Addr) (addrs : option (list (option Addr))) : gset Addr :=
  match addrs with
  | None => ips
  | Some l =>
      foldl (λ ips a, match a with Some a => {[Unmap a]} ∪ ips | None => ips end) ips l
  end.

(** The interface's two addresses (the second may be invalid) and what
    [net.Interfaces] returned. *)
Definition UpdateLocalIPs (iface : option (Addr * Addr))
    (interfaces : option (list (option (list (option Addr))))) : gset Addr :=
  let ips : gset Addr := {[AddrV4 2130706433; IPv6Loopback]} in
  let ips :=
    match iface with
    | None => ips
    | Some (ip, v6) =>
        let ips := {[ip]} ∪ ips in if IsValid v6 then {[v6]} ∪ ips else ips
    end in
  match interfaces with
  | None => ips
  | Some l => foldl processInterface ips l
  end.

Definition IsLocalIP (ips : gset Addr) (ip : Addr) : bool :=
  if Is4 ip && (octet (addr_val ip) 3 =? 127) then true
  else bool_decide (ip ∈ ips).

(** ** 1:1 mappings *)

Record biDNATMap := { forward : gmap Addr Addr; reverse_ : gmap Addr Addr }.

Definition newBiDNATMap : biDNATMap := {| forward := ∅; reverse_ := ∅ |}.

Definition bi_set (b : biDNATMap) (original translated : Addr) : biDNATMap :=
  {| forward := <[original := translated]> (forward b);
     reverse_ := <[translated := original]> (reverse_ b) |}.

Definition bi_delete (b : biDNATMap) (original : Addr) : biDNATMap :=
  match forward b !! original with
  | Some translated =>
      {| forward := delete original (forward b); reverse_ := delete translated (reverse_ b) |}
  | None => b
  end.

Definition getTranslated (b : biDNATMap) (original : Addr) : option Addr := forward b !! original.
Definition getOriginal (b : biDNATMap) (translated : Addr) : option Addr := reverse_ b !! translated.

Record portDNATRule := {
  pd_protocol : LayerType; pd_origPort : Z; pd_targetPort : Z; pd_targetIP : Addr }.

(** The DNAT fields of [Manager]; [dnat_bimap] is nil until the first
    mapping is added. *)
Record DNATState := {
  dnatEnabled : bool;
  dnatMappings : gmap Addr Addr;
  dnatBiMap : option biDNATMap;
  portDNATEnabled : bool;
  portDNATRules : list portDNATRule;
}.

Definition NewDNATState : DNATState :=
  {| dnatEnabled := false; dnatMappings := ∅; dnatBiMap := None;
     portDNATEnabled := false; portDNATRules := [] |}.

Definition set_mappings (enabled : bool) (m : gmap Addr Addr) (b : option biDNATMap) (s : DNATState)
    : DNATState :=
  {| dnatEnabled := enabled; dnatMappings := m; dnatBiMap := b;
     portDNATEnabled := portDNATEnabled s; portDNATRules := portDNATRules s |}.

Definition AddInternalDNATMapping (ips : gset Addr) (s : DNATState) (original translated : Addr)
    : Res DNATState :=
  if negb (IsValid original) then Err
  else if negb (IsValid translated) then Err
  else if IsLocalIP ips translated then Err
  else
    let '(m, b) :=
      match dnatBiMap s with
      | Some b => (dnatMappings s, b)
      | None => (∅, newBiDNATMap)
      end in
    let m := <[original := translated]> m in
    Ok (set_mappings (if (size m =? 1)%nat then true else dnatEnabled s) m
          (Some (bi_set b original translated)) s).

Definition RemoveInternalDNATMapping (s : DNATState) (original : Addr) : Res DNATState :=
  match dnatMappings s !! original with
  | None => Err
  | Some _ =>
      match dnatBiMap s with
      | None => Panic
      | Some b =>
          let m := delete original (dnatMappings s) in
          Ok (set_mappings (if (size m =? 0)%nat then false else dnatEnabled s) m
                (Some (bi_delete b original)) s)
      end
  end.

(** [None] when there is no translation. *)
Definition getDNATTranslation (s : DNATState) (addr : Addr) : Res (option Addr) :=
  if negb (dnatEnabled s) then Ok None
  else match dnatBiMap s with Some b => Ok (getTranslated b addr) | None => Panic end.

Definition findReverseDNATMapping (s : DNATState) (addr : Addr) : Res (option Addr) :=
  if negb (dnatEnabled s) then Ok None
  else match dnatBiMap s with Some b => Ok (getOriginal b addr) | None => Panic end.

(** ** Port redirections *)

Definition set_port_rules (enabled : bool) (rules : list portDNATRule) (s : DNATState) : DNATState :=
  {| dnatEnabled := dnatEnabled s; dnatMappings := dnatMappings s; dnatBiMap := dnatBiMap s;
     portDNATEnabled := enabled; portDNATRules := rules |}.

Definition addPortRedirection (s : DNATState) (targetIP : Addr) (protocol : LayerType)
    (originalPort translatedPort : Z) : DNATState :=
  set_port_rules true
    (portDNATRules s ++ [{| pd_protocol := protocol; pd_origPort := originalPort;
                            pd_targetPort := translatedPort; pd_targetIP := targetIP |}]) s.

Definition removePortRedirection (s : DNATState) (targetIP : Addr) (protocol : LayerType)
    (originalPort translatedPort : Z) : DNATState :=
  let rules :=
    filter (λ r, bool_decide (pd_protocol r = protocol) && (pd_origPort r =? originalPort) &&
                 (pd_targetPort r =? translatedPort) &&
                 bool_decide (addr_Compare (pd_targetIP r) targetIP = Eq) = false)
      (portDNATRules s) in
  set_port_rules (if (length rules =? 0)%nat then false else portDNATEnabled s) rules s.

Definition inboundLayer (protocol : Protocol) : option LayerType :=
  if String.eqb protocol ProtocolTCP then Some LayerTypeTCP
  else if String.eqb protocol ProtocolUDP then Some LayerTypeUDP
  else None.

Definition AddInboundDNAT (s : DNATState) (localAddr : Addr) (protocol : Protocol)
    (originalPort translatedPort : Z) : Res DNATState :=
  match inboundLayer protocol with
  | Some l => Ok (addPortRedirection s localAddr l originalPort translatedPort)
  | None => Err
  end.

Definition RemoveInboundDNAT (s : DNATState) (localAddr : Addr) (protocol : Protocol)
    (originalPort translatedPort : Z) : Res DNATState :=
  match inboundLayer protocol with
  | Some l => Ok (removePortRedirection s localAddr l originalPort translatedPort)
  | None => Err
  end.

(** ** Bytes and addresses *)

Definition ipv4SrcOffset : nat := 12.
Definition ipv4DstOffset : nat := 16.
Definition ipv6SrcOffset : nat := 8.
Definition ipv6DstOffset : nat := 24.
Definition ipv6HeaderLen : nat := 40.

Definition ipHeaderLen (d : decoder) : Res nat :=
  match decoded d !! 0%nat with
  | Some LayerTypeIPv4 =>
      let n := ip4_IHL (d_ip4 d) * 4 in if n <? 20 then Err else Ok (Z.to_nat n)
  | Some LayerTypeIPv6 => Ok ipv6HeaderLen
  | Some _ => Err
  | None => Panic
  end.

Definition extractPacketIPs (p : list Z) (d : decoder) : Res (Addr * Addr) :=
  match decoded d !! 0%nat with
  | Some LayerTypeIPv4 =>
      if (length p <? ipv4DstOffset + 4)%nat then Panic
      else Ok (AddrFrom4 (slice p ipv4SrcOffset 4), AddrFrom4 (slice p ipv4DstOffset 4))
  | Some LayerTypeIPv6 =>
      if (length p <? ipv6DstOffset + 16)%nat then Panic
      else Ok (AddrFrom16 (slice p ipv6SrcOffset 16), AddrFrom16 (slice p ipv6DstOffset 16))
  | Some _ => Ok (AddrInvalid, AddrInvalid)
  | None => Panic
  end.

(** The incremental update of the 16-bit checksum at [off]. *)
Definition update_at (p : list Z) (off : nat) (old new : list Z) : list Z :=
  PutUint16 p off (incrementalUpdate (Uint16 p off) old new).

Definition updateTCPChecksum (p : list Z) (hdr : nat) (oldIP newIP : list Z) : list Z :=
  if (length p <? hdr + 18)%nat then p else update_at p (hdr + 16) oldIP newIP.

Definition updateUDPChecksum (p : list Z) (hdr : nat) (oldIP newIP : list Z) : list Z :=
  if (length p <? hdr + 8)%nat then p
  else if Uint16 p (hdr + 6) =? 0 then p
  else update_at p (hdr + 6) oldIP newIP.

Definition updateICMPChecksum (p : list Z) (hdr : nat) : list Z :=
  if (length p <? hdr + 8)%nat then p
  else
    let p := PutUint16 p (hdr + 2) 0 in
    PutUint16 p (hdr + 2) (icmpChecksum (drop hdr p)).

Definition updateICMPv6Checksum (p : list Z) (hdr : nat) (oldIP newIP : list Z) : list Z :=
  if (length p <? hdr + 4)%nat then p else update_at p (hdr + 2) oldIP newIP.

Definition rewriteIPv4 (p : list Z) (d : decoder) (newIP : Addr) (hdrLen : nat) (isSource : bool)
    : Res (list Z) :=
  if negb (Is4 newIP) then Err
  else
    let offset := if isSource then ipv4SrcOffset else ipv4DstOffset in
    if (length p <? offset + 4)%nat || (length p <? hdrLen)%nat then Panic
    else
      let oldIP := slice p offset 4 in
      let newBytes := be_bytes 4 (addr_val newIP) in
      let p := put_bytes p offset newBytes in
      let p := PutUint16 p 10 0 in
      let p := PutUint16 p 10 (ipv4Checksum (take hdrLen p)) in
      Ok match decoded d !! 1%nat with
         | Some LayerTypeTCP => updateTCPChecksum p hdrLen oldIP newBytes
         | Some LayerTypeUDP => updateUDPChecksum p hdrLen oldIP newBytes
         | Some LayerTypeICMPv4 => updateICMPChecksum p hdrLen
         | _ => p
         end.

Definition rewriteIPv6 (p : list Z) (d : decoder) (newIP : Addr) (hdrLen : nat) (isSource : bool)
    : Res (list Z) :=
  if negb (Is6 newIP) then Err
  else
    let offset := if isSource then ipv6SrcOffset else ipv6DstOffset in
    if (length p <? offset + 16)%nat then Panic
    else
      let oldIP := slice p offset 16 in
      let newBytes := be_bytes 16 (addr_val newIP) in
      let p := put_bytes p offset newBytes in
      Ok match decoded d !! 1%nat with
         | Some LayerTypeTCP => updateTCPChecksum p hdrLen oldIP newBytes
         | Some LayerTypeUDP => updateUDPChecksum p hdrLen oldIP newBytes
         | Some LayerTypeICMPv6 => updateICMPv6Checksum p hdrLen oldIP newBytes
         | _ => p
         end.

Section Rewrite.
Open Scope go_scope.

Definition rewritePacketIP (p : list Z) (d : decoder) (newIP : Addr) (isSource : bool)
    : Res (list Z) :=
  let! hdrLen := ipHeaderLen d in
  match decoded d !! 0%nat with
  | Some LayerTypeIPv4 => rewriteIPv4 p d newIP hdrLen isSource
  | Some LayerTypeIPv6 => rewriteIPv6 p d newIP hdrLen isSource
  | Some _ => Err
  | None => Panic
  end.

(** The packet after the call and whether it was translated; a rewrite
    error is logged and leaves the packet alone. *)
Definition translateOutboundDNAT (s : DNATState) (p : list Z) (d : decoder) : Res (list Z * bool) :=
  if negb (dnatEnabled s) then Ok (p, false)
  else
    let! ips := extractPacketIPs p d in
    let! t := getDNATTranslation s (snd ips) in
    match t with
    | None => Ok (p, false)
    | Some translatedIP =>
        match rewritePacketIP p d translatedIP false with
        | Ok p' => Ok (p', true)
        | Err => Ok (p, false)
        | Panic => Panic
        end
    end.

Definition translateInboundReverse (s : DNATState) (p : list Z) (d : decoder) : Res (list Z * bool) :=
  if negb (dnatEnabled s) then Ok (p, false)
  else
    let! ips := extractPacketIPs p d in
    let! o := findReverseDNATMapping s (fst ips) in
    match o with
    | None => Ok (p, false)
    | Some originalIP =>
        match rewritePacketIP p d originalIP true with
        | Ok p' => Ok (p', true)
        | Err => Ok (p, false)
        | Panic => Panic
        end
    end.

Definition rewriteTCPPort (p : list Z) (d : decoder) (newPort : Z) (portOffset : nat)
    : Res (list Z) :=
  let! tcpStart := ipHeaderLen d in
  if (length p <? tcpStart + 4)%nat then Err
  else
    let portStart := (tcpStart + portOffset)%nat in
    let oldPort := Uint16 p portStart in
    let p := PutUint16 p portStart newPort in
    if (tcpStart + 18 <=? length p)%nat
    then Ok (update_at p (tcpStart + 16) (be_bytes 2 oldPort) (be_bytes 2 newPort))
    else Ok p.

Definition rewriteUDPPort (p : list Z) (d : decoder) (newPort : Z) (portOffset : nat)
    : Res (list Z) :=
  let! udpStart := ipHeaderLen d in
  if (length p <? udpStart + 8)%nat then Err
  else
    let portStart := (udpStart + portOffset)%nat in
    let oldPort := Uint16 p portStart in
    let p := PutUint16 p portStart newPort in
    if Uint16 p (udpStart + 6) =? 0 then Ok p
    else Ok (update_at p (udpStart + 6) (be_bytes 2 oldPort) (be_bytes 2 newPort)).

(** The packet, the decoder (with [dnatOrigPort] noted) and [translated]. *)
Fixpoint applyPortRule (rules : list portDNATRule) (p : list Z) (d : decoder) (srcIP dstIP : Addr)
    (port : Z) (protocol : LayerType)
    (rewriteFn : list Z → decoder → Z → nat → Res (list Z)) : Res (list Z * decoder * bool) :=
  match rules with
  | [] => Ok (p, d, false)
  | rule :: rules' =>
      if negb (bool_decide (pd_protocol rule = protocol)) ||
         negb (bool_decide (addr_Compare (pd_targetIP rule) dstIP = Eq))
      then applyPortRule rules' p d srcIP dstIP port protocol rewriteFn
      else if (pd_targetPort rule =? port) && bool_decide (addr_Compare (pd_targetIP rule) srcIP = Eq)
      then Ok (p, d, false)
      else if negb (pd_origPort rule =? port)
      then applyPortRule rules' p d srcIP dstIP port protocol rewriteFn
      else match rewriteFn p d (pd_targetPort rule) 2%nat with
           | Ok p' => Ok (p', set_dnatOrigPort (pd_origPort rule) d, true)
           | Err => Ok (p, d, false)
           | Panic => Panic
           end
  end.

Definition translateInboundPortDNAT (s : DNATState) (p : list Z) (d : decoder) (srcIP dstIP : Addr)
    : Res (list Z * decoder * bool) :=
  if negb (portDNATEnabled s) then Ok (p, d, false)
  else match decoded d !! 1%nat with
       | Some LayerTypeTCP =>
           applyPortRule (portDNATRules s) p d srcIP dstIP (tcp_DstPort (d_tcp d)) LayerTypeTCP
             rewriteTCPPort
       | Some LayerTypeUDP =>
           applyPortRule (portDNATRules s) p d AddrInvalid dstIP (udp_DstPort (d_udp d)) LayerTypeUDP
             rewriteUDPPort
       | Some _ => Ok (p, d, false)
       | None => Panic
       end.
End Rewrite.

(** ** Properties of the translation

    The 1:1 maps stay consistent while mappings are injective; a rewritten
    packet carries the new address or port and checksums that verify. *)

(** ** Bytes *)

Lemma lookup_slice l i n k : slice l i n !! k = if decide (k < n)%nat then l !! (i + k)%nat else None.
Proof.
  unfold slice. case_decide.
  - by rewrite lookup_take_lt, lookup_drop by done.
  - by rewrite lookup_take_ge by lia.
Qed.

Lemma length_slice l i n : (i + n <= length l)%nat → length (slice l i n) = n.
Proof. intros H. unfold slice. rewrite length_take, length_drop. lia. Qed.

Lemma slice_bytes l i n : bytes l → bytes (slice l i n).
Proof. intros H. by apply Forall_take, Forall_drop. Qed.

Lemma length_put_bytes l i bs : (i + length bs <= length l)%nat → length (put_bytes l i bs) = length l.
Proof. intros H. unfold put_bytes. rewrite !length_app, length_take, length_drop. lia. Qed.

Lemma put_bytes_bytes l i bs : bytes l → bytes bs → bytes (put_bytes l i bs).
Proof.
  intros Hl Hb. apply Forall_app. split; [by apply Forall_take|].
  apply Forall_app. split; [done | by apply Forall_drop].
Qed.

Lemma lookup_put_bytes l i bs j :
  (i + length bs <= length l)%nat →
  put_bytes l i bs !! j =
  if decide (i <= j < i + length bs)%nat then bs !! (j - i)%nat else l !! j.
Proof.
  intros Hl. unfold put_bytes. assert (Ht : length (take i l) = i) by (rewrite length_take; lia).
  case_decide as Hj.
  - rewrite lookup_app_r, Ht by lia. by rewrite lookup_app_l by lia.
  - destruct (decide (j < i)%nat).
    + rewrite lookup_app_l by lia. by rewrite lookup_take_lt by lia.
    + rewrite lookup_app_r, Ht by lia. rewrite lookup_app_r by lia. rewrite lookup_drop. f_equal. lia.
Qed.

Lemma lookup_PutUint16 l i v j :
  j ≠ i → j ≠ S i → PutUint16 l i v !! j = l !! j.
Proof. intros H1 H2. unfold PutUint16. by rewrite !list_lookup_insert_ne by done. Qed.

(** Writes outside a region do not change it. *)
Lemma slice_PutUint16 l k v i n :
  (k + 2 <= i)%nat ∨ (i + n <= k)%nat → slice (PutUint16 l k v) i n = slice l i n.
Proof.
  intros Hd. apply list_eq. intros j. rewrite !lookup_slice. case_decide; [|done].
  apply lookup_PutUint16; lia.
Qed.

Lemma drop_PutUint16_before l k v n : (k + 2 <= n)%nat → drop n (PutUint16 l k v) = drop n l.
Proof.
  intros Hd. apply list_eq. intros j. rewrite !lookup_drop. apply lookup_PutUint16; lia.
Qed.

Lemma drop_PutUint16 l k v n : drop n (PutUint16 l (n + k) v) = PutUint16 (drop n l) k v.
Proof.
  unfold PutUint16. rewrite !drop_insert_ge by lia.
  replace (S (n + k) - n)%nat with (S k) by lia. by replace (n + k - n)%nat with k by lia.
Qed.

Lemma take_PutUint16 l k v n :
  (k + 2 <= n)%nat → take n (PutUint16 l k v) = PutUint16 (take n l) k v.
Proof. intros H. unfold PutUint16. by rewrite !take_insert_lt by lia. Qed.

Lemma take_PutUint16_after l k v n : (n <= k)%nat → take n (PutUint16 l k v) = take n l.
Proof. intros H. unfold PutUint16. by rewrite !take_insert_ge by lia. Qed.

Lemma slice_put_bytes_eq l i bs :
  (i + length bs <= length l)%nat → slice (put_bytes l i bs) i (length bs) = bs.
Proof.
  intros Hl. apply list_eq. intros j. rewrite lookup_slice. case_decide as Hj.
  - rewrite lookup_put_bytes by done. rewrite decide_True by lia. f_equal. lia.
  - symmetry. apply lookup_ge_None. lia.
Qed.

Lemma slice_put_bytes_ne l k bs i n :
  (k + length bs <= length l)%nat → (k + length bs <= i)%nat ∨ (i + n <= k)%nat →
  slice (put_bytes l k bs) i n = slice l i n.
Proof.
  intros Hl Hd. apply list_eq. intros j. rewrite !lookup_slice. case_decide; [|done].
  rewrite lookup_put_bytes by done. by rewrite decide_False by lia.
Qed.

Lemma drop_put_bytes l k bs n :
  (k + length bs <= length l)%nat → (k + length bs <= n)%nat → drop n (put_bytes l k bs) = drop n l.
Proof.
  intros Hl Hd. apply list_eq. intros j. rewrite !lookup_drop, lookup_put_bytes by done.
  by rewrite decide_False by lia.
Qed.

Lemma words_be2 v : 0 <= v <= 65535 → Zsum (words (be_bytes 2 v)) = v.
Proof.
  intros Hv. cbn [be_bytes app words Zsum foldr].
  rewrite (Z.mod_small (v / 256)).
  - pose proof (Z.div_mod v 256). lia.
  - split; [apply Z.div_pos; lia|]. apply Z.div_lt_upper_bound; lia.
Qed.

(** ** Port rewriting keeps transport checksums valid *)

(** Replace the word at an even offset [2i] and update the checksum at [2j]:
    the one's-complement total of any enclosing packet stays valid. *)
Lemma update_word_valid pseudo seg i j newPort :
  bytes seg → 0 <= newPort <= 65535 → i ≠ j →
  (i + i + 1 < length seg)%nat → (j + j + 1 < length seg)%nat →
  (pseudo + Zsum (words seg)) mod 65535 = 0 →
  let seg1 := PutUint16 seg (i + i) newPort in
  let seg2 := update_at seg1 (j + j) (be_bytes 2 (Uint16 seg (i + i))) (be_bytes 2 newPort) in
  (pseudo + Zsum (words seg2)) mod 65535 = 0.
Proof.
  intros Hb Hn Hij Hi Hj Hval. cbn zeta. set (seg1 := PutUint16 seg (i + i) newPort).
  assert (Hb1 : bytes seg1) by (apply PutUint16_bytes; done).
  assert (Hl1 : length seg1 = length seg) by apply length_PutUint16.
  pose proof (Uint16_range seg (i + i) Hb) as Ho. pose proof (Uint16_range seg1 (j + j) Hb1) as Hc.
  assert (Hcj : Uint16 seg1 (j + j) = Uint16 seg (j + j)).
  { unfold Uint16, at_, seg1. by rewrite !lookup_PutUint16 by lia. }
  unfold update_at. rewrite words_put by (rewrite Hl1; lia).
  set (c' := incrementalUpdate _ _ _).
  pose proof (words_put seg i newPort Hi) as Hw. fold seg1 in Hw.
  destruct (incrementalUpdate_total
    (pseudo + Zsum (words seg) - Uint16 seg1 (j + j) - Uint16 seg (i + i))
    (Uint16 seg1 (j + j)) (be_bytes 2 (Uint16 seg (i + i))) (be_bytes 2 newPort)) as [_ Hv];
    try apply be_bytes_range; try done; try (rewrite length_be_bytes; lia).
  - rewrite words_be2 by lia. rewrite <- Hval. f_equal. lia.
  - fold c' in Hv. rewrite words_be2 in Hv by lia. rewrite <- Hv. f_equal. lia.
Qed.

Lemma Uint16_PutUint16 l i v : (S i < length l)%nat → 0 <= v <= 65535 → Uint16 (PutUint16 l i v) i = v.
Proof.
  intros Hl Hv. unfold Uint16, at_, PutUint16.
  rewrite list_lookup_insert_ne, list_lookup_insert_eq by lia.
  rewrite list_lookup_insert_eq by (rewrite length_insert; lia). simpl.
  pose proof (Z.div_mod v 256). lia.
Qed.

Lemma Uint16_PutUint16_ne l i v j :
  (j + 2 <= i)%nat ∨ (i + 2 <= j)%nat → Uint16 (PutUint16 l i v) j = Uint16 l j.
Proof. intros H. unfold Uint16, at_. by rewrite !lookup_PutUint16 by lia. Qed.

(** Rewriting a TCP port (source or destination) changes that port and
    the checksum, nothing else of the packet's IP header or length, and the
    segment's checksum is valid after it when it was valid before. *)
Theorem rewriteTCPPort_valid p d newPort portOffset hdr pseudo :
  bytes p → 0 <= newPort <= 65535 → portOffset = 0%nat ∨ portOffset = 2%nat →
  ipHeaderLen d = Ok hdr → (hdr + 18 <= length p)%nat →
  (pseudo + Zsum (words (drop hdr p))) mod 65535 = 0 →
  ∃ p', rewriteTCPPort p d newPort portOffset = Ok p' ∧ length p' = length p ∧
    take hdr p' = take hdr p ∧ Uint16 p' (hdr + portOffset) = newPort ∧
    (pseudo + Zsum (words (drop hdr p'))) mod 65535 = 0.
Proof.
  intros Hb Hn Hoff Hhdr Hlen Hval. unfold rewriteTCPPort. rewrite Hhdr. simpl.
  rewrite (proj2 (Nat.ltb_ge _ _)) by lia.
  rewrite length_PutUint16, (proj2 (Nat.leb_le _ _)) by lia.
  eexists. split; [done|]. unfold update_at.
  rewrite !length_PutUint16. split; [done|].
  rewrite !take_PutUint16_after by lia. split; [done|].
  rewrite Uint16_PutUint16_ne, Uint16_PutUint16 by lia. split; [done|].
  rewrite drop_PutUint16, drop_PutUint16.
  assert (∃ i, portOffset = (i + i)%nat ∧ i ≠ 8%nat) as (i & -> & Hi).
  { destruct Hoff as [->| ->]; [by exists 0%nat | by exists 1%nat]. }
  pose proof (update_word_valid pseudo (drop hdr p) i 8 newPort) as Hu. unfold update_at in Hu.
  change (8 + 8)%nat with 16%nat in Hu. rewrite Uint16_drop, Uint16_drop, drop_PutUint16.
  apply Hu; try done; try (rewrite length_drop; lia). by apply Forall_drop.
Qed.

(** ** Address rewriting *)

Lemma be_bytes4_addr a : Is4 a = true → addr_wf a → AddrFrom4 (be_bytes 4 (addr_val a)) = a.
Proof.
  destruct a as [|v|]; try done. intros _ Hw. unfold AddrFrom4. cbn [addr_val].
  rewrite be_value_bytes; [done|]. exact Hw.
Qed.

(** What the transport half of [rewriteIPv4] can touch. *)
Lemma transport_header p hdr old new (l : option LayerType) p' :
  p' = match l with
       | Some LayerTypeTCP => updateTCPChecksum p hdr old new
       | Some LayerTypeUDP => updateUDPChecksum p hdr old new
       | Some LayerTypeICMPv4 => updateICMPChecksum p hdr
       | _ => p
       end →
  length p' = length p ∧ take hdr p' = take hdr p.
Proof.
  intros ->. unfold updateTCPChecksum, updateUDPChecksum, updateICMPChecksum, update_at.
  destruct l as [[]|]; repeat case_match; rewrite ?length_PutUint16, ?take_PutUint16_after by lia; done.
Qed.

Lemma slice_take l i n m : (i + n <= m)%nat → slice (take m l) i n = slice l i n.
Proof.
  intros H. apply list_eq. intros k. rewrite !lookup_slice. case_decide; [|done].
  by rewrite lookup_take_lt by lia.
Qed.

(** Rewriting an IPv4 address: the packet keeps its length, reads back
    with the new address on the chosen side and the old one on the other, and
    its header checksum verifies. *)
Theorem rewriteIPv4_header p d newIP hdr isSource :
  bytes p → addr_wf newIP → Is4 newIP = true →
  decoded d !! 0%nat = Some LayerTypeIPv4 → (20 <= hdr <= 60)%nat → (hdr <= length p)%nat →
  ∃ p' src dst, rewriteIPv4 p d newIP hdr isSource = Ok p' ∧ length p' = length p ∧
    extractPacketIPs p d = Ok (src, dst) ∧
    extractPacketIPs p' d = Ok (if isSource then (newIP, dst) else (src, newIP)) ∧
    rfc1071 (words (take hdr p')) = 0.
Proof.
  intros Hb Ha H4 Hd Hh Hl. unfold rewriteIPv4. rewrite H4. simpl.
  set (off := if isSource then ipv4SrcOffset else ipv4DstOffset).
  assert (Hoff : (off = 12 ∨ off = 16)%nat) by (unfold off; destruct isSource; auto).
  rewrite (proj2 (Nat.ltb_ge (length p) (off + 4))), (proj2 (Nat.ltb_ge (length p) hdr)) by lia. simpl.
  set (nb := be_bytes 4 (addr_val newIP)).
  assert (Hnb : length nb = 4%nat) by apply length_be_bytes.
  set (p1 := put_bytes p off nb). set (p2 := PutUint16 p1 10 0).
  set (p3 := PutUint16 p2 10 (ipv4Checksum (take hdr p2))).
  match goal with |- context [@Ok (list Z) ?x = _] => set (p' := x) end.
  destruct (transport_header p3 hdr (slice p off 4) nb (decoded d !! 1%nat) p' eq_refl) as [Hlen Htake].
  assert (Hl1 : length p1 = length p) by (apply length_put_bytes; lia).
  assert (Hl3 : length p3 = length p) by (unfold p3, p2; by rewrite !length_PutUint16).
  assert (Hsl : ∀ i n, (i + n <= 20)%nat → (12 <= i)%nat → slice p' i n = slice p1 i n).
  { intros i n Hn Hi. rewrite <- (slice_take p' i n hdr), Htake, slice_take by lia.
    unfold p3, p2. by rewrite !slice_PutUint16 by lia. }
  exists p', (AddrFrom4 (slice p 12 4)), (AddrFrom4 (slice p 16 4)). split_and!; [done|lia|..].
  - unfold extractPacketIPs. rewrite Hd. by rewrite (proj2 (Nat.ltb_ge _ _)) by (unfold ipv4DstOffset; lia).
  - unfold extractPacketIPs. rewrite Hd. rewrite (proj2 (Nat.ltb_ge _ _)) by (unfold ipv4DstOffset; lia).
    unfold ipv4SrcOffset, ipv4DstOffset. rewrite !Hsl by lia.
    assert (Hself : slice p1 off 4 = nb).
    { unfold p1. rewrite <- Hnb. apply slice_put_bytes_eq. lia. }
    assert (Hnew : AddrFrom4 nb = newIP) by (by apply be_bytes4_addr).
    destruct isSource; unfold off, ipv4SrcOffset, ipv4DstOffset in *; rewrite Hself, Hnew; f_equal; f_equal;
      unfold p1; by rewrite slice_put_bytes_ne by lia.
  - rewrite Htake. unfold p3. rewrite take_PutUint16 by lia.
    assert (Hb2 : bytes (take hdr p2)).
    { apply Forall_take. apply PutUint16_bytes; [|lia]. apply put_bytes_bytes; [done|apply be_bytes_range]. }
    assert (Hlt : length (take hdr p2) = hdr) by (rewrite length_take; unfold p2; rewrite length_PutUint16; lia).
    apply ipv4Checksum_stored; [done | lia | lia].
Qed.

(** ** The mapping state *)

Inductive DNATOp :=
| AddMapping (original translated : Addr)
| RemoveMapping (original : Addr)
| AddPort (a : Addr) (proto : Protocol) (o t : Z)
| RemovePort (a : Addr) (proto : Protocol) (o t : Z).

(** A call that returns an error changes nothing; [None] is a panic. *)
Definition dnat_step (ips : gset Addr) (s : DNATState) (op : DNATOp) : option DNATState :=
  let r := match op with
           | AddMapping o t => AddInternalDNATMapping ips s o t
           | RemoveMapping o => RemoveInternalDNATMapping s o
           | AddPort a pr o t => AddInboundDNAT s a pr o t
           | RemovePort a pr o t => RemoveInboundDNAT s a pr o t
           end in
  match r with Ok s' => Some s' | Err => Some s | Panic => None end.

Definition dnat_run (ips : gset Addr) : DNATState → list DNATOp → option DNATState :=
  run (dnat_step ips).

Record dnat_inv (s : DNATState) : Prop := {
  dnat_on : dnatEnabled s = true ↔ dnatMappings s ≠ ∅;
  dnat_nil : dnatBiMap s = None → dnatMappings s = ∅;
  dnat_forward b : dnatBiMap s = Some b → forward b = dnatMappings s;
  dnat_ports : portDNATEnabled s = true ↔ portDNATRules s ≠ [];
}.

Lemma AddMapping_inv ips s o t s' :
  dnat_inv s → AddInternalDNATMapping ips s o t = Ok s' → dnat_inv s'.
Proof.
  intros [Hon Hnil Hfw Hp]. unfold AddInternalDNATMapping.
  destruct (IsValid o), (IsValid t), (IsLocalIP ips t); simpl; try done.
  destruct (dnatBiMap s) as [b|] eqn:Hb; intros [= <-]; split; simpl; try done.
  - split; [intros _; apply insert_non_empty|]. intros _.
    destruct (Nat.eqb_spec (size (<[o:=t]> (dnatMappings s))) 1); [done|].
    apply Hon. intros E. rewrite E, insert_empty, map_size_singleton in n. done.
  - intros b' [= <-]. simpl. by rewrite (Hfw b eq_refl).
  - split; [intros _; apply insert_non_empty|]. intros _.
    by rewrite insert_empty, map_size_singleton.
  - intros b' [= <-]. done.
Qed.

Lemma RemoveMapping_inv s o :
  dnat_inv s → RemoveInternalDNATMapping s o ≠ Panic ∧
  ∀ s', RemoveInternalDNATMapping s o = Ok s' → dnat_inv s'.
Proof.
  intros [Hon Hnil Hfw Hp]. unfold RemoveInternalDNATMapping.
  destruct (dnatMappings s !! o) as [t|] eqn:Ho; [|done].
  destruct (dnatBiMap s) as [b|] eqn:Hb.
  - split; [done|]. intros s' [= <-]. split; simpl; try done.
    + destruct (Nat.eqb_spec (size (delete o (dnatMappings s))) 0) as [E|E].
      * split; [done|]. intros Hne. destruct Hne. by apply map_size_empty_inv.
      * split; [|intros _; apply Hon; intros E'; by rewrite E', lookup_empty in Ho].
        intros _ E'. rewrite E', map_size_empty in E. done.
    + intros b' [= <-]. unfold bi_delete. by rewrite (Hfw b eq_refl), Ho.
  - by rewrite Hnil, lookup_empty in Ho.
Qed.

Lemma dnat_step_inv ips s op : dnat_inv s → ∃ s', dnat_step ips s op = Some s' ∧ dnat_inv s'.
Proof.
  intros Hinv. destruct op; unfold dnat_step.
  - destruct (AddInternalDNATMapping ips s original translated) as [s'| |] eqn:E; [|eauto|].
    + exists s'. split; [done|]. by eapply AddMapping_inv.
    + exfalso. revert E. unfold AddInternalDNATMapping. repeat case_match; done.
  - destruct (RemoveMapping_inv s original Hinv) as [Hnp Hok].
    destruct (RemoveInternalDNATMapping s original) as [s'| |]; [|eauto|done].
    exists s'. split; [done|]. by apply Hok.
  - unfold AddInboundDNAT. destruct (inboundLayer proto); [|eauto]. eexists. split; [done|].
    destruct Hinv as [Hon Hnil Hfw Hp]. split; simpl; try done. split; [|done].
    intros _ E. by apply app_eq_nil in E as [_ ?].
  - unfold RemoveInboundDNAT. destruct (inboundLayer proto); [|eauto]. eexists. split; [done|].
    destruct Hinv as [Hon Hnil Hfw Hp]. unfold removePortRedirection. split; simpl; try done.
    set (rules := filter _ _). destruct (Nat.eqb_spec (length rules) 0) as [E|E].
    + apply nil_length_inv in E. rewrite E. done.
    + split; [intros _ E'; by rewrite E' in E|]. intros _. apply Hp. intros E'.
      apply E. unfold rules. by rewrite E'.
Qed.

Lemma dnat_reachable ips ops :
  ∃ s, dnat_run ips NewDNATState ops = Some s ∧ dnat_inv s.
Proof.
  apply (run_total _ dnat_inv (λ _, True)).
  - intros s op Hs _. by apply dnat_step_inv.
  - split; simpl; done.
  - by apply Forall_true.
Qed.

(** Whatever mappings and redirections are added and removed, the state
    never panics, the fast-path flags say exactly whether there is something
    to translate, and an outbound address is translated exactly by its
    mapping. *)
Theorem dnat_state_sound ips ops :
  ∃ s, dnat_run ips NewDNATState ops = Some s ∧
    (dnatEnabled s = true ↔ dnatMappings s ≠ ∅) ∧
    (portDNATEnabled s = true ↔ portDNATRules s ≠ []) ∧
    (∀ a, getDNATTranslation s a = Ok (dnatMappings s !! a)) ∧
    (∀ a, findReverseDNATMapping s a ≠ Panic).
Proof.
  destruct (dnat_reachable ips ops) as (s & Hs & [Hon Hnil Hfw Hp]). exists s. split_and!; auto.
  - intros a. unfold getDNATTranslation. destruct (dnatEnabled s) eqn:E; simpl.
    + destruct (dnatBiMap s) as [b|]; [unfold getTranslated; by rewrite (Hfw b eq_refl)|].
      destruct (proj1 Hon eq_refl). by apply Hnil.
    + destruct (decide (dnatMappings s = ∅)) as [->|Hne]; [by rewrite lookup_empty|].
      apply Hon in Hne. congruence.
  - intros a. unfold findReverseDNATMapping. destruct (dnatEnabled s) eqn:E; simpl; [|done].
    destruct (dnatBiMap s) as [b|]; [done|]. destruct (proj1 Hon eq_refl). by apply Hnil.
Qed.

(** States reached when every mapping added has a new original and a new
    translated address. *)
Inductive injective_state (ips : gset Addr) : DNATState → Prop :=
| inj_new : injective_state ips NewDNATState
| inj_add s o t s' :
    injective_state ips s → AddInternalDNATMapping ips s o t = Ok s' →
    dnatMappings s !! o = None → (∀ o', dnatMappings s !! o' ≠ Some t) →
    injective_state ips s'
| inj_remove s o s' :
    injective_state ips s → RemoveInternalDNATMapping s o = Ok s' → injective_state ips s'.

Lemma injective_bijection ips s :
  injective_state ips s →
  dnat_inv s ∧ ∀ b, dnatBiMap s = Some b → ∀ o t, reverse_ b !! t = Some o ↔ forward b !! o = Some t.
Proof.
  induction 1 as [|s o t s' _ [Hi IH] Hadd Ho Ht|s o s' _ [Hi IH] Hrem].
  - split; [split; simpl; done|]. done.
  - split; [by eapply AddMapping_inv|]. revert Hadd. unfold AddInternalDNATMapping.
    destruct (IsValid o), (IsValid t), (IsLocalIP ips t); simpl; try done.
    destruct (dnatBiMap s) as [b|] eqn:Hb; intros [= <-] b' [= <-] o' t'; unfold bi_set; simpl.
    + specialize (IH b eq_refl). pose proof (dnat_forward s Hi b Hb) as Hf. rewrite <- Hf in Ho, Ht.
      rewrite !lookup_insert. repeat case_decide; subst; try rewrite IH; split; intros; simplify_eq; auto.
      by destruct (Ht o').
    + rewrite !lookup_insert, !lookup_empty. repeat case_decide; subst; naive_solver.
  - split; [by eapply RemoveMapping_inv|]. revert Hrem. unfold RemoveInternalDNATMapping.
    destruct (dnatMappings s !! o) as [t|] eqn:Ho; [|done].
    destruct (dnatBiMap s) as [b|] eqn:Hb; [|done]. intros [= <-] b' [= <-] o' t'.
    specialize (IH b eq_refl). pose proof (dnat_forward s Hi b Hb) as Hf. rewrite <- Hf in Ho.
    unfold bi_delete. rewrite Ho. simpl. rewrite !lookup_delete_Some, IH. split.
    + intros [Hne Hf']. split; [|done]. intros <-. congruence.
    + intros [Hne Hf']. split; [|done]. intros <-. apply Hne.
      apply IH in Hf', Ho. congruence.
Qed.

(** While originals and translated addresses are not reused, the two
    directions are inverse: replies from a translated address are mapped back
    to exactly the original that was translated to it. *)
Theorem dnat_round_trip ips s o t :
  injective_state ips s →
  getDNATTranslation s o = Ok (Some t) ↔ findReverseDNATMapping s t = Ok (Some o).
Proof.
  intros [Hi Hbij]%injective_bijection. unfold getDNATTranslation, findReverseDNATMapping.
  destruct (dnatEnabled s); simpl; [|split; intros; simplify_eq].
  destruct (dnatBiMap s) as [b|]; [|done]. unfold getTranslated, getOriginal.
  specialize (Hbij b eq_refl o t). split; intros [= E]; f_equal; by apply Hbij.
Qed.

Definition dA : Addr := AddrV4 1684300801.
Definition dB : Addr := AddrV4 1684300802.
Definition dC : Addr := AddrV4 1684300803.
Definition dD : Addr := AddrV4 1684300804.

(** Re-mapping an original address leaves the old reverse entry behind:
    after the mapping is removed, traffic from the first translated address
    is still rewritten although no mapping names it. *)
Theorem dnat_stale_reverse :
  ∃ s, dnat_run ∅ NewDNATState
         [AddMapping dC dD; AddMapping dA dB; AddMapping dA dC; RemoveMapping dA] = Some s ∧
    dnatMappings s !! dA = None ∧ findReverseDNATMapping s dB = Ok (Some dA).
Proof. eexists. split; [reflexivity|]. split; reflexivity. Qed.

(** ** Witnesses *)

Definition dn_packet : list Z :=
  [69; 0; 0; 40; 0; 1; 0; 0; 64; 6; 0; 0; 100; 100; 100; 1; 100; 100; 100; 2;
   15; 160; 0; 80; 0; 0; 0; 0; 0; 0; 0; 0; 80; 2; 32; 0; 12; 34; 0; 0].

Definition dn_decoder : decoder :=
  {| d_ip4 := {| ip4_SrcIP := [100; 100; 100; 1]; ip4_DstIP := [100; 100; 100; 2]; ip4_Id := 1;
                 ip4_Flags := 0; ip4_FragOffset := 0; ip4_Protocol := 6; ip4_IHL := 5;
                 ip4_Payload := [] |};
     d_ip6 := {| ip6_SrcIP := []; ip6_DstIP := []; ip6_NextHeader := 0; ip6_Payload := [] |};
     d_tcp := {| tcp_SrcPort := 4000; tcp_DstPort := 80; tcp_SYN := true; tcp_ACK := false;
                 tcp_FIN := false; tcp_RST := false; tcp_PSH := false; tcp_URG := false;
                 tcp_Options := [] |};
     d_udp := {| udp_SrcPort := 0; udp_DstPort := 0 |};
     d_icmp4 := {| icmp4_Type := 0; icmp4_Code := 0; icmp4_Id := 0 |};
     d_icmp6 := {| icmp6_Type := 0; icmp6_Code := 0; icmp6_Payload := [] |};
     decoded := [LayerTypeIPv4; LayerTypeTCP]; dnatOrigPort := 0 |}.

Lemma dn_bytes : bytes dn_packet.
Proof. repeat constructor; unfold byte; lia. Qed.

Lemma rewriteTCPPort_valid_witness :
  ∃ p', rewriteTCPPort dn_packet dn_decoder 8080 2 = Ok p' ∧ Uint16 p' 22 = 8080.
Proof.
  destruct (rewriteTCPPort_valid dn_packet dn_decoder 8080 2 20
    (65535 - Zsum (words (drop 20 dn_packet)) mod 65535)) as (p' & Hp & _ & _ & Hport & _).
  - exact dn_bytes.
  - lia.
  - right. reflexivity.
  - reflexivity.
  - apply Nat.leb_le. reflexivity.
  - vm_compute. reflexivity.
  - exists p'. split; [exact Hp | exact Hport].
Defined.

Lemma rewriteIPv4_header_witness :
  ∃ p', rewriteIPv4 dn_packet dn_decoder dC 20 true = Ok p' ∧ rfc1071 (words (take 20 p')) = 0.
Proof.
  destruct (rewriteIPv4_header dn_packet dn_decoder dC 20 true) as (p' & src & dst & Hp & _ & _ & _ & Hc).
  - exact dn_bytes.
  - unfold addr_wf, in_width, dC. lia.
  - reflexivity.
  - reflexivity.
  - lia.
  - apply Nat.leb_le. reflexivity.
  - exists p'. split; [exact Hp | exact Hc].
Defined.

Lemma dnat_round_trip_witness :
  ∃ s, injective_state ∅ s ∧
    (getDNATTranslation s dA = Ok (Some dB) ↔ findReverseDNATMapping s dB = Ok (Some dA)).
Proof.
  assert (Hs : ∃ s, AddInternalDNATMapping ∅ NewDNATState dA dB = Ok s) by (eexists; reflexivity).
  destruct Hs as [s Hs]. exists s.
  assert (Hi : injective_state ∅ s).
  { apply (inj_add ∅ NewDNATState dA dB s (inj_new ∅) Hs); [reflexivity|]. intros o'. discriminate. }
  split; [exact Hi | exact (dnat_round_trip ∅ s dA dB Hi)].
Defined.
