(* ===== verification/RouteRules.v ===== *)
(** * Route ACL rules

    The forward-path half of [client/firewall/uspfilter/filter.go]: the sorted
    rule slice, its map, the set updates and the decision.  Rules are heap
    objects reached through pointers from the slice; an update of a rule's
    destinations is an update in place. *)
From stdpp Require Import sorting.
From S2P Require Import Prelude NetIP Order FwTypes PeerRules.
Open Scope Z_scope.

Record RouteRule := {
  rr_id : RuleID;
  rr_mgmtId : list Z;
  rr_sources : list Prefix;
  rr_dstSet : Set_;
  rr_destinations : list Prefix;
  rr_protoLayer : LayerType;
  rr_srcPort : option Port;
  rr_dstPort : option Port;
  rr_action : Action;
}.

(** Deny rules come first; then by identifier. *)
Definition rr_key (r : RouteRule) : list Z :=
  (if decide (rr_action r = ActionDrop) then 0 else 1) :: codes (rr_id r).

Definition rr_cmp (a b : RouteRule) : comparison := lex (rr_key a) (rr_key b).

Definition routeRules_Sort (rules : list RouteRule) : list RouteRule := sort_by rr_cmp rules.

Record RouteACL := {
  routeRules : list RouteRule;
  routeRulesMap : gset RuleID;
}.

Definition NewRouteACL : RouteACL := {| routeRules := []; routeRulesMap := ∅ |}.

Section Store.
Context (sha256 : string → list Z).

(** The store and the identifier of the rule that is returned. *)
Definition addRouteRule (m : RouteACL) (id : list Z) (sources : list Prefix) (destination : Network)
    (proto : Protocol) (sPort dPort : option Port) (action : Action) : RouteACL * RuleID :=
  let ruleID := GenerateRuleID sha256 sources destination proto sPort dPort action in
  if decide (ruleID ∈ routeRulesMap m) then (m, ruleID)
  else
    let rule :=
      {| rr_id := ruleID; rr_mgmtId := id; rr_sources := sources; rr_dstSet := net_Set destination;
         rr_destinations := if net_IsPrefix destination then [net_Prefix destination] else [];
         rr_protoLayer := protoToLayer proto (ipLayerFromPrefix (net_Prefix destination));
         rr_srcPort := sPort; rr_dstPort := dPort; rr_action := action |} in
    ({| routeRules := routeRules_Sort (routeRules m ++ [rule]);
        routeRulesMap := {[ruleID]} ∪ routeRulesMap m |}, ruleID).
End Store.

(** [None] is the error. *)
Definition deleteRouteRule (m : RouteACL) (ruleID : RuleID) : option RouteACL :=
  match removeRuleByID rr_id (routeRules m) ruleID with
  | (_, None) => None
  | (trimmed, Some _) =>
      Some {| routeRules := trimmed; routeRulesMap := routeRulesMap m ∖ {[ruleID]} |}
  end.

(** By address, then by increasing length. *)
Definition dest_cmp : Prefix → Prefix → comparison :=
  cmp_then (λ p q, addr_Compare (prefix_Addr p) (prefix_Addr q))
           (λ p q, prefix_Bits p ?= prefix_Bits q).

(** [slices.Compact]: adjacent duplicates go. *)
Fixpoint Compact (l : list Prefix) : list Prefix :=
  match l with
  | [] => []
  | x :: l' =>
      match l' with
      | [] => [x]
      | y :: _ => if decide (x = y) then Compact l' else x :: Compact l'
      end
  end.

Definition set_destinations (ds : list Prefix) (r : RouteRule) : RouteRule :=
  {| rr_id := rr_id r; rr_mgmtId := rr_mgmtId r; rr_sources := rr_sources r;
     rr_dstSet := rr_dstSet r; rr_destinations := ds; rr_protoLayer := rr_protoLayer r;
     rr_srcPort := rr_srcPort r; rr_dstPort := rr_dstPort r; rr_action := rr_action r |}.

(** [None] is the error: no rule uses the set.  The destinations of the first
    rule that uses it are the ones extended. *)
Definition UpdateSet (m : RouteACL) (set : Set_) (prefixes : list Prefix) : option RouteACL :=
  match filter (λ r, rr_dstSet r = set) (routeRules m) with
  | [] => None
  | first :: _ =>
      let destinations := Compact (sort_by dest_cmp (rr_destinations first ++ prefixes)) in
      Some {| routeRules :=
                (λ r, if decide (rr_dstSet r = set) then set_destinations destinations r else r)
                  <$> routeRules m;
              routeRulesMap := routeRulesMap m |}
  end.

(** [None] is a panic of [portsMatch]. *)
Definition ruleMatches (rule : RouteRule) (src dst : Addr) (protoLayer : LayerType)
    (srcPort dstPort : Z) : option bool :=
  let rest :=
    if negb (prefixesContain (rr_destinations rule) dst) then false
    else prefixesContain (rr_sources rule) src in
  if negb (bool_decide (rr_protoLayer rule = layerTypeAll)) &&
     negb (protoLayerMatches (rr_protoLayer rule) protoLayer) then Some false
  else if bool_decide (protoLayer = LayerTypeTCP) || bool_decide (protoLayer = LayerTypeUDP) then
    match portsMatch (rr_srcPort rule) srcPort with
    | None => None
    | Some false => Some false
    | Some true =>
        match portsMatch (rr_dstPort rule) dstPort with
        | None => None
        | Some false => Some false
        | Some true => Some rest
        end
    end
  else Some rest.

(** The management identifier of the deciding rule and whether it accepts. *)
Fixpoint route_scan (rules : list RouteRule) (src dst : Addr) (protoLayer : LayerType)
    (srcPort dstPort : Z) : option (list Z * bool) :=
  match rules with
  | [] => Some ([], false)
  | rule :: rules' =>
      match ruleMatches rule src dst protoLayer srcPort dstPort with
      | None => None
      | Some true => Some (rr_mgmtId rule, bool_decide (rr_action rule = ActionAccept))
      | Some false => route_scan rules' src dst protoLayer srcPort dstPort
      end
  end.

Definition routeACLsPass (m : RouteACL) (src dst : Addr) (protoLayer : LayerType)
    (srcPort dstPort : Z) : option (list Z * bool) :=
  route_scan (routeRules m) src dst protoLayer srcPort dstPort.

Definition IPv4Unspecified : Addr := AddrV4 0.
Definition IPv6Unspecified : Addr := AddrV6 0 "".

Definition NetworkOf (p : Prefix) : Network := {| net_Set := SetZero; net_Prefix := p |}.

(** The drop rules for the overlay networks; the identifiers installed. *)
Definition blockInvalidRouted (sha256 : string → list Z) (m : RouteACL) (wgNet v6Net : Prefix)
    : RouteACL * list RuleID :=
  let sources :=
    PrefixFrom IPv4Unspecified 0 ::
    (if prefix_IsValid v6Net then [PrefixFrom IPv6Unspecified 0] else []) in
  let '(m, v4) := addRouteRule sha256 m [] sources (NetworkOf wgNet) ProtocolALL None None ActionDrop in
  if prefix_IsValid v6Net then
    let '(m, v6) := addRouteRule sha256 m [] sources (NetworkOf v6Net) ProtocolALL None None ActionDrop in
    (m, [v4; v6])
  else (m, [v4]).

(** ** Lemmas *)

Section KeyOrder.
Context {A} (f : A → list Z).
Let cmp (x y : A) : comparison := lex (f x) (f y).

Lemma key_total : Total (cmp_le cmp).
Proof. intros x y. apply (cmp_le_total lex (f x) (f y)). Qed.

Lemma key_trans : Transitive (cmp_le cmp).
Proof. intros x y z. apply (cmp_le_trans lex (f x) (f y) (f z)). Qed.

Lemma sort_by_key_sorted l : StronglySorted (cmp_le cmp) (sort_by cmp l).
Proof.
  pose proof key_trans. pose proof key_total. apply (StronglySorted_merge_sort (cmp_le cmp)).
Qed.
End KeyOrder.

Lemma routeRules_Sort_sorted rules : StronglySorted (cmp_le rr_cmp) (routeRules_Sort rules).
Proof. apply (sort_by_key_sorted rr_key). Qed.

Lemma routeRules_Sort_perm rules : routeRules_Sort rules ≡ₚ rules.
Proof. apply sort_by_perm. Qed.

(** A deny rule never comes after an accept rule. *)
Lemma rr_cmp_deny a b :
  cmp_le rr_cmp a b → rr_action b = ActionDrop → rr_action a = ActionDrop.
Proof.
  unfold cmp_le, rr_cmp, rr_key. intros Hle Hb. rewrite (decide_True _ _ Hb) in Hle.
  destruct (decide (rr_action a = ActionDrop)); [done|]. simpl in Hle. by destruct Hle.
Qed.

Record route_inv (m : RouteACL) : Prop := {
  route_sorted : StronglySorted (cmp_le rr_cmp) (routeRules m);
  route_ids : NoDup (rr_id <$> routeRules m);
  route_map id : id ∈ routeRulesMap m ↔ id ∈ rr_id <$> routeRules m;
  route_ports r : r ∈ routeRules m → port_wf (rr_srcPort r) ∧ port_wf (rr_dstPort r);
}.

Lemma NewRouteACL_inv : route_inv NewRouteACL.
Proof. split; simpl; try set_solver; constructor. Qed.

Lemma addRouteRule_inv sha m id s d pr sp dp a m' rid :
  route_inv m → port_wf sp → port_wf dp →
  addRouteRule sha m id s d pr sp dp a = (m', rid) →
  route_inv m' ∧ rid ∈ rr_id <$> routeRules m' ∧
  ∀ r, r ∈ routeRules m → r ∈ routeRules m'.
Proof.
  intros [Hs Hids Hmap Hp] Hsp Hdp. unfold addRouteRule. set (ruleID := GenerateRuleID _ _ _ _ _ _ _).
  case_decide as Hin.
  - intros [= <- <-]. split_and!; [done | by apply Hmap | done].
  - intros [= <- <-]. set (rule := {| rr_id := ruleID |}).
    assert (Hperm : routeRules_Sort (routeRules m ++ [rule]) ≡ₚ rule :: routeRules m)
      by (rewrite routeRules_Sort_perm; by rewrite <- Permutation_cons_append).
    rewrite Hmap in Hin. split_and!.
    + split; simpl.
      * apply routeRules_Sort_sorted.
      * rewrite Hperm. simpl. by apply NoDup_cons.
      * intros id'. rewrite Hperm. simpl. rewrite elem_of_union, elem_of_singleton, elem_of_cons, Hmap. done.
      * intros r. rewrite Hperm. intros [->|?]%elem_of_cons; [done | by apply Hp].
    + simpl. rewrite Hperm. simpl. left.
    + intros r Hr. simpl. rewrite Hperm. by right.
Qed.

Lemma StronglySorted_app_cut {A} (R : relation A) l1 x l2 :
  StronglySorted R (l1 ++ x :: l2) → StronglySorted R (l1 ++ l2).
Proof.
  induction l1 as [|y l1 IH]; simpl; inversion 1 as [|? ? Hs Hf]; subst; [done|].
  constructor; [by apply IH|]. apply Forall_app in Hf as [? Hf]. apply Forall_cons in Hf as [_ ?].
  by apply Forall_app.
Qed.

Lemma removed_id_gone (l1 l2 : list RouteRule) r :
  NoDup (rr_id <$> (l1 ++ r :: l2)) → rr_id r ∉ rr_id <$> (l1 ++ l2).
Proof.
  rewrite !fmap_app, fmap_cons. intros (_ & Hd & Hn)%NoDup_app. apply NoDup_cons in Hn as [Hn _].
  rewrite elem_of_app. intros [Hin|Hin]; [|done]. apply (Hd _ Hin). left.
Qed.

Lemma deleteRouteRule_inv m id m' :
  route_inv m → deleteRouteRule m id = Some m' →
  route_inv m' ∧ ∀ r, r ∈ routeRules m' ↔ r ∈ routeRules m ∧ rr_id r ≠ id.
Proof.
  intros [Hs Hids Hmap Hp]. unfold deleteRouteRule.
  destruct (removeRuleByID rr_id (routeRules m) id) as [trimmed [r|]] eqn:E; [|done].
  intros [= <-]. apply removeRuleByID_spec in E as (Hid & l1 & l2 & Hl & ->).
  pose proof (removed_id_gone l1 l2 r) as Hgone. rewrite <- Hl in Hgone. specialize (Hgone Hids).
  assert (Hmem : ∀ x, x ∈ l1 ++ l2 ↔ x ∈ routeRules m ∧ rr_id x ≠ id).
  { intros x. rewrite Hl, !elem_of_app, elem_of_cons. split.
    - intros Hx. split; [tauto|]. intros E'. apply Hgone. rewrite Hid, <- E'.
      apply list_elem_of_fmap. exists x. split; [done|]. by apply elem_of_app.
    - intros [[?|[->|?]] Hne]; auto. by destruct Hne. }
  split; [|done]. rewrite Hl in Hs, Hids. split; simpl.
  - by eapply StronglySorted_app_cut.
  - rewrite fmap_app in *. rewrite fmap_cons in Hids. apply NoDup_app in Hids as (H1 & H2 & H3).
    apply NoDup_cons in H3 as [H3 H4]. apply NoDup_app. split_and!; auto.
    intros x Hx Hx'. apply (H2 x Hx). by right.
  - intros x. rewrite elem_of_difference, elem_of_singleton, Hmap, Hl.
    rewrite !list_elem_of_fmap. split.
    + intros [(y & -> & Hy) Hne]. exists y. split; [done|]. apply Hmem. by rewrite Hl.
    + intros (y & -> & Hy). apply Hmem in Hy as [Hy Hne]. rewrite Hl in Hy. eauto.
  - intros x Hx. apply Hmem in Hx as [Hx _]. by apply Hp.
Qed.

(** An update of destinations moves no rule. *)
Lemma UpdateSet_inv m set prefixes m' :
  route_inv m → UpdateSet m set prefixes = Some m' → route_inv m'.
Proof.
  intros [Hs Hids Hmap Hp]. unfold UpdateSet. destruct (filter _ (routeRules m)) as [|first rest]; [done|].
  intros [= <-]. set (ds := Compact _). set (f := λ r, if decide (rr_dstSet r = set) then _ else r).
  assert (Hf : ∀ r, rr_id (f r) = rr_id r ∧ rr_action (f r) = rr_action r ∧
            rr_srcPort (f r) = rr_srcPort r ∧ rr_dstPort (f r) = rr_dstPort r).
  { intros r. unfold f. by case_decide. }
  assert (Hid : rr_id <$> (f <$> routeRules m) = rr_id <$> routeRules m).
  { rewrite <- list_fmap_compose. apply list_fmap_ext. intros i r _. simpl. by destruct (Hf r). }
  split; simpl.
  - change (StronglySorted (cmp_le rr_cmp) (f <$> routeRules m)).
    eapply StronglySorted_fmap; [|exact Hs]. intros x y. unfold cmp_le, rr_cmp, rr_key.
    destruct (Hf x) as (-> & -> & _), (Hf y) as (-> & -> & _). done.
  - change (NoDup (rr_id <$> (f <$> routeRules m))). by rewrite Hid.
  - intros id. change (id ∈ routeRulesMap m ↔ id ∈ rr_id <$> (f <$> routeRules m)). by rewrite Hid.
  - intros r (x & -> & Hx)%list_elem_of_fmap. destruct (Hf x) as (_ & _ & H1 & H2).
    fold (f x). rewrite H1, H2. by apply Hp.
Qed.

(** ** The decision *)

(** The rule covers the packet, as a test. *)
Definition route_ok (r : RouteRule) (src dst : Addr) (pl : LayerType) (sp dp : Z) : bool :=
  (bool_decide (rr_protoLayer r = layerTypeAll) || protoLayerMatches (rr_protoLayer r) pl) &&
  (negb (bool_decide (pl = LayerTypeTCP) || bool_decide (pl = LayerTypeUDP)) ||
   (port_ok (rr_srcPort r) sp && port_ok (rr_dstPort r) dp)) &&
  prefixesContain (rr_destinations r) dst && prefixesContain (rr_sources r) src.

Lemma ruleMatches_ok r src dst pl sp dp :
  port_wf (rr_srcPort r) → port_wf (rr_dstPort r) →
  ruleMatches r src dst pl sp dp = Some (route_ok r src dst pl sp dp).
Proof.
  intros H1 H2. unfold ruleMatches, route_ok. rewrite !portsMatch_wf by done.
  destruct (bool_decide (rr_protoLayer r = layerTypeAll)), (protoLayerMatches _ pl),
    (bool_decide (pl = LayerTypeTCP)), (bool_decide (pl = LayerTypeUDP)), (port_ok (rr_srcPort r) sp),
    (port_ok (rr_dstPort r) dp), (prefixesContain (rr_destinations r) dst); done.
Qed.

Lemma route_scan_ok rules src dst pl sp dp :
  (∀ r, r ∈ rules → port_wf (rr_srcPort r) ∧ port_wf (rr_dstPort r)) →
  route_scan rules src dst pl sp dp =
  Some (match find_first (λ r, route_ok r src dst pl sp dp) rules with
        | Some r => (rr_mgmtId r, bool_decide (rr_action r = ActionAccept))
        | None => ([], false)
        end).
Proof.
  induction rules as [|r rules IH]; intros Hwf; cbn [route_scan find_first]; [done|].
  rewrite ruleMatches_ok by (apply Hwf; left). destruct (route_ok r src dst pl sp dp); [done|].
  apply IH. intros x Hx. apply Hwf. by right.
Qed.

(** In a sorted slice the first match is a deny rule if any deny rule
    matches. *)
Lemma first_match_deny (p : RouteRule → bool) rules r r' :
  StronglySorted (cmp_le rr_cmp) rules → find_first p rules = Some r →
  r' ∈ rules → p r' = true → rr_action r' = ActionDrop → rr_action r = ActionDrop.
Proof.
  induction 1 as [|x l Hl IH Hx]; cbn [find_first]; [done|].
  destruct (p x) eqn:Ex.
  - intros [= <-] [->|Hin]%elem_of_cons _ Hd; [done|].
    rewrite Forall_forall in Hx. eapply rr_cmp_deny; [by apply Hx | done].
  - intros Hf [->|Hin]%elem_of_cons Hp Hd; [congruence | by apply IH].
Qed.

Definition route_accepts (m : RouteACL) (src dst : Addr) (pl : LayerType) (sp dp : Z) : bool :=
  negb (existsb (λ r, bool_decide (rr_action r = ActionDrop) && route_ok r src dst pl sp dp) (routeRules m)) &&
  existsb (λ r, bool_decide (rr_action r = ActionAccept) && route_ok r src dst pl sp dp) (routeRules m).

Lemma routeACLsPass_spec m src dst pl sp dp :
  route_inv m → ∃ id, routeACLsPass m src dst pl sp dp = Some (id, route_accepts m src dst pl sp dp).
Proof.
  intros [Hs _ _ Hp]. unfold routeACLsPass. rewrite route_scan_ok by done.
  set (p := λ r, route_ok r src dst pl sp dp).
  destruct (find_first p (routeRules m)) as [r|] eqn:E.
  - exists (rr_mgmtId r). do 2 f_equal. pose proof (find_first_Some _ _ _ E) as [Hin Hpr].
    unfold route_accepts. apply eq_true_iff_eq. rewrite bool_decide_eq_true, andb_true_iff, negb_true_iff.
    split.
    + intros Ha. split.
      * apply not_true_is_false. intros (r' & Hr' & Hd)%existsb_exists. apply list_elem_of_In in Hr'.
        bools. destruct Hd as [Hd Hok].
        rewrite (first_match_deny p _ _ _ Hs E Hr' Hok Hd) in Ha. done.
      * apply existsb_exists. exists r. split; [by apply list_elem_of_In|]. bools. by split.
    + intros [Hno _]. destruct (rr_action r) eqn:Ha; [done|]. exfalso.
      apply not_true_iff_false in Hno. apply Hno, existsb_exists. exists r.
      split; [by apply list_elem_of_In|]. bools. by split.
  - exists []. do 2 f_equal. unfold route_accepts. symmetry. apply andb_false_iff. right.
    apply not_true_is_false. intros (r & Hr & Hd)%existsb_exists. apply list_elem_of_In in Hr.
    bools. destruct Hd as [_ Hok]. rewrite find_first_None in E. specialize (E r Hr). unfold p in E. congruence.
Qed.

(** ** Runs *)

Inductive RouteOp :=
| AddRoute (id : list Z) (sources : list Prefix) (destination : Network) (proto : Protocol)
    (sPort dPort : option Port) (action : Action)
| DeleteRoute (id : RuleID)
| UpdateRouteSet (set : Set_) (prefixes : list Prefix).

Definition route_op_wf (o : RouteOp) : Prop :=
  match o with
  | AddRoute _ _ _ _ sp dp _ => port_wf sp ∧ port_wf dp
  | UpdateRouteSet set _ => set ≠ SetZero
  | DeleteRoute _ => True
  end.

Section RouteRuns.
Context (sha256 : string → list Z).

(** A call that returns an error changes nothing. *)
Definition route_step (m : RouteACL) (o : RouteOp) : option RouteACL :=
  Some match o with
       | AddRoute id s d pr sp dp a => (addRouteRule sha256 m id s d pr sp dp a).1
       | DeleteRoute id => default m (deleteRouteRule m id)
       | UpdateRouteSet set ps => default m (UpdateSet m set ps)
       end.

Definition route_run : RouteACL → list RouteOp → option RouteACL := run route_step.

Lemma route_step_inv m o m' :
  route_inv m → route_op_wf o → route_step m o = Some m' → route_inv m'.
Proof.
  intros Hinv. destruct o; simpl; intros Hwf [= <-].
  - destruct Hwf as [? ?].
    destruct (addRouteRule sha256 m id sources destination proto sPort dPort action) as [m1 rid] eqn:E.
    by destruct (addRouteRule_inv _ _ _ _ _ _ _ _ _ _ _ Hinv H H0 E).
  - destruct (deleteRouteRule m id) as [m1|] eqn:E; simpl; [|done].
    by destruct (deleteRouteRule_inv _ _ _ Hinv E).
  - destruct (UpdateSet m set prefixes) as [m1|] eqn:E; simpl; [|done]. by eapply UpdateSet_inv.
Qed.

Lemma route_run_inv ops m m' :
  route_inv m → Forall route_op_wf ops → route_run m ops = Some m' → route_inv m'.
Proof.
  intros Hinv Hops. revert m Hinv. induction Hops as [|o ops Ho Hops IH]; intros m Hinv; simpl;
    [by intros [= <-]|]. apply IH. by eapply route_step_inv.
Qed.

(** After any sequence of route-rule additions, deletions and set
    updates, a routed packet passes exactly when some accept rule matches
    it and no deny rule does; the decision never panics. *)
Theorem route_acl_decision ops m src dst pl sp dp :
  Forall route_op_wf ops → route_run NewRouteACL ops = Some m →
  ∃ id, routeACLsPass m src dst pl sp dp = Some (id, route_accepts m src dst pl sp dp).
Proof.
  intros Hops Hrun. apply routeACLsPass_spec. eapply route_run_inv; [|done..]. apply NewRouteACL_inv.
Qed.

(** A rule without set stays as long as it is not deleted. *)
Lemma route_step_keeps m o m' r :
  route_inv m → route_op_wf o → route_step m o = Some m' →
  o ≠ DeleteRoute (rr_id r) → rr_dstSet r = SetZero → r ∈ routeRules m → r ∈ routeRules m'.
Proof.
  intros Hinv. destruct o; simpl; intros Hwf [= <-] Hne Hset Hr.
  - destruct Hwf as [? ?].
    destruct (addRouteRule sha256 m id sources destination proto sPort dPort action) as [m1 rid] eqn:E.
    destruct (addRouteRule_inv _ _ _ _ _ _ _ _ _ _ _ Hinv H H0 E) as (_ & _ & Hk). by apply Hk.
  - destruct (deleteRouteRule m id) as [m1|] eqn:E; simpl; [|done].
    destruct (deleteRouteRule_inv _ _ _ Hinv E) as [_ Hk]. apply Hk. split; [done|]. congruence.
  - destruct (UpdateSet m set prefixes) as [m1|] eqn:E; simpl; [|done]. revert E. unfold UpdateSet.
    destruct (filter _ (routeRules m)); [done|]. intros [= <-]. simpl. apply list_elem_of_fmap.
    exists r. split; [|done]. rewrite decide_False; [done|]. congruence.
Qed.

Lemma route_run_keeps ops m m' r :
  route_inv m → Forall route_op_wf ops → route_run m ops = Some m' →
  DeleteRoute (rr_id r) ∉ ops → rr_dstSet r = SetZero → r ∈ routeRules m → r ∈ routeRules m'.
Proof.
  intros Hinv Hops. revert m Hinv.
  induction Hops as [|o ops Ho Hops IH]; intros m Hinv; cbn [route_run run]; [by intros [= <-]|].
  destruct (route_step m o) as [m1|] eqn:E; [|done]. intros Hrun Hni Hset Hr.
  apply not_elem_of_cons in Hni as [Hne Hni]. eapply (IH m1); [by eapply route_step_inv|done..|].
  eapply route_step_keeps; eauto.
Qed.

Definition overlay_sources (v6Net : Prefix) : list Prefix :=
  PrefixFrom IPv4Unspecified 0 ::
  (if prefix_IsValid v6Net then [PrefixFrom IPv6Unspecified 0] else []).

Definition overlay_id (wgNet v6Net : Prefix) : RuleID :=
  GenerateRuleID sha256 (overlay_sources v6Net) (NetworkOf wgNet) ProtocolALL None None ActionDrop.

Lemma blockInvalidRouted_keeps m wgNet v6Net m' ids :
  route_inv m → blockInvalidRouted sha256 m wgNet v6Net = (m', ids) →
  route_inv m' ∧
  ∀ r, r ∈ routeRules (addRouteRule sha256 m [] (overlay_sources v6Net) (NetworkOf wgNet)
          ProtocolALL None None ActionDrop).1 → r ∈ routeRules m'.
Proof.
  intros Hinv. unfold blockInvalidRouted. fold (overlay_sources v6Net).
  destruct (addRouteRule sha256 m [] (overlay_sources v6Net) (NetworkOf wgNet) _ _ _ _) as [m1 v4] eqn:E1.
  destruct (addRouteRule_inv _ _ _ _ _ _ None None _ _ _ Hinv I I E1) as (Hi1 & _ & _).
  destruct (prefix_IsValid v6Net).
  - destruct (addRouteRule sha256 m1 _ _ (NetworkOf v6Net) _ _ _ _) as [m2 v6] eqn:E2.
    intros [= <- <-].
    by destruct (addRouteRule_inv _ _ _ _ _ _ None None _ _ _ Hi1 I I E2) as (Hi2 & _ & Hk).
  - by intros [= <- <-].
Qed.

Lemma any_v4 v : in_width 32 v → prefix_Contains (PrefixFrom IPv4Unspecified 0) (AddrV4 v) = true.
Proof.
  intros Hv. unfold prefix_Contains, PrefixFrom, IPv4Unspecified, prefix_IsValid. cbn -[Z.shiftr Z.lxor].
  rewrite Z.lxor_0_r. apply Z.eqb_eq. apply Z.shiftr_eq_0; unfold in_width in Hv; [lia|].
  destruct (decide (v = 0)) as [->|]; [done|]. apply Z.log2_lt_pow2; lia.
Qed.

(** Once the overlay network is blocked, no IPv4 packet addressed into
    it is ever routed, whatever rules are added, updated or deleted later,
    as long as the block rule itself is not deleted. *)
Theorem overlay_never_routed ops0 m wgNet v6Net m1 ids ops m2 v dst pl sp dp :
  Forall route_op_wf ops0 → route_run NewRouteACL ops0 = Some m →
  overlay_id wgNet v6Net ∉ routeRulesMap m →
  blockInvalidRouted sha256 m wgNet v6Net = (m1, ids) →
  Forall route_op_wf ops → route_run m1 ops = Some m2 → DeleteRoute (overlay_id wgNet v6Net) ∉ ops →
  in_width 32 v → prefix_Contains wgNet dst = true →
  ∃ id, routeACLsPass m2 (AddrV4 v) dst pl sp dp = Some (id, false).
Proof.
  intros Hops0 Hrun0 Hfresh Hblock Hops Hrun Hdel Hv Hdst.
  pose proof (route_run_inv ops0 NewRouteACL m NewRouteACL_inv Hops0 Hrun0) as Hinv.
  destruct (blockInvalidRouted_keeps _ _ _ _ _ Hinv Hblock) as [Hinv1 Hkeep].
  pose proof (route_run_inv ops m1 m2 Hinv1 Hops Hrun) as Hinv2.
  destruct (routeACLsPass_spec m2 (AddrV4 v) dst pl sp dp Hinv2) as [id Hpass]. exists id.
  rewrite Hpass. do 2 f_equal. unfold route_accepts. apply andb_false_iff. left. apply negb_false_iff.
  set (rule := {| rr_id := overlay_id wgNet v6Net; rr_mgmtId := []; rr_sources := overlay_sources v6Net;
         rr_dstSet := SetZero;
         rr_destinations := if net_IsPrefix (NetworkOf wgNet) then [wgNet] else [];
         rr_protoLayer := protoToLayer ProtocolALL (ipLayerFromPrefix wgNet);
         rr_srcPort := None; rr_dstPort := None; rr_action := ActionDrop |}).
  assert (Hr1 : rule ∈ routeRules m1).
  { apply Hkeep. unfold addRouteRule. fold (overlay_id wgNet v6Net). rewrite decide_False by done.
    cbn [fst routeRules]. rewrite routeRules_Sort_perm, elem_of_app. right. left. }
  assert (Hr2 : rule ∈ routeRules m2) by (by eapply (route_run_keeps ops m1 m2 rule)).
  apply existsb_exists. exists rule. split; [by apply list_elem_of_In|].
  apply andb_true_iff. split; [done|]. unfold route_ok. cbn [rr_destinations rr_sources rule].
  assert (Hp : net_IsPrefix (NetworkOf wgNet) = true).
  { unfold net_IsPrefix. cbn. unfold prefix_Contains in Hdst. by bools; destruct Hdst as [[[[? _] _] _] _]. }
  rewrite Hp. unfold prefixesContain, overlay_sources. cbn [existsb]. rewrite Hdst, any_v4 by done.
  simpl. by rewrite orb_true_r.
Qed.
End RouteRuns.

(** ** Set updates *)

Lemma elem_of_Compact l x : x ∈ Compact l ↔ x ∈ l.
Proof.
  induction l as [|a l IH]; [done|]. cbn [Compact]. destruct l as [|b l]; [done|].
  case_decide as E; [subst|]; rewrite ?elem_of_cons, ?IH; rewrite ?elem_of_cons; tauto.
Qed.

(** A set update gives all rules of the set the same destinations: what
    the first of them had, plus the new prefixes, each once; rules of other
    sets keep theirs. *)
Theorem UpdateSet_spec m set prefixes m' :
  UpdateSet m set prefixes = Some m' →
  ∃ first ds, first ∈ routeRules m ∧ rr_dstSet first = set ∧
    (∀ p, p ∈ ds ↔ p ∈ rr_destinations first ∨ p ∈ prefixes) ∧
    routeRules m' = (λ r, if decide (rr_dstSet r = set) then set_destinations ds r else r) <$> routeRules m.
Proof.
  unfold UpdateSet. destruct (filter _ (routeRules m)) as [|first rest] eqn:E; [done|]. intros [= <-].
  assert (Hf : first ∈ filter (λ r, rr_dstSet r = set) (routeRules m)) by (rewrite E; left).
  apply list_elem_of_filter in Hf as [Hset Hin].
  exists first, (Compact (sort_by dest_cmp (rr_destinations first ++ prefixes))). split_and!; try done.
  intros p. rewrite elem_of_Compact, sort_by_perm, elem_of_app. done.
Qed.

Definition rw_sha (s : string) : list Z := reverse (codes s).
Definition rw_set : Set_ := {| set_hash := [1; 2; 3; 4]; set_comment := "example.com" |}.
Definition rw_any : list Prefix := [PrefixFrom IPv4Unspecified 0].
Definition rw_p1 : Prefix := PrefixFrom (AddrV4 16843009) 32.
Definition rw_p2 : Prefix := PrefixFrom (AddrV4 33686018) 32.
Definition rw_dest : Network := {| net_Set := rw_set; net_Prefix := PrefixZero |}.

(** The merge looks at one rule only: when a second rule of the same set
    sorts before the first, the next update forgets every address resolved
    before.  Here an accept rule for a resolved set loses its first address
    as soon as a deny rule on another port for the same set is added and the
    set is updated with another address. *)
Theorem UpdateSet_forgets :
  ∃ m m', route_run rw_sha NewRouteACL
      [AddRoute [1] rw_any rw_dest ProtocolTCP None None ActionAccept;
       UpdateRouteSet rw_set [rw_p1];
       AddRoute [2] rw_any rw_dest ProtocolTCP None (Some {| IsRange := false; Values := [22] |}) ActionDrop]
      = Some m ∧
    routeACLsPass m (AddrV4 1) (AddrV4 16843009) LayerTypeTCP 1000 443 = Some ([1], true) ∧
    UpdateSet m rw_set [rw_p2] = Some m' ∧
    routeACLsPass m' (AddrV4 1) (AddrV4 16843009) LayerTypeTCP 1000 443 = Some ([], false).
Proof.
  do 2 eexists. split; [vm_compute; reflexivity|]. split; [vm_compute; reflexivity|].
  split; vm_compute; reflexivity.
Qed.

(** ** Witnesses *)

Definition rw_net : Prefix := PrefixFrom (AddrV4 1684275200) 10.
Definition rw_ops : list RouteOp := [AddRoute [1] rw_any (NetworkOf rw_net) ProtocolALL None None ActionAccept].
Definition rw_acl : RouteACL := default NewRouteACL (route_run rw_sha NewRouteACL rw_ops).

Lemma rw_wf : Forall route_op_wf rw_ops.
Proof. constructor; [|constructor]. split; exact I. Qed.

Lemma rw_run : route_run rw_sha NewRouteACL rw_ops = Some rw_acl.
Proof. reflexivity. Qed.

Lemma route_acl_decision_witness :
  ∃ id, routeACLsPass rw_acl (AddrV4 1) (AddrV4 1684300801) LayerTypeUDP 1 2 =
    Some (id, route_accepts rw_acl (AddrV4 1) (AddrV4 1684300801) LayerTypeUDP 1 2).
Proof. exact (route_acl_decision rw_sha rw_ops rw_acl _ _ _ _ _ rw_wf rw_run). Defined.

Lemma overlay_never_routed_witness :
  ∃ id, routeACLsPass (blockInvalidRouted rw_sha rw_acl rw_net PrefixZero).1 (AddrV4 1)
    (AddrV4 1684300801) LayerTypeUDP 1 2 = Some (id, false).
Proof.
  apply (overlay_never_routed rw_sha rw_ops rw_acl rw_net PrefixZero
    (blockInvalidRouted rw_sha rw_acl rw_net PrefixZero).1
    (blockInvalidRouted rw_sha rw_acl rw_net PrefixZero).2 []).
  - exact rw_wf.
  - exact rw_run.
  - apply (bool_decide_unpack _). vm_compute. exact I.
  - apply surjective_pairing.
  - constructor.
  - reflexivity.
  - intros H. by apply elem_of_nil in H.
  - unfold in_width. lia.
  - vm_compute. reflexivity.
Defined.

Lemma UpdateSet_spec_witness :
  ∃ m', UpdateSet (default NewRouteACL (route_run rw_sha NewRouteACL
      [AddRoute [1] rw_any rw_dest ProtocolTCP None None ActionAccept])) rw_set [rw_p1] = Some m' ∧
    ∃ ds, rw_p1 ∈ ds ∧ rr_destinations <$> routeRules m' = [ds].
Proof.
  set (m := default _ _).
  assert (H : UpdateSet m rw_set [rw_p1] = Some (default m (UpdateSet m rw_set [rw_p1])))
    by (apply some_default; vm_compute; reflexivity).
  destruct (UpdateSet_spec m rw_set [rw_p1] _ H) as (first & ds & _ & _ & Hds & Hr).
  exists (default m (UpdateSet m rw_set [rw_p1])). split; [exact H|].
  exists ds. split; [apply Hds; right; left|]. rewrite Hr. reflexivity.
Defined.
