(* ===== verification/Filter.v ===== *)
(** * The packet filter

    [client/firewall/uspfilter/filter.go]: the [Manager] with its rule
    stores, trackers, fragment verdicts and translation state, and the two
    packet paths.  A tracker that was not created is the nil pointer, and a
    call on it panics; a panic of any kind is the result [None].

    What the filter only calls is a parameter: the packet parser (gopacket),
    what the forwarder does with a packet, and the outbound hooks. *)
From S2P Require Import Prelude NetIP Bytes Order FwTypes ConnTrack TCPTrack TimedTable UDPTrack.
From S2P Require Import ICMPTrack Fragment PeerRules RouteRules Checksum DNAT.
Open Scope Z_scope.

Record PacketHook := { hook_IP : Addr; hook_Port : Z; hook_Fn : list Z → bool }.

Definition HookMatches (h : option PacketHook) (dstIP : Addr) (dport : Z) (p : list Z) : bool :=
  match h with
  | None => false
  | Some h => if bool_decide (hook_IP h = dstIP) && (hook_Port h =? dport) then hook_Fn h p else false
  end.

Definition SetHook (ip : Addr) (dPort : Z) (hook : option (list Z → bool)) : option PacketHook :=
  match hook with
  | None => None
  | Some f => Some {| hook_IP := ip; hook_Port := dPort; hook_Fn := f |}
  end.

(** What the filter uses of the forwarder: the rule identifiers it keeps per
    flow and the packets it was given (what becomes of them is outside). *)
Record Forwarder := { ruleIdMap : gmap ConnKey (list Z); injected : list (list Z) }.

Definition NewForwarder : Forwarder := {| ruleIdMap := ∅; injected := [] |}.

(** [sync.Map.LoadOrStore]. *)
Definition RegisterRuleID (f : Forwarder) (src dst : Addr) (sp dp : Z) (ruleID : list Z) : Forwarder :=
  match ruleIdMap f !! MkKey src dst sp dp with
  | Some _ => f
  | None => {| ruleIdMap := <[MkKey src dst sp dp := ruleID]> (ruleIdMap f); injected := injected f |}
  end.

Definition getRuleID (f : Forwarder) (src dst : Addr) (sp dp : Z) : option (list Z) :=
  match ruleIdMap f !! MkKey src dst sp dp with
  | Some v => Some v
  | None => ruleIdMap f !! MkKey dst src dp sp
  end.

Definition DeleteRuleID (f : Forwarder) (src dst : Addr) (sp dp : Z) : Forwarder :=
  match ruleIdMap f !! MkKey src dst sp dp with
  | Some _ => {| ruleIdMap := delete (MkKey src dst sp dp) (ruleIdMap f); injected := injected f |}
  | None => {| ruleIdMap := delete (MkKey dst src dp sp) (ruleIdMap f); injected := injected f |}
  end.

(** The forwarder after the call and whether there was no error. *)
Definition InjectIncomingPacket (f : Forwarder) (payload : list Z) : Forwarder * bool :=
  let accept := ({| ruleIdMap := ruleIdMap f; injected := injected f ++ [payload] |}, true) in
  match payload with
  | [] => (f, false)
  | b :: _ =>
      let version := Z.shiftr b 4 in
      if version =? 4 then if (length payload <? 20)%nat then (f, false) else accept
      else if version =? 6 then if (length payload <? 40)%nat then (f, false) else accept
      else (f, false)
  end.

(** The overlay interface: its addresses and networks. *)
Record WGAddress := { wg_IP : Addr; wg_Network : Prefix; wg_IPv6 : Addr; wg_IPv6Net : Prefix }.

Record Manager := {
  m_acl : PeerACL;
  m_routes : RouteACL;
  m_disableServerRoutes : bool;
  m_routingEnabled : bool;
  m_nativeRouter : bool;
  m_stateful : bool;
  m_netstack : bool;
  m_localForwarding : bool;
  m_localIPs : gset Addr;
  m_wg : WGAddress;
  m_udpTracker : option UDPTracker;
  m_icmpTracker : option ICMPTracker;
  m_tcpTracker : option TCPTracker;
  m_fragments : fragmentTracker;
  m_forwarder : option Forwarder;
  m_blockRules : list RuleID;
  m_dnat : DNATState;
  m_services : gset (LayerType * Z);
  m_mssClampEnabled : bool;
  m_mssClampValueIPv4 : Z;
  m_mssClampValueIPv6 : Z;
  m_udpHookOut : option PacketHook;
  m_tcpHookOut : option PacketHook;
  m_drops : list EventFields;
}.

(** Field updates. *)
Definition with_trackers (u : option UDPTracker) (i : option ICMPTracker) (t : option TCPTracker) (m : Manager) : Manager :=
  {| m_acl := m_acl m; m_routes := m_routes m; m_disableServerRoutes := m_disableServerRoutes m;
     m_routingEnabled := m_routingEnabled m; m_nativeRouter := m_nativeRouter m;
     m_stateful := m_stateful m; m_netstack := m_netstack m; m_localForwarding := m_localForwarding m;
     m_localIPs := m_localIPs m; m_wg := m_wg m; m_udpTracker := u; m_icmpTracker := i;
     m_tcpTracker := t; m_fragments := m_fragments m; m_forwarder := m_forwarder m;
     m_blockRules := m_blockRules m; m_dnat := m_dnat m; m_services := m_services m;
     m_mssClampEnabled := m_mssClampEnabled m; m_mssClampValueIPv4 := m_mssClampValueIPv4 m;
     m_mssClampValueIPv6 := m_mssClampValueIPv6 m; m_udpHookOut := m_udpHookOut m;
     m_tcpHookOut := m_tcpHookOut m; m_drops := m_drops m |}.

Definition with_udp (u : UDPTracker) (m : Manager) : Manager :=
  with_trackers (Some u) (m_icmpTracker m) (m_tcpTracker m) m.
Definition with_icmp (i : ICMPTracker) (m : Manager) : Manager :=
  with_trackers (m_udpTracker m) (Some i) (m_tcpTracker m) m.
Definition with_tcp (t : TCPTracker) (m : Manager) : Manager :=
  with_trackers (m_udpTracker m) (m_icmpTracker m) (Some t) m.

Definition with_fragments (f : fragmentTracker) (m : Manager) : Manager :=
  {| m_acl := m_acl m; m_routes := m_routes m; m_disableServerRoutes := m_disableServerRoutes m;
     m_routingEnabled := m_routingEnabled m; m_nativeRouter := m_nativeRouter m;
     m_stateful := m_stateful m; m_netstack := m_netstack m; m_localForwarding := m_localForwarding m;
     m_localIPs := m_localIPs m; m_wg := m_wg m; m_udpTracker := m_udpTracker m;
     m_icmpTracker := m_icmpTracker m; m_tcpTracker := m_tcpTracker m; m_fragments := f;
     m_forwarder := m_forwarder m; m_blockRules := m_blockRules m; m_dnat := m_dnat m;
     m_services := m_services m; m_mssClampEnabled := m_mssClampEnabled m;
     m_mssClampValueIPv4 := m_mssClampValueIPv4 m; m_mssClampValueIPv6 := m_mssClampValueIPv6 m;
     m_udpHookOut := m_udpHookOut m; m_tcpHookOut := m_tcpHookOut m; m_drops := m_drops m |}.

Definition with_drop (e : EventFields) (m : Manager) : Manager :=
  {| m_acl := m_acl m; m_routes := m_routes m; m_disableServerRoutes := m_disableServerRoutes m;
     m_routingEnabled := m_routingEnabled m; m_nativeRouter := m_nativeRouter m;
     m_stateful := m_stateful m; m_netstack := m_netstack m; m_localForwarding := m_localForwarding m;
     m_localIPs := m_localIPs m; m_wg := m_wg m; m_udpTracker := m_udpTracker m;
     m_icmpTracker := m_icmpTracker m; m_tcpTracker := m_tcpTracker m; m_fragments := m_fragments m;
     m_forwarder := m_forwarder m; m_blockRules := m_blockRules m; m_dnat := m_dnat m;
     m_services := m_services m; m_mssClampEnabled := m_mssClampEnabled m;
     m_mssClampValueIPv4 := m_mssClampValueIPv4 m; m_mssClampValueIPv6 := m_mssClampValueIPv6 m;
     m_udpHookOut := m_udpHookOut m; m_tcpHookOut := m_tcpHookOut m; m_drops := m_drops m ++ [e] |}.

Definition with_routing (routing native : bool) (m : Manager) : Manager :=
  {| m_acl := m_acl m; m_routes := m_routes m; m_disableServerRoutes := m_disableServerRoutes m;
     m_routingEnabled := routing; m_nativeRouter := native; m_stateful := m_stateful m;
     m_netstack := m_netstack m; m_localForwarding := m_localForwarding m; m_localIPs := m_localIPs m;
     m_wg := m_wg m; m_udpTracker := m_udpTracker m; m_icmpTracker := m_icmpTracker m;
     m_tcpTracker := m_tcpTracker m; m_fragments := m_fragments m; m_forwarder := m_forwarder m;
     m_blockRules := m_blockRules m; m_dnat := m_dnat m; m_services := m_services m;
     m_mssClampEnabled := m_mssClampEnabled m; m_mssClampValueIPv4 := m_mssClampValueIPv4 m;
     m_mssClampValueIPv6 := m_mssClampValueIPv6 m; m_udpHookOut := m_udpHookOut m;
     m_tcpHookOut := m_tcpHookOut m; m_drops := m_drops m |}.

Definition with_forwarder (f : option Forwarder) (m : Manager) : Manager :=
  {| m_acl := m_acl m; m_routes := m_routes m; m_disableServerRoutes := m_disableServerRoutes m;
     m_routingEnabled := m_routingEnabled m; m_nativeRouter := m_nativeRouter m;
     m_stateful := m_stateful m; m_netstack := m_netstack m; m_localForwarding := m_localForwarding m;
     m_localIPs := m_localIPs m; m_wg := m_wg m; m_udpTracker := m_udpTracker m;
     m_icmpTracker := m_icmpTracker m; m_tcpTracker := m_tcpTracker m; m_fragments := m_fragments m;
     m_forwarder := f; m_blockRules := m_blockRules m; m_dnat := m_dnat m; m_services := m_services m;
     m_mssClampEnabled := m_mssClampEnabled m; m_mssClampValueIPv4 := m_mssClampValueIPv4 m;
     m_mssClampValueIPv6 := m_mssClampValueIPv6 m; m_udpHookOut := m_udpHookOut m;
     m_tcpHookOut := m_tcpHookOut m; m_drops := m_drops m |}.

Definition with_rules (acl : PeerACL) (routes : RouteACL) (blocks : list RuleID) (m : Manager) : Manager :=
  {| m_acl := acl; m_routes := routes; m_disableServerRoutes := m_disableServerRoutes m;
     m_routingEnabled := m_routingEnabled m; m_nativeRouter := m_nativeRouter m;
     m_stateful := m_stateful m; m_netstack := m_netstack m; m_localForwarding := m_localForwarding m;
     m_localIPs := m_localIPs m; m_wg := m_wg m; m_udpTracker := m_udpTracker m;
     m_icmpTracker := m_icmpTracker m; m_tcpTracker := m_tcpTracker m; m_fragments := m_fragments m;
     m_forwarder := m_forwarder m; m_blockRules := blocks; m_dnat := m_dnat m;
     m_services := m_services m; m_mssClampEnabled := m_mssClampEnabled m;
     m_mssClampValueIPv4 := m_mssClampValueIPv4 m; m_mssClampValueIPv6 := m_mssClampValueIPv6 m;
     m_udpHookOut := m_udpHookOut m; m_tcpHookOut := m_tcpHookOut m; m_drops := m_drops m |}.

Definition with_dnat (s : DNATState) (m : Manager) : Manager :=
  {| m_acl := m_acl m; m_routes := m_routes m; m_disableServerRoutes := m_disableServerRoutes m;
     m_routingEnabled := m_routingEnabled m; m_nativeRouter := m_nativeRouter m;
     m_stateful := m_stateful m; m_netstack := m_netstack m; m_localForwarding := m_localForwarding m;
     m_localIPs := m_localIPs m; m_wg := m_wg m; m_udpTracker := m_udpTracker m;
     m_icmpTracker := m_icmpTracker m; m_tcpTracker := m_tcpTracker m; m_fragments := m_fragments m;
     m_forwarder := m_forwarder m; m_blockRules := m_blockRules m; m_dnat := s;
     m_services := m_services m; m_mssClampEnabled := m_mssClampEnabled m;
     m_mssClampValueIPv4 := m_mssClampValueIPv4 m; m_mssClampValueIPv6 := m_mssClampValueIPv6 m;
     m_udpHookOut := m_udpHookOut m; m_tcpHookOut := m_tcpHookOut m; m_drops := m_drops m |}.

Definition with_services (s : gset (LayerType * Z)) (m : Manager) : Manager :=
  {| m_acl := m_acl m; m_routes := m_routes m; m_disableServerRoutes := m_disableServerRoutes m;
     m_routingEnabled := m_routingEnabled m; m_nativeRouter := m_nativeRouter m;
     m_stateful := m_stateful m; m_netstack := m_netstack m; m_localForwarding := m_localForwarding m;
     m_localIPs := m_localIPs m; m_wg := m_wg m; m_udpTracker := m_udpTracker m;
     m_icmpTracker := m_icmpTracker m; m_tcpTracker := m_tcpTracker m; m_fragments := m_fragments m;
     m_forwarder := m_forwarder m; m_blockRules := m_blockRules m; m_dnat := m_dnat m; m_services := s;
     m_mssClampEnabled := m_mssClampEnabled m; m_mssClampValueIPv4 := m_mssClampValueIPv4 m;
     m_mssClampValueIPv6 := m_mssClampValueIPv6 m; m_udpHookOut := m_udpHookOut m;
     m_tcpHookOut := m_tcpHookOut m; m_drops := m_drops m |}.

Definition with_hooks (u t : option PacketHook) (m : Manager) : Manager :=
  {| m_acl := m_acl m; m_routes := m_routes m; m_disableServerRoutes := m_disableServerRoutes m;
     m_routingEnabled := m_routingEnabled m; m_nativeRouter := m_nativeRouter m;
     m_stateful := m_stateful m; m_netstack := m_netstack m; m_localForwarding := m_localForwarding m;
     m_localIPs := m_localIPs m; m_wg := m_wg m; m_udpTracker := m_udpTracker m;
     m_icmpTracker := m_icmpTracker m; m_tcpTracker := m_tcpTracker m; m_fragments := m_fragments m;
     m_forwarder := m_forwarder m; m_blockRules := m_blockRules m; m_dnat := m_dnat m;
     m_services := m_services m; m_mssClampEnabled := m_mssClampEnabled m;
     m_mssClampValueIPv4 := m_mssClampValueIPv4 m; m_mssClampValueIPv6 := m_mssClampValueIPv6 m;
     m_udpHookOut := u; m_tcpHookOut := t; m_drops := m_drops m |}.

Definition with_localIPs (ips : gset Addr) (m : Manager) : Manager :=
  {| m_acl := m_acl m; m_routes := m_routes m; m_disableServerRoutes := m_disableServerRoutes m;
     m_routingEnabled := m_routingEnabled m; m_nativeRouter := m_nativeRouter m;
     m_stateful := m_stateful m; m_netstack := m_netstack m; m_localForwarding := m_localForwarding m;
     m_localIPs := ips; m_wg := m_wg m; m_udpTracker := m_udpTracker m;
     m_icmpTracker := m_icmpTracker m; m_tcpTracker := m_tcpTracker m; m_fragments := m_fragments m;
     m_forwarder := m_forwarder m; m_blockRules := m_blockRules m; m_dnat := m_dnat m;
     m_services := m_services m; m_mssClampEnabled := m_mssClampEnabled m;
     m_mssClampValueIPv4 := m_mssClampValueIPv4 m; m_mssClampValueIPv6 := m_mssClampValueIPv6 m;
     m_udpHookOut := m_udpHookOut m; m_tcpHookOut := m_tcpHookOut m; m_drops := m_drops m |}.

(** ** Creation *)

(** [strconv.ParseBool]; an error gives false. *)
Definition ParseBool (s : string) : bool :=
  contains ["1"; "t"; "T"; "TRUE"; "true"; "True"] s.

Definition parseCreateEnv (Getenv : string → string) : bool * bool * bool :=
  let flag name := let v := Getenv name in if String.eqb v "" then false else ParseBool v in
  let disableConntrack := flag "NB_DISABLE_CONNTRACK" in
  let enableLocalForwarding :=
    if negb (String.eqb (Getenv "NB_ENABLE_NETSTACK_LOCAL_FORWARDING") "")
    then ParseBool (Getenv "NB_ENABLE_NETSTACK_LOCAL_FORWARDING")
    else flag "NB_ENABLE_LOCAL_FORWARDING" in
  (disableConntrack, enableLocalForwarding, flag "NB_DISABLE_MSS_CLAMPING").

(** The two clamp values for an MTU. *)
Definition enableMSSClamping (mtu : Z) : Z * Z :=
  (if 40 <? mtu then mtu - 40 else 0, if 60 <? mtu then mtu - 60 else 0).

Definition setupConntrack (Getenv : string → string) (ParseDuration : string → option Z)
    (disabled : bool) : option UDPTracker * option ICMPTracker * option TCPTracker :=
  if disabled then (None, None, None)
  else (Some (NewUDPTracker Getenv DefaultUDPTimeout), Some (NewICMPTracker Getenv DefaultICMPTimeout),
        Some (NewTCPTracker Getenv ParseDuration DefaultTCPTimeout)).

(** [Create] when the host lets it succeed; [fwd] is whether the forwarder
    could be initialised (it is only tried in netstack mode with local
    forwarding). *)
Definition Create (Getenv : string → string) (ParseDuration : string → option Z)
    (disableServerRoutes netstack fwd : bool) (wg : WGAddress)
    (interfaces : option (list (option (list (option Addr))))) (mtu : Z) : Manager :=
  let '(disableConntrack, enableLocalForwarding, disableMSSClamping) := parseCreateEnv Getenv in
  let '(u, i, t) := setupConntrack Getenv ParseDuration disableConntrack in
  let '(mss4, mss6) := if disableMSSClamping then (0, 0) else enableMSSClamping mtu in
  {| m_acl := NewPeerACL; m_routes := NewRouteACL; m_disableServerRoutes := disableServerRoutes;
     m_routingEnabled := false; m_nativeRouter := false; m_stateful := negb disableConntrack;
     m_netstack := netstack; m_localForwarding := enableLocalForwarding;
     m_localIPs := UpdateLocalIPs (Some (wg_IP wg, wg_IPv6 wg)) interfaces; m_wg := wg;
     m_udpTracker := u; m_icmpTracker := i; m_tcpTracker := t;
     m_fragments := newFragmentTracker Getenv;
     m_forwarder := if netstack && enableLocalForwarding && fwd then Some NewForwarder else None;
     m_blockRules := []; m_dnat := NewDNATState; m_services := ∅;
     m_mssClampEnabled := negb disableMSSClamping; m_mssClampValueIPv4 := mss4;
     m_mssClampValueIPv6 := mss6; m_udpHookOut := None; m_tcpHookOut := None; m_drops := [] |}.

(** ** Reading a decoded packet *)

Definition extractIPs (d : decoder) : option (Addr * Addr) :=
  match decoded d !! 0%nat with
  | None => None
  | Some LayerTypeIPv4 =>
      Some (Unmap (AddrFromSlice (ip4_SrcIP (d_ip4 d))), Unmap (AddrFromSlice (ip4_DstIP (d_ip4 d))))
  | Some LayerTypeIPv6 =>
      Some (Unmap (AddrFromSlice (ip6_SrcIP (d_ip6 d))), Unmap (AddrFromSlice (ip6_DstIP (d_ip6 d))))
  | Some _ => Some (AddrInvalid, AddrInvalid)
  end.

Definition getTCPFlags (t : TCPLayer) : Z :=
  let flags := 0 in
  let flags := if tcp_SYN t then Z.lor flags TCPSyn else flags in
  let flags := if tcp_ACK t then Z.lor flags TCPAck else flags in
  let flags := if tcp_FIN t then Z.lor flags TCPFin else flags in
  let flags := if tcp_RST t then Z.lor flags TCPRst else flags in
  let flags := if tcp_PSH t then Z.lor flags TCPPush else flags in
  if tcp_URG t then Z.lor flags TCPUrg else flags.

(** The echo identifier, and type and code mapped to ICMPv4. *)
Definition icmpv6EchoFields (d : decoder) : Z * (Z * Z) :=
  let p := icmp6_Payload (d_icmp6 d) in
  let id := if (2 <=? length p)%nat then at_ p 0 * 256 + at_ p 1 else 0 in
  let t := icmp6_Type (d_icmp6 d) in
  (id, if t =? 128 then (ICMPv4TypeEchoRequest, 0)
       else if t =? 129 then (ICMPv4TypeEchoReply, 0)
       else (t, icmp6_Code (d_icmp6 d))).

Definition getProtocolFromPacket (d : decoder) : option Z :=
  match decoded d !! 1%nat with
  | None => None
  | Some LayerTypeTCP => Some TCP
  | Some LayerTypeUDP => Some UDP
  | Some LayerTypeICMPv4 => Some ICMP
  | Some LayerTypeICMPv6 => Some ICMPv6
  | Some _ => Some ProtocolUnknown
  end.

Definition getPortsFromPacket (d : decoder) : option (Z * Z) :=
  match decoded d !! 1%nat with
  | None => None
  | Some LayerTypeTCP => Some (tcp_SrcPort (d_tcp d), tcp_DstPort (d_tcp d))
  | Some LayerTypeUDP => Some (udp_SrcPort (d_udp d), udp_DstPort (d_udp d))
  | Some _ => Some (0, 0)
  end.

(** ** MSS clamping *)

Definition TCPOptionKindMSS : Z := 2.

(** The first MSS option above the clamp: its position. *)
Fixpoint find_mss (i : nat) (opts : list TCPOption) (clamp : Z) : option nat :=
  match opts with
  | [] => None
  | o :: opts' =>
      if (opt_Type o =? TCPOptionKindMSS) && (length (opt_Data o) =? 2)%nat &&
         (clamp <? Uint16 (opt_Data o) 0)
      then Some i else find_mss (S i) opts' clamp
  end.

(** The wire length of an option: end-of-list and no-op are one byte. *)
Definition option_len (o : TCPOption) : nat :=
  if (opt_Type o =? 0) || (opt_Type o =? 1) then 1%nat else (2 + length (opt_Data o))%nat.

Definition recalculateTCPChecksum (p : list Z) (d : decoder) (tcpHeaderStart : nat) : option (list Z) :=
  if (length p <? tcpHeaderStart + 18)%nat then None
  else
    let p := PutUint16 p (tcpHeaderStart + 16) 0 in
    let tcpLayer := drop tcpHeaderStart p in
    let len := Z.of_nat (length tcpLayer) in
    let pseudoSum :=
      match decoded d !! 0%nat with
      | Some LayerTypeIPv4 =>
          Zsum (words (ip4_SrcIP (d_ip4 d)) ++ words (ip4_DstIP (d_ip4 d)) ++ [ip4_Protocol (d_ip4 d); len])
      | Some LayerTypeIPv6 =>
          Zsum (words (ip6_SrcIP (d_ip6 d)) ++ words (ip6_DstIP (d_ip6 d)) ++ [len; TCP])
      | _ => 0
      end in
    Some (PutUint16 p (tcpHeaderStart + 16) (tcpChecksum (uint 32 pseudoSum) tcpLayer)).

Definition updateMSSOption (p : list Z) (d : decoder) (mssOptionIndex : nat) (mssClampValue : Z)
    (ipHeaderSize : nat) : option (list Z) :=
  let optOffset :=
    foldl (λ off o, (off + option_len o)%nat) (ipHeaderSize + 20)%nat
      (take mssOptionIndex (tcp_Options (d_tcp d))) in
  let mssValueOffset := (optOffset + 2)%nat in
  if (length p <? mssValueOffset + 2)%nat then None
  else recalculateTCPChecksum (PutUint16 p mssValueOffset mssClampValue) d ipHeaderSize.

(** The packet after the call and whether it was clamped. *)
Definition clampTCPMSS (m : Manager) (p : list Z) (d : decoder) : option (list Z * bool) :=
  if negb (tcp_SYN (d_tcp d)) then Some (p, false)
  else if (length (tcp_Options (d_tcp d)) =? 0)%nat then Some (p, false)
  else
    let sel :=
      match decoded d !! 0%nat with
      | Some LayerTypeIPv4 =>
          let n := ip4_IHL (d_ip4 d) * 4 in
          if n <? 20 then None else Some (m_mssClampValueIPv4 m, Z.to_nat n)
      | Some LayerTypeIPv6 => Some (m_mssClampValueIPv6 m, 40%nat)
      | _ => None
      end in
    match sel with
    | None => Some (p, false)
    | Some (clamp, hdr) =>
        if clamp =? 0 then Some (p, false)
        else match find_mss 0 (tcp_Options (d_tcp d)) clamp with
             | None => Some (p, false)
             | Some i =>
                 match updateMSSOption p d i clamp hdr with
                 | Some p' => Some (p', true)
                 | None => None
                 end
             end
    end.
