(* ===== verification/FilterPaths.v ===== *)
(** * The packet paths of the filter

    [client/firewall/uspfilter/filter.go]: [filterInbound], [filterOutbound]
    and what they call, the rule entry points and the routing switch.  Every
    function takes the decoder a packet is parsed into, which comes from a
    pool and keeps what the previous packet left in it, and returns it.
    [None] is a run-time panic: a call on a tracker that was not created, an
    index out of range, or a write to a closed tracker's nil map. *)
From S2P Require Import Prelude NetIP Bytes Order FwTypes ConnTrack TCPTrack TimedTable UDPTrack.
From S2P Require Import ICMPTrack Fragment PeerRules RouteRules Checksum DNAT Filter.
Open Scope Z_scope.

(** ** The packet parser

    gopacket's parser and its layer decoders: what they leave in the decoder
    and whether they report no error.  The parsers are given the layers and
    the list of decoded types, and nothing else of the decoder. *)
Class Gopacket := {
  DecodeLayers : Z → list Z → decoder → decoder * bool;
  DecodeTCP : list Z → TCPLayer → TCPLayer * bool;
  DecodeUDP : list Z → UDPLayer → UDPLayer * bool;
  DecodeICMPv4 : list Z → ICMPv4Layer → ICMPv4Layer * bool;
  DecodeICMPv6 : list Z → ICMPv6Layer → ICMPv6Layer * bool;
}.

(** The layers of a decoder with another transport layer. *)
Definition with_transport (t : TCPLayer) (u : UDPLayer) (i4 : ICMPv4Layer) (i6 : ICMPv6Layer)
    (d : decoder) : decoder :=
  {| d_ip4 := d_ip4 d; d_ip6 := d_ip6 d; d_tcp := t; d_udp := u; d_icmp4 := i4; d_icmp6 := i6;
     decoded := decoded d; dnatOrigPort := dnatOrigPort d |}.

(** A translation that was logged as failed has left the packet alone. *)
Definition of_res {A} (r : Res A) : option A :=
  match r with Ok a => Some a | _ => None end.

Definition or_keep (p : list Z) (r : Res (list Z)) : option (list Z) :=
  match r with Ok p' => Some p' | Err => Some p | Panic => None end.

Section Paths.
Context {MO : MapOrder} {GP : Gopacket}.

(** The decoder and whether there was no error. *)
Definition decodePacket (d : decoder) (data : list Z) : decoder * bool :=
  match data with
  | [] => (d, false)
  | b :: _ =>
      let version := Z.shiftr b 4 in
      if (version =? 4) || (version =? 6) then
        let '(d', ok) := DecodeLayers version data d in (set_dnatOrigPort (dnatOrigPort d) d', ok)
      else (d, false)
  end.

Definition decodeTransport (d : decoder) (proto : Z) (payload : list Z) : decoder * bool :=
  let finish (minLen : nat) (lt : LayerType) (r : decoder * bool) :=
    if (length payload <? minLen)%nat then (d, false)
    else if negb r.2 then (r.1, false)
    else (set_decoded (decoded r.1 ++ [lt]) r.1, true) in
  if proto =? TCP then
    let '(l, ok) := DecodeTCP payload (d_tcp d) in
    finish 20%nat LayerTypeTCP (with_transport l (d_udp d) (d_icmp4 d) (d_icmp6 d) d, ok)
  else if proto =? UDP then
    let '(l, ok) := DecodeUDP payload (d_udp d) in
    finish 8%nat LayerTypeUDP (with_transport (d_tcp d) l (d_icmp4 d) (d_icmp6 d) d, ok)
  else if proto =? ICMP then
    let '(l, ok) := DecodeICMPv4 payload (d_icmp4 d) in
    finish 8%nat LayerTypeICMPv4 (with_transport (d_tcp d) (d_udp d) l (d_icmp6 d) d, ok)
  else if proto =? ICMPv6 then
    let '(l, ok) := DecodeICMPv6 payload (d_icmp6 d) in
    finish 8%nat LayerTypeICMPv6 (with_transport (d_tcp d) (d_udp d) (d_icmp4 d) l d, ok)
  else (d, false).

(** ** Tracking *)

(** The manager and the packet, its source port restored when the flow was
    port-translated on the way in. *)
Definition trackOutbound (env : Env) (m : Manager) (d : decoder) (src dst : Addr) (p : list Z)
    (size : Z) : option (Manager * list Z) :=
  match decoded d !! 1%nat with
  | None => None
  | Some LayerTypeUDP =>
      t ← m_udpTracker m;
      '(t, origPort) ← udp_TrackOutbound env t src dst (udp_SrcPort (d_udp d)) (udp_DstPort (d_udp d)) size;
      if origPort =? 0 then Some (with_udp t m, p)
      else p' ← or_keep p (rewriteUDPPort p d origPort 0); Some (with_udp t m, p')
  | Some LayerTypeTCP =>
      t ← m_tcpTracker m;
      '(t, origPort) ← tcp_TrackOutbound env t src dst (tcp_SrcPort (d_tcp d)) (tcp_DstPort (d_tcp d))
                         (getTCPFlags (d_tcp d)) size;
      if origPort =? 0 then Some (with_tcp t m, p)
      else p' ← or_keep p (rewriteTCPPort p d origPort 0); Some (with_tcp t m, p')
  | Some LayerTypeICMPv4 =>
      t ← m_icmpTracker m;
      t ← icmp_TrackOutbound env t src dst (icmp4_Id (d_icmp4 d)) (icmp4_Type (d_icmp4 d))
            (icmp4_Code (d_icmp4 d)) size;
      Some (with_icmp t m, p)
  | Some LayerTypeICMPv6 =>
      let '(id, (typ, code)) := icmpv6EchoFields d in
      t ← m_icmpTracker m;
      t ← icmp_TrackOutbound env t src dst id typ code size;
      Some (with_icmp t m, p)
  | Some _ => Some (m, p)
  end.

Definition trackInbound (env : Env) (m : Manager) (d : decoder) (src dst : Addr) (ruleID : list Z)
    (size : Z) : option (Manager * decoder) :=
  m' ← match decoded d !! 1%nat with
       | None => None
       | Some LayerTypeUDP =>
           t ← m_udpTracker m;
           t ← udp_TrackInbound env t src dst (udp_SrcPort (d_udp d)) (udp_DstPort (d_udp d)) ruleID size
                 (dnatOrigPort d);
           Some (with_udp t m)
       | Some LayerTypeTCP =>
           t ← m_tcpTracker m;
           t ← tcp_TrackInbound env t src dst (tcp_SrcPort (d_tcp d)) (tcp_DstPort (d_tcp d))
                 (getTCPFlags (d_tcp d)) ruleID size (dnatOrigPort d);
           Some (with_tcp t m)
       | Some LayerTypeICMPv4 =>
           t ← m_icmpTracker m;
           t ← icmp_TrackInbound env t src dst (icmp4_Id (d_icmp4 d)) (icmp4_Type (d_icmp4 d))
                 (icmp4_Code (d_icmp4 d)) ruleID size;
           Some (with_icmp t m)
       | Some LayerTypeICMPv6 =>
           let '(id, (typ, code)) := icmpv6EchoFields d in
           t ← m_icmpTracker m;
           t ← icmp_TrackInbound env t src dst id typ code ruleID size;
           Some (with_icmp t m)
       | Some _ => Some m
       end;
  Some (m', set_dnatOrigPort 0 d).

Definition isValidTrackedConnection (env : Env) (m : Manager) (d : decoder) (src dst : Addr) (size : Z)
    : option (Manager * bool) :=
  match decoded d !! 1%nat with
  | None => None
  | Some LayerTypeTCP =>
      t ← m_tcpTracker m;
      let '(t, ok) := tcp_IsValidInbound env t src dst (tcp_SrcPort (d_tcp d)) (tcp_DstPort (d_tcp d))
                        (getTCPFlags (d_tcp d)) size in
      Some (with_tcp t m, ok)
  | Some LayerTypeUDP =>
      t ← m_udpTracker m;
      let '(t, ok) := udp_IsValidInbound env t src dst (udp_SrcPort (d_udp d)) (udp_DstPort (d_udp d)) size in
      Some (with_udp t m, ok)
  | Some LayerTypeICMPv4 =>
      t ← m_icmpTracker m;
      let '(t, ok) := icmp_IsValidInbound env t src dst (icmp4_Id (d_icmp4 d)) (icmp4_Type (d_icmp4 d)) size in
      Some (with_icmp t m, ok)
  | Some LayerTypeICMPv6 =>
      t ← m_icmpTracker m;
      let '(t, ok) := icmp_IsValidInbound env t src dst (icmpv6EchoFields d).1 (icmp6_Type (d_icmp6 d)) size in
      Some (with_icmp t m, ok)
  | Some _ => Some (m, false)
  end.

(** [m.stateful && m.isValidTrackedConnection(...)]. *)
Definition trackedReply (env : Env) (m : Manager) (d : decoder) (src dst : Addr) (size : Z)
    : option (Manager * bool) :=
  if m_stateful m then isValidTrackedConnection env m d src dst size else Some (m, false).

(** ** Outbound *)

Definition udpHooksDrop (m : Manager) (dport : Z) (dst : Addr) (p : list Z) : bool :=
  HookMatches (m_udpHookOut m) dst dport p.
Definition tcpHooksDrop (m : Manager) (dport : Z) (dst : Addr) (p : list Z) : bool :=
  HookMatches (m_tcpHookOut m) dst dport p.

(** The manager, the decoder, the packet sent on and whether it is dropped. *)
Definition filterOutbound (env : Env) (m : Manager) (d : decoder) (p : list Z) (size : Z)
    : option (Manager * decoder * list Z * bool) :=
  let '(d, ok) := decodePacket d p in
  if negb ok then Some (m, d, p, false)
  else if (length (decoded d) <? 2)%nat then Some (m, d, p, false)
  else
    '(src, dst) ← extractIPs d;
    if negb (IsValid src) then Some (m, d, p, false)
    else
      let send p :=
        '(m, p) ← trackOutbound env m d src dst p size;
        '(p, _) ← of_res (translateOutboundDNAT (m_dnat m) p d);
        Some (m, d, p, false) in
      match decoded d !! 1%nat with
      | Some LayerTypeUDP =>
          if udpHooksDrop m (udp_DstPort (d_udp d)) dst p then Some (m, d, p, true) else send p
      | Some LayerTypeTCP =>
          if tcpHooksDrop m (tcp_DstPort (d_tcp d)) dst p then Some (m, d, p, true)
          else if m_mssClampEnabled m then
            '(p, _) ← clampTCPMSS m p d; send p
          else send p
      | _ => send p
      end.

(** ** Inbound *)

Definition IPv4MoreFragments : Z := 1.
Definition IPProtocolIPv6Fragment : Z := 44.

(** The decoder, whether the packet is valid and whether it is a fragment. *)
Definition isValidPacket (d : decoder) (p : list Z) : decoder * bool * bool :=
  let '(d, ok) := decodePacket d p in
  if negb ok then (d, false, false)
  else if (2 <=? length (decoded d))%nat then (d, true, false)
  else
    match decoded d with
    | [LayerTypeIPv4] =>
        if has (ip4_Flags (d_ip4 d)) IPv4MoreFragments || negb (ip4_FragOffset (d_ip4 d) =? 0)
        then (d, true, true) else (d, false, false)
    | [LayerTypeIPv6] =>
        if ip6_NextHeader (d_ip6 d) =? IPProtocolIPv6Fragment then (d, true, true)
        else (d, false, false)
    | _ => (d, false, false)
    end.

Definition storeDropFlow (env : Env) (m : Manager) (d : decoder) (src dst : Addr) (ruleID : list Z)
    (size : Z) : option Manager :=
  pnum ← getProtocolFromPacket d;
  '(srcPort, dstPort) ← getPortsFromPacket d;
  Some (with_drop
    {| ev_FlowID := env_uuid env; ev_Type := TypeDrop; ev_RuleID := ruleID; ev_Direction := Ingress;
       ev_Protocol := pnum; ev_SourceIP := src; ev_DestIP := dst; ev_SourcePort := srcPort;
       ev_DestPort := dstPort; ev_ICMPType := 0; ev_ICMPCode := 0; ev_RxPackets := 1;
       ev_TxPackets := 0; ev_RxBytes := uint 64 size; ev_TxBytes := 0 |} m).

Definition hasMatchingNetstackService (m : Manager) (d : decoder) : bool :=
  match decoded d !! 1%nat with
  | Some LayerTypeTCP => bool_decide ((LayerTypeTCP, tcp_DstPort (d_tcp d)) ∈ m_services m)
  | Some LayerTypeUDP => bool_decide ((LayerTypeUDP, udp_DstPort (d_udp d)) ∈ m_services m)
  | _ => false
  end.

Definition shouldForward (m : Manager) (d : decoder) (dst : Addr) : bool :=
  if negb (m_localForwarding m) then false
  else if m_netstack m then negb (hasMatchingNetstackService m d)
  else if negb (bool_decide (dst = wg_IP (m_wg m))) &&
          (negb (IsValid (wg_IPv6 (m_wg m))) || negb (bool_decide (dst = wg_IPv6 (m_wg m))))
  then true else false.

Definition handleForwardedLocalTraffic (m : Manager) (p : list Z) : Manager * bool :=
  match m_forwarder m with
  | None => (m, true)
  | Some fwd => (with_forwarder (Some (InjectIncomingPacket fwd p).1) m, true)
  end.

Definition handleLocalTraffic (env : Env) (m : Manager) (d : decoder) (src dst : Addr) (p : list Z)
    (size : Z) : option (Manager * decoder * bool) :=
  '(ruleID, blocked) ← peerACLsBlock (m_acl m) src d;
  if (blocked : bool) then
    m ← storeDropFlow env m d src dst ruleID size;
    Some (m, d, true)
  else if shouldForward m d dst then
    let '(m, drop) := handleForwardedLocalTraffic m p in Some (m, d, drop)
  else
    '(m, d) ← trackInbound env m d src dst ruleID size;
    Some (m, d, false).

Definition handleRoutedTraffic (env : Env) (m : Manager) (d : decoder) (src dst : Addr) (p : list Z)
    (size : Z) : option (Manager * decoder * bool) :=
  if negb (m_routingEnabled m) then Some (m, d, true)
  else if m_nativeRouter m then
    '(m, d) ← trackInbound env m d src dst [] size;
    Some (m, d, false)
  else
    protoLayer ← decoded d !! 1%nat;
    '(srcPort, dstPort) ← getPortsFromPacket d;
    '(ruleID, pass) ← routeACLsPass (m_routes m) src dst protoLayer srcPort dstPort;
    if negb pass then
      m ← storeDropFlow env m d src dst ruleID size;
      Some (m, d, true)
    else
      match m_forwarder m with
      | None => Some (m, d, true)
      | Some fwd =>
          let fwd := RegisterRuleID fwd src dst srcPort dstPort ruleID in
          let '(fwd, ok) := InjectIncomingPacket fwd p in
          let fwd := if ok then fwd else DeleteRuleID fwd src dst srcPort dstPort in
          Some (with_forwarder (Some fwd) m, d, true)
      end.

Definition filterInboundDecoded (env : Env) (m : Manager) (d : decoder) (src dst : Addr) (p : list Z)
    (size : Z) : option (Manager * decoder * list Z * bool) :=
  '(p, d, translated) ← of_res (translateInboundPortDNAT (m_dnat m) p d src dst);
  let '(d, ok) := if (translated : bool) then decodePacket d p else (d, true) in
  if negb ok then Some (m, d, p, true)
  else
    '(src, dst) ← (if (translated : bool) then extractIPs d else Some (src, dst));
    '(p, translated) ← of_res (translateInboundReverse (m_dnat m) p d);
    let '(d, ok) := if (translated : bool) then decodePacket d p else (d, true) in
    if negb ok then Some (m, d, p, true)
    else
      '(src, dst) ← (if (translated : bool) then extractIPs d else Some (src, dst));
      '(m, reply) ← trackedReply env m d src dst size;
      if (reply : bool) then Some (m, d, p, false)
      else
        '(m, d, drop) ←
          (if IsLocalIP (m_localIPs m) dst then handleLocalTraffic env m d src dst p size
           else handleRoutedTraffic env m d src dst p size);
        Some (m, d, p, drop).

(** ** Fragments *)

Record fragmentMeta := {
  fm_key : fragmentKey; fm_offset : Z; fm_moreFragments : bool; fm_proto : Z;
  fm_l4payload : list Z; fm_headerEndOctets : Z }.

Definition octets (nbytes : nat) : Z := uint 16 ((Z.of_nat nbytes + 7) / 8).

(** The outer [option] is the index out of range, the inner one the
    fragment that cannot be interpreted. *)
Definition fragmentMetadata (d : decoder) (src dst : Addr) : option (option fragmentMeta) :=
  match decoded d !! 0%nat with
  | None => None
  | Some LayerTypeIPv4 =>
      let ip := d_ip4 d in
      Some (Some
        {| fm_key := {| fk_srcIP := src; fk_dstIP := dst; fk_id := ip4_Id ip; fk_proto := ip4_Protocol ip |};
           fm_offset := ip4_FragOffset ip;
           fm_moreFragments := has (ip4_Flags ip) IPv4MoreFragments;
           fm_proto := ip4_Protocol ip;
           fm_l4payload := ip4_Payload ip;
           fm_headerEndOctets := octets (length (ip4_Payload ip)) |})
  | Some LayerTypeIPv6 =>
      let payload := ip6_Payload (d_ip6 d) in
      if (length payload <? 8)%nat then Some None
      else
        let nextHeader := at_ payload 0 in
        let offsetFlags := Uint16 payload 2 in
        let id := be_value (slice payload 4 4) in
        let l4 := drop 8 payload in
        Some (Some
          {| fm_key := {| fk_srcIP := src; fk_dstIP := dst; fk_id := id; fk_proto := nextHeader |};
             fm_offset := Z.shiftr offsetFlags 3;
             fm_moreFragments := has offsetFlags 1;
             fm_proto := nextHeader;
             fm_l4payload := l4;
             fm_headerEndOctets := octets (length l4) |})
  | Some _ => Some None
  end.

Definition filterTrailingFragment (env : Env) (m : Manager) (meta : fragmentMeta) : Manager * bool :=
  let '(f, v) := verdict (env_now env) (m_fragments m) (fm_key meta) (fm_offset meta) in
  (with_fragments f m, match v with fragmentAllow => false | _ => true end).

Definition recordFirstFragment (env : Env) (m : Manager) (meta : fragmentMeta) : Manager :=
  if negb (fm_moreFragments meta) then m
  else with_fragments (recordAllowed (env_now env) (m_fragments m) (fm_key meta) (fm_headerEndOctets meta)) m.

Definition filterFirstFragment (env : Env) (m : Manager) (d : decoder) (meta : fragmentMeta)
    (src dst : Addr) (size : Z) : option (Manager * decoder * bool) :=
  '(m, reply) ← trackedReply env m d src dst size;
  if (reply : bool) then Some (recordFirstFragment env m meta, d, false)
  else if IsLocalIP (m_localIPs m) dst then
    '(ruleID, blocked) ← peerACLsBlock (m_acl m) src d;
    if (blocked : bool) then
      m ← storeDropFlow env m d src dst ruleID size;
      Some (m, d, true)
    else
      '(m, d) ← trackInbound env m d src dst ruleID size;
      Some (recordFirstFragment env m meta, d, false)
  else if negb (m_routingEnabled m) then Some (m, d, true)
  else if m_nativeRouter m then
    '(m, d) ← trackInbound env m d src dst [] size;
    Some (recordFirstFragment env m meta, d, false)
  else
    '(srcPort, dstPort) ← getPortsFromPacket d;
    protoLayer ← decoded d !! 1%nat;
    '(ruleID, pass) ← routeACLsPass (m_routes m) src dst protoLayer srcPort dstPort;
    if negb pass then
      m ← storeDropFlow env m d src dst ruleID size;
      Some (m, d, true)
    else Some (recordFirstFragment env m meta, d, false).

Definition filterInboundFragment (env : Env) (m : Manager) (d : decoder) (src dst : Addr) (size : Z)
    : option (Manager * decoder * bool) :=
  meta ← fragmentMetadata d src dst;
  match meta with
  | None => Some (m, d, true)
  | Some meta =>
      if negb (fm_offset meta =? 0) then
        let '(m, drop) := filterTrailingFragment env m meta in Some (m, d, drop)
      else
        let m := with_fragments (poison (m_fragments m) (fm_key meta)) m in
        let '(d, ok) := decodeTransport d (fm_proto meta) (fm_l4payload meta) in
        if negb ok then Some (m, d, true)
        else filterFirstFragment env m d meta src dst size
  end.

(** The manager, the decoder, the packet passed on and whether it is
    dropped. *)
Definition filterInbound (env : Env) (m : Manager) (d : decoder) (p : list Z) (size : Z)
    : option (Manager * decoder * list Z * bool) :=
  let '(d, valid, fragment) := isValidPacket d p in
  if negb valid then Some (m, d, p, true)
  else
    '(src, dst) ← extractIPs d;
    if negb (IsValid src) then Some (m, d, p, true)
    else if (fragment : bool) then
      '(m, d, drop) ← filterInboundFragment env m d src dst size;
      Some (m, d, p, drop)
    else filterInboundDecoded env m d src dst p size.
End Paths.
