(* ===== verification/FilterOps.v ===== *)
(** * The operations of the filter's manager

    [client/firewall/uspfilter/filter.go]: the rule entry points, the routing
    switch, the netstack services and [Close]; the minimal
    [client/firewall/uspfilter/hooks_filter.go]; and a run of the whole
    filter, packets and operations in any order. *)
From S2P Require Import Prelude NetIP Bytes Order FwTypes ConnTrack TCPTrack TimedTable UDPTrack.
From S2P Require Import ICMPTrack Fragment PeerRules RouteRules Checksum DNAT Filter FilterPaths.
Open Scope Z_scope.

(** What [firewall.Rule] can be: a peer rule or a route rule. *)
Inductive Rule := RPeer (r : PeerRule) | RRoute (id : RuleID).

Definition set_acl (acl : PeerACL) (m : Manager) : Manager := with_rules acl (m_routes m) (m_blockRules m) m.
Definition set_routes (r : RouteACL) (m : Manager) : Manager := with_rules (m_acl m) r (m_blockRules m) m.

Section Rules.
Context {MO : MapOrder} (sha256 : string → list Z).

(** [None] is the error [ErrNoSources]. *)
Definition AddFilterRule (seed : nat) (m : Manager) (id : list Z) (sources : list Prefix)
    (destination : Network) (proto : Protocol) (sPort dPort : option Port) (action : Action)
    : option (Manager * Rule) :=
  if (length sources =? 0)%nat then None
  else if net_IsZero destination then
    let '(acl, r) := addPeerRule sha256 seed (m_acl m) id sources proto sPort dPort action in
    Some (set_acl acl m, RPeer r)
  else
    let '(routes, r) := addRouteRule sha256 (m_routes m) id sources destination proto sPort dPort action in
    Some (set_routes routes m, RRoute r).

(** [None] is the error. *)
Definition DeleteFilterRule (seed : nat) (m : Manager) (rule : Rule) : option Manager :=
  match rule with
  | RPeer r => (λ acl, set_acl acl m) <$> deletePeerRuleLocked seed (m_acl m) r
  | RRoute id => (λ routes, set_routes routes m) <$> deleteRouteRule (m_routes m) id
  end.

(** Whether return traffic is tracked. *)
Definition IsStateful (m : Manager) : bool := m_stateful m.

(** Nothing is buffered; no error. *)
Definition Flush (m : Manager) : bool := true.

(** ** Routing *)

(** [canForward]: the interface runs in userspace and a forwarder could be
    made.  The manager and whether there was no error. *)
Definition initForwarder (canForward : bool) (m : Manager) : Manager * bool :=
  match m_forwarder m with
  | Some _ => (m, true)
  | None =>
      if canForward then (with_forwarder (Some NewForwarder) m, true)
      else (with_routing false (m_nativeRouter m) m, false)
  end.

Definition determineRouting (Getenv : string → string) (canForward : bool) (m : Manager)
    : Manager * bool :=
  let v := Getenv "NB_DISABLE_USERSPACE_ROUTING" in
  let disableUspRouting := if String.eqb v "" then false else ParseBool v in
  let m := if disableUspRouting then with_routing false false m
           else if m_disableServerRoutes m then with_routing true true m
           else with_routing true false m in
  if m_routingEnabled m && negb (m_nativeRouter m) then initForwarder canForward m else (m, true).

(** [blockInvalidRouted] cannot fail, as [addRouteRule] cannot, so the roll
    back of the source is not reached. *)
Definition EnableRouting (Getenv : string → string) (canForward : bool) (m : Manager)
    : Manager * bool :=
  let '(m, ok) := determineRouting Getenv canForward m in
  if negb ok then (m, false)
  else match m_forwarder m with
       | None => (m, true)
       | Some _ =>
           let '(routes, rules) :=
             blockInvalidRouted sha256 (m_routes m) (wg_Network (m_wg m)) (wg_IPv6Net (m_wg m)) in
           (with_rules (m_acl m) routes rules m, true)
       end.

(** Rules that are gone already are reported; the others go. *)
Fixpoint deleteBlockRules (routes : RouteACL) (rules : list RuleID) : RouteACL * bool :=
  match rules with
  | [] => (routes, true)
  | r :: rules' =>
      match deleteRouteRule routes r with
      | Some routes' => deleteBlockRules routes' rules'
      | None => let '(routes', _) := deleteBlockRules routes rules' in (routes', false)
      end
  end.

Definition disableRouting (m : Manager) : Manager * bool :=
  match m_forwarder m with
  | None => (m, true)
  | Some _ =>
      let m := with_routing false false m in
      let '(routes, ok) := deleteBlockRules (m_routes m) (m_blockRules m) in
      let m := with_rules (m_acl m) routes [] m in
      if m_netstack m && m_localForwarding m then (m, ok) else (with_forwarder None m, ok)
  end.
End Rules.

(** ** Netstack services *)

Definition protocolToLayerType (protocol : Z) : LayerType :=
  if protocol =? TCP then LayerTypeTCP
  else if protocol =? UDP then LayerTypeUDP
  else if protocol =? ICMP then LayerTypeICMPv4
  else layerTypeNone.

Definition RegisterNetstackService (m : Manager) (protocol port : Z) : Manager :=
  with_services ({[(protocolToLayerType protocol, port)]} ∪ m_services m) m.

Definition UnregisterNetstackService (m : Manager) (protocol port : Z) : Manager :=
  with_services (m_services m ∖ {[(protocolToLayerType protocol, port)]}) m.

Definition SetUDPPacketHook (m : Manager) (ip : Addr) (dPort : Z) (hook : option (list Z → bool)) : Manager :=
  with_hooks (SetHook ip dPort hook) (m_tcpHookOut m) m.
Definition SetTCPPacketHook (m : Manager) (ip : Addr) (dPort : Z) (hook : option (list Z → bool)) : Manager :=
  with_hooks (m_udpHookOut m) (SetHook ip dPort hook) m.

(** [resetState]: rules go, trackers and the fragment table are closed; the
    forwarder is stopped but stays in place. *)
Definition resetState (m : Manager) : Manager :=
  let m := with_rules (resetPeerRules (m_acl m)) NewRouteACL [] m in
  let m := with_hooks None None m in
  let m := with_trackers (udp_Close <$> m_udpTracker m) (icmp_Close <$> m_icmpTracker m)
             (tcp_Close <$> m_tcpTracker m) m in
  with_fragments (frag_Close (m_fragments m)) m.

(** ** The hooks-only filter *)

Record HooksFilter := { hf_udpHook : option PacketHook; hf_tcpHook : option PacketHook }.

Definition hooks_FilterOutbound (f : HooksFilter) (p : list Z) : bool :=
  if (length p <? 20)%nat then false
  else if negb (Z.shiftr (at_ p 0) 4 =? 4) then false
  else
    let ihl := Z.to_nat (Z.land (at_ p 0) 15 * 4) in
    if (ihl <? 20)%nat || (length p <? ihl + 4)%nat then false
    else if has (Uint16 p 6) 0x1fff then false
    else
      let dst := AddrFromSlice (slice p ipv4DstOffset 4) in
      let proto := at_ p 9 in
      let dstPort := Uint16 p (ihl + 2) in
      if proto =? UDP then HookMatches (hf_udpHook f) dst dstPort p
      else if proto =? TCP then HookMatches (hf_tcpHook f) dst dstPort p
      else false.

Definition hooks_FilterInbound (f : HooksFilter) (p : list Z) : bool := false.

(** ** The whole filter

    The manager with its pool of decoders: a packet is parsed into one of
    them ([slot]; a slot that does not exist yet is a new decoder). *)

Definition zeroDecoder : decoder :=
  {| d_ip4 := {| ip4_SrcIP := []; ip4_DstIP := []; ip4_Id := 0; ip4_Flags := 0; ip4_FragOffset := 0;
                 ip4_Protocol := 0; ip4_IHL := 0; ip4_Payload := [] |};
     d_ip6 := {| ip6_SrcIP := []; ip6_DstIP := []; ip6_NextHeader := 0; ip6_Payload := [] |};
     d_tcp := {| tcp_SrcPort := 0; tcp_DstPort := 0; tcp_SYN := false; tcp_ACK := false; tcp_FIN := false;
                 tcp_RST := false; tcp_PSH := false; tcp_URG := false; tcp_Options := [] |};
     d_udp := {| udp_SrcPort := 0; udp_DstPort := 0 |};
     d_icmp4 := {| icmp4_Type := 0; icmp4_Code := 0; icmp4_Id := 0 |};
     d_icmp6 := {| icmp6_Type := 0; icmp6_Code := 0; icmp6_Payload := [] |};
     decoded := []; dnatOrigPort := 0 |}.

Record FilterState := { f_mgr : Manager; f_pool : gmap nat decoder }.

Inductive FilterOp :=
| FInbound (slot : nat) (p : list Z) (size : Z)
| FOutbound (slot : nat) (p : list Z) (size : Z)
| FAdd (id : list Z) (sources : list Prefix) (destination : Network) (proto : Protocol)
    (sPort dPort : option Port) (action : Action)
| FDelete (rule : Rule)
| FEnableRouting (canForward : bool)
| FDisableRouting
| FRegister (protocol port : Z)
| FUnregister (protocol port : Z)
| FUpdateSet (set : Set_) (prefixes : list Prefix)
| FUpdateLocalIPs (interfaces : option (list (option (list (option Addr)))))
| FSetHooks (tcp : bool) (ip : Addr) (dPort : Z) (hook : option (list Z → bool))
| FAddDNAT (original translated : Addr)
| FRemoveDNAT (original : Addr)
| FAddInbound (localAddr : Addr) (protocol : Protocol) (originalPort translatedPort : Z)
| FRemoveInbound (localAddr : Addr) (protocol : Protocol) (originalPort translatedPort : Z)
| FTimers
| FClose.

Section Whole.
Context {MO : MapOrder} {GP : Gopacket} (sha256 : string → list Z) (Getenv : string → string).

Definition getDecoder (s : FilterState) (slot : nat) : decoder := default zeroDecoder (f_pool s !! slot).

(** The periodic cleanups of the trackers and of the fragment table. *)
Definition cleanups (env : Env) (m : Manager) : Manager :=
  let m := with_trackers (udp_cleanup env <$> m_udpTracker m) (icmp_cleanup env <$> m_icmpTracker m)
             (tcp_cleanup env <$> m_tcpTracker m) m in
  with_fragments (frag_cleanup env (m_fragments m)) m.

Definition with_mgr (m : Manager) (s : FilterState) : FilterState :=
  {| f_mgr := m; f_pool := f_pool s |}.

Definition inbound (env : Env) (s : FilterState) (slot : nat) (p : list Z) (size : Z)
    : option (FilterState * list Z * bool) :=
  '(m, d, p, drop) ← filterInbound env (f_mgr s) (getDecoder s slot) p size;
  Some ({| f_mgr := m; f_pool := <[slot := d]> (f_pool s) |}, p, drop).

Definition outbound (env : Env) (s : FilterState) (slot : nat) (p : list Z) (size : Z)
    : option (FilterState * list Z * bool) :=
  '(m, d, p, drop) ← filterOutbound env (f_mgr s) (getDecoder s slot) p size;
  Some ({| f_mgr := m; f_pool := <[slot := d]> (f_pool s) |}, p, drop).

(** An error leaves the translation state as it was. *)
Definition dnat_op (s : FilterState) (r : Res DNATState) : option FilterState :=
  match r with
  | Ok t => Some (with_mgr (with_dnat t (f_mgr s)) s)
  | Err => Some s
  | Panic => None
  end.

Definition filter_step (s : FilterState) (eo : Env * FilterOp) : option FilterState :=
  let '(env, op) := eo in
  let m := f_mgr s in
  match op with
  | FInbound slot p size => '(s, _, _) ← inbound env s slot p size; Some s
  | FOutbound slot p size => '(s, _, _) ← outbound env s slot p size; Some s
  | FAdd id src dst proto sp dp a =>
      Some match AddFilterRule sha256 (env_seed env) m id src dst proto sp dp a with
           | Some (m', _) => with_mgr m' s
           | None => s
           end
  | FDelete r =>
      Some match DeleteFilterRule (env_seed env) m r with Some m' => with_mgr m' s | None => s end
  | FEnableRouting can => Some (with_mgr (EnableRouting sha256 Getenv can m).1 s)
  | FDisableRouting => Some (with_mgr (disableRouting m).1 s)
  | FRegister proto port => Some (with_mgr (RegisterNetstackService m proto port) s)
  | FUnregister proto port => Some (with_mgr (UnregisterNetstackService m proto port) s)
  | FUpdateSet set prefixes =>
      Some match UpdateSet (m_routes m) set prefixes with
           | Some r => with_mgr (set_routes r m) s
           | None => s
           end
  | FUpdateLocalIPs ifaces =>
      Some (with_mgr (with_localIPs (UpdateLocalIPs (Some (wg_IP (m_wg m), wg_IPv6 (m_wg m))) ifaces) m) s)
  | FSetHooks tcp ip port hook =>
      Some (with_mgr (if (tcp : bool) then SetTCPPacketHook m ip port hook
                      else SetUDPPacketHook m ip port hook) s)
  | FAddDNAT o t => dnat_op s (AddInternalDNATMapping (m_localIPs m) (m_dnat m) o t)
  | FRemoveDNAT o => dnat_op s (RemoveInternalDNATMapping (m_dnat m) o)
  | FAddInbound a proto o t => dnat_op s (AddInboundDNAT (m_dnat m) a proto o t)
  | FRemoveInbound a proto o t => dnat_op s (RemoveInboundDNAT (m_dnat m) a proto o t)
  | FTimers => Some (with_mgr (cleanups env m) s)
  | FClose => Some (with_mgr (resetState m) s)
  end.

Definition filter_run : FilterState → list (Env * FilterOp) → option FilterState := run filter_step.
End Whole.
