(* ===== verification/FilterFacts.v ===== *)
(** * Properties of the packet filter

    What each path of [filter.go] may change, that a fragment is only passed
    on the strength of an accepted first fragment, what an accepted inbound
    packet means in terms of the installed rules, the default deny of a
    manager without rules, the absence of panics, the routing switch, and
    MSS clamping. *)
From S2P Require Import Prelude NetIP Bytes Order FwTypes ConnTrack TCPTrack TCPTrackFacts TimedTable.
From S2P Require Import UDPTrack ICMPTrack Fragment PeerRules RouteRules Checksum.
From S2P Require Import DNAT Filter FilterPaths FilterOps.
Open Scope Z_scope.

(** Follow a call that returned through its binds and branches. *)
Ltac follow H :=
  repeat lazymatch type of H with
         | None = Some _ => discriminate H
         | (_ ≫= _) = Some _ =>
             let x := fresh "x" in let Hx := fresh "Hx" in
             apply bind_Some in H as (x & Hx & H); cbv beta in H
         | (let x := _ in _) = _ => cbv zeta in H
         | (match ?x with _ => _ end) = _ => destruct x eqn:?
         end;
  simplify_eq.

Section Frames.
Context {MO : MapOrder} {GP : Gopacket}.

(** ** What the paths change *)

Lemma with_trackers_id m : m = with_trackers (m_udpTracker m) (m_icmpTracker m) (m_tcpTracker m) m.
Proof. by destruct m. Qed.

Lemma trackInbound_frame env m d src dst r size m' d' :
  trackInbound env m d src dst r size = Some (m', d') →
  (∃ u i t, m' = with_trackers u i t m) ∧ d' = set_dnatOrigPort 0 d.
Proof.
  unfold trackInbound. intros H. apply bind_Some in H as (m1 & H & [= <- <-]). split; [|done].
  follow H; try (by do 3 eexists); do 3 eexists; apply with_trackers_id.
Qed.

Lemma trackedReply_frame env m d src dst size m' b :
  trackedReply env m d src dst size = Some (m', b) → ∃ u i t, m' = with_trackers u i t m.
Proof.
  unfold trackedReply. destruct (m_stateful m); [|intros [= <- <-]; do 3 eexists; apply with_trackers_id].
  unfold isValidTrackedConnection. intros H.
  follow H; try (by do 3 eexists); do 3 eexists; apply with_trackers_id.
Qed.

Lemma storeDropFlow_frame env m d src dst r size m' :
  storeDropFlow env m d src dst r size = Some m' → ∃ e, m' = with_drop e m ∧ ev_Type e = TypeDrop.
Proof. unfold storeDropFlow. intros H. follow H. by eexists. Qed.

(** What packets leave alone: rules, addresses, translation, switches. *)
Definition config (m : Manager) :=
  (m_acl m, m_routes m, m_localIPs m, m_dnat m, m_stateful m, m_routingEnabled m, m_nativeRouter m,
   m_localForwarding m, m_netstack m, m_wg m, m_services m).

Definition keeps (m m' : Manager) : Prop := config m' = config m ∧ m_fragments m' = m_fragments m.

Lemma keeps_trackers u i t m : keeps m (with_trackers u i t m).
Proof. done. Qed.
Lemma keeps_drop e m : keeps m (with_drop e m).
Proof. done. Qed.
Lemma keeps_forwarder f m : keeps m (with_forwarder f m).
Proof. done. Qed.

#[global] Instance keeps_preorder : PreOrder keeps.
Proof.
  split; [done|]. intros m1 m2 m3 [H1 H2] [H3 H4].
  split; [by rewrite H3 | by rewrite H4].
Qed.

Lemma trackInbound_keeps env m d src dst r size m' d' :
  trackInbound env m d src dst r size = Some (m', d') → keeps m m'.
Proof. intros [(u & i & t & ->) _]%trackInbound_frame. apply keeps_trackers. Qed.

Lemma trackedReply_keeps env m d src dst size m' b :
  trackedReply env m d src dst size = Some (m', b) → keeps m m'.
Proof. intros (u & i & t & ->)%trackedReply_frame. apply keeps_trackers. Qed.

Lemma storeDropFlow_keeps env m d src dst r size m' :
  storeDropFlow env m d src dst r size = Some m' → keeps m m'.
Proof. intros (e & -> & _)%storeDropFlow_frame. apply keeps_drop. Qed.

Hint Resolve trackInbound_keeps trackedReply_keeps storeDropFlow_keeps keeps_forwarder : netbird.

Lemma handleLocalTraffic_keeps env m d src dst p size m' d' b :
  handleLocalTraffic env m d src dst p size = Some (m', d', b) → keeps m m'.
Proof.
  unfold handleLocalTraffic, handleForwardedLocalTraffic. intros H.
  follow H; eauto with netbird; try done; by case_match; simplify_eq.
Qed.

Lemma handleRoutedTraffic_keeps env m d src dst p size m' d' b :
  handleRoutedTraffic env m d src dst p size = Some (m', d', b) → keeps m m'.
Proof.
  unfold handleRoutedTraffic. intros H.
  follow H; eauto with netbird; try done; by case_match; simplify_eq.
Qed.

Hint Resolve handleLocalTraffic_keeps handleRoutedTraffic_keeps : netbird.

Lemma filterInboundDecoded_keeps env m d src dst p size m' d' p' b :
  filterInboundDecoded env m d src dst p size = Some (m', d', p', b) → keeps m m'.
Proof.
  unfold filterInboundDecoded. intros H.
  follow H; try done;
    try (by eauto with netbird);
    (etrans; [by eapply trackedReply_keeps | destruct (IsLocalIP _ _); by eauto with netbird]).
Qed.

Lemma trackOutbound_keeps env m d src dst p size m' p' :
  trackOutbound env m d src dst p size = Some (m', p') → keeps m m'.
Proof.
  unfold trackOutbound. intros H.
  follow H; done.
Qed.

Lemma filterOutbound_keeps env m d p size m' d' p' b :
  filterOutbound env m d p size = Some (m', d', p', b) → keeps m m'.
Proof.
  unfold filterOutbound. intros H.
  follow H; try done;
    by eapply trackOutbound_keeps.
Qed.

(** ** Fragments *)

(** The fragment a packet is, as [filterInbound] sees it. *)
Definition fragment_of (d : decoder) (p : list Z) : option fragmentMeta :=
  let '(d1, valid, fragment) := isValidPacket d p in
  if valid && fragment then
    '(src, dst) ← extractIPs d1;
    if IsValid src then mjoin (fragmentMetadata d1 src dst) else None
  else None.

Definition first_fragment (meta : fragmentMeta) : Prop :=
  fm_offset meta = 0 ∧ fm_moreFragments meta = true.

Definition entry_of (env : Env) (meta : fragmentMeta) : fragmentEntry :=
  {| headerEndOctets := fm_headerEndOctets meta; recordedAt := env_now env |}.

Lemma recordFirstFragment_entry env m meta key e :
  ft_map (m_fragments (recordFirstFragment env m meta)) !! key = Some e →
  ft_map (m_fragments m) !! key = Some e ∨
  (fm_moreFragments meta = true ∧ fm_key meta = key ∧ e = entry_of env meta).
Proof.
  unfold recordFirstFragment. destruct (fm_moreFragments meta); simpl; [|auto].
  unfold recordAllowed, ft_map, entry_of.
  destruct (ft_entries (m_fragments m)) as [t|] eqn:Et; simpl; [|by rewrite Et; auto].
  destruct (_ && _); [destruct (negb _); simpl; rewrite Et; auto|]. simpl.
  destruct (decide (fm_key meta = key)) as [<-|Hne].
  - rewrite lookup_insert_eq. intros [= <-]. by right.
  - rewrite lookup_insert_ne by done. auto.
Qed.

(** A first fragment that is not passed leaves no verdict behind. *)
Lemma filterFirstFragment_entry env m d meta src dst size m' d' drop key e :
  filterFirstFragment env m d meta src dst size = Some (m', d', drop) →
  ft_map (m_fragments m') !! key = Some e →
  ft_map (m_fragments m) !! key = Some e ∨
  (drop = false ∧ fm_moreFragments meta = true ∧ fm_key meta = key ∧ e = entry_of env meta).
Proof.
  unfold filterFirstFragment. intros H. follow H; intros He;
    repeat match goal with
    | Hx : trackedReply _ _ _ _ _ _ = Some _ |- _ => apply trackedReply_keeps in Hx as [_ <-]
    | Hx : trackInbound _ _ _ _ _ _ _ = Some _ |- _ => apply trackInbound_keeps in Hx as [_ Hx]; try rewrite <- Hx
    | Hx : storeDropFlow _ _ _ _ _ _ _ = Some _ |- _ => apply storeDropFlow_keeps in Hx as [_ Hx]; rewrite Hx in He
    end; auto; apply recordFirstFragment_entry in He as [He|He]; auto.
Qed.

Lemma lookup_poison t key k e :
  ft_map (poison t key) !! k = Some e → ft_map t !! k = Some e ∧ k ≠ key.
Proof. rewrite ft_map_poison, lookup_delete_Some. by intros [? ?]. Qed.

Lemma verdict_entry now t key off k e :
  ft_map (verdict now t key off).1 !! k = Some e → ft_map t !! k = Some e.
Proof.
  unfold verdict. repeat case_match; simpl; try done; by intros [? _]%lookup_poison.
Qed.

(** A verdict appears in the table only when the packet is an accepted first
    fragment with more to come. *)
Lemma filterInbound_entry env m d p size m' d' p' drop key e :
  filterInbound env m d p size = Some (m', d', p', drop) →
  ft_map (m_fragments m') !! key = Some e →
  ft_map (m_fragments m) !! key = Some e ∨
  (drop = false ∧ ∃ meta, fragment_of d p = Some meta ∧ first_fragment meta ∧ fm_key meta = key ∧
     e = entry_of env meta).
Proof.
  unfold filterInbound, fragment_of, first_fragment. intros H.
  destruct (isValidPacket d p) as [[d1 valid] fragment]. destruct valid; simpl in *; [|follow H; auto].
  destruct (extractIPs d1) as [[src dst]|]; simpl in *; [|done].
  destruct (IsValid src); simpl in *; [|follow H; auto].
  destruct fragment; [|apply filterInboundDecoded_keeps in H as [_ ->]; auto].
  follow H. intros He. unfold filterInboundFragment in Hx. follow Hx; auto.
  - unfold filterTrailingFragment in *. case_match. simplify_eq/=. left.
    by apply (verdict_entry (env_now env) _ (fm_key f) (fm_offset f)); rewrite H.
  - left. cbn [m_fragments with_fragments] in He. by apply lookup_poison in He as [? _].
  - destruct (filterFirstFragment_entry _ _ _ _ _ _ _ _ _ _ _ _ Hx He) as [Hp|Hp].
    + left. cbn [m_fragments with_fragments] in Hp. by apply lookup_poison in Hp as [? _].
    + right. destruct Hp as (? & ? & ? & ?). split; [done|]. exists f.
      rewrite Hx0. bools. by split_and!.
Qed.

Lemma recordFirstFragment_timeout env m meta :
  ft_timeout (m_fragments (recordFirstFragment env m meta)) = ft_timeout (m_fragments m).
Proof. unfold recordFirstFragment, recordAllowed. by repeat case_match. Qed.

Lemma filterFirstFragment_timeout env m d meta src dst size m' d' drop :
  filterFirstFragment env m d meta src dst size = Some (m', d', drop) →
  ft_timeout (m_fragments m') = ft_timeout (m_fragments m).
Proof.
  unfold filterFirstFragment. intros H. follow H;
    repeat match goal with
    | Hx : trackedReply _ _ _ _ _ _ = Some _ |- _ => apply trackedReply_keeps in Hx as [_ <-]
    | Hx : trackInbound _ _ _ _ _ _ _ = Some _ |- _ => apply trackInbound_keeps in Hx as [_ Hx]
    | Hx : storeDropFlow _ _ _ _ _ _ _ = Some _ |- _ => apply storeDropFlow_keeps in Hx as [_ Hx]
    end; rewrite ?recordFirstFragment_timeout; congruence.
Qed.

Lemma filterInbound_timeout env m d p size m' d' p' drop :
  filterInbound env m d p size = Some (m', d', p', drop) →
  ft_timeout (m_fragments m') = ft_timeout (m_fragments m).
Proof.
  unfold filterInbound. intros H. destruct (isValidPacket d p) as [[d1 valid] fragment].
  destruct valid; simpl in *; [|by follow H].
  destruct (extractIPs d1) as [[src dst]|]; simpl in *; [|done].
  destruct (IsValid src); simpl in *; [|by follow H].
  destruct fragment; [|by apply filterInboundDecoded_keeps in H as [_ ->]].
  follow H. unfold filterInboundFragment in Hx. follow Hx; try done.
  - unfold filterTrailingFragment, verdict in *. by repeat case_match; simplify_eq/=.
  - by apply filterFirstFragment_timeout in Hx.
Qed.
End Frames.

Section FragmentRuns.
Context {MO : MapOrder} {GP : Gopacket} (sha256 : string → list Z) (Getenv : string → string).

Local Abbreviation frags s := (m_fragments (f_mgr s)).

Lemma inbound_inv env s slot p size s' q drop :
  inbound env s slot p size = Some (s', q, drop) →
  ∃ m d, filterInbound env (f_mgr s) (getDecoder s slot) p size = Some (m, d, q, drop) ∧
    s' = {| f_mgr := m; f_pool := <[slot := d]> (f_pool s) |}.
Proof.
  intros H. apply bind_Some in H as ([[[m d] p'] b] & H & [= <- <- <-]). by exists m, d.
Qed.

(** The state that packets and clean-ups move. *)
Definition moving (m : Manager) := (m_fragments m, m_udpTracker m, m_icmpTracker m, m_tcpTracker m).

Lemma initForwarder_moving can m : moving (initForwarder can m).1 = moving m.
Proof. unfold initForwarder. by repeat case_match. Qed.

Lemma determineRouting_moving can m : moving (determineRouting Getenv can m).1 = moving m.
Proof. unfold determineRouting. repeat case_match; rewrite ?initForwarder_moving; done. Qed.

(** Only packets, the clean-up and [Close] touch the tables. *)
Lemma other_ops_moving s env op s' :
  filter_step sha256 Getenv s (env, op) = Some s' →
  match op with
  | FInbound _ _ _ | FOutbound _ _ _ | FTimers | FClose => True
  | _ => moving (f_mgr s') = moving (f_mgr s)
  end.
Proof.
  destruct op; try done; simpl; unfold dnat_op; intros H.
  all: try (injection H as <-).
  all: try (unfold AddFilterRule, DeleteFilterRule, disableRouting; by repeat case_match; simplify_eq/=).
  - simpl. destruct rule as [r|id]; simpl; [destruct (deletePeerRuleLocked _ _ _)|destruct (deleteRouteRule _ _)]; done.
  - simpl. unfold EnableRouting. pose proof (determineRouting_moving canForward (f_mgr s)) as Hd.
    destruct (determineRouting _ _ _) as [m1 ok]. cbn [fst] in Hd. rewrite <- Hd. by repeat case_match.
Qed.

Lemma FOutbound_inv s env slot p size s' :
  filter_step sha256 Getenv s (env, FOutbound slot p size) = Some s' →
  ∃ m d q drop, filterOutbound env (f_mgr s) (getDecoder s slot) p size = Some (m, d, q, drop) ∧
    s' = {| f_mgr := m; f_pool := <[slot := d]> (f_pool s) |}.
Proof.
  intros H. apply bind_Some in H as ([[s1 q] b] & H & [= <-]).
  apply bind_Some in H as ([[[m' d'] p'] b'] & H & [= <- <- <-]). by exists m', d', p', b'.
Qed.

Lemma other_ops_frags s env op s' :
  filter_step sha256 Getenv s (env, op) = Some s' →
  match op with FInbound _ _ _ | FTimers | FClose => True | _ => frags s' = frags s end.
Proof.
  intros H. pose proof (other_ops_moving _ _ _ _ H) as Ho.
  destruct op; try done; try (injection Ho as -> _; done).
  apply FOutbound_inv in H as (m & d & q & drop & H & ->). by apply filterOutbound_keeps in H as [_ ?].
Qed.

Lemma FInbound_inv s env slot p size s' :
  filter_step sha256 Getenv s (env, FInbound slot p size) = Some s' →
  ∃ q drop, inbound env s slot p size = Some (s', q, drop).
Proof. intros H. apply bind_Some in H as ([[s1 q] b] & H & [= <-]). by exists q, b. Qed.

(** A trailing fragment that is passed found its verdict. *)
Lemma trailing_verdict env s slot p size s' q meta :
  inbound env s slot p size = Some (s', q, false) →
  fragment_of (getDecoder s slot) p = Some meta → fm_offset meta ≠ 0 →
  ∃ e, ft_map (frags s) !! fm_key meta = Some e ∧ frag_expired (env_now env) (frags s) e = false ∧
    headerEndOctets e <= fm_offset meta.
Proof.
  intros (m & d & H & ->)%inbound_inv Hm Hoff. revert H Hm.
  unfold filterInbound, fragment_of, filterInboundFragment, filterTrailingFragment.
  destruct (isValidPacket _ p) as [[d1 valid] fragment].
  destruct valid; simpl; [|done]. destruct fragment; simpl; [|done].
  destruct (extractIPs d1) as [[src dst]|]; simpl; [|done]. destruct (IsValid src); simpl; [|done].
  destruct (fragmentMetadata d1 src dst) as [[f|]|]; simpl; try done. intros H [= ->]. revert H.
  destruct (fm_offset meta =? 0) eqn:E; [by apply Z.eqb_eq in E|]. simpl. unfold verdict.
  destruct (ft_map (frags s) !! fm_key meta) as [e|]; simpl; [|done].
  destruct (frag_expired _ _ e) eqn:Hexp; simpl; [done|].
  destruct (fm_offset meta <? headerEndOctets e) eqn:Hlt; simpl; [done|].
  intros _. exists e. apply Z.ltb_ge in Hlt. done.
Qed.

Lemma filter_step_timeout s eo s' :
  filter_step sha256 Getenv s eo = Some s' → ft_timeout (frags s') = ft_timeout (frags s).
Proof.
  destruct eo as [env op]. intros H. pose proof (other_ops_frags _ _ _ _ H) as Ho.
  destruct op; try (by rewrite Ho).
  - apply FInbound_inv in H as (q & b & H). apply inbound_inv in H as (m & d & H & ->).
    by apply filterInbound_timeout in H.
  - injection H as <-. by destruct (frag_cleanup_spec env (frags s)) as (_ & ? & _).
  - by injection H as <-.
Qed.

(** The step that puts a verdict in the table. *)
Lemma filter_step_entry s env op s' key e :
  filter_step sha256 Getenv s (env, op) = Some s' →
  ft_map (frags s') !! key = Some e → ft_map (frags s) !! key ≠ Some e →
  ∃ slot p size q meta, op = FInbound slot p size ∧ inbound env s slot p size = Some (s', q, false) ∧
    fragment_of (getDecoder s slot) p = Some meta ∧ first_fragment meta ∧ fm_key meta = key ∧
    e = entry_of env meta.
Proof.
  intros H He Hn. pose proof (other_ops_frags _ _ _ _ H) as Ho.
  destruct op; try (by rewrite Ho in He).
  - apply FInbound_inv in H as (q & b & H). pose proof H as Hin.
    apply inbound_inv in H as (m & d & H & ->).
    destruct (filterInbound_entry _ _ _ _ _ _ _ _ _ _ _ H He) as [?|(-> & meta & Hm & Hf & Hk & ->)]; [done|].
    by exists slot, p, size, q, meta.
  - injection H as <-. destruct (frag_cleanup_spec env (frags s)) as (Hs & _).
    by pose proof (lookup_weaken _ _ _ _ He Hs).
  - injection H as <-. unfold ft_map in He. simpl in He. by rewrite lookup_empty in He.
Qed.

(** C4. A trailing fragment is passed only behind an accepted first
    fragment: in every run of the whole filter (packets, rule changes,
    routing, translation, clean-ups, in any order) a fragment with a
    non-zero offset that is not dropped belongs to the same datagram as an
    earlier packet of the run that was a first fragment with more to come,
    was itself accepted by the inbound path, is at most 30 seconds old and
    ends at or before the offset of the trailing one. *)
Theorem fragment_inherits pool mgr ops s env slot p size s' q meta :
  m_fragments mgr = newFragmentTracker Getenv →
  filter_run sha256 Getenv {| f_mgr := mgr; f_pool := pool |} ops = Some s →
  inbound env s slot p size = Some (s', q, false) →
  fragment_of (getDecoder s slot) p = Some meta → fm_offset meta ≠ 0 →
  ∃ pre env0 slot0 p0 size0 post s0 s1 q0 meta0,
    ops = pre ++ (env0, FInbound slot0 p0 size0) :: post ∧
    filter_run sha256 Getenv {| f_mgr := mgr; f_pool := pool |} pre = Some s0 ∧
    inbound env0 s0 slot0 p0 size0 = Some (s1, q0, false) ∧
    fragment_of (getDecoder s0 slot0) p0 = Some meta0 ∧ first_fragment meta0 ∧
    fm_key meta0 = fm_key meta ∧ fm_headerEndOctets meta0 <= fm_offset meta ∧
    time_Sub (env_now env) (env_now env0) <= defaultFragmentTimeout.
Proof.
  intros Hnew Hrun Hin Hm Hoff.
  destruct (trailing_verdict _ _ _ _ _ _ _ _ Hin Hm Hoff) as (e & He & Hexp & Hle).
  assert (Hto : ft_timeout (frags s) = defaultFragmentTimeout).
  { revert Hrun. apply (run_ind _ (λ s, ft_timeout (frags s) = defaultFragmentTimeout)).
    - by intros ? ? ? ? ->%filter_step_timeout.
    - simpl. by rewrite Hnew. }
  destruct (run_source _ (λ s, ft_map (frags s) !! fm_key meta = Some e) (λ s, _) _ _ _ Hrun He)
    as (pre & [env0 op0] & post & s0 & s1 & -> & Hpre & Hstep & Hn0 & He1).
  { simpl. rewrite Hnew. unfold ft_map. simpl. by rewrite lookup_empty. }
  destruct (filter_step_entry _ _ _ _ _ _ Hstep He1 Hn0)
    as (slot0 & p0 & size0 & q0 & meta0 & -> & Hin0 & Hm0 & Hf0 & Hk0 & ->).
  exists pre, env0, slot0, p0, size0, post, s0, s1, q0, meta0. split_and!; try done.
  rewrite <- Hto. unfold frag_expired in Hexp. by apply Z.ltb_ge in Hexp.
Qed.
End FragmentRuns.
