(* ===== verification/FilterPolicy.v ===== *)
(** * What an accepted inbound packet means

    The decision of the inbound path in terms of the installed rules, the
    tracked flows and the addresses of the host, after any run of the filter;
    the default deny of a manager without rules; what reaches the forwarder;
    and the absence of panics. *)
From S2P Require Import Prelude NetIP Bytes Order FwTypes ConnTrack TCPTrack TCPTrackFacts TimedTable.
From S2P Require Import UDPTrack ICMPTrack Fragment PeerRules RouteRules Checksum.
From S2P Require Import DNAT Filter FilterPaths FilterOps FilterFacts.
Open Scope Z_scope.

(** ** The policy *)

(** The packet answers a flow in the tables. *)
Definition tracked (m : Manager) (d : decoder) (src dst : Addr) : bool :=
  m_stateful m &&
  match decoded d !! 1%nat with
  | Some LayerTypeTCP =>
      match m_tcpTracker m with
      | Some t => bool_decide (is_Some (tcp_conns t !! MkKey dst src (tcp_DstPort (d_tcp d)) (tcp_SrcPort (d_tcp d))))
      | None => false
      end
  | Some LayerTypeUDP =>
      match m_udpTracker m with
      | Some t => bool_decide (is_Some (tb_conns t !! MkKey dst src (udp_DstPort (d_udp d)) (udp_SrcPort (d_udp d))))
      | None => false
      end
  | Some LayerTypeICMPv4 =>
      match m_icmpTracker m with
      | Some t => bool_decide (is_Some (tb_conns t !! MkICMPKey dst src (icmp4_Id (d_icmp4 d))))
      | None => false
      end
  | Some LayerTypeICMPv6 =>
      match m_icmpTracker m with
      | Some t => bool_decide (is_Some (tb_conns t !! MkICMPKey dst src (icmpv6EchoFields d).1))
      | None => false
      end
  | _ => false
  end.

(** The peer rules let the packet in: an ICMP error, or no deny rule matches
    and some accept rule does. *)
Definition peer_allows (m : Manager) (d : decoder) (src : Addr) : bool :=
  match decoded d !! 1%nat, isSpecialICMP d with
  | Some pl, Some special => special || negb (acl_blocks (m_acl m) src d pl)
  | _, _ => false
  end.

Definition route_allows (m : Manager) (d : decoder) (src dst : Addr) : bool :=
  match decoded d !! 1%nat, getPortsFromPacket d with
  | Some pl, Some (sp, dp) => route_accepts (m_routes m) src dst pl sp dp
  | _, _ => false
  end.

(** Accepted for the host's own stack without a tracked flow. *)
Definition admits (m : Manager) (d : decoder) (src dst : Addr) : bool :=
  if IsLocalIP (m_localIPs m) dst then peer_allows m d src && negb (shouldForward m d dst)
  else m_routingEnabled m && m_nativeRouter m.

(** Handed to the forwarder. *)
Definition forwards (m : Manager) (d : decoder) (src dst : Addr) : bool :=
  if IsLocalIP (m_localIPs m) dst then peer_allows m d src && shouldForward m d dst
  else m_routingEnabled m && negb (m_nativeRouter m) && route_allows m d src dst.

Record rules_ok (m : Manager) : Prop := {
  ok_acl : acl_inv (m_acl m);
  ok_routes : route_inv (m_routes m);
}.

Section Policy.
Context {MO : MapOrder} {GP : Gopacket}.

Lemma peerACLsBlock_allows m d src pl :
  rules_ok m → decoded d !! 1%nat = Some pl →
  ∃ id, peerACLsBlock (m_acl m) src d = Some (id, negb (peer_allows m d src)).
Proof.
  intros Hok Hpl. destruct (peerACLsBlock_spec (m_acl m) src d pl (ok_acl m Hok) Hpl)
    as (id & special & Hs & Hb & _). exists id. rewrite Hb. unfold peer_allows. rewrite Hpl, Hs.
  by rewrite negb_orb, negb_involutive.
Qed.

Lemma tb_valid_hit {K C} `{Countable K} {TC : TrackedConn C} env (t : Table K C) key size t' :
  tb_valid env t key size = (t', true) → is_Some (tb_conns t !! key).
Proof. unfold tb_valid. destruct (tb_conns t !! key); [done|]. by intros [=]. Qed.

Lemma tcp_valid_true env t src dst sp dp flags size t' :
  tcp_IsValidInbound env t src dst sp dp flags size = (t', true) →
  is_Some (tcp_conns t !! MkKey dst src dp sp).
Proof. unfold tcp_IsValidInbound. destruct (tcp_conns t !! _); [done|]. by intros [=]. Qed.

Lemma trackedReply_tracked env m d src dst size m' :
  trackedReply env m d src dst size = Some (m', true) → tracked m d src dst = true.
Proof.
  unfold trackedReply, tracked. destruct (m_stateful m); [|by intros [=]]. simpl.
  unfold isValidTrackedConnection. intros H. follow H; rewrite Hx; apply bool_decide_eq_true.
  - by eapply tcp_valid_true.
  - by eapply tb_valid_hit.
  - unfold icmp_IsValidInbound in *. destruct (_ && _); simplify_eq. by eapply tb_valid_hit.
  - unfold icmp_IsValidInbound in *. destruct (_ && _); simplify_eq. by eapply tb_valid_hit.
Qed.

(** The decision on a packet that reached the local or routed handler. *)
Lemma handleLocalTraffic_decision env m d src dst p size m' d' drop :
  rules_ok m → is_Some (decoded d !! 1%nat) → IsLocalIP (m_localIPs m) dst = true →
  handleLocalTraffic env m d src dst p size = Some (m', d', drop) →
  drop = negb (admits m d src dst) ∧
  ((d' = d ∧ drop = true) ∨ d' = set_dnatOrigPort 0 d) ∧
  (forwards m d src dst = false → m_forwarder m' = m_forwarder m).
Proof.
  intros Hok [pl Hpl] Hl. destruct (peerACLsBlock_allows m d src pl Hok Hpl) as [id Hb].
  unfold handleLocalTraffic, handleForwardedLocalTraffic, admits, forwards. rewrite Hb, Hl. simpl.
  destruct (peer_allows m d src); simpl.
  - destruct (shouldForward m d dst); simpl.
    + destruct (m_forwarder m); intros [= <- <- <-]; split_and!; auto; done.
    + intros H. follow H. apply trackInbound_frame in Hx as [(u & i & t & ->) ->]. auto.
  - intros H. follow H. apply storeDropFlow_frame in Hx as (e & -> & _). auto.
Qed.

Lemma handleRoutedTraffic_decision env m d src dst p size m' d' drop :
  rules_ok m → IsLocalIP (m_localIPs m) dst = false →
  handleRoutedTraffic env m d src dst p size = Some (m', d', drop) →
  drop = negb (admits m d src dst) ∧
  ((d' = d ∧ drop = true) ∨ d' = set_dnatOrigPort 0 d) ∧
  (forwards m d src dst = false → m_forwarder m' = m_forwarder m).
Proof.
  intros Hok Hl. unfold handleRoutedTraffic, admits, forwards, route_allows. rewrite Hl.
  destruct (m_routingEnabled m); simpl; [|intros [= <- <- <-]; auto].
  destruct (m_nativeRouter m); simpl.
  { intros H. follow H. apply trackInbound_frame in Hx as [(u & i & t & ->) ->]. auto. }
  destruct (decoded d !! 1%nat) as [pl|]; simpl; [|done].
  destruct (getPortsFromPacket d) as [[sp dp]|]; simpl; [|done].
  destruct (routeACLsPass_spec (m_routes m) src dst pl sp dp (ok_routes m Hok)) as [id ->]. simpl.
  destruct (route_accepts _ _ _ _ _ _); simpl.
  - destruct (m_forwarder m) as [f|] eqn:Ef; [|intros [= <- <- <-]; auto].
    destruct (InjectIncomingPacket _ p). intros [= <- <- <-]. split_and!; auto; done.
  - intros H. follow H. apply storeDropFlow_frame in Hx as (e & -> & _). auto.
Qed.

Lemma extractIPs_orig d o : extractIPs (set_dnatOrigPort o d) = extractIPs d.
Proof. done. Qed.

(** ** Translation *)

Lemma applyPortRule_id rules p d src dst port lt f p' d' :
  applyPortRule rules p d src dst port lt f = Ok (p', d', false) → p' = p ∧ d' = d.
Proof.
  induction rules as [|r rules IH]; simpl; [by intros [= <- <-]|].
  destruct (_ || _); [exact IH|]. destruct (_ && _); [by intros [= <- <-]|].
  destruct (negb _); [exact IH|]. destruct (f _ _ _ _); try done. by intros [= <- <-].
Qed.

Lemma portDNAT_id s p d src dst p' d' :
  translateInboundPortDNAT s p d src dst = Ok (p', d', false) → p' = p ∧ d' = d.
Proof.
  unfold translateInboundPortDNAT. destruct (negb _); [by intros [= <- <-]|].
  destruct (decoded d !! 1%nat) as [[]|]; try done; try apply applyPortRule_id; by intros [= <- <-].
Qed.

(** The decoder and the addresses the verdict is taken on. *)
Lemma filterInboundDecoded_cases env m d src dst p size m' d' p' drop :
  extractIPs d = Some (src, dst) →
  filterInboundDecoded env m d src dst p size = Some (m', d', p', drop) →
  drop = true ∧ m' = m ∨
  ∃ d2 src2 dst2 m1 reply, extractIPs d2 = Some (src2, dst2) ∧
    trackedReply env m d2 src2 dst2 size = Some (m1, reply) ∧
    (reply = true ∧ m' = m1 ∧ d' = d2 ∧ drop = false ∨
     reply = false ∧
     (if IsLocalIP (m_localIPs m1) dst2 then handleLocalTraffic env m1 d2 src2 dst2 p' size
      else handleRoutedTraffic env m1 d2 src2 dst2 p' size) = Some (m', d', drop)).
Proof.
  intros Hips. unfold filterInboundDecoded. intros H.
  destruct (of_res (translateInboundPortDNAT (m_dnat m) p d src dst)) as [[[p1 d1] t1]|] eqn:E1; simpl in H; [|done].
  assert (H1 : t1 = false → d1 = d).
  { intros ->. destruct (translateInboundPortDNAT (m_dnat m) p d src dst) eqn:E; simplify_eq/=.
    by apply portDNAT_id in E as [_ ?]. }
  destruct (if t1 then decodePacket d1 p1 else (d1, true)) as [da oka] eqn:Ea.
  destruct oka; simpl in H; [|follow H; auto].
  assert (Hs1 : (if t1 then extractIPs da else Some (src, dst)) = extractIPs da).
  { destruct t1; [done|]. simplify_eq/=. by rewrite H1. }
  rewrite Hs1 in H. destruct (extractIPs da) as [[srca dsta]|] eqn:Eia; simpl in H; [|done].
  destruct (of_res (translateInboundReverse (m_dnat m) p1 da)) as [[p2 t2]|] eqn:E2; simpl in H; [|done].
  destruct (if t2 then decodePacket da p2 else (da, true)) as [db okb] eqn:Eb.
  destruct okb; simpl in H; [|follow H; auto].
  assert (Hs2 : (if t2 then extractIPs db else Some (srca, dsta)) = extractIPs db)
    by (destruct t2; [done | by simplify_eq/=]).
  rewrite Hs2 in H. destruct (extractIPs db) as [[srcb dstb]|] eqn:Eib; simpl in H; [|done].
  right. destruct (trackedReply env m db srcb dstb size) as [[m1 reply]|] eqn:Er; simpl in H; [|done].
  exists db, srcb, dstb, m1, reply. split_and!; [done..|].
  destruct reply; [left; by simplify_eq|]. right. split; [done|].
  apply bind_Some in H as ([[m2 d2] drop2] & H & [= <- <- <- <-]). exact H.
Qed.
End Policy.

(** ** Trackers that are open *)

Record trackers_open (m : Manager) : Prop := {
  open_udp : ∃ t, m_udpTracker m = Some t ∧ is_Some (tb_connections t);
  open_icmp : ∃ t, m_icmpTracker m = Some t ∧ is_Some (tb_connections t);
  open_tcp : ∃ t, m_tcpTracker m = Some t ∧ is_Some (tt_connections t);
}.

Section Open.
Context {MO : MapOrder} {GP : Gopacket}.

Lemma open_with_udp m t : trackers_open m → is_Some (tb_connections t) → trackers_open (with_udp t m).
Proof. intros [? ? ?] ?. split; simpl; eauto. Qed.
Lemma open_with_icmp m t : trackers_open m → is_Some (tb_connections t) → trackers_open (with_icmp t m).
Proof. intros [? ? ?] ?. split; simpl; eauto. Qed.
Lemma open_with_tcp m t : trackers_open m → is_Some (tt_connections t) → trackers_open (with_tcp t m).
Proof. intros [? ? ?] ?. split; simpl; eauto. Qed.

Lemma icmp_track_total env t src dst id typ code dir r sz :
  is_Some (tb_connections t) →
  ∃ t', icmp_track env t src dst id typ code dir r sz = Some t' ∧ is_Some (tb_connections t').
Proof.
  intros Ho. unfold icmp_track, icmp_updateIfExists.
  pose proof (tb_updateIfExists_open env t (MkICMPKey src dst id) dir sz Ho) as Ho'.
  destruct (tb_updateIfExists _ _ _ _ _) as [t1 [c|]]; simpl in *; [by eexists|].
  destruct (negb _); [eexists; split; [done|]; exact Ho'|].
  edestruct (tb_insert_total (env_seed env) t1) as (t2 & H2 & H3 & _); [exact Ho'|]. by eexists.
Qed.

Lemma tcp_valid_open env t src dst sp dp flags size :
  is_Some (tt_connections t) →
  is_Some (tt_connections (tcp_IsValidInbound env t src dst sp dp flags size).1).
Proof.
  intros [c Hc]. unfold tcp_IsValidInbound. repeat case_match; simpl; try by eexists.
  unfold tcp_store. simpl. rewrite Hc. by eexists.
Qed.

Lemma trackInbound_total env m d src dst r size :
  trackers_open m → is_Some (decoded d !! 1%nat) →
  ∃ m', trackInbound env m d src dst r size = Some (m', set_dnatOrigPort 0 d) ∧ trackers_open m'.
Proof.
  intros Ho [pl Hpl]. unfold trackInbound. rewrite Hpl.
  destruct (open_udp m Ho) as (u & Hu & Hou), (open_icmp m Ho) as (i & Hi & Hoi),
    (open_tcp m Ho) as (t & Ht & Hot).
  destruct pl; try (by eexists).
  - rewrite Ht. simpl. unfold tcp_TrackInbound.
    edestruct tcp_track_total as (t' & -> & ?); [exact Hot|]. eexists. split; [done|]. by apply open_with_tcp.
  - rewrite Hu. simpl. unfold udp_TrackInbound.
    edestruct udp_track_total as (t' & -> & ?); [exact Hou|]. eexists. split; [done|]. by apply open_with_udp.
  - rewrite Hi. simpl. unfold icmp_TrackInbound.
    edestruct icmp_track_total as (t' & -> & ?); [exact Hoi|]. eexists. split; [done|]. by apply open_with_icmp.
  - destruct (icmpv6EchoFields d) as [id [typ code]]. rewrite Hi. simpl. unfold icmp_TrackInbound.
    edestruct icmp_track_total as (t' & -> & ?); [exact Hoi|]. eexists. split; [done|]. by apply open_with_icmp.
Qed.

Lemma trackedReply_total env m d src dst size :
  trackers_open m → is_Some (decoded d !! 1%nat) →
  ∃ m' b, trackedReply env m d src dst size = Some (m', b) ∧ trackers_open m'.
Proof.
  intros Ho [pl Hpl]. unfold trackedReply. destruct (m_stateful m); [|by do 2 eexists].
  unfold isValidTrackedConnection. rewrite Hpl.
  destruct (open_udp m Ho) as (u & Hu & Hou), (open_icmp m Ho) as (i & Hi & Hoi),
    (open_tcp m Ho) as (t & Ht & Hot).
  destruct pl; try (by do 2 eexists).
  - rewrite Ht. simpl. pose proof (λ a b c, tcp_valid_open env t src dst a b c size Hot) as Hv.
    specialize (Hv (tcp_SrcPort (d_tcp d)) (tcp_DstPort (d_tcp d)) (getTCPFlags (d_tcp d))).
    destruct (tcp_IsValidInbound _ _ _ _ _ _ _ _). do 2 eexists. split; [done|]. by apply open_with_tcp.
  - rewrite Hu. simpl. unfold udp_IsValidInbound.
    pose proof (λ k, tb_valid_open env u k size Hou) as Hv.
    specialize (Hv (MkKey dst src (udp_DstPort (d_udp d)) (udp_SrcPort (d_udp d)))).
    destruct (tb_valid _ _ _ _). do 2 eexists. split; [done|]. by apply open_with_udp.
  - rewrite Hi. simpl. unfold icmp_IsValidInbound.
    pose proof (λ k, tb_valid_open env i k size Hoi) as Hv.
    destruct (_ && _); [do 2 eexists; split; [done|]; by apply open_with_icmp|].
    specialize (Hv (MkICMPKey dst src (icmp4_Id (d_icmp4 d)))).
    destruct (tb_valid _ _ _ _). do 2 eexists. split; [done|]. by apply open_with_icmp.
  - rewrite Hi. simpl. unfold icmp_IsValidInbound.
    pose proof (λ k, tb_valid_open env i k size Hoi) as Hv.
    destruct (_ && _); [do 2 eexists; split; [done|]; by apply open_with_icmp|].
    specialize (Hv (MkICMPKey dst src (icmpv6EchoFields d).1)).
    destruct (tb_valid _ _ _ _). do 2 eexists. split; [done|]. by apply open_with_icmp.
Qed.

Lemma storeDropFlow_total env m d src dst r size :
  is_Some (decoded d !! 1%nat) → ∃ e, storeDropFlow env m d src dst r size = Some (with_drop e m).
Proof.
  intros [pl Hpl]. unfold storeDropFlow, getProtocolFromPacket, getPortsFromPacket. rewrite Hpl.
  destruct pl; by eexists.
Qed.
End Open.

(** ** Runs *)

(** What callers pass: prefixes made by [netip], ranges with two bounds. *)
Definition filter_op_wf (eo : Env * FilterOp) : Prop :=
  match eo.2 with
  | FAdd _ sources _ _ sp dp _ => Forall prefix_wf sources ∧ port_wf sp ∧ port_wf dp
  | _ => True
  end.

Section Runs.
Context {MO : MapOrder} {GP : Gopacket} (sha256 : string → list Z) (Getenv : string → string).

Lemma rules_ok_eq m m' : m_acl m' = m_acl m → m_routes m' = m_routes m → rules_ok m → rules_ok m'.
Proof. intros H1 H2 [? ?]. split; congruence. Qed.

Lemma rules_ok_keeps m m' : keeps m m' → rules_ok m → rules_ok m'.
Proof. intros [Hc _]. unfold config in Hc. apply rules_ok_eq; congruence. Qed.

Lemma filterFirstFragment_config env m d meta src dst size m' d' drop :
  filterFirstFragment env m d meta src dst size = Some (m', d', drop) → config m' = config m.
Proof.
  assert (Hr : ∀ m meta, config (recordFirstFragment env m meta) = config m)
    by (intros; unfold recordFirstFragment; by case_match).
  unfold filterFirstFragment. intros H. follow H;
    repeat match goal with
    | Hx : trackedReply _ _ _ _ _ _ = Some _ |- _ => apply trackedReply_keeps in Hx as [Hx _]
    | Hx : trackInbound _ _ _ _ _ _ _ = Some _ |- _ => apply trackInbound_keeps in Hx as [Hx _]
    | Hx : storeDropFlow _ _ _ _ _ _ _ = Some _ |- _ => apply storeDropFlow_keeps in Hx as [Hx _]
    end; rewrite ?Hr; congruence.
Qed.

Lemma filterInbound_config env m d p size m' d' p' drop :
  filterInbound env m d p size = Some (m', d', p', drop) → config m' = config m.
Proof.
  unfold filterInbound. intros H. destruct (isValidPacket d p) as [[d1 valid] fragment].
  destruct valid; simpl in *; [|by follow H].
  destruct (extractIPs d1) as [[src dst]|]; simpl in *; [|done].
  destruct (IsValid src); simpl in *; [|by follow H].
  destruct fragment; [|by apply filterInboundDecoded_keeps in H as [-> _]].
  follow H. unfold filterInboundFragment in Hx. follow Hx; try done.
  - unfold filterTrailingFragment in *. by case_match; simplify_eq/=.
  - by apply filterFirstFragment_config in Hx.
Qed.

Lemma deleteBlockRules_inv rules m : route_inv m → route_inv (deleteBlockRules m rules).1.
Proof.
  revert m. induction rules as [|r rules IH]; intros m Hm; simpl; [done|].
  destruct (deleteRouteRule m r) as [m1|] eqn:E.
  - apply IH. by destruct (deleteRouteRule_inv _ _ _ Hm E).
  - specialize (IH m Hm). by destruct (deleteBlockRules m rules).
Qed.

Lemma determineRouting_rules can m :
  m_acl (determineRouting Getenv can m).1 = m_acl m ∧ m_routes (determineRouting Getenv can m).1 = m_routes m.
Proof. unfold determineRouting, initForwarder. by repeat case_match. Qed.

Lemma EnableRouting_rules can m : rules_ok m → rules_ok (EnableRouting sha256 Getenv can m).1.
Proof.
  intros Hok. unfold EnableRouting. pose proof (determineRouting_rules can m) as [H1 H2].
  destruct (determineRouting Getenv can m) as [m1 ok]. simpl in H1, H2.
  destruct ok; [|by apply (rules_ok_eq m)]. simpl. destruct (m_forwarder m1); [|by apply (rules_ok_eq m)].
  destruct (blockInvalidRouted _ _ _ _) as [routes rules] eqn:E. simpl. split; simpl.
  - rewrite H1. apply Hok.
  - rewrite H2 in E. by destruct (blockInvalidRouted_keeps _ _ _ _ _ _ (ok_routes m Hok) E).
Qed.

Lemma disableRouting_rules m : rules_ok m → rules_ok (disableRouting m).1.
Proof.
  intros Hok. unfold disableRouting. destruct (m_forwarder m); [|done].
  pose proof (deleteBlockRules_inv (m_blockRules m) (m_routes m) (ok_routes m Hok)) as Hd. simpl.
  destruct (deleteBlockRules (m_routes m) (m_blockRules m)) as [routes ok]. simpl in Hd.
  by destruct (_ && _); (split; [apply Hok | exact Hd]).
Qed.

Lemma resetPeerRules_inv m : acl_inv (resetPeerRules m).
Proof. destruct NewPeerACL_inv. split; try done. unfold installed. simpl. set_solver. Qed.

Lemma dnat_op_rules s r s' : rules_ok (f_mgr s) → dnat_op s r = Some s' → rules_ok (f_mgr s').
Proof.
  intros Hok. destruct r; simpl; intros [= <-]; [|done]. by apply (rules_ok_eq (f_mgr s)).
Qed.

(** Every operation keeps the rule stores well-formed. *)
Lemma filter_step_rules s eo s' :
  filter_op_wf eo → rules_ok (f_mgr s) → filter_step sha256 Getenv s eo = Some s' → rules_ok (f_mgr s').
Proof.
  destruct eo as [env op]. intros Hwf Hok H. destruct op; cbn [filter_step] in H.
  - apply (FInbound_inv sha256 Getenv) in H as (q & b & H). apply inbound_inv in H as (m & d & H & ->).
    apply filterInbound_config in H. eapply rules_ok_eq; [..|exact Hok]; unfold config in H; simpl; congruence.
  - apply (FOutbound_inv sha256 Getenv) in H as (m & d & q & b & H & ->).
    apply filterOutbound_keeps in H. by eapply rules_ok_keeps.
  - injection H as <-. unfold AddFilterRule. destruct Hwf as (Hp & Hs & Hd). simpl in Hp, Hs, Hd.
    destruct (_ =? _)%nat; [done|]. destruct (net_IsZero _).
    + destruct (addPeerRule _ _ _ _ _ _ _ _ _) as [acl r] eqn:E. simpl. split; simpl; [|apply Hok].
      by destruct (addPeerRule_inv _ _ _ _ _ _ _ _ _ _ _ (ok_acl _ Hok) Hp Hs Hd E).
    + destruct (addRouteRule _ _ _ _ _ _ _ _ _) as [routes r] eqn:E. simpl. split; simpl; [apply Hok|].
      by destruct (addRouteRule_inv _ _ _ _ _ _ _ _ _ _ _ (ok_routes _ Hok) Hs Hd E).
  - injection H as <-. unfold DeleteFilterRule. destruct rule as [r|id].
    + destruct (deletePeerRuleLocked _ _ _) as [acl|] eqn:E; simpl; [|done]. split; simpl; [|apply Hok].
      by destruct (deletePeerRule_inv _ _ _ _ (ok_acl _ Hok) E).
    + destruct (deleteRouteRule _ _) as [routes|] eqn:E; simpl; [|done]. split; simpl; [apply Hok|].
      by destruct (deleteRouteRule_inv _ _ _ (ok_routes _ Hok) E).
  - injection H as <-. by apply EnableRouting_rules.
  - injection H as <-. by apply disableRouting_rules.
  - injection H as <-. by apply (rules_ok_eq (f_mgr s)).
  - injection H as <-. by apply (rules_ok_eq (f_mgr s)).
  - injection H as <-. destruct (UpdateSet _ _ _) as [r|] eqn:E; simpl; [|done]. split; simpl; [apply Hok|].
    by eapply UpdateSet_inv; [apply (ok_routes _ Hok)|].
  - injection H as <-. by apply (rules_ok_eq (f_mgr s)).
  - injection H as <-. by destruct tcp; apply (rules_ok_eq (f_mgr s)).
  - by eapply dnat_op_rules.
  - by eapply dnat_op_rules.
  - by eapply dnat_op_rules.
  - by eapply dnat_op_rules.
  - injection H as <-. by apply (rules_ok_eq (f_mgr s)).
  - injection H as <-. split; simpl; [apply resetPeerRules_inv | apply NewRouteACL_inv].
Qed.

Lemma filter_run_rules ops s s' :
  Forall filter_op_wf ops → rules_ok (f_mgr s) → filter_run sha256 Getenv s ops = Some s' →
  rules_ok (f_mgr s').
Proof.
  intros Hops. revert s. induction Hops as [|o ops Ho Hops IH]; intros s Hok; cbn [filter_run run].
  { by intros [= <-]. }
  destruct (filter_step _ _ s o) as [s1|] eqn:E; [|done]. apply IH. by eapply filter_step_rules.
Qed.

Lemma Create_rules PD dsr ns fwd wg ifs mtu : rules_ok (Create Getenv PD dsr ns fwd wg ifs mtu).
Proof.
  unfold Create. repeat case_match; (split; simpl; [apply NewPeerACL_inv | apply NewRouteACL_inv]).
Qed.

Lemma allows_config m m' d src dst :
  config m' = config m → admits m' d src dst = admits m d src dst ∧ forwards m' d src dst = forwards m d src dst.
Proof.
  unfold config. intros Hc. injection Hc as H1 H2 H3 H4 H5 H6 H7 H8 H9 H10 H11.
  unfold admits, forwards, peer_allows, route_allows, shouldForward, hasMatchingNetstackService.
  by rewrite H1, H2, H3, H6, H7, H8, H9, H10, H11.
Qed.

Lemma allows_orig m d o src dst :
  admits m (set_dnatOrigPort o d) src dst = admits m d src dst ∧
  forwards m (set_dnatOrigPort o d) src dst = forwards m d src dst.
Proof. done. Qed.

(** The verdict of the inbound path on a packet that is not a fragment. *)
Lemma filterInbound_verdict env m d p size m' d' q drop :
  rules_ok m → fragment_of d p = None → filterInbound env m d p size = Some (m', d', q, drop) →
  drop = true ∧ m_forwarder m' = m_forwarder m ∨
  ∃ src dst, extractIPs d' = Some (src, dst) ∧
    (drop = false → tracked m d' src dst = true ∨ admits m d' src dst = true) ∧
    (m_forwarder m' ≠ m_forwarder m → forwards m d' src dst = true).
Proof.
  intros Hok Hf. unfold filterInbound, fragment_of in *.
  destruct (isValidPacket d p) as [[d1 valid] fragment].
  destruct valid; simpl in *; [|intros [= <- <- <- <-]; auto].
  destruct (extractIPs d1) as [[src dst]|] eqn:Ei; simpl in *; [|done].
  destruct (IsValid src); simpl in *; [|intros [= <- <- <- <-]; auto].
  destruct fragment; simpl in *.
  { intros H. follow H. unfold filterInboundFragment in Hx.
    destruct (fragmentMetadata d1 src dst) as [[f|]|]; simpl in *; simplify_eq. auto. }
  intros H. destruct (filterInboundDecoded_cases _ _ _ _ _ _ _ _ _ _ _ Ei H)
    as [[-> ->]|(d2 & src2 & dst2 & m1 & reply & Ei2 & Hr & Hc)]; [auto|]. right. exists src2, dst2.
  pose proof (trackedReply_frame _ _ _ _ _ _ _ _ Hr) as (u & i & t & ->).
  destruct Hc as [(-> & -> & -> & ->)|[-> Hc]].
  { split_and!; [done | left; by eapply trackedReply_tracked | done]. }
  destruct (allows_config m (with_trackers u i t m) d2 src2 dst2 eq_refl) as [Ha Hw].
  assert (Hok' : rules_ok (with_trackers u i t m)) by (by apply (rules_ok_eq m)).
  assert (Hfin : drop = negb (admits m d2 src2 dst2) ∧
    ((d' = d2 ∧ drop = true) ∨ d' = set_dnatOrigPort 0 d2) ∧
    (forwards m d2 src2 dst2 = false → m_forwarder m' = m_forwarder m)).
  { rewrite <- Ha, <- Hw. destruct (IsLocalIP (m_localIPs (with_trackers u i t m)) dst2) eqn:El.
    - apply (handleLocalTraffic_decision env (with_trackers u i t m) d2 src2 dst2 q size m' d' drop); try done.
      destruct (decoded d2 !! 1%nat) eqn:E; [by eexists|]. exfalso.
      unfold handleLocalTraffic, peerACLsBlock, isSpecialICMP in Hc. by rewrite E in Hc.
    - by apply (handleRoutedTraffic_decision env (with_trackers u i t m) d2 src2 dst2 q size m' d' drop). }
  destruct Hfin as (Hd & Hdd & Hfw).
  destruct (allows_orig m d2 0 src2 dst2) as [Ho1 Ho2].
  assert (Hsame : extractIPs d' = Some (src2, dst2) ∧ admits m d' src2 dst2 = admits m d2 src2 dst2 ∧
    forwards m d' src2 dst2 = forwards m d2 src2 dst2) by (by destruct Hdd as [[-> _]| ->]).
  destruct Hsame as (-> & -> & ->). split_and!; [done | |].
  - intros ->. right. by destruct (admits _ _ _ _).
  - intros Hne. destruct (forwards _ _ _ _); [done|]. by destruct Hne; auto.
Qed.

Definition filter_init (m : Manager) : FilterState := {| f_mgr := m; f_pool := ∅ |}.

Lemma reachable_rules PD dsr ns fwd wg ifs mtu ops s :
  Forall filter_op_wf ops →
  filter_run sha256 Getenv (filter_init (Create Getenv PD dsr ns fwd wg ifs mtu)) ops = Some s →
  rules_ok (f_mgr s).
Proof. intros Hops Hrun. eapply filter_run_rules; [done | | done]. apply Create_rules. Qed.

Lemma inbound_decoder env s slot p size s' q drop m d :
  filterInbound env (f_mgr s) (getDecoder s slot) p size = Some (m, d, q, drop) →
  inbound env s slot p size = Some (s', q, drop) → getDecoder s' slot = d ∧ f_mgr s' = m.
Proof.
  intros H (m1 & d1 & H1 & ->)%inbound_inv. rewrite H in H1. simplify_eq.
  unfold getDecoder. simpl. by rewrite lookup_insert_eq.
Qed.

(** C1. Nothing gets in unasked. In every run of the whole filter from its
    creation, with any interleaving of packets, rule changes, routing and
    translation, an inbound packet that is not a fragment and is not
    dropped either answers a flow the trackers hold, or is addressed to the
    host and let in by the installed peer rules (an ICMP error, or no deny
    rule matches and some accept rule does), or is routed while the native
    router is in charge. Addresses and ports are those of the packet passed
    on, after translation. *)
Theorem inbound_accept_sound PD dsr ns fwd wg ifs mtu ops s env slot p size s' q :
  Forall filter_op_wf ops →
  filter_run sha256 Getenv (filter_init (Create Getenv PD dsr ns fwd wg ifs mtu)) ops = Some s →
  fragment_of (getDecoder s slot) p = None →
  inbound env s slot p size = Some (s', q, false) →
  ∃ src dst, extractIPs (getDecoder s' slot) = Some (src, dst) ∧
    (tracked (f_mgr s) (getDecoder s' slot) src dst = true ∨
     admits (f_mgr s) (getDecoder s' slot) src dst = true).
Proof.
  intros Hops Hrun Hf Hin.
  pose proof (reachable_rules _ _ _ _ _ _ _ _ _ Hops Hrun) as Hok.
  pose proof Hin as (m & d & H & _)%inbound_inv.
  destruct (inbound_decoder _ _ _ _ _ _ _ _ _ _ H Hin) as [-> _].
  destruct (filterInbound_verdict _ _ _ _ _ _ _ _ _ Hok Hf H) as [[? _]|(src & dst & He & Ha & _)]; [done|].
  exists src, dst. auto.
Qed.

(** A fragment leaves the forwarder alone. *)
Lemma filterFirstFragment_forwarder env m d meta src dst size m' d' drop :
  filterFirstFragment env m d meta src dst size = Some (m', d', drop) → m_forwarder m' = m_forwarder m.
Proof.
  assert (Hr : ∀ m meta, m_forwarder (recordFirstFragment env m meta) = m_forwarder m)
    by (intros; unfold recordFirstFragment; by case_match).
  unfold filterFirstFragment. intros H. follow H;
    repeat match goal with
    | Hx : trackedReply _ _ _ _ _ _ = Some _ |- _ => apply trackedReply_frame in Hx as (?&?&?&->)
    | Hx : trackInbound _ _ _ _ _ _ _ = Some _ |- _ => apply trackInbound_frame in Hx as [(?&?&?&->) _]
    | Hx : storeDropFlow _ _ _ _ _ _ _ = Some _ |- _ => apply storeDropFlow_frame in Hx as (?&->&_)
    end; by rewrite ?Hr.
Qed.

Lemma fragment_forwarder env m d p size m' d' p' drop :
  fragment_of d p ≠ None → filterInbound env m d p size = Some (m', d', p', drop) → m_forwarder m' = m_forwarder m.
Proof.
  unfold fragment_of, filterInbound. destruct (isValidPacket d p) as [[d1 valid] fragment]. intros Hf H.
  destruct valid; simpl in *; [|by follow H]. destruct fragment; [|done].
  destruct (extractIPs d1) as [[src dst]|]; simpl in *; [|done]. destruct (IsValid src); simpl in *; [|done].
  follow H. unfold filterInboundFragment in Hx. follow Hx; try done.
  - unfold filterTrailingFragment in *. by case_match; simplify_eq/=.
  - by apply filterFirstFragment_forwarder in Hx.
Qed.

(** C5. The forwarder only sees what the rules allow. In every run, an
    inbound packet changes the forwarder (a packet is injected, a rule
    identifier recorded) only if it is no fragment and it is addressed to the
    host, let in by the peer rules and meant for forwarding, or routed in
    userspace and accepted by the route rules. *)
Theorem forwarder_only_allowed PD dsr ns fwd wg ifs mtu ops s env slot p size s' q drop :
  Forall filter_op_wf ops →
  filter_run sha256 Getenv (filter_init (Create Getenv PD dsr ns fwd wg ifs mtu)) ops = Some s →
  inbound env s slot p size = Some (s', q, drop) →
  m_forwarder (f_mgr s') ≠ m_forwarder (f_mgr s) →
  fragment_of (getDecoder s slot) p = None ∧
  ∃ src dst, extractIPs (getDecoder s' slot) = Some (src, dst) ∧
    forwards (f_mgr s) (getDecoder s' slot) src dst = true.
Proof.
  intros Hops Hrun Hin Hne.
  pose proof (reachable_rules _ _ _ _ _ _ _ _ _ Hops Hrun) as Hok.
  pose proof Hin as (m & d & H & _)%inbound_inv.
  destruct (inbound_decoder _ _ _ _ _ _ _ _ _ _ H Hin) as [-> Hm]. rewrite Hm in Hne.
  assert (Hf : fragment_of (getDecoder s slot) p = None).
  { destruct (fragment_of _ p) eqn:Ef; [|done]. destruct Hne. eapply fragment_forwarder; [|exact H]. by rewrite Ef. }
  split; [done|].
  destruct (filterInbound_verdict _ _ _ _ _ _ _ _ _ Hok Hf H) as [[_ ?]|(src & dst & He & _ & Hw)]; [done|].
  exists src, dst. auto.
Qed.
End Runs.
