(* ===== verification/FilterTotal.v ===== *)
(** * The filter answers

    With connection tracking on and the manager not closed, the trackers stay
    open along every run, and the inbound path returns a verdict, the one the
    policy gives.  Default deny of a manager without rules. *)
From S2P Require Import Prelude NetIP Bytes Order FwTypes ConnTrack TCPTrack TCPTrackFacts TimedTable.
From S2P Require Import UDPTrack ICMPTrack Fragment PeerRules RouteRules Checksum.
From S2P Require Import DNAT Filter FilterPaths FilterOps FilterFacts FilterPolicy.
Open Scope Z_scope.

Section OpenRuns.
Context {MO : MapOrder} {GP : Gopacket} (sha256 : string → list Z) (Getenv : string → string).

Lemma open_same m m' :
  m_udpTracker m' = m_udpTracker m → m_icmpTracker m' = m_icmpTracker m →
  m_tcpTracker m' = m_tcpTracker m → trackers_open m → trackers_open m'.
Proof. intros H1 H2 H3 [? ? ?]. split; [by rewrite H1 | by rewrite H2 | by rewrite H3]. Qed.

Lemma trackInbound_open env m d src dst r size m' d' :
  trackInbound env m d src dst r size = Some (m', d') → trackers_open m → trackers_open m'.
Proof.
  intros H Ho. destruct (decoded d !! 1%nat) as [pl|] eqn:E; [|unfold trackInbound in H; by rewrite E in H].
  destruct (trackInbound_total env m d src dst r size Ho) as (m1 & H1 & Ho1); [by eexists|].
  rewrite H in H1. by simplify_eq.
Qed.

Lemma trackedReply_open env m d src dst size m' b :
  trackedReply env m d src dst size = Some (m', b) → trackers_open m → trackers_open m'.
Proof.
  intros H Ho. destruct (decoded d !! 1%nat) as [pl|] eqn:E.
  - destruct (trackedReply_total env m d src dst size Ho) as (m1 & b1 & H1 & Ho1); [by eexists|].
    rewrite H in H1. by simplify_eq.
  - unfold trackedReply, isValidTrackedConnection in H. rewrite E in H.
    destruct (m_stateful m); by simplify_eq.
Qed.

Lemma storeDropFlow_open env m d src dst r size m' :
  storeDropFlow env m d src dst r size = Some m' → trackers_open m → trackers_open m'.
Proof. intros (e & -> & _)%storeDropFlow_frame. by apply open_same. Qed.

Lemma with_fragments_open f m : trackers_open m → trackers_open (with_fragments f m).
Proof. by apply open_same. Qed.

Lemma with_forwarder_open f m : trackers_open m → trackers_open (with_forwarder f m).
Proof. by apply open_same. Qed.

Hint Resolve trackInbound_open trackedReply_open storeDropFlow_open with_fragments_open
  with_forwarder_open : netbird.

Lemma recordFirstFragment_open env m meta : trackers_open m → trackers_open (recordFirstFragment env m meta).
Proof. unfold recordFirstFragment. case_match; eauto with netbird. Qed.

Hint Resolve recordFirstFragment_open : netbird.

Lemma handleLocalTraffic_open env m d src dst p size m' d' b :
  handleLocalTraffic env m d src dst p size = Some (m', d', b) → trackers_open m → trackers_open m'.
Proof.
  unfold handleLocalTraffic, handleForwardedLocalTraffic. intros H Ho.
  follow H; eauto with netbird. case_match; simplify_eq; eauto with netbird.
Qed.

Lemma handleRoutedTraffic_open env m d src dst p size m' d' b :
  handleRoutedTraffic env m d src dst p size = Some (m', d', b) → trackers_open m → trackers_open m'.
Proof. unfold handleRoutedTraffic. intros H Ho. follow H; eauto with netbird. Qed.

Lemma filterFirstFragment_open env m d meta src dst size m' d' b :
  filterFirstFragment env m d meta src dst size = Some (m', d', b) → trackers_open m → trackers_open m'.
Proof. unfold filterFirstFragment. intros H Ho. follow H; eauto 6 with netbird. Qed.

Hint Resolve handleLocalTraffic_open handleRoutedTraffic_open filterFirstFragment_open : netbird.

Lemma filterInbound_open env m d p size m' d' q b :
  filterInbound env m d p size = Some (m', d', q, b) → trackers_open m → trackers_open m'.
Proof.
  unfold filterInbound. intros H Ho. destruct (isValidPacket d p) as [[d1 valid] fragment].
  destruct valid; simpl in *; [|by follow H].
  destruct (extractIPs d1) as [[src dst]|] eqn:Ei; simpl in *; [|done].
  destruct (IsValid src); simpl in *; [|by follow H].
  destruct fragment.
  - follow H. unfold filterInboundFragment in Hx. follow Hx; eauto with netbird.
    unfold filterTrailingFragment in *. case_match; simplify_eq; eauto with netbird.
  - destruct (filterInboundDecoded_cases _ _ _ _ _ _ _ _ _ _ _ Ei H)
      as [[_ ->]|(d2 & src2 & dst2 & m1 & reply & _ & Hr & Hc)]; [done|].
    destruct Hc as [(_ & -> & _)|[_ Hc]]; [|case_match]; eauto with netbird.
Qed.

Lemma tcp_TrackOutbound_open env t src dst sp dp flags size t' o :
  tcp_TrackOutbound env t src dst sp dp flags size = Some (t', o) →
  is_Some (tt_connections t) → is_Some (tt_connections t').
Proof.
  intros H Ho. destruct (tcp_step_total t (env, OpOutbound src dst sp dp flags size) Ho eq_refl)
    as (t1 & H1 & Ho1). simpl in H1. rewrite H in H1. by simplify_eq/=.
Qed.

Lemma udp_TrackOutbound_open env t src dst sp dp size t' o :
  udp_TrackOutbound env t src dst sp dp size = Some (t', o) →
  is_Some (tb_connections t) → is_Some (tb_connections t').
Proof.
  intros H Ho. destruct (udp_step_total t (env, UdpOutbound src dst sp dp size) Ho I)
    as (t1 & H1 & Ho1). simpl in H1. rewrite H in H1. by simplify_eq/=.
Qed.

Lemma icmp_TrackOutbound_open env t src dst id typ code size t' :
  icmp_TrackOutbound env t src dst id typ code size = Some t' →
  is_Some (tb_connections t) → is_Some (tb_connections t').
Proof.
  unfold icmp_TrackOutbound, icmp_updateIfExists. intros H Ho.
  pose proof (tb_updateIfExists_open env t (MkICMPKey dst src id) Egress size Ho) as Ho'.
  destruct (tb_updateIfExists _ _ _ _ _) as [t1 [c|]]; simpl in *; [by simplify_eq|].
  edestruct icmp_track_total as (t2 & H2 & ?); [exact Ho'|]. rewrite H2 in H. by simplify_eq.
Qed.

Lemma trackOutbound_open env m d src dst p size m' q :
  trackOutbound env m d src dst p size = Some (m', q) → trackers_open m → trackers_open m'.
Proof.
  intros H Ho. destruct (open_udp m Ho) as (u & Hu & Hou), (open_icmp m Ho) as (i & Hi & Hoi),
    (open_tcp m Ho) as (t & Ht & Hot).
  unfold trackOutbound in H. rewrite Hu, Hi, Ht in H.
  follow H; simplify_eq; try done;
    first [apply open_with_udp; [done|]; by eapply udp_TrackOutbound_open
          |apply open_with_tcp; [done|]; by eapply tcp_TrackOutbound_open
          |apply open_with_icmp; [done|]; by eapply icmp_TrackOutbound_open].
Qed.

Lemma filterOutbound_open env m d p size m' d' q b :
  filterOutbound env m d p size = Some (m', d', q, b) → trackers_open m → trackers_open m'.
Proof.
  unfold filterOutbound. intros H Ho. follow H; try done; by eapply trackOutbound_open.
Qed.

Definition not_close (eo : Env * FilterOp) : Prop :=
  match eo.2 with FClose => False | _ => True end.

Lemma filter_step_open s eo s' :
  not_close eo → filter_step sha256 Getenv s eo = Some s' →
  trackers_open (f_mgr s) → trackers_open (f_mgr s').
Proof.
  destruct eo as [env op]. intros Hnc H Ho. pose proof (other_ops_moving _ _ _ _ _ _ H) as Hm.
  destruct op; try done; try (injection Hm as _ H1 H2 H3; by apply (open_same (f_mgr s))).
  - apply (FInbound_inv sha256 Getenv) in H as (q & b & H). apply inbound_inv in H as (m & d & H & ->).
    by eapply filterInbound_open.
  - apply (FOutbound_inv sha256 Getenv) in H as (m & d & q & b & H & ->). by eapply filterOutbound_open.
  - injection H as <-. destruct Ho as [(u & Hu & ?) (i & Hi & ?) (t & Ht & ?)].
    split; simpl; rewrite ?Hu, ?Hi, ?Ht; simpl; eexists; (split; [done|]).
    + by apply tb_cleanup_open.
    + by apply tb_cleanup_open.
    + by apply tcp_cleanup_open.
Qed.

Lemma filter_run_open ops s s' :
  Forall not_close ops → trackers_open (f_mgr s) → filter_run sha256 Getenv s ops = Some s' →
  trackers_open (f_mgr s').
Proof.
  intros Hops. revert s. induction Hops as [|o ops Ho Hops IH]; intros s Hok; cbn [filter_run run].
  { by intros [= <-]. }
  destruct (filter_step _ _ s o) as [s1|] eqn:E; [|done]. apply IH. by eapply filter_step_open.
Qed.

Lemma Create_open PD dsr ns fwd wg ifs mtu :
  (parseCreateEnv Getenv).1.1 = false → trackers_open (Create Getenv PD dsr ns fwd wg ifs mtu).
Proof.
  unfold Create. destruct (parseCreateEnv Getenv) as [[dc lf] dm]. simpl. intros ->. simpl.
  destruct dm; simpl; (split; simpl; eexists; (split; [done|]); by eexists).
Qed.

(** ** The verdict *)

Lemma handleLocalTraffic_total env m d src dst p size :
  rules_ok m → trackers_open m → is_Some (decoded d !! 1%nat) →
  ∃ m' d' drop, handleLocalTraffic env m d src dst p size = Some (m', d', drop).
Proof.
  intros Hok Ho Hpl. pose proof Hpl as [pl Epl].
  destruct (peerACLsBlock_allows m d src pl Hok Epl) as [id Hb]. unfold handleLocalTraffic. rewrite Hb. simpl.
  destruct (peer_allows m d src); simpl.
  - destruct (shouldForward m d dst); [by destruct (handleForwardedLocalTraffic m p); eauto|].
    destruct (trackInbound_total env m d src dst id size Ho Hpl) as (m1 & -> & _). simpl. eauto.
  - destruct (storeDropFlow_total env m d src dst id size Hpl) as (e & ->). simpl. eauto.
Qed.

Lemma handleRoutedTraffic_total env m d src dst p size :
  rules_ok m → trackers_open m → is_Some (decoded d !! 1%nat) →
  ∃ m' d' drop, handleRoutedTraffic env m d src dst p size = Some (m', d', drop).
Proof.
  intros Hok Ho Hpl. pose proof Hpl as [pl Epl]. unfold handleRoutedTraffic.
  destruct (m_routingEnabled m); simpl; [|eauto]. destruct (m_nativeRouter m); simpl.
  { destruct (trackInbound_total env m d src dst [] size Ho Hpl) as (m1 & -> & _). simpl. eauto. }
  rewrite Epl. simpl. assert (Hports : ∃ sp dp, getPortsFromPacket d = Some (sp, dp)).
  { unfold getPortsFromPacket. rewrite Epl. destruct pl; eauto. }
  destruct Hports as (sp & dp & ->). simpl.
  destruct (routeACLsPass_spec (m_routes m) src dst pl sp dp (ok_routes m Hok)) as [id ->]. simpl.
  destruct (route_accepts _ _ _ _ _ _); simpl.
  - destruct (m_forwarder m); [|eauto]. destruct (InjectIncomingPacket _ _). eauto.
  - destruct (storeDropFlow_total env m d src dst id size Hpl) as (e & ->). simpl. eauto.
Qed.

Lemma isValidPacket_decoded d p d1 :
  isValidPacket d p = (d1, true, false) → is_Some (decoded d1 !! 1%nat).
Proof.
  unfold isValidPacket. destruct (decodePacket d p) as [d2 ok]. destruct (negb ok); [done|].
  destruct (2 <=? length (decoded d2))%nat eqn:E.
  - intros [= <-]. apply Nat.leb_le in E. by apply lookup_lt_is_Some.
  - by destruct (decoded d2) as [|[] [|]]; try done; case_match.
Qed.

(** The flags that a state waits for. *)
Definition awaited (s : TCPState) (syn ack fin : bool) : Prop :=
  match s with
  | TCPStateNew => syn = true ∧ ack = false
  | TCPStateSynSent => syn = true ∧ ack = true
  | TCPStateFinWait1 | TCPStateFinWait2 | TCPStateCloseWait => fin = true ∨ ack = true
  | _ => ack = true
  end.

(** A segment fits a live connection: it is legal, does not open a new one, and
    is a reset (acknowledged in SYN-SENT) or what the state waits for. *)
Record segment_fits (c : TCPConnTrack) (flags : Z) : Prop := {
  fits_live : tcp_tombstone c = false;
  fits_old : ¬ (tcp_state c = TCPStateTimeWait ∧ has flags TCPSyn = true ∧ has flags TCPAck = false);
  fits_legal : ¬ (has flags TCPSyn = true ∧ has flags TCPFin = true) ∧
    (has flags TCPRst = true → has flags TCPSyn = false ∧ has flags TCPFin = false);
  fits_state : if has flags TCPRst then tcp_state c = TCPStateSynSent → has flags TCPAck = true
    else awaited (tcp_state c) (has flags TCPSyn) (has flags TCPAck) (has flags TCPFin);
}.

(** An entry that the clock has not run out on. *)
Definition in_time (env : Env) (timeout : Z) (b : BaseConnTrack) : Prop :=
  time_Sub (env_now env) (lastSeen b) <= timeout.

Definition echo_reply (typ : Z) : Prop := typ = ICMPv4TypeEchoReply ∨ typ = ICMPv6TypeEchoReply.

(** The packet answers a flow of the other direction. *)
Definition answers (env : Env) (m : Manager) (d : decoder) (src dst : Addr) : Prop :=
  m_stateful m = true ∧
  match decoded d !! 1%nat with
  | Some LayerTypeTCP => ∃ t c, m_tcpTracker m = Some t ∧
      tcp_conns t !! MkKey dst src (tcp_DstPort (d_tcp d)) (tcp_SrcPort (d_tcp d)) = Some c ∧
      segment_fits c (getTCPFlags (d_tcp d))
  | Some LayerTypeUDP => ∃ t c, m_udpTracker m = Some t ∧
      tb_conns t !! MkKey dst src (udp_DstPort (d_udp d)) (udp_SrcPort (d_udp d)) = Some c ∧
      in_time env (tb_timeout t) (udp_base c)
  | Some LayerTypeICMPv4 => echo_reply (icmp4_Type (d_icmp4 d)) ∧ ∃ t c, m_icmpTracker m = Some t ∧
      tb_conns t !! MkICMPKey dst src (icmp4_Id (d_icmp4 d)) = Some c ∧ in_time env (tb_timeout t) (icmp_base c)
  | Some LayerTypeICMPv6 => echo_reply (icmp6_Type (d_icmp6 d)) ∧ ∃ t c, m_icmpTracker m = Some t ∧
      tb_conns t !! MkICMPKey dst src (icmpv6EchoFields d).1 = Some c ∧ in_time env (tb_timeout t) (icmp_base c)
  | _ => False
  end.

Lemma tcp_valid_exact env t src dst sp dp flags size :
  (tcp_IsValidInbound env t src dst sp dp flags size).2 = true ↔
  ∃ c, tcp_conns t !! MkKey dst src dp sp = Some c ∧ segment_fits c flags.
Proof.
  unfold tcp_IsValidInbound. destruct (tcp_conns t !! MkKey dst src dp sp) as [c|]; [|naive_solver].
  transitivity (segment_fits c flags); [|naive_solver].
  unfold IsSupersededBy, isValidFlagCombination, isValidStateForFlags, GetState. rewrite !hasnt_negb.
  transitivity (tcp_tombstone c = false ∧ ¬ (tcp_state c = TCPStateTimeWait ∧ has flags TCPSyn = true ∧ has flags TCPAck = false) ∧
    (¬ (has flags TCPSyn = true ∧ has flags TCPFin = true) ∧ (has flags TCPRst = true → has flags TCPSyn = false ∧ has flags TCPFin = false)) ∧
    (if has flags TCPRst then tcp_state c = TCPStateSynSent → has flags TCPAck = true
     else awaited (tcp_state c) (has flags TCPSyn) (has flags TCPAck) (has flags TCPFin))).
  2: { split; [intros (? & ? & ? & ?); by split|by intros []]. }
  destruct (tcp_tombstone c), (tcp_state c), (has flags TCPSyn), (has flags TCPAck), (has flags TCPFin), (has flags TCPRst); simpl; naive_solver.
Qed.

Lemma tb_valid_exact {K C} `{Countable K} {TC : TrackedConn C} env (t : Table K C) key size :
  (tb_valid env t key size).2 = true ↔ ∃ c, tb_conns t !! key = Some c ∧ in_time env (tb_timeout t) (tc_base c).
Proof.
  unfold tb_valid, timeoutExceeded, in_time. destruct (tb_conns t !! key) as [c|]; [|naive_solver].
  destruct (Z.ltb_spec (tb_timeout t) (time_Sub (env_now env) (lastSeen (tc_base c)))); simpl; [|naive_solver].
  split; [done|]. intros (c' & [= <-] & ?). lia.
Qed.

Lemma icmp_valid_exact env t src dst id typ size :
  (icmp_IsValidInbound env t src dst id typ size).2 = true ↔
  echo_reply typ ∧ ∃ c, tb_conns t !! MkICMPKey dst src id = Some c ∧ in_time env (tb_timeout t) (icmp_base c).
Proof.
  unfold icmp_IsValidInbound, echo_reply. destruct (Z.eqb_spec typ ICMPv4TypeEchoReply), (Z.eqb_spec typ ICMPv6TypeEchoReply);
    cbn [negb andb]; [| | |by split; [|intros [[] _]]]; rewrite (tb_valid_exact env t (MkICMPKey dst src id) size); (split; [intros; split; [auto|done]|by intros [_ ?]]).
Qed.

Lemma trackedReply_exact env m d src dst size m' b :
  trackedReply env m d src dst size = Some (m', b) → b = true ↔ answers env m d src dst.
Proof.
  unfold trackedReply, answers. destruct (m_stateful m); [|intros [= _ <-]; naive_solver].
  unfold isValidTrackedConnection. destruct (decoded d !! 1%nat) as [[]|]; try done; try (intros [= _ <-]; naive_solver).
  - destruct (m_tcpTracker m) as [t|]; simpl; [|done]. pose proof (tcp_valid_exact env t src dst (tcp_SrcPort (d_tcp d)) (tcp_DstPort (d_tcp d)) (getTCPFlags (d_tcp d)) size) as H.
    destruct (tcp_IsValidInbound _ _ _ _ _ _ _ _). intros [= _ <-]. simpl in H. rewrite H. naive_solver.
  - destruct (m_udpTracker m) as [t|]; simpl; [|done]. pose proof (tb_valid_exact env t (MkKey dst src (udp_DstPort (d_udp d)) (udp_SrcPort (d_udp d))) size) as H.
    unfold udp_IsValidInbound. destruct (tb_valid _ _ _ _). intros [= _ <-]. simpl in H. rewrite H. naive_solver.
  - destruct (m_icmpTracker m) as [t|]; simpl; [|done]. pose proof (icmp_valid_exact env t src dst (icmp4_Id (d_icmp4 d)) (icmp4_Type (d_icmp4 d)) size) as H.
    destruct (icmp_IsValidInbound _ _ _ _ _ _ _). intros [= _ <-]. simpl in H. rewrite H. naive_solver.
  - destruct (m_icmpTracker m) as [t|]; simpl; [|done]. pose proof (icmp_valid_exact env t src dst (icmpv6EchoFields d).1 (icmp6_Type (d_icmp6 d)) size) as H.
    destruct (icmp_IsValidInbound _ _ _ _ _ _ _). intros [= _ <-]. simpl in H. rewrite H. naive_solver.
Qed.

Lemma filterInbound_exact env m d p size d1 src dst :
  rules_ok m → trackers_open m → dnatEnabled (m_dnat m) = false → portDNATEnabled (m_dnat m) = false →
  isValidPacket d p = (d1, true, false) → extractIPs d1 = Some (src, dst) → IsValid src = true →
  ∃ m' d' reply, filterInbound env m d p size = Some (m', d', p, negb (reply || admits m d1 src dst)) ∧
    (reply = true ↔ answers env m d1 src dst).
Proof.
  intros Hok Ho Hd Hp Hv Hi Hs. pose proof (isValidPacket_decoded _ _ _ Hv) as Hpl.
  unfold filterInbound. rewrite Hv. cbn [negb]. rewrite Hi. simpl. rewrite Hs. simpl.
  unfold filterInboundDecoded, translateInboundPortDNAT, translateInboundReverse. rewrite Hp, Hd. simpl.
  destruct (trackedReply_total env m d1 src dst size Ho Hpl) as (m1 & reply & Hr & Ho1). rewrite Hr. simpl.
  pose proof (trackedReply_frame _ _ _ _ _ _ _ _ Hr) as (u & i & t & ->). pose proof (trackedReply_exact _ _ _ _ _ _ _ _ Hr) as Hx.
  destruct reply; [by exists (with_trackers u i t m), d1, true|].
  assert (Hok1 : rules_ok (with_trackers u i t m)) by (by apply (rules_ok_eq m)).
  destruct (allows_config m (with_trackers u i t m) d1 src dst eq_refl) as [Ha _].
  destruct (IsLocalIP (m_localIPs (with_trackers u i t m)) dst) eqn:El.
  - destruct (handleLocalTraffic_total env _ d1 src dst p size Hok1 Ho1 Hpl) as (m2 & d2 & drop & H).
    destruct (handleLocalTraffic_decision _ _ _ _ _ _ _ _ _ _ Hok1 Hpl El H) as (-> & _).
    rewrite H, Ha. simpl. by exists m2, d2, false.
  - destruct (handleRoutedTraffic_total env _ d1 src dst p size Hok1 Ho1 Hpl) as (m2 & d2 & drop & H).
    destruct (handleRoutedTraffic_decision _ _ _ _ _ _ _ _ _ _ Hok1 El H) as (-> & _).
    rewrite H, Ha. simpl. by exists m2, d2, false.
Qed.

(** C2. The verdict is the policy's. In every run of the filter with
    connection tracking on and before [Close], a well-formed packet that is
    neither a fragment nor translated gets a verdict (no panic) and goes on
    unchanged: it is passed exactly when it answers a tracked flow (a live
    entry of the other direction: for TCP the flags fit its state, for ICMP it
    is an echo reply, for UDP and ICMP the entry has not timed out) or the
    policy admits it. *)
Theorem inbound_exact PD dsr ns fwd wg ifs mtu ops s env slot p size d1 src dst :
  (parseCreateEnv Getenv).1.1 = false → Forall filter_op_wf ops → Forall not_close ops →
  filter_run sha256 Getenv (filter_init (Create Getenv PD dsr ns fwd wg ifs mtu)) ops = Some s →
  dnatEnabled (m_dnat (f_mgr s)) = false → portDNATEnabled (m_dnat (f_mgr s)) = false →
  isValidPacket (getDecoder s slot) p = (d1, true, false) →
  extractIPs d1 = Some (src, dst) → IsValid src = true →
  ∃ s' drop, inbound env s slot p size = Some (s', p, drop) ∧
    (drop = false ↔ answers env (f_mgr s) d1 src dst ∨ admits (f_mgr s) d1 src dst = true).
Proof.
  intros Hct Hops Hnc Hrun Hd Hp Hv Hi Hs.
  pose proof (reachable_rules _ _ _ _ _ _ _ _ _ _ _ Hops Hrun) as Hok.
  assert (Ho : trackers_open (f_mgr s)).
  { apply (filter_run_open ops (filter_init (Create Getenv PD dsr ns fwd wg ifs mtu)) s Hnc); [|done].
    by apply Create_open. }
  destruct (filterInbound_exact env (f_mgr s) (getDecoder s slot) p size d1 src dst Hok Ho Hd Hp Hv Hi Hs)
    as (m' & d' & reply & H & Hr).
  unfold inbound. rewrite H. simpl. do 2 eexists. split; [done|]. rewrite <- Hr. by destruct reply, (admits (f_mgr s) d1 src dst); simpl; intuition.
Qed.
End OpenRuns.

(** ** Default deny *)

(** No rules, no routing, no tracked flow. *)
Record silent (m : Manager) : Prop := {
  silent_deny : incomingDenyRules (m_acl m) = [];
  silent_accept : incomingAcceptRules (m_acl m) = [];
  silent_routing : m_routingEnabled m = false;
  silent_udp t : m_udpTracker m = Some t → tb_conns t = ∅;
  silent_icmp t : m_icmpTracker m = Some t → tb_conns t = ∅;
  silent_tcp t : m_tcpTracker m = Some t → tcp_conns t = ∅;
}.

Section Silent.
Context {MO : MapOrder} {GP : Gopacket} (sha256 : string → list Z) (Getenv : string → string).

Lemma silent_not_tracked m d src dst : silent m → tracked m d src dst = false.
Proof.
  intros Hs. unfold tracked. destruct (m_stateful m); [|done]. simpl.
  destruct (decoded d !! 1%nat) as [[]|]; try done; case_match; try done;
    apply bool_decide_eq_false; rewrite ?(silent_udp m Hs _ H), ?(silent_icmp m Hs _ H), ?(silent_tcp m Hs _ H),
    lookup_empty; by intros [].
Qed.

Lemma silent_peer_allows m d src :
  silent m → peer_allows m d src = true → isSpecialICMP d = Some true.
Proof.
  intros Hs. unfold peer_allows, acl_blocks. rewrite (silent_deny m Hs), (silent_accept m Hs).
  destruct (decoded d !! 1%nat); [|done]. destruct (isSpecialICMP d) as [[]|]; done.
Qed.

Lemma silent_same m m' :
  m_acl m' = m_acl m → m_routingEnabled m' = m_routingEnabled m → m_udpTracker m' = m_udpTracker m →
  m_icmpTracker m' = m_icmpTracker m → m_tcpTracker m' = m_tcpTracker m → silent m → silent m'.
Proof. intros H1 H2 H3 H4 H5 []. split; rewrite ?H1, ?H2, ?H3, ?H4, ?H5; done. Qed.

Lemma tb_valid_empty {K C} `{Countable K} {TC : TrackedConn C} env (t : Table K C) key size :
  tb_conns t = ∅ → tb_valid env t key size = (t, false).
Proof. intros Ht. unfold tb_valid. by rewrite Ht, lookup_empty. Qed.

Lemma silent_reply env m d src dst size m' b :
  silent m → trackedReply env m d src dst size = Some (m', b) → silent m' ∧ b = false.
Proof.
  intros Hs H. assert (b = false) as ->.
  { destruct b; [|done]. apply trackedReply_tracked in H. by rewrite silent_not_tracked in H. }
  split; [|done]. revert H. unfold trackedReply. destruct (m_stateful m); [|by intros [= <-]].
  unfold isValidTrackedConnection.
  destruct (decoded d !! 1%nat) as [[]|]; try done; try (by intros [= <-]).
  - destruct (m_tcpTracker m) as [t|] eqn:Et; simpl; [|done].
    unfold tcp_IsValidInbound. rewrite (silent_tcp m Hs _ Et), lookup_empty. intros [= <-].
    by apply (silent_same m).
  - destruct (m_udpTracker m) as [t|] eqn:Et; simpl; [|done]. unfold udp_IsValidInbound.
    rewrite tb_valid_empty by (by eapply silent_udp). intros [= <-]. by apply (silent_same m).
  - destruct (m_icmpTracker m) as [t|] eqn:Et; simpl; [|done]. unfold icmp_IsValidInbound.
    rewrite tb_valid_empty by (by eapply silent_icmp). destruct (_ && _); intros [= <-]; by apply (silent_same m).
  - destruct (m_icmpTracker m) as [t|] eqn:Et; simpl; [|done]. unfold icmp_IsValidInbound.
    rewrite tb_valid_empty by (by eapply silent_icmp). destruct (_ && _); intros [= <-]; by apply (silent_same m).
Qed.

Lemma icmp_track_error env t src dst id typ code dir r sz t' :
  tb_conns t = ∅ → typ ≠ ICMPv4TypeEchoRequest →
  icmp_track env t src dst id typ code dir r sz = Some t' → tb_conns t' = ∅.
Proof.
  intros Ht Hne. unfold icmp_track, icmp_updateIfExists, tb_updateIfExists.
  rewrite Ht, lookup_empty. apply Z.eqb_neq in Hne. rewrite Hne. by intros [= <-].
Qed.

(** An ICMP error opens no flow. *)
Lemma silent_track env m d src dst r size m' d' :
  silent m → isSpecialICMP d = Some true → trackInbound env m d src dst r size = Some (m', d') → silent m'.
Proof.
  intros Hs Hi. unfold trackInbound, isSpecialICMP, icmpv6EchoFields in *. intros H.
  destruct (decoded d !! 1%nat) as [[]|]; try done.
  - apply bind_Some in H as (m1 & H & [= <- <-]).
    destruct (m_icmpTracker m) as [t|] eqn:Et; simpl in H; [|done].
    apply bind_Some in H as (t1 & H & [= <-]). unfold icmp_TrackInbound in H.
    destruct Hs. split; try done. simpl. intros t2 [= <-].
    eapply icmp_track_error; [by eauto| |exact H]. intros E. by rewrite E in Hi.
  - apply bind_Some in H as (m1 & H & [= <- <-]).
    destruct (if icmp6_Type (d_icmp6 d) =? 128 then _ else _) as [typ code] eqn:Ety.
    destruct (m_icmpTracker m) as [t|] eqn:Et; simpl in H; [|done].
    apply bind_Some in H as (t1 & H & [= <-]). unfold icmp_TrackInbound in H.
    destruct Hs. split; try done. simpl. intros t2 [= <-].
    eapply icmp_track_error; [by eauto| |exact H].
    intros ->. injection Hi as Hi. revert Ety. bools.
    destruct (icmp6_Type (d_icmp6 d) =? 128) eqn:E1; [apply Z.eqb_eq in E1; lia|].
    destruct (icmp6_Type (d_icmp6 d) =? 129) eqn:E2; [done|]. intros [= E3 _].
    rewrite E3 in Hi. unfold ICMPv4TypeEchoRequest in Hi. lia.
Qed.

Lemma silent_local env m d src dst p size m' d' b :
  silent m → rules_ok m → handleLocalTraffic env m d src dst p size = Some (m', d', b) → silent m'.
Proof.
  intros Hs Hok H. unfold handleLocalTraffic, handleForwardedLocalTraffic in H.
  destruct (decoded d !! 1%nat) as [pl|] eqn:Epl.
  2: { unfold peerACLsBlock, isSpecialICMP in H. by rewrite Epl in H. }
  destruct (peerACLsBlock_allows m d src pl Hok Epl) as [id Hb]. rewrite Hb in H. simpl in H.
  destruct (peer_allows m d src) eqn:Ea; simpl in H.
  - destruct (shouldForward m d dst).
    + destruct (m_forwarder m); injection H as <- <- <-; [by apply (silent_same m) | done].
    + follow H. eapply silent_track; [exact Hs | by eapply silent_peer_allows | exact Hx].
  - follow H. apply storeDropFlow_frame in Hx as (e & -> & _). by apply (silent_same m).
Qed.

Lemma silent_first env m d meta src dst size m' d' b :
  silent m → rules_ok m → filterFirstFragment env m d meta src dst size = Some (m', d', b) → silent m'.
Proof.
  intros Hs Hok H. unfold filterFirstFragment in H.
  assert (Hrec : ∀ m1, silent m1 → silent (recordFirstFragment env m1 meta)).
  { intros m1 Hm1. unfold recordFirstFragment. case_match; [done|]. by apply (silent_same m1). }
  apply bind_Some in H as ([m1 reply] & Hr & H). pose proof Hr as Hk.
  apply trackedReply_keeps in Hk. apply silent_reply in Hr as [Hs1 ->]; [|done].
  assert (Hok1 : rules_ok m1) by (by eapply rules_ok_keeps).
  destruct (IsLocalIP (m_localIPs m1) dst).
  - destruct (decoded d !! 1%nat) as [pl|] eqn:Epl.
    2: { unfold peerACLsBlock, isSpecialICMP in H. by rewrite Epl in H. }
    destruct (peerACLsBlock_allows m1 d src pl Hok1 Epl) as [id Hb]. rewrite Hb in H. simpl in H.
    destruct (peer_allows m1 d src) eqn:Ea; simpl in H; follow H.
    + apply Hrec. eapply silent_track; [exact Hs1 | by eapply silent_peer_allows | exact Hx].
    + apply storeDropFlow_frame in Hx as (e & -> & _). by apply (silent_same m1).
  - rewrite (silent_routing m1 Hs1) in H. simpl in H. by simplify_eq.
Qed.

Lemma silent_inbound env m d p size m' d' q b :
  silent m → rules_ok m → filterInbound env m d p size = Some (m', d', q, b) → silent m'.
Proof.
  intros Hs Hok. unfold filterInbound. destruct (isValidPacket d p) as [[d1 valid] fragment].
  destruct valid; simpl in *; [|by intros [= <- <- <- <-]].
  destruct (extractIPs d1) as [[src dst]|] eqn:Ei; simpl in *; [|done].
  destruct (IsValid src); simpl in *; [|by intros [= <- <- <- <-]].
  destruct fragment; intros H.
  - follow H. unfold filterInboundFragment in Hx. follow Hx; try done.
    + unfold filterTrailingFragment in *. case_match; simplify_eq. by apply (silent_same m).
    + by apply (silent_same m).
    + eapply silent_first; [..|exact Hx]; [by apply (silent_same m) | by apply (rules_ok_eq m)].
  - destruct (filterInboundDecoded_cases _ _ _ _ _ _ _ _ _ _ _ Ei H)
      as [[_ ->]|(d2 & src2 & dst2 & m1 & reply & _ & Hr & Hc)]; [done|].
    pose proof Hr as Hk. apply trackedReply_keeps in Hk. apply silent_reply in Hr as [Hs1 ->]; [|done].
    destruct Hc as [(? & _)|[_ Hc]]; [done|].
    assert (Hok1 : rules_ok m1) by (by eapply rules_ok_keeps).
    destruct (IsLocalIP _ _); [by eapply silent_local|].
    unfold handleRoutedTraffic in Hc. rewrite (silent_routing m1 Hs1) in Hc. simpl in Hc. by simplify_eq.
Qed.

(** Operations that neither add a rule, nor send, nor switch routing on. *)
Definition unasked (eo : Env * FilterOp) : Prop :=
  match eo.2 with
  | FAdd _ _ _ _ _ _ _ | FOutbound _ _ _ | FEnableRouting _ => False
  | _ => True
  end.

Lemma range_list_empty {K V} `{Countable K} seed : range_list seed (∅ : gmap K V) = [].
Proof. apply nil_length_inv. by rewrite length_range_list, map_size_empty. Qed.

Lemma silent_dnat s r s' : silent (f_mgr s) → dnat_op s r = Some s' → silent (f_mgr s').
Proof. intros Hs. destruct r; simpl; intros [= <-]; [|done]. by apply (silent_same (f_mgr s)). Qed.

Lemma silent_step s eo s' :
  unasked eo → silent (f_mgr s) → rules_ok (f_mgr s) → filter_step sha256 Getenv s eo = Some s' →
  silent (f_mgr s').
Proof.
  destruct eo as [env op]. intros Hu Hs Hok H. destruct op; try done.
  - apply (FInbound_inv sha256 Getenv) in H as (q & b & H). apply inbound_inv in H as (m & d & H & ->).
    by eapply silent_inbound.
  - injection H as <-. unfold DeleteFilterRule. destruct rule as [r|id].
    + unfold deletePeerRuleLocked. rewrite (silent_deny _ Hs), (silent_accept _ Hs). simpl. by case_decide.
    + destruct (deleteRouteRule _ _); simpl; [|done]. by apply (silent_same (f_mgr s)).
  - injection H as <-. unfold disableRouting. destruct (m_forwarder (f_mgr s)); [|done].
    destruct (deleteBlockRules _ _). simpl. by destruct (_ && _), Hs.
  - injection H as <-. by apply (silent_same (f_mgr s)).
  - injection H as <-. by apply (silent_same (f_mgr s)).
  - injection H as <-. destruct (UpdateSet _ _ _); [|done]. by apply (silent_same (f_mgr s)).
  - injection H as <-. by apply (silent_same (f_mgr s)).
  - injection H as <-. destruct tcp; by apply (silent_same (f_mgr s)).
  - by eapply silent_dnat.
  - by eapply silent_dnat.
  - by eapply silent_dnat.
  - by eapply silent_dnat.
  - injection H as <-. destruct Hs as [? ? ? Hu' Hi Ht]. split; simpl; try done.
    + destruct (m_udpTracker (f_mgr s)) as [t|]; simpl; [|done]. intros t' [= <-].
      unfold udp_cleanup, tb_cleanup. by rewrite (Hu' t eq_refl), range_list_empty; simpl; apply Hu'.
    + destruct (m_icmpTracker (f_mgr s)) as [t|]; simpl; [|done]. intros t' [= <-].
      unfold icmp_cleanup, tb_cleanup. by rewrite (Hi t eq_refl), range_list_empty; simpl; apply Hi.
    + destruct (m_tcpTracker (f_mgr s)) as [t|]; simpl; [|done]. intros t' [= <-].
      unfold tcp_cleanup. by rewrite (Ht t eq_refl), range_list_empty; simpl; apply Ht.
  - injection H as <-. split; simpl; try done; try apply Hs.
    + by destruct (m_udpTracker (f_mgr s)); intros t' [= <-].
    + by destruct (m_icmpTracker (f_mgr s)); intros t' [= <-].
    + by destruct (m_tcpTracker (f_mgr s)); intros t' [= <-].
Qed.

(** C3. Default deny. A filter that was given no rule, has sent nothing and
    was not told to route passes, of all inbound packets that are not
    fragments, only ICMP errors addressed to the host, whatever packets
    came before. *)
Theorem default_deny PD dsr ns fwd wg ifs mtu ops s env slot p size s' q :
  Forall unasked ops →
  filter_run sha256 Getenv (filter_init (Create Getenv PD dsr ns fwd wg ifs mtu)) ops = Some s →
  fragment_of (getDecoder s slot) p = None →
  inbound env s slot p size = Some (s', q, false) →
  isSpecialICMP (getDecoder s' slot) = Some true ∧
  ∃ src dst, extractIPs (getDecoder s' slot) = Some (src, dst) ∧ IsLocalIP (m_localIPs (f_mgr s)) dst = true.
Proof.
  intros Hops Hrun Hf Hin.
  assert (Hinv : silent (f_mgr s) ∧ rules_ok (f_mgr s)).
  { revert Hrun. assert (H0 : silent (f_mgr (filter_init (Create Getenv PD dsr ns fwd wg ifs mtu))) ∧
      rules_ok (f_mgr (filter_init (Create Getenv PD dsr ns fwd wg ifs mtu)))).
    { split; [|apply Create_rules]. unfold Create.
      destruct (parseCreateEnv Getenv) as [[[] lf] []]; by split; simpl; intros; simplify_eq. }
    revert H0. generalize (filter_init (Create Getenv PD dsr ns fwd wg ifs mtu)) as s0.
    induction Hops as [|o ops Ho Hops IH]; intros s0 [H1 H2]; cbn [filter_run run]; [by intros [= <-]|].
    destruct (filter_step _ _ s0 o) as [s1|] eqn:E; [|done]. apply IH.
    split; [by eapply silent_step|]. eapply filter_step_rules; [|done..].
    destruct o as [? []]; unfold filter_op_wf; simpl; done. }
  destruct Hinv as [Hs Hok]. pose proof Hin as (m & d & H & _)%inbound_inv.
  destruct (inbound_decoder _ _ _ _ _ _ _ _ _ _ H Hin) as [-> _].
  destruct (filterInbound_verdict _ _ _ _ _ _ _ _ _ Hok Hf H) as [[? _]|(src & dst & He & Ha & _)]; [done|].
  destruct (Ha eq_refl) as [Ht|Had]; [by rewrite silent_not_tracked in Ht|].
  unfold admits in Had. destruct (IsLocalIP (m_localIPs (f_mgr s)) dst) eqn:El.
  - apply andb_true_iff in Had as [Had _]. split; [by eapply silent_peer_allows | by exists src, dst].
  - by rewrite (silent_routing _ Hs) in Had.
Qed.
End Silent.
