(* ===== verification/FilterRouting.v ===== *)
(** * The routing switch

    [EnableRouting] and [DisableRouting] of
    [client/firewall/uspfilter/filter.go]: what they leave behind. *)
From S2P Require Import Prelude NetIP Bytes ConnTrack Order FwTypes PeerRules Checksum DNAT RouteRules Filter FilterPaths.
From S2P Require Import FilterOps FilterFacts FilterPolicy.
Open Scope Z_scope.

Section Routing.
Context (sha256 : string → list Z) (Getenv : string → string).

Lemma addRouteRule_elem m id s d pr sp dp a m' rid r :
  addRouteRule sha256 m id s d pr sp dp a = (m', rid) → r ∈ routeRules m' → r ∈ routeRules m ∨ rr_id r = rid.
Proof.
  unfold addRouteRule. case_decide; intros [= <- <-]; [auto|]. simpl.
  rewrite routeRules_Sort_perm, elem_of_app, list_elem_of_singleton. intros [?| ->]; auto.
Qed.

(** The block rules are the only ones that appear, under the reported
    identifiers. *)
Lemma blockInvalidRouted_elem m wgNet v6Net m' ids r :
  blockInvalidRouted sha256 m wgNet v6Net = (m', ids) →
  r ∈ routeRules m' → r ∈ routeRules m ∨ rr_id r ∈ ids.
Proof.
  unfold blockInvalidRouted. destruct (addRouteRule _ m _ _ (NetworkOf wgNet) _ _ _ _) as [m1 v4] eqn:E1.
  destruct (prefix_IsValid v6Net).
  - destruct (addRouteRule _ m1 _ _ (NetworkOf v6Net) _ _ _ _) as [m2 v6] eqn:E2. intros [= <- <-] Hr.
    destruct (addRouteRule_elem _ _ _ _ _ _ _ _ _ _ _ E2 Hr) as [Hr1| ->]; [|right; set_solver].
    destruct (addRouteRule_elem _ _ _ _ _ _ _ _ _ _ _ E1 Hr1) as [?| ->]; [auto | right; set_solver].
  - intros [= <- <-] Hr.
    destruct (addRouteRule_elem _ _ _ _ _ _ _ _ _ _ _ E1 Hr) as [?| ->]; [auto | right; set_solver].
Qed.

Lemma blockInvalidRouted_mono m wgNet v6Net m' ids r :
  route_inv m → blockInvalidRouted sha256 m wgNet v6Net = (m', ids) → r ∈ routeRules m → r ∈ routeRules m'.
Proof.
  intros Hm. unfold blockInvalidRouted.
  destruct (addRouteRule _ m _ _ (NetworkOf wgNet) _ _ _ _) as [m1 v4] eqn:E1.
  destruct (addRouteRule_inv _ _ _ _ _ _ None None _ _ _ Hm I I E1) as (Hm1 & _ & Hk1).
  destruct (prefix_IsValid v6Net); [|intros [= <- <-]; auto].
  destruct (addRouteRule _ m1 _ _ (NetworkOf v6Net) _ _ _ _) as [m2 v6] eqn:E2. intros [= <- <-].
  destruct (addRouteRule_inv _ _ _ _ _ _ None None _ _ _ Hm1 I I E2) as (_ & _ & Hk2). auto.
Qed.

Lemma deleteRouteRule_None m id r :
  deleteRouteRule m id = None → r ∈ routeRules m → rr_id r ≠ id.
Proof.
  unfold deleteRouteRule. destruct (removeRuleByID rr_id (routeRules m) id) as [t [x|]] eqn:E; [done|].
  intros _. apply removeRuleByID_spec in E as [_ Hall]. auto.
Qed.

Lemma deleteBlockRules_elem ids m r :
  route_inv m → r ∈ routeRules (deleteBlockRules m ids).1 ↔ r ∈ routeRules m ∧ rr_id r ∉ ids.
Proof.
  revert m. induction ids as [|id ids IH]; intros m Hm; simpl; [set_solver|].
  destruct (deleteRouteRule m id) as [m1|] eqn:E.
  - destruct (deleteRouteRule_inv _ _ _ Hm E) as [Hm1 Hk]. rewrite IH, Hk by done.
    rewrite not_elem_of_cons. tauto.
  - specialize (IH m Hm). destruct (deleteBlockRules m ids) as [m1 ok]. simpl in *. rewrite IH.
    rewrite not_elem_of_cons. split; [|tauto]. intros [Hr ?]. split_and!; try done.
    by eapply deleteRouteRule_None.
Qed.

(** Switching routing on and off again. When the overlay's block rules
    are not installed yet, userspace routing switched on and then off leaves
    routing disabled, no block rule recorded, and exactly the route rules
    there were; while it is on, the block rules are the only addition. *)
Theorem routing_round_trip m m1 m2 ok2 f :
  rules_ok m → EnableRouting sha256 Getenv true m = (m1, true) → m_forwarder m1 = Some f →
  (∀ r, r ∈ routeRules (m_routes m) → rr_id r ∉ m_blockRules m1) →
  disableRouting m1 = (m2, ok2) →
  m_routingEnabled m2 = false ∧ m_nativeRouter m2 = false ∧ m_blockRules m2 = [] ∧
  (∀ r, r ∈ routeRules (m_routes m1) → r ∈ routeRules (m_routes m) ∨ rr_id r ∈ m_blockRules m1) ∧
  ∀ r, r ∈ routeRules (m_routes m2) ↔ r ∈ routeRules (m_routes m).
Proof.
  intros Hok He Hf Hfresh Hd. unfold EnableRouting in He.
  destruct (determineRouting_rules Getenv true m) as [_ Hr].
  destruct (determineRouting Getenv true m) as [m0 ok0]. simpl in Hr.
  destruct ok0; simpl in He; [|done].
  destruct (m_forwarder m0) eqn:Ef; [|by injection He as <-; congruence].
  destruct (blockInvalidRouted sha256 (m_routes m0) (wg_Network (m_wg m0)) (wg_IPv6Net (m_wg m0)))
    as [routes ids] eqn:Eb. injection He as <-. rewrite Hr in Eb. simpl in *.
  pose proof (blockInvalidRouted_keeps _ _ _ _ _ _ (ok_routes m Hok) Eb) as [Hinv _].
  assert (Hall : ∀ r, r ∈ routeRules (deleteBlockRules routes ids).1 ↔ r ∈ routeRules (m_routes m)).
  { intros r. rewrite deleteBlockRules_elem by done. split.
    - intros [Hr1 Hn]. by destruct (blockInvalidRouted_elem _ _ _ _ _ _ Eb Hr1).
    - intros Hr1. split; [|by apply Hfresh]. by eapply blockInvalidRouted_mono; [apply Hok|..]. }
  unfold disableRouting in Hd. simpl in Hd. rewrite Ef in Hd.
  destruct (deleteBlockRules routes ids) as [routes' ok']. simpl in Hall.
  assert (Hm2 : m2 = if m_netstack m0 && m_localForwarding m0
                     then with_rules (m_acl m0) routes' [] (with_routing false false (with_rules (m_acl m0) routes ids m0))
                     else with_forwarder None
                            (with_rules (m_acl m0) routes' [] (with_routing false false (with_rules (m_acl m0) routes ids m0))))
    by (by destruct (_ && _); injection Hd as <-).
  assert (Hel : ∀ r, r ∈ routeRules routes → r ∈ routeRules (m_routes m) ∨ rr_id r ∈ ids)
    by (intros r Hr1; by eapply blockInvalidRouted_elem).
  rewrite Hm2. by destruct (_ && _); split_and!.
Qed.

(** With server routes disabled the native router is in charge and there is
    no forwarder; [DisableRouting] then returns before it resets the
    switches, and packets that are not for the host still pass. *)
Theorem native_routing_stays (m : Manager) :
  m_disableServerRoutes m = true → m_forwarder m = None →
  Getenv "NB_DISABLE_USERSPACE_ROUTING" = EmptyString →
  let m1 := (EnableRouting sha256 Getenv true m).1 in
  m_routingEnabled m1 = true ∧ disableRouting m1 = (m1, true) ∧
  ∀ d src dst, IsLocalIP (m_localIPs m1) dst = false → admits (disableRouting m1).1 d src dst = true.
Proof.
  intros Hs Hf Hg. unfold EnableRouting, determineRouting. rewrite Hg, Hs. simpl. rewrite Hf. simpl.
  split_and!; try done.
  - unfold disableRouting. simpl. by rewrite Hf.
  - intros d src dst Hl. unfold disableRouting. simpl. rewrite Hf. unfold admits. simpl. by rewrite Hl.
Qed.
End Routing.

(** ** MSS clamping

    [clampTCPMSS] of [client/firewall/uspfilter/filter.go] on a packet whose
    options the parser read: the first oversized MSS option is lowered to the
    clamp, the checksum is recomputed and valid, nothing else changes. *)

(** The words of the pseudo-header that [recalculateTCPChecksum] sums. *)
Definition pseudo_words (d : decoder) (len : Z) : list Z :=
  match decoded d !! 0%nat with
  | Some LayerTypeIPv4 =>
      words (ip4_SrcIP (d_ip4 d)) ++ words (ip4_DstIP (d_ip4 d)) ++ [ip4_Protocol (d_ip4 d); len]
  | Some LayerTypeIPv6 => words (ip6_SrcIP (d_ip6 d)) ++ words (ip6_DstIP (d_ip6 d)) ++ [len; 6]
  | _ => []
  end.

(** The addresses and the protocol the parser leaves in the decoder. *)
Definition ip_fields_wf (d : decoder) : Prop :=
  match decoded d !! 0%nat with
  | Some LayerTypeIPv4 =>
      bytes (ip4_SrcIP (d_ip4 d)) ∧ length (ip4_SrcIP (d_ip4 d)) = 4%nat ∧
      bytes (ip4_DstIP (d_ip4 d)) ∧ length (ip4_DstIP (d_ip4 d)) = 4%nat ∧ byte (ip4_Protocol (d_ip4 d))
  | Some LayerTypeIPv6 =>
      bytes (ip6_SrcIP (d_ip6 d)) ∧ length (ip6_SrcIP (d_ip6 d)) = 16%nat ∧
      bytes (ip6_DstIP (d_ip6 d)) ∧ length (ip6_DstIP (d_ip6 d)) = 16%nat
  | _ => False
  end.

(** The clamp and the header length for the packet's family. *)
Definition clamp_for (m : Manager) (d : decoder) : Z :=
  match decoded d !! 0%nat with
  | Some LayerTypeIPv4 => m_mssClampValueIPv4 m
  | Some LayerTypeIPv6 => m_mssClampValueIPv6 m
  | _ => 0
  end.

Definition options_len (opts : list TCPOption) : nat := foldr (λ o n, (option_len o + n)%nat) 0%nat opts.

Lemma foldl_option_len opts n :
  foldl (λ off o, (off + option_len o)%nat) n opts = (n + options_len opts)%nat.
Proof. revert n. induction opts as [|o opts IH]; intros n; simpl; [lia|]. rewrite IH. lia. Qed.

Lemma options_len_take opts i o :
  opts !! i = Some o → (options_len (take i opts) + option_len o <= options_len opts)%nat.
Proof.
  revert i. induction opts as [|x opts IH]; intros [|i]; simpl; [done..| |].
  - intros [= ->]. lia.
  - intros H. apply IH in H. lia.
Qed.

Lemma find_mss_Some k opts clamp i :
  find_mss k opts clamp = Some i →
  ∃ j o, i = (k + j)%nat ∧ opts !! j = Some o ∧ opt_Type o = TCPOptionKindMSS ∧
    length (opt_Data o) = 2%nat ∧ clamp < Uint16 (opt_Data o) 0.
Proof.
  revert k. induction opts as [|o opts IH]; intros k; simpl; [done|].
  destruct (_ && _) eqn:E.
  - intros [= <-]. rewrite !andb_true_iff in E. destruct E as [[E1 E2] E3].
    apply Nat.eqb_eq in E2. bools. exists 0%nat, o. split_and!; simpl; auto.
  - intros (j & o' & -> & Hj & Ho)%IH. exists (S j), o'. split; [lia|done].
Qed.

Lemma find_mss_None k opts clamp :
  find_mss k opts clamp = None →
  ∀ o, o ∈ opts → opt_Type o = TCPOptionKindMSS → length (opt_Data o) = 2%nat → Uint16 (opt_Data o) 0 <= clamp.
Proof.
  revert k. induction opts as [|o opts IH]; intros k; simpl; [set_solver|].
  destruct (_ && _) eqn:E; [done|]. intros H o' [->|Ho]%elem_of_cons Ht Hl; [|by eapply IH].
  rewrite Ht, Hl in E. simpl in E. by apply Z.ltb_ge in E.
Qed.

Lemma words_length_4 l : length l = 4%nat → length (words l) = 2%nat.
Proof. by destruct l as [|a [|b [|c [|e [|f l]]]]]. Qed.

Lemma words_length_16 l : length l = 16%nat → length (words l) = 8%nat.
Proof. do 16 (destruct l as [|? l]; [done|]). by destruct l. Qed.

Lemma pseudo_words_bound d len :
  ip_fields_wf d → 0 <= len <= 65535 → 0 <= Zsum (pseudo_words d len) <= 65535 * 18.
Proof.
  unfold ip_fields_wf, pseudo_words. intros Hw Hl. destruct (decoded d !! 0%nat) as [[]|]; try done.
  - destruct Hw as (Hs & Hls & Hd & Hld & Hp). unfold byte in Hp.
    assert (Hf : Forall (λ w, 0 <= w <= 65535)
      (words (ip4_SrcIP (d_ip4 d)) ++ words (ip4_DstIP (d_ip4 d)) ++ [ip4_Protocol (d_ip4 d); len])).
    { rewrite !Forall_app. split_and!; try (by apply words_range). repeat constructor; lia. }
    apply Zsum_bound in Hf. rewrite !length_app, !words_length_4 in Hf by done. simpl in Hf. lia.
  - destruct Hw as (Hs & Hls & Hd & Hld).
    assert (Hf : Forall (λ w, 0 <= w <= 65535)
      (words (ip6_SrcIP (d_ip6 d)) ++ words (ip6_DstIP (d_ip6 d)) ++ [len; 6])).
    { rewrite !Forall_app. split_and!; try (by apply words_range). repeat constructor; lia. }
    apply Zsum_bound in Hf. rewrite !length_app, !words_length_16 in Hf by done. simpl in Hf. lia.
Qed.

Lemma recalculateTCPChecksum_spec p d hdr :
  bytes p → Z.of_nat (length p) <= 65535 → ip_fields_wf d → (hdr + 18 <= length p)%nat →
  ∃ p', recalculateTCPChecksum p d hdr = Some p' ∧ length p' = length p ∧
    (∀ j, j ≠ (hdr + 16)%nat → j ≠ (hdr + 17)%nat → p' !! j = p !! j) ∧
    (Zsum (pseudo_words d (Z.of_nat (length p - hdr))) + Zsum (words (drop hdr p'))) mod 65535 = 0.
Proof.
  intros Hb Hl Hw Hlen. unfold recalculateTCPChecksum. rewrite (proj2 (Nat.ltb_ge _ _)) by lia.
  set (q := PutUint16 p (hdr + 16) 0). set (seg := drop hdr q).
  assert (Hlq : length q = length p) by apply length_PutUint16.
  assert (Hls : length seg = (length p - hdr)%nat) by (unfold seg; by rewrite length_drop, Hlq).
  assert (Hbs : bytes seg) by (apply Forall_drop, PutUint16_bytes; [done|lia]).
  set (P := Zsum (pseudo_words d (Z.of_nat (length p - hdr)))).
  assert (HP : 0 <= P <= 65535 * 18) by (apply pseudo_words_bound; [done|lia]).
  match goal with |- context [uint 32 ?x] => set (X := x) end.
  assert (HX : uint 32 X = P).
  { subst X P. unfold pseudo_words in *. rewrite Hls. unfold TCP.
    destruct (decoded d !! 0%nat) as [[]|]; try (by unfold ip_fields_wf in Hw);
      (rewrite uint_id; [done | unfold in_width; lia]). }
  rewrite HX. set (ck := tcpChecksum P seg). eexists. split; [done|].
  rewrite length_PutUint16. split; [done|]. split.
  { intros j H1 H2. rewrite lookup_PutUint16 by lia. apply lookup_PutUint16; lia. }
  rewrite drop_PutUint16. fold seg.
  pose proof (words_put seg 8 ck) as Hput. change (8 + 8)%nat with 16%nat in Hput.
  rewrite Hput by lia. assert (Hz : Uint16 seg 16 = 0).
  { unfold seg. rewrite <- Uint16_drop. apply Uint16_PutUint16; lia. }
  unfold ck. rewrite tcpChecksum_rep, Hz by (done || lia).
  pose proof (Zsum_bound _ (words_range seg Hbs)) as Hsum.
  destruct (rep_ex (P + Zsum (words seg))) as [k ->]; [lia|].
  replace (P + (Zsum (words seg) - 0 + (65535 - (P + Zsum (words seg) + k * 65535))))
    with ((1 - k) * 65535) by lia.
  apply Z.mod_mul. lia.
Qed.

(** On a TCP packet whose header and options the parser found in the
    packet, clamping returns; it leaves the packet alone exactly when it is
    not a SYN, no clamp applies, or no MSS option exceeds the clamp; and
    otherwise it stores the clamp over an MSS option that was larger, changes
    no other byte than that option and the checksum, and leaves a valid TCP
    checksum. *)
Theorem clampTCPMSS_spec m p d hdr :
  bytes p → Z.of_nat (length p) <= 65535 → ip_fields_wf d → ipHeaderLen d = Ok hdr →
  (hdr + 20 + options_len (tcp_Options (d_tcp d)) <= length p)%nat → 0 <= clamp_for m d <= 65535 →
  ∃ p' clamped, clampTCPMSS m p d = Some (p', clamped) ∧ length p' = length p ∧
    (clamped = false → p' = p ∧
       (tcp_SYN (d_tcp d) = false ∨ clamp_for m d = 0 ∨
        ∀ o, o ∈ tcp_Options (d_tcp d) → opt_Type o = TCPOptionKindMSS → length (opt_Data o) = 2%nat →
          Uint16 (opt_Data o) 0 <= clamp_for m d)) ∧
    (clamped = true → ∃ i o off, tcp_Options (d_tcp d) !! i = Some o ∧ opt_Type o = TCPOptionKindMSS ∧
       clamp_for m d < Uint16 (opt_Data o) 0 ∧
       off = (hdr + 20 + options_len (take i (tcp_Options (d_tcp d))) + 2)%nat ∧
       Uint16 p' off = clamp_for m d ∧
       (∀ j, j ∉ [off; S off; hdr + 16; hdr + 17]%nat → p' !! j = p !! j) ∧
       (Zsum (pseudo_words d (Z.of_nat (length p - hdr))) + Zsum (words (drop hdr p'))) mod 65535 = 0).
Proof.
  intros Hb Hl Hw Hhdr Hlen Hc. unfold clampTCPMSS.
  destruct (tcp_SYN (d_tcp d)) eqn:Hsyn; cbn [negb]; [|eexists _, _; split_and!; eauto; done].
  destruct (length (tcp_Options (d_tcp d)) =? 0)%nat eqn:Hno.
  { apply Nat.eqb_eq, nil_length_inv in Hno. rewrite Hno. eexists _, false. split_and!; eauto; [|done].
    intros _. split; [done|]. right. right. set_solver. }
  assert (Hsel : match decoded d !! 0%nat with
      | Some LayerTypeIPv4 =>
          if ip4_IHL (d_ip4 d) * 4 <? 20 then None else Some (m_mssClampValueIPv4 m, Z.to_nat (ip4_IHL (d_ip4 d) * 4))
      | Some LayerTypeIPv6 => Some (m_mssClampValueIPv6 m, 40%nat)
      | _ => None end = Some (clamp_for m d, hdr)).
  { unfold ipHeaderLen, clamp_for, ip_fields_wf in *. destruct (decoded d !! 0%nat) as [[]|]; try done.
    - cbn zeta in *. destruct (_ <? 20); [done|]. by injection Hhdr as <-.
    - by injection Hhdr as <-. }
  cbv zeta. rewrite Hsel. destruct (clamp_for m d =? 0) eqn:Hz.
  { apply Z.eqb_eq in Hz. eexists _, false. split_and!; [done | done | auto | done]. }
  destruct (find_mss 0 _ _) as [i|] eqn:Hf.
  2: { eexists _, false. split_and!; eauto; [|done]. intros _. split; [done|]. right. right.
       by eapply find_mss_None. }
  destruct (find_mss_Some _ _ _ _ Hf) as (j & o & -> & Hj & Ht & Hlo & Hlt). simpl.
  unfold updateMSSOption. rewrite foldl_option_len.
  set (off := (hdr + 20 + options_len (take j (tcp_Options (d_tcp d))) + 2)%nat).
  assert (Hoff : (off + 2 <= length p)%nat).
  { pose proof (options_len_take _ _ _ Hj) as Ho. unfold option_len in Ho. rewrite Ht, Hlo in Ho.
    simpl in Ho. lia. }
  rewrite (proj2 (Nat.ltb_ge _ _)) by lia.
  destruct (recalculateTCPChecksum_spec (PutUint16 p off (clamp_for m d)) d hdr) as (p' & -> & Hl' & Hk & Hv);
    rewrite ?length_PutUint16 in *; try done; [by apply PutUint16_bytes | lia |].
  exists p', true. split_and!; [done..|]. intros _. exists j, o, off. split_and!; try done.
  - unfold Uint16, at_. rewrite !Hk by lia. apply (Uint16_PutUint16 p off); lia.
  - intros x Hx. rewrite !not_elem_of_cons in Hx. rewrite Hk by (intros ->; tauto).
    apply lookup_PutUint16; tauto.
Qed.
