(* ===== verification/FilterCases.v ===== *)
(** * Concrete runs of the filter

    A parser for plain IPv4 packets, packets, and the runs on which the
    theorems about the whole filter are applied; the runs that exhibit what
    the code gets wrong. *)
From S2P Require Import Prelude NetIP Bytes Order FwTypes ConnTrack TCPTrack TCPTrackFacts TimedTable.
From S2P Require Import UDPTrack ICMPTrack Fragment PeerRules RouteRules Checksum.
From S2P Require Import DNAT Filter FilterPaths FilterOps FilterFacts FilterPolicy.
From S2P Require Import FilterTotal FilterRouting.
Open Scope Z_scope.

(** ** A parser for IPv4 without options, UDP, TCP and ICMP *)

Definition demo_udp (l4 : list Z) : UDPLayer := {| udp_SrcPort := Uint16 l4 0; udp_DstPort := Uint16 l4 2 |}.

Definition demo_tcp (l4 : list Z) : TCPLayer :=
  let f := at_ l4 13 in
  {| tcp_SrcPort := Uint16 l4 0; tcp_DstPort := Uint16 l4 2; tcp_SYN := has f 2; tcp_ACK := has f 16;
     tcp_FIN := has f 1; tcp_RST := has f 4; tcp_PSH := has f 8; tcp_URG := has f 32; tcp_Options := [] |}.

Definition demo_icmp4 (l4 : list Z) : ICMPv4Layer :=
  {| icmp4_Type := at_ l4 0; icmp4_Code := at_ l4 1; icmp4_Id := Uint16 l4 4 |}.

Definition demo_layers (v : Z) (p : list Z) (d : decoder) : decoder * bool :=
  if negb (v =? 4) || (length p <? 20)%nat then (set_decoded [] d, false)
  else
    let l4 := drop 20 p in
    let off := Uint16 p 6 in
    let ip := {| ip4_SrcIP := slice p 12 4; ip4_DstIP := slice p 16 4; ip4_Id := Uint16 p 4;
                 ip4_Flags := Z.shiftr off 13; ip4_FragOffset := Z.land off 0x1fff;
                 ip4_Protocol := at_ p 9; ip4_IHL := Z.land (at_ p 0) 15; ip4_Payload := l4 |} in
    let with_ip types t u i :=
      ({| d_ip4 := ip; d_ip6 := d_ip6 d; d_tcp := t; d_udp := u; d_icmp4 := i; d_icmp6 := d_icmp6 d;
          decoded := types; dnatOrigPort := 0 |}, true) in
    if negb (Z.land off 0x3fff =? 0) then with_ip [LayerTypeIPv4] (d_tcp d) (d_udp d) (d_icmp4 d)
    else if at_ p 9 =? TCP then with_ip [LayerTypeIPv4; LayerTypeTCP] (demo_tcp l4) (d_udp d) (d_icmp4 d)
    else if at_ p 9 =? UDP then with_ip [LayerTypeIPv4; LayerTypeUDP] (d_tcp d) (demo_udp l4) (d_icmp4 d)
    else if at_ p 9 =? ICMP then with_ip [LayerTypeIPv4; LayerTypeICMPv4] (d_tcp d) (d_udp d) (demo_icmp4 l4)
    else with_ip [LayerTypeIPv4] (d_tcp d) (d_udp d) (d_icmp4 d).

#[local] Instance demo_parser : Gopacket :=
  {| DecodeLayers := demo_layers;
     DecodeTCP := λ l4 _, (demo_tcp l4, true);
     DecodeUDP := λ l4 _, (demo_udp l4, true);
     DecodeICMPv4 := λ l4 _, (demo_icmp4 l4, true);
     DecodeICMPv6 := λ l4 l, (l, false) |}.

#[local] Instance demo_order : MapOrder := canonical_order.

(** ** Packets *)

Definition ip4 (id flagsOff proto : Z) (src dst l4 : list Z) : list Z :=
  [69; 0; 0; 20 + Z.of_nat (length l4); id / 256; id mod 256; flagsOff / 256; flagsOff mod 256;
   64; proto; 0; 0] ++ src ++ dst ++ l4.

Definition udp4 (sport dport : Z) : list Z :=
  [sport / 256; sport mod 256; dport / 256; dport mod 256; 0; 8; 0; 0].

Definition peerB : list Z := [100; 64; 0; 2].
Definition hostB : list Z := [100; 64; 0; 1].
Definition host : Addr := AddrFrom4 hostB.

(** An ICMP destination unreachable, a UDP datagram to a port, its two
    fragments. *)
Definition p_unreach : list Z := ip4 7 0 ICMP peerB hostB [3; 1; 0; 0; 0; 0; 0; 0].
Definition p_udp (dport : Z) : list Z := ip4 8 0 UDP peerB hostB (udp4 4000 dport).
Definition p_first : list Z := ip4 9 8192 UDP peerB hostB (udp4 4000 53).
Definition p_rest : list Z := ip4 9 1 UDP peerB hostB [1; 2; 3; 4].

(** ** A host *)

Definition c_sha (s : string) : list Z := reverse (codes s).
Definition c_getenv (_ : string) : string := EmptyString.
Definition c_duration (_ : string) : option Z := None.
Definition c_wg : WGAddress :=
  {| wg_IP := host; wg_Network := PrefixFrom (AddrFrom4 [100; 64; 0; 0]) 16;
     wg_IPv6 := AddrInvalid; wg_IPv6Net := PrefixFrom AddrInvalid 0 |}.
Definition c_create : Manager := Create c_getenv c_duration false false false c_wg None 1280.
Definition c_env (n : Z) : Env := {| env_now := n; env_uuid := Z.to_N n; env_seed := 0 |}.

Definition c_any : list Prefix := [PrefixFrom IPv4Unspecified 0].
(** Accept UDP to port 53 from anywhere. *)
Definition c_add : FilterOp :=
  FAdd [1] c_any NetworkZero ProtocolUDP None (Some {| IsRange := false; Values := [53] |}) ActionAccept.

Definition c_state (ops : list (Env * FilterOp)) : FilterState :=
  default (filter_init c_create) (filter_run c_sha c_getenv (filter_init c_create) ops).

(** What an inbound packet leads to: the state, the packet, the verdict. *)
Definition c_inbound (s : FilterState) (n : Z) (p : list Z) : FilterState * list Z * bool :=
  default (s, [], true) (inbound (c_env n) s 0 p (Z.of_nat (length p))).

Lemma inbound_accepts s n p :
  match inbound (c_env n) s 0 p (Z.of_nat (length p)) with Some (_, _, drop) => negb drop | None => false end = true →
  inbound (c_env n) s 0 p (Z.of_nat (length p)) = Some ((c_inbound s n p).1.1, (c_inbound s n p).1.2, false).
Proof.
  unfold c_inbound. destruct (inbound _ _ _ _ _) as [[[s' q] []]|]; done.
Qed.

Lemma c_runs ops :
  (if filter_run c_sha c_getenv (filter_init c_create) ops then true else false) = true →
  filter_run c_sha c_getenv (filter_init c_create) ops = Some (c_state ops).
Proof. apply some_default. Qed.

Example udp_dropped_without_rule : (c_inbound (c_state []) 5 (p_udp 53)).2 = true.
Proof. vm_compute. reflexivity. Qed.
Example udp_passed_with_rule : (c_inbound (c_state [(c_env 1, c_add)]) 5 (p_udp 53)).2 = false.
Proof. vm_compute. reflexivity. Qed.

(** ** The theorems applied *)

Definition c_frag_ops : list (Env * FilterOp) := [(c_env 1, c_add); (c_env 2, FInbound 0 p_first 28)].

Definition c_meta (s : FilterState) (p : list Z) : fragmentMeta :=
  default {| fm_key := {| fk_srcIP := AddrInvalid; fk_dstIP := AddrInvalid; fk_id := 0; fk_proto := 0 |};
             fm_offset := 0; fm_moreFragments := false; fm_proto := 0; fm_l4payload := [];
             fm_headerEndOctets := 0 |} (fragment_of (getDecoder s 0) p).

Lemma fragment_inherits_witness :
  ∃ pre env0 slot0 p0 size0 post, c_frag_ops = pre ++ (env0, FInbound slot0 p0 size0) :: post ∧
    time_Sub 3 (env_now env0) <= defaultFragmentTimeout.
Proof.
  destruct (fragment_inherits c_sha c_getenv ∅ c_create c_frag_ops (c_state c_frag_ops) (c_env 3) 0 p_rest
    (Z.of_nat (length p_rest))
    (c_inbound (c_state c_frag_ops) 3 p_rest).1.1 (c_inbound (c_state c_frag_ops) 3 p_rest).1.2
    (c_meta (c_state c_frag_ops) p_rest))
    as (pre & env0 & slot0 & p0 & size0 & post & s0 & s1 & q0 & meta0 & H & _ & _ & _ & _ & _ & _ & Ht).
  - vm_compute. reflexivity.
  - apply c_runs. vm_compute. reflexivity.
  - apply inbound_accepts. vm_compute. reflexivity.
  - apply some_default. vm_compute. reflexivity.
  - vm_compute. discriminate.
  - exists pre, env0, slot0, p0, size0, post. split; [exact H | exact Ht].
Defined.

Definition c_rule_ops : list (Env * FilterOp) := [(c_env 1, c_add)].

Lemma c_rule_wf : Forall filter_op_wf c_rule_ops.
Proof.
  repeat constructor; unfold port_wf; simpl; try done.
Qed.

Lemma inbound_accept_sound_witness :
  ∃ src dst,
    tracked (f_mgr (c_state c_rule_ops)) (getDecoder (c_inbound (c_state c_rule_ops) 5 (p_udp 53)).1.1 0) src dst = true ∨
    admits (f_mgr (c_state c_rule_ops)) (getDecoder (c_inbound (c_state c_rule_ops) 5 (p_udp 53)).1.1 0) src dst = true.
Proof.
  destruct (inbound_accept_sound c_sha c_getenv c_duration false false false c_wg None 1280 c_rule_ops
    (c_state c_rule_ops) (c_env 5) 0 (p_udp 53) (Z.of_nat (length (p_udp 53)))
    (c_inbound (c_state c_rule_ops) 5 (p_udp 53)).1.1 (c_inbound (c_state c_rule_ops) 5 (p_udp 53)).1.2)
    as (src & dst & _ & H).
  - exact c_rule_wf.
  - apply c_runs. vm_compute. reflexivity.
  - vm_compute. reflexivity.
  - apply inbound_accepts. vm_compute. reflexivity.
  - exists src, dst. exact H.
Defined.

Definition c_d1 : decoder := (isValidPacket zeroDecoder (p_udp 53)).1.1.

Lemma inbound_exact_witness :
  ∃ s' drop, inbound (c_env 5) (c_state c_rule_ops) 0 (p_udp 53) 28 = Some (s', p_udp 53, drop) ∧
    (drop = false ↔ answers (c_env 5) (f_mgr (c_state c_rule_ops)) c_d1 (AddrFrom4 peerB) host ∨
       admits (f_mgr (c_state c_rule_ops)) c_d1 (AddrFrom4 peerB) host = true).
Proof.
  apply (inbound_exact c_sha c_getenv c_duration false false false c_wg None 1280 c_rule_ops
    (c_state c_rule_ops) (c_env 5) 0 (p_udp 53) 28 c_d1 (AddrFrom4 peerB) host).
  - reflexivity.
  - exact c_rule_wf.
  - repeat constructor.
  - apply c_runs. vm_compute. reflexivity.
  - vm_compute. reflexivity.
  - vm_compute. reflexivity.
  - vm_compute. reflexivity.
  - vm_compute. reflexivity.
  - vm_compute. reflexivity.
Defined.

Definition c_noise : list (Env * FilterOp) := [(c_env 1, FInbound 0 (p_udp 53) 28); (c_env 2, FTimers)].

Lemma default_deny_witness :
  isSpecialICMP (getDecoder (c_inbound (c_state c_noise) 5 p_unreach).1.1 0) = Some true.
Proof.
  apply (default_deny c_sha c_getenv c_duration false false false c_wg None 1280 c_noise (c_state c_noise)
    (c_env 5) 0 p_unreach (Z.of_nat (length p_unreach))
    (c_inbound (c_state c_noise) 5 p_unreach).1.1 (c_inbound (c_state c_noise) 5 p_unreach).1.2).
  - repeat constructor.
  - apply c_runs. vm_compute. reflexivity.
  - vm_compute. reflexivity.
  - apply inbound_accepts. vm_compute. reflexivity.
Defined.

(** Userspace routing with a route rule for 10.0.0.0/8. *)
Definition c_route : FilterOp :=
  FAdd [2] c_any (NetworkOf (PrefixFrom (AddrFrom4 [10; 0; 0; 0]) 8)) ProtocolALL None None ActionAccept.
Definition c_route_ops : list (Env * FilterOp) := [(c_env 1, c_route); (c_env 2, FEnableRouting true)].
Definition p_routed : list Z := ip4 11 0 UDP peerB [10; 0; 0; 5] (udp4 4000 53).
Definition c_routed : FilterState * list Z * bool :=
  default (c_state c_route_ops, [], true) (inbound (c_env 5) (c_state c_route_ops) 0 p_routed 28).

Lemma forwarder_only_allowed_witness :
  ∃ src dst, forwards (f_mgr (c_state c_route_ops)) (getDecoder c_routed.1.1 0) src dst = true.
Proof.
  destruct (forwarder_only_allowed c_sha c_getenv c_duration false false false c_wg None 1280 c_route_ops
    (c_state c_route_ops) (c_env 5) 0 p_routed 28 c_routed.1.1 c_routed.1.2 c_routed.2) as (_ & src & dst & _ & H).
  - repeat constructor; unfold port_wf; simpl; try done.
  - apply c_runs. vm_compute. reflexivity.
  - unfold c_routed. destruct (inbound _ _ _ p_routed _) as [[[s' q] drop]|] eqn:E; [reflexivity|].
    exfalso. apply (f_equal (λ o, match o with Some _ => true | None => false end)) in E.
    vm_compute in E. discriminate E.
  - intros H. apply (f_equal (fmap (λ f, length (injected f)))) in H. vm_compute in H. discriminate H.
  - exists src, dst. exact H.
Defined.

Lemma routing_round_trip_witness :
  m_routingEnabled (disableRouting (EnableRouting c_sha c_getenv true c_create).1).1 = false ∧
  m_blockRules (disableRouting (EnableRouting c_sha c_getenv true c_create).1).1 = [].
Proof.
  destruct (routing_round_trip c_sha c_getenv c_create (EnableRouting c_sha c_getenv true c_create).1
    (disableRouting (EnableRouting c_sha c_getenv true c_create).1).1
    (disableRouting (EnableRouting c_sha c_getenv true c_create).1).2
    (default NewForwarder (m_forwarder (EnableRouting c_sha c_getenv true c_create).1)))
    as (H1 & _ & H2 & _).
  - apply Create_rules.
  - apply pair_of_snd. vm_compute. reflexivity.
  - apply some_default. vm_compute. reflexivity.
  - intros r Hr. vm_compute in Hr. inversion Hr.
  - by destruct (disableRouting _).
  - split; [exact H1 | exact H2].
Defined.

(** A TCP SYN with an MSS of 1460 against a clamp of 1240. *)
Definition p_syn : list Z :=
  ip4 12 0 TCP hostB peerB
    [15; 160; 0; 80; 0; 0; 0; 1; 0; 0; 0; 0; 96; 2; 255; 255; 0; 0; 0; 0; 2; 4; 5; 180].
Definition d_syn : decoder :=
  {| d_ip4 := {| ip4_SrcIP := hostB; ip4_DstIP := peerB; ip4_Id := 12; ip4_Flags := 0; ip4_FragOffset := 0;
                 ip4_Protocol := 6; ip4_IHL := 5; ip4_Payload := drop 20 p_syn |};
     d_ip6 := d_ip6 zeroDecoder;
     d_tcp := {| tcp_SrcPort := 4000; tcp_DstPort := 80; tcp_SYN := true; tcp_ACK := false; tcp_FIN := false;
                 tcp_RST := false; tcp_PSH := false; tcp_URG := false;
                 tcp_Options := [{| opt_Type := 2; opt_Data := [5; 180] |}] |};
     d_udp := d_udp zeroDecoder; d_icmp4 := d_icmp4 zeroDecoder; d_icmp6 := d_icmp6 zeroDecoder;
     decoded := [LayerTypeIPv4; LayerTypeTCP]; dnatOrigPort := 0 |}.

Example syn_clamped :
  (λ r, (Uint16 r.1 42, r.2)) <$> clampTCPMSS c_create p_syn d_syn = Some (1240, true).
Proof. vm_compute. reflexivity. Qed.

Lemma bytes_checked l : forallb (λ b, (0 <=? b) && (b <? 256)) l = true → bytes l.
Proof.
  intros H. apply Forall_forall. intros b Hb. rewrite forallb_forall in H.
  apply list_elem_of_In, H in Hb. bools. exact Hb.
Qed.

Lemma clampTCPMSS_spec_witness :
  ∃ p' clamped, clampTCPMSS c_create p_syn d_syn = Some (p', clamped) ∧ length p' = length p_syn.
Proof.
  destruct (clampTCPMSS_spec c_create p_syn d_syn 20) as (p' & clamped & H1 & H2 & _).
  - apply bytes_checked. vm_compute. reflexivity.
  - vm_compute. discriminate.
  - split_and!; try reflexivity; try (apply bytes_checked; reflexivity); unfold byte; simpl; lia.
  - reflexivity.
  - vm_compute. lia.
  - vm_compute. split; discriminate.
  - exists p', clamped. split; [exact H1 | exact H2].
Defined.

(** ** What the code gets wrong *)

(** With connection tracking disabled there are no trackers, and the outbound
    path calls them all the same: the first UDP or ICMP packet is a
    nil-pointer panic. *)
Theorem conntrack_disabled_panics GO (GP : Gopacket) Getenv PD dsr ns fwd wg ifs mtu env d p size d1 src dst :
  (parseCreateEnv Getenv).1.1 = true →
  decodePacket d p = (d1, true) → (2 <= length (decoded d1))%nat →
  extractIPs d1 = Some (src, dst) → IsValid src = true →
  decoded d1 !! 1%nat ∈ [Some LayerTypeUDP; Some LayerTypeICMPv4; Some LayerTypeICMPv6] →
  filterOutbound (MO := GO) env (Create Getenv PD dsr ns fwd wg ifs mtu) d p size = None.
Proof.
  intros Hc Hd Hl Hi Hs Hpl. rewrite !elem_of_cons in Hpl. unfold filterOutbound. rewrite Hd. cbn [negb].
  rewrite (proj2 (Nat.ltb_ge _ _)) by lia. rewrite Hi. simpl. rewrite Hs. cbn [negb].
  assert (Hnil : ∀ p, trackOutbound (MO := GO) env (Create Getenv PD dsr ns fwd wg ifs mtu) d1 src dst p size = None).
  { intros q. unfold trackOutbound, Create. destruct (parseCreateEnv Getenv) as [[dc lf] dm]. simpl in Hc. subst dc.
    destruct (icmpv6EchoFields d1) as [id [typ code]].
    destruct dm; simpl; by destruct Hpl as [-> |[-> |[-> |Hpl]]]; [..|inversion Hpl]. }
  destruct Hpl as [-> |[-> |[-> |Hpl]]]; [..|inversion Hpl]; rewrite Hnil; simpl; try done.
  unfold udpHooksDrop, Create. destruct (parseCreateEnv Getenv) as [[dc lf] dm]. by destruct dc, dm.
Qed.

(** Port 5353 of the host is redirected to port 53, and only port 80 is open.
    A datagram to 5353 is redirected and then blocked; its note stays in the
    pooled decoder.  The next, unrelated datagram to port 80 is accepted and
    its flow takes over the note, so the host's answer from port 80 leaves
    with source port 5353. *)
Definition c_stale_ops : list (Env * FilterOp) :=
  [(c_env 1, FAdd [3] c_any NetworkZero ProtocolUDP None (Some {| IsRange := false; Values := [80] |}) ActionAccept);
   (c_env 2, FAddInbound host ProtocolUDP 5353 53);
   (c_env 3, FInbound 0 (p_udp 5353) 28);
   (c_env 4, FInbound 0 (p_udp 80) 28)].
Definition p_answer : list Z := ip4 13 0 UDP hostB peerB (udp4 80 4000).

Theorem stale_dnat_port :
  (c_inbound (c_state (take 2 c_stale_ops)) 3 (p_udp 5353)).2 = true ∧
  (λ r, Uint16 r.1.2 20) <$> outbound (c_env 5) (c_state c_stale_ops) 1 p_answer 28 = Some 5353 ∧
  (λ r, Uint16 r.1.2 20) <$>
    outbound (c_env 5) (c_state (take 2 c_stale_ops ++ drop 3 c_stale_ops)) 1 p_answer 28 = Some 80.
Proof. vm_compute. split_and!; reflexivity. Qed.
