(* ===== verification/NetParse.v ===== *)
(** * [netip.ParseAddr] and [netip.ParsePrefix]

    The Standard Library's address parsers, as the ACL manager and the
    management types call them: dotted decimal without leading zeros, and
    colon-separated hexadecimal groups with at most one [::], an optional
    dotted tail and an optional zone.  [None] is the error. *)
From S2P Require Import Prelude NetIP Bytes.
Open Scope Z_scope.

(** ** IPv4 *)

(** [parseIPv4Fields]: [prev] is the character before the current one,
    [fields] the octets already complete. *)
Fixpoint parseIPv4Fields (s : string) (prev : option ascii) (val : Z) (digLen : nat)
    (fields : list Z) : option (list Z) :=
  match s with
  | EmptyString => if (length fields <? 3)%nat then None else Some (fields ++ [val])
  | String c s' =>
      match digit_val c with
      | Some d =>
          if (digLen =? 1)%nat && (val =? 0) then None
          else
            let val := val * 10 + d in
            if 255 <? val then None else parseIPv4Fields s' (Some c) val (S digLen) fields
      | None =>
          if Ascii.eqb c "."%char then
            if bool_decide (prev = None) || bool_decide (prev = Some "."%char) || String.eqb s' ""
            then None
            else if (length fields =? 3)%nat then None
            else parseIPv4Fields s' (Some c) 0 0 (fields ++ [val])
          else None
      end
  end.

Definition parseIPv4 (s : string) : option Addr :=
  (λ fields, AddrV4 (be_val 256 fields)) <$> parseIPv4Fields s None 0 0 [].

(** ** IPv6 *)

Definition hex_val (c : ascii) : option Z :=
  let n := Z.of_N (Ascii.N_of_ascii c) in
  if (48 <=? n) && (n <=? 57) then Some (n - 48)
  else if (97 <=? n) && (n <=? 102) then Some (n - 87)
  else if (65 <=? n) && (n <=? 70) then Some (n - 55)
  else None.

(** One hexadecimal group: the number of digits, its value and the rest. *)
Fixpoint hex_scan (s : string) (off : nat) (acc : Z) : option (nat * Z * string) :=
  match s with
  | EmptyString => Some (off, acc, s)
  | String c s' =>
      match hex_val c with
      | Some d =>
          let acc := acc * 16 + d in
          if (3 <? off)%nat || (65535 <? acc) then None else hex_scan s' (S off) acc
      | None => Some (off, acc, s)
      end
  end.

(** The group loop: [n] groups are still free, [gs] are filled, [ell] is the
    position of the ellipsis.  What is left of the text is returned. *)
Fixpoint v6_loop (n : nat) (s : string) (gs : list Z) (ell : option nat)
    : option (list Z * option nat * string) :=
  match n with
  | O => Some (gs, ell, s)
  | S n' =>
      match hex_scan s 0 0 with
      | None => None
      | Some (off, acc, rest) =>
          if (off =? 0)%nat then None
          else match rest with
               | EmptyString => Some (gs ++ [acc], ell, "")
               | String c rest' =>
                   if Ascii.eqb c "."%char then
                     if bool_decide (ell = None) && negb (length gs =? 6)%nat then None
                     else if (6 <? length gs)%nat then None
                     else match parseIPv4Fields s None 0 0 [] with
                          | Some [a; b; c; d] => Some (gs ++ [a * 256 + b; c * 256 + d], ell, "")
                          | _ => None
                          end
                   else if negb (Ascii.eqb c ":"%char) then None
                   else match rest' with
                        | EmptyString => None
                        | String c2 rest2 =>
                            if Ascii.eqb c2 ":"%char then
                              if bool_decide (ell = None) then
                                if String.eqb rest2 "" then Some (gs ++ [acc], Some (S (length gs)), "")
                                else v6_loop n' rest2 (gs ++ [acc]) (Some (S (length gs)))
                              else None
                            else v6_loop n' rest' (gs ++ [acc]) ell
                        end
               end
      end
  end.

(** The text before the first [c] and, if there is one, the text after it. *)
Fixpoint split_first (c : ascii) (s : string) : string * option string :=
  match s with
  | EmptyString => (s, None)
  | String x s' =>
      if Ascii.eqb x c then ("", Some s')
      else let '(a, b) := split_first c s' in (String x a, b)
  end.

(** Zero groups take the place of the ellipsis. *)
Definition expand_groups (gs : list Z) (ell : option nat) : option (list Z) :=
  if (length gs <? 8)%nat then
    match ell with
    | None => None
    | Some e => Some (take e gs ++ replicate (8 - length gs) 0 ++ drop e gs)
    end
  else match ell with None => Some gs | Some _ => None end.

Definition parse_groups (s : string) (ell : option nat) : option Z :=
  match v6_loop 8 s [] ell with
  | Some (gs, ell, rest) =>
      if negb (String.eqb rest "") then None else be_val 65536 <$> expand_groups gs ell
  | None => None
  end.

Definition parseIPv6 (s : string) : option Addr :=
  let '(s, zone) := split_first "%"%char s in
  let zone_text := default "" zone in
  if bool_decide (zone = Some "") then None
  else
    (λ v, AddrV6 v zone_text) <$>
    match s with
    | String ":" (String ":" s') => if String.eqb s' "" then Some 0 else parse_groups s' (Some 0%nat)
    | _ => parse_groups s None
    end.

(** The first of ['.'], [':'] and ['%'] decides the family. *)
Fixpoint addr_kind (s : string) : option ascii :=
  match s with
  | EmptyString => None
  | String c s' =>
      if Ascii.eqb c "."%char || Ascii.eqb c ":"%char || Ascii.eqb c "%"%char then Some c
      else addr_kind s'
  end.

Definition ParseAddr (s : string) : option Addr :=
  match addr_kind s with
  | Some "."%char => parseIPv4 s
  | Some ":"%char => parseIPv6 s
  | _ => None
  end.

(** The text before and after the last [c]. *)
Fixpoint split_last (c : ascii) (s : string) : option (string * string) :=
  match s with
  | EmptyString => None
  | String x s' =>
      match split_last c s' with
      | Some (a, b) => Some (String x a, b)
      | None => if Ascii.eqb x c then Some ("", s') else None
      end
  end.

Definition ParsePrefix (s : string) : option Prefix :=
  match split_last "/"%char s with
  | None => None
  | Some (addr, bitsStr) =>
      match ParseAddr addr with
      | None => None
      | Some ip =>
          if Is6 ip && negb (String.eqb (addr_zone ip) "") then None
          else if (1 <? String.length bitsStr)%nat &&
                  match bitsStr with
                  | String c _ => bool_decide (digit_val c = None ∨ digit_val c = Some 0)
                  | EmptyString => false
                  end then None
          else match Atoi bitsStr with
               | None => None
               | Some bits =>
                   if (bits <? 0) || ((if Is6 ip then 128 else 32) <? bits) then None
                   else Some (PrefixFrom ip bits)
               end
      end
  end.

Definition IsUnspecified (a : Addr) : bool :=
  match a with
  | AddrInvalid => false
  | AddrV4 v => v =? 0
  | AddrV6 v z => (v =? 0) && String.eqb z ""
  end.

(** ** Results are well formed *)

Lemma parseIPv4Fields_wf s prev val dl fields r :
  parseIPv4Fields s prev val dl fields = Some r →
  0 <= val <= 255 → (length fields <= 3)%nat → Forall (λ d, 0 <= d < 256) fields →
  length r = 4%nat ∧ Forall (λ d, 0 <= d < 256) r.
Proof.
  revert prev val dl fields. induction s as [|c s IH]; intros prev val dl fields; simpl.
  - case_match eqn:E; [done|]. intros [= <-] Hv Hl Hf. apply Nat.ltb_ge in E.
    rewrite length_app. simpl. split; [lia|]. apply Forall_app. split; [done|]. constructor; [lia|done].
  - destruct (digit_val c) as [d|] eqn:Ed.
    + apply digit_val_range in Ed. case_match; [done|].
      destruct (Z.ltb_spec 255 (val * 10 + d)); [done|]. intros Hs Hv Hl Hf.
      eapply IH; [exact Hs|lia|done..].
    + case_match; [|done]. case_match; [done|]. case_match eqn:E3; [done|]. intros Hs Hv Hl Hf.
      apply Nat.eqb_neq in E3. eapply IH; [exact Hs|lia|rewrite length_app; simpl; lia|].
      apply Forall_app. split; [done|]. constructor; [lia|done].
Qed.

Lemma hex_val_range c d : hex_val c = Some d → 0 <= d <= 15.
Proof. unfold hex_val. intros H. repeat (case_match; simplify_eq); bools; lia. Qed.

Lemma hex_scan_range s off acc o v rest :
  hex_scan s off acc = Some (o, v, rest) → 0 <= acc <= 65535 → 0 <= v <= 65535.
Proof.
  revert off acc. induction s as [|c s IH]; intros off acc; simpl; [by intros [= <- <- <-]|].
  destruct (hex_val c) as [d|] eqn:Ed; [|by intros [= <- <- <-]].
  apply hex_val_range in Ed. destruct (_ || _) eqn:E; [done|]. intros Hs Ha.
  bools. eapply IH; [exact Hs|lia].
Qed.

Definition groups_ok (gs : list Z) : Prop := Forall (λ g, 0 <= g < 65536) gs.

Lemma groups_ok_snoc gs g : groups_ok gs → 0 <= g <= 65535 → groups_ok (gs ++ [g]).
Proof. intros Hg ?. apply Forall_app. split; [done|]. constructor; [lia|done]. Qed.

(** Groups stay in range, at most eight are filled, and the ellipsis lies
    within them. *)
Lemma v6_loop_wf n s gs ell gs' ell' rest :
  v6_loop n s gs ell = Some (gs', ell', rest) →
  groups_ok gs → (length gs + n = 8)%nat → (∀ e, ell = Some e → e <= length gs)%nat →
  groups_ok gs' ∧ (length gs' <= 8)%nat ∧ (∀ e, ell' = Some e → e <= length gs')%nat.
Proof.
  revert s gs ell. induction n as [|n IH]; intros s gs ell.
  { intros [= <- <- <-] Hg Hl He. split_and!; [done|lia|done]. }
  cbn [v6_loop].
  destruct (hex_scan s 0 0) as [[[off acc] r]|] eqn:Eh; [|done].
  pose proof (hex_scan_range _ _ _ _ _ _ Eh ltac:(lia)) as Hacc.
  destruct (off =? 0)%nat; [done|].
  destruct r as [|c r']; cbv iota beta.
  { intros [= <- <- <-] Hg Hl He. rewrite length_app. simpl.
    split_and!; [by apply groups_ok_snoc|lia|]. intros e ?%He. lia. }
  destruct (Ascii.eqb c "."%char).
  { destruct (_ && _); [done|]. destruct (Nat.ltb_spec 6 (length gs)); [done|].
    destruct (parseIPv4Fields s None 0 0 []) as [fs|] eqn:E4; [|done].
    apply parseIPv4Fields_wf in E4 as [_ Hf]; [|lia|simpl; lia|done].
    destruct fs as [|a [|b [|c' [|d [|? ?]]]]]; try done.
    intros [= <- <- <-] Hg Hl He. rewrite !Forall_cons in Hf. rewrite length_app. simpl.
    split_and!; [|lia|intros e ?%He; lia].
    apply Forall_app. split; [done|]. repeat constructor; lia. }
  destruct (negb _); [done|]. destruct r' as [|c2 r2]; [done|].
  assert (∀ e : nat, (e <= length gs)%nat → (e <= length (gs ++ [acc]))%nat) as Hle
    by (intros; rewrite length_app; lia).
  destruct (Ascii.eqb c2 ":"%char).
  - destruct (bool_decide (ell = None)); [|done]. destruct (String.eqb r2 "").
    + intros [= <- <- <-] Hg Hl He. rewrite length_app. simpl.
      split_and!; [by apply groups_ok_snoc|lia|]. intros e [= <-]. lia.
    + intros Hs Hg Hl He. eapply IH; [exact Hs|by apply groups_ok_snoc|..]; rewrite length_app; simpl.
      * lia.
      * intros e [= <-]. lia.
  - intros Hs Hg Hl He. eapply IH; [exact Hs|by apply groups_ok_snoc|..].
    + rewrite length_app. simpl. lia.
    + eauto.
Qed.

Lemma parse_groups_range s ell v :
  (∀ e, ell = Some e → e = 0%nat) → parse_groups s ell = Some v → in_width 128 v.
Proof.
  intros He. unfold parse_groups.
  destruct (v6_loop 8 s [] ell) as [[[gs ell'] rest]|] eqn:E; [|done].
  apply v6_loop_wf in E as (Hg & Hl & He'); [|constructor|done|].
  2: { intros e ->%He. simpl. lia. }
  destruct (negb _); [done|]. intros (gs' & Hx & ->)%fmap_Some.
  assert (groups_ok gs' ∧ length gs' = 8%nat) as [Hg' Hl'].
  { unfold expand_groups in Hx. destruct (Nat.ltb_spec (length gs) 8); destruct ell' as [e|]; simplify_eq.
    - specialize (He' e eq_refl). rewrite !length_app, length_replicate, length_take, length_drop.
      split; [|lia]. apply Forall_app. split; [by apply Forall_take|].
      apply Forall_app. split; [by apply Forall_replicate|by apply Forall_drop].
    - split; [done|lia]. }
  pose proof (be_val_range 65536 gs' ltac:(lia) Hg') as Hr. rewrite Hl' in Hr. exact Hr.
Qed.

Lemma ParseAddr_wf s a : ParseAddr s = Some a → addr_wf a ∧ IsValid a = true.
Proof.
  assert (parseIPv4 s = Some a → addr_wf a ∧ IsValid a = true) as H4.
  { unfold parseIPv4. intros (fs & E & ->)%fmap_Some.
    apply parseIPv4Fields_wf in E as [Hl Hf]; [|lia|simpl; lia|done].
    pose proof (be_val_range 256 fs ltac:(lia) Hf) as Hr. rewrite Hl in Hr. by split. }
  assert (parseIPv6 s = Some a → addr_wf a ∧ IsValid a = true) as H6.
  { unfold parseIPv6. destruct (split_first _ s) as [s' zone]. case_match; [done|].
    intros (v & E & ->)%fmap_Some. split; [|done]. cbn [addr_wf].
    repeat case_match; simplify_eq; try done;
      eapply parse_groups_range; try eassumption; naive_solver. }
  unfold ParseAddr. repeat case_match; try done; auto.
Qed.

Lemma ParsePrefix_wf s p :
  ParsePrefix s = Some p → prefix_wf p ∧ prefix_IsValid p = true.
Proof.
  unfold ParsePrefix. destruct (split_last _ s) as [[a b]|]; [|done].
  destruct (ParseAddr a) as [ip|] eqn:Ea; [|done]. apply ParseAddr_wf in Ea as [Hwf Hv].
  case_match; [done|]. case_match; [done|]. destruct (Atoi b) as [bits|]; [|done].
  destruct (_ || _) eqn:E; [done|]. intros [= <-]. bools.
  split; [by apply PrefixFrom_wf|]. unfold prefix_IsValid, PrefixFrom. simpl.
  rewrite Hv. destruct ip; simpl in *; try done;
    rewrite (proj2 (Z.leb_le 0 bits)), (proj2 (Z.leb_le bits _)) by lia; simpl; lia.
Qed.

Example ParseAddr_v4 : ParseAddr "100.100.100.1" = Some (AddrV4 1684300801).
Proof. reflexivity. Qed.
Example ParseAddr_leading_zero : ParseAddr "10.0.0.01" = None.
Proof. reflexivity. Qed.
Example ParseAddr_v6 : ParseAddr "fd00::1:1" = Some (AddrV6 0xfd000000000000000000000000010001 "").
Proof. reflexivity. Qed.
Example ParseAddr_zero6 : ParseAddr "::" = Some (AddrV6 0 "").
Proof. reflexivity. Qed.
Example ParseAddr_mapped : ParseAddr "::ffff:1.2.3.4%eth0" = Some (AddrV6 0xffff01020304 "eth0").
Proof. reflexivity. Qed.
Example ParseAddr_two_ellipses : ParseAddr "1::2::3" = None.
Proof. reflexivity. Qed.
Example ParsePrefix_v4 : ParsePrefix "10.0.0.0/8" = Some (MkPrefix (AddrV4 167772160) 8).
Proof. reflexivity. Qed.
Example ParsePrefix_zero_bits : ParsePrefix "10.0.0.0/08" = None.
Proof. reflexivity. Qed.
