(* ===== verification/NetipUtil.v ===== *)
(** * Compact prefixes on the wire

    [shared/netiputil/compact.go]: a prefix as four or sixteen address bytes
    and one length byte.  [None] is the error. *)
From S2P Require Import Prelude NetIP Bytes.
Open Scope Z_scope.

Definition EncodePrefix (p : Prefix) : option (list Z) :=
  let addr := Unmap (prefix_Addr p) in
  let bits := prefix_Bits p in
  if Is4 addr && (32 <? bits) then None else Some (AsSlice addr ++ [uint 8 bits]).

(** [b[len(b)-1]]. *)
Definition last_byte (b : list Z) : Z := default 0 (last b).

Definition DecodePrefix (b : list Z) : option Prefix :=
  if (length b =? 5)%nat then
    let bits := last_byte b in
    if 32 <? bits then None else Some (PrefixFrom (AddrFrom4 (take 4 b)) bits)
  else if (length b =? 17)%nat then
    let addr := Unmap (AddrFrom16 (take 16 b)) in
    let bits := last_byte b in
    if Is4 addr then if 32 <? bits then None else Some (PrefixFrom addr bits)
    else if 128 <? bits then None
    else Some (PrefixFrom addr bits)
  else None.

(** The error of [EncodePrefix] is discarded, which leaves a nil slice. *)
Definition EncodeAddr (a : Addr) : list Z :=
  let a := Unmap a in
  default [] (EncodePrefix (PrefixFrom a (if Is4 a then 32 else 128))).

Definition DecodeAddr (b : list Z) : option Addr := prefix_Addr <$> DecodePrefix b.

(** ** Correctness *)

(** The encodings that [EncodePrefix] produces: no IPv4-mapped address in the
    long form. *)
Definition canonical (b : list Z) : Prop :=
  bytes b ∧ (length b = 17%nat → Is4In6 (AddrFrom16 (take 16 b)) = false).

Lemma Unmap_id a : Is4In6 a = false → Unmap a = a.
Proof. destruct a; cbn [Unmap]; [done..|]. by intros ->. Qed.

Lemma Unmap_IsValid a : IsValid (Unmap a) = IsValid a.
Proof. destruct a; cbn [Unmap]; [done..|]. by destruct (Is4In6 _). Qed.

Lemma Unmap_zone a : addr_zone a = "" → addr_zone (Unmap a) = "".
Proof. destruct a; cbn [Unmap]; [done..|]. by destruct (Is4In6 _). Qed.

Lemma withoutZone_id a : addr_zone a = "" → withoutZone a = a.
Proof. destruct a; simpl; [done..|]. by intros ->. Qed.

Lemma PrefixFrom_valid a bits :
  IsValid a = true → 0 <= bits <= BitLen a → addr_zone a = "" → PrefixFrom a bits = MkPrefix a bits.
Proof.
  intros Hv Hb Hz. unfold PrefixFrom. rewrite withoutZone_id, Hv by done.
  by rewrite (proj2 (Z.leb_le 0 bits)), (proj2 (Z.leb_le bits _)) by lia.
Qed.

(** What decoding yields: a valid prefix of an unmapped address. *)
Lemma DecodePrefix_wf b p :
  bytes b → DecodePrefix b = Some p →
  prefix_wf p ∧ prefix_IsValid p = true ∧ Is4In6 (prefix_Addr p) = false.
Proof.
  intros Hb. unfold DecodePrefix.
  assert (0 <= last_byte b) as Hlast.
  { unfold last_byte. destruct (last b) as [x|] eqn:E; simpl; [|lia].
    apply last_Some in E as [l' ->]. apply Forall_app in Hb as [_ [Hx _]%Forall_cons].
    unfold byte in Hx. lia. }
  assert (∀ a, addr_wf a → IsValid a = true → addr_zone a = "" → Is4In6 a = false →
    last_byte b <= BitLen a →
    let q := PrefixFrom a (last_byte b) in
    prefix_wf q ∧ prefix_IsValid q = true ∧ Is4In6 (prefix_Addr q) = false) as Hgo.
  { intros a Hw Hv Hz H46 Hle q. split; [by apply PrefixFrom_wf|].
    subst q. rewrite PrefixFrom_valid by (lia || done). split; [|done].
    apply Z.leb_le. simpl. lia. }
  destruct (Nat.eqb_spec (length b) 5) as [Hl|_].
  { destruct (Z.ltb_spec 32 (last_byte b)); [done|]. intros [= <-]. apply Hgo; simpl; try done; try lia.
    apply AddrFrom4_wf; [by apply Forall_take|]. rewrite length_take. lia. }
  destruct (Nat.eqb_spec (length b) 17) as [Hl|_]; [|done].
  assert (addr_wf (AddrFrom16 (take 16 b))) as Hw.
  { apply AddrFrom16_wf; [by apply Forall_take|]. rewrite length_take. lia. }
  set (a := Unmap (AddrFrom16 (take 16 b))).
  assert (addr_wf a ∧ IsValid a = true ∧ addr_zone a = "" ∧ Is4In6 a = false) as (?&?&?&?).
  { subst a. split_and!; [by apply Unmap_wf|by rewrite Unmap_IsValid|by apply Unmap_zone|].
    apply Unmap_not_Is4In6. }
  clearbody a. destruct (Is4 a) eqn:E4.
  - destruct (Z.ltb_spec 32 (last_byte b)); [done|]. intros [= <-]. apply Hgo; try done. by destruct a.
  - destruct (Z.ltb_spec 128 (last_byte b)); [done|]. intros [= <-]. apply Hgo; try done. by destruct a.
Qed.

Lemma last_byte_snoc l x : last_byte (l ++ [x]) = x.
Proof. unfold last_byte. by rewrite last_snoc. Qed.

Lemma Encode_Decode p :
  prefix_wf p → prefix_IsValid p = true → Is4In6 (prefix_Addr p) = false →
  ∃ b, EncodePrefix p = Some b ∧ canonical b ∧ DecodePrefix b = Some p.
Proof.
  intros (Hw & Hz & Hv) Hvalid H46. destruct (Hv Hvalid) as [Hva Hle].
  unfold prefix_IsValid in Hvalid. apply Z.leb_le in Hvalid.
  destruct p as [a bits]. simpl in *. unfold EncodePrefix. simpl. rewrite Unmap_id by done.
  assert (bits <= 128) as Hb by (clear Hw; destruct a; simpl in Hle; lia).
  assert (uint 8 bits = bits) as Hu by (apply uint_id; change (0 <= bits < 256); lia).
  rewrite Hu.
  assert (canonical (AsSlice a ++ [bits])) as Hc.
  { split.
    - apply Forall_app. split; [apply AsSlice_bytes|]. constructor; [|done].
      unfold byte. lia.
    - rewrite length_app, length_AsSlice. destruct a; try done. intros _.
      cbn [AsSlice]. rewrite take_app_length' by (by rewrite length_be_bytes).
      unfold AddrFrom16. rewrite be_value_bytes by exact Hw. exact H46. }
  destruct a as [|v|v z]; [done|..]; simpl in Hz; cbn [Is4 BitLen] in *.
  - rewrite (proj2 (Z.ltb_ge 32 bits)) by lia. eexists. split_and!; [done..|].
    unfold DecodePrefix. cbn [AsSlice]. rewrite length_app, length_be_bytes, last_byte_snoc. cbn [Nat.add length Nat.eqb].
    rewrite (proj2 (Z.ltb_ge 32 bits)) by lia. rewrite take_app_length' by (by rewrite length_be_bytes).
    unfold AddrFrom4. rewrite be_value_bytes by exact Hw. by rewrite PrefixFrom_valid.
  - cbn [andb]. eexists. split_and!; [done..|].
    unfold DecodePrefix. cbn [AsSlice]. rewrite length_app, length_be_bytes, last_byte_snoc. cbn [Nat.add length Nat.eqb].
    rewrite take_app_length' by (by rewrite length_be_bytes).
    unfold AddrFrom16. rewrite be_value_bytes by exact Hw. subst z. rewrite Unmap_id by exact H46.
    cbn [Is4]. rewrite (proj2 (Z.ltb_ge 128 bits)) by lia. by rewrite PrefixFrom_valid.
Qed.

Lemma Decode_Encode b p :
  canonical b → DecodePrefix b = Some p → EncodePrefix p = Some b.
Proof.
  intros [Hb Hc] Hd. destruct (DecodePrefix_wf _ _ Hb Hd) as (_ & Hvalid & H46).
  unfold DecodePrefix in Hd. unfold EncodePrefix. rewrite Unmap_id by done.
  assert (∀ n, length b = S n → b = take n b ++ [last_byte b]) as Hsplit.
  { intros n Hn. destruct b as [|x b' _] using rev_ind; [done|]. rewrite last_byte_snoc.
    rewrite length_app in Hn. simpl in Hn. by rewrite take_app_length' by lia. }
  assert (∀ x, b = x ++ [last_byte b] → 0 <= last_byte b < 256) as Hrange.
  { intros x E. rewrite E in Hb. by apply Forall_app in Hb as [_ [Hx _]%Forall_cons]. }
  assert (∀ n, (n <= length b)%nat → be_bytes n (be_value (take n b)) = take n b) as Hbe.
  { intros n Hn. rewrite <- (be_bytes_value (take n b)) at 2 by (by apply Forall_take).
    by rewrite length_take_le. }
  destruct (Nat.eqb_spec (length b) 5) as [Hl|_].
  { specialize (Hsplit 4%nat Hl). specialize (Hrange _ Hsplit).
    destruct (Z.ltb_spec 32 (last_byte b)); [done|]. simplify_eq.
    rewrite PrefixFrom_valid by (done || simpl; lia).
    cbn [prefix_Addr prefix_Bits AddrFrom4 Is4 andb AsSlice].
    rewrite (proj2 (Z.ltb_ge 32 _)) by lia. rewrite uint_id by (unfold in_width; lia).
    by rewrite (Hbe 4%nat), <- Hsplit by lia. }
  destruct (Nat.eqb_spec (length b) 17) as [Hl|_]; [|done].
  specialize (Hsplit 16%nat Hl). specialize (Hrange _ Hsplit).
  rewrite Unmap_id in Hd by (by apply Hc). simpl in Hd.
  destruct (Z.ltb_spec 128 (last_byte b)); [done|]. simplify_eq.
  rewrite PrefixFrom_valid by (done || simpl; lia). cbn [prefix_Addr prefix_Bits AddrFrom16 Is4 andb AsSlice].
  rewrite uint_id by (unfold in_width; lia).
  by rewrite (Hbe 16%nat), <- Hsplit by lia.
Qed.

(** Encoding and decoding are inverse to each other: on valid prefixes
    of unmapped addresses and on canonical encodings each is the other's
    graph, and every such prefix has an encoding. *)
Theorem compact_round_trip p b :
  prefix_wf p → prefix_IsValid p = true → Is4In6 (prefix_Addr p) = false → canonical b →
  (EncodePrefix p = Some b ↔ DecodePrefix b = Some p) ∧ is_Some (EncodePrefix p).
Proof.
  intros Hw Hv H46 Hc. destruct (Encode_Decode p Hw Hv H46) as (b' & He & Hc' & Hd).
  split; [|by eexists]. split; [|by apply Decode_Encode].
  intros E. by simplify_eq.
Qed.

Lemma compact_round_trip_witness :
  EncodePrefix (PrefixFrom (AddrV4 167772160) 8) = Some [10; 0; 0; 0; 8] ↔
  DecodePrefix [10; 0; 0; 0; 8] = Some (PrefixFrom (AddrV4 167772160) 8).
Proof.
  refine (proj1 (compact_round_trip _ _ _ _ _ _)); [apply PrefixFrom_wf; by split|reflexivity..|].
  split; [repeat constructor; done|done].
Defined.

(** An address comes back without its mapping. *)
Lemma DecodeAddr_EncodeAddr a :
  addr_wf a → IsValid a = true → addr_zone a = "" → DecodeAddr (EncodeAddr a) = Some (Unmap a).
Proof.
  intros Hw Hv Hz. unfold EncodeAddr, DecodeAddr.
  set (u := Unmap a). assert (addr_wf u ∧ IsValid u = true ∧ addr_zone u = "" ∧ Is4In6 u = false) as (?&Hvu&?&?).
  { subst u. split_and!; [by apply Unmap_wf|by rewrite Unmap_IsValid|by apply Unmap_zone|].
    apply Unmap_not_Is4In6. }
  set (bits := if Is4 u then 32 else 128).
  assert (0 <= bits <= BitLen u) by (subst bits; destruct u; simpl; [done|lia..]).
  destruct (Encode_Decode (PrefixFrom u bits)) as (b & He & _ & Hd).
  - by apply PrefixFrom_wf.
  - rewrite PrefixFrom_valid by done. apply Z.leb_le. simpl. lia.
  - by rewrite PrefixFrom_valid.
  - rewrite He. simpl. rewrite Hd. by rewrite PrefixFrom_valid.
Qed.
