(* ===== verification/AclManager.v ===== *)
(** * The client's ACL manager

    [client/internal/acl/manager.go] with the domain sets of
    [client/firewall/manager/set.go] and [shared/management/domain]: the rules
    of a network map are decoded, grouped, translated and installed in a
    firewall; what the firewall holds is tracked and torn down when it
    disappears from the map.

    The firewall is the interface [firewall.Manager]; its operations are the
    class [Firewall] over the backend's state, and rules are handles of a type
    the backend chooses.  Errors are values: a multierror is the list of its
    errors.  The configuration hash ([hashstructure.Hash]), SHA-256 and
    [idna.ToUnicode] are arguments. *)
From S2P Require Import Prelude NetIP Bytes GoStrings Order NetParse NetipUtil FwTypes RouteRules.
Open Scope Z_scope.

(** ** The rules of the network map

    Protocol buffer enumerations are open: any integer can arrive. *)

Definition RuleDirection_IN : Z := 0.
Definition RuleDirection_OUT : Z := 1.
Definition RuleAction_ACCEPT : Z := 0.
Definition RuleAction_DROP : Z := 1.
Definition RuleProtocol_ALL : Z := 1.
Definition RuleProtocol_TCP : Z := 2.
Definition RuleProtocol_UDP : Z := 3.
Definition RuleProtocol_ICMP : Z := 4.

Record PortRange := { rng_Start : Z; rng_End : Z }.

(** The oneof [portSelection]. *)
Inductive PortInfo :=
| PortUnset
| PortSingle (p : Z)
| PortRange_ (r : option PortRange).

Definition GetPort (pi : PortInfo) : Z := match pi with PortSingle p => p | _ => 0 end.
Definition GetRange (pi : PortInfo) : option PortRange :=
  match pi with PortRange_ r => r | _ => None end.

Record FirewallRule := {
  fr_PeerIP : string;
  fr_Direction : Z;
  fr_Action : Z;
  fr_Protocol : Z;
  fr_Port : string;
  fr_PortInfo : option PortInfo;
  fr_PolicyID : list Z;
  fr_SourcePrefixes : list (list Z);
}.

Record RouteFirewallRule := {
  rf_SourceRanges : list string;
  rf_Action : Z;
  rf_Destination : string;
  rf_Protocol : Z;
  rf_PortInfo : option PortInfo;
  rf_IsDynamic : bool;
  rf_Domains : list string;
  rf_PolicyID : list Z;
}.

Record NetworkMap := {
  nm_FirewallRules : list FirewallRule;
  nm_FirewallRulesIsEmpty : bool;
  nm_RoutesFirewallRules : list RouteFirewallRule;
  nm_RoutesFirewallRulesIsEmpty : bool;
}.

Inductive AclError :=
| ErrDecodeSource
| ErrInvalidProtocol
| ErrInvalidAction
| ErrInvalidPort
| ErrInvalidDirection
| ErrAddRule
| ErrNoRuleReturned
| ErrDeleteRule
| ErrSourceRangesEmpty
| ErrParseSourceRange
| ErrParseDestination.

#[global] Instance AclError_eq_dec : EqDecision AclError.
Proof. solve_decision. Defined.

(** ** Grouping *)

Record peerRuleGroup := {
  g_direction : Z;
  g_action : Z;
  g_protocol : Z;
  g_port : option PortInfo;
  g_legacyPort : string;
  g_policyID : list Z;
  g_sources : list Prefix;
}.

Record peerRuleKey := {
  k_v6 : bool;
  k_policyID : list Z;
  k_direction : Z;
  k_action : Z;
  k_protocol : Z;
  k_legacyPort : string;
  k_port : Z;
  k_rangeStart : Z;
  k_rangeEnd : Z;
}.

#[global] Instance peerRuleKey_eq_dec : EqDecision peerRuleKey.
Proof. solve_decision. Defined.

Definition prefixIsV6 (p : Prefix) : bool :=
  Is6 (prefix_Addr p) && negb (Is4In6 (prefix_Addr p)).

(** The IPv4 and the IPv6 part. *)
Definition splitPrefixesByFamily (prefixes : list Prefix) : list Prefix * list Prefix :=
  (filter (λ p, prefixIsV6 p = false) prefixes, filter (λ p, prefixIsV6 p = true) prefixes).

Definition ruleGroupKey (r : FirewallRule) (v6 : bool) : peerRuleKey :=
  let rng := pi ← fr_PortInfo r; GetRange pi in
  {| k_v6 := v6; k_policyID := fr_PolicyID r; k_direction := fr_Direction r;
     k_action := fr_Action r; k_protocol := fr_Protocol r; k_legacyPort := fr_Port r;
     k_port := match fr_PortInfo r with Some pi => uint 16 (GetPort pi) | None => 0 end;
     k_rangeStart := match rng with Some x => uint 16 (rng_Start x) | None => 0 end;
     k_rangeEnd := match rng with Some x => uint 16 (rng_End x) | None => 0 end |}.

(** The loop over [SourcePrefixes]. *)
Fixpoint decodeSources (raws : list (list Z)) : option (list Prefix) :=
  match raws with
  | [] => Some []
  | raw :: raws' =>
      match DecodeAddr raw with
      | None => None
      | Some addr =>
          (λ out, PrefixFrom (Unmap addr) (BitLen (Unmap addr)) :: out) <$> decodeSources raws'
      end
  end.

Definition extractRuleSources (r : FirewallRule) : option (list Prefix) :=
  match fr_SourcePrefixes r with
  | _ :: _ => decodeSources (fr_SourcePrefixes r)
  | [] =>
      match ParseAddr (fr_PeerIP r) with
      | None => None
      | Some addr =>
          let addr := Unmap addr in
          if IsUnspecified addr then Some [PrefixFrom addr 0]
          else Some [PrefixFrom addr (BitLen addr)]
      end
  end.

Definition newGroup (r : FirewallRule) (sources : list Prefix) : peerRuleGroup :=
  {| g_direction := fr_Direction r; g_action := fr_Action r; g_protocol := fr_Protocol r;
     g_port := fr_PortInfo r; g_legacyPort := fr_Port r; g_policyID := fr_PolicyID r;
     g_sources := sources |}.

Definition appendSources (g : peerRuleGroup) (sources : list Prefix) : peerRuleGroup :=
  {| g_direction := g_direction g; g_action := g_action g; g_protocol := g_protocol g;
     g_port := g_port g; g_legacyPort := g_legacyPort g; g_policyID := g_policyID g;
     g_sources := g_sources g ++ sources |}.

(** [byKey] and [order] together: the groups by key in the order of their
    first rule. *)
Fixpoint addToGroup (r : FirewallRule) (key : peerRuleKey) (sources : list Prefix)
    (groups : list (peerRuleKey * peerRuleGroup)) : list (peerRuleKey * peerRuleGroup) :=
  match groups with
  | [] => [(key, newGroup r sources)]
  | (k, g) :: groups' =>
      if decide (k = key) then (k, appendSources g sources) :: groups'
      else (k, g) :: addToGroup r key sources groups'
  end.

Definition addFamily (r : FirewallRule) (groups : list (peerRuleKey * peerRuleGroup))
    (sub : bool * list Prefix) : list (peerRuleKey * peerRuleGroup) :=
  let '(isV6, sources) := sub in
  if (length sources =? 0)%nat then groups
  else addToGroup r (ruleGroupKey r isV6) sources groups.

(** Groups, deny errors and accept errors. *)
Definition groupStep (acc : list (peerRuleKey * peerRuleGroup) * list AclError * list AclError)
    (r : FirewallRule) : list (peerRuleKey * peerRuleGroup) * list AclError * list AclError :=
  let '(groups, denyErrs, acceptErrs) := acc in
  match extractRuleSources r with
  | None =>
      if fr_Action r =? RuleAction_DROP then (groups, denyErrs ++ [ErrDecodeSource], acceptErrs)
      else (groups, denyErrs, acceptErrs ++ [ErrDecodeSource])
  | Some srcs =>
      let '(v4, v6) := splitPrefixesByFamily srcs in
      (foldl (addFamily r) groups [(false, v4); (true, v6)], denyErrs, acceptErrs)
  end.

Definition groupPeerRules (rules : list FirewallRule)
    : list peerRuleGroup * list AclError * list AclError :=
  let '(groups, denyErrs, acceptErrs) := foldl groupStep ([], [], []) rules in
  (groups.*2, denyErrs, acceptErrs).

Definition splitDenyAccept (groups : list peerRuleGroup) : list peerRuleGroup * list peerRuleGroup :=
  (filter (λ g, g_action g = RuleAction_DROP) groups,
   filter (λ g, g_action g ≠ RuleAction_DROP) groups).

(** ** Conversions; [None] is the error *)

Definition ConvertToFirewallProtocol (protocol : Z) : option Protocol :=
  if protocol =? RuleProtocol_TCP then Some ProtocolTCP
  else if protocol =? RuleProtocol_UDP then Some ProtocolUDP
  else if protocol =? RuleProtocol_ICMP then Some ProtocolICMP
  else if protocol =? RuleProtocol_ALL then Some ProtocolALL
  else None.

Definition convertFirewallAction (action : Z) : option Action :=
  if action =? RuleAction_ACCEPT then Some ActionAccept
  else if action =? RuleAction_DROP then Some ActionDrop
  else None.

Definition shouldSkipInvertedRule (protocol : Protocol) (port : option Port) : bool :=
  String.eqb protocol ProtocolALL || String.eqb protocol ProtocolICMP ||
  match port with None => true | Some _ => false end.

Definition convertPortInfo (portInfo : option PortInfo) : option Port :=
  match portInfo with
  | None => None
  | Some pi =>
      if negb (GetPort pi =? 0) then Some {| IsRange := false; Values := [uint 16 (GetPort pi)] |}
      else match GetRange pi with
           | Some r => Some {| IsRange := true; Values := [uint 16 (rng_Start r); uint 16 (rng_End r)] |}
           | None => None
           end
  end.

Definition portInfoEmpty (portInfo : option PortInfo) : bool :=
  match portInfo with
  | None => true
  | Some (PortSingle p) => p =? 0
  | Some (PortRange_ None) => true
  | Some (PortRange_ (Some r)) => (rng_Start r =? 0) || (rng_End r =? 0)
  | Some PortUnset => true
  end.

(** The outer [option] is the error, the inner one the nil port. *)
Definition resolveGroupPort (g : peerRuleGroup) : option (option Port) :=
  if negb (portInfoEmpty (g_port g)) then Some (convertPortInfo (g_port g))
  else if negb (String.eqb (g_legacyPort g) "") then
    match ParseUint 16 (g_legacyPort g) with
    | None => None
    | Some value => Some (Some {| IsRange := false; Values := [uint 16 value] |})
    end
  else Some None.

(** ** Domain sets *)

(** Domains are punycode already. *)
Definition FromPunycodeList (s : list string) : list string := ToLower <$> s.

Section Domains.
Context (sha256 : string → list Z) (ToUnicode : string → option string).

(** [List.String]: the first domain that does not convert is the error. *)
Definition domains_String (d : list string) : option string :=
  String.concat ", " <$> mapM ToUnicode d.

Definition domains_PunycodeString (d : list string) : string := String.concat ", " d.

Definition domains_SafeString (d : list string) : string :=
  default (domains_PunycodeString d) (domains_String d).

Definition NewDomainSet (domains : list string) : Set_ :=
  let domains := sort_by strings_Compare domains in
  {| set_hash := take 4 (sha256 (String.concat "" domains));
     set_comment := domains_SafeString domains |}.

Definition getDefault (prefix : Prefix) : Prefix :=
  if Is6 (prefix_Addr prefix) then PrefixFrom IPv6Unspecified 0
  else PrefixFrom IPv4Unspecified 0.

(** [None] is the error.  The caller has at least one source. *)
Definition determineDestination (rule : RouteFirewallRule) (dynamicResolver : bool)
    (sources : list Prefix) : option Network :=
  let default_net := NetworkOf (getDefault (default PrefixZero (head sources))) in
  if rf_IsDynamic rule then
    if dynamicResolver then
      if (0 <? length (rf_Domains rule))%nat then
        Some {| net_Set := NewDomainSet (FromPunycodeList (rf_Domains rule)); net_Prefix := PrefixZero |}
      else Some default_net
    else Some default_net
  else NetworkOf <$> ParsePrefix (rf_Destination rule).
End Domains.

(** The loop over [SourceRanges]. *)
Fixpoint parseSources (ranges : list string) : option (list Prefix) :=
  match ranges with
  | [] => Some []
  | s :: ranges' =>
      match ParsePrefix s with
      | None => None
      | Some source => (λ out, UnmapPrefix source :: out) <$> parseSources ranges'
      end
  end.

(** ** The firewall the manager drives *)

(** A rule handle: an error, success without a rule, or a rule. *)
Inductive AddResult (R : Type) := AddFailed | AddNil | AddedRule (r : R).
#[global] Arguments AddFailed {R}.
#[global] Arguments AddNil {R}.
#[global] Arguments AddedRule {R} r.

(** The operations of [firewall.Manager] that the ACL manager calls; [false]
    is an error. *)
Class Firewall (FW R : Type) := {
  fw_AddFilterRule : FW → list Z → list Prefix → Network → Protocol → option Port → option Port →
    Action → FW * AddResult R;
  fw_DeleteFilterRule : FW → R → FW * bool;
  fw_IsStateful : FW → bool;
  fw_Flush : FW → FW * bool;
  rule_ID : R → RuleID;
}.

Record DefaultManager (FW R : Type) := {
  d_firewall : option FW;
  d_peerRulesPairs : gmap RuleID (list R);
  d_routeRules : gmap RuleID R;
  d_previousConfigHash : Z;
  d_hasAppliedConfig : bool;
}.
#[global] Arguments d_firewall {FW R} _.
#[global] Arguments d_peerRulesPairs {FW R} _.
#[global] Arguments d_routeRules {FW R} _.
#[global] Arguments d_previousConfigHash {FW R} _.
#[global] Arguments d_hasAppliedConfig {FW R} _.
#[global] Arguments Build_DefaultManager {FW R} _ _ _ _ _.

Definition NewDefaultManager {FW R} (fm : option FW) : DefaultManager FW R :=
  Build_DefaultManager fm ∅ ∅ 0 false.

Section Manager.
Context {MO : MapOrder} {FW R : Type} `{!Firewall FW R}.
Context (sha256 : string → list Z) (ToUnicode : string → option string).

(** The error, nothing to install, or the identifier and the rules. *)
Definition applyPeerGroup (fw : FW) (g : peerRuleGroup) : FW * (AclError + option (RuleID * list R)) :=
  match ConvertToFirewallProtocol (g_protocol g) with
  | None => (fw, inl ErrInvalidProtocol)
  | Some protocol =>
  match convertFirewallAction (g_action g) with
  | None => (fw, inl ErrInvalidAction)
  | Some action =>
  match resolveGroupPort g with
  | None => (fw, inl ErrInvalidPort)
  | Some port =>
      let finish (res : FW * AddResult R) :=
        match res with
        | (fw, AddFailed) => (fw, inl ErrAddRule)
        | (fw, AddNil) => (fw, inl ErrNoRuleReturned)
        | (fw, AddedRule r) => (fw, inr (Some (rule_ID r, [r])))
        end in
      if g_direction g =? RuleDirection_IN then
        finish (fw_AddFilterRule fw (g_policyID g) (g_sources g) NetworkZero protocol None port action)
      else if g_direction g =? RuleDirection_OUT then
        if fw_IsStateful fw then (fw, inr None)
        else if shouldSkipInvertedRule protocol port then (fw, inr None)
        else finish (fw_AddFilterRule fw (g_policyID g) (g_sources g) NetworkZero protocol port None action)
      else (fw, inl ErrInvalidDirection)
  end end end.

(** Delete each rule; the rules the backend refuses to delete remain. *)
Fixpoint deleteRules (fw : FW) (rules : list R) : FW * list R :=
  match rules with
  | [] => (fw, [])
  | rule :: rules' =>
      let '(fw, ok) := fw_DeleteFilterRule fw rule in
      let '(fw, remaining) := deleteRules fw rules' in
      (fw, if (ok : bool) then remaining else rule :: remaining)
  end.

Fixpoint rollbackInstalled (fw : FW) (pairs : gmap RuleID (list R)) (pairIDs : list RuleID)
    : FW * gmap RuleID (list R) :=
  match pairIDs with
  | [] => (fw, pairs)
  | pairID :: pairIDs' =>
      let '(fw, remaining) := deleteRules fw (default [] (pairs !! pairID)) in
      let pairs := if (0 <? length remaining)%nat then <[pairID := remaining]> pairs
                   else delete pairID pairs in
      rollbackInstalled fw pairs pairIDs'
  end.

(** [pairs] is [d.peerRulesPairs], [new] is [newRulePairs]; the errors. *)
Fixpoint installPeerGroups (fw : FW) (pairs new : gmap RuleID (list R)) (groups : list peerRuleGroup)
    (atomic : bool) (freshlyInstalled : list RuleID) (merr : list AclError)
    : FW * gmap RuleID (list R) * gmap RuleID (list R) * list AclError :=
  match groups with
  | [] => (fw, pairs, new, merr)
  | g :: groups' =>
      match applyPeerGroup fw g with
      | (fw, inl err) =>
          if atomic then
            let '(fw, pairs) := rollbackInstalled fw pairs freshlyInstalled in
            (fw, pairs, new, [err])
          else installPeerGroups fw pairs new groups' atomic freshlyInstalled (merr ++ [err])
      | (fw, inr None) => installPeerGroups fw pairs new groups' atomic freshlyInstalled merr
      | (fw, inr (Some (pairID, rulePair))) =>
          let fresh := match pairs !! pairID with
                       | None => freshlyInstalled ++ [pairID]
                       | Some _ => freshlyInstalled
                       end in
          installPeerGroups fw (<[pairID := rulePair]> pairs) (<[pairID := rulePair]> new) groups'
            atomic fresh merr
      end
  end.

(** One old pair that is not wanted any more. *)
Definition teardownPeer (acc : FW * gmap RuleID (list R) * list AclError) (entry : RuleID * list R)
    : FW * gmap RuleID (list R) * list AclError :=
  let '(fw, new, merr) := acc in
  let '(pairID, rules) := entry in
  match new !! pairID with
  | Some _ => acc
  | None =>
      let '(fw, remaining) := deleteRules fw rules in
      (fw, if (0 <? length remaining)%nat then <[pairID := remaining]> new else new,
       merr ++ replicate (length remaining) ErrDeleteRule)
  end.

(** What an old management server means by sending nothing. *)
Definition allowAllRules : list FirewallRule :=
  let rule dir :=
    {| fr_PeerIP := "0.0.0.0"; fr_Direction := dir; fr_Action := RuleAction_ACCEPT;
       fr_Protocol := RuleProtocol_ALL; fr_Port := ""; fr_PortInfo := None; fr_PolicyID := [];
       fr_SourcePrefixes := [] |} in
  [rule RuleDirection_IN; rule RuleDirection_OUT].

Definition effectiveRules (nm : NetworkMap) : list FirewallRule :=
  if (length (nm_FirewallRules nm) =? 0)%nat && negb (nm_FirewallRulesIsEmpty nm)
  then nm_FirewallRules nm ++ allowAllRules
  else nm_FirewallRules nm.

(** The firewall, [d.peerRulesPairs] and the errors. *)
Definition applyPeerACLs (seed : nat) (fw : FW) (pairs : gmap RuleID (list R)) (nm : NetworkMap)
    : FW * gmap RuleID (list R) * list AclError :=
  let '(groups, denyErr, err) := groupPeerRules (effectiveRules nm) in
  if negb (length denyErr =? 0)%nat then (fw, pairs, denyErr)
  else
    let '(denies, accepts) := splitDenyAccept groups in
    let '(fw, pairs, new, derr) := installPeerGroups fw pairs ∅ denies true [] [] in
    if negb (length derr =? 0)%nat then (fw, pairs, derr)
    else
      let '(fw, pairs, new, aerr) := installPeerGroups fw pairs new accepts false [] [] in
      foldl teardownPeer (fw, new, err ++ aerr) (range_list seed pairs).

Definition applyRouteACL (fw : FW) (rule : RouteFirewallRule) (dynamicResolver : bool)
    : FW * (AclError + R) :=
  if (length (rf_SourceRanges rule) =? 0)%nat then (fw, inl ErrSourceRangesEmpty)
  else match parseSources (rf_SourceRanges rule) with
  | None => (fw, inl ErrParseSourceRange)
  | Some sources =>
  match determineDestination sha256 ToUnicode rule dynamicResolver sources with
  | None => (fw, inl ErrParseDestination)
  | Some destination =>
  match ConvertToFirewallProtocol (rf_Protocol rule) with
  | None => (fw, inl ErrInvalidProtocol)
  | Some protocol =>
  match convertFirewallAction (rf_Action rule) with
  | None => (fw, inl ErrInvalidAction)
  | Some action =>
      match fw_AddFilterRule fw (rf_PolicyID rule) sources destination protocol None
              (convertPortInfo (rf_PortInfo rule)) action with
      | (fw, AddFailed) => (fw, inl ErrAddRule)
      | (fw, AddNil) => (fw, inl ErrNoRuleReturned)
      | (fw, AddedRule r) => (fw, inr r)
      end
  end end end end.

Fixpoint installRoutes (fw : FW) (new : gmap RuleID R) (rules : list RouteFirewallRule)
    (dynamicResolver : bool) (merr : list AclError) : FW * gmap RuleID R * list AclError :=
  match rules with
  | [] => (fw, new, merr)
  | rule :: rules' =>
      match applyRouteACL fw rule dynamicResolver with
      | (fw, inl ErrSourceRangesEmpty) => installRoutes fw new rules' dynamicResolver merr
      | (fw, inl err) => installRoutes fw new rules' dynamicResolver (merr ++ [err])
      | (fw, inr r) => installRoutes fw (<[rule_ID r := r]> new) rules' dynamicResolver merr
      end
  end.

Definition teardownRoute (acc : FW * gmap RuleID R * list AclError) (entry : RuleID * R)
    : FW * gmap RuleID R * list AclError :=
  let '(fw, new, merr) := acc in
  let '(ruleID, rule) := entry in
  match new !! ruleID with
  | Some _ => acc
  | None =>
      let '(fw, ok) := fw_DeleteFilterRule fw rule in
      if (ok : bool) then (fw, new, merr) else (fw, <[ruleID := rule]> new, merr ++ [ErrDeleteRule])
  end.

(** The firewall, [d.routeRules] and the errors. *)
Definition applyRouteACLs (seed : nat) (fw : FW) (routes : gmap RuleID R) (rules : list RouteFirewallRule)
    (dynamicResolver : bool) : FW * gmap RuleID R * list AclError :=
  let '(fw, new, merr) := installRoutes fw ∅ rules dynamicResolver [] in
  foldl teardownRoute (fw, new, merr) (range_list seed routes).

(** [hashstructure.Hash] of the fields that matter; [None] is its error. *)
Context (firewallConfigHash : NetworkMap → bool → option Z).

(** [seed1] and [seed2] choose the iteration order of the two teardowns. *)
Definition ApplyFiltering (seed1 seed2 : nat) (d : DefaultManager FW R) (nm : NetworkMap)
    (dnsRouteFeatureFlag : bool) : DefaultManager FW R :=
  match d_firewall d with
  | None => d
  | Some fw =>
      let hash := firewallConfigHash nm dnsRouteFeatureFlag in
      if d_hasAppliedConfig d && bool_decide (hash = Some (d_previousConfigHash d)) then d
      else
        let '(fw, pairs, peerErr) := applyPeerACLs seed1 fw (d_peerRulesPairs d) nm in
        let '(fw, routes, routeErr) :=
          applyRouteACLs seed2 fw (d_routeRules d) (nm_RoutesFirewallRules nm) dnsRouteFeatureFlag in
        let '(fw, flushed) := fw_Flush fw in
        match hash, peerErr, routeErr, flushed with
        | Some h, [], [], true => Build_DefaultManager (Some fw) pairs routes h true
        | _, _, _, _ => Build_DefaultManager (Some fw) pairs routes (d_previousConfigHash d) false
        end
  end.
End Manager.
