(* ===== verification/AclFacts.v ===== *)
(** * What the ACL manager guarantees of any firewall

    [FirewallSpec] states what the manager relies on: an installed rule is
    known by the identifier of its content, an addition of known content
    keeps the rule that is there, a failed call changes nothing.  Against this
    interface: what is installed is what is tracked, an update that reports
    no error installs exactly what the map asks for, and denies are
    all-or-nothing. *)
From S2P Require Import Prelude NetIP Bytes Order NetParse NetipUtil FwTypes RouteRules AclManager.
Open Scope Z_scope.

(** The content of a filter rule, as it is handed to [AddFilterRule]. *)
Record RuleSpec := {
  rs_sources : list Prefix;
  rs_destination : Network;
  rs_proto : Protocol;
  rs_sPort : option Port;
  rs_dPort : option Port;
  rs_action : Action;
}.

(** Sources exist and are well formed, ranges have two ends. *)
Record spec_ok (s : RuleSpec) : Prop := {
  so_sources : rs_sources s ≠ [];
  so_wf : Forall prefix_wf (rs_sources s);
  so_sPort : port_wf (rs_sPort s);
  so_dPort : port_wf (rs_dPort s);
}.

Definition is_peer (s : RuleSpec) : bool := net_IsZero (rs_destination s).

Definition fw_add {FW R} `{!Firewall FW R} (fw : FW) (id : list Z) (s : RuleSpec) : FW * AddResult R :=
  fw_AddFilterRule fw id (rs_sources s) (rs_destination s) (rs_proto s) (rs_sPort s) (rs_dPort s)
    (rs_action s).

Class FirewallSpec (FW R : Type) `{!Firewall FW R} := {
  fw_inv : FW → Prop;
  (** Identifiers of the installed rules. *)
  fw_installed : FW → gset RuleID;
  (** The rule with this identifier filters as this content says. *)
  fw_holds : FW → RuleID → RuleSpec → Prop;
  fw_specID : RuleSpec → RuleID;
  fw_ID_kind s s' : is_peer s ≠ is_peer s' → fw_specID s ≠ fw_specID s';
  fw_add_spec fw id s fw' res :
    fw_inv fw → spec_ok s → fw_add fw id s = (fw', res) →
    fw_inv fw' ∧ fw_IsStateful fw' = fw_IsStateful fw ∧
    (∀ i s', fw_holds fw i s' → fw_holds fw' i s') ∧
    match res with
    | AddedRule r =>
        rule_ID r = fw_specID s ∧ fw_installed fw' = {[fw_specID s]} ∪ fw_installed fw ∧
        (fw_specID s ∉ fw_installed fw → fw_holds fw' (fw_specID s) s)
    | _ => fw_installed fw' = fw_installed fw
    end;
  fw_delete_spec fw r fw' ok :
    fw_inv fw → fw_DeleteFilterRule fw r = (fw', ok) →
    fw_inv fw' ∧ fw_IsStateful fw' = fw_IsStateful fw ∧
    fw_installed fw' = (if ok then fw_installed fw ∖ {[rule_ID r]} else fw_installed fw) ∧
    (∀ i s, i ∈ fw_installed fw' → fw_holds fw i s → fw_holds fw' i s);
  fw_flush_spec fw fw' ok :
    fw_inv fw → fw_Flush fw = (fw', ok) →
    fw_inv fw' ∧ fw_IsStateful fw' = fw_IsStateful fw ∧ fw_installed fw' = fw_installed fw ∧
    (∀ i s, fw_holds fw i s → fw_holds fw' i s);
}.

(** ** Translation, without the firewall *)

(** What a group asks the firewall to install; [None] when there is nothing
    to install on a stateful firewall or in the inverted direction. *)
Definition group_spec (stateful : bool) (g : peerRuleGroup) : AclError + option RuleSpec :=
  match ConvertToFirewallProtocol (g_protocol g) with
  | None => inl ErrInvalidProtocol
  | Some protocol =>
  match convertFirewallAction (g_action g) with
  | None => inl ErrInvalidAction
  | Some action =>
  match resolveGroupPort g with
  | None => inl ErrInvalidPort
  | Some port =>
      let spec sp dp :=
        {| rs_sources := g_sources g; rs_destination := NetworkZero; rs_proto := protocol;
           rs_sPort := sp; rs_dPort := dp; rs_action := action |} in
      if g_direction g =? RuleDirection_IN then inr (Some (spec None port))
      else if g_direction g =? RuleDirection_OUT then
        if stateful || shouldSkipInvertedRule protocol port then inr None
        else inr (Some (spec port None))
      else inl ErrInvalidDirection
  end end end.

(** What a route rule asks for; a rule without sources asks for nothing. *)
Definition route_spec (sha256 : string → list Z) (ToUnicode : string → option string)
    (dynamicResolver : bool) (rule : RouteFirewallRule) : AclError + RuleSpec :=
  if (length (rf_SourceRanges rule) =? 0)%nat then inl ErrSourceRangesEmpty
  else match parseSources (rf_SourceRanges rule) with
  | None => inl ErrParseSourceRange
  | Some sources =>
  match determineDestination sha256 ToUnicode rule dynamicResolver sources with
  | None => inl ErrParseDestination
  | Some destination =>
  match ConvertToFirewallProtocol (rf_Protocol rule) with
  | None => inl ErrInvalidProtocol
  | Some protocol =>
  match convertFirewallAction (rf_Action rule) with
  | None => inl ErrInvalidAction
  | Some action =>
      inr {| rs_sources := sources; rs_destination := destination; rs_proto := protocol;
             rs_sPort := None; rs_dPort := convertPortInfo (rf_PortInfo rule); rs_action := action |}
  end end end end.

Definition some_spec (x : AclError + option RuleSpec) : option RuleSpec :=
  match x with inr o => o | inl _ => None end.

Definition right_spec (x : AclError + RuleSpec) : option RuleSpec :=
  match x with inr s => Some s | inl _ => None end.

(** The peer contents and the route contents a network map asks for. *)
Definition peer_specs (stateful : bool) (nm : NetworkMap) : list RuleSpec :=
  omap (λ g, some_spec (group_spec stateful g)) (groupPeerRules (effectiveRules nm)).1.1.

Definition route_specs (sha256 : string → list Z) (ToUnicode : string → option string)
    (flag : bool) (nm : NetworkMap) : list RuleSpec :=
  omap (λ r, right_spec (route_spec sha256 ToUnicode flag r)) (nm_RoutesFirewallRules nm).

(** The bytes of the sources are bytes, and a domain set is not the zero set,
    which the backends take for a missing destination. *)
Record nm_wf (sha256 : string → list Z) (ToUnicode : string → option string) (flag : bool)
    (nm : NetworkMap) : Prop := {
  nw_bytes : ∀ r raw, r ∈ nm_FirewallRules nm → raw ∈ fr_SourcePrefixes r → bytes raw;
  nw_sets : ∀ s, s ∈ route_specs sha256 ToUnicode flag nm → is_peer s = false;
}.

(** ** Sources are well formed *)

Lemma convertPortInfo_wf pi : port_wf (convertPortInfo pi).
Proof.
  unfold convertPortInfo, port_wf. destruct pi as [pi|]; [|done].
  destruct (negb _); [done|]. destruct (GetRange pi); [simpl; lia|done].
Qed.

Lemma resolveGroupPort_wf g p : resolveGroupPort g = Some p → port_wf p.
Proof.
  unfold resolveGroupPort. intros H. case_match; [simplify_eq; apply convertPortInfo_wf|].
  repeat (case_match; simplify_eq/=); done.
Qed.

Lemma PrefixFrom_Unmap_wf a bits : addr_wf a → prefix_wf (PrefixFrom (Unmap a) bits).
Proof. intros Ha. by apply PrefixFrom_wf, Unmap_wf. Qed.

Lemma decodeSources_wf raws srcs :
  (∀ raw, raw ∈ raws → bytes raw) → decodeSources raws = Some srcs → Forall prefix_wf srcs.
Proof.
  revert srcs. induction raws as [|raw raws IH]; intros srcs Hb; simpl; [by intros [= <-]|].
  destruct (DecodeAddr raw) as [a|] eqn:E; [|done]. intros (out & Hout & ->)%fmap_Some.
  constructor; [|apply IH; [set_solver|done]].
  apply PrefixFrom_Unmap_wf. unfold DecodeAddr in E. apply fmap_Some in E as (p & Hp & ->).
  apply DecodePrefix_wf in Hp as [[? _] _]; [done|]. apply Hb. left.
Qed.

Lemma extractRuleSources_wf r srcs :
  (∀ raw, raw ∈ fr_SourcePrefixes r → bytes raw) → extractRuleSources r = Some srcs →
  Forall prefix_wf srcs.
Proof.
  intros Hb. unfold extractRuleSources. destruct (fr_SourcePrefixes r) as [|raw raws] eqn:E.
  - destruct (ParseAddr _) as [a|] eqn:Ea; [|done]. apply ParseAddr_wf in Ea as [Ha _].
    case_match; intros [= <-]; (constructor; [by apply PrefixFrom_Unmap_wf|done]).
  - by apply decodeSources_wf.
Qed.

Lemma effectiveRules_bytes nm r raw :
  (∀ r raw, r ∈ nm_FirewallRules nm → raw ∈ fr_SourcePrefixes r → bytes raw) →
  r ∈ effectiveRules nm → raw ∈ fr_SourcePrefixes r → bytes raw.
Proof.
  intros Hnm. unfold effectiveRules. case_match; [|apply Hnm]. rewrite elem_of_app. intros [Hr|Hr].
  - by apply Hnm.
  - unfold allowAllRules in Hr. intros Hraw. exfalso.
    rewrite !elem_of_cons, elem_of_nil in Hr.
    destruct Hr as [->|[->|[]]]; by apply elem_of_nil in Hraw.
Qed.

(** Every group has sources, all of them from the rules. *)
Definition groups_wf (groups : list (peerRuleKey * peerRuleGroup)) : Prop :=
  Forall (λ kg, g_sources kg.2 ≠ [] ∧ Forall prefix_wf (g_sources kg.2)) groups.

Lemma addFamily_wf r groups sub :
  groups_wf groups → Forall prefix_wf sub.2 → groups_wf (addFamily r groups sub).
Proof.
  destruct sub as [v6 srcs]. simpl. intros Hg Hs. destruct srcs as [|p srcs]; [done|]. simpl.
  set (key := ruleGroupKey r v6). clearbody key.
  induction groups as [|[k g] groups IH]; simpl.
  - by constructor.
  - apply Forall_cons in Hg as [[Hne Hw] Hg]. destruct (decide (k = key)).
    + constructor; [|done]. simpl. split; [by destruct (g_sources g)|]. by apply Forall_app.
    + constructor; [done|]. by apply IH.
Qed.

Lemma groupPeerRules_wf rules :
  (∀ r raw, r ∈ rules → raw ∈ fr_SourcePrefixes r → bytes raw) →
  ∀ g, g ∈ (groupPeerRules rules).1.1 → g_sources g ≠ [] ∧ Forall prefix_wf (g_sources g).
Proof.
  intros Hb. assert (∀ acc, groups_wf acc.1.1 → groups_wf (foldl groupStep acc rules).1.1) as Hall.
  { induction rules as [|r rules IH]; intros acc Hacc; [done|]. simpl. apply IH; [set_solver|].
    destruct acc as [[groups de] ae]. unfold groupStep. destruct (extractRuleSources r) as [srcs|] eqn:E.
    - assert (Forall prefix_wf srcs) as Hs.
      { eapply extractRuleSources_wf; [|done]. intros raw ?. eapply Hb; [left|done]. }
      unfold splitPrefixesByFamily. cbn [foldl fst].
      apply addFamily_wf; [apply addFamily_wf; [done|]|]; simpl; by apply Forall_filter_keep.
    - by destruct (_ =? _). }
  specialize (Hall ([], [], []) (Forall_nil_2 _)). unfold groupPeerRules.
  destruct (foldl groupStep _ rules) as [[groups de] ae]. simpl in *. intros g Hg.
  apply list_elem_of_fmap in Hg as ([k g'] & -> & Hin).
  unfold groups_wf in Hall. rewrite Forall_forall in Hall. by apply (Hall (k, g')).
Qed.

Lemma group_spec_ok stateful g s :
  g_sources g ≠ [] → Forall prefix_wf (g_sources g) → group_spec stateful g = inr (Some s) →
  spec_ok s ∧ is_peer s = true.
Proof.
  intros Hne Hw. unfold group_spec.
  destruct (ConvertToFirewallProtocol _); [|done]. destruct (convertFirewallAction _); [|done].
  destruct (resolveGroupPort g) as [port|] eqn:Ep; [|done]. apply resolveGroupPort_wf in Ep.
  intros H. repeat (case_match; simplify_eq); by split.
Qed.

Lemma parseSources_wf ranges srcs :
  parseSources ranges = Some srcs → length srcs = length ranges ∧ Forall prefix_wf srcs.
Proof.
  revert srcs. induction ranges as [|s ranges IH]; intros srcs; simpl; [by intros [= <-]|].
  destruct (ParsePrefix s) as [p|] eqn:E; [|done]. intros (out & Hout & ->)%fmap_Some.
  apply ParsePrefix_wf in E as [Hp _]. destruct (IH _ Hout) as [Hl Hf]. simpl. split; [by f_equal|].
  constructor; [by apply UnmapPrefix_wf|done].
Qed.

Lemma route_spec_ok sha tu flag rule s : route_spec sha tu flag rule = inr s → spec_ok s.
Proof.
  unfold route_spec. destruct (Nat.eqb_spec (length (rf_SourceRanges rule)) 0); [done|].
  destruct (parseSources _) as [srcs|] eqn:Es; [|done]. apply parseSources_wf in Es as [Hl Hw].
  intros H. repeat (case_match; simplify_eq). constructor; simpl; try done.
  - intros ->. simpl in *. lia.
  - apply convertPortInfo_wf.
Qed.

(** ** The invariant

    [F] are rules that were installed by others, [reqs] the contents that
    were ever asked for, [TP] and [TR] the identifiers tracked as peer rules
    and as route rules. *)
Section Invariant.
Context {MO : MapOrder} {FW R : Type} `{FS : FirewallSpec FW R}.
Context (sha256 : string → list Z) (ToUnicode : string → option string).
Context (F : gset RuleID) (reqs : list RuleSpec).

Record inv (fw : FW) (TP TR : gset RuleID) : Prop := {
  iv_fw : fw_inv fw;
  iv_peer i : i ∈ TP → ∃ s, is_peer s = true ∧ fw_specID s = i;
  iv_route i : i ∈ TR → ∃ s, is_peer s = false ∧ fw_specID s = i;
  iv_sub : fw_installed fw ⊆ TP ∪ TR ∪ F;
  iv_sup : TP ∪ TR ⊆ fw_installed fw;
  iv_holds i : i ∈ fw_installed fw → i ∈ F ∨ ∃ s, s ∈ reqs ∧ fw_specID s = i ∧ fw_holds fw i s;
}.

Lemma inv_disjoint fw TP TR i : inv fw TP TR → i ∈ TP → i ∈ TR → False.
Proof.
  intros Hi (s & Hs & E)%(iv_peer _ _ _ Hi) (s' & Hs' & E')%(iv_route _ _ _ Hi).
  apply (fw_ID_kind s s'); congruence.
Qed.

(** A successful addition is tracked; a failed one changes nothing. *)
Lemma inv_add fw TP TR id s fw' res :
  inv fw TP TR → spec_ok s → s ∈ reqs → fw_add fw id s = (fw', res) →
  fw_IsStateful fw' = fw_IsStateful fw ∧
  match res with
  | AddedRule r =>
      rule_ID r = fw_specID s ∧ fw_installed fw' = {[fw_specID s]} ∪ fw_installed fw ∧
      (is_peer s = true → inv fw' ({[fw_specID s]} ∪ TP) TR) ∧
      (is_peer s = false → inv fw' TP ({[fw_specID s]} ∪ TR))
  | _ => fw_installed fw' = fw_installed fw ∧ inv fw' TP TR
  end.
Proof.
  intros Hi Hs Hr Ha. destruct (fw_add_spec _ _ _ _ _ (iv_fw _ _ _ Hi) Hs Ha) as (Hinv & Hst & Hh & Hres).
  split; [done|]. destruct Hi as [? Hp Ht Hsub Hsup Hhold].
  assert (∀ x, fw_installed fw' = x → x = fw_installed fw → inv fw' TP TR) as Hsame.
  { intros x Hx1 Hx2. rewrite Hx2 in Hx1. constructor; rewrite ?Hx1; try done.
    intros i [?|(s' & ? & ? & ?)]%Hhold; [by left|right; exists s'; eauto]. }
  destruct res as [| |r]; [split; [done|by eapply Hsame]..|].
  destruct Hres as (Hid & Hin & Hfresh).
  assert (∀ i, i ∈ fw_installed fw' → i ∈ F ∨ ∃ s', s' ∈ reqs ∧ fw_specID s' = i ∧ fw_holds fw' i s')
    as Hhold'.
  { intros i. rewrite Hin, elem_of_union, elem_of_singleton.
    destruct (decide (i ∈ fw_installed fw)) as [[?|(s' & ? & ? & ?)]%Hhold|Hni]; [by left|eauto 10|].
    intros [->|?]; [right; exists s; eauto|done]. }
  clear Hsame Hhold Hh Hfresh. split_and!; [done..| |]; intros Hpeer; constructor; try done.
  - intros i [->%elem_of_singleton|?]%elem_of_union; eauto.
  - rewrite Hin. clear -Hsub. set_solver.
  - rewrite Hin. clear -Hsup. set_solver.
  - intros i [->%elem_of_singleton|?]%elem_of_union; eauto.
  - rewrite Hin. clear -Hsub. set_solver.
  - rewrite Hin. clear -Hsup. set_solver.
Qed.

(** A deleted rule is no longer tracked; a refused deletion changes nothing. *)
Lemma inv_delete fw TP TR r fw' ok :
  inv fw TP TR → fw_DeleteFilterRule fw r = (fw', ok) →
  fw_IsStateful fw' = fw_IsStateful fw ∧
  if ok then
    (rule_ID r ∈ TP → inv fw' (TP ∖ {[rule_ID r]}) TR) ∧
    (rule_ID r ∈ TR → inv fw' TP (TR ∖ {[rule_ID r]}))
  else inv fw' TP TR.
Proof.
  intros Hi Hd. destruct (fw_delete_spec _ _ _ _ (iv_fw _ _ _ Hi) Hd) as (Hinv & Hst & Hin & Hh).
  split; [done|]. pose proof (inv_disjoint _ _ _ (rule_ID r) Hi) as Hdis.
  destruct Hi as [? Hp Ht Hsub Hsup Hhold].
  assert (∀ i, i ∈ fw_installed fw' → i ∈ F ∨ ∃ s, s ∈ reqs ∧ fw_specID s = i ∧ fw_holds fw' i s) as Hhold'.
  { intros i Hi. assert (i ∈ fw_installed fw) as Hi0 by (rewrite Hin in Hi; destruct ok; set_solver).
    destruct (Hhold i Hi0) as [?|(s & ? & ? & ?)]; [by left|right; exists s; eauto]. }
  clear Hhold Hh. destruct ok; [split; intros Hmem|]; constructor; try done.
  - intros i [? _]%elem_of_difference. by apply Hp.
  - rewrite Hin. clear -Hsub. intros i [?%Hsub ?]%elem_of_difference. set_solver.
  - rewrite Hin. clear -Hsup Hdis Hmem. intros i Hi. apply elem_of_difference.
    split; [clear -Hsup Hi; set_solver|]. intros ->%elem_of_singleton. clear -Hi Hdis Hmem. set_solver.
  - intros i [? _]%elem_of_difference. by apply Ht.
  - rewrite Hin. clear -Hsub. intros i [?%Hsub ?]%elem_of_difference. set_solver.
  - rewrite Hin. clear -Hsup Hdis Hmem. intros i Hi. apply elem_of_difference.
    split; [clear -Hsup Hi; set_solver|]. intros ->%elem_of_singleton. clear -Hi Hdis Hmem. set_solver.
  - by rewrite Hin.
  - by rewrite Hin.
Qed.

(** Handles are tracked under their own identifier. *)
Definition pairs_ok (pairs : gmap RuleID (list R)) : Prop :=
  ∀ id rules, pairs !! id = Some rules → ∃ r, rules = [r] ∧ rule_ID r = id.

Lemma pairs_ok_insert pairs r : pairs_ok pairs → pairs_ok (<[rule_ID r := [r]]> pairs).
Proof. intros Hp id rules. rewrite lookup_insert. case_decide; [|apply Hp]. intros [= <-]. eauto. Qed.

(** [delete] of the tracked rules of one identifier. *)
Lemma deleteRules_single fw r fw' rem :
  deleteRules fw [r] = (fw', rem) →
  ∃ ok, fw_DeleteFilterRule fw r = (fw', ok) ∧ rem = if (ok : bool) then [] else [r].
Proof. simpl. destruct (fw_DeleteFilterRule fw r) as [fw1 ok]. intros [= <- <-]. by exists ok. Qed.

Lemma rollback_inv ids fw pairs TR fw' pairs' :
  inv fw (dom pairs) TR → pairs_ok pairs →
  rollbackInstalled fw pairs ids = (fw', pairs') →
  inv fw' (dom pairs') TR ∧ pairs_ok pairs' ∧ dom pairs' ⊆ dom pairs ∧
  dom pairs ⊆ dom pairs' ∪ list_to_set ids ∧ fw_IsStateful fw' = fw_IsStateful fw.
Proof.
  revert fw pairs. induction ids as [|i ids IH]; intros fw pairs Hi Hp; cbn [rollbackInstalled].
  { intros [= <- <-]. split_and!; try done. set_solver. }
  destruct (deleteRules fw (default [] (pairs !! i))) as [fw1 rem] eqn:Ed.
  destruct (pairs !! i) as [rules|] eqn:El.
  - destruct (Hp _ _ El) as (r & -> & Hid). simpl in Ed.
    apply deleteRules_single in Ed as (ok & Hdel & ->).
    destruct (inv_delete _ _ _ _ _ _ Hi Hdel) as [Hst Hok].
    assert (i ∈ dom pairs) as Hdom by (by apply elem_of_dom_2 in El).
    destruct ok; simpl; intros Hroll.
    + destruct Hok as [Hok _]. rewrite Hid in Hok. apply IH in Hroll as (? & ? & Hs1 & Hs2 & ?).
      * rewrite dom_delete_L in Hs1, Hs2. split_and!; try done; [clear -Hs1; set_solver| |congruence].
        clear -Hs2. intros x Hx. destruct (decide (x = i)); set_solver.
      * rewrite dom_delete_L. by apply Hok.
      * intros id rs. rewrite lookup_delete_Some. intros [_ ?]. by apply Hp.
    + rewrite insert_id in Hroll by done. apply IH in Hroll as (? & ? & Hs1 & Hs2 & ?); try done.
      split_and!; try done; [clear -Hs2; set_solver|congruence].
  - simpl in Ed. injection Ed as <- <-. simpl. rewrite delete_id by done. intros Hroll.
    apply IH in Hroll as (? & ? & Hs1 & Hs2 & ?); try done. split_and!; try done. clear -Hs2. set_solver.
Qed.

(** ** Installing peer groups *)

Lemma applyPeerGroup_spec (fw : FW) g :
  applyPeerGroup (R := R) fw g =
  match group_spec (fw_IsStateful fw) g with
  | inl e => (fw, inl e)
  | inr None => (fw, inr None)
  | inr (Some s) =>
      match fw_add fw (g_policyID g) s with
      | (fw, AddFailed) => (fw, inl ErrAddRule)
      | (fw, AddNil) => (fw, inl ErrNoRuleReturned)
      | (fw, AddedRule r) => (fw, inr (Some (rule_ID r, [r])))
      end
  end.
Proof.
  unfold applyPeerGroup, group_spec. destruct (ConvertToFirewallProtocol _); [|done].
  destruct (convertFirewallAction _); [|done]. destruct (resolveGroupPort g); [|done].
  destruct (g_direction g =? RuleDirection_IN); [done|].
  destruct (g_direction g =? RuleDirection_OUT); [|done].
  destruct (fw_IsStateful fw); [done|]. simpl. by destruct (shouldSkipInvertedRule _ _).
Qed.

Definition specs_of (stateful : bool) (groups : list peerRuleGroup) : list RuleSpec :=
  omap (λ g, some_spec (group_spec stateful g)) groups.

Definition ids_of (specs : list RuleSpec) : gset RuleID := list_to_set (fw_specID <$> specs).

Lemma ids_of_nil_union (X : gset RuleID) : ids_of [] ∪ X = X.
Proof. apply union_empty_l_L. Qed.

Lemma ids_of_one s : ids_of [s] = {[fw_specID s]}.
Proof. unfold ids_of. simpl. apply union_empty_r_L. Qed.

Lemma ids_of_groups st g groups :
  ids_of (specs_of st (g :: groups)) = ids_of (specs_of st [g]) ∪ ids_of (specs_of st groups).
Proof.
  unfold specs_of. simpl. destruct (some_spec _); simpl; [|by rewrite ids_of_nil_union].
  rewrite ids_of_one. done.
Qed.

(** The contents of the groups are among the requested ones. *)
Definition groups_ok (stateful : bool) (groups : list peerRuleGroup) : Prop :=
  ∀ g, g ∈ groups → g_sources g ≠ [] ∧ Forall prefix_wf (g_sources g) ∧
  (∀ s, group_spec stateful g = inr (Some s) → s ∈ reqs).

(** What applying one group does. *)
Lemma applyPeerGroup_inv fw TP TR g fw' res :
  inv fw TP TR → groups_ok (fw_IsStateful fw) [g] → applyPeerGroup (R := R) fw g = (fw', res) →
  fw_IsStateful fw' = fw_IsStateful fw ∧
  match res with
  | inr (Some (i, rules)) =>
      ∃ r s, rules = [r] ∧ i = rule_ID r ∧ rule_ID r = fw_specID s ∧
        specs_of (fw_IsStateful fw) [g] = [s] ∧ inv fw' ({[i]} ∪ TP) TR
  | inr None => specs_of (fw_IsStateful fw) [g] = [] ∧ inv fw' TP TR
  | inl _ => inv fw' TP TR
  end.
Proof.
  intros Hi Hg. rewrite applyPeerGroup_spec. destruct (Hg g (list_elem_of_here _ _)) as (Hne & Hw & Hreq).
  unfold specs_of. simpl. destruct (group_spec _ g) as [e|[s|]] eqn:Es; [by intros [= <- <-]| |by intros [= <- <-]].
  destruct (group_spec_ok _ _ _ Hne Hw Es) as [Hok Hpeer]. specialize (Hreq s eq_refl).
  destruct (fw_add fw (g_policyID g) s) as [fw1 ar] eqn:Ea.
  destruct (inv_add _ _ _ _ _ _ _ Hi Hok Hreq Ea) as [Hst Har].
  destruct ar as [| |r]; intros [= <- <-]; [by destruct Har..|].
  destruct Har as (Hid & _ & Hinv & _). split; [done|]. exists r, s. split_and!; try done.
  rewrite Hid. by apply Hinv.
Qed.

Lemma installPeerGroups_inv groups fw pairs new atomic fresh merr TR fw' pairs' new' errs :
  inv fw (dom pairs) TR → pairs_ok pairs → pairs_ok new → dom new ⊆ dom pairs →
  groups_ok (fw_IsStateful fw) groups →
  installPeerGroups (R := R) fw pairs new groups atomic fresh merr = (fw', pairs', new', errs) →
  inv fw' (dom pairs') TR ∧ pairs_ok pairs' ∧ pairs_ok new' ∧ fw_IsStateful fw' = fw_IsStateful fw ∧
  dom pairs ∖ list_to_set fresh ⊆ dom pairs' ∧
  dom pairs' ⊆ dom pairs ∪ ids_of (specs_of (fw_IsStateful fw) groups) ∧
  (atomic = false ∨ errs = [] → dom new' ⊆ dom pairs') ∧
  (errs = [] → merr = [] ∧ dom new' = dom new ∪ ids_of (specs_of (fw_IsStateful fw) groups)).
Proof.
  revert fw pairs new fresh merr. induction groups as [|g groups IH]; intros fw pairs new fresh merr Hi Hp Hn Hnp Hg.
  { intros [= <- <- <- <-]. split_and!; try done; [set_solver..|]. intros ->. split; [done|].
    unfold ids_of. simpl. by rewrite union_empty_r_L. }
  cbn [installPeerGroups]. destruct (applyPeerGroup fw g) as [fw1 res] eqn:Ea.
  assert (Hg1 : groups_ok (fw_IsStateful fw) [g]) by (intros ? ->%list_elem_of_singleton; apply Hg; left).
  destruct (applyPeerGroup_inv _ _ _ _ _ _ Hi Hg1 Ea) as [Hst Hres].
  assert (Hgs : groups_ok (fw_IsStateful fw1) groups) by (rewrite Hst; intros ??; apply Hg; by right).
  rewrite ids_of_groups. destruct res as [e|[[i rules]|]].
  - destruct atomic.
    + destruct (rollbackInstalled fw1 pairs fresh) as [fw2 pairs2] eqn:Er. intros [= <- <- <- <-].
      destruct (rollback_inv _ _ _ _ _ _ Hres Hp Er) as (? & ? & Hs1 & Hs2 & ?).
      split_and!; try done; [congruence|clear -Hs2; set_solver|clear -Hs1; set_solver|naive_solver].
    + intros Hin. apply IH in Hin as (? & ? & ? & Hst' & Hs1 & Hs2 & Hs3 & Hs4); try done.
      rewrite Hst in *. split_and!; try done; [clear -Hs2; set_solver|].
      intros [Habs ?]%Hs4. by destruct merr.
  - destruct Hres as (r & s & -> & Hi' & Hid & Hsp & Hinv). rewrite Hsp.
    rewrite ids_of_one, <- Hid. intros Hin. subst i. apply IH in Hin as (? & ? & ? & Hst' & Hs1 & Hs2 & Hs3 & Hs4); try done.
    + rewrite Hst in *. rewrite dom_insert_L in Hs1, Hs2. split_and!; try done; [..|].
      * intros x [Hx Hf]%elem_of_difference. apply Hs1, elem_of_difference. split; [set_solver|].
        destruct (pairs !! rule_ID r) eqn:El; [done|]. rewrite list_to_set_app_L. simpl.
        apply not_elem_of_dom in El. rewrite union_empty_r_L, elem_of_union, elem_of_singleton.
        intros [?| ->]; done.
      * clear -Hs2. set_solver.
      * intros [? Hd]%Hs4. split; [done|]. rewrite Hd, dom_insert_L. clear. set_solver.
    + by rewrite dom_insert_L.
    + by apply pairs_ok_insert.
    + by apply pairs_ok_insert.
    + rewrite !dom_insert_L. clear -Hnp. set_solver.
  - destruct Hres as [Hnil Hres]. rewrite Hnil. intros Hin.
    apply IH in Hin as (? & ? & ? & Hst' & Hs1 & Hs2 & Hs3 & Hs4); try done.
    rewrite Hst in *. rewrite !ids_of_nil_union. by split_and!.
Qed.

(** ** Tearing down *)

(** The identifiers of the entries a loop still has to visit. *)
Definition keys {A} (l : list (RuleID * A)) : gset RuleID := list_to_set l.*1.

Lemma keys_range {A} seed (m : gmap RuleID A) : keys (range_list seed m) = dom m.
Proof.
  apply set_eq. intros i. unfold keys. rewrite elem_of_list_to_set, list_elem_of_fmap, elem_of_dom. split.
  - intros ([k x] & -> & Hin%elem_of_range_list). by exists x.
  - intros [x Hx]. exists (i, x). split; [done|]. by apply elem_of_range_list.
Qed.

(** Bookkeeping of one step: the visited identifier was dropped, or it is
    among the new ones. *)
Lemma visited_dropped (N K : gset RuleID) i :
  i ∉ N → i ∉ K → (N ∪ ({[i]} ∪ K)) ∖ {[i]} = N ∪ K.
Proof. set_solver. Qed.

Lemma visited_kept (N K : gset RuleID) i : i ∈ N → N ∪ ({[i]} ∪ K) = N ∪ K.
Proof. set_solver. Qed.

Lemma visited_moved (N K : gset RuleID) i : N ∪ ({[i]} ∪ K) = ({[i]} ∪ N) ∪ K.
Proof. set_solver. Qed.

Lemma teardownPeer_inv l fw new merr TR fw' new' errs :
  NoDup l.*1 → (∀ i rules, (i, rules) ∈ l → ∃ r, rules = [r] ∧ rule_ID r = i) →
  inv fw (dom new ∪ keys l) TR → pairs_ok new →
  foldl teardownPeer (fw, new, merr) l = (fw', new', errs) →
  inv fw' (dom new') TR ∧ pairs_ok new' ∧ dom new ⊆ dom new' ∧
  fw_IsStateful fw' = fw_IsStateful fw ∧ (errs = [] → merr = [] ∧ new' = new).
Proof.
  revert fw new merr. induction l as [|[i rules] l IH]; intros fw new merr Hnd Hl Hi Hn; simpl.
  { intros [= <- <- <-]. unfold keys in Hi. simpl in Hi. rewrite union_empty_r_L in Hi. by split_and!. }
  apply NoDup_cons in Hnd as [Hni Hnd].
  assert (Hl' : ∀ i rules, (i, rules) ∈ l → ∃ r, rules = [r] ∧ rule_ID r = i) by (intros ???; apply Hl; by right).
  assert (Hk : keys ((i, rules) :: l) = {[i]} ∪ keys l) by done. rewrite Hk in Hi.
  destruct (new !! i) as [x|] eqn:El.
  { apply IH; try done. rewrite visited_kept in Hi; [done|]. by apply elem_of_dom_2 in El. }
  apply not_elem_of_dom in El. destruct (Hl i rules (list_elem_of_here _ _)) as (r & -> & Hid).
  assert (Hki : i ∉ keys l) by (unfold keys; by rewrite elem_of_list_to_set).
  destruct (deleteRules fw [r]) as [fw1 rem] eqn:Ed. apply deleteRules_single in Ed as (ok & Hdel & ->).
  destruct (inv_delete _ _ _ _ _ _ Hi Hdel) as [Hst Hok]. destruct ok; simpl.
  - destruct Hok as [Hok _]. rewrite Hid, visited_dropped in Hok by done.
    intros Hf. apply IH in Hf as (? & ? & ? & Hst' & He); try done; [|apply Hok; clear; set_solver].
    rewrite app_nil_r in He. split_and!; try done. congruence.
  - intros Hf. rewrite visited_moved in Hi, Hok.
    apply IH in Hf as (? & ? & Hsub & Hst' & He); try done.
    + rewrite dom_insert_L in Hsub. split_and!; try done; [clear -Hsub; set_solver|congruence|].
      intros [Habs ?]%He. by destruct merr.
    + by rewrite dom_insert_L.
    + rewrite <- Hid. by apply pairs_ok_insert.
Qed.

Definition routes_ok (routes : gmap RuleID R) : Prop :=
  ∀ id r, routes !! id = Some r → rule_ID r = id.

Lemma routes_ok_insert routes r : routes_ok routes → routes_ok (<[rule_ID r := r]> routes).
Proof. intros Hp id r'. rewrite lookup_insert. case_decide; [|apply Hp]. by intros [= <-]. Qed.

Lemma teardownRoute_inv l fw new merr TP fw' new' errs :
  NoDup l.*1 → (∀ i r, (i, r) ∈ l → rule_ID r = i) →
  inv fw TP (dom new ∪ keys l) → routes_ok new →
  foldl teardownRoute (fw, new, merr) l = (fw', new', errs) →
  inv fw' TP (dom new') ∧ routes_ok new' ∧ dom new ⊆ dom new' ∧
  fw_IsStateful fw' = fw_IsStateful fw ∧ (errs = [] → merr = [] ∧ new' = new).
Proof.
  revert fw new merr. induction l as [|[i r] l IH]; intros fw new merr Hnd Hl Hi Hn; simpl.
  { intros [= <- <- <-]. unfold keys in Hi. simpl in Hi. rewrite union_empty_r_L in Hi. by split_and!. }
  apply NoDup_cons in Hnd as [Hni Hnd].
  assert (Hl' : ∀ i r, (i, r) ∈ l → rule_ID r = i) by (intros ???; apply Hl; by right).
  assert (Hk : keys ((i, r) :: l) = {[i]} ∪ keys l) by done. rewrite Hk in Hi.
  destruct (new !! i) as [x|] eqn:El.
  { apply IH; try done. rewrite visited_kept in Hi; [done|]. by apply elem_of_dom_2 in El. }
  apply not_elem_of_dom in El. pose proof (Hl i r (list_elem_of_here _ _)) as Hid.
  assert (Hki : i ∉ keys l) by (unfold keys; by rewrite elem_of_list_to_set).
  destruct (fw_DeleteFilterRule fw r) as [fw1 ok] eqn:Hdel.
  destruct (inv_delete _ _ _ _ _ _ Hi Hdel) as [Hst Hok]. destruct ok; simpl.
  - destruct Hok as [_ Hok]. rewrite Hid, visited_dropped in Hok by done.
    intros Hf. apply IH in Hf as (? & ? & ? & Hst' & He); try done; [|apply Hok; clear; set_solver].
    split_and!; try done. congruence.
  - intros Hf. rewrite visited_moved in Hi, Hok.
    apply IH in Hf as (? & ? & Hsub & Hst' & He); try done.
    + rewrite dom_insert_L in Hsub. split_and!; try done; [clear -Hsub; set_solver|congruence|].
      intros [Habs ?]%He. by destruct merr.
    + by rewrite dom_insert_L.
    + rewrite <- Hid. by apply routes_ok_insert.
Qed.

(** ** One pass over the peer rules *)

Lemma elem_of_specs_of st groups s :
  s ∈ specs_of st groups ↔ ∃ g, g ∈ groups ∧ group_spec st g = inr (Some s).
Proof.
  unfold specs_of. rewrite list_elem_of_omap.
  split; intros (g & Hg & Hs); exists g; (split; [done|]); destruct (group_spec st g) as [|[]]; naive_solver.
Qed.

Lemma ids_of_split st groups :
  ids_of (specs_of st (splitDenyAccept groups).1) ∪ ids_of (specs_of st (splitDenyAccept groups).2) =
  ids_of (specs_of st groups).
Proof.
  apply set_eq. intros i. unfold ids_of.
  rewrite elem_of_union, !elem_of_list_to_set, !list_elem_of_fmap.
  setoid_rewrite elem_of_specs_of. simpl. setoid_rewrite list_elem_of_filter. split.
  - naive_solver.
  - intros (s & -> & g & Hg & Hs). destruct (decide (g_action g = RuleAction_DROP)); [left|right]; eauto 10.
Qed.

Lemma groups_ok_map st nm groups :
  (∀ r raw, r ∈ nm_FirewallRules nm → raw ∈ fr_SourcePrefixes r → bytes raw) →
  (∀ s, s ∈ peer_specs st nm → s ∈ reqs) →
  groups ⊆ (groupPeerRules (effectiveRules nm)).1.1 → groups_ok st groups.
Proof.
  intros Hb Hreq Hsub g Hg%Hsub.
  destruct (groupPeerRules_wf (effectiveRules nm)) with (g := g) as [? ?]; [|done|].
  { intros r raw. by apply effectiveRules_bytes. }
  split_and!; [done..|]. intros s Hs. apply Hreq. unfold peer_specs.
  apply (elem_of_specs_of st). eauto.
Qed.

Lemma split_sub groups : (splitDenyAccept groups).1 ⊆ groups ∧ (splitDenyAccept groups).2 ⊆ groups.
Proof. split; intros g [_ ?]%list_elem_of_filter; done. Qed.

Lemma applyPeerACLs_inv seed fw pairs nm TR fw' pairs' errs :
  inv fw (dom pairs) TR → pairs_ok pairs →
  (∀ r raw, r ∈ nm_FirewallRules nm → raw ∈ fr_SourcePrefixes r → bytes raw) →
  (∀ s, s ∈ peer_specs (fw_IsStateful fw) nm → s ∈ reqs) →
  applyPeerACLs (R := R) seed fw pairs nm = (fw', pairs', errs) →
  inv fw' (dom pairs') TR ∧ pairs_ok pairs' ∧ fw_IsStateful fw' = fw_IsStateful fw ∧
  (errs = [] → dom pairs' = ids_of (peer_specs (fw_IsStateful fw) nm)).
Proof.
  intros Hi Hp Hb Hreq. unfold applyPeerACLs, peer_specs.
  pose proof (λ gs, groups_ok_map (fw_IsStateful fw) nm gs Hb Hreq) as Hgok.
  destruct (groupPeerRules (effectiveRules nm)) as [[groups de] ae] eqn:Eg. cbn [fst snd] in Hgok |- *.
  fold (specs_of (fw_IsStateful fw) groups).
  destruct (split_sub groups) as [Hs1 Hs2]. pose proof (ids_of_split (fw_IsStateful fw) groups) as Hids.
  destruct (splitDenyAccept groups) as [denies accepts]. cbn [fst snd] in Hs1, Hs2, Hids.
  destruct de as [|e de]; simpl; [|by intros [= <- <- <-]].
  destruct (installPeerGroups fw pairs ∅ denies true [] []) as [[[fw1 pairs1] new1] derr] eqn:E1.
  apply installPeerGroups_inv with (TR := TR) in E1 as (Hi1 & Hp1 & Hn1 & Hst1 & _ & _ & Hnp1 & He1); try done.
  2: { by apply Hgok. }
  destruct derr as [|e derr]; simpl; [|by intros [= <- <- <-]].
  destruct (installPeerGroups fw1 pairs1 new1 accepts false [] []) as [[[fw2 pairs2] new2] aerr] eqn:E2.
  apply installPeerGroups_inv with (TR := TR) in E2 as (Hi2 & Hp2 & Hn2 & Hst2 & _ & _ & Hnp2 & He2); try done.
  2: { apply Hnp1. by right. }
  2: { rewrite Hst1. by apply Hgok. }
  intros Ht. apply teardownPeer_inv with (TR := TR) in Ht as (Hi3 & Hp3 & _ & Hst3 & He3); try done.
  - split_and!; [done..|congruence|]. intros [Hnil ->]%He3. apply app_eq_nil in Hnil as [-> ->].
    destruct (He1 eq_refl) as [_ Hd1]. destruct (He2 eq_refl) as [_ Hd2].
    rewrite Hd2, Hd1, dom_empty_L, union_empty_l_L, Hst1. exact Hids.
  - apply NoDup_fst_range_list.
  - intros i rules Hin%elem_of_range_list. by apply Hp2.
  - rewrite keys_range. assert (dom new2 ∪ dom pairs2 = dom pairs2) as ->; [|done].
    apply subseteq_union_1_L, Hnp2. by left.
Qed.

(** ** One pass over the route rules *)

Lemma applyRouteACL_spec (fw : FW) rule flag :
  applyRouteACL (R := R) sha256 ToUnicode fw rule flag =
  match route_spec sha256 ToUnicode flag rule with
  | inl e => (fw, inl e)
  | inr s =>
      match fw_add fw (rf_PolicyID rule) s with
      | (fw, AddFailed) => (fw, inl ErrAddRule)
      | (fw, AddNil) => (fw, inl ErrNoRuleReturned)
      | (fw, AddedRule r) => (fw, inr r)
      end
  end.
Proof.
  unfold applyRouteACL, route_spec. destruct (_ =? _)%nat; [done|]. destruct (parseSources _); [|done].
  destruct (determineDestination _ _ _ _ _); [|done]. destruct (ConvertToFirewallProtocol _); [|done].
  by destruct (convertFirewallAction _).
Qed.

Definition rspecs_of (flag : bool) (rules : list RouteFirewallRule) : list RuleSpec :=
  omap (λ r, right_spec (route_spec sha256 ToUnicode flag r)) rules.

Lemma installRoutes_inv rules fw new flag merr TP TR fw' new' errs :
  inv fw TP (dom new ∪ TR) → routes_ok new →
  (∀ s, s ∈ rspecs_of flag rules → s ∈ reqs ∧ is_peer s = false) →
  installRoutes (R := R) sha256 ToUnicode fw new rules flag merr = (fw', new', errs) →
  inv fw' TP (dom new' ∪ TR) ∧ routes_ok new' ∧ fw_IsStateful fw' = fw_IsStateful fw ∧
  (errs = [] → merr = [] ∧ dom new' = dom new ∪ ids_of (rspecs_of flag rules)).
Proof.
  revert fw new merr. induction rules as [|rule rules IH]; intros fw new merr Hi Hn Hreq.
  { intros [= <- <- <-]. split_and!; try done. intros ->. split; [done|]. unfold ids_of. simpl.
    by rewrite union_empty_r_L. }
  cbn [installRoutes]. rewrite applyRouteACL_spec. unfold rspecs_of in *. simpl in Hreq |- *.
  destruct (route_spec sha256 ToUnicode flag rule) as [e|s] eqn:Es; simpl in Hreq |- *.
  { assert (∀ merr, installRoutes (R := R) sha256 ToUnicode fw new rules flag (merr ++ [e]) = (fw', new', errs) →
      inv fw' TP (dom new' ∪ TR) ∧ routes_ok new' ∧ fw_IsStateful fw' = fw_IsStateful fw ∧
      (errs = [] → merr = [] ∧ dom new' = dom new ∪ ids_of (rspecs_of flag rules))) as Herr.
    { intros merr' Hin. apply IH in Hin as (? & ? & ? & He); try done. split_and!; try done.
      intros [Habs ?]%He. by destruct merr'. }
    destruct e; auto. }
  destruct (Hreq s (list_elem_of_here _ _)) as [Hs Hk].
  assert (Hreq' : ∀ s, s ∈ omap (λ r, right_spec (route_spec sha256 ToUnicode flag r)) rules →
            s ∈ reqs ∧ is_peer s = false) by (intros ??; apply Hreq; by right).
  destruct (fw_add fw (rf_PolicyID rule) s) as [fw1 ar] eqn:Ea.
  destruct (inv_add _ _ _ _ _ _ _ Hi (route_spec_ok _ _ _ _ _ Es) Hs Ea) as [Hst Har].
  destruct ar as [| |r].
  1, 2: destruct Har as [_ Har]; intros Hin; apply IH in Hin as (? & ? & ? & He); try done;
    split_and!; try done; [congruence|]; intros [Habs ?]%He; by destruct merr.
  destruct Har as (Hid & _ & _ & Hinv). intros Hin. apply IH in Hin as (? & ? & ? & He); try done.
  - split_and!; try done; [congruence|]. intros [? Hd]%He. split; [done|].
    rewrite Hd, dom_insert_L. unfold ids_of. simpl. rewrite Hid. clear. set_solver.
  - rewrite dom_insert_L, Hid, <- union_assoc_L. by apply Hinv.
  - by apply routes_ok_insert.
Qed.

Lemma applyRouteACLs_inv seed fw routes rules flag TP fw' routes' errs :
  inv fw TP (dom routes) → routes_ok routes →
  (∀ s, s ∈ rspecs_of flag rules → s ∈ reqs ∧ is_peer s = false) →
  applyRouteACLs (R := R) sha256 ToUnicode seed fw routes rules flag = (fw', routes', errs) →
  inv fw' TP (dom routes') ∧ routes_ok routes' ∧ fw_IsStateful fw' = fw_IsStateful fw ∧
  (errs = [] → dom routes' = ids_of (rspecs_of flag rules)).
Proof.
  intros Hi Hr Hreq. unfold applyRouteACLs.
  destruct (installRoutes sha256 ToUnicode fw ∅ rules flag []) as [[fw1 new1] merr] eqn:E1.
  apply installRoutes_inv with (TP := TP) (TR := (dom routes : gset RuleID)) in E1 as (Hi1 & Hn1 & Hst1 & He1); try done.
  2: { by rewrite dom_empty_L, union_empty_l_L. }
  intros Ht. apply teardownRoute_inv with (TP := TP) in Ht as (Hi2 & Hn2 & _ & Hst2 & He2); try done.
  - split_and!; [done..|congruence|]. intros [Hnil ->]%He2. apply He1 in Hnil as [_ Hd].
    by rewrite Hd, dom_empty_L, union_empty_l_L.
  - apply NoDup_fst_range_list.
  - intros i r Hin%elem_of_range_list. by apply Hr.
  - by rewrite keys_range.
Qed.
End Invariant.
