(* ===== verification/AclRun.v ===== *)
(** * Runs of the ACL manager

    Updates arrive one after the other; whatever they contain and whatever
    the backend refuses, the manager keeps track of what it installed, an
    update without errors installs exactly what it asks for, and denies are
    all-or-nothing. *)
From S2P Require Import Prelude NetIP Bytes Order NetParse NetipUtil FwTypes RouteRules AclManager.
From S2P Require Import AclFacts.
Open Scope Z_scope.

(** One call of [ApplyFiltering]: the map, the DNS feature flag, and the
    iteration orders of the two teardowns. *)
Record Update := { u_nm : NetworkMap; u_flag : bool; u_seed1 : nat; u_seed2 : nat }.

Section Runs.
Context {MO : MapOrder} {FW R : Type} `{FS : FirewallSpec FW R}.
Context (sha256 : string → list Z) (ToUnicode : string → option string).
Context (firewallConfigHash : NetworkMap → bool → option Z).

Definition apply_update (d : DefaultManager FW R) (u : Update) : DefaultManager FW R :=
  ApplyFiltering sha256 ToUnicode firewallConfigHash (u_seed1 u) (u_seed2 u) d (u_nm u) (u_flag u).

Definition acl_run (d : DefaultManager FW R) (us : list Update) : DefaultManager FW R :=
  foldl apply_update d us.

Definition tracked (d : DefaultManager FW R) : gset RuleID :=
  dom (d_peerRulesPairs d) ∪ dom (d_routeRules d).

(** The contents an update asks for. *)
Definition requested (stateful : bool) (u : Update) : list RuleSpec :=
  peer_specs stateful (u_nm u) ++ route_specs sha256 ToUnicode (u_flag u) (u_nm u).

Definition all_requested (stateful : bool) (us : list Update) : list RuleSpec :=
  us ≫= requested stateful.

Definition update_wf (u : Update) : Prop := nm_wf sha256 ToUnicode (u_flag u) (u_nm u).

(** The tracked rules are exactly the ones [u] asks for. *)
Definition reflects (stateful : bool) (d : DefaultManager FW R) (u : Update) : Prop :=
  dom (d_peerRulesPairs d) = ids_of (peer_specs stateful (u_nm u)) ∧
  dom (d_routeRules d) = ids_of (route_specs sha256 ToUnicode (u_flag u) (u_nm u)).

Section Invariant.
Context (F : gset RuleID) (stateful : bool) (us : list Update).

Record mgr_inv (d : DefaultManager FW R) : Prop := {
  mi_inv : ∃ fw, d_firewall d = Some fw ∧ fw_IsStateful fw = stateful ∧
    inv F (all_requested stateful us) fw (dom (d_peerRulesPairs d)) (dom (d_routeRules d));
  mi_pairs : pairs_ok (d_peerRulesPairs d);
  mi_routes : routes_ok (d_routeRules d);
  mi_applied : d_hasAppliedConfig d = true →
    ∃ u, u ∈ us ∧ firewallConfigHash (u_nm u) (u_flag u) = Some (d_previousConfigHash d) ∧
      reflects stateful d u;
}.

Lemma requested_all u s : u ∈ us → s ∈ requested stateful u → s ∈ all_requested stateful us.
Proof. intros Hu Hs. apply list_elem_of_bind. eauto. Qed.

(** What one update does to a manager that is in order. *)
Lemma apply_update_inv d u :
  mgr_inv d → u ∈ us → update_wf u →
  mgr_inv (apply_update d u) ∧
  (d_hasAppliedConfig (apply_update d u) = true →
   firewallConfigHash (u_nm u) (u_flag u) = Some (d_previousConfigHash (apply_update d u)) ∧
   (d_hasAppliedConfig d = false → reflects stateful (apply_update d u) u)).
Proof.
  intros Hm Hu [Hb Hset]. pose proof Hm as [(fw & Hfw & Hst & Hi) Hp Hr Ha].
  unfold apply_update, ApplyFiltering. rewrite Hfw.
  destruct (d_hasAppliedConfig d && _) eqn:Eskip.
  { bools. destruct Eskip as [-> ?]. by split. }
  clear Eskip.
  destruct (applyPeerACLs (u_seed1 u) fw (d_peerRulesPairs d) (u_nm u)) as [[fw1 pairs] perr] eqn:E1.
  eapply applyPeerACLs_inv in E1 as (Hi1 & Hp1 & Hst1 & He1); try done.
  2: { intros s Hs. rewrite Hst in Hs. eapply requested_all; [done|]. apply elem_of_app. by left. }
  destruct (applyRouteACLs sha256 ToUnicode (u_seed2 u) fw1 (d_routeRules d)
              (nm_RoutesFirewallRules (u_nm u)) (u_flag u)) as [[fw2 routes] rerr] eqn:E2.
  eapply applyRouteACLs_inv in E2 as (Hi2 & Hr2 & Hst2 & He2); try done.
  2: { intros s Hs. split; [|by apply Hset]. eapply requested_all; [done|]. apply elem_of_app. by right. }
  destruct (fw_Flush fw2) as [fw3 flushed] eqn:E3.
  destruct (fw_flush_spec _ _ _ (iv_fw _ _ _ _ _ Hi2) E3) as (Hinv3 & Hst3 & Hin3 & Hh3).
  assert (inv F (all_requested stateful us) fw3 (dom pairs) (dom routes)) as Hi3.
  { destruct Hi2 as [? ? ? ? ? Hh]. constructor; rewrite ?Hin3; try done.
    intros i [?|(s & ? & ? & ?)]%Hh; [by left|]. right. exists s. auto. }
  assert (∀ h b, b = false ∨ (firewallConfigHash (u_nm u) (u_flag u) = Some h ∧ perr = [] ∧ rerr = []) →
    let d' := Build_DefaultManager (Some fw3) pairs routes h b in
    mgr_inv d' ∧ (b = true → firewallConfigHash (u_nm u) (u_flag u) = Some h ∧
                  (d_hasAppliedConfig d = false → reflects stateful d' u))) as Hgo.
  { intros h b Hb' d'.
    assert (b = true → firewallConfigHash (u_nm u) (u_flag u) = Some h ∧ reflects stateful d' u) as Href.
    { intros ->. destruct Hb' as [?|(Hh & -> & ->)]; [done|]. split; [done|].
      split; simpl; [rewrite He1 by done; by rewrite Hst|by apply He2]. }
    split; [|intros [??]%Href; by split]. constructor; simpl; try done.
    - exists fw3. split_and!; [done|congruence|done].
    - intros [? ?]%Href. eauto. }
  destruct (firewallConfigHash _ _); destruct perr; destruct rerr; destruct flushed; apply Hgo; auto.
Qed.

Lemma acl_run_inv d us' :
  mgr_inv d → us' ⊆ us → Forall update_wf us' → mgr_inv (acl_run d us').
Proof.
  revert d. induction us' as [|u us' IH]; intros d Hd Hsub Hw; [done|]. simpl.
  apply Forall_cons in Hw as [Hu Hw]. apply IH; [|set_solver|done].
  apply apply_update_inv; [done|set_solver|done].
Qed.
End Invariant.

Lemma NewDefaultManager_inv fw0 us :
  fw_inv fw0 → mgr_inv (fw_installed fw0) (fw_IsStateful fw0) us (NewDefaultManager (Some fw0)).
Proof.
  intros Hinv. constructor; simpl; try done.
  exists fw0. split_and!; [done..|]. constructor; try done; [set_solver..|]. intros i Hi. by left.
Qed.

Lemma run_inv fw0 us :
  fw_inv fw0 → Forall update_wf us →
  mgr_inv (fw_installed fw0) (fw_IsStateful fw0) us (acl_run (NewDefaultManager (Some fw0)) us).
Proof. intros Hf Hw. apply acl_run_inv; [by apply NewDefaultManager_inv|done|done]. Qed.

(** C14. Whatever updates arrive and whatever the backend refuses, the
    rules of the firewall are the ones the manager tracks and the ones that
    were there before it: nothing leaks and nothing tracked is missing.  Every
    rule it installed filters as some update asked. *)
Theorem acl_no_leak (fw0 : FW) us :
  fw_inv fw0 → Forall update_wf us →
  let d := acl_run (NewDefaultManager (Some fw0)) us in
  ∃ fw, d_firewall d = Some fw ∧
    fw_installed fw ⊆ tracked d ∪ fw_installed fw0 ∧ tracked d ⊆ fw_installed fw ∧
    ∀ i, i ∈ fw_installed fw → i ∉ fw_installed fw0 →
      ∃ s, s ∈ all_requested (fw_IsStateful fw0) us ∧ fw_specID s = i ∧ fw_holds fw i s.
Proof.
  intros Hf Hw d. destruct (run_inv fw0 us Hf Hw) as [(fw & Hfw & _ & [_ _ _ Hsub Hsup Hh]) _ _ _].
  exists fw. split_and!; try done. intros i Hi Hn. by destruct (Hh i Hi).
Qed.

Lemma refines_map (fw0 : FW) us u :
  fw_inv fw0 → Forall update_wf (us ++ [u]) →
  let st := fw_IsStateful fw0 in
  let d0 := acl_run (NewDefaultManager (Some fw0)) us in
  let d := apply_update d0 u in
  d_hasAppliedConfig d = true →
  ∃ fw v, d_firewall d = Some fw ∧ v ∈ us ++ [u] ∧
    firewallConfigHash (u_nm v) (u_flag v) = firewallConfigHash (u_nm u) (u_flag u) ∧
    (d_hasAppliedConfig d0 = false → v = u) ∧
    ids_of (requested st v) ⊆ fw_installed fw ∧
    fw_installed fw ⊆ ids_of (requested st v) ∪ fw_installed fw0 ∧
    (∀ s, s ∈ requested st v → fw_specID s ∉ fw_installed fw0 →
      ∃ s', s' ∈ all_requested st (us ++ [u]) ∧ fw_specID s' = fw_specID s ∧ fw_holds fw (fw_specID s) s') ∧
    fw_inv fw.
Proof.
  intros Hf Hw st d0 d Happ. apply Forall_app in Hw as [Hw [Hu _]%Forall_cons].
  assert (Hd0 : mgr_inv (fw_installed fw0) st (us ++ [u]) d0).
  { apply acl_run_inv; [by apply NewDefaultManager_inv|set_solver|done]. }
  assert (Hu' : u ∈ us ++ [u]) by set_solver.
  destruct (apply_update_inv _ _ _ _ _ Hd0 Hu' Hu) as [Hd Happ']. destruct (Happ' Happ) as [Hhash Hlast].
  fold d in Hd, Hhash, Hlast.
  assert (∃ v, v ∈ us ++ [u] ∧ firewallConfigHash (u_nm v) (u_flag v) = Some (d_previousConfigHash d) ∧
    (d_hasAppliedConfig d0 = false → v = u) ∧ reflects st d v) as (v & Hv & Hhv & Hvu & Href1 & Href2).
  { destruct (d_hasAppliedConfig d0) eqn:E0; [|exists u; split_and!; by try apply Hlast].
    destruct (mi_applied _ _ _ _ Hd Happ) as (v & ? & ? & ?). by exists v. }
  destruct (mi_inv _ _ _ _ Hd) as (fw & Hfw & _ & [Hinv _ _ Hsub Hsup Hh]).
  assert (Hids : ids_of (requested st v) = dom (d_peerRulesPairs d) ∪ dom (d_routeRules d)).
  { rewrite Href1, Href2. unfold ids_of, requested. by rewrite fmap_app, list_to_set_app_L. }
  exists fw, v. split_and!; try done.
  - congruence.
  - by rewrite Hids.
  - by rewrite Hids.
  - intros s Hs Hn. destruct (Hh (fw_specID s)) as [?|Hex]; [|done|done].
    apply Hsup. rewrite <- Hids. unfold ids_of. apply elem_of_list_to_set, list_elem_of_fmap. eauto.
Qed.

(** C13. Refinement: when the manager reports its configuration as
    applied, the firewall holds exactly the rules that an update with the
    recorded hash asks for, besides those that were there before, each with a
    content that was asked for under its identifier; and after an update that
    was not skipped that update is the last one. *)
Theorem acl_refines_map (fw0 : FW) us u :
  fw_inv fw0 → Forall update_wf (us ++ [u]) →
  let st := fw_IsStateful fw0 in
  let d0 := acl_run (NewDefaultManager (Some fw0)) us in
  let d := apply_update d0 u in
  d_hasAppliedConfig d = true →
  ∃ fw v, d_firewall d = Some fw ∧ v ∈ us ++ [u] ∧
    firewallConfigHash (u_nm v) (u_flag v) = firewallConfigHash (u_nm u) (u_flag u) ∧
    (d_hasAppliedConfig d0 = false → v = u) ∧
    ids_of (requested st v) ⊆ fw_installed fw ∧
    fw_installed fw ⊆ ids_of (requested st v) ∪ fw_installed fw0 ∧
    ∀ s, s ∈ requested st v → fw_specID s ∉ fw_installed fw0 →
      ∃ s', s' ∈ all_requested st (us ++ [u]) ∧ fw_specID s' = fw_specID s ∧ fw_holds fw (fw_specID s) s'.
Proof.
  intros Hf Hw st d0 d Happ. destruct (refines_map fw0 us u Hf Hw Happ) as (fw & v & H). exists fw, v. tauto.
Qed.

(** ** Denies are all-or-nothing *)

(** The errors that stop the pass over the peer rules. *)
Definition deny_errors (fw : FW) (pairs : gmap RuleID (list R)) (nm : NetworkMap) : list AclError :=
  let '(groups, denyErr, _) := groupPeerRules (effectiveRules nm) in
  if negb (length denyErr =? 0)%nat then denyErr
  else (installPeerGroups fw pairs ∅ (splitDenyAccept groups).1 true [] []).2.

(** A backend that deletes whatever it is told to. *)
Definition deletes_all : Prop := ∀ (fw : FW) (r : R), (fw_DeleteFilterRule fw r).2 = true.

Lemma rollback_all ids fw pairs fw' pairs' :
  deletes_all → pairs_ok pairs → rollbackInstalled fw pairs ids = (fw', pairs') →
  dom pairs' = dom pairs ∖ list_to_set ids.
Proof.
  intros Hdel. revert fw pairs. induction ids as [|i ids IH]; intros fw pairs Hp; simpl.
  { intros [= _ <-]. by rewrite difference_empty_L. }
  destruct (deleteRules fw (default [] (pairs !! i))) as [fw1 rem] eqn:Ed.
  assert (rem = []) as ->.
  { destruct (pairs !! i) as [rules|] eqn:El; simpl in Ed; [|by injection Ed].
    destruct (Hp _ _ El) as (r & -> & _). apply deleteRules_single in Ed as (ok & Hd & ->).
    specialize (Hdel fw r). rewrite Hd in Hdel. simpl in Hdel. by subst ok. }
  simpl. intros Hroll. apply IH in Hroll.
  - rewrite Hroll, dom_delete_L. set_solver.
  - intros id rs. rewrite lookup_delete_Some. intros [_ ?]. by apply Hp.
Qed.

Lemma install_rolls_back groups fw pairs new fresh fw' pairs' new' errs :
  deletes_all → pairs_ok pairs → errs ≠ [] →
  installPeerGroups fw pairs new groups true fresh [] = (fw', pairs', new', errs) →
  dom pairs' = dom pairs ∖ list_to_set fresh.
Proof.
  intros Hdel. revert fw pairs new fresh.
  induction groups as [|g groups IH]; intros fw pairs new fresh Hp He; simpl; [by intros [= _ _ _ <-]|].
  rewrite applyPeerGroup_spec.
  assert (∀ fw1 e, (let '(fw2, pairs2) := rollbackInstalled fw1 pairs fresh in (fw2, pairs2, new, [e])) =
    (fw', pairs', new', errs) → dom pairs' = dom pairs ∖ list_to_set fresh) as Hback.
  { intros fw1 e. destruct (rollbackInstalled fw1 pairs fresh) as [fw2 pairs2] eqn:Er.
    intros [= _ <- _ _]. by eapply rollback_all. }
  destruct (group_spec _ g) as [e|[s|]]; [by apply Hback| |by apply IH].
  destruct (fw_add fw (g_policyID g) s) as [fw1 [| |r]]; [by apply Hback..|].
  intros Hin. apply IH in Hin; [|by apply pairs_ok_insert|done]. rewrite Hin, dom_insert_L.
  destruct (pairs !! rule_ID r) as [rules|] eqn:El.
  - apply elem_of_dom_2 in El. assert ({[rule_ID r]} ∪ dom pairs = dom pairs) as -> by set_solver. done.
  - apply not_elem_of_dom in El. rewrite list_to_set_app_L. simpl. set_solver.
Qed.

Lemma deny_specs st groups s :
  s ∈ specs_of st (splitDenyAccept groups).1 → s ∈ specs_of st groups ∧ rs_action s = ActionDrop.
Proof.
  rewrite !elem_of_specs_of. simpl. intros (g & [Hd Hg]%list_elem_of_filter & Hs).
  split; [by exists g|]. unfold group_spec, convertFirewallAction in Hs. rewrite Hd in Hs. simpl in Hs.
  repeat (case_match; simplify_eq); done.
Qed.

(** C15. Fail-closed denies: when a deny rule cannot be decoded or
    installed, the pass ends with an error, every rule tracked before is still
    installed, and nothing but deny rules was added; when the backend deletes
    what it is told to, nothing was added at all. *)
Theorem deny_fail_closed (fw0 : FW) us seed nm :
  fw_inv fw0 → Forall update_wf us →
  (∀ r raw, r ∈ nm_FirewallRules nm → raw ∈ fr_SourcePrefixes r → bytes raw) →
  let d := acl_run (NewDefaultManager (Some fw0)) us in
  ∃ fw, d_firewall d = Some fw ∧
  (deny_errors fw (d_peerRulesPairs d) nm ≠ [] →
   let '(fw', pairs', errs) := applyPeerACLs seed fw (d_peerRulesPairs d) nm in
   errs ≠ [] ∧ dom (d_peerRulesPairs d) ⊆ dom pairs' ∧ tracked d ⊆ fw_installed fw' ∧
   (∀ i, i ∈ fw_installed fw' → i ∈ fw_installed fw ∨
      ∃ s, s ∈ peer_specs (fw_IsStateful fw) nm ∧ rs_action s = ActionDrop ∧ fw_specID s = i) ∧
   (deletes_all → dom pairs' = dom (d_peerRulesPairs d) ∧ fw_installed fw' ⊆ fw_installed fw)).
Proof.
  intros Hf Hw Hb d.
  destruct (run_inv fw0 us Hf Hw) as [(fw & Hfw & Hst & Hi) Hp _ _]. fold d in Hfw, Hi, Hp.
  exists fw. split; [done|]. intros Herr.
  (* everything installed counts as foreign *)
  assert (Hi' : inv (fw_installed fw) (peer_specs (fw_IsStateful fw) nm) fw
            (dom (d_peerRulesPairs d)) (dom (d_routeRules d))).
  { destruct Hi as [? ? ? _ Hsup _]. constructor; try done; [set_solver|]. by left. }
  pose proof (groups_ok_map (peer_specs (fw_IsStateful fw) nm) (fw_IsStateful fw) nm) as Hgok.
  unfold deny_errors in Herr. unfold applyPeerACLs, peer_specs in *.
  destruct (groupPeerRules (effectiveRules nm)) as [[groups de] ae] eqn:Eg. cbn [fst snd] in *.
  pose proof (proj1 (split_sub groups)) as Hsp.
  pose proof (deny_specs (fw_IsStateful fw) groups) as Hden.
  destruct (splitDenyAccept groups) as [denies accepts]. cbn [fst] in *.
  destruct de as [|e de]; cbn [length Nat.eqb negb] in Herr |- *.
  2: { pose proof (iv_sup _ _ _ _ _ Hi') as Hsup. split_and!; try done. by left. }
  destruct (installPeerGroups fw _ ∅ denies true [] []) as [[[fw1 pairs1] new1] derr] eqn:E1.
  pose proof E1 as E2.
  eapply installPeerGroups_inv in E1 as (Hi1 & _ & _ & _ & Hk1 & Hk2 & _ & _); try done.
  2: { by apply Hgok. }
  destruct derr as [|e derr]; [done|]. simpl. simpl in Hk1.
  rewrite difference_empty_L in Hk1.
  split_and!; try done.
  - destruct Hi1 as [_ _ _ _ Hsup _]. unfold tracked. clear -Hsup Hk1. set_solver.
  - intros i [[Hx|Hx]%elem_of_union|?]%(iv_sub _ _ _ _ _ Hi1)%elem_of_union; [|left|by left].
    + apply Hk2, elem_of_union in Hx as [Hx|Hx].
      * left. apply (iv_sup _ _ _ _ _ Hi). set_solver.
      * right. unfold ids_of in Hx. apply elem_of_list_to_set, list_elem_of_fmap in Hx as (s & -> & Hs).
        apply Hden in Hs as [? ?]. by exists s.
    + apply (iv_sup _ _ _ _ _ Hi). set_solver.
  - intros Hdel. pose proof (install_rolls_back _ _ _ _ _ _ _ _ _ Hdel Hp (ltac:(done)) E2) as Hd.
    simpl in Hd. rewrite difference_empty_L in Hd. split; [done|].
    pose proof (iv_sub _ _ _ _ _ Hi1) as Hsub. pose proof (iv_sup _ _ _ _ _ Hi) as Hsup.
    rewrite Hd in Hsub. clear -Hsub Hsup. set_solver.
Qed.
End Runs.
