(* ===== verification/AclUsp.v ===== *)
(** * The userspace filter as the ACL manager's firewall

    The filter of [client/firewall/uspfilter] implements the interface
    [Firewall] and keeps the promises of [FirewallSpec]. *)
From S2P Require Import Prelude NetIP Bytes Order FwTypes ConnTrack TCPTrack TimedTable UDPTrack.
From S2P Require Import ICMPTrack Fragment PeerRules RouteRules Checksum DNAT Filter.
From S2P Require Import FilterPaths FilterOps NetParse NetipUtil AclManager AclFacts.
Open Scope Z_scope.

(** The filter, and the choice of iteration order at its next operation. *)
Record UspFw := { uf_mgr : Manager; uf_seed : nat }.

Definition usp_rule_ID (r : Rule) : RuleID :=
  match r with RPeer r => pr_id r | RRoute id => id end.

(** ** Identifiers tell peer rules from route rules *)

(** The first character of a text is not the one given. *)
Definition starts_not (c : ascii) (s : string) : Prop := String.get 0 s ≠ Some c.

Lemma get0_app s t : s ≠ "" → String.get 0 (s +:+ t) = String.get 0 s.
Proof. by destruct s. Qed.

Lemma starts_not_app c s t : starts_not c s → s ≠ "" → starts_not c (s +:+ t).
Proof. intros Hs Hne. unfold starts_not. by rewrite get0_app. Qed.

Definition plain (s : string) : bool :=
  match s with
  | EmptyString => false
  | String c _ => negb (Ascii.eqb c "<"%char)
  end.

Lemma plain_app s t : plain s = true → plain (s +:+ t) = true.
Proof. by destruct s. Qed.

Lemma plain_starts s : plain s = true → starts_not "<"%char s.
Proof. destruct s as [|c s]; [done|]. simpl. intros H%negb_true_iff%Ascii.eqb_neq. by intros [= ->]. Qed.

Lemma plain_octets : forallb (λ n, plain (dec (Z.of_nat n))) (seq 0 256) = true.
Proof. by vm_compute. Qed.

Lemma plain_dec_octet v i : plain (dec (octet v i)) = true.
Proof.
  pose proof plain_octets as Hall. rewrite forallb_forall in Hall. unfold octet.
  set (z := Z.land _ 255). assert (0 <= z < 256) as Hz.
  { subst z. change 255 with (Z.ones 8). rewrite Z.land_ones by lia. apply Z.mod_pos_bound. lia. }
  specialize (Hall (Z.to_nat z)). rewrite Z2Nat.id in Hall by lia. apply Hall, in_seq. lia.
Qed.

Lemma plain_hex_digit d : plain (hex_digit d) = true.
Proof. unfold hex_digit. repeat case_match; reflexivity. Qed.

Lemma plain_hex16 g : plain (hex16 g) = true.
Proof.
  unfold hex16. cbv zeta.
  destruct (0x1000 <=? g); [apply plain_app, plain_hex_digit|]. change ("" +:+ ?x) with x.
  destruct (0x100 <=? g); [apply plain_app, plain_hex_digit|]. change ("" +:+ ?x) with x.
  destruct (0x10 <=? g); [apply plain_app, plain_hex_digit|]. apply plain_hex_digit.
Qed.

Lemma plain_concat gs t : gs ≠ [] ∨ plain t = true → plain (String.concat ":" (hex16 <$> gs) +:+ t) = true.
Proof.
  destruct gs as [|g gs]; [by intros [?|?]|]. intros _. apply plain_app.
  destruct gs as [|g' gs]; cbn [fmap list_fmap String.concat]; [apply plain_hex16|].
  apply plain_app, plain_hex16.
Qed.

Lemma app_empty_r s : s +:+ "" = s.
Proof. induction s as [|c s IH]; [done|]. change (String c (s +:+ "") = String c s). by rewrite IH. Qed.

Lemma plain_string6 v : plain (string6 v) = true.
Proof.
  unfold string6. destruct (longest_run 0 (groups6 v) (0%nat, 0%nat)) as [start len].
  destruct (len =? 0)%nat; [|apply plain_concat; by right].
  rewrite <- (app_empty_r (String.concat _ _)). apply plain_concat. by left.
Qed.

Lemma plain_addr a : plain (addr_String a) = true.
Proof.
  destruct a as [|v|v z]; [done|apply plain_app, plain_dec_octet|].
  cbn [addr_String]. destruct (Is4In6 _); [by destruct (String.eqb z "")|].
  destruct (String.eqb z ""); [|apply plain_app]; apply plain_string6.
Qed.

(** The text of a destination does not look like a missing one. *)
Lemma plain_net d : net_IsZero d = false → plain (net_String d) = true.
Proof.
  intros Hz. unfold net_String, net_IsZero, net_IsPrefix in *. destruct (prefix_IsValid (net_Prefix d)) eqn:E.
  - unfold prefix_String. rewrite E. apply plain_app, plain_addr.
  - destruct (net_IsSet d); [done|]. by simpl in Hz.
Qed.

Lemma net_String_zero d : net_IsZero d = true → plain (net_String d) = false.
Proof.
  unfold net_String, net_IsZero, net_IsPrefix. destruct (prefix_IsValid (net_Prefix d)); [done|].
  by destruct (net_IsSet d).
Qed.

Section Instance_.
Context {MO : MapOrder} (sha256 : string → list Z).

Lemma GenerateRuleID_plain sources d proto sp dp a :
  plain (GenerateRuleID sha256 sources d proto sp dp a) = negb (net_IsZero d).
Proof.
  unfold GenerateRuleID. destruct (net_IsZero d) eqn:E; simpl.
  - unfold net_String. unfold net_IsZero, net_IsPrefix in E.
    destruct (prefix_IsValid (net_Prefix d)); [done|]. by destruct (net_IsSet d).
  - by apply plain_app, plain_net.
Qed.

#[global] Instance usp_firewall : Firewall UspFw Rule := {
  fw_AddFilterRule fw id sources destination proto sPort dPort action :=
    match AddFilterRule sha256 (uf_seed fw) (uf_mgr fw) id sources destination proto sPort dPort action with
    | Some (m, r) => ({| uf_mgr := m; uf_seed := S (uf_seed fw) |}, AddedRule r)
    | None => (fw, AddFailed)
    end;
  fw_DeleteFilterRule fw r :=
    match DeleteFilterRule (uf_seed fw) (uf_mgr fw) r with
    | Some m => ({| uf_mgr := m; uf_seed := S (uf_seed fw) |}, true)
    | None => (fw, false)
    end;
  fw_IsStateful fw := IsStateful (uf_mgr fw);
  fw_Flush fw := (fw, Flush (uf_mgr fw));
  rule_ID := usp_rule_ID;
}.

(** ** The interface's view of the filter *)

Definition usp_specID (s : RuleSpec) : RuleID :=
  GenerateRuleID sha256 (if is_peer s then UnmapPrefix <$> rs_sources s else rs_sources s)
    (if is_peer s then NetworkZero else rs_destination s)
    (rs_proto s) (rs_sPort s) (rs_dPort s) (rs_action s).

Definition peer_layer (sources : list Prefix) : LayerType :=
  if existsb (λ p, Is6 (prefix_Addr p)) sources then LayerTypeIPv6 else LayerTypeIPv4.

Definition peer_as (r : PeerRule) (s : RuleSpec) : Prop :=
  pr_sources r = UnmapPrefix <$> rs_sources s ∧
  pr_protoLayer r = protoToLayer (rs_proto s) (peer_layer (UnmapPrefix <$> rs_sources s)) ∧
  pr_srcPort r = rs_sPort s ∧ pr_dstPort r = rs_dPort s ∧ pr_action r = rs_action s.

Definition route_as (r : RouteRule) (s : RuleSpec) : Prop :=
  rr_sources r = rs_sources s ∧ rr_dstSet r = net_Set (rs_destination s) ∧
  rr_protoLayer r = protoToLayer (rs_proto s) (ipLayerFromPrefix (net_Prefix (rs_destination s))) ∧
  rr_srcPort r = rs_sPort s ∧ rr_dstPort r = rs_dPort s ∧ rr_action r = rs_action s.

Definition usp_holds (fw : UspFw) (i : RuleID) (s : RuleSpec) : Prop :=
  if is_peer s then ∃ r, peerRulesMap (m_acl (uf_mgr fw)) !! i = Some r ∧ peer_as r s
  else ∃ r, r ∈ routeRules (m_routes (uf_mgr fw)) ∧ rr_id r = i ∧ route_as r s.

Definition usp_installed (fw : UspFw) : gset RuleID :=
  dom (peerRulesMap (m_acl (uf_mgr fw))) ∪ routeRulesMap (m_routes (uf_mgr fw)).

Record usp_inv (fw : UspFw) : Prop := {
  ui_acl : acl_inv (m_acl (uf_mgr fw));
  ui_routes : route_inv (m_routes (uf_mgr fw));
  ui_peer i : i ∈ dom (peerRulesMap (m_acl (uf_mgr fw))) → plain i = false;
  ui_route i : i ∈ routeRulesMap (m_routes (uf_mgr fw)) → plain i = true;
}.

Lemma usp_specID_plain s : plain (usp_specID s) = negb (is_peer s).
Proof.
  unfold usp_specID. rewrite GenerateRuleID_plain. destruct (is_peer s) eqn:E; [done|].
  unfold is_peer in E. by rewrite E.
Qed.

Lemma usp_ID_kind s s' : is_peer s ≠ is_peer s' → usp_specID s ≠ usp_specID s'.
Proof.
  intros Hne Heq. pose proof (usp_specID_plain s) as H1. rewrite Heq, usp_specID_plain in H1.
  apply Hne. by destruct (is_peer s), (is_peer s').
Qed.

(** What [addPeerRule] does to the map by identifier. *)
Lemma addPeerRule_map seed m id sources proto sp dp a m' r :
  acl_inv m → addPeerRule sha256 seed m id sources proto sp dp a = (m', r) →
  let i := GenerateRuleID sha256 (UnmapPrefix <$> sources) NetworkZero proto sp dp a in
  pr_id r = i ∧ (m' = m ∧ peerRulesMap m !! i = Some r ∨
    peerRulesMap m !! i = None ∧ peerRulesMap m' = <[i := r]> (peerRulesMap m) ∧
    pr_sources r = UnmapPrefix <$> sources ∧
    pr_protoLayer r = protoToLayer proto (peer_layer (UnmapPrefix <$> sources)) ∧
    pr_srcPort r = sp ∧ pr_dstPort r = dp ∧ pr_action r = a).
Proof.
  intros Hinv. unfold addPeerRule, addOnePeerRule. cbn [ps_sources ps_proto ps_sPort ps_dPort ps_action].
  set (i := GenerateRuleID _ _ _ _ _ _ _). cbv zeta. destruct (peerRulesMap m !! i) as [ex|] eqn:E.
  - intros [= <- <-]. split; [|by left]. by apply (acl_map m Hinv) in E as [_ ?].
  - cbn [alloc]. intros [= <- <-]. split; [done|]. right. split_and!; try done.
    unfold registerPeerRule. by case_decide.
Qed.

Lemma usp_add_peer fw id s fw' res :
  usp_inv fw → spec_ok s → is_peer s = true → fw_add fw id s = (fw', res) →
  usp_inv fw' ∧ m_routes (uf_mgr fw') = m_routes (uf_mgr fw) ∧
  IsStateful (uf_mgr fw') = IsStateful (uf_mgr fw) ∧
  ∃ r, res = AddedRule (RPeer r) ∧ pr_id r = usp_specID s ∧
    (m_acl (uf_mgr fw') = m_acl (uf_mgr fw) ∧
       is_Some (peerRulesMap (m_acl (uf_mgr fw)) !! usp_specID s) ∨
     peerRulesMap (m_acl (uf_mgr fw)) !! usp_specID s = None ∧
     peerRulesMap (m_acl (uf_mgr fw')) =
       <[usp_specID s := r]> (peerRulesMap (m_acl (uf_mgr fw))) ∧ peer_as r s).
Proof.
  intros [Ha Hr Hkp Hkr] [Hne Hw Hp1 Hp2] Hpeer. unfold fw_add. cbn [fw_AddFilterRule usp_firewall].
  unfold AddFilterRule. destruct (rs_sources s) as [|p ps] eqn:Es; [done|].
  unfold is_peer in Hpeer. rewrite Hpeer. cbn [length Nat.eqb].
  destruct (addPeerRule sha256 (uf_seed fw) (m_acl (uf_mgr fw)) id (p :: ps) (rs_proto s) (rs_sPort s)
              (rs_dPort s) (rs_action s)) as [acl r] eqn:E.
  destruct (addPeerRule_inv sha256 _ _ _ _ _ _ _ _ _ _ Ha Hw Hp1 Hp2 E) as (Ha' & _ & _).
  destruct (addPeerRule_map _ _ _ _ _ _ _ _ _ _ Ha E) as [Hid Hmap].
  assert (Hspec : usp_specID s =
    GenerateRuleID sha256 (UnmapPrefix <$> (p :: ps)) NetworkZero (rs_proto s) (rs_sPort s) (rs_dPort s)
      (rs_action s)) by (unfold usp_specID, is_peer; by rewrite Hpeer, Es).
  rewrite <- Hspec in Hid, Hmap. intros [= <- <-]. split_and!; try done.
  - constructor; try done. simpl. intros i Hi. destruct Hmap as [[-> _]|(_ & Hm & _)]; [by apply Hkp|].
    rewrite Hm, dom_insert_L in Hi. apply elem_of_union in Hi as [->%elem_of_singleton|Hi]; [|by apply Hkp].
    rewrite usp_specID_plain. unfold is_peer. by rewrite Hpeer.
  - exists r. split_and!; [done..|]. destruct Hmap as [[-> Hm]|(Hm1 & Hm2 & Has)].
    + left. split; [done|]. by eexists.
    + right. split_and!; [done..|]. unfold peer_as. by rewrite Es.
Qed.

Lemma usp_add_route fw id s fw' res :
  usp_inv fw → spec_ok s → is_peer s = false → fw_add fw id s = (fw', res) →
  usp_inv fw' ∧ m_acl (uf_mgr fw') = m_acl (uf_mgr fw) ∧
  IsStateful (uf_mgr fw') = IsStateful (uf_mgr fw) ∧
  res = AddedRule (RRoute (usp_specID s)) ∧
  routeRulesMap (m_routes (uf_mgr fw')) =
    {[usp_specID s]} ∪ routeRulesMap (m_routes (uf_mgr fw)) ∧
  (∀ r, r ∈ routeRules (m_routes (uf_mgr fw)) → r ∈ routeRules (m_routes (uf_mgr fw'))) ∧
  (usp_specID s ∉ routeRulesMap (m_routes (uf_mgr fw)) →
   ∃ r, r ∈ routeRules (m_routes (uf_mgr fw')) ∧ rr_id r = usp_specID s ∧ route_as r s).
Proof.
  intros [Ha Hr Hkp Hkr] [Hne Hw Hp1 Hp2] Hpeer. unfold fw_add. cbn [fw_AddFilterRule usp_firewall].
  unfold AddFilterRule. destruct (rs_sources s) as [|p ps] eqn:Es; [done|].
  pose proof Hpeer as Hz. unfold is_peer in Hz. rewrite Hz. cbn [length Nat.eqb].
  destruct (addRouteRule sha256 (m_routes (uf_mgr fw)) id (p :: ps) (rs_destination s) (rs_proto s)
              (rs_sPort s) (rs_dPort s) (rs_action s)) as [routes rid] eqn:E.
  destruct (addRouteRule_inv _ _ _ _ _ _ _ _ _ _ _ Hr Hp1 Hp2 E) as (Hr' & _ & Hkeep).
  assert (Hspec : usp_specID s =
    GenerateRuleID sha256 (p :: ps) (rs_destination s) (rs_proto s) (rs_sPort s) (rs_dPort s)
      (rs_action s)) by (unfold usp_specID; by rewrite Hpeer, Es).
  unfold addRouteRule in E. rewrite <- Hspec in E. intros [= <- <-].
  assert (rid = usp_specID s ∧
    routeRulesMap routes = {[usp_specID s]} ∪ routeRulesMap (m_routes (uf_mgr fw))) as [-> Hmap].
  { case_decide as Hd; injection E as <- <-; split; try done. set_solver. }
  split_and!; try done.
  - constructor; try done. simpl. intros i. rewrite Hmap, elem_of_union, elem_of_singleton.
    intros [->|?]; [|by apply Hkr]. by rewrite usp_specID_plain, Hpeer.
  - intros Hn. case_decide; [done|]. injection E as <-. simpl. eexists. split_and!.
    + rewrite routeRules_Sort_perm. apply elem_of_app. right. left.
    + done.
    + unfold route_as. simpl. by rewrite Es.
Qed.

Lemma usp_add_spec fw id s fw' res :
  usp_inv fw → spec_ok s → fw_add fw id s = (fw', res) →
  usp_inv fw' ∧ fw_IsStateful fw' = fw_IsStateful fw ∧
  (∀ i s', usp_holds fw i s' → usp_holds fw' i s') ∧
  match res with
  | AddedRule r =>
      rule_ID r = usp_specID s ∧
      usp_installed fw' = {[usp_specID s]} ∪ usp_installed fw ∧
      (usp_specID s ∉ usp_installed fw → usp_holds fw' (usp_specID s) s)
  | _ => usp_installed fw' = usp_installed fw
  end.
Proof.
  intros Hi Hs Ha. unfold usp_holds, usp_installed. destruct (is_peer s) eqn:Ek.
  - destruct (usp_add_peer _ _ _ _ _ Hi Hs Ek Ha) as (Hi' & Hr & Hst & r & -> & Hid & Hmap).
    split_and!; try done.
    + intros i s'. rewrite Hr. destruct (is_peer s'); [|done]. intros (r' & Hr' & Has). exists r'.
      split; [|done]. destruct Hmap as [[-> _]|(Hn & -> & _)]; [done|].
      rewrite lookup_insert_ne; [done|]. congruence.
    + rewrite Hr. destruct Hmap as [[-> Hin%elem_of_dom]|(_ & -> & _)]; [|rewrite dom_insert_L]; set_solver.
    + intros Hn. destruct Hmap as [[_ Hin%elem_of_dom]|(_ & -> & Has)]; [set_solver|].
      exists r. by rewrite lookup_insert_eq.
  - destruct (usp_add_route _ _ _ _ _ Hi Hs Ek Ha) as (Hi' & Hacl & Hst & -> & Hmap & Hkeep & Hnew).
    split_and!; try done.
    + intros i s'. rewrite Hacl. destruct (is_peer s'); [done|]. intros (r' & Hr' & Has). eauto.
    + rewrite Hacl, Hmap. set_solver.
    + intros Hn. apply Hnew. set_solver.
Qed.

Lemma usp_delete_spec fw r fw' ok :
  usp_inv fw → fw_DeleteFilterRule fw r = (fw', ok) →
  usp_inv fw' ∧ fw_IsStateful fw' = fw_IsStateful fw ∧
  usp_installed fw' = (if ok then usp_installed fw ∖ {[rule_ID r]} else usp_installed fw) ∧
  (∀ i s, i ∈ usp_installed fw' → usp_holds fw i s → usp_holds fw' i s).
Proof.
  intros Hi. pose proof Hi as [Ha Hr Hkp Hkr]. cbn [fw_DeleteFilterRule usp_firewall].
  destruct (DeleteFilterRule (uf_seed fw) (uf_mgr fw) r) as [m|] eqn:E; [|by intros [= <- <-]].
  intros [= <- <-]. unfold usp_holds, usp_installed. destruct r as [r|rid]; simpl in E |- *.
  - destruct (deletePeerRuleLocked _ _ _) as [acl|] eqn:Ed; [|done]. simpl in E. injection E as <-.
    destruct (deletePeerRule_inv _ _ _ _ Ha Ed) as [Ha' (st & Hin & Hid & _)].
    assert (Hmap : peerRulesMap acl = delete (pr_id r) (peerRulesMap (m_acl (uf_mgr fw)))).
    { unfold deletePeerRuleLocked in Ed. repeat (case_match; simplify_eq); done. }
    assert (Hk : plain (pr_id r) = false).
    { apply Hkp, elem_of_dom. exists st. by apply (acl_map _ Ha). }
    assert (Hnr : pr_id r ∉ routeRulesMap (m_routes (uf_mgr fw))) by (intros Hc%Hkr; congruence).
    simpl. rewrite Hmap, dom_delete_L. split_and!; try done.
    + constructor; try done. simpl. intros i. rewrite Hmap, dom_delete_L, elem_of_difference.
      intros [? _]. by apply Hkp.
    + set_solver.
    + intros i s Hin'. destruct (is_peer s); [|done]. intros (r' & Hr' & Has). exists r'. split; [|done].
      apply lookup_delete_Some. split; [|done]. intros <-. set_solver.
  - destruct (deleteRouteRule _ _) as [routes|] eqn:Ed; [|done]. simpl in E. injection E as <-.
    destruct (deleteRouteRule_inv _ _ _ Hr Ed) as [Hr' Hmem].
    assert (routeRulesMap routes = routeRulesMap (m_routes (uf_mgr fw)) ∖ {[rid]} ∧
                   rid ∈ rr_id <$> routeRules (m_routes (uf_mgr fw))) as [Hmap Hin].
    { unfold deleteRouteRule in Ed. destruct (removeRuleByID _ _ _) as [tr [x|]] eqn:Er; [|done].
      injection Ed as <-. split; [done|]. apply removeRuleByID_spec in Er as (<- & l1 & l2 & -> & _).
      rewrite fmap_app. set_solver. }
    assert (Hk : plain rid = true) by (apply Hkr; by apply (route_map _ Hr)).
    assert (Hnp : rid ∉ dom (peerRulesMap (m_acl (uf_mgr fw)))) by (intros Hc%Hkp; congruence).
    simpl. rewrite Hmap. split_and!; try done.
    + constructor; try done. simpl. intros i. rewrite Hmap, elem_of_difference. intros [? _]. by apply Hkr.
    + set_solver.
    + intros i s Hin'. destruct (is_peer s); [done|]. intros (r' & Hr1 & Hid & Has). exists r'.
      split_and!; try done. apply Hmem. split; [done|]. intros Heq. subst. set_solver.
Qed.

Lemma usp_flush_spec fw fw' ok :
  usp_inv fw → fw_Flush fw = (fw', ok) →
  usp_inv fw' ∧ fw_IsStateful fw' = fw_IsStateful fw ∧ usp_installed fw' = usp_installed fw ∧
  (∀ i s, usp_holds fw i s → usp_holds fw' i s).
Proof. intros Hi [= <- _]. by split_and!. Qed.

#[global] Instance usp_firewall_spec : FirewallSpec UspFw Rule := {
  fw_inv := usp_inv;
  fw_installed := usp_installed;
  fw_holds := usp_holds;
  fw_specID := usp_specID;
  fw_ID_kind := usp_ID_kind;
  fw_add_spec := usp_add_spec;
  fw_delete_spec := usp_delete_spec;
  fw_flush_spec := usp_flush_spec;
}.
End Instance_.
