(* ===== verification/AclPolicy.v ===== *)
(** * From the network map to the packet

    The rules of a network map, read directly, against what the userspace
    filter decides after the ACL manager has decoded, grouped, translated and
    installed them. *)
From S2P Require Import Prelude NetIP Bytes Order FwTypes ConnTrack TCPTrack TimedTable UDPTrack.
From S2P Require Import ICMPTrack Fragment PeerRules RouteRules Checksum DNAT Filter.
From S2P Require Import FilterPaths FilterOps NetParse NetipUtil AclManager AclFacts AclRun AclUsp.
Open Scope Z_scope.

(** ** What a rule of the map means *)

(** The text form of a port that old management servers send; [None] is a
    text that is no port. *)
Definition legacy_port (text : string) : option (option Port) :=
  if String.eqb text "" then Some None
  else (λ p, Some {| IsRange := false; Values := [p] |}) <$> ParseUint 16 text.

(** The port restriction of a rule: the port, else the range, else the
    legacy text, else none. *)
Definition rule_port (r : FirewallRule) : option (option Port) :=
  match fr_PortInfo r with
  | Some (PortSingle p) =>
      if p =? 0 then legacy_port (fr_Port r) else Some (Some {| IsRange := false; Values := [p] |})
  | Some (PortRange_ (Some rng)) =>
      if (rng_Start rng =? 0) || (rng_End rng =? 0) then legacy_port (fr_Port r)
      else Some (Some {| IsRange := true; Values := [rng_Start rng; rng_End rng] |})
  | _ => legacy_port (fr_Port r)
  end.

(** The protocol and the destination port of a packet are covered; ICMP is
    one protocol for both families. *)
Definition proto_covers (protocol : Z) (port : option Port) (d : decoder) (pl : LayerType) : bool :=
  if protocol =? RuleProtocol_ALL then true
  else match pl with
       | LayerTypeTCP => (protocol =? RuleProtocol_TCP) && port_ok port (tcp_DstPort (d_tcp d))
       | LayerTypeUDP => (protocol =? RuleProtocol_UDP) && port_ok port (udp_DstPort (d_udp d))
       | LayerTypeICMPv4 | LayerTypeICMPv6 => protocol =? RuleProtocol_ICMP
       | _ => false
       end.

(** A rule for incoming traffic covers the packet. *)
Definition rule_covers (r : FirewallRule) (src : Addr) (d : decoder) (pl : LayerType) : bool :=
  (fr_Direction r =? RuleDirection_IN) &&
  match extractRuleSources r with Some srcs => prefixesContain srcs src | None => false end &&
  match rule_port r with Some port => proto_covers (fr_Protocol r) port d pl | None => false end.

(** Deny wins, default deny. *)
Definition policy_blocks (nm : NetworkMap) (src : Addr) (d : decoder) (pl : LayerType) : bool :=
  existsb (λ r, (fr_Action r =? RuleAction_DROP) && rule_covers r src d pl) (effectiveRules nm) ||
  negb (existsb (λ r, (fr_Action r =? RuleAction_ACCEPT) && rule_covers r src d pl) (effectiveRules nm)).

(** Ports are 16-bit numbers. *)
Definition ports_wf (r : FirewallRule) : Prop :=
  match fr_PortInfo r with
  | Some (PortSingle p) => in_width 16 p
  | Some (PortRange_ (Some rng)) => in_width 16 (rng_Start rng) ∧ in_width 16 (rng_End rng)
  | _ => True
  end.

(** ** Grouping keeps the meaning *)

(** The port restriction that a group key stands for. *)
Definition key_port (k : peerRuleKey) : option (option Port) :=
  if negb (k_port k =? 0) then Some (Some {| IsRange := false; Values := [k_port k] |})
  else if negb ((k_rangeStart k =? 0) || (k_rangeEnd k =? 0))
  then Some (Some {| IsRange := true; Values := [k_rangeStart k; k_rangeEnd k] |})
  else legacy_port (k_legacyPort k).

Lemma key_port_rule r v6 : ports_wf r → key_port (ruleGroupKey r v6) = rule_port r.
Proof.
  unfold ports_wf, key_port, rule_port, ruleGroupKey.
  destruct (fr_PortInfo r) as [[|p|[rng|]]|]; simpl; try done.
  - intros Hp. rewrite uint_id by done. by destruct (p =? 0).
  - intros [Hs He]. rewrite !uint_id by done. by destruct (_ || _).
Qed.

(** What a group has in common with its key. *)
Record group_like (k : peerRuleKey) (g : peerRuleGroup) : Prop := {
  gl_direction : g_direction g = k_direction k;
  gl_action : g_action g = k_action k;
  gl_protocol : g_protocol g = k_protocol k;
  gl_port : resolveGroupPort g = key_port k;
}.

Lemma resolve_legacy text :
  (if negb (String.eqb text "") then
     match ParseUint 16 text with
     | None => None
     | Some value => Some (Some {| IsRange := false; Values := [uint 16 value] |})
     end
   else Some None) = legacy_port text.
Proof.
  unfold legacy_port. destruct (String.eqb text ""); simpl; [done|].
  destruct (ParseUint 16 text) as [v|] eqn:E; simpl; [|done].
  apply ParseUint_range in E. by rewrite uint_id.
Qed.

Lemma newGroup_like r v6 srcs : ports_wf r → group_like (ruleGroupKey r v6) (newGroup r srcs).
Proof.
  intros Hp. constructor; try done. rewrite key_port_rule by done.
  unfold resolveGroupPort, rule_port, ports_wf, portInfoEmpty, convertPortInfo in *. simpl.
  destruct (fr_PortInfo r) as [[|p|[rng|]]|]; simpl; try apply resolve_legacy.
  - destruct (p =? 0) eqn:E; simpl; [apply resolve_legacy|]. by rewrite uint_id.
  - destruct Hp. rewrite !uint_id by done. destruct (_ || _); simpl; [apply resolve_legacy|done].
Qed.

(** The pairs of key and source that groups hold, and that rules give. *)
Definition in_groups (groups : list (peerRuleKey * peerRuleGroup)) (k : peerRuleKey) (p : Prefix) : Prop :=
  ∃ g, (k, g) ∈ groups ∧ p ∈ g_sources g.

Definition in_rules (rules : list FirewallRule) (k : peerRuleKey) (p : Prefix) : Prop :=
  ∃ r srcs, r ∈ rules ∧ extractRuleSources r = Some srcs ∧ p ∈ srcs ∧ k = ruleGroupKey r (prefixIsV6 p).

Definition all_like (groups : list (peerRuleKey * peerRuleGroup)) : Prop :=
  ∀ k g, (k, g) ∈ groups → group_like k g.

Lemma appendSources_like k g srcs : group_like k g → group_like k (appendSources g srcs).
Proof. by intros []. Qed.

Lemma addToGroup_spec r v6 srcs groups :
  ports_wf r → all_like groups →
  all_like (addToGroup r (ruleGroupKey r v6) srcs groups) ∧
  ∀ k p, in_groups (addToGroup r (ruleGroupKey r v6) srcs groups) k p ↔
    in_groups groups k p ∨ k = ruleGroupKey r v6 ∧ p ∈ srcs.
Proof.
  intros Hp. unfold in_groups. induction groups as [|[k0 g0] groups IH]; simpl.
  - intros _. split.
    + intros k g [= -> ->]%list_elem_of_singleton. by apply newGroup_like.
    + intros k p. setoid_rewrite list_elem_of_singleton. set_solver.
  - intros Hl. assert (all_like groups) as Hl' by (intros k g ?; apply Hl; by right).
    destruct (IH Hl') as [IH1 IH2]. assert (group_like k0 g0) as Hl0 by (apply Hl; left).
    destruct (decide (k0 = ruleGroupKey r v6)) as [->|Hne]; split.
    + intros k g [[= -> ->]|?]%elem_of_cons; [by apply appendSources_like|by apply Hl'].
    + intros k p. setoid_rewrite elem_of_cons. split.
      * intros (g & [[= -> ->]|Hg] & Hin); [|eauto]. simpl in Hin. apply elem_of_app in Hin as [?|?]; eauto 10.
      * intros [(g & [[= -> ->]|Hg] & Hin)|[-> Hin]].
        -- eexists. split; [by left|]. simpl. apply elem_of_app. by left.
        -- eauto.
        -- eexists. split; [by left|]. simpl. apply elem_of_app. by right.
    + intros k g [[= -> ->]|?]%elem_of_cons; [done|by apply IH1].
    + intros k p. setoid_rewrite elem_of_cons. specialize (IH2 k p). split.
      * intros (g & [[= -> ->]|Hg] & Hin); [eauto 10|].
        destruct (proj1 IH2) as [(g' & ? & ?)|?]; eauto 10.
      * intros [(g & [[= -> ->]|Hg] & Hin)|Hin]; [eauto| |].
        -- destruct (proj2 IH2) as (g' & ? & ?); eauto.
        -- destruct (proj2 IH2) as (g' & ? & ?); eauto.
Qed.

Lemma addFamily_spec r groups v6 srcs :
  ports_wf r → all_like groups →
  all_like (addFamily r groups (v6, srcs)) ∧
  ∀ k p, in_groups (addFamily r groups (v6, srcs)) k p ↔
    in_groups groups k p ∨ k = ruleGroupKey r v6 ∧ p ∈ srcs.
Proof.
  intros Hp Hl. unfold addFamily. destruct srcs as [|p0 srcs]; [|by apply addToGroup_spec].
  simpl. split; [done|]. set_solver.
Qed.

(** Grouping neither loses nor invents a source, and a group has the selector
    of its key. *)
Lemma groupPeerRules_spec rules :
  Forall ports_wf rules →
  ∃ groups, (groupPeerRules rules).1.1 = groups.*2 ∧ all_like groups ∧
    ∀ k p, in_groups groups k p ↔ in_rules rules k p.
Proof.
  intros Hp. assert (∀ acc, all_like acc.1.1 →
    all_like (foldl groupStep acc rules).1.1 ∧
    ∀ k p, in_groups (foldl groupStep acc rules).1.1 k p ↔ in_groups acc.1.1 k p ∨ in_rules rules k p) as Hgen.
  { induction Hp as [|r rules Hr Hp IH]; intros acc Hacc; simpl.
    { split; [done|]. intros k p. split; [by left|]. intros [?|(?&?&Habs&_)]; [done|]. by apply elem_of_nil in Habs. }
    destruct acc as [[groups de] ae]. unfold groupStep at 2 4. simpl in Hacc.
    assert (Hcons : ∀ k p, in_rules (r :: rules) k p ↔ in_rules [r] k p ∨ in_rules rules k p).
    { intros k p. unfold in_rules. setoid_rewrite elem_of_cons. set_solver. }
    setoid_rewrite Hcons. destruct (extractRuleSources r) as [srcs|] eqn:Es.
    - unfold splitPrefixesByFamily. cbn [foldl].
      set (v4 := filter _ srcs). set (v6 := filter (λ p, prefixIsV6 p = true) srcs).
      destruct (addFamily_spec r groups false v4 Hr Hacc) as [Hl1 Hg1].
      destruct (addFamily_spec r _ true v6 Hr Hl1) as [Hl2 Hg2].
      destruct (IH (addFamily r (addFamily r groups (false, v4)) (true, v6), de, ae) Hl2) as [IH1 IH2].
      split; [done|]. intros k p. rewrite IH2. cbn [fst]. rewrite Hg2, Hg1. subst v4 v6.
      rewrite !list_elem_of_filter. unfold in_rules at 2. simpl.
      setoid_rewrite list_elem_of_singleton. split.
      + intros [[[?|(-> & Hv & Hin)]|(-> & Hv & Hin)]|?]; auto; right; left; exists r, srcs; by rewrite Hv.
      + intros [?|[(r' & srcs' & -> & E & Hin & ->)|?]]; auto. left. simplify_eq.
        destruct (prefixIsV6 p); auto.
    - assert (Hnone : ∀ k p, ¬ in_rules [r] k p).
      { intros k p (r' & srcs & ->%list_elem_of_singleton & E & _). congruence. }
      destruct (fr_Action r =? RuleAction_DROP); match goal with
      | |- context [foldl groupStep ?a rules] => destruct (IH a Hacc) as [IH1 IH2] end;
      (split; [done|]; intros k p; rewrite IH2; cbn [fst]; specialize (Hnone k p); tauto). }
  destruct (Hgen ([], [], [])) as [Hl Hg]; [by intros k g ?%elem_of_nil|].
  unfold groupPeerRules. destruct (foldl groupStep _ rules) as [[groups de] ae]. simpl in *.
  exists groups. split_and!; try done. intros k p. rewrite Hg. split; [|by right].
  intros [(g & Habs & _)|?]; [by apply elem_of_nil in Habs|done].
Qed.

(** ** Contents and packets *)

(** The content of a filter rule covers the packet. *)
Definition spec_covers (s : RuleSpec) (src : Addr) (d : decoder) (pl : LayerType) : bool :=
  prefixesContain (rs_sources s) src &&
  if String.eqb (rs_proto s) ProtocolALL then true
  else match pl with
       | LayerTypeTCP => String.eqb (rs_proto s) ProtocolTCP &&
           port_ok (rs_sPort s) (tcp_SrcPort (d_tcp d)) && port_ok (rs_dPort s) (tcp_DstPort (d_tcp d))
       | LayerTypeUDP => String.eqb (rs_proto s) ProtocolUDP &&
           port_ok (rs_sPort s) (udp_SrcPort (d_udp d)) && port_ok (rs_dPort s) (udp_DstPort (d_udp d))
       | LayerTypeICMPv4 | LayerTypeICMPv6 => String.eqb (rs_proto s) ProtocolICMP
       | _ => false
       end.

Definition known_proto (p : Protocol) : Prop :=
  p = ProtocolTCP ∨ p = ProtocolUDP ∨ p = ProtocolICMP ∨ p = ProtocolALL.

Definition unmapped (sources : list Prefix) : Prop :=
  Forall (λ p, Is4In6 (prefix_Addr p) = false) sources.

Lemma UnmapPrefix_unmapped sources : unmapped sources → UnmapPrefix <$> sources = sources.
Proof.
  induction 1 as [|p sources Hp _ IH]; [done|].
  rewrite fmap_cons, IH. f_equal. unfold UnmapPrefix. by rewrite Hp.
Qed.

(** An installed rule matches what its content covers. *)
Lemma peer_as_matches r s src d pl :
  rule_wf r → peer_as r s → unmapped (rs_sources s) → known_proto (rs_proto s) →
  rule_matches r src d pl = spec_covers s src d pl.
Proof.
  intros Hwf (Hsrc & Hl & Hsp & Hdp & _) Hum Hk. unfold rule_matches, spec_covers.
  rewrite matchesSource_prefixes, Hsrc, UnmapPrefix_unmapped by done. f_equal.
  unfold proto_ok. rewrite Hl, Hsp, Hdp. set (ipl := peer_layer _). clearbody ipl.
  destruct Hk as [->|[->|[->| ->]]]; unfold protoToLayer; simpl; try (by destruct pl);
    destruct (decide (ipl = LayerTypeIPv6)); by destruct pl.
Qed.

Lemma extractRuleSources_unmapped r srcs : extractRuleSources r = Some srcs → unmapped srcs.
Proof.
  assert (∀ a bits, Is4In6 (prefix_Addr (PrefixFrom (Unmap a) bits)) = false) as Hu.
  { intros a bits. unfold PrefixFrom. cbn [prefix_Addr]. rewrite Is4In6_withoutZone. apply Unmap_not_Is4In6. }
  unfold extractRuleSources. destruct (fr_SourcePrefixes r) as [|raw raws].
  - destruct (ParseAddr _); [|done]. case_match; intros [= <-]; by repeat constructor.
  - generalize (raw :: raws) as l. clear raw raws. intros l. revert srcs.
    induction l as [|raw l IH]; intros srcs; simpl; [intros [= <-]; constructor|].
    destruct (DecodeAddr raw); [|done]. intros (out & Hout & ->)%fmap_Some.
    constructor; [apply Hu|]. by apply IH.
Qed.

Lemma prefixesContain_elem sources src :
  prefixesContain sources src = true ↔ ∃ p, p ∈ sources ∧ prefix_Contains p src = true.
Proof. apply prefixesContain_spec. Qed.

Definition action_code (a : Action) : Z :=
  match a with ActionAccept => RuleAction_ACCEPT | ActionDrop => RuleAction_DROP end.

Lemma convertFirewallAction_code z a : convertFirewallAction z = Some a ↔ z = action_code a.
Proof.
  unfold convertFirewallAction. destruct (Z.eqb_spec z RuleAction_ACCEPT) as [->|H1].
  - destruct a; split; simpl; congruence || done.
  - destruct (Z.eqb_spec z RuleAction_DROP) as [->|H2]; destruct a; split; simpl; congruence || done.
Qed.

(** The content of a group for incoming traffic, by its key. *)
Lemma group_spec_stateful k g s src d pl :
  group_like k g → group_spec true g = inr (Some s) →
  k_direction k = RuleDirection_IN ∧ convertFirewallAction (k_action k) = Some (rs_action s) ∧
  known_proto (rs_proto s) ∧ rs_sources s = g_sources g ∧
  ∃ port, key_port k = Some port ∧
    spec_covers s src d pl = prefixesContain (g_sources g) src && proto_covers (k_protocol k) port d pl.
Proof.
  intros [Hd Ha Hp Hport]. unfold group_spec. rewrite Hd, Ha, Hp, Hport.
  destruct (ConvertToFirewallProtocol (k_protocol k)) as [proto|] eqn:Ep; [|done].
  destruct (convertFirewallAction (k_action k)) as [a|] eqn:Ea; [|done].
  destruct (key_port k) as [port|]; [|done].
  destruct (Z.eqb_spec (k_direction k) RuleDirection_IN) as [Hin|]; [|by case_match].
  intros [= <-]. simpl. unfold ConvertToFirewallProtocol in Ep.
  assert (known_proto proto ∧ ∀ port, proto_covers (k_protocol k) port d pl =
    if String.eqb proto ProtocolALL then true
    else match pl with
         | LayerTypeTCP => String.eqb proto ProtocolTCP && port_ok port (tcp_DstPort (d_tcp d))
         | LayerTypeUDP => String.eqb proto ProtocolUDP && port_ok port (udp_DstPort (d_udp d))
         | LayerTypeICMPv4 | LayerTypeICMPv6 => String.eqb proto ProtocolICMP
         | _ => false
         end) as [Hk Hcov].
  { unfold known_proto, proto_covers. revert Ep. generalize (k_protocol k) as z. intros z.
    destruct (Z.eqb_spec z RuleProtocol_TCP) as [->|]; [intros [= <-]; auto|].
    destruct (Z.eqb_spec z RuleProtocol_UDP) as [->|]; [intros [= <-]; auto|].
    destruct (Z.eqb_spec z RuleProtocol_ICMP) as [->|]; [intros [= <-]; auto|].
    destruct (Z.eqb_spec z RuleProtocol_ALL) as [->|]; [intros [= <-]; auto|done]. }
  split_and!; try done. exists port. split; [done|]. unfold spec_covers. simpl. rewrite Hcov. f_equal.
  destruct (String.eqb proto ProtocolALL); [done|]. destruct pl; try done; by rewrite andb_true_r.
Qed.

(** A covered packet has a protocol the firewall knows. *)
Lemma proto_covers_known protocol port d pl :
  proto_covers protocol port d pl = true → is_Some (ConvertToFirewallProtocol protocol).
Proof.
  unfold proto_covers, ConvertToFirewallProtocol.
  destruct (protocol =? RuleProtocol_TCP); [by eexists|].
  destruct (protocol =? RuleProtocol_UDP); [by eexists|].
  destruct (protocol =? RuleProtocol_ICMP); [by eexists|].
  destruct (protocol =? RuleProtocol_ALL); [by eexists|]. by destruct pl.
Qed.

(** A content of the map covers a packet exactly when a rule does. *)
Lemma peer_specs_cover nm a src d pl :
  Forall ports_wf (effectiveRules nm) →
  (∃ s, s ∈ peer_specs true nm ∧ rs_action s = a ∧ spec_covers s src d pl = true) ↔
  (∃ r, r ∈ effectiveRules nm ∧ fr_Action r = action_code a ∧ rule_covers r src d pl = true).
Proof.
  intros Hports. destruct (groupPeerRules_spec _ Hports) as (groups & Hg & Hlike & Hin).
  unfold peer_specs. rewrite Hg. fold (specs_of true groups.*2). setoid_rewrite elem_of_specs_of. split.
  - intros (s & (g & Hgm & Hs) & <- & Hc). apply list_elem_of_fmap in Hgm as ([k g'] & -> & Hkg).
    destruct (group_spec_stateful k g' s src d pl (Hlike _ _ Hkg) Hs) as (Hd & Ha & _ & _ & port & Hport & Hcov).
    rewrite Hcov in Hc. apply andb_true_iff in Hc as [Hsrc Hpc].
    apply prefixesContain_elem in Hsrc as (p & Hp & Hpsrc).
    destruct (proj1 (Hin k p)) as (r & srcs & Hr & Hex & Hps & ->); [by exists g'|].
    rewrite Forall_forall in Hports. pose proof (Hports r Hr) as Hrw.
    exists r. split_and!; [done|by apply convertFirewallAction_code in Ha|].
    rewrite key_port_rule in Hport by done. unfold rule_covers. rewrite Hex, Hport.
    rewrite !andb_true_iff, prefixesContain_elem, Z.eqb_eq. eauto.
  - intros (r & Hr & Ha & Hc). unfold rule_covers in Hc.
    destruct (extractRuleSources r) as [srcs|] eqn:Hex; [|by rewrite andb_false_r in Hc].
    destruct (rule_port r) as [port|] eqn:Hport; [|by rewrite andb_false_r in Hc].
    apply andb_true_iff in Hc as [[Hd Hsrc]%andb_true_iff Hpc].
    apply prefixesContain_elem in Hsrc as (p & Hp & Hpsrc). apply Z.eqb_eq in Hd.
    rewrite Forall_forall in Hports. pose proof (Hports r Hr) as Hrw.
    set (k := ruleGroupKey r (prefixIsV6 p)).
    destruct (proj2 (Hin k p)) as (g & Hkg & Hpg); [by exists r, srcs|].
    pose proof (Hlike _ _ Hkg) as Hl. destruct (proto_covers_known _ _ _ _ Hpc) as [proto Hproto].
    assert (∃ s, group_spec true g = inr (Some s)) as [s Hs].
    { destruct Hl as [L1 L2 L3 L4]. unfold group_spec. rewrite L1, L2, L3, L4.
      unfold k. rewrite key_port_rule, Hport by done. simpl. rewrite Hproto, Ha, Hd.
      rewrite (proj2 (convertFirewallAction_code _ a) eq_refl). simpl. by eexists. }
    destruct (group_spec_stateful k g s src d pl Hl Hs) as (_ & Hact & _ & _ & port' & Hport' & Hcov).
    unfold k in Hport'. rewrite key_port_rule, Hport in Hport' by done. simplify_eq.
    exists s. split_and!.
    + exists g. split; [|done]. apply list_elem_of_fmap. by exists (k, g).
    + apply convertFirewallAction_code in Hact. simpl in Hact. rewrite Ha in Hact.
      by destruct a, (rs_action s).
    + rewrite Hcov, andb_true_iff. split; [|done]. apply prefixesContain_elem. eauto.
Qed.

Lemma peer_specs_wf nm s :
  Forall ports_wf (effectiveRules nm) → s ∈ peer_specs true nm →
  known_proto (rs_proto s) ∧ unmapped (rs_sources s) ∧ is_peer s = true.
Proof.
  intros Hports. destruct (groupPeerRules_spec _ Hports) as (groups & Hg & Hlike & Hin).
  unfold peer_specs. rewrite Hg. fold (specs_of true groups.*2). rewrite elem_of_specs_of.
  intros (g & Hgm & Hs). apply list_elem_of_fmap in Hgm as ([k g'] & -> & Hkg). simpl in Hs.
  destruct (group_spec_stateful k g' s AddrInvalid zeroDecoder layerTypeNone (Hlike _ _ Hkg) Hs)
    as (_ & _ & Hk & Hsrc & _). split_and!; [done|..].
  - rewrite Hsrc. apply Forall_forall. intros p Hp.
    destruct (proj1 (Hin k p)) as (r & srcs & _ & Hex & Hps & _); [by exists g'|].
    apply extractRuleSources_unmapped in Hex. unfold unmapped in Hex. rewrite Forall_forall in Hex. auto.
  - unfold group_spec in Hs. repeat (case_match; simplify_eq); done.
Qed.

(** Equal contents: the order of the sources does not matter. *)
Definition same_content (s s' : RuleSpec) : Prop :=
  rs_sources s ≡ₚ rs_sources s' ∧ rs_proto s = rs_proto s' ∧ rs_sPort s = rs_sPort s' ∧
  rs_dPort s = rs_dPort s' ∧ rs_action s = rs_action s'.

Lemma same_content_covers s s' src d pl :
  same_content s s' → spec_covers s src d pl = spec_covers s' src d pl.
Proof.
  intros (Hs & Hp & Hsp & Hdp & _). unfold spec_covers. rewrite Hp, Hsp, Hdp. f_equal.
  apply eq_true_iff_eq. rewrite !prefixesContain_elem. by setoid_rewrite Hs.
Qed.

Section EndToEnd.
Context {MO : MapOrder} (sha256 : string → list Z) (ToUnicode : string → option string).
Context (firewallConfigHash : NetworkMap → bool → option Z).

(** The truncated hash separates the peer rules that were asked for. *)
Definition no_collisions (specs : list RuleSpec) : Prop :=
  ∀ s s', s ∈ specs → s' ∈ specs → is_peer s = true → is_peer s' = true →
    usp_specID sha256 s = usp_specID sha256 s' → same_content s s'.

Definition usp_run (fw0 : UspFw) (us : list Update) : DefaultManager UspFw Rule :=
  acl_run (Firewall0 := usp_firewall sha256) sha256 ToUnicode firewallConfigHash (NewDefaultManager (Some fw0)) us.

(** The peer rules of the filter cover what the contents of the map cover. *)
Lemma filter_covers fw0 fw v us a src d pl :
  let st := true in
  usp_inv fw → peerRulesMap (m_acl (uf_mgr fw0)) = ∅ → usp_inv fw0 →
  v ∈ us → Forall (λ u, Forall ports_wf (effectiveRules (u_nm u)) ∧ update_wf sha256 ToUnicode u) us →
  no_collisions (all_requested sha256 ToUnicode st us) →
  ids_of (FS := usp_firewall_spec sha256) (requested sha256 ToUnicode st v) ⊆ usp_installed fw →
  usp_installed fw ⊆
    ids_of (FS := usp_firewall_spec sha256) (requested sha256 ToUnicode st v) ∪ usp_installed fw0 →
  (∀ s, s ∈ requested sha256 ToUnicode st v → usp_specID sha256 s ∉ usp_installed fw0 →
     ∃ s', s' ∈ all_requested sha256 ToUnicode st us ∧ usp_specID sha256 s' = usp_specID sha256 s ∧
       usp_holds fw (usp_specID sha256 s) s') →
  (∃ r, r ∈ installed (m_acl (uf_mgr fw)) ∧ pr_action r = a ∧ rule_matches r src d pl = true) ↔
  (∃ s, s ∈ peer_specs st (u_nm v) ∧ rs_action s = a ∧ spec_covers s src d pl = true).
Proof.
  intros st Hi He Hi0 Hv Hus Hnc Hsub Hsup Hh.
  rewrite Forall_forall in Hus. destruct (Hus v Hv) as [Hports [_ Hroutes]].
  pose proof (ui_acl _ Hi) as Ha.
  assert (Hfresh : ∀ s, is_peer s = true → usp_specID sha256 s ∉ usp_installed fw0).
  { intros s Hs. unfold usp_installed. rewrite He, dom_empty_L, union_empty_l_L.
    intros Hc%(ui_route _ Hi0). rewrite usp_specID_plain, Hs in Hc. done. }
  (* the rule that stands for a content of the map *)
  assert (Hrule : ∀ s, s ∈ peer_specs st (u_nm v) →
    ∃ r, peerRulesMap (m_acl (uf_mgr fw)) !! usp_specID sha256 s = Some r ∧ r ∈ installed (m_acl (uf_mgr fw)) ∧
      pr_action r = rs_action s ∧ rule_matches r src d pl = spec_covers s src d pl).
  { intros s Hs. destruct (peer_specs_wf _ _ Hports Hs) as (Hk & Hum & Hp).
    assert (Hreq : s ∈ requested sha256 ToUnicode st v) by (apply elem_of_app; by left).
    destruct (Hh s Hreq (Hfresh s Hp)) as (s' & Hs' & Hid & Hhold).
    assert (Hp' : is_peer s' = true).
    { pose proof (usp_specID_plain sha256 s') as E. rewrite Hid, usp_specID_plain, Hp in E. by destruct (is_peer s'). }
    assert (Hsame : same_content s s').
    { apply Hnc; try done. by eapply requested_all. }
    unfold usp_holds in Hhold. rewrite Hp' in Hhold. destruct Hhold as (r & Hr & Has).
    pose proof (proj1 (acl_map _ Ha _ _) Hr) as [Hin _]. exists r. split_and!; try done.
    - destruct Has as (_ & _ & _ & _ & ->). symmetry. apply Hsame.
    - rewrite (peer_as_matches r s'), <- (same_content_covers s s'); try done.
      + by apply (acl_wf _ Ha).
      + destruct Hsame as [Hperm _]. unfold unmapped. by rewrite <- Hperm.
      + destruct Hsame as (_ & <- & _). done. }
  split.
  - intros (r & Hr & Hact & Hm). assert (Hmap : peerRulesMap (m_acl (uf_mgr fw)) !! pr_id r = Some r).
    { by apply (acl_map _ Ha). }
    assert (Hplain : plain (pr_id r) = false) by (apply (ui_peer _ Hi); by apply elem_of_dom_2 in Hmap).
    assert (Hin : pr_id r ∈ usp_installed fw) by (apply elem_of_union; left; by apply elem_of_dom_2 in Hmap).
    apply Hsup, elem_of_union in Hin as [Hin|Hin].
    + unfold ids_of in Hin. apply elem_of_list_to_set, list_elem_of_fmap in Hin as (s & Hid & Hs).
      cbn [fw_specID usp_firewall_spec] in Hid. unfold requested in Hs. apply elem_of_app in Hs as [Hs|Hs].
      * destruct (Hrule s Hs) as (r' & Hr' & _ & Ha' & Hm'). rewrite <- Hid, Hmap in Hr'. simplify_eq.
        exists s. by rewrite <- Ha', <- Hm'.
      * apply Hroutes in Hs. rewrite Hid, usp_specID_plain, Hs in Hplain. done.
    + unfold usp_installed in Hin. rewrite He, dom_empty_L, union_empty_l_L in Hin.
      apply (ui_route _ Hi0) in Hin. congruence.
  - intros (s & Hs & Hact & Hc). destruct (Hrule s Hs) as (r & _ & Hr & Ha' & Hm').
    exists r. by rewrite Ha', Hm'.
Qed.

(** The filter after a run decides like the rules of an update with the
    recorded hash. *)
Lemma run_decides (fw0 : UspFw) us u :
  usp_inv fw0 → peerRulesMap (m_acl (uf_mgr fw0)) = ∅ → IsStateful (uf_mgr fw0) = true →
  Forall (λ u, Forall ports_wf (effectiveRules (u_nm u)) ∧ update_wf sha256 ToUnicode u) (us ++ [u]) →
  no_collisions (all_requested sha256 ToUnicode true (us ++ [u])) →
  let d := usp_run fw0 (us ++ [u]) in
  d_hasAppliedConfig d = true →
  ∃ fw v, d_firewall d = Some fw ∧ v ∈ us ++ [u] ∧
    firewallConfigHash (u_nm v) (u_flag v) = firewallConfigHash (u_nm u) (u_flag u) ∧
    (d_hasAppliedConfig (usp_run fw0 us) = false → v = u) ∧
    ∀ src dec pl, decoded dec !! 1%nat = Some pl →
      ∃ id special, isSpecialICMP dec = Some special ∧
        peerACLsBlock (m_acl (uf_mgr fw)) src dec =
          Some (id, negb special && policy_blocks (u_nm v) src dec pl).
Proof.
  intros Hi0 He Hst Hus Hnc d Happ.
  assert (Hw : Forall (update_wf sha256 ToUnicode) (us ++ [u])) by (eapply Forall_impl; [exact Hus|naive_solver]).
  assert (Hd : d = apply_update (Firewall0 := usp_firewall sha256) sha256 ToUnicode firewallConfigHash
                     (usp_run fw0 us) u) by (unfold d, usp_run, acl_run; by rewrite foldl_app).
  rewrite Hd in Happ.
  destruct (refines_map (FS := usp_firewall_spec sha256) sha256 ToUnicode firewallConfigHash fw0 us u Hi0 Hw Happ)
    as (fw & v & Hfw & Hv & Hhash & Hlast & Hsub & Hsup & Hh & Hinv).
  cbn [fw_IsStateful usp_firewall] in *. rewrite Hst in Hsub, Hsup, Hh.
  exists fw, v. rewrite Hd. split_and!; try done. intros src dec pl Hpl.
  destruct (peerACLsBlock_spec (m_acl (uf_mgr fw)) src dec pl (ui_acl _ Hinv) Hpl) as (id & special & Hsp & Hb & _).
  exists id, special. split; [done|]. rewrite Hb. do 3 f_equal.
  assert (Hports : Forall ports_wf (effectiveRules (u_nm v))).
  { rewrite Forall_forall in Hus. by apply Hus. }
  pose proof (λ a, filter_covers fw0 fw v (us ++ [u]) a src dec pl Hinv He Hi0 Hv Hus Hnc Hsub Hsup Hh) as Hcov.
  pose proof (λ a, peer_specs_cover (u_nm v) a src dec pl Hports) as Hpol.
  assert (Hex : ∀ a rules, (∀ r, r ∈ rules ↔ r ∈ installed (m_acl (uf_mgr fw)) ∧ pr_action r = a) →
    existsb (λ r, rule_matches r src dec pl) rules =
    existsb (λ r, (fr_Action r =? action_code a) && rule_covers r src dec pl) (effectiveRules (u_nm v))).
  { intros a rules Hrules. apply eq_true_iff_eq. rewrite !existsb_exists. setoid_rewrite <- list_elem_of_In.
    setoid_rewrite andb_true_iff. setoid_rewrite Z.eqb_eq.
    rewrite <- (Hpol a), <- (Hcov a). setoid_rewrite Hrules.
    unfold rule_matches. setoid_rewrite andb_true_iff. split; intros (r & Hr); exists r; tauto. }
  unfold acl_blocks, policy_blocks. f_equal; [|f_equal].
  - apply (Hex ActionDrop). intros r. by apply deny_iff, ui_acl.
  - apply (Hex ActionAccept). intros r. by apply accept_iff, ui_acl.
Qed.

(** C12. The whole path from the network map to the packet, on a userspace filter
    that is stateful and starts without peer rules, for well-formed updates
    whose ports fit 16 bits and whose truncated rule hashes do not collide: when
    the ACL manager has recorded a configuration as applied, the filter blocks a
    packet from a peer exactly when the rules of an update with that
    configuration's hash do (the last one, if it was not skipped): ICMP errors
    pass, otherwise deny rules win and no match means block. *)
Theorem acl_decides_policy (fw0 : UspFw) us u :
  usp_inv fw0 → peerRulesMap (m_acl (uf_mgr fw0)) = ∅ → IsStateful (uf_mgr fw0) = true →
  Forall (λ u, Forall ports_wf (effectiveRules (u_nm u)) ∧ update_wf sha256 ToUnicode u) (us ++ [u]) →
  no_collisions (all_requested sha256 ToUnicode true (us ++ [u])) →
  let d := usp_run fw0 (us ++ [u]) in
  d_hasAppliedConfig d = true →
  ∃ fw v, d_firewall d = Some fw ∧ v ∈ us ++ [u] ∧
    firewallConfigHash (u_nm v) (u_flag v) = firewallConfigHash (u_nm u) (u_flag u) ∧
    (d_hasAppliedConfig (usp_run fw0 us) = false → v = u) ∧
    ∀ src dec pl, decoded dec !! 1%nat = Some pl →
      ∃ id special, isSpecialICMP dec = Some special ∧
        peerACLsBlock (m_acl (uf_mgr fw)) src dec =
          Some (id, negb special && policy_blocks (u_nm v) src dec pl).
Proof. exact (run_decides fw0 us u). Qed.
End EndToEnd.
