(* ===== verification/AclCases.v ===== *)
(** * Concrete runs of the ACL manager

    Updates applied to a freshly created userspace filter, as instances of the
    theorems, and runs that show where the code departs from its comments. *)
From S2P Require Import Prelude NetIP Bytes Order FwTypes ConnTrack TCPTrack TimedTable UDPTrack.
From S2P Require Import ICMPTrack Fragment PeerRules RouteRules Checksum DNAT Filter.
From S2P Require Import FilterPaths FilterOps FilterCases NetParse NetipUtil AclManager AclFacts AclRun.
From S2P Require Import AclUsp AclPolicy.
Open Scope Z_scope.

#[local] Existing Instance canonical_order.

(** A hash good enough for a handful of rules. *)
Definition a_sha (s : string) : list Z :=
  be_bytes 32 (foldl (λ h c, (h * (2 ^ 200 + 2 ^ 130 + 257) + (c + 1) * (2 ^ 230 + 1)) mod 2 ^ 256) 7 (codes s)).

Definition a_unicode (s : string) : option string := Some s.
Definition a_hash (nm : NetworkMap) (flag : bool) : option Z :=
  Some (Z.of_nat (length (nm_FirewallRules nm))).

Definition a_fw0 : UspFw := {| uf_mgr := c_create; uf_seed := 0 |}.

Definition a_rule (peer : list (list Z)) (action proto : Z) (port : option PortInfo) : FirewallRule :=
  {| fr_PeerIP := ""; fr_Direction := RuleDirection_IN; fr_Action := action; fr_Protocol := proto;
     fr_Port := ""; fr_PortInfo := port; fr_PolicyID := [112; 49]; fr_SourcePrefixes := peer |}.

Definition a_legacy : FirewallRule :=
  {| fr_PeerIP := "100.64.0.3"; fr_Direction := RuleDirection_IN; fr_Action := RuleAction_ACCEPT;
     fr_Protocol := RuleProtocol_UDP; fr_Port := "53"; fr_PortInfo := None; fr_PolicyID := [];
     fr_SourcePrefixes := [] |}.

Definition a_route : RouteFirewallRule :=
  {| rf_SourceRanges := ["100.64.0.2/32"]; rf_Action := RuleAction_ACCEPT; rf_Destination := "10.1.0.0/16";
     rf_Protocol := RuleProtocol_ALL; rf_PortInfo := None; rf_IsDynamic := false; rf_Domains := [];
     rf_PolicyID := [112; 50] |}.

Definition a_dynamic : RouteFirewallRule :=
  {| rf_SourceRanges := ["100.64.0.2/32"]; rf_Action := RuleAction_ACCEPT; rf_Destination := "";
     rf_Protocol := RuleProtocol_TCP; rf_PortInfo := Some (PortSingle 443); rf_IsDynamic := true;
     rf_Domains := ["Example.com"]; rf_PolicyID := [112; 50] |}.

Definition peer2 : list Z := [100; 64; 0; 2; 32].
Definition peer4 : list Z := [100; 64; 0; 4; 32].

Definition a_nm1 : NetworkMap :=
  {| nm_FirewallRules :=
       [a_rule [peer2] RuleAction_ACCEPT RuleProtocol_TCP (Some (PortSingle 22));
        a_rule [peer4] RuleAction_ACCEPT RuleProtocol_TCP (Some (PortSingle 22)); a_legacy;
        a_rule [peer4] RuleAction_DROP RuleProtocol_ALL None];
     nm_FirewallRulesIsEmpty := false; nm_RoutesFirewallRules := [a_route; a_dynamic];
     nm_RoutesFirewallRulesIsEmpty := false |}.

Definition a_nm2 : NetworkMap :=
  {| nm_FirewallRules := [a_rule [peer2] RuleAction_ACCEPT RuleProtocol_TCP (Some (PortSingle 22))];
     nm_FirewallRulesIsEmpty := false; nm_RoutesFirewallRules := [a_route];
     nm_RoutesFirewallRulesIsEmpty := false |}.

Definition a_u (nm : NetworkMap) : Update := {| u_nm := nm; u_flag := true; u_seed1 := 0; u_seed2 := 0 |}.

Definition a_run (us : list Update) : DefaultManager UspFw Rule := usp_run a_sha a_unicode a_hash a_fw0 us.

(** The two accept rules for port 22 are one rule of the filter. *)
Example a_run_sizes :
  let d := a_run [a_u a_nm1] in
  size (d_peerRulesPairs d) = 3%nat ∧ size (d_routeRules d) = 2%nat ∧ d_hasAppliedConfig d = true.
Proof. by vm_compute. Qed.

Example a_run_shrinks :
  let d := a_run [a_u a_nm1; a_u a_nm2] in
  size (d_peerRulesPairs d) = 1%nat ∧ size (d_routeRules d) = 1%nat ∧ d_hasAppliedConfig d = true.
Proof. by vm_compute. Qed.

(** ** Instances of the theorems *)

Lemma a_inv : usp_inv a_fw0.
Proof.
  constructor; simpl; [apply NewPeerACL_inv|apply NewRouteACL_inv|..]; intros i Hi; set_solver.
Qed.

(** A map whose rules only carry bytes and name no zero set. *)
Definition a_wf_test (nm : NetworkMap) : bool :=
  bool_decide (Forall (λ r, Forall bytes (fr_SourcePrefixes r)) (nm_FirewallRules nm)) &&
  forallb (λ s, negb (is_peer s)) (route_specs a_sha a_unicode true nm).

Lemma a_wf nm : a_wf_test nm = true → update_wf a_sha a_unicode (a_u nm).
Proof.
  intros [Hb Hs]%andb_true_iff. apply bool_decide_eq_true in Hb. split; simpl.
  - intros r raw Hr Hraw. rewrite Forall_forall in Hb. specialize (Hb r Hr).
    rewrite Forall_forall in Hb. by apply Hb.
  - intros s Hin%list_elem_of_In. rewrite forallb_forall in Hs. by apply negb_true_iff, Hs.
Qed.

Lemma a_wf1 : update_wf a_sha a_unicode (a_u a_nm1).
Proof. apply a_wf. by vm_compute. Qed.

Lemma a_wf2 : update_wf a_sha a_unicode (a_u a_nm2).
Proof. apply a_wf. by vm_compute. Qed.

Lemma acl_no_leak_witness :
  ∃ fw, d_firewall (a_run [a_u a_nm1; a_u a_nm2]) = Some fw ∧
    fw_installed (FirewallSpec := usp_firewall_spec a_sha) fw ⊆
      tracked (a_run [a_u a_nm1; a_u a_nm2]) ∪ ∅.
Proof.
  destruct (acl_no_leak (FS := usp_firewall_spec a_sha) a_sha a_unicode a_hash a_fw0
              [a_u a_nm1; a_u a_nm2] a_inv) as (fw & Hfw & Hsub & _).
  - repeat constructor; [apply a_wf1|apply a_wf1|apply a_wf2|apply a_wf2].
  - exists fw. split; [exact Hfw|exact Hsub].
Defined.

Lemma acl_refines_map_witness :
  ∃ fw v, d_firewall (a_run [a_u a_nm1; a_u a_nm2]) = Some fw ∧ v ∈ [a_u a_nm1; a_u a_nm2] ∧
    ids_of (FS := usp_firewall_spec a_sha) (requested a_sha a_unicode true v) ⊆
      fw_installed (FirewallSpec := usp_firewall_spec a_sha) fw.
Proof.
  destruct (acl_refines_map (FS := usp_firewall_spec a_sha) a_sha a_unicode a_hash a_fw0
              [a_u a_nm1] (a_u a_nm2) a_inv) as (fw & v & Hfw & Hv & _ & _ & Hsub & _).
  - repeat constructor; [apply a_wf1|apply a_wf1|apply a_wf2|apply a_wf2].
  - by vm_compute.
  - exists fw, v. split; [exact Hfw|]. split; [exact Hv|exact Hsub].
Defined.

(** A map with a deny rule whose source does not decode. *)
Definition a_bad : NetworkMap :=
  {| nm_FirewallRules := [a_rule [[1; 2]] RuleAction_DROP RuleProtocol_ALL None;
                          a_rule [peer4] RuleAction_ACCEPT RuleProtocol_ALL None];
     nm_FirewallRulesIsEmpty := false; nm_RoutesFirewallRules := [];
     nm_RoutesFirewallRulesIsEmpty := false |}.

Lemma a_bad_bytes r raw : r ∈ nm_FirewallRules a_bad → raw ∈ fr_SourcePrefixes r → bytes raw.
Proof. apply (nw_bytes _ _ _ _ (a_wf a_bad ltac:(by vm_compute))). Qed.

Lemma deny_fail_closed_witness :
  ∃ fw, d_firewall (a_run [a_u a_nm1]) = Some fw ∧
    (applyPeerACLs (Firewall0 := usp_firewall a_sha) 0 fw (d_peerRulesPairs (a_run [a_u a_nm1])) a_bad).2 ≠ [].
Proof.
  destruct (deny_fail_closed (FS := usp_firewall_spec a_sha) a_sha a_unicode a_hash a_fw0
              [a_u a_nm1] 0 a_bad a_inv) as (fw & Hfw & Hfail).
  - constructor; [apply a_wf1|constructor].
  - exact a_bad_bytes.
  - exists fw. split; [exact Hfw|].
    specialize (Hfail ltac:(by vm_compute)).
    change (acl_run (Firewall0 := usp_firewall a_sha) a_sha a_unicode a_hash (NewDefaultManager (Some a_fw0))
              [a_u a_nm1]) with (a_run [a_u a_nm1]) in Hfail.
    destruct (applyPeerACLs 0 fw _ a_bad) as [[fw' pairs'] errs]. exact (proj1 Hfail).
Defined.

(** The identifiers asked for are distinct. *)
Lemma ids_distinct specs :
  NoDup (usp_specID a_sha <$> specs) → no_collisions a_sha specs.
Proof.
  intros Hnd s s' Hs Hs' _ _ Hid. assert (s = s') as ->; [|by split_and!].
  apply list_elem_of_lookup in Hs as [i Hi], Hs' as [j Hj].
  assert (i = j) as ->; [|congruence].
  eapply (NoDup_lookup _ _ _ (usp_specID a_sha s) Hnd); rewrite list_lookup_fmap; [by rewrite Hi|].
  rewrite Hj. simpl. by f_equal.
Qed.

Definition a_ports_test (nm : NetworkMap) : bool :=
  forallb (λ r, match fr_PortInfo r with
                | Some (PortSingle p) => (0 <=? p) && (p <? 65536)
                | Some (PortRange_ _) => false
                | _ => true end) (effectiveRules nm).

Lemma a_ports nm : a_ports_test nm = true → Forall ports_wf (effectiveRules nm).
Proof.
  intros Ht. apply Forall_forall. intros r Hr%list_elem_of_In. unfold a_ports_test in Ht.
  rewrite forallb_forall in Ht. specialize (Ht r Hr). unfold ports_wf.
  destruct (fr_PortInfo r) as [[|p|[]]|]; try done. apply andb_true_iff in Ht as [H1 H2].
  apply Z.leb_le in H1. apply Z.ltb_lt in H2. by split.
Qed.

Lemma acl_decides_policy_witness :
  ∃ fw v, d_firewall (a_run [a_u a_nm1]) = Some fw ∧ v ∈ [a_u a_nm1] ∧
    ∃ id special, isSpecialICMP pw_decoder = Some special ∧
      peerACLsBlock (m_acl (uf_mgr fw)) pw_src pw_decoder =
        Some (id, negb special && policy_blocks (u_nm v) pw_src pw_decoder LayerTypeTCP).
Proof.
  destruct (acl_decides_policy a_sha a_unicode a_hash a_fw0 [] (a_u a_nm1) a_inv)
    as (fw & v & Hfw & Hv & _ & _ & Hdec); [reflexivity|reflexivity|..].
  - constructor; [|constructor]. split; [apply a_ports; by vm_compute|apply a_wf1].
  - apply ids_distinct. eapply bool_decide_eq_true_1. by vm_compute.
  - by vm_compute.
  - exists fw, v. split; [exact Hfw|]. split; [exact Hv|]. apply Hdec. reflexivity.
Defined.

(** ** Departures from the comments *)

(** The key of a group keeps sixteen bits of a port, so a rule for port 65536
    and a rule without ports share a key, and the group takes the port of
    whichever rule comes first: here the rule of one peer for that port lets
    all its traffic in. *)
Theorem port_key_truncated :
  let r1 := a_rule [peer4] RuleAction_ACCEPT RuleProtocol_TCP None in
  let r2 := a_rule [peer2] RuleAction_ACCEPT RuleProtocol_TCP (Some (PortSingle 65536)) in
  ruleGroupKey r1 false = ruleGroupKey r2 false ∧
  ∃ g, (groupPeerRules [r1; r2]).1.1 = [g] ∧ resolveGroupPort g = Some None ∧
    length (g_sources g) = 2%nat.
Proof.
  intros r1 r2. split; [reflexivity|]. eexists. split; [vm_compute; reflexivity|].
  split; reflexivity.
Qed.

(** The hash of a domain set runs the domains together, so different sets can
    have the same name, and rules that differ only in such sets the same
    identifier: the second one is never installed. *)
Theorem domain_set_not_unique sha256 ToUnicode :
  HashedName (NewDomainSet sha256 ToUnicode ["a.com"; "b.com"]) =
  HashedName (NewDomainSet sha256 ToUnicode ["a.comb.com"]).
Proof. reflexivity. Qed.
