(* ===== verification/RelayMessages.v ===== *)
(** * Messages between the relay server and its clients

    [shared/relay/messages]: the header, the authentication, transport and
    peer-state messages, and their readers.  Buffers are byte lists; the
    in-place writes of the code ([msg\[i\] = b], [copy]) are written out. *)
From S2P Require Import Prelude NetIP Bytes Order.
Open Scope Z_scope.

(** ** Constants *)
Definition MaxHandshakeSize : nat := 212.
Definition MaxHandshakeRespSize : nat := 8192.
Definition MaxMessageSize : nat := 8820.
Definition CurrentProtocolVersion : Z := 1.

Definition MsgTypeUnknown : Z := 0.
Definition MsgTypeHello : Z := 1.
Definition MsgTypeHelloResponse : Z := 2.
Definition MsgTypeTransport : Z := 3.
Definition MsgTypeClose : Z := 4.
Definition MsgTypeHealthCheck : Z := 5.
Definition MsgTypeAuth : Z := 6.
Definition MsgTypeAuthResponse : Z := 7.
Definition MsgTypeSubscribePeerState : Z := 8.
Definition MsgTypeUnsubscribePeerState : Z := 9.
Definition MsgTypePeersOnline : Z := 10.
Definition MsgTypePeersWentOffline : Z := 11.

Definition prefixLength : nat := 4.
Definition sha256_Size : nat := 32.
Definition peerIDSize : nat := prefixLength + sha256_Size.

Definition sizeOfProtoHeader : nat := 1 + 1.
Definition sizeOfMagicByte : nat := 4.
Definition offsetMagicByte : nat := sizeOfProtoHeader.
Definition offsetAuthPeerID : nat := sizeOfProtoHeader + sizeOfMagicByte.
Definition headerTotalSizeAuth : nat := sizeOfProtoHeader + (sizeOfMagicByte + peerIDSize).
Definition offsetTransportID : nat := sizeOfProtoHeader.
Definition headerTotalSizeTransport : nat := sizeOfProtoHeader + peerIDSize.
Definition magicHeader : list Z := [0x21; 0x12; 0xA4; 0x42].

(** ** Values *)

(** [PeerID], a [\[peerIDSize\]byte]: a list of that length. *)
Definition PeerID : Type := list Z.
Definition peerID_wf (id : PeerID) : Prop := length id = peerIDSize ∧ bytes id.

(** [HashID]; [Sum256] is [sha256.Sum256]. *)
Definition HashID (Sum256 : list Z → list Z) (peerID : string) : PeerID :=
  codes "sha-" ++ Sum256 (codes peerID).

(** The errors of the package. *)
Inductive MsgError :=
  | ErrInvalidMessageLength | ErrUnsupportedVersion | ErrInvalidMsgType | ErrInvalidMagic
  | ErrTooLarge | ErrNoPeers | ErrFormat | ErrPeerListSize.

#[global] Instance MsgError_eq_dec : EqDecision MsgError.
Proof. solve_decision. Defined.

Definition MsgRes (A : Type) : Type := (MsgError + A)%type.

(** [make(\[\]byte, n)] and [copy(dst\[off:\], src)], which stops at the shorter
    of the two. *)
Definition make_bytes (n : nat) : list Z := replicate n 0.

Definition copy_at (dst : list Z) (off : nat) (src : list Z) : list Z :=
  take off dst ++ take (length dst - off) src ++ drop (off + length src) dst.

(** ** Headers *)

Definition ValidateVersion (msg : list Z) : MsgRes Z :=
  match msg with
  | v :: _ :: _ => if v =? CurrentProtocolVersion then inr v else inl ErrUnsupportedVersion
  | _ => inl ErrInvalidMessageLength
  end.

Definition client_types : list Z :=
  [MsgTypeAuth; MsgTypeTransport; MsgTypeClose; MsgTypeHealthCheck; MsgTypeSubscribePeerState;
   MsgTypeUnsubscribePeerState].

Definition server_types : list Z :=
  [MsgTypeAuthResponse; MsgTypeTransport; MsgTypeClose; MsgTypeHealthCheck; MsgTypePeersOnline;
   MsgTypePeersWentOffline].

Definition determine (types : list Z) (msg : list Z) : MsgRes Z :=
  match msg with
  | _ :: t :: _ => if contains types t then inr t else inl ErrInvalidMsgType
  | _ => inl ErrInvalidMessageLength
  end.

Definition DetermineClientMessageType : list Z → MsgRes Z := determine client_types.
Definition DetermineServerMessageType : list Z → MsgRes Z := determine server_types.

(** [MsgType.String]. *)
Definition MsgType_String (m : Z) : string :=
  if m =? MsgTypeHello then "hello"
  else if m =? MsgTypeHelloResponse then "hello response"
  else if m =? MsgTypeAuth then "auth"
  else if m =? MsgTypeAuthResponse then "auth response"
  else if m =? MsgTypeTransport then "transport"
  else if m =? MsgTypeClose then "close"
  else if m =? MsgTypeHealthCheck then "health check"
  else if m =? MsgTypeSubscribePeerState then "subscribe peer state"
  else if m =? MsgTypeUnsubscribePeerState then "unsubscribe peer state"
  else if m =? MsgTypePeersOnline then "peers online"
  else if m =? MsgTypePeersWentOffline then "peers went offline"
  else "unknown".

(** A fresh buffer of [n] bytes with its header. *)
Definition new_msg (n : nat) (t : Z) : list Z :=
  <[1%nat := t]> (<[0%nat := CurrentProtocolVersion]> (make_bytes n)).

(** ** Authentication *)

Definition MarshalAuthMsg (peerID : PeerID) (authPayload : list Z) : MsgRes (list Z) :=
  if (MaxHandshakeSize <? headerTotalSizeAuth + length authPayload)%nat then inl ErrTooLarge
  else
    let msg := new_msg (headerTotalSizeAuth + length authPayload) MsgTypeAuth in
    let msg := copy_at msg sizeOfProtoHeader magicHeader in
    let msg := copy_at msg offsetAuthPeerID peerID in
    inr (copy_at msg headerTotalSizeAuth authPayload).

Definition UnmarshalAuthMsg (msg : list Z) : MsgRes (PeerID * list Z) :=
  if (length msg <? headerTotalSizeAuth)%nat then inl ErrInvalidMessageLength
  else if negb (bool_decide (slice msg offsetMagicByte sizeOfMagicByte = magicHeader))
  then inl ErrInvalidMagic
  else inr (slice msg offsetAuthPeerID peerIDSize, drop headerTotalSizeAuth msg).

Definition MarshalAuthResponse (address : list Z) : MsgRes (list Z) :=
  let msg := new_msg sizeOfProtoHeader MsgTypeAuthResponse ++ address in
  if (MaxHandshakeRespSize <? length msg)%nat then inl ErrInvalidMessageLength else inr msg.

Definition UnmarshalAuthResponse (msg : list Z) : MsgRes (list Z) :=
  if (length msg <? sizeOfProtoHeader + 1)%nat then inl ErrInvalidMessageLength
  else inr (drop sizeOfProtoHeader msg).

(** ** Transport, close, health check *)

Definition MarshalCloseMsg : list Z := [CurrentProtocolVersion; MsgTypeClose].
Definition MarshalHealthcheck : list Z := [CurrentProtocolVersion; MsgTypeHealthCheck].

Definition MarshalTransportMsg (peerID : PeerID) (payload : list Z) : list Z :=
  let msg := new_msg (headerTotalSizeTransport + length payload) MsgTypeTransport in
  let msg := copy_at msg sizeOfProtoHeader peerID in
  copy_at msg (sizeOfProtoHeader + peerIDSize) payload.

Definition UnmarshalTransportID (buf : list Z) : MsgRes PeerID :=
  if (length buf <? headerTotalSizeTransport)%nat then inl ErrInvalidMessageLength
  else inr (copy_at (make_bytes peerIDSize) 0 (slice buf offsetTransportID peerIDSize)).

Definition UnmarshalTransportMsg (buf : list Z) : MsgRes (PeerID * list Z) :=
  if (length buf <? headerTotalSizeTransport)%nat then inl ErrInvalidMessageLength
  else inr (copy_at (make_bytes peerIDSize) 0 (slice buf offsetTransportID peerIDSize),
            drop headerTotalSizeTransport buf).

(** The message is rewritten in place; the result is the buffer afterwards. *)
Definition UpdateTransportMsg (msg : list Z) (peerID : PeerID) : MsgRes (list Z) :=
  if (length msg <? offsetTransportID + peerIDSize)%nat then inl ErrInvalidMessageLength
  else inr (copy_at msg offsetTransportID peerID).

(** ** Lists of peers *)

Definition maxPeersPerMessage : nat :=
  Z.to_nat ((Z.of_nat MaxMessageSize - Z.of_nat sizeOfProtoHeader) / Z.of_nat peerIDSize).

(** [for _, id := range chunk { copy(buf\[offset:\], id\[:\]); offset += peerIDSize }]. *)
Fixpoint put_ids (buf : list Z) (offset : nat) (chunk : list PeerID) : list Z :=
  match chunk with
  | [] => buf
  | id :: chunk' => put_ids (copy_at buf offset id) (offset + peerIDSize) chunk'
  end.

Definition marshal_chunk (msgType : Z) (chunk : list PeerID) : list Z :=
  put_ids (new_msg (sizeOfProtoHeader + length chunk * peerIDSize) msgType) sizeOfProtoHeader chunk.

(** [for i := 0; i < len(ids); i += maxPeersPerMessage]; [None] when the fuel
    runs out. *)
Fixpoint marshal_loop (fuel : nat) (ids : list PeerID) (msgType : Z) (i : nat)
    (messages : list (list Z)) : option (list (list Z)) :=
  if (i <? length ids)%nat then
    match fuel with
    | O => None
    | S fuel' =>
        let e := (i + maxPeersPerMessage)%nat in
        let e := if (length ids <? e)%nat then length ids else e in
        let chunk := take (e - i) (drop i ids) in
        marshal_loop fuel' ids msgType (i + maxPeersPerMessage)
          (messages ++ [marshal_chunk msgType chunk])
    end
  else Some messages.

Definition marshalPeerIDs (ids : list PeerID) (msgType : Z) : MsgRes (list (list Z)) :=
  match ids with
  | [] => inl ErrNoPeers
  | _ => inr (default [] (marshal_loop (length ids) ids msgType 0 []))
  end.

(** [for i := 0; i < numIDs; i++]. *)
Fixpoint unmarshal_loop (n : nat) (buf : list Z) (offset : nat) : list PeerID :=
  match n with
  | O => []
  | S n' => copy_at (make_bytes peerIDSize) 0 (slice buf offset peerIDSize)
              :: unmarshal_loop n' buf (offset + peerIDSize)
  end.

Definition unmarshalPeerIDs (buf : list Z) : MsgRes (list PeerID) :=
  if (length buf <? sizeOfProtoHeader)%nat then inl ErrFormat
  else if negb ((length buf - sizeOfProtoHeader) mod peerIDSize =? 0)%nat then inl ErrPeerListSize
  else inr (unmarshal_loop ((length buf - sizeOfProtoHeader) / peerIDSize) buf sizeOfProtoHeader).

Definition MarshalSubPeerStateMsg (ids : list PeerID) := marshalPeerIDs ids MsgTypeSubscribePeerState.
Definition UnmarshalSubPeerStateMsg := unmarshalPeerIDs.
Definition MarshalUnsubPeerStateMsg (ids : list PeerID) := marshalPeerIDs ids MsgTypeUnsubscribePeerState.
Definition UnmarshalUnsubPeerStateMsg := unmarshalPeerIDs.
Definition MarshalPeersOnline (ids : list PeerID) := marshalPeerIDs ids MsgTypePeersOnline.
Definition UnmarshalPeersOnlineMsg := unmarshalPeerIDs.
Definition MarshalPeersWentOffline (ids : list PeerID) := marshalPeerIDs ids MsgTypePeersWentOffline.
Definition UnMarshalPeersWentOffline := unmarshalPeerIDs.
