(* ===== verification/RelayCodec.v ===== *)
(** * The relay codec

    What the writers of [RelayMessages] produce and that the readers give it
    back: exact layouts, size limits, termination of the chunk loop and the
    round trips. *)
From S2P Require Import Prelude NetIP Bytes Order RelayMessages.
Open Scope Z_scope.

Lemma maxPeers_eq : maxPeersPerMessage = 244%nat.
Proof. reflexivity. Qed.

Lemma peerIDSize_eq : peerIDSize = 36%nat.
Proof. reflexivity. Qed.

#[local] Opaque peerIDSize maxPeersPerMessage.

(** Arithmetic on the sizes of header fields. *)
Ltac sizes :=
  change (length magicHeader) with 4%nat in *; unfold sizeOfMagicByte, sizeOfProtoHeader in *;
  cbn [length] in *; lia.

(** ** Buffers *)

(** Filling the next free part of a buffer. *)
Lemma copy_at_fill hd m src :
  (length src <= m)%nat →
  copy_at (hd ++ make_bytes m) (length hd) src = (hd ++ src) ++ make_bytes (m - length src).
Proof.
  intros Hm. unfold copy_at, make_bytes. rewrite take_app_length, length_app, length_replicate.
  rewrite take_ge by lia. rewrite drop_app_ge, <- (app_assoc hd) by lia.
  replace (length hd + length src - length hd)%nat with (length src) by lia.
  by rewrite drop_replicate.
Qed.

Lemma new_msg_eq n t :
  new_msg (sizeOfProtoHeader + n) t = [CurrentProtocolVersion; t] ++ make_bytes n.
Proof. reflexivity. Qed.

(** Overwriting a field of the same length. *)
Lemma copy_at_field hd old src tl :
  length old = length src → copy_at (hd ++ old ++ tl) (length hd) src = hd ++ src ++ tl.
Proof.
  intros Hl. unfold copy_at. rewrite take_app_length, !length_app. rewrite take_ge by lia.
  rewrite drop_app_ge by lia. replace (length hd + length src - length hd)%nat with (length old) by lia.
  by rewrite drop_app_length.
Qed.

Lemma read_id id : length id = peerIDSize → copy_at (make_bytes peerIDSize) 0 id = id.
Proof.
  intros Hl. pose proof (copy_at_field [] (make_bytes peerIDSize) id []) as H.
  rewrite !app_nil_l, !app_nil_r in H. apply H. unfold make_bytes. by rewrite length_replicate.
Qed.

Lemma slice_field hd id tl : slice (hd ++ id ++ tl) (length hd) (length id) = id.
Proof. unfold slice. by rewrite drop_app_length, take_app_length. Qed.

Lemma length_copy_at dst off src :
  (off + length src <= length dst)%nat → length (copy_at dst off src) = length dst.
Proof. intros H. unfold copy_at. rewrite !length_app, !length_take, length_drop. lia. Qed.

(** ** Layouts *)

Lemma MarshalTransportMsg_layout id payload :
  length id = peerIDSize →
  MarshalTransportMsg id payload = [CurrentProtocolVersion; MsgTypeTransport] ++ id ++ payload.
Proof.
  intros Hl. unfold MarshalTransportMsg, headerTotalSizeTransport. rewrite <- Nat.add_assoc, new_msg_eq.
  rewrite (copy_at_fill [_; _]) by lia.
  replace (sizeOfProtoHeader + peerIDSize)%nat
    with (length ([CurrentProtocolVersion; MsgTypeTransport] ++ id)) by (rewrite length_app, Hl; done).
  rewrite copy_at_fill by lia. replace (_ - _ - _)%nat with 0%nat by lia. simpl. by rewrite app_nil_r.
Qed.

(** The layout of an authentication message. *)
Definition auth_msg (id : PeerID) (token : list Z) : list Z :=
  [CurrentProtocolVersion; MsgTypeAuth] ++ magicHeader ++ id ++ token.

Lemma auth_msg_read id token :
  length id = peerIDSize → UnmarshalAuthMsg (auth_msg id token) = inr (id, token).
Proof.
  intros Hl. unfold UnmarshalAuthMsg, auth_msg. set (h := [CurrentProtocolVersion; MsgTypeAuth]).
  rewrite (proj2 (Nat.ltb_ge _ _)).
  2:{ subst h. rewrite !length_app, Hl. unfold headerTotalSizeAuth. sizes. }
  rewrite bool_decide_true by exact (slice_field h magicHeader (id ++ token)). cbn [negb].
  rewrite <- Hl, (app_assoc h). do 2 f_equal; [exact (slice_field (h ++ magicHeader) id token)|].
  replace headerTotalSizeAuth with (length ((h ++ magicHeader) ++ id)) by (rewrite length_app, Hl; done).
  by rewrite (app_assoc _ id token), drop_app_length.
Qed.

Lemma MarshalAuthMsg_layout id payload :
  length id = peerIDSize → (headerTotalSizeAuth + length payload <= MaxHandshakeSize)%nat →
  MarshalAuthMsg id payload = inr (auth_msg id payload).
Proof.
  intros Hl Hs. unfold MarshalAuthMsg.
  rewrite (proj2 (Nat.ltb_ge _ _) Hs). unfold headerTotalSizeAuth.
  rewrite <- !Nat.add_assoc, new_msg_eq, (copy_at_fill [_; _]) by sizes.
  set (h := [CurrentProtocolVersion; MsgTypeAuth]).
  change offsetAuthPeerID with (length (h ++ magicHeader)). rewrite copy_at_fill by sizes.
  replace (sizeOfProtoHeader + (sizeOfMagicByte + peerIDSize))%nat
    with (length ((h ++ magicHeader) ++ id)) by (rewrite length_app, Hl; done).
  rewrite copy_at_fill by sizes. f_equal.
  replace (_ - _ - _ - _)%nat with 0%nat by sizes. unfold make_bytes. simpl.
  by rewrite app_nil_r.
Qed.

Lemma length_concat_ids (ids : list PeerID) :
  Forall peerID_wf ids → length (concat ids) = (length ids * peerIDSize)%nat.
Proof.
  induction 1 as [|id ids [Hl _] _ IH]; [done|]. simpl. rewrite length_app, IH, Hl. lia.
Qed.

Lemma put_ids_layout hd ids :
  Forall peerID_wf ids →
  put_ids (hd ++ make_bytes (length ids * peerIDSize)) (length hd) ids = hd ++ concat ids.
Proof.
  intros Hids. revert hd. induction Hids as [|id ids [Hl _] _ IH]; intros hd; simpl; [done|].
  rewrite copy_at_fill by lia.
  replace (peerIDSize + length ids * peerIDSize - length id)%nat with (length ids * peerIDSize)%nat by lia.
  replace (length hd + peerIDSize)%nat with (length (hd ++ id)) by (rewrite length_app; lia).
  rewrite IH. by rewrite <- app_assoc.
Qed.

Lemma marshal_chunk_layout t ids :
  Forall peerID_wf ids → marshal_chunk t ids = [CurrentProtocolVersion; t] ++ concat ids.
Proof.
  intros Hids. unfold marshal_chunk. rewrite new_msg_eq. apply (put_ids_layout [_; _] ids Hids).
Qed.

(** ** Reading lists of peers *)

Lemma unmarshal_loop_spec hd ids :
  Forall peerID_wf ids → unmarshal_loop (length ids) (hd ++ concat ids) (length hd) = ids.
Proof.
  intros Hids. revert hd. induction Hids as [|id ids [Hl _] _ IH]; intros hd; simpl; [done|].
  rewrite <- Hl at 2. rewrite slice_field, read_id by done. f_equal.
  replace (length hd + peerIDSize)%nat with (length (hd ++ id)) by (rewrite length_app; lia).
  rewrite app_assoc. apply IH.
Qed.

Lemma unmarshal_chunk t ids :
  Forall peerID_wf ids → unmarshalPeerIDs (marshal_chunk t ids) = inr ids.
Proof.
  intros Hids. rewrite marshal_chunk_layout by done. unfold unmarshalPeerIDs.
  rewrite length_app, length_concat_ids by done. cbn [length].
  rewrite (proj2 (Nat.ltb_ge _ _)) by (unfold sizeOfProtoHeader; lia).
  replace (2 + _ - sizeOfProtoHeader)%nat with (length ids * peerIDSize)%nat by (unfold sizeOfProtoHeader; lia).
  rewrite Nat.Div0.mod_mul, Nat.div_mul by (rewrite peerIDSize_eq; done). cbn [Nat.eqb negb].
  f_equal. exact (unmarshal_loop_spec [CurrentProtocolVersion; t] ids Hids).
Qed.

(** ** The chunk loop *)

(** Rounds that the loop still has to make from index [i]. *)
Definition rounds (n i : nat) : nat := ((n - i + (maxPeersPerMessage - 1)) / maxPeersPerMessage)%nat.

Lemma rounds_0 n i : (n <= i)%nat → rounds n i = 0%nat.
Proof. intros H. unfold rounds. rewrite maxPeers_eq. apply Nat.div_small. lia. Qed.

Lemma rounds_S n i : (i < n)%nat → rounds n i = S (rounds n (i + maxPeersPerMessage)).
Proof.
  intros H. unfold rounds. rewrite maxPeers_eq.
  destruct (decide (n <= i + 244)%nat) as [Hl|Hl].
  - replace (n - (i + 244))%nat with 0%nat by lia.
    replace (n - i + (244 - 1))%nat with (n - i - 1 + 1 * 244)%nat by lia.
    rewrite Nat.div_add, !Nat.div_small by lia. done.
  - replace (n - i + (244 - 1))%nat with (n - (i + 244) + (244 - 1) + 1 * 244)%nat by lia.
    rewrite Nat.div_add by lia. lia.
Qed.

(** With enough fuel for the rounds the loop returns; without, it does not. *)
Lemma marshal_loop_short fuel ids t i acc :
  (fuel < rounds (length ids) i)%nat → marshal_loop fuel ids t i acc = None.
Proof.
  revert i acc. induction fuel as [|fuel IH]; intros i acc Hf; simpl;
    (destruct (Nat.ltb_spec i (length ids)) as [Hi|Hi]; [|rewrite rounds_0 in Hf by lia; lia]); [done|].
  apply IH. rewrite rounds_S in Hf by lia. lia.
Qed.

(** What the loop appends: full chunks, in order, and a last one. *)
Lemma marshal_loop_spec fuel ids t i acc :
  (rounds (length ids) i <= fuel)%nat →
  ∃ cs, marshal_loop fuel ids t i acc = Some (acc ++ (marshal_chunk t <$> cs)) ∧
    concat cs = drop i ids ∧ length cs = rounds (length ids) i ∧
    Forall (λ c, 0 < length c ∧ length c <= maxPeersPerMessage)%nat cs.
Proof.
  revert i acc. induction fuel as [|fuel IH]; intros i acc Hf; simpl;
    destruct (Nat.ltb_spec i (length ids)) as [Hi|Hi].
  - rewrite rounds_S in Hf by lia. lia.
  - exists []. rewrite app_nil_r, rounds_0, drop_ge by lia. by split_and!.
  - rewrite rounds_S in Hf by lia.
    edestruct (IH (i + maxPeersPerMessage)%nat) as (cs & -> & Hc & Hl & Hs); [lia|].
    eexists (_ :: cs). rewrite fmap_cons, <- app_assoc, rounds_S, <- Hl by lia. simpl.
    split_and!; [done|rewrite Hc|done|constructor; [|done]].
    + rewrite <- drop_drop. destruct (Nat.ltb_spec (length ids) (i + maxPeersPerMessage)) as [Hb|Hb].
      * rewrite !take_ge by (rewrite length_drop; lia). rewrite (drop_ge (drop _ _)); [by rewrite app_nil_r|].
        rewrite length_drop. lia.
      * replace (i + maxPeersPerMessage - i)%nat with maxPeersPerMessage by lia. apply take_drop.
    + rewrite length_take, length_drop. rewrite maxPeers_eq.
      destruct (Nat.ltb_spec (length ids) (i + 244)); lia.
  - exists []. rewrite app_nil_r, rounds_0, drop_ge by lia. by split_and!.
Qed.

Lemma rounds_le n i : (rounds n i <= n - i)%nat.
Proof.
  unfold rounds. rewrite maxPeers_eq. destruct (n - i)%nat; [by rewrite Nat.div_small by lia|].
  apply Nat.Div0.div_le_upper_bound. lia.
Qed.

(** All results of a list of reads, or none. *)
Definition read_all {A} (f : list Z → MsgRes A) (msgs : list (list Z)) : option (list A) :=
  mapM (λ m, match f m with inr a => Some a | inl _ => None end) msgs.

Lemma read_chunks t cs :
  Forall (Forall peerID_wf) cs → read_all unmarshalPeerIDs (marshal_chunk t <$> cs) = Some cs.
Proof.
  intros Hcs. unfold read_all. rewrite mapM_Some, Forall2_fmap_l.
  induction Hcs as [|c cs Hc _ IH]; constructor; [|done]. simpl. by rewrite unmarshal_chunk.
Qed.

(** A message of a batch: within the size limit, with the header of its type. *)
Definition batch_msg (t : Z) (m : list Z) : Prop :=
  (length m <= MaxMessageSize)%nat ∧ ∃ body, m = CurrentProtocolVersion :: t :: body.

Lemma chunk_batch_msg t c :
  Forall peerID_wf c → (length c <= maxPeersPerMessage)%nat → batch_msg t (marshal_chunk t c).
Proof.
  intros Hc Hl. rewrite marshal_chunk_layout by done. split; [|by exists (concat c)].
  rewrite length_app, length_concat_ids by done. rewrite maxPeers_eq in Hl.
  rewrite peerIDSize_eq. trans (2 + 244 * 36)%nat; [cbn [length]; lia|]. by apply Nat.leb_le.
Qed.

(** ** Theorems *)

(** Splitting a list of peers into messages terminates: the loop makes exactly
    one round per 244 peers, it runs out of fuel with fewer, and the fuel
    [marshalPeerIDs] gives it is always enough. *)
Theorem marshal_terminates ids t fuel :
  (is_Some (marshal_loop fuel ids t 0 []) ↔ (rounds (length ids) 0 <= fuel)%nat) ∧
  is_Some (marshal_loop (length ids) ids t 0 []).
Proof.
  split.
  - split.
    + intros [msgs H]. destruct (decide (rounds (length ids) 0 <= fuel)%nat) as [|Hn]; [done|].
      rewrite marshal_loop_short in H by lia. done.
    + intros Hf. destruct (marshal_loop_spec fuel ids t 0 [] Hf) as (cs & -> & _). eauto.
  - destruct (marshal_loop_spec (length ids) ids t 0 []) as (cs & -> & _); [|eauto].
    pose proof (rounds_le (length ids) 0). lia.
Qed.

(** C34. A list of peers of any length travels in messages that all fit the size
    limit and carry the type; reading them back gives the list, in order. *)
Theorem peer_list_round_trip ids t :
  ids ≠ [] → Forall peerID_wf ids →
  ∃ msgs, marshalPeerIDs ids t = inr msgs ∧ Forall (batch_msg t) msgs ∧
    length msgs = rounds (length ids) 0 ∧
    @concat _ <$> read_all unmarshalPeerIDs msgs = Some ids.
Proof.
  intros Hne Hids.
  destruct (marshal_loop_spec (length ids) ids t 0 []) as (cs & Hm & Hc & Hl & Hs).
  { pose proof (rounds_le (length ids) 0). lia. }
  assert (Forall (Forall peerID_wf) cs) as Hcs.
  { rewrite drop_0 in Hc. rewrite <- Hc in Hids. by apply Forall_concat. }
  exists (marshal_chunk t <$> cs). split_and!.
  - unfold marshalPeerIDs. destruct ids; [done|]. by rewrite Hm.
  - apply Forall_fmap, Forall_forall. intros c Hin. rewrite Forall_forall in Hcs, Hs.
    apply chunk_batch_msg; [by apply Hcs|by apply Hs].
  - by rewrite length_fmap.
  - rewrite read_chunks by done. simpl. by rewrite Hc.
Qed.

(** What the relay does with a transport message: it reads the addressee,
    and after the rewrite the receiver reads the sender and the same payload. *)
Theorem transport_readdress src dst payload :
  peerID_wf src → peerID_wf dst →
  UnmarshalTransportID (MarshalTransportMsg dst payload) = inr dst ∧
  ∃ msg, UpdateTransportMsg (MarshalTransportMsg dst payload) src = inr msg ∧
    msg = MarshalTransportMsg src payload ∧ UnmarshalTransportMsg msg = inr (src, payload) ∧
    DetermineServerMessageType msg = inr MsgTypeTransport.
Proof.
  intros [Hs _] [Hd _]. rewrite !MarshalTransportMsg_layout by done.
  set (h := [CurrentProtocolVersion; MsgTypeTransport]).
  assert (∀ id : PeerID, length id = peerIDSize →
            (length (h ++ id ++ payload) <? headerTotalSizeTransport)%nat = false) as Hlen.
  { intros id Hl. apply Nat.ltb_ge. rewrite !length_app, Hl.
    unfold headerTotalSizeTransport, sizeOfProtoHeader. simpl. lia. }
  assert (∀ id : PeerID, length id = peerIDSize →
            slice (h ++ id ++ payload) offsetTransportID peerIDSize = id) as Hsl.
  { intros id Hl. rewrite <- Hl. apply (slice_field h id payload). }
  unfold UnmarshalTransportID, UpdateTransportMsg, UnmarshalTransportMsg.
  split; [by rewrite Hlen, Hsl, read_id|].
  exists (h ++ src ++ payload). split_and!; [|done| |done].
  2:{ rewrite Hlen, Hsl, read_id by done. do 2 f_equal.
      replace headerTotalSizeTransport with (length (h ++ src)) by (by rewrite length_app, Hs).
      by rewrite app_assoc, drop_app_length. }
  change (offsetTransportID + peerIDSize)%nat with headerTotalSizeTransport.
  rewrite (Hlen dst Hd). f_equal. apply (copy_at_field h dst src payload). by rewrite Hs.
Qed.

(** The authentication message is read back as it was built, fits the buffer
    the server reads it into, and is refused when it would not. *)
Theorem auth_round_trip id payload :
  peerID_wf id →
  match MarshalAuthMsg id payload with
  | inr msg => (length msg <= MaxHandshakeSize)%nat ∧
      UnmarshalAuthMsg msg = inr (id, payload) ∧ ValidateVersion msg = inr CurrentProtocolVersion ∧
      DetermineClientMessageType msg = inr MsgTypeAuth
  | inl e => e = ErrTooLarge ∧ (MaxHandshakeSize < headerTotalSizeAuth + length payload)%nat
  end.
Proof.
  intros [Hl _]. destruct (decide (headerTotalSizeAuth + length payload <= MaxHandshakeSize)%nat) as [Hs|Hs].
  - rewrite MarshalAuthMsg_layout by done. split_and!; [|by apply auth_msg_read|done|done].
    unfold auth_msg. rewrite !length_app, Hl. unfold headerTotalSizeAuth in Hs. sizes.
  - unfold MarshalAuthMsg. rewrite (proj2 (Nat.ltb_lt _ _)) by lia. split; [done|lia].
Qed.
