(* ===== verification/RelayAuth.v ===== *)
(** * Relay credentials

    The tokens by which a client authenticates to a relay: made by the
    management server ([token_mgr.go], [auth/hmac/v2]), stored by the client
    ([auth/hmac/store.go]), sent in the handshake and checked by the relay
    ([relay/server/handshake.go]).  A Go string is the list of its bytes.
    HMAC-SHA256 is a parameter. *)
From S2P Require Import Prelude NetIP Bytes Order RelayMessages RelayCodec.
Open Scope Z_scope.

(** ** [strconv] on bytes, base 10, 64 bits *)

Fixpoint dec_digits (fuel : nat) (n : Z) (acc : list Z) : list Z :=
  let acc := 48 + n mod 10 :: acc in
  match fuel with
  | O => acc
  | S fuel' => if n / 10 =? 0 then acc else dec_digits fuel' (n / 10) acc
  end.

Definition FormatInt (n : Z) : list Z :=
  if n <? 0 then 45 :: dec_digits 19 (- n) [] else dec_digits 19 n [].

Fixpoint parse_dec (acc : Z) (s : list Z) : option Z :=
  match s with
  | [] => Some acc
  | c :: s' => if (48 <=? c) && (c <=? 57) then parse_dec (acc * 10 + (c - 48)) s' else None
  end.

Definition ParseInt (s : list Z) : option Z :=
  let '(neg, body) :=
    match s with
    | c :: s' => if c =? 45 then (true, s') else if c =? 43 then (false, s') else (false, s)
    | [] => (false, [])
    end in
  match body with
  | [] => None
  | _ =>
      match parse_dec 0 body with
      | Some n =>
          let v := if neg then - n else n in
          if (- 2 ^ 63 <=? v) && (v <? 2 ^ 63) then Some v else None
      | None => None
      end
  end.

(** ** [base64.StdEncoding] *)

Definition b64_char (v : Z) : Z :=
  if v <? 26 then 65 + v else if v <? 52 then 97 + (v - 26)
  else if v <? 62 then 48 + (v - 52) else if v =? 62 then 43 else 47.

Definition b64_val (c : Z) : option Z :=
  if (65 <=? c) && (c <=? 90) then Some (c - 65)
  else if (97 <=? c) && (c <=? 122) then Some (c - 97 + 26)
  else if (48 <=? c) && (c <=? 57) then Some (c - 48 + 52)
  else if c =? 43 then Some 62 else if c =? 47 then Some 63 else None.

Definition b64_pad : Z := 61.

Fixpoint EncodeToString (l : list Z) : list Z :=
  match l with
  | [] => []
  | [a] => [b64_char (a / 4); b64_char (a mod 4 * 16); b64_pad; b64_pad]
  | [a; b] => [b64_char (a / 4); b64_char (a mod 4 * 16 + b / 16); b64_char (b mod 16 * 4); b64_pad]
  | a :: b :: c :: l' =>
      b64_char (a / 4) :: b64_char (a mod 4 * 16 + b / 16) :: b64_char (b mod 16 * 4 + c / 64)
        :: b64_char (c mod 64) :: EncodeToString l'
  end.

(** Groups of four characters; padding only in the last one; the bits below
    the last byte are not looked at. *)
Fixpoint b64_groups (s : list Z) : option (list Z) :=
  match s with
  | [] => Some []
  | w :: x :: y :: z :: s' =>
      v0 ← b64_val w; v1 ← b64_val x;
      if z =? b64_pad then
        match s' with
        | _ :: _ => None
        | [] =>
            if y =? b64_pad then Some [v0 * 4 + v1 / 16]
            else v2 ← b64_val y; Some [v0 * 4 + v1 / 16; v1 mod 16 * 16 + v2 / 4]
        end
      else
        v2 ← b64_val y; v3 ← b64_val z; rest ← b64_groups s';
        Some (v0 * 4 + v1 / 16 :: v1 mod 16 * 16 + v2 / 4 :: v2 mod 4 * 64 + v3 :: rest)
  | _ => None
  end.

(** Line ends are skipped. *)
Definition DecodeString (s : list Z) : option (list Z) :=
  b64_groups (filter (λ c, c ≠ 10 ∧ c ≠ 13) s).

(** ** Tokens of [auth/hmac/v2] *)

Definition AuthAlgoHMACSHA256 : Z := 1.

Definition AuthAlgo_Size (a : Z) : nat := if a =? AuthAlgoHMACSHA256 then sha256_Size else 0.

Record TokenV2 := { AuthAlgo : Z; Signature : list Z; Payload : list Z }.

Definition Token_Marshal (t : TokenV2) : list Z :=
  let buf := make_bytes (1 + length (Signature t) + length (Payload t)) in
  let buf := <[0%nat := AuthAlgo t]> buf in
  let buf := copy_at buf 1 (Signature t) in
  copy_at buf (1 + length (Signature t)) (Payload t).

Definition UnmarshalToken (data : list Z) : option TokenV2 :=
  match data with
  | [] => None
  | algo :: _ =>
      let sigSize := AuthAlgo_Size algo in
      if (length data <? 1 + sigSize)%nat then None
      else Some {| AuthAlgo := algo; Signature := slice data 1 sigSize;
                   Payload := drop (1 + sigSize) data |}
  end.

(** The token as the management server sends it and the client stores it. *)
Record Token := { tk_Payload : list Z; tk_Signature : list Z }.

Inductive AuthError :=
  | AuthUnmarshal | AuthShortPayload | AuthUnsupported | AuthSignature | AuthPayload | AuthExpired.

Definition minLengthUnixTimestamp : nat := 10.
Definition second : Z := 1000000000.

(** [t.Unix()] for a time in nanoseconds. *)
Definition Unix (t : Z) : Z := t / second.

Section HMAC.
(** [hmac.New(sha256.New, key)], one [Write] and [Sum(nil)]. *)
Variable HMAC : list Z → list Z → list Z.

(** [AuthAlgo.New]: the MAC of the algorithm, [nil] for an unknown one. *)
Definition AuthAlgo_New (a : Z) : option (list Z → list Z → list Z) :=
  if a =? AuthAlgoHMACSHA256 then Some HMAC else None.

Record Generator := { g_algo : list Z → list Z → list Z; g_algoType : Z; g_secret : list Z;
                      g_timeToLive : Z }.

Definition NewGenerator (algo : Z) (secret : list Z) (timeToLive : Z) : option Generator :=
  match AuthAlgo_New algo with
  | None => None
  | Some f => Some {| g_algo := f; g_algoType := algo; g_secret := secret; g_timeToLive := timeToLive |}
  end.

Definition GenerateToken (g : Generator) (now : Z) : TokenV2 :=
  let payload := FormatInt (Unix (now + g_timeToLive g)) in
  {| AuthAlgo := g_algoType g; Signature := g_algo g (g_secret g) payload; Payload := payload |}.

(** [TimeBasedAuthSecretsManager]: the generator it is set up with, and the
    token it hands out. *)
Definition defaultDuration : Z := 12 * 3600 * second.

Definition relay_generator (Sum256 : list Z → list Z) (secret : list Z) (ttl : Z) : option Generator :=
  let duration := if ttl <=? 0 then defaultDuration else ttl in
  NewGenerator AuthAlgoHMACSHA256 (Sum256 secret) duration.

Definition GenerateRelayToken (g : Generator) (now : Z) : Token :=
  let t := GenerateToken g now in
  {| tk_Payload := Payload t; tk_Signature := EncodeToString (Signature t) |}.

(** [TokenStore.UpdateToken] of the client: [None] is the decoding error. *)
Definition UpdateToken (stored : list Z) (token : option Token) : option (list Z) :=
  match token with
  | None => Some stored
  | Some token =>
      match DecodeString (tk_Signature token) with
      | None => None
      | Some sig =>
          Some (Token_Marshal {| AuthAlgo := AuthAlgoHMACSHA256; Signature := sig;
                                 Payload := tk_Payload token |})
      end
  end.

(** [Validator.Validate]. *)
Definition Validate (secret : list Z) (now : Z) (d : list Z) : AuthError + unit :=
  match UnmarshalToken d with
  | None => inl AuthUnmarshal
  | Some token =>
      if (length (Payload token) <? minLengthUnixTimestamp)%nat then inl AuthShortPayload
      else
        match AuthAlgo_New (AuthAlgo token) with
        | None => inl AuthUnsupported
        | Some h =>
            if negb (bool_decide (Signature token = h secret (Payload token))) then inl AuthSignature
            else
              match ParseInt (Payload token) with
              | None => inl AuthPayload
              | Some timestamp => if timestamp <? Unix now then inl AuthExpired else inr ()
              end
        end
  end.

(** [TimedHMAC] of [auth/hmac/token.go], which makes the TURN credentials:
    [mac] is the MAC of the algorithm given with each call. *)
Definition TimedHMAC_GenerateToken (mac : list Z → list Z → list Z) (secret : list Z)
    (timeToLive now : Z) : Token :=
  let timeStamp := FormatInt (Unix (now + timeToLive)) in
  {| tk_Payload := timeStamp; tk_Signature := EncodeToString (mac secret timeStamp) |}.

Definition TimedHMAC_Validate (mac : list Z → list Z → list Z) (secret : list Z) (now : Z)
    (token : Token) : AuthError + unit :=
  let expectedSignature := EncodeToString (mac secret (tk_Payload token)) in
  if negb (bool_decide (expectedSignature = tk_Signature token)) then inl AuthSignature
  else
    match ParseInt (tk_Payload token) with
    | None => inl AuthPayload
    | Some timeAuthInt => if timeAuthInt <? Unix now then inl AuthExpired else inr ()
    end.

(** ** The handshake of the relay server *)

Inductive HandshakeError := HsMessage (e : MsgError) | HsNotAuth (t : Z) | HsRefused (id : PeerID) (e : AuthError).

(** [handleAuthMsg]. *)
Definition handleAuthMsg (secret : list Z) (now : Z) (buf : list Z) : HandshakeError + PeerID :=
  match UnmarshalAuthMsg buf with
  | inl e => inl (HsMessage e)
  | inr (rawPeerID, authPayload) =>
      match Validate secret now authPayload with
      | inl e => inl (HsRefused rawPeerID e)
      | inr _ => inr rawPeerID
      end
  end.

(** [handshakeReceive], after one message was read into a buffer of
    [MaxHandshakeSize] bytes. *)
Definition handshakeReceive (secret : list Z) (now : Z) (msg : list Z) : HandshakeError + PeerID :=
  let buf := take MaxHandshakeSize msg in
  match ValidateVersion buf with
  | inl e => inl (HsMessage e)
  | inr _ =>
      match DetermineClientMessageType buf with
      | inl e => inl (HsMessage e)
      | inr msgType =>
          if negb (msgType =? MsgTypeAuth) then inl (HsNotAuth msgType)
          else handleAuthMsg secret now buf
      end
  end.
End HMAC.

(** ** The life of a relay token

    Numbers and base64 text are read back as they were written; a token made
    by the management server opens the handshake of a relay with the same
    secret exactly until it expires, and nothing else does. *)

(** ** Decimal numbers *)

Lemma parse_dec_digit acc d s :
  0 <= d < 10 → parse_dec acc (48 + d :: s) = parse_dec (acc * 10 + d) s.
Proof.
  intros Hd. cbn [parse_dec]. rewrite (proj2 (Z.leb_le _ _)), (proj2 (Z.leb_le _ _)) by lia.
  cbn [andb]. f_equal. lia.
Qed.

Lemma parse_dec_digits fuel n acc :
  0 <= n < 10 ^ (Z.of_nat fuel + 1) → parse_dec 0 (dec_digits fuel n acc) = parse_dec n acc.
Proof.
  assert (∀ m, 0 <= m → parse_dec (m / 10) (48 + m mod 10 :: acc) = parse_dec m acc) as Hd.
  { intros m Hm. rewrite parse_dec_digit by (apply Z.mod_pos_bound; lia).
    f_equal. pose proof (Z.div_mod m 10). lia. }
  revert n acc Hd. induction fuel as [|fuel IH]; intros n acc Hd Hn; cbn [dec_digits].
  - rewrite <- (Hd n), Z.div_small by lia. done.
  - destruct (Z.eqb_spec (n / 10) 0) as [E|E]; [rewrite <- (Hd n) by lia; by rewrite E|].
    rewrite IH; [apply Hd; lia| |].
    + intros m Hm. rewrite parse_dec_digit by (apply Z.mod_pos_bound; lia).
      f_equal. pose proof (Z.div_mod m 10). lia.
    + split; [apply Z.div_pos; lia|]. apply Z.div_lt_upper_bound; [lia|].
      rewrite Nat2Z.inj_succ, Z.add_succ_l, Z.pow_succ_r in Hn by lia. lia.
Qed.

Lemma dec_digits_head fuel n acc :
  0 <= n → ∃ d l, dec_digits fuel n acc = 48 + d :: l ∧ 0 <= d < 10.
Proof.
  revert n acc. induction fuel as [|fuel IH]; intros n acc Hn; cbn [dec_digits].
  - exists (n mod 10), acc. split; [done|]. apply Z.mod_pos_bound. lia.
  - destruct (n / 10 =? 0); [|apply IH, Z.div_pos; lia].
    exists (n mod 10), acc. split; [done|]. apply Z.mod_pos_bound. lia.
Qed.

Lemma length_dec_digits fuel n acc :
  (length (dec_digits fuel n acc) <= fuel + 1 + length acc)%nat.
Proof.
  revert n acc. induction fuel as [|fuel IH]; intros n acc; cbn [dec_digits]; [simpl; lia|].
  destruct (n / 10 =? 0); [simpl; lia|]. pose proof (IH (n / 10) (48 + n mod 10 :: acc)) as H.
  cbn [length] in H. lia.
Qed.

Lemma dec_digits_longer fuel n acc : (length acc < length (dec_digits fuel n acc))%nat.
Proof.
  revert n acc. induction fuel as [|fuel IH]; intros n acc; cbn [dec_digits]; [simpl; lia|].
  destruct (n / 10 =? 0); [simpl; lia|]. pose proof (IH (n / 10) (48 + n mod 10 :: acc)) as H.
  cbn [length] in H. lia.
Qed.

Lemma length_dec_digits_ge fuel k n acc :
  (k <= fuel)%nat → 10 ^ Z.of_nat k <= n → (k + 1 + length acc <= length (dec_digits fuel n acc))%nat.
Proof.
  revert k n acc. induction fuel as [|fuel IH]; intros k n acc Hk Hn; cbn [dec_digits].
  - simpl. lia.
  - destruct k as [|k].
    + destruct (n / 10 =? 0); [simpl; lia|].
      pose proof (dec_digits_longer fuel (n / 10) (48 + n mod 10 :: acc)) as H. simpl in H. lia.
    + rewrite Nat2Z.inj_succ, Z.pow_succ_r in Hn by lia.
      assert (10 ^ Z.of_nat k <= n / 10) as Hq by (apply Z.div_le_lower_bound; lia).
      assert (0 < 10 ^ Z.of_nat k) by (apply Z.pow_pos_nonneg; lia).
      destruct (Z.eqb_spec (n / 10) 0); [lia|].
      pose proof (IH k (n / 10) (48 + n mod 10 :: acc) ltac:(lia) Hq) as H'. cbn [length] in H'. lia.
Qed.

Lemma ParseInt_FormatInt n : - 2 ^ 63 <= n < 2 ^ 63 → ParseInt (FormatInt n) = Some n.
Proof.
  intros Hn. unfold FormatInt. destruct (Z.ltb_spec n 0) as [Hs|Hs].
  - unfold ParseInt. cbn [Z.eqb Pos.eqb].
    destruct (dec_digits_head 19 (- n) [] ltac:(lia)) as (d & l & Hd & _). rewrite Hd, <- Hd.
    rewrite parse_dec_digits by (cbv [Z.of_nat Pos.of_succ_nat Pos.succ Z.add]; lia).
    cbn [parse_dec]. rewrite Z.opp_involutive.
    by rewrite (proj2 (Z.leb_le _ _)), (proj2 (Z.ltb_lt _ _)) by lia.
  - destruct (dec_digits_head 19 n [] ltac:(lia)) as (d & l & Hd & Hr).
    unfold ParseInt. rewrite Hd. rewrite (proj2 (Z.eqb_neq _ _)), (proj2 (Z.eqb_neq _ _)) by lia.
    rewrite <- Hd, parse_dec_digits by (cbv [Z.of_nat Pos.of_succ_nat Pos.succ Z.add]; lia).
    cbn [parse_dec]. by rewrite (proj2 (Z.leb_le _ _)), (proj2 (Z.ltb_lt _ _)) by lia.
Qed.

(** ** Base64 *)

Lemma filter_all {A} (P : A → Prop) `{∀ x, Decision (P x)} l : Forall P l → filter P l = l.
Proof.
  induction 1 as [|x l Hx _ IH]; [done|]. rewrite filter_cons, decide_True by done. by rewrite IH.
Qed.

Lemma b64_val_char v : 0 <= v < 64 → b64_val (b64_char v) = Some v.
Proof.
  intros Hv. assert (v ∈ (Z.of_nat <$> seq 0 64)) as Hin.
  { apply list_elem_of_fmap. exists (Z.to_nat v). rewrite elem_of_seq. lia. }
  clear Hv. revert v Hin. apply (Forall_forall (λ v, b64_val (b64_char v) = Some v)).
  repeat constructor.
Qed.

Lemma b64_char_plain v : 0 <= v < 64 → b64_char v ≠ b64_pad ∧ b64_char v ≠ 10 ∧ b64_char v ≠ 13.
Proof. intros Hv. unfold b64_char, b64_pad. repeat case_match; bools; lia. Qed.

(** One full group of three bytes. *)
Lemma b64_group a b c s :
  byte a → byte b → byte c →
  b64_groups (b64_char (a / 4) :: b64_char (a mod 4 * 16 + b / 16)
                :: b64_char (b mod 16 * 4 + c / 64) :: b64_char (c mod 64) :: s) =
    rest ← b64_groups s; Some (a :: b :: c :: rest).
Proof.
  unfold byte. intros Ha Hb Hc. cbn [b64_groups].
  assert (0 <= c mod 64 < 64) as Hz by (apply Z.mod_pos_bound; lia).
  rewrite (proj2 (Z.eqb_neq _ _)) by (apply b64_char_plain; lia).
  rewrite !b64_val_char by (Z.to_euclidean_division_equations; lia). simpl.
  destruct (b64_groups s) as [rest|]; simpl; [|done]. f_equal.
  f_equal; [Z.to_euclidean_division_equations; lia|].
  f_equal; [Z.to_euclidean_division_equations; lia|].
  f_equal. Z.to_euclidean_division_equations; lia.
Qed.

Lemma b64_groups_Encode l : bytes l → b64_groups (EncodeToString l) = Some l.
Proof.
  induction l as [l IH] using (induction_ltof1 _ (@length Z)). unfold ltof in IH. intros Hb.
  destruct l as [|a [|b [|c l]]]; [done|..]; cbn [EncodeToString].
  - apply Forall_cons in Hb as [Ha _]. unfold byte in Ha. cbn [b64_groups].
    rewrite !b64_val_char by (Z.to_euclidean_division_equations; lia). simpl. do 2 f_equal.
    Z.to_euclidean_division_equations; lia.
  - apply Forall_cons in Hb as [Ha [Hb _]%Forall_cons]. unfold byte in Ha, Hb. cbn [b64_groups].
    rewrite !b64_val_char by (Z.to_euclidean_division_equations; lia). cbn [mbind option_bind].
    rewrite Z.eqb_refl, (proj2 (Z.eqb_neq _ b64_pad))
      by (apply b64_char_plain; Z.to_euclidean_division_equations; lia).
    simpl. f_equal. f_equal; [Z.to_euclidean_division_equations; lia|].
    f_equal. Z.to_euclidean_division_equations; lia.
  - apply Forall_cons in Hb as [Ha [Hb' [Hc Hl]%Forall_cons]%Forall_cons].
    rewrite b64_group, IH by (simpl; try done; lia). done.
Qed.

(** Encoded text has no line ends. *)
Lemma Encode_plain l : bytes l → Forall (λ c, c ≠ 10 ∧ c ≠ 13) (EncodeToString l).
Proof.
  assert (∀ v, 0 <= v < 64 → b64_char v ≠ 10 ∧ b64_char v ≠ 13) as Hc by (intros; by apply b64_char_plain).
  induction l as [l IH] using (induction_ltof1 _ (@length Z)). unfold ltof in IH. intros Hb.
  destruct l as [|a [|b [|c l]]]; [constructor|..]; cbn [EncodeToString];
    repeat (apply Forall_cons in Hb as [? Hb]); unfold byte in *;
    repeat constructor; try (by unfold b64_pad);
    try (apply Hc; Z.to_euclidean_division_equations; lia).
  apply IH; [simpl; lia|done].
Qed.

Lemma Decode_Encode_b64 l : bytes l → DecodeString (EncodeToString l) = Some l.
Proof.
  intros Hb. unfold DecodeString. rewrite filter_all by (by apply Encode_plain).
  by apply b64_groups_Encode.
Qed.

(** ** Tokens *)

Lemma Token_Marshal_layout t : Token_Marshal t = AuthAlgo t :: Signature t ++ Payload t.
Proof.
  unfold Token_Marshal. change (1 + length (Signature t) + length (Payload t))%nat
    with (S (length (Signature t) + length (Payload t))).
  change (<[0%nat := AuthAlgo t]> (make_bytes (S (length (Signature t) + length (Payload t)))))
    with ([AuthAlgo t] ++ make_bytes (length (Signature t) + length (Payload t))).
  rewrite (copy_at_fill [AuthAlgo t]) by lia.
  rewrite (copy_at_fill ([AuthAlgo t] ++ Signature t)) by lia.
  replace (_ - _ - _)%nat with 0%nat by lia. simpl. by rewrite app_nil_r.
Qed.

Lemma UnmarshalToken_Marshal t :
  length (Signature t) = AuthAlgo_Size (AuthAlgo t) → UnmarshalToken (Token_Marshal t) = Some t.
Proof.
  intros Hs. rewrite Token_Marshal_layout. unfold UnmarshalToken. rewrite <- Hs.
  rewrite (proj2 (Nat.ltb_ge _ _)) by (simpl; rewrite length_app; lia).
  destruct t as [a sig p]; simpl in *. do 2 f_equal.
  - apply (slice_field [a] sig p).
  - apply (drop_app_length sig p).
Qed.

Section Tokens.
Context (HMAC : list Z → list Z → list Z).

(** An HMAC-SHA256 value has 32 bytes. *)
Hypothesis HMAC_wf : ∀ key msg, length (HMAC key msg) = sha256_Size ∧ bytes (HMAC key msg).

(** A signed timestamp is judged by the clock alone. *)
Lemma Validate_signed secret now payload ts :
  (minLengthUnixTimestamp <= length payload)%nat → ParseInt payload = Some ts →
  Validate HMAC secret now (AuthAlgoHMACSHA256 :: HMAC secret payload ++ payload) =
    if ts <? Unix now then inl AuthExpired else inr ().
Proof.
  intros Hl Hp. unfold Validate.
  pose proof (UnmarshalToken_Marshal {| AuthAlgo := AuthAlgoHMACSHA256; Signature := HMAC secret payload;
    Payload := payload |} (proj1 (HMAC_wf _ _))) as Hu.
  rewrite Token_Marshal_layout in Hu. cbn [AuthAlgo Signature Payload] in Hu. rewrite Hu.
  cbn [AuthAlgo Signature Payload]. rewrite (proj2 (Nat.ltb_ge _ _) Hl).
  unfold AuthAlgo_New. by rewrite Z.eqb_refl, bool_decide_true, Hp by done.
Qed.

(** Exactly the signed, unexpired timestamps pass. *)
Lemma Validate_ok secret now d :
  Validate HMAC secret now d = inr () ↔
  ∃ payload ts, d = AuthAlgoHMACSHA256 :: HMAC secret payload ++ payload ∧
    (minLengthUnixTimestamp <= length payload)%nat ∧ ParseInt payload = Some ts ∧ Unix now <= ts.
Proof.
  split.
  - unfold Validate. destruct (UnmarshalToken d) as [t|] eqn:Et; [|done].
    destruct (Nat.ltb_spec (length (Payload t)) minLengthUnixTimestamp) as [|Hl]; [done|].
    unfold AuthAlgo_New. destruct (Z.eqb_spec (AuthAlgo t) AuthAlgoHMACSHA256) as [Ha|]; [|done].
    case_bool_decide as Hs; [|done]. cbn [negb].
    destruct (ParseInt (Payload t)) as [ts|] eqn:Ep; [|done].
    destruct (Z.ltb_spec ts (Unix now)) as [|Ht]; [done|]. intros _.
    exists (Payload t), ts. split_and!; [|done..]. unfold UnmarshalToken in Et.
    destruct d as [|a d]; [done|]. case_match; simplify_eq/=. rewrite <- Hs. f_equal.
    unfold slice. simpl. by rewrite drop_0, take_drop.
  - intros (payload & ts & -> & Hl & Hp & Ht). rewrite (Validate_signed _ _ _ ts) by done. by rewrite (proj2 (Z.ltb_ge _ _)).
Qed.
End Tokens.

Lemma UnmarshalAuthMsg_shape v t buf id token :
  UnmarshalAuthMsg (v :: t :: buf) = inr (id, token) →
  v :: t :: buf = [v; t] ++ magicHeader ++ id ++ token ∧ length id = peerIDSize.
Proof.
  unfold UnmarshalAuthMsg. destruct (Nat.ltb_spec (length (v :: t :: buf)) headerTotalSizeAuth) as [|Hl]; [done|].
  case_bool_decide as Hm; [|done]. cbn [negb]. intros [= <- <-].
  change headerTotalSizeAuth with (2 + (4 + peerIDSize))%nat in *. cbn [length] in Hl. split.
  - rewrite <- Hm. unfold slice, offsetMagicByte, offsetAuthPeerID, sizeOfProtoHeader, sizeOfMagicByte.
    cbn [Nat.add drop app]. do 2 f_equal. rewrite <- (take_drop 4 buf) at 1.
    rewrite skipn_O. f_equal. rewrite <- (take_drop peerIDSize (drop 4 buf)) at 1.
    by rewrite drop_drop.
  - unfold slice. rewrite length_take, length_drop. unfold offsetAuthPeerID. sizes.
Qed.

Section Handshake.
Context (HMAC : list Z → list Z → list Z).
Hypothesis HMAC_wf : ∀ key msg, length (HMAC key msg) = sha256_Size ∧ bytes (HMAC key msg).

(** On an authentication message the handshake is the token check. *)
Lemma handshake_auth secret now msg id token :
  take MaxHandshakeSize msg = auth_msg id token → length id = peerIDSize →
  handshakeReceive HMAC secret now msg =
    match Validate HMAC secret now token with inl e => inl (HsRefused id e) | inr _ => inr id end.
Proof.
  intros Hm Hl. unfold handshakeReceive, handleAuthMsg. rewrite Hm. simpl. by rewrite auth_msg_read.
Qed.

(** C20. The relay admits a connection as [id] exactly when the part of its first
    message that fits the buffer is an authentication message for [id] whose
    token is a timestamp that has not passed, signed with the relay's secret. *)
Theorem handshake_accepts_iff secret now msg id :
  handshakeReceive HMAC secret now msg = inr id ↔
  ∃ payload ts,
    take MaxHandshakeSize msg = auth_msg id (AuthAlgoHMACSHA256 :: HMAC secret payload ++ payload) ∧
    length id = peerIDSize ∧ (minLengthUnixTimestamp <= length payload)%nat ∧
    ParseInt payload = Some ts ∧ Unix now <= ts.
Proof.
  split.
  - unfold handshakeReceive, handleAuthMsg.
    destruct (take MaxHandshakeSize msg) as [|v [|t buf]]; [done..|]. cbn [ValidateVersion].
    destruct (Z.eqb_spec v CurrentProtocolVersion) as [->|]; [|done].
    unfold DetermineClientMessageType, determine. destruct (contains client_types t); [|done].
    destruct (Z.eqb_spec t MsgTypeAuth) as [->|]; [|done]. cbn [negb].
    destruct (UnmarshalAuthMsg _) as [|[id' token]] eqn:Eu; [done|].
    apply UnmarshalAuthMsg_shape in Eu as [Hs Hl].
    destruct (Validate HMAC secret now token) as [|[]] eqn:Ev; [done|]. intros [= ->].
    apply Validate_ok in Ev as (payload & ts & -> & Hp & Hpp & Ht); [|done]. exists payload, ts. by split_and!.
  - intros (payload & ts & Hm & Hl & Hlp & Hp & Ht). erewrite handshake_auth by done.
    rewrite (proj2 (Validate_ok HMAC HMAC_wf secret now _)); [done|]. exists payload, ts. by split_and!.
Qed.

(** From the management server to the relay: the token the management server
    makes for a secret, stored and sent by any client under any identifier,
    is admitted by a relay with the same secret in every second up to the one
    it expires in, and refused as expired afterwards. *)
Theorem relay_token_lifetime Sum256 secret ttl made g stored id now :
  relay_generator HMAC Sum256 secret ttl = Some g →
  10 ^ 9 <= Unix (made + g_timeToLive g) < 2 ^ 63 → peerID_wf id →
  ∃ token msg, UpdateToken stored (Some (GenerateRelayToken g made)) = Some token ∧
    MarshalAuthMsg id token = inr msg ∧
    handshakeReceive HMAC (Sum256 secret) now msg =
      if Unix now <=? Unix (made + g_timeToLive g) then inr id else inl (HsRefused id AuthExpired).
Proof.
  intros Hg Ht [Hid _]. unfold relay_generator, NewGenerator, AuthAlgo_New in Hg. simpl in Hg.
  destruct g as [f a s d]. injection Hg as <- <- <- Hd. simpl in Ht |- *.
  set (p := FormatInt (Unix (made + d))) in *. set (sig := HMAC (Sum256 secret) p).
  assert (ParseInt p = Some (Unix (made + d))) as Hp by (apply ParseInt_FormatInt; lia).
  assert (10 <= length p <= 20)%nat as Hl.
  { subst p. unfold FormatInt. rewrite (proj2 (Z.ltb_ge _ _)) by lia. split.
    - apply (length_dec_digits_ge 19 9 _ []); [lia|]. apply Ht.
    - apply (length_dec_digits 19 _ []). }
  destruct (HMAC_wf (Sum256 secret) p) as [Hs Hsb]. fold sig in Hs, Hsb.
  exists (AuthAlgoHMACSHA256 :: sig ++ p), (auth_msg id (AuthAlgoHMACSHA256 :: sig ++ p)).
  rewrite Decode_Encode_b64, Token_Marshal_layout by done. split; [done|].
  assert (length (AuthAlgoHMACSHA256 :: sig ++ p) <= 53)%nat as Htok.
  { cbn [length]. rewrite length_app, Hs. change sha256_Size with 32%nat. lia. }
  split.
  { apply MarshalAuthMsg_layout; [done|]. change headerTotalSizeAuth with 42%nat.
    change MaxHandshakeSize with 212%nat. lia. }
  assert (take MaxHandshakeSize (auth_msg id (AuthAlgoHMACSHA256 :: sig ++ p)) =
          auth_msg id (AuthAlgoHMACSHA256 :: sig ++ p)) as Htake.
  { apply take_ge. unfold auth_msg. rewrite !length_app, Hid. change peerIDSize with 36%nat.
    change MaxHandshakeSize with 212%nat. cbn [length magicHeader]. cbn [length] in Htok. lia. }
  rewrite (handshake_auth _ _ _ id _ Htake Hid).
  unfold sig. rewrite (Validate_signed HMAC HMAC_wf _ _ p (Unix (made + d))) by (done || apply Hl).
  by destruct (Z.leb_spec (Unix now) (Unix (made + d))) as [Hle|Hgt];
    [rewrite (proj2 (Z.ltb_ge _ _))|rewrite (proj2 (Z.ltb_lt _ _))].
Qed.
End Handshake.
