(* ===== verification/RelayStore.v ===== *)
(** * The relay's store of peers

    [relay/server/store/store.go]: the sharded map of connected peers, and
    that it refines one map from identifiers to peers.  A peer is a pointer to
    a connection object together with the identifier the object reports. *)
From S2P Require Import Prelude NetIP Bytes Order RelayMessages.
Open Scope Z_scope.

(** [IPeer]: an interface value holding a pointer; [ID()] never changes. *)
Record IPeer := { ptr : nat; ID : PeerID }.

#[global] Instance IPeer_eq_dec : EqDecision IPeer.
Proof. solve_decision. Defined.

Definition shardCount : nat := 32.

(** [Store]: the maps of its shards. *)
Notation Store := (list (gmap PeerID IPeer)).

Definition NewStore : Store := replicate shardCount ∅.

(** [hash/fnv], 32-bit FNV-1a. *)
Definition fnv32a (data : list Z) : Z :=
  foldl (λ h b, uint 32 (Z.lxor h b * 16777619)) 2166136261 data.

Definition shardFor (id : PeerID) : nat := Z.to_nat (fnv32a id mod Z.of_nat shardCount).

Definition shard (s : Store) (i : nat) : gmap PeerID IPeer := default ∅ (s !! i).

(** [AddPeer]: the store, the peer that was replaced and closed, and the
    result. *)
Definition AddPeer (s : Store) (peer : IPeer) : Store * option IPeer * bool :=
  let i := shardFor (ID peer) in
  let old := shard s i !! ID peer in
  (<[i := <[ID peer := peer]> (shard s i)]> s, old, if old then true else false).

Definition DeletePeer (s : Store) (peer : IPeer) : Store * bool :=
  let i := shardFor (ID peer) in
  match shard s i !! ID peer with
  | None => (s, false)
  | Some dp =>
      if negb (ptr dp =? ptr peer)%nat then (s, false)
      else (<[i := delete (ID peer) (shard s i)]> s, true)
  end.

Definition Peer (s : Store) (id : PeerID) : option IPeer := shard s (shardFor id) !! id.

(** [Peers]: shard after shard, each in the order of its [range]. *)
Definition Peers {MO : MapOrder} (seed : nat) (s : Store) : list IPeer :=
  mjoin ((λ m, (range_list seed m).*2) <$> s).

(** The second half of [GetOnlinePeersAndRegisterInterest]. *)
Definition online_of (s : Store) (peerIDs : list PeerID) : list PeerID :=
  filter (λ id, is_Some (Peer s id)) peerIDs.

(** ** The abstract store *)

(** One map; a peer removes only itself. *)
Definition spec_add (m : gmap PeerID IPeer) (p : IPeer) : gmap PeerID IPeer := <[ID p := p]> m.

Definition spec_delete (m : gmap PeerID IPeer) (p : IPeer) : gmap PeerID IPeer :=
  match m !! ID p with
  | Some q => if (ptr q =? ptr p)%nat then delete (ID p) m else m
  | None => m
  end.

(** The shards together are [m], each holding the identifiers that hash to
    it. *)
Record store_rel (s : Store) (m : gmap PeerID IPeer) : Prop := {
  sr_shards : length s = shardCount;
  sr_peer : ∀ id, Peer s id = m !! id;
  sr_home : ∀ i id, (i < shardCount)%nat → is_Some (shard s i !! id) → shardFor id = i
}.

Lemma shardFor_lt id : (shardFor id < shardCount)%nat.
Proof.
  unfold shardFor. pose proof (Z.mod_pos_bound (fnv32a id) (Z.of_nat shardCount) ltac:(done)). lia.
Qed.

Lemma shard_insert s i m j :
  (i < length s)%nat → shard (<[i := m]> s) j = if decide (j = i) then m else shard s j.
Proof.
  intros Hi. unfold shard. case_decide as Hj.
  - subst. by rewrite list_lookup_insert_eq.
  - by rewrite list_lookup_insert_ne.
Qed.

Lemma NewStore_rel : store_rel NewStore ∅.
Proof.
  assert (∀ i, shard NewStore i = ∅) as He.
  { intros i. unfold shard, NewStore. destruct (decide (i < shardCount)%nat).
    - by rewrite lookup_replicate_2.
    - rewrite lookup_ge_None_2; [done|]. rewrite length_replicate. lia. }
  split; [done| |].
  - intros id. unfold Peer. by rewrite He.
  - intros i id _. rewrite He, lookup_empty. by intros [].
Qed.

(** Replacing the entry of one identifier in its shard. *)
Lemma store_rel_update s m id (o : option IPeer) sh' :
  store_rel s m →
  (∀ id', sh' !! id' = if decide (id' = id) then o else shard s (shardFor id) !! id') →
  store_rel (<[shardFor id := sh']> s) (partial_alter (λ _, o) id m).
Proof.
  intros [Hl Hp Hh] Hsh. pose proof (shardFor_lt id) as Hi. split.
  - by rewrite length_insert.
  - intros id'. unfold Peer in *. rewrite shard_insert by lia. destruct (decide (id' = id)) as [->|Hn].
    + rewrite decide_True, Hsh, decide_True by done. by rewrite lookup_partial_alter_eq.
    + rewrite lookup_partial_alter_ne, <- Hp by done.
      case_decide as Hs; [|done]. by rewrite Hsh, decide_False, Hs by done.
  - intros i id' Hb. rewrite shard_insert by lia. case_decide as Hd; [|by apply Hh].
    subst i. rewrite Hsh. case_decide as Hn; [by subst|]. by apply Hh.
Qed.

Lemma AddPeer_rel s m p :
  store_rel s m →
  store_rel (AddPeer s p).1.1 (spec_add m p) ∧ (AddPeer s p).1.2 = m !! ID p ∧
  (AddPeer s p).2 = bool_decide (is_Some (m !! ID p)).
Proof.
  intros Hr. unfold AddPeer. simpl. split_and!.
  - apply (store_rel_update s m (ID p) (Some p)); [done|]. intros id'.
    case_decide as Hd; [subst; by rewrite lookup_insert_eq|by rewrite lookup_insert_ne].
  - apply (sr_peer _ _ Hr).
  - rewrite <- (sr_peer _ _ Hr). unfold Peer.
    destruct (shard s _ !! _); [by rewrite bool_decide_true|rewrite bool_decide_false; [done|by intros []]].
Qed.

Lemma DeletePeer_rel s m p :
  store_rel s m →
  store_rel (DeletePeer s p).1 (spec_delete m p) ∧
  (DeletePeer s p).2 = bool_decide (ptr <$> m !! ID p = Some (ptr p)).
Proof.
  intros Hr. unfold DeletePeer, spec_delete. rewrite <- (sr_peer _ _ Hr). unfold Peer.
  destruct (shard s (shardFor (ID p)) !! ID p) as [dp|] eqn:E; simpl.
  - destruct (Nat.eqb_spec (ptr dp) (ptr p)) as [Hp|Hp]; simpl.
    + rewrite bool_decide_true by (by f_equal). split; [|done].
      apply (store_rel_update s m (ID p) None); [done|]. intros id'.
      case_decide as Hd; [subst; by rewrite lookup_delete_eq|by rewrite lookup_delete_ne].
    + rewrite bool_decide_false by congruence. done.
  - done.
Qed.

Lemma online_of_rel s m ids :
  store_rel s m → online_of s ids = filter (λ id, is_Some (m !! id)) ids.
Proof.
  intros Hr. unfold online_of. apply list_filter_iff. intros id. by rewrite (sr_peer _ _ Hr).
Qed.


Lemma map_to_list_union (m1 m2 : gmap PeerID IPeer) :
  m1 ##ₘ m2 → map_to_list (m1 ∪ m2) ≡ₚ map_to_list m1 ++ map_to_list m2.
Proof.
  intros Hd. apply NoDup_Permutation; [apply NoDup_map_to_list| |].
  - apply NoDup_app. split_and!; [apply NoDup_map_to_list| |apply NoDup_map_to_list].
    intros [id p] H1%elem_of_map_to_list H2%elem_of_map_to_list.
    by apply (map_disjoint_spec m1 m2) with (i := id) (x := p) (y := p) in Hd.
  - intros [id p]. rewrite elem_of_app, !elem_of_map_to_list. by apply lookup_union_Some.
Qed.

(** The entries of disjoint maps, one map after the other. *)
Lemma map_to_list_join (ms : list (gmap PeerID IPeer)) (m : gmap PeerID IPeer) :
  (∀ i j id, is_Some (default ∅ (ms !! i) !! id) → is_Some (default ∅ (ms !! j) !! id) → i = j) →
  (∀ id p, m !! id = Some p ↔ ∃ i, default ∅ (ms !! i) !! id = Some p) →
  mjoin (map_to_list <$> ms) ≡ₚ map_to_list m.
Proof.
  revert m. induction ms as [|m0 ms IH]; intros m Hd Hm; simpl.
  - assert (m = ∅) as ->; [|by rewrite map_to_list_empty].
    apply map_empty. intros id. apply eq_None_not_Some. intros [p Hp]. apply Hm in Hp as [i Hi].
    by rewrite lookup_nil in Hi.
  - set (m' := filter (λ kv, m0 !! kv.1 = None) m).
    assert (m0 ##ₘ m') as Hdis.
    { apply map_disjoint_spec. intros id p q Hp Hq. apply map_lookup_filter_Some in Hq as [_ Hn].
      simpl in Hn. congruence. }
    assert (m = m0 ∪ m') as Hu.
    { apply map_eq. intros id. destruct (m0 !! id) as [p|] eqn:E0.
      - rewrite (lookup_union_Some_l m0 m' id p E0). apply Hm. by exists 0%nat.
      - rewrite lookup_union_r by done. unfold m'. rewrite map_lookup_filter.
        destruct (m !! id); simpl; [|done]. by rewrite option_guard_True. }
    rewrite Hu, map_to_list_union by done. rewrite IH with (m := m'); [done| |].
    + intros i j id Hi Hj. by apply (inj S), (Hd (S i) (S j) id).
    + intros id p. unfold m'. rewrite map_lookup_filter_Some, Hm. simpl. split.
      * intros [[[|i] Hi] Hn]; [simpl in Hi; congruence|]. by exists i.
      * intros [i Hi]. split; [by exists (S i)|]. apply eq_None_not_Some. intros Hs.
        specialize (Hd 0%nat (S i) id Hs). simpl in Hd. rewrite Hi in Hd. by discriminate Hd.
Qed.

Lemma Peers_rel {MO : MapOrder} seed s m :
  store_rel s m → Peers seed s ≡ₚ (map_to_list m).*2.
Proof.
  intros [Hl Hp Hh]. unfold Peers.
  trans ((mjoin (map_to_list <$> s)).*2).
  - clear. induction s as [|m s IH]; [done|]. simpl. rewrite fmap_app. apply Permutation_app; [|done].
    by rewrite range_list_perm.
  - apply fmap_Permutation, map_to_list_join.
    + intros i j id Hi Hj. assert (∀ k, is_Some (default ∅ (s !! k) !! id) → shardFor id = k) as Hk.
      { intros k Hs. apply Hh; [|done]. destruct (decide (k < shardCount)%nat) as [|Hn]; [done|].
        rewrite lookup_ge_None_2 in Hs by lia. by destruct Hs. }
      by rewrite <- (Hk i), <- (Hk j).
    + intros id p. rewrite <- Hp. unfold Peer, shard. split; [by eexists|].
      intros [i Hi]. assert (i < length s)%nat as Hil.
      { apply lookup_lt_is_Some. destruct (s !! i); [eauto|done]. }
      rewrite (Hh i id); [done|lia|]. unfold shard. by rewrite Hi.
Qed.

(** ** Refinement *)

Inductive StoreOp :=
  | SAdd (p : IPeer) | SDelete (p : IPeer) | SPeer (id : PeerID) | SOnline (ids : list PeerID)
  | SPeers (seed : nat).

(** What a call returns to its caller. *)
Inductive StoreRet :=
  | RAdd (closed : option IPeer) (replaced : bool) | RDelete (deleted : bool)
  | RPeer (p : option IPeer) | ROnline (ids : list PeerID) | RPeers (ps : list IPeer).

Definition store_call {MO : MapOrder} (s : Store) (o : StoreOp) : Store * StoreRet :=
  match o with
  | SAdd p => let '(s', old, replaced) := AddPeer s p in (s', RAdd old replaced)
  | SDelete p => let '(s', deleted) := DeletePeer s p in (s', RDelete deleted)
  | SPeer id => (s, RPeer (Peer s id))
  | SOnline ids => (s, ROnline (online_of s ids))
  | SPeers seed => (s, RPeers (Peers seed s))
  end.

(** What one map may answer: for [Peers] its values in any order. *)
Inductive spec_call (m : gmap PeerID IPeer) : StoreOp → gmap PeerID IPeer → StoreRet → Prop :=
  | spec_SAdd p : spec_call m (SAdd p) (spec_add m p) (RAdd (m !! ID p) (bool_decide (is_Some (m !! ID p))))
  | spec_SDelete p :
      spec_call m (SDelete p) (spec_delete m p) (RDelete (bool_decide (ptr <$> m !! ID p = Some (ptr p))))
  | spec_SPeer id : spec_call m (SPeer id) m (RPeer (m !! id))
  | spec_SOnline ids : spec_call m (SOnline ids) m (ROnline (filter (λ id, is_Some (m !! id)) ids))
  | spec_SPeers seed ps : ps ≡ₚ (map_to_list m).*2 → spec_call m (SPeers seed) m (RPeers ps).

Fixpoint store_calls {MO : MapOrder} (s : Store) (ops : list StoreOp) : Store * list StoreRet :=
  match ops with
  | [] => (s, [])
  | o :: ops' =>
      let '(s1, r) := store_call s o in
      let '(s2, rs) := store_calls s1 ops' in (s2, r :: rs)
  end.

Inductive spec_calls : gmap PeerID IPeer → list StoreOp → gmap PeerID IPeer → list StoreRet → Prop :=
  | spec_nil m : spec_calls m [] m []
  | spec_cons m o m1 r ops m2 rs :
      spec_call m o m1 r → spec_calls m1 ops m2 rs → spec_calls m (o :: ops) m2 (r :: rs).

#[global] Arguments AddPeer : simpl never.
#[global] Arguments DeletePeer : simpl never.
#[global] Arguments Peer : simpl never.

Lemma store_call_refines {MO : MapOrder} s m o :
  store_rel s m →
  ∃ m', spec_call m o m' (store_call s o).2 ∧ store_rel (store_call s o).1 m'.
Proof.
  intros Hr. destruct o as [p|p|id|ids|seed]; unfold store_call.
  - destruct (AddPeer_rel s m p Hr) as (Hs & Ho & Hb). destruct (AddPeer s p) as [[s' old] b].
    simpl in *. subst. eexists. split; [constructor|done].
  - destruct (DeletePeer_rel s m p Hr) as [Hs Hb]. destruct (DeletePeer s p) as [s' b].
    simpl in *. subst. eexists. split; [constructor|done].
  - exists m. rewrite (sr_peer _ _ Hr). split; [constructor|done].
  - exists m. rewrite (online_of_rel s m ids Hr). split; [constructor|done].
  - exists m. split; [constructor; by apply Peers_rel|done].
Qed.

(** C19. The sharded store behaves as one map: every sequence of calls, from the
    empty store, returns what a single map from identifiers to peers may
    return, replacement, identity check and listing included. *)
Theorem store_refines_map {MO : MapOrder} ops :
  ∃ m, spec_calls ∅ ops m (store_calls NewStore ops).2 ∧ store_rel (store_calls NewStore ops).1 m.
Proof.
  generalize NewStore_rel. generalize NewStore. generalize (∅ : gmap PeerID IPeer).
  induction ops as [|o ops IH]; intros m s Hr; simpl; [exists m; by split; [constructor|]|].
  destruct (store_call_refines s m o Hr) as (m1 & Hc & Hr1). destruct (store_call s o) as [s1 r].
  destruct (IH m1 s1 Hr1) as (m2 & Hc2 & Hr2). destruct (store_calls s1 ops) as [s2 rs].
  exists m2. split; [|done]. by econstructor.
Qed.
