(* ===== verification/RelayServer.v ===== *)
(** * The relay server

    [relay/server/{relay,peer}.go] and [relay/server/store/{listener,notifier}.go]
    as a machine whose steps are what one goroutine does between two points
    where it may have to wait: for a mutex, for room in a channel, for the
    network.  A step that is not enabled gives [None].

    Mutexes are not data of the state: who holds one follows from where the
    goroutines are.  [Store.shards\[i\].mu] is read-locked for all [i] by a
    peer that is answering a subscription; [listenersMutex] by a goroutine
    that is telling the listeners about a peer; [Listener.mu] by such a
    goroutine while it waits for room in the listener's channel;
    [notificationMutex] by a peer that is handling a subscription.  Every
    other critical section lies within one step. *)
From S2P Require Import Prelude NetIP Bytes Order RelayMessages RelayAuth RelayStore.
Open Scope Z_scope.

(** ** State *)

(** [event] and [Listener]; [ctx] is the flag [l_done].  A listener is
    registered with the notifier until its context is cancelled. *)
Record event := { ev_peerID : PeerID; ev_online : bool }.

Definition eventCap : nat := 244.

(** Where [listenForEvents] is: in the [select], collecting, or about to make
    the two callbacks. *)
Inductive Loop :=
  | LWait
  | LDrain (on off : list PeerID)
  | LOnline (on off : list PeerID)
  | LOffline (off : list PeerID)
  | LExit.

Record Listener := {
  l_done : bool;
  l_chan : list event;
  l_offline : gset PeerID;
  l_online : gset PeerID;
  l_loop : Loop
}.

Definition newListener : Listener :=
  {| l_done := false; l_chan := []; l_offline := ∅; l_online := ∅; l_loop := LWait |}.

(** Where [handleSubscribePeerState] is: waiting to register, before the
    check of the store, before the answer is written. *)
Inductive Sub := SubNone | SubWant (ids : list PeerID) | SubDone (ids : list PeerID) | SubWrite (ids : list PeerID).

(** The life of a connection: [Relay.Accept] up to [go peer.Work()], [Work],
    and what follows it.  [PTelling] is the loop of [PeerCameOnline] or
    [PeerWentOffline]: the listeners still to visit and the one whose channel
    it waits for. *)
Inductive Phase :=
  | PAccepted | PAdded
  | PTelling (online : bool) (rest : list nat) (cur : option nat)
  | PReady | PWork (sub : Sub) | PEnding | PEnded | PDeleted | PGone.

#[global] Instance Sub_eq_dec : EqDecision Sub.
Proof. solve_decision. Defined.

#[global] Instance Phase_eq_dec : EqDecision Phase.
Proof. solve_decision. Defined.

(** What a connection was sent, in order; [OSubscribed] marks the moment a
    subscription was registered and is not sent. *)
Inductive Out :=
  | OOnline (ids : list PeerID) | OOffline (ids : list PeerID) | OTransport (msg : list Z) | OClose
  | OSubscribed (ids : list PeerID).

#[global] Instance Out_eq_dec : EqDecision Out.
Proof. solve_decision. Defined.

(** [Peer]. *)
Record PeerObj := {
  po_id : PeerID;
  po_closed : bool;
  po_cancelled : bool;
  po_phase : Phase;
  po_listener : Listener;
  po_queue : list (list Z);
  po_writer : bool;
  po_dropped : Z;
  po_out : list Out
}.

Record Relay := {
  r_store : Store;
  r_peers : list PeerObj;
  r_sendQueueSize : Z;
  r_closed : bool
}.

Definition NewRelay (sendQueueSize : Z) : Relay :=
  {| r_store := NewStore; r_peers := []; r_sendQueueSize := sendQueueSize; r_closed := false |}.

Definition defaultSendQueueSize : Z := 1024.

(** The capacity [NewPeer] gives the send queue. *)
Definition queueCap (r : Relay) : nat :=
  Z.to_nat (if r_sendQueueSize r <=? 0 then defaultSendQueueSize else r_sendQueueSize r).

Definition NewPeer (id : PeerID) : PeerObj :=
  {| po_id := id; po_closed := false; po_cancelled := false; po_phase := PAccepted;
     po_listener := newListener; po_queue := []; po_writer := false; po_dropped := 0; po_out := [] |}.

(** ** Updates *)

Definition with_phase (ph : Phase) (p : PeerObj) : PeerObj :=
  {| po_id := po_id p; po_closed := po_closed p; po_cancelled := po_cancelled p; po_phase := ph;
     po_listener := po_listener p; po_queue := po_queue p; po_writer := po_writer p;
     po_dropped := po_dropped p; po_out := po_out p |}.

Definition with_listener (f : Listener → Listener) (p : PeerObj) : PeerObj :=
  {| po_id := po_id p; po_closed := po_closed p; po_cancelled := po_cancelled p; po_phase := po_phase p;
     po_listener := f (po_listener p); po_queue := po_queue p; po_writer := po_writer p;
     po_dropped := po_dropped p; po_out := po_out p |}.

Definition with_out (out : list Out) (p : PeerObj) : PeerObj :=
  {| po_id := po_id p; po_closed := po_closed p; po_cancelled := po_cancelled p; po_phase := po_phase p;
     po_listener := po_listener p; po_queue := po_queue p; po_writer := po_writer p;
     po_dropped := po_dropped p; po_out := out |}.

Definition with_conn (closed cancelled writer : bool) (p : PeerObj) : PeerObj :=
  {| po_id := po_id p; po_closed := closed; po_cancelled := cancelled; po_phase := po_phase p;
     po_listener := po_listener p; po_queue := po_queue p; po_writer := writer;
     po_dropped := po_dropped p; po_out := po_out p |}.

Definition with_queue (queue : list (list Z)) (dropped : Z) (p : PeerObj) : PeerObj :=
  {| po_id := po_id p; po_closed := po_closed p; po_cancelled := po_cancelled p; po_phase := po_phase p;
     po_listener := po_listener p; po_queue := queue; po_writer := po_writer p;
     po_dropped := dropped; po_out := po_out p |}.

Definition set_loop (lp : Loop) (l : Listener) : Listener :=
  {| l_done := l_done l; l_chan := l_chan l; l_offline := l_offline l; l_online := l_online l; l_loop := lp |}.

Definition set_chan (ch : list event) (l : Listener) : Listener :=
  {| l_done := l_done l; l_chan := ch; l_offline := l_offline l; l_online := l_online l; l_loop := l_loop l |}.

Definition set_interest (off on : gset PeerID) (l : Listener) : Listener :=
  {| l_done := l_done l; l_chan := l_chan l; l_offline := off; l_online := on; l_loop := l_loop l |}.

Definition with_peers (ps : list PeerObj) (r : Relay) : Relay :=
  {| r_store := r_store r; r_peers := ps; r_sendQueueSize := r_sendQueueSize r; r_closed := r_closed r |}.

Definition with_store (s : Store) (r : Relay) : Relay :=
  {| r_store := s; r_peers := r_peers r; r_sendQueueSize := r_sendQueueSize r; r_closed := r_closed r |}.

(** Change peer [i]. *)
Definition upd (i : nat) (f : PeerObj → PeerObj) (r : Relay) : Relay :=
  with_peers (alter f i (r_peers r)) r.

(** ** Locks *)

Definition telling (p : PeerObj) : bool := match po_phase p with PTelling _ _ _ => true | _ => false end.

(** The goroutine that waits to send to listener [l]. *)
Definition waits_on (l : nat) (p : PeerObj) : bool :=
  match po_phase p with PTelling _ _ (Some l') => (l =? l')%nat | _ => false end.

Definition waits_online (l : nat) (p : PeerObj) : bool :=
  match po_phase p with PTelling true _ (Some l') => (l =? l')%nat | _ => false end.

Definition holds_shards (p : PeerObj) : bool :=
  match po_phase p with PWork (SubWant _ | SubDone _) => true | _ => false end.

(** [listenersMutex], [l.mu] and the shard mutexes can be locked;
    [l.mu] can be read-locked; [notificationMutex] can be locked. *)
Definition listeners_free (r : Relay) : bool := negb (existsb telling (r_peers r)).
Definition mu_free (r : Relay) (l : nat) : bool := negb (existsb (waits_on l) (r_peers r)).
Definition mu_rfree (r : Relay) (l : nat) : bool := negb (existsb (waits_online l) (r_peers r)).
Definition shards_free (r : Relay) : bool := negb (existsb holds_shards (r_peers r)).
Definition notification_free (p : PeerObj) : bool :=
  match po_phase p with PWork (SubWant _ | SubDone _ | SubWrite _) => false | _ => true end.

(** ** Parts of the handlers *)

(** [AddInterestedPeers], [RemoveInterestedPeer]. *)
Definition AddInterestedPeers (ids : list PeerID) (l : Listener) : Listener :=
  set_interest (foldr (λ id s, {[id]} ∪ s) (l_offline l) ids) (foldr (λ id s, {[id]} ∪ s) (l_online l) ids) l.

Definition RemoveInterestedPeer (ids : list PeerID) (l : Listener) : Listener :=
  set_interest (foldr (λ id s, s ∖ {[id]}) (l_offline l) ids) (foldr (λ id s, s ∖ {[id]}) (l_online l) ids) l.

(** [peerComeOnline] drops the interest once the event is out, or the
    listener is gone. *)
Definition told_online (online : bool) (id : PeerID) (l : Listener) : Listener :=
  if online then set_interest (l_offline l) (l_online l ∖ {[id]}) l else l.

(** [Peer.Write]: nothing reaches a closed connection. *)
Definition Write (o : Out) (p : PeerObj) : PeerObj :=
  with_out (if po_closed p then po_out p else po_out p ++ [o]) p.

(** [Peer.Close]. *)
Definition Close (p : PeerObj) : PeerObj := with_conn true true (po_writer p) p.

(** [CloseGracefully]. *)
Definition CloseGracefully (p : PeerObj) : PeerObj := Close (Write OClose p).

(** [EnqueueTransport]. *)
Definition EnqueueTransport (cap : nat) (msg : list Z) (p : PeerObj) : PeerObj :=
  let room := (length (po_queue p) <? cap)%nat in
  with_queue (if room then po_queue p ++ [msg] else po_queue p)
    (if room then po_dropped p else uint 64 (po_dropped p + 1)) p.

(** [handleTransportMsg] of peer [p]. *)
Definition handleTransportMsg (r : Relay) (p : PeerObj) (msg : list Z) : Relay :=
  match UnmarshalTransportID msg with
  | inl _ => r
  | inr peerID =>
      match Peer (r_store r) peerID with
      | None => r
      | Some dp =>
          match UpdateTransportMsg msg (po_id p) with
          | inl _ => r
          | inr msg' => upd (ptr dp) (EnqueueTransport (queueCap r) msg') r
          end
      end
  end.

(** ** Steps *)

Inductive ROp :=
  | RAccept (now : Z) (msg : list Z)
  | RAddPeer (i : nat)
  | RTellStart (i seed : nat) | RTellNext (i : nat) | RTellSend (i : nat) | RTellSkip (i : nat)
  | RTellEnd (i : nat)
  | RStartWork (i : nat) | RRecv (i : nat) (msg : list Z) | RReadError (i : nat)
  | RSubRegister (i : nat) | RSubAnswer (i : nat) | RSubWrite (i : nat)
  | REndWork (i : nat) | RDelete (i : nat)
  | RLoopTake (i : nat) | RLoopDrained (i : nat) | RLoopOnline (i : nat) | RLoopOffline (i : nat)
  | RLoopExit (i : nat)
  | RWriteNext (i : nat) | RWriterExit (i : nat)
  | RClose (i : nat) (cancel : bool)
  | RShutdown (seed : nat).

Section Steps.
Context {MO : MapOrder}.
(** HMAC-SHA256 and the secret of the validator. *)
Context (HMAC : list Z → list Z → list Z) (secret : list Z).

(** The listeners registered with the notifier: from [NewListener] at the
    start of [Work] to [RemoveListener] at its end. *)
Definition registered (p : PeerObj) : bool :=
  match po_phase p with PWork _ | PEnding => true | _ => false end.

Definition listeners (r : Relay) : gset nat :=
  list_to_set (filter (λ i, (registered <$> r_peers r !! i) = Some true) (seq 0 (length (r_peers r)))).

(** [Relay.Accept] up to the creation of the peer. *)
Definition accept (r : Relay) (now : Z) (msg : list Z) : option Relay :=
  if r_closed r then None
  else
    match handshakeReceive HMAC secret now msg with
    | inl _ => Some r
    | inr id => Some (with_peers (r_peers r ++ [NewPeer id]) r)
    end.

(** [r.store.AddPeer(peer)], which closes the peer it replaces. *)
Definition add_peer (r : Relay) (i : nat) (p : PeerObj) : option Relay :=
  match po_phase p with
  | PAccepted =>
      if shards_free r then
        let '(s, old, _) := AddPeer (r_store r) {| ptr := i; ID := po_id p |} in
        let r := with_store s r in
        let r := match old with Some q => upd (ptr q) Close r | None => r end in
        Some (upd i (with_phase PAdded) r)
      else None
  | _ => None
  end.

(** [PeerCameOnline] and [PeerWentOffline]: the loop over the listeners. *)
Definition tell_start (r : Relay) (i seed : nat) (p : PeerObj) : option Relay :=
  match po_phase p with
  | PAdded => Some (upd i (with_phase (PTelling true (range_set seed (listeners r)) None)) r)
  | PDeleted => Some (upd i (with_phase (PTelling false (range_set seed (listeners r)) None)) r)
  | _ => None
  end.

(** Lock the next listener and test its interest. *)
Definition tell_next (r : Relay) (i : nat) (p : PeerObj) : option Relay :=
  match po_phase p with
  | PTelling online (l :: rest) None =>
      if (if online then mu_free r l else mu_rfree r l) then
        match r_peers r !! l with
        | None => None
        | Some q =>
            let interest := if online then l_online (po_listener q) else l_offline (po_listener q) in
            let cur := if bool_decide (po_id p ∈ interest) then Some l else None in
            Some (upd i (with_phase (PTelling online rest cur)) r)
        end
      else None
  | _ => None
  end.

(** The two ways out of the [select]. *)
Definition tell_send (r : Relay) (i : nat) (p : PeerObj) : option Relay :=
  match po_phase p with
  | PTelling online rest (Some l) =>
      match r_peers r !! l with
      | None => None
      | Some q =>
          if (length (l_chan (po_listener q)) <? eventCap)%nat then
            let e := {| ev_peerID := po_id p; ev_online := online |} in
            let send lst := told_online online (po_id p) (set_chan (l_chan lst ++ [e]) lst) in
            Some (upd i (with_phase (PTelling online rest None)) (upd l (with_listener send) r))
          else None
      end
  | _ => None
  end.

Definition tell_skip (r : Relay) (i : nat) (p : PeerObj) : option Relay :=
  match po_phase p with
  | PTelling online rest (Some l) =>
      match r_peers r !! l with
      | None => None
      | Some q =>
          if l_done (po_listener q) then
            Some (upd i (with_phase (PTelling online rest None))
                    (upd l (with_listener (told_online online (po_id p))) r))
          else None
      end
  | _ => None
  end.

Definition tell_end (r : Relay) (i : nat) (p : PeerObj) : option Relay :=
  match po_phase p with
  | PTelling online [] None => Some (upd i (with_phase (if online then PReady else PGone)) r)
  | _ => None
  end.

(** The start of [Work]: [NewListener] and [go p.writeLoop()]. *)
Definition start_work (r : Relay) (i : nat) (p : PeerObj) : option Relay :=
  match po_phase p with
  | PReady =>
      if listeners_free r then
        Some (upd i (λ p, with_conn (po_closed p) (po_cancelled p) true (with_phase (PWork SubNone) p)) r)
      else None
  | _ => None
  end.

(** Leaving the read loop: the deferred calls begin with [ctxCancel]. *)
Definition leave (i : nat) (r : Relay) : Relay :=
  upd i (λ p, with_conn (po_closed p) true (po_writer p) (with_phase PEnding p)) r.

(** [handleMsgType]. *)
Definition handleMsgType (r : Relay) (i : nat) (p : PeerObj) (msgType : Z) (msg : list Z) : option Relay :=
  if msgType =? MsgTypeTransport then Some (handleTransportMsg r p msg)
  else if msgType =? MsgTypeClose then Some (upd i (λ p, with_conn true (po_cancelled p) (po_writer p) p) r)
  else if msgType =? MsgTypeSubscribePeerState then
    match UnmarshalSubPeerStateMsg msg with
    | inl _ => Some r
    | inr ids => Some (upd i (with_phase (PWork (SubWant ids))) r)
    end
  else if msgType =? MsgTypeUnsubscribePeerState then
    match UnmarshalUnsubPeerStateMsg msg with
    | inl _ => Some r
    | inr ids => if mu_free r i then Some (upd i (with_listener (RemoveInterestedPeer ids)) r) else None
    end
  else Some r.

(** One round of the read loop of [Work]. *)
Definition recv (r : Relay) (i : nat) (p : PeerObj) (raw : list Z) : option Relay :=
  match po_phase p with
  | PWork SubNone =>
      let msg := take MaxMessageSize raw in
      match msg with
      | [] => Some (leave i r)
      | _ =>
          match ValidateVersion msg with
          | inl _ => Some (leave i r)
          | inr _ =>
              match DetermineClientMessageType msg with
              | inl _ => Some (leave i r)
              | inr msgType => handleMsgType r i p msgType msg
              end
          end
      end
  | _ => None
  end.

Definition read_error (r : Relay) (i : nat) (p : PeerObj) : option Relay :=
  match po_phase p with PWork SubNone => Some (leave i r) | _ => None end.

(** [handleSubscribePeerState]: [AddInterestedPeers], the check of the store,
    the answer. *)
Definition sub_register (r : Relay) (i : nat) (p : PeerObj) : option Relay :=
  match po_phase p with
  | PWork (SubWant ids) =>
      if mu_free r i then
        Some (upd i (λ p, with_out (po_out p ++ [OSubscribed ids])
                            (with_listener (AddInterestedPeers ids) (with_phase (PWork (SubDone ids)) p))) r)
      else None
  | _ => None
  end.

Definition sub_answer (r : Relay) (i : nat) (p : PeerObj) : option Relay :=
  match po_phase p with
  | PWork (SubDone ids) =>
      let onlinePeers := online_of (r_store r) ids in
      Some (upd i (with_phase (PWork (match onlinePeers with [] => SubNone | _ => SubWrite onlinePeers end))) r)
  | _ => None
  end.

Definition sub_write (r : Relay) (i : nat) (p : PeerObj) : option Relay :=
  match po_phase p with
  | PWork (SubWrite ids) => Some (upd i (λ p, Write (OOnline ids) (with_phase (PWork SubNone) p)) r)
  | _ => None
  end.

(** The deferred [RemoveListener] and [conn.Close]. *)
Definition end_work (r : Relay) (i : nat) (p : PeerObj) : option Relay :=
  match po_phase p with
  | PEnding =>
      if listeners_free r then
        let cancel l := {| l_done := true; l_chan := l_chan l; l_offline := l_offline l;
                           l_online := l_online l; l_loop := l_loop l |} in
        Some (upd i (λ p, with_conn true true (po_writer p) (with_listener cancel (with_phase PEnded p))) r)
      else None
  | _ => None
  end.

(** After [Work], which waits for the writer: [DeletePeer], and
    [PeerWentOffline] if the peer was there. *)
Definition delete_peer (r : Relay) (i : nat) (p : PeerObj) : option Relay :=
  match po_phase p with
  | PEnded =>
      if po_writer p then None
      else if shards_free r then
        let '(s, deleted) := DeletePeer (r_store r) {| ptr := i; ID := po_id p |} in
        Some (upd i (with_phase (if deleted then PDeleted else PGone)) (with_store s r))
      else None
  | _ => None
  end.

(** [listenForEvents]. *)
Definition push (e : event) (on off : list PeerID) : list PeerID * list PeerID :=
  if ev_online e then (on ++ [ev_peerID e], off) else (on, off ++ [ev_peerID e]).

Definition loop_take (r : Relay) (i : nat) (p : PeerObj) : option Relay :=
  let l := po_listener p in
  match l_loop l, l_chan l with
  | LWait, e :: ch =>
      let '(on, off) := push e [] [] in
      Some (upd i (with_listener (λ l, set_loop (LDrain on off) (set_chan ch l))) r)
  | LDrain on off, e :: ch =>
      let '(on, off) := push e on off in
      Some (upd i (with_listener (λ l, set_loop (LDrain on off) (set_chan ch l))) r)
  | _, _ => None
  end.

Definition loop_drained (r : Relay) (i : nat) (p : PeerObj) : option Relay :=
  match l_loop (po_listener p), l_chan (po_listener p) with
  | LDrain on off, [] => Some (upd i (with_listener (set_loop (LOnline on off))) r)
  | _, _ => None
  end.

Definition loop_online (r : Relay) (i : nat) (p : PeerObj) : option Relay :=
  match l_loop (po_listener p) with
  | LOnline on off =>
      let write p := match on with [] => p | _ => Write (OOnline on) p end in
      Some (upd i (λ p, write (with_listener (set_loop (LOffline off)) p)) r)
  | _ => None
  end.

Definition loop_offline (r : Relay) (i : nat) (p : PeerObj) : option Relay :=
  match l_loop (po_listener p) with
  | LOffline [] => Some (upd i (with_listener (set_loop LWait)) r)
  | LOffline off =>
      if notification_free p then
        Some (upd i (λ p, Write (OOffline off) (with_listener (set_loop LWait) p)) r)
      else None
  | _ => None
  end.

Definition loop_exit (r : Relay) (i : nat) (p : PeerObj) : option Relay :=
  match l_loop (po_listener p) with
  | LWait => if l_done (po_listener p) then Some (upd i (with_listener (set_loop LExit)) r) else None
  | _ => None
  end.

(** [writeLoop]: a failed write closes the connection and ends it. *)
Definition write_next (r : Relay) (i : nat) (p : PeerObj) : option Relay :=
  match po_queue p with
  | msg :: queue =>
      if po_writer p then
        if po_closed p then
          Some (upd i (λ p, with_queue queue (po_dropped p) (with_conn true (po_cancelled p) false p)) r)
        else Some (upd i (λ p, with_queue queue (po_dropped p) (Write (OTransport msg) p)) r)
      else None
  | [] => None
  end.

Definition writer_exit (r : Relay) (i : nat) (p : PeerObj) : option Relay :=
  if po_writer p && po_cancelled p then
    Some (upd i (λ p, with_conn (po_closed p) (po_cancelled p) false p) r)
  else None.

(** The connection goes away: closed by the other side, by a failed health
    check, or by [Peer.Close] after a failed handshake response. *)
Definition close_conn (r : Relay) (i : nat) (cancel : bool) : option Relay :=
  Some (upd i (λ p, with_conn true (po_cancelled p || cancel) (po_writer p) p) r).

(** [Shutdown] waits for the calls of [Accept] in progress. *)
Definition accepting (p : PeerObj) : bool :=
  match po_phase p with PAccepted | PAdded | PTelling true _ _ => true | _ => false end.

Definition shutdown (r : Relay) (seed : nat) : option Relay :=
  if existsb accepting (r_peers r) then None
  else
    let r' := foldl (λ r v, upd (ptr v) CloseGracefully r) r (Peers seed (r_store r)) in
    Some {| r_store := r_store r'; r_peers := r_peers r'; r_sendQueueSize := r_sendQueueSize r';
            r_closed := true |}.

(** A step of peer [i]. *)
Definition at_peer (r : Relay) (i : nat) (f : PeerObj → option Relay) : option Relay :=
  p ← r_peers r !! i; f p.

Definition relay_step (r : Relay) (o : ROp) : option Relay :=
  match o with
  | RAccept now msg => accept r now msg
  | RAddPeer i => at_peer r i (add_peer r i)
  | RTellStart i seed => at_peer r i (tell_start r i seed)
  | RTellNext i => at_peer r i (tell_next r i)
  | RTellSend i => at_peer r i (tell_send r i)
  | RTellSkip i => at_peer r i (tell_skip r i)
  | RTellEnd i => at_peer r i (tell_end r i)
  | RStartWork i => at_peer r i (start_work r i)
  | RRecv i msg => at_peer r i (λ p, if po_closed p then None else recv r i p msg)
  | RReadError i => at_peer r i (read_error r i)
  | RSubRegister i => at_peer r i (sub_register r i)
  | RSubAnswer i => at_peer r i (sub_answer r i)
  | RSubWrite i => at_peer r i (sub_write r i)
  | REndWork i => at_peer r i (end_work r i)
  | RDelete i => at_peer r i (delete_peer r i)
  | RLoopTake i => at_peer r i (loop_take r i)
  | RLoopDrained i => at_peer r i (loop_drained r i)
  | RLoopOnline i => at_peer r i (loop_online r i)
  | RLoopOffline i => at_peer r i (loop_offline r i)
  | RLoopExit i => at_peer r i (loop_exit r i)
  | RWriteNext i => at_peer r i (write_next r i)
  | RWriterExit i => at_peer r i (writer_exit r i)
  | RClose i cancel => at_peer r i (λ _, close_conn r i cancel)
  | RShutdown seed => shutdown r seed
  end.

(** The states a relay can be in. *)
Definition relay_reachable (size : Z) (r : Relay) : Prop :=
  ∃ ops, run relay_step (NewRelay size) ops = Some r.
End Steps.
