(* ===== verification/RelayFacts.v ===== *)
(** * The relay server: peers, store and transport

    Invariants of the machine of [RelayServer]: the store and the connection
    objects agree, send queues stay within their capacity, identifiers come
    from the handshake; and where the transport messages of a peer come from. *)
From S2P Require Import Prelude NetIP Bytes Order RelayMessages RelayCodec RelayAuth.
From S2P Require Import RelayStore RelayServer.
Open Scope Z_scope.

#[global] Arguments queueCap : simpl never.

(** ** Peers after an update *)

Lemma upd_lookup i f r k :
  r_peers (upd i f r) !! k = if decide (k = i) then f <$> r_peers r !! k else r_peers r !! k.
Proof.
  unfold upd. simpl. case_decide as Hk; [subst; apply list_lookup_alter_eq|].
  by apply list_lookup_alter_ne.
Qed.

Lemma upd_Some i f r k q :
  r_peers (upd i f r) !! k = Some q →
  (k = i ∧ ∃ p, r_peers r !! i = Some p ∧ q = f p) ∨ (k ≠ i ∧ r_peers r !! k = Some q).
Proof.
  rewrite upd_lookup. case_decide as Hk; [|by right]. subst.
  intros (p & Hp & Hq)%fmap_Some. left. eauto.
Qed.

Lemma upd_length i f r : length (r_peers (upd i f r)) = length (r_peers r).
Proof. apply length_alter. Qed.

Lemma upd_store i f r : r_store (upd i f r) = r_store r.
Proof. done. Qed.

Lemma upd_cap i f r : queueCap (upd i f r) = queueCap r.
Proof. done. Qed.

(** Cases of a lookup after one or two updates. *)
Ltac upd_cases H :=
  apply upd_Some in H as [(-> & ? & ? & ->)|[? H]]; simplify_eq/=.

Ltac upd_all :=
  repeat match goal with H : r_peers (upd _ _ _) !! _ = Some _ |- _ => upd_cases H end.

(** Take a step apart: one goal per operation and way through it. *)
Ltac step_cases H :=
  match type of H with
  | relay_step _ _ _ ?o = Some _ =>
      destruct o; simpl in H; unfold at_peer in H;
      try (let p := fresh "p" in let Hp := fresh "Hp" in apply bind_Some in H as (p & Hp & H))
  end;
  unfold accept, add_peer, tell_start, tell_next, tell_send, tell_skip, tell_end, start_work, recv,
    handleMsgType, handleTransportMsg, read_error, sub_register, sub_answer, sub_write, end_work, delete_peer,
    loop_take, loop_drained, loop_online, loop_offline, loop_exit, write_next, writer_exit,
    close_conn, leave in H;
  repeat (let E := fresh "E" in
          match type of H with
          | context [match ?x with _ => _ end] => destruct x eqn:E; try discriminate H
          end);
  try (injection H as <-).

#[local] Opaque upd AddPeer DeletePeer Peer.

Section Facts.
Context {MO : MapOrder} (HMAC : list Z → list Z → list Z) (secret : list Z).
Notation step := (relay_step HMAC secret).

(** ** Identifiers *)

(** Closing the peers of the store changes no peer's identifier or phase. *)
Lemma close_all_lookup ps r k q :
  r_peers (foldl (λ r v, upd (ptr v) CloseGracefully r) r ps) !! k = Some q →
  ∃ p, r_peers r !! k = Some p ∧ (q = p ∨ po_closed q = true) ∧ po_id q = po_id p ∧
    po_phase q = po_phase p ∧ po_listener q = po_listener p ∧ po_queue q = po_queue p ∧
    (∀ m, OTransport m ∈ po_out q → OTransport m ∈ po_out p).
Proof.
  revert r. induction ps as [|v ps IH]; intros r; simpl; [intros H; exists q; by split_and!; [|left|..]|].
  intros H. apply IH in H as (p & Hp & Hq & Hid & Hph & Hl & Hqu & Hout). upd_cases Hp; [|by exists p].
  eexists. split; [done|]. simpl in *. split_and!; try done; [right; by destruct Hq as [->|]|].
  intros m Hm. apply Hout in Hm. case_match; simpl in Hm; [done|].
  rewrite elem_of_app, list_elem_of_singleton in Hm. by destruct Hm.
Qed.

Lemma close_all_store ps r : r_store (foldl (λ r v, upd (ptr v) CloseGracefully r) r ps) = r_store r.
Proof. revert r. induction ps as [|v ps IH]; intros r; simpl; [done|]. rewrite IH. done. Qed.

Lemma close_all_size ps r :
  r_sendQueueSize (foldl (λ r v, upd (ptr v) CloseGracefully r) r ps) = r_sendQueueSize r.
Proof. revert r. induction ps as [|v ps IH]; intros r; simpl; [done|]. rewrite IH. done. Qed.

Lemma close_all_length ps r :
  length (r_peers (foldl (λ r v, upd (ptr v) CloseGracefully r) r ps)) = length (r_peers r).
Proof. revert r. induction ps as [|v ps IH]; intros r; simpl; [done|]. rewrite IH. apply upd_length. Qed.

Lemma upd_ids i f r :
  (∀ p, po_id (f p) = po_id p) → po_id <$> r_peers (upd i f r) = po_id <$> r_peers r.
Proof.
  intros Hf. apply list_eq. intros k. rewrite !list_lookup_fmap, upd_lookup.
  case_decide; [|done]. destruct (r_peers r !! k); simpl; [by rewrite Hf|done].
Qed.

Lemma close_all_ids ps r :
  po_id <$> r_peers (foldl (λ r v, upd (ptr v) CloseGracefully r) r ps) = po_id <$> r_peers r.
Proof.
  revert r. induction ps as [|v ps IH]; intros r; simpl; [done|]. rewrite IH. apply upd_ids.
  done.
Qed.

(** The identifiers a step adds: that of an authenticated connection. *)
Definition new_ids (o : ROp) : list PeerID :=
  match o with
  | RAccept now msg => match handshakeReceive HMAC secret now msg with inr id => [id] | inl _ => [] end
  | _ => []
  end.

Lemma step_ids r o r' :
  step r o = Some r' → po_id <$> r_peers r' = (po_id <$> r_peers r) ++ new_ids o.
Proof.
  intros H. step_cases H; unfold new_ids; rewrite ?app_nil_r; simpl;
    try match goal with E : handshakeReceive _ _ _ _ = _ |- _ => rewrite E, ?app_nil_r end;
    rewrite ?fmap_app; try done;
    repeat (rewrite upd_ids; [|intros ?; by repeat case_match]);
    try done.
  - unfold shutdown in H. case_match; simplify_eq/=. apply close_all_ids.
Qed.

Lemma step_peer r o r' i p :
  step r o = Some r' → r_peers r !! i = Some p → ∃ p', r_peers r' !! i = Some p' ∧ po_id p' = po_id p.
Proof.
  intros Hs Hp. assert ((po_id <$> r_peers r') !! i = Some (po_id p)) as H.
  { rewrite (step_ids _ _ _ Hs). apply lookup_app_l_Some. by rewrite list_lookup_fmap, Hp. }
  rewrite list_lookup_fmap in H. apply fmap_Some in H as (p' & Hp' & Hid). eauto.
Qed.

Lemma run_peer ops r r' i p :
  run step r ops = Some r' → r_peers r !! i = Some p → ∃ p', r_peers r' !! i = Some p' ∧ po_id p' = po_id p.
Proof.
  revert r p. induction ops as [|o ops IH]; intros r p; simpl; [intros [= ->]; eauto|].
  destruct (step r o) as [r1|] eqn:E; [|done]. intros Hr Hp.
  destruct (step_peer _ _ _ _ _ E Hp) as (p1 & Hp1 & <-). by apply IH with r1.
Qed.

(** Every identifier was authenticated by a handshake. *)
Lemma run_ids ops r r' i p :
  run step r ops = Some r' → r_peers r' !! i = Some p →
  po_id p ∈ po_id <$> r_peers r ∨
  ∃ now msg, RAccept now msg ∈ ops ∧ handshakeReceive HMAC secret now msg = inr (po_id p).
Proof.
  intros Hr Hp. assert (po_id p ∈ po_id <$> r_peers r') as Hin.
  { apply list_elem_of_fmap. exists p. split; [done|]. by eapply list_elem_of_lookup_2. }
  clear Hp. revert r Hr. induction ops as [|o ops IH]; intros r; simpl; [intros [= ->]; by left|].
  destruct (step r o) as [r1|] eqn:E; [|done]. intros Hr. destruct (IH _ Hr) as [Hi|(now & msg & Hi & Hh)].
  - rewrite (step_ids _ _ _ E), elem_of_app in Hi. destruct Hi as [Hi|Hi]; [by left|right].
    destruct o; simpl in Hi; try (by apply elem_of_nil in Hi).
    destruct (handshakeReceive HMAC secret now msg) eqn:Eh; [by apply elem_of_nil in Hi|].
    apply list_elem_of_singleton in Hi as ->. exists now, msg. split; [left|done].
  - right. exists now, msg. split; [by right|done].
Qed.

(** ** Store and connections *)

(** From [AddPeer] until [DeletePeer]. *)
Definition added (p : PeerObj) : bool :=
  match po_phase p with
  | PAccepted | PDeleted | PGone | PTelling false _ _ => false
  | _ => true
  end.

Record relay_inv (r : Relay) (m : gmap PeerID IPeer) : Prop := {
  ri_store : store_rel (r_store r) m;
  ri_entry : ∀ id q, m !! id = Some q →
    ID q = id ∧ ∃ p, r_peers r !! ptr q = Some p ∧ po_id p = id ∧ added p = true;
  ri_open : ∀ i p, r_peers r !! i = Some p → added p = true → po_closed p = false →
    m !! po_id p = Some {| ptr := i; ID := po_id p |};
  ri_queue : ∀ i p, r_peers r !! i = Some p → (length (po_queue p) <= queueCap r)%nat
}.

(** What most steps do to a peer: it stays in or out of the store, is not
    reopened, and its queue stays within [cap]. *)
Definition peer_kept (cap : nat) (p p' : PeerObj) : Prop :=
  added p' = added p ∧ (po_closed p' = false → po_closed p = false) ∧
  ((length (po_queue p) <= cap)%nat → (length (po_queue p') <= cap)%nat).

(** Steps that leave the store alone: everything but [AddPeer] and
    [DeletePeer]. *)
Definition store_op (o : ROp) : bool := match o with RAddPeer _ | RDelete _ => true | _ => false end.

Lemma Enqueue_kept cap msg p : peer_kept cap p (EnqueueTransport cap msg p).
Proof.
  split_and!; [done|done|]. simpl. destruct (Nat.ltb_spec (length (po_queue p)) cap) as [Hl|Hl]; [|done].
  rewrite length_app. simpl. lia.
Qed.

Lemma step_kept r o r' k p' :
  step r o = Some r' → store_op o = false → r_peers r' !! k = Some p' →
  (∃ p, r_peers r !! k = Some p ∧ peer_kept (queueCap r) p p') ∨ r_peers r !! k = None ∧ p' = NewPeer (po_id p').
Proof.
  intros H Ho Hk.
  assert (∀ p, p' = p → r_peers r !! k = Some p →
    (∃ p, r_peers r !! k = Some p ∧ peer_kept (queueCap r) p p') ∨
    r_peers r !! k = None ∧ p' = NewPeer (po_id p')) as Hsame by (intros p -> ?; left; by exists p).
  step_cases H; simplify_eq/=; try (by eapply Hsame).
  all: try (apply lookup_snoc_Some in Hk as [[_ Hk]|[-> <-]]; [by eapply Hsame|];
            right; by rewrite lookup_ge_None_2).
  all: try (unfold shutdown in H; case_match; simplify_eq/=;
            apply close_all_lookup in Hk as (p & Hp & Hc & Hid & Hph & Hl & Hqu & _); left; exists p;
            unfold peer_kept, added; rewrite Hph, Hqu; split_and!; try done; destruct Hc; by subst || congruence).
  all: upd_all; try (by eapply Hsame).
  all: try (left; eexists; split; [eassumption|]; apply Enqueue_kept).
  all: try (left; eexists; split; [eassumption|]; unfold peer_kept, added; simpl;
            repeat match goal with E : po_phase _ = _ |- _ => rewrite E end;
            repeat match goal with E : po_queue _ = _ |- _ => rewrite E end;
            split_and!; solve [done | simpl; lia]).
Qed.

Lemma relay_inv_frame r o r' m :
  relay_inv r m → step r o = Some r' → store_op o = false → r_store r' = r_store r →
  queueCap r' = queueCap r → relay_inv r' m.
Proof.
  intros [Hs He Ho Hq] Hst Hop Es Ec. split.
  - by rewrite Es.
  - intros id q Hm. destruct (He id q Hm) as (Hid & p & Hp & Hpid & Ha). split; [done|].
    destruct (step_peer _ _ _ _ _ Hst Hp) as (p' & Hp' & Hid').
    exists p'. split_and!; [done|by rewrite Hid'|].
    destruct (step_kept _ _ _ _ _ Hst Hop Hp') as [(p0 & Hp0 & Ha' & _)|[Hn _]]; simplify_eq.
    by rewrite Ha'.
  - intros i p' Hp' Ha Hc.
    destruct (step_kept _ _ _ _ _ Hst Hop Hp') as [(p & Hp & Ha' & Hc' & _)|[_ Hn]];
      [|by rewrite Hn in Ha].
    destruct (step_peer _ _ _ _ _ Hst Hp) as (p1 & Hp1 & Hid). simplify_eq. rewrite Hid.
    apply Ho; [done|congruence|auto].
  - intros i p' Hp'. rewrite Ec.
    destruct (step_kept _ _ _ _ _ Hst Hop Hp') as [(p & Hp & _ & _ & Hl)|[_ Hn]];
      [|rewrite Hn; simpl; lia].
    by eapply Hl, Hq.
Qed.

Lemma step_store r o r' :
  step r o = Some r' → store_op o = false → r_store r' = r_store r ∧ queueCap r' = queueCap r.
Proof.
  intros H Ho. step_cases H; try done.
  unfold shutdown in H. case_match; simplify_eq/=. unfold queueCap. simpl.
  by rewrite close_all_store, close_all_size.
Qed.

Lemma add_peer_inv r i p r' m :
  relay_inv r m → r_peers r !! i = Some p → add_peer r i p = Some r' →
  relay_inv r' (spec_add m {| ptr := i; ID := po_id p |}).
Proof.
  intros [Hs He Ho Hq] Hp H. unfold add_peer in H. destruct (po_phase p) eqn:Eph; try done.
  destruct (shards_free r); [|done]. set (me := {| ptr := i; ID := po_id p |}) in *.
  destruct (AddPeer_rel _ _ me Hs) as (Hs' & Hold & _). destruct (AddPeer (r_store r) me) as [[s old] b].
  simpl in Hs', Hold. injection H as <-.
  (* a peer afterwards, with the one it was *)
  assert (∀ k q', r_peers (upd i (with_phase PAdded)
            (match old with Some q => upd (ptr q) Close (with_store s r) | None => with_store s r end)) !! k = Some q' →
          ∃ q, r_peers r !! k = Some q ∧ po_id q' = po_id q ∧ po_queue q' = po_queue q ∧
            (added q' = if decide (k = i) then true else added q) ∧
            (po_closed q' = false → po_closed q = false ∧ (k ≠ i → ptr <$> old ≠ Some k))) as Hk.
  { intros k q' Hk. destruct old as [q|]; upd_all; try (eexists; split; [eassumption|]; simpl);
      rewrite ?decide_True, ?decide_False by done; split_and!; try done; try congruence;
      try (split; [done|]; try (intros ?; simpl); congruence). }
  assert (∀ k q, r_peers r !! k = Some q → ∃ q', r_peers (upd i (with_phase PAdded)
            (match old with Some q => upd (ptr q) Close (with_store s r) | None => with_store s r end)) !! k = Some q') as Hk'.
  { intros k q Hkq. destruct old; rewrite ?upd_lookup; repeat case_decide; simpl; rewrite Hkq; eauto. }
  split.
  - by destruct old.
  - intros id q. unfold spec_add. destruct (decide (id = po_id p)) as [->|Hne].
    + rewrite lookup_insert_eq. intros [= <-]. split; [done|]. destruct (Hk' _ _ Hp) as [p' Hp'].
      destruct (Hk _ _ Hp') as (q & Hq1 & Hid & _ & Ha & _). rewrite decide_True in Ha by done.
      exists p'. simplify_eq. by split_and!.
    + rewrite lookup_insert_ne by done. intros Hm. destruct (He _ _ Hm) as (Hid & p0 & Hp0 & Hid0 & Ha0).
      split; [done|]. destruct (Hk' _ _ Hp0) as [p' Hp'].
      destruct (Hk _ _ Hp') as (q1 & Hq1 & Hid1 & _ & Ha & _). simplify_eq.
      exists p'. split_and!; [done|congruence|]. rewrite Ha. by case_decide.
  - intros k p' Hp' Ha Hc. destruct (Hk _ _ Hp') as (q & Hq1 & Hid & _ & Ha' & Hcl).
    destruct (Hcl Hc) as [Hc' Hno]. unfold spec_add. rewrite Hid.
    destruct (decide (k = i)) as [->|Hki]; [simplify_eq; by rewrite lookup_insert_eq|].
    rewrite Ha' in Ha. pose proof (Ho _ _ Hq1 Ha Hc') as Hm.
    rewrite lookup_insert_ne; [done|]. intros Heq. simpl in Heq. rewrite <- Heq in Hm.
    apply Hno; [done|]. rewrite Hold. simpl. by rewrite Hm.
  - intros k p' Hp'. destruct (Hk _ _ Hp') as (q & Hq1 & _ & -> & _).
    replace (queueCap _) with (queueCap r) by (by destruct old). by eapply Hq.
Qed.

Lemma delete_peer_inv r i p r' m :
  relay_inv r m → r_peers r !! i = Some p → delete_peer r i p = Some r' →
  relay_inv r' (spec_delete m {| ptr := i; ID := po_id p |}).
Proof.
  intros [Hs He Ho Hq] Hp H. unfold delete_peer in H. destruct (po_phase p) eqn:Eph; try done.
  destruct (po_writer p); [done|]. destruct (shards_free r); [|done]. set (me := {| ptr := i; ID := po_id p |}) in *.
  destruct (DeletePeer_rel _ _ me Hs) as [Hs' _]. destruct (DeletePeer (r_store r) me) as [s del].
  simpl in Hs'. injection H as <-.
  assert (∀ id q, spec_delete m me !! id = Some q → m !! id = Some q ∧ ptr q ≠ i) as Hd.
  { intros id q Hm. assert (m !! id = Some q) as Hmq.
    { unfold spec_delete in Hm. repeat case_match; [|done..].
      by apply lookup_delete_Some in Hm as [_ ?]. }
    split; [done|]. intros Hpi. destruct (He _ _ Hmq) as (Hid & p0 & Hp0 & Hid0 & _). simplify_eq.
    unfold spec_delete in Hm. simpl in Hm. rewrite Hid0, Hmq, Nat.eqb_refl in Hm. by rewrite lookup_delete_eq in Hm. }
  split; [done|..].
  - intros id q Hm. apply Hd in Hm as [Hm Hni]. destruct (He _ _ Hm) as (Hid & p0 & Hp0 & Hid0 & Ha0).
    split; [done|]. exists p0. rewrite upd_lookup, decide_False by done. by split_and!.
  - intros k p' Hp' Ha Hc. upd_cases Hp'; [by destruct del|]. pose proof (Ho _ _ Hp' Ha Hc) as Hm.
    unfold spec_delete. simpl. destruct (decide (po_id p' = po_id p)) as [Heq|Hne].
    + rewrite <- Heq, Hm. simpl. by rewrite (proj2 (Nat.eqb_neq _ _)).
    + repeat case_match; [|done..]. by rewrite lookup_delete_ne.
  - intros k p' Hp'. upd_cases Hp'; [|by eapply Hq]. by apply (Hq i).
Qed.

Lemma step_inv r o r' m : relay_inv r m → step r o = Some r' → ∃ m', relay_inv r' m'.
Proof.
  intros Hi H. destruct (store_op o) eqn:Eo.
  - destruct o; try done; simpl in H; unfold at_peer in H; apply bind_Some in H as (p & Hp & H).
    + eexists. by eapply add_peer_inv.
    + eexists. by eapply delete_peer_inv.
  - destruct (step_store _ _ _ H Eo). exists m. by eapply relay_inv_frame.
Qed.

Lemma NewRelay_inv size : relay_inv (NewRelay size) ∅.
Proof. split; [apply NewStore_rel|by intros ? ? ?|by intros ? ? ?|by intros ? ? ?]. Qed.

Lemma reachable_inv size r : relay_reachable HMAC secret size r → ∃ m, relay_inv r m.
Proof.
  intros [ops Hr]. revert Hr. apply (run_ind step (λ r, ∃ m, relay_inv r m)).
  - intros s o s' [m Hm] Hs. by eapply step_inv.
  - exists ∅. apply NewRelay_inv.
Qed.

(** ** Transport messages *)

(** [m] is queued for, or was written to, the connection of peer [i]. *)
Definition carried (r : Relay) (i : nat) (m : list Z) : Prop :=
  match r_peers r !! i with
  | Some p => m ∈ po_queue p ∨ OTransport m ∈ po_out p
  | None => False
  end.

#[local] Instance carried_dec r i m : Decision (carried r i m).
Proof. unfold carried. destruct (r_peers r !! i); apply _. Defined.

(** [m] is what the relay makes of the message [raw] of sender [q] for the
    peer [id]. *)
Definition relayed (q : PeerObj) (raw : list Z) (id : PeerID) (m : list Z) : Prop :=
  UnmarshalTransportID (take MaxMessageSize raw) = inr id ∧
  UpdateTransportMsg (take MaxMessageSize raw) (po_id q) = inr m.

Lemma carried_step r o r' map i m :
  relay_inv r map → step r o = Some r' → ¬ carried r i m → carried r' i m →
  ∃ j raw q id, o = RRecv j raw ∧ r_peers r !! j = Some q ∧ po_phase q = PWork SubNone ∧
    po_id <$> r_peers r !! i = Some id ∧ relayed q raw id m.
Proof.
  intros Hinv H Hn Hc. unfold carried in *. destruct (r_peers r' !! i) as [p'|] eqn:Hp'; [|done].
  step_cases H; simplify_eq/=.
  all: try (apply lookup_snoc_Some in Hp' as [[_ Hp']|[-> <-]]).
  all: upd_all; try match goal with
                    | Hp : r_peers ?r !! ?k = Some _, Hn : ¬ match r_peers ?r !! ?k with _ => _ end |- _ =>
                        rewrite Hp in Hn; simpl in Hc
                    end; try (by destruct Hn).
  all: try (exfalso; apply Hn; try destruct (po_closed _); rewrite ?elem_of_app, ?list_elem_of_singleton in Hc;
            try match goal with Eq : po_queue _ = _ |- _ => rewrite Eq, elem_of_cons end;
            clear -Hc; naive_solver).
  - destruct Hc as [Hc|Hc]; by apply elem_of_nil in Hc.
  - (* a transport message for a peer of the store *)
    rewrite (sr_peer _ _ (ri_store _ _ Hinv)) in E7.
    destruct (ri_entry _ _ Hinv _ _ E7) as (_ & x' & Hx' & Hid & _).
    rewrite Hx' in *. simplify_eq. exists i0, msg, p, (po_id x). split_and!; [done..|]. unfold relayed. rewrite E2. split; [done|].
    destruct (length (po_queue x) <? queueCap r)%nat; [|by destruct Hn].
    rewrite elem_of_app, list_elem_of_singleton in Hc. destruct Hc as [[Hc| ->]|Hc]; [by destruct Hn; left|done|].
    by destruct Hn; right.
  - unfold shutdown in H. destruct (existsb accepting (r_peers r)); simplify_eq/=.
    apply close_all_lookup in Hp' as (p & Hp & _ & _ & _ & _ & Hqu & Hout).
    rewrite Hp in Hn. rewrite Hqu in Hc. destruct Hn, Hc; [by left|right; auto].
Qed.

(** ** Theorems *)

(** A handshake of the run admitted a connection as [id]. *)
Definition authenticated (ops : list ROp) (id : PeerID) : Prop :=
  ∃ now msg, RAccept now msg ∈ ops ∧ handshakeReceive HMAC secret now msg = inr id.

(** C18. The connection objects and the store agree in every state: an open
    connection that was added is the one the store has for its identifier, so
    no identifier has two; what the store has is a connection of that
    identifier that was not removed; and no send queue outgrows its
    capacity. *)
Theorem relay_store_current size r :
  relay_reachable HMAC secret size r →
  (∀ i p, r_peers r !! i = Some p → added p = true → po_closed p = false →
     Peer (r_store r) (po_id p) = Some {| ptr := i; ID := po_id p |}) ∧
  (∀ id q, Peer (r_store r) id = Some q →
     ID q = id ∧ ∃ p, r_peers r !! ptr q = Some p ∧ po_id p = id ∧ added p = true) ∧
  (∀ i p, r_peers r !! i = Some p → (length (po_queue p) <= queueCap r)%nat).
Proof.
  intros Hr. destruct (reachable_inv size r Hr) as [m Hm]. split_and!.
  - intros i p Hp Ha Hc. rewrite (sr_peer _ _ (ri_store _ _ Hm)). by apply (ri_open _ _ Hm).
  - intros id q Hq. rewrite (sr_peer _ _ (ri_store _ _ Hm)) in Hq. by apply (ri_entry _ _ Hm).
  - apply (ri_queue _ _ Hm).
Qed.

(** C17. Every transport message queued for or written to a connection was sent to
    the relay by a connection that was working then: it was addressed to the
    receiver's identifier and carries the sender's, and both identifiers were
    authenticated by handshakes. *)
Theorem relay_transport_authentic size ops r i p m :
  run step (NewRelay size) ops = Some r → r_peers r !! i = Some p →
  m ∈ po_queue p ∨ OTransport m ∈ po_out p →
  ∃ pre j raw post r1 q,
    ops = pre ++ RRecv j raw :: post ∧ run step (NewRelay size) pre = Some r1 ∧
    r_peers r1 !! j = Some q ∧ po_phase q = PWork SubNone ∧ relayed q raw (po_id p) m ∧
    authenticated ops (po_id p) ∧ authenticated ops (po_id q).
Proof.
  intros Hr Hp Hm.
  destruct (run_source step (λ r, carried r i m) (λ r, carried_dec r i m) ops (NewRelay size) r)
    as (pre & o & post & r1 & r2 & -> & Hpre & Hs & Hn & Hc);
    [done|by unfold carried; rewrite Hp|by intros []|].
  destruct (reachable_inv size r1) as [map Hinv]; [by exists pre|].
  destruct (carried_step _ _ _ _ _ _ Hinv Hs Hn Hc) as (j & raw & q & id & -> & Hq & Hph & Hid & Hrel).
  assert (∀ q', po_id q' ∈ po_id <$> r_peers r1 → authenticated (pre ++ RRecv j raw :: post) (po_id q')) as Hauth.
  { intros q' (q1 & Heq & Hin)%list_elem_of_fmap. apply list_elem_of_lookup in Hin as [k Hk].
    destruct (run_ids _ _ _ _ _ Hpre Hk) as [Hi|(now & msg & Hi & Hh)]; [by apply elem_of_nil in Hi|].
    exists now, msg. rewrite elem_of_app, Heq. by split; [left|]. }
  apply fmap_Some in Hid as (p1 & Hp1 & ->).
  assert (po_id p = po_id p1) as Hpid.
  { rewrite run_app, Hpre in Hr. destruct (run_peer _ _ _ _ _ Hr Hp1) as (p' & Hp' & <-). by simplify_eq. }
  exists pre, j, raw, post, r1, q. rewrite Hpid. split_and!; try done.
  all: apply Hauth, list_elem_of_fmap; eexists; (split; [reflexivity|]).
  all: eapply list_elem_of_lookup_2; eassumption.
Qed.

End Facts.
