(* ===== verification/RelayNotify.v ===== *)
(** * The relay server: who hears of whom

    A peer that subscribed to another and finds it connected has been told so
    since, or is about to be: the registration, the check of the store and the
    notifications, interleaved in any way, lose nothing.  And what is on its
    way is delivered by the listener's own goroutine. *)
From S2P Require Import Prelude NetIP Bytes Order RelayMessages RelayCodec RelayAuth.
From S2P Require Import RelayStore RelayServer RelayFacts.
Open Scope Z_scope.

#[local] Opaque upd AddPeer DeletePeer Peer.

(** ** What a peer was told *)

(** Whether [X] was reported online since the last subscription to it. *)
Definition heard (X : PeerID) (out : list Out) : bool :=
  foldl (λ b o, match o with
                | OOnline ids => b || bool_decide (X ∈ ids)
                | OSubscribed ids => b && negb (bool_decide (X ∈ ids))
                | _ => b
                end) false out.

Definition online_events (ch : list event) : list PeerID :=
  ev_peerID <$> filter (λ e, ev_online e = true) ch.

(** What [listenForEvents] has collected, and what [handleSubscribePeerState]
    is about to answer. *)
Definition collected (lp : Loop) : list PeerID :=
  match lp with LDrain on _ | LOnline on _ => on | _ => [] end.

Definition answer (ph : Phase) : list PeerID :=
  match ph with PWork (SubWrite ids) => ids | _ => [] end.

(** [X] was reported, or the report is on its way. *)
Definition told_in (ch : list event) (lp : Loop) (ans : list PeerID) (out : list Out) (X : PeerID) : Prop :=
  X ∈ online_events ch ∨ X ∈ collected lp ∨ X ∈ ans ∨ heard X out = true.

Definition told (p : PeerObj) (X : PeerID) : Prop :=
  told_in (l_chan (po_listener p)) (l_loop (po_listener p)) (answer (po_phase p)) (po_out p) X.

Lemma heard_snoc X out o :
  heard X (out ++ [o]) =
    match o with
    | OOnline ids => heard X out || bool_decide (X ∈ ids)
    | OSubscribed ids => heard X out && negb (bool_decide (X ∈ ids))
    | _ => heard X out
    end.
Proof. unfold heard. by rewrite foldl_app. Qed.

Lemma online_events_app ch ch' : online_events (ch ++ ch') = online_events ch ++ online_events ch'.
Proof. unfold online_events. by rewrite filter_app, fmap_app. Qed.

Lemma online_events_cons e ch :
  online_events (e :: ch) = (if ev_online e then [ev_peerID e] else []) ++ online_events ch.
Proof. unfold online_events. rewrite filter_cons. by destruct (ev_online e). Qed.

(** One event moved from the channel to the batches. *)
Lemma push_spec e on off X :
  X ∈ (push e on off).1 ↔ X ∈ on ∨ X ∈ online_events [e].
Proof.
  unfold push. rewrite online_events_cons. destruct (ev_online e); simpl.
  - by rewrite elem_of_app, !list_elem_of_singleton.
  - rewrite elem_of_nil. tauto.
Qed.

Lemma told_take e ch lp off on' off' ans out X :
  told_in (e :: ch) lp ans out X → push e (collected lp) off = (on', off') →
  told_in ch (LDrain on' off') ans out X.
Proof.
  unfold told_in. intros H Hp. cbn [collected].
  pose proof (push_spec e (collected lp) off X) as Hs. rewrite Hp in Hs. simpl in Hs.
  change (e :: ch) with ([e] ++ ch) in H. rewrite online_events_app, elem_of_app in H. tauto.
Qed.

Lemma told_send e ch lp ans out X : told_in ch lp ans out X → told_in (ch ++ [e]) lp ans out X.
Proof. unfold told_in. rewrite online_events_app, elem_of_app. tauto. Qed.

Lemma told_sent X ch lp ans out :
  told_in (ch ++ [{| ev_peerID := X; ev_online := true |}]) lp ans out X.
Proof. unfold told_in. rewrite online_events_app, elem_of_app. left. right. by left. Qed.

(** Writing something other than a subscription mark. *)
Lemma told_write o ch lp ans (closed : bool) out X :
  (∀ ids, o ≠ OSubscribed ids) → told_in ch lp ans out X →
  told_in ch lp ans (if closed then out else out ++ [o]) X.
Proof.
  unfold told_in. intros Ho H. destruct closed; [done|]. rewrite heard_snoc.
  destruct o; try tauto; [|by edestruct Ho]. rewrite orb_true_iff. tauto.
Qed.

(** ** Structure of the goroutines *)

Definition fresh (p : PeerObj) : bool :=
  match po_phase p with PAccepted | PAdded | PTelling true _ _ | PReady => true | _ => false end.

(** The listeners a notifying goroutine has still to visit. *)
Definition visits (q : PeerObj) (l : nat) : Prop :=
  match po_phase q with PTelling _ rest cur => l ∈ rest ∨ cur = Some l | _ => False end.

Record notify_base (r : Relay) : Prop := {
  nb_fresh : ∀ i p, r_peers r !! i = Some p → fresh p = true → po_listener p = newListener;
  nb_live : ∀ i p, r_peers r !! i = Some p → registered p = true → l_done (po_listener p) = false;
  nb_regs : ∀ j q l, r_peers r !! j = Some q → visits q l →
    ∃ p, r_peers r !! l = Some p ∧ registered p = true
}.

(** Rewrite with what is known of phases. *)
Ltac phases :=
  unfold visits, registered, fresh, told in *; simpl in *;
  repeat match goal with E : po_phase ?p = _ |- _ => progress (rewrite E in *) end; simpl in *.

Ltac close_cases H Hk p :=
  unfold shutdown in H; destruct (existsb accepting _); simplify_eq/=;
  let Hc := fresh "Hc" in let Hid := fresh "Hid" in let Hph := fresh "Hph" in let Hl := fresh "Hl" in
  apply close_all_lookup in Hk as (p & Hk & Hc & Hid & Hph & Hl & _).

Section Notify.
Context {MO : MapOrder} (HMAC : list Z → list Z → list Z) (secret : list Z).
Notation step := (relay_step HMAC secret).

Lemma elem_of_listeners r i :
  i ∈ listeners r ↔ ∃ p, r_peers r !! i = Some p ∧ registered p = true.
Proof.
  unfold listeners. rewrite elem_of_list_to_set, list_elem_of_filter, elem_of_seq. split.
  - intros [(p & Hp & Hr)%fmap_Some _]. by exists p.
  - intros (p & Hp & Hr). rewrite Hp. simpl. rewrite Hr. split; [done|].
    apply lookup_lt_Some in Hp. lia.
Qed.

Lemma free_none {A} (f : A → bool) l k x : negb (existsb f l) = true → l !! k = Some x → f x = false.
Proof.
  intros Hn Hk. destruct (f x) eqn:E; [|done]. apply negb_true_iff in Hn.
  assert (existsb f l = true) as He; [|congruence]. apply existsb_exists. exists x. split; [|done].
  by eapply list_elem_of_In, list_elem_of_lookup_2.
Qed.

Lemma registered_step r o r' k p :
  step r o = Some r' → r_peers r !! k = Some p → registered p = true →
  (∃ p', r_peers r' !! k = Some p' ∧ registered p' = true) ∨ listeners_free r = true.
Proof.
  intros H Hk Hr. destruct (step_peer _ _ _ _ _ _ _ H Hk) as (p' & Hk' & _).
  step_cases H; simplify_eq/=; try (by right); left.
  all: try (unfold shutdown in H; destruct (existsb accepting (r_peers r)); simplify_eq/=;
            pose proof Hk' as Hk2; apply close_all_lookup in Hk2 as (p0 & Hp0 & _ & _ & Hph & _);
            simplify_eq; eexists; split; [exact Hk'|]; unfold registered in *; by rewrite Hph).
  all: eexists; split; [first [exact Hk'|exact Hk]|].
  all: try (apply lookup_snoc_Some in Hk' as [[_ Hk']|[-> <-]]; [congruence|]; by rewrite lookup_ge_None_2 in Hk).
  all: upd_all; simplify_eq/=; unfold registered in *; simpl;
    repeat match goal with E : po_phase _ = _ |- _ => rewrite E in * end; try done; try congruence.
Qed.

Lemma visits_step r o r' j q' l :
  step r o = Some r' → r_peers r' !! j = Some q' → visits q' l →
  (∃ q, r_peers r !! j = Some q ∧ visits q l) ∨ l ∈ listeners r ∧ ∃ seed, o = RTellStart j seed.
Proof.
  intros H Hk Hv.
  assert (r_peers r !! j = Some q' →
    (∃ q, r_peers r !! j = Some q ∧ visits q l) ∨ l ∈ listeners r ∧ ∃ seed, o = RTellStart j seed) as Hsame
    by (intros; left; by exists q').
  step_cases H; simplify_eq/=; try (by apply Hsame).
  all: try (close_cases H Hk p; left; exists p; split; [done|]; unfold visits in *; by rewrite Hph in Hv).
  all: try (apply lookup_snoc_Some in Hk as [[_ Hk]|[-> <-]]; [by apply Hsame|done]).
  all: upd_all; simplify_eq/=; try (by apply Hsame); clear Hsame.
  all: phases; try done.
  all: try (by right; split; [destruct Hv as [Hv|[=]]; by apply elem_of_range_set in Hv|eexists]).
  all: try (left; eexists; split; [eassumption|]; phases; rewrite ?elem_of_cons in *; naive_solver).
Qed.

Lemma free_not_visiting r j q l : listeners_free r = true → r_peers r !! j = Some q → ¬ visits q l.
Proof.
  intros Hf Hq Hv. apply (free_none telling _ j q) in Hf; [|done].
  unfold telling, visits in *. by destruct (po_phase q).
Qed.

Lemma regs_step r o r' j q' l :
  notify_base r → step r o = Some r' → r_peers r' !! j = Some q' → visits q' l →
  ∃ p', r_peers r' !! l = Some p' ∧ registered p' = true.
Proof.
  intros Hb H Hq' Hv. destruct (visits_step _ _ _ _ _ _ H Hq' Hv) as [(q & Hq & Hvq)|[Hl [seed ->]]].
  - destruct (nb_regs _ Hb _ _ _ Hq Hvq) as (p & Hp & Hr).
    destruct (registered_step _ _ _ _ _ H Hp Hr) as [|Hf]; [done|].
    by destruct (free_not_visiting _ _ _ l Hf Hq).
  - apply elem_of_listeners in Hl as (p & Hp & Hr).
    simpl in H. unfold at_peer in H. apply bind_Some in H as (q & Hq & H). unfold tell_start in H.
    exists p. split; [|done].
    destruct (po_phase q) eqn:E; simplify_eq; rewrite upd_lookup, decide_False; try done;
      intros ->; simplify_eq; unfold registered in Hr; by rewrite E in Hr.
Qed.

Lemma tell_target r j q on rest l :
  notify_base r → r_peers r !! j = Some q → po_phase q = PTelling on rest (Some l) →
  ∃ p, r_peers r !! l = Some p ∧ registered p = true ∧ l ≠ j.
Proof.
  intros Hb Hq Hph. destruct (nb_regs _ Hb j q l Hq) as (p & Hp & Hr).
  { unfold visits. rewrite Hph. by right. }
  exists p. split_and!; [done..|]. intros ->. simplify_eq. unfold registered in Hr. by rewrite Hph in Hr.
Qed.

(** A step changes the listener of a peer only if the peer is registered, has
    events, or is leaving. *)
Lemma fresh_step r o r' i p' :
  notify_base r → step r o = Some r' → r_peers r' !! i = Some p' → fresh p' = true →
  po_listener p' = newListener.
Proof.
  intros Hb H Hk Hf.
  assert (r_peers r !! i = Some p' → po_listener p' = newListener) as Hsame by (intros; by eapply nb_fresh).
  step_cases H; simplify_eq/=; try (by apply Hsame).
  all: try (close_cases H Hk p; rewrite Hl; eapply nb_fresh; [done..|]; unfold fresh in *; by rewrite <- Hph).
  all: try (apply lookup_snoc_Some in Hk as [[_ Hk]|[-> <-]]; [by apply Hsame|done]).
  all: upd_all; simplify_eq/=; try (by apply Hsame); clear Hsame.
  all: try (eapply (nb_fresh _ Hb); [eassumption|]; by phases).
  all: try (by phases).
  all: try (exfalso; match goal with
           | E : po_phase _ = PTelling _ _ (Some _) |- _ =>
               destruct (tell_target _ _ _ _ _ _ Hb Hp E) as (q & Hq & Hr & Hne); simplify_eq/=;
               unfold registered, fresh in *; simpl in *;
               match type of Hr with context [po_phase ?x] => by destruct (po_phase x) as [| |[]| | | | | |] end
           end).
  all: match goal with Hp : r_peers _ !! _ = Some ?p |- _ =>
         assert (po_listener p = newListener) as Hnew by (eapply (nb_fresh _ Hb); [eassumption|done]) end;
       repeat match goal with E : _ (po_listener _) = _ |- _ => rewrite Hnew in E; simpl in E end; try done.
Qed.

Lemma live_step r o r' i p' :
  notify_base r → step r o = Some r' → r_peers r' !! i = Some p' → registered p' = true →
  l_done (po_listener p') = false.
Proof.
  intros Hb H Hk Hf.
  assert (r_peers r !! i = Some p' → l_done (po_listener p') = false) as Hsame by (intros; by eapply nb_live).
  step_cases H; simplify_eq/=; try (by apply Hsame).
  all: try (close_cases H Hk p; rewrite Hl; eapply nb_live; [done..|]; unfold registered in *; by rewrite <- Hph).
  all: try (apply lookup_snoc_Some in Hk as [[_ Hk]|[-> <-]]; [by apply Hsame|done]).
  all: upd_all; simplify_eq/=; try (by apply Hsame); clear Hsame.
  all: try (by phases).
  all: unfold told_online in *; simpl in *; try destruct online; simpl in *.
  all: try (eapply (nb_live _ Hb); [eassumption|]; by phases).
  rewrite (nb_fresh _ Hb _ _ Hp) by (by phases). done.
Qed.

Lemma notify_base_step r o r' : notify_base r → step r o = Some r' → notify_base r'.
Proof.
  intros Hb H. split.
  - intros i p. by apply (fresh_step r o).
  - intros i p. by apply (live_step r o).
  - intros j q l. by apply (regs_step r o).
Qed.

Lemma reachable_base size r : relay_reachable HMAC secret size r → notify_base r.
Proof.
  intros [ops Hr]. revert Hr. apply (run_ind step notify_base); [intros; by eapply notify_base_step|].
  by split.
Qed.

End Notify.
