(* ===== verification/RelayHeard.v ===== *)
(** * The relay server: nothing is missed

    The invariant of the notifications, the theorem that a subscriber has
    heard of every connected peer it subscribed to once the notifying
    goroutines are done with it, and the delivery of what is on its way. *)
From S2P Require Import Prelude NetIP Bytes Order RelayMessages RelayCodec RelayAuth.
From S2P Require Import RelayStore RelayServer RelayFacts RelayNotify.
Open Scope Z_scope.

#[local] Opaque upd AddPeer DeletePeer Peer.

(** A working, open connection subscribed to [X]. *)
Definition subscribed (p : PeerObj) (X : PeerID) : Prop :=
  (∃ sub, po_phase p = PWork sub) ∧ po_closed p = false ∧ X ∈ l_offline (po_listener p).

(** Peer [q] has still to tell listener [i] that it is there. *)
Definition pending (q : PeerObj) (i : nat) : Prop :=
  match po_phase q with
  | PAdded => True
  | PTelling true rest cur => i ∈ rest ∨ cur = Some i
  | _ => False
  end.

#[global] Instance pending_dec q i : Decision (pending q i).
Proof. unfold pending. destruct (po_phase q) as [| |[]| | | | | |]; apply _. Defined.

Definition answering (ph : Phase) : list PeerID := match ph with PWork (SubDone ids) => ids | _ => [] end.

Record heard_inv (r : Relay) : Prop := {
  hi_told : ∀ i p X, r_peers r !! i = Some p → subscribed p X → X ∉ l_online (po_listener p) → told p X;
  hi_seen : ∀ i p X, r_peers r !! i = Some p → subscribed p X → is_Some (Peer (r_store r) X) →
    told p X ∨ X ∈ answering (po_phase p) ∨ ∃ j q, r_peers r !! j = Some q ∧ po_id q = X ∧ pending q i
}.

Lemma elem_of_add (ids : list PeerID) (s : gset PeerID) X :
  X ∈ foldr (λ id s, {[id]} ∪ s) s ids ↔ X ∈ ids ∨ X ∈ s.
Proof. induction ids as [|id ids IH]; simpl; [set_solver|]. rewrite elem_of_union, IH. set_solver. Qed.

Lemma elem_of_remove (ids : list PeerID) (s : gset PeerID) X :
  X ∈ foldr (λ id s, s ∖ {[id]}) s ids ↔ X ∉ ids ∧ X ∈ s.
Proof. induction ids as [|id ids IH]; simpl; [set_solver|]. rewrite elem_of_difference, IH. set_solver. Qed.

Section Heard.
Context {MO : MapOrder} (HMAC : list Z → list Z → list Z) (secret : list Z).
Notation step := (relay_step HMAC secret).

(** A report that is out or on its way stays so, unless the subscription is
    renewed. *)
Lemma told_kept r o r' i p p' X :
  notify_base r → step r o = Some r' → r_peers r !! i = Some p → r_peers r' !! i = Some p' →
  po_closed p' = false → (∃ sub, po_phase p' = PWork sub) →
  po_phase p' = po_phase p ∨ X ∉ answering (po_phase p') → told p X → told p' X.
Proof.
  intros Hb H Hp0 Hk Hcl Hw Hna Ht.
  step_cases H; simplify_eq/=; try done.
  all: try (close_cases H Hk q; destruct Hc as [->|Hc]; [by simplify_eq|congruence]).
  all: try (apply lookup_snoc_Some in Hk as [[_ Hk]|[-> <-]]; [by simplify_eq|]; by rewrite lookup_ge_None_2 in Hp0).
  all: upd_all; simplify_eq/=; try done.
  all: destruct Hw as [sub Hw]; simplify_eq.
  all: unfold told in *; simpl in *; try exact Ht;
    repeat match goal with E : po_phase ?q = _ |- _ => progress (rewrite E in * ) end; simpl in *; try exact Ht.
  all: repeat match goal with E : l_loop _ = _ |- _ => progress (rewrite E in * )
                            | E : l_chan _ = _ |- _ => progress (rewrite E in * )
                            | E : po_closed _ = _ |- _ => progress (rewrite E in * ) end.
  - destruct online; simpl; by apply told_send.
  - by destruct online.
  - destruct Hna as [|Hna]; [done|]. unfold told_in in *.
    rewrite heard_snoc, (bool_decide_eq_false_2 (X ∈ ids)), andb_true_r by done. done.
  - unfold told_in in *. rewrite elem_of_nil in Ht. tauto.
  - unfold told_in in *. rewrite heard_snoc, orb_true_iff, bool_decide_eq_true. tauto.
  - eapply told_take; [exact Ht|eassumption].
  - eapply told_take; [exact Ht|eassumption].
  - exact Ht.
  - exact Ht.
  - unfold told_in in *. simpl in *. rewrite heard_snoc, orb_true_iff, bool_decide_eq_true. tauto.
  - exact Ht.
  - by apply (told_write _ _ _ _ false).
  - exact Ht.
  - by apply (told_write _ _ _ _ false).
Qed.

(** Where an interest comes from: just registered, or there before; and an
    online interest only goes with a report. *)
Lemma interest_back r o r' i p p' X :
  notify_base r → step r o = Some r' → r_peers r !! i = Some p → r_peers r' !! i = Some p' →
  subscribed p' X →
  X ∈ answering (po_phase p') ∧ X ∈ l_online (po_listener p') ∨
  subscribed p X ∧ (X ∉ l_online (po_listener p') → X ∉ l_online (po_listener p) ∨ told p' X).
Proof.
  intros Hb H Hp0 Hk Hs.
  assert (p' = p → X ∈ answering (po_phase p') ∧ X ∈ l_online (po_listener p') ∨
    subscribed p X ∧ (X ∉ l_online (po_listener p') → X ∉ l_online (po_listener p) ∨ told p' X)) as Hsame.
  { intros ->. right. split; [done|]. by left. }
  step_cases H; simplify_eq/=; try (by apply Hsame).
  all: try (close_cases H Hk q; destruct Hc as [->|Hc]; [by simplify_eq; apply Hsame|];
            destruct Hs as (_ & Hcl & _); congruence).
  all: try (apply lookup_snoc_Some in Hk as [[_ Hk]|[-> <-]]; [by simplify_eq; apply Hsame|];
            by rewrite lookup_ge_None_2 in Hp0).
  all: upd_all; simplify_eq/=; try (by apply Hsame); clear Hsame.
  all: destruct Hs as ((sub & Hw) & Hcl & Hx); simpl in *; try discriminate.
  all: try (right; split; [split_and!; [eexists; eassumption|done..]|by left]).
  - right. destruct online; simpl in *; (split; [split_and!; [by eexists|done..]|]); intros Hn; [|by left].
    destruct (decide (X = po_id p0)) as [->|Hne]; [right; apply told_sent|left; set_solver].
  - exfalso. destruct (tell_target _ _ _ _ _ _ Hb Hp E) as (q & Hq & Hr & _).
    pose proof (nb_live _ Hb _ _ Hq Hr). congruence.
  - rewrite (nb_fresh _ Hb _ _ Hp) in Hx by (by phases). by apply elem_of_empty in Hx.
  - apply elem_of_remove in Hx as [Hni Hx]. right. split; [by split_and!; [eexists|..]|].
    rewrite elem_of_remove. intros Hn. left. tauto.
  - apply elem_of_add in Hx. rewrite elem_of_add. destruct (decide (X ∈ ids)) as [|Hni]; [left; tauto|].
    right. split; [split_and!; [by eexists|done|tauto]|]. tauto.
Qed.

(** A subscription that has just been registered waits for the peer. *)
Lemma answering_new r o r' i p p' X :
  step r o = Some r' → r_peers r !! i = Some p → r_peers r' !! i = Some p' →
  po_phase p' ≠ po_phase p → X ∈ answering (po_phase p') → X ∈ l_online (po_listener p').
Proof.
  intros H Hp0 Hk Hne Ha.
  step_cases H; simplify_eq/=; try done.
  all: try (close_cases H Hk q; simplify_eq; congruence).
  all: try (apply lookup_snoc_Some in Hk as [[_ Hk]|[-> <-]]; [by simplify_eq|]; by rewrite lookup_ge_None_2 in Hp0).
  all: upd_all; simplify_eq/=; try done; try (by apply elem_of_nil in Ha).
  all: try (exfalso; match type of Ha with context [match ?x with _ => _ end] => destruct x end;
            by apply elem_of_nil in Ha).
  apply elem_of_add. by left.
Qed.

(** How a notification under way can end for listener [i]. *)
Lemma pending_step r o r' i j q q' :
  step r o = Some r' → r_peers r !! j = Some q → r_peers r' !! j = Some q' → pending q i →
  pending q' i ∨
  (∃ seed, o = RTellStart j seed ∧ i ∉ listeners r) ∨
  (o = RTellNext j ∧ ∃ p, r_peers r !! i = Some p ∧ po_id q ∉ l_online (po_listener p)) ∨
  (∃ rest, (o = RTellSend j ∨ o = RTellSkip j) ∧ po_phase q = PTelling true rest (Some i)).
Proof.
  intros H Hq Hq' Hpd. destruct (decide (pending q' i)) as [|Hnp]; [by left|right].
  assert (po_phase q' = po_phase q → False) as Hsame.
  { intros Hph. apply Hnp. unfold pending in *. by rewrite Hph. }
  unfold pending in *. step_cases H; simplify_eq/=; try (by destruct Hsame).
  all: try (close_cases H Hq' q0; simplify_eq; by destruct Hsame).
  all: try (apply lookup_snoc_Some in Hq' as [[_ Hq']|[-> <-]]; [by simplify_eq; destruct Hsame|];
            by rewrite lookup_ge_None_2 in Hq).
  all: upd_all; simplify_eq/=; try (by destruct Hsame); clear Hsame.
  all: repeat match goal with E : po_phase ?q = _, Hpd : context [po_phase ?q] |- _ => rewrite E in Hpd end;
    simpl in *; try done.
  - left. exists seed. split; [done|]. rewrite <- (elem_of_range_set seed). tauto.
  - destruct online; [|done]. right; left. split; [done|].
    destruct (decide (i = n)) as [->|Hne]; [by destruct Hnp; right|].
    destruct Hpd as [Hpd|]; [|done]. apply elem_of_cons in Hpd. destruct Hnp. tauto.
  - destruct online; [|done]. right; left. split; [done|].
    destruct (decide (i = n)) as [->|Hne].
    + eexists. split; [eassumption|]. by eapply bool_decide_eq_false.
    + destruct Hpd as [Hpd|]; [|done]. apply elem_of_cons in Hpd. destruct Hnp. tauto.
  - destruct online; [|done]. do 2 right. exists rest. split; [by left|]. destruct Hpd; [by destruct Hnp; left|congruence].
  - destruct online; [|done]. do 2 right. exists rest. split; [by left|]. destruct Hpd; [by destruct Hnp; left|congruence].
  - destruct online; [|done]. do 2 right. exists rest. split; [by right|]. destruct Hpd; [by destruct Hnp; left|congruence].
  - destruct online; [|done]. do 2 right. exists rest. split; [by right|]. destruct Hpd; [by destruct Hnp; left|congruence].
  - destruct Hpd as [Hpd|]; [by apply elem_of_nil in Hpd|done].
Qed.

(** A notification that is under way stays so until the listener got it. *)
Lemma pending_kept r o r' i j p p' q :
  notify_base r → heard_inv r → step r o = Some r' → r_peers r !! i = Some p → r_peers r' !! i = Some p' →
  r_peers r !! j = Some q → pending q i → subscribed p (po_id q) → subscribed p' (po_id q) →
  told p' (po_id q) ∨ po_id q ∈ answering (po_phase p') ∨
  ∃ j q', r_peers r' !! j = Some q' ∧ po_id q' = po_id q ∧ pending q' i.
Proof.
  intros Hb Hi H Hp Hp' Hq Hpd Hs Hs'. destruct (step_peer _ _ _ _ _ _ _ H Hq) as (q' & Hq' & Hid).
  destruct (decide (po_id q ∈ answering (po_phase p'))) as [|Hna]; [by right; left|].
  destruct (pending_step _ _ _ _ _ _ _ H Hq Hq' Hpd)
    as [Hpd'|[(seed & -> & Hnl)|[(-> & p0 & Hp0 & Hno)|(rest & Ho & Hph)]]].
  - right; right. by exists j, q'.
  - destruct Hnl. apply elem_of_listeners. exists p. split; [done|].
    destruct Hs as ((sub & Hw) & _). unfold registered. by rewrite Hw.
  - left. simplify_eq. destruct Hs' as (Hw & Hcl & _).
    apply (told_kept r (RTellNext j) r' i p); try done; [by right|]. by apply (hi_told _ Hi i).
  - destruct (tell_target _ _ _ _ _ _ Hb Hq Hph) as (p0 & Hp0 & Hr & Hne). simplify_eq.
    pose proof (nb_live _ Hb _ _ Hp Hr) as Hl.
    destruct Ho as [-> | ->]; simpl in H; unfold at_peer in H; rewrite Hq in H; simpl in H;
      unfold tell_send, tell_skip in H; rewrite Hph, Hp in H; simpl in H; [|by rewrite Hl in H].
    destruct (_ <? _)%nat; simplify_eq. left.
    rewrite upd_lookup, decide_False, upd_lookup, decide_True, Hp in Hp' by done. simplify_eq/=.
    apply told_sent.
Qed.

(** A subscription that is being answered gets its answer. *)
Lemma answering_kept r o r' i p p' X :
  step r o = Some r' → r_peers r !! i = Some p → r_peers r' !! i = Some p' →
  X ∈ answering (po_phase p) → is_Some (Peer (r_store r) X) → (∃ sub, po_phase p' = PWork sub) →
  X ∈ answering (po_phase p') ∨ told p' X.
Proof.
  intros H Hp0 Hk Ha Hst Hw.
  step_cases H; simplify_eq/=; try (by left).
  all: try (close_cases H Hk q; simplify_eq; left; congruence).
  all: try (apply lookup_snoc_Some in Hk as [[_ Hk]|[-> <-]]; [by simplify_eq; left|];
            by rewrite lookup_ge_None_2 in Hp0).
  all: upd_all; simplify_eq/=; try (by left).
  all: repeat match goal with E : po_phase ?q = _, Ha : context [po_phase ?q] |- _ => rewrite E in Ha end;
    simpl in *; try (by apply elem_of_nil in Ha).
  all: assert (X ∈ online_of (r_store r) ids) as Hin by (by apply list_elem_of_filter);
    match goal with E : online_of _ _ = _ |- _ => rewrite E in Hin end.
  - by apply elem_of_nil in Hin.
  - right. right; right; by left.
Qed.

End Heard.
