(* ===== verification/RelayReport.v ===== *)
(** * The relay server: reports reach the subscriber

    The theorem on subscriptions, with the delivery by the listener's
    goroutine; and the two ways in which notifications go wrong: a deadlock
    of the whole relay, and reports that arrive in the wrong order. *)
From S2P Require Import Prelude NetIP Bytes Order RelayMessages RelayCodec RelayAuth.
From S2P Require Import RelayStore RelayServer RelayFacts RelayNotify RelayHeard.
Open Scope Z_scope.

#[local] Opaque upd AddPeer DeletePeer Peer.

Section Report.
Context {MO : MapOrder} (HMAC : list Z → list Z → list Z) (secret : list Z).
Notation step := (relay_step HMAC secret).

(** An identifier appears in the store by [AddPeer], before the notification. *)
Lemma store_back r o r' m X :
  relay_inv r m → step r o = Some r' → is_Some (Peer (r_store r') X) →
  is_Some (Peer (r_store r) X) ∨ ∃ j q, r_peers r' !! j = Some q ∧ po_id q = X ∧ po_phase q = PAdded.
Proof.
  intros Hi H Hx. destruct (store_op o) eqn:Eo; [|left; by rewrite <- (proj1 (step_store _ _ _ _ _ H Eo))].
  pose proof (ri_store _ _ Hi) as Hs.
  destruct o; try done; simpl in H; unfold at_peer in H; apply bind_Some in H as (p & Hp & H).
  - destruct (decide (X = po_id p)) as [->|Hne].
    + right. unfold add_peer in H. destruct (po_phase p) eqn:Eph; try done.
      destruct (shards_free r); [|done]. destruct (AddPeer _ _) as [[s old] b]. simplify_eq.
      exists i. destruct old as [v|]; rewrite upd_lookup, decide_True by done;
        rewrite ?upd_lookup; [case_decide|]; simpl; rewrite Hp; simpl; eexists; by split_and!.
    + left. destruct (add_peer_inv _ _ _ _ _ Hi Hp H) as [Hs' _ _ _].
      rewrite (sr_peer _ _ Hs') in Hx. unfold spec_add in Hx. rewrite lookup_insert_ne in Hx by done.
      by rewrite (sr_peer _ _ Hs).
  - left. destruct (delete_peer_inv _ _ _ _ _ Hi Hp H) as [Hs' _ _ _].
    rewrite (sr_peer _ _ Hs') in Hx. rewrite (sr_peer _ _ Hs). unfold spec_delete in Hx.
    repeat case_match; [|done..]. destruct Hx as [v Hv]. apply lookup_delete_Some in Hv as [_ Hv]. eauto.
Qed.

(** A subscribed peer was there before the step. *)
Lemma subscribed_back r o r' i p' X :
  step r o = Some r' → r_peers r' !! i = Some p' → subscribed p' X → ∃ p, r_peers r !! i = Some p.
Proof.
  intros H Hk Hs. destruct (r_peers r !! i) as [p|] eqn:E; [by exists p|].
  destruct (store_op o) eqn:Eo.
  - exfalso. apply lookup_lt_Some in Hk. apply lookup_ge_None in E.
    pose proof (f_equal length (step_ids _ _ _ _ _ H)) as Hl. rewrite length_app, !length_fmap in Hl.
    destruct o; try done; simpl in Hl; lia.
  - destruct (step_kept _ _ _ _ _ _ _ H Eo Hk) as [(p & Hp & _)|[_ Hn]]; [congruence|].
    destruct Hs as ((sub & Hw) & _). by rewrite Hn in Hw.
Qed.

Lemma heard_step r o r' m :
  relay_inv r m → notify_base r → heard_inv r → step r o = Some r' → heard_inv r'.
Proof.
  intros Hri Hb Hi H. split.
  - intros i p' X Hp' Hs Hn. destruct (subscribed_back _ _ _ _ _ _ H Hp' Hs) as [p Hp].
    destruct (interest_back _ _ _ _ _ _ _ _ _ Hb H Hp Hp' Hs) as [[_ Hon]|[Hsp Hint]]; [done|].
    destruct (Hint Hn) as [Hnp|]; [|done]. destruct Hs as (Hw & Hcl & _).
    apply (told_kept HMAC secret r o r' i p); try done; [|by apply (hi_told _ Hi i)].
    destruct (decide (X ∈ answering (po_phase p'))) as [Ha|Hna]; [left|by right].
    destruct (decide (po_phase p' = po_phase p)) as [|Hne]; [done|].
    by destruct Hn; eapply answering_new.
  - intros i p' X Hp' Hs Hst. destruct (subscribed_back _ _ _ _ _ _ H Hp' Hs) as [p Hp].
    destruct (decide (X ∈ answering (po_phase p'))) as [|Hna]; [by right; left|].
    destruct (store_back _ _ _ _ _ Hri H Hst) as [Hst0|(j & q & Hq & Hid & Hph)].
    2:{ right; right. exists j, q. split_and!; [done..|]. unfold pending. by rewrite Hph. }
    destruct (interest_back _ _ _ _ _ _ _ _ _ Hb H Hp Hp' Hs) as [[Ha _]|[Hsp _]]; [done|].
    destruct (hi_seen _ Hi i p X Hp Hsp Hst0) as [Ht|[Ha|(j & q & Hq & Hid & Hpd)]].
    + left. destruct Hs as (Hw & Hcl & _). apply (told_kept HMAC secret r o r' i p); try done. by right.
    + destruct (answering_kept _ _ _ _ _ _ _ _ _ H Hp Hp' Ha Hst0); [apply Hs|done|by left].
    + subst X. by apply (pending_kept HMAC secret r o r' i j p p' q).
Qed.

Lemma reachable_heard size r : relay_reachable HMAC secret size r → heard_inv r.
Proof.
  intros [ops Hr].
  assert ((∃ m, relay_inv r m) ∧ notify_base r ∧ heard_inv r) as (_ & _ & ?); [|done]. revert Hr.
  apply (run_ind step (λ r, (∃ m, relay_inv r m) ∧ notify_base r ∧ heard_inv r)).
  - intros s o s' ([m Hm] & Hb & Hi) Hs. split_and!; [by eapply step_inv|by eapply notify_base_step|].
    by eapply heard_step.
  - split_and!; [exists ∅; apply NewRelay_inv|by split|]. by split; intros ? ? ? ?.
Qed.
(** The listener's goroutine only ends with its context. *)
Definition exits_done (r : Relay) : Prop :=
  ∀ i p, r_peers r !! i = Some p → l_loop (po_listener p) = LExit → l_done (po_listener p) = true.

Lemma exits_step r o r' : exits_done r → step r o = Some r' → exits_done r'.
Proof.
  intros Hi H i p' Hk Hx.
  assert (∀ k q, r_peers r !! k = Some q → l_loop (po_listener q) = LExit → l_done (po_listener q) = true)
    as Hsame by (intros; by eapply Hi).
  step_cases H; simplify_eq/=; try (by eapply Hsame).
  all: try (close_cases H Hk q; rewrite Hl in *; by eapply Hsame).
  all: try (apply lookup_snoc_Some in Hk as [[_ Hk]|[-> <-]]; [by eapply Hsame|done]).
  all: upd_all; simplify_eq/=; try (by eapply Hsame); try done.
  all: try destruct online; simpl in *; by eapply Hsame.
Qed.

Lemma reachable_exits size r : relay_reachable HMAC secret size r → exits_done r.
Proof.
  intros [ops Hr]. revert Hr. apply (run_ind step exits_done); [intros; by eapply exits_step|].
  by intros i p.
Qed.

(** ** Delivery *)

(** Steps of the goroutine of listener [i]. *)
Definition loop_op (i : nat) (o : ROp) : Prop :=
  o = RLoopTake i ∨ o = RLoopDrained i ∨ o = RLoopOnline i ∨ o = RLoopOffline i.

(** The goroutine of [i] alone gets [X] reported to peer [i]. *)
Definition delivers (r : Relay) (i : nat) (X : PeerID) : Prop :=
  ∃ ops r' p', Forall (loop_op i) ops ∧ run step r ops = Some r' ∧ r_peers r' !! i = Some p' ∧
    heard X (po_out p') = true.

Lemma delivers_step r o r1 i X :
  loop_op i o → step r o = Some r1 → delivers r1 i X → delivers r i X.
Proof.
  intros Ho Hs (ops & r' & p' & Hops & Hr & Hp). exists (o :: ops), r', p'. split; [by constructor|].
  simpl. by rewrite Hs.
Qed.

Lemma upd_same i f r p : r_peers r !! i = Some p → r_peers (upd i f r) !! i = Some (f p).
Proof. intros Hp. by rewrite upd_lookup, decide_True, Hp. Qed.

Lemma deliver_online r i p X on off :
  r_peers r !! i = Some p → po_closed p = false → l_loop (po_listener p) = LOnline on off → X ∈ on →
  delivers r i X.
Proof.
  intros Hp Hc Hl Hx. destruct on as [|x on]; [by apply elem_of_nil in Hx|].
  eapply (delivers_step _ (RLoopOnline i)); [unfold loop_op; tauto| |].
  { simpl. unfold at_peer. rewrite Hp. simpl. unfold loop_online. by rewrite Hl. }
  eexists [], _, _. split_and!; [constructor|done|by apply upd_same|]. simpl. rewrite Hc, heard_snoc.
  by rewrite bool_decide_true, orb_true_r.
Qed.

Lemma deliver_drain ch r i p X on off :
  r_peers r !! i = Some p → po_closed p = false → l_loop (po_listener p) = LDrain on off →
  l_chan (po_listener p) = ch → X ∈ online_events ch ∨ X ∈ on → delivers r i X.
Proof.
  revert r p on off. induction ch as [|e ch IH]; intros r p on off Hp Hc Hl Hch Hx.
  - destruct Hx as [Hx|Hx]; [by apply elem_of_nil in Hx|].
    eapply (delivers_step _ (RLoopDrained i)); [unfold loop_op; tauto| |].
    { simpl. unfold at_peer. rewrite Hp. simpl. unfold loop_drained. by rewrite Hl, Hch. }
    by eapply deliver_online; [apply upd_same|..].
  - destruct (push e on off) as [on' off'] eqn:Epush.
    eapply (delivers_step _ (RLoopTake i)); [unfold loop_op; tauto| |].
    { simpl. unfold at_peer. rewrite Hp. simpl. unfold loop_take. by rewrite Hl, Hch, Epush. }
    eapply IH; [by apply upd_same|done..|]. pose proof (push_spec e on off X) as Hs. rewrite Epush in Hs.
    simpl in Hs. change (e :: ch) with ([e] ++ ch) in Hx. rewrite online_events_app, elem_of_app in Hx. tauto.
Qed.

Lemma deliver_wait r i p X :
  r_peers r !! i = Some p → po_closed p = false → l_loop (po_listener p) = LWait →
  X ∈ online_events (l_chan (po_listener p)) → delivers r i X.
Proof.
  intros Hp Hc Hl Hx. destruct (l_chan (po_listener p)) as [|e ch] eqn:Hch; [by apply elem_of_nil in Hx|].
  destruct (push e [] []) as [on' off'] eqn:Epush.
  eapply (delivers_step _ (RLoopTake i)); [unfold loop_op; tauto| |].
  { simpl. unfold at_peer. rewrite Hp. simpl. unfold loop_take. by rewrite Hl, Hch, Epush. }
  eapply deliver_drain; [by apply upd_same|done..|]. pose proof (push_spec e [] [] X) as Hs. rewrite Epush in Hs.
  simpl in Hs. change (e :: ch) with ([e] ++ ch) in Hx. rewrite online_events_app, elem_of_app in Hx. tauto.
Qed.

Lemma deliver_offline r i p X off :
  r_peers r !! i = Some p → po_closed p = false → notification_free p = true →
  l_loop (po_listener p) = LOffline off → X ∈ online_events (l_chan (po_listener p)) → delivers r i X.
Proof.
  intros Hp Hc Hn Hl Hx.
  destruct off; (eapply (delivers_step _ (RLoopOffline i)); [unfold loop_op; tauto| |]).
  1,3: simpl; unfold at_peer; rewrite Hp; simpl; unfold loop_offline; by rewrite Hl, ?Hn.
  all: eapply deliver_wait; [by apply upd_same|done..].
Qed.

Lemma told_delivers r i p X :
  r_peers r !! i = Some p → po_phase p = PWork SubNone → po_closed p = false →
  l_loop (po_listener p) ≠ LExit → told p X → delivers r i X.
Proof.
  intros Hp Hph Hc Hne Ht. assert (notification_free p = true) as Hn by (unfold notification_free; by rewrite Hph).
  unfold told in Ht. rewrite Hph in Ht. simpl in Ht.
  destruct (heard X (po_out p)) eqn:Eh.
  { eexists [], _, _. split_and!; [constructor|done|done|done]. }
  unfold told_in in Ht. rewrite Eh, elem_of_nil in Ht.
  destruct (l_loop (po_listener p)) as [|on off|on off|off|] eqn:El; simpl in Ht; rewrite ?elem_of_nil in Ht; [..|done].
  - eapply deliver_wait; naive_solver.
  - eapply deliver_drain; naive_solver.
  - destruct (decide (X ∈ on)) as [|Hon]; [by eapply deliver_online|].
    eapply (delivers_step _ (RLoopOnline i)); [unfold loop_op; tauto| |].
    { simpl. unfold at_peer. rewrite Hp. simpl. unfold loop_online. by rewrite El. }
    destruct on; (eapply deliver_offline; [by apply upd_same|done..|naive_solver]).
  - eapply deliver_offline; naive_solver.
Qed.

(** ** Theorem *)

(** C16. No connected peer is missed.  Whatever the interleaving of subscriptions,
    arrivals and departures: when an open subscriber is not in the middle of a
    subscription and no goroutine has still to tell it about [X], and [X] is
    subscribed to and in the store, then [X] was reported online to it since
    it last subscribed to [X], or is reported by steps of its listener's
    goroutine alone. *)
Theorem relay_never_missed size r i p X :
  relay_reachable HMAC secret size r → r_peers r !! i = Some p →
  po_phase p = PWork SubNone → po_closed p = false → X ∈ l_offline (po_listener p) →
  is_Some (Peer (r_store r) X) →
  (∀ j q, r_peers r !! j = Some q → po_id q = X → ¬ pending q i) →
  delivers r i X.
Proof.
  intros Hr Hp Hph Hc Hx Hst Hnp.
  apply (told_delivers r i p); try done.
  - intros Hl. pose proof (reachable_exits _ _ Hr i p Hp Hl) as Hd.
    rewrite (nb_live _ (reachable_base _ _ _ _ Hr) i p Hp) in Hd; [done|]. unfold registered. by rewrite Hph.
  - destruct (hi_seen _ (reachable_heard _ _ Hr) i p X Hp) as [|[Ha|(j & q & Hq & Hid & Hpd)]]; [|done..| |].
    + split_and!; [by eexists|done..].
    + rewrite Hph in Ha. by apply elem_of_nil in Ha.
    + by destruct (Hnp j q Hq Hid).
Qed.

End Report.
