(* ===== verification/RelayCases.v ===== *)
(** * Concrete runs of the relay

    Instances of the theorems, and the runs that show the deadlock and the
    reports in the wrong order. *)
From S2P Require Import Prelude NetIP Bytes Order RelayMessages RelayCodec RelayAuth RelayStore RelayServer RelayFacts RelayNotify RelayHeard.
From S2P Require Import RelayReport.
Open Scope Z_scope.

(** ** The relay server: a deadlock

    A subscriber, its listener's goroutine and a notifying goroutine can come
    to wait for each other: the subscriber holds [notificationMutex] and waits
    for [Listener.mu], the notifying goroutine holds [Listener.mu] and waits
    for room in the channel, the listener's goroutine, which would make room,
    waits for [notificationMutex].  The subscriber also holds the read locks
    of all shards, so from then on no peer can be added or removed. *)

#[local] Opaque upd AddPeer DeletePeer Peer.

(** Subscriber [i] and notifying goroutine [j] wait for each other. *)
Definition stuck (r : Relay) (i j : nat) : Prop :=
  ∃ p q ids x off online rest,
    r_peers r !! i = Some p ∧ po_phase p = PWork (SubWant ids) ∧
    l_loop (po_listener p) = LOffline (x :: off) ∧ l_done (po_listener p) = false ∧
    (eventCap <= length (l_chan (po_listener p)))%nat ∧
    r_peers r !! j = Some q ∧ po_phase q = PTelling online rest (Some i).

Section Stall.
Context {MO : MapOrder} (HMAC : list Z → list Z → list Z) (secret : list Z).
Notation step := (relay_step HMAC secret).

Lemma existsb_lookup {A} (f : A → bool) l k x : l !! k = Some x → f x = true → existsb f l = true.
Proof.
  intros Hk Hf. apply existsb_exists. exists x. split; [|done]. by eapply list_elem_of_In, list_elem_of_lookup_2.
Qed.

(** The locks that are held in such a state. *)
Lemma stuck_locks r i j :
  stuck r i j → mu_free r i = false ∧ shards_free r = false ∧ listeners_free r = false.
Proof.
  intros (p & q & ids & x & off & on & rest & Hp & Hph & _ & _ & _ & Hq & Hqh).
  unfold mu_free, shards_free, listeners_free. rewrite !negb_false_iff. split_and!.
  - apply (existsb_lookup _ _ j q Hq). unfold waits_on. rewrite Hqh. by rewrite Nat.eqb_refl.
  - apply (existsb_lookup _ _ i p Hp). unfold holds_shards. by rewrite Hph.
  - apply (existsb_lookup _ _ j q Hq). unfold telling. by rewrite Hqh.
Qed.

Lemma stuck_peer r o r' i j k p p' :
  stuck r i j → step r o = Some r' → k = i ∨ k = j → r_peers r !! k = Some p → r_peers r' !! k = Some p' →
  po_phase p' = po_phase p ∧ (k = i → po_listener p' = po_listener p).
Proof.
  intros Hst H Hkij Hp0 Hk. destruct (stuck_locks r i j Hst) as (Hmu & Hsh & Hls).
  destruct Hst as (pi & q & ids & x & off & on & rest & Hpi & Hph & Hlo & Hdo & Hch & Hq & Hqh).
  apply Nat.ltb_ge in Hch.
  step_cases H; simplify_eq/=; try done.
  all: try (close_cases H Hk q'; simplify_eq; by split; congruence).
  all: try (apply lookup_snoc_Some in Hk as [[_ Hk]|[-> <-]]; [by simplify_eq|]; by rewrite lookup_ge_None_2 in Hp0).
  all: try congruence.
  all: upd_all; simplify_eq/=; try done; destruct Hkij as [-> | ->]; simplify_eq/=; try congruence;
    (split; [done|]); intros Hki; simplify_eq/=; try congruence.
  all: unfold notification_free in *; rewrite Hph in *; done.
Qed.

Lemma stuck_step r o r' i j :
  stuck r i j → step r o = Some r' → stuck r' i j ∧ r_store r' = r_store r.
Proof.
  intros Hst H. split.
  - pose proof Hst as (p & q & ids & x & off & on & rest & Hp & Hph & Hlo & Hdo & Hch & Hq & Hqh).
    destruct (step_peer _ _ _ _ _ _ _ H Hp) as (p' & Hp' & _).
    destruct (step_peer _ _ _ _ _ _ _ H Hq) as (q' & Hq' & _).
    destruct (stuck_peer _ _ _ _ _ i _ _ Hst H (or_introl eq_refl) Hp Hp') as [Hpp Hpl].
    destruct (stuck_peer _ _ _ _ _ j _ _ Hst H (or_intror eq_refl) Hq Hq') as [Hqp _].
    exists p', q', ids, x, off, on, rest. rewrite Hpp, Hqp, Hpl by done. by split_and!.
  - destruct (store_op o) eqn:Eo; [|by apply (step_store _ _ _ _ _ H Eo)].
    destruct (stuck_locks r i j Hst) as (_ & Hsh & _).
    destruct o; try done; simpl in H; unfold at_peer in H; apply bind_Some in H as (p & Hp & H);
      unfold add_peer, delete_peer in H; rewrite Hsh in H; destruct (po_phase p); try done; by destruct (po_writer p).
Qed.

(** Once three goroutines wait for each other they do so in every later state
    of every run, and no peer is added to or removed from the store any
    more. *)
Lemma stuck_forever r i j ops r' :
  stuck r i j → run step r ops = Some r' → stuck r' i j ∧ r_store r' = r_store r.
Proof.
  revert r. induction ops as [|o ops IH]; intros r Hst; simpl; [by intros [= <-]|].
  destruct (step r o) as [r1|] eqn:E; [|done]. intros Hr.
  destruct (stuck_step _ _ _ _ _ Hst E) as [Hst1 Hs]. destruct (IH _ Hst1 Hr) as [Hst' Hs'].
  split; [done|congruence].
Qed.

End Stall.

#[local] Existing Instance canonical_order.

(** A stand-in for HMAC-SHA256 with values of the right size. *)
Definition w_hmac (key msg : list Z) : list Z :=
  be_bytes 32 (foldl (λ h b, (h * 257 + b + 1) mod 2 ^ 256) 7 (key ++ msg)).

Lemma w_hmac_wf key msg : length (w_hmac key msg) = sha256_Size ∧ bytes (w_hmac key msg).
Proof. split; [apply length_be_bytes|apply be_bytes_range]. Qed.

Definition w_sum (data : list Z) : list Z := w_hmac [] data.
Definition w_id (n : Z) : PeerID := codes "sha-" ++ be_bytes 32 n.

Lemma w_id_wf n : peerID_wf (w_id n).
Proof.
  split; [unfold w_id; rewrite length_app, length_be_bytes; done|].
  apply Forall_app. split; [|apply be_bytes_range]. by apply (bool_decide_eq_true_1 (bytes _)).
Qed.

(** ** Codec and credentials *)

Lemma peer_list_round_trip_witness :
  ∃ msgs, marshalPeerIDs (w_id <$> [1; 2; 3]) MsgTypePeersOnline = inr msgs ∧
    @concat _ <$> read_all unmarshalPeerIDs msgs = Some (w_id <$> [1; 2; 3]).
Proof.
  destruct (peer_list_round_trip (w_id <$> [1; 2; 3]) MsgTypePeersOnline) as (msgs & Hm & _ & _ & Hr).
  - done.
  - apply Forall_fmap, Forall_forall. intros n _. apply w_id_wf.
  - exists msgs. split; [exact Hm|exact Hr].
Defined.

Lemma transport_readdress_witness :
  UnmarshalTransportID (MarshalTransportMsg (w_id 2) [1; 2; 3]) = inr (w_id 2).
Proof. exact (proj1 (transport_readdress (w_id 1) (w_id 2) [1; 2; 3] (w_id_wf 1) (w_id_wf 2))). Defined.

Lemma auth_round_trip_witness :
  match MarshalAuthMsg (w_id 1) [1; 2; 3] with
  | inr msg => UnmarshalAuthMsg msg = inr (w_id 1, [1; 2; 3])
  | inl _ => False
  end.
Proof.
  pose proof (auth_round_trip (w_id 1) [1; 2; 3] (w_id_wf 1)) as H.
  destruct (MarshalAuthMsg (w_id 1) [1; 2; 3]) as [e|msg] eqn:E; [vm_compute in E; discriminate E|].
  exact (proj1 (proj2 H)).
Defined.

Definition w_now : Z := 1700000000 * second.
Definition w_secret : list Z := w_sum (codes "secret").

Definition w_generator : Generator :=
  {| g_algo := w_hmac; g_algoType := AuthAlgoHMACSHA256; g_secret := w_secret; g_timeToLive := 3600 * second |}.

Lemma relay_token_lifetime_witness :
  ∃ token msg, UpdateToken [] (Some (GenerateRelayToken w_generator w_now)) = Some token ∧
    MarshalAuthMsg (w_id 1) token = inr msg ∧
    handshakeReceive w_hmac w_secret (w_now + 1800 * second) msg = inr (w_id 1) ∧
    handshakeReceive w_hmac w_secret (w_now + 3601 * second) msg = inl (HsRefused (w_id 1) AuthExpired).
Proof.
  destruct (relay_token_lifetime w_hmac w_hmac_wf w_sum (codes "secret") (3600 * second) w_now w_generator
              [] (w_id 1) (w_now + 1800 * second) eq_refl) as (t1 & m1 & Ht1 & Hm1 & H1).
  { vm_compute. split; [discriminate|reflexivity]. }
  { apply w_id_wf. }
  destruct (relay_token_lifetime w_hmac w_hmac_wf w_sum (codes "secret") (3600 * second) w_now w_generator
              [] (w_id 1) (w_now + 3601 * second) eq_refl) as (t2 & m2 & Ht2 & Hm2 & H2).
  { vm_compute. split; [discriminate|reflexivity]. }
  { apply w_id_wf. }
  rewrite Ht1 in Ht2. injection Ht2 as <-. rewrite Hm1 in Hm2. injection Hm2 as <-.
  exists t1, m1. split; [exact Ht1|]. split; [exact Hm1|]. split; [exact H1|exact H2].
Defined.

(** The first message of a client with identifier [w_id n]. *)
Definition w_token : list Z :=
  default [] (UpdateToken [] (Some (GenerateRelayToken w_generator w_now))).

Definition w_hello (n : Z) : list Z :=
  match MarshalAuthMsg (w_id n) w_token with inr m => m | inl _ => [] end.

Lemma handshake_accepts_iff_witness :
  ∃ payload ts, take MaxHandshakeSize (w_hello 1) =
      auth_msg (w_id 1) (AuthAlgoHMACSHA256 :: w_hmac w_secret payload ++ payload) ∧
    ParseInt payload = Some ts ∧ Unix w_now <= ts.
Proof.
  destruct (proj1 (handshake_accepts_iff w_hmac w_hmac_wf w_secret w_now (w_hello 1) (w_id 1)))
    as (payload & ts & Hm & _ & _ & Hp & Ht); [vm_compute; reflexivity|].
  exists payload, ts. split; [exact Hm|]. split; [exact Hp|exact Ht].
Defined.

(** ** Runs *)

Notation w_run := (run (relay_step w_hmac w_secret) (NewRelay 0)).

Definition ops_hello (n : Z) : list ROp := [RAccept w_now (w_hello n)].

(** Connection [i] under identifier [n], with [tell] the visits of the
    listeners. *)
Definition ops_connect (i : nat) (n : Z) (tell : list ROp) : list ROp :=
  ops_hello n ++ [RAddPeer i; RTellStart i 0] ++ tell ++ [RTellEnd i; RStartWork i].

(** It leaves, without the last visit. *)
Definition ops_leave (i : nat) : list ROp :=
  [RReadError i; REndWork i; RWriterExit i; RDelete i; RTellStart i 0; RTellNext i].

Definition w_subscribe (n : Z) : list Z :=
  match MarshalSubPeerStateMsg [w_id n] with inr (m :: _) => m | _ => [] end.

Definition ops_subscribe (i : nat) (n : Z) : list ROp :=
  [RRecv i (w_subscribe n); RSubRegister i; RSubAnswer i].

(** Peer 0 subscribes to peer 2, which connects, sends to peer 0, and peer 0
    is told. *)
Definition ops_talk : list ROp :=
  ops_connect 0 1 [] ++ ops_subscribe 0 2 ++ ops_connect 1 2 [RTellNext 1; RTellSend 1] ++
  [RRecv 1 (MarshalTransportMsg (w_id 1) [7; 8]); RWriteNext 0].

Definition w_talk : Relay := default (NewRelay 0) (w_run ops_talk).

Lemma w_talk_run : w_run ops_talk = Some w_talk.
Proof. apply some_default. by vm_compute. Qed.

Definition w_peer (r : Relay) (i : nat) : PeerObj := default (NewPeer []) (r_peers r !! i).

Lemma w_peer_some r i : (i < length (r_peers r))%nat → r_peers r !! i = Some (w_peer r i).
Proof. intros Hi. unfold w_peer. destruct (lookup_lt_is_Some_2 _ _ Hi) as [p ->]. done. Qed.

(** In the run both connections are up, the message was delivered under the
    sender's identifier, and the report that peer 2 is there is in the channel
    of peer 0. *)
Example w_talk_state :
  length (r_peers w_talk) = 2%nat ∧
  po_out (w_peer w_talk 0) = [OSubscribed [w_id 2]; OTransport (MarshalTransportMsg (w_id 2) [7; 8])] ∧
  l_chan (po_listener (w_peer w_talk 0)) = [{| ev_peerID := w_id 2; ev_online := true |}].
Proof. by vm_compute. Qed.

Lemma w_talk_reachable : relay_reachable w_hmac w_secret 0 w_talk.
Proof. exists ops_talk. exact w_talk_run. Qed.

Lemma relay_store_current_witness :
  Peer (r_store w_talk) (w_id 2) = Some {| ptr := 1; ID := w_id 2 |}.
Proof.
  exact (proj1 (relay_store_current w_hmac w_secret 0 w_talk w_talk_reachable) 1%nat (w_peer w_talk 1)
           (w_peer_some w_talk 1 (ltac:(vm_compute; lia)))
           (ltac:(vm_compute; reflexivity)) (ltac:(vm_compute; reflexivity))).
Defined.

Lemma relay_transport_authentic_witness :
  ∃ j raw r1 q, RRecv j raw ∈ ops_talk ∧ r_peers r1 !! j = Some q ∧
    relayed q raw (w_id 1) (MarshalTransportMsg (w_id 2) [7; 8]).
Proof.
  destruct (relay_transport_authentic w_hmac w_secret 0 ops_talk w_talk 0 (w_peer w_talk 0)
              (MarshalTransportMsg (w_id 2) [7; 8]) w_talk_run
              (w_peer_some w_talk 0 (ltac:(vm_compute; lia))))
    as (pre & j & raw & post & r1 & q & Ho & _ & Hq & _ & Hr & _).
  - right. apply (bool_decide_eq_true_1 (_ ∈ po_out (w_peer w_talk 0))). by vm_compute.
  - exists j, raw, r1, q. split; [rewrite Ho; apply elem_of_app; right; left|]. split; [exact Hq|exact Hr].
Defined.

(** No peer of a run has still to tell listener [i]. *)
Definition quiet (r : Relay) (i : nat) : bool := forallb (λ q, negb (bool_decide (pending q i))) (r_peers r).

Lemma quiet_ok r i j q : quiet r i = true → r_peers r !! j = Some q → ¬ pending q i.
Proof.
  intros Hq Hj Hp. unfold quiet in Hq. rewrite forallb_forall in Hq.
  specialize (Hq q ltac:(by eapply list_elem_of_In, list_elem_of_lookup_2)).
  by rewrite bool_decide_true in Hq.
Qed.

Lemma relay_never_missed_witness : delivers w_hmac w_secret w_talk 0 (w_id 2).
Proof.
  apply (relay_never_missed w_hmac w_secret 0 w_talk 0 (w_peer w_talk 0) (w_id 2) w_talk_reachable).
  - exact (w_peer_some w_talk 0 (ltac:(vm_compute; lia))).
  - by vm_compute.
  - by vm_compute.
  - apply (bool_decide_eq_true_1 (w_id 2 ∈ l_offline (po_listener (w_peer w_talk 0)))). by vm_compute.
  - exists {| ptr := 1; ID := w_id 2 |}. by vm_compute.
  - intros j q Hq _. apply (quiet_ok w_talk 0 j q); [by vm_compute|exact Hq].
Defined.

(** ** The deadlock *)

(** Identifier 2 connects, is announced if [announce], and goes away again. *)
Definition ops_flap (announce : list ROp) (i : nat) : list ROp :=
  ops_connect i 2 announce ++ ops_leave i ++ [RTellSend i; RTellEnd i].

(** Peer 0 subscribes to identifier 2, which comes and goes; the goroutine of
    peer 0's listener has collected both events and written the first report;
    identifier 2 flaps until the channel is full, once more so that the
    notifying goroutine waits; and peer 0 sends another subscription before
    its listener's goroutine gets to the second report. *)
Definition ops_deadlock : list ROp :=
  ops_connect 0 1 [] ++ ops_subscribe 0 2 ++ ops_flap [RTellNext 1; RTellSend 1] 1 ++
  [RLoopTake 0; RLoopTake 0; RLoopDrained 0; RLoopOnline 0] ++
  mjoin ((λ i, ops_flap [RTellNext i] i) <$> seq 2 eventCap) ++
  ops_connect 246 2 [RTellNext 246] ++ ops_leave 246 ++ [RRecv 0 (w_subscribe 3)].

Definition stuck_test (r : Relay) (i j : nat) : bool :=
  match r_peers r !! i, r_peers r !! j with
  | Some p, Some q =>
      match po_phase p, l_loop (po_listener p), po_phase q with
      | PWork (SubWant _), LOffline (_ :: _), PTelling _ _ (Some k) =>
          (k =? i)%nat && negb (l_done (po_listener p)) && (eventCap <=? length (l_chan (po_listener p)))%nat
      | _, _, _ => false
      end
  | _, _ => false
  end.

Lemma stuck_test_ok r i j : stuck_test r i j = true → stuck r i j.
Proof.
  unfold stuck_test, stuck. destruct (r_peers r !! i) as [p|]; [|done]. destruct (r_peers r !! j) as [q|]; [|done].
  destruct (po_phase p) as [| | | |[|ids| |]| | | |] eqn:Ep; try done.
  destruct (l_loop (po_listener p)) as [| | |[|x off]|] eqn:El; try done.
  destruct (po_phase q) as [| |on rest [k|]| | | | | |] eqn:Eq; try done.
  intros [[Hk%Nat.eqb_eq Hd%negb_true_iff]%andb_true_iff Hc%Nat.leb_le]%andb_true_iff. subst k.
  exists p, q, ids, x, off, on, rest. by split_and!.
Qed.

Example deadlock_reached :
  match w_run ops_deadlock with Some r => stuck_test r 0 246 | None => false end = true.
Proof. vm_compute. reflexivity. Qed.

(** The relay can come to a state from which, in every continuation, a
    subscriber, its listener's goroutine and a notifying goroutine wait for
    each other, and no peer is added to or removed from the store any more. *)
Theorem relay_deadlocks :
  ∃ r, run (relay_step w_hmac w_secret) (NewRelay 0) ops_deadlock = Some r ∧ stuck r 0 246 ∧
    ∀ ops r', run (relay_step w_hmac w_secret) r ops = Some r' →
      stuck r' 0 246 ∧ r_store r' = r_store r.
Proof.
  pose proof deadlock_reached as H. destruct (w_run ops_deadlock) as [r|]; [|discriminate H].
  apply stuck_test_ok in H. exists r. split; [done|]. split; [done|].
  intros ops r' Hr. by eapply stuck_forever.
Qed.

(** ** Reports in the wrong order *)

(** The last report about [X], if there was one. *)
Definition last_report (X : PeerID) (out : list Out) : option bool :=
  foldl (λ b o, match o with
                | OOnline ids => if bool_decide (X ∈ ids) then Some true else b
                | OOffline ids => if bool_decide (X ∈ ids) then Some false else b
                | _ => b
                end) None out.

(** Peer 0 subscribes to identifier 2, which is connected; identifier 2 leaves
    and connects again before the listener's goroutine of peer 0 runs. *)
Definition ops_reorder : list ROp :=
  ops_connect 0 1 [] ++ ops_connect 1 2 [RTellNext 1] ++ ops_subscribe 0 2 ++ [RSubWrite 0] ++
  ops_leave 1 ++ [RTellSend 1; RTellEnd 1] ++
  ops_connect 2 2 [RTellNext 2; RTellSend 2] ++
  [RLoopTake 0; RLoopTake 0; RLoopDrained 0; RLoopOnline 0; RLoopOffline 0].

(** Events are not reported in the order they were sent: the goroutine writes
    all arrivals it has collected before all departures, so a subscriber can
    be left with the report that a peer is gone when it has come back, with
    nothing more on its way. *)
Theorem relay_reports_reordered :
  ∃ r p, run (relay_step w_hmac w_secret) (NewRelay 0) ops_reorder = Some r ∧
    r_peers r !! 0%nat = Some p ∧ last_report (w_id 2) (po_out p) = Some false ∧
    is_Some (Peer (r_store r) (w_id 2)) ∧ quiet r 0 = true ∧
    po_phase p = PWork SubNone ∧ l_chan (po_listener p) = [] ∧ l_loop (po_listener p) = LWait.
Proof.
  set (r := default (NewRelay 0) (w_run ops_reorder)).
  exists r, (w_peer r 0). split_and!; [apply some_default; by vm_compute| |by vm_compute| |by vm_compute..].
  - apply w_peer_some. vm_compute. lia.
  - exists {| ptr := 2; ID := w_id 2 |}. by vm_compute.
Qed.
