(* ===== verification/NmData.v ===== *)
(** * The account data a network map is computed from

    [shared/management/networkmap/nmdata]: peers, groups, policies, routes,
    network resources and posture checks, with their own operations.

    A map of pointers is a map of values: everywhere in these sources a nil
    pointer stored under a key is treated like a missing key.  Slices of
    pointers keep their nil elements ([None]) where the code tests for them.
    Instants are nanoseconds; durations are [int64] nanoseconds.  The version
    library (hashicorp/go-version) is the class [VersionLib]. *)
From S2P Require Import Prelude NetIP Bytes NetParse.
Open Scope Z_scope.

(** ** Peers *)

Definition PeerCapabilitySourcePrefixes : Z := 1.
Definition PeerCapabilityIPv6Overlay : Z := 2.
Definition PeerCapabilityComponentNetworkMap : Z := 3.

Record ProxyMeta := { pm_Embedded : bool; pm_Cluster : string }.
Record Flags := { fl_ServerSSHAllowed : bool; fl_DisableIPv6 : bool }.
Record File := { file_Path : string; file_ProcessIsRunning : bool }.

Record PeerSystemMeta := {
  meta_WtVersion : string;
  meta_GoOS : string;
  meta_OSVersion : string;
  meta_KernelVersion : string;
  meta_NetworkAddresses : list Prefix;
  meta_Files : list File;
  meta_Capabilities : list Z;
  meta_Flags : Flags;
}.

Record PeerLocation := {
  loc_CountryCode : string;
  loc_CityName : string;
  loc_ConnectionIP : list Z;
}.

Record Peer := {
  p_ID : string;
  p_Key : string;
  p_UserID : string;
  p_DNSLabel : string;
  p_SSHEnabled : bool;
  p_LoginExpirationEnabled : bool;
  p_LastLogin : option Z;
  p_IP : Addr;
  p_IPv6 : Addr;
  p_Meta : PeerSystemMeta;
  p_ProxyMeta : ProxyMeta;
  p_Location : PeerLocation;
}.

#[global] Instance ProxyMeta_eq_dec : EqDecision ProxyMeta.
Proof. solve_decision. Defined.
#[global] Instance Flags_eq_dec : EqDecision Flags.
Proof. solve_decision. Defined.
#[global] Instance File_eq_dec : EqDecision File.
Proof. solve_decision. Defined.
#[global] Instance PeerSystemMeta_eq_dec : EqDecision PeerSystemMeta.
Proof. solve_decision. Defined.
#[global] Instance PeerLocation_eq_dec : EqDecision PeerLocation.
Proof. solve_decision. Defined.
#[global] Instance Peer_eq_dec : EqDecision Peer.
Proof. solve_decision. Defined.

Definition HasCapability (p : Peer) (capability : Z) : bool :=
  bool_decide (capability ∈ meta_Capabilities (p_Meta p)).

Definition SupportsIPv6 (p : Peer) : bool :=
  negb (fl_DisableIPv6 (meta_Flags (p_Meta p))) && HasCapability p PeerCapabilityIPv6Overlay.

Definition SupportsSourcePrefixes (p : Peer) : bool :=
  HasCapability p PeerCapabilitySourcePrefixes.

Definition AddedWithSSOLogin (p : Peer) : bool := negb (String.eqb (p_UserID p) "").

(** The zero [time.Time], the first instant of year 1. *)
Definition zeroTime : Z := -62135596800 * 1000000000.

Definition GetLastLogin (p : Peer) : Z := default zeroTime (p_LastLogin p).

(** [Time.Sub] saturates at the ends of [int64]. *)
Definition clamp64 (x : Z) : Z := Z.max (- 2 ^ 63) (Z.min (2 ^ 63 - 1) x).

(** [now] is what [time.Now] returns. *)
Definition LoginExpired (p : Peer) (expiresIn now : Z) : bool * Z :=
  if negb (AddedWithSSOLogin p) || negb (p_LoginExpirationEnabled p) then (false, 0)
  else let timeLeft := clamp64 (GetLastLogin p + expiresIn - now) in (timeLeft <=? 0, timeLeft).

Definition FQDN (p : Peer) (dnsDomain : string) : string :=
  if String.eqb dnsDomain "" then "" else p_DNSLabel p +:+ "." +:+ dnsDomain.

(** ** Groups and policies *)

Definition GroupAllName : string := "All".

Record Group := { grp_ID : string; grp_Name : string; grp_Peers : list string }.

Definition IsGroupAll (g : Group) : bool := String.eqb (grp_Name g) GroupAllName.

Record Resource := { res_ID : string; res_Type : string }.
Record RulePortRange := { pr_Start : Z; pr_End : Z }.

#[global] Instance Group_eq_dec : EqDecision Group.
Proof. solve_decision. Defined.
#[global] Instance Resource_eq_dec : EqDecision Resource.
Proof. solve_decision. Defined.
#[global] Instance RulePortRange_eq_dec : EqDecision RulePortRange.
Proof. solve_decision. Defined.

Record PolicyRule := {
  pol_ID : string;
  pol_PolicyID : string;
  pol_Enabled : bool;
  pol_Action : string;
  pol_Protocol : string;
  pol_Bidirectional : bool;
  pol_Sources : list string;
  pol_Destinations : list string;
  pol_SourceResource : Resource;
  pol_DestinationResource : Resource;
  pol_Ports : list string;
  pol_PortRanges : list RulePortRange;
  pol_AuthorizedGroups : gmap string (list string);
  pol_AuthorizedUser : string;
}.

#[global] Instance PolicyRule_eq_dec : EqDecision PolicyRule.
Proof. solve_decision. Defined.

Record Policy := {
  policy_ID : string;
  policy_Enabled : bool;
  policy_SourcePostureChecks : list string;
  policy_Rules : list (option PolicyRule);
}.

(** [Policy.SourceGroups]: the sources of the only rule, or of all of them in
    the order of a map. *)
Definition SourceGroups {MO : MapOrder} (seed : nat) (p : Policy) : list string :=
  match policy_Rules p with
  | [Some rule] => pol_Sources rule
  | rules =>
      range_set seed (list_to_set (rules ≫= λ r, match r with Some r => pol_Sources r | None => [] end))
  end.

Definition policyRuleProtocolALL : string := "all".
Definition policyRuleProtocolTCP : string := "tcp".
Definition defaultSSHPortString : string := "22".
Definition nativeSSHPortString : string := "22022".
Definition defaultSSHPortNumber : Z := 22.
Definition nativeSSHPortNumber : Z := 22022.

Definition portRangeIncludesSSH (ranges : list RulePortRange) : bool :=
  existsb (λ pr,
    ((pr_Start pr <=? defaultSSHPortNumber) && (defaultSSHPortNumber <=? pr_End pr)) ||
    ((pr_Start pr <=? nativeSSHPortNumber) && (nativeSSHPortNumber <=? pr_End pr))) ranges.

Definition portsIncludesSSH (ports : list string) : bool :=
  existsb (λ port, String.eqb port defaultSSHPortString || String.eqb port nativeSSHPortString) ports.

Definition PolicyRuleImpliesLegacySSH (rule : PolicyRule) : bool :=
  String.eqb (pol_Protocol rule) policyRuleProtocolALL ||
  (String.eqb (pol_Protocol rule) policyRuleProtocolTCP &&
   (portsIncludesSSH (pol_Ports rule) || portRangeIncludesSSH (pol_PortRanges rule))).

(** ** Routes, network resources, name servers *)

Definition NetworkTypeInvalid : Z := 0.
Definition NetworkTypeIPv4 : Z := 1.
Definition NetworkTypeIPv6 : Z := 2.
Definition NetworkTypeDomain : Z := 3.
Definition haSeparator : string := "|".

(** [rt_Domains] is [None] for the nil list. *)
Record Route := {
  rt_ID : string;
  rt_AccountID : string;
  rt_Network : Prefix;
  rt_Domains : option (list string);
  rt_KeepRoute : bool;
  rt_NetID : string;
  rt_Description : string;
  rt_Peer : string;
  rt_PeerID : string;
  rt_PeerGroups : list string;
  rt_NetworkType : Z;
  rt_Masquerade : bool;
  rt_Metric : Z;
  rt_Enabled : bool;
  rt_Groups : list string;
  rt_AccessControlGroups : list string;
  rt_SkipAutoApply : bool;
}.

Definition IsDynamic (r : Route) : bool := rt_NetworkType r =? NetworkTypeDomain.

(** [List.SafeString] of the domains is an argument. *)
Definition NetString (SafeString : list string → string) (r : Route) : string :=
  match rt_Domains r with
  | Some ds => if IsDynamic r then SafeString ds else prefix_String (rt_Network r)
  | None => prefix_String (rt_Network r)
  end.

Definition GetHAUniqueID (SafeString : list string → string) (r : Route) : string :=
  rt_NetID r +:+ haSeparator +:+ NetString SafeString r.

Definition GetResourceID (r : Route) : string := (split_first ":"%char (rt_ID r)).1.

Record NetworkResource := {
  nr_ID : string;
  nr_NetworkID : string;
  nr_AccountID : string;
  nr_Name : string;
  nr_Description : string;
  nr_Type : string;
  nr_Domain : string;
  nr_Prefix : Prefix;
  nr_Enabled : bool;
}.

Record NetworkRouter := { router_Masquerade : bool; router_Metric : Z }.

Record NameServer := { ns_IP : Addr; ns_NSType : Z; ns_Port : Z }.

Record NameServerGroup := {
  nsg_ID : string;
  nsg_Name : string;
  nsg_Description : string;
  nsg_NameServers : list NameServer;
  nsg_Groups : list string;
  nsg_Primary : bool;
  nsg_Domains : list string;
  nsg_Enabled : bool;
  nsg_SearchDomainsEnabled : bool;
}.

Record SimpleRecord := {
  rec_Name : string;
  rec_Type : Z;
  rec_Class : string;
  rec_TTL : Z;
  rec_RData : string;
}.

Record CustomZone := {
  zone_Domain : string;
  zone_Records : list SimpleRecord;
  zone_SearchDomainDisabled : bool;
  zone_NonAuthoritative : bool;
}.

(** The address ranges are not read by the computations modelled here. *)
Record Network := { net_Identifier : string; net_Dns : string; net_Serial : Z }.

(** [CurrentSerial] of the twin converts from [int64]. *)
Definition CurrentSerial (n : Network) : Z := uint 64 (net_Serial n).

Record DNSSettings := { dns_DisabledManagementGroups : list string }.

Record AccountSettingsInfo := {
  as_PeerLoginExpirationEnabled : bool;
  as_PeerLoginExpiration : Z;
}.

(** ** Posture checks

    A check returns whether the peer passes; an error counts as a failure, so
    the boolean is all that callers use. *)

Class VersionLib := {
  Version : Type;
  Constraints : Type;
  NewVersion : string → option Version;
  NewConstraint : string → option Constraints;
  version_Check : Constraints → Version → bool;
}.

(** [strings.Split(v, "-")[0]]. *)
Definition sanitizeVersion (v : string) : string := (split_first "-"%char v).1.

Definition checkActionAllow : string := "allow".
Definition checkActionDeny : string := "deny".

Record GeoLocation := { geo_CountryCode : string; geo_CityName : string }.
Record Process := { proc_LinuxPath : string; proc_MacPath : string; proc_WindowsPath : string }.

Record OSVersionCheck := {
  os_Android : option string;
  os_Darwin : option string;
  os_Ios : option string;
  os_Linux : option string;
  os_Windows : option string;
}.

Inductive Check :=
| NBVersionCheck (MinVersion : string)
| OSVersion (c : OSVersionCheck)
| GeoLocationCheck (Locations : list GeoLocation) (Action : string)
| PeerNetworkRangeCheck (Action : string) (Ranges : list Prefix)
| ProcessCheck (Processes : list Process).

Definition prefixContains (outer inner : Prefix) : bool :=
  let outer := prefix_Masked outer in
  let inner := prefix_Masked inner in
  (prefix_Bits outer <=? prefix_Bits inner) &&
  (BitLen (prefix_Addr outer) =? BitLen (prefix_Addr inner)) &&
  prefix_Contains outer (prefix_Addr inner).

(** [netip.AddrFromSlice]. *)
Definition AddrFromSlice (bs : list Z) : option Addr :=
  match length bs with
  | 4%nat => Some (AddrFrom4 bs)
  | 16%nat => Some (AddrFrom16 bs)
  | _ => None
  end.

(** The action of a check whose list has ([matched]) or has not an entry for
    the peer; an unknown action is an error. *)
Definition action_verdict (action : string) (matched : bool) : bool :=
  if String.eqb action checkActionDeny then negb matched
  else if String.eqb action checkActionAllow then matched
  else false.

Definition geo_check (locations : list GeoLocation) (action : string) (peer : Peer) : bool :=
  let loc := p_Location peer in
  if String.eqb (loc_CountryCode loc) "" && String.eqb (loc_CityName loc) "" then false
  else action_verdict action
    (existsb (λ l, String.eqb (geo_CountryCode l) (loc_CountryCode loc) &&
       (String.eqb (geo_CityName l) "" || String.eqb (geo_CityName l) (loc_CityName loc))) locations).

Definition peer_prefixes (peer : Peer) : list Prefix :=
  meta_NetworkAddresses (p_Meta peer) ++
  match AddrFromSlice (loc_ConnectionIP (p_Location peer)) with
  | Some addr => [PrefixFrom (Unmap addr) (BitLen (Unmap addr))]
  | None => []
  end.

Definition network_range_check (action : string) (ranges : list Prefix) (peer : Peer) : bool :=
  match peer_prefixes peer with
  | [] => false
  | prefixes => action_verdict action
      (existsb (λ pp, existsb (λ rp, prefixContains rp pp) ranges) prefixes)
  end.

Definition extractPeerActiveProcesses (files : list File) : list string :=
  file_Path <$> filter (λ f, file_ProcessIsRunning f = true) files.

Definition pathSelector (goos : string) : option (Process → string) :=
  if String.eqb goos "linux" then Some proc_LinuxPath
  else if String.eqb goos "darwin" then Some proc_MacPath
  else if String.eqb goos "windows" then Some proc_WindowsPath
  else None.

Definition areAllProcessesRunning (processes : list Process) (active : list string)
    (select : Process → string) : bool :=
  forallb (λ pr, negb (String.eqb (select pr) "") && bool_decide (select pr ∈ active)) processes.

Definition process_check (processes : list Process) (peer : Peer) : bool :=
  match pathSelector (meta_GoOS (p_Meta peer)) with
  | Some select =>
      areAllProcessesRunning processes (extractPeerActiveProcesses (meta_Files (p_Meta peer))) select
  | None => false
  end.

Section Posture.
Context {VL : VersionLib}.

(** [None] is an error. *)
Definition meets (constraint version : string) : option bool :=
  match NewVersion version with
  | None => None
  | Some v => (λ c, version_Check c v) <$> NewConstraint constraint
  end.

Definition meetsMinVersion (minVer peerVer : string) : option bool :=
  meets (">= " +:+ sanitizeVersion minVer) (sanitizeVersion peerVer).

(** [checkMinVersion] and [checkMinKernelVersion]. *)
Definition checkMinVersion (peerVersion : string) (check : option string) : bool :=
  match check with
  | None => false
  | Some minVersion => default false (meets (">= " +:+ minVersion) peerVersion)
  end.

Definition os_check (c : OSVersionCheck) (peer : Peer) : bool :=
  let m := p_Meta peer in
  if String.eqb (meta_GoOS m) "android" then checkMinVersion (meta_OSVersion m) (os_Android c)
  else if String.eqb (meta_GoOS m) "darwin" then checkMinVersion (meta_OSVersion m) (os_Darwin c)
  else if String.eqb (meta_GoOS m) "ios" then checkMinVersion (meta_OSVersion m) (os_Ios c)
  else if String.eqb (meta_GoOS m) "linux" then
    checkMinVersion (sanitizeVersion (meta_KernelVersion m)) (os_Linux c)
  else if String.eqb (meta_GoOS m) "windows" then checkMinVersion (meta_KernelVersion m) (os_Windows c)
  else true.

Definition check (c : Check) (peer : Peer) : bool :=
  match c with
  | NBVersionCheck minVersion => default false (meetsMinVersion minVersion (meta_WtVersion (p_Meta peer)))
  | OSVersion c => os_check c peer
  | GeoLocationCheck locations action => geo_check locations action peer
  | PeerNetworkRangeCheck action ranges => network_range_check action ranges peer
  | ProcessCheck processes => process_check processes peer
  end.

Definition PassesChecks (checks : list Check) (peer : Peer) : bool :=
  forallb (λ c, check c peer) checks.
End Posture.

Record ChecksDefinition := {
  cd_NBVersion : option string;
  cd_OSVersion : option OSVersionCheck;
  cd_GeoLocation : option (list GeoLocation * string);
  cd_PeerNetworkRange : option (string * list Prefix);
  cd_Process : option (list Process);
}.

Definition opt_list {A} (o : option A) : list A := match o with Some x => [x] | None => [] end.

Definition GetChecks (d : ChecksDefinition) : list Check :=
  opt_list (NBVersionCheck <$> cd_NBVersion d) ++
  opt_list (OSVersion <$> cd_OSVersion d) ++
  opt_list ((λ g, GeoLocationCheck g.1 g.2) <$> cd_GeoLocation d) ++
  opt_list ((λ n, PeerNetworkRangeCheck n.1 n.2) <$> cd_PeerNetworkRange d) ++
  opt_list (ProcessCheck <$> cd_Process d).

Definition Passes {VL : VersionLib} (d : ChecksDefinition) (peer : Peer) : bool :=
  PassesChecks (GetChecks d) peer.

(** ** Resource types *)

Definition ResourceTypePeer : string := "peer".
Definition ResourceTypeDomain : string := "domain".
Definition ResourceTypeHost : string := "host".
Definition ResourceTypeSubnet : string := "subnet".

(** A side of a rule names a peer directly. *)
Definition names_peer (r : Resource) : bool :=
  String.eqb (res_Type r) ResourceTypePeer && negb (String.eqb (res_ID r) "").
