(* ===== verification/FwGen.v ===== *)
(** * Firewall rules generated from policy rules

    [shared/management/types]: [firewall_helpers.go], [firewall_rule.go],
    [route_firewall_rule.go] and the IPv6 counterpart of
    [networkmap_components.go].  A set of keys that a caller passes along
    ([rulesExists]) is threaded through. *)
From S2P Require Import Prelude NetIP Bytes NetParse Order NmData.
Open Scope Z_scope.

Definition FirewallRuleDirectionIN : Z := 0.
Definition FirewallRuleDirectionOUT : Z := 1.

Definition PolicyTrafficActionAccept : string := "accept".
Definition PolicyTrafficActionDrop : string := "drop".
Definition PolicyRuleProtocolALL : string := "all".
Definition PolicyRuleProtocolTCP : string := "tcp".
Definition PolicyRuleProtocolUDP : string := "udp".
Definition PolicyRuleProtocolICMP : string := "icmp".
Definition PolicyRuleProtocolNetbirdSSH : string := "netbird-ssh".

(** [types.FirewallRule]. *)
Record FirewallRule := {
  f_PolicyID : string;
  f_PeerIP : string;
  f_Direction : Z;
  f_Action : string;
  f_Protocol : string;
  f_Port : string;
  f_PortRange : RulePortRange;
}.

#[global] Instance FirewallRule_eq_dec : EqDecision FirewallRule.
Proof. solve_decision. Defined.

(** [types.RouteFirewallRule]. *)
Record RouteFirewallRule := {
  r_PolicyID : string;
  r_RouteID : string;
  r_SourceRanges : list string;
  r_Action : string;
  r_Destination : string;
  r_Protocol : string;
  r_Port : Z;
  r_PortRange : RulePortRange;
  r_Domains : option (list string);
  r_IsDynamic : bool;
}.

#[global] Instance RouteFirewallRule_eq_dec : EqDecision RouteFirewallRule.
Proof. solve_decision. Defined.

Definition noRange : RulePortRange := {| pr_Start := 0; pr_End := 0 |}.

(** [fr := base; fr.Port = port]. *)
Definition with_port (base : FirewallRule) (port : string) : FirewallRule :=
  {| f_PolicyID := f_PolicyID base; f_PeerIP := f_PeerIP base; f_Direction := f_Direction base;
     f_Action := f_Action base; f_Protocol := f_Protocol base; f_Port := port;
     f_PortRange := f_PortRange base |}.

Definition with_range (base : FirewallRule) (pr : RulePortRange) : FirewallRule :=
  {| f_PolicyID := f_PolicyID base; f_PeerIP := f_PeerIP base; f_Direction := f_Direction base;
     f_Action := f_Action base; f_Protocol := f_Protocol base; f_Port := f_Port base;
     f_PortRange := pr |}.

(** ** Features of the target peer *)

Definition DevelopmentVersion : string := "development".
Definition CIVersionPrefix : string := "ci-".
Definition DevVersionPrefix : string := "dev-".

Definition IsDevelopmentVersion (v : string) : bool :=
  String.prefix DevelopmentVersion v || String.prefix CIVersionPrefix v ||
  String.prefix DevVersionPrefix v.

Definition firewallRuleMinPortRangesVer : string := "0.48.0".
Definition firewallRuleMinNativeSSHVer : string := "0.60.0".

Record supportedFeatures := { nativeSSH : bool; portRanges : bool }.

Section Features.
Context {VL : VersionLib}.

Definition peerSupportedFirewallFeatures (peerVer : string) : supportedFeatures :=
  if IsDevelopmentVersion peerVer then {| nativeSSH := true; portRanges := true |}
  else
    let native := default false (meetsMinVersion firewallRuleMinNativeSSHVer peerVer) in
    {| nativeSSH := native;
       portRanges := if native then true
         else default false (meetsMinVersion firewallRuleMinPortRangesVer peerVer) |}.
End Features.

(** ** Ports *)

Definition isPortInRule (portString : string) (portInt : Z) (rule : FirewallRule) : bool :=
  String.eqb (f_Port rule) portString ||
  ((pr_Start (f_PortRange rule) <=? portInt) && (portInt <=? pr_End (f_PortRange rule))).

(** The loop of [addNativeSSHRule]: [None] when the native port is already
    there, else whether the default port is. *)
Fixpoint ssh_scan (shouldAdd : bool) (expanded : list FirewallRule) : option bool :=
  match expanded with
  | [] => Some shouldAdd
  | fr :: rest =>
      if isPortInRule nativeSSHPortString 22022 fr then None
      else ssh_scan (shouldAdd || isPortInRule defaultSSHPortString 22 fr) rest
  end.

Definition addNativeSSHRule (base : FirewallRule) (expanded : list FirewallRule) : list FirewallRule :=
  match ssh_scan false expanded with
  | Some true => expanded ++ [with_port base nativeSSHPortString]
  | _ => expanded
  end.

Definition shouldCheckRulesForNativeSSH (supportsNative : bool) (rule : PolicyRule) (peer : Peer) : bool :=
  supportsNative && p_SSHEnabled peer && fl_ServerSSHAllowed (meta_Flags (p_Meta peer)) &&
  String.eqb (pol_Protocol rule) PolicyRuleProtocolTCP.

(** The loop over the port ranges of a rule that names no port. *)
Definition expand_range (features : supportedFeatures) (base : FirewallRule) (pr : RulePortRange)
    : list FirewallRule :=
  if portRanges features then [with_range base pr]
  else if pr_Start pr =? pr_End pr then [with_port base (dec (pr_Start pr))]
  else [].

Section Expand.
Context {VL : VersionLib}.

Definition ExpandPortsAndRanges (base : FirewallRule) (rule : PolicyRule) (peer : Peer)
    : list FirewallRule :=
  let features := peerSupportedFirewallFeatures (meta_WtVersion (p_Meta peer)) in
  let expanded :=
    (with_port base <$> pol_Ports rule) ++
    (if (0 <? length (pol_Ports rule))%nat then [] else pol_PortRanges rule ≫= expand_range features base) in
  if shouldCheckRulesForNativeSSH (nativeSSH features) rule peer ||
     String.eqb (pol_Protocol rule) PolicyRuleProtocolNetbirdSSH
  then addNativeSSHRule base expanded
  else expanded.

(** The rules one peer address gives: one rule when the policy names no port. *)
Definition expand_rule (base : FirewallRule) (rule : PolicyRule) (target : Peer) : list FirewallRule :=
  if (length (pol_Ports rule) =? 0)%nat && (length (pol_PortRanges rule) =? 0)%nat then [base]
  else ExpandPortsAndRanges base rule target.

(** ** The rules of one policy rule and one peer *)

Record FirewallRuleContext := {
  rc_Direction : Z;
  rc_DirStr : string;
  rc_ProtocolStr : string;
  rc_ActionStr : string;
  rc_PortsJoined : string;
}.

Definition rule_key (rule : PolicyRule) (ip : string) (rc : FirewallRuleContext) : string :=
  pol_ID rule +:+ ip +:+ rc_DirStr rc +:+ rc_ProtocolStr rc +:+ rc_ActionStr rc +:+ rc_PortsJoined rc.

Definition base_rule (rule : PolicyRule) (ip : string) (rc : FirewallRuleContext) : FirewallRule :=
  {| f_PolicyID := pol_ID rule; f_PeerIP := ip; f_Direction := rc_Direction rc;
     f_Action := rc_ActionStr rc; f_Protocol := rc_ProtocolStr rc; f_Port := "";
     f_PortRange := noRange |}.

(** The rules and the keys seen so far. *)
Definition AppendIPv6FirewallRule (st : list FirewallRule * gset string) (peer targetPeer : Peer)
    (rule : PolicyRule) (rc : FirewallRuleContext) : list FirewallRule * gset string :=
  let '(rules, rulesExists) := st in
  if negb (IsValid (p_IPv6 peer)) || negb (SupportsIPv6 targetPeer) || negb (IsValid (p_IPv6 targetPeer))
  then st
  else
    let v6IP := addr_String (p_IPv6 peer) in
    let v6RuleID := rule_key rule v6IP rc in
    if bool_decide (v6RuleID ∈ rulesExists) then st
    else (rules ++ expand_rule (base_rule rule v6IP rc) rule targetPeer, {[v6RuleID]} ∪ rulesExists).
End Expand.

(** ** Route firewall rules *)

Definition AllowedIPsFormat (a : Addr) : string := addr_String a +:+ "/32".
Definition AllowedIPsV6Format (a : Addr) : string := addr_String a +:+ "/128".

Definition splitPeerSourcesByFamily (groupPeers : list Peer) : list string * list string :=
  ((λ p, AllowedIPsFormat (p_IP p)) <$> groupPeers,
   (λ p, AllowedIPsV6Format (p_IPv6 p)) <$> filter (λ p, IsValid (p_IPv6 p) = true) groupPeers).

Definition generateRuleIDBase (rule : PolicyRule) (baseRule : RouteFirewallRule) : string :=
  pol_ID rule +:+ String.concat "," (r_SourceRanges baseRule) +:+ dec FirewallRuleDirectionIN +:+
  r_Protocol baseRule +:+ r_Action baseRule.

Definition rwith_range (b : RouteFirewallRule) (pr : RulePortRange) : RouteFirewallRule :=
  {| r_PolicyID := r_PolicyID b; r_RouteID := r_RouteID b; r_SourceRanges := r_SourceRanges b;
     r_Action := r_Action b; r_Destination := r_Destination b; r_Protocol := r_Protocol b;
     r_Port := r_Port b; r_PortRange := pr; r_Domains := r_Domains b; r_IsDynamic := r_IsDynamic b |}.

Definition rwith_port (b : RouteFirewallRule) (port : Z) : RouteFirewallRule :=
  {| r_PolicyID := r_PolicyID b; r_RouteID := r_RouteID b; r_SourceRanges := r_SourceRanges b;
     r_Action := r_Action b; r_Destination := r_Destination b; r_Protocol := r_Protocol b;
     r_Port := port; r_PortRange := r_PortRange b; r_Domains := r_Domains b; r_IsDynamic := r_IsDynamic b |}.

Notation RouteAcc := (list RouteFirewallRule * gset string)%type.

(** Append the rules unless the key was seen. *)
Definition add_once (key : string) (new : list RouteFirewallRule) (acc : RouteAcc) : RouteAcc :=
  let '(rules, seen) := acc in
  if bool_decide (key ∈ seen) then acc else (rules ++ new, {[key]} ∪ seen).

Definition generateRulesWithPortRanges (baseRule : RouteFirewallRule) (rule : PolicyRule)
    (rulesExists : gset string) : RouteAcc :=
  let ruleIDBase := generateRuleIDBase rule baseRule in
  if (length (pol_Ports rule) =? 0)%nat then
    match pol_PortRanges rule with
    | [] => add_once ruleIDBase [baseRule] ([], rulesExists)
    | ranges =>
        foldl (λ acc pr,
          add_once (ruleIDBase +:+ dec (pr_Start pr) +:+ "-" +:+ dec (pr_End pr)) [rwith_range baseRule pr] acc)
          ([], rulesExists) ranges
    end
  else ([], rulesExists).

(** A port that does not parse is logged and skipped. *)
Definition generateRulesWithPorts (baseRule : RouteFirewallRule) (rule : PolicyRule)
    (rulesExists : gset string) : RouteAcc :=
  let ruleIDBase := generateRuleIDBase rule baseRule in
  foldl (λ acc port,
    add_once (ruleIDBase +:+ port)
      (match ParseUint 16 port with Some p => [rwith_port baseRule (uint 16 p)] | None => [] end) acc)
    ([], rulesExists) (pol_Ports rule).

Definition generate_rules (baseRule : RouteFirewallRule) (rule : PolicyRule) (seen : gset string) : RouteAcc :=
  if (length (pol_Ports rule) =? 0)%nat then generateRulesWithPortRanges baseRule rule seen
  else generateRulesWithPorts baseRule rule seen.

Definition route_base (route : Route) (rule : PolicyRule) (sources : list string) : RouteFirewallRule :=
  {| r_PolicyID := pol_PolicyID rule; r_RouteID := rt_ID route; r_SourceRanges := sources;
     r_Action := pol_Action rule; r_Destination := prefix_String (rt_Network route);
     r_Protocol := pol_Protocol rule; r_Port := 0; r_PortRange := noRange;
     r_Domains := rt_Domains route; r_IsDynamic := IsDynamic route |}.

(** The IPv6 counterpart of a dynamic or default IPv4 route. *)
Definition route_base_v6 (route : Route) (rule : PolicyRule) (sources : list string)
    (isDefaultV4 : bool) : RouteFirewallRule :=
  {| r_PolicyID := pol_PolicyID rule;
     r_RouteID := if isDefaultV4 then rt_ID route +:+ "-v6-default" else rt_ID route;
     r_SourceRanges := sources; r_Action := pol_Action rule;
     r_Destination := if isDefaultV4 then "::/0" else prefix_String (rt_Network route);
     r_Protocol := pol_Protocol rule; r_Port := 0; r_PortRange := noRange;
     r_Domains := rt_Domains route; r_IsDynamic := IsDynamic route |}.

Definition GenerateRouteFirewallRules (route : Route) (rule : PolicyRule) (groupPeers : list Peer)
    (includeIPv6 : bool) : list RouteFirewallRule :=
  let '(v4Sources, v6Sources) := splitPeerSourcesByFamily groupPeers in
  let isV6Route := Is6 (prefix_Addr (rt_Network route)) in
  if isV6Route && negb includeIPv6 then []
  else
    let sourceRanges := if isV6Route then v6Sources else v4Sources in
    let '(rules, seen) := generate_rules (route_base route rule sourceRanges) rule ∅ in
    let isDefaultV4 := negb isV6Route && (prefix_Bits (rt_Network route) =? 0) in
    if includeIPv6 && (IsDynamic route || isDefaultV4) && (0 <? length v6Sources)%nat then
      rules ++ (generate_rules (route_base_v6 route rule v6Sources isDefaultV4) rule seen).1
    else rules.

(** ** Comparison *)

(** [RouteFirewallRule.Equal].  [List.Equal] of the domains compares the
    sorted lists. *)
Definition domains_Equal (d1 d2 : option (list string)) : bool :=
  let d1 := default [] d1 in
  let d2 := default [] d2 in
  (length d1 =? length d2)%nat &&
  bool_decide (sort_by strings_Compare d1 = sort_by strings_Compare d2).

Definition RouteFirewallRule_Equal (r other : RouteFirewallRule) : bool :=
  String.eqb (r_Action r) (r_Action other) && String.eqb (r_Destination r) (r_Destination other) &&
  String.eqb (r_Protocol r) (r_Protocol other) && (r_Port r =? r_Port other) &&
  bool_decide (r_PortRange r = r_PortRange other) && domains_Equal (r_Domains r) (r_Domains other) &&
  bool_decide (r_IsDynamic r = r_IsDynamic other).
