(* ===== verification/NetMap.v ===== *)
(** * The network map of a peer

    [shared/management/types/networkmap_components.go]: from the components
    selected for a peer to the peers it connects to, the firewall rules, the
    routes and the name servers it gets.

    [pick] is the run-time choice of iteration order at a [range] over a map,
    named after the object the statement works for; [now id] is the instant at
    which the login of a peer is compared with the clock; [SafeString] and
    [ToASCII] are the domain conversions of the idna package.  [None] is the
    panic on a nil pointer. *)
From S2P Require Import Prelude NetIP Bytes GoStrings NetParse Order AclManager NmData FwGen.
Open Scope Z_scope.

Record NetworkMapComponents := {
  c_PeerID : string;
  c_Network : Network;
  c_AccountSettings : option AccountSettingsInfo;
  c_DNSSettings : option DNSSettings;
  c_CustomZoneDomain : string;
  c_Peers : gmap string Peer;
  c_Groups : gmap string Group;
  c_Policies : list (option Policy);
  c_Routes : list Route;
  c_NameServerGroups : list NameServerGroup;
  c_AllDNSRecords : list SimpleRecord;
  c_AccountZones : list CustomZone;
  c_ResourcePoliciesMap : gmap string (list (option Policy));
  c_RoutersMap : gmap string (gmap string NetworkRouter);
  c_NetworkResources : list NetworkResource;
  c_GroupIDToUserIDs : gmap string (list string);
  c_AllowedUserIDs : option (gset string);
  c_PostureFailedPeers : gmap string (gset string);
  c_RouterPeers : gmap string Peer;
  c_ForceRoutingPeerDNSResolution : bool;
  c_empty : bool;
}.

Record DNSConfig := {
  dc_ServiceEnable : bool;
  dc_CustomZones : list CustomZone;
  dc_NameServerGroups : list NameServerGroup;
}.

Definition noDNS : DNSConfig :=
  {| dc_ServiceEnable := false; dc_CustomZones := []; dc_NameServerGroups := [] |}.

(** [types.ForwardingRule]; the translated address is a [net.IP], its bytes. *)
Record ForwardingRule := {
  fwd_RuleProtocol : string;
  fwd_DestinationPorts : RulePortRange;
  fwd_TranslatedAddress : list Z;
  fwd_TranslatedPorts : RulePortRange;
}.

(** [types.NetworkMap]; [AuthorizedUsers] is [None] for the nil map. *)
Record NetworkMap := {
  m_Peers : list Peer;
  m_Network : Network;
  m_Routes : list Route;
  m_DNSConfig : DNSConfig;
  m_OfflinePeers : list Peer;
  m_FirewallRules : list FirewallRule;
  m_RoutesFirewallRules : list RouteFirewallRule;
  m_ForwardingRules : list ForwardingRule;
  m_AuthorizedUsers : option (gmap string (gset string));
  m_EnableSSH : bool;
  m_ForceRoutingPeerDNSResolution : bool;
}.

Definition Wildcard : string := "*".

(** ** Members of groups

    The loop over the groups; [inl] is the early return. *)
Fixpoint unique_scan (groupMap : gmap string Group) (single : bool) (groups : list string)
    (peerIDs : gset string) : list string + gset string :=
  match groups with
  | [] => inr peerIDs
  | groupID :: groups' =>
      match groupMap !! groupID with
      | None => unique_scan groupMap single groups' peerIDs
      | Some group =>
          if IsGroupAll group || single then inl (grp_Peers group)
          else unique_scan groupMap single groups' (list_to_set (grp_Peers group) ∪ peerIDs)
      end
  end.

Definition unique_ids {MO : MapOrder} (groupMap : gmap string Group) (seed : nat) (groups : list string)
    : list string :=
  match unique_scan groupMap (length groups =? 1)%nat groups ∅ with
  | inl peers => peers
  | inr peerIDs => range_set seed peerIDs
  end.

Section NetMap.
Context {MO : MapOrder} {VL : VersionLib}.
Context (pick : string → nat) (now : string → Z).
Context (SafeString : list string → string) (ToASCII : string → option string).
Context (c : NetworkMapComponents).

Definition GetPeerInfo (peerID : string) : option Peer := c_Peers c !! peerID.
Definition GetRouterPeerInfo (peerID : string) : option Peer := c_RouterPeers c !! peerID.
Definition GetGroupInfo (groupID : string) : option Group := c_Groups c !! groupID.

Definition IsPeerInGroup (peerID groupID : string) : bool :=
  match GetGroupInfo groupID with
  | None => false
  | Some group => bool_decide (peerID ∈ grp_Peers group)
  end.

Definition GetPeerGroups (peerID : string) : gset string :=
  dom (filter (λ kg, peerID ∈ grp_Peers kg.2) (c_Groups c)).

Definition ValidatePostureChecksOnPeer (peerID : string) (postureCheckIDs : list string) : bool :=
  match c_Peers c !! peerID with
  | None => false
  | Some _ =>
      forallb (λ checkID,
        match c_PostureFailedPeers c !! checkID with
        | Some failedPeers => negb (bool_decide (peerID ∈ failedPeers))
        | None => true
        end) postureCheckIDs
  end.

(** ** The sides of a rule *)

Definition getUniquePeerIDsFromGroupsIDs (seed : nat) (groups : list string) : list string :=
  unique_ids (c_Groups c) seed groups.

(** Admitted peers other than [peerID], and whether [peerID] is admitted. *)
Definition filterPolicyPeers (uniquePeerIDs : list string) (peerID : string)
    (sourcePostureChecksIDs : list string) : list Peer * bool :=
  foldl (λ acc p,
    match GetPeerInfo p with
    | None => acc
    | Some peerInfo =>
        if negb (ValidatePostureChecksOnPeer p sourcePostureChecksIDs) then acc
        else if String.eqb p peerID then (acc.1, true)
        else (acc.1 ++ [peerInfo], acc.2)
    end) ([], false) uniquePeerIDs.

Definition getAllPeersFromGroups (seed : nat) (groups : list string) (peerID : string)
    (sourcePostureChecksIDs : list string) : list Peer * bool :=
  filterPolicyPeers (getUniquePeerIDsFromGroupsIDs seed groups) peerID sourcePostureChecksIDs.

Definition getPeerFromResource (resource : Resource) (peerID : string)
    (sourcePostureChecksIDs : list string) : list Peer * bool :=
  filterPolicyPeers [res_ID resource] peerID sourcePostureChecksIDs.

(** A side of a rule: the peer it names, or its groups. *)
Definition side_peers (seed : nat) (resource : Resource) (groups : list string) (peerID : string)
    (checks : list string) : list Peer * bool :=
  if names_peer resource then getPeerFromResource resource peerID checks
  else getAllPeersFromGroups seed groups peerID checks.

(** ** Peers and firewall rules *)

(** What the closures of [connResourcesGenerator] share. *)
Record Gen := {
  g_peers : list Peer;
  g_peersExists : gset string;
  g_rules : list FirewallRule;
  g_rulesExists : gset string;
}.

Definition noGen : Gen := {| g_peers := []; g_peersExists := ∅; g_rules := []; g_rulesExists := ∅ |}.

(** The protocol written into firewall rules. *)
Definition fw_protocol (rule : PolicyRule) : string :=
  if String.eqb (pol_Protocol rule) PolicyRuleProtocolNetbirdSSH then PolicyRuleProtocolTCP
  else pol_Protocol rule.

Definition rule_context (rule : PolicyRule) (direction : Z) : FirewallRuleContext :=
  {| rc_Direction := direction; rc_DirStr := dec direction; rc_ProtocolStr := fw_protocol rule;
     rc_ActionStr := pol_Action rule; rc_PortsJoined := String.concat "," (pol_Ports rule) |}.

Definition generate_peer (targetPeer : Peer) (rule : PolicyRule) (direction : Z) (g : Gen) (peer : Peer) : Gen :=
  let rc := rule_context rule direction in
  let '(peers, peersExists) :=
    if bool_decide (p_ID peer ∈ g_peersExists g) then (g_peers g, g_peersExists g)
    else (g_peers g ++ [peer], {[p_ID peer]} ∪ g_peersExists g) in
  let peerIP := addr_String (p_IP peer) in
  let ruleID := rule_key rule peerIP rc in
  let '(rules, rulesExists) :=
    if bool_decide (ruleID ∈ g_rulesExists g) then (g_rules g, g_rulesExists g)
    else
      AppendIPv6FirewallRule
        (g_rules g ++ expand_rule (base_rule rule peerIP rc) rule targetPeer,
         {[ruleID]} ∪ g_rulesExists g) peer targetPeer rule rc in
  {| g_peers := peers; g_peersExists := peersExists; g_rules := rules; g_rulesExists := rulesExists |}.

Definition generateResources (targetPeer : Peer) (rule : PolicyRule) (groupPeers : list Peer)
    (direction : Z) (g : Gen) : Gen :=
  foldl (generate_peer targetPeer rule direction) g groupPeers.

Definition getAllowedUserIDs : gset string := default ∅ (c_AllowedUserIDs c).

(** Authorised users by local user, and whether SSH is enabled. *)
Notation SSH := (gmap string (gset string) * bool)%type.

Definition authorize (localUser : string) (users : gset string) (a : gmap string (gset string))
    : gmap string (gset string) :=
  <[localUser := default ∅ (a !! localUser) ∪ users]> a.

Definition authorize_group (a : gmap string (gset string)) (entry : string * list string)
    : gmap string (gset string) :=
  let '(groupID, localUsers) := entry in
  match c_GroupIDToUserIDs c !! groupID with
  | None => a
  | Some userIDs =>
      foldl (λ a localUser, authorize localUser (list_to_set userIDs) a) a
        (match localUsers with [] => [Wildcard] | _ => localUsers end)
  end.

Definition ssh_rule (targetPeer : Peer) (rule : PolicyRule) (peerInDestinations : bool) (ssh : SSH) : SSH :=
  let '(authorizedUsers, _) := ssh in
  if peerInDestinations && String.eqb (pol_Protocol rule) PolicyRuleProtocolNetbirdSSH then
    ((if (0 <? size (pol_AuthorizedGroups rule))%nat then
        foldl authorize_group authorizedUsers
          (range_list (pick (pol_ID rule +:+ "/authorized")) (pol_AuthorizedGroups rule))
      else if negb (String.eqb (pol_AuthorizedUser rule) "") then
        authorize Wildcard {[pol_AuthorizedUser rule]} authorizedUsers
      else <[Wildcard := getAllowedUserIDs]> authorizedUsers), true)
  else if peerInDestinations && PolicyRuleImpliesLegacySSH rule && p_SSHEnabled targetPeer then
    (<[Wildcard := getAllowedUserIDs]> authorizedUsers, true)
  else ssh.

(** The two sides of a rule of a policy, as seen from [targetPeerID]. *)
Definition rule_sources (policy : Policy) (rule : PolicyRule) (targetPeerID : string) : list Peer * bool :=
  side_peers (pick (pol_ID rule +:+ "/sources")) (pol_SourceResource rule) (pol_Sources rule)
    targetPeerID (policy_SourcePostureChecks policy).

Definition rule_destinations (rule : PolicyRule) (targetPeerID : string) : list Peer * bool :=
  side_peers (pick (pol_ID rule +:+ "/destinations")) (pol_DestinationResource rule)
    (pol_Destinations rule) targetPeerID [].

Definition when (b : bool) {A} (f : A → A) (x : A) : A := if b then f x else x.

(** The calls of [generateResources] for a rule, in order. *)
Definition rule_resources (targetPeer : Peer) (rule : PolicyRule) (src dst : list Peer * bool) (g : Gen) : Gen :=
  let '(sourcePeers, peerInSources) := src in
  let '(destinationPeers, peerInDestinations) := dst in
  let g := when (pol_Bidirectional rule && peerInSources)
             (generateResources targetPeer rule destinationPeers FirewallRuleDirectionIN) g in
  let g := when (pol_Bidirectional rule && peerInDestinations)
             (generateResources targetPeer rule sourcePeers FirewallRuleDirectionOUT) g in
  let g := when peerInSources
             (generateResources targetPeer rule destinationPeers FirewallRuleDirectionOUT) g in
  when peerInDestinations (generateResources targetPeer rule sourcePeers FirewallRuleDirectionIN) g.

Definition connection_rule (targetPeerID : string) (targetPeer : Peer) (policy : Policy)
    (acc : Gen * SSH) (rule : option PolicyRule) : Gen * SSH :=
  match rule with
  | None => acc
  | Some rule =>
      if negb (pol_Enabled rule) then acc
      else
        let '(g, ssh) := acc in
        let src := rule_sources policy rule targetPeerID in
        let dst := rule_destinations rule targetPeerID in
        (rule_resources targetPeer rule src dst g, ssh_rule targetPeer rule dst.2 ssh)
  end.

Definition connection_policy (targetPeerID : string) (targetPeer : Peer)
    (acc : Gen * SSH) (policy : option Policy) : Gen * SSH :=
  match policy with
  | None => acc
  | Some policy =>
      if negb (policy_Enabled policy) then acc
      else foldl (connection_rule targetPeerID targetPeer policy) acc (policy_Rules policy)
  end.

(** Peers, firewall rules, authorised users, SSH enabled. *)
Definition getPeerConnectionResources (targetPeerID : string)
    : list Peer * list FirewallRule * option (gmap string (gset string)) * bool :=
  match GetPeerInfo targetPeerID with
  | None => ([], [], None, false)
  | Some targetPeer =>
      let '(g, (authorizedUsers, sshEnabled)) :=
        foldl (connection_policy targetPeerID targetPeer) (noGen, (∅, false)) (c_Policies c) in
      (g_peers g, g_rules g, Some authorizedUsers, sshEnabled)
  end.

(** Peers to connect to and expired peers; [None] when the settings are nil
    and there is a peer to judge. *)
Definition login_expired (settings : AccountSettingsInfo) (p : Peer) : bool :=
  as_PeerLoginExpirationEnabled settings &&
  (LoginExpired p (as_PeerLoginExpiration settings) (now (p_ID p))).1.

Definition filterPeersByLoginExpiration (aclPeers : list Peer) : option (list Peer * list Peer) :=
  match aclPeers, c_AccountSettings c with
  | [], _ => Some ([], [])
  | _, None => None
  | _, Some settings =>
      Some (filter (λ p, login_expired settings p = false) aclPeers,
            filter (λ p, login_expired settings p = true) aclPeers)
  end.

(** ** Name servers *)

Definition getPeerDNSManagementStatusFromGroups (peerGroups : gset string) : option bool :=
  (λ s, forallb (λ groupID, negb (bool_decide (groupID ∈ peerGroups))) (dns_DisabledManagementGroups s))
    <$> c_DNSSettings c.

Definition peerIsNameserver (peerIPStr : string) (nsGroup : NameServerGroup) : bool :=
  existsb (λ ns, String.eqb peerIPStr (addr_String (ns_IP ns))) (nsg_NameServers nsGroup).

Definition getPeerNSGroupsFromGroups (peerID : string) (groupList : gset string) : list NameServerGroup :=
  match GetPeerInfo peerID with
  | None => []
  | Some targetPeerInfo =>
      filter (λ nsGroup,
        nsg_Enabled nsGroup = true ∧ Exists (λ gID, gID ∈ groupList) (nsg_Groups nsGroup) ∧
        peerIsNameserver (addr_String (p_IP targetPeerInfo)) nsGroup = false) (c_NameServerGroups c)
  end.

(** ** Routes *)

Definition v6_default (r : Route) : Route :=
  {| rt_ID := rt_ID r +:+ "-v6-default"; rt_AccountID := rt_AccountID r;
     rt_Network := PrefixFrom (AddrV6 0 "") 0; rt_Domains := rt_Domains r;
     rt_KeepRoute := rt_KeepRoute r; rt_NetID := rt_NetID r +:+ "-v6";
     rt_Description := rt_Description r; rt_Peer := rt_Peer r; rt_PeerID := rt_PeerID r;
     rt_PeerGroups := rt_PeerGroups r; rt_NetworkType := NetworkTypeIPv6;
     rt_Masquerade := rt_Masquerade r; rt_Metric := rt_Metric r; rt_Enabled := rt_Enabled r;
     rt_Groups := rt_Groups r; rt_AccessControlGroups := rt_AccessControlGroups r;
     rt_SkipAutoApply := rt_SkipAutoApply r |}.

Definition filterAndExpandRoutes (routes : list Route) (includeIPv6 : bool) : list Route :=
  routes ≫= λ r,
    if negb includeIPv6 && Is6 (prefix_Addr (rt_Network r)) then []
    else r :: (if includeIPv6 && (prefix_Bits (rt_Network r) =? 0) && Is4 (prefix_Addr (rt_Network r))
               then [v6_default r] else []).

(** The copy of a route as a routing peer serves it. *)
Definition served_by (key : string) (id : string) (peerGroups : list string) (r : Route) : Route :=
  {| rt_ID := id; rt_AccountID := rt_AccountID r; rt_Network := rt_Network r;
     rt_Domains := rt_Domains r; rt_KeepRoute := rt_KeepRoute r; rt_NetID := rt_NetID r;
     rt_Description := rt_Description r; rt_Peer := key; rt_PeerID := rt_PeerID r;
     rt_PeerGroups := peerGroups; rt_NetworkType := rt_NetworkType r;
     rt_Masquerade := rt_Masquerade r; rt_Metric := rt_Metric r; rt_Enabled := rt_Enabled r;
     rt_Groups := rt_Groups r; rt_AccessControlGroups := rt_AccessControlGroups r;
     rt_SkipAutoApply := rt_SkipAutoApply r |}.

(** An entry of the index: the route and [viaGroup]. *)
Notation routeIndex := (gmap string (list (Route * bool))).

Definition index_add (e : Route * bool) (idx : routeIndex) (id : string) : routeIndex :=
  <[id := default [] (idx !! id) ++ [e]]> idx.

Definition index_route (idx : routeIndex) (r : Route) : routeIndex :=
  let idx := foldl (λ idx groupID,
    match GetGroupInfo groupID with
    | None => idx
    | Some group => foldl (index_add (r, true)) idx (grp_Peers group)
    end) idx (rt_PeerGroups r) in
  if String.eqb (rt_Peer r) "" then idx else index_add (r, false) idx (rt_Peer r).

Definition routesByPeer : routeIndex := foldl index_route ∅ (c_Routes c).

(** [takeRoute]: each route identifier once. *)
Fixpoint take_routes (seen : gset string) (routes : list Route) : list Route :=
  match routes with
  | [] => []
  | r :: rest =>
      if bool_decide (rt_ID r ∈ seen) then take_routes seen rest
      else r :: take_routes ({[rt_ID r]} ∪ seen) rest
  end.

Definition peer_route (peerID key : string) (e : Route * bool) : Route :=
  let '(r, viaGroup) := e in
  if viaGroup then served_by key (rt_ID r +:+ ":" +:+ peerID) [] r
  else served_by key (rt_ID r) (rt_PeerGroups r) r.

(** Enabled and disabled routes. *)
Definition getRoutingPeerRoutes (peerID : string) : list Route * list Route :=
  match (match GetPeerInfo peerID with Some p => Some p | None => GetRouterPeerInfo peerID end) with
  | None => ([], [])
  | Some peerInfo =>
      let taken := take_routes ∅ (peer_route peerID (p_Key peerInfo) <$> default [] (routesByPeer !! peerID)) in
      (filter (λ r, rt_Enabled r = true) taken, filter (λ r, rt_Enabled r = false) taken)
  end.

Definition filterRoutesByGroups (routes : list Route) (groupListMap : gset string) : list Route :=
  filter (λ r, Exists (λ groupID, groupID ∈ groupListMap) (rt_Groups r)) routes.

Definition filterRoutesFromPeersOfSameHAGroup (routes : list Route) (peerMemberships : gset string) : list Route :=
  filter (λ r, GetHAUniqueID SafeString r ∉ peerMemberships) routes.

Definition getRoutesToSync (peerID : string) (aclPeers : list Peer) (peerGroups : gset string) : list Route :=
  let '(routes, peerDisabledRoutes) := getRoutingPeerRoutes peerID in
  let peerRoutesMembership : gset string :=
    list_to_set (GetHAUniqueID SafeString <$> routes ++ peerDisabledRoutes) in
  routes ++ (aclPeers ≫= λ peer,
    filterRoutesFromPeersOfSameHAGroup
      (filterRoutesByGroups (getRoutingPeerRoutes (p_ID peer)).1 peerGroups) peerRoutesMembership).

(** ** Route firewall rules *)

Definition v6_rule (isDefaultV4 : bool) (r : Route) (rule : RouteFirewallRule) : RouteFirewallRule :=
  {| r_PolicyID := r_PolicyID rule;
     r_RouteID := if isDefaultV4 then rt_ID r +:+ "-v6-default" else r_RouteID rule;
     r_SourceRanges := ["::/0"]; r_Action := r_Action rule;
     r_Destination := if isDefaultV4 then "::/0" else r_Destination rule;
     r_Protocol := r_Protocol rule; r_Port := r_Port rule; r_PortRange := r_PortRange rule;
     r_Domains := r_Domains rule; r_IsDynamic := r_IsDynamic rule |}.

Definition getDefaultPermit (r : Route) (includeIPv6 : bool) : list RouteFirewallRule :=
  if Is6 (prefix_Addr (rt_Network r)) && negb includeIPv6 then []
  else
    let sources := if Is6 (prefix_Addr (rt_Network r)) then ["::/0"] else ["0.0.0.0/0"] in
    let rule :=
      {| r_PolicyID := ""; r_RouteID := rt_ID r; r_SourceRanges := sources;
         r_Action := PolicyTrafficActionAccept; r_Destination := prefix_String (rt_Network r);
         r_Protocol := PolicyRuleProtocolALL; r_Port := 0; r_PortRange := noRange;
         r_Domains := rt_Domains r; r_IsDynamic := IsDynamic r |} in
    let isDefaultV4 := Is4 (prefix_Addr (rt_Network r)) && (prefix_Bits (rt_Network r) =? 0) in
    rule :: (if includeIPv6 && (IsDynamic r || isDefaultV4) then [v6_rule isDefaultV4 r rule] else []).

Definition group_peers (ids : list string) : list string :=
  ids ≫= λ id, match GetGroupInfo id with Some group => grp_Peers group | None => [] end.

Definition getDistributionGroupsPeers (r : Route) : gset string := list_to_set (group_peers (rt_Groups r)).

(** A policy appears once for every rule with the group as a destination. *)
Definition getAllRoutePoliciesFromGroups (accessControlGroups : list string) : list (option Policy) :=
  accessControlGroups ≫= λ groupID,
    c_Policies c ≫= λ policy,
      match policy with
      | None => []
      | Some p =>
          policy_Rules p ≫= λ rule,
            match rule with
            | Some rule => if bool_decide (groupID ∈ pol_Destinations rule) then [policy] else []
            | None => []
            end
      end.

Definition rule_peer_ids (rule : PolicyRule) (postureChecks : list string) (peerID : string)
    (distributionPeers : gset string) : gset string :=
  let ok pID := bool_decide (pID ∈ distributionPeers) && bool_decide (is_Some (c_Peers c !! pID)) &&
                ValidatePostureChecksOnPeer pID postureChecks in
  list_to_set (filter (λ pID, negb (String.eqb pID peerID) && ok pID = true) (group_peers (pol_Sources rule))) ∪
  (if names_peer (pol_SourceResource rule) && ok (res_ID (pol_SourceResource rule))
   then {[res_ID (pol_SourceResource rule)]} else ∅).

Definition getRulePeers (rule : PolicyRule) (postureChecks : list string) (peerID : string)
    (distributionPeers : gset string) : list Peer :=
  omap GetPeerInfo (range_set (pick (pol_ID rule +:+ "/rule"))
    (rule_peer_ids rule postureChecks peerID distributionPeers)).

Definition getRouteFirewallRules (peerID : string) (policies : list (option Policy)) (route : Route)
    (distributionPeers : gset string) (includeIPv6 : bool) : list RouteFirewallRule :=
  policies ≫= λ policy,
    match policy with
    | None => []
    | Some policy =>
        if negb (policy_Enabled policy) then []
        else policy_Rules policy ≫= λ rule,
          match rule with
          | None => []
          | Some rule =>
              if negb (pol_Enabled rule) then []
              else GenerateRouteFirewallRules route rule
                     (getRulePeers rule (policy_SourcePostureChecks policy) peerID distributionPeers)
                     includeIPv6
          end
    end.

Definition getPeerRoutesFirewallRules (peerID : string) (includeIPv6 : bool) : list RouteFirewallRule :=
  (getRoutingPeerRoutes peerID).1 ≫= λ r,
    if (length (rt_AccessControlGroups r) =? 0)%nat then getDefaultPermit r includeIPv6
    else
      let distributionPeers := getDistributionGroupsPeers r in
      rt_AccessControlGroups r ≫= λ accessGroup,
        getRouteFirewallRules peerID (getAllRoutePoliciesFromGroups [accessGroup]) r distributionPeers includeIPv6.

(** ** Network resources *)

(** [None] is the index out of range or nil first rule, excluded by callers. *)
Definition first_rule (policy : Policy) : option PolicyRule := mjoin (head (policy_Rules policy)).

Definition getResourcePolicyPeers (seed : nat) (policy : Policy) (rule0 : PolicyRule) : list string :=
  if names_peer (pol_SourceResource rule0) then [res_ID (pol_SourceResource rule0)]
  else getUniquePeerIDsFromGroupsIDs seed (SourceGroups seed policy).

Definition networkResourceToRoute (resource : NetworkResource) (peer : Peer) (router : NetworkRouter) : Route :=
  let static := String.eqb (nr_Type resource) ResourceTypeHost || String.eqb (nr_Type resource) ResourceTypeSubnet in
  let domains := if String.eqb (nr_Type resource) ResourceTypeDomain then
                   (λ a, [ToLower a]) <$> ToASCII (nr_Domain resource) else None in
  {| rt_ID := nr_ID resource +:+ ":" +:+ p_ID peer; rt_AccountID := nr_AccountID resource;
     rt_Network :=
       match domains with
       | Some _ => PrefixFrom (AddrV4 (be_value [192; 0; 2; 0])) 32
       | None => if static then nr_Prefix resource else PrefixZero
       end;
     rt_Domains := domains; rt_KeepRoute := true; rt_NetID := nr_Name resource;
     rt_Description := nr_Description resource; rt_Peer := p_Key peer; rt_PeerID := p_ID peer;
     rt_PeerGroups := [];
     rt_NetworkType :=
       match domains with
       | Some _ => NetworkTypeDomain
       | None => if static then (if Is6 (prefix_Addr (nr_Prefix resource)) then NetworkTypeIPv6 else NetworkTypeIPv4)
                 else NetworkTypeInvalid
       end;
     rt_Masquerade := router_Masquerade router; rt_Metric := router_Metric router;
     rt_Enabled := nr_Enabled resource; rt_Groups := []; rt_AccessControlGroups := [];
     rt_SkipAutoApply := false |}.

Definition resource_policies (resourceID : string) : list (option Policy) :=
  default [] (c_ResourcePoliciesMap c !! resourceID).

Definition getNetworkResourcesRoutes (resource : NetworkResource) (peerID : string) (router : NetworkRouter)
    : list Route :=
  if (0 <? length (resource_policies (nr_ID resource)))%nat then
    match GetPeerInfo peerID with
    | Some peerInfo => [networkResourceToRoute resource peerInfo router]
    | None => []
    end
  else [].

Definition getPostureValidPeers (inputPeers postureChecksIDs : list string) : list string :=
  filter (λ peerID, ValidatePostureChecksOnPeer peerID postureChecksIDs = true) inputPeers.

(** The loop over the policies of a resource: routes and source peers. *)
Fixpoint process_policies (peerID : string) (resource : NetworkResource)
    (networkRoutingPeers : gmap string NetworkRouter) (addSourcePeers : bool)
    (allSourcePeers : gset string) (policies : list (option Policy)) : list Route * gset string :=
  match policies with
  | [] => ([], allSourcePeers)
  | policy :: rest =>
      let next := process_policies peerID resource networkRoutingPeers addSourcePeers in
      match policy with
      | None => next allSourcePeers rest
      | Some policy =>
          match policy_Enabled policy, first_rule policy with
          | true, Some rule0 =>
              let peers := getResourcePolicyPeers (pick (nr_ID resource +:+ "/" +:+ policy_ID policy)) policy rule0 in
              if addSourcePeers then
                next (list_to_set (getPostureValidPeers peers (policy_SourcePostureChecks policy)) ∪ allSourcePeers) rest
              else if bool_decide (peerID ∈ peers) &&
                      ValidatePostureChecksOnPeer peerID (policy_SourcePostureChecks policy) then
                (range_list (pick (nr_ID resource +:+ "/routers")) networkRoutingPeers ≫=
                   λ kr, getNetworkResourcesRoutes resource kr.1 kr.2, allSourcePeers)
              else next allSourcePeers rest
          | _, _ => next allSourcePeers rest
          end
      end
  end.

Definition processResourcePolicies (peerID : string) (resource : NetworkResource)
    (networkRoutingPeers : gmap string NetworkRouter) (addSourcePeers : bool)
    (allSourcePeers : gset string) : list Route * gset string :=
  process_policies peerID resource networkRoutingPeers addSourcePeers allSourcePeers
    (resource_policies (nr_ID resource)).

Definition resource_step (peerID : string) (acc : bool * list Route * gset string)
    (resource : NetworkResource) : bool * list Route * gset string :=
  if negb (nr_Enabled resource) then acc
  else
    let '(isRoutingPeer, routes, allSourcePeers) := acc in
    let networkRoutingPeers := default ∅ (c_RoutersMap c !! nr_NetworkID resource) in
    let '(isRoutingPeer, addSourcePeers, own) :=
      match networkRoutingPeers !! peerID with
      | Some router => (true, true, getNetworkResourcesRoutes resource peerID router)
      | None => (isRoutingPeer, false, [])
      end in
    let '(newRoutes, allSourcePeers) :=
      processResourcePolicies peerID resource networkRoutingPeers addSourcePeers allSourcePeers in
    (isRoutingPeer, routes ++ own ++ newRoutes, allSourcePeers).

Definition getNetworkResourcesRoutesToSync (peerID : string) : bool * list Route * gset string :=
  foldl (resource_step peerID) (false, [], ∅) (c_NetworkResources c).

Definition getPoliciesSourcePeers (policies : list (option Policy)) : gset string :=
  list_to_set (policies ≫= λ policy,
    match policy with
    | None => []
    | Some policy =>
        policy_Rules policy ≫= λ rule,
          match rule with
          | None => []
          | Some rule =>
              group_peers (pol_Sources rule) ++
              (if names_peer (pol_SourceResource rule) then [res_ID (pol_SourceResource rule)] else [])
          end
    end).

Definition getPeerNetworkResourceFirewallRules (peerID : string) (routes : list Route) (includeIPv6 : bool)
    : list RouteFirewallRule :=
  match GetPeerInfo peerID with
  | None => []
  | Some peerInfo =>
      routes ≫= λ r,
        if negb (String.eqb (rt_Peer r) (p_Key peerInfo)) then []
        else
          let policies := resource_policies (GetResourceID r) in
          filter (λ rule, r_SourceRanges rule ≠ [])
            (getRouteFirewallRules peerID policies r (getPoliciesSourcePeers policies) includeIPv6)
  end.

Definition addNetworksRoutingPeers (networkResourcesRoutes : list Route) (peerID : string)
    (peersToConnect expiredPeers : list Peer) (isRouter : bool) (sourcePeers : gset string) : list Peer :=
  let networkRoutesPeers : gset string := list_to_set (rt_PeerID <$> networkResourcesRoutes) in
  let known : gset string := {[peerID]} ∪ list_to_set (p_ID <$> peersToConnect) ∪ list_to_set (p_ID <$> expiredPeers) in
  let missingPeers := (if isRouter then sourcePeers ∖ known else ∅) ∪ (networkRoutesPeers ∖ known) in
  peersToConnect ++
  omap (λ p, match GetPeerInfo p with Some i => Some i | None => GetRouterPeerInfo p end)
    (range_set (pick (peerID +:+ "/missing")) missingPeers).

(** ** The whole map *)

Definition Calculate : option NetworkMap :=
  let targetPeerID := c_PeerID c in
  let peerGroups := GetPeerGroups targetPeerID in
  let '(aclPeers, firewallRules, authorizedUsers, sshEnabled) := getPeerConnectionResources targetPeerID in
  '(peersToConnect, expiredPeers) ← filterPeersByLoginExpiration aclPeers;
  let includeIPv6 := match GetPeerInfo targetPeerID with
                     | Some p => SupportsIPv6 p && IsValid (p_IPv6 p)
                     | None => false
                     end in
  let routesUpdate := filterAndExpandRoutes (getRoutesToSync targetPeerID peersToConnect peerGroups) includeIPv6 in
  let routesFirewallRules := getPeerRoutesFirewallRules targetPeerID includeIPv6 in
  let '(isRouter, networkResourcesRoutes, sourcePeers) := getNetworkResourcesRoutesToSync targetPeerID in
  let networkResourcesFirewallRules :=
    if isRouter then getPeerNetworkResourceFirewallRules targetPeerID networkResourcesRoutes includeIPv6 else [] in
  let peersToConnectIncludingRouters :=
    addNetworksRoutingPeers networkResourcesRoutes targetPeerID peersToConnect expiredPeers isRouter sourcePeers in
  dnsManagementStatus ← getPeerDNSManagementStatusFromGroups peerGroups;
  let dnsUpdate :=
    if dnsManagementStatus : bool then
      {| dc_ServiceEnable := true;
         dc_CustomZones :=
           (if negb (String.eqb (c_CustomZoneDomain c) "") && (0 <? length (c_AllDNSRecords c))%nat then
              [{| zone_Domain := c_CustomZoneDomain c; zone_Records := c_AllDNSRecords c;
                  zone_SearchDomainDisabled := false; zone_NonAuthoritative := false |}] else []) ++
           c_AccountZones c;
         dc_NameServerGroups := getPeerNSGroupsFromGroups targetPeerID peerGroups |}
    else noDNS in
  Some {| m_Peers := peersToConnectIncludingRouters; m_Network := c_Network c;
          m_Routes := filterAndExpandRoutes networkResourcesRoutes includeIPv6 ++ routesUpdate;
          m_DNSConfig := dnsUpdate; m_OfflinePeers := expiredPeers;
          m_FirewallRules := firewallRules;
          m_RoutesFirewallRules := networkResourcesFirewallRules ++ routesFirewallRules;
          m_ForwardingRules := [];
          m_AuthorizedUsers := authorizedUsers; m_EnableSSH := sshEnabled;
          m_ForceRoutingPeerDNSResolution := c_ForceRoutingPeerDNSResolution c |}.
End NetMap.
