(* ===== verification/NetMapBuild.v ===== *)
(** * The components of a peer's network map

    [shared/management/networkmap]: [networkmapcompute.go] selects from the
    data of an account what the network map of one peer is computed from;
    [proxypolicies.go] adds the policies of the reverse proxy first.

    Failed posture checks are recorded in a map that the functions share; it
    is threaded through ([failed]).  [None] is the panic on a nil policy. *)
From S2P Require Import Prelude NetIP Bytes NetParse Order AclManager NmData FwGen NetMap.
Open Scope Z_scope.

Record ServiceTarget := {
  st_Enabled : bool;
  st_Path : string;
  st_Port : Z;
  st_Protocol : string;
  st_TargetID : string;
  st_TargetType : string;
}.

Record Service := {
  svc_ID : string;
  svc_Enabled : bool;
  svc_Private : bool;
  svc_Mode : string;
  svc_ProxyCluster : string;
  svc_AccessGroups : list string;
  svc_Targets : list (option ServiceTarget);
}.

(** [AppliedZoneCandidate] and [PrivateServiceCandidate] are pairs of groups
    and zone.  [d_injected] is the [sync.Once] of the injection; a nil inner
    map of [PostureValidation] is [None]. *)
Record NetworkMapData := {
  d_Peers : gmap string Peer;
  d_Groups : gmap string Group;
  d_Policies : list (option Policy);
  d_Routes : list (option Route);
  d_NameServerGroups : list (option NameServerGroup);
  d_NetworkResources : list (option NetworkResource);
  d_Network : Network;
  d_DNSSettings : option DNSSettings;
  d_AccountSettings : option AccountSettingsInfo;
  d_PostureChecks : gmap string ChecksDefinition;
  d_PostureValidation : gmap string (option (gmap string bool));
  d_AllowedUserIDs : option (gset string);
  d_ValidatedPeers : gset string;
  d_ResourcePolicies : gmap string (list (option Policy));
  d_Routers : gmap string (gmap string NetworkRouter);
  d_GroupIDToUserIDs : gmap string (list string);
  d_ProxyTargetedDomainResourceIDs : gset string;
  d_AppliedZoneCandidates : list (list string * CustomZone);
  d_PrivateServiceCandidates : list (list string * CustomZone);
  d_Services : list (option Service);
  d_injected : bool;
}.

(** ** Reverse-proxy policies *)

Definition with_policies (d : NetworkMapData) (policies : list (option Policy))
    (resourcePolicies : gmap string (list (option Policy))) (injected : bool) : NetworkMapData :=
  {| d_Peers := d_Peers d; d_Groups := d_Groups d; d_Policies := policies; d_Routes := d_Routes d;
     d_NameServerGroups := d_NameServerGroups d; d_NetworkResources := d_NetworkResources d;
     d_Network := d_Network d; d_DNSSettings := d_DNSSettings d;
     d_AccountSettings := d_AccountSettings d; d_PostureChecks := d_PostureChecks d;
     d_PostureValidation := d_PostureValidation d; d_AllowedUserIDs := d_AllowedUserIDs d;
     d_ValidatedPeers := d_ValidatedPeers d; d_ResourcePolicies := resourcePolicies;
     d_Routers := d_Routers d; d_GroupIDToUserIDs := d_GroupIDToUserIDs d;
     d_ProxyTargetedDomainResourceIDs := d_ProxyTargetedDomainResourceIDs d;
     d_AppliedZoneCandidates := d_AppliedZoneCandidates d;
     d_PrivateServiceCandidates := d_PrivateServiceCandidates d; d_Services := d_Services d;
     d_injected := injected |}.

(** The same account with a cache of posture results. *)
Definition with_cache (d : NetworkMapData) (cache : gmap string (option (gmap string bool))) : NetworkMapData :=
  {| d_Peers := d_Peers d; d_Groups := d_Groups d; d_Policies := d_Policies d; d_Routes := d_Routes d;
     d_NameServerGroups := d_NameServerGroups d; d_NetworkResources := d_NetworkResources d;
     d_Network := d_Network d; d_DNSSettings := d_DNSSettings d;
     d_AccountSettings := d_AccountSettings d; d_PostureChecks := d_PostureChecks d;
     d_PostureValidation := cache; d_AllowedUserIDs := d_AllowedUserIDs d;
     d_ValidatedPeers := d_ValidatedPeers d; d_ResourcePolicies := d_ResourcePolicies d;
     d_Routers := d_Routers d; d_GroupIDToUserIDs := d_GroupIDToUserIDs d;
     d_ProxyTargetedDomainResourceIDs := d_ProxyTargetedDomainResourceIDs d;
     d_AppliedZoneCandidates := d_AppliedZoneCandidates d;
     d_PrivateServiceCandidates := d_PrivateServiceCandidates d; d_Services := d_Services d;
     d_injected := d_injected d |}.

Definition serviceModeUDP : string := "udp".
Definition privateServicePortHTTP : Z := 80.
Definition privateServicePortHTTPS : Z := 443.

Definition resolveTargetPort (target : ServiceTarget) : option Z :=
  if negb (st_Port target =? 0) then Some (st_Port target)
  else if String.eqb (st_Protocol target) "https" || String.eqb (st_Protocol target) "tls"
  then Some privateServicePortHTTPS
  else if String.eqb (st_Protocol target) "http" then Some privateServicePortHTTP
  else None.

(** A policy with one accepting rule in one direction. *)
Definition injected_policy (policyID protocol : string) (sources : list string)
    (source destination : Resource) (ranges : list RulePortRange) : Policy :=
  {| policy_ID := policyID; policy_Enabled := true; policy_SourcePostureChecks := [];
     policy_Rules := [Some
       {| pol_ID := policyID; pol_PolicyID := policyID; pol_Enabled := true;
          pol_Action := PolicyTrafficActionAccept; pol_Protocol := protocol;
          pol_Bidirectional := false; pol_Sources := sources; pol_Destinations := [];
          pol_SourceResource := source; pol_DestinationResource := destination; pol_Ports := [];
          pol_PortRanges := ranges; pol_AuthorizedGroups := ∅; pol_AuthorizedUser := "" |}] |}.

Definition proxyAccessPolicy (svc : Service) (target : ServiceTarget) (proxyPeer : Peer) (port : Z) : Policy :=
  injected_policy ("proxy-access-" +:+ svc_ID svc +:+ "-" +:+ p_ID proxyPeer +:+ "-" +:+ st_Path target)
    (if String.eqb (svc_Mode svc) serviceModeUDP then PolicyRuleProtocolUDP else PolicyRuleProtocolTCP) []
    {| res_ID := p_ID proxyPeer; res_Type := ResourceTypePeer |}
    {| res_ID := st_TargetID target; res_Type := st_TargetType target |}
    [{| pr_Start := port; pr_End := port |}].

Definition privateAccessPolicy (svc : Service) (proxyPeer : Peer) (accessGroups : list string) : Policy :=
  injected_policy ("private-access-" +:+ svc_ID svc +:+ "-" +:+ p_ID proxyPeer)
    PolicyRuleProtocolTCP accessGroups {| res_ID := ""; res_Type := "" |}
    {| res_ID := p_ID proxyPeer; res_Type := ResourceTypePeer |}
    [{| pr_Start := privateServicePortHTTP; pr_End := privateServicePortHTTP |};
     {| pr_Start := privateServicePortHTTPS; pr_End := privateServicePortHTTPS |}].

Definition live_resource (d : NetworkMapData) (resourceID : string) : bool :=
  existsb (λ r, match r with
                | Some r => nr_Enabled r && String.eqb (nr_ID r) resourceID
                | None => false
                end) (d_NetworkResources d).

Definition addInjectedPolicy (d : NetworkMapData) (policy : Policy) : NetworkMapData :=
  let resourceID := match mjoin (head (policy_Rules policy)) with
                    | Some rule => res_ID (pol_DestinationResource rule)
                    | None => ""
                    end in
  with_policies d (d_Policies d ++ [Some policy])
    (if negb (String.eqb resourceID "") && live_resource d resourceID then
       <[resourceID := default [] (d_ResourcePolicies d !! resourceID) ++ [Some policy]]> (d_ResourcePolicies d)
     else d_ResourcePolicies d) (d_injected d).

(** The embedded proxy peers of a cluster, sorted by identifier. *)
Definition proxyPeersByCluster (d : NetworkMapData) (cluster : string) : list Peer :=
  sort_by (λ a b, strings_Compare (p_ID a) (p_ID b))
    (filter (λ p, pm_Embedded (p_ProxyMeta p) = true ∧ pm_Cluster (p_ProxyMeta p) = cluster)
       (map_to_list (d_Peers d)).*2).

Definition existingGroupIDs (d : NetworkMapData) (groupIDs : list string) : list string :=
  filter (λ groupID, is_Some (d_Groups d !! groupID)) groupIDs.

Definition injectPrivateServicePolicies (svc : Service) (proxyPeers : list Peer) (d : NetworkMapData) : NetworkMapData :=
  if negb (svc_Private svc) || (length (svc_AccessGroups svc) =? 0)%nat || (length proxyPeers =? 0)%nat then d
  else
    match existingGroupIDs d (svc_AccessGroups svc) with
    | [] => d
    | sources => foldl (λ d proxyPeer, addInjectedPolicy d (privateAccessPolicy svc proxyPeer sources)) d proxyPeers
    end.

Definition inject_target (svc : Service) (proxyPeers : list Peer) (d : NetworkMapData)
    (target : option ServiceTarget) : NetworkMapData :=
  match target with
  | Some target =>
      match st_Enabled target, resolveTargetPort target with
      | true, Some port =>
          foldl (λ d proxyPeer, addInjectedPolicy d (proxyAccessPolicy svc target proxyPeer port)) d proxyPeers
      | _, _ => d
      end
  | None => d
  end.

Definition inject_service (d : NetworkMapData) (svc : option Service) : NetworkMapData :=
  match svc with
  | Some svc =>
      if negb (svc_Enabled svc) then d
      else
        let proxyPeers := proxyPeersByCluster d (svc_ProxyCluster svc) in
        injectPrivateServicePolicies svc proxyPeers (foldl (inject_target svc proxyPeers) d (svc_Targets svc))
  | None => d
  end.

(** Without proxy peers every service adds nothing. *)
Definition injectProxyPolicies (d : NetworkMapData) : NetworkMapData := foldl inject_service d (d_Services d).

Definition InjectProxyPolicies (d : NetworkMapData) : NetworkMapData :=
  if d_injected d then d
  else let d := injectProxyPolicies d in with_policies d (d_Policies d) (d_ResourcePolicies d) true.

Section Build.
Context {MO : MapOrder} {VL : VersionLib}.
Context (pick : string → nat).

Notation Failed := (gmap string (gset string)).

Section Data.
Context (nmd : NetworkMapData).

(** ** Posture checks *)

Definition cachedPostureCheckResult (postureChecksID peerID : string) : option bool :=
  match d_PostureValidation nmd !! postureChecksID with
  | None => None
  | Some None => Some true
  | Some (Some results) => results !! peerID
  end.

(** Whether a peer passes one posture check; a check that does not exist is
    passed. *)
Definition posture_verdict (peer : Peer) (peerID postureChecksID : string) : bool :=
  match cachedPostureCheckResult postureChecksID peerID with
  | Some valid => valid
  | None =>
      match d_PostureChecks nmd !! postureChecksID with
      | None => true
      | Some postureChecks => Passes postureChecks peer
      end
  end.

(** Validity and the first failed check. *)
Definition validatePostureChecksOnPeerGetFailed (sourcePostureChecksID : list string) (peerID : string)
    : bool * string :=
  match d_Peers nmd !! peerID with
  | None => (false, "")
  | Some peer =>
      match list_find (λ id, posture_verdict peer peerID id = false) sourcePostureChecksID with
      | Some (_, id) => (false, id)
      | None => (true, "")
      end
  end.

Definition record_failure (check peerID : string) (failed : Failed) : Failed :=
  <[check := {[peerID]} ∪ default ∅ (failed !! check)]> failed.

Definition admitPolicyPeer (pid : string) (checks : list string) (failed : Failed) : bool * Failed :=
  match d_Peers nmd !! pid with
  | None => (false, failed)
  | Some _ =>
      if negb (bool_decide (pid ∈ d_ValidatedPeers nmd)) then (false, failed)
      else
        let '(isValid, pname) := validatePostureChecksOnPeerGetFailed checks pid in
        if negb isValid && negb (String.eqb pname "") then (false, record_failure pname pid failed)
        else (true, failed)
  end.

Definition getPostureValidPeersSaveFailed (inputPeers checks : list string) (failed : Failed)
    : list string * Failed :=
  foldl (λ acc peerID,
    let '(dest, failed) := acc in
    if negb (bool_decide (peerID ∈ d_ValidatedPeers nmd)) then acc
    else
      let '(valid, pname) := validatePostureChecksOnPeerGetFailed checks peerID in
      if valid : bool then (dest ++ [peerID], failed)
      else if String.eqb pname "" then acc
      else (dest, record_failure pname peerID failed)) ([], failed) inputPeers.

(** ** The cache of posture results *)

Definition data_unique_ids (seed : nat) (groups : list string) : list string :=
  unique_ids (d_Groups nmd) seed groups.

(** The peers a policy asks its checks of. *)
Definition policy_check_peers (policy : Policy) : list string :=
  data_unique_ids (pick (policy_ID policy +:+ "/posture"))
    (SourceGroups (pick (policy_ID policy +:+ "/source-groups")) policy) ++
  (policy_Rules policy ≫= λ rule,
     match rule with
     | Some rule => if names_peer (pol_SourceResource rule) then [res_ID (pol_SourceResource rule)] else []
     | None => []
     end).

Definition check_peer_ids : Failed :=
  foldl (λ acc policy,
    match policy with
    | Some policy =>
        if negb (policy_Enabled policy) then acc
        else foldl (λ acc id, <[id := list_to_set (policy_check_peers policy) ∪ default ∅ (acc !! id)]> acc)
               acc (policy_SourcePostureChecks policy)
    | None => acc
    end) ∅ (d_Policies nmd).

Definition evaluatePostureChecksForPeers (postureChecksID : string) (peerIDs : gset string)
    : option (gmap string bool) :=
  (λ checks, PassesChecks (GetChecks checks) <$> filter (λ kp, kp.1 ∈ peerIDs) (d_Peers nmd))
    <$> d_PostureChecks nmd !! postureChecksID.

Definition PrecomputePostureValidation : NetworkMapData :=
  with_cache nmd
    (if (size (d_PostureChecks nmd) =? 0)%nat then ∅
     else map_imap (λ id peerIDs, Some (evaluatePostureChecksForPeers id peerIDs)) check_peer_ids).

(** ** The sides of a rule *)

(** One peer of a side: the admitted others, whether [peerID] is admitted,
    the failures. *)
Definition admit_step (peerID : string) (checks : list string) (acc : list string * bool * Failed) (pid : string)
    : list string * bool * Failed :=
  let '(ids, inGroups, failed) := acc in
  let '(ok, failed) := admitPolicyPeer pid checks failed in
  if negb ok then (ids, inGroups, failed)
  else if String.eqb pid peerID then (ids, true, failed)
  else (ids ++ [pid], inGroups, failed).

(** The loop over the groups with [seenPeerIds]. *)
Fixpoint from_groups (single : bool) (peerID : string) (checks : list string) (groups : list string)
    (seen : gset string) (acc : list string * bool * Failed) : list string * bool * Failed :=
  match groups with
  | [] => acc
  | gid :: groups' =>
      match d_Groups nmd !! gid with
      | None => from_groups single peerID checks groups' seen acc
      | Some group =>
          if IsGroupAll group || single then
            foldl (admit_step peerID checks) ([], false, acc.2) (grp_Peers group)
          else
            let '(seen, acc) := foldl (λ sa pid,
              if bool_decide (pid ∈ sa.1) then sa
              else ({[pid]} ∪ sa.1, admit_step peerID checks sa.2 pid)) (seen, acc) (grp_Peers group) in
            from_groups single peerID checks groups' seen acc
      end
  end.

Definition getPeersFromGroups (groups : list string) (peerID : string) (checks : list string) (failed : Failed)
    : list string * bool * Failed :=
  from_groups (length groups =? 1)%nat peerID checks groups ∅ ([], false, failed).

Definition data_getPeerFromResource (resource : Resource) (peerID : string) (checks : list string)
    (failed : Failed) : list string * bool * Failed :=
  let '(ok, failed) := admitPolicyPeer (res_ID resource) checks failed in
  if negb ok then ([], false, failed)
  else if String.eqb (res_ID resource) peerID then ([], true, failed)
  else ([res_ID resource], false, failed).

Definition data_side (resource : Resource) (groups : list string) (peerID : string) (checks : list string)
    (failed : Failed) : list string * bool * Failed :=
  if names_peer resource then data_getPeerFromResource resource peerID checks failed
  else getPeersFromGroups groups peerID checks failed.

(** ** Peers, groups, policies and routes of a peer *)

Record sshRequirements := { neededGroupIDs : gset string; needAllowedUserIDs : bool }.

Record Sel := {
  s_Peers : gmap string Peer;
  s_Groups : gmap string Group;
  s_Policies : list (option Policy);
  s_Routes : list Route;
  s_ssh : sshRequirements;
  s_accessGroups : gset string;
  s_failed : Failed;
}.

(** [m[k] = source[k]] for the keys the source has. *)
Definition copy_keys {A} (source : gmap string A) (keys : list string) (m : gmap string A) : gmap string A :=
  foldl (λ m k, match source !! k with Some v => <[k := v]> m | None => m end) m keys.

(** The same unless the key is there already. *)
Definition fill_keys {A} (source : gmap string A) (keys : list string) (m : gmap string A) : gmap string A :=
  foldl (λ m k, match m !! k, source !! k with None, Some v => <[k := v]> m | _, _ => m end) m keys.

Definition data_GetPeerGroups (peerID : string) : gset string :=
  dom (filter (λ kg, peerID ∈ grp_Peers kg.2) (d_Groups nmd)).

Definition validated (ids : list string) : list string := filter (λ id, id ∈ d_ValidatedPeers nmd) ids.

Definition route_relevant (peerID : string) (peerGroupSet : gset string) (r : Route) : bool :=
  let in_set groups := existsb (λ g, bool_decide (g ∈ peerGroupSet)) groups in
  String.eqb (rt_Peer r) peerID || in_set (rt_PeerGroups r) || (rt_Enabled r && in_set (rt_Groups r)).

Definition data_group_peers (ids : list string) : list string :=
  ids ≫= λ id, match d_Groups nmd !! id with Some group => grp_Peers group | None => [] end.

Definition select_route (peerID : string) (peerGroupSet : gset string) (s : Sel) (r : option Route) : Sel :=
  match r with
  | None => s
  | Some r =>
      if negb (route_relevant peerID peerGroupSet r) then s
      else
        let groups := copy_keys (d_Groups nmd) (rt_PeerGroups r ++ rt_Groups r) (s_Groups s) in
        let peers := if String.eqb (rt_Peer r) "" then s_Peers s
                     else copy_keys (d_Peers nmd) (validated [rt_Peer r]) (s_Peers s) in
        {| s_Peers := fill_keys (d_Peers nmd) (validated (data_group_peers (rt_PeerGroups r))) peers;
           s_Groups := if rt_Enabled r then copy_keys (d_Groups nmd) (rt_AccessControlGroups r) groups else groups;
           s_Policies := s_Policies s; s_Routes := s_Routes s ++ [r]; s_ssh := s_ssh s;
           s_accessGroups := if rt_Enabled r then list_to_set (rt_AccessControlGroups r) ∪ s_accessGroups s
                             else s_accessGroups s;
           s_failed := s_failed s |}
  end.

Definition ssh_requirements (peerSSHEnabled : bool) (rule : PolicyRule) (q : sshRequirements) : sshRequirements :=
  if String.eqb (pol_Protocol rule) PolicyRuleProtocolNetbirdSSH then
    if (0 <? size (pol_AuthorizedGroups rule))%nat then
      {| neededGroupIDs := dom (pol_AuthorizedGroups rule) ∪ neededGroupIDs q;
         needAllowedUserIDs := needAllowedUserIDs q |}
    else if negb (String.eqb (pol_AuthorizedUser rule) "") then q
    else {| neededGroupIDs := neededGroupIDs q; needAllowedUserIDs := true |}
  else if PolicyRuleImpliesLegacySSH rule && peerSSHEnabled then
    {| neededGroupIDs := neededGroupIDs q; needAllowedUserIDs := true |}
  else q.

(** One rule of an enabled policy; the boolean is [policyRelevant]. *)
Definition select_rule (peerID : string) (peerSSHEnabled : bool) (policy : Policy)
    (acc : Sel * bool) (rule : option PolicyRule) : Sel * bool :=
  match rule with
  | None => acc
  | Some rule =>
      if negb (pol_Enabled rule) then acc
      else
        let '(s, relevant) := acc in
        let routed := existsb (λ g, bool_decide (g ∈ s_accessGroups s)) (pol_Destinations rule) in
        let groups := if routed
                      then copy_keys (d_Groups nmd) (pol_Sources rule ++ pol_Destinations rule) (s_Groups s)
                      else s_Groups s in
        let '(sourcePeers, peerInSources, failed) :=
          data_side (pol_SourceResource rule) (pol_Sources rule) peerID (policy_SourcePostureChecks policy) (s_failed s) in
        let '(destinationPeers, peerInDestinations, failed) :=
          data_side (pol_DestinationResource rule) (pol_Destinations rule) peerID [] failed in
        let peers := if peerInSources then copy_keys (d_Peers nmd) destinationPeers (s_Peers s) else s_Peers s in
        let groups := if peerInSources then copy_keys (d_Groups nmd) (pol_Destinations rule) groups else groups in
        ({| s_Peers := if peerInDestinations then copy_keys (d_Peers nmd) sourcePeers peers else peers;
            s_Groups := if peerInDestinations then copy_keys (d_Groups nmd) (pol_Sources rule) groups else groups;
            s_Policies := s_Policies s; s_Routes := s_Routes s;
            s_ssh := if peerInDestinations then ssh_requirements peerSSHEnabled rule (s_ssh s) else s_ssh s;
            s_accessGroups := s_accessGroups s; s_failed := failed |},
         relevant || routed || peerInSources || peerInDestinations)
  end.

Definition select_policy (peerID : string) (peerSSHEnabled : bool) (s : Sel) (policy : option Policy) : Sel :=
  match policy with
  | None => s
  | Some p =>
      if negb (policy_Enabled p) then s
      else
        let '(s, relevant) := foldl (select_rule peerID peerSSHEnabled p) (s, false) (policy_Rules p) in
        {| s_Peers := s_Peers s; s_Groups := s_Groups s;
           s_Policies := if relevant then s_Policies s ++ [policy] else s_Policies s;
           s_Routes := s_Routes s; s_ssh := s_ssh s; s_accessGroups := s_accessGroups s;
           s_failed := s_failed s |}
  end.

Definition getPeersGroupsPoliciesRoutes (peerID : string) (peerSSHEnabled : bool) (failed : Failed) : Sel :=
  let peerGroupSet := data_GetPeerGroups peerID in
  let s0 :=
    {| s_Peers := copy_keys (d_Peers nmd) [peerID] ∅;
       s_Groups := copy_keys (d_Groups nmd) (elements peerGroupSet) ∅; s_Policies := [];
       s_Routes := []; s_ssh := {| neededGroupIDs := ∅; needAllowedUserIDs := false |};
       s_accessGroups := ∅; s_failed := failed |} in
  foldl (select_policy peerID peerSSHEnabled) (foldl (select_route peerID peerGroupSet) s0 (d_Routes nmd))
    (d_Policies nmd).

(** ** Network resources *)

Record Res := {
  e_Peers : gmap string Peer;
  e_Groups : gmap string Group;
  e_ResourcePoliciesMap : gmap string (list (option Policy));
  e_RoutersMap : gmap string (gmap string NetworkRouter);
  e_RouterPeers : gmap string Peer;
  e_NetworkResources : list NetworkResource;
  e_failed : Failed;
}.

Definition rule_groups (policy : Policy) : list string :=
  policy_Rules policy ≫= λ rule,
    match rule with
    | Some rule => if pol_Enabled rule then pol_Sources rule ++ pol_Destinations rule else []
    | None => []
    end.

(** The tail of an iteration over the policies of a resource. *)
Definition keep_policy (resource : NetworkResource) (policies : list (option Policy)) (policy : Policy) (e : Res) : Res :=
  {| e_Peers := e_Peers e; e_Groups := fill_keys (d_Groups nmd) (rule_groups policy) (e_Groups e);
     e_ResourcePoliciesMap := <[nr_ID resource := policies]> (e_ResourcePoliciesMap e);
     e_RoutersMap := e_RoutersMap e; e_RouterPeers := e_RouterPeers e;
     e_NetworkResources := e_NetworkResources e; e_failed := e_failed e |}.

Definition with_found (e : Res) (peers : gmap string Peer) (failed : Failed) : Res :=
  {| e_Peers := peers; e_Groups := e_Groups e; e_ResourcePoliciesMap := e_ResourcePoliciesMap e;
     e_RoutersMap := e_RoutersMap e; e_RouterPeers := e_RouterPeers e;
     e_NetworkResources := e_NetworkResources e; e_failed := failed |}.

Definition resource_peers (resource : NetworkResource) (policy : Policy) (rule0 : PolicyRule) : list string :=
  let seed := pick (nr_ID resource +:+ "/" +:+ policy_ID policy) in
  if names_peer (pol_SourceResource rule0) then [res_ID (pol_SourceResource rule0)]
  else data_unique_ids seed (SourceGroups seed policy).

Definition peer_in_sources (peerID : string) (resource : NetworkResource) (policy : Policy) (rule0 : PolicyRule) : bool :=
  if names_peer (pol_SourceResource rule0) then String.eqb (res_ID (pol_SourceResource rule0)) peerID
  else existsb (λ groupID, match d_Groups nmd !! groupID with
                           | Some group => bool_decide (peerID ∈ grp_Peers group)
                           | None => false
                           end)
         (SourceGroups (pick (nr_ID resource +:+ "/" +:+ policy_ID policy)) policy).

(** One policy of a resource; the boolean is [addSourcePeers]. *)
Definition build_policy (peerID : string) (resource : NetworkResource) (policies : list (option Policy))
    (acc : Res * bool) (policy : option Policy) : Res * bool :=
  match policy with
  | None => acc
  | Some policy =>
      match policy_Enabled policy, mjoin (head (policy_Rules policy)) with
      | true, Some rule0 =>
          let '(e, addSourcePeers) := acc in
          if addSourcePeers : bool then
            let '(ids, failed) := getPostureValidPeersSaveFailed (resource_peers resource policy rule0)
                                    (policy_SourcePostureChecks policy) (e_failed e) in
            (keep_policy resource policies policy (with_found e (fill_keys (d_Peers nmd) ids (e_Peers e)) failed), true)
          else if negb (peer_in_sources peerID resource policy rule0) then acc
          else
            let '(isValid, pname) := validatePostureChecksOnPeerGetFailed (policy_SourcePostureChecks policy) peerID in
            if negb isValid && negb (String.eqb pname "") then
              (with_found e (e_Peers e) (record_failure pname peerID (e_failed e)), false)
            else (keep_policy resource policies policy e, true)
      | _, _ => acc
      end
  end.

Definition build_resource (peerID : string) (e : Res) (resource : option NetworkResource) : Res :=
  match resource with
  | None => e
  | Some resource =>
      if negb (nr_Enabled resource) then e
      else
        match d_ResourcePolicies nmd !! nr_ID resource with
        | None => e
        | Some policies =>
            let routers := default ∅ (d_Routers nmd !! nr_NetworkID resource) in
            let '(e, addSourcePeers) :=
              foldl (build_policy peerID resource policies) (e, bool_decide (is_Some (routers !! peerID))) policies in
            if negb addSourcePeers then e
            else
              let keys := validated (range_list (pick (nr_ID resource +:+ "/routing-peers")) routers).*1 in
              {| e_Peers := fill_keys (d_Peers nmd) keys (e_Peers e); e_Groups := e_Groups e;
                 e_ResourcePoliciesMap := e_ResourcePoliciesMap e;
                 e_RoutersMap := <[nr_NetworkID resource := routers]> (e_RoutersMap e);
                 e_RouterPeers := fill_keys (d_Peers nmd) keys (e_RouterPeers e);
                 e_NetworkResources := e_NetworkResources e ++ [resource]; e_failed := e_failed e |}
        end
  end.

(** ** Filters *)

Definition filterGroupPeers (groups : gmap string Group) (peers : gmap string Peer) : gmap string Group :=
  (λ g, {| grp_ID := grp_ID g; grp_Name := grp_Name g;
           grp_Peers := filter (λ pid, is_Some (peers !! pid)) (grp_Peers g) |}) <$> groups.

Definition referenced_checks (policies : list (option Policy)) : option (list string) :=
  foldr (λ policy acc, p ← policy; l ← acc; Some (policy_SourcePostureChecks p ++ l)) (Some []) policies.

(** [None] when a policy is nil. *)
Definition filterPostureFailedPeers (failed : Failed) (policies : list (option Policy))
    (resourcePoliciesMap : gmap string (list (option Policy))) (peers : gmap string Peer) : option Failed :=
  if (size failed =? 0)%nat then Some failed
  else
    referenced ← referenced_checks (policies ++ ((map_to_list resourcePoliciesMap).*2 ≫= λ l, l));
    Some (filter (λ cp, cp.2 ≠ ∅)
      ((λ ids : gset string, filter (λ id, is_Some (peers !! id)) ids) <$>
         filter (λ cp, cp.1 ∈ referenced) failed)).

Definition filterDNSRecordsByPeers (records : list SimpleRecord) (peers : gmap string Peer) (includeIPv6 : bool)
    : list SimpleRecord :=
  let ips := (map_to_list peers).*2 ≫= λ peer,
    addr_String (p_IP peer) ::
    (if includeIPv6 && IsValid (p_IPv6 peer) then [addr_String (p_IPv6 peer)] else []) in
  filter (λ record, rec_RData record ∈ ips) records.

Definition filterGroupIDToUserIDs (fullMap : gmap string (list string)) (needed : gset string)
    : gmap string (list string) :=
  filter (λ kv, kv.1 ∈ needed) fullMap.

(** ** Zones *)

Definition peerInDistributionGroups (peerGroups : gset string) (groups : list string) : bool :=
  existsb (λ g, bool_decide (g ∈ peerGroups)) groups.

Definition appliedZones (peerGroups : gset string) : list CustomZone :=
  if (size peerGroups =? 0)%nat then []
  else snd <$> filter (λ cand, peerInDistributionGroups peerGroups cand.1 = true) (d_AppliedZoneCandidates nmd).

(** The records of a candidate go to the zone of its apex, zones in the order
    of their first candidate. *)
Fixpoint merge_zone (zones : list CustomZone) (z : CustomZone) : list CustomZone :=
  match zones with
  | [] => [z]
  | z' :: zones' =>
      if String.eqb (zone_Domain z') (zone_Domain z) then
        {| zone_Domain := zone_Domain z'; zone_Records := zone_Records z' ++ zone_Records z;
           zone_SearchDomainDisabled := zone_SearchDomainDisabled z';
           zone_NonAuthoritative := zone_NonAuthoritative z' |} :: zones'
      else z' :: merge_zone zones' z
  end.

Definition privateServiceZones (peerGroups : gset string) : list CustomZone :=
  filter (λ z, zone_Records z ≠ [])
    (foldl merge_zone [] (snd <$> filter (λ cand, peerInDistributionGroups peerGroups cand.1 = true)
                                    (d_PrivateServiceCandidates nmd))).

Definition forcesRoutingPeerDNSResolution (peerID : string) : bool :=
  existsb (λ resource,
    match resource with
    | Some r => nr_Enabled r && String.eqb (nr_Type r) ResourceTypeDomain &&
                bool_decide (nr_ID r ∈ d_ProxyTargetedDomainResourceIDs nmd) &&
                bool_decide (is_Some (default ∅ (d_Routers nmd !! nr_NetworkID r) !! peerID))
    | None => false
    end) (d_NetworkResources nmd).

(** ** The components *)

Definition EmptyNetworkMapComponents (peerID : string) : NetworkMapComponents :=
  {| c_PeerID := peerID; c_Network := d_Network nmd; c_AccountSettings := None; c_DNSSettings := None;
     c_CustomZoneDomain := ""; c_Peers := copy_keys (d_Peers nmd) [peerID] ∅; c_Groups := ∅; c_Policies := [];
     c_Routes := []; c_NameServerGroups := []; c_AllDNSRecords := []; c_AccountZones := [];
     c_ResourcePoliciesMap := ∅; c_RoutersMap := ∅; c_NetworkResources := []; c_GroupIDToUserIDs := ∅;
     c_AllowedUserIDs := None; c_PostureFailedPeers := ∅; c_RouterPeers := ∅;
     c_ForceRoutingPeerDNSResolution := forcesRoutingPeerDNSResolution peerID; c_empty := true |}.

Definition relevant_name_servers (relevantGroups : gmap string Group) : list NameServerGroup :=
  omap (λ ns, match ns with
              | Some ns => if nsg_Enabled ns && existsb (λ g, bool_decide (is_Some (relevantGroups !! g))) (nsg_Groups ns)
                           then Some ns else None
              | None => None
              end) (d_NameServerGroups nmd).

Definition data_components (peerID : string) (peersCustomZone : CustomZone) : option NetworkMapComponents :=
  match d_Peers nmd !! peerID, bool_decide (peerID ∈ d_ValidatedPeers nmd) with
  | Some peer, true =>
      let s := getPeersGroupsPoliciesRoutes peerID (p_SSHEnabled peer) ∅ in
      let peerGroups := data_GetPeerGroups peerID in
      let e := foldl (build_resource peerID)
        {| e_Peers := s_Peers s; e_Groups := s_Groups s; e_ResourcePoliciesMap := ∅; e_RoutersMap := ∅;
           e_RouterPeers := ∅; e_NetworkResources := []; e_failed := s_failed s |} (d_NetworkResources nmd) in
      failed ← filterPostureFailedPeers (e_failed e) (s_Policies s) (e_ResourcePoliciesMap e) (e_Peers e);
      Some
        {| c_PeerID := peerID; c_Network := d_Network nmd; c_AccountSettings := d_AccountSettings nmd;
           c_DNSSettings := d_DNSSettings nmd; c_CustomZoneDomain := zone_Domain peersCustomZone;
           c_Peers := e_Peers e; c_Groups := filterGroupPeers (e_Groups e) (e_Peers e);
           c_Policies := s_Policies s; c_Routes := s_Routes s;
           c_NameServerGroups := relevant_name_servers (s_Groups s);
           c_AllDNSRecords := filterDNSRecordsByPeers (zone_Records peersCustomZone) (s_Peers s)
             (SupportsIPv6 peer && IsValid (p_IPv6 peer));
           c_AccountZones := appliedZones peerGroups ++ privateServiceZones peerGroups;
           c_ResourcePoliciesMap := e_ResourcePoliciesMap e; c_RoutersMap := e_RoutersMap e;
           c_NetworkResources := e_NetworkResources e;
           c_GroupIDToUserIDs :=
             if (0 <? size (neededGroupIDs (s_ssh s)))%nat
             then filterGroupIDToUserIDs (d_GroupIDToUserIDs nmd) (neededGroupIDs (s_ssh s)) else ∅;
           c_AllowedUserIDs := if needAllowedUserIDs (s_ssh s) then d_AllowedUserIDs nmd else None;
           c_PostureFailedPeers := failed; c_RouterPeers := e_RouterPeers e;
           c_ForceRoutingPeerDNSResolution := forcesRoutingPeerDNSResolution peerID; c_empty := false |}
  | _, _ => Some (EmptyNetworkMapComponents peerID)
  end.
End Data.

Definition GetPeerNetworkMapComponents (nmd : NetworkMapData) (peerID : string) (peersCustomZone : CustomZone)
    : option NetworkMapComponents :=
  data_components (InjectProxyPolicies nmd) peerID peersCustomZone.

(** [NetworkMapFromData] of the controller. *)
Definition NetworkMapFromData (now : string → Z) (SafeString : list string → string)
    (ToASCII : string → option string) (nmd : NetworkMapData) (peerID : string) (peersCustomZone : CustomZone)
    : option NetworkMap :=
  components ← GetPeerNetworkMapComponents nmd peerID peersCustomZone;
  if c_empty components then
    Some {| m_Peers := []; m_Network := c_Network components; m_Routes := []; m_DNSConfig := noDNS;
            m_OfflinePeers := []; m_FirewallRules := []; m_RoutesFirewallRules := []; m_ForwardingRules := [];
            m_AuthorizedUsers := None; m_EnableSSH := false; m_ForceRoutingPeerDNSResolution := false |}
  else Calculate pick now SafeString ToASCII components.
End Build.
