(* ===== verification/AddrText.v ===== *)
(** * Printed addresses parse back

    [netip.ParseAddr] is the inverse of [Addr.String] on addresses without a
    zone that are not IPv4-mapped: the text the server writes into a rule is
    the address the client reads. *)
From S2P Require Import Prelude NetIP Bytes GoStrings NetParse.
Open Scope Z_scope.

Lemma sapp_nil (a : string) : a +:+ "" = a.
Proof. induction a as [|x a IH]; [done|]. by rewrite cons_app, IH. Qed.

(** ** IPv4 *)

Definition digit_char (d : Z) : ascii := Ascii.ascii_of_N (Z.to_N (48 + d)).

(** The decimal digits of an octet. *)
Definition octet_text (o : Z) : string :=
  if 100 <=? o then String (digit_char (o / 100)) (String (digit_char (o / 10 mod 10)) (String (digit_char (o mod 10)) ""))
  else if 10 <=? o then String (digit_char (o / 10)) (String (digit_char (o mod 10)) "")
  else String (digit_char o) "".

Lemma small_case (P : Z → bool) n :
  forallb P (seqZ 0 n) = true → ∀ x, 0 <= x < n → P x = true.
Proof. rewrite forallb_forall. intros H x Hx. apply H, list_elem_of_In, elem_of_seqZ. lia. Qed.

Lemma dec_octet o : 0 <= o < 256 → dec o = octet_text o.
Proof.
  intros Ho. apply String.eqb_eq. revert o Ho. apply (small_case (λ o, String.eqb (dec o) (octet_text o))).
  vm_compute. reflexivity.
Qed.

Lemma digit_val_char d : 0 <= d < 10 → digit_val (digit_char d) = Some d.
Proof.
  intros Hd. apply (bool_decide_unpack _), Is_true_true. revert d Hd.
  apply (small_case (λ d, bool_decide (digit_val (digit_char d) = Some d))). vm_compute. reflexivity.
Qed.

(** [lia] with division by constants. *)
Ltac dlia := Z.to_euclidean_division_equations; lia.

(** Reading an octet: at least one digit is read and the last character is a
    digit. *)
Lemma parse_octet o rest prev fields :
  0 <= o < 256 →
  ∃ c k, digit_val c ≠ None ∧
    parseIPv4Fields (dec o +:+ rest) prev 0 0 fields = parseIPv4Fields rest (Some c) o (S k) fields.
Proof.
  intros Ho. rewrite (dec_octet o Ho). unfold octet_text.
  destruct (Z.leb_spec 100 o); [|destruct (Z.leb_spec 10 o)].
  - exists (digit_char (o mod 10)), 2%nat. split; [rewrite digit_val_char; [done|dlia]|].
    rewrite !cons_app, nil_app. cbn [parseIPv4Fields].
    rewrite digit_val_char by dlia. cbn [Nat.eqb andb Nat.add].
    destruct (255 <? _) eqn:E1; [bools; dlia|]. clear E1. rewrite digit_val_char by dlia. cbn [Nat.eqb andb].
    destruct (0 * 10 + o / 100 =? 0) eqn:E0; [bools; dlia|]. clear E0.
    destruct (255 <? _) eqn:E1; [bools; dlia|]. clear E1. rewrite digit_val_char by dlia. cbn [Nat.eqb andb].
    replace (((0 * 10 + o / 100) * 10 + o / 10 mod 10) * 10 + o mod 10) with o by dlia.
    destruct (255 <? _) eqn:E1; [bools; dlia|]. done.
  - exists (digit_char (o mod 10)), 1%nat. split; [rewrite digit_val_char; [done|dlia]|].
    rewrite !cons_app, nil_app. cbn [parseIPv4Fields].
    rewrite digit_val_char by dlia. cbn [Nat.eqb andb].
    destruct (255 <? _) eqn:E1; [bools; dlia|]. clear E1. rewrite digit_val_char by dlia. cbn [Nat.eqb andb].
    destruct (0 * 10 + o / 10 =? 0) eqn:E0; [bools; dlia|]. clear E0.
    replace ((0 * 10 + o / 10) * 10 + o mod 10) with o by dlia.
    destruct (255 <? _) eqn:E1; [bools; dlia|]. done.
  - exists (digit_char o), 0%nat. split; [rewrite digit_val_char; [done|dlia]|].
    rewrite !cons_app, nil_app. cbn [parseIPv4Fields]. rewrite digit_val_char by dlia. cbn [Nat.eqb andb].
    replace (0 * 10 + o) with o by dlia. destruct (255 <? _) eqn:E1; [bools; dlia|]. done.
Qed.

(** An octet and the dot after it. *)
Lemma parse_octet_dot o rest prev fields :
  0 <= o < 256 → rest ≠ "" → (length fields < 3)%nat →
  parseIPv4Fields (dec o +:+ "." +:+ rest) prev 0 0 fields =
  parseIPv4Fields rest (Some "."%char) 0 0 (fields ++ [o]).
Proof.
  intros Ho Hr Hf. destruct (parse_octet o ("." +:+ rest) prev fields Ho) as (c & k & Hc & ->).
  change ("." +:+ rest) with (String "."%char rest). cbn [parseIPv4Fields].
  change (digit_val "."%char) with (@None Z). cbn [Ascii.eqb Bool.eqb].
  rewrite !bool_decide_false by (intros [= ->]; done). apply String.eqb_neq in Hr. rewrite Hr.
  destruct (length fields =? 3)%nat eqn:E; [apply Nat.eqb_eq in E; lia|]. done.
Qed.

Lemma octet_range v i : 0 <= octet v i < 256.
Proof.
  unfold octet. change 255 with (Z.ones 8). rewrite Z.land_ones by dlia. apply Z.mod_pos_bound. lia.
Qed.

Lemma octets_value v :
  in_width 32 v → be_val 256 [octet v 3; octet v 2; octet v 1; octet v 0] = v.
Proof.
  unfold in_width, octet. intros Hv. change 255 with (Z.ones 8). rewrite !Z.land_ones, !Z.shiftr_div_pow2 by dlia.
  unfold be_val. simpl. change (2 ^ 32) with 4294967296 in Hv. change (2 ^ 24) with 16777216.
  change (2 ^ 16) with 65536. change (2 ^ 8) with 256. rewrite Z.div_1_r. dlia.
Qed.

Lemma octet_text_ne o rest : 0 <= o < 256 → dec o +:+ rest ≠ "".
Proof. intros Ho. rewrite dec_octet by done. unfold octet_text. by repeat case_match. Qed.

Lemma parseIPv4_string4 v : in_width 32 v → parseIPv4 (string4 v) = Some (AddrV4 v).
Proof.
  intros Hv. unfold parseIPv4, string4. pose proof (octet_range v) as Ho.
  rewrite parse_octet_dot by (auto using octet_text_ne; simpl; lia).
  rewrite parse_octet_dot by (auto using octet_text_ne; simpl; lia).
  rewrite parse_octet_dot.
  2: apply Ho. 2: rewrite <- (sapp_nil (dec _)); by apply octet_text_ne. 2: simpl; lia.
  destruct (parse_octet (octet v 0) "" (Some "."%char) ([] ++ [octet v 3] ++ [octet v 2] ++ [octet v 1])) as (c & k & _ & E);
    [apply Ho|]. rewrite sapp_nil in E. simpl in *. rewrite E. simpl. do 2 f_equal. by apply octets_value.
Qed.

(** ** IPv6 groups *)

Lemma hex_digit_char d : 0 <= d < 16 → ∃ c, hex_digit d = String c "" ∧ hex_val c = Some d ∧
  Ascii.eqb c "." = false ∧ Ascii.eqb c ":" = false ∧ Ascii.eqb c "%" = false.
Proof.
  intros Hd. assert (d ∈ seqZ 0 16) as H by (apply elem_of_seqZ; lia). revert H.
  change (seqZ 0 16) with [0; 1; 2; 3; 4; 5; 6; 7; 8; 9; 10; 11; 12; 13; 14; 15].
  intros H. repeat (apply elem_of_cons in H as [->|H]; [eexists; split_and!; reflexivity|]). by apply elem_of_nil in H.
Qed.

(** What stops a group: the end or a colon. *)
Definition stops (rest : string) : Prop := rest = "" ∨ ∃ r, rest = String ":" r.

Lemma hex_scan_stop rest off acc : stops rest → hex_scan rest off acc = Some (off, acc, rest).
Proof. by intros [->|[r ->]]. Qed.

Lemma hex_scan_digit c d rest off acc :
  hex_val c = Some d → (off <= 3)%nat → acc * 16 + d <= 65535 →
  hex_scan (String c rest) off acc = hex_scan rest (S off) (acc * 16 + d).
Proof.
  intros Hc Ho Ha. cbn [hex_scan]. rewrite Hc.
  destruct (3 <? off)%nat eqn:E; [apply Nat.ltb_lt in E; lia|]. destruct (65535 <? _) eqn:E'; [bools; lia|]. done.
Qed.

Ltac each_elem :=
  repeat first [apply Forall2_nil_2 | apply Forall2_cons_2 | apply Forall_nil_2 | apply Forall_cons_2];
  first [done | dlia].

(** The digits of a group, most significant first, and its text. *)
Lemma hex16_digits g :
  0 <= g < 65536 →
  ∃ cs ds : list _, (0 < length cs <= 4)%nat ∧ hex16 g = foldr String "" cs ∧
    Forall2 (λ c d, hex_val c = Some d) cs ds ∧ be_val 16 ds = g ∧
    Forall (λ c, Ascii.eqb c "." = false ∧ Ascii.eqb c ":" = false ∧ Ascii.eqb c "%" = false) cs ∧
    Forall (λ d, 0 <= d < 16) ds.
Proof.
  intros Hg. unfold hex16. change 15 with (Z.ones 4). rewrite !Z.land_ones, !Z.shiftr_div_pow2 by lia.
  change (2 ^ 12) with 4096. change (2 ^ 8) with 256. change (2 ^ 4) with 16.
  destruct (hex_digit_char (g / 4096 mod 16)) as (c3 & -> & H3 & N3); [dlia|].
  destruct (hex_digit_char (g / 256 mod 16)) as (c2 & -> & H2 & N2); [dlia|].
  destruct (hex_digit_char (g / 16 mod 16)) as (c1 & -> & H1 & N1); [dlia|].
  destruct (hex_digit_char (g mod 16)) as (c0 & -> & H0 & N0); [dlia|].
  destruct (Z.leb_spec 4096 g); [|destruct (Z.leb_spec 256 g); [|destruct (Z.leb_spec 16 g)]].
  - rewrite !(proj2 (Z.leb_le _ _)) by lia.
    exists [c3; c2; c1; c0], [g / 4096 mod 16; g / 256 mod 16; g / 16 mod 16; g mod 16].
    split_and!; [simpl; lia|simpl; lia|done|each_elem|unfold be_val; simpl; dlia|each_elem|each_elem].
  - rewrite !(proj2 (Z.leb_le _ _)) by lia.
    exists [c2; c1; c0], [g / 256 mod 16; g / 16 mod 16; g mod 16].
    split_and!; [simpl; lia|simpl; lia|done|each_elem|unfold be_val; simpl; dlia|each_elem|each_elem].
  - exists [c1; c0], [g / 16 mod 16; g mod 16].
    split_and!; [simpl; lia|simpl; lia|done|each_elem|unfold be_val; simpl; dlia|each_elem|each_elem].
  - exists [c0], [g mod 16].
    split_and!; [simpl; lia|simpl; lia|done|each_elem|unfold be_val; simpl; dlia|each_elem|each_elem].
Qed.

Definition group_ok (g : Z) : Prop := 0 <= g < 65536.

(** Reading a group. *)
Lemma hex_scan_group g rest :
  group_ok g → stops rest → ∃ k, hex_scan (hex16 g +:+ rest) 0 0 = Some (S k, g, rest).
Proof.
  intros Hg Hr. destruct (hex16_digits g Hg) as (cs & ds & Hl & -> & H2 & Hv & _ & Hd).
  assert (Hgen : ∀ off acc, (off + length cs <= 4)%nat → 0 <= acc →
    (acc < 16 ^ Z.of_nat off) →
    hex_scan (foldr String "" cs +:+ rest) off acc =
    Some ((off + length cs)%nat, foldl (λ v d, v * 16 + d) acc ds, rest)).
  { clear Hl Hv. induction H2 as [|c d cs ds Hc H2 IH]; intros off acc Ho Ha Hb; simpl foldr; simpl length in *.
    - rewrite nil_app, hex_scan_stop by done. simpl. by rewrite Nat.add_0_r.
    - apply Forall_cons in Hd as [Hd0 Hd]. rewrite cons_app.
      assert (16 ^ Z.of_nat (S off) <= 65536).
      { change 65536 with (16 ^ 4). apply Z.pow_le_mono_r; lia. }
      assert (acc * 16 + d < 16 ^ Z.of_nat (S off)).
      { rewrite Nat2Z.inj_succ, Z.pow_succ_r by lia. lia. }
      rewrite (hex_scan_digit c d) by (done || lia). rewrite IH by (done || lia). simpl. do 3 f_equal. lia. }
  exists (length cs - 1)%nat. rewrite (Hgen 0%nat 0) by (simpl; lia). fold (be_val 16 ds). rewrite Hv.
  do 3 f_equal. lia.
Qed.

(** The groups separated by colons. *)
Notation colons l := (String.concat ":" (hex16 <$> l)).

Lemma colons_cons g l : l ≠ [] → colons (g :: l) = hex16 g +:+ String ":" (colons l).
Proof. by destruct l. Qed.

Lemma colons_first l : l ≠ [] → Forall group_ok l → ∃ c r, colons l = String c r ∧ Ascii.eqb c ":" = false.
Proof.
  destruct l as [|g l]; [done|]. intros _ [Hg _]%Forall_cons.
  destruct (hex16_digits g Hg) as (cs & ds & Hl & E & _ & _ & Hn & _).
  destruct cs as [|c cs]; [simpl in Hl; lia|]. apply Forall_cons in Hn as [(_ & Hc & _) _].
  destruct l as [|g' l]; [exists c, (foldr String "" cs)|exists c, (foldr String "" cs +:+ String ":" (colons (g' :: l)))].
  - simpl. by rewrite E.
  - rewrite colons_cons by done. by rewrite E.
Qed.

(** A list of groups up to the end. *)
Lemma v6_loop_list n l gs ell :
  l ≠ [] → Forall group_ok l → (length l <= n)%nat →
  v6_loop n (colons l) gs ell = Some (gs ++ l, ell, "").
Proof.
  revert n gs. induction l as [|g l IH]; intros n gs Hl Hok Hn; [done|]. destruct n as [|n]; [simpl in Hn; lia|].
  apply Forall_cons in Hok as [Hg Hok]. cbn [v6_loop]. destruct (decide (l = [])) as [->|Hne].
  - destruct (hex_scan_group g "" Hg) as [k E]; [by left|]. rewrite sapp_nil in E. simpl String.concat. rewrite E. done.
  - rewrite colons_cons by done. destruct (hex_scan_group g (String ":" (colons l)) Hg) as [k E]; [right; eauto|].
    rewrite E. cbn [Nat.eqb Ascii.eqb Bool.eqb negb].
    destruct (colons_first l Hne Hok) as (c & r & Ec & Hc). rewrite Ec, Hc, <- Ec. simpl in Hn.
    rewrite IH by (done || lia). by rewrite <- (assoc_L (++)).
Qed.

(** Groups, an ellipsis and what follows it. *)
Lemma v6_loop_ellipsis n l R gs :
  l ≠ [] → Forall group_ok l → (length l < n)%nat →
  v6_loop n (colons l +:+ "::" +:+ R) gs None =
  if String.eqb R "" then Some (gs ++ l, Some (length (gs ++ l)), "")
  else v6_loop (n - length l) R (gs ++ l) (Some (length (gs ++ l))).
Proof.
  revert n gs. induction l as [|g l IH]; intros n gs Hl Hok Hn; [done|]. destruct n as [|n]; [simpl in Hn; lia|].
  apply Forall_cons in Hok as [Hg Hok]. cbn [v6_loop]. destruct (decide (l = [])) as [->|Hne].
  - simpl String.concat. destruct (hex_scan_group g ("::" +:+ R) Hg) as [k E]; [right; eexists; reflexivity|].
    rewrite E. change ("::" +:+ R) with (String ":" (String ":" R)).
    cbn [Nat.eqb Ascii.eqb Bool.eqb negb length]. rewrite bool_decide_true by done.
    rewrite length_app. simpl. replace (length gs + 1)%nat with (S (length gs)) by lia.
    by rewrite Nat.sub_0_r.
  - rewrite colons_cons by done. rewrite string_app_assoc, cons_app.
    destruct (hex_scan_group g (String ":" (colons l +:+ "::" +:+ R)) Hg) as [k E]; [right; eauto|].
    rewrite E. cbn [Nat.eqb Ascii.eqb Bool.eqb negb].
    destruct (colons_first l Hne Hok) as (c & r & Ec & Hc). rewrite Ec, cons_app, Hc, <- cons_app, <- Ec.
    simpl in Hn. rewrite IH by (done || lia). by rewrite <- (assoc_L (++)).
Qed.

(** ** The ellipsis *)

Lemma zero_run_spec gs : take (zero_run gs) gs = replicate (zero_run gs) 0 ∧ (zero_run gs <= length gs)%nat.
Proof.
  induction gs as [|g gs [IH1 IH2]]; simpl; [done|]. destruct (Z.eqb_spec g 0) as [->|]; simpl; [|split; [done|lia]].
  split; [by rewrite IH1|lia].
Qed.

(** A run of zeros of length zero or at least two. *)
Definition run_ok (gs : list Z) (r : nat * nat) : Prop :=
  r.2 = 0%nat ∨ (2 <= r.2)%nat ∧ (r.1 + r.2 <= length gs)%nat ∧ take r.2 (drop r.1 gs) = replicate r.2 0.

Lemma longest_run_spec pre gs best :
  run_ok (pre ++ gs) best → run_ok (pre ++ gs) (longest_run (length pre) gs best).
Proof.
  revert pre best. induction gs as [|g gs IH]; intros pre best H; cbn [longest_run]; [done|].
  replace (S (length pre)) with (length (pre ++ [g])) by (rewrite length_app; simpl; lia).
  replace (pre ++ g :: gs) with ((pre ++ [g]) ++ gs) by (by rewrite <- (assoc_L (++))).
  apply IH. rewrite <- (assoc_L (++)). simpl ([g] ++ gs).
  destruct ((2 <=? zero_run (g :: gs))%nat && (best.2 <? zero_run (g :: gs))%nat) eqn:E; [|done]. apply andb_true_iff in E as [E _]. apply Nat.leb_le in E.
  destruct (zero_run_spec (g :: gs)) as [Hz Hl]. right. cbn [fst snd]. split_and!; [done| |].
  - rewrite length_app. lia.
  - by rewrite drop_app_length.
Qed.

Lemma groups6_ok v : Forall group_ok (groups6 v).
Proof.
  unfold groups6, group_ok. apply Forall_fmap, Forall_forall. intros i _. simpl.
  change 0xffff with (Z.ones 16). rewrite Z.land_ones by lia. apply Z.mod_pos_bound. lia.
Qed.

Lemma groups6_value v : in_width 128 v → be_val 65536 (groups6 v) = v.
Proof.
  unfold in_width. intros Hv. unfold groups6. change 0xffff with (Z.ones 16).
  cbn [fmap list_fmap]. rewrite !Z.land_ones, !Z.shiftr_div_pow2 by lia. unfold be_val. cbn [foldl].
  change (2 ^ (16 * 0)) with 1. rewrite Z.div_1_r.
  assert (Hstep : ∀ k k', 0 <= k → k' = k + 1 → v / 2 ^ (16 * k') * 65536 + v / 2 ^ (16 * k) mod 2 ^ 16 = v / 2 ^ (16 * k)).
  { intros k k' Hk ->. replace (16 * (k + 1)) with (16 * k + 16) by lia. rewrite Z.pow_add_r by lia.
    rewrite <- Z.div_div by lia. change (2 ^ 16) with 65536. pose proof (Z.div_mod (v / 2 ^ (16 * k)) 65536). lia. }
  assert (E7 : (v / 2 ^ (16 * 7)) mod 2 ^ 16 = v / 2 ^ (16 * 7)).
  { apply Z.mod_small. split; [apply Z.div_pos; lia|]. apply Z.div_lt_upper_bound; [lia|]. lia. }
  rewrite E7, Z.mul_0_l, Z.add_0_l. rewrite (Hstep 6 7), (Hstep 5 6), (Hstep 4 5), (Hstep 3 4), (Hstep 2 3), (Hstep 1 2) by lia.
  specialize (Hstep 0 1). change (16 * 0) with 0 in Hstep. rewrite Z.pow_0_r, Z.div_1_r in Hstep. apply Hstep; lia.
Qed.

(** ** No separator inside a group *)

Lemma addr_kind_group g rest : group_ok g → addr_kind (hex16 g +:+ rest) = addr_kind rest.
Proof.
  intros Hg. destruct (hex16_digits g Hg) as (cs & ds & _ & -> & _ & _ & Hn & _).
  induction Hn as [|c cs (H1 & H2 & H3) _ IH]; [done|]. simpl foldr. rewrite cons_app. cbn [addr_kind].
  by rewrite H1, H2, H3.
Qed.

Lemma split_percent_group g rest :
  group_ok g → split_first "%" (hex16 g +:+ rest) =
    let '(a, b) := split_first "%" rest in (hex16 g +:+ a, b).
Proof.
  intros Hg. destruct (hex16_digits g Hg) as (cs & ds & _ & -> & _ & _ & Hn & _).
  induction Hn as [|c cs (H1 & H2 & H3) _ IH].
  { simpl foldr. rewrite nil_app. by destruct (split_first "%" rest). }
  simpl foldr. rewrite !cons_app. cbn [split_first]. rewrite H3, IH. by destruct (split_first "%" rest).
Qed.

Lemma split_percent_colons l rest :
  Forall group_ok l → split_first "%" (colons l +:+ rest) =
    let '(a, b) := split_first "%" rest in (colons l +:+ a, b).
Proof.
  induction 1 as [|g l Hg Hl IH].
  { simpl String.concat. rewrite !nil_app. destruct (split_first "%" rest). by rewrite nil_app. }
  destruct (decide (l = [])) as [->|Hne]; [by apply split_percent_group|].
  rewrite colons_cons by done. rewrite string_app_assoc, cons_app, split_percent_group by done. cbn [split_first].
  change (Ascii.eqb ":" "%") with false. cbn iota. rewrite IH. destruct (split_first "%" rest).
  by rewrite string_app_assoc, cons_app.
Qed.

Lemma split_percent_end l : Forall group_ok l → split_first "%" (colons l) = (colons l, None).
Proof.
  intros Hl. rewrite <- (sapp_nil (colons l)) at 1. rewrite split_percent_colons by done.
  cbn [split_first]. by rewrite sapp_nil.
Qed.

(** ** The whole text *)

(** The shape [string6] gives a text. *)
Lemma string6_shape v :
  string6 v = colons (groups6 v) ∨
  ∃ l k r, groups6 v = l ++ replicate k 0 ++ r ∧ (2 <= k)%nat ∧ string6 v = colons l +:+ "::" +:+ colons r.
Proof.
  unfold string6. generalize (groups6 v). intros gs.
  pose proof (longest_run_spec [] gs (0%nat, 0%nat) (or_introl eq_refl)) as H. cbn [app length] in H.
  destruct (longest_run 0 gs (0%nat, 0%nat)) as [start len].
  destruct H as [H|(H2 & Hl & Hz)]; cbn [fst snd] in *; [subst len; by left|].
  destruct (len =? 0)%nat eqn:E; [apply Nat.eqb_eq in E; lia|]. right.
  exists (take start gs), len, (drop (start + len) gs). split_and!; [|done|done].
  rewrite <- Hz, <- drop_drop. by rewrite take_drop, take_drop.
Qed.

Lemma groups6_length v : length (groups6 v) = 8%nat.
Proof. done. Qed.

Lemma not_ellipsis {A} c r (X : string → A) (Y : A) :
  Ascii.eqb c ":" = false →
  (match String c r with String ":" (String ":" s') => X s' | _ => Y end) = Y.
Proof. intros H. by destruct c as [[] [] [] [] [] [] [] []]. Qed.

Lemma expand_gap l k r :
  (length (l ++ replicate k 0%Z ++ r) = 8)%nat → (2 <= k)%nat →
  expand_groups (l ++ r) (Some (length l)) = Some (l ++ replicate k 0 ++ r).
Proof.
  rewrite !length_app, length_replicate. intros Hl Hk. unfold expand_groups. rewrite length_app.
  destruct (length l + length r <? 8)%nat eqn:E; [|apply Nat.ltb_ge in E; lia].
  rewrite take_app_length, drop_app_length. do 4 f_equal. lia.
Qed.

Lemma be_val_zeros k : be_val 65536 (replicate k 0) = 0.
Proof. unfold be_val. induction k; simpl; [done|]. done. Qed.

Lemma parseIPv6_string6 v : in_width 128 v → parseIPv6 (string6 v) = Some (AddrV6 v "").
Proof.
  intros Hv. pose proof (groups6_ok v) as Hok. pose proof (groups6_value v Hv) as Hval.
  pose proof (groups6_length v) as Hlen. unfold parseIPv6.
  destruct (string6_shape v) as [->|(l & k & r & Eg & Hk & ->)].
  - assert (Hne : groups6 v ≠ []) by done. revert Hok Hval Hlen Hne. generalize (groups6 v). intros gs Hok Hval Hlen Hne.
    rewrite split_percent_end by done. cbn iota. rewrite bool_decide_false by done.
    destruct (colons_first gs Hne Hok) as (c & r & Ec & Hc). rewrite Ec, not_ellipsis by done. rewrite <- Ec.
    unfold parse_groups. rewrite v6_loop_list by (done || lia). simpl. unfold expand_groups. rewrite Hlen. simpl.
    by rewrite Hval.
  - rewrite Eg in *. clear Eg. apply Forall_app in Hok as [Hl [_ Hr]%Forall_app].
    assert (Hp : split_first "%" (colons l +:+ "::" +:+ colons r) = (colons l +:+ "::" +:+ colons r, None)).
    { rewrite split_percent_colons by done. change ("::" +:+ colons r) with (String ":" (String ":" (colons r))).
      cbn [split_first]. change (Ascii.eqb ":" "%") with false. cbn iota.
      by rewrite split_percent_end by done. }
    rewrite Hp. cbn iota. rewrite bool_decide_false by done. clear Hp.
    assert (Hll : (length l + length r < 8)%nat) by (rewrite !length_app, length_replicate in Hlen; lia).
    destruct (decide (l = [])) as [->|Hne].
    + simpl String.concat at 1. rewrite nil_app. change ("::" +:+ colons r) with (String ":" (String ":" (colons r))). cbn iota.
      destruct (decide (r = [])) as [->|Hnr].
      * simpl. simpl in Hval. rewrite app_nil_r, be_val_zeros in Hval. by subst.
      * destruct (colons_first r Hnr Hr) as (c & t & Ec & _). rewrite Ec. simpl String.eqb. rewrite <- Ec.
        unfold parse_groups. rewrite v6_loop_list by (done || (simpl in Hll; lia)). simpl.
        pose proof (expand_gap [] k r Hlen Hk) as Ee. simpl in Ee. rewrite Ee. simpl. simpl in Hval. by rewrite Hval.
    + destruct (colons_first l Hne Hl) as (c & t & Ec & Hc). rewrite Ec, cons_app, not_ellipsis by done. rewrite <- cons_app, <- Ec.
      unfold parse_groups. rewrite v6_loop_ellipsis by (done || lia). rewrite app_nil_l.
      pose proof (expand_gap l k r Hlen Hk) as Ee.
      destruct (decide (r = [])) as [->|Hnr].
      * simpl String.eqb. cbn iota. rewrite app_nil_r in Ee. rewrite Ee. simpl. simpl in Hval. by rewrite Hval.
      * destruct (colons_first r Hnr Hr) as (c' & t' & Ec' & _). rewrite Ec'. simpl String.eqb. rewrite <- Ec'. cbn iota.
        rewrite v6_loop_list by (done || lia). simpl. rewrite Ee. simpl. by rewrite Hval.
Qed.


Lemma digit_char_plain d :
  0 <= d < 10 → Ascii.eqb (digit_char d) "." || Ascii.eqb (digit_char d) ":" || Ascii.eqb (digit_char d) "%" = false.
Proof.
  intros Hd. apply negb_true_iff. revert d Hd.
  apply (small_case (λ d, negb (Ascii.eqb (digit_char d) "." || Ascii.eqb (digit_char d) ":" || Ascii.eqb (digit_char d) "%"))).
  vm_compute. reflexivity.
Qed.

Lemma addr_kind_octet o rest : 0 <= o < 256 → addr_kind (dec o +:+ rest) = addr_kind rest.
Proof.
  intros Ho. rewrite (dec_octet o Ho). unfold octet_text.
  destruct (Z.leb_spec 100 o); [|destruct (Z.leb_spec 10 o)];
    rewrite !cons_app, nil_app; cbn [addr_kind]; by rewrite !digit_char_plain by dlia.
Qed.

Lemma addr_kind_colons l rest :
  l ≠ [] → Forall group_ok l → addr_kind (colons l +:+ String ":" rest) = Some ":"%char.
Proof.
  destruct l as [|g l]; [done|]. intros _ [Hg Hl]%Forall_cons. destruct (decide (l = [])) as [->|Hne].
  - simpl String.concat. by rewrite addr_kind_group.
  - rewrite colons_cons by done. by rewrite string_app_assoc, addr_kind_group.
Qed.

Lemma addr_kind_string6 v : addr_kind (string6 v) = Some ":"%char.
Proof.
  pose proof (groups6_ok v) as Hok. destruct (string6_shape v) as [->|(l & k & r & Eg & Hk & ->)].
  - pose proof (groups6_length v) as Hlen. destruct (groups6 v) as [|g [|g' gs]]; [done|done|].
    rewrite colons_cons by done. rewrite addr_kind_group; [done|]. by apply Forall_cons in Hok as [? _].
  - rewrite Eg in Hok. apply Forall_app in Hok as [Hl _].
    destruct (decide (l = [])) as [->|Hne]; [done|]. by apply (addr_kind_colons l (":" +:+ colons r)).
Qed.

(** A plain address: in width, no zone, not an IPv4-mapped one. *)
Definition plain_addr (a : Addr) : Prop :=
  addr_wf a ∧ IsValid a = true ∧ addr_zone a = "" ∧ Is4In6 a = false.

(** The text of a plain address is read back as that address. *)
Lemma ParseAddr_String a : plain_addr a → ParseAddr (addr_String a) = Some a.
Proof.
  intros (Hwf & Hv & Hz & H4). destruct a as [|v|v z]; [done| |].
  - simpl addr_String. unfold ParseAddr. unfold string4 at 1. rewrite addr_kind_octet by apply octet_range.
    cbn [addr_kind]. by apply parseIPv4_string4.
  - simpl in Hz. subst z. unfold addr_String. rewrite H4. simpl String.eqb. cbn iota. unfold ParseAddr.
    rewrite addr_kind_string6. by apply parseIPv6_string6.
Qed.

Lemma addr_String_inj a b : plain_addr a → plain_addr b → addr_String a = addr_String b → a = b.
Proof. intros Ha Hb E. apply ParseAddr_String in Ha, Hb. rewrite E in Ha. congruence. Qed.

(** ** Decimal numbers *)

Lemma digit_val_pretty d : (d < 10)%N → digit_val (pretty_N_char d) = Some (Z.of_N d).
Proof.
  intros Hd. assert (Z.of_N d ∈ seqZ 0 10) as H by (apply elem_of_seqZ; lia). revert H.
  change (seqZ 0 10) with [0; 1; 2; 3; 4; 5; 6; 7; 8; 9].
  intros H. repeat (apply elem_of_cons in H as [H|H]; [replace d with (Z.to_N (Z.of_N d)) by lia; rewrite H; reflexivity|]).
  by apply elem_of_nil in H.
Qed.

Lemma parse_pretty_go x s : parse_digits 0 (pretty_N_go x s) = parse_digits (Z.of_N x) s.
Proof.
  revert s. induction (N.lt_wf_0 x) as [x _ IH]. intros s. destruct (decide (x = 0%N)) as [->|Hx].
  { by rewrite pretty_N_go_0. }
  rewrite pretty_N_go_step by lia. rewrite IH by (apply N.div_lt; lia). cbn [parse_digits].
  rewrite digit_val_pretty by (apply N.mod_lt; lia). f_equal.
  rewrite N2Z.inj_div, N2Z.inj_mod. pose proof (Z.div_mod (Z.of_N x) 10). lia.
Qed.

(** The decimal text of a number is read back. *)
Lemma ParseUint_dec bits p : 0 <= p < 2 ^ bits → ParseUint bits (dec p) = Some p.
Proof.
  intros Hp. unfold ParseUint. assert (parse_unsigned (dec p) = Some p) as ->.
  { destruct p as [|p|p]; [done| |lia]. unfold dec. cbn [pretty pretty_Z pretty_positive].
    unfold pretty, pretty_positive, pretty, pretty_N. destruct (decide (N.pos p = 0%N)); [done|].
    pose proof (parse_pretty_go (N.pos p) "") as H. unfold parse_unsigned. cbn [parse_digits] in H.
    destruct (pretty_N_go (N.pos p) ""); [done|]. exact H. }
  destruct (Z.ltb_spec p (2 ^ bits)); [done|lia].
Qed.
