(* ===== verification/NetMapFacts.v ===== *)
(** * Peers and firewall rules of a network map

    What [getPeerConnectionResources] computes from the components of a peer:
    exactly the peers and rules that the policies, read directly, ask for. *)
From S2P Require Import Prelude NetIP Bytes GoStrings NetParse Order AclManager NmData FwGen NetMap.
Open Scope Z_scope.

(** ** Strings *)

(** One of two texts that start the same text starts the other. *)
Lemma prefix_total (a b x y : string) :
  a +:+ x = b +:+ y → String.prefix a b = true ∨ String.prefix b a = true.
Proof.
  revert b. induction a as [|c a IH]; intros [|c' b] E; rewrite ?cons_app, ?nil_app in E; simpl; auto.
  injection E as -> E. destruct (ascii_dec c' c'); [|done]. by apply IH.
Qed.

Lemma snoc_inj (a b : string) (x y : ascii) :
  a +:+ String x "" = b +:+ String y "" → a = b ∧ x = y.
Proof.
  revert b. induction a as [|c a IH]; intros [|c' b] E; rewrite ?cons_app, ?nil_app in E; injection E.
  - by intros ->.
  - intros E' ->. by destruct b.
  - intros E' ->. by destruct a.
  - intros [-> ->]%IH ->. done.
Qed.

(** ** Which peers a rule connects

    [S] and [D] are the two sides of a rule; [T] is the peer whose map is
    computed.  Traffic runs from the sources to the destinations, both ways
    when the rule is bidirectional. *)
Definition links (S D : string → Prop) (bidirectional : bool) (T : string) (direction : Z) (id : string) : Prop :=
  id ≠ T ∧
  (direction = FirewallRuleDirectionIN ∧ (S id ∧ D T ∨ bidirectional = true ∧ S T ∧ D id) ∨
   direction = FirewallRuleDirectionOUT ∧ (S T ∧ D id ∨ bidirectional = true ∧ S id ∧ D T)).

(** A side of a rule holds the peer it names, or the members of its groups. *)
Definition side_member (groupMap : gmap string Group) (resource : Resource) (groups : list string)
    (id : string) : Prop :=
  if names_peer resource then id = res_ID resource
  else ∃ gid g, gid ∈ groups ∧ groupMap !! gid = Some g ∧ id ∈ grp_Peers g.

(** The group "All" has the peer, as every group of that name should. *)
Definition in_all (groupMap : gmap string Group) (id : string) : Prop :=
  ∀ gid g, groupMap !! gid = Some g → IsGroupAll g = true → id ∈ grp_Peers g.

Section Members.
Context {MO : MapOrder}.

Lemma unique_scan_spec groupMap single groups acc id :
  in_all groupMap id → (single = true → length groups = 1%nat) → (single = true → id ∉ acc) →
  (match unique_scan groupMap single groups acc with inl l => id ∈ l | inr s => id ∈ s end ↔
   id ∈ acc ∨ ∃ gid g, gid ∈ groups ∧ groupMap !! gid = Some g ∧ id ∈ grp_Peers g).
Proof.
  intros Hall. revert acc. induction groups as [|gid groups IH]; intros acc Hs Ha; simpl.
  { split; [by left|]. intros [?|(? & ? & Habs & _)]; [done|]. by apply elem_of_nil in Habs. }
  assert (Hsplit : ∀ P : string → Group → Prop,
    (∃ gid' g, gid' ∈ gid :: groups ∧ P gid' g) ↔ (∃ g, P gid g) ∨ ∃ gid' g, gid' ∈ groups ∧ P gid' g).
  { intros P. setoid_rewrite elem_of_cons. split; [|set_solver]. intros (? & ? & [->|?] & ?); eauto 10. }
  rewrite Hsplit. destruct (groupMap !! gid) as [g|] eqn:E.
  - destruct (IsGroupAll g || single) eqn:Eg.
    + split; [eauto 10|]. intros [Hin|[(g' & [= <-] & ?)|(gid' & g' & Hin & E' & Hg')]]; [|done|].
      * destruct single; [by destruct Ha|]. rewrite orb_false_r in Eg. by eapply Hall.
      * destruct (IsGroupAll g) eqn:Ea; [by eapply Hall|]. simpl in Eg. subst single.
        destruct groups; [by apply elem_of_nil in Hin|]. by specialize (Hs eq_refl).
    + apply orb_false_iff in Eg as [Ea ->]. rewrite IH by done. set_solver.
  - destruct single.
    + destruct groups; [|by specialize (Hs eq_refl)]. simpl. set_solver.
    + rewrite IH by done. set_solver.
Qed.

(** The members of the groups, whatever the shortcuts of the loop. *)
Lemma unique_ids_spec groupMap seed groups id :
  in_all groupMap id →
  id ∈ unique_ids groupMap seed groups ↔
  ∃ gid g, gid ∈ groups ∧ groupMap !! gid = Some g ∧ id ∈ grp_Peers g.
Proof.
  intros Hall. unfold unique_ids.
  assert (id ∈ (∅ : gset string) ↔ False) as He by set_solver.
  pose proof (unique_scan_spec groupMap (length groups =? 1)%nat groups ∅ id Hall) as H.
  rewrite He in H. destruct (unique_scan _ _ _ _) as [l|s].
  - rewrite H; [tauto| |tauto]. intros E. by apply Nat.eqb_eq.
  - rewrite elem_of_range_set, H; [tauto| |tauto]. intros E. by apply Nat.eqb_eq.
Qed.
End Members.

(** ** The sides of a rule in the components *)

(** A peer is on a side: it belongs to it and passes the checks. *)
Definition on_side (c : NetworkMapComponents) (resource : Resource) (groups checks : list string)
    (id : string) : Prop :=
  ValidatePostureChecksOnPeer c id checks = true ∧ side_member (c_Groups c) resource groups id.

Section Sides.
Context {MO : MapOrder} (c : NetworkMapComponents).

Lemma Validate_known id checks :
  ValidatePostureChecksOnPeer c id checks = true → is_Some (c_Peers c !! id).
Proof. unfold ValidatePostureChecksOnPeer. case_match; [eauto|done]. Qed.

(** The peer of an identifier that is admitted and is not [T]. *)
Definition admitted_other (T : string) (checks : list string) (id : string) : option Peer :=
  if String.eqb id T then None
  else if ValidatePostureChecksOnPeer c id checks then c_Peers c !! id else None.

Lemma filterPolicyPeers_eq ids T checks :
  filterPolicyPeers c ids T checks =
  (omap (admitted_other T checks) ids,
   existsb (λ id, String.eqb id T && ValidatePostureChecksOnPeer c id checks) ids).
Proof.
  unfold filterPolicyPeers. induction ids as [|id ids IH] using rev_ind; [done|].
  rewrite foldl_snoc, IH, omap_app, existsb_app. clear IH.
  set (l := omap _ ids). set (b := existsb _ ids). clearbody l b. simpl. unfold admitted_other, GetPeerInfo.
  pose proof (Validate_known id checks) as Hk.
  destruct (c_Peers c !! id) as [q|], (ValidatePostureChecksOnPeer c id checks), (String.eqb id T); simpl;
    rewrite ?orb_true_r, ?orb_false_r, ?app_nil_r; try done; by destruct Hk.
Qed.

Lemma admitted_other_spec T checks id p :
  admitted_other T checks id = Some p ↔
  id ≠ T ∧ c_Peers c !! id = Some p ∧ ValidatePostureChecksOnPeer c id checks = true.
Proof.
  unfold admitted_other. destruct (String.eqb_spec id T); [naive_solver|].
  destruct (ValidatePostureChecksOnPeer c id checks); naive_solver.
Qed.

Lemma filterPolicyPeers_spec ids T checks :
  (∀ p, p ∈ (filterPolicyPeers c ids T checks).1 ↔
    ∃ id, id ∈ ids ∧ id ≠ T ∧ c_Peers c !! id = Some p ∧ ValidatePostureChecksOnPeer c id checks = true) ∧
  ((filterPolicyPeers c ids T checks).2 = true ↔ T ∈ ids ∧ ValidatePostureChecksOnPeer c T checks = true).
Proof.
  rewrite filterPolicyPeers_eq. simpl. split.
  - intros p. rewrite list_elem_of_omap. by setoid_rewrite admitted_other_spec.
  - rewrite existsb_exists. setoid_rewrite andb_true_iff. setoid_rewrite String.eqb_eq.
    setoid_rewrite <- list_elem_of_In. split; [by intros (? & ? & -> & ?)|]. intros [? ?]. by exists T.
Qed.

Context (Hall : ∀ id, is_Some (c_Peers c !! id) → in_all (c_Groups c) id).

Lemma side_peers_spec seed resource groups T checks :
  (∀ p, p ∈ (side_peers c seed resource groups T checks).1 ↔
    ∃ id, id ≠ T ∧ c_Peers c !! id = Some p ∧ on_side c resource groups checks id) ∧
  ((side_peers c seed resource groups T checks).2 = true ↔ on_side c resource groups checks T).
Proof.
  unfold side_peers, on_side, side_member, getPeerFromResource, getAllPeersFromGroups.
  destruct (names_peer resource).
  - destruct (filterPolicyPeers_spec [res_ID resource] T checks) as [H1 H2]. split.
    + intros p. rewrite H1. setoid_rewrite list_elem_of_singleton. naive_solver.
    + rewrite H2, list_elem_of_singleton. naive_solver.
  - unfold getUniquePeerIDsFromGroupsIDs.
    destruct (filterPolicyPeers_spec (unique_ids (c_Groups c) seed groups) T checks) as [H1 H2]. split.
    + intros p. rewrite H1. split; intros (id & H).
      * destruct H as (Hin & ? & E & ?). rewrite unique_ids_spec in Hin by (apply Hall; eauto). eauto 10.
      * destruct H as (? & E & ? & Hin). rewrite <- unique_ids_spec in Hin by (apply Hall; eauto). eauto 10.
    + rewrite H2. split; intros [Ha Hb].
      * rewrite unique_ids_spec in Ha; [done|]. apply Hall. by eapply Validate_known.
      * rewrite unique_ids_spec; [done|]. apply Hall. by eapply Validate_known.
Qed.
End Sides.

(** ** The calls of the generator

    [getPeerConnectionResources] generates rules for a sequence of triples of
    rule, direction and peer. *)
Notation call := (PolicyRule * Z * Peer)%type.

Section Gen.
Context {VL : VersionLib} (target : Peer).

Definition run_call (g : Gen) (x : call) : Gen := generate_peer target x.1.1 x.1.2 g x.2.

(** The target takes IPv6 rules for the peer. *)
Definition v6_peer (p : Peer) : bool :=
  IsValid (p_IPv6 p) && SupportsIPv6 target && IsValid (p_IPv6 target).

Definition call_ips (x : call) : list string :=
  addr_String (p_IP x.2) :: (if v6_peer x.2 then [addr_String (p_IPv6 x.2)] else []).

Definition call_key (x : call) (ip : string) : string := rule_key x.1.1 ip (rule_context x.1.1 x.1.2).

Definition ip_rules (x : call) (ip : string) : list FirewallRule :=
  expand_rule (base_rule x.1.1 ip (rule_context x.1.1 x.1.2)) x.1.1 target.

(** The rules a triple stands for: one set per address of the peer. *)
Definition call_rules (x : call) : list FirewallRule := call_ips x ≫= ip_rules x.

Lemma AppendIPv6_eq rules seen x :
  AppendIPv6FirewallRule (rules, seen) x.2 target x.1.1 (rule_context x.1.1 x.1.2) =
  if v6_peer x.2 then
    let ip := addr_String (p_IPv6 x.2) in
    if bool_decide (call_key x ip ∈ seen) then (rules, seen)
    else (rules ++ ip_rules x ip, {[call_key x ip]} ∪ seen)
  else (rules, seen).
Proof.
  unfold AppendIPv6FirewallRule, v6_peer.
  by destruct (IsValid (p_IPv6 x.2)), (SupportsIPv6 target), (IsValid (p_IPv6 target)).
Qed.

(** Rules and keys after a call. *)
Lemma run_call_rules g x :
  (g_rules (run_call g x), g_rulesExists (run_call g x)) =
  let ip := addr_String (p_IP x.2) in
  if bool_decide (call_key x ip ∈ g_rulesExists g) then (g_rules g, g_rulesExists g)
  else AppendIPv6FirewallRule (g_rules g ++ ip_rules x ip, {[call_key x ip]} ∪ g_rulesExists g)
         x.2 target x.1.1 (rule_context x.1.1 x.1.2).
Proof.
  unfold run_call, generate_peer, call_key, ip_rules. cbn zeta.
  destruct (bool_decide (p_ID x.2 ∈ _)); destruct (bool_decide (rule_key _ _ _ ∈ _)); try done;
    by destruct (AppendIPv6FirewallRule _ _ _ _ _).
Qed.

Lemma run_call_sound g x fr :
  fr ∈ g_rules (run_call g x) → fr ∈ g_rules g ∨ fr ∈ call_rules x.
Proof.
  pose proof (run_call_rules g x) as E. cbn zeta in E. rewrite AppendIPv6_eq in E.
  cbn zeta in E. unfold call_rules, call_ips. rewrite bind_cons, elem_of_app.
  destruct (bool_decide _); [injection E as -> _; by left|].
  destruct (v6_peer x.2); [destruct (bool_decide _)|]; injection E as -> _; rewrite ?elem_of_app;
    cbn [mbind list_bind]; rewrite ?app_nil_r; tauto.
Qed.

Lemma calls_sound calls g fr :
  fr ∈ g_rules (foldl run_call g calls) → fr ∈ g_rules g ∨ ∃ x, x ∈ calls ∧ fr ∈ call_rules x.
Proof.
  induction calls as [|x calls IH] using rev_ind; simpl; [by left|].
  rewrite foldl_snoc. intros [[?|(y & ? & ?)]%IH|?]%run_call_sound; [by left| |].
  - right. exists y. split; [apply elem_of_app; by left|done].
  - right. exists x. split; [apply elem_of_app; right; by left|done].
Qed.

(** Keys come from calls, and the rules of the calls made are there. *)
Definition gen_inv (done : list call) (g : Gen) : Prop :=
  (∀ k, k ∈ g_rulesExists g → ∃ x ip, x ∈ done ∧ ip ∈ call_ips x ∧ k = call_key x ip) ∧
  (∀ x, x ∈ done → ∀ fr, fr ∈ call_rules x → fr ∈ g_rules g).

(** Different calls have different keys. *)
Definition keys_unique (calls : list call) : Prop :=
  (∀ x y ip ip', x ∈ calls → y ∈ calls → ip ∈ call_ips x → ip' ∈ call_ips y →
    call_key x ip = call_key y ip' → x = y ∧ ip = ip').

Lemma run_call_mono g x fr : fr ∈ g_rules g → fr ∈ g_rules (run_call g x).
Proof.
  pose proof (run_call_rules g x) as E. cbn zeta in E. rewrite AppendIPv6_eq in E. cbn zeta in E.
  repeat case_match; injection E as -> _; rewrite ?elem_of_app; tauto.
Qed.

(** After a call its rules are there, unless one of its keys was. *)
Lemma run_call_adds g x fr :
  NoDup (call_key x <$> call_ips x) → (∀ ip, ip ∈ call_ips x → call_key x ip ∉ g_rulesExists g) →
  fr ∈ call_rules x → fr ∈ g_rules (run_call g x).
Proof.
  pose proof (run_call_rules g x) as E. cbn zeta in E. rewrite AppendIPv6_eq in E. cbn zeta in E.
  unfold call_rules, call_ips. intros Hnd Hk. rewrite bool_decide_false in E by (apply Hk; left).
  rewrite bind_cons, elem_of_app. destruct (v6_peer x.2).
  - rewrite bool_decide_false in E.
    + injection E as -> _. cbn [mbind list_bind]. rewrite app_nil_r, !elem_of_app. tauto.
    + apply NoDup_cons in Hnd as [Hnd _]. specialize (Hk (addr_String (p_IPv6 x.2))). set_solver.
  - injection E as -> _. cbn [mbind list_bind]. rewrite !elem_of_app, elem_of_nil. tauto.
Qed.

Lemma run_call_keys g x k :
  k ∈ g_rulesExists (run_call g x) → k ∈ g_rulesExists g ∨ ∃ ip, ip ∈ call_ips x ∧ k = call_key x ip.
Proof.
  pose proof (run_call_rules g x) as E. cbn zeta in E. rewrite AppendIPv6_eq in E. cbn zeta in E. unfold call_ips.
  repeat case_match; injection E as _ ->; rewrite ?elem_of_union, ?elem_of_singleton; set_solver.
Qed.

Lemma run_call_complete calls done g x :
  keys_unique calls → (∀ y, y ∈ done → y ∈ calls) → x ∈ calls → NoDup (call_ips x) →
  gen_inv done g → gen_inv (done ++ [x]) (run_call g x).
Proof.
  intros Hu Hd Hx Hnd [I1 I2]. split.
  { intros k [(y & ip & ? & ? & ?)%I1|(ip & ? & ?)]%run_call_keys; [exists y, ip|exists x, ip]; set_solver. }
  intros y [Hy| ->%list_elem_of_singleton]%elem_of_app fr Hfr; [by eapply run_call_mono, I2|].
  destruct (decide (x ∈ done)) as [?|Hnew]; [by eapply run_call_mono, I2|].
  apply run_call_adds; [|intros ip Hip Hin|done].
  - apply NoDup_fmap_2_strong; [|done]. intros ip ip' Hip Hip' E. by destruct (Hu x x ip ip').
  - destruct Hnew. apply I1 in Hin as (z & ip' & Hz & Hip' & E). destruct (Hu x z ip ip') as [-> _]; auto.
Qed.

(** Every call leaves its rules behind. *)
Lemma calls_complete calls :
  keys_unique calls → (∀ x, x ∈ calls → NoDup (call_ips x)) →
  ∀ x fr, x ∈ calls → fr ∈ call_rules x → fr ∈ g_rules (foldl run_call noGen calls).
Proof.
  intros Hu Hnd. assert (Hgen : ∀ rest done g, calls = done ++ rest → gen_inv done g →
    gen_inv calls (foldl run_call g rest)).
  { induction rest as [|x rest IH]; intros done g E Hinv; simpl.
    - rewrite app_nil_r in E. by subst.
    - apply (IH (done ++ [x])); [by rewrite <- app_assoc|].
      apply (run_call_complete calls); [done|set_solver..|apply Hnd; set_solver|done]. }
  destruct (Hgen calls [] noGen) as [_ H]; [done|split; set_solver|]. eauto.
Qed.

(** ** The peers *)

Lemma run_call_peers g x :
  (g_peers (run_call g x), g_peersExists (run_call g x)) =
  if bool_decide (p_ID x.2 ∈ g_peersExists g) then (g_peers g, g_peersExists g)
  else (g_peers g ++ [x.2], {[p_ID x.2]} ∪ g_peersExists g).
Proof.
  unfold run_call, generate_peer. cbn zeta.
  destruct (bool_decide (p_ID x.2 ∈ _)); destruct (bool_decide (rule_key _ _ _ ∈ _)); try done;
    by destruct (AppendIPv6FirewallRule _ _ _ _ _).
Qed.

(** The peers of the calls, each identifier once. *)
Lemma calls_peers calls :
  let g := foldl run_call noGen calls in
  NoDup (p_ID <$> g_peers g) ∧ (∀ p, p ∈ g_peers g → ∃ x, x ∈ calls ∧ x.2 = p) ∧
  (∀ x, x ∈ calls → p_ID x.2 ∈ p_ID <$> g_peers g) ∧
  (∀ id, id ∈ g_peersExists g ↔ id ∈ p_ID <$> g_peers g).
Proof.
  induction calls as [|x calls IH] using rev_ind; simpl in *.
  { split_and!; [constructor|set_solver..]. }
  rewrite foldl_snoc. destruct IH as (IH1 & IH2 & IH3 & IH4). set (g := foldl run_call noGen calls) in *.
  pose proof (run_call_peers g x) as E. case_bool_decide as Hin; injection E as E1 E2; rewrite E1, E2.
  - split_and!; [done|set_solver| |done]. intros y [?| ->%list_elem_of_singleton]%elem_of_app; [auto|by apply IH4].
  - rewrite fmap_app. split_and!.
    + apply NoDup_app. split_and!; [done| |apply NoDup_singleton].
      intros id Hid ->%list_elem_of_singleton. by apply Hin, IH4.
    + intros p [(y & ? & ?)%IH2| ->%list_elem_of_singleton]%elem_of_app; [exists y|exists x]; set_solver.
    + intros y [?| ->%list_elem_of_singleton]%elem_of_app; set_solver.
    + intros id. rewrite elem_of_union, elem_of_app, IH4. set_solver.
Qed.
End Gen.

(** ** From policies to calls *)

(** An enabled rule of an enabled policy. *)
Definition active (policies : list (option Policy)) (policy : Policy) (rule : PolicyRule) : Prop :=
  Some policy ∈ policies ∧ policy_Enabled policy = true ∧ Some rule ∈ policy_Rules policy ∧ pol_Enabled rule = true.

(** The two sides of a rule in the components. *)
Definition sources_of (c : NetworkMapComponents) (policy : Policy) (rule : PolicyRule) : string → Prop :=
  on_side c (pol_SourceResource rule) (pol_Sources rule) (policy_SourcePostureChecks policy).

Definition destinations_of (c : NetworkMapComponents) (rule : PolicyRule) : string → Prop :=
  on_side c (pol_DestinationResource rule) (pol_Destinations rule) [].

(** The printed addresses a peer can appear with. *)
Definition peer_addrs (p : Peer) : list string :=
  addr_String (p_IP p) :: (if IsValid (p_IPv6 p) then [addr_String (p_IPv6 p)] else []).

(** Peers are filed under their identifier and no two share an address; the
    identifier of an active rule with the address of a peer starts no other such
    text; a group "All" has every peer. *)
Record comp_wf (c : NetworkMapComponents) : Prop := {
  cw_ids : ∀ id p, c_Peers c !! id = Some p → p_ID p = id;
  cw_all : ∀ id, is_Some (c_Peers c !! id) → in_all (c_Groups c) id;
  cw_rules : ∀ p1 r1 p2 r2 id1 q1 id2 q2 a1 a2, active (c_Policies c) p1 r1 → active (c_Policies c) p2 r2 →
    c_Peers c !! id1 = Some q1 → c_Peers c !! id2 = Some q2 → a1 ∈ peer_addrs q1 → a2 ∈ peer_addrs q2 →
    String.prefix (pol_ID r1 +:+ a1) (pol_ID r2 +:+ a2) = true → r1 = r2;
  cw_addrs : ∀ id1 p1 id2 p2 a, c_Peers c !! id1 = Some p1 → c_Peers c !! id2 = Some p2 →
    a ∈ peer_addrs p1 → a ∈ peer_addrs p2 → id1 = id2;
  cw_addr : ∀ id p, c_Peers c !! id = Some p → NoDup (peer_addrs p);
}.

Section Exact.
Context {MO : MapOrder} {VL : VersionLib} (pick : string → nat) (c : NetworkMapComponents).

Definition rule_calls (T : string) (policy : Policy) (rule : PolicyRule) : list call :=
  let src := rule_sources pick c policy rule T in
  let dst := rule_destinations pick c rule T in
  let toward d := λ p : Peer, (rule, d, p) in
  (if pol_Bidirectional rule && src.2 then toward FirewallRuleDirectionIN <$> dst.1 else []) ++
  (if pol_Bidirectional rule && dst.2 then toward FirewallRuleDirectionOUT <$> src.1 else []) ++
  (if src.2 then toward FirewallRuleDirectionOUT <$> dst.1 else []) ++
  (if dst.2 then toward FirewallRuleDirectionIN <$> src.1 else []).

Definition opt_rule_calls (T : string) (policy : Policy) (rule : option PolicyRule) : list call :=
  match rule with
  | Some rule => if pol_Enabled rule then rule_calls T policy rule else []
  | None => []
  end.

Definition policy_calls (T : string) (policy : option Policy) : list call :=
  match policy with
  | Some p => if policy_Enabled p then policy_Rules p ≫= opt_rule_calls T p else []
  | None => []
  end.

Lemma generateResources_calls target rule peers d g :
  generateResources target rule peers d g = foldl (run_call target) g ((λ p, (rule, d, p)) <$> peers).
Proof. unfold generateResources. revert g. induction peers as [|p peers IH]; intros g; simpl; [done|]. apply IH. Qed.

Lemma rule_resources_calls target T policy rule g :
  rule_resources target rule (rule_sources pick c policy rule T) (rule_destinations pick c rule T) g =
  foldl (run_call target) g (rule_calls T policy rule).
Proof.
  unfold rule_resources, rule_calls. destruct (rule_sources _ _ _ _ _) as [src insrc], (rule_destinations _ _ _ _) as [dst indst].
  rewrite !foldl_app. unfold when. simpl.
  destruct (pol_Bidirectional rule), insrc, indst; simpl; by rewrite ?generateResources_calls.
Qed.

Lemma foldl_flat {A B C} (f : B → A → B) (h : B → C → B) (k : A → list C) l b :
  (∀ b x, f b x = foldl h b (k x)) → foldl f b l = foldl h b (l ≫= k).
Proof.
  intros Hf. revert b. induction l as [|x l IH]; intros b; simpl; [done|]. by rewrite foldl_app, Hf, IH.
Qed.

Lemma connection_rule_calls T target policy acc rule :
  (connection_rule pick c T target policy acc rule).1 = foldl (run_call target) acc.1 (opt_rule_calls T policy rule).
Proof.
  destruct rule as [rule|]; [|done]. simpl. destruct (pol_Enabled rule); [|done]. destruct acc as [g ssh]. simpl.
  apply rule_resources_calls.
Qed.

Lemma connection_policy_calls T target acc policy :
  (connection_policy pick c T target acc policy).1 = foldl (run_call target) acc.1 (policy_calls T policy).
Proof.
  destruct policy as [p|]; [|done]. simpl. destruct (policy_Enabled p); [|done]. simpl.
  revert acc. induction (policy_Rules p) as [|r rs IH]; intros acc; simpl; [done|].
  by rewrite IH, foldl_app, connection_rule_calls.
Qed.

Lemma connection_calls T target policies acc :
  (foldl (connection_policy pick c T target) acc policies).1 = foldl (run_call target) acc.1 (policies ≫= policy_calls T).
Proof.
  revert acc. induction policies as [|p ps IH]; intros acc; simpl; [done|].
  by rewrite IH, foldl_app, connection_policy_calls.
Qed.

Definition all_calls (T : string) : list call := c_Policies c ≫= policy_calls T.

Lemma getPeerConnectionResources_calls T target :
  c_Peers c !! T = Some target →
  let g := foldl (run_call target) noGen (all_calls T) in
  (getPeerConnectionResources pick c T).1.1 = (g_peers g, g_rules g).
Proof.
  intros E. unfold getPeerConnectionResources, GetPeerInfo. rewrite E.
  pose proof (connection_calls T target (c_Policies c) (noGen, (∅, false))) as Hc. simpl in Hc. fold (all_calls T) in Hc.
  destruct (foldl (connection_policy _ _ _ _) _ _) as [g [a b]]. simpl in *. by subst.
Qed.

Context (W : comp_wf c).

Lemma in_rule_calls T policy rule x :
  x ∈ rule_calls T policy rule ↔
  x.1.1 = rule ∧ ∃ id, c_Peers c !! id = Some x.2 ∧
    links (sources_of c policy rule) (destinations_of c rule) (pol_Bidirectional rule) T x.1.2 id.
Proof.
  unfold rule_calls, rule_sources, rule_destinations, links, sources_of, destinations_of.
  destruct (side_peers_spec c (cw_all c W) (pick (pol_ID rule +:+ "/sources")) (pol_SourceResource rule)
    (pol_Sources rule) T (policy_SourcePostureChecks policy)) as [S1 S2].
  destruct (side_peers_spec c (cw_all c W) (pick (pol_ID rule +:+ "/destinations"))
    (pol_DestinationResource rule) (pol_Destinations rule) T []) as [D1 D2].
  set (src := side_peers c _ (pol_SourceResource rule) _ _ _) in *.
  set (dst := side_peers c _ (pol_DestinationResource rule) _ _ _) in *.
  set (S := on_side c (pol_SourceResource rule) _ _) in *. set (D := on_side c (pol_DestinationResource rule) _ _) in *.
  clearbody src dst S D. clear W.
  assert (Hp : ∀ b d l, x ∈ (if b : bool then (λ p : Peer, (rule, d, p)) <$> l else []) ↔
                        b = true ∧ x.1.1 = rule ∧ x.1.2 = d ∧ x.2 ∈ l).
  { intros b d l. destruct b; [|set_solver]. rewrite list_elem_of_fmap. destruct x as [[r d'] p]. naive_solver. }
  rewrite !elem_of_app, !Hp, !andb_true_iff. clear Hp. split.
  - intros [H|[H|[H|H]]]; destruct H as (Hb & -> & Hd & Hin); (split; [done|]);
      [apply D1 in Hin|apply S1 in Hin|apply D1 in Hin|apply S1 in Hin];
      destruct Hin as (id & Hne & E & Hon); exists id; tauto.
  - intros (Hr & id & E & Hne & H).
    assert (S id → x.2 ∈ src.1) as Hs by (intros; apply S1; eauto).
    assert (D id → x.2 ∈ dst.1) as Hd by (intros; apply D1; eauto). tauto.
Qed.

Lemma in_all_calls T x :
  x ∈ all_calls T ↔ ∃ policy id, active (c_Policies c) policy x.1.1 ∧ c_Peers c !! id = Some x.2 ∧
    links (sources_of c policy x.1.1) (destinations_of c x.1.1) (pol_Bidirectional x.1.1) T x.1.2 id.
Proof.
  unfold all_calls, active. rewrite list_elem_of_bind. split.
  - intros ([p|] & Hx & Hp); simpl in Hx; [|by apply elem_of_nil in Hx].
    destruct (policy_Enabled p) eqn:Ep; [|by apply elem_of_nil in Hx].
    apply list_elem_of_bind in Hx as ([r|] & Hx & Hr); simpl in Hx; [|by apply elem_of_nil in Hx].
    destruct (pol_Enabled r) eqn:Er; [|by apply elem_of_nil in Hx].
    apply in_rule_calls in Hx as (<- & id & ? & ?). eauto 10.
  - intros (p & id & (Hp & Ep & Hr & Er) & E & Hl). exists (Some p). split; [|done]. simpl. rewrite Ep.
    apply list_elem_of_bind. exists (Some x.1.1). split; [|done]. simpl. rewrite Er.
    apply in_rule_calls. eauto.
Qed.

Lemma links_direction S D b T d id :
  links S D b T d id → d = FirewallRuleDirectionIN ∨ d = FirewallRuleDirectionOUT.
Proof. intros [_ [[? _]|[? _]]]; auto. Qed.

Lemma call_ips_addrs target x ip : ip ∈ call_ips target x → ip ∈ peer_addrs x.2.
Proof.
  unfold call_ips, peer_addrs, v6_peer. destruct (IsValid (p_IPv6 x.2)); [|done].
  destruct (SupportsIPv6 target && IsValid (p_IPv6 target)) eqn:E; simpl; rewrite E; set_solver.
Qed.

(** Keys tell calls apart. *)
Lemma all_calls_keys T target : keys_unique target (all_calls T).
Proof.
  intros [[r1 d1] q1] [[r2 d2] q2] ip ip' (p1 & id1 & A1 & E1 & L1)%in_all_calls (p2 & id2 & A2 & E2 & L2)%in_all_calls
    Hi1%call_ips_addrs Hi2%call_ips_addrs Ek. simpl in *.
  unfold call_key, rule_key in Ek. simpl in Ek.
  assert (r1 = r2) as <-.
  { rewrite <- (string_app_assoc (pol_ID r1)), <- (string_app_assoc (pol_ID r2)) in Ek.
    destruct (prefix_total _ _ _ _ Ek) as [Hp|Hp]; [|symmetry].
    - exact (cw_rules c W _ _ _ _ _ _ _ _ _ _ A1 A2 E1 E2 Hi1 Hi2 Hp).
    - exact (cw_rules c W _ _ _ _ _ _ _ _ _ _ A2 A1 E2 E1 Hi2 Hi1 Hp). }
  apply (inj (String.append _)) in Ek. rewrite <- !(string_app_assoc ip), <- !(string_app_assoc ip') in Ek.
  assert (ip +:+ dec d1 = ip' +:+ dec d2) as Ek'.
  { rewrite <- !string_app_assoc in Ek. rewrite !string_app_assoc in Ek.
    rewrite <- !(string_app_assoc ip), <- !(string_app_assoc ip') in Ek. by eapply string_app_inj_r. }
  apply links_direction in L1. apply links_direction in L2.
  assert (ip = ip' ∧ d1 = d2) as [<- <-].
  { destruct L1 as [-> | ->], L2 as [-> | ->]; apply snoc_inj in Ek' as [? ?]; done. }
  assert (id1 = id2) as <- by (by eapply (cw_addrs c W)). split; congruence.
Qed.

Lemma all_calls_ips T target x : x ∈ all_calls T → NoDup (call_ips target x).
Proof.
  intros (p & id & A & E & L)%in_all_calls. apply (cw_addr c W) in E. revert E.
  unfold call_ips, peer_addrs, v6_peer. destruct (IsValid (p_IPv6 x.2)); [|done].
  destruct (SupportsIPv6 target && IsValid (p_IPv6 target)) eqn:Et; simpl; rewrite Et; [done|].
  intros _. apply NoDup_singleton.
Qed.

(** The firewall rules are exactly those the active rules ask for. *)
Lemma component_rules T target fr :
  c_Peers c !! T = Some target →
  fr ∈ (getPeerConnectionResources pick c T).1.1.2 ↔
  ∃ policy rule d id p, active (c_Policies c) policy rule ∧ c_Peers c !! id = Some p ∧
    links (sources_of c policy rule) (destinations_of c rule) (pol_Bidirectional rule) T d id ∧
    fr ∈ call_rules target (rule, d, p).
Proof.
  intros E. rewrite (getPeerConnectionResources_calls T target E). simpl. split.
  - intros [Habs|(x & Hx & Hfr)]%calls_sound; [by apply elem_of_nil in Habs|].
    apply in_all_calls in Hx as (policy & id & ? & ? & ?). destruct x as [[r d] p]. exists policy, r, d, id, p. auto.
  - intros (policy & rule & d & id & p & ? & ? & ? & Hfr).
    apply (calls_complete target (all_calls T)) with (x := (rule, d, p)); [apply all_calls_keys| |apply in_all_calls|done].
    + intros x. apply all_calls_ips.
    + eauto.
Qed.

(** The peers are exactly those an active rule connects, each once. *)
Lemma component_peers T target :
  c_Peers c !! T = Some target →
  let peers := (getPeerConnectionResources pick c T).1.1.1 in
  NoDup (p_ID <$> peers) ∧
  ∀ p, p ∈ peers ↔ ∃ policy rule d id, active (c_Policies c) policy rule ∧ c_Peers c !! id = Some p ∧
    links (sources_of c policy rule) (destinations_of c rule) (pol_Bidirectional rule) T d id.
Proof.
  intros E. rewrite (getPeerConnectionResources_calls T target E). simpl.
  destruct (calls_peers target (all_calls T)) as (Hnd & Hs & Hc & _). split; [done|]. intros p. split.
  - intros (x & Hx & <-)%Hs. apply in_all_calls in Hx as (policy & id & ? & ? & ?). eauto 10.
  - intros (policy & rule & d & id & A & Ep & L).
    assert ((rule, d, p) ∈ all_calls T) as Hin by (apply in_all_calls; eauto).
    apply Hc, list_elem_of_fmap in Hin as (q & Eq & Hq). simpl in Eq.
    destruct (Hs q Hq) as (y & (p' & id' & ? & E' & ?)%in_all_calls & <-).
    apply (cw_ids c W) in E' as Ei. apply (cw_ids c W) in Ep as Ei'. congruence.
Qed.
End Exact.
