(* ===== verification/NetMapSelect.v ===== *)
(** * What the components of a peer select

    The selection of [networkmapcompute.go], read against the whole account:
    posture results and their cache, the two sides of a rule, and the growth
    of the selected peers, groups and recorded failures. *)
From S2P Require Import Prelude NetIP Bytes NetParse Order AclManager NmData FwGen NetMap NetMapBuild NetMapFacts.
Open Scope Z_scope.

(** ** Keys copied between maps *)

Section Keys.
Context {A : Type} (source : gmap string A).
Implicit Types m : gmap string A.

Lemma copy_keys_spec keys m k v :
  m ⊆ source →
  copy_keys source keys m !! k = Some v ↔ m !! k = Some v ∨ k ∈ keys ∧ source !! k = Some v.
Proof.
  unfold copy_keys. revert m. induction keys as [|k0 keys IH]; intros m Hm; simpl; [set_solver|].
  rewrite elem_of_cons. destruct (source !! k0) as [v0|] eqn:E0.
  - rewrite IH by (by apply insert_subseteq_l). rewrite lookup_insert_Some. split.
    + intros [[[-> ->]|[? ?]]|[? ?]]; auto.
    + intros [Hk|[[->|Hk] Hv]]; auto.
      * left. destruct (decide (k0 = k)) as [->|]; [|auto]. left.
        eapply lookup_weaken in Hk; [|done]. split; congruence.
      * left. left. split; congruence.
  - rewrite IH by done. split; [naive_solver|]. intros [?|[[->|?] ?]]; auto. congruence.
Qed.

Lemma copy_keys_sub keys m : m ⊆ source → copy_keys source keys m ⊆ source.
Proof.
  intros Hm. apply map_subseteq_spec. intros k v [Hk|[_ Hk]]%copy_keys_spec; [|done|done].
  by eapply lookup_weaken.
Qed.

Lemma copy_keys_mono keys m : m ⊆ source → m ⊆ copy_keys source keys m.
Proof. intros Hm. apply map_subseteq_spec. intros k v Hk. apply copy_keys_spec; auto. Qed.

Lemma fill_keys_copy keys m : m ⊆ source → fill_keys source keys m = copy_keys source keys m.
Proof.
  unfold fill_keys, copy_keys. revert m. induction keys as [|k keys IH]; intros m Hm; simpl; [done|].
  destruct (m !! k) as [v|] eqn:E.
  - pose proof (lookup_weaken _ _ _ _ E Hm) as E'. rewrite E'. rewrite insert_id by done. by apply IH.
  - destruct (source !! k) as [v|] eqn:E'; [|by apply IH]. apply IH. by apply insert_subseteq_l.
Qed.
End Keys.

(** ** Recorded failures *)

Notation Failed := (gmap string (gset string)).

(** The record has the peer under the check. *)
Definition fails (failed : Failed) (check id : string) : Prop :=
  ∃ ids, failed !! check = Some ids ∧ id ∈ ids.

Lemma fails_record failed check pid check' id :
  fails (record_failure check pid failed) check' id ↔ fails failed check' id ∨ check' = check ∧ id = pid.
Proof.
  unfold fails, record_failure. setoid_rewrite lookup_insert_Some. split.
  - intros (ids & [[<- <-]|[Hne E]] & Hin); [|eauto]. apply elem_of_union in Hin as [Hin|Hin]; [set_solver|].
    destruct (failed !! check) as [s|] eqn:E; simpl in Hin; [|set_solver]. eauto.
  - intros [(ids & E & Hin)|[-> ->]].
    + destruct (decide (check = check')) as [->|Hne]; [|eauto 10]. eexists. split; [by left|]. rewrite E. set_solver.
    + eexists. split; [by left|]. set_solver.
Qed.

Lemma Validate_fails c id checks :
  ValidatePostureChecksOnPeer c id checks = true ↔
  is_Some (c_Peers c !! id) ∧ ∀ check, check ∈ checks → ¬ fails (c_PostureFailedPeers c) check id.
Proof.
  unfold ValidatePostureChecksOnPeer, fails. destruct (c_Peers c !! id); [|split; [done|by intros [[? ?] _]]].
  rewrite forallb_forall. setoid_rewrite <- list_elem_of_In. split.
  - intros H. split; [eauto|]. intros check Hc (ids & E & Hin). specialize (H check Hc). rewrite E in H.
    rewrite bool_decide_true in H; done.
  - intros [_ H] check Hc. destruct (c_PostureFailedPeers c !! check) as [ids|] eqn:E; [|done].
    apply negb_true_iff, bool_decide_eq_false. intros Hin. by eapply H; eauto.
Qed.

Section Select.
Context {MO : MapOrder} {VL : VersionLib} (nmd : NetworkMapData).

(** ** The account, read directly *)

(** The peer passes the posture check, if there is such a check. *)
Definition posture_ok (peer : Peer) (check : string) : bool :=
  match d_PostureChecks nmd !! check with Some d => Passes d peer | None => true end.

(** Known, validated, and passing every check. *)
Definition admits (checks : list string) (id : string) : Prop :=
  ∃ peer, d_Peers nmd !! id = Some peer ∧ id ∈ d_ValidatedPeers nmd ∧
    ∀ check, check ∈ checks → posture_ok peer check = true.

(** The cache holds the results of the checks. *)
Definition cache_ok : Prop :=
  ∀ check id peer v, d_Peers nmd !! id = Some peer →
    cachedPostureCheckResult nmd check id = Some v → v = posture_ok peer check.

(** A check the peer really fails. *)
Definition real_failure (check id : string) : Prop :=
  ∃ peer, d_Peers nmd !! id = Some peer ∧ posture_ok peer check = false.

Definition failed_grows (failed failed' : Failed) : Prop :=
  (∀ check id, fails failed check id → fails failed' check id) ∧
  (∀ check id, fails failed' check id → fails failed check id ∨ real_failure check id).

Lemma failed_grows_refl failed : failed_grows failed failed.
Proof. split; auto. Qed.

Lemma failed_grows_trans f1 f2 f3 : failed_grows f1 f2 → failed_grows f2 f3 → failed_grows f1 f3.
Proof. intros [A1 A2] [B1 B2]. split; [auto|]. intros check id H. destruct (B2 _ _ H); auto. Qed.

Lemma failed_grows_record failed check id :
  real_failure check id → failed_grows failed (record_failure check id failed).
Proof.
  intros H. split; intros check' id'; rewrite fails_record; [auto|]. intros [?|[-> ->]]; auto.
Qed.

Context (Hcache : cache_ok) (Hempty : d_PostureChecks nmd !! "" = None).

Lemma verdict_ok id peer check :
  d_Peers nmd !! id = Some peer → posture_verdict nmd peer id check = posture_ok peer check.
Proof.
  intros E. unfold posture_verdict. destruct (cachedPostureCheckResult nmd check id) as [v|] eqn:Ec; [|done].
  by eapply Hcache.
Qed.

(** The first failed check, which is never the empty identifier. *)
Lemma validate_spec checks id peer :
  d_Peers nmd !! id = Some peer →
  match validatePostureChecksOnPeerGetFailed nmd checks id with
  | (true, _) => ∀ check, check ∈ checks → posture_ok peer check = true
  | (false, check) => check ∈ checks ∧ posture_ok peer check = false ∧ check ≠ ""
  end.
Proof.
  intros E. unfold validatePostureChecksOnPeerGetFailed. rewrite E.
  destruct (list_find _ checks) as [[i check]|] eqn:Ef.
  - apply list_find_Some in Ef as (Hi & Hv & _). rewrite (verdict_ok id) in Hv by done.
    split_and!; [by eapply list_elem_of_lookup_2|done|]. intros ->. unfold posture_ok in Hv. by rewrite Hempty in Hv.
  - intros check Hc. apply list_find_None in Ef. rewrite Forall_forall in Ef. specialize (Ef check Hc).
    rewrite (verdict_ok id) in Ef by done. by destruct (posture_ok peer check).
Qed.

(** Admission to a side, and what it records. *)
Lemma admit_spec pid checks failed :
  let r := admitPolicyPeer nmd pid checks failed in
  (r.1 = true ↔ admits checks pid) ∧ failed_grows failed r.2 ∧
  (pid ∈ d_ValidatedPeers nmd → is_Some (d_Peers nmd !! pid) → r.1 = false →
     ∃ check, check ∈ checks ∧ fails r.2 check pid).
Proof.
  unfold admitPolicyPeer, admits. destruct (d_Peers nmd !! pid) as [peer|] eqn:E; simpl.
  2:{ split_and!; [naive_solver|apply failed_grows_refl|by intros _ [? ?]]. }
  case_bool_decide as Hv; simpl.
  2:{ split_and!; [naive_solver|apply failed_grows_refl|done]. }
  pose proof (validate_spec checks pid peer E) as H.
  destruct (validatePostureChecksOnPeerGetFailed nmd checks pid) as [[|] check].
  - simpl. split_and!; [naive_solver|apply failed_grows_refl|done].
  - destruct H as (Hc & Hf & Hne). apply String.eqb_neq in Hne. rewrite Hne. simpl. split_and!.
    + split; [done|]. intros (q & [= <-] & _ & Hall). specialize (Hall check Hc). congruence.
    + apply failed_grows_record. unfold real_failure. eauto.
    + intros _ _ _. exists check. split; [done|]. apply fails_record. auto.
Qed.

(** ** A side of a rule *)

Notation Acc := (list string * bool * Failed)%type.

(** The state after the identifiers in [P] have been considered for [T]. *)
Record side_spec (T : string) (checks : list string) (failed0 : Failed) (P : gset string) (acc : Acc) : Prop := {
  sp_ids : ∀ id, id ∈ acc.1.1 ↔ id ∈ P ∧ id ≠ T ∧ admits checks id;
  sp_in : acc.1.2 = true ↔ T ∈ P ∧ admits checks T;
  sp_grows : failed_grows failed0 acc.2;
  sp_failed : ∀ id, id ∈ P → id ∈ d_ValidatedPeers nmd → is_Some (d_Peers nmd !! id) → ¬ admits checks id →
    ∃ check, check ∈ checks ∧ fails acc.2 check id;
}.

Lemma admit_step_spec T checks failed0 P acc pid :
  side_spec T checks failed0 P acc → side_spec T checks failed0 ({[pid]} ∪ P) (admit_step nmd T checks acc pid).
Proof.
  intros [S1 S2 S3 S4]. destruct acc as [[ids inT] failed]. unfold admit_step. simpl in *.
  pose proof (admit_spec pid checks failed) as (A1 & A2 & A3).
  destruct (admitPolicyPeer nmd pid checks failed) as [ok failed'] eqn:Ea. simpl in *.
  assert (Hf : ∀ id, id ∈ {[pid]} ∪ P → id ∈ d_ValidatedPeers nmd → is_Some (d_Peers nmd !! id) →
            ¬ admits checks id → ∃ check, check ∈ checks ∧ fails failed' check id).
  { intros id Hid Hv Hk Hn. apply elem_of_union in Hid as [->%elem_of_singleton|Hid].
    - apply A3; [done|done|]. destruct ok; [|done]. destruct Hn. by apply A1.
    - destruct (S4 id Hid Hv Hk Hn) as (ch & ? & ?). exists ch. split; [done|]. by apply A2. }
  assert (Hg : failed_grows failed0 failed') by (by eapply failed_grows_trans).
  destruct ok; simpl.
  - assert (admits checks pid) as Hadm by (by apply A1). destruct (String.eqb_spec pid T) as [->|Hne]; split; simpl; auto.
    + intros id. rewrite S1. set_solver.
    + split; [|done]. intros _. set_solver.
    + intros id. rewrite elem_of_app, S1, list_elem_of_singleton, elem_of_union, elem_of_singleton.
      split; [|tauto]. intros [?| ->]; tauto.
    + rewrite S2. set_solver.
  - assert (¬ admits checks pid) as Hadm by (intros ?%A1; done). split; simpl; auto.
    + intros id. rewrite S1, elem_of_union, elem_of_singleton. split; [tauto|]. intros ([->|?] & ? & ?); [done|auto].
    + rewrite S2, elem_of_union, elem_of_singleton. split; [tauto|]. intros ([->|?] & ?); [done|auto].
Qed.

Lemma admit_fold_spec T checks failed0 P acc l :
  side_spec T checks failed0 P acc →
  side_spec T checks failed0 (list_to_set l ∪ P) (foldl (admit_step nmd T checks) acc l).
Proof.
  revert P acc. induction l as [|pid l IH]; intros P acc H; simpl.
  { by replace (∅ ∪ P) with P by set_solver. }
  replace ({[pid]} ∪ list_to_set l ∪ P) with (list_to_set l ∪ ({[pid]} ∪ P)) by set_solver.
  apply IH. by apply admit_step_spec.
Qed.

(** The same with the peers of [P] skipped. *)
Lemma seen_fold_spec T checks failed0 P acc l :
  side_spec T checks failed0 P acc →
  let r := foldl (λ sa pid, if bool_decide (pid ∈ sa.1) then sa
                            else ({[pid]} ∪ sa.1, admit_step nmd T checks sa.2 pid)) (P, acc) l in
  r.1 = list_to_set l ∪ P ∧ side_spec T checks failed0 r.1 r.2.
Proof.
  revert P acc. induction l as [|pid l IH]; intros P acc H; simpl.
  { split; [set_solver|done]. }
  case_bool_decide as Hp.
  - destruct (IH P acc H) as [E Hs]. split; [|done]. rewrite E. set_solver.
  - destruct (IH _ _ (admit_step_spec _ _ _ _ _ pid H)) as [E Hs]. split; [|done]. rewrite E. set_solver.
Qed.

Lemma side_spec_reset T checks failed0 P acc :
  side_spec T checks failed0 P acc → side_spec T checks failed0 ∅ ([], false, acc.2).
Proof. intros [_ _ S3 _]. split; simpl; [set_solver..|done|set_solver]. Qed.

Lemma from_groups_spec T checks failed0 single groups seen acc :
  side_spec T checks failed0 seen acc → (single = true → (length groups <= 1)%nat ∧ seen = ∅) →
  ∃ P, side_spec T checks failed0 P (from_groups nmd single T checks groups seen acc) ∧
    ∀ id, in_all (d_Groups nmd) id →
      (id ∈ P ↔ id ∈ seen ∨ ∃ gid g, gid ∈ groups ∧ d_Groups nmd !! gid = Some g ∧ id ∈ grp_Peers g).
Proof.
  revert seen acc. induction groups as [|gid groups IH]; intros seen acc H Hs; simpl.
  { exists seen. split; [done|]. intros id _. set_solver. }
  destruct (d_Groups nmd !! gid) as [g|] eqn:E.
  - destruct (IsGroupAll g || single) eqn:Eg.
    + exists (list_to_set (grp_Peers g) ∪ ∅). split; [by eapply admit_fold_spec, side_spec_reset|].
      intros id Hall. rewrite union_empty_r_L, elem_of_list_to_set. split.
      { intros Hin. right. exists gid, g. set_solver. }
      destruct (IsGroupAll g) eqn:Ea; [by intros _; eapply Hall|]. simpl in Eg. destruct (Hs Eg) as [Hl ->].
      destruct groups; [|simpl in Hl; lia]. intros [?|(gid' & g' & ->%list_elem_of_singleton & E' & Hin)]; [set_solver|congruence].
    + apply orb_false_iff in Eg as [_ ->].
      destruct (seen_fold_spec T checks failed0 seen acc (grp_Peers g) H) as [E1 H1].
      destruct (foldl _ (seen, acc) (grp_Peers g)) as [seen' acc']. simpl in *. subst seen'.
      destruct (IH _ _ H1) as (P & HP & Hm); [done|]. exists P. split; [done|]. intros id Hall.
      rewrite (Hm id Hall), elem_of_union, elem_of_list_to_set. setoid_rewrite elem_of_cons. split.
      * intros [[?|?]|(gid' & g' & ? & ?)]; eauto 10.
      * intros [?|(gid' & g' & [->|?] & E' & ?)]; eauto 10. left. left. congruence.
  - destruct (IH seen acc H) as (P & HP & Hm).
    { intros Es. destruct (Hs Es) as [Hl ->]. simpl in Hl. split; [lia|done]. }
    exists P. split; [done|]. intros id Hall. rewrite (Hm id Hall). setoid_rewrite elem_of_cons. split.
    + intros [?|(gid' & g' & ? & ?)]; eauto 10.
    + intros [?|(gid' & g' & [->|?] & E' & ?)]; eauto 10. congruence.
Qed.

Context (Hall : ∀ id, is_Some (d_Peers nmd !! id) → in_all (d_Groups nmd) id).

(** A peer is on a side of a rule: it belongs to it and is admitted. *)
Definition stands (resource : Resource) (groups checks : list string) (id : string) : Prop :=
  admits checks id ∧ side_member (d_Groups nmd) resource groups id.

Lemma admits_known checks id : admits checks id → is_Some (d_Peers nmd !! id).
Proof. intros (p & E & _). eauto. Qed.

Lemma data_side_spec resource groups T checks failed :
  let r := data_side nmd resource groups T checks failed in
  (∀ id, id ∈ r.1.1 ↔ id ≠ T ∧ stands resource groups checks id) ∧
  (r.1.2 = true ↔ stands resource groups checks T) ∧ failed_grows failed r.2 ∧
  (∀ id, side_member (d_Groups nmd) resource groups id → id ∈ d_ValidatedPeers nmd →
     is_Some (d_Peers nmd !! id) → ¬ admits checks id → ∃ check, check ∈ checks ∧ fails r.2 check id).
Proof.
  unfold data_side, stands, side_member. destruct (names_peer resource).
  - unfold data_getPeerFromResource. pose proof (admit_spec (res_ID resource) checks failed) as (A1 & A2 & A3).
    destruct (admitPolicyPeer nmd (res_ID resource) checks failed) as [[|] failed']; simpl in *.
    + destruct (String.eqb_spec (res_ID resource) T) as [<-|Hne]; simpl; split_and!; try done.
      all: try (intros id -> ? ? Hn; destruct Hn; tauto).
      * set_solver.
      * naive_solver.
      * intros id. rewrite list_elem_of_singleton. split; [intros ->; naive_solver|naive_solver].
      * split; [done|]. intros [_ ->]. done.
    + split_and!; [|naive_solver|done|intros id ->; auto].
      intros id. split; [set_solver|]. intros (_ & Ha & ->). by apply A1 in Ha.
  - unfold getPeersFromGroups. edestruct (from_groups_spec T checks failed (length groups =? 1)%nat groups ∅ ([], false, failed))
      as (P & [S1 S2 S3 S4] & Hm).
    { split; simpl; [set_solver..|apply failed_grows_refl|set_solver]. }
    { intros E%Nat.eqb_eq. split; [lia|done]. }
    assert (HP : ∀ id, is_Some (d_Peers nmd !! id) →
      (id ∈ P ↔ ∃ gid g, gid ∈ groups ∧ d_Groups nmd !! gid = Some g ∧ id ∈ grp_Peers g)).
    { intros id Hk. rewrite (Hm id (Hall id Hk)). set_solver. }
    split_and!; [| |done|].
    + intros id. rewrite S1. split.
      * intros (Hin & ? & Ha). rewrite HP in Hin by (by eapply admits_known). auto.
      * intros (? & Ha & Hin). rewrite HP by (by eapply admits_known). auto.
    + rewrite S2. split; intros [H1 H2]; [rewrite HP in H1 by (by eapply admits_known)|rewrite HP by (by eapply admits_known)]; auto.
    + intros id Hin Hv Hk. apply S4; [by apply HP|done|done].
Qed.

(** ** The selection grows *)

Record sel_ok (s : Sel) : Prop := {
  so_peers : s_Peers s ⊆ d_Peers nmd;
  so_valid : ∀ id, is_Some (s_Peers s !! id) → id ∈ d_ValidatedPeers nmd;
  so_groups : s_Groups s ⊆ d_Groups nmd;
  so_failed : ∀ check id, fails (s_failed s) check id → real_failure check id;
}.

Record sel_le (s s' : Sel) : Prop := {
  sl_peers : s_Peers s ⊆ s_Peers s';
  sl_groups : s_Groups s ⊆ s_Groups s';
  sl_failed : ∀ check id, fails (s_failed s) check id → fails (s_failed s') check id;
  sl_policies : ∀ p, p ∈ s_Policies s → p ∈ s_Policies s';
}.

#[local] Instance sel_le_preorder : PreOrder sel_le.
Proof.
  split; [by split|]. intros s1 s2 s3 [A1 A2 A3 A4] [B1 B2 B3 B4]. split; [by etrans|by etrans|auto|auto].
Qed.

Definition sources_in (policy : Policy) (rule : PolicyRule) : string → Prop :=
  stands (pol_SourceResource rule) (pol_Sources rule) (policy_SourcePostureChecks policy).

Definition destinations_in (rule : PolicyRule) : string → Prop :=
  stands (pol_DestinationResource rule) (pol_Destinations rule) [].

(** The groups that exist are selected. *)
Definition has_groups (s : Sel) (groups : list string) : Prop :=
  ∀ gid g, gid ∈ groups → d_Groups nmd !! gid = Some g → s_Groups s !! gid = Some g.

(** What the selection has when a rule has been looked at for [T]. *)
Record covered (T : string) (policy : Policy) (rule : PolicyRule) (s : Sel) : Prop := {
  co_src : sources_in policy rule T →
    has_groups s (pol_Destinations rule) ∧ ∀ id, destinations_in rule id → id ≠ T → is_Some (s_Peers s !! id);
  co_dst : destinations_in rule T →
    has_groups s (pol_Sources rule) ∧ ∀ id, sources_in policy rule id → id ≠ T → is_Some (s_Peers s !! id);
  co_failed : ∀ id, side_member (d_Groups nmd) (pol_SourceResource rule) (pol_Sources rule) id →
    id ∈ d_ValidatedPeers nmd → is_Some (d_Peers nmd !! id) → ¬ admits (policy_SourcePostureChecks policy) id →
    ∃ check, check ∈ policy_SourcePostureChecks policy ∧ fails (s_failed s) check id;
}.

Lemma covered_mono T policy rule s s' : sel_le s s' → covered T policy rule s → covered T policy rule s'.
Proof.
  intros [L1 L2 L3 _] [C1 C2 C3].
  assert (Hp : ∀ id, is_Some (s_Peers s !! id) → is_Some (s_Peers s' !! id)).
  { intros id [p E]. exists p. by eapply lookup_weaken. }
  assert (Hg : ∀ l, has_groups s l → has_groups s' l).
  { intros l H gid g Hin E. eapply lookup_weaken; [by apply H|done]. }
  split.
  - intros H. destruct (C1 H). split; auto.
  - intros H. destruct (C2 H). split; auto.
  - intros id H1 H2 H3 H4. destruct (C3 id H1 H2 H3 H4) as (ch & ? & ?). eauto.
Qed.

(** Selected peers are validated peers of the account. *)
Definition peer_map_ok (m : gmap string Peer) : Prop :=
  m ⊆ d_Peers nmd ∧ ∀ id, is_Some (m !! id) → id ∈ d_ValidatedPeers nmd.

Lemma peer_map_copy m keys :
  peer_map_ok m → (∀ id, id ∈ keys → is_Some (d_Peers nmd !! id) → id ∈ d_ValidatedPeers nmd) →
  peer_map_ok (copy_keys (d_Peers nmd) keys m).
Proof.
  intros [S1 S2] Hk. split; [by apply copy_keys_sub|].
  intros id [p [E|[Hin E]]%copy_keys_spec]; [by apply S2; eauto|by eauto|done].
Qed.

Lemma if_copy {A} (b : bool) (source : gmap string A) keys m :
  (if b then copy_keys source keys m else m) = copy_keys source (if b then keys else []) m.
Proof. by destruct b. Qed.

Lemma stands_valid resource groups checks id :
  stands resource groups checks id → id ∈ d_ValidatedPeers nmd ∧ is_Some (d_Peers nmd !! id).
Proof. intros [(p & ? & ? & _) _]. eauto. Qed.

Lemma select_rule_spec T ssh policy s relevant rule :
  sel_ok s →
  let r := select_rule nmd T ssh policy (s, relevant) (Some rule) in
  sel_ok r.1 ∧ sel_le s r.1 ∧ (relevant = true → r.2 = true) ∧ s_Policies r.1 = s_Policies s ∧
  (pol_Enabled rule = true → covered T policy rule r.1 ∧
     (sources_in policy rule T ∨ destinations_in rule T → r.2 = true)).
Proof.
  intros [O1 O2 O3 O4]. simpl. destruct (pol_Enabled rule); simpl; [|split_and!; by try split].
  pose proof (data_side_spec (pol_SourceResource rule) (pol_Sources rule) T (policy_SourcePostureChecks policy)
    (s_failed s)) as (SI & ST & SG & SF).
  destruct (data_side nmd (pol_SourceResource rule) _ _ _ _) as [[src insrc] failed1]. simpl in *.
  pose proof (data_side_spec (pol_DestinationResource rule) (pol_Destinations rule) T [] failed1) as (DI & DT & DG & _).
  destruct (data_side nmd (pol_DestinationResource rule) _ _ _ _) as [[dst indst] failed2]. simpl in *.
  fold (sources_in policy rule) in SI, ST. fold (destinations_in rule) in DI, DT.
  set (routed := existsb _ (pol_Destinations rule)). rewrite !if_copy.
  set (g1 := copy_keys (d_Groups nmd) (if routed then _ else _) (s_Groups s)).
  set (g2 := copy_keys (d_Groups nmd) (if insrc then _ else _) g1).
  set (g3 := copy_keys (d_Groups nmd) (if indst then _ else _) g2).
  set (p1 := copy_keys (d_Peers nmd) (if insrc then _ else _) (s_Peers s)).
  set (p2 := copy_keys (d_Peers nmd) (if indst then _ else _) p1).
  assert (G1 : g1 ⊆ d_Groups nmd) by (by apply copy_keys_sub).
  assert (G2 : g2 ⊆ d_Groups nmd) by (by apply copy_keys_sub).
  assert (G3 : g3 ⊆ d_Groups nmd) by (by apply copy_keys_sub).
  assert (G12 : g1 ⊆ g2) by (by apply copy_keys_mono). assert (G23 : g2 ⊆ g3) by (by apply copy_keys_mono).
  assert (G01 : s_Groups s ⊆ g1) by (by apply copy_keys_mono).
  assert (P1 : peer_map_ok p1).
  { apply peer_map_copy; [done|]. intros id Hid _. destruct insrc; [|set_solver].
    apply DI in Hid as [_ Hid]. by eapply stands_valid. }
  assert (P2 : peer_map_ok p2).
  { apply peer_map_copy; [done|]. intros id Hid _. destruct indst; [|set_solver].
    apply SI in Hid as [_ Hid]. by eapply stands_valid. }
  destruct P1 as [P1 _], P2 as [P2 V2].
  assert (P01 : s_Peers s ⊆ p1) by (by apply copy_keys_mono). assert (P12 : p1 ⊆ p2) by (by apply copy_keys_mono).
  assert (FG : failed_grows (s_failed s) failed2) by (by eapply failed_grows_trans).
  split_and!; try done.
  - split; simpl; [done|done|done|]. intros check id H. apply FG in H as [H|H]; [by apply O4|done].
  - split; simpl; [by etrans| |by apply FG|done]. etrans; [done|]. by etrans.
  - by intros ->.
  - intros _. split.
    + split; simpl.
      * intros HT%ST. subst insrc. split.
        -- intros gid g Hg E. eapply lookup_weaken; [|exact G23]. apply copy_keys_spec; auto.
        -- intros id Hid Hne. apply stands_valid in Hid as Hk. destruct Hk as [_ [q Eq]]. exists q.
           eapply lookup_weaken; [|exact P12]. apply copy_keys_spec; [done|]. right. split; [|done]. by apply DI.
      * intros HT%DT. subst indst. split.
        -- intros gid g Hg E. apply copy_keys_spec; auto.
        -- intros id Hid Hne. apply stands_valid in Hid as Hk. destruct Hk as [_ [q Eq]]. exists q.
           apply copy_keys_spec; [done|]. right. split; [|done]. by apply SI.
      * intros id H1 H2 H3 H4. destruct (SF id H1 H2 H3 H4) as (ch & ? & ?). exists ch. split; [done|]. by apply DG.
    + intros [->%ST| ->%DT]; by rewrite ?orb_true_r.
Qed.

(** The rules of a policy, one after the other. *)
Lemma select_rules_spec T ssh policy rules s relevant :
  sel_ok s →
  let r := foldl (select_rule nmd T ssh policy) (s, relevant) rules in
  sel_ok r.1 ∧ sel_le s r.1 ∧ (relevant = true → r.2 = true) ∧ s_Policies r.1 = s_Policies s ∧
  ∀ rule, Some rule ∈ rules → pol_Enabled rule = true →
    covered T policy rule r.1 ∧ (sources_in policy rule T ∨ destinations_in rule T → r.2 = true).
Proof.
  revert s relevant. induction rules as [|rule rules IH]; intros s relevant Hs; cbn [foldl].
  { split_and!; try done. intros rule Habs. by apply elem_of_nil in Habs. }
  destruct rule as [rule|].
  2:{ change (select_rule nmd T ssh policy (s, relevant) None) with (s, relevant).
      destruct (IH s relevant Hs) as (? & ? & ? & ? & H). split_and!; try done.
      intros rule [?|?]%elem_of_cons; [done|auto]. }
  pose proof (select_rule_spec T ssh policy s relevant rule Hs) as (O1 & L1 & R1 & E1 & C1).
  destruct (select_rule nmd T ssh policy (s, relevant) (Some rule)) as [s1 rel1]. cbn [fst snd] in *.
  destruct (IH s1 rel1 O1) as (O2 & L2 & R2 & E2 & C2).
  split_and!; [done|by etrans|auto|congruence|].
  intros rule' [[= ->]|Hin]%elem_of_cons He; [|by apply C2].
  destruct (C1 He) as [Hc Hr]. split; [by eapply covered_mono|auto].
Qed.
(** All policies of the account. *)
Lemma select_policies_spec T ssh policies s :
  sel_ok s →
  let s' := foldl (select_policy nmd T ssh) s policies in
  sel_ok s' ∧ sel_le s s' ∧
  (∀ policy rule, active policies policy rule →
     covered T policy rule s' ∧ (sources_in policy rule T ∨ destinations_in rule T → Some policy ∈ s_Policies s')) ∧
  (∀ q, q ∈ s_Policies s' → q ∈ s_Policies s ∨ q ∈ policies ∧ is_Some q).
Proof.
  revert s. induction policies as [|q policies IH]; intros s Hs; cbn [foldl].
  { split_and!; try done; [|by left]. intros policy rule (Habs & _). by apply elem_of_nil in Habs. }
  assert (Hstep : ∃ s1, select_policy nmd T ssh s q = s1 ∧ sel_ok s1 ∧ sel_le s s1 ∧
    (∀ policy rule, q = Some policy → policy_Enabled policy = true → Some rule ∈ policy_Rules policy →
       pol_Enabled rule = true → covered T policy rule s1 ∧
       (sources_in policy rule T ∨ destinations_in rule T → q ∈ s_Policies s1)) ∧
    (∀ q', q' ∈ s_Policies s1 → q' ∈ s_Policies s ∨ q' = q ∧ is_Some q)).
  { eexists. split; [reflexivity|]. destruct q as [p|]; simpl; [|split_and!; [done|done|done|by left]].
    destruct (policy_Enabled p) eqn:Ep; simpl.
    2:{ split_and!; [done|done|intros ? ? [= <-]; congruence|by left]. }
    pose proof (select_rules_spec T ssh p (policy_Rules p) s false Hs) as (O & L & _ & E & C).
    destruct (foldl _ _ _) as [s1 rel]. cbn [fst snd] in *. split_and!.
    - by destruct O.
    - destruct L as [L1 L2 L3 L4]. split; simpl; try done. destruct rel; set_solver.
    - intros policy rule [= <-] _ Hr He. destruct (C rule Hr He) as [Hc Hrel]. split; [by destruct Hc|].
      simpl. intros ->%Hrel. set_solver.
    - simpl. rewrite E. intros q'. destruct rel; [|by left]. rewrite elem_of_app, list_elem_of_singleton. naive_solver. }
  destruct Hstep as (s1 & -> & O1 & L1 & C1 & P1). destruct (IH s1 O1) as (O2 & L2 & C2 & P2).
  split_and!; [done|by etrans| |].
  - intros policy rule (Hin & Ep & Hr & He). apply elem_of_cons in Hin as [Hq|Hin]; [|by apply C2].
    destruct (C1 policy rule) as [Hc Hrel]; [done..|]. split; [by eapply covered_mono|].
    intros H. rewrite Hq. apply L2. auto.
  - intros q' [H|[H ?]]%P2; [|right; set_solver]. apply P1 in H as [?|[-> ?]]; [by left|right; set_solver].
Qed.

Lemma validated_in ids id : id ∈ validated nmd ids → id ∈ d_ValidatedPeers nmd.
Proof. unfold validated. rewrite list_elem_of_filter. tauto. Qed.

Lemma select_route_spec T groups s r :
  sel_ok s →
  let s' := select_route nmd T groups s r in sel_ok s' ∧ sel_le s s' ∧ s_Policies s' = s_Policies s.
Proof.
  intros [O1 O2 O3 O4]. destruct r as [r|]; simpl; [|by split_and!].
  destruct (route_relevant T groups r); simpl; [|by split_and!].
  assert (Epeers : (if String.eqb (rt_Peer r) "" then s_Peers s
                    else copy_keys (d_Peers nmd) (validated nmd [rt_Peer r]) (s_Peers s)) =
                   copy_keys (d_Peers nmd) (if String.eqb (rt_Peer r) "" then [] else validated nmd [rt_Peer r]) (s_Peers s)).
  { by destruct (String.eqb _ _). }
  rewrite Epeers, if_copy. clear Epeers. set (k1 := if String.eqb _ _ then _ else _).
  assert (Hk1 : ∀ id, id ∈ k1 → id ∈ d_ValidatedPeers nmd).
  { subst k1. intros id. destruct (String.eqb _ _); [set_solver|apply validated_in]. }
  set (p1 := copy_keys (d_Peers nmd) k1 (s_Peers s)).
  assert (P1 : peer_map_ok p1) by (apply peer_map_copy; [done|auto]).
  rewrite fill_keys_copy by apply P1.
  set (p2 := copy_keys (d_Peers nmd) _ p1).
  assert (P2 : peer_map_ok p2) by (apply peer_map_copy; [done|intros id Hid _; by eapply validated_in]).
  set (g1 := copy_keys (d_Groups nmd) _ (s_Groups s)). set (g2 := copy_keys (d_Groups nmd) _ g1).
  assert (G1 : g1 ⊆ d_Groups nmd) by (by apply copy_keys_sub).
  split_and!; [| |done].
  - split; simpl; [apply P2|apply P2|by apply copy_keys_sub|done].
  - split; simpl; [|etrans; by apply copy_keys_mono|done|done].
    etrans; [by apply copy_keys_mono|]. apply copy_keys_mono, P1.
Qed.

Lemma select_routes_spec T groups routes s :
  sel_ok s →
  let s' := foldl (select_route nmd T groups) s routes in sel_ok s' ∧ sel_le s s' ∧ s_Policies s' = s_Policies s.
Proof.
  revert s. induction routes as [|r routes IH]; intros s Hs; cbn [foldl]; [by split_and!|].
  destruct (select_route_spec T groups s r Hs) as (O1 & L1 & E1). destruct (IH _ O1) as (O2 & L2 & E2).
  split_and!; [done|by etrans|congruence].
Qed.

(** The groups of a peer. *)
Lemma data_GetPeerGroups_spec id gid :
  gid ∈ data_GetPeerGroups nmd id ↔ ∃ g, d_Groups nmd !! gid = Some g ∧ id ∈ grp_Peers g.
Proof.
  unfold data_GetPeerGroups. rewrite elem_of_dom. unfold is_Some. setoid_rewrite map_lookup_filter_Some. done.
Qed.

(** The whole selection. *)
Lemma getPeersGroupsPoliciesRoutes_spec T ssh target :
  d_Peers nmd !! T = Some target → T ∈ d_ValidatedPeers nmd →
  let s := getPeersGroupsPoliciesRoutes nmd T ssh ∅ in
  sel_ok s ∧ s_Peers s !! T = Some target ∧
  (∀ gid g, d_Groups nmd !! gid = Some g → T ∈ grp_Peers g → s_Groups s !! gid = Some g) ∧
  (∀ policy rule, active (d_Policies nmd) policy rule →
     covered T policy rule s ∧ (sources_in policy rule T ∨ destinations_in rule T → Some policy ∈ s_Policies s)) ∧
  (∀ q, q ∈ s_Policies s → q ∈ d_Policies nmd ∧ is_Some q).
Proof.
  intros ET HT. unfold getPeersGroupsPoliciesRoutes. set (s0 := Build_Sel _ _ _ _ _ _ _).
  assert (O0 : sel_ok s0).
  { split; subst s0; cbn [s_Peers s_Groups s_failed].
    - apply copy_keys_sub, map_empty_subseteq.
    - intros id [p E].
      apply copy_keys_spec in E as [E|[->%list_elem_of_singleton _]]; [by rewrite lookup_empty in E|done|apply map_empty_subseteq].
    - apply copy_keys_sub, map_empty_subseteq.
    - intros check id (ids & E & _). by rewrite lookup_empty in E. }
  destruct (select_routes_spec T (data_GetPeerGroups nmd T) (d_Routes nmd) s0 O0) as (O1 & L1 & E1).
  destruct (select_policies_spec T ssh (d_Policies nmd) _ O1) as (O2 & L2 & C2 & P2).
  assert (L : sel_le s0 (foldl (select_policy nmd T ssh) (foldl (select_route nmd T (data_GetPeerGroups nmd T)) s0 (d_Routes nmd)) (d_Policies nmd)))
    by (by etrans).
  split_and!; [done| | |done|].
  - eapply lookup_weaken; [|apply L]. apply copy_keys_spec; [apply map_empty_subseteq|]. right. split; [by left|done].
  - intros gid g E Hin. eapply lookup_weaken; [|apply L]. apply copy_keys_spec; [apply map_empty_subseteq|].
    right. split; [|done]. rewrite elem_of_elements. apply data_GetPeerGroups_spec. eauto.
  - intros q [Hq|?]%P2; [|done]. rewrite E1 in Hq. by apply elem_of_nil in Hq.
Qed.
End Select.

(** ** The cache of posture results *)

Section Cache.
Context {MO : MapOrder} {VL : VersionLib} (pick : string → nat).

(** The cache is right when it is made, whatever it held before. *)
Lemma precompute_cache_ok nmd : cache_ok (PrecomputePostureValidation pick nmd).
Proof.
  intros check id peer v Ep. unfold cachedPostureCheckResult, posture_ok. simpl in *.
  destruct (size _ =? 0)%nat; [by rewrite lookup_empty|]. rewrite map_lookup_imap.
  destruct (check_peer_ids pick nmd !! check) as [ids|]; simpl; [|done].
  unfold evaluatePostureChecksForPeers. destruct (d_PostureChecks nmd !! check) as [d|]; simpl; [|congruence].
  rewrite lookup_fmap_Some. intros (q & <- & [E _]%map_lookup_filter_Some). unfold Passes. congruence.
Qed.

(** C11. The precomputed posture results change no decision: a peer passes checks,
    and is recorded as failing one, as if each check were evaluated on it. *)
Theorem posture_cache_transparent nmd checks id :
  validatePostureChecksOnPeerGetFailed (PrecomputePostureValidation pick nmd) checks id =
  validatePostureChecksOnPeerGetFailed (with_cache nmd ∅) checks id.
Proof.
  unfold validatePostureChecksOnPeerGetFailed. simpl. destruct (d_Peers nmd !! id) as [peer|] eqn:E; [|done].
  assert (Hv : ∀ check, posture_verdict (PrecomputePostureValidation pick nmd) peer id check =
                        posture_verdict (with_cache nmd ∅) peer id check).
  { intros check. rewrite (verdict_ok _ (precompute_cache_ok nmd)) by done.
    rewrite (verdict_ok (with_cache nmd ∅)); [done| |done]. intros ? ? ? ? _. unfold cachedPostureCheckResult. simpl.
    by rewrite lookup_empty. }
  clear E. induction checks as [|check checks IH]; simpl; [done|]. rewrite <- Hv.
  destruct (posture_verdict (PrecomputePostureValidation pick nmd) peer id check); simpl; [|done].
  clear Hv. destruct (list_find _ checks) as [[? ?]|], (list_find _ checks) as [[? ?]|]; simpl in *; congruence.
Qed.
End Cache.
