(* ===== verification/NetMapExact.v ===== *)
(** * The network map against the account

    What the server sends a peer, in terms of the account alone: the selected
    components give the same peers and firewall rules as the whole account
    would, and these are the ones its policies ask for. *)
From S2P Require Import Prelude NetIP Bytes NetParse Order AclManager NmData FwGen NetMap NetMapBuild NetMapFacts.
From S2P Require Import NetMapSelect AddrText.
Open Scope Z_scope.

(** The addresses of a peer. *)
Definition peer_ips (p : Peer) : list Addr :=
  p_IP p :: (if IsValid (p_IPv6 p) then [p_IPv6 p] else []).

(** An account: peers are filed under their identifier, have a plain
    specified IPv4 address and perhaps an IPv6 one, no two share an address,
    "All" has every peer, the posture cache is right, no check has the empty
    identifier and no policy of a resource is nil.  Active rules, those made for
    the services of the reverse proxy included, are told apart by their
    identifiers: the identifier of one with the address of a peer does not start
    that of another with the address of a peer. *)
Record account_wf {VL : VersionLib} (nmd : NetworkMapData) : Prop := {
  aw_ids : ∀ id p, d_Peers nmd !! id = Some p → p_ID p = id;
  aw_all : ∀ id, is_Some (d_Peers nmd !! id) → in_all (d_Groups nmd) id;
  aw_rules : ∀ p1 r1 p2 r2 id1 q1 id2 q2 a1 a2, active (d_Policies nmd) p1 r1 → active (d_Policies nmd) p2 r2 →
    d_Peers nmd !! id1 = Some q1 → d_Peers nmd !! id2 = Some q2 → a1 ∈ peer_addrs q1 → a2 ∈ peer_addrs q2 →
    String.prefix (pol_ID r1 +:+ a1) (pol_ID r2 +:+ a2) = true → r1 = r2;
  aw_plain : ∀ id p, d_Peers nmd !! id = Some p → Forall plain_addr (peer_ips p);
  aw_specified : ∀ id p, d_Peers nmd !! id = Some p → Forall (λ a, IsUnspecified a = false) (peer_ips p);
  aw_family : ∀ id p, d_Peers nmd !! id = Some p → Is4 (p_IP p) = true ∧ Is4 (p_IPv6 p) = false;
  aw_addrs : ∀ id1 p1 id2 p2 a, d_Peers nmd !! id1 = Some p1 → d_Peers nmd !! id2 = Some p2 →
    a ∈ peer_ips p1 → a ∈ peer_ips p2 → id1 = id2;
  aw_cache : cache_ok nmd;
  aw_empty : d_PostureChecks nmd !! "" = None;
  aw_nil : ∀ rid l, d_ResourcePolicies nmd !! rid = Some l → None ∉ l;
}.

Lemma peer_addrs_ips p : peer_addrs p = addr_String <$> peer_ips p.
Proof. unfold peer_addrs, peer_ips. by destruct (IsValid (p_IPv6 p)). Qed.

(** The routing peers join the peers to connect to: nobody twice, never the
    peer itself. *)
Section Routing.
Context {MO : MapOrder} (pick : string → nat).

Lemma addNetworksRoutingPeers_spec c routes T connect expired isRouter sourcePeers :
  (∀ id p, c_Peers c !! id = Some p → p_ID p = id) → (∀ id p, c_RouterPeers c !! id = Some p → p_ID p = id) →
  NoDup (p_ID <$> connect ++ expired) → T ∉ p_ID <$> connect ++ expired →
  let peers := addNetworksRoutingPeers pick c routes T connect expired isRouter sourcePeers in
  NoDup (p_ID <$> peers ++ expired) ∧ T ∉ p_ID <$> peers ++ expired ∧
  ∀ p, p ∈ peers → p ∈ connect ∨ (∃ id, c_Peers c !! id = Some p ∨ c_RouterPeers c !! id = Some p).
Proof.
  intros H1 H2 Hnd HT. unfold addNetworksRoutingPeers.
  set (known := {[T]} ∪ _ ∪ _). set (missing := _ ∪ (_ ∖ known)).
  set (found := λ p, match GetPeerInfo c p with Some i => Some i | None => GetRouterPeerInfo c p end).
  assert (Hf : ∀ id p, found id = Some p → p_ID p = id ∧ (c_Peers c !! id = Some p ∨ c_RouterPeers c !! id = Some p)).
  { intros id p. unfold found, GetPeerInfo, GetRouterPeerInfo. destruct (c_Peers c !! id) eqn:E; [intros [= <-]; auto|auto]. }
  assert (Hm : ∀ id, id ∈ missing → id ∉ known) by (subst missing; destruct isRouter; set_solver).
  clearbody missing. set (ids := range_set _ missing).
  assert (Hids : NoDup ids) by apply NoDup_range_set.
  assert (Hin : ∀ id, id ∈ ids → id ∈ missing) by (intros id; apply elem_of_range_set). clearbody ids.
  assert (Hom : ∀ p, p ∈ omap found ids → p_ID p ∈ ids ∧ ∃ id, found id = Some p).
  { intros p (id & Hid & E)%list_elem_of_omap. destruct (Hf id p E) as [<- _]. eauto. }
  assert (Hmap : NoDup (p_ID <$> omap found ids)).
  { clear Hm Hin Hom. induction Hids as [|id ids Hid Hids IH]; simpl; [constructor|].
    destruct (found id) as [p|] eqn:E; simpl; [|done]. constructor; [|done].
    intros (q & Eq & (id' & Hid' & E')%list_elem_of_omap)%list_elem_of_fmap.
    apply Hf in E as [E _]. apply Hf in E' as [E' _]. congruence. }
  assert (Hdisj : ∀ id, id ∈ p_ID <$> omap found ids → id ∉ known).
  { intros id (q & -> & [Hq _]%Hom)%list_elem_of_fmap. auto. }
  rewrite !fmap_app in *. apply NoDup_app in Hnd as (N1 & N2 & N3). split_and!.
  - rewrite <- (assoc_L (++)). apply NoDup_app. split_and!; [done| |].
    + intros id Hid [Hid'|Hid']%elem_of_app; [|by eapply N2]. apply (Hdisj id Hid'). subst known. set_solver.
    + apply NoDup_app. split_and!; [done| |done]. intros id Hid Hid'. apply (Hdisj id Hid). subst known. set_solver.
  - intros [[Hid|Hid]%elem_of_app|Hid]%elem_of_app; [set_solver| |set_solver]. apply (Hdisj T Hid). subst known. set_solver.
  - intros p [?|Hp]%elem_of_app; [by left|]. right. apply Hom in Hp as [_ (id & E)]. exists id. by apply Hf.
Qed.
End Routing.

Section Account.
Context {MO : MapOrder} {VL : VersionLib} (pick : string → nat) (nmd : NetworkMapData) (W : account_wf nmd).

(** ** Network resources only add *)

Record res_ok (e : Res) : Prop := {
  ro_peers : peer_map_ok nmd (e_Peers e);
  ro_groups : e_Groups e ⊆ d_Groups nmd;
  ro_failed : ∀ check id, fails (e_failed e) check id → real_failure nmd check id;
  ro_routers : peer_map_ok nmd (e_RouterPeers e);
  ro_policies : ∀ rid l, e_ResourcePoliciesMap e !! rid = Some l → None ∉ l;
}.

Record res_le (e e' : Res) : Prop := {
  rl_peers : e_Peers e ⊆ e_Peers e';
  rl_groups : e_Groups e ⊆ e_Groups e';
  rl_failed : ∀ check id, fails (e_failed e) check id → fails (e_failed e') check id;
}.

#[local] Instance res_le_preorder : PreOrder res_le.
Proof. split; [by split|]. intros e1 e2 e3 [A1 A2 A3] [B1 B2 B3]. split; [by etrans|by etrans|auto]. Qed.

Lemma validate_failed checks id check :
  validatePostureChecksOnPeerGetFailed nmd checks id = (false, check) → check ≠ "" → real_failure nmd check id.
Proof.
  intros E Hne. destruct (d_Peers nmd !! id) as [p|] eqn:Ep.
  - pose proof (validate_spec nmd (aw_cache _ W) (aw_empty _ W) checks id p Ep) as H. rewrite E in H.
    destruct H as (_ & ? & _). exists p. auto.
  - unfold validatePostureChecksOnPeerGetFailed in E. rewrite Ep in E. by injection E as <-.
Qed.

Lemma posture_valid_spec ids checks failed :
  let r := getPostureValidPeersSaveFailed nmd ids checks failed in
  failed_grows nmd failed r.2 ∧ ∀ id, id ∈ r.1 → id ∈ d_ValidatedPeers nmd.
Proof.
  unfold getPostureValidPeersSaveFailed. induction ids as [|id ids IH] using rev_ind; simpl.
  { split; [apply failed_grows_refl|set_solver]. }
  rewrite foldl_snoc. destruct (foldl _ _ ids) as [dest f]. simpl in *. destruct IH as [IH1 IH2].
  case_bool_decide as Hv; simpl; [|done].
  destruct (validatePostureChecksOnPeerGetFailed nmd checks id) as [[|] check] eqn:E; simpl.
  - split; [done|]. set_solver.
  - destruct (String.eqb_spec check "") as [->|Hne]; simpl; [done|]. split; [|done].
    eapply failed_grows_trans; [done|]. by eapply failed_grows_record, validate_failed.
Qed.

Lemma keep_policy_spec resource policies policy e :
  res_ok e → None ∉ policies → res_ok (keep_policy nmd resource policies policy e) ∧
  res_le e (keep_policy nmd resource policies policy e).
Proof.
  intros [O1 O2 O3 OR O4] Hp. unfold keep_policy. rewrite fill_keys_copy by done. split; split; simpl; try done.
  - by apply copy_keys_sub.
  - intros rid l [[_ <-]|[_ ?]]%lookup_insert_Some; [done|by eapply O4].
  - by apply copy_keys_mono.
Qed.

Lemma with_found_spec e peers failed :
  res_ok e → peer_map_ok nmd peers → e_Peers e ⊆ peers → failed_grows nmd (e_failed e) failed →
  res_ok (with_found e peers failed) ∧ res_le e (with_found e peers failed).
Proof.
  intros [O1 O2 O3 OR O4] Hp Hle [G1 G2]. split; split; simpl; try done.
  intros check id H. apply G2 in H as [?|?]; auto.
Qed.

Lemma build_policy_spec T resource policies e b policy :
  res_ok e → None ∉ policies →
  let r := build_policy pick nmd T resource policies (e, b) policy in res_ok r.1 ∧ res_le e r.1.
Proof.
  intros O Hp. destruct policy as [policy|]; simpl; [|done].
  destruct (policy_Enabled policy); [|done]. destruct (mjoin _) as [rule0|]; [|done]. destruct b.
  - pose proof (posture_valid_spec (resource_peers pick nmd resource policy rule0) (policy_SourcePostureChecks policy)
      (e_failed e)) as [G V].
    destruct (getPostureValidPeersSaveFailed _ _ _ _) as [ids failed]. cbn [fst snd] in *.
    assert (Hok : peer_map_ok nmd (copy_keys (d_Peers nmd) ids (e_Peers e))) by (apply peer_map_copy; [apply O|auto]).
    rewrite fill_keys_copy by apply O.
    destruct (with_found_spec e _ failed O Hok) as [O1 L1]; [apply copy_keys_mono, O|done|].
    destruct (keep_policy_spec resource policies policy _ O1 Hp) as [O2 L2]. split; [done|by etrans].
  - destruct (peer_in_sources _ _ _ _ _ _); simpl; [|done].
    destruct (validatePostureChecksOnPeerGetFailed nmd _ T) as [[|] check] eqn:E; simpl; [by apply keep_policy_spec|].
    destruct (String.eqb_spec check "") as [->|Hne]; simpl; [by apply keep_policy_spec|].
    apply with_found_spec; [done|apply O|done|]. by eapply failed_grows_record, validate_failed.
Qed.

Lemma build_policies_spec T resource policies e b l :
  res_ok e → None ∉ policies →
  let r := foldl (build_policy pick nmd T resource policies) (e, b) l in res_ok r.1 ∧ res_le e r.1.
Proof.
  intros O Hp. revert e b O. induction l as [|policy l IH]; intros e b O; cbn [foldl]; [done|].
  pose proof (build_policy_spec T resource policies e b policy O Hp) as [O1 L1].
  destruct (build_policy _ _ _ _ _ _ _) as [e1 b1]. cbn [fst] in *.
  destruct (IH e1 b1 O1) as [O2 L2]. split; [done|by etrans].
Qed.

Lemma build_resource_spec T e resource :
  res_ok e → let e' := build_resource pick nmd T e resource in res_ok e' ∧ res_le e e'.
Proof.
  intros O. destruct resource as [resource|]; simpl; [|done]. destruct (nr_Enabled resource); simpl; [|done].
  destruct (d_ResourcePolicies nmd !! nr_ID resource) as [policies|] eqn:Ep; [|done].
  pose proof (build_policies_spec T resource policies e
    (bool_decide (is_Some (default ∅ (d_Routers nmd !! nr_NetworkID resource) !! T))) policies O (aw_nil _ W _ _ Ep)) as [O1 L1].
  destruct (foldl _ _ policies) as [e1 b]. cbn [fst] in *. destruct b; simpl; [|done].
  destruct O1 as [P1 G1 F1 Q1 R1]. rewrite (fill_keys_copy (d_Peers nmd) _ (e_RouterPeers e1)) by apply Q1. rewrite (fill_keys_copy (d_Peers nmd) _ (e_Peers e1)) by apply P1.
  set (keys := validated nmd _).
  assert (Hok : ∀ m, peer_map_ok nmd m → peer_map_ok nmd (copy_keys (d_Peers nmd) keys m)).
  { intros m Hm. apply peer_map_copy; [done|]. intros id Hid _. by eapply validated_in. }
  split; [split; simpl; auto|]. etrans; [done|]. split; simpl; [apply copy_keys_mono, P1|done|done].
Qed.

Lemma build_resources_spec T e resources :
  res_ok e → let e' := foldl (build_resource pick nmd T) e resources in res_ok e' ∧ res_le e e'.
Proof.
  revert e. induction resources as [|r resources IH]; intros e O; cbn [foldl]; [done|].
  destruct (build_resource_spec T e r O) as [O1 L1]. destruct (IH _ O1) as [O2 L2]. split; [done|by etrans].
Qed.
(** ** The filters *)

Lemma referenced_checks_spec policies :
  None ∉ policies → ∃ l, referenced_checks policies = Some l ∧
    ∀ check, check ∈ l ↔ ∃ policy, Some policy ∈ policies ∧ check ∈ policy_SourcePostureChecks policy.
Proof.
  induction policies as [|[p|] policies IH]; intros Hn; [| |destruct Hn; by left].
  - exists []. set_solver.
  - destruct IH as (l & El & Hl); [set_solver|]. unfold referenced_checks in *. simpl. rewrite El. simpl.
    eexists. split; [done|]. intros check. rewrite elem_of_app, Hl. setoid_rewrite elem_of_cons. split.
    + intros [?|(q & ? & ?)]; eauto.
    + intros (q & [[= ->]|?] & ?); eauto.
Qed.

Lemma filterPostureFailedPeers_spec failed policies resources peers :
  None ∉ policies → (∀ rid l, resources !! rid = Some l → None ∉ l) →
  ∃ failed', filterPostureFailedPeers failed policies resources peers = Some failed' ∧
    (∀ check id, fails failed' check id → fails failed check id) ∧
    (∀ policy check id, Some policy ∈ policies → check ∈ policy_SourcePostureChecks policy →
       is_Some (peers !! id) → fails failed check id → fails failed' check id).
Proof.
  intros Hn Hr. unfold filterPostureFailedPeers. destruct (size failed =? 0)%nat; [eauto|].
  destruct (referenced_checks_spec (policies ++ ((map_to_list resources).*2 ≫= λ l, l))) as (l & -> & Hl).
  { intros [?|Hin]%elem_of_app; [done|]. apply list_elem_of_bind in Hin as (l & Hin & Hl).
    apply list_elem_of_fmap in Hl as ([rid l'] & -> & Hl%elem_of_map_to_list). by eapply Hr. }
  simpl. eexists. split; [done|]. unfold fails. split.
  - intros check id (ids & E & Hin). apply map_lookup_filter_Some in E as [E _].
    rewrite lookup_fmap, fmap_Some in E. destruct E as (ids0 & E & ->). apply map_lookup_filter_Some in E as [E _].
    apply elem_of_filter in Hin as [_ Hin]. eauto.
  - intros policy check id Hp Hc Hk (ids & E & Hin).
    assert (id ∈ filter (λ id, is_Some (peers !! id)) ids) as Hin' by (by apply elem_of_filter).
    eexists. split; [|exact Hin']. apply map_lookup_filter_Some. split; [|set_solver].
    rewrite lookup_fmap, fmap_Some. exists ids. split; [|done]. apply map_lookup_filter_Some. split; [done|].
    apply Hl. exists policy. split; [apply elem_of_app; by left|done].
Qed.

(** ** The components of a peer *)

Record selected (T : string) (target : Peer) (c : NetworkMapComponents) : Prop := {
  se_id : c_PeerID c = T;
  se_live : c_empty c = false;
  se_settings : c_AccountSettings c = d_AccountSettings nmd ∧ c_DNSSettings c = d_DNSSettings nmd;
  se_target : c_Peers c !! T = Some target;
  se_peers : peer_map_ok nmd (c_Peers c);
  se_routers : peer_map_ok nmd (c_RouterPeers c);
  se_groups : ∀ gid g, c_Groups c !! gid = Some g →
    ∃ g0, d_Groups nmd !! gid = Some g0 ∧ IsGroupAll g = IsGroupAll g0 ∧
      ∀ id, id ∈ grp_Peers g ↔ id ∈ grp_Peers g0 ∧ is_Some (c_Peers c !! id);
  se_own : ∀ gid g, d_Groups nmd !! gid = Some g → T ∈ grp_Peers g → is_Some (c_Groups c !! gid);
  se_policies : ∀ q, q ∈ c_Policies c → q ∈ d_Policies nmd;
  se_failed : ∀ check id, fails (c_PostureFailedPeers c) check id → real_failure nmd check id;
  se_covered : ∀ policy rule, active (d_Policies nmd) policy rule →
    (sources_in nmd policy rule T ∨ destinations_in nmd rule T → Some policy ∈ c_Policies c) ∧
    (sources_in nmd policy rule T → (∀ gid, gid ∈ pol_Destinations rule → is_Some (d_Groups nmd !! gid) → is_Some (c_Groups c !! gid)) ∧
       ∀ id, destinations_in nmd rule id → is_Some (c_Peers c !! id)) ∧
    (destinations_in nmd rule T → (∀ gid, gid ∈ pol_Sources rule → is_Some (d_Groups nmd !! gid) → is_Some (c_Groups c !! gid)) ∧
       ∀ id, sources_in nmd policy rule id → is_Some (c_Peers c !! id)) ∧
    (Some policy ∈ c_Policies c → ∀ id, is_Some (c_Peers c !! id) →
       side_member (d_Groups nmd) (pol_SourceResource rule) (pol_Sources rule) id →
       ¬ admits nmd (policy_SourcePostureChecks policy) id →
       ∃ check, check ∈ policy_SourcePostureChecks policy ∧ fails (c_PostureFailedPeers c) check id);
}.

Lemma data_components_spec T target zone :
  d_Peers nmd !! T = Some target → T ∈ d_ValidatedPeers nmd →
  ∃ c, data_components pick nmd T zone = Some c ∧ selected T target c.
Proof.
  intros ET HT. unfold data_components. rewrite ET, bool_decide_true by done.
  destruct (getPeersGroupsPoliciesRoutes_spec nmd (aw_cache _ W) (aw_empty _ W) (aw_all _ W) T (p_SSHEnabled target) target ET HT)
    as ([O1 O2 O3 O4] & Ht & Hown & Hcov & Hpol).
  set (s := getPeersGroupsPoliciesRoutes nmd T (p_SSHEnabled target) ∅) in *. clearbody s.
  set (e0 := Build_Res _ _ _ _ _ _ _).
  destruct (build_resources_spec T e0 (d_NetworkResources nmd)) as [[R1 R2 R3 RR R4] [L1 L2 L3]].
  { split; subst e0; simpl; [by split|done|done| |].
    { split; [apply map_empty_subseteq|]. intros id [? E]. by rewrite lookup_empty in E. }
    intros rid l E. by rewrite lookup_empty in E. }
  set (e := foldl _ e0 _) in *. clearbody e. subst e0. simpl in L1, L2, L3.
  assert (Hn : None ∉ s_Policies s) by (intros [_ [? ?]]%Hpol; done).
  destruct (filterPostureFailedPeers_spec (e_failed e) (s_Policies s) (e_ResourcePoliciesMap e) (e_Peers e) Hn R4)
    as (failed & -> & F1 & F2). simpl. eexists. split; [done|].
  assert (Hg : ∀ gid g, filterGroupPeers (e_Groups e) (e_Peers e) !! gid = Some g ↔
    ∃ g0, e_Groups e !! gid = Some g0 ∧ g = {| grp_ID := grp_ID g0; grp_Name := grp_Name g0;
      grp_Peers := filter (λ pid, is_Some (e_Peers e !! pid)) (grp_Peers g0) |}).
  { intros gid g. unfold filterGroupPeers. rewrite lookup_fmap, fmap_Some. done. }
  assert (Hsome : ∀ gid g, s_Groups s !! gid = Some g → is_Some (filterGroupPeers (e_Groups e) (e_Peers e) !! gid)).
  { intros gid g E. eapply lookup_weaken in E; [|exact L2]. eexists. apply Hg. eauto. }
  assert (Hpeer : ∀ id, is_Some (s_Peers s !! id) → is_Some (e_Peers e !! id)).
  { intros id [p E]. exists p. by eapply lookup_weaken. }
  split; simpl; try done.
  - by eapply lookup_weaken.
  - intros gid g (g0 & E & ->)%Hg. exists g0. split; [by eapply lookup_weaken|]. split; [done|].
    intros id. simpl. rewrite list_elem_of_filter. tauto.
  - intros gid g E Hin. eapply Hsome. by apply Hown.
  - intros q Hq. by apply Hpol.
  - intros check id H. by apply R3, F1.
  - intros policy rule Ha. destruct (Hcov policy rule Ha) as [[C1 C2 C3] Hrel]. split_and!; [done| | |].
    + intros HS. destruct (C1 HS) as [H1 H2]. split; [intros gid Hgid [g E]; eapply Hsome; by eapply H1|].
      intros id Hid. destruct (decide (id = T)) as [->|]; [exists target; by eapply lookup_weaken|auto].
    + intros HD. destruct (C2 HD) as [H1 H2]. split; [intros gid Hgid [g E]; eapply Hsome; by eapply H1|].
      intros id Hid. destruct (decide (id = T)) as [->|]; [exists target; by eapply lookup_weaken|auto].
    + intros Hp id Hk Hm Hna. destruct R1 as [R1 V1]. destruct Hk as [p Ep].
      destruct (C3 id Hm) as (check & Hc & Hf); [apply V1; eauto|exists p; by eapply lookup_weaken|done|].
      exists check. split; [done|]. eapply F2; [done|done|eauto|auto].
Qed.

(** ** A rule means the same in the components and in the account *)

Section Selected.
Context (T : string) (target : Peer) (c : NetworkMapComponents) (Sel : selected T target c).

Lemma member_down resource groups id :
  side_member (c_Groups c) resource groups id → side_member (d_Groups nmd) resource groups id.
Proof.
  unfold side_member. destruct (names_peer resource); [done|]. intros (gid & g & Hg & E & Hin).
  apply (se_groups _ _ _ Sel) in E as (g0 & E & _ & Hm). exists gid, g0. split_and!; [done|done|by apply Hm].
Qed.

Lemma member_up resource groups id :
  is_Some (c_Peers c !! id) →
  (∀ gid g, gid ∈ groups → d_Groups nmd !! gid = Some g → id ∈ grp_Peers g → is_Some (c_Groups c !! gid)) →
  side_member (d_Groups nmd) resource groups id → side_member (c_Groups c) resource groups id.
Proof.
  intros Hk Hsel. unfold side_member. destruct (names_peer resource); [done|]. intros (gid & g & Hg & E & Hin).
  destruct (Hsel gid g Hg E Hin) as [g' E']. exists gid, g'. split_and!; [done|done|].
  destruct (se_groups _ _ _ Sel gid g' E') as (g0 & E0 & _ & Hm). apply Hm. simplify_eq. done.
Qed.

(** On a side in the components: on that side in the account. *)
Lemma on_side_down policy rule checks resource groups id :
  active (d_Policies nmd) policy rule → Some policy ∈ c_Policies c →
  (resource, groups, checks) = (pol_SourceResource rule, pol_Sources rule, policy_SourcePostureChecks policy) ∨ checks = [] →
  on_side c resource groups checks id → stands nmd resource groups checks id.
Proof.
  intros Ha Hp Hside [[[p Ek] Hv]%Validate_fails Hm]. apply member_down in Hm. split; [|done].
  destruct (se_peers _ _ _ Sel) as [P V]. pose proof (lookup_weaken _ _ _ _ Ek P) as Ep.
  assert (id ∈ d_ValidatedPeers nmd) as Hval by (apply V; eauto).
  destruct Hside as [[= -> -> ->]| ->]; [|exists p; split_and!; [done|done|set_solver]].
  destruct (se_covered _ _ _ Sel policy rule Ha) as (_ & _ & _ & Hf).
  assert (Hdec : ∀ l : list string, (∀ check, check ∈ l → posture_ok nmd p check = true) ∨ ∃ check, check ∈ l ∧ posture_ok nmd p check = false).
  { induction l as [|x l [IH|(y & ? & ?)]]; [left; set_solver| |right; exists y; set_solver].
    destruct (posture_ok nmd p x) eqn:E; [left; set_solver|right; exists x; set_solver]. }
  destruct (Hdec (policy_SourcePostureChecks policy)) as [Hok|(check & Hc & Hbad)]; [by exists p|].
  destruct (Hf Hp id) as (check' & Hc' & Hfail); [eauto|done| |by destruct (Hv check')].
  intros (q & Eq & _ & Hall). simplify_eq. specialize (Hall check Hc). congruence.
Qed.

(** On a side in the account, and selected: on that side in the components. *)
Lemma on_side_up resource groups checks id :
  stands nmd resource groups checks id → is_Some (c_Peers c !! id) →
  (∀ gid g, gid ∈ groups → d_Groups nmd !! gid = Some g → id ∈ grp_Peers g → is_Some (c_Groups c !! gid)) →
  on_side c resource groups checks id.
Proof.
  intros [(p & Ep & _ & Hok) Hm] Hk Hsel. split; [|by apply member_up]. apply Validate_fails. split; [done|].
  intros check Hc Hf. apply (se_failed _ _ _ Sel) in Hf as (q & Eq & Hbad). simplify_eq.
  rewrite Hok in Hbad by done. done.
Qed.

Lemma links_selected policy rule d id :
  active (d_Policies nmd) policy rule →
  links (sources_in nmd policy rule) (destinations_in nmd rule) (pol_Bidirectional rule) T d id ↔
  Some policy ∈ c_Policies c ∧
  links (sources_of c policy rule) (destinations_of c rule) (pol_Bidirectional rule) T d id.
Proof.
  intros Ha. destruct (se_covered _ _ _ Sel policy rule Ha) as (Hrel & Hsrc & Hdst & _). unfold links.
  assert (HTk : is_Some (c_Peers c !! T)) by (exists target; apply Sel).
  assert (ST : sources_in nmd policy rule T → sources_of c policy rule T).
  { intros H. apply on_side_up; [done|done|]. intros gid g _ E Hin. by eapply (se_own _ _ _ Sel). }
  assert (DT : destinations_in nmd rule T → destinations_of c rule T).
  { intros H. apply on_side_up; [done|done|]. intros gid g _ E Hin. by eapply (se_own _ _ _ Sel). }
  assert (SD : sources_in nmd policy rule T → destinations_in nmd rule id → destinations_of c rule id).
  { intros H1 H2. destruct (Hsrc H1) as [Hg Hk]. apply on_side_up; [done|auto|]. intros; eapply Hg; eauto. }
  assert (DS : destinations_in nmd rule T → sources_in nmd policy rule id → sources_of c policy rule id).
  { intros H1 H2. destruct (Hdst H1) as [Hg Hk]. apply on_side_up; [done|auto|]. intros; eapply Hg; eauto. }
  assert (Sd : ∀ x, Some policy ∈ c_Policies c → sources_of c policy rule x → sources_in nmd policy rule x).
  { intros x Hp Hx. eapply on_side_down; eauto. }
  assert (Dd : ∀ x, Some policy ∈ c_Policies c → destinations_of c rule x → destinations_in nmd rule x).
  { intros x Hp Hx. eapply on_side_down; eauto. }
  pose proof (Sd T). pose proof (Sd id). pose proof (Dd T). pose proof (Dd id). clear Hsrc Hdst Sd Dd Ha HTk.
  split; [|tauto]. intros (Hne & Hl). assert (Some policy ∈ c_Policies c) by (apply Hrel; tauto). tauto.
Qed.

Lemma selected_comp_wf : comp_wf c.
Proof.
  destruct (se_peers _ _ _ Sel) as [P V].
  assert (Hd : ∀ id p, c_Peers c !! id = Some p → d_Peers nmd !! id = Some p) by (intros; by eapply lookup_weaken).
  assert (Ha : ∀ policy rule, active (c_Policies c) policy rule → active (d_Policies nmd) policy rule).
  { intros policy rule (Hp & ?). split; [|done]. by apply (se_policies _ _ _ Sel). }
  split.
  - intros id p E. apply (aw_ids _ W). auto.
  - intros id [p E] gid g Eg HA. apply (se_groups _ _ _ Sel) in Eg as (g0 & E0 & EA & Hm). apply Hm. split; [|eauto].
    eapply (aw_all _ W); [eauto|done|congruence].
  - intros p1 r1 p2 r2 id1 q1 id2 q2 a1 a2 A1 A2 E1%Hd E2%Hd. eapply (aw_rules _ W); eauto.
  - intros id1 p1 id2 p2 s E1%Hd E2%Hd. rewrite !peer_addrs_ips.
    intros (a & -> & H1)%list_elem_of_fmap (b & E & H2)%list_elem_of_fmap.
    pose proof (aw_plain _ W _ _ E1) as F1. pose proof (aw_plain _ W _ _ E2) as F2. rewrite Forall_forall in F1, F2.
    apply addr_String_inj in E as <-; [by eapply (aw_addrs _ W)|auto..].
  - intros id p E%Hd. destruct (aw_family _ W _ _ E) as [F4 F6]. pose proof (aw_plain _ W _ _ E) as Hp.
    unfold peer_addrs, peer_ips in *. destruct (IsValid (p_IPv6 p)); [|apply NoDup_singleton].
    rewrite !Forall_cons in Hp. destruct Hp as (H1 & H2 & _). apply NoDup_cons. split; [|apply NoDup_singleton].
    intros E'%list_elem_of_singleton. apply addr_String_inj in E'; [|done..]. congruence.
Qed.

(** What the policies of the account ask of a pair of peers. *)
Definition asked (policy : Policy) (rule : PolicyRule) (d : Z) (id : string) (p : Peer) : Prop :=
  active (d_Policies nmd) policy rule ∧ d_Peers nmd !! id = Some p ∧
  links (sources_in nmd policy rule) (destinations_in nmd rule) (pol_Bidirectional rule) T d id.

Lemma links_stands S D b d id :
  links S D b T d id → (S id ∨ D id) ∧ (S T ∨ D T).
Proof. unfold links. tauto. Qed.

Lemma asked_selected policy rule d id p :
  asked policy rule d id p ↔
  active (c_Policies c) policy rule ∧ c_Peers c !! id = Some p ∧
  links (sources_of c policy rule) (destinations_of c rule) (pol_Bidirectional rule) T d id.
Proof.
  destruct (se_peers _ _ _ Sel) as [P V]. split.
  - intros (Ha & Ep & Hl). apply links_selected in Hl as [Hp Hl]; [|done].
    destruct (links_stands _ _ _ _ _ Hl) as [Hs _].
    assert (is_Some (c_Peers c !! id)) as [q Eq].
    { destruct Hs as [[Hv _]|[Hv _]]; by eapply Validate_known. }
    pose proof (lookup_weaken _ _ _ _ Eq P). simplify_eq. split_and!; [|done|done].
    destruct Ha as (_ & ?). by split.
  - intros (Ha & Ep & Hl). destruct Ha as (Hp & Hr).
    assert (active (d_Policies nmd) policy rule) as Ha by (split; [by apply (se_policies _ _ _ Sel)|done]).
    split_and!; [done|by eapply lookup_weaken|]. by apply links_selected.
Qed.

Lemma account_rules fr :
  fr ∈ (getPeerConnectionResources pick c T).1.1.2 ↔
  ∃ policy rule d id p, asked policy rule d id p ∧ fr ∈ call_rules target (rule, d, p).
Proof.
  rewrite (component_rules pick c selected_comp_wf T target fr (se_target _ _ _ Sel)).
  setoid_rewrite asked_selected. naive_solver.
Qed.

Lemma account_peers :
  NoDup (p_ID <$> (getPeerConnectionResources pick c T).1.1.1) ∧
  ∀ p, p ∈ (getPeerConnectionResources pick c T).1.1.1 ↔ ∃ policy rule d id, asked policy rule d id p.
Proof.
  destruct (component_peers pick c selected_comp_wf T target (se_target _ _ _ Sel)) as [H1 H2].
  split; [done|]. intros p. rewrite H2. setoid_rewrite asked_selected. done.
Qed.
End Selected.

(** ** The map that is sent *)

Section Sent.
Context (now : string → Z) (SafeString : list string → string) (ToASCII : string → option string).

Lemma Calculate_spec c settings dns :
  c_AccountSettings c = Some settings → c_DNSSettings c = Some dns →
  ∃ m, Calculate pick now SafeString ToASCII c = Some m ∧
    let acl := (getPeerConnectionResources pick c (c_PeerID c)).1.1 in
    let connect := filter (λ p, login_expired now settings p = false) acl.1 in
    let expired := filter (λ p, login_expired now settings p = true) acl.1 in
    let '(isRouter, routes, sourcePeers) := getNetworkResourcesRoutesToSync pick ToASCII c (c_PeerID c) in
    m_FirewallRules m = acl.2 ∧ m_OfflinePeers m = expired ∧
    m_Peers m = addNetworksRoutingPeers pick c routes (c_PeerID c) connect expired isRouter sourcePeers.
Proof.
  intros Es Ed. unfold Calculate.
  destruct (getPeerConnectionResources pick c (c_PeerID c)) as [[[acl rules] users] ssh] eqn:Ea. cbn [fst snd].
  assert (filterPeersByLoginExpiration now c acl =
          Some (filter (λ p, login_expired now settings p = false) acl, filter (λ p, login_expired now settings p = true) acl)) as ->.
  { unfold filterPeersByLoginExpiration. rewrite Es. by destruct acl. }
  cbn [mbind option_bind]. destruct (getNetworkResourcesRoutesToSync pick ToASCII c (c_PeerID c)) as [[isRouter routes] sourcePeers].
  unfold getPeerDNSManagementStatusFromGroups. rewrite Ed. simpl. eauto.
Qed.
End Sent.
End Account.
