(* ===== verification/NetMapEncode.v ===== *)
(** * The network map on the wire

    [shared/management/networkmap/encode.go] and the map part of
    [ToSyncResponse]: firewall rules, route rules, routes and remote peers as
    protocol messages.  The messages are those the ACL manager reads. *)
From S2P Require Import Prelude NetIP Bytes NetParse Order NetipUtil AclManager NmData FwGen NetMap.
Open Scope Z_scope.

Notation ProtoRule := AclManager.FirewallRule.
Notation ProtoRouteRule := AclManager.RouteFirewallRule.
Notation ProtoMap := AclManager.NetworkMap.

Definition RuleProtocol_UNKNOWN : Z := 0.
Definition RuleProtocol_NETBIRD_SSH : Z := 6.

Definition GetProtoDirection (direction : Z) : Z :=
  if direction =? FirewallRuleDirectionOUT then RuleDirection_OUT else RuleDirection_IN.

Definition GetProtoAction (action : string) : Z :=
  if String.eqb action PolicyTrafficActionDrop then RuleAction_DROP else RuleAction_ACCEPT.

Definition GetProtoProtocol (protocol : string) : Z :=
  if String.eqb protocol PolicyRuleProtocolALL then RuleProtocol_ALL
  else if String.eqb protocol PolicyRuleProtocolTCP then RuleProtocol_TCP
  else if String.eqb protocol PolicyRuleProtocolUDP then RuleProtocol_UDP
  else if String.eqb protocol PolicyRuleProtocolICMP then RuleProtocol_ICMP
  else if String.eqb protocol PolicyRuleProtocolNetbirdSSH then RuleProtocol_NETBIRD_SSH
  else RuleProtocol_UNKNOWN.

(** [RulePortRange.ToProto]. *)
Definition range_ToProto (r : RulePortRange) : PortInfo :=
  PortRange_ (Some {| rng_Start := pr_Start r; rng_End := pr_End r |}).

Definition GetProtoPortInfo (rule : RouteFirewallRule) : PortInfo :=
  if negb (r_Port rule =? 0) then PortSingle (r_Port rule)
  else if negb (pr_Start (r_PortRange rule) =? 0) && negb (pr_End (r_PortRange rule) =? 0)
  then range_ToProto (r_PortRange rule)
  else PortUnset.

Definition ShouldUsePortRange (port : string) (protocol : Z) : bool :=
  String.eqb port "" && ((protocol =? RuleProtocol_UDP) || (protocol =? RuleProtocol_TCP)).

(** A rule with the given text address and source prefixes. *)
Definition proto_rule (rule : FirewallRule) (peerIP : string) (prefixes : list (list Z)) : ProtoRule :=
  {| fr_PeerIP := peerIP; fr_Direction := GetProtoDirection (f_Direction rule);
     fr_Action := GetProtoAction (f_Action rule); fr_Protocol := GetProtoProtocol (f_Protocol rule);
     fr_Port := f_Port rule;
     fr_PortInfo := if ShouldUsePortRange (f_Port rule) (GetProtoProtocol (f_Protocol rule))
                    then Some (range_ToProto (f_PortRange rule)) else None;
     fr_PolicyID := codes (f_PolicyID rule); fr_SourcePrefixes := prefixes |}.

Definition v4Wildcard : list Z := default [] (EncodePrefix (PrefixFrom (AddrV4 0) 0)).
Definition v6Wildcard : list Z := default [] (EncodePrefix (PrefixFrom (AddrV6 0 "") 0)).

(** The source prefixes of the rule and the additional rules. *)
Definition populateSourcePrefixes (rule : FirewallRule) (includeIPv6 : bool) : list (list Z) * list ProtoRule :=
  match ParseAddr (f_PeerIP rule) with
  | None => ([], [])
  | Some addr =>
      if negb (IsUnspecified addr) then ([EncodeAddr (Unmap addr)], [])
      else ([v4Wildcard], if includeIPv6 then [proto_rule rule "::" [v6Wildcard]] else [])
  end.

Definition proto_rules (includeIPv6 useSourcePrefixes : bool) (rule : FirewallRule) : list ProtoRule :=
  let '(prefixes, extra) :=
    if useSourcePrefixes && negb (String.eqb (f_PeerIP rule) "")
    then populateSourcePrefixes rule includeIPv6 else ([], []) in
  extra ++ [proto_rule rule (f_PeerIP rule) prefixes].

Definition ToProtocolFirewallRules (rules : list FirewallRule) (includeIPv6 useSourcePrefixes : bool)
    : list ProtoRule :=
  rules ≫= proto_rules includeIPv6 useSourcePrefixes.

Definition proto_route_rule (rule : RouteFirewallRule) : ProtoRouteRule :=
  {| rf_SourceRanges := r_SourceRanges rule; rf_Action := GetProtoAction (r_Action rule);
     rf_Destination := r_Destination rule; rf_Protocol := GetProtoProtocol (r_Protocol rule);
     rf_PortInfo := Some (GetProtoPortInfo rule); rf_IsDynamic := r_IsDynamic rule;
     rf_Domains := default [] (r_Domains rule); rf_PolicyID := codes (r_PolicyID rule) |}.

Definition ToProtocolRoutesFirewallRules (rules : list RouteFirewallRule) : list ProtoRouteRule :=
  proto_route_rule <$> rules.

(** The rules of the map in [ToSyncResponse]. *)
Definition sync_rules (peer : Peer) (m : NetworkMap) : ProtoMap :=
  let includeIPv6 := SupportsIPv6 peer && IsValid (p_IPv6 peer) in
  let firewallRules := ToProtocolFirewallRules (m_FirewallRules m) includeIPv6 (SupportsSourcePrefixes peer) in
  let routesFirewallRules := ToProtocolRoutesFirewallRules (m_RoutesFirewallRules m) in
  {| nm_FirewallRules := firewallRules;
     nm_FirewallRulesIsEmpty := (length firewallRules =? 0)%nat;
     nm_RoutesFirewallRules := routesFirewallRules;
     nm_RoutesFirewallRulesIsEmpty := (length routesFirewallRules =? 0)%nat |}.

(** [AppendRemotePeerConfig]: key and allowed addresses of a remote peer. *)
Record RemotePeerConfig := {
  rp_WgPubKey : string;
  rp_AllowedIps : list string;
  rp_Fqdn : string;
  rp_Lazy : bool;
}.

Definition lazyStateFor (localIsProxy : bool) (rPeer : Peer) : bool :=
  localIsProxy || pm_Embedded (p_ProxyMeta rPeer).

Definition AppendRemotePeerConfig (dst : list RemotePeerConfig) (peers : list Peer) (dnsName : string)
    (includeIPv6 localIsProxy : bool) : list RemotePeerConfig :=
  dst ++ ((λ rPeer,
    {| rp_WgPubKey := p_Key rPeer;
       rp_AllowedIps := (addr_String (p_IP rPeer) +:+ "/32") ::
         (if includeIPv6 && IsValid (p_IPv6 rPeer) then [addr_String (p_IPv6 rPeer) +:+ "/128"] else []);
       rp_Fqdn := FQDN rPeer dnsName; rp_Lazy := lazyStateFor localIsProxy rPeer |}) <$> peers).
