(* ===== verification/NetMapPolicy.v ===== *)
(** * From the policies of an account to the rules a peer enforces

    The firewall rules of a network map, as the client reads them from the
    wire, decide about packets what the policies of the account decide. *)
From S2P Require Import Prelude NetIP Bytes NetParse Order FwTypes NetipUtil AddrText AclManager AclPolicy NmData FwGen.
From S2P Require Import NetMap NetMapBuild NetMapFacts NetMapSelect NetMapExact NetMapEncode.
Open Scope Z_scope.

(** ** The ports of a policy rule *)

(** Ports are numbers, ranges run from port 1, and only protocols with ports
    have them: what the management API accepts. *)
Definition with_ports (rule : PolicyRule) : Prop :=
  pol_Protocol rule = PolicyRuleProtocolTCP ∨ pol_Protocol rule = PolicyRuleProtocolUDP ∨
  pol_Protocol rule = PolicyRuleProtocolNetbirdSSH.

Record rule_valid (rule : PolicyRule) : Prop := {
  rv_proto : with_ports rule ∨
    (pol_Protocol rule = PolicyRuleProtocolALL ∨ pol_Protocol rule = PolicyRuleProtocolICMP) ∧
    pol_Ports rule = [] ∧ pol_PortRanges rule = [];
  rv_ports : Forall (λ s, ∃ p, ParseUint 16 s = Some p) (pol_Ports rule);
  rv_ranges : Forall (λ r, 1 <= pr_Start r <= 65535 ∧ 1 <= pr_End r <= 65535) (pol_PortRanges rule);
}.

Definition in_range (port : Z) (r : RulePortRange) : bool := (pr_Start r <=? port) && (port <=? pr_End r).

Section Ports.
Context {VL : VersionLib}.

(** The ranges a target understands. *)
Definition usable_ranges (target : Peer) (rule : PolicyRule) : list RulePortRange :=
  if portRanges (peerSupportedFirewallFeatures (meta_WtVersion (p_Meta target))) then pol_PortRanges rule
  else filter (λ r, pr_Start r = pr_End r) (pol_PortRanges rule).

(** The port is named by the rule; ranges count when there are no ports. *)
Definition named_port (target : Peer) (rule : PolicyRule) (port : Z) : bool :=
  existsb (λ s, bool_decide (ParseUint 16 s = Some port)) (pol_Ports rule) ||
  ((length (pol_Ports rule) =? 0)%nat && existsb (in_range port) (usable_ranges target rule)).

(** The native SSH port stands in for port 22. *)
Definition native_ssh (target : Peer) (rule : PolicyRule) : bool :=
  (shouldCheckRulesForNativeSSH (nativeSSH (peerSupportedFirewallFeatures (meta_WtVersion (p_Meta target)))) rule target ||
   String.eqb (pol_Protocol rule) PolicyRuleProtocolNetbirdSSH) &&
  (bool_decide ("22" ∈ pol_Ports rule) ||
   ((length (pol_Ports rule) =? 0)%nat && existsb (in_range 22) (usable_ranges target rule))).

Definition port_allows (target : Peer) (rule : PolicyRule) (port : Z) : bool :=
  ((length (pol_Ports rule) =? 0)%nat && (length (pol_PortRanges rule) =? 0)%nat) ||
  named_port target rule port || (native_ssh target rule && (port =? nativeSSHPortNumber)).

(** ** What a generated rule allows *)

(** The port restriction the client reads from a rule. *)
Definition wire_port (fr : FirewallRule) : option (option Port) := rule_port (proto_rule fr (f_PeerIP fr) []).

Lemma wire_port_any fr ip prefixes : rule_port (proto_rule fr ip prefixes) = wire_port fr.
Proof. done. Qed.

Definition fr_allows (fr : FirewallRule) (port : Z) : Prop :=
  ∃ p, wire_port fr = Some p ∧ port_ok p port = true.

(** The rule is for a protocol with ports. *)
Definition ported (fr : FirewallRule) : Prop :=
  f_Protocol fr = PolicyRuleProtocolTCP ∨ f_Protocol fr = PolicyRuleProtocolUDP.

Lemma wire_port_named base s p :
  ParseUint 16 s = Some p → wire_port (with_port base s) = Some (Some {| IsRange := false; Values := [p] |}).
Proof.
  intros Hp. unfold wire_port, rule_port, proto_rule. simpl.
  assert (Hs : String.eqb s "" = false) by (by destruct s).
  unfold ShouldUsePortRange. rewrite Hs. simpl. unfold legacy_port. by rewrite Hs, Hp.
Qed.

Lemma wire_port_range base r :
  f_Port base = "" → ported base → 1 <= pr_Start r <= 65535 → 1 <= pr_End r <= 65535 →
  wire_port (with_range base r) = Some (Some {| IsRange := true; Values := [pr_Start r; pr_End r] |}).
Proof.
  intros He Hp Hs Hen. unfold wire_port, rule_port, proto_rule. simpl. unfold ShouldUsePortRange. rewrite He.
  assert (E : (GetProtoProtocol (f_Protocol base) =? RuleProtocol_UDP) || (GetProtoProtocol (f_Protocol base) =? RuleProtocol_TCP) = true).
  { by destruct Hp as [-> | ->]. }
  rewrite E. simpl. destruct (pr_Start r =? 0) eqn:E1; [bools; lia|]. destruct (pr_End r =? 0) eqn:E2; [bools; lia|]. done.
Qed.

Lemma wire_port_base base : f_Port base = "" → f_PortRange base = noRange → wire_port base = Some None.
Proof.
  intros He Hr. unfold wire_port, rule_port, proto_rule. simpl. rewrite He, Hr.
  destruct (ShouldUsePortRange _ _); done.
Qed.

Lemma fr_allows_named base s p port :
  ParseUint 16 s = Some p → fr_allows (with_port base s) port ↔ p = port.
Proof.
  intros Hp. unfold fr_allows. rewrite (wire_port_named base s p Hp). split.
  - intros (q & [= <-] & H). simpl in H. bools. by destruct H.
  - intros ->. eexists. split; [done|]. simpl. by rewrite Z.eqb_refl.
Qed.

Lemma fr_allows_range base r port :
  f_Port base = "" → ported base → 1 <= pr_Start r <= 65535 → 1 <= pr_End r <= 65535 →
  fr_allows (with_range base r) port ↔ in_range port r = true.
Proof.
  intros He Hp Hs Hen. unfold fr_allows. rewrite (wire_port_range base r) by done. unfold in_range. split.
  - by intros (q & [= <-] & H).
  - intros H. eexists. by split.
Qed.

(** ** Decimal ports *)

Lemma dec_22 p : 0 <= p < 65536 → dec p = "22" ↔ p = 22.
Proof.
  intros Hp. split; [|by intros ->]. intros E. apply (ParseUint_dec 16) in Hp. rewrite E in Hp.
  vm_compute in Hp. congruence.
Qed.

Lemma dec_22022 p : 0 <= p < 65536 → dec p = "22022" ↔ p = 22022.
Proof.
  intros Hp. split; [|by intros ->]. intros E. apply (ParseUint_dec 16) in Hp. rewrite E in Hp.
  vm_compute in Hp. congruence.
Qed.

(** ** The expansion of a rule *)

Section Expansion.
Context (target : Peer) (rule : PolicyRule) (base : FirewallRule).
Context (V : rule_valid rule) (Hport : f_Port base = "") (Hrange : f_PortRange base = noRange) (Hproto : ported base).

Notation features := (peerSupportedFirewallFeatures (meta_WtVersion (p_Meta target))).

Definition range_rule (r : RulePortRange) : FirewallRule :=
  if portRanges features then with_range base r else with_port base (dec (pr_Start r)).

Definition expanded : list FirewallRule :=
  (with_port base <$> pol_Ports rule) ++
  (if (0 <? length (pol_Ports rule))%nat then [] else pol_PortRanges rule ≫= expand_range features base).

Lemma usable_valid r :
  r ∈ usable_ranges target rule → 1 <= pr_Start r <= 65535 ∧ 1 <= pr_End r <= 65535 ∧
    (portRanges features = false → pr_Start r = pr_End r).
Proof.
  pose proof (rv_ranges _ V) as Hv. rewrite Forall_forall in Hv. unfold usable_ranges.
  destruct (portRanges features).
  - intros Hr. destruct (Hv r Hr). done.
  - rewrite list_elem_of_filter. intros [E Hr]. destruct (Hv r Hr). done.
Qed.

Lemma in_expanded fr :
  fr ∈ expanded ↔ (∃ s, s ∈ pol_Ports rule ∧ fr = with_port base s) ∨
    pol_Ports rule = [] ∧ ∃ r, r ∈ usable_ranges target rule ∧ fr = range_rule r.
Proof.
  unfold expanded, usable_ranges, range_rule. rewrite elem_of_app, list_elem_of_fmap.
  assert (Hr : fr ∈ pol_PortRanges rule ≫= expand_range features base ↔
    ∃ r, r ∈ (if portRanges features then pol_PortRanges rule else filter (λ r, pr_Start r = pr_End r) (pol_PortRanges rule)) ∧
      fr = (if portRanges features then with_range base r else with_port base (dec (pr_Start r)))).
  { rewrite list_elem_of_bind. unfold expand_range. destruct (portRanges features).
    - setoid_rewrite list_elem_of_singleton. naive_solver.
    - setoid_rewrite list_elem_of_filter. split.
      + intros (r & Hin & Hr). destruct (Z.eqb_spec (pr_Start r) (pr_End r)); [|by apply elem_of_nil in Hin].
        apply list_elem_of_singleton in Hin. eauto 10.
      + intros (r & [E Hr] & ->). exists r. split; [|done]. rewrite E, Z.eqb_refl. by left. }
  destruct (pol_Ports rule) as [|s l]; simpl.
  - rewrite Hr. split; [intros [(? & _ & Habs)|?]; [by apply elem_of_nil in Habs|auto]|].
    intros [(? & Habs & _)|[_ ?]]; [by apply elem_of_nil in Habs|auto].
  - split; [intros [(x & -> & ?)|Habs]; [eauto|by apply elem_of_nil in Habs]|]. intros [(x & ? & ->)|[? _]]; [eauto|done].
Qed.

Lemma range_rule_allows r port :
  r ∈ usable_ranges target rule → fr_allows (range_rule r) port ↔ in_range port r = true.
Proof.
  intros (Hs & He & Hu)%usable_valid. unfold range_rule. destruct (portRanges features) eqn:Ep.
  - by apply fr_allows_range.
  - rewrite (fr_allows_named base _ (pr_Start r)) by (apply ParseUint_dec; simpl; lia).
    unfold in_range. rewrite <- Hu by done. rewrite andb_true_iff, !Z.leb_le. lia.
Qed.

(** A rule that contains the native or the default SSH port. *)
Lemma range_rule_has r text n :
  r ∈ usable_ranges target rule → text ≠ "" → 0 < n < 65536 → (∀ p, 0 <= p < 65536 → dec p = text ↔ p = n) →
  isPortInRule text n (range_rule r) = in_range n r.
Proof.
  intros (Hs & He & Hu)%usable_valid Ht Hn Hd. unfold isPortInRule, range_rule, in_range.
  destruct (portRanges features) eqn:Ep; cbn [f_Port f_PortRange with_range with_port].
  - rewrite Hport. by assert (String.eqb "" text = false) as -> by (by destruct text).
  - rewrite Hrange. cbn [pr_Start pr_End noRange]. rewrite <- Hu by done.
    apply eq_true_iff_eq. rewrite orb_true_iff, !andb_true_iff, !Z.leb_le, String.eqb_eq, Hd by lia. lia.
Qed.

Lemma port_rule_has s text n :
  0 < n → isPortInRule text n (with_port base s) = String.eqb s text.
Proof.
  intros Hn. unfold isPortInRule. simpl. rewrite Hrange. simpl.
  destruct (n <=? 0) eqn:E; [bools; lia|]. by rewrite andb_false_r, orb_false_r.
Qed.

Lemma expanded_allows port :
  (∃ fr, fr ∈ expanded ∧ fr_allows fr port) ↔ named_port target rule port = true.
Proof.
  unfold named_port. rewrite orb_true_iff, andb_true_iff, !existsb_exists.
  setoid_rewrite <- list_elem_of_In. setoid_rewrite bool_decide_eq_true. rewrite Nat.eqb_eq, length_zero_iff_nil.
  pose proof (rv_ports _ V) as Hv. rewrite Forall_forall in Hv. split.
  - intros (fr & Hin & Ha). apply in_expanded in Hin as [(s & Hs & ->)|(Hn & r & Hr & ->)].
    + left. destruct (Hv s Hs) as [p Hp]. apply (fr_allows_named base s p port Hp) in Ha as ->. eauto.
    + right. split; [done|]. exists r. split; [done|]. by apply range_rule_allows.
  - intros [(s & Hs & Hp)|(Hn & r & Hr & Hi)].
    + exists (with_port base s). split; [apply in_expanded; eauto|]. by apply (fr_allows_named base s port).
    + exists (range_rule r). split; [apply in_expanded; eauto 10|]. by apply range_rule_allows.
Qed.

Lemma ssh_scan_spec b l :
  ssh_scan b l = if existsb (isPortInRule nativeSSHPortString 22022) l then None
                 else Some (b || existsb (isPortInRule defaultSSHPortString 22) l).
Proof.
  revert b. induction l as [|fr l IH]; intros b; simpl; [by rewrite orb_false_r|].
  destruct (isPortInRule nativeSSHPortString 22022 fr); simpl; [done|]. rewrite IH. by rewrite orb_assoc.
Qed.

Lemma expanded_native :
  existsb (isPortInRule nativeSSHPortString 22022) expanded = true → named_port target rule 22022 = true.
Proof.
  rewrite existsb_exists. setoid_rewrite <- list_elem_of_In. intros (fr & Hin & Hi). apply expanded_allows.
  exists fr. split; [done|]. apply in_expanded in Hin as [(s & Hs & ->)|(Hn & r & Hr & ->)].
  - rewrite port_rule_has in Hi by lia. apply String.eqb_eq in Hi as ->. by apply (fr_allows_named base _ 22022).
  - rewrite (range_rule_has r) in Hi; [|done|done|lia|apply dec_22022]. by apply range_rule_allows.
Qed.

Lemma expanded_default :
  existsb (isPortInRule defaultSSHPortString 22) expanded =
  bool_decide ("22" ∈ pol_Ports rule) || ((length (pol_Ports rule) =? 0)%nat && existsb (in_range 22) (usable_ranges target rule)).
Proof.
  apply eq_true_iff_eq. rewrite orb_true_iff, andb_true_iff, bool_decide_eq_true, !existsb_exists.
  setoid_rewrite <- list_elem_of_In. rewrite Nat.eqb_eq, length_zero_iff_nil. split.
  - intros (fr & Hin & Hi). apply in_expanded in Hin as [(s & Hs & ->)|(Hn & r & Hr & ->)].
    + rewrite port_rule_has in Hi by lia. apply String.eqb_eq in Hi as ->. by left.
    + rewrite (range_rule_has r) in Hi; [|done|done|lia|apply dec_22]. right. eauto.
  - intros [Hs|(Hn & r & Hr & Hi)].
    + exists (with_port base "22"). split; [apply in_expanded; eauto|]. by rewrite port_rule_has by lia.
    + exists (range_rule r). split; [apply in_expanded; eauto 10|].
      by rewrite (range_rule_has r); [|done|done|lia|apply dec_22].
Qed.

(** The rules generated for an address allow the ports of the policy rule. *)
Lemma expand_rule_allows port :
  (∃ fr, fr ∈ expand_rule base rule target ∧ fr_allows fr port) ↔ port_allows target rule port = true.
Proof.
  unfold expand_rule, port_allows. destruct ((length (pol_Ports rule) =? 0)%nat && (length (pol_PortRanges rule) =? 0)%nat).
  { split; [done|]. intros _. exists base. split; [by left|]. exists None. split; [by apply wire_port_base|done]. }
  rewrite orb_false_l, orb_true_iff, <- expanded_allows. unfold ExpandPortsAndRanges, native_ssh. fold expanded.
  rewrite <- expanded_default. destruct (shouldCheckRulesForNativeSSH _ _ _ || _).
  2:{ rewrite andb_false_l. naive_solver. }
  rewrite andb_true_l. unfold addNativeSSHRule. rewrite ssh_scan_spec. pose proof expanded_native as Hnat.
  rewrite <- expanded_allows in Hnat. rewrite andb_true_iff, Z.eqb_eq. unfold nativeSSHPortNumber.
  destruct (existsb (isPortInRule nativeSSHPortString 22022) expanded).
  { split; [by left|]. intros [?|[_ ->]]; [done|]. by apply Hnat. }
  rewrite orb_false_l. destruct (existsb (isPortInRule defaultSSHPortString 22) expanded).
  - pose proof (fr_allows_named base nativeSSHPortString 22022 port eq_refl) as Hn. split.
    + intros (fr & [?| ->%list_elem_of_singleton]%elem_of_app & Ha); [by left; exists fr|]. right. split; [done|]. symmetry. by apply Hn.
    + intros [(fr & ? & ?)|[_ ->]]; [exists fr; split; [apply elem_of_app; by left|done]|].
      eexists. split; [apply elem_of_app; right; by left|]. by apply Hn.
  - split; [by left|]. by intros [?|[? _]].
Qed.
End Expansion.

(** ** Packets *)

(** A policy rule covers the protocol and the port of a packet. *)
Definition policy_covers (target : Peer) (rule : PolicyRule) (d : decoder) (pl : LayerType) : bool :=
  if String.eqb (pol_Protocol rule) PolicyRuleProtocolALL then true
  else match pl with
       | LayerTypeTCP => String.eqb (fw_protocol rule) PolicyRuleProtocolTCP && port_allows target rule (tcp_DstPort (d_tcp d))
       | LayerTypeUDP => String.eqb (fw_protocol rule) PolicyRuleProtocolUDP && port_allows target rule (udp_DstPort (d_udp d))
       | LayerTypeICMPv4 | LayerTypeICMPv6 => String.eqb (pol_Protocol rule) PolicyRuleProtocolICMP
       | _ => false
       end.

(** What a generated rule says about the protocol and port of a packet. *)
Definition fr_covers (fr : FirewallRule) (d : decoder) (pl : LayerType) : Prop :=
  ∃ port, wire_port fr = Some port ∧ proto_covers (GetProtoProtocol (f_Protocol fr)) port d pl = true.

Lemma expand_rule_fields base rule target fr :
  fr ∈ expand_rule base rule target →
  f_PeerIP fr = f_PeerIP base ∧ f_Direction fr = f_Direction base ∧ f_Action fr = f_Action base ∧
  f_Protocol fr = f_Protocol base.
Proof.
  unfold expand_rule. destruct (_ && _); [by intros ->%list_elem_of_singleton|].
  assert (Hn : ∀ l, (∀ x, x ∈ l → f_PeerIP x = f_PeerIP base ∧ f_Direction x = f_Direction base ∧
      f_Action x = f_Action base ∧ f_Protocol x = f_Protocol base) → fr ∈ addNativeSSHRule base l ∨ fr ∈ l →
      f_PeerIP fr = f_PeerIP base ∧ f_Direction fr = f_Direction base ∧ f_Action fr = f_Action base ∧
      f_Protocol fr = f_Protocol base).
  { intros l Hl [Hin|?]; [|auto]. unfold addNativeSSHRule in Hin. destruct (ssh_scan false l) as [[|]|]; auto.
    apply elem_of_app in Hin as [?| ->%list_elem_of_singleton]; auto. }
  unfold ExpandPortsAndRanges. intros Hin. eapply Hn; [|destruct (_ || _); [left|right]; exact Hin]. clear Hn Hin.
  intros x [(s & -> & _)%list_elem_of_fmap|Hx]%elem_of_app; [done|].
  destruct (0 <? length (pol_Ports rule))%nat; [by apply elem_of_nil in Hx|].
  apply list_elem_of_bind in Hx as (r & Hx & _). unfold expand_range in Hx.
  destruct (portRanges _); [by apply list_elem_of_singleton in Hx as ->|].
  destruct (_ =? _); [by apply list_elem_of_singleton in Hx as ->|by apply elem_of_nil in Hx].
Qed.

Lemma fw_protocol_cases rule :
  rule_valid rule →
  (fw_protocol rule = PolicyRuleProtocolTCP ∧ pol_Protocol rule ≠ PolicyRuleProtocolALL ∧ pol_Protocol rule ≠ PolicyRuleProtocolICMP) ∨
  (fw_protocol rule = PolicyRuleProtocolUDP ∧ pol_Protocol rule ≠ PolicyRuleProtocolALL ∧ pol_Protocol rule ≠ PolicyRuleProtocolICMP) ∨
  ((fw_protocol rule = PolicyRuleProtocolALL ∧ pol_Protocol rule = PolicyRuleProtocolALL ∨
    fw_protocol rule = PolicyRuleProtocolICMP ∧ pol_Protocol rule = PolicyRuleProtocolICMP) ∧
   pol_Ports rule = [] ∧ pol_PortRanges rule = []).
Proof.
  intros V. unfold fw_protocol. destruct (rv_proto _ V) as [[-> | [-> | ->]]|[[-> | ->] ?]]; simpl; auto 10.
Qed.

(** The rules of an address cover the packets the policy rule covers. *)
Lemma expand_rule_covers rule ip dir target d pl :
  rule_valid rule →
  (∃ fr, fr ∈ expand_rule (base_rule rule ip (rule_context rule dir)) rule target ∧ fr_covers fr d pl) ↔
  policy_covers target rule d pl = true.
Proof.
  intros V. set (base := base_rule rule ip (rule_context rule dir)).
  assert (Hf : ∀ fr, fr ∈ expand_rule base rule target → f_Protocol fr = fw_protocol rule).
  { intros fr Hfr. apply expand_rule_fields in Hfr as (_ & _ & _ & ->). done. }
  assert (Hc : (∃ fr, fr ∈ expand_rule base rule target ∧ fr_covers fr d pl) ↔
    ∃ fr, fr ∈ expand_rule base rule target ∧ ∃ port, wire_port fr = Some port ∧
      proto_covers (GetProtoProtocol (fw_protocol rule)) port d pl = true).
  { unfold fr_covers. split; intros (fr & Hfr & H); exists fr; (split; [done|]); [rewrite <- (Hf fr Hfr)|rewrite (Hf fr Hfr)]; done. }
  rewrite Hc. clear Hc Hf. unfold policy_covers. pose proof (expand_rule_allows target rule base V eq_refl eq_refl) as Hall.
  destruct (fw_protocol_cases rule V) as [(Ef & Na & Ni)|[(Ef & Na & Ni)|([[Ef Ep]|[Ef Ep]] & Hp & Hr)]].
  - specialize (Hall (or_introl Ef)). rewrite Ef. apply String.eqb_neq in Na, Ni. rewrite Na, Ni.
    destruct pl; try (split; [intros (? & ? & ? & _ & H); discriminate H|discriminate]). apply Hall.
  - specialize (Hall (or_intror Ef)). rewrite Ef. apply String.eqb_neq in Na, Ni. rewrite Na, Ni.
    destruct pl; try (split; [intros (? & ? & ? & _ & H); discriminate H|discriminate]). apply Hall.
  - rewrite Ef, Ep. simpl. split; [done|]. intros _. exists base. unfold expand_rule. rewrite Hp, Hr.
    split; [by left|]. exists None. split; [by apply wire_port_base|done].
  - rewrite Ef, Ep. simpl. unfold expand_rule. rewrite Hp, Hr. simpl. split.
    + intros (fr & Hfr & port & _ & H). by destruct pl.
    + intros H. exists base. split; [by left|]. exists None. split; [by apply wire_port_base|]. by destruct pl.
Qed.
End Ports.

(** ** A rule on the wire *)

Lemma extract_wire fr a use inc pr :
  plain_addr a → IsUnspecified a = false → f_PeerIP fr = addr_String a →
  pr ∈ proto_rules inc use fr →
  extractRuleSources pr = Some [PrefixFrom a (BitLen a)] ∧ ∃ prefixes, pr = proto_rule fr (f_PeerIP fr) prefixes.
Proof.
  intros Hp Hu E. pose proof (ParseAddr_String a Hp) as Hparse. destruct Hp as (Hwf & Hv & Hz & H4).
  assert (Hum : Unmap a = a) by (by apply Unmap_id).
  unfold proto_rules, populateSourcePrefixes. rewrite E, Hparse, Hu. simpl negb.
  destruct (use && _); intros ->%list_elem_of_singleton; (split; [|eauto]); unfold extractRuleSources; cbn [fr_SourcePrefixes fr_PeerIP proto_rule].
  - cbn [decodeSources]. rewrite Hum, DecodeAddr_EncodeAddr by done. cbn [decodeSources fmap option_fmap option_map]. by rewrite !Hum.
  - by rewrite Hparse, Hum, Hu.
Qed.

Lemma proto_rules_one fr use inc :
  ∃ pr, pr ∈ proto_rules inc use fr ∧ ∃ prefixes, pr = proto_rule fr (f_PeerIP fr) prefixes.
Proof.
  unfold proto_rules. destruct (if use && _ then _ else _) as [prefixes extra]. eexists. split; [|eauto].
  apply elem_of_app. right. by left.
Qed.

Lemma proto_rules_action inc use fr pr :
  pr ∈ proto_rules inc use fr → fr_Action pr = GetProtoAction (f_Action fr).
Proof.
  unfold proto_rules. destruct (use && _).
  - unfold populateSourcePrefixes. destruct (ParseAddr _); [destruct (negb _); [|destruct inc]|];
      rewrite ?elem_of_app, ?elem_of_cons, elem_of_nil; naive_solver.
  - by intros ->%list_elem_of_singleton.
Qed.

(** The client reads from the wire what the rule says. *)
Lemma wire_covers fr a use inc pr src d pl :
  plain_addr a → IsUnspecified a = false → f_PeerIP fr = addr_String a → pr ∈ proto_rules inc use fr →
  fr_Action pr = GetProtoAction (f_Action fr) ∧
  (rule_covers pr src d pl = true ↔ GetProtoDirection (f_Direction fr) = RuleDirection_IN ∧ src = a ∧ fr_covers fr d pl).
Proof.
  intros Hp Hu E Hin. destruct (extract_wire fr a use inc pr Hp Hu E Hin) as [Hex [prefixes ->]]. split; [done|].
  destruct Hp as (Hwf & Hv & Hz & H4). unfold rule_covers. rewrite Hex, wire_port_any.
  assert (Hs : prefixesContain [PrefixFrom a (BitLen a)] src = true ↔ src = a).
  { assert (Hbits : 0 <= BitLen a) by (by destruct a).
    pose proof (PrefixFrom_wf a (BitLen a) Hwf) as Hpwf. rewrite PrefixFrom_valid in * by (done || lia).
    unfold prefixesContain. cbn [existsb]. rewrite orb_false_r. apply host_prefix_Contains; [done|apply Z.eqb_refl|].
    by apply Z.leb_le. }
  rewrite !andb_true_iff, Z.eqb_eq, Hs. cbn [fr_Direction fr_Protocol proto_rule]. unfold fr_covers.
  destruct (wire_port fr) as [port|]; [|naive_solver]. split; [intros [[? ?] ?]; eauto 10|].
  intros (? & ? & port' & [= <-] & ?). auto.
Qed.

(** ** The reverse-proxy policies change nothing but policies *)

Definition same_account (d d' : NetworkMapData) : Prop :=
  d_Peers d' = d_Peers d ∧ d_ValidatedPeers d' = d_ValidatedPeers d ∧ d_Groups d' = d_Groups d ∧
  d_AccountSettings d' = d_AccountSettings d ∧ d_DNSSettings d' = d_DNSSettings d.

#[local] Instance same_account_preorder : PreOrder same_account.
Proof.
  split; [by unfold same_account|]. intros d1 d2 d3. unfold same_account. naive_solver congruence.
Qed.

Lemma foldl_preorder {A B} (R : relation A) `{!PreOrder R} (f : A → B → A) l a :
  (∀ a b, R a (f a b)) → R a (foldl f a l).
Proof. intros Hf. revert a. induction l as [|b l IH]; intros a; simpl; [done|]. etrans; [apply Hf|apply IH]. Qed.

Lemma inject_same d : same_account d (InjectProxyPolicies d).
Proof.
  assert (Hadd : ∀ d p, same_account d (addInjectedPolicy d p)) by done.
  unfold InjectProxyPolicies. destruct (d_injected d); [done|].
  trans (injectProxyPolicies d); [|done]. unfold injectProxyPolicies. apply (foldl_preorder same_account).
  intros d1 [svc|]; [|done]. simpl. destruct (svc_Enabled svc); simpl; [|done].
  set (peers := proxyPeersByCluster d1 (svc_ProxyCluster svc)). clearbody peers.
  trans (foldl (inject_target svc peers) d1 (svc_Targets svc)).
  - apply (foldl_preorder same_account). intros d2 [target|]; [|done]. simpl.
    destruct (st_Enabled target); [|done]. destruct (resolveTargetPort target); [|done]. by apply (foldl_preorder same_account).
  - unfold injectPrivateServicePolicies. destruct (_ || _ || _); [done|].
    destruct (existingGroupIDs _ _); [done|]. by apply (foldl_preorder same_account).
Qed.

Section Sent.
Context {MO : MapOrder} {VL : VersionLib} (pick : string → nat) (now : string → Z).
Context (SafeString : list string → string) (ToASCII : string → option string).

(** A validated peer of a well-formed account. *)
Record served (nmd : NetworkMapData) (T : string) (target : Peer) : Prop := {
  sv_wf : account_wf (InjectProxyPolicies nmd);
  sv_peer : d_Peers nmd !! T = Some target;
  sv_valid : T ∈ d_ValidatedPeers nmd;
  sv_settings : is_Some (d_AccountSettings nmd);
  sv_dns : is_Some (d_DNSSettings nmd);
}.

(** The map of a served peer: its components, and what it takes from them. *)
Lemma map_of_served nmd T target zone :
  served nmd T target →
  ∃ c settings m, selected (InjectProxyPolicies nmd) T target c ∧
    GetPeerNetworkMapComponents pick nmd T zone = Some c ∧
    NetworkMapFromData pick now SafeString ToASCII nmd T zone = Some m ∧
    let acl := (getPeerConnectionResources pick c T).1.1 in
    let connect := filter (λ p, login_expired now settings p = false) acl.1 in
    let expired := filter (λ p, login_expired now settings p = true) acl.1 in
    let '(isRouter, routes, sourcePeers) := getNetworkResourcesRoutesToSync pick ToASCII c T in
    m_FirewallRules m = acl.2 ∧ m_OfflinePeers m = expired ∧
    m_Peers m = addNetworksRoutingPeers pick c routes T connect expired isRouter sourcePeers.
Proof.
  intros [W E V [settings Es] [dns Ed]]. destruct (inject_same nmd) as (I1 & I2 & _ & I4 & I5).
  destruct (data_components_spec pick (InjectProxyPolicies nmd) W T target zone) as (c & Hc & Sel); [congruence|congruence|].
  destruct (se_settings _ _ _ _ Sel) as [S1 S2].
  destruct (Calculate_spec pick now SafeString ToASCII c settings dns) as (m & Hm & H); [congruence|congruence|].
  rewrite (se_id _ _ _ _ Sel) in H. exists c, settings, m. split_and!; [done|done| |exact H].
  unfold NetworkMapFromData, GetPeerNetworkMapComponents. rewrite Hc. simpl. by rewrite (se_live _ _ _ _ Sel).
Qed.

(** The firewall rules and the peers of the map. *)
Lemma map_content nmd T target zone :
  served nmd T target →
  ∃ m, NetworkMapFromData pick now SafeString ToASCII nmd T zone = Some m ∧
    (∀ fr, fr ∈ m_FirewallRules m ↔
      ∃ policy rule dir id p, asked (InjectProxyPolicies nmd) T policy rule dir id p ∧
        fr ∈ call_rules target (rule, dir, p)) ∧
    (∀ policy rule dir id p, asked (InjectProxyPolicies nmd) T policy rule dir id p →
      p ∈ m_Peers m ∨ p ∈ m_OfflinePeers m).
Proof.
  intros Hs. pose proof (sv_wf _ _ _ Hs) as W.
  destruct (map_of_served nmd T target zone Hs) as (c & settings & m & Sel & _ & Hm & H). exists m. split; [done|].
  destruct (getNetworkResourcesRoutesToSync pick ToASCII c T) as [[isRouter routes] sources].
  destruct H as (-> & -> & ->). split.
  - intros fr. by apply account_rules.
  - intros policy rule dir id p Ha.
    assert (p ∈ (getPeerConnectionResources pick c T).1.1.1) as Hp by (eapply account_peers; eauto).
    destruct (login_expired now settings p) eqn:El; [right|left].
    + by apply list_elem_of_filter.
    + unfold addNetworksRoutingPeers. apply elem_of_app. left. by apply list_elem_of_filter.
Qed.

(** C7. Exactness of the peers and the firewall rules, for a validated peer of a
    well-formed account ([account_wf]; among its hypotheses, that no two active
    rules, those of reverse-proxy services included, have identifiers such that
    one followed by a peer's address begins the other followed by one, compare
    [proxy_targets_merged]): the server answers, and the firewall rules of the map are the expansions of the active policy rules
    that connect the peer with an admitted other one; every such peer is among
    the peers to connect to or the offline peers. *)
Theorem network_map_exact nmd T target zone :
  served nmd T target →
  ∃ m, NetworkMapFromData pick now SafeString ToASCII nmd T zone = Some m ∧
    (∀ fr, fr ∈ m_FirewallRules m ↔
      ∃ policy rule dir id p, asked (InjectProxyPolicies nmd) T policy rule dir id p ∧
        fr ∈ call_rules target (rule, dir, p)) ∧
    (∀ policy rule dir id p, asked (InjectProxyPolicies nmd) T policy rule dir id p →
      p ∈ m_Peers m ∨ p ∈ m_OfflinePeers m).
Proof. apply map_content. Qed.

(** C9. The peers of a map are well formed: no identifier twice, also not among
    the offline ones, never the peer itself, and only validated peers of the
    account. *)
Theorem network_map_peers nmd T target zone :
  served nmd T target →
  ∃ m, NetworkMapFromData pick now SafeString ToASCII nmd T zone = Some m ∧
    NoDup (p_ID <$> m_Peers m ++ m_OfflinePeers m) ∧ T ∉ p_ID <$> m_Peers m ++ m_OfflinePeers m ∧
    ∀ p, p ∈ m_Peers m ++ m_OfflinePeers m → d_Peers nmd !! p_ID p = Some p ∧ p_ID p ∈ d_ValidatedPeers nmd.
Proof.
  intros Hs. pose proof (sv_wf _ _ _ Hs) as W. destruct (inject_same nmd) as (I1 & I2 & _).
  destruct (map_of_served nmd T target zone Hs) as (c & settings & m & Sel & _ & Hm & H). exists m. split; [done|].
  destruct (getNetworkResourcesRoutesToSync pick ToASCII c T) as [[isRouter routes] sources].
  destruct H as (_ & -> & ->).
  destruct (account_peers pick _ W T target c Sel) as [Hnd Hacl].
  set (acl := (getPeerConnectionResources pick c T).1.1.1) in *.
  assert (Hperm : filter (λ p, login_expired now settings p = false) acl ++ filter (λ p, login_expired now settings p = true) acl ≡ₚ acl).
  { clearbody acl. clear. induction acl as [|p acl IH]; [done|]. rewrite !filter_cons.
    destruct (login_expired now settings p); simpl.
    - by rewrite <- Permutation_middle, IH.
    - by rewrite IH. }
  assert (Hwf : ∀ m' id p, peer_map_ok (InjectProxyPolicies nmd) m' → m' !! id = Some p →
    p_ID p = id ∧ d_Peers nmd !! id = Some p ∧ id ∈ d_ValidatedPeers nmd).
  { intros m' id p [Hsub Hv] E. pose proof (lookup_weaken _ _ _ _ E Hsub) as E'.
    split_and!; [by apply (aw_ids _ W)|congruence|rewrite <- I2; eauto]. }
  assert (Hin : ∀ p, p ∈ acl → d_Peers nmd !! p_ID p = Some p ∧ p_ID p ∈ d_ValidatedPeers nmd ∧ p_ID p ≠ T).
  { intros p (policy & rule & d & id & Ha)%Hacl. apply (asked_selected pick _ W T target c Sel) in Ha as (_ & E & Hne & _).
    apply (Hwf _ _ _ (se_peers _ _ _ _ Sel)) in E as (-> & ? & ?). done. }
  edestruct (addNetworksRoutingPeers_spec pick c routes T (filter (λ p, login_expired now settings p = false) acl)
    (filter (λ p, login_expired now settings p = true) acl) isRouter sources) as (H1 & H2 & H3).
  - intros id p E. by apply (Hwf _ _ _ (se_peers _ _ _ _ Sel)) in E as [? _].
  - intros id p E. by apply (Hwf _ _ _ (se_routers _ _ _ _ Sel)) in E as [? _].
  - by rewrite Hperm.
  - rewrite Hperm. intros (p & E & Hp)%list_elem_of_fmap. by apply Hin in Hp as (_ & _ & ?).
  - split_and!; [done|done|]. intros p [[Hp|(id & [E|E])]%H3|Hp]%elem_of_app.
    + apply list_elem_of_filter in Hp as [_ Hp]. by apply Hin in Hp as (? & ? & _).
    + apply (Hwf _ _ _ (se_peers _ _ _ _ Sel)) in E as (-> & ? & ?). done.
    + apply (Hwf _ _ _ (se_routers _ _ _ _ Sel)) in E as (-> & ? & ?). done.
    + apply list_elem_of_filter in Hp as [_ Hp]. by apply Hin in Hp as (? & ? & _).
Qed.

(** C10. Connections are mutual: the policies make a peer connect to another one
    exactly when they make the other one connect to it, each computed from the
    components selected for it. *)
Theorem connections_mutual nmd A B pa pb zone :
  served nmd A pa → served nmd B pb →
  ∃ ca cb, GetPeerNetworkMapComponents pick nmd A zone = Some ca ∧
    GetPeerNetworkMapComponents pick nmd B zone = Some cb ∧
    (pb ∈ (getPeerConnectionResources pick ca A).1.1.1 ↔ pa ∈ (getPeerConnectionResources pick cb B).1.1.1).
Proof.
  intros HA HB. pose proof (sv_wf _ _ _ HA) as W. destruct (inject_same nmd) as (I1 & _).
  destruct (map_of_served nmd A pa zone HA) as (ca & _ & _ & SA & EA & _).
  destruct (map_of_served nmd B pb zone HB) as (cb & _ & _ & SB & EB & _).
  exists ca, cb. split_and!; [done|done|].
  destruct (account_peers pick _ W A pa ca SA) as [_ ->]. destruct (account_peers pick _ W B pb cb SB) as [_ ->].
  assert (Hsym : ∀ X Y px py, d_Peers (InjectProxyPolicies nmd) !! X = Some px → d_Peers (InjectProxyPolicies nmd) !! Y = Some py →
    (∃ policy rule d id, asked (InjectProxyPolicies nmd) X policy rule d id py) →
    ∃ policy rule d id, asked (InjectProxyPolicies nmd) Y policy rule d id px).
  { intros X Y px py EX EY (policy & rule & d & id & Ha & E & Hl).
    assert (id = Y) as -> by (apply (aw_ids _ W) in E; apply (aw_ids _ W) in EY; congruence).
    exists policy, rule, (1 - d), X. split_and!; [done|done|]. unfold links in *.
    unfold FirewallRuleDirectionIN, FirewallRuleDirectionOUT in *.
    destruct Hl as [Hne [[-> ?]|[-> ?]]]; (split; [congruence|]); [right|left]; split; [done|tauto|done|tauto]. }
  destruct HA as [_ EA' _ _ _], HB as [_ EB' _ _ _]. rewrite <- I1 in EA', EB'. split; eauto.
Qed.

(** ** Packets *)

(** The addresses under which the target knows a peer. *)
Definition known_ips (target p : Peer) : list Addr := p_IP p :: (if v6_peer target p then [p_IPv6 p] else []).

(** A rule with such an action lets traffic of the source to the target, and
    covers the packet. *)
Definition policy_has (nmd : NetworkMapData) (T : string) (target : Peer) (action : string → Prop) (src : Addr)
    (d : decoder) (pl : LayerType) : Prop :=
  ∃ policy rule id p, asked nmd T policy rule FirewallRuleDirectionIN id p ∧ action (pol_Action rule) ∧
    src ∈ known_ips target p ∧ policy_covers target rule d pl = true.

Lemma call_ips_known target x : call_ips target x = addr_String <$> known_ips target x.2.
Proof. unfold call_ips, known_ips. by destruct (v6_peer target x.2). Qed.

Lemma known_ips_peer target p a : a ∈ known_ips target p → a ∈ peer_ips p.
Proof.
  unfold known_ips, peer_ips, v6_peer. destruct (IsValid (p_IPv6 p)); [|done].
  destruct (SupportsIPv6 target && IsValid (p_IPv6 target)) eqn:E; simpl; rewrite E; set_solver.
Qed.

Lemma ip_rules_ip target rule dir p ip fr :
  fr ∈ ip_rules target (rule, dir, p) ip →
  f_PeerIP fr = ip ∧ f_Direction fr = dir ∧ f_Action fr = pol_Action rule.
Proof. intros (-> & -> & -> & _)%expand_rule_fields. done. Qed.

Lemma effective_sync target m : effectiveRules (sync_rules target m) = nm_FirewallRules (sync_rules target m).
Proof.
  unfold effectiveRules, sync_rules. cbn [nm_FirewallRules nm_FirewallRulesIsEmpty].
  by destruct (length _ =? 0)%nat.
Qed.

(** The rules on the wire that have an action and cover a packet, against the
    policies. *)
Lemma wire_policy nmd T target (rules : list FirewallRule) use inc (action : string → Prop) src d pl :
  account_wf nmd → (∀ policy rule, active (d_Policies nmd) policy rule → rule_valid rule) →
  (∀ fr, fr ∈ rules ↔ ∃ policy rule dir id p, asked nmd T policy rule dir id p ∧ fr ∈ call_rules target (rule, dir, p)) →
  (∃ fr pr, fr ∈ rules ∧ pr ∈ proto_rules inc use fr ∧ action (f_Action fr) ∧ rule_covers pr src d pl = true) ↔
  policy_has nmd T target action src d pl.
Proof.
  intros W V Hr.
  assert (Hips : ∀ id p a, d_Peers nmd !! id = Some p → a ∈ known_ips target p → plain_addr a ∧ IsUnspecified a = false).
  { intros id p a E Ha%known_ips_peer. pose proof (aw_plain _ W _ _ E) as H1. pose proof (aw_specified _ W _ _ E) as H2.
    rewrite Forall_forall in H1, H2. auto. }
  split.
  - intros (fr & pr & Hfr & Hpr & Hact & Hc). apply Hr in Hfr as (policy & rule & dir & id & p & Ha & Hin).
    unfold call_rules in Hin. rewrite call_ips_known in Hin.
    apply list_elem_of_bind in Hin as (ip & Hin & (a & -> & Hka)%list_elem_of_fmap).
    destruct Ha as (Hact' & E & Hl). destruct (Hips id p a E Hka) as [Hp Hu].
    destruct (ip_rules_ip _ _ _ _ _ _ Hin) as (Eip & Ed & Ea).
    destruct (wire_covers fr a use inc pr src d pl Hp Hu Eip Hpr) as [_ [Hcov _]].
    destruct (Hcov Hc) as (Hdir & -> & Hfc). exists policy, rule, id, p. split_and!.
    + split_and!; [done|done|]. replace FirewallRuleDirectionIN with dir; [done|].
      rewrite Ed in Hdir. destruct Hl as [_ [[-> _]|[-> _]]]; done.
    + by rewrite <- Ea.
    + done.
    + apply (expand_rule_covers rule (addr_String a) dir target d pl); [by eapply V|]. by exists fr.
  - intros (policy & rule & id & p & Ha & Hact & Hsrc & Hc). pose proof Ha as (Hact' & E & Hl).
    apply (expand_rule_covers rule (addr_String src) FirewallRuleDirectionIN target d pl) in Hc as (fr & Hin & Hc); [|by eapply V].
    fold (ip_rules target (rule, FirewallRuleDirectionIN, p) (addr_String src)) in Hin.
    destruct (ip_rules_ip target rule FirewallRuleDirectionIN p _ _ Hin) as (Eip & Ed & Ea). destruct (Hips id p src E Hsrc) as [Hp Hu].
    destruct (proto_rules_one fr use inc) as (pr & Hpr & _). exists fr, pr. split_and!; [|done|by rewrite Ea|].
    + apply Hr. exists policy, rule, FirewallRuleDirectionIN, id, p. split; [done|]. unfold call_rules.
      rewrite call_ips_known. apply list_elem_of_bind. exists (addr_String src). split; [exact Hin|]. by apply list_elem_of_fmap_2.
    + apply (wire_covers fr src use inc pr src d pl Hp Hu Eip Hpr). rewrite Ed. done.
Qed.

(** The rules of the map block what the policies block. *)
Lemma map_decides nmd T target zone :
  served nmd T target →
  (∀ policy rule, active (d_Policies (InjectProxyPolicies nmd)) policy rule → rule_valid rule) →
  ∃ m, NetworkMapFromData pick now SafeString ToASCII nmd T zone = Some m ∧
    ∀ src d pl, policy_blocks (sync_rules target m) src d pl = true ↔
      policy_has (InjectProxyPolicies nmd) T target (λ a, a = PolicyTrafficActionDrop) src d pl ∨
      ¬ policy_has (InjectProxyPolicies nmd) T target (λ a, a ≠ PolicyTrafficActionDrop) src d pl.
Proof.
  intros Hs V. pose proof (sv_wf _ _ _ Hs) as W.
  destruct (map_of_served nmd T target zone Hs) as (c & settings & m & Sel & _ & Hm & H). exists m. split; [done|].
  destruct (getNetworkResourcesRoutesToSync pick ToASCII c T) as [[isRouter routes] sources]. destruct H as (Hfr & _ & _).
  intros src d pl. unfold policy_blocks. rewrite effective_sync. cbn [nm_FirewallRules sync_rules].
  set (inc := SupportsIPv6 target && _). set (use := SupportsSourcePrefixes target). clearbody inc use.
  assert (Hex : ∀ code (action : string → Prop), (∀ a, GetProtoAction a = code ↔ action a) →
    existsb (λ r, (fr_Action r =? code) && rule_covers r src d pl) (ToProtocolFirewallRules (m_FirewallRules m) inc use) = true ↔
    policy_has (InjectProxyPolicies nmd) T target action src d pl).
  { intros code action Hcode. rewrite <- (wire_policy _ T target (m_FirewallRules m) use inc action src d pl W V).
    2:{ intros fr. rewrite Hfr. by apply account_rules. }
    rewrite existsb_exists. unfold ToProtocolFirewallRules. split.
    - intros (pr & (fr & Hpr & Hin)%list_elem_of_In%list_elem_of_bind & [Ha%Z.eqb_eq Hc]%andb_true_iff).
      exists fr, pr. split_and!; [done|done| |done].
      apply Hcode. rewrite <- Ha. by rewrite (proto_rules_action _ _ _ _ Hpr).
    - intros (fr & pr & Hin & Hpr & Ha & Hc). exists pr. split; [apply list_elem_of_In, list_elem_of_bind; eauto|].
      apply andb_true_iff. split; [|done]. apply Z.eqb_eq. rewrite (proto_rules_action _ _ _ _ Hpr). by apply Hcode. }
  rewrite orb_true_iff, negb_true_iff, <- not_true_iff_false.
  rewrite (Hex RuleAction_DROP (λ a, a = PolicyTrafficActionDrop)), (Hex RuleAction_ACCEPT (λ a, a ≠ PolicyTrafficActionDrop)); [done|..];
    intros a; unfold GetProtoAction; destruct (String.eqb_spec a PolicyTrafficActionDrop); naive_solver.
Qed.

End Sent.
