(* ===== verification/NetMapMerge.v ===== *)
(** * Merging network maps

    [NetworkMap.Merge] of [shared/management/types/network.go], which the
    controller applies to the map of a peer and the map of the reverse
    proxies. *)
From S2P Require Import Prelude NetIP Bytes NetParse Order AclManager NmData FwGen NetMap.
Open Scope Z_scope.

(** ** Comparison *)

(** [nmdata.Route.Equal]. *)
Definition Route_Equal (r other : Route) : bool :=
  String.eqb (rt_ID other) (rt_ID r) && String.eqb (rt_Description other) (rt_Description r) &&
  String.eqb (rt_NetID other) (rt_NetID r) && bool_decide (rt_Network other = rt_Network r) &&
  bool_decide (default [] (rt_Domains r) = default [] (rt_Domains other)) &&
  bool_decide (rt_KeepRoute other = rt_KeepRoute r) && (rt_NetworkType other =? rt_NetworkType r) &&
  String.eqb (rt_Peer other) (rt_Peer r) && String.eqb (rt_PeerID other) (rt_PeerID r) &&
  (rt_Metric other =? rt_Metric r) && bool_decide (rt_Masquerade other = rt_Masquerade r) &&
  bool_decide (rt_Enabled other = rt_Enabled r) && bool_decide (rt_Groups r = rt_Groups other) &&
  bool_decide (rt_PeerGroups r = rt_PeerGroups other) &&
  bool_decide (rt_AccessControlGroups r = rt_AccessControlGroups other) &&
  bool_decide (rt_SkipAutoApply other = rt_SkipAutoApply r).

Definition FirewallRule_Equal (r other : FirewallRule) : bool := bool_decide (r = other).

(** [net.IP.Equal]: an IPv4 address equals its mapped form. *)
Definition v4InV6Prefix : list Z := [0; 0; 0; 0; 0; 0; 0; 0; 0; 0; 255; 255].

Definition IP_Equal (ip x : list Z) : bool :=
  if (length ip =? length x)%nat then bool_decide (ip = x)
  else if (length ip =? 4)%nat && (length x =? 16)%nat then bool_decide (v4InV6Prefix ++ ip = x)
  else if (length ip =? 16)%nat && (length x =? 4)%nat then bool_decide (ip = v4InV6Prefix ++ x)
  else false.

Definition ForwardingRule_Equal (f other : ForwardingRule) : bool :=
  String.eqb (fwd_RuleProtocol f) (fwd_RuleProtocol other) &&
  bool_decide (fwd_DestinationPorts f = fwd_DestinationPorts other) &&
  IP_Equal (fwd_TranslatedAddress f) (fwd_TranslatedAddress other) &&
  bool_decide (fwd_TranslatedPorts f = fwd_TranslatedPorts other).

(** ** Merging *)

Section Unique.
Context {A : Type} (Equal : A → A → bool).

Definition containsEqual (slice : list A) (element : A) : bool := existsb (λ item, Equal item element) slice.

Definition add_unique (result : list A) (item : A) : list A :=
  if negb (containsEqual result item) then result ++ [item] else result.

Definition mergeUnique (arr1 arr2 : list A) : list A := foldl add_unique (foldl add_unique [] arr1) arr2.

Lemma add_unique_spec result item x :
  (x ∈ add_unique result item → x ∈ result ∨ x = item) ∧ (x ∈ result → x ∈ add_unique result item).
Proof. unfold add_unique. destruct (negb _); rewrite ?elem_of_app, ?list_elem_of_singleton; tauto. Qed.

Lemma foldl_unique_spec arr result x :
  (x ∈ foldl add_unique result arr → x ∈ result ∨ x ∈ arr) ∧
  (x ∈ result → x ∈ foldl add_unique result arr).
Proof.
  revert result. induction arr as [|item arr IH]; intros result; simpl; [tauto|].
  destruct (IH (add_unique result item)) as [H1 H2]. destruct (add_unique_spec result item x) as [H3 H4].
  rewrite elem_of_cons. tauto.
Qed.

(** Nothing is made up. *)
Lemma mergeUnique_sound arr1 arr2 x : x ∈ mergeUnique arr1 arr2 → x ∈ arr1 ∨ x ∈ arr2.
Proof.
  unfold mergeUnique. intros [H|?]%foldl_unique_spec; [|auto]. apply foldl_unique_spec in H as [Habs|?]; [|auto].
  by apply elem_of_nil in Habs.
Qed.

Lemma foldl_unique_covers arr result x :
  (∀ y, Equal y y = true) → x ∈ arr → ∃ y, y ∈ foldl add_unique result arr ∧ Equal y x = true.
Proof.
  intros Hrefl. revert result. induction arr as [|item arr IH]; intros result Hx; [by apply elem_of_nil in Hx|].
  simpl. apply elem_of_cons in Hx as [->|Hx]; [|by apply IH].
  assert (∃ y, y ∈ add_unique result item ∧ Equal y item = true) as (y & Hy & E).
  { unfold add_unique, containsEqual. destruct (existsb _ result) eqn:Ex; simpl.
    - apply existsb_exists in Ex as (y & Hy%list_elem_of_In & E). eauto.
    - exists item. split; [apply elem_of_app; right; by left|done]. }
  exists y. split; [|done]. by apply foldl_unique_spec.
Qed.

(** Everything is represented. *)
Lemma mergeUnique_covers arr1 arr2 x :
  (∀ y, Equal y y = true) → x ∈ arr1 ∨ x ∈ arr2 → ∃ y, y ∈ mergeUnique arr1 arr2 ∧ Equal y x = true.
Proof.
  intros Hrefl [Hx|Hx]; unfold mergeUnique; [|by apply foldl_unique_covers].
  apply (foldl_unique_covers arr1 []) in Hx as (y & Hy & E); [|done]. exists y. split; [|done].
  by apply foldl_unique_spec.
Qed.

Lemma foldl_unique_distinct arr result :
  (∀ i j y z, result !! i = Some y → result !! j = Some z → (i < j)%nat → Equal y z = false) →
  ∀ i j y z, foldl add_unique result arr !! i = Some y → foldl add_unique result arr !! j = Some z → (i < j)%nat →
    Equal y z = false.
Proof.
  revert result. induction arr as [|item arr IH]; intros result H; simpl; [done|]. apply IH.
  unfold add_unique. destruct (containsEqual result item) eqn:Ec; simpl; [done|].
  intros i j y z Ei Ej Hij. apply lookup_app_Some in Ej as [Ej|[Hj Ej]].
  - rewrite lookup_app_l in Ei by (apply lookup_lt_Some in Ej; lia). eauto.
  - apply list_lookup_singleton_Some in Ej as [Hj' <-]. rewrite lookup_app_l in Ei by lia.
    apply not_true_iff_false. intros E. apply not_true_iff_false in Ec. destruct Ec. apply existsb_exists.
    exists y. split; [|done]. apply list_elem_of_In. by eapply list_elem_of_lookup_2.
Qed.

Lemma mergeUnique_distinct arr1 arr2 i j y z :
  mergeUnique arr1 arr2 !! i = Some y → mergeUnique arr1 arr2 !! j = Some z → (i < j)%nat → Equal y z = false.
Proof. apply foldl_unique_distinct, foldl_unique_distinct. intros ? ? ? ? E. by rewrite lookup_nil in E. Qed.
End Unique.

Section Merge.
Context {MO : MapOrder} (seed : nat).

(** [mergeUniquePeersByID]; [maps.Values] has the order of an iteration. *)
Definition peers_by_id (peers1 peers2 : list Peer) : gmap string Peer :=
  foldl (λ result peer, if result !! p_ID peer is Some _ then result else <[p_ID peer := peer]> result)
    (foldl (λ result peer, <[p_ID peer := peer]> result) ∅ peers1) peers2.

Definition mergeUniquePeersByID (peers1 peers2 : list Peer) : list Peer :=
  snd <$> range_list seed (peers_by_id peers1 peers2).

Definition Merge (nm other : NetworkMap) : NetworkMap :=
  {| m_Peers := mergeUniquePeersByID (m_Peers nm) (m_Peers other);
     m_Network := m_Network nm;
     m_Routes := mergeUnique Route_Equal (m_Routes nm) (m_Routes other);
     m_DNSConfig := m_DNSConfig nm;
     m_OfflinePeers := mergeUniquePeersByID (m_OfflinePeers nm) (m_OfflinePeers other);
     m_FirewallRules := mergeUnique FirewallRule_Equal (m_FirewallRules nm) (m_FirewallRules other);
     m_RoutesFirewallRules :=
       mergeUnique RouteFirewallRule_Equal (m_RoutesFirewallRules nm) (m_RoutesFirewallRules other);
     m_ForwardingRules := mergeUnique ForwardingRule_Equal (m_ForwardingRules nm) (m_ForwardingRules other);
     m_AuthorizedUsers := m_AuthorizedUsers nm;
     m_EnableSSH := m_EnableSSH nm;
     m_ForceRoutingPeerDNSResolution :=
       m_ForceRoutingPeerDNSResolution nm || m_ForceRoutingPeerDNSResolution other |}.

(** ** What a merge keeps *)

Lemma mergeUnique_rules arr1 arr2 x :
  x ∈ mergeUnique FirewallRule_Equal arr1 arr2 ↔ x ∈ arr1 ∨ x ∈ arr2.
Proof.
  split; [apply mergeUnique_sound|]. intros Hx.
  apply (mergeUnique_covers FirewallRule_Equal) in Hx as (y & Hy & E).
  - by apply bool_decide_eq_true in E as ->.
  - intros y. by apply bool_decide_eq_true.
Qed.

Lemma set_peers_spec (peers : list Peer) id p :
  NoDup (p_ID <$> peers) →
  foldl (λ result peer, <[p_ID peer := peer]> result) (∅ : gmap string Peer) peers !! id = Some p ↔
  p_ID p = id ∧ p ∈ peers.
Proof.
  revert id p. induction peers as [|q peers IH] using rev_ind; intros id p N.
  { simpl. rewrite lookup_empty, elem_of_nil. naive_solver. }
  rewrite fmap_app in N. apply NoDup_app in N as (N & Nd & _). rewrite foldl_snoc, lookup_insert_Some, IH by done.
  rewrite elem_of_app, list_elem_of_singleton. split; [naive_solver|].
  intros [Ei [Hp|Hp]]; [right|left; naive_solver]. split; [|done]. intros Eq.
  apply (Nd (p_ID p)); [by apply list_elem_of_fmap_2|]. rewrite Ei, <- Eq. by left.
Qed.

Lemma fill_peers_spec (m : gmap string Peer) peers id p :
  NoDup (p_ID <$> peers) →
  foldl (λ result peer, if result !! p_ID peer is Some _ then result else <[p_ID peer := peer]> result) m peers !! id = Some p ↔
  m !! id = Some p ∨ m !! id = None ∧ p_ID p = id ∧ p ∈ peers.
Proof.
  revert id p. induction peers as [|q peers IH] using rev_ind; intros id p N.
  { simpl. rewrite elem_of_nil. tauto. }
  rewrite fmap_app in N. apply NoDup_app in N as (N & Nd & _). specialize (λ id p, IH id p N). rewrite foldl_snoc.
  rewrite elem_of_app, list_elem_of_singleton. set (r := foldl _ m peers) in *. clearbody r.
  assert (Hq : p_ID q ∉ p_ID <$> peers) by (intros H; apply (Nd _ H); by left).
  destruct (r !! p_ID q) as [q'|] eqn:E.
  - rewrite IH. split; [tauto|]. intros [?|(Hn & Ei & [?| ->])]; [tauto|tauto|]. apply IH in E as [E|(_ & Eq & Hin)].
    + congruence.
    + destruct Hq. rewrite <- Eq. by apply list_elem_of_fmap_2.
  - assert (Hmq : m !! p_ID q = None).
    { destruct (m !! p_ID q) as [q''|] eqn:Em; [|done]. assert (r !! p_ID q = Some q'') by (apply IH; auto). congruence. }
    rewrite lookup_insert_Some, IH. split; [naive_solver|]. intros [Hm|(Hn & Ei & [?| ->])]; [|..].
    + right. split; [congruence|auto].
    + right. split; [|auto]. intros Eq. destruct Hq. rewrite Eq, <- Ei. by apply list_elem_of_fmap_2.
    + by left.
Qed.

(** The peers of the first map, and of the second those with other identifiers. *)
Lemma mergeUniquePeersByID_spec peers1 peers2 :
  NoDup (p_ID <$> peers1) → NoDup (p_ID <$> peers2) →
  NoDup (p_ID <$> mergeUniquePeersByID peers1 peers2) ∧
  ∀ p, p ∈ mergeUniquePeersByID peers1 peers2 ↔ p ∈ peers1 ∨ p ∈ peers2 ∧ p_ID p ∉ p_ID <$> peers1.
Proof.
  intros N1 N2. unfold mergeUniquePeersByID.
  assert (Hm : ∀ id p, peers_by_id peers1 peers2 !! id = Some p ↔
    p_ID p = id ∧ (p ∈ peers1 ∨ p ∈ peers2 ∧ id ∉ p_ID <$> peers1)).
  { intros id p. unfold peers_by_id. rewrite fill_peers_spec, eq_None_not_Some by done. unfold is_Some.
    setoid_rewrite set_peers_spec; [|done..]. rewrite list_elem_of_fmap. naive_solver. }
  set (m := peers_by_id peers1 peers2) in *. clearbody m. rewrite (range_list_perm seed m). split.
  - assert (p_ID <$> (snd <$> map_to_list m) = fst <$> map_to_list m) as ->; [|apply NoDup_fst_map_to_list].
    rewrite <- list_fmap_compose. apply list_fmap_ext. intros i [id p] E. simpl.
    apply list_elem_of_lookup_2, elem_of_map_to_list, Hm in E. tauto.
  - intros p. rewrite list_elem_of_fmap. setoid_rewrite (range_list_perm seed m). split.
    + intros ([id q] & -> & [Ei H]%elem_of_map_to_list%Hm). simpl in *. by rewrite Ei.
    + intros H. exists (p_ID p, p). split; [done|]. apply elem_of_map_to_list, Hm. done.
Qed.

(** A merge keeps what both maps allow: the firewall rules are those of both,
    no peer is lost and none appears twice; of a peer in both, the one of the
    first map is kept. *)
Theorem merge_exact nm other :
  NoDup (p_ID <$> m_Peers nm) → NoDup (p_ID <$> m_Peers other) →
  (∀ fr, fr ∈ m_FirewallRules (Merge nm other) ↔ fr ∈ m_FirewallRules nm ∨ fr ∈ m_FirewallRules other) ∧
  NoDup (p_ID <$> m_Peers (Merge nm other)) ∧
  ∀ p, p ∈ m_Peers (Merge nm other) ↔
    p ∈ m_Peers nm ∨ p ∈ m_Peers other ∧ p_ID p ∉ p_ID <$> m_Peers nm.
Proof.
  intros N1 N2. destruct (mergeUniquePeersByID_spec _ _ N1 N2) as [H1 H2].
  split_and!; [intros fr; apply mergeUnique_rules|done|done].
Qed.

(** Route rules are compared without their sources: two rules that differ only
    in them count as equal, and a merge keeps one of the two. *)
Definition sources_rule (sources : list string) : RouteFirewallRule :=
  {| r_PolicyID := "p"; r_RouteID := "r"; r_SourceRanges := sources; r_Action := "accept";
     r_Destination := "10.0.0.0/8"; r_Protocol := "tcp"; r_Port := 443; r_PortRange := noRange;
     r_Domains := None; r_IsDynamic := false |}.

Theorem merge_drops_sources (s1 s2 : list string) nm other :
  m_RoutesFirewallRules nm = [sources_rule s1] → m_RoutesFirewallRules other = [sources_rule s2] →
  m_RoutesFirewallRules (Merge nm other) = [sources_rule s1].
Proof. intros E1 E2. unfold Merge. cbn [m_RoutesFirewallRules]. rewrite E1, E2. reflexivity. Qed.
End Merge.
