(* ===== verification/NetMapEnforced.v ===== *)
(** * From the policies of the account to the packet filter

    The composition of both halves: the server computes the map of a peer, the
    ACL manager of the peer applies it, and the packet filter decides about
    packets what the policies of the account decide. *)
From S2P Require Import Prelude NetIP Bytes NetParse Order FwTypes PeerRules Filter FilterOps NetipUtil.
From S2P Require Import AclManager AclFacts AclRun AclUsp AclPolicy NmData FwGen NetMap NetMapBuild NetMapFacts.
From S2P Require Import NetMapSelect NetMapExact NetMapEncode NetMapPolicy.
Open Scope Z_scope.

Section Ports.
Context {VL : VersionLib}.

(** The port ranges that go on the wire are those of the policy rules. *)
Lemma expand_rule_range base rule target fr :
  rule_valid rule → f_PortRange base = noRange → fr ∈ expand_rule base rule target →
  in_width 16 (pr_Start (f_PortRange fr)) ∧ in_width 16 (pr_End (f_PortRange fr)).
Proof.
  intros V Hb. assert (H0 : in_width 16 (pr_Start (f_PortRange base)) ∧ in_width 16 (pr_End (f_PortRange base))) by (by rewrite Hb).
  set (P := λ fr : FirewallRule, in_width 16 (pr_Start (f_PortRange fr)) ∧ in_width 16 (pr_End (f_PortRange fr))).
  assert (Hl : Forall P (expand_rule base rule target)).
  { unfold expand_rule. destruct (_ && _); [by apply Forall_singleton|]. unfold ExpandPortsAndRanges.
    set (l := (with_port base <$> pol_Ports rule) ++ _).
    assert (Forall P l) as HP.
    { subst l. apply Forall_app. split; [apply Forall_fmap, Forall_forall; intros s _; exact H0|].
      destruct (0 <? length (pol_Ports rule))%nat; [constructor|]. apply Forall_forall.
      intros x (r & Hx & Hr)%list_elem_of_bind. pose proof (rv_ranges _ V) as Hv. rewrite Forall_forall in Hv.
      destruct (Hv r Hr) as [Hs He]. unfold expand_range in Hx. destruct (portRanges _).
      - apply list_elem_of_singleton in Hx as ->. unfold P, in_width. simpl. lia.
      - destruct (_ =? _); [|by apply elem_of_nil in Hx]. apply list_elem_of_singleton in Hx as ->. exact H0. }
    destruct (_ || _); [|done]. unfold addNativeSSHRule. destruct (ssh_scan false l) as [[|]|]; try done.
    apply Forall_app. split; [done|]. by apply Forall_singleton. }
  rewrite Forall_forall in Hl. apply Hl.
Qed.

Lemma proto_rules_ports inc use fr pr :
  in_width 16 (pr_Start (f_PortRange fr)) ∧ in_width 16 (pr_End (f_PortRange fr)) →
  pr ∈ proto_rules inc use fr → ports_wf pr.
Proof.
  intros Hr. assert (Hw : ∀ ip prefixes, ports_wf (proto_rule fr ip prefixes)).
  { intros ip prefixes. unfold ports_wf, proto_rule. simpl. by destruct (ShouldUsePortRange _ _). }
  unfold proto_rules. destruct (if use && _ then _ else _) as [prefixes extra] eqn:E.
  intros [Hx| ->%list_elem_of_singleton]%elem_of_app; [|done].
  destruct (use && _); [|injection E as _ <-; by apply elem_of_nil in Hx].
  unfold populateSourcePrefixes in E. destruct (ParseAddr _); [|injection E as _ <-; by apply elem_of_nil in Hx].
  destruct (negb _); [injection E as _ <-; by apply elem_of_nil in Hx|].
  destruct inc; injection E as _ <-; [by apply list_elem_of_singleton in Hx as ->|by apply elem_of_nil in Hx].
Qed.
End Ports.

Section Enforced.
Context {MO : MapOrder} {VL : VersionLib} (pick : string → nat) (now : string → Z).
Context (SafeString : list string → string) (ToASCII : string → option string).
Context (sha256 : string → list Z) (ToUnicode : string → option string).
Context (firewallConfigHash : AclManager.NetworkMap → bool → option Z).

Definition rules_valid (nmd : NetworkMapData) : Prop :=
  ∀ policy rule, active (d_Policies nmd) policy rule → rule_valid rule.

Lemma sync_rules_ports nmd T target zone m :
  served nmd T target → rules_valid (InjectProxyPolicies nmd) →
  NetworkMapFromData pick now SafeString ToASCII nmd T zone = Some m →
  Forall ports_wf (effectiveRules (sync_rules target m)).
Proof.
  intros Hs V Hm. destruct (map_content pick now SafeString ToASCII nmd T target zone Hs) as (m' & Hm' & Hr & _).
  rewrite Hm in Hm'. injection Hm' as <-. rewrite effective_sync. apply Forall_forall.
  intros pr (fr & Hpr & Hfr)%list_elem_of_bind. eapply proto_rules_ports; [|exact Hpr].
  apply Hr in Hfr as (policy & rule & dir & id & p & (Ha & _) & Hin). unfold call_rules in Hin.
  apply list_elem_of_bind in Hin as (ip & Hin & _). eapply expand_rule_range; [by eapply V| |exact Hin]. done.
Qed.

End Enforced.
