(* ===== verification/NetMapCases.v ===== *)
(** * A concrete account

    Three peers, one of which fails a posture check, a policy that lets the
    users reach the web server and one that drops its telnet port; and a reverse
    proxy that serves two paths from that server. *)
From S2P Require Import Prelude NetIP Bytes NetParse Order FwTypes NetipUtil AclManager AclPolicy.
From S2P Require Import PeerRules Filter FilterOps AclFacts AclRun AclUsp AclCases.
From S2P Require Import NmData FwGen NetMap NetMapBuild NetMapFacts NetMapSelect NetMapExact NetMapEncode NetMapPolicy.
From S2P Require Import AddrText NetMapMerge NetMapEnforced.
Open Scope Z_scope.

(** A version meets the bound it is itself. *)
#[local] Instance text_versions : VersionLib :=
  {| Version := string; Constraints := string; NewVersion := Some; NewConstraint := Some;
     version_Check := λ c v, String.eqb c (">= " +:+ v) |}.

#[local] Existing Instance canonical_order.

Definition no_resource : Resource := {| res_ID := ""; res_Type := "" |}.

Definition mk_member (cluster id goos : string) (ip : Z) : Peer :=
  {| p_ID := id; p_Key := id +:+ "-key"; p_UserID := ""; p_DNSLabel := id; p_SSHEnabled := false;
     p_LoginExpirationEnabled := false; p_LastLogin := None; p_IP := AddrV4 ip; p_IPv6 := AddrInvalid;
     p_Meta := {| meta_WtVersion := "0.60.0"; meta_GoOS := goos; meta_OSVersion := "1"; meta_KernelVersion := "6.1";
                  meta_NetworkAddresses := []; meta_Files := []; meta_Capabilities := [1; 2];
                  meta_Flags := {| fl_ServerSSHAllowed := false; fl_DisableIPv6 := false |} |};
     p_ProxyMeta := {| pm_Embedded := negb (String.eqb cluster ""); pm_Cluster := cluster |};
     p_Location := {| loc_CountryCode := ""; loc_CityName := ""; loc_ConnectionIP := [] |} |}.

Definition mk_peer : string → string → Z → Peer := mk_member "".

Definition laptop : Peer := mk_peer "laptop" "linux" 1681915905.
Definition server : Peer := mk_peer "server" "linux" 1681915906.
Definition phone : Peer := mk_peer "phone" "ios" 1681915907.
Definition edge : Peer := mk_member "eu" "edge" "linux" 1681915908.

Definition mk_rule (id action port : string) : PolicyRule :=
  {| pol_ID := id; pol_PolicyID := id; pol_Enabled := true; pol_Action := action; pol_Protocol := "tcp";
     pol_Bidirectional := false; pol_Sources := ["users"]; pol_Destinations := ["servers"];
     pol_SourceResource := no_resource; pol_DestinationResource := no_resource;
     pol_Ports := [port]; pol_PortRanges := []; pol_AuthorizedGroups := ∅; pol_AuthorizedUser := "" |}.

Definition web_rule : PolicyRule := mk_rule "web" "accept" "443".
Definition telnet_rule : PolicyRule := mk_rule "telnet" "drop" "23".

Definition linux_only : ChecksDefinition :=
  {| cd_NBVersion := None;
     cd_OSVersion := Some {| os_Android := None; os_Darwin := None; os_Ios := None; os_Linux := Some "6.1"; os_Windows := None |};
     cd_GeoLocation := None; cd_PeerNetworkRange := None; cd_Process := None |}.

Definition web_target (path : string) (port : Z) : option ServiceTarget :=
  Some {| st_Enabled := true; st_Path := path; st_Port := port; st_Protocol := "http"; st_TargetID := "server"; st_TargetType := "peer" |}.

Definition shop (targets : list (option ServiceTarget)) : option Service :=
  Some {| svc_ID := "shop"; svc_Enabled := true; svc_Private := false; svc_Mode := "http"; svc_ProxyCluster := "eu";
          svc_AccessGroups := []; svc_Targets := targets |}.

Definition acme_with (targets : list (option ServiceTarget)) : NetworkMapData :=
  {| d_Peers := {["laptop" := laptop; "server" := server; "phone" := phone; "edge" := edge]};
     d_Groups := {["all" := {| grp_ID := "all"; grp_Name := "All"; grp_Peers := ["laptop"; "server"; "phone"; "edge"] |};
                   "users" := {| grp_ID := "users"; grp_Name := "Users"; grp_Peers := ["laptop"; "phone"] |};
                   "servers" := {| grp_ID := "servers"; grp_Name := "Servers"; grp_Peers := ["server"] |}]};
     d_Policies :=
       [Some {| policy_ID := "web"; policy_Enabled := true; policy_SourcePostureChecks := ["linux"];
                policy_Rules := [Some web_rule] |}; None;
        Some {| policy_ID := "telnet"; policy_Enabled := true; policy_SourcePostureChecks := [];
                policy_Rules := [Some telnet_rule] |}];
     d_Routes := []; d_NameServerGroups := []; d_NetworkResources := [];
     d_Network := {| net_Identifier := "net"; net_Dns := "netbird.selfhosted"; net_Serial := 1 |};
     d_DNSSettings := Some {| dns_DisabledManagementGroups := [] |};
     d_AccountSettings := Some {| as_PeerLoginExpirationEnabled := true; as_PeerLoginExpiration := 3600 |};
     d_PostureChecks := {["linux" := linux_only]}; d_PostureValidation := ∅; d_AllowedUserIDs := None;
     d_ValidatedPeers := {["laptop"; "server"; "phone"; "edge"]}; d_ResourcePolicies := ∅; d_Routers := ∅;
     d_GroupIDToUserIDs := ∅; d_ProxyTargetedDomainResourceIDs := ∅; d_AppliedZoneCandidates := [];
     d_PrivateServiceCandidates := []; d_Services := [shop targets]; d_injected := false |}.

Definition acme : NetworkMapData := acme_with [web_target "/" 8080; web_target "/api" 8081].

Definition pick0 : string → nat := λ _, 0%nat.
Definition noon : string → Z := λ _, 0.
Definition joined : list string → string := String.concat ",".
Definition ascii : string → option string := Some.
Definition no_zone : CustomZone :=
  {| zone_Domain := ""; zone_Records := []; zone_SearchDomainDisabled := false; zone_NonAuthoritative := false |}.

Definition acme_members : list (string * Peer) := [("laptop", laptop); ("server", server); ("phone", phone); ("edge", edge)].

Lemma acme_peers id p : d_Peers (InjectProxyPolicies acme) !! id = Some p → (id, p) ∈ acme_members.
Proof.
  change (d_Peers acme !! id = Some p → (id, p) ∈ acme_members). cbn [d_Peers acme acme_with].
  rewrite !lookup_insert_Some, lookup_singleton_Some. unfold acme_members. rewrite !elem_of_cons. naive_solver.
Qed.

(** The active rules, those made for the service included. *)
Definition active_rules (policies : list (option Policy)) : list PolicyRule :=
  policies ≫= λ p, match p with
                   | Some p => if policy_Enabled p then
                                 policy_Rules p ≫= λ r, match r with Some r => if pol_Enabled r then [r] else [] | None => [] end
                               else []
                   | None => []
                   end.

Lemma active_in policies policy rule : active policies policy rule → rule ∈ active_rules policies.
Proof.
  intros (Hp & Ep & Hr & Er). unfold active_rules. apply list_elem_of_bind. exists (Some policy). split; [|done]. rewrite Ep.
  apply list_elem_of_bind. exists (Some rule). split; [|done]. rewrite Er. by left.
Qed.

Definition acme_rules : list PolicyRule := active_rules (d_Policies (InjectProxyPolicies acme)).

Example acme_rule_ids :
  pol_ID <$> acme_rules = ["web"; "telnet"; "proxy-access-shop-edge-/"; "proxy-access-shop-edge-/api"].
Proof. by vm_compute. Qed.

(** No identifier of a rule with an address starts another one. *)
Definition told_apart (r1 r2 : PolicyRule) : bool :=
  let addrs := acme_members ≫= λ m, peer_addrs m.2 in
  forallb (λ a1, forallb (λ a2, negb (String.prefix (pol_ID r1 +:+ a1) (pol_ID r2 +:+ a2))) addrs) addrs.

Lemma acme_told_apart :
  forallb (λ i, forallb (λ j, (i =? j)%nat ||
    match acme_rules !! i, acme_rules !! j with Some r1, Some r2 => told_apart r1 r2 | _, _ => true end) (seq 0 4)) (seq 0 4) = true.
Proof. by vm_compute. Qed.

Lemma acme_separate r1 r2 m1 m2 a1 a2 : r1 ∈ acme_rules → r2 ∈ acme_rules → m1 ∈ acme_members → m2 ∈ acme_members →
  a1 ∈ peer_addrs m1.2 → a2 ∈ peer_addrs m2.2 → String.prefix (pol_ID r1 +:+ a1) (pol_ID r2 +:+ a2) = true → r1 = r2.
Proof.
  intros [i Hi]%list_elem_of_lookup [j Hj]%list_elem_of_lookup Hm1 Hm2 Ha1 Ha2 Hp.
  assert (Hlen : length acme_rules = 4%nat) by by vm_compute.
  pose proof (lookup_lt_Some _ _ _ Hi) as Li. pose proof (lookup_lt_Some _ _ _ Hj) as Lj. rewrite Hlen in Li, Lj.
  pose proof acme_told_apart as H. rewrite forallb_forall in H. specialize (H i). rewrite in_seq, forallb_forall in H.
  specialize (H ltac:(lia) j). rewrite in_seq, Hi, Hj in H. specialize (H ltac:(lia)). apply orb_true_iff in H as [H|H].
  - apply Nat.eqb_eq in H as <-. congruence.
  - assert (Hin : ∀ m a, m ∈ acme_members → a ∈ peer_addrs m.2 → In a (acme_members ≫= λ m, peer_addrs m.2)).
    { intros m a Hm Ha. rewrite <- list_elem_of_In, list_elem_of_bind. exists m. exact (conj Ha Hm). }
    unfold told_apart in H. rewrite forallb_forall in H. specialize (H a1 (Hin _ _ Hm1 Ha1)).
    rewrite forallb_forall in H. specialize (H a2 (Hin _ _ Hm2 Ha2)). by rewrite Hp in H.
Qed.

Lemma acme_ips id p a : (id, p) ∈ acme_members → a ∈ peer_ips p → plain_addr a ∧ IsUnspecified a = false.
Proof.
  unfold acme_members. rewrite !elem_of_cons, elem_of_nil. intros H Ha.
  destruct H as [[= -> ->]|[[= -> ->]|[[= -> ->]|[[= -> ->]|[]]]]]; apply list_elem_of_singleton in Ha as ->; by repeat split.
Qed.

Lemma acme_wf : account_wf (InjectProxyPolicies acme).
Proof.
  assert (Hin : ∀ id p, d_Peers (InjectProxyPolicies acme) !! id = Some p →
      (id, p) = ("laptop", laptop) ∨ (id, p) = ("server", server) ∨ (id, p) = ("phone", phone) ∨ (id, p) = ("edge", edge)).
  { intros id p H%acme_peers. unfold acme_members in H. rewrite !elem_of_cons, elem_of_nil in H. tauto. }
  split.
  - intros id p H%Hin. by destruct H as [[= -> ->]|[[= -> ->]|[[= -> ->]|[= -> ->]]]].
  - intros id [p H%Hin] gid g E HA.
    assert (g = {| grp_ID := "all"; grp_Name := "All"; grp_Peers := ["laptop"; "server"; "phone"; "edge"] |}) as ->.
    { change (d_Groups acme !! gid = Some g) in E. cbn [d_Groups acme acme_with] in E. rewrite !lookup_insert_Some, lookup_singleton_Some in E.
      naive_solver. }
    cbn [grp_Peers]. rewrite !elem_of_cons. destruct H as [[= -> _]|[[= -> _]|[[= -> _]|[= -> _]]]]; auto.
  - intros p1 r1 p2 r2 id1 q1 id2 q2 a1 a2 A1%active_in A2%active_in E1%acme_peers E2%acme_peers H1 H2.
    exact (acme_separate r1 r2 (id1, q1) (id2, q2) a1 a2 A1 A2 E1 E2 H1 H2).
  - intros id p E%acme_peers. apply Forall_forall. intros a Ha. by eapply acme_ips.
  - intros id p E%acme_peers. apply Forall_forall. intros a Ha. by eapply acme_ips.
  - intros id p H%Hin. by destruct H as [[= -> ->]|[[= -> ->]|[[= -> ->]|[= -> ->]]]].
  - intros id1 p1 id2 p2 a H1%Hin H2%Hin Ha1 Ha2.
    destruct H1 as [[= -> ->]|[[= -> ->]|[[= -> ->]|[= -> ->]]]], H2 as [[= -> ->]|[[= -> ->]|[[= -> ->]|[= -> ->]]]];
      apply list_elem_of_singleton in Ha1 as ->; apply list_elem_of_singleton in Ha2; done.
  - intros check id p v _. unfold cachedPostureCheckResult.
    change (d_PostureValidation (InjectProxyPolicies acme)) with (∅ : gmap string (option (gmap string bool))). by rewrite lookup_empty.
  - done.
  - intros rid l E. change ((∅ : gmap string (list (option Policy))) !! rid = Some l) in E. by rewrite lookup_empty in E.
Qed.

Lemma acme_served id p : (id, p) ∈ acme_members → served acme id p.
Proof.
  unfold acme_members. rewrite !elem_of_cons, elem_of_nil. intros H.
  destruct H as [[= -> ->]|[[= -> ->]|[[= -> ->]|[[= -> ->]|[]]]]];
    (split; [apply acme_wf|done|cbn [d_ValidatedPeers acme acme_with]; set_solver|by eexists|by eexists]).
Qed.

Lemma acme_rules_valid policy rule : active (d_Policies (InjectProxyPolicies acme)) policy rule → rule_valid rule.
Proof.
  intros H%active_in. fold acme_rules in H.
  let l := eval vm_compute in acme_rules in change acme_rules with l in H. rewrite !elem_of_cons, elem_of_nil in H.
  destruct H as [->|[->|[->|[->|[]]]]].
  1, 2: split; [by left; left|apply Forall_singleton; by eexists|by apply Forall_nil].
  all: split; [by left; left|by apply Forall_nil|by apply Forall_singleton].
Qed.

(** The map of the server: the laptop reaches port 443, the phone is not let
    in, both are kept from port 23, and the proxy reaches the ports of its two
    paths. *)
Definition server_rules (nmd : NetworkMapData) : option (list (string * string * string * Z)) :=
  (λ m, (λ fr, (f_PeerIP fr, f_Action fr, f_Port fr, pr_Start (f_PortRange fr))) <$> m_FirewallRules m) <$>
    NetworkMapFromData pick0 noon joined ascii nmd "server" no_zone.

Example acme_server_rules :
  server_rules acme =
  Some [("100.64.0.1", "accept", "443", 0); ("100.64.0.1", "drop", "23", 0); ("100.64.0.3", "drop", "23", 0);
        ("100.64.0.4", "accept", "", 8080); ("100.64.0.4", "accept", "", 8081)].
Proof. vm_compute. reflexivity. Qed.

(** Two targets of a service with the same path get one identifier, and the
    rule of the second is taken for that of the first: its port stays closed. *)
Lemma proxy_targets_merged :
  server_rules (acme_with [web_target "/" 8080; web_target "/" 9090]) =
  Some [("100.64.0.1", "accept", "443", 0); ("100.64.0.1", "drop", "23", 0); ("100.64.0.3", "drop", "23", 0);
        ("100.64.0.4", "accept", "", 8080)].
Proof. vm_compute. reflexivity. Qed.

Lemma network_map_exact_witness :
  served acme "server" server ∧
  ∃ m, NetworkMapFromData pick0 noon joined ascii acme "server" no_zone = Some m ∧
    (∀ fr, fr ∈ m_FirewallRules m ↔
      ∃ policy rule dir id p, asked (InjectProxyPolicies acme) "server" policy rule dir id p ∧
        fr ∈ call_rules server (rule, dir, p)) ∧
    (∀ policy rule dir id p, asked (InjectProxyPolicies acme) "server" policy rule dir id p →
      p ∈ m_Peers m ∨ p ∈ m_OfflinePeers m).
Proof.
  assert (S : served acme "server" server) by (apply acme_served; set_solver).
  split; [exact S|]. exact (network_map_exact pick0 noon joined ascii acme "server" server no_zone S).
Defined.

Lemma network_map_peers_witness :
  served acme "laptop" laptop ∧
  ∃ m, NetworkMapFromData pick0 noon joined ascii acme "laptop" no_zone = Some m ∧
    NoDup (p_ID <$> m_Peers m ++ m_OfflinePeers m) ∧ "laptop" ∉ p_ID <$> m_Peers m ++ m_OfflinePeers m ∧
    ∀ p, p ∈ m_Peers m ++ m_OfflinePeers m → d_Peers acme !! p_ID p = Some p ∧ p_ID p ∈ d_ValidatedPeers acme.
Proof.
  assert (S : served acme "laptop" laptop) by (apply acme_served; set_solver).
  split; [exact S|]. exact (network_map_peers pick0 noon joined ascii acme "laptop" laptop no_zone S).
Defined.

Lemma connections_mutual_witness :
  served acme "laptop" laptop ∧ served acme "server" server ∧
  ∃ ca cb, GetPeerNetworkMapComponents pick0 acme "laptop" no_zone = Some ca ∧
    GetPeerNetworkMapComponents pick0 acme "server" no_zone = Some cb ∧
    (server ∈ (getPeerConnectionResources pick0 ca "laptop").1.1.1 ↔
     laptop ∈ (getPeerConnectionResources pick0 cb "server").1.1.1).
Proof.
  assert (S1 : served acme "laptop" laptop) by (apply acme_served; set_solver).
  assert (S2 : served acme "server" server) by (apply acme_served; set_solver).
  split; [exact S1|split; [exact S2|]].
  exact (connections_mutual pick0 noon joined ascii acme "laptop" "server" laptop server no_zone S1 S2).
Defined.


(** Two maps with a peer in common. *)
Definition map_of (peers : list Peer) (rules : list RouteFirewallRule) : NetworkMap :=
  {| m_Peers := peers; m_Network := d_Network acme; m_Routes := []; m_DNSConfig := noDNS; m_OfflinePeers := [];
     m_FirewallRules := []; m_RoutesFirewallRules := rules; m_ForwardingRules := []; m_AuthorizedUsers := None;
     m_EnableSSH := false; m_ForceRoutingPeerDNSResolution := false |}.

Lemma merge_exact_witness :
  let nm := map_of [laptop; server] [] in
  let other := map_of [server; phone] [] in
  NoDup (p_ID <$> m_Peers nm) ∧ NoDup (p_ID <$> m_Peers other) ∧ phone ∈ m_Peers (Merge 0 nm other).
Proof.
  assert (N1 : NoDup (p_ID <$> m_Peers (map_of [laptop; server] []))) by (by apply (bool_decide_unpack _)).
  assert (N2 : NoDup (p_ID <$> m_Peers (map_of [server; phone] []))) by (by apply (bool_decide_unpack _)).
  split; [exact N1|split; [exact N2|]].
  apply (merge_exact 0 (map_of [laptop; server] []) (map_of [server; phone] []) N1 N2).
  right. split; [right; by left|]. by apply (bool_decide_unpack _).
Defined.

Lemma merge_drops_sources_witness :
  m_RoutesFirewallRules (Merge 0 (map_of [] [sources_rule ["100.64.0.1/32"]]) (map_of [] [sources_rule ["100.64.0.3/32"]])) =
  [sources_rule ["100.64.0.1/32"]].
Proof. exact (merge_drops_sources 0 ["100.64.0.1/32"] ["100.64.0.3/32"] (map_of [] _) (map_of [] _) eq_refl eq_refl). Defined.

(** The filter of the server after its map was applied. *)
Definition acme_update (m : NetworkMap) : Update :=
  {| u_nm := sync_rules server m; u_flag := true; u_seed1 := 0; u_seed2 := 0 |}.

