(* ===== verification/IPAlloc.v ===== *)
(** * Overlay addresses of peers

    [management/server/types/network.go]: the addresses a peer can get in the
    IPv4 and the IPv6 range of an account, and the loops of [account.go] that
    give every peer of an account a new one.

    The random numbers are arguments: [rnd i n] is the [i]-th number drawn
    below [n] ([util.RandIntn]), and the bytes of [rand.Read] are a list. *)
From S2P Require Import Prelude NetIP Bytes.
Open Scope Z_scope.

Inductive AllocError := ErrInvalidSubnet | ErrOutOfIPs | ErrExhausted.

(** ** IPv4 *)

Definition validateIPv4Prefix (prefix : Prefix) : bool :=
  negb (negb (prefix_IsValid prefix) || negb (Is4 (prefix_Addr prefix)) || (prefix_Bits prefix <? 1) ||
        (31 <=? prefix_Bits prefix)).

Definition baseIP (prefix : Prefix) : Z := addr_val (prefix_Addr (prefix_Masked prefix)).
Definition totalIPs (prefix : Prefix) : Z := uint 32 (2 ^ (32 - prefix_Bits prefix)).

(** The network and the broadcast address are reserved. *)
Definition taken_set (prefix : Prefix) (takenIps : list Addr) : gset Z :=
  foldl (λ taken ip, match ip with AddrV4 v => {[v]} ∪ taken | _ => taken end)
    {[baseIP prefix; uint 32 (baseIP prefix + totalIPs prefix - 1)]} takenIps.

(** The attempts at random offsets. *)
Fixpoint try_random (rnd : nat → Z → Z) (prefix : Prefix) (taken : gset Z) (attempts i : nat) : option Z :=
  match attempts with
  | O => None
  | S attempts' =>
      let offset := uint 32 (rnd i (totalIPs prefix - 2)) + 1 in
      let candidate := uint 32 (baseIP prefix + offset) in
      if negb (bool_decide (candidate ∈ taken)) then Some candidate
      else try_random rnd prefix taken attempts' (S i)
  end.

(** The scan from the offset on, over the given number of addresses. *)
Fixpoint try_each (prefix : Prefix) (taken : gset Z) (count : nat) (offset : Z) : option Z :=
  match count with
  | O => None
  | S count' =>
      let candidate := uint 32 (baseIP prefix + offset) in
      if negb (bool_decide (candidate ∈ taken)) then Some candidate
      else try_each prefix taken count' (offset + 1)
  end.

Definition AllocatePeerIP (rnd : nat → Z → Z) (prefix : Prefix) (takenIps : list Addr) : AllocError + Addr :=
  if negb (validateIPv4Prefix prefix) then inl ErrInvalidSubnet
  else
    let taken := taken_set prefix takenIps in
    let maxAttempts := Z.quot (totalIPs prefix - Z.of_nat (size taken)) 100 in
    match try_random rnd prefix taken (Z.to_nat maxAttempts) 0 with
    | Some candidate => inr (AddrV4 candidate)
    | None =>
        match try_each prefix taken (Z.to_nat (totalIPs prefix - 2)) 1 with
        | Some candidate => inr (AddrV4 candidate)
        | None => inl ErrOutOfIPs
        end
    end.

Definition AllocateRandomPeerIP (rnd : Z → Z) (prefix : Prefix) : AllocError + Addr :=
  if negb (validateIPv4Prefix prefix) then inl ErrInvalidSubnet
  else
    let offset := uint 32 (rnd (totalIPs prefix - 2)) + 1 in
    inr (AddrV4 (uint 32 (baseIP prefix + offset))).

(** ** New addresses for all peers *)

Record AccountPeer := { ap_ID : string; ap_IP : Addr; ap_IPv6 : Addr }.

Definition with_IP (p : AccountPeer) (ip : Addr) : AccountPeer :=
  {| ap_ID := ap_ID p; ap_IP := ip; ap_IPv6 := ap_IPv6 p |}.
Definition with_IPv6 (p : AccountPeer) (ip : Addr) : AccountPeer :=
  {| ap_ID := ap_ID p; ap_IP := ap_IP p; ap_IPv6 := ip |}.

(** The loop of [reallocateAccountPeerIPs]; [rnds] has the draws for each
    peer. *)
Fixpoint reallocate (rnds : nat → nat → Z → Z) (range : Prefix) (takenIPs : list Addr) (peers : list AccountPeer)
    (i : nat) : AllocError + list AccountPeer :=
  match peers with
  | [] => inr []
  | peer :: peers' =>
      match AllocatePeerIP (rnds i) range takenIPs with
      | inl err => inl err
      | inr newIP =>
          match reallocate rnds range (takenIPs ++ [newIP]) peers' (S i) with
          | inl err => inl err
          | inr rest => inr (with_IP peer newIP :: rest)
          end
      end
  end.

(** Nothing changes for an invalid range. *)
Definition reallocateAccountPeerIPs (rnds : nat → nat → Z → Z) (newNetworkRange : Prefix) (peers : list AccountPeer)
    : AllocError + list AccountPeer :=
  if negb (prefix_IsValid newNetworkRange) then inr peers else reallocate rnds newNetworkRange [] peers 0.

(** ** What is assignable *)

(** An address of the range that is neither the network nor the broadcast
    address. *)
Definition assignable (prefix : Prefix) (ip : Addr) : Prop :=
  Is4 ip = true ∧ prefix_Contains prefix ip = true ∧ addr_val ip ≠ baseIP prefix ∧
  addr_val ip ≠ baseIP prefix + 2 ^ (32 - prefix_Bits prefix) - 1.

(** What [util.RandIntn] documents. *)
Definition draws (rnd : nat → Z → Z) : Prop := ∀ i n, 0 < n → 0 <= rnd i n < n.

Section V4.
Context (prefix : Prefix) (Hwf : prefix_wf prefix) (Hvalid : validateIPv4Prefix prefix = true).

Notation h := (32 - prefix_Bits prefix).

Lemma valid_cases : ∃ v, prefix = MkPrefix (AddrV4 v) (prefix_Bits prefix) ∧ in_width 32 v ∧ 1 <= prefix_Bits prefix <= 30.
Proof.
  unfold validateIPv4Prefix in Hvalid. destruct prefix as [a bits]. simpl in *. destruct Hwf as (Ha & _ & _). simpl in Ha.
  bools. destruct a as [|v|v z]; simpl in *; try naive_solver. exists v. split_and!; [done|apply Ha..|lia|lia].
Qed.

Lemma h_bounds : 2 <= h <= 31.
Proof. destruct valid_cases as (v & _ & _ & ?). lia. Qed.

Lemma total_eq : totalIPs prefix = 2 ^ h ∧ 4 <= 2 ^ h < 2 ^ 32.
Proof.
  pose proof h_bounds as Hh.
  assert (2 ^ 2 <= 2 ^ h) by (apply Z.pow_le_mono_r; lia). assert (2 ^ h < 2 ^ 32) by (apply Z.pow_lt_mono_r; lia).
  split; [|lia]. apply uint_id. unfold in_width. lia.
Qed.

(** Base and host part. *)
Lemma base_split : ∃ q, baseIP prefix = q * 2 ^ h ∧ 0 <= q ∧ baseIP prefix + 2 ^ h <= 2 ^ 32 ∧
  ∀ a, 0 <= a → prefix_Contains prefix (AddrV4 a) = true ↔ a / 2 ^ h = q.
Proof.
  destruct valid_cases as (v & E & Hv & Hb). pose proof h_bounds as Hh. pose proof total_eq as [_ Ht].
  unfold in_width in Hv. exists (v / 2 ^ h).
  assert (Hbase : baseIP prefix = v / 2 ^ h * 2 ^ h).
  { unfold baseIP, prefix_Masked, prefix_IsValid. rewrite E. simpl. destruct (0 <=? prefix_Bits prefix) eqn:E0; [|bools; lia].
    simpl. unfold mask_low. rewrite Z.shiftl_mul_pow2, Z.shiftr_div_pow2 by lia. done. }
  assert (Hq : 0 <= v / 2 ^ h < 2 ^ (32 - h)).
  { split; [apply Z.div_pos; lia|]. apply Z.div_lt_upper_bound; [lia|]. rewrite <- Z.pow_add_r by lia. replace (h + (32 - h)) with 32 by lia. lia. }
  split_and!; [done|lia| |].
  - rewrite Hbase. replace (2 ^ 32) with (2 ^ (32 - h) * 2 ^ h) by (rewrite <- Z.pow_add_r by lia; f_equal; lia). nia.
  - intros a Ha. unfold prefix_Contains, prefix_IsValid. rewrite E. cbn [prefix_Addr prefix_Bits addr_zone BitLen addr_val].
    destruct (0 <=? prefix_Bits prefix) eqn:E0; [|bools; lia]. simpl. rewrite Z.eqb_eq, Z.shiftr_lxor, !Z.shiftr_div_pow2 by lia. split.
    + by apply Z.lxor_eq.
    + intros ->. apply Z.lxor_nilpotent.
Qed.

(** The assignable addresses are the offsets between the two reserved ones. *)
Lemma assignable_iff ip :
  addr_wf ip → assignable prefix ip ↔ ∃ offset, 1 <= offset <= 2 ^ h - 2 ∧ ip = AddrV4 (baseIP prefix + offset).
Proof.
  destruct base_split as (q & Eb & Hq & Hlim & Hc). pose proof total_eq as [_ Ht]. intros Hi. unfold assignable. split.
  - intros (H4 & Hin & Hn & Hbr). destruct ip as [|a|a z]; [done| |done]. simpl in *. unfold in_width in Hi.
    rewrite Hc in Hin by lia. exists (a mod 2 ^ h). pose proof (Z.div_mod a (2 ^ h)) as E. pose proof (Z.mod_pos_bound a (2 ^ h)) as Hm.
    rewrite Hin in E. split; [|f_equal]; lia.
  - intros (offset & Ho & ->). simpl. split_and!; [done| |lia|lia]. apply Hc; [lia|].
    rewrite Eb, Z.div_add_l, Z.div_small by lia. lia.
Qed.

Lemma taken_set_spec takenIps a :
  a ∈ taken_set prefix takenIps ↔
  a = baseIP prefix ∨ a = baseIP prefix + 2 ^ h - 1 ∨ AddrV4 a ∈ takenIps.
Proof.
  destruct base_split as (q & Eb & Hq & Hlim & _). pose proof total_eq as [Et Ht]. unfold taken_set.
  rewrite Et, (uint_id 32 (baseIP prefix + 2 ^ h - 1)) by (unfold in_width; nia).
  induction takenIps as [|ip takenIps IH] using rev_ind.
  { simpl. rewrite elem_of_union, !elem_of_singleton, elem_of_nil. tauto. }
  rewrite foldl_snoc, elem_of_app, list_elem_of_singleton. destruct ip as [|v|v z]; rewrite ?elem_of_union, ?elem_of_singleton, IH; [|..];
    intuition congruence.
Qed.

Lemma candidate_eq offset : 1 <= offset <= 2 ^ h - 2 → uint 32 (baseIP prefix + offset) = baseIP prefix + offset.
Proof.
  intros Ho. destruct base_split as (q & Eb & Hq & Hlim & _). pose proof total_eq as [_ Ht]. apply uint_id. unfold in_width. nia.
Qed.

Lemma draw_offset rnd i : draws rnd → 1 <= uint 32 (rnd i (totalIPs prefix - 2)) + 1 <= 2 ^ h - 2.
Proof.
  intros Hr. pose proof total_eq as [-> Ht]. specialize (Hr i (2 ^ h - 2)). rewrite uint_id; [lia|]. unfold in_width. lia.
Qed.

Lemma try_random_sound rnd taken n i a :
  draws rnd → try_random rnd prefix taken n i = Some a →
  a ∉ taken ∧ ∃ offset, 1 <= offset <= 2 ^ h - 2 ∧ a = baseIP prefix + offset.
Proof.
  intros Hr. revert i. induction n as [|n IH]; intros i; cbn [try_random]; [done|].
  pose proof (draw_offset rnd i Hr) as Ho. case_bool_decide as Hin; simpl; [apply IH|]. intros [= <-].
  split; [done|]. eexists. split; [exact Ho|]. by apply candidate_eq.
Qed.

Lemma try_each_spec taken n offset :
  1 <= offset → offset + Z.of_nat n <= 2 ^ h - 1 →
  match try_each prefix taken n offset with
  | Some a => a ∉ taken ∧ ∃ o, offset <= o < offset + Z.of_nat n ∧ a = baseIP prefix + o
  | None => ∀ o, offset <= o < offset + Z.of_nat n → baseIP prefix + o ∈ taken
  end.
Proof.
  revert offset. induction n as [|n IH]; intros offset H1 H2; cbn [try_each]; [lia|].
  rewrite candidate_eq by lia. case_bool_decide as Hin; simpl.
  - specialize (IH (offset + 1)). destruct (try_each prefix taken n (offset + 1)) as [a|].
    + destruct IH as (Ha & o & Ho & ->); [lia|lia|]. split; [done|]. exists o. split; [lia|done].
    + intros o Ho. destruct (Z.eq_dec o offset) as [->|]; [done|]. apply IH; lia.
  - split; [done|]. exists offset. split; [lia|done].
Qed.

Lemma AllocatePeerIP_spec rnd takenIps :
  draws rnd →
  match AllocatePeerIP rnd prefix takenIps with
  | inr ip => addr_wf ip ∧ assignable prefix ip ∧ ip ∉ takenIps
  | inl err => err = ErrOutOfIPs ∧ ∀ ip, addr_wf ip → assignable prefix ip → ip ∈ takenIps
  end.
Proof.
  intros Hr. unfold AllocatePeerIP. rewrite Hvalid. cbn [negb].
  destruct base_split as (q & Eb & Hq & Hlim & _). pose proof total_eq as [Et Ht].
  assert (Hok : ∀ a, a ∉ taken_set prefix takenIps → (∃ offset, 1 <= offset <= 2 ^ h - 2 ∧ a = baseIP prefix + offset) →
    addr_wf (AddrV4 a) ∧ assignable prefix (AddrV4 a) ∧ AddrV4 a ∉ takenIps).
  { intros a Ha (o & Ho & ->). assert (Hw : addr_wf (AddrV4 (baseIP prefix + o))) by (simpl; unfold in_width; nia).
    split_and!; [done|apply assignable_iff; eauto|]. rewrite taken_set_spec in Ha. tauto. }
  destruct (try_random _ _ _ _ _) as [a|] eqn:E1.
  { destruct (try_random_sound _ _ _ _ _ Hr E1). by apply Hok. }
  pose proof (try_each_spec (taken_set prefix takenIps) (Z.to_nat (totalIPs prefix - 2)) 1) as H2. rewrite Et in *.
  rewrite Z2Nat.id in H2 by lia. destruct (try_each _ _ _ _) as [a|].
  - destruct H2 as (Ha & o & Ho & ->); [lia|lia|]. apply Hok; [done|]. exists o. split; [lia|done].
  - split; [done|]. intros ip Hw (o & Ho & ->)%assignable_iff; [|done].
    assert (Hin : baseIP prefix + o ∈ taken_set prefix takenIps) by (apply H2; lia).
    rewrite taken_set_spec in Hin. destruct Hin as [?|[?|?]]; [lia|lia|done].
Qed.
End V4.

(** ** Every peer gets an address of its own *)

Section Realloc.
Context (prefix : Prefix) (Hwf : prefix_wf prefix) (Hvalid : validateIPv4Prefix prefix = true).

Notation hosts := (2 ^ (32 - prefix_Bits prefix) - 2).

(** The assignable addresses, one after the other. *)
Definition all_hosts : list Addr := (λ o, AddrV4 (baseIP prefix + o)) <$> seqZ 1 hosts.

Lemma all_hosts_spec ip : addr_wf ip → ip ∈ all_hosts ↔ assignable prefix ip.
Proof.
  intros Hi. rewrite assignable_iff by done. unfold all_hosts. rewrite list_elem_of_fmap. setoid_rewrite elem_of_seqZ.
  split; intros (o & H1 & H2); exists o; (split; [|lia || done]); [lia|done].
Qed.

Lemma NoDup_all_hosts : NoDup all_hosts.
Proof. apply NoDup_fmap_2; [|apply NoDup_seqZ]. intros x y [= E]. lia. Qed.

Lemma hosts_pos : 2 <= hosts.
Proof. pose proof (total_eq prefix Hwf Hvalid). lia. Qed.

Lemma length_all_hosts : Z.of_nat (length all_hosts) = hosts.
Proof. pose proof hosts_pos. unfold all_hosts. rewrite length_fmap, length_seqZ. lia. Qed.

Lemma all_hosts_wf ip : ip ∈ all_hosts → addr_wf ip.
Proof.
  intros (o & -> & Ho)%list_elem_of_fmap. apply elem_of_seqZ in Ho. simpl. unfold in_width.
  destruct (base_split prefix Hwf Hvalid) as (q & Eb & Hq & Hlim & _). pose proof hosts_pos. nia.
Qed.

(** Distinct assignable addresses are no more than there are. *)
Lemma assignable_bound ips :
  NoDup ips → Forall (λ ip, addr_wf ip ∧ assignable prefix ip) ips → Z.of_nat (length ips) <= hosts.
Proof.
  intros Hnd Hall. rewrite <- length_all_hosts. apply Nat2Z.inj_le, submseteq_length, NoDup_submseteq; [done|].
  rewrite Forall_forall in Hall. intros ip Hip. destruct (Hall ip Hip). by apply all_hosts_spec.
Qed.

Lemma alloc_none_full rnd takenIps err :
  draws rnd → AllocatePeerIP rnd prefix takenIps = inl err → err = ErrOutOfIPs ∧ hosts <= Z.of_nat (length takenIps).
Proof.
  intros Hr E. pose proof (AllocatePeerIP_spec prefix Hwf Hvalid rnd takenIps Hr) as H. rewrite E in H.
  destruct H as [-> H]. split; [done|]. rewrite <- length_all_hosts.
  apply Nat2Z.inj_le, submseteq_length, NoDup_submseteq; [apply NoDup_all_hosts|]. intros ip Hip.
  pose proof (all_hosts_wf ip Hip). apply H; [done|]. by apply all_hosts_spec.
Qed.

Lemma reallocate_spec rnds takenIPs peers i :
  (∀ j, draws (rnds j)) → NoDup takenIPs → Forall (λ ip, addr_wf ip ∧ assignable prefix ip) takenIPs →
  match reallocate rnds prefix takenIPs peers i with
  | inr peers' => ap_ID <$> peers' = ap_ID <$> peers ∧ ap_IPv6 <$> peers' = ap_IPv6 <$> peers ∧
      NoDup (takenIPs ++ (ap_IP <$> peers')) ∧ Forall (λ p, addr_wf (ap_IP p) ∧ assignable prefix (ap_IP p)) peers'
  | inl err => err = ErrOutOfIPs ∧ hosts < Z.of_nat (length takenIPs + length peers)
  end.
Proof.
  intros Hr. revert takenIPs i. induction peers as [|peer peers IH]; intros takenIPs i Hnd Hall; cbn [reallocate].
  { simpl. rewrite app_nil_r. done. }
  destruct (AllocatePeerIP (rnds i) prefix takenIPs) as [err|newIP] eqn:E.
  { destruct (alloc_none_full _ _ _ (Hr i) E) as [-> ?]. simpl. split; [done|lia]. }
  pose proof (AllocatePeerIP_spec prefix Hwf Hvalid (rnds i) takenIPs (Hr i)) as H. rewrite E in H. destruct H as (Hw & Ha & Hn).
  specialize (IH (takenIPs ++ [newIP]) (S i)). destruct (reallocate rnds prefix _ peers (S i)) as [err|rest].
  - destruct IH as [-> IH].
    + apply NoDup_app. split_and!; [done| |apply NoDup_singleton]. intros x Hx ->%list_elem_of_singleton. done.
    + apply Forall_app. split; [done|]. by apply Forall_singleton.
    + split; [done|]. rewrite length_app in IH. simpl in *. lia.
  - destruct IH as (I1 & I2 & I3 & I4).
    + apply NoDup_app. split_and!; [done| |apply NoDup_singleton]. intros x Hx ->%list_elem_of_singleton. done.
    + apply Forall_app. split; [done|]. by apply Forall_singleton.
    + cbn [fmap list_fmap]. rewrite <- (assoc_L (++)) in I3. split_and!; [simpl; congruence|simpl; congruence|done|].
      by constructor.
Qed.
End Realloc.

(** C21. An address from the allocator is an unused host address of the range; it
    gives up only on a range that has no host addresses, or when every host
    address is taken, whatever was drawn. *)
Theorem allocate_peer_ip_exact rnd prefix takenIps :
  prefix_wf prefix → draws rnd →
  match AllocatePeerIP rnd prefix takenIps with
  | inr ip => validateIPv4Prefix prefix = true ∧ assignable prefix ip ∧ ip ∉ takenIps
  | inl ErrInvalidSubnet => validateIPv4Prefix prefix = false
  | inl ErrOutOfIPs => validateIPv4Prefix prefix = true ∧ ∀ ip, addr_wf ip → assignable prefix ip → ip ∈ takenIps
  | inl ErrExhausted => False
  end.
Proof.
  intros Hwf Hr. destruct (validateIPv4Prefix prefix) eqn:V.
  - pose proof (AllocatePeerIP_spec prefix Hwf V rnd takenIps Hr) as H.
    destruct (AllocatePeerIP rnd prefix takenIps) as [err|ip]; [destruct H as [-> H]; done|]. tauto.
  - unfold AllocatePeerIP. by rewrite V.
Qed.

(** A change of the range gives every peer a host address of its own and
    changes nothing else; it fails exactly when there are more peers than host
    addresses. *)
Theorem reallocate_exact rnds range peers :
  prefix_wf range → validateIPv4Prefix range = true → (∀ i, draws (rnds i)) →
  let hosts := 2 ^ (32 - prefix_Bits range) - 2 in
  match reallocateAccountPeerIPs rnds range peers with
  | inr peers' => Z.of_nat (length peers) <= hosts ∧ NoDup (ap_IP <$> peers') ∧
      Forall (λ p, assignable range (ap_IP p)) peers' ∧
      ap_ID <$> peers' = ap_ID <$> peers ∧ ap_IPv6 <$> peers' = ap_IPv6 <$> peers
  | inl err => err = ErrOutOfIPs ∧ hosts < Z.of_nat (length peers)
  end.
Proof.
  intros Hwf V Hr hosts. assert (prefix_IsValid range = true) as Hi.
  { destruct (valid_cases range Hwf V) as (v & _ & _ & ?). unfold prefix_IsValid. apply Z.leb_le. lia. }
  unfold reallocateAccountPeerIPs. rewrite Hi. cbn [negb].
  pose proof (reallocate_spec range Hwf V rnds [] peers 0 Hr (NoDup_nil_2) (Forall_nil_2 _)) as H.
  destruct (reallocate rnds range [] peers 0) as [err|peers']; [done|]. destruct H as (E1 & E2 & Hnd & Hall). simpl in Hnd.
  assert (Hl : length peers' = length peers) by (apply (f_equal length) in E1; by rewrite !length_fmap in E1).
  split_and!; [|done| |done|done].
  - rewrite <- Hl. rewrite <- (length_fmap ap_IP peers'). apply (assignable_bound range Hwf V); [done|]. by apply Forall_fmap.
  - eapply Forall_impl; [exact Hall|]. naive_solver.
Qed.

(** A random address of a valid range is assignable. *)
Lemma AllocateRandomPeerIP_spec rnd prefix :
  prefix_wf prefix → validateIPv4Prefix prefix = true → (∀ n, 0 < n → 0 <= rnd n < n) →
  ∃ ip, AllocateRandomPeerIP rnd prefix = inr ip ∧ assignable prefix ip.
Proof.
  intros Hwf V Hr. unfold AllocateRandomPeerIP. rewrite V. cbn [negb]. eexists. split; [done|].
  pose proof (draw_offset prefix Hwf V (λ _, rnd) 0 (λ _, Hr)) as Ho. rewrite candidate_eq by done.
  apply assignable_iff; [done|done| |eauto].
  destruct (base_split prefix Hwf V) as (q & Eb & Hq & Hlim & _). pose proof (total_eq prefix Hwf V). simpl. unfold in_width. nia.
Qed.
