(* ===== verification/IPAlloc6.v ===== *)
(** * IPv6 overlay addresses

    The IPv6 half of [management/server/types/network.go], on bytes, and the
    assignment of [account.go]. *)
From S2P Require Import Prelude NetIP Bytes IPAlloc.
Open Scope Z_scope.

(** [Addr.As16]: an IPv4 address in its mapped form, zeroes for no address. *)
Definition As16 (a : Addr) : list Z :=
  match a with
  | AddrInvalid => replicate 16 0
  | AddrV4 v => replicate 10 0 ++ [255; 255] ++ be_bytes 4 v
  | AddrV6 v _ => be_bytes 16 v
  end.

Definition IPv6SubnetSize : Z := 64.

(** [rnd] are the seven bytes of [rand.Read]. *)
Definition AllocateIPv6Subnet (rnd : list Z) : Prefix :=
  PrefixFrom (AddrFrom16 (0xfd :: rnd ++ replicate 8 0)) IPv6SubnetSize.

(** The host part, its bits before the prefix length cleared. *)
Definition host_slice (ip : list Z) (prefixLen : Z) : list Z :=
  let hostSlice := drop (Z.to_nat (Z.quot prefixLen 8)) ip in
  let partialBits := Z.rem prefixLen 8 in
  if 0 <? partialBits then
    match hostSlice with
    | b :: rest => Z.land b (Z.shiftr 255 partialBits) :: rest
    | [] => []
    end
  else hostSlice.

Definition ones_mask (n : nat) (partialBits : Z) : list Z :=
  let onesMask := replicate n 255 in
  if 0 <? partialBits then <[0%nat := Z.shiftr 255 partialBits]> onesMask else onesMask.

Definition isHostAllZeroOrOnes (ip : list Z) (prefixLen : Z) : bool :=
  let hostSlice := host_slice ip prefixLen in
  if negb (existsb (λ v, negb (v =? 0)) hostSlice) then true
  else bool_decide (hostSlice = ones_mask (length hostSlice) (Z.rem prefixLen 8)).

(** The address bytes with the host part taken from [rnd]. *)
Definition mix_host (ip rnd : list Z) (ones : Z) : list Z :=
  let firstHostByte := Z.to_nat (Z.quot ones 8) in
  let partialBits := Z.rem ones 8 in
  if 0 <? partialBits then
    let hostMask := Z.shiftr 255 partialBits in
    let ip := <[firstHostByte := Z.lor (Z.land (nth firstHostByte ip 0) (Z.lxor 255 hostMask))
                                       (Z.land (nth firstHostByte rnd 0) hostMask)]> ip in
    take (S firstHostByte) ip ++ drop (S firstHostByte) rnd
  else take firstHostByte ip ++ drop firstHostByte rnd.

(** The first host address instead of a reserved one. *)
Definition random_host (rnd : list Z) (prefix : Prefix) : list Z :=
  let ip := mix_host (As16 (prefix_Addr prefix)) rnd (prefix_Bits prefix) in
  if isHostAllZeroOrOnes ip (prefix_Bits prefix)
  then alter (λ b, Z.lor b 1) 15%nat (As16 (prefix_Addr (prefix_Masked prefix)))
  else ip.

(** [rnd] are the sixteen bytes of the random array. *)
Definition AllocateRandomPeerIPv6 (rnd : list Z) (prefix : Prefix) : AllocError + Addr :=
  let ones := prefix_Bits prefix in
  if (ones =? 0) || (126 <? ones) || negb (Is6 (prefix_Addr prefix)) then inl ErrInvalidSubnet
  else inr (Unmap (AddrFrom16 (random_host rnd prefix))).

(** ** Assignment *)

(** [allocateIPv6WithRetry]: ten attempts; [rnds] has the bytes of each. *)
Fixpoint retry (rnds : nat → list Z) (prefix : Prefix) (taken : gset Addr) (attempts i : nat)
    : AllocError + Addr * gset Addr :=
  match attempts with
  | O => inl ErrExhausted
  | S attempts' =>
      match AllocateRandomPeerIPv6 (rnds i) prefix with
      | inl err => inl err
      | inr newIP =>
          if negb (bool_decide (newIP ∈ taken)) then inr (newIP, {[newIP]} ∪ taken)
          else retry rnds prefix taken attempts' (S i)
      end
  end.

Definition allocateIPv6WithRetry (rnds : nat → list Z) (prefix : Prefix) (taken : gset Addr)
    : AllocError + Addr * gset Addr := retry rnds prefix taken 10 0.

(** [net.IPNet.Contains] of an address as a slice of bytes. *)
Definition IPNet_Contains (n : Prefix) (a : Addr) : bool := prefix_Contains n (Unmap (withoutZone a)).

(** Whether a peer keeps its address: it is allowed one and has one of the
    range. *)
Definition keeps_v6 (netV6 : Prefix) (allowed : gset string) (p : AccountPeer) : bool :=
  bool_decide (ap_ID p ∈ allowed) && IsValid (ap_IPv6 p) && IPNet_Contains netV6 (ap_IPv6 p).

Definition takenV6 (netV6 : Prefix) (allowed : gset string) (peers : list AccountPeer) : gset Addr :=
  list_to_set (ap_IPv6 <$> filter (λ p, keeps_v6 netV6 allowed p = true) peers).

Fixpoint assign_v6 (rnds : nat → nat → list Z) (netV6 v6Prefix : Prefix) (allowed : gset string) (taken : gset Addr)
    (peers : list AccountPeer) (i : nat) : AllocError + list AccountPeer :=
  match peers with
  | [] => inr []
  | peer :: peers' =>
      let next peer' taken :=
        match assign_v6 rnds netV6 v6Prefix allowed taken peers' (S i) with
        | inl err => inl err
        | inr rest => inr (peer' :: rest)
        end in
      if negb (bool_decide (ap_ID peer ∈ allowed)) then next (with_IPv6 peer AddrInvalid) taken
      else if negb (IsValid (ap_IPv6 peer)) || negb (IPNet_Contains netV6 (ap_IPv6 peer)) then
        match allocateIPv6WithRetry (rnds i) v6Prefix taken with
        | inl err => inl err
        | inr (newIP, taken) => next (with_IPv6 peer newIP) taken
        end
      else next peer taken
  end.

Definition assignPeerIPv6Addresses (rnds : nat → nat → list Z) (netV6 v6Prefix : Prefix) (allowed : gset string)
    (peers : list AccountPeer) : AllocError + list AccountPeer :=
  assign_v6 rnds netV6 v6Prefix allowed (takenV6 netV6 allowed peers) peers 0.

(** ** Values of byte strings *)

Lemma be_value_app l1 l2 : be_value (l1 ++ l2) = be_value l1 * 256 ^ Z.of_nat (length l2) + be_value l2.
Proof.
  induction l2 as [|b l2 IH] using rev_ind.
  { rewrite app_nil_r. cbn [length]. change (be_value []) with 0. rewrite Z.pow_0_r. lia. }
  rewrite (assoc_L (++)), !be_value_snoc, IH, length_app, Nat2Z.inj_add, Z.pow_add_r by lia. simpl (Z.of_nat (length [b])).
  rewrite Z.pow_1_r. ring.
Qed.

Lemma be_value_single b : be_value [b] = b.
Proof. reflexivity. Qed.

Lemma be_value_cons b l : be_value (b :: l) = b * 256 ^ Z.of_nat (length l) + be_value l.
Proof. apply (be_value_app [b] l). Qed.

Lemma be_value_range l : bytes l → 0 <= be_value l < 256 ^ Z.of_nat (length l).
Proof. apply be_val_range. lia. Qed.

Lemma be_value_inj l1 l2 : bytes l1 → bytes l2 → length l1 = length l2 → be_value l1 = be_value l2 → l1 = l2.
Proof. intros H1 H2 Hl E. rewrite <- (be_bytes_value l1), <- (be_bytes_value l2) by done. by rewrite Hl, E. Qed.

(** Checked for every byte and every number of bits. *)
Lemma forall_partial (P : Z → Z → bool) r b :
  forallb (λ r, forallb (P r) (seqZ 0 256)) (seqZ 1 7) = true → 1 <= r <= 7 → byte b → P r b = true.
Proof.
  unfold byte. intros H Hr Hb. rewrite forallb_forall in H. specialize (H r). rewrite forallb_forall in H.
  apply H; apply list_elem_of_In, elem_of_seqZ; lia.
Qed.

Lemma land_low r x : 1 <= r <= 7 → byte x → Z.land x (Z.shiftr 255 r) = x mod 2 ^ (8 - r).
Proof.
  intros Hr Hx. apply Z.eqb_eq.
  apply (forall_partial (λ r x, Z.land x (Z.shiftr 255 r) =? x mod 2 ^ (8 - r))); [by vm_compute|done|done].
Qed.

Lemma land_high r b : 1 <= r <= 7 → byte b → Z.land b (Z.lxor 255 (Z.shiftr 255 r)) = b / 2 ^ (8 - r) * 2 ^ (8 - r).
Proof.
  intros Hr Hb. apply Z.eqb_eq.
  apply (forall_partial (λ r b, Z.land b (Z.lxor 255 (Z.shiftr 255 r)) =? b / 2 ^ (8 - r) * 2 ^ (8 - r))); [by vm_compute|done|done].
Qed.

Lemma lor_parts r b x : 1 <= r <= 7 → byte b → byte x →
  Z.lor (b / 2 ^ (8 - r) * 2 ^ (8 - r)) (x mod 2 ^ (8 - r)) = b / 2 ^ (8 - r) * 2 ^ (8 - r) + x mod 2 ^ (8 - r).
Proof.
  intros Hr Hb Hx. rewrite <- Z.add_lor_land, <- (land_high r b), <- (land_low r x) by done.
  assert (Z.land (Z.land b (Z.lxor 255 (Z.shiftr 255 r))) (Z.land x (Z.shiftr 255 r)) = 0) as ->; [|lia].
  rewrite <- Z.land_assoc, (Z.land_comm x), (Z.land_assoc (Z.lxor _ _)).
  assert (Z.land (Z.lxor 255 (Z.shiftr 255 r)) (Z.shiftr 255 r) = 0) as ->; [|by rewrite Z.land_0_l, Z.land_0_r].
  apply Z.eqb_eq, (forall_partial (λ r _, Z.land (Z.lxor 255 (Z.shiftr 255 r)) (Z.shiftr 255 r) =? 0) r b); [by vm_compute|done|done].
Qed.

Lemma mix_byte r b x : 1 <= r <= 7 → byte b → byte x →
  Z.lor (Z.land b (Z.lxor 255 (Z.shiftr 255 r))) (Z.land x (Z.shiftr 255 r)) = b / 2 ^ (8 - r) * 2 ^ (8 - r) + x mod 2 ^ (8 - r).
Proof. intros. by rewrite land_high, land_low, lor_parts. Qed.

(** ** The host part *)

(** Bits of the prefix length: whole bytes and a rest. *)
Section Host.
Context (ones : Z) (Hones : 1 <= ones <= 126).

Notation k := (Z.to_nat (Z.quot ones 8)).
Notation r := (Z.rem ones 8).
Notation n := (128 - ones).

Lemma ones_split : ones = 8 * Z.of_nat k + r ∧ 0 <= r <= 7 ∧ (k <= 15)%nat.
Proof.
  pose proof (Z.quot_rem ones 8). pose proof (Z.rem_bound_pos ones 8). pose proof (Z.quot_pos ones 8). lia.
Qed.

(** A byte string of the length of an address around the prefix length. *)
Lemma split_whole ip : r = 0 → length ip = 16%nat → bytes ip →
  be_value ip / 2 ^ n = be_value (take k ip) ∧ be_value ip mod 2 ^ n = be_value (drop k ip) ∧
  0 <= be_value (drop k ip) < 2 ^ n ∧ be_value ip = be_value (take k ip) * 2 ^ n + be_value (drop k ip).
Proof.
  intros Hr Hl Hb. destruct ones_split as (E & _ & Hk).
  assert (Hp : 2 ^ n = 256 ^ Z.of_nat (length (drop k ip))).
  { rewrite length_drop, Hl. change 256 with (2 ^ 8). rewrite <- Z.pow_mul_r by lia. f_equal. lia. }
  pose proof (be_value_app (take k ip) (drop k ip)) as Ev. rewrite take_drop, <- Hp in Ev.
  pose proof (be_value_range (drop k ip) ltac:(by apply Forall_drop)) as Hd. rewrite <- Hp in Hd.
  assert (Hpos : 0 < 2 ^ n) by (apply Z.pow_pos_nonneg; lia).
  split_and!; [| |lia|lia|done].
  - rewrite Ev, Z.div_add_l, Z.div_small by lia. lia.
  - rewrite Ev, Z.add_comm, Z.mod_add, Z.mod_small by lia. done.
Qed.

Lemma split_partial ip : 1 <= r → length ip = 16%nat → bytes ip →
  ∃ b, byte b ∧ drop k ip = b :: drop (S k) ip ∧ nth k ip 0 = b ∧ length (drop (S k) ip) = (15 - k)%nat ∧
    2 ^ n = 2 ^ (8 - r) * 256 ^ Z.of_nat (15 - k) ∧ 0 <= be_value (drop (S k) ip) < 256 ^ Z.of_nat (15 - k) ∧
    be_value ip / 2 ^ n = be_value (take k ip) * 2 ^ r + b / 2 ^ (8 - r) ∧
    be_value ip mod 2 ^ n = b mod 2 ^ (8 - r) * 256 ^ Z.of_nat (15 - k) + be_value (drop (S k) ip).
Proof.
  intros Hr Hl Hb. destruct ones_split as (E & Hr7 & Hk).
  destruct (lookup_lt_is_Some_2 ip k) as [b Eb]; [lia|]. pose proof (drop_S _ _ _ Eb) as Ed. exists b.
  assert (Hbb : byte b) by (unfold bytes in Hb; rewrite Forall_lookup in Hb; eauto). unfold byte in Hbb.
  assert (Hlen : length (drop (S k) ip) = (15 - k)%nat) by (rewrite length_drop; lia).
  set (P := 256 ^ Z.of_nat (15 - k)). assert (HP : 0 < P) by (apply Z.pow_pos_nonneg; lia).
  assert (Hn : 2 ^ n = 2 ^ (8 - r) * P).
  { subst P. change 256 with (2 ^ 8). rewrite <- Z.pow_mul_r, <- Z.pow_add_r by lia. f_equal. lia. }
  pose proof (be_value_range (drop (S k) ip) ltac:(by apply Forall_drop)) as Hd. rewrite Hlen in Hd. fold P in Hd.
  pose proof (be_value_app (take k ip) (drop k ip)) as Ev. rewrite take_drop, Ed in Ev. cbn [length] in Ev.
  rewrite be_value_cons, Hlen, Nat2Z.inj_succ, Z.pow_succ_r in Ev by lia. fold P in Ev.
  assert (H256 : 2 ^ r * 2 ^ (8 - r) = 256) by (rewrite <- Z.pow_add_r by lia; by replace (r + (8 - r)) with 8 by lia).
  assert (Hs : 0 < 2 ^ (8 - r)) by (apply Z.pow_pos_nonneg; lia).
  set (q := 2 ^ (8 - r)) in *. set (A := be_value (take k ip)) in *. set (C := be_value (drop (S k) ip)) in *.
  pose proof (Z.div_mod b q) as Eq. pose proof (Z.mod_pos_bound b q Hs) as Hm.
  assert (Hval : be_value ip = (A * 2 ^ r + b / q) * (q * P) + (b mod q * P + C)).
  { rewrite Ev, <- H256. replace (b * P) with ((q * (b / q) + b mod q) * P) by (rewrite <- Eq; lia). ring. }
  assert (Hsmall : 0 <= b mod q * P + C < q * P) by nia.
  split_and!; [exact Hbb|exact Ed|by apply nth_lookup_Some|done|done|lia|lia| |].
  - rewrite Hn, Hval, Z.div_add_l, (Z.div_small (_ + _)) by lia. lia.
  - rewrite Hn, Hval, Z.add_comm, Z.mod_add, Z.mod_small by lia. done.
Qed.

Lemma bytes_drop j ip : bytes ip → bytes (drop j ip).
Proof. apply Forall_drop. Qed.

(** The value of the cleared host part. *)
Lemma host_value ip : length ip = 16%nat → bytes ip →
  be_value (host_slice ip ones) = be_value ip mod 2 ^ n ∧ bytes (host_slice ip ones) ∧
  length (host_slice ip ones) = (16 - k)%nat.
Proof.
  intros Hl Hb. destruct ones_split as (E & Hr7 & Hk). unfold host_slice. destruct (Z.ltb_spec 0 r) as [Hr|Hr].
  - destruct (split_partial ip ltac:(lia) Hl Hb) as (b & Hbb & Ed & _ & Hlen & Hn & Hd & _ & Hm). rewrite Ed.
    rewrite land_low by (done || lia). pose proof (Z.mod_pos_bound b (2 ^ (8 - r)) ltac:(apply Z.pow_pos_nonneg; lia)) as Hmb.
    pose proof (Z.mod_le b (2 ^ (8 - r)) ltac:(unfold byte in Hbb; lia) ltac:(apply Z.pow_pos_nonneg; lia)) as Hle.
    split_and!.
    + rewrite be_value_cons, Hlen, Hm. done.
    + constructor; [unfold byte in *; lia|by apply bytes_drop].
    + simpl. rewrite Hlen. lia.
  - destruct (split_whole ip ltac:(lia) Hl Hb) as (_ & Hm & _). split_and!; [done|by apply bytes_drop|]. rewrite length_drop. lia.
Qed.

Lemma ones_mask_value : be_value (ones_mask (16 - k) r) = 2 ^ n - 1 ∧ bytes (ones_mask (16 - k) r).
Proof.
  destruct ones_split as (E & Hr7 & Hk).
  assert (Hall : ∀ m, be_value (replicate m 255) = 256 ^ Z.of_nat m - 1).
  { induction m as [|m IH]; [done|]. rewrite replicate_S_end, be_value_snoc, IH, Nat2Z.inj_succ, Z.pow_succ_r by lia. lia. }
  assert (Hby : ∀ m, bytes (replicate m 255)) by (intros m; apply Forall_replicate; unfold byte; lia).
  unfold ones_mask. destruct (Z.ltb_spec 0 r) as [Hr|Hr].
  - replace (16 - k)%nat with (S (15 - k)) by lia. cbn [replicate]. rewrite list_insert_alter.
    change (alter (λ _, Z.shiftr 255 r) 0%nat (255 :: replicate (15 - k) 255)) with (Z.shiftr 255 r :: replicate (15 - k) 255).
    rewrite Z.shiftr_div_pow2 by lia.
    assert (Hq : 255 / 2 ^ r = 2 ^ (8 - r) - 1).
    { assert (H256 : 2 ^ (8 - r) * 2 ^ r = 256) by (rewrite <- Z.pow_add_r by lia; by replace (8 - r + r) with 8 by lia).
      assert (0 < 2 ^ r) by (apply Z.pow_pos_nonneg; lia). symmetry. apply (Z.div_unique _ _ _ (2 ^ r - 1)); [lia|nia]. }
    assert (0 < 2 ^ (8 - r) <= 2 ^ 8) by (split; [apply Z.pow_pos_nonneg; lia|apply Z.pow_le_mono_r; lia]).
    rewrite Hq. split; [|constructor; [unfold byte; lia|apply Hby]].
    rewrite be_value_cons, length_replicate, Hall.
    replace (2 ^ n) with (2 ^ (8 - r) * 256 ^ Z.of_nat (15 - k)); [lia|].
    change 256 with (2 ^ 8). rewrite <- Z.pow_mul_r, <- Z.pow_add_r by lia. f_equal. lia.
  - split; [|done]. rewrite Hall. f_equal. change 256 with (2 ^ 8). rewrite <- Z.pow_mul_r by lia. f_equal. lia.
Qed.

Lemma all_zero l : bytes l → negb (existsb (λ v, negb (v =? 0)) l) = (be_value l =? 0).
Proof.
  intros Hb. induction l as [|b l IH] using rev_ind; [done|]. apply Forall_app in Hb as [Hb [Hx _]%Forall_cons].
  rewrite existsb_app, be_value_snoc, negb_orb, IH by done. pose proof (be_value_range l Hb) as Hr. unfold byte in Hx. cbn [existsb].
  rewrite orb_false_r, negb_involutive. apply eq_true_iff_eq. rewrite andb_true_iff, !Z.eqb_eq. lia.
Qed.

(** The test compares the host part with its two reserved values. *)
Lemma isHost_spec ip : length ip = 16%nat → bytes ip →
  isHostAllZeroOrOnes ip ones = (be_value ip mod 2 ^ n =? 0) || (be_value ip mod 2 ^ n =? 2 ^ n - 1).
Proof.
  intros Hl Hb. destruct (host_value ip Hl Hb) as (Ev & Hbs & Hls). destruct ones_mask_value as [Em Hbm].
  unfold isHostAllZeroOrOnes. rewrite all_zero, Ev, Hls by done. destruct (_ =? 0); [done|]. simpl.
  apply eq_true_iff_eq. rewrite bool_decide_eq_true, Z.eqb_eq, <- Ev, <- Em. split; [by intros ->|].
  apply be_value_inj; [done|done|]. rewrite Hls. unfold ones_mask. destruct (0 <? r); by rewrite ?length_insert, length_replicate.
Qed.

(** Mixing keeps the network part and takes the host part of the random bytes. *)
Lemma mix_value ip rnd : length ip = 16%nat → bytes ip → length rnd = 16%nat → bytes rnd →
  be_value (mix_host ip rnd ones) = be_value ip / 2 ^ n * 2 ^ n + be_value rnd mod 2 ^ n ∧
  bytes (mix_host ip rnd ones) ∧ length (mix_host ip rnd ones) = 16%nat.
Proof.
  intros Hl Hb Hl' Hb'. destruct ones_split as (E & Hr7 & Hk). unfold mix_host. destruct (Z.ltb_spec 0 r) as [Hr|Hr].
  - destruct (split_partial ip ltac:(lia) Hl Hb) as (b & Hbb & Ed & En & Hlen & Hn & Hd & Hdiv & _).
    destruct (split_partial rnd ltac:(lia) Hl' Hb') as (x & Hxx & Ed' & En' & Hlen' & _ & Hd' & _ & Hmod).
    rewrite En, En', mix_byte by (done || lia).
    set (c := b / 2 ^ (8 - r) * 2 ^ (8 - r) + x mod 2 ^ (8 - r)).
    assert (Et : take (S k) (<[k := c]> ip) = take k ip ++ [c]).
    { rewrite insert_take_drop by lia. rewrite take_app. rewrite length_take, Nat.min_l by lia.
      replace (S k - k)%nat with 1%nat by lia. rewrite take_take. replace (S k `min` k)%nat with k by lia. done. }
    rewrite Et. assert (Hs : 0 < 2 ^ (8 - r)) by (apply Z.pow_pos_nonneg; lia).
    pose proof (Z.mod_pos_bound x _ Hs) as Hm. pose proof (Z.div_mod b (2 ^ (8 - r)) ltac:(lia)) as Eb.
    pose proof (Z.mod_pos_bound b _ Hs) as Hmb. unfold byte in Hbb.
    assert (H256 : 2 ^ r * 2 ^ (8 - r) = 256) by (rewrite <- Z.pow_add_r by lia; by replace (r + (8 - r)) with 8 by lia).
    assert (b / 2 ^ (8 - r) < 2 ^ r) by (apply Z.div_lt_upper_bound; lia).
    assert (0 <= b / 2 ^ (8 - r)) by (apply Z.div_pos; lia).
    assert (Hc : byte c) by (unfold byte, c; nia). split_and!.
    + rewrite !be_value_app, be_value_single, Hlen', Hdiv, Hmod, Hn. cbn [length]. rewrite Z.pow_1_r.
      unfold c. set (P := 256 ^ Z.of_nat (15 - k)). rewrite <- H256. ring.
    + repeat apply Forall_app_2; [by apply Forall_take|by apply Forall_singleton|by apply Forall_drop].
    + rewrite !length_app, length_take, Hlen'. simpl. lia.
  - destruct (split_whole ip ltac:(lia) Hl Hb) as (Hdiv & _). destruct (split_whole rnd ltac:(lia) Hl' Hb') as (_ & Hmod & _).
    split_and!.
    + rewrite be_value_app, Hdiv, Hmod. do 2 f_equal. rewrite length_drop, Hl'. change 256 with (2 ^ 8).
      rewrite <- Z.pow_mul_r by lia. f_equal. lia.
    + apply Forall_app_2; [by apply Forall_take|by apply Forall_drop].
    + rewrite length_app, length_take, length_drop. lia.
Qed.
End Host.

(** ** Addresses *)

Lemma high_bits v w n m : 0 <= n <= m → v / 2 ^ n = w / 2 ^ n → v / 2 ^ m = w / 2 ^ m.
Proof.
  intros H E. replace m with (n + (m - n)) by lia. rewrite Z.pow_add_r by lia.
  rewrite <- !Z.div_div by (try apply Z.pow_nonzero; try apply Z.pow_pos_nonneg; lia). by rewrite E.
Qed.

(** The lowest bit of the masked network is set when the random host part is
    reserved. *)
Lemma fallback_value M : 0 <= M < 2 ^ 128 → M mod 4 = 0 →
  be_value (alter (λ b, Z.lor b 1) 15%nat (be_bytes 16 M)) = M + 1.
Proof.
  intros HM H4. change (be_bytes 16 M) with (be_bytes 15 (M / 256) ++ [M mod 256]).
  rewrite alter_app_r_alt by (rewrite length_be_bytes; lia). rewrite length_be_bytes. simpl (15 - 15)%nat.
  change (alter (λ b, Z.lor b 1) 0%nat [M mod 256]) with [Z.lor (M mod 256) 1]. rewrite be_value_snoc, be_value_bytes.
  2:{ split; [apply Z.div_pos; lia|]. apply Z.div_lt_upper_bound; [lia|]. change (256 * 256 ^ Z.of_nat 15) with (2 ^ 128). lia. }
  assert (Hlor : Z.lor (M mod 256) 1 = M mod 256 + 1).
  { assert (Hl : Z.land (M mod 256) 1 = 0).
    { change 1 with (Z.ones 1). rewrite Z.land_ones by lia. rewrite (Z.div_mod M 4) by lia. rewrite H4, Z.add_0_r.
      replace (4 * (M / 4)) with (2 * (M / 4) * 2) by ring. change 256 with (128 * 2). rewrite Zmult_mod_distr_r.
      change (2 ^ 1) with 2. apply Z.mod_mul. lia. }
    pose proof (Z.add_lor_land (M mod 256) 1). lia. }
  rewrite Hlor. pose proof (Z.div_mod M 256). lia.
Qed.

(** The chosen bytes: the network part of the range and a host part that is
    not reserved. *)
Lemma random_host_value rnd v ones :
  0 <= v < 2 ^ 128 → 1 <= ones <= 126 → bytes rnd → length rnd = 16%nat →
  let n := 128 - ones in
  let w := be_value (random_host rnd (MkPrefix (AddrV6 v "") ones)) in
  w / 2 ^ n = v / 2 ^ n ∧ 0 < w mod 2 ^ n < 2 ^ n - 1.
Proof.
  intros Hv Hones Hb Hl n. assert (Hn : 2 <= n <= 127) by lia.
  assert (Hp : 2 ^ 2 <= 2 ^ n) by (apply Z.pow_le_mono_r; lia).
  assert (Hip : be_value (be_bytes 16 v) = v) by (by apply be_value_bytes).
  destruct (mix_value ones Hones (be_bytes 16 v) rnd (length_be_bytes _ _) (be_bytes_range _ _) Hl Hb) as (Ev & Hbm & Hlm).
  rewrite Hip in Ev. fold n in Ev. pose proof (Z.mod_pos_bound (be_value rnd) (2 ^ n) ltac:(lia)) as Hrm.
  assert (Hshape : ∀ host, 0 <= host < 2 ^ n →
    (v / 2 ^ n * 2 ^ n + host) / 2 ^ n = v / 2 ^ n ∧ (v / 2 ^ n * 2 ^ n + host) mod 2 ^ n = host).
  { intros host Hh. rewrite Z.div_add_l, (Z.div_small host) by lia. rewrite (Z.add_comm _ host), Z.mod_add, Z.mod_small by lia. lia. }
  unfold random_host. cbn [prefix_Addr prefix_Bits As16]. rewrite (isHost_spec ones Hones _ Hlm Hbm). fold n.
  destruct (Hshape _ Hrm) as [D1 M1]. rewrite Ev, M1. destruct (_ || _) eqn:E; bools; [|rewrite Ev, D1, M1; lia].
  assert (Hmask : prefix_Addr (prefix_Masked (MkPrefix (AddrV6 v "") ones)) = AddrV6 (v / 2 ^ n * 2 ^ n) "").
  { unfold prefix_Masked, prefix_IsValid. cbn [prefix_Bits prefix_Addr]. destruct (0 <=? ones) eqn:E0; [|bools; lia].
    cbn [prefix_Addr]. unfold mask_low. fold n. rewrite Z.shiftl_mul_pow2, Z.shiftr_div_pow2 by lia. done. }
  rewrite Hmask. cbn [As16]. pose proof (Z.div_mod v (2 ^ n) ltac:(lia)) as Edv. pose proof (Z.mod_pos_bound v (2 ^ n) ltac:(lia)) as Hvm.
  rewrite fallback_value; [destruct (Hshape 1) as [-> ->]; lia| |].
  - split; [apply Z.mul_nonneg_nonneg; [apply Z.div_pos|]|]; lia.
  - replace n with (2 + (n - 2)) by lia. rewrite Z.pow_add_r by lia. change (2 ^ 2) with 4.
    rewrite (Z.mul_comm 4), Z.mul_assoc. apply Z.mod_mul. lia.
Qed.

(** The address a peer gets in an IPv6 range: one of the range, not the
    reserved first or last one, whatever the random bytes are. *)
Theorem allocate_v6_exact rnd prefix :
  prefix_wf prefix → Is6 (prefix_Addr prefix) = true → 8 <= prefix_Bits prefix <= 126 →
  0 < Z.shiftr (addr_val (prefix_Addr prefix)) 120 → bytes rnd → length rnd = 16%nat →
  ∃ ip, AllocateRandomPeerIPv6 rnd prefix = inr ip ∧ Is6 ip = true ∧ prefix_Contains prefix ip = true ∧
    0 < addr_val ip mod 2 ^ (128 - prefix_Bits prefix) < 2 ^ (128 - prefix_Bits prefix) - 1.
Proof.
  intros (Ha & Hz & _) H6 Hbits Htop Hb Hl. destruct prefix as [a ones]. destruct a as [|v|v z]; [done|done|].
  cbn [prefix_Addr prefix_Bits addr_val addr_zone addr_wf] in *. subst z. unfold in_width in Ha.
  destruct (random_host_value rnd v ones Ha ltac:(lia) Hb Hl) as [Hw1 Hw2]. set (n := 128 - ones) in *.
  unfold AllocateRandomPeerIPv6. cbn [prefix_Addr prefix_Bits Is6 negb].
  assert ((ones =? 0) || (126 <? ones) || false = false) as -> by (bools; lia).
  unfold AddrFrom16. set (w := be_value _) in *. clearbody w.
  assert (Unmap (AddrV6 w "") = AddrV6 w "") as ->.
  { unfold Unmap. destruct (Is4In6 (AddrV6 w "")) eqn:E4; [|done]. exfalso. apply Z.eqb_eq in E4.
    rewrite Z.shiftr_div_pow2 in E4, Htop by lia. rewrite <- (high_bits w v n 120) in Htop by (done || lia).
    replace 120 with (32 + 88) in Htop by lia. rewrite Z.pow_add_r, <- Z.div_div, E4 in Htop by lia. done. }
  exists (AddrV6 w ""). split_and!; [done|done| |apply Hw2..].
  unfold prefix_Contains, prefix_IsValid. cbn [prefix_Bits prefix_Addr addr_zone addr_val BitLen]. fold n.
  rewrite Z.shiftr_lxor, !Z.shiftr_div_pow2, Hw1, Z.lxor_nilpotent by lia. bools. split_and!; try done; lia.
Qed.

(** The range of a new account: a /64 of the locally assigned addresses, which
    [allocate_v6_exact] applies to. *)
Lemma AllocateIPv6Subnet_spec rnd :
  bytes rnd → length rnd = 7%nat →
  prefix_wf (AllocateIPv6Subnet rnd) ∧ Is6 (prefix_Addr (AllocateIPv6Subnet rnd)) = true ∧
  prefix_Bits (AllocateIPv6Subnet rnd) = IPv6SubnetSize ∧
  Z.shiftr (addr_val (prefix_Addr (AllocateIPv6Subnet rnd))) 120 = 0xfd.
Proof.
  intros Hb Hl. assert (Hby : bytes (0xfd :: rnd ++ replicate 8 0)).
  { constructor; [unfold byte; lia|]. apply Forall_app. split; [done|]. apply Forall_replicate. unfold byte. lia. }
  split_and!; [|done|done|].
  - apply PrefixFrom_wf, AddrFrom16_wf; [done|]. cbn [length]. rewrite length_app, length_replicate. lia.
  - unfold AllocateIPv6Subnet. cbn [prefix_Addr PrefixFrom withoutZone AddrFrom16 addr_val].
    rewrite be_value_cons, length_app, length_replicate, Hl. apply Forall_cons in Hby as [_ Hby].
    pose proof (be_value_range _ Hby) as Hr. rewrite length_app, length_replicate, Hl in Hr.
    rewrite Z.shiftr_div_pow2, Z.div_add_l, Z.div_small by (lia || exact Hr). lia.
Qed.

(** ** Assignment *)

(** A range without an address to give. *)
Definition no_hosts (prefix : Prefix) : Prop := prefix_Bits prefix = 0 ∨ 126 < prefix_Bits prefix ∨ Is6 (prefix_Addr prefix) = false.

(** If it has some, then no mapped IPv4 address is in the range. *)
Definition plain_range (prefix : Prefix) : Prop :=
  prefix_wf prefix ∧ (no_hosts prefix ∨ 8 <= prefix_Bits prefix ∧ 0 < Z.shiftr (addr_val (prefix_Addr prefix)) 120).

Definition random_bytes (rnd : list Z) : Prop := bytes rnd ∧ length rnd = 16%nat.

(** A host address of the range: not its first and not its last one. *)
Definition host_of (prefix : Prefix) (ip : Addr) : Prop :=
  Is6 ip = true ∧ prefix_Contains prefix ip = true ∧
  0 < addr_val ip mod 2 ^ (128 - prefix_Bits prefix) < 2 ^ (128 - prefix_Bits prefix) - 1.

Lemma AllocateRandomPeerIPv6_host rnd prefix : plain_range prefix → random_bytes rnd →
  match AllocateRandomPeerIPv6 rnd prefix with
  | inr ip => host_of prefix ip
  | inl err => err = ErrInvalidSubnet ∧ no_hosts prefix
  end.
Proof.
  intros [Hwf Hr] [Hb Hl]. unfold no_hosts in *.
  destruct (decide (prefix_Bits prefix = 0 ∨ 126 < prefix_Bits prefix ∨ Is6 (prefix_Addr prefix) = false)) as [Hn|Hn].
  - unfold AllocateRandomPeerIPv6. assert ((prefix_Bits prefix =? 0) || (126 <? prefix_Bits prefix) || negb (Is6 (prefix_Addr prefix)) = true) as ->
      by (bools; tauto). done.
  - destruct Hr as [Hr|[Hr Htop]]; [done|]. apply Decidable.not_or in Hn as [H0 [H126 H6]%Decidable.not_or].
    apply not_false_iff_true in H6. destruct (allocate_v6_exact rnd prefix Hwf H6 ltac:(lia) Htop Hb Hl) as (ip & -> & H). exact H.
Qed.

Section Assign.
Context (rnds : nat → nat → list Z) (netV6 v6Prefix : Prefix) (allowed : gset string).
Context (Hrange : plain_range v6Prefix) (Hrnd : ∀ i j, random_bytes (rnds i j)).

Notation keeps := (keeps_v6 netV6 allowed).

(** The [j]-th draw for a peer gives this address. *)
Definition drawn (i j : nat) (ip : Addr) : Prop := AllocateRandomPeerIPv6 (rnds i j) v6Prefix = inr ip.

Lemma retry_spec k taken n i :
  match retry (rnds k) v6Prefix taken n i with
  | inr (ip, taken') => ip ∉ taken ∧ taken' = {[ip]} ∪ taken ∧ host_of v6Prefix ip ∧ ∃ j, drawn k j ip
  | inl ErrExhausted => ∀ j, (i <= j < i + n)%nat → ∃ ip, drawn k j ip ∧ ip ∈ taken
  | inl ErrInvalidSubnet => no_hosts v6Prefix
  | inl ErrOutOfIPs => False
  end.
Proof.
  revert i. induction n as [|n IH]; intros i; cbn [retry]; [lia|].
  pose proof (AllocateRandomPeerIPv6_host (rnds k i) v6Prefix Hrange (Hrnd k i)) as HA.
  destruct (AllocateRandomPeerIPv6 (rnds k i) v6Prefix) as [err|ip] eqn:E.
  - destruct HA as [-> HA]. exact HA.
  - case_bool_decide as Hin; simpl; [|split_and!; [done|done|done|by exists i]].
    specialize (IH (S i)). destruct (retry _ _ _ _ _) as [[]|[]]; [done..| |done].
    intros j Hj. destruct (decide (j = i)) as [->|Hne]; [by exists ip|]. apply IH. lia.
Qed.

(** The address of a peer after the assignment. *)
Definition assigned (p p' : AccountPeer) : Prop :=
  ap_ID p' = ap_ID p ∧ ap_IP p' = ap_IP p ∧
  (keeps p = true → p' = p) ∧ (ap_ID p ∉ allowed → ap_IPv6 p' = AddrInvalid) ∧
  (ap_ID p ∈ allowed → keeps p = false → host_of v6Prefix (ap_IPv6 p')).

Definition v6_addrs (peers : list AccountPeer) : list Addr := filter (λ a, IsValid a = true) (ap_IPv6 <$> peers).

(** Why the assignment of a list of peers from the [i]-th on fails: one of them
    needs an address, and there is none in the range or each of the ten that
    were drawn is in use or was drawn for an earlier peer. *)
Definition fails_for (taken : gset Addr) (peers : list AccountPeer) (i : nat) (err : AllocError) : Prop :=
  ∃ m p, peers !! m = Some p ∧ ap_ID p ∈ allowed ∧ keeps p = false ∧
    match err with
    | ErrExhausted => ∀ j, (j < 10)%nat → ∃ ip, drawn (i + m) j ip ∧ (ip ∈ taken ∨ ∃ k j', (i <= k < i + m)%nat ∧ drawn k j' ip)
    | ErrInvalidSubnet => no_hosts v6Prefix
    | ErrOutOfIPs => False
    end.

Lemma fails_for_cons taken taken' peers p i err :
  (∀ ip, ip ∈ taken' → ip ∈ taken ∨ ∃ j, drawn i j ip) → fails_for taken' peers (S i) err → fails_for taken (p :: peers) i err.
Proof.
  intros Ht (m & q & Hq & Ha & Hk & H). exists (S m), q. split_and!; [done..|]. destruct err; [done..|].
  intros j Hj. destruct (H j Hj) as (ip & Hd & Hip). rewrite Nat.add_succ_r. exists ip. split; [done|].
  destruct Hip as [[?|[j' ?]]%Ht|(k & j' & Hk' & ?)]; [by left|right; exists i, j'; split; [lia|done]|right; exists k, j'; split; [lia|done]].
Qed.

(** Addresses that were not kept are new, and all are different. *)
Lemma assign_v6_spec taken peers i :
  NoDup (ap_IPv6 <$> filter (λ p, keeps p = true) peers) →
  (∀ p, p ∈ peers → keeps p = true → ap_IPv6 p ∈ taken) →
  match assign_v6 rnds netV6 v6Prefix allowed taken peers i with
  | inr peers' => Forall2 assigned peers peers' ∧ NoDup (v6_addrs peers') ∧
      ∀ a, a ∈ v6_addrs peers' → a ∉ taken ∨ a ∈ ap_IPv6 <$> filter (λ p, keeps p = true) peers
  | inl err => fails_for taken peers i err
  end.
Proof.
  revert taken i. induction peers as [|p peers IH]; intros taken i Hnd Htk; cbn [assign_v6].
  { split_and!; [constructor|apply NoDup_nil_2|]. intros a Ha. by apply elem_of_nil in Ha. }
  rewrite filter_cons in *.
  assert (Hrest : NoDup (ap_IPv6 <$> filter (λ p, keeps p = true) peers)).
  { destruct (decide (keeps p = true)); [|done]. by apply NoDup_cons in Hnd as [_ ?]. }
  case_bool_decide as Hal; cbn [negb].
  2:{ assert (Hk : keeps p = false) by (unfold keeps_v6; by rewrite bool_decide_false).
      specialize (IH taken (S i) Hrest ltac:(intros; apply Htk; [by right|done])).
      destruct (assign_v6 _ _ _ _ taken peers (S i)) as [err|rest]; [eapply fails_for_cons; [|exact IH]; auto|]. destruct IH as (I1 & I2 & I3).
      rewrite decide_False by (by rewrite Hk). split_and!; [constructor; [|done]|done|done].
      unfold assigned, with_IPv6. simpl. rewrite Hk. split_and!; done. }
  destruct (negb (IsValid (ap_IPv6 p)) || negb (IPNet_Contains netV6 (ap_IPv6 p))) eqn:Ev.
  - assert (Hk : keeps p = false).
    { unfold keeps_v6. rewrite bool_decide_true by done. bools. naive_solver. }
    rewrite decide_False in * by (by rewrite Hk).
    pose proof (retry_spec i taken 10 0) as Hr. unfold allocateIPv6WithRetry.
    destruct (retry (rnds i) v6Prefix taken 10 0) as [err|[ip taken']].
    { exists 0%nat, p. split_and!; [done..|]. rewrite Nat.add_0_r. destruct err; [done..|]. intros j Hj.
      destruct (Hr j ltac:(lia)) as (ip & ? & ?). exists ip. auto. }
    destruct Hr as (Hnew & -> & Hv & jd & Hd).
    specialize (IH ({[ip]} ∪ taken) (S i) Hrest).
    destruct (assign_v6 _ _ _ _ _ peers (S i)) as [err|rest].
    { eapply fails_for_cons; [|apply IH; set_solver]. intros ip'. rewrite elem_of_union, elem_of_singleton. naive_solver. }
    destruct IH as (I1 & I2 & I3); [intros q Hq Hkq; apply elem_of_union; right; apply Htk; [by right|done]|].
    assert (Hfresh : ip ∉ v6_addrs rest).
    { intros Ha. apply I3 in Ha as [Ha|Ha]; [set_solver|]. apply list_elem_of_fmap in Ha as (q & -> & [Hq Hin]%list_elem_of_filter).
      apply Hnew, Htk; [by right|done]. }
    assert (Hcons : v6_addrs (with_IPv6 p ip :: rest) = ip :: v6_addrs rest).
    { unfold v6_addrs. cbn [fmap list_fmap]. rewrite filter_cons. rewrite decide_True; [done|]. destruct Hv as (H6 & _). by destruct ip. }
    rewrite Hcons. split_and!; [constructor; [|done]|by constructor|].
    + unfold assigned, with_IPv6. simpl. rewrite Hk. split_and!; done.
    + intros a [->|Ha]%elem_of_cons; [by left|]. apply I3 in Ha. set_solver.
  - assert (Hk : keeps p = true).
    { unfold keeps_v6. rewrite bool_decide_true by done. bools. by destruct Ev as [-> ->]. }
    rewrite decide_True in * by done. cbn [fmap list_fmap] in *. apply NoDup_cons in Hnd as [Hp _].
    specialize (IH taken (S i) Hrest ltac:(intros; apply Htk; [by right|done])).
    destruct (assign_v6 _ _ _ _ taken peers (S i)) as [err|rest]; [eapply fails_for_cons; [|exact IH]; auto|]. destruct IH as (I1 & I2 & I3).
    assert (Hv : IsValid (ap_IPv6 p) = true) by (unfold keeps_v6 in Hk; bools; tauto).
    assert (Hcons : v6_addrs (p :: rest) = ap_IPv6 p :: v6_addrs rest).
    { unfold v6_addrs. cbn [fmap list_fmap]. rewrite filter_cons. by rewrite decide_True. }
    rewrite Hcons. split_and!; [constructor; [unfold assigned; by rewrite Hk|done]| |].
    + constructor; [|done]. intros Ha. apply I3 in Ha as [Ha|Ha]; [|done]. apply Ha, Htk; [by left|done].
    + intros a [->|Ha]%elem_of_cons; [right; by left|]. apply I3 in Ha as [?|?]; [by left|right; by right].
Qed.
End Assign.

(** C22. The IPv6 assignment of an account: a peer that may have an address keeps
    a valid one of the range, or else gets one of the range that is not reserved;
    the others lose theirs, and no two peers share an address.  It fails only
    when a peer needs an address and the range has none, or each of the ten drawn
    for it is kept by a peer or was drawn for an earlier one. *)
Theorem assign_v6_distinct rnds netV6 v6Prefix allowed peers :
  plain_range v6Prefix → (∀ i j, random_bytes (rnds i j)) →
  NoDup (ap_IPv6 <$> filter (λ p, keeps_v6 netV6 allowed p = true) peers) →
  match assignPeerIPv6Addresses rnds netV6 v6Prefix allowed peers with
  | inr peers' => Forall2 (assigned netV6 v6Prefix allowed) peers peers' ∧ NoDup (v6_addrs peers')
  | inl err => fails_for rnds netV6 v6Prefix allowed (takenV6 netV6 allowed peers) peers 0 err
  end.
Proof.
  intros Hp Hr Hnd. unfold assignPeerIPv6Addresses.
  pose proof (assign_v6_spec rnds netV6 v6Prefix allowed Hp Hr (takenV6 netV6 allowed peers) peers 0 Hnd) as H.
  destruct (assign_v6 _ _ _ _ _ _ _) as [err|peers']; [apply H|destruct H as (H1 & H2 & _); [|done]];
    intros p Hin Hk; apply elem_of_list_to_set, list_elem_of_fmap_2, list_elem_of_filter; done.
Qed.

(** ** Concrete ranges and accounts for the address theorems *)

(** 10.0.0.0/29 and a peer at its first host address. *)
Definition small_range : Prefix := MkPrefix (AddrV4 167772160) 29.
Definition first_host : Addr := AddrV4 167772161.
Definition zero_rnd : nat → Z → Z := λ _ _, 0.

Lemma small_range_wf : prefix_wf small_range.
Proof. repeat split; unfold in_width; simpl; lia. Qed.

Lemma zero_draws : draws zero_rnd.
Proof. intros i n Hn. unfold zero_rnd. lia. Qed.

Lemma allocate_peer_ip_exact_witness :
  prefix_wf small_range ∧ draws zero_rnd ∧
  AllocatePeerIP zero_rnd small_range [first_host] = inr (AddrV4 167772162) ∧
  assignable small_range (AddrV4 167772162) ∧ AddrV4 167772162 ∉ [first_host].
Proof.
  pose proof (allocate_peer_ip_exact zero_rnd small_range [first_host] small_range_wf zero_draws) as H.
  split; [exact small_range_wf|split; [exact zero_draws|]].
  assert (E : AllocatePeerIP zero_rnd small_range [first_host] = inr (AddrV4 167772162)) by (vm_compute; reflexivity).
  rewrite E in H. destruct H as (_ & H1 & H2). split; [exact E|split; [exact H1|exact H2]].
Defined.

Definition mk_ap (id : string) (ip6 : Addr) : AccountPeer := {| ap_ID := id; ap_IP := first_host; ap_IPv6 := ip6 |}.

Lemma reallocate_exact_witness :
  validateIPv4Prefix small_range = true ∧
  ∃ peers', reallocateAccountPeerIPs (λ _, zero_rnd) small_range [mk_ap "a" AddrInvalid; mk_ap "b" AddrInvalid] = inr peers' ∧
    NoDup (ap_IP <$> peers') ∧ Forall (λ p, assignable small_range (ap_IP p)) peers' ∧ ap_ID <$> peers' = ["a"; "b"].
Proof.
  split; [reflexivity|].
  pose proof (reallocate_exact (λ _, zero_rnd) small_range [mk_ap "a" AddrInvalid; mk_ap "b" AddrInvalid]
    small_range_wf eq_refl (λ _, zero_draws)) as H. cbv zeta in H.
  destruct (reallocateAccountPeerIPs _ _ _) as [err|peers'].
  - destruct H as [_ H]. exfalso. vm_compute in H. discriminate H.
  - destruct H as (_ & H1 & H2 & H3 & _). exists peers'. split; [reflexivity|split; [exact H1|split; [exact H2|exact H3]]].
Defined.

(** fd00:1:2:3::/64. *)
Definition ula : Prefix := MkPrefix (AddrV6 0xfd000001000200030000000000000000 "") 64.

Lemma ula_wf : prefix_wf ula.
Proof. repeat split; unfold in_width; simpl; lia. Qed.

Lemma allocate_v6_exact_witness :
  prefix_wf ula ∧ ∃ ip, AllocateRandomPeerIPv6 (replicate 16 255) ula = inr ip ∧ Is6 ip = true ∧
    prefix_Contains ula ip = true ∧ 0 < addr_val ip mod 2 ^ 64 < 2 ^ 64 - 1.
Proof.
  split; [exact ula_wf|].
  exact (allocate_v6_exact (replicate 16 255) ula ula_wf eq_refl ltac:(split; discriminate) ltac:(by vm_compute)
    ltac:(by apply (bool_decide_unpack _)) eq_refl).
Defined.

(** The reserved last address is replaced by the first host. *)
Example v6_fallback :
  AllocateRandomPeerIPv6 (replicate 16 255) ula = inr (AddrV6 0xfd000001000200030000000000000001 "").
Proof. vm_compute. reflexivity. Qed.

Definition counting (i j : nat) : list Z := replicate 16 (Z.of_nat (i + j) mod 256).

Lemma counting_bytes i j : random_bytes (counting i j).
Proof.
  split; [|apply length_replicate]. apply Forall_replicate. unfold byte. pose proof (Z.mod_pos_bound (Z.of_nat (i + j)) 256). lia.
Qed.

Lemma ula_plain : plain_range ula.
Proof. split; [exact ula_wf|right]. by split; vm_compute. Qed.

Lemma assign_v6_distinct_witness :
  let peers := [mk_ap "a" (AddrV6 0xfd000001000200030000000000000001 ""); mk_ap "b" AddrInvalid; mk_ap "c" first_host] in
  ∃ peers', assignPeerIPv6Addresses counting ula ula {["a"; "b"]} peers = inr peers' ∧
    Forall2 (assigned ula ula {["a"; "b"]}) peers peers' ∧ NoDup (v6_addrs peers').
Proof.
  intros peers.
  pose proof (assign_v6_distinct counting ula ula {["a"; "b"]} peers ula_plain counting_bytes) as H.
  assert (E : ∃ peers', assignPeerIPv6Addresses counting ula ula {["a"; "b"]} peers = inr peers') by (eexists; vm_compute; reflexivity).
  destruct E as [peers' E]. exists peers'. split; [exact E|]. rewrite E in H. apply H. by apply (bool_decide_unpack _).
Defined.
