(* ===== verification/RouteSelector.v ===== *)
(** * Route selection of the client

    [client/internal/routeselector] and the selection logic of the route
    manager ([routemanager/selection.go], the exit-node part of
    [routemanager/manager.go]): which of the routes of the network map the
    client uses, under the choices of the user and the wishes of management.

    The two maps of the selector are never nil: both its constructors make
    them.  The orders of map iterations are arguments. *)
From S2P Require Import Prelude NetIP Bytes GoStrings NetParse Order NmData.
Open Scope Z_scope.

(** ** Identifiers and routes *)

(** The text before the last separator. *)
Fixpoint cut_last (sep : ascii) (s : string) : option string :=
  match s with
  | EmptyString => None
  | String c s' =>
      match cut_last sep s' with
      | Some p => Some (String c p)
      | None => if Ascii.eqb c sep then Some "" else None
      end
  end.

(** [HAUniqueID.NetID]. *)
Definition NetID (id : string) : string := default id (cut_last "|"%char id).

Definition V6ExitSuffix : string := "-v6".

Definition IsV4DefaultRoute (p : Prefix) : bool := bool_decide (p = PrefixFrom (AddrV4 0) 0).
Definition IsV6DefaultRoute (p : Prefix) : bool := bool_decide (p = PrefixFrom (AddrV6 0 "") 0).

Notation HAMap := (gmap string (list Route)).
Notation NetMap := (gmap string (list Route)).

Definition first_network (test : Prefix → bool) (rt : list Route) : bool :=
  match rt with r :: _ => test (rt_Network r) | [] => false end.

Definition isExitNode (rt : list Route) : bool :=
  first_network IsV4DefaultRoute rt || first_network IsV6DefaultRoute rt.

(** The IPv6 exit nodes that belong to an IPv4 one. *)
Definition V6ExitMergeSet (routesMap : NetMap) : gset string :=
  dom (filter (λ kv : string * list Route,
    first_network IsV6DefaultRoute kv.2 && HasSuffix kv.1 V6ExitSuffix &&
    match routesMap !! TrimSuffix kv.1 V6ExitSuffix with
    | Some baseRt => first_network IsV4DefaultRoute baseRt
    | None => false
    end = true) routesMap).

Definition ExpandV6ExitPairs (ids : list string) (routesMap : NetMap) : list string :=
  foldl (λ acc id,
    match routesMap !! id with
    | Some rt =>
        let v6ID := id +:+ V6ExitSuffix in
        if first_network IsV4DefaultRoute rt &&
           match routesMap !! v6ID with Some v6Rt => first_network IsV6DefaultRoute v6Rt | None => false end &&
           negb (bool_decide (v6ID ∈ acc))
        then acc ++ [v6ID] else acc
    | None => acc
    end) ids ids.

(** ** The selector *)

Record RouteSelector := {
  deselectedRoutes : gset string;
  selectedRoutes : gset string;
  deselectAll : bool;
}.

Definition NewRouteSelector : RouteSelector :=
  {| deselectedRoutes := ∅; selectedRoutes := ∅; deselectAll := false |}.

(** The requested routes that exist, and the others, which are reported. *)
Definition available (routes allRoutes : list string) : list string := filter (λ r, r ∈ allRoutes) routes.
Definition unavailable (routes allRoutes : list string) : list string := filter (λ r, r ∉ allRoutes) routes.

Definition select_each (l : list string) (rs : RouteSelector) : RouteSelector :=
  foldl (λ rs r, {| deselectedRoutes := deselectedRoutes rs ∖ {[r]}; selectedRoutes := {[r]} ∪ selectedRoutes rs;
                    deselectAll := deselectAll rs |}) rs l.

Definition deselect_each (l : list string) (rs : RouteSelector) : RouteSelector :=
  foldl (λ rs r, {| deselectedRoutes := {[r]} ∪ deselectedRoutes rs; selectedRoutes := selectedRoutes rs ∖ {[r]};
                    deselectAll := deselectAll rs |}) rs l.

Definition SelectRoutes (routes : list string) (appendRoute : bool) (allRoutes : list string) (rs : RouteSelector)
    : RouteSelector * list string :=
  let avail := available routes allRoutes in
  let err := unavailable routes allRoutes in
  if (length avail =? 0)%nat && negb (length err =? 0)%nat then (rs, err)
  else
    let rs := if negb appendRoute || deselectAll rs
              then {| deselectedRoutes := list_to_set allRoutes; selectedRoutes := ∅; deselectAll := deselectAll rs |}
              else rs in
    let rs := select_each avail rs in
    ({| deselectedRoutes := deselectedRoutes rs; selectedRoutes := selectedRoutes rs; deselectAll := false |}, err).

Definition SelectAllRoutes (rs : RouteSelector) : RouteSelector :=
  {| deselectedRoutes := ∅; selectedRoutes := ∅; deselectAll := false |}.

Definition DeselectRoutes (routes allRoutes : list string) (rs : RouteSelector) : RouteSelector * list string :=
  if deselectAll rs then (rs, [])
  else (deselect_each (available routes allRoutes) rs, unavailable routes allRoutes).

Definition DeselectAllRoutes (rs : RouteSelector) : RouteSelector :=
  {| deselectedRoutes := ∅; selectedRoutes := ∅; deselectAll := true |}.

Definition SetExclusiveExitNode (preferred : string) (exitIDs : list string) (rs : RouteSelector) : RouteSelector :=
  if deselectAll rs then rs
  else
    let rs := deselect_each (filter (λ id, id ≠ preferred) exitIDs) rs in
    if negb (String.eqb preferred "") then select_each [preferred] rs else rs.

Definition isSelectedLocked (routeID : string) (rs : RouteSelector) : bool :=
  if deselectAll rs then false else negb (bool_decide (routeID ∈ deselectedRoutes rs)).
Definition IsSelected := isSelectedLocked.

Definition isDeselectedLocked (netID : string) (rs : RouteSelector) : bool :=
  if deselectAll rs then true else bool_decide (netID ∈ deselectedRoutes rs).

Definition hasUserSelectionForRouteLocked (routeID : string) (rs : RouteSelector) : bool :=
  bool_decide (routeID ∈ selectedRoutes rs) || bool_decide (routeID ∈ deselectedRoutes rs).
Definition HasUserSelectionForRoute := hasUserSelectionForRouteLocked.

Definition SyncPairedSelection (baseID pairedID : string) (rs : RouteSelector) : RouteSelector :=
  if deselectAll rs then rs
  else
    let baseSelected := bool_decide (baseID ∈ selectedRoutes rs) in
    let baseDeselected := bool_decide (baseID ∈ deselectedRoutes rs) in
    let selected := selectedRoutes rs ∖ {[pairedID]} in
    let deselected := deselectedRoutes rs ∖ {[pairedID]} in
    {| selectedRoutes := if baseSelected then {[pairedID]} ∪ selected else selected;
       deselectedRoutes := if negb baseSelected && baseDeselected then {[pairedID]} ∪ deselected else deselected;
       deselectAll := deselectAll rs |}.

Definition FilterSelected (routes : HAMap) (rs : RouteSelector) : HAMap :=
  if deselectAll rs then ∅ else filter (λ kv, isDeselectedLocked (NetID kv.1) rs = false) routes.

Definition collectSelected (rt : list Route) : list Route := filter (λ r, rt_SkipAutoApply r = false) rt.

(** What becomes of one entry. *)
Definition exit_filter (rs : RouteSelector) (id : string) (rt : list Route) : option (list Route) :=
  let netID := NetID id in
  if isDeselectedLocked netID rs then None
  else if negb (isExitNode rt) then Some rt
  else if hasUserSelectionForRouteLocked netID rs then
    if isSelectedLocked netID rs then Some rt else None
  else
    let sel := collectSelected rt in
    if (0 <? length sel)%nat then Some sel else None.

Definition FilterSelectedExitNodes (routes : HAMap) (rs : RouteSelector) : HAMap :=
  if deselectAll rs then ∅ else map_imap (exit_filter rs) routes.

(** [MarshalJSON] and [UnmarshalJSON] on the object between them; a missing or
    null map is [None].  [None] as a whole is empty or null input. *)
Record SelectorJSON := {
  js_selected_routes : option (gset string);
  js_deselected_routes : option (gset string);
  js_deselect_all : bool;
}.

Definition MarshalJSON (rs : RouteSelector) : option SelectorJSON :=
  Some {| js_selected_routes := Some (selectedRoutes rs); js_deselected_routes := Some (deselectedRoutes rs);
          js_deselect_all := deselectAll rs |}.

Definition UnmarshalJSON (data : option SelectorJSON) : RouteSelector :=
  match data with
  | None => NewRouteSelector
  | Some temp =>
      {| deselectedRoutes := default ∅ (js_deselected_routes temp);
         selectedRoutes := default ∅ (js_selected_routes temp); deselectAll := js_deselect_all temp |}
  end.

(** ** The route manager *)

Section Manager.
Context {MO : MapOrder}.

(** The routes by NetID: of entries that share one, the last in the iteration. *)
Definition routes_by_net_id (seed : nat) (clientRoutes : HAMap) : NetMap :=
  foldl (λ m kv, <[NetID kv.1 := kv.2]> m) ∅ (range_list seed clientRoutes).

Definition mirrorV6ExitPairSelections (seed1 seed2 : nat) (clientRoutes : HAMap) (rs : RouteSelector) : RouteSelector :=
  foldl (λ rs v6ID, SyncPairedSelection (TrimSuffix v6ID V6ExitSuffix) v6ID rs) rs
    (range_set seed2 (V6ExitMergeSet (routes_by_net_id seed1 clientRoutes))).

Record exitNodeInfo := {
  allIDs : list string;
  selectedByManagement : list string;
  userSelected : list string;
  userDeselected : list string;
}.

Definition collect_step (rs : RouteSelector) (info : exitNodeInfo) (kv : string * list Route) : exitNodeInfo :=
  let netID := NetID kv.1 in
  if negb (isExitNode kv.2) || HasSuffix netID V6ExitSuffix then info
  else
    let all := allIDs info ++ [netID] in
    if HasUserSelectionForRoute netID rs then
      if IsSelected netID rs
      then {| allIDs := all; selectedByManagement := selectedByManagement info;
              userSelected := userSelected info ++ [netID]; userDeselected := userDeselected info |}
      else {| allIDs := all; selectedByManagement := selectedByManagement info;
              userSelected := userSelected info; userDeselected := userDeselected info ++ [netID] |}
    else
      {| allIDs := all;
         selectedByManagement := selectedByManagement info ++
           (if existsb (λ r, negb (rt_SkipAutoApply r)) kv.2 then [netID] else []);
         userSelected := userSelected info; userDeselected := userDeselected info |}.

Definition noInfo : exitNodeInfo :=
  {| allIDs := []; selectedByManagement := []; userSelected := []; userDeselected := [] |}.

Definition collectExitNodeInfo (seed : nat) (clientRoutes : HAMap) (rs : RouteSelector) : exitNodeInfo :=
  foldl (collect_step rs) noInfo (range_list seed clientRoutes).

Definition minNetID (ids : list string) : string :=
  match ids with
  | [] => ""
  | best :: ids' => foldl (λ best id, match strings_Compare id best with Lt => id | _ => best end) best ids'
  end.

Definition pickPreferredExitNode (info : exitNodeInfo) : string :=
  if (0 <? length (userSelected info))%nat then minNetID (userSelected info)
  else if (0 <? length (selectedByManagement info))%nat then minNetID (selectedByManagement info)
  else "".

Definition updateRouteSelectorFromManagement (seeds : nat * nat * nat) (clientRoutes : HAMap) (rs : RouteSelector)
    : RouteSelector :=
  let '(seed1, seed2, seed3) := seeds in
  let rs := mirrorV6ExitPairSelections seed1 seed2 clientRoutes rs in
  if deselectAll rs then rs
  else
    let info := collectExitNodeInfo seed3 clientRoutes rs in
    if (length (allIDs info) =? 0)%nat then rs
    else SetExclusiveExitNode (pickPreferredExitNode info) (allIDs info) rs.

(** ** Requests of the user *)

Definition requestActivatesExitNode (requested : list string) (routesMap : NetMap) : bool :=
  existsb (λ id, match routesMap !! id with Some rt => isExitNode rt | None => false end) requested.

Definition otherExitNodeIDs (seed : nat) (routesMap : NetMap) (requested : list string) : list string :=
  (filter (λ kv, isExitNode kv.2 = true ∧ kv.1 ∉ requested) (range_list seed routesMap)).*1.

(** The selector and the identifiers that were not available. *)
Definition selectRoutes (seed1 seed2 seed3 : nat) (clientRoutes : HAMap) (ids : list string) (appendRoute : bool)
    (rs : RouteSelector) : RouteSelector * list string :=
  let routesMap := routes_by_net_id seed1 clientRoutes in
  let routes := ExpandV6ExitPairs ids routesMap in
  let all := (range_list seed2 routesMap).*1 in
  let '(rs, merr) := SelectRoutes routes appendRoute all rs in
  if requestActivatesExitNode routes routesMap then
    let others := otherExitNodeIDs seed3 routesMap routes in
    if (0 <? length others)%nat then
      let '(rs, err) := DeselectRoutes others all rs in (rs, merr ++ err)
    else (rs, merr)
  else (rs, merr).

Definition deselectRoutes (seed1 seed2 : nat) (clientRoutes : HAMap) (ids : list string) (rs : RouteSelector)
    : RouteSelector * list string :=
  let routesMap := routes_by_net_id seed1 clientRoutes in
  DeselectRoutes (ExpandV6ExitPairs ids routesMap) (range_list seed2 routesMap).*1 rs.

Definition selectAllRoutes (seeds : nat * nat * nat) (clientRoutes : HAMap) (rs : RouteSelector) : RouteSelector :=
  updateRouteSelectorFromManagement seeds clientRoutes (SelectAllRoutes rs).
End Manager.
