(* ===== verification/RouteSelectorFacts.v ===== *)
(** * Facts on route selection

    At most one exit node, what an update leaves alone, when IPv6 pairs follow
    their IPv4 node, and where the code falls short of its comments. *)
From S2P Require Import Prelude GoStrings NetIP Bytes Order NetParse NmData RouteSelector.
Open Scope Z_scope.

(** ** Sets *)

Lemma select_each_eq l rs :
  select_each l rs = {| deselectedRoutes := deselectedRoutes rs ∖ list_to_set l;
                        selectedRoutes := list_to_set l ∪ selectedRoutes rs; deselectAll := deselectAll rs |}.
Proof.
  unfold select_each. revert rs. induction l as [|r l IH]; intros [d s a]; simpl; [f_equal; set_solver|].
  rewrite IH. simpl. f_equal; set_solver.
Qed.

Lemma deselect_each_eq l rs :
  deselect_each l rs = {| deselectedRoutes := list_to_set l ∪ deselectedRoutes rs;
                          selectedRoutes := selectedRoutes rs ∖ list_to_set l; deselectAll := deselectAll rs |}.
Proof.
  unfold deselect_each. revert rs. induction l as [|r l IH]; intros [d s a]; simpl; [f_equal; set_solver|].
  rewrite IH. simpl. f_equal; set_solver.
Qed.

(** A route is not selected and deselected at once. *)
Definition consistent (rs : RouteSelector) : Prop := selectedRoutes rs ## deselectedRoutes rs.

Lemma SyncPaired_consistent base paired rs : consistent rs → consistent (SyncPairedSelection base paired rs).
Proof.
  unfold consistent, SyncPairedSelection. destruct (deselectAll rs); [done|]. simpl.
  destruct (bool_decide _), (bool_decide _); simpl; set_solver.
Qed.

Lemma SetExclusive_consistent p ids rs : consistent rs → consistent (SetExclusiveExitNode p ids rs).
Proof.
  unfold consistent, SetExclusiveExitNode. destruct (deselectAll rs); [done|].
  destruct (negb _); rewrite ?select_each_eq, deselect_each_eq; cbn [selectedRoutes deselectedRoutes]; set_solver.
Qed.

Lemma SelectRoutes_consistent routes b all rs : consistent rs → consistent (SelectRoutes routes b all rs).1.
Proof.
  unfold consistent, SelectRoutes. destruct (_ && _); [done|]. rewrite select_each_eq. destruct (_ || _); simpl; set_solver.
Qed.

Lemma DeselectRoutes_consistent routes all rs : consistent rs → consistent (DeselectRoutes routes all rs).1.
Proof.
  unfold consistent, DeselectRoutes. destruct (deselectAll rs); [done|]. rewrite deselect_each_eq. simpl. set_solver.
Qed.

(** ** The mirror of the IPv6 pairs *)

(** The pair has the explicit state of its base. *)
Definition follows (rs : RouteSelector) (base paired : string) : Prop :=
  (paired ∈ selectedRoutes rs ↔ base ∈ selectedRoutes rs) ∧
  (paired ∈ deselectedRoutes rs ↔ base ∈ deselectedRoutes rs).

(** The same explicit state. *)
Definition same_at (rs rs' : RouteSelector) (n : string) : Prop :=
  (n ∈ selectedRoutes rs' ↔ n ∈ selectedRoutes rs) ∧ (n ∈ deselectedRoutes rs' ↔ n ∈ deselectedRoutes rs).

Lemma same_at_trans rs1 rs2 rs3 n : same_at rs1 rs2 n → same_at rs2 rs3 n → same_at rs1 rs3 n.
Proof. intros [H1 H2] [H3 H4]. split; [by rewrite H3|by rewrite H4]. Qed.

Lemma SyncPaired_other base paired rs n : n ≠ paired → same_at rs (SyncPairedSelection base paired rs) n.
Proof.
  unfold same_at, SyncPairedSelection. intros Hn. destruct (deselectAll rs); [done|]. simpl.
  destruct (bool_decide _), (bool_decide _); simpl; set_solver.
Qed.

Lemma SyncPaired_follows base paired rs :
  consistent rs → deselectAll rs = false → base ≠ paired → follows (SyncPairedSelection base paired rs) base paired.
Proof.
  unfold consistent, follows, SyncPairedSelection. intros Hc -> Hn. simpl.
  destruct (bool_decide _) eqn:E1, (bool_decide (base ∈ deselectedRoutes rs)) eqn:E2; simpl; bools; set_solver.
Qed.

Lemma SyncPaired_all base paired rs : deselectAll (SyncPairedSelection base paired rs) = deselectAll rs.
Proof. unfold SyncPairedSelection. by destruct (deselectAll rs) eqn:E. Qed.

Lemma V6ExitMergeSet_spec m v6 :
  v6 ∈ V6ExitMergeSet m →
  HasSuffix v6 V6ExitSuffix = true ∧ (∃ rt, m !! v6 = Some rt ∧ first_network IsV6DefaultRoute rt = true) ∧
  ∃ rt, m !! TrimSuffix v6 V6ExitSuffix = Some rt ∧ first_network IsV4DefaultRoute rt = true.
Proof.
  unfold V6ExitMergeSet. intros (rt & [E H]%map_lookup_filter_Some)%elem_of_dom. simpl in H. rewrite !andb_true_iff in H.
  destruct H as [[H6 Hs] Hb]. destruct (m !! TrimSuffix v6 V6ExitSuffix) as [b|]; [|done].
  split_and!; [done|by exists rt|by exists b].
Qed.

Lemma default_families rt : first_network IsV4DefaultRoute rt = true → first_network IsV6DefaultRoute rt = true → False.
Proof. destruct rt as [|r rt]; [done|]. simpl. intros H4%bool_decide_eq_true H6%bool_decide_eq_true. by rewrite H4 in H6. Qed.

(** A base is not a pair itself. *)
Lemma base_not_paired m v6 : v6 ∈ V6ExitMergeSet m → TrimSuffix v6 V6ExitSuffix ∉ V6ExitMergeSet m.
Proof.
  intros (_ & _ & rt & E & H4)%V6ExitMergeSet_spec (_ & (rt' & E' & H6) & _)%V6ExitMergeSet_spec. simplify_eq.
  by eapply default_families.
Qed.

(** The loop over pairs whose bases are not pairs. *)
Lemma mirror_spec (l : list string) rs :
  consistent rs → deselectAll rs = false → (∀ v6, v6 ∈ l → TrimSuffix v6 V6ExitSuffix ∉ l) →
  let rs' := foldl (λ rs v6, SyncPairedSelection (TrimSuffix v6 V6ExitSuffix) v6 rs) rs l in
  consistent rs' ∧ deselectAll rs' = false ∧ (∀ n, n ∉ l → same_at rs rs' n) ∧
  ∀ v6, v6 ∈ l → follows rs' (TrimSuffix v6 V6ExitSuffix) v6.
Proof.
  intros Hc Ha Hb. induction l as [|v6 l IH] using rev_ind; simpl.
  { split_and!; [done|done|by unfold same_at|]. intros v6 Hv. by apply elem_of_nil in Hv. }
  rewrite foldl_snoc. set (rs1 := foldl _ rs l) in *.
  destruct IH as (I1 & I2 & I3 & I4).
  { intros x Hx Hin. apply (Hb x); [apply elem_of_app; by left|apply elem_of_app; by left]. }
  assert (Hv : TrimSuffix v6 V6ExitSuffix ≠ v6).
  { intros E. apply (Hb v6); [apply elem_of_app; right; by left|]. rewrite E. apply elem_of_app. right. by left. }
  split_and!.
  - by apply SyncPaired_consistent.
  - by rewrite SyncPaired_all.
  - intros n Hn. rewrite elem_of_app, list_elem_of_singleton in Hn.
    destruct (I3 n) as [A1 A2]; [tauto|]. destruct (SyncPaired_other (TrimSuffix v6 V6ExitSuffix) v6 rs1 n) as [B1 B2]; [tauto|].
    split; [by rewrite B1|by rewrite B2].
  - intros x Hx. destruct (decide (x = v6)) as [->|Hne]; [by apply SyncPaired_follows|].
    rewrite elem_of_app, list_elem_of_singleton in Hx. destruct Hx as [Hx|?]; [|done].
    assert (TrimSuffix x V6ExitSuffix ≠ v6).
    { intros E. apply (Hb x); [apply elem_of_app; by left|]. rewrite E. apply elem_of_app. right. by left. }
    destruct (SyncPaired_other (TrimSuffix v6 V6ExitSuffix) v6 rs1 x) as [B1 B2]; [done|].
    destruct (SyncPaired_other (TrimSuffix v6 V6ExitSuffix) v6 rs1 (TrimSuffix x V6ExitSuffix)) as [C1 C2]; [done|].
    destruct (I4 x Hx) as [D1 D2]. split; [by rewrite B1, C1|by rewrite B2, C2].
Qed.

Lemma mirror_frame (l : list string) rs :
  let rs' := foldl (λ rs v6, SyncPairedSelection (TrimSuffix v6 V6ExitSuffix) v6 rs) rs l in
  deselectAll rs' = deselectAll rs ∧ ∀ n, n ∉ l → same_at rs rs' n.
Proof.
  cbn zeta. induction l as [|v6 l IH] using rev_ind; [done|].
  rewrite foldl_snoc, SyncPaired_all. destruct IH as [I1 I2]. split; [done|].
  intros n Hn. rewrite elem_of_app, list_elem_of_singleton in Hn.
  eapply same_at_trans; [apply I2; tauto|apply SyncPaired_other; tauto].
Qed.

Section Update.
Context {MO : MapOrder}.

Lemma mirror_off seed1 seed2 routes rs :
  deselectAll rs = true → mirrorV6ExitPairSelections seed1 seed2 routes rs = rs.
Proof.
  intros Ha. unfold mirrorV6ExitPairSelections. induction (range_set _ _) as [|x l IH]; simpl; [done|].
  unfold SyncPairedSelection at 2. by rewrite Ha.
Qed.

(** ** The exit nodes *)

(** The entry is one of the exit nodes that the update chooses among, by NetID. *)
Definition exit_entry (kv : string * list Route) (n : string) : Prop :=
  isExitNode kv.2 = true ∧ NetID kv.1 = n ∧ HasSuffix n V6ExitSuffix = false.

Lemma collect_spec rs (l : list (string * list Route)) :
  let info := foldl (collect_step rs) noInfo l in
  (∀ n, n ∈ allIDs info ↔ ∃ kv, kv ∈ l ∧ exit_entry kv n) ∧
  (∀ n, n ∈ userSelected info ↔ n ∈ allIDs info ∧ HasUserSelectionForRoute n rs = true ∧ IsSelected n rs = true) ∧
  (∀ n, n ∈ selectedByManagement info ↔ HasUserSelectionForRoute n rs = false ∧
     ∃ kv, kv ∈ l ∧ exit_entry kv n ∧ existsb (λ r, negb (rt_SkipAutoApply r)) kv.2 = true).
Proof.
  induction l as [|[id rt] l IH] using rev_ind; cbn zeta.
  { simpl. split_and!; intros n; rewrite ?elem_of_nil; split; try done; [|tauto|].
    - intros (? & H & _). by apply elem_of_nil in H.
    - intros (_ & ? & H & _). by apply elem_of_nil in H. }
  rewrite foldl_snoc. set (info := foldl (collect_step rs) noInfo l) in *. clearbody info. cbn zeta in IH.
  destruct IH as (I1 & I2 & I3).
  assert (Hsplit : ∀ P : string * list Route → Prop, (∃ kv, kv ∈ l ++ [(id, rt)] ∧ P kv) ↔ (∃ kv, kv ∈ l ∧ P kv) ∨ P (id, rt)).
  { intros P. split.
    - intros (kv & [H| ->%list_elem_of_singleton]%elem_of_app & Hx); [left; by exists kv|by right].
    - intros [(kv & H & Hx)|Hx]; [exists kv|exists (id, rt)]; (split; [apply elem_of_app|done]); [by left|right; by left]. }
  assert (Hid : ∀ n, exit_entry (id, rt) n ↔ n = NetID id ∧ isExitNode rt = true ∧ HasSuffix (NetID id) V6ExitSuffix = false).
  { intros n. unfold exit_entry. cbn [fst snd]. split; [intros (? & <- & ?)|intros (-> & ? & ?)]; done. }
  unfold collect_step. cbn [fst snd]. destruct (negb (isExitNode rt) || HasSuffix (NetID id) V6ExitSuffix) eqn:E.
  { assert (Hno : ∀ n, ¬ exit_entry (id, rt) n).
    { intros n (-> & He & Hs)%Hid. by rewrite He, Hs in E. }
    split_and!; intros n; [by rewrite Hsplit, <- I1; specialize (Hno n); tauto|done|].
    rewrite Hsplit, I3. specialize (Hno n). tauto. }
  apply orb_false_iff in E as [He Hs]. apply negb_false_iff in He.
  assert (Hid' : ∀ n, exit_entry (id, rt) n ↔ n = NetID id) by (intros n; rewrite Hid; tauto). clear Hid.
  destruct (HasUserSelectionForRoute (NetID id) rs) eqn:Eu; [destruct (IsSelected (NetID id) rs) eqn:Es|].
  all: cbn [allIDs userSelected selectedByManagement]; split_and!; intros n;
    rewrite ?elem_of_app, ?list_elem_of_singleton, ?Hsplit, ?I2, ?I3, ?Hid', <- ?I1; [done| |].
  - destruct (decide (n = NetID id)) as [->|]; tauto.
  - destruct (decide (n = NetID id)) as [->|]; [|tauto]. rewrite Eu. split; intros [? _]; done.
  - destruct (decide (n = NetID id)) as [->|]; [|tauto]. rewrite Es. split; intros (_ & _ & ?); done.
  - destruct (decide (n = NetID id)) as [->|]; [|tauto]. rewrite Eu. split; intros [? _]; done.
  - destruct (decide (n = NetID id)) as [->|]; [|tauto]. rewrite Eu. split; intros (_ & ? & _); done.
  - cbn [fst snd]. destruct (existsb _ rt); rewrite ?list_elem_of_singleton, ?elem_of_nil;
      (destruct (decide (n = NetID id)) as [->|]; [rewrite Eu|]); intuition congruence.
Qed.

End Update.

Lemma minNetID_elem ids : ids ≠ [] → minNetID ids ∈ ids.
Proof.
  destruct ids as [|best ids]; [done|]. intros _. simpl.
  assert (H : ∀ b, foldl (λ best id, match strings_Compare id best with Lt => id | _ => best end) b ids = b ∨
               foldl (λ best id, match strings_Compare id best with Lt => id | _ => best end) b ids ∈ ids).
  { induction ids as [|id ids IH]; intros b; simpl; [by left|].
    destruct (strings_Compare id b); [destruct (IH b) as [E|?]|destruct (IH id) as [E|?]|destruct (IH b) as [E|?]].
    all: try (rewrite E; auto using list_elem_of_here). all: right; by constructor. }
  destruct (H best) as [->|?]; by constructor.
Qed.

Lemma pick_elem info :
  pickPreferredExitNode info ∈ userSelected info ∨
  userSelected info = [] ∧ pickPreferredExitNode info ∈ selectedByManagement info ∨
  userSelected info = [] ∧ selectedByManagement info = [] ∧ pickPreferredExitNode info = "".
Proof.
  unfold pickPreferredExitNode. destruct (userSelected info) as [|u us] eqn:Eu; simpl.
  - destruct (selectedByManagement info) as [|s ss] eqn:Es; simpl; [by right; right|]. right; left.
    split; [done|]. by apply (minNetID_elem (s :: ss)).
  - left. by apply (minNetID_elem (u :: us)).
Qed.

(** Whether the explicit state of a route is "selected". *)
Definition chosen (rs : RouteSelector) (n : string) : Prop := n ∈ selectedRoutes rs ∧ n ∉ deselectedRoutes rs.
Definition untouched (rs : RouteSelector) (n : string) : Prop := n ∉ selectedRoutes rs ∧ n ∉ deselectedRoutes rs.

Lemma chosen_bool rs n :
  deselectAll rs = false →
  HasUserSelectionForRoute n rs = true ∧ IsSelected n rs = true ↔ chosen rs n.
Proof.
  unfold chosen, HasUserSelectionForRoute, hasUserSelectionForRouteLocked, IsSelected, isSelectedLocked. intros ->.
  rewrite orb_true_iff, negb_true_iff, !bool_decide_eq_true, bool_decide_eq_false. tauto.
Qed.

Lemma untouched_bool rs n : HasUserSelectionForRoute n rs = false ↔ untouched rs n.
Proof.
  unfold untouched, HasUserSelectionForRoute, hasUserSelectionForRouteLocked.
  by rewrite orb_false_iff, !bool_decide_eq_false.
Qed.

Lemma SetExclusive_spec p ids rs n :
  deselectAll rs = false →
  let rs' := SetExclusiveExitNode p ids rs in
  deselectAll rs' = false ∧
  (n ∈ ids → n ≠ p → n ∈ deselectedRoutes rs' ∧ n ∉ selectedRoutes rs') ∧
  (n = p → p ≠ "" → chosen rs' n) ∧
  (n ∉ ids → n ≠ p → same_at rs rs' n) ∧
  (n = p → p = "" → same_at rs rs' n).
Proof.
  intros Ha. unfold SetExclusiveExitNode, chosen, same_at. rewrite Ha, deselect_each_eq.
  destruct (String.eqb_spec p "") as [Hp|Hp]; rewrite ?select_each_eq; cbn [negb deselectAll selectedRoutes deselectedRoutes];
    (split; [done|]); rewrite ?elem_of_union, ?elem_of_difference, ?elem_of_union, ?elem_of_difference,
      ?elem_of_list_to_set, ?list_elem_of_filter, ?list_elem_of_singleton; tauto.
Qed.

(** ** An update *)

(** The exit nodes of a map, those management asks to apply, and those in use. *)
Definition exit_id (routes : gmap string (list Route)) (n : string) : Prop :=
  ∃ kv, routes !! kv.1 = Some kv.2 ∧ exit_entry kv n.
Definition auto_id (routes : gmap string (list Route)) (n : string) : Prop :=
  ∃ kv, routes !! kv.1 = Some kv.2 ∧ exit_entry kv n ∧ existsb (λ r, negb (rt_SkipAutoApply r)) kv.2 = true.
Definition active (routes : gmap string (list Route)) (rs : RouteSelector) (n : string) : Prop :=
  ∃ kv, routes !! kv.1 = Some kv.2 ∧ exit_entry kv n ∧ is_Some (FilterSelectedExitNodes routes rs !! kv.1).

Lemma collectSelected_some rt : (0 <? length (collectSelected rt))%nat = existsb (λ r, negb (rt_SkipAutoApply r)) rt.
Proof.
  induction rt as [|r rt IH]; [done|]. unfold collectSelected in *. rewrite filter_cons. cbn [existsb].
  destruct (rt_SkipAutoApply r); [|done]. rewrite decide_False by done. exact IH.
Qed.

(** A node in use was chosen, or left alone and is applied by management. *)
Lemma active_iff routes rs n :
  deselectAll rs = false →
  active routes rs n ↔ exit_id routes n ∧ chosen rs n ∨ auto_id routes n ∧ untouched rs n.
Proof.
  intros Ha. unfold active, FilterSelectedExitNodes. rewrite Ha.
  assert (Hf : ∀ kv, exit_entry kv n → is_Some (exit_filter rs kv.1 kv.2) ↔
    chosen rs n ∨ untouched rs n ∧ existsb (λ r, negb (rt_SkipAutoApply r)) kv.2 = true).
  { intros kv (He & Hn & _). unfold exit_filter. rewrite Hn, He, collectSelected_some. cbn [negb].
    pose proof (chosen_bool rs n Ha) as Hc. pose proof (untouched_bool rs n) as Hu.
    unfold HasUserSelectionForRoute, IsSelected in *. unfold isDeselectedLocked, isSelectedLocked in *. rewrite Ha in *.
    destruct (bool_decide (n ∈ deselectedRoutes rs)) eqn:Ed; cbn [negb] in *.
    { apply bool_decide_eq_true in Ed. split; [intros [? [=]]|]. unfold chosen, untouched. tauto. }
    destruct (hasUserSelectionForRouteLocked n rs).
    { split; [left; by apply Hc|by exists kv.2]. }
    assert (~ chosen rs n) by (intros [? _]%Hc; done).
    destruct (existsb _ kv.2); split; [|by eexists|by intros [? [=]]|intros [?|[_ ?]]; done].
    intros _. right. split; [by apply Hu|done]. }
  assert (Hl : ∀ kv : string * list Route, routes !! kv.1 = Some kv.2 → map_imap (exit_filter rs) routes !! kv.1 = exit_filter rs kv.1 kv.2).
  { intros kv E. by rewrite map_lookup_imap, E. }
  split.
  - intros (kv & E & He & Hs). rewrite (Hl kv E) in Hs. apply (Hf kv He) in Hs as [Hc|[Hu Hx]].
    + left. split; [by exists kv|done].
    + right. split; [by exists kv|done].
  - intros [[(kv & E & He) Hc]|[(kv & E & He & Hx) Hu]]; exists kv; rewrite (Hl kv E); split_and!; try done; apply (Hf kv He);
      [by left|by right].
Qed.

(** The node an update settles on, from the state before it. *)
Definition settles (routes : gmap string (list Route)) (rs : RouteSelector) (p : string) : Prop :=
  exit_id routes p ∧ chosen rs p ∨
  (∀ n, exit_id routes n → ¬ chosen rs n) ∧
  (auto_id routes p ∧ untouched rs p ∨ (∀ n, auto_id routes n → ¬ untouched rs n) ∧ p = "").

Section Reconcile.
Context {MO : MapOrder}.

Lemma collect_ids seed routes rs : deselectAll rs = false →
  let info := collectExitNodeInfo seed routes rs in
  (∀ n, n ∈ allIDs info ↔ exit_id routes n) ∧ settles routes rs (pickPreferredExitNode info).
Proof.
  intros Ha. cbn zeta. unfold collectExitNodeInfo.
  pose proof (collect_spec rs (range_list seed routes)) as H. cbn zeta in H.
  set (info := foldl (collect_step rs) noInfo _) in *. clearbody info. destruct H as (H1 & H2 & H3).
  assert (Hr : ∀ P : string * list Route → Prop, (∃ kv, kv ∈ range_list seed routes ∧ P kv) ↔ ∃ kv, routes !! kv.1 = Some kv.2 ∧ P kv).
  { intros P. split; intros ([k v] & E & Hx); exists (k, v); by rewrite elem_of_range_list in *. }
  assert (Hall : ∀ n, n ∈ allIDs info ↔ exit_id routes n) by (intros n; by rewrite H1, Hr). split; [done|].
  assert (Hus : ∀ n, n ∈ userSelected info ↔ exit_id routes n ∧ chosen rs n).
  { intros n. by rewrite H2, Hall, chosen_bool. }
  assert (Hms : ∀ n, n ∈ selectedByManagement info ↔ auto_id routes n ∧ untouched rs n).
  { intros n. rewrite H3, Hr, untouched_bool. unfold auto_id. tauto. }
  assert (Hno : userSelected info = [] → ∀ n, exit_id routes n → ¬ chosen rs n).
  { intros E n He Hc. assert (Hin : n ∈ userSelected info) by (by apply Hus). rewrite E in Hin. by apply elem_of_nil in Hin. }
  destruct (pick_elem info) as [Hp|[[Eu Hp]|(Eu & Em & ->)]].
  - left. by apply Hus.
  - right. split; [by apply Hno|]. left. by apply Hms.
  - right. split; [by apply Hno|]. right. split; [|done]. intros n Hn Ht.
    assert (Hin : n ∈ selectedByManagement info) by (by apply Hms). rewrite Em in Hin. by apply elem_of_nil in Hin.
Qed.

Lemma mirror_bases seed1 seed2 routes rs :
  let rs' := mirrorV6ExitPairSelections seed1 seed2 routes rs in
  deselectAll rs' = deselectAll rs ∧ ∀ n, HasSuffix n V6ExitSuffix = false → same_at rs rs' n.
Proof.
  cbn zeta. unfold mirrorV6ExitPairSelections.
  destruct (mirror_frame (range_set seed2 (V6ExitMergeSet (routes_by_net_id seed1 routes))) rs) as [H1 H2].
  split; [exact H1|]. intros n Hn. apply H2. rewrite elem_of_range_set. intros (Hs & _)%V6ExitMergeSet_spec. congruence.
Qed.

Lemma chosen_same rs rs' n : same_at rs rs' n → chosen rs' n ↔ chosen rs n.
Proof. unfold same_at, chosen. tauto. Qed.

Lemma untouched_same rs rs' n : same_at rs rs' n → untouched rs' n ↔ untouched rs n.
Proof. unfold same_at, untouched. tauto. Qed.

Lemma exit_id_suffix routes n : exit_id routes n → HasSuffix n V6ExitSuffix = false.
Proof. by intros (kv & _ & _ & _ & H). Qed.

Lemma auto_exit_id routes n : auto_id routes n → exit_id routes n.
Proof. intros (kv & E & He & _). by exists kv. Qed.

Lemma settles_same routes rs rs' p :
  (∀ n, HasSuffix n V6ExitSuffix = false → same_at rs rs' n) → settles routes rs' p → settles routes rs p.
Proof.
  intros Hs. assert (Hc : ∀ n, exit_id routes n → chosen rs' n ↔ chosen rs n).
  { intros n He. apply chosen_same, Hs. by eapply exit_id_suffix. }
  assert (Hu : ∀ n, auto_id routes n → untouched rs' n ↔ untouched rs n).
  { intros n He. apply untouched_same, Hs. by eapply exit_id_suffix, auto_exit_id. }
  intros [[He Hp]|[Hno [[Ht Hp]|[Hna ->]]]].
  - left. split; [done|by apply Hc].
  - right. split; [intros n He; rewrite <- (Hc n He); by apply Hno|]. left. split; [done|by apply Hu].
  - right. split; [intros n He; rewrite <- (Hc n He); by apply Hno|]. right. split; [|done].
    intros n He. rewrite <- (Hu n He). by apply Hna.
Qed.

(** The IPv6 names: a pair gets the explicit state its IPv4 node had before the
    update, the others keep theirs. *)
Lemma update_v6 s1 s2 s3 routes rs n :
  deselectAll rs = false → HasSuffix n V6ExitSuffix = true →
  let rs' := updateRouteSelectorFromManagement (s1, s2, s3) routes rs in
  let pairs := V6ExitMergeSet (routes_by_net_id s1 routes) in
  (n ∉ pairs → same_at rs rs' n) ∧
  (consistent rs → n ∈ pairs →
     (n ∈ selectedRoutes rs' ↔ TrimSuffix n V6ExitSuffix ∈ selectedRoutes rs) ∧
     (n ∈ deselectedRoutes rs' ↔ TrimSuffix n V6ExitSuffix ∈ deselectedRoutes rs)).
Proof.
  intros Ha Hs. cbn zeta. unfold updateRouteSelectorFromManagement, mirrorV6ExitPairSelections. set (pairs := V6ExitMergeSet _).
  pose proof (mirror_frame (range_set s2 pairs) rs) as [M1 M2]. set (rsm := foldl _ rs (range_set s2 pairs)) in *. rewrite Ha in M1. rewrite M1.
  assert (Hsame : same_at rsm (if (length (allIDs (collectExitNodeInfo s3 routes rsm)) =? 0)%nat then rsm
      else SetExclusiveExitNode (pickPreferredExitNode (collectExitNodeInfo s3 routes rsm)) (allIDs (collectExitNodeInfo s3 routes rsm)) rsm) n).
  { destruct (_ =? 0)%nat; [done|]. destruct (collect_ids s3 routes rsm M1) as [Hall Hp].
    assert (Hne : n ≠ pickPreferredExitNode (collectExitNodeInfo s3 routes rsm)).
    { intros E. rewrite <- E in Hp. destruct Hp as [[H%exit_id_suffix _]|[_ [[H%auto_exit_id%exit_id_suffix _]|[_ ->]]]]; [congruence..|done]. }
    destruct (SetExclusive_spec (pickPreferredExitNode (collectExitNodeInfo s3 routes rsm))
      (allIDs (collectExitNodeInfo s3 routes rsm)) rsm n M1) as (_ & _ & _ & H & _).
    apply H; [|done]. intros H'%Hall%exit_id_suffix. congruence. }
  destruct Hsame as [S1 S2]. split.
  - intros Hn. eapply same_at_trans; [apply M2|by split]. by rewrite elem_of_range_set.
  - intros Hc Hn. assert (Hb : ∀ v6, v6 ∈ range_set s2 pairs → TrimSuffix v6 V6ExitSuffix ∉ range_set s2 pairs).
    { intros v6. rewrite !elem_of_range_set. apply base_not_paired. }
    destruct (mirror_spec (range_set s2 pairs) rs Hc Ha Hb) as (_ & _ & F1 & F2). fold rsm in F1, F2.
    assert (Hin : n ∈ range_set s2 pairs) by (by rewrite elem_of_range_set).
    destruct (F2 n Hin) as [F3 F4]. destruct (F1 _ (Hb n Hin)) as [F5 F6]. by rewrite S1, S2, F3, F4, F5, F6.
Qed.

(** What an update does: it settles on [p], turns the other nodes off, and
    leaves the rest but the IPv6 pairs alone. *)
Lemma update_spec seeds routes rs :
  deselectAll rs = false →
  let rs' := updateRouteSelectorFromManagement seeds routes rs in
  ∃ p, settles routes rs p ∧ deselectAll rs' = false ∧
    (∀ n, exit_id routes n → n ≠ p → n ∈ deselectedRoutes rs' ∧ n ∉ selectedRoutes rs') ∧
    (p ≠ "" → chosen rs' p) ∧ (p = "" → same_at rs rs' p) ∧
    (∀ n, ¬ exit_id routes n → HasSuffix n V6ExitSuffix = false → same_at rs rs' n).
Proof.
  intros Ha. destruct seeds as [[s1 s2] s3]. cbn zeta. unfold updateRouteSelectorFromManagement.
  destruct (mirror_bases s1 s2 routes rs) as [M1 M2]. set (rsm := mirrorV6ExitPairSelections s1 s2 routes rs) in *.
  clearbody rsm. rewrite Ha in M1. rewrite M1.
  destruct (collect_ids s3 routes rsm M1) as [Hall Hp]. set (info := collectExitNodeInfo s3 routes rsm) in *. clearbody info.
  destruct (length (allIDs info) =? 0)%nat eqn:El.
  { apply Nat.eqb_eq, length_zero_iff_nil in El. rewrite El in Hall.
    assert (Hno : ∀ n, ¬ exit_id routes n). { intros n Hn%Hall. by apply elem_of_nil in Hn. }
    exists "". split_and!; try done.
    - right. split; [intros n ?%Hno; done|]. right. split; [|done]. intros n ?%auto_exit_id%Hno. done.
    - intros n ?%Hno. done.
    - intros _. by apply M2.
    - intros n _. by apply M2. }
  exists (pickPreferredExitNode info). set (p := pickPreferredExitNode info) in *. clearbody p.
  split; [by eapply settles_same|].
  split; [by apply SetExclusive_spec|].
  split_and!.
  - intros n Hn Hne. apply SetExclusive_spec; [done|by apply Hall|done].
  - intros Hne. by apply SetExclusive_spec.
  - intros ->. eapply same_at_trans; [by apply M2|by apply SetExclusive_spec].
  - intros n Hn Hsfx. eapply same_at_trans; [by apply M2|]. destruct (decide (n = p)) as [->|Hne].
    + assert (p = "") as ->. { destruct Hp as [[? _]|[_ [[?%auto_exit_id _]|[_ ?]]]]; done. }
      by apply SetExclusive_spec.
    + destruct (SetExclusive_spec p (allIDs info) rsm n M1) as (_ & _ & _ & H & _). apply H; [by rewrite Hall|done].
Qed.

(** C23. Exit nodes are counted by their name without the suffix "-v6", under
    which an IPv4 node may have an IPv6 pair.  After every network map at most one
    of them is in use: one with a recorded selection, be it of the user or of an
    earlier update; if there is none, one that management applies and nothing is
    recorded for; and if there is a candidate one is in use.  A pair takes the
    state its IPv4 node had before this update, so it is one map behind.  All
    other names keep their state, and when everything is deselected nothing
    changes and none is in use. *)
Theorem single_exit_node s1 s2 s3 routes rs :
  let rs' := updateRouteSelectorFromManagement (s1, s2, s3) routes rs in
  let pairs := V6ExitMergeSet (routes_by_net_id s1 routes) in
  (∀ n n', active routes rs' n → active routes rs' n' → n = n') ∧
  (∀ n, active routes rs' n →
     chosen rs n ∨ (∀ n', exit_id routes n' → ¬ chosen rs n') ∧ auto_id routes n ∧ untouched rs n) ∧
  (deselectAll rs = false →
     (∃ n, exit_id routes n ∧ chosen rs n ∨ auto_id routes n ∧ untouched rs n) → ∃ n, active routes rs' n) ∧
  (∀ n, ¬ exit_id routes n → n ∉ pairs → same_at rs rs' n) ∧
  (deselectAll rs = false → consistent rs → ∀ n, n ∈ pairs →
     (n ∈ selectedRoutes rs' ↔ TrimSuffix n V6ExitSuffix ∈ selectedRoutes rs) ∧
     (n ∈ deselectedRoutes rs' ↔ TrimSuffix n V6ExitSuffix ∈ deselectedRoutes rs)) ∧
  (deselectAll rs = true → rs' = rs ∧ ∀ n, ¬ active routes rs' n).
Proof.
  cbn zeta. destruct (deselectAll rs) eqn:Ha.
  { assert (E : updateRouteSelectorFromManagement (s1, s2, s3) routes rs = rs).
    { unfold updateRouteSelectorFromManagement. by rewrite mirror_off, Ha. }
    rewrite E. assert (Hno : ∀ n, ¬ active routes rs n).
    { intros n (kv & _ & _ & Hs). unfold FilterSelectedExitNodes in Hs. rewrite Ha, lookup_empty in Hs. by destruct Hs. }
    split_and!; [intros n n' ?%Hno; done|intros n ?%Hno; done|done|done|done|done]. }
  pose proof (λ n, update_v6 s1 s2 s3 routes rs n Ha) as H6. cbn zeta in H6.
  destruct (update_spec (s1, s2, s3) routes rs Ha) as (p & Hp & Ha' & Hoff & Hon & Hemp & Hrest).
  set (rs' := updateRouteSelectorFromManagement (s1, s2, s3) routes rs) in *. clearbody rs'.
  assert (Hact : ∀ n, active routes rs' n → n = p).
  { intros n H. destruct (decide (n = p)) as [|Hne]; [done|exfalso]. apply active_iff in H; [|done].
    destruct H as [[He [_ Hd]]|[He%auto_exit_id [_ Hd]]]; by destruct (Hoff n He Hne). }
  split_and!; [| | | | |done].
  - intros n n' ->%Hact ->%Hact. done.
  - intros n Hn. assert (n = p) as -> by auto. destruct Hp as [[_ Hc]|[Hno [Ht|[Hna ->]]]]; [by left|by right|].
    exfalso. apply active_iff in Hn; [|done]. destruct Hn as [[He Hc]|[He Hu]].
    + apply (Hno "" He). by apply (chosen_same rs rs'); auto.
    + apply (Hna "" He). by apply (untouched_same rs rs'); auto.
  - intros _ (n & Hn). exists p. apply active_iff; [done|].
    assert (He : exit_id routes p ∧ (chosen rs p ∨ auto_id routes p ∧ untouched rs p)).
    { destruct Hp as [?|[Hno [[Hau Hu]|[Hna ->]]]]; [tauto|split; [by apply auto_exit_id|tauto]|].
      exfalso. destruct Hn as [[He Hc]|[He Hu]]; [by apply (Hno n)|by apply (Hna n)]. }
    destruct (decide (p = "")) as [->|Hne]; [|left; tauto]. specialize (Hemp eq_refl).
    rewrite (chosen_same _ _ _ Hemp), (untouched_same _ _ _ Hemp). tauto.
  - intros n He Hn. destruct (HasSuffix n V6ExitSuffix) eqn:Es; [by apply H6|by apply Hrest].
  - intros _ Hc n Hn. apply H6; [|done..]. by apply V6ExitMergeSet_spec in Hn as [Hs _].
Qed.

Lemma mirror_consistent seed1 seed2 routes rs : consistent rs → consistent (mirrorV6ExitPairSelections seed1 seed2 routes rs).
Proof.
  unfold mirrorV6ExitPairSelections. generalize (range_set seed2 (V6ExitMergeSet (routes_by_net_id seed1 routes))).
  intros l. revert rs. induction l as [|v6 l IH]; intros rs Hc; [done|]. simpl. by apply IH, SyncPaired_consistent.
Qed.

Lemma update_consistent seeds routes rs : consistent rs → consistent (updateRouteSelectorFromManagement seeds routes rs).
Proof.
  intros Hc. destruct seeds as [[s1 s2] s3]. unfold updateRouteSelectorFromManagement.
  pose proof (mirror_consistent s1 s2 routes rs Hc) as Hm. destruct (deselectAll _); [done|].
  destruct (length _ =? 0)%nat; [done|]. by apply SetExclusive_consistent.
Qed.

(** A selector on which an update has settled on [p]. *)
Definition settled (routes : gmap string (list Route)) (rs : RouteSelector) (p : string) : Prop :=
  (∀ n, exit_id routes n → n ≠ p → n ∈ deselectedRoutes rs ∧ n ∉ selectedRoutes rs) ∧
  (p ≠ "" → exit_id routes p ∧ chosen rs p).

Lemma settled_same routes rs rs' p :
  (∀ n, HasSuffix n V6ExitSuffix = false → same_at rs rs' n) → settled routes rs p → settled routes rs' p.
Proof.
  intros Hs [H1 H2]. split.
  - intros n He Hne. destruct (Hs n (exit_id_suffix _ _ He)) as [-> ->]. by apply H1.
  - intros Hne. destruct (H2 Hne) as [He Hc]. split; [done|]. apply (chosen_same rs rs'); [|done].
    by eapply Hs, exit_id_suffix.
Qed.

Lemma settled_again routes rs p q : settled routes rs p → settles routes rs q → q = p.
Proof.
  intros [H1 H2] Hq.
  assert (Hin : ∀ n, exit_id routes n → n ∉ deselectedRoutes rs → n = p).
  { intros n He Hd. destruct (decide (n = p)) as [|Hne]; [done|]. by destruct (H1 n He Hne). }
  destruct Hq as [[He [_ Hd]]|[Hno [[Ht%auto_exit_id [_ Hd]]|[_ ->]]]]; [by apply Hin|by apply Hin|].
  destruct (decide (p = "")) as [->|Hne]; [done|]. destruct (H2 Hne) as [He Hc]. by destruct (Hno p).
Qed.

Lemma update_settled seeds routes rs :
  deselectAll rs = false → ∃ p, settled routes (updateRouteSelectorFromManagement seeds routes rs) p.
Proof.
  intros Ha. destruct (update_spec seeds routes rs Ha) as (p & Hp & _ & Hoff & Hon & _). exists p. split; [done|].
  intros Hne. split; [|auto]. destruct Hp as [[? _]|[_ [[?%auto_exit_id _]|[_ ?]]]]; done.
Qed.

(** On a settled selector the update is its mirror. *)
Lemma update_again s1 s2 s3 routes rs p :
  deselectAll rs = false → settled routes rs p →
  ∀ n, same_at (mirrorV6ExitPairSelections s1 s2 routes rs) (updateRouteSelectorFromManagement (s1, s2, s3) routes rs) n.
Proof.
  intros Ha Hp n. unfold updateRouteSelectorFromManagement.
  destruct (mirror_bases s1 s2 routes rs) as [M1 M2]. set (rsm := mirrorV6ExitPairSelections s1 s2 routes rs) in *.
  clearbody rsm. rewrite Ha in M1. rewrite M1.
  destruct (collect_ids s3 routes rsm M1) as [Hall Hq]. set (info := collectExitNodeInfo s3 routes rsm) in *. clearbody info.
  destruct (length (allIDs info) =? 0)%nat; [by split|].
  assert (Hpm : settled routes rsm p) by (by eapply settled_same).
  rewrite (settled_again _ _ _ _ Hpm Hq). destruct Hpm as [H1 H2].
  destruct (SetExclusive_spec p (allIDs info) rsm n M1) as (_ & S1 & S2 & S3 & S4).
  destruct (decide (n = p)) as [->|Hne].
  - destruct (decide (p = "")) as [->|Hpe]; [by apply S4|].
    destruct (H2 Hpe) as [_ [? ?]], (S2 eq_refl Hpe) as [? ?]. unfold same_at. tauto.
  - destruct (decide (n ∈ allIDs info)) as [Hin|]; [|by apply S3].
    destruct (S1 Hin Hne), (H1 n (proj1 (Hall n) Hin) Hne). unfold same_at. tauto.
Qed.

(** Two updates with the same map bring every IPv6 pair to the explicit state
    of its IPv4 exit node. *)
Theorem exit_pairs_converge seeds s1 s2 s3 routes rs :
  consistent rs → deselectAll rs = false →
  let rs' := updateRouteSelectorFromManagement seeds routes rs in
  let rs'' := updateRouteSelectorFromManagement (s1, s2, s3) routes rs' in
  ∀ v6, v6 ∈ V6ExitMergeSet (routes_by_net_id s1 routes) → follows rs'' (TrimSuffix v6 V6ExitSuffix) v6.
Proof.
  intros Hc Ha rs' rs'' v6 Hv. destruct (update_settled seeds routes rs Ha) as [p Hp].
  destruct (update_spec seeds routes rs Ha) as (_ & _ & Ha' & _).
  pose proof (update_consistent seeds routes rs Hc) as Hc'. fold rs' in Hp, Ha', Hc'.
  pose proof (update_again s1 s2 s3 routes rs' p Ha' Hp) as Hsame. fold rs'' in Hsame.
  destruct (Hsame v6) as [A1 A2], (Hsame (TrimSuffix v6 V6ExitSuffix)) as [B1 B2].
  destruct (mirror_spec (range_set s2 (V6ExitMergeSet (routes_by_net_id s1 routes))) rs' Hc' Ha') as (_ & _ & _ & Hf).
  { intros x Hx. rewrite elem_of_range_set in *. by apply base_not_paired. }
  destruct (Hf v6) as [F1 F2]; [by apply elem_of_range_set|]. fold (mirrorV6ExitPairSelections s1 s2 routes rs') in F1, F2.
  split; [by rewrite A1, B1|by rewrite A2, B2].
Qed.
End Reconcile.

(** ** Requests of the user *)

(** The IPv4 exit node has an IPv6 pair in the map. *)
Definition has_pair (m : gmap string (list Route)) (id : string) : Prop :=
  ∃ rt rt6, m !! id = Some rt ∧ first_network IsV4DefaultRoute rt = true ∧
    m !! (id +:+ V6ExitSuffix) = Some rt6 ∧ first_network IsV6DefaultRoute rt6 = true.

Lemma Expand_spec m ids :
  (∀ x, x ∈ ids → x ∈ ExpandV6ExitPairs ids m) ∧
  (∀ x, x ∈ ids → has_pair m x → (x +:+ V6ExitSuffix) ∈ ExpandV6ExitPairs ids m) ∧
  (∀ x, x ∈ ExpandV6ExitPairs ids m → x ∈ ids ∨ ∃ id, id ∈ ids ∧ x = id +:+ V6ExitSuffix ∧ has_pair m id).
Proof.
  unfold ExpandV6ExitPairs. set (f := λ (acc : list string) (id : string), _).
  assert (Hf : ∀ acc id, (∀ x, x ∈ acc → x ∈ f acc id) ∧ (has_pair m id → (id +:+ V6ExitSuffix) ∈ f acc id) ∧
    ∀ x, x ∈ f acc id → x ∈ acc ∨ x = id +:+ V6ExitSuffix ∧ has_pair m id).
  { intros acc id. unfold f, has_pair. destruct (m !! id) as [rt|] eqn:E;
      [|split_and!; [done|by intros (? & ? & ? & _)|by left]].
    destruct (m !! (id +:+ V6ExitSuffix)) as [rt6|] eqn:E6; cycle 1.
    { rewrite andb_false_r. cbn [andb]. split_and!; [done|by intros (? & ? & ? & ? & ? & _)|by left]. }
    destruct (first_network IsV4DefaultRoute rt) eqn:F4, (first_network IsV6DefaultRoute rt6) eqn:F6; cbn [andb].
    2-4: split_and!; [done|intros (? & ? & ? & ? & ? & ?); simplify_eq; congruence|by left].
    destruct (bool_decide ((id +:+ V6ExitSuffix) ∈ acc)) eqn:B; cbn [negb].
    { apply bool_decide_eq_true in B. split_and!; [done|done|by left]. }
    split_and!; [intros x Hx; apply elem_of_app; by left|intros _; apply elem_of_app; right; by left|].
    intros x [?| ->%list_elem_of_singleton]%elem_of_app; [by left|]. right. split; [done|]. by exists rt, rt6. }
  assert (Hl : ∀ l acc, (∀ x, x ∈ acc → x ∈ foldl f acc l) ∧
    (∀ x, x ∈ l → has_pair m x → (x +:+ V6ExitSuffix) ∈ foldl f acc l) ∧
    ∀ x, x ∈ foldl f acc l → x ∈ acc ∨ ∃ id, id ∈ l ∧ x = id +:+ V6ExitSuffix ∧ has_pair m id).
  { clearbody f. induction l as [|id l IH]; intros acc; cbn [foldl].
    { split_and!; [done|intros x Hx; by apply elem_of_nil in Hx|by left]. }
    destruct (Hf acc id) as (F1 & F2 & F3), (IH (f acc id)) as (I1 & I2 & I3). split_and!.
    - intros x Hx. by apply I1, F1.
    - intros x [->|Hx]%elem_of_cons Hp; [by apply I1, F2|by apply I2].
    - intros x [[Hx|[-> Hp]]%F3|(id' & Hin & -> & Hp)]%I3; [by left|right; exists id; split; [by left|done]|].
      right. exists id'. split; [by right|done]. }
  destruct (Hl ids ids) as (H1 & H2 & H3). split_and!; done.
Qed.

Lemma elem_of_available x routes all : x ∈ available routes all ↔ x ∈ routes ∧ x ∈ all.
Proof. unfold available. rewrite list_elem_of_filter. tauto. Qed.

Lemma SelectRoutes_spec routes append all rs x :
  available routes all ≠ [] →
  let rs' := (SelectRoutes routes append all rs).1 in
  deselectAll rs' = false ∧ (x ∈ routes → x ∈ all → chosen rs' x) ∧
  (x ∉ available routes all → append = true → deselectAll rs = false → same_at rs rs' x).
Proof.
  intros Hav. unfold SelectRoutes, chosen, same_at. destruct (available routes all) as [|y l] eqn:E; [done|].
  cbn [length Nat.eqb andb]. rewrite <- E, select_each_eq. cbn [fst deselectAll selectedRoutes deselectedRoutes].
  rewrite elem_of_union, elem_of_difference, !elem_of_list_to_set, elem_of_available. split; [done|].
  split; [tauto|]. intros Hx -> ->. cbn [negb orb]. tauto.
Qed.

Lemma DeselectRoutes_spec routes all rs x :
  deselectAll rs = false →
  let rs' := (DeselectRoutes routes all rs).1 in
  deselectAll rs' = false ∧
  (x ∈ routes → x ∈ all → x ∈ deselectedRoutes rs' ∧ x ∉ selectedRoutes rs') ∧
  (x ∉ routes → same_at rs rs' x).
Proof.
  intros Ha. unfold DeselectRoutes, same_at. rewrite Ha, deselect_each_eq. cbn [fst deselectAll selectedRoutes deselectedRoutes].
  rewrite elem_of_union, elem_of_difference, !elem_of_list_to_set, elem_of_available. tauto.
Qed.

Section Requests.
Context {MO : MapOrder}.

Lemma elem_of_keys seed (m : gmap string (list Route)) x : x ∈ (range_list seed m).*1 ↔ is_Some (m !! x).
Proof.
  rewrite list_elem_of_fmap. split.
  - intros ([k v] & -> & Hin%elem_of_range_list). by exists v.
  - intros [v Hv]. exists (x, v). by rewrite elem_of_range_list.
Qed.

Lemma elem_of_others seed (m : gmap string (list Route)) requested x :
  x ∈ otherExitNodeIDs seed m requested ↔ (∃ rt, m !! x = Some rt ∧ isExitNode rt = true) ∧ x ∉ requested.
Proof.
  unfold otherExitNodeIDs. rewrite list_elem_of_fmap. split.
  - intros ([k v] & -> & [[He Hk] Hin]%list_elem_of_filter). apply elem_of_range_list in Hin. split; [by exists v|done].
  - intros [(rt & E & He) Hx]. exists (x, rt). split; [done|]. rewrite list_elem_of_filter, elem_of_range_list. done.
Qed.

(** Selecting an exit node turns on what was requested and exists, with the
    IPv6 pairs, and turns off every other exit node of the map; when the
    request extends the selection, nothing else changes. *)
Theorem select_exit_node s1 s2 s3 routes ids append rs n rt :
  let m := routes_by_net_id s1 routes in
  let rs' := (selectRoutes s1 s2 s3 routes ids append rs).1 in
  n ∈ ids → m !! n = Some rt → isExitNode rt = true →
  deselectAll rs' = false ∧
  (∀ x, x ∈ ids → is_Some (m !! x) → chosen rs' x ∧ (has_pair m x → chosen rs' (x +:+ V6ExitSuffix))) ∧
  (∀ x xt, m !! x = Some xt → isExitNode xt = true → x ∉ ids → (∀ id, id ∈ ids → x ≠ id +:+ V6ExitSuffix) →
     x ∈ deselectedRoutes rs' ∧ x ∉ selectedRoutes rs') ∧
  (append = true → deselectAll rs = false → ∀ x, x ∉ ids → (∀ xt, m !! x = Some xt → isExitNode xt = false) → same_at rs rs' x).
Proof.
  intros m rs' Hn Em He. unfold rs', selectRoutes. fold m. clear rs'.
  destruct (Expand_spec m ids) as (X1 & X2 & X3). set (req := ExpandV6ExitPairs ids m) in *. clearbody req.
  set (all := (range_list s2 m).*1). assert (Hall : ∀ x, x ∈ all ↔ is_Some (m !! x)) by (intros; apply elem_of_keys). clearbody all.
  assert (Hact : requestActivatesExitNode req m = true).
  { apply existsb_exists. exists n. rewrite Em. split; [|done]. by apply list_elem_of_In, X1. }
  assert (Hav : available req all ≠ []).
  { intros E. assert (H : n ∈ available req all); [|rewrite E in H; by apply elem_of_nil in H].
    apply elem_of_available. split; [by apply X1|]. apply Hall. by exists rt. }
  destruct (SelectRoutes req append all rs) as [rs1 merr] eqn:E1. rewrite Hact.
  pose proof (λ x, SelectRoutes_spec req append all rs x Hav) as Hs. rewrite E1 in Hs. cbn [fst] in Hs. cbv zeta in Hs.
  assert (Ha1 : deselectAll rs1 = false) by apply (Hs "").
  set (others := otherExitNodeIDs s3 m req). assert (Hoth : ∀ x, x ∈ others ↔ _) by (intros; apply elem_of_others). clearbody others.
  set (fin := (if (0 <? length others)%nat then _ else _).1).
  assert (Hd : ∀ x, deselectAll fin = false ∧ (x ∈ others → x ∈ deselectedRoutes fin ∧ x ∉ selectedRoutes fin) ∧
    (x ∉ others → same_at rs1 fin x)).
  { intros x. unfold fin. destruct others as [|o os] eqn:Eo.
    { cbn. split_and!; [done|intros H; by apply elem_of_nil in H|done]. }
    change (0 <? length (o :: os))%nat with true. cbn iota. rewrite <- Eo in *.
    pose proof (DeselectRoutes_spec others all rs1 x Ha1) as H. destruct (DeselectRoutes others all rs1) as [rs2 err].
    cbn [fst] in *. destruct H as (H1 & H2 & H3). split_and!; [done| |done]. intros Hx. apply H2; [done|].
    apply Hall. apply Hoth in Hx as [(xt & -> & _) _]. by exists xt. }
  clearbody fin. split; [apply (Hd "")|].
  assert (Hon : ∀ x, x ∈ req → is_Some (m !! x) → chosen fin x).
  { intros x Hx Hm. apply (chosen_same rs1 fin); [|apply Hs; [done|by apply Hall]]. apply Hd. rewrite Hoth. tauto. }
  split_and!.
  - intros x Hx Hm. split; [by apply Hon; [apply X1|]|]. intros Hp. apply Hon; [by apply X2|].
    destruct Hp as (? & rt6 & _ & _ & E6 & _). by exists rt6.
  - intros x xt Ex Hex Hx Hpx. apply Hd, Hoth. split; [by exists xt|]. intros [?|(id & Hid & -> & _)]%X3; [done|]. by apply (Hpx id).
  - intros Happ Ha x Hx Hex. eapply same_at_trans.
    + apply (Hs x); [|done|done]. rewrite elem_of_available. intros [Hr Hm]. apply X3 in Hr as [?|(id & _ & -> & Hp)]; [done|].
      destruct Hp as (? & rt6 & _ & _ & E6 & F6). specialize (Hex rt6 E6). unfold isExitNode in Hex. by rewrite F6, orb_true_r in Hex.
    + apply Hd. rewrite Hoth. intros [(xt & Ex & Hxt) _]. by rewrite (Hex xt Ex) in Hxt.
Qed.
End Requests.

(** ** Runs of the selector *)

Section Runs.
Context {MO : MapOrder}.

(** The calls that change the selector: the requests of the user, a network
    map, and a restart with the saved state. *)
Inductive selector_step : RouteSelector → RouteSelector → Prop :=
| step_select s1 s2 s3 routes ids append rs : selector_step rs (selectRoutes s1 s2 s3 routes ids append rs).1
| step_deselect s1 s2 routes ids rs : selector_step rs (deselectRoutes s1 s2 routes ids rs).1
| step_select_all seeds routes rs : selector_step rs (selectAllRoutes seeds routes rs)
| step_deselect_all rs : selector_step rs (DeselectAllRoutes rs)
| step_network_map seeds routes rs : selector_step rs (updateRouteSelectorFromManagement seeds routes rs)
| step_restart rs : selector_step rs (UnmarshalJSON (MarshalJSON rs)).

Lemma selectRoutes_consistent s1 s2 s3 routes ids append rs :
  consistent rs → consistent (selectRoutes s1 s2 s3 routes ids append rs).1.
Proof.
  intros Hc. unfold selectRoutes. set (m := routes_by_net_id s1 routes).
  pose proof (SelectRoutes_consistent (ExpandV6ExitPairs ids m) append (range_list s2 m).*1 rs Hc) as H1.
  destruct (SelectRoutes _ _ _ _) as [rs1 merr]. cbn [fst] in H1. destruct (requestActivatesExitNode _ _); [|done].
  destruct (0 <? _)%nat; [|done].
  pose proof (DeselectRoutes_consistent (otherExitNodeIDs s3 m (ExpandV6ExitPairs ids m)) (range_list s2 m).*1 rs1 H1) as H2.
  by destruct (DeselectRoutes _ _ _).
Qed.

Lemma step_consistent rs rs' : selector_step rs rs' → consistent rs → consistent rs'.
Proof.
  intros [] Hc.
  - by apply selectRoutes_consistent.
  - by apply DeselectRoutes_consistent.
  - apply update_consistent. unfold consistent, SelectAllRoutes. simpl. set_solver.
  - unfold consistent, DeselectAllRoutes. simpl. set_solver.
  - by apply update_consistent.
  - done.
Qed.

(** Whatever the calls, no route is selected and deselected at once, and the
    state saved to disk comes back as it was. *)
Theorem selector_runs rs :
  rtc selector_step NewRouteSelector rs →
  selectedRoutes rs ## deselectedRoutes rs ∧ UnmarshalJSON (MarshalJSON rs) = rs.
Proof.
  intros Hr. split; [|by destruct rs].
  assert (H : ∀ a b, rtc selector_step a b → consistent a → consistent b).
  { induction 1; eauto using step_consistent. }
  apply (H _ _ Hr). unfold consistent. simpl. set_solver.
Qed.
End Runs.

(** ** Concrete maps for route selection

    Instances of the theorems, and two behaviours that differ from the
    comments of the code. *)

#[local] Existing Instance canonical_order.

Definition exit_route (net : Prefix) (skip : bool) : Route :=
  {| rt_ID := "r"; rt_AccountID := "acc"; rt_Network := net; rt_Domains := None; rt_KeepRoute := false; rt_NetID := "";
     rt_Description := ""; rt_Peer := "key"; rt_PeerID := "p"; rt_PeerGroups := []; rt_NetworkType := 1;
     rt_Masquerade := true; rt_Metric := 9999; rt_Enabled := true; rt_Groups := ["g"]; rt_AccessControlGroups := [];
     rt_SkipAutoApply := skip |}.

Definition v4_default : Prefix := PrefixFrom (AddrV4 0) 0.
Definition v6_default : Prefix := PrefixFrom (AddrV6 0 "") 0.
Definition lan : Prefix := PrefixFrom (AddrV4 167772160) 24.

(** Two exit nodes with their IPv6 pairs, and a network. *)
Definition two_pairs (skip : bool) : gmap string (list Route) :=
  list_to_map [("a|0.0.0.0/0", [exit_route v4_default skip]); ("a-v6|::/0", [exit_route v6_default skip]);
               ("b|0.0.0.0/0", [exit_route v4_default skip]); ("b-v6|::/0", [exit_route v6_default skip]);
               ("lan|10.0.0.0/24", [exit_route lan false])].

(** An update leaves the IPv6 default route of a node it turned off in use
    until the next one: the pairs follow their nodes before the nodes are
    chosen, not after.  The comment of the update, and the one of
    [selectAllRoutes], say that at most one exit node stays active. *)
Theorem exit_pair_leaks :
  let rs := selectAllRoutes (0, 0, 0)%nat (two_pairs false) NewRouteSelector in
  let used := FilterSelectedExitNodes (two_pairs false) rs in
  active (two_pairs false) rs "a" ∧ "b" ∈ deselectedRoutes rs ∧
  is_Some (used !! "a-v6|::/0") ∧ is_Some (used !! "b-v6|::/0") ∧
  let rs2 := updateRouteSelectorFromManagement (0, 0, 0)%nat (two_pairs false) rs in
  FilterSelectedExitNodes (two_pairs false) rs2 !! "b-v6|::/0" = None.
Proof.
  cbv zeta. split.
  { exists ("a|0.0.0.0/0", [exit_route v4_default false]). split; [vm_compute; reflexivity|]. split.
    - split_and!; vm_compute; reflexivity.
    - vm_compute. eexists. reflexivity. }
  split; [apply (bool_decide_unpack _); vm_compute; exact I|].
  split; [vm_compute; eexists; reflexivity|]. split; [vm_compute; eexists; reflexivity|]. vm_compute. reflexivity.
Qed.

(** An update records the wish of management as a choice of the user: a node
    it applied stays in use when management withdraws it, and one it left off
    stays off when management asks for it. *)
Theorem auto_apply_sticks :
  let off := updateRouteSelectorFromManagement (0, 0, 0)%nat (two_pairs true) NewRouteSelector in
  let on := updateRouteSelectorFromManagement (0, 0, 0)%nat (two_pairs false) NewRouteSelector in
  active (two_pairs true) (updateRouteSelectorFromManagement (0, 0, 0)%nat (two_pairs true) on) "a" ∧
  FilterSelectedExitNodes (two_pairs false) (updateRouteSelectorFromManagement (0, 0, 0)%nat (two_pairs false) off)
    !! "a|0.0.0.0/0" = None ∧
  HasUserSelectionForRoute "a" on = true ∧ HasUserSelectionForRoute "a" off = true.
Proof.
  cbv zeta. split; [|split_and!; vm_compute; reflexivity].
  exists ("a|0.0.0.0/0", [exit_route v4_default true]). split; [vm_compute; reflexivity|]. split.
  - split_and!; vm_compute; reflexivity.
  - vm_compute. eexists. reflexivity.
Qed.

(** ** Instances of the theorems *)

Lemma exit_pairs_converge_witness :
  let rs' := updateRouteSelectorFromManagement (0, 0, 0)%nat (two_pairs false) NewRouteSelector in
  let rs'' := updateRouteSelectorFromManagement (0, 0, 0)%nat (two_pairs false) rs' in
  "b-v6" ∈ V6ExitMergeSet (routes_by_net_id 0 (two_pairs false)) ∧ "b" ∈ deselectedRoutes rs'' ∧
  follows rs'' (TrimSuffix "b-v6" V6ExitSuffix) "b-v6".
Proof.
  cbv zeta.
  assert (Hv : "b-v6" ∈ V6ExitMergeSet (routes_by_net_id 0 (two_pairs false))).
  { apply (bool_decide_unpack _). vm_compute. exact I. }
  split; [exact Hv|]. split; [apply (bool_decide_unpack _); vm_compute; exact I|].
  apply (exit_pairs_converge (0, 0, 0)%nat 0 0 0 (two_pairs false) NewRouteSelector); [|reflexivity|exact Hv].
  unfold consistent. simpl. apply disjoint_empty_l.
Defined.

Lemma select_exit_node_witness :
  let rs' := (selectRoutes 0 0 0 (two_pairs true) ["b"; "missing"] true NewRouteSelector).1 in
  chosen rs' "b" ∧ chosen rs' "b-v6" ∧ "a" ∈ deselectedRoutes rs' ∧ "a-v6" ∈ deselectedRoutes rs'.
Proof.
  cbv zeta.
  assert (Em : routes_by_net_id 0 (two_pairs true) !! "b" = Some [exit_route v4_default true]) by (vm_compute; reflexivity).
  destruct (select_exit_node 0 0 0 (two_pairs true) ["b"; "missing"] true NewRouteSelector "b" [exit_route v4_default true])
    as (_ & Hon & Hoff & _); [by left|exact Em|vm_compute; reflexivity|].
  destruct (Hon "b") as [Hb Hp]; [by left|by eexists|]. split; [exact Hb|]. split.
  { apply Hp. exists [exit_route v4_default true], [exit_route v6_default true].
    split; [exact Em|]. split_and!; vm_compute; reflexivity. }
  split.
  - apply (Hoff "a" [exit_route v4_default true]); [vm_compute; reflexivity|vm_compute; reflexivity|apply (bool_decide_unpack _); vm_compute; exact I|].
    apply (proj1 (Forall_forall _ _)), (bool_decide_unpack _). vm_compute. exact I.
  - apply (Hoff "a-v6" [exit_route v6_default true]); [vm_compute; reflexivity|vm_compute; reflexivity|apply (bool_decide_unpack _); vm_compute; exact I|].
    apply (proj1 (Forall_forall _ _)), (bool_decide_unpack _). vm_compute. exact I.
Defined.

Lemma selector_runs_witness :
  let rs := updateRouteSelectorFromManagement (0, 0, 0)%nat (two_pairs false) NewRouteSelector in
  rtc selector_step NewRouteSelector rs ∧ selectedRoutes rs ## deselectedRoutes rs ∧ "a" ∈ selectedRoutes rs.
Proof.
  cbv zeta. assert (Hr : rtc selector_step NewRouteSelector (updateRouteSelectorFromManagement (0, 0, 0)%nat (two_pairs false) NewRouteSelector)).
  { apply rtc_once. apply step_network_map. }
  split; [exact Hr|]. split; [apply (selector_runs _ Hr)|apply (bool_decide_unpack _); vm_compute; exact I].
Defined.
