(* ===== verification/DnsChain.v ===== *)
(** * The DNS handler chain of the client

    [client/internal/dns/handler_chain.go]: handlers registered for patterns
    with priorities, and the dispatch of a query along them.

    Messages and records are those of the DNS library; what the code takes
    from that library is the class [MiekgDns].  A handler is what the chain
    sees of it: whether it matches subdomains, and the messages it writes. *)
From stdpp Require Import sorting.
From S2P Require Import Prelude GoStrings Order.
Open Scope Z_scope.

(** ** Messages *)

Record Question := { q_Name : string; q_Qtype : Z; q_Qclass : Z }.

#[global] Instance Question_eq_dec : EqDecision Question.
Proof. solve_decision. Defined.
#[global] Instance Question_countable : Countable Question.
Proof.
  refine (inj_countable' (λ q, (q_Name q, q_Qtype q, q_Qclass q))
    (λ '(n, t, c), {| q_Name := n; q_Qtype := t; q_Qclass := c |}) _). by intros [].
Defined.

Inductive RData := RD_A (ip : list Z) | RD_AAAA (ip : list Z) | RD_CNAME (target : string) | RD_Other (data : string).

Record RR := { rr_Name : string; rr_Rrtype : Z; rr_Class : Z; rr_Ttl : Z; rr_Rdlength : Z; rr_Data : RData }.

Record Msg := {
  m_Id : Z;
  m_Zero : bool;
  m_Truncated : bool;
  m_Authoritative : bool;
  m_RecursionAvailable : bool;
  m_Rcode : Z;
  m_Question : list Question;
  m_Answer : list RR;
}.

#[global] Instance RData_eq_dec : EqDecision RData.
Proof. solve_decision. Defined.
#[global] Instance RR_eq_dec : EqDecision RR.
Proof. solve_decision. Defined.
#[global] Instance Msg_eq_dec : EqDecision Msg.
Proof. solve_decision. Defined.

Definition RcodeSuccess : Z := 0.
Definition RcodeServerFailure : Z := 2.
Definition RcodeNameError : Z := 3.
Definition RcodeNotImplemented : Z := 4.
Definition RcodeRefused : Z := 5.

(** [NewRR] returns an error, a record, or neither for a text without one. *)
Inductive NewRRResult := RRError | RRNone | RROk (rr : RR).

(** The DNS library: [Fqdn], the text of a record type, the parser of records
    in zone-file form, and the replies to a request. *)
Class MiekgDns := {
  Fqdn : string → string;
  TypeString : Z → string;
  NewRR : string → NewRRResult;
  SetReply : Msg → Msg;
  SetRcode : Msg → Z → Msg;
}.

(** A reply has the code it was made with and none of the reserved bits. *)
Class MiekgDnsSpec (D : MiekgDns) : Prop := {
  SetReply_zero r : m_Zero (SetReply r) = false;
  SetRcode_zero r rc : m_Zero (SetRcode r rc) = false;
  SetRcode_rcode r rc : m_Rcode (SetRcode r rc) = rc;
}.

(** ** Handlers *)

(** The [SubdomainMatcher] interface is optional. *)
Record Handler := { h_Name : string; h_SubdomainMatcher : option bool }.

Record HandlerEntry := {
  e_Handler : Handler;
  e_Priority : Z;
  e_Pattern : string;
  e_OrigPattern : string;
  e_IsWildcard : bool;
  e_MatchSubdomains : bool;
}.

#[global] Instance Handler_eq_dec : EqDecision Handler.
Proof. solve_decision. Defined.
#[global] Instance HandlerEntry_eq_dec : EqDecision HandlerEntry.
Proof. solve_decision. Defined.

Definition PriorityMgmtCache : Z := 150.
Definition PriorityDNSRoute : Z := 100.
Definition PriorityLocal : Z := 75.
Definition PriorityUpstream : Z := 50.
Definition PriorityDefault : Z := 1.
Definition PriorityFallback : Z := -100.

Notation HandlerChain := (list HandlerEntry).

Definition NewHandlerChain : HandlerChain := [].

Definition same_slot (pattern : string) (priority : Z) (e : HandlerEntry) : bool :=
  EqualFold (e_OrigPattern e) pattern && (e_Priority e =? priority).

(** The last entry that passes the test is taken out. *)
Fixpoint remove_last {A} (test : A → bool) (l : list A) : option (list A) :=
  match l with
  | [] => None
  | e :: l' =>
      match remove_last test l' with
      | Some l'' => Some (e :: l'')
      | None => if test e then Some l' else None
      end
  end.

Definition removeEntry (pattern : string) (priority : Z) (c : HandlerChain) : HandlerChain :=
  default c (remove_last (same_slot pattern priority) c).

Definition dots (s : string) : nat := count_char "."%char s.

Fixpoint findHandlerPosition (newEntry : HandlerEntry) (c : HandlerChain) : nat :=
  match c with
  | [] => 0
  | h :: c' =>
      if e_Priority h <? e_Priority newEntry then 0
      else if (e_Priority h =? e_Priority newEntry) && (dots (e_Pattern h) <? dots (e_Pattern newEntry))%nat then 0
      else S (findHandlerPosition newEntry c')
  end.

Section Chain.
Context {D : MiekgDns}.

Definition mkEntry (pattern : string) (handler : Handler) (priority : Z) : HandlerEntry :=
  let pattern := ToLower (Fqdn pattern) in
  let isWildcard := HasPrefix pattern "*." in
  {| e_Handler := handler;
     e_Priority := priority;
     e_Pattern := if isWildcard then String.substring 2 (String.length pattern - 2) pattern else pattern;
     e_OrigPattern := pattern;
     e_IsWildcard := isWildcard;
     e_MatchSubdomains := default false (h_SubdomainMatcher handler) |}.

Definition AddHandler (pattern : string) (handler : Handler) (priority : Z) (c : HandlerChain) : HandlerChain :=
  let entry := mkEntry pattern handler priority in
  let c := removeEntry (e_OrigPattern entry) priority c in
  let pos := findHandlerPosition entry c in
  take pos c ++ [entry] ++ drop pos c.

Definition RemoveHandler (pattern : string) (priority : Z) (c : HandlerChain) : HandlerChain :=
  removeEntry (Fqdn pattern) priority c.

Definition isHandlerMatch (qname : string) (entry : HandlerEntry) : bool :=
  if String.eqb (e_Pattern entry) "." then true
  else if e_IsWildcard entry then HasSuffix qname ("." +:+ e_Pattern entry)
  else if e_MatchSubdomains entry
  then EqualFold qname (e_Pattern entry) || HasSuffix qname ("." +:+ e_Pattern entry)
  else EqualFold qname (e_Pattern entry).

(** ** Dispatch *)

(** What a handler sees of the writer, and what it passes on. *)
Record ResponseWriterChain := {
  cw_shouldContinue : bool;
  cw_response : option Msg;
  cw_meta : gmap string string;
  cw_written : list Msg;
}.

Definition SetMeta (key value : string) (w : ResponseWriterChain) : ResponseWriterChain :=
  {| cw_shouldContinue := cw_shouldContinue w; cw_response := cw_response w;
     cw_meta := <[key := value]> (cw_meta w); cw_written := cw_written w |}.

Definition WriteMsg (m : Msg) (w : ResponseWriterChain) : ResponseWriterChain :=
  if (m_Rcode m =? RcodeNameError) && m_Zero m then
    {| cw_shouldContinue := true; cw_response := cw_response w; cw_meta := cw_meta w; cw_written := cw_written w |}
  else
    let w := {| cw_shouldContinue := cw_shouldContinue w; cw_response := Some m; cw_meta := cw_meta w;
                cw_written := cw_written w |} in
    let w := if m_Truncated m then SetMeta "truncated" "true" w else w in
    {| cw_shouldContinue := cw_shouldContinue w; cw_response := cw_response w; cw_meta := cw_meta w;
       cw_written := cw_written w ++ [m] |}.

Definition newWriter : ResponseWriterChain :=
  {| cw_shouldContinue := false; cw_response := None; cw_meta := ∅; cw_written := [] |}.

(** A handler runs: it writes its messages in turn. *)
Definition serve_with (msgs : list Msg) : ResponseWriterChain := foldl (λ w m, WriteMsg m w) newWriter msgs.

(** The trace of a dispatch: the handlers it asks and what reaches the client. *)
Inductive Event := Asked (e : HandlerEntry) | Wrote (m : Msg).

Section Dispatch.
(** What each entry's handler writes in answer to the request. *)
Context (serve : HandlerEntry → list Msg).

Fixpoint try_handlers (qname : string) (maxPriority : Z) (r : Msg) (handlers : list HandlerEntry) : list Event :=
  match handlers with
  | [] => [Wrote (SetRcode r RcodeRefused)]
  | entry :: rest =>
      if maxPriority <? e_Priority entry then try_handlers qname maxPriority r rest
      else if negb (isHandlerMatch qname entry) then try_handlers qname maxPriority r rest
      else
        let chainWriter := serve_with (serve entry) in
        Asked entry :: (Wrote <$> cw_written chainWriter) ++
        (if cw_shouldContinue chainWriter then try_handlers qname maxPriority r rest else [])
  end.

Definition dispatch (r : Msg) (maxPriority : Z) (c : HandlerChain) : list Event :=
  match m_Question r with
  | [] => []
  | question :: _ => try_handlers (ToLower (q_Name question)) maxPriority r c
  end.

Definition maxInt : Z := 2 ^ 63 - 1.

Definition ServeDNS (r : Msg) (c : HandlerChain) : list Event := dispatch r maxInt c.

(** The last message written, if the query is not cancelled before the end. *)
Definition written (ev : list Event) : list Msg := omap (λ e, match e with Wrote m => Some m | _ => None end) ev.

Definition ResolveInternal (r : Msg) (maxPriority : Z) (c : HandlerChain) : option Msg :=
  match m_Question r with
  | [] => None
  | _ =>
      match last (written (dispatch r maxPriority c)) with
      | Some m => if m_Rcode m =? RcodeRefused then None else Some m
      | None => None
      end
  end.
End Dispatch.

Definition HasRootHandlerAtOrBelow (maxPriority : Z) (c : HandlerChain) : bool :=
  existsb (λ h, String.eqb (e_Pattern h) "." && (e_Priority h <=? maxPriority)) c.

(** ** Calls *)

Inductive ChainOp := OpAdd (pattern : string) (handler : Handler) (priority : Z) | OpRemove (pattern : string) (priority : Z).

Definition chain_op (c : HandlerChain) (op : ChainOp) : HandlerChain :=
  match op with
  | OpAdd pattern handler priority => AddHandler pattern handler priority c
  | OpRemove pattern priority => RemoveHandler pattern priority c
  end.

Definition chain_run (ops : list ChainOp) : HandlerChain := foldl chain_op NewHandlerChain ops.

(** ** The registry

    What the calls mean: the entries in the order of their registration, one
    for a pattern and a priority. *)
Definition registry_op (reg : list HandlerEntry) (op : ChainOp) : list HandlerEntry :=
  match op with
  | OpAdd pattern handler priority =>
      filter (λ e, same_slot (Fqdn pattern) priority e = false) reg ++ [mkEntry pattern handler priority]
  | OpRemove pattern priority => filter (λ e, same_slot (Fqdn pattern) priority e = false) reg
  end.

Definition registry (ops : list ChainOp) : list HandlerEntry := foldl registry_op [] ops.

(** Higher priority first, then more labels. *)
Definition outranks (e e' : HandlerEntry) : Prop :=
  e_Priority e' < e_Priority e ∨ e_Priority e' = e_Priority e ∧ (dots (e_Pattern e') < dots (e_Pattern e))%nat.

Definition same_rank (e e' : HandlerEntry) : Prop :=
  e_Priority e = e_Priority e' ∧ dots (e_Pattern e) = dots (e_Pattern e').
End Chain.

(** ** Facts on the DNS handler chain

    The chain is the registry, sorted by rank and stable; a query is answered
    by the best registered handler that does not pass it on. *)

(** ** Lists *)

Lemma remove_last_none {A} (test : A → bool) l : Forall (λ e, test e = false) l → remove_last test l = None.
Proof. induction 1 as [|e l He _ IH]; [done|]. cbn [remove_last]. by rewrite IH, He. Qed.

(** With keys that are not repeated the last match is the only one. *)
Lemma remove_last_unique {A K} (key : A → K) (test : A → bool) l :
  NoDup (key <$> l) → (∀ x y, x ∈ l → y ∈ l → test x = true → test y = true → key x = key y) →
  default l (remove_last test l) = filter (λ e, test e = false) l.
Proof.
  intros Hnd Hk. induction l as [|e l IH]; [done|]. cbn [remove_last]. rewrite fmap_cons in Hnd. apply NoDup_cons in Hnd as [Hn Hnd].
  rewrite filter_cons. destruct (test e) eqn:Te.
  - assert (Hl : Forall (λ e, test e = false) l).
    { apply Forall_forall. intros x Hx. destruct (test x) eqn:Tx; [|done]. exfalso. apply Hn.
      rewrite (Hk e x) by (done || by constructor). apply list_elem_of_fmap. by exists x. }
    rewrite (remove_last_none test l Hl). rewrite decide_False by done. cbn. symmetry. by apply filter_all_id.
  - rewrite decide_True by done. rewrite <- IH; [|done|].
    + by destruct (remove_last test l).
    + intros x y Hx Hy. apply Hk; by constructor.
Qed.

Lemma StronglySorted_insert {A} (R : A → A → Prop) l1 x l2 :
  StronglySorted R (l1 ++ l2) → Forall (λ y, R y x) l1 → Forall (R x) l2 → StronglySorted R (l1 ++ x :: l2).
Proof.
  induction l1 as [|y l1 IH]; cbn [app]; intros Hs H1 H2.
  - by constructor.
  - apply StronglySorted_inv in Hs as [Hs Hy]. apply Forall_cons in H1 as [Hyx H1]. constructor; [by apply IH|].
    apply Forall_app in Hy as [Hy1 Hy2]. apply Forall_app. split; [done|]. by constructor.
Qed.

(** ** Ranks *)

Section Facts.
Context {D : MiekgDns}.
Implicit Types e : HandlerEntry.

#[global] Instance same_rank_dec x e : Decision (same_rank x e).
Proof. unfold same_rank. apply _. Defined.

Notation in_order := (λ a b : HandlerEntry, ¬ outranks b a).

Lemma position_spec e c :
  StronglySorted in_order c →
  Forall (λ h, ¬ outranks e h) (take (findHandlerPosition e c) c) ∧
  Forall (λ h, outranks e h) (drop (findHandlerPosition e c) c).
Proof.
  induction c as [|h c IH]; intros Hs; [by rewrite take_nil, drop_nil|].
  apply StronglySorted_inv in Hs as [Hs Hh]. cbn [findHandlerPosition].
  assert (Hcase : outranks e h → Forall (λ h, outranks e h) (h :: c)).
  { intros Ho. constructor; [done|]. eapply Forall_impl; [exact Hh|]. intros x Hx. unfold outranks in *. lia. }
  destruct (e_Priority h <? e_Priority e) eqn:E1.
  { split; [constructor|]. apply Hcase. left. lia. }
  destruct ((e_Priority h =? e_Priority e) && (dots (e_Pattern h) <? dots (e_Pattern e))%nat) eqn:E2.
  { apply andb_true_iff in E2 as [E2 E3]. apply Nat.ltb_lt in E3. split; [constructor|]. apply Hcase. right. lia. }
  cbn [take drop]. destruct (IH Hs) as [I1 I2]. split; [|done]. constructor; [|done].
  unfold outranks. apply andb_false_iff in E2 as [E2|E2%Nat.ltb_ge]; lia.
Qed.

(** ** The chain and the registry *)

Definition slot e : string * Z := (e_OrigPattern e, e_Priority e).

Record chain_inv (reg c : list HandlerEntry) : Prop := {
  ci_sorted : StronglySorted in_order c;
  ci_ranks x : filter (same_rank x) c = filter (same_rank x) reg;
  ci_slots : NoDup (slot <$> c);
  ci_lower : Forall (λ e, ToLower (e_OrigPattern e) = e_OrigPattern e) c;
}.

Lemma same_slot_lower p pr e :
  ToLower (e_OrigPattern e) = e_OrigPattern e → same_slot p pr e = true ↔ slot e = (ToLower p, pr).
Proof.
  intros Hl. unfold same_slot, slot, EqualFold. rewrite Hl, andb_true_iff, String.eqb_eq, Z.eqb_eq.
  split; [intros [-> ->]; done|by intros [= -> ->]].
Qed.

Lemma removeEntry_filter p pr reg c :
  chain_inv reg c → removeEntry p pr c = filter (λ e, same_slot p pr e = false) c.
Proof.
  intros [_ _ Hn Hl]. unfold removeEntry. apply (remove_last_unique slot); [done|].
  intros x y Hx Hy Tx Ty. rewrite Forall_forall in Hl.
  apply same_slot_lower in Tx, Ty; [congruence|by apply Hl..].
Qed.

Lemma filter_comm' {A} (P Q : A → Prop) `{∀ x, Decision (P x)} `{∀ x, Decision (Q x)} (l : list A) :
  filter P (filter Q l) = filter Q (filter P l).
Proof. rewrite !list_filter_filter. apply list_filter_iff. intros x. tauto. Qed.

Lemma remove_inv p pr reg c :
  chain_inv reg c → chain_inv (filter (λ e, same_slot p pr e = false) reg) (removeEntry p pr c).
Proof.
  intros Hi. rewrite (removeEntry_filter _ _ _ _ Hi). destruct Hi as [Hs Hr Hn Hl]. split.
  - by apply StronglySorted_filter'.
  - intros x. by rewrite filter_comm', Hr, filter_comm'.
  - eapply sublist_NoDup; [exact Hn|]. apply fmap_sublist, sublist_filter.
  - apply Forall_forall. intros e [_ He]%list_elem_of_filter. by eapply Forall_forall in Hl.
Qed.

Lemma mkEntry_slot p h pr : slot (mkEntry p h pr) = (ToLower (Fqdn p), pr).
Proof. reflexivity. Qed.

Lemma mkEntry_lower p h pr : ToLower (e_OrigPattern (mkEntry p h pr)) = e_OrigPattern (mkEntry p h pr).
Proof. apply ToLower_idemp. Qed.

Lemma insert_inv e reg c :
  chain_inv reg c → slot e ∉ slot <$> c → ToLower (e_OrigPattern e) = e_OrigPattern e →
  let pos := findHandlerPosition e c in chain_inv (reg ++ [e]) (take pos c ++ [e] ++ drop pos c).
Proof.
  intros [Hs Hr Hn Hl] Hsl He pos. destruct (position_spec e c Hs) as [P1 P2]. fold pos in P1, P2. cbn [app]. split.
  - apply StronglySorted_insert; [by rewrite take_drop|done|]. eapply Forall_impl; [exact P2|]. intros x Hx. unfold outranks in *. lia.
  - intros x. rewrite !filter_app, <- Hr, !filter_cons, filter_nil.
    assert (Hc : filter (same_rank x) c = filter (same_rank x) (take pos c) ++ filter (same_rank x) (drop pos c))
      by (by rewrite <- filter_app, take_drop).
    rewrite Hc. destruct (decide (same_rank x e)) as [Hx|Hx]; [|by rewrite app_nil_r].
    rewrite (filter_none_nil (same_rank x) (drop pos c)); [by rewrite app_nil_r|].
    eapply Forall_impl; [exact P2|]. intros y Hy. unfold outranks, same_rank in *. lia.
  - assert (Hp : take pos c ++ e :: drop pos c ≡ₚ e :: c) by (by rewrite <- Permutation_middle, take_drop).
    rewrite Hp, fmap_cons. by apply NoDup_cons.
  - apply Forall_app. rewrite <- (take_drop pos c) in Hl. apply Forall_app in Hl as [L1 L2]. split; [done|]. by constructor.
Qed.

Lemma chain_inv_elem reg c e : chain_inv reg c → e ∈ c ↔ e ∈ reg.
Proof.
  intros [_ Hr _ _]. specialize (Hr e). split; intros He.
  - assert (H : e ∈ filter (same_rank e) c) by (by apply list_elem_of_filter). rewrite Hr in H. by apply list_elem_of_filter in H as [_ H].
  - assert (H : e ∈ filter (same_rank e) reg) by (by apply list_elem_of_filter). rewrite <- Hr in H. by apply list_elem_of_filter in H as [_ H].
Qed.

Lemma op_inv op reg c : chain_inv reg c → chain_inv (registry_op reg op) (chain_op c op).
Proof.
  intros Hi. destruct op as [p h pr|p pr]; cbn [registry_op chain_op]; [|by apply remove_inv].
  unfold AddHandler. cbv zeta.
  assert (Hf : filter (λ e, same_slot (Fqdn p) pr e = false) reg =
               filter (λ e, same_slot (e_OrigPattern (mkEntry p h pr)) pr e = false) reg).
  { apply list_filter_iff. intros e. unfold same_slot, EqualFold. by rewrite mkEntry_lower. }
  rewrite Hf. pose proof (remove_inv (e_OrigPattern (mkEntry p h pr)) pr reg c Hi) as Hi'.
  apply insert_inv; [exact Hi'| |apply mkEntry_lower].
  rewrite (removeEntry_filter _ _ _ _ Hi). intros (e & Ee & [Hno He]%list_elem_of_filter)%list_elem_of_fmap.
  destruct Hi as [_ _ _ Hl]. rewrite Forall_forall in Hl. rewrite mkEntry_slot in Ee.
  assert (Ht : same_slot (e_OrigPattern (mkEntry p h pr)) pr e = true); [|congruence].
  apply same_slot_lower; [by apply Hl|]. by rewrite mkEntry_lower, <- Ee.
Qed.

Lemma chain_run_inv ops : chain_inv (registry ops) (chain_run ops).
Proof.
  unfold registry, chain_run. induction ops as [|op ops IH] using rev_ind.
  - split; [constructor|done|constructor|constructor].
  - rewrite !foldl_snoc. by apply op_inv.
Qed.

(** ** Dispatch *)

Definition candidate (qname : string) (maxPriority : Z) e : Prop :=
  e_Priority e <= maxPriority ∧ isHandlerMatch qname e = true.

#[global] Instance candidate_dec qname maxPriority e : Decision (candidate qname maxPriority e).
Proof. unfold candidate. apply _. Defined.

(** A continue signal is among what the handler writes. *)
Definition signal (m : Msg) : bool := (m_Rcode m =? RcodeNameError) && m_Zero m.
Definition passes_on (msgs : list Msg) : Prop := Exists (λ m, signal m = true) msgs.

Lemma serve_with_spec msgs :
  (cw_shouldContinue (serve_with msgs) = true ↔ passes_on msgs) ∧
  cw_written (serve_with msgs) = filter (λ m, signal m = false) msgs.
Proof.
  unfold serve_with, passes_on. induction msgs as [|m msgs [I1 I2]] using rev_ind.
  { cbn. split; [split; [done|]|done]. intros H. by apply Exists_nil in H. }
  rewrite foldl_snoc. set (w := foldl _ _ msgs) in *. clearbody w. rewrite Exists_app, Exists_cons, Exists_nil, <- I1, filter_app, <- I2.
  unfold WriteMsg. fold (signal m). destruct (signal m) eqn:Em.
  - rewrite filter_cons_False, filter_nil, app_nil_r by congruence. cbn. intuition done.
  - rewrite filter_cons_True, filter_nil by done. destruct (m_Truncated m); cbn; intuition congruence.
Qed.

Lemma not_passing msgs : ¬ passes_on msgs → cw_shouldContinue (serve_with msgs) = false ∧ cw_written (serve_with msgs) = msgs.
Proof.
  intros Hn. destruct (serve_with_spec msgs) as [H1 ->]. split; [by destruct (cw_shouldContinue _); [tauto|]|].
  apply filter_all_id. apply Forall_forall. intros m Hm. destruct (signal m) eqn:E; [|done]. exfalso. apply Hn.
  apply Exists_exists. by exists m.
Qed.

(** One comes before the other. *)
Definition before {A} (l : list A) (x y : A) : Prop := ∃ i j, (i < j)%nat ∧ l !! i = Some x ∧ l !! j = Some y.

Lemma before_cons {A} (l : list A) z x y : before (z :: l) x y ↔ z = x ∧ y ∈ l ∨ before l x y.
Proof.
  split.
  - intros ([|i] & [|j] & Hij & Hi & Hj); [lia| |lia|]; cbn in Hi, Hj.
    + left. split; [congruence|]. apply list_elem_of_lookup. by exists j.
    + right. exists i, j. split; [lia|done].
  - intros [[-> [j Hj]%list_elem_of_lookup]|(i & j & Hij & Hi & Hj)].
    + exists 0%nat, (S j). split; [lia|done].
    + exists (S i), (S j). split; [lia|done].
Qed.

Lemma before_sublist {A} (l l' : list A) x y : l `sublist_of` l' → before l x y → before l' x y.
Proof.
  induction 1 as [|z l l' Hs IH|z l l' Hs IH]; [done| |].
  - rewrite !before_cons. intros [[-> Hy]|Hb]; [left|right; by apply IH]. split; [done|].
    by eapply elem_of_sublist.
  - rewrite before_cons. auto.
Qed.

Lemma before_filter {A} (P : A → Prop) `{∀ x, Decision (P x)} (l : list A) x y :
  P x → P y → before l x y → before (filter P l) x y.
Proof.
  intros Hx Hy (i & j & Hij & Hi & Hj).
  rewrite <- (take_drop_middle l j y Hj), filter_app, filter_cons_True by done.
  assert (Hin : x ∈ filter P (take j l)).
  { apply list_elem_of_filter. split; [done|]. apply list_elem_of_lookup. exists i. by rewrite lookup_take_lt. }
  apply list_elem_of_lookup in Hin as [i' Hi']. pose proof (lookup_lt_Some _ _ _ Hi') as Hlt.
  exists i', (length (filter P (take j l))). split; [done|]. split.
  - by apply lookup_app_l_Some.
  - by rewrite lookup_app_r, Nat.sub_diag by done.
Qed.

Section Query.
Context (serve : HandlerEntry → list Msg) (r : Msg) (maxPriority : Z).

(** The events of handlers that pass the query on. *)
Definition asked_of (qname : string) (l : list HandlerEntry) : list Event :=
  l ≫= λ e, if decide (candidate qname maxPriority e) then Asked e :: (Wrote <$> cw_written (serve_with (serve e))) else [].

Lemma try_cons qname e l :
  try_handlers serve qname maxPriority r (e :: l) =
  if decide (candidate qname maxPriority e) then
    Asked e :: (Wrote <$> cw_written (serve_with (serve e))) ++
    (if cw_shouldContinue (serve_with (serve e)) then try_handlers serve qname maxPriority r l else [])
  else try_handlers serve qname maxPriority r l.
Proof.
  cbn [try_handlers]. destruct (maxPriority <? e_Priority e) eqn:E1.
  { rewrite decide_False; [done|]. intros [H _]. lia. }
  destruct (isHandlerMatch qname e) eqn:E2; cbn [negb].
  - rewrite decide_True; [done|]. split; [lia|done].
  - rewrite decide_False; [done|]. intros [_ H]. congruence.
Qed.

Lemma try_passed qname a b :
  (∀ e, e ∈ a → candidate qname maxPriority e → passes_on (serve e)) →
  try_handlers serve qname maxPriority r (a ++ b) = asked_of qname a ++ try_handlers serve qname maxPriority r b.
Proof.
  induction a as [|e a IH]; intros Ha; [done|]. cbn [app]. rewrite try_cons. unfold asked_of. rewrite bind_cons.
  fold (asked_of qname a). rewrite IH by (intros; apply Ha; [by constructor|done]).
  destruct (decide _) as [Hc|]; [|done].
  assert (Hp : cw_shouldContinue (serve_with (serve e)) = true) by (apply serve_with_spec, Ha; [by constructor|done]).
  rewrite Hp. cbn [app]. by rewrite (assoc_L (++)).
Qed.

Lemma asked_elem qname a e :
  Asked e ∈ asked_of qname a ↔ e ∈ a ∧ candidate qname maxPriority e.
Proof.
  unfold asked_of. rewrite list_elem_of_bind. split.
  - intros (x & Hx & Hin). destruct (decide _) as [Hc|]; [|by apply elem_of_nil in Hx].
    apply elem_of_cons in Hx as [[= ->]|Hx]; [done|]. apply list_elem_of_fmap in Hx as (m & [=] & _).
  - intros [Hin Hc]. exists e. rewrite decide_True by done. split; [by constructor|done].
Qed.

(** Nothing is asked after an entry that ends the query. *)
Lemma asked_upto qname a e b e' :
  candidate qname maxPriority e → ¬ passes_on (serve e) →
  Asked e' ∈ try_handlers serve qname maxPriority r (a ++ e :: b) → e' ∈ a ∨ e' = e.
Proof.
  intros Hc Hn. assert (Hw : ∀ l : list Msg, Asked e' ∉ Wrote <$> l).
  { intros l (m & [=] & _)%list_elem_of_fmap. }
  induction a as [|x a IH]; cbn [app]; rewrite try_cons.
  - rewrite decide_True by done. destruct (not_passing _ Hn) as [-> _]. rewrite app_nil_r.
    intros [[= ->]|Hin]%elem_of_cons; [by right|by apply Hw in Hin].
  - destruct (decide _).
    + intros [[= ->]|[Hin%Hw|Hin]%elem_of_app]%elem_of_cons; [left; by constructor|done|].
      destruct (cw_shouldContinue _); [|by apply elem_of_nil in Hin]. destruct (IH Hin); [left; by constructor|by right].
    + intros Hin. destruct (IH Hin); [left; by constructor|by right].
Qed.

Lemma first_stop qname l :
  (∀ e, e ∈ l → candidate qname maxPriority e → passes_on (serve e)) ∨
  ∃ a e b, l = a ++ e :: b ∧ candidate qname maxPriority e ∧ ¬ passes_on (serve e) ∧
    ∀ e', e' ∈ a → candidate qname maxPriority e' → passes_on (serve e').
Proof.
  induction l as [|e l IH]; [left; intros e He; by apply elem_of_nil in He|].
  destruct (decide (candidate qname maxPriority e)) as [Hc|Hc].
  { assert (Hd : Decision (passes_on (serve e))) by (unfold passes_on; apply _).
    destruct Hd as [Hp|Hp]; cycle 1.
    { right. exists [], e, l. split_and!; [done|done|done|]. intros e' He'. by apply elem_of_nil in He'. }
    destruct IH as [IH|(a & x & b & -> & Hx & Hnx & Ha)].
    - left. intros e' [->|He']%elem_of_cons; auto.
    - right. exists (e :: a), x, b. split_and!; [done|done|done|]. intros e' [->|He']%elem_of_cons; auto. }
  destruct IH as [IH|(a & x & b & -> & Hx & Hnx & Ha)].
  - left. intros e' [->|He']%elem_of_cons; [done|auto].
  - right. exists (e :: a), x, b. split_and!; [done|done|done|]. intros e' [->|He']%elem_of_cons; [done|auto].
Qed.
End Query.

(** Of the handlers that would end the query, the one of the highest rank,
    and of those the one registered first. *)
Definition best (reg : list HandlerEntry) (ends : HandlerEntry → Prop) e : Prop :=
  e ∈ reg ∧ ends e ∧ ∀ e', e' ∈ reg → ends e' → e' = e ∨ outranks e e' ∨ same_rank e e' ∧ before reg e e'.

(** What comes before an entry of the chain ranks before it. *)
Lemma chain_earlier reg c a e b e' :
  chain_inv reg c → c = a ++ e :: b → e' ∈ a → outranks e' e ∨ same_rank e' e ∧ before reg e' e.
Proof.
  intros [Hs Hr _ _] Hc Ha.
  assert (Hord : ¬ outranks e e').
  { rewrite Hc in Hs. clear -Hs Ha. induction a as [|y a IH]; [by apply elem_of_nil in Ha|]. cbn [app] in Hs.
    apply StronglySorted_inv in Hs as [Hs Hf]. apply elem_of_cons in Ha as [->|Ha]; [|by apply IH].
    rewrite Forall_forall in Hf. apply Hf, elem_of_app. right. by constructor. }
  destruct (decide (same_rank e' e)) as [Hsr|Hsr]; [right; split; [done|]|left; unfold outranks, same_rank in *; lia].
  apply (before_sublist (filter (same_rank e') reg)); [apply sublist_filter|]. rewrite <- Hr.
  apply before_filter; [by unfold same_rank|done|]. apply list_elem_of_lookup in Ha as [i Hi].
  exists i, (length a). rewrite Hc. split; [by eapply lookup_lt_Some|]. split; [by apply lookup_app_l_Some|].
  by rewrite lookup_app_r, Nat.sub_diag by done.
Qed.

Lemma chain_best reg c a e b ends :
  chain_inv reg c → c = a ++ e :: b → ends e → (∀ e', e' ∈ a → ¬ ends e') → best reg ends e.
Proof.
  intros Hi Hc He Ha. assert (Hin : ∀ x, x ∈ c ↔ x ∈ reg) by (intros; by apply chain_inv_elem).
  split; [apply Hin; rewrite Hc; apply elem_of_app; right; by constructor|]. split; [done|].
  intros e' Hreg He'. apply Hin in Hreg. rewrite Hc in Hreg. apply elem_of_app in Hreg as [Hx|[->|Hb]%elem_of_cons];
    [by destruct (Ha e')|by left|right].
  apply list_elem_of_split in Hb as (b1 & b2 & ->).
  apply (chain_earlier reg c (a ++ e :: b1) e' b2); [done| |apply elem_of_app; right; by constructor].
  by rewrite Hc, <- (assoc_L (++)).
Qed.

(** C24. Every query is answered by the best registered handler that matches it,
    within the priority bound, and does not pass it on: the highest priority,
    then the most dots in the pattern, then the first registered; only handlers
    that pass it on are asked before, and without such a handler the query is
    refused after all that match were asked.  Replaced and removed handlers
    are never asked. *)
Theorem dispatch_best ops serve r q qs maxPriority :
  m_Question r = q :: qs →
  let qname := ToLower (q_Name q) in
  let reg := registry ops in
  let ends e := candidate qname maxPriority e ∧ ¬ passes_on (serve e) in
  ∃ ev0,
    (∀ e, Asked e ∈ ev0 → e ∈ reg ∧ candidate qname maxPriority e ∧ passes_on (serve e)) ∧
    ((∃ e, best reg ends e ∧ dispatch serve r maxPriority (chain_run ops) = ev0 ++ Asked e :: (Wrote <$> serve e)) ∨
     (∀ e, e ∈ reg → candidate qname maxPriority e → Asked e ∈ ev0 ∧ passes_on (serve e)) ∧
     dispatch serve r maxPriority (chain_run ops) = ev0 ++ [Wrote (SetRcode r RcodeRefused)]).
Proof.
  intros Hq qname reg ends. unfold dispatch. rewrite Hq. fold qname. pose proof (chain_run_inv ops) as Hi. fold reg in Hi.
  set (c := chain_run ops) in *. clearbody c.
  assert (Hin : ∀ e, e ∈ c ↔ e ∈ reg) by (intros; by apply chain_inv_elem).
  destruct (first_stop serve maxPriority qname c) as [Hall|(a & e & b & Hc & Hce & Hne & Ha)].
  - exists (asked_of serve maxPriority qname c). split.
    { intros e [He Hce]%asked_elem. split_and!; [by apply Hin|done|by apply Hall]. }
    right. split; [intros e He%Hin Hce; split; [by apply asked_elem|by apply Hall]|].
    pose proof (try_passed serve r maxPriority qname c [] Hall) as H. by rewrite app_nil_r in H.
  - exists (asked_of serve maxPriority qname a). split.
    { intros x [Hx Hcx]%asked_elem. split_and!; [|done|by apply Ha]. apply Hin. rewrite Hc. apply elem_of_app. by left. }
    left. exists e. split.
    { apply (chain_best reg c a e b); [done|done|done|]. intros e' He' [Hc' Hn']. by apply Hn', Ha. }
    rewrite Hc, try_passed by done. f_equal. rewrite try_cons, decide_True by done.
    destruct (not_passing _ Hne) as [-> ->]. by rewrite app_nil_r.
Qed.

(** After a handler that ends the query only those ranked before it have been
    asked. *)
Lemma dispatch_stops ops serve r q qs maxPriority e :
  m_Question r = q :: qs → e ∈ registry ops → candidate (ToLower (q_Name q)) maxPriority e → ¬ passes_on (serve e) →
  ∀ e', Asked e' ∈ dispatch serve r maxPriority (chain_run ops) →
    e' = e ∨ outranks e' e ∨ same_rank e' e ∧ before (registry ops) e' e.
Proof.
  intros Hq He Hc Hn e' Ha. unfold dispatch in Ha. rewrite Hq in Ha. pose proof (chain_run_inv ops) as Hi.
  apply (chain_inv_elem _ _ _ Hi) in He. apply list_elem_of_split in He as (a & b & Eab).
  rewrite Eab in Ha. apply asked_upto in Ha as [Ha| ->]; [right|by left|done|done].
  by eapply chain_earlier.
Qed.
End Facts.
