(* ===== verification/DnsLocal.v ===== *)
(** * The local DNS resolver of the client

    [client/internal/dns/local/local.go] and what it uses of [dns/dns.go] and
    [client/internal/dns/resutil/resolve.go]: the records of the custom zones,
    wildcards, CNAME chains, response codes and the filter for disconnected
    peers.

    The host resolver is an argument.  A panic (a record text without a
    record) is [None]. *)
From S2P Require Import Prelude NetIP Bytes GoStrings DnsChain.
Open Scope Z_scope.

Definition TypeA : Z := 1.
Definition TypeNS : Z := 2.
Definition TypeCNAME : Z := 5.
Definition TypeSOA : Z := 6.
Definition TypeAAAA : Z := 28.
Definition ClassINET : Z := 1.

(** ** Records of the configuration *)

Record SimpleRecord := { sr_Name : string; sr_Type : Z; sr_Class : string; sr_TTL : Z; sr_RData : string }.

Record CustomZone := {
  z_Domain : string;
  z_Records : list SimpleRecord;
  z_SearchDomainDisabled : bool;
  z_NonAuthoritative : bool;
}.

Definition sr_Len (s : SimpleRecord) : Z :=
  let emptyString := String.eqb (sr_RData s) "" in
  if sr_Type s =? TypeA then (if emptyString then 0 else 4)
  else if sr_Type s =? TypeCNAME then
    (if emptyString || String.eqb (sr_RData s) "." then 1 else uint 16 (Z.of_nat (String.length (sr_RData s)) + 1))
  else if sr_Type s =? TypeAAAA then (if emptyString then 0 else 16)
  else 0.

Definition with_rdlength (rr : RR) (n : Z) : RR :=
  {| rr_Name := rr_Name rr; rr_Rrtype := rr_Rrtype rr; rr_Class := rr_Class rr; rr_Ttl := rr_Ttl rr; rr_Rdlength := n;
     rr_Data := rr_Data rr |}.

Definition with_name (rr : RR) (name : string) : RR :=
  {| rr_Name := name; rr_Rrtype := rr_Rrtype rr; rr_Class := rr_Class rr; rr_Ttl := rr_Ttl rr;
     rr_Rdlength := rr_Rdlength rr; rr_Data := rr_Data rr |}.

(** ** The resolver *)

Record Resolver := {
  records : gmap Question (list RR);
  domains : gset string;
  zones : gmap string bool;
}.

Definition NewResolver : Resolver := {| records := ∅; domains := ∅; zones := ∅ |}.

(** [Stop]. *)
Definition Stop (d : Resolver) : Resolver := {| records := ∅; domains := ∅; zones := ∅ |}.

Section Local.
Context {D : MiekgDns}.

Definition sr_String (s : SimpleRecord) : string :=
  Fqdn (sr_Name s) +:+ " " +:+ pretty (sr_TTL s) +:+ " " +:+ sr_Class s +:+ " " +:+ TypeString (sr_Type s) +:+ " " +:+
  sr_RData s.

Definition rr_question (rr : RR) : Question :=
  {| q_Name := ToLower (Fqdn (rr_Name rr)); q_Qtype := rr_Rrtype rr; q_Qclass := rr_Class rr |}.

Definition store_record (rr : RR) (d : Resolver) : Resolver :=
  let q := rr_question rr in
  {| records := <[q := default [] (records d !! q) ++ [rr]]> (records d); domains := {[q_Name q]} ∪ domains d;
     zones := zones d |}.

(** The state and whether the record was stored. *)
Definition registerRecord (record : SimpleRecord) (d : Resolver) : option (Resolver * bool) :=
  match NewRR (sr_String record) with
  | RRError => Some (d, false)
  | RRNone => None
  | RROk rr => Some (store_record (with_rdlength rr (sr_Len record)) d, true)
  end.

Definition RegisterRecord := registerRecord.

Definition register_zone (d : Resolver) (zone : CustomZone) : option Resolver :=
  let d := {| records := records d; domains := domains d;
              zones := <[ToLower (Fqdn (z_Domain zone)) := z_NonAuthoritative zone]> (zones d) |} in
  foldl (λ acc rec, d ← acc; fst <$> registerRecord rec d) (Some d) (z_Records zone).

Definition Update (customZones : list CustomZone) (d : Resolver) : option Resolver :=
  foldl (λ acc zone, d ← acc; register_zone d zone) (Some {| records := ∅; domains := ∅; zones := ∅ |}) customZones.

(** ** Zones and wildcards *)

(** The zones of the proper parents of a name. *)
Fixpoint parent_zone (zs : gmap string bool) (qname : string) : option bool :=
  match qname with
  | EmptyString => None
  | String c parent =>
      if Ascii.eqb c "."%char then
        if String.eqb parent "" then None
        else match zs !! parent with Some nonAuth => Some nonAuth | None => parent_zone zs parent end
      else parent_zone zs parent
  end.

(** [Some nonAuthoritative] when a zone is found. *)
Definition findZone (qname : string) (d : Resolver) : option bool :=
  let qname := ToLower (Fqdn qname) in
  match zones d !! qname with Some nonAuth => Some nonAuth | None => parent_zone (zones d) qname end.

Definition shouldFallthrough (qname : string) (d : Resolver) : bool := default false (findZone qname d).

Definition isInManagedZone (name : string) (d : Resolver) : bool :=
  match findZone name d with Some _ => true | None => false end.

Definition supportsWildcard (queryType : Z) : bool := negb (queryType =? TypeNS) && negb (queryType =? TypeSOA).

Definition transformDomainToWildcard (domain : string) : string :=
  match cut_first "."%char domain with Some rest => "*." +:+ rest | None => "*" end.

Definition transformToWildcard (q : Question) : Question :=
  {| q_Name := transformDomainToWildcard (q_Name q); q_Qtype := q_Qtype q; q_Qclass := q_Qclass q |}.

Definition hasRecordsForDomain (domainName : string) (qType : Z) (d : Resolver) : bool :=
  let exists_ := bool_decide (domainName ∈ domains d) in
  if negb exists_ && supportsWildcard qType then bool_decide (transformDomainToWildcard domainName ∈ domains d)
  else exists_.

Definition getRecords (q : Question) (d : Resolver) : list RR := default [] (records d !! q).
Definition hasRecord (q : Question) (d : Resolver) : bool := bool_decide (is_Some (records d !! q)).

(** ** The host resolver *)

Inductive LookupErr := ErrNoSuitableAddress | ErrNotFound | ErrLookup.

Section Answers.
(** [LookupNetIP] by network and host. *)
Context (LookupNetIP : string → string → LookupErr + list Addr).

Definition NetworkForQtype (qtype : Z) : string :=
  if qtype =? TypeA then "ip4" else if qtype =? TypeAAAA then "ip6" else "".

Definition getRcodeForNotFound (domain : string) (originalQtype : Z) : Z :=
  let probe network :=
    match LookupNetIP network domain with inl ErrNotFound => RcodeNameError | _ => RcodeSuccess end in
  if originalQtype =? TypeAAAA then probe "ip4"
  else if originalQtype =? TypeA then probe "ip6"
  else RcodeSuccess.

Definition getRcodeForError (host : string) (qtype : Z) (err : LookupErr) : Z :=
  match err with
  | ErrNoSuitableAddress => RcodeSuccess
  | ErrNotFound => getRcodeForNotFound host qtype
  | ErrLookup => RcodeServerFailure
  end.

(** The code of an error, or the addresses. *)
Definition LookupIP (network host : string) (qtype : Z) : Z + list Addr :=
  match LookupNetIP network host with
  | inl err => inl (getRcodeForError host qtype err)
  | inr ips => inr (Unmap <$> ips)
  end.

Definition addr_bytes (a : Addr) : list Z :=
  match a with AddrInvalid => [] | AddrV4 v => be_bytes 4 v | AddrV6 v _ => be_bytes 16 v end.

Definition IPsToRRs (name : string) (ips : list Addr) (ttl : Z) : list RR :=
  (λ ip,
    if Is6 ip
    then {| rr_Name := name; rr_Rrtype := TypeAAAA; rr_Class := ClassINET; rr_Ttl := ttl; rr_Rdlength := 0;
            rr_Data := RD_AAAA (addr_bytes ip) |}
    else {| rr_Name := name; rr_Rrtype := TypeA; rr_Class := ClassINET; rr_Ttl := ttl; rr_Rdlength := 0;
            rr_Data := RD_A (addr_bytes ip) |}) <$> ips.

(** ** Lookups *)

Record lookupResult := { lr_records : list RR; lr_rcode : Z; lr_hasExternalData : bool }.

Definition noRecords (rcode : Z) : lookupResult :=
  {| lr_records := []; lr_rcode := rcode; lr_hasExternalData := false |}.

Definition resolveExternal (name : string) (qtype : Z) : lookupResult :=
  let network := NetworkForQtype qtype in
  if String.eqb network "" then noRecords RcodeNotImplemented
  else
    match LookupIP network name qtype with
    | inl rcode => {| lr_records := []; lr_rcode := rcode; lr_hasExternalData := true |}
    | inr ips => {| lr_records := IPsToRRs name ips 60; lr_rcode := RcodeSuccess; lr_hasExternalData := true |}
    end.

Definition responseFromWildRecords (originalName : string) (wildRecords : list RR) : lookupResult :=
  {| lr_records := (λ rr, with_name rr originalName) <$> wildRecords; lr_rcode := RcodeSuccess;
     lr_hasExternalData := false |}.

(** Code -1 keeps following the chain. *)
Definition resolveCNAMETarget (targetName : string) (targetType qclass : Z) (d : Resolver) : lookupResult :=
  let recs := getRecords {| q_Name := targetName; q_Qtype := targetType; q_Qclass := qclass |} d in
  if (0 <? length recs)%nat then {| lr_records := recs; lr_rcode := RcodeSuccess; lr_hasExternalData := false |}
  else if hasRecord {| q_Name := targetName; q_Qtype := TypeCNAME; q_Qclass := qclass |} d then noRecords (-1)
  else if hasRecordsForDomain targetName targetType d then noRecords RcodeSuccess
  else if isInManagedZone targetName d then noRecords RcodeNameError
  else resolveExternal targetName targetType.

Definition buildChainResult (chain : list RR) (target : lookupResult) : lookupResult :=
  let recs := if (0 <? length (lr_records target))%nat then chain ++ lr_records target else chain in
  if lr_hasExternalData target && (lr_rcode target =? RcodeServerFailure)
  then {| lr_records := recs; lr_rcode := RcodeServerFailure; lr_hasExternalData := true |}
  else {| lr_records := recs; lr_rcode := lr_rcode target; lr_hasExternalData := lr_hasExternalData target |}.

Definition chain_end (chain : list RR) : lookupResult :=
  if (0 <? length chain)%nat then {| lr_records := chain; lr_rcode := RcodeSuccess; lr_hasExternalData := false |}
  else noRecords RcodeSuccess.

Definition cname_records (cnameQuestion : Question) (targetType : Z) (d : Resolver) : list RR :=
  let cnameRecords := getRecords cnameQuestion d in
  if (length cnameRecords =? 0)%nat && supportsWildcard targetType then
    let wildRecords := getRecords (transformToWildcard cnameQuestion) d in
    if (0 <? length wildRecords)%nat
    then lr_records (responseFromWildRecords (q_Name cnameQuestion) wildRecords) else cnameRecords
  else cnameRecords.

(** The rounds that are left, eight at first. *)
Fixpoint follow (depth : nat) (cnameQuestion : Question) (targetType : Z) (chain : list RR) (d : Resolver)
    : lookupResult :=
  match depth with
  | O => chain_end chain
  | S depth' =>
      match cname_records cnameQuestion targetType d with
      | [] => chain_end chain
      | (rr :: _) as cnameRecords =>
          let chain := chain ++ cnameRecords in
          match rr_Data rr with
          | RD_CNAME target =>
              let targetName := ToLower target in
              let targetResult := resolveCNAMETarget targetName targetType (q_Qclass cnameQuestion) d in
              if lr_rcode targetResult =? -1 then
                follow depth' {| q_Name := targetName; q_Qtype := TypeCNAME; q_Qclass := q_Qclass cnameQuestion |}
                  targetType chain d
              else buildChainResult chain targetResult
          | _ => chain_end chain
          end
      end
  end.

Definition lookupCNAMEChain (cnameQuestion : Question) (targetType : Z) (d : Resolver) : lookupResult :=
  follow 8 cnameQuestion targetType [] d.

(** The round robin. *)
Definition rotate_records (q : Question) (d : Resolver) : Resolver :=
  match records d !! q with
  | Some (first :: ((_ :: _) as rest)) =>
      {| records := <[q := rest ++ [first]]> (records d); domains := domains d; zones := zones d |}
  | _ => d
  end.

(** The records of a question: its own, or those of the wildcard when the name
    does not exist. *)
Definition find_records (question : Question) (d : Resolver) : option (list RR * bool) :=
  match records d !! question with
  | Some recs => Some (recs, false)
  | None =>
      if supportsWildcard (q_Qtype question) && negb (bool_decide (q_Name question ∈ domains d))
      then (λ recs, (recs, true)) <$> records d !! transformToWildcard question
      else None
  end.

Definition lookupRecords (question : Question) (d : Resolver) : Resolver * lookupResult :=
  match find_records question d with
  | None =>
      (d, if negb (q_Qtype question =? TypeCNAME)
          then lookupCNAMEChain {| q_Name := q_Name question; q_Qtype := TypeCNAME; q_Qclass := q_Qclass question |}
                 (q_Qtype question) d
          else noRecords RcodeNameError)
  | Some (recs, usingWildcard) =>
      let d' := if (1 <? length recs)%nat
                then rotate_records (if usingWildcard then transformToWildcard question else question) d else d in
      (d', if usingWildcard then responseFromWildRecords (q_Name question) recs
           else {| lr_records := recs; lr_rcode := RcodeSuccess; lr_hasExternalData := false |})
  end.

Definition determineRcode (question : Question) (result : lookupResult) (d : Resolver) : Z :=
  if negb (lr_rcode result =? 0) then lr_rcode result
  else if hasRecordsForDomain (q_Name question) (q_Qtype question) d then RcodeSuccess
  else RcodeNameError.

(** ** Peers behind the records *)

Definition extractRecordAddr (rr : RR) : option Addr :=
  match rr_Data rr with
  | RD_A ip | RD_AAAA ip => let addr := AddrFromSlice ip in if IsValid addr then Some (Unmap addr) else None
  | _ => None
  end.

(** [IsConnectedByIP] says whether the address is known, and connected. *)
Definition keep_answer (IsConnectedByIP : Addr → bool * bool) (rr : RR) : bool :=
  match extractRecordAddr rr with
  | None => true
  | Some ip => let '(known, connected) := IsConnectedByIP ip in negb (known && negb connected)
  end.

Definition filterDisconnectedPeerAnswers (peerConn : option (Addr → bool * bool)) (recs : list RR) : list RR :=
  if (length recs <? 2)%nat then recs
  else
    match peerConn with
    | None => recs
    | Some checker =>
        let kept := filter (λ rr, keep_answer checker rr = true) recs in
        if (length kept =? length recs)%nat then recs
        else if (length kept =? 0)%nat then recs
        else kept
    end.

(** The addresses handed to the activator; [None] when it is not called. *)
Definition warmLazyPeers (activator : bool) (question : Question) (recs : list RR) (d : Resolver) : option (list Addr) :=
  if (length recs <? 2)%nat then None
  else if negb activator || negb (default false (findZone (q_Name question) d)) then None
  else
    let addrs := omap extractRecordAddr recs in
    if (length addrs =? 0)%nat then None else Some addrs.

(** ** Queries *)

(** [warm] is the wiring of the activator; [peerConn] is asked after it ran. *)
Record Wiring := { w_activator : bool; w_peerConn : option (Addr → bool * bool) }.

Definition with_answer (m : Msg) (authoritative : bool) (rcode : Z) (answer : list RR) : Msg :=
  {| m_Id := m_Id m; m_Zero := m_Zero m; m_Truncated := m_Truncated m; m_Authoritative := authoritative;
     m_RecursionAvailable := true; m_Rcode := rcode; m_Question := m_Question m; m_Answer := answer |}.

Definition with_zero (m : Msg) : Msg :=
  {| m_Id := m_Id m; m_Zero := true; m_Truncated := m_Truncated m; m_Authoritative := m_Authoritative m;
     m_RecursionAvailable := m_RecursionAvailable m; m_Rcode := m_Rcode m; m_Question := m_Question m;
     m_Answer := m_Answer m |}.

(** The continue signal. *)
Definition continueToNext (r : Msg) : Msg := with_zero (SetRcode r RcodeNameError).

(** The new state, the messages written and the addresses woken. *)
Definition local_ServeDNS (w : Wiring) (r : Msg) (d : Resolver) : Resolver * list Msg * option (list Addr) :=
  match m_Question r with
  | [] => (d, [], None)
  | question :: _ =>
      let question := {| q_Name := ToLower (Fqdn (q_Name question)); q_Qtype := q_Qtype question;
                         q_Qclass := q_Qclass question |} in
      let replyMessage := SetReply r in
      let '(d, result) := lookupRecords question d in
      let woken := warmLazyPeers (w_activator w) question (lr_records result) d in
      let recs := filterDisconnectedPeerAnswers (w_peerConn w) (lr_records result) in
      let rcode := determineRcode question result d in
      if (rcode =? RcodeNameError) && shouldFallthrough (q_Name question) d
      then (d, [continueToNext r], woken)
      else (d, [with_answer replyMessage (negb (lr_hasExternalData result)) rcode recs], woken)
  end.
End Answers.
End Local.
