(* ===== verification/DnsLocalFacts.v ===== *)
(** * Facts on the local DNS resolver *)
From S2P Require Import Prelude GoStrings NetIP Bytes Order DnsChain DnsLocal.
Open Scope Z_scope.

Section Facts.
Context {D : MiekgDns}.
Implicit Types d : Resolver.

(** ** What is registered *)

(** The record a configured one is stored as. *)
Definition stored (s : SimpleRecord) : option RR :=
  match NewRR (sr_String s) with RROk rr => Some (with_rdlength rr (sr_Len s)) | _ => None end.

Definition all_records (customZones : list CustomZone) : list RR := omap stored (customZones ≫= z_Records).

(** The stored records of a question, in the order of the configuration. *)
Definition registered (customZones : list CustomZone) (q : Question) : list RR :=
  filter (λ rr, rr_question rr = q) (all_records customZones).

(** No record text is empty for the parser. *)
Definition parseable (s : SimpleRecord) : Prop := NewRR (sr_String s) ≠ RRNone.

(** The records are those of the list, by question. *)
Record holds (l : list RR) d : Prop := {
  ho_records q : records d !! q = match filter (λ rr, rr_question rr = q) l with [] => None | rs => Some rs end;
  ho_domains n : n ∈ domains d ↔ ∃ rr, rr ∈ l ∧ q_Name (rr_question rr) = n;
}.

Lemma store_holds l rr d : holds l d → holds (l ++ [rr]) (store_record rr d).
Proof.
  intros [Hr Hd]. split.
  - intros q. cbn [store_record records]. rewrite filter_app, filter_cons, filter_nil. destruct (decide (rr_question rr = q)) as [<-|Hne].
    + rewrite lookup_insert_eq, Hr. by destruct (filter _ l).
    + by rewrite lookup_insert_ne, app_nil_r.
  - intros n. cbn [store_record domains]. rewrite elem_of_union, elem_of_singleton, Hd. split.
    + intros [->|(x & Hx & E)]; [exists rr|exists x]; (split; [apply elem_of_app|done]); [right; by left|by left].
    + intros (x & [Hx| ->%list_elem_of_singleton]%elem_of_app & E); [right; by exists x|by left].
Qed.

Lemma register_stored rec d :
  parseable rec →
  fst <$> registerRecord rec d = Some (match stored rec with Some rr => store_record rr d | None => d end).
Proof. unfold parseable, registerRecord, stored. by destruct (NewRR (sr_String rec)). Qed.

Lemma register_holds l d recs :
  Forall parseable recs → holds l d →
  ∃ d', foldl (λ acc rec, d ← acc; fst <$> registerRecord rec d) (Some d) recs = Some d' ∧
    holds (l ++ omap stored recs) d' ∧ zones d' = zones d.
Proof.
  intros Hp. revert l d. induction Hp as [|rec recs Hrec Hp IH]; intros l d Hh.
  { exists d. rewrite app_nil_r. done. }
  cbn [foldl mbind option_bind]. rewrite register_stored by done.
  change (omap stored (rec :: recs)) with (match stored rec with Some y => y :: omap stored recs | None => omap stored recs end).
  destruct (stored rec) as [rr|]; [|by apply IH].
  destruct (IH (l ++ [rr]) (store_record rr d)) as (d' & E1 & E2 & E3); [by apply store_holds|].
  exists d'. rewrite <- (assoc_L (++)) in E2. done.
Qed.

Definition zone_map (customZones : list CustomZone) : gmap string bool :=
  foldl (λ m zone, <[ToLower (Fqdn (z_Domain zone)) := z_NonAuthoritative zone]> m) ∅ customZones.

Lemma Update_holds customZones d0 :
  Forall (λ z, Forall parseable (z_Records z)) customZones →
  ∃ d, Update customZones d0 = Some d ∧ holds (all_records customZones) d ∧ zones d = zone_map customZones.
Proof.
  intros Hp. unfold Update, all_records, zone_map. induction customZones as [|z zs IH] using rev_ind.
  { eexists. split; [done|]. split; [|done]. split; [done|]. intros n. cbn. rewrite elem_of_empty. split; [done|].
    intros (rr & H & _). by apply elem_of_nil in H. }
  apply Forall_app in Hp as [Hp [Hz _]%Forall_cons]. destruct (IH Hp) as (d & E & Hh & Ez).
  rewrite !foldl_snoc, E, bind_app, omap_app. cbn [mbind option_bind].
  set (d1 := {| records := records d; domains := domains d;
                zones := <[ToLower (Fqdn (z_Domain z)) := z_NonAuthoritative z]> (zones d) |}).
  destruct (register_holds (omap stored (zs ≫= z_Records)) d1 (z_Records z) Hz) as (d' & E' & Hh' & Ez').
  { destruct Hh as [H1 H2]. by split. }
  exists d'. split; [exact E'|]. split; [|by rewrite Ez', <- Ez].
  rewrite bind_singleton. exact Hh'.
Qed.

(** ** Round robin *)

Definition rot1 {A} (l : list A) : list A := match l with [] => [] | x :: l' => l' ++ [x] end.

Fixpoint turn {A} (k : nat) (l : list A) : list A := match k with O => l | S k' => rot1 (turn k' l) end.

Lemma turn_add j k {A} (l : list A) : turn (j + k) l = turn j (turn k l).
Proof. induction j as [|j IH]; [done|]. cbn [Nat.add turn]. by rewrite IH. Qed.

Lemma turn_pair {A} k (x y : A) : turn k [x; y] ∈ [[x; y]; [y; x]].
Proof.
  induction k as [|k IH]; [by left|]. cbn [turn]. rewrite !elem_of_cons, elem_of_nil in *. destruct IH as [->|[->|[]]]; auto.
Qed.

Lemma length_rot k {A} (l : list A) : length (turn k l) = length l.
Proof.
  induction k as [|k IH]; [done|]. cbn [turn]. rewrite <- IH. destruct (turn k l); [done|].
  cbn [rot1 length]. rewrite length_app. cbn [length]. lia.
Qed.

Lemma rot_nil k {A} (l : list A) : turn k l = [] ↔ l = [].
Proof. rewrite <- !length_zero_iff_nil, length_rot. done. Qed.

(** Every record comes first in its turn. *)
Lemma rot_head k {A} (l : list A) : l ≠ [] → head (turn k l) = l !! (k mod length l)%nat.
Proof.
  intros Hl. assert (Hn : length l ≠ 0%nat) by (by destruct l).
  assert (H : ∀ j, (j <= length l)%nat → turn j l = drop j l ++ take j l).
  { induction j as [|j IH]; intros Hj; [by rewrite drop_0, take_0, app_nil_r|]. cbn [turn]. rewrite IH by lia.
    destruct (lookup_lt_is_Some_2 l j ltac:(lia)) as [x Hx]. rewrite (drop_S _ _ _ Hx), (take_S_r _ _ _ Hx). cbn [app rot1].
    by rewrite (assoc_L (++)). }
  assert (Hfull : turn (length l) l = l) by (by rewrite H, drop_ge, take_ge by done).
  assert (Hmul : ∀ m, turn (m * length l) l = l).
  { induction m as [|m IH]; [done|]. cbn [Nat.mul]. by rewrite turn_add, IH. }
  assert (Ek : turn k l = turn (k mod length l)%nat l).
  { transitivity (turn (k mod length l + k / length l * length l)%nat l); [|by rewrite turn_add, Hmul].
    f_equal. pose proof (Nat.div_mod_eq k (length l)). lia. }
  rewrite Ek.
  pose proof (Nat.mod_upper_bound k (length l) Hn) as Hb. rewrite H by lia.
  destruct (lookup_lt_is_Some_2 l (k mod length l)%nat ltac:(lia)) as [x Hx]. by rewrite (drop_S _ _ _ Hx), Hx.
Qed.

(** The resolver holds the records, each list turned some number of times. *)
Record holds_turned (l : list RR) (turns : Question → nat) d : Prop := {
  ht_records q : records d !! q =
    match filter (λ rr, rr_question rr = q) l with [] => None | rs => Some (turn (turns q) rs) end;
  ht_domains n : n ∈ domains d ↔ ∃ rr, rr ∈ l ∧ q_Name (rr_question rr) = n;
}.

Lemma holds_turned_0 l d : holds l d → holds_turned l (λ _, 0%nat) d.
Proof. intros [H1 H2]. split; [intros q; rewrite H1; by destruct (filter _ l)|done]. Qed.

Lemma rotate_records_lookup q d q' :
  records (rotate_records q d) !! q' = if decide (q' = q) then rot1 <$> records d !! q' else records d !! q'.
Proof.
  unfold rotate_records. destruct (records d !! q) as [[|x [|y l]]|] eqn:E.
  3: { cbn [records]. destruct (decide (q' = q)) as [->|Hne]; [by rewrite lookup_insert_eq, E|by rewrite lookup_insert_ne]. }
  all: destruct (decide (q' = q)) as [->|]; [by rewrite E|done].
Qed.

Lemma rotate_records_frame q d : domains (rotate_records q d) = domains d ∧ zones (rotate_records q d) = zones d.
Proof. unfold rotate_records. by destruct (records d !! q) as [[|x [|y l]]|]. Qed.

(** The question whose list a query turns. *)
Definition turned_by (question : Question) d : option Question :=
  match find_records question d with
  | Some (_, true) => Some (transformToWildcard question)
  | Some (_, false) => Some question
  | None => None
  end.

Lemma find_records_some question d recs wild :
  find_records question d = Some (recs, wild) →
  records d !! (if wild then transformToWildcard question else question) = Some recs.
Proof.
  unfold find_records. destruct (records d !! question) as [rs|] eqn:E; [by intros [= <- <-]|].
  destruct (_ && _); [|done]. destruct (records d !! transformToWildcard question) eqn:E'; [|done]. by intros [= <- <-].
Qed.

Lemma lookupRecords_state ext question d :
  let d' := (lookupRecords ext question d).1 in
  domains d' = domains d ∧ zones d' = zones d ∧
  ∀ q, records d' !! q = if decide (turned_by question d = Some q) then rot1 <$> records d !! q else records d !! q.
Proof.
  cbn zeta. unfold lookupRecords, turned_by. destruct (find_records question d) as [[recs wild]|] eqn:E; cbn [fst]; [|done].
  apply find_records_some in E. set (q0 := if wild then transformToWildcard question else question) in *.
  assert (Ht : (if wild then Some (transformToWildcard question) else Some question) = Some q0) by (by destruct wild).
  rewrite Ht. destruct (1 <? length recs)%nat eqn:El.
  - destruct (rotate_records_frame q0 d) as [-> ->]. split_and!; [done|done|]. intros q. rewrite rotate_records_lookup.
    destruct (decide (q = q0)) as [->|]; [by rewrite decide_True|rewrite decide_False by congruence; done].
  - split_and!; [done|done|]. intros q. destruct (decide _) as [[= <-]|]; [|done]. rewrite E. cbn.
    apply Nat.ltb_ge in El. destruct recs as [|x [|y l]]; [done|done|cbn in El; lia].
Qed.

(** ** Queries *)

Definition bump (o : option Question) (turns : Question → nat) (q : Question) : nat :=
  if decide (o = Some q) then S (turns q) else turns q.

Lemma lookupRecords_holds ext question l turns d :
  holds_turned l turns d → holds_turned l (bump (turned_by question d) turns) (lookupRecords ext question d).1.
Proof.
  intros [Hr Hd]. destruct (lookupRecords_state ext question d) as (E1 & _ & E3). split; [|by rewrite E1].
  intros q. rewrite E3, Hr. unfold bump. destruct (decide _); [|done]. by destruct (filter _ l).
Qed.

(** The question as the resolver looks it up. *)
Definition normal (q : Question) : Question :=
  {| q_Name := ToLower (Fqdn (q_Name q)); q_Qtype := q_Qtype q; q_Qclass := q_Qclass q |}.

Lemma ServeDNS_state ext w r q qs d :
  m_Question r = q :: qs → (local_ServeDNS ext w r d).1.1 = (lookupRecords ext (normal q) d).1.
Proof.
  intros Hq. unfold local_ServeDNS. rewrite Hq. fold (normal q). destruct (lookupRecords ext (normal q) d) as [d' res].
  by destruct (_ && _).
Qed.

(** Queries one after the other, each with its own wiring and host resolver. *)
Definition queries (qs : list ((string → string → LookupErr + list Addr) * Wiring * Msg)) d : Resolver :=
  foldl (λ d '(ext, w, r), (local_ServeDNS ext w r d).1.1) d qs.

Lemma queries_hold qs l turns d :
  holds_turned l turns d → ∃ turns', holds_turned l turns' (queries qs d) ∧ zones (queries qs d) = zones d.
Proof.
  revert turns d. induction qs as [|[[ext w] r] qs IH]; intros turns d Hh; [by exists turns|]. cbn [queries foldl].
  fold (queries qs). destruct (m_Question r) as [|q rest] eqn:Eq.
  { unfold local_ServeDNS. rewrite Eq. by eapply IH. }
  rewrite (ServeDNS_state ext w r q rest d Eq).
  destruct (IH _ _ (lookupRecords_holds ext (normal q) l turns d Hh)) as (turns' & H1 & H2).
  exists turns'. split; [exact H1|]. unfold queries in *. rewrite H2. by destruct (lookupRecords_state ext (normal q) d) as (_ & -> & _).
Qed.

(** ** Answers *)

Section Held.
Context (l : list RR) (turns : Question → nat) (d : Resolver).
Hypothesis (Hh : holds_turned l turns d).

Definition held (q : Question) : list RR := filter (λ rr, rr_question rr = q) l.

Lemma held_some q : held q ≠ [] → records d !! q = Some (turn (turns q) (held q)).
Proof. intros Hn. rewrite (ht_records _ _ _ Hh). unfold held in *. by destruct (filter _ l). Qed.

Lemma held_none q : held q = [] → records d !! q = None.
Proof. intros Hn. rewrite (ht_records _ _ _ Hh). unfold held in *. by rewrite Hn. Qed.

Lemma held_name q : held q ≠ [] → q_Name q ∈ domains d.
Proof.
  intros Hn. apply (ht_domains _ _ _ Hh). unfold held in Hn. destruct (filter _ l) as [|rr rs] eqn:E; [done|].
  assert (Hin : rr ∈ filter (λ rr, rr_question rr = q) l) by (rewrite E; by constructor).
  apply list_elem_of_filter in Hin as [<- Hin]. by exists rr.
Qed.

(** A name exists when a record has it. *)
Definition exists_name (n : string) : Prop := ∃ rr, rr ∈ l ∧ q_Name (rr_question rr) = n.

Lemma has_records_iff n t :
  hasRecordsForDomain n t d = true ↔
  exists_name n ∨ supportsWildcard t = true ∧ exists_name (transformDomainToWildcard n).
Proof.
  unfold hasRecordsForDomain, exists_name. rewrite <- !(ht_domains _ _ _ Hh).
  destruct (bool_decide (n ∈ domains d)) eqn:E1; cbn [negb andb].
  - apply bool_decide_eq_true in E1. tauto.
  - apply bool_decide_eq_false in E1. destruct (supportsWildcard t).
    + rewrite bool_decide_eq_true. tauto.
    + split; [done|]. intros [?|[? _]]; done.
Qed.

(** No CNAME record for the name, nor for its wildcard. *)
Definition no_cname (q : Question) : Prop :=
  held {| q_Name := q_Name q; q_Qtype := TypeCNAME; q_Qclass := q_Qclass q |} = [] ∧
  held {| q_Name := transformDomainToWildcard (q_Name q); q_Qtype := TypeCNAME; q_Qclass := q_Qclass q |} = [].

Lemma chain_without_cname ext q t : no_cname q →
  lookupCNAMEChain ext {| q_Name := q_Name q; q_Qtype := TypeCNAME; q_Qclass := q_Qclass q |} t d = noRecords RcodeSuccess.
Proof.
  intros [H1 H2]. unfold lookupCNAMEChain. cbn [follow].
  assert (E : cname_records {| q_Name := q_Name q; q_Qtype := TypeCNAME; q_Qclass := q_Qclass q |} t d = []).
  { unfold cname_records, getRecords. rewrite (held_none _ H1). cbn [default length Nat.eqb andb].
    destruct (supportsWildcard t); [|done]. unfold transformToWildcard. cbn [q_Name q_Qtype q_Qclass].
    by rewrite (held_none _ H2). }
  rewrite E. done.
Qed.

(** What the lookup finds, by what exists. *)
Lemma lookup_cases ext q : q_Qtype q ≠ TypeCNAME → no_cname q →
  let res := (lookupRecords ext q d).2 in
  (held q ≠ [] → res = {| lr_records := turn (turns q) (held q); lr_rcode := RcodeSuccess; lr_hasExternalData := false |}) ∧
  (held q = [] → supportsWildcard (q_Qtype q) = true → ¬ exists_name (q_Name q) → held (transformToWildcard q) ≠ [] →
     res = responseFromWildRecords (q_Name q) (turn (turns (transformToWildcard q)) (held (transformToWildcard q)))) ∧
  (held q = [] → (supportsWildcard (q_Qtype q) = true → exists_name (q_Name q) ∨ held (transformToWildcard q) = []) →
     res = noRecords RcodeSuccess).
Proof.
  intros Ht Hc. cbn zeta. unfold lookupRecords, find_records, exists_name. rewrite <- (ht_domains _ _ _ Hh). split_and!.
  - intros Hn. by rewrite (held_some q Hn).
  - intros Hn Hw Hd Hr. rewrite (held_none q Hn), Hw, bool_decide_eq_false_2 by done. cbn [andb negb].
    by rewrite (held_some _ Hr).
  - intros Hn Hw. rewrite (held_none q Hn).
    assert (E : (if supportsWildcard (q_Qtype q) && negb (bool_decide (q_Name q ∈ domains d))
      then (λ recs, (recs, true)) <$> records d !! transformToWildcard q else None) = None).
    { destruct (supportsWildcard (q_Qtype q)); [|done]. destruct (Hw eq_refl) as [He|He].
      - by rewrite bool_decide_eq_true_2.
      - rewrite (held_none _ He). by destruct (_ && _). }
    rewrite E. cbn [snd]. apply Z.eqb_neq in Ht. rewrite Ht. cbn [negb]. by apply chain_without_cname.
Qed.
End Held.

(** ** Zones *)

(** The name itself or one of its parents. *)
Definition label_suffix (z s : string) : Prop := s = z ∨ z ≠ "" ∧ ∃ p, s = p +:+ "." +:+ z.

Lemma parent_zone_spec zs s b :
  parent_zone zs s = Some b ↔
  ∃ z, (z ≠ "" ∧ ∃ p, s = p +:+ "." +:+ z) ∧ zs !! z = Some b ∧
    ∀ z' p', z' ≠ "" → s = p' +:+ "." +:+ z' → is_Some (zs !! z') → (String.length z' <= String.length z)%nat.
Proof.
  induction s as [|c s IH]; cbn [parent_zone].
  { split; [done|]. intros (z & (_ & [|c p] & E) & _); discriminate E. }
  destruct (Ascii.eqb_spec c "."%char) as [->|Hc]; cycle 1.
  { rewrite IH. split; intros (z & (Hz & p & E) & Hl & Hm); exists z.
    - split; [split; [done|exists (String c p); by rewrite E]|]. split; [done|]. intros z' [|c' p'] Hz' E'; [by injection E' as -> _|].
      injection E' as _ E'. by eapply Hm.
    - destruct p as [|c' p]; [by injection E as -> _|]. injection E as _ E. split; [split; [done|by exists p]|]. split; [done|].
      intros z' p' Hz' E'. apply (Hm z' (String c p')); [done|]. by rewrite E'. }
  destruct (String.eqb_spec s "") as [->|Hs].
  { split; [done|]. intros (z & (Hz & p & E) & _). apply (f_equal String.length) in E.
    rewrite !length_string_app in E. cbn in E. destruct z; [done|cbn in E; lia]. }
  destruct (zs !! s) as [b'|] eqn:El.
  - split.
    + intros [= ->]. exists s. split; [split; [done|by exists ""]|]. split; [done|]. intros z' [|c' p'] Hz' E' _.
      * injection E' as ->. done.
      * injection E' as _ E'. rewrite E', !length_string_app. lia.
    + intros (z & (Hz & p & E) & Hl & Hm). specialize (Hm s "" Hs eq_refl ltac:(by exists b')).
      destruct p as [|c' p]; [injection E as E; rewrite E in El; rewrite <- El; exact Hl|].
      injection E as _ E. rewrite E, !length_string_app in Hm. cbn in Hm. lia.
  - rewrite IH. split; intros (z & (Hz & p & E) & Hl & Hm); exists z.
    + split; [split; [done|exists (String "." p); by rewrite E]|]. split; [done|].
      intros z' [|c' p'] Hz' E' Hi; [injection E' as E'; rewrite nil_app in E'; rewrite <- E', El in Hi; by destruct Hi|]. injection E' as _ E'. by eapply Hm.
    + destruct p as [|c' p]; [injection E as E; rewrite nil_app in E; rewrite <- E, El in Hl; done|]. injection E as _ E.
      split; [split; [done|by exists p]|]. split; [done|].
      intros z' p' Hz' E'. apply (Hm z' (String "." p')); [done|]. by rewrite E'.
Qed.

(** The zone of a name is the closest one above it. *)
Lemma findZone_closest n d b :
  let s := ToLower (Fqdn n) in
  findZone n d = Some b ↔
  ∃ z, label_suffix z s ∧ zones d !! z = Some b ∧
    ∀ z', label_suffix z' s → is_Some (zones d !! z') → (String.length z' <= String.length z)%nat.
Proof.
  cbn zeta. unfold findZone. set (s := ToLower (Fqdn n)). clearbody s.
  assert (Hlen : ∀ z p, s = p +:+ "." +:+ z → (String.length z < String.length s)%nat).
  { intros z p ->. rewrite !length_string_app. cbn. lia. }
  destruct (zones d !! s) as [b'|] eqn:E.
  - split.
    + intros [= ->]. exists s. split; [by left|]. split; [done|]. intros z' [->|(_ & p & Hp)] _; [done|]. by apply Nat.lt_le_incl, (Hlen z' p).
    + intros (z & [->|(_ & p & Hp)] & Hl & Hm); [congruence|]. specialize (Hm s ltac:(by left) ltac:(by exists b')).
      specialize (Hlen z p Hp). lia.
  - rewrite parent_zone_spec. split; intros (z & Hz & Hl & Hm); exists z.
    + split; [by right|]. split; [done|]. intros z' [<-|(Hz' & p & Hp)] Hi; [rewrite E in Hi; by destruct Hi|]. by eapply Hm.
    + destruct Hz as [<-|Hz]; [congruence|]. split; [done|]. split; [done|]. intros z' p' Hz' Hp'. apply Hm. right. split; [done|by exists p'].
Qed.

(** ** Disconnected peers *)

Lemma filter_none {A} (P : A → Prop) `{∀ x, Decision (P x)} (l : list A) : filter P l = [] ↔ Forall (λ x, ¬ P x) l.
Proof. split; [|apply filter_none_nil]. intros E. apply Forall_forall. intros x Hx Hp. by apply (filter_nil_not_elem_of P l x). Qed.

Lemma filter_whole {A} (P : A → Prop) `{∀ x, Decision (P x)} (l : list A) : length (filter P l) = length l → filter P l = l.
Proof.
  intros E. apply filter_all_id, Forall_forall. intros x Hx. destruct (decide (P x)) as [|Hn]; [done|].
  pose proof (length_filter_lt P l x Hx Hn). lia.
Qed.

(** What is shown of the records: an address of a peer that is known and not
    connected is left out, unless it is the only record or all are such. *)
Definition offline (w : Wiring) (rr : RR) : Prop :=
  match w_peerConn w, extractRecordAddr rr with Some check, Some ip => check ip = (true, false) | _, _ => False end.

#[global] Instance offline_dec w rr : Decision (offline w rr).
Proof. unfold offline. destruct (w_peerConn w), (extractRecordAddr rr); apply _. Defined.

Definition shown (w : Wiring) (recs answer : list RR) : Prop :=
  ((length recs <= 1)%nat ∨ Forall (offline w) recs → answer = recs) ∧
  ((2 <= length recs)%nat → ¬ Forall (offline w) recs → answer = filter (λ rr, ¬ offline w rr) recs).

Lemma keep_offline w check rr : w_peerConn w = Some check → keep_answer check rr = true ↔ ¬ offline w rr.
Proof.
  intros E. unfold keep_answer, offline. rewrite E. destruct (extractRecordAddr rr) as [ip|]; [|tauto].
  destruct (check ip) as [[] []]; cbn; (split; intros H; [first [discriminate H|intros [=]]|first [reflexivity|by destruct H]]).
Qed.

Lemma filter_answers_shown w recs : shown w recs (filterDisconnectedPeerAnswers (w_peerConn w) recs).
Proof.
  unfold shown, filterDisconnectedPeerAnswers. destruct (Nat.ltb_spec (length recs) 2) as [Hl|Hl]; [split; [done|lia]|].
  destruct (w_peerConn w) as [check|] eqn:E.
  - assert (Ef : filter (λ rr, keep_answer check rr = true) recs = filter (λ rr, ¬ offline w rr) recs)
      by (apply list_filter_iff; intros rr; by apply keep_offline).
    rewrite Ef. set (kept := filter _ recs). destruct (Nat.eqb_spec (length kept) (length recs)) as [Hk|Hk].
    + split; [done|]. intros _ _. symmetry. by apply filter_whole.
    + assert (Hall : length kept = 0%nat ↔ Forall (offline w) recs).
      { rewrite length_zero_iff_nil. unfold kept. rewrite filter_none. apply Forall_iff. intros rr. destruct (decide (offline w rr)); tauto. }
      destruct (Nat.eqb_spec (length kept) 0) as [H0|H0].
      * split; [done|]. intros _ Hno. destruct Hno. by apply Hall.
      * split; [|done]. intros [?|Hoff%Hall]; [lia|done].
  - split; [done|]. intros _ _. symmetry. apply filter_all_id, Forall_forall. intros rr _. unfold offline. rewrite E. tauto.
Qed.

(** ** Messages *)

(** The messages from the result of the lookup. *)
Definition reply_to (w : Wiring) (r : Msg) (q : Question) (res : lookupResult) d : list Msg :=
  let rcode := determineRcode q res d in
  if (rcode =? RcodeNameError) && shouldFallthrough (q_Name q) d then [continueToNext r]
  else [with_answer (SetReply r) (negb (lr_hasExternalData res)) rcode
          (filterDisconnectedPeerAnswers (w_peerConn w) (lr_records res))].

Lemma frame_zone n d d' : zones d' = zones d → findZone n d' = findZone n d.
Proof. intros E. unfold findZone. by rewrite E. Qed.

Lemma ServeDNS_msgs ext w r q qs d :
  m_Question r = q :: qs →
  (local_ServeDNS ext w r d).1.2 = reply_to w r (normal q) (lookupRecords ext (normal q) d).2 d.
Proof.
  intros Hq. unfold local_ServeDNS, reply_to. rewrite Hq. fold (normal q).
  destruct (lookupRecords_state ext (normal q) d) as (E1 & E2 & _).
  destruct (lookupRecords ext (normal q) d) as [d' res]. cbn [fst snd] in *.
  unfold shouldFallthrough. rewrite (frame_zone _ d d' E2).
  assert (Er : determineRcode (normal q) res d' = determineRcode (normal q) res d).
  { unfold determineRcode, hasRecordsForDomain. by rewrite E1. }
  rewrite Er. by destruct (_ && _).
Qed.

Lemma reply_success w r q recs l turns d :
  holds_turned l turns d →
  exists_name l (q_Name q) ∨ supportsWildcard (q_Qtype q) = true ∧ exists_name l (transformDomainToWildcard (q_Name q)) →
  reply_to w r q {| lr_records := recs; lr_rcode := RcodeSuccess; lr_hasExternalData := false |} d =
  [with_answer (SetReply r) true RcodeSuccess (filterDisconnectedPeerAnswers (w_peerConn w) recs)].
Proof.
  intros Hh He. unfold reply_to, determineRcode. apply (has_records_iff l turns d Hh) in He. cbn [lr_rcode negb Z.eqb RcodeSuccess].
  by rewrite He.
Qed.

Lemma reply_missing w r q l turns d :
  holds_turned l turns d → ¬ exists_name l (q_Name q) →
  (supportsWildcard (q_Qtype q) = true → ¬ exists_name l (transformDomainToWildcard (q_Name q))) →
  reply_to w r q (noRecords RcodeSuccess) d =
  if default false (findZone (q_Name q) d) then [continueToNext r] else [with_answer (SetReply r) true RcodeNameError []].
Proof.
  intros Hh Hn Hw. unfold reply_to, determineRcode. cbn [lr_rcode noRecords negb Z.eqb RcodeSuccess].
  assert (E : hasRecordsForDomain (q_Name q) (q_Qtype q) d = false).
  { apply not_true_iff_false. rewrite (has_records_iff l turns d Hh). tauto. }
  rewrite E. cbn [RcodeNameError Z.eqb Pos.eqb andb]. unfold shouldFallthrough. by destruct (default _ _).
Qed.


(** ** In the chain *)

(** The resolver passes a query on only in a zone that is not authoritative. *)
Lemma local_passes_on `{!MiekgDnsSpec D} ext w r q rest d :
  m_Question r = q :: rest → findZone (q_Name (normal q)) d ≠ Some true →
  ¬ passes_on (local_ServeDNS ext w r d).1.2.
Proof.
  intros Hq Hz. rewrite (ServeDNS_msgs ext w r q rest d Hq). unfold reply_to, shouldFallthrough.
  destruct (findZone (q_Name (normal q)) d) as [[]|]; [done| |]; rewrite andb_false_r; unfold passes_on; rewrite Exists_cons, Exists_nil;
    unfold signal; cbn [m_Zero with_answer]; rewrite SetReply_zero, andb_false_r; by intros [?|?].
Qed.

(** C25. Queries for names of an authoritative zone never leave the client past the
    local resolver: once it is registered and matches, only handlers ranked
    before it are asked beside it. *)
Theorem authoritative_never_leaks `{!MiekgDnsSpec D} ops serve r q rest maxPriority e ext w d :
  m_Question r = q :: rest → e ∈ registry ops → candidate (ToLower (q_Name q)) maxPriority e →
  serve e = (local_ServeDNS ext w r d).1.2 → findZone (q_Name (normal q)) d = Some false →
  ∀ e', Asked e' ∈ dispatch serve r maxPriority (chain_run ops) →
    e' = e ∨ outranks e' e ∨ same_rank e' e ∧ before (registry ops) e' e.
Proof.
  intros Hq He Hc Hs Hz. apply (dispatch_stops ops serve r q rest maxPriority e Hq He Hc).
  rewrite Hs. apply (local_passes_on ext w r q rest d Hq). congruence.
Qed.
End Facts.

(** ** Concrete zones and chains for the DNS theorems

    Instances of the theorems, and two behaviours that differ from the
    comments of the code. *)

(** A library that reads three records. *)
Definition text_A : string := "a.example. 300 IN A 10.0.0.1".
Definition text_A2 : string := "a.example. 300 IN A 10.0.0.2".
Definition text_wild : string := "*.example. 300 IN CNAME b.other.".

Definition rr_A (last : Z) : RR :=
  {| rr_Name := "a.example."; rr_Rrtype := TypeA; rr_Class := ClassINET; rr_Ttl := 300; rr_Rdlength := 4;
     rr_Data := RD_A [10; 0; 0; last] |}.
Definition rr_wild : RR :=
  {| rr_Name := "*.example."; rr_Rrtype := TypeCNAME; rr_Class := ClassINET; rr_Ttl := 300; rr_Rdlength := 9;
     rr_Data := RD_CNAME "b.other." |}.

Definition reply_with (r : Msg) (rcode : Z) : Msg :=
  {| m_Id := m_Id r; m_Zero := false; m_Truncated := false; m_Authoritative := false; m_RecursionAvailable := false;
     m_Rcode := rcode; m_Question := m_Question r; m_Answer := [] |}.

#[local] Instance demo_dns : MiekgDns := {
  Fqdn := λ s, if HasSuffix s "." then s else s +:+ ".";
  TypeString := λ t, if t =? TypeA then "A" else "CNAME";
  NewRR := λ s,
    if String.eqb s text_A then RROk (rr_A 1)
    else if String.eqb s text_A2 then RROk (rr_A 2)
    else if String.eqb s text_wild then RROk rr_wild
    else RRError;
  SetReply := λ r, reply_with r 0;
  SetRcode := reply_with;
}.

#[local] Instance demo_dns_spec : MiekgDnsSpec demo_dns.
Proof. by split. Qed.

Definition query (name : string) (qtype : Z) : Msg :=
  {| m_Id := 7; m_Zero := false; m_Truncated := false; m_Authoritative := false; m_RecursionAvailable := false;
     m_Rcode := 0; m_Question := [{| q_Name := name; q_Qtype := qtype; q_Qclass := ClassINET |}]; m_Answer := [] |}.

Definition a_record (rdata : string) : SimpleRecord :=
  {| sr_Name := "a.example"; sr_Type := TypeA; sr_Class := "IN"; sr_TTL := 300; sr_RData := rdata |}.
Definition wild_record : SimpleRecord :=
  {| sr_Name := "*.example"; sr_Type := TypeCNAME; sr_Class := "IN"; sr_TTL := 300; sr_RData := "b.other." |}.

Definition zone (recs : list SimpleRecord) (nonAuth : bool) : CustomZone :=
  {| z_Domain := "example"; z_Records := recs; z_SearchDomainDisabled := false; z_NonAuthoritative := nonAuth |}.

Definition no_host : string → string → LookupErr + list Addr := λ _ _, inl ErrNotFound.
Definition plain : Wiring := {| w_activator := false; w_peerConn := None |}.

(** The comment on lookups says that a wildcard matches only a name that does
    not exist, and that an existing name without records of the type has no
    data.  A wildcard CNAME is used for an existing name all the same. *)
Theorem wildcard_cname_shadows :
  ∃ d, Update [zone [a_record "10.0.0.1"; wild_record] false] NewResolver = Some d ∧
    "a.example." ∈ domains d ∧
    (local_ServeDNS no_host plain (query "a.example." TypeAAAA) d).1.2 =
      [with_answer (reply_with (query "a.example." TypeAAAA) 0) false RcodeNameError [with_name rr_wild "a.example."]].
Proof.
  eexists. split; [vm_compute; reflexivity|]. split; [apply (bool_decide_unpack _); vm_compute; exact I|].
  vm_compute. reflexivity.
Qed.

(** The comment on the insertion says that handlers are ordered by priority
    and then by the specificity of their domain.  The root has as many dots
    as a top-level domain, so of the two the one registered first wins. *)
Definition sub_handler (name : string) : Handler := {| h_Name := name; h_SubdomainMatcher := Some true |}.

Theorem root_ties_with_tld :
  let ops := [OpAdd "." (sub_handler "upstream") PriorityUpstream; OpAdd "corp" (sub_handler "corp") PriorityUpstream] in
  let reply := reply_with (query "host.corp." TypeA) 0 in
  dispatch (λ _, [reply]) (query "host.corp." TypeA) maxInt (chain_run ops) =
    [Asked (mkEntry "." (sub_handler "upstream") PriorityUpstream); Wrote reply].
Proof. vm_compute. reflexivity. Qed.

(** ** Instances of the theorems *)

Definition local_handler : Handler := {| h_Name := "local"; h_SubdomainMatcher := Some true |}.
Definition demo_ops : list ChainOp :=
  [OpAdd "." (sub_handler "upstream") PriorityDefault; OpAdd "example" local_handler PriorityLocal].
Definition local_entry : HandlerEntry := mkEntry "example" local_handler PriorityLocal.

Lemma dispatch_best_witness :
  let serve := λ e : HandlerEntry, [reply_with (query "a.example." TypeA) 0] in
  dispatch serve (query "a.example." TypeA) maxInt (chain_run demo_ops) =
    [Asked local_entry; Wrote (reply_with (query "a.example." TypeA) 0)] ∧
  ∃ e, best (registry demo_ops) (λ e, candidate "a.example." maxInt e ∧ ¬ passes_on (serve e)) e.
Proof.
  cbv zeta. split; [vm_compute; reflexivity|].
  destruct (dispatch_best demo_ops (λ e, [reply_with (query "a.example." TypeA) 0]) (query "a.example." TypeA)
    {| q_Name := "a.example."; q_Qtype := TypeA; q_Qclass := ClassINET |} [] maxInt eq_refl) as (ev0 & _ & [(e & Hb & _)|[Hall _]]).
  - exists e. exact Hb.
  - exfalso. destruct (Hall local_entry) as [_ Hp].
    + apply (bool_decide_unpack _). vm_compute. exact I.
    + apply (bool_decide_unpack _). vm_compute. exact I.
    + apply Exists_cons in Hp as [Hp|Hp]; [discriminate Hp|by apply Exists_nil in Hp].
Defined.

Definition two_records : list CustomZone := [zone [a_record "10.0.0.1"; a_record "10.0.0.2"] false].

(** The peer with the first address is known and not connected. *)
Definition one_offline : Wiring :=
  {| w_activator := false; w_peerConn := Some (λ ip, (true, negb (bool_decide (ip = AddrV4 0x0a000001)))) |}.


Lemma authoritative_never_leaks_witness :
  ∃ d, Update two_records NewResolver = Some d ∧
    let serve := λ e : HandlerEntry,
      if decide (e = local_entry) then (local_ServeDNS no_host plain (query "x.example." TypeA) d).1.2 else [] in
    local_entry ∈ registry demo_ops ∧ findZone "x.example." d = Some false ∧
    ∀ e', Asked e' ∈ dispatch serve (query "x.example." TypeA) maxInt (chain_run demo_ops) →
      e' = local_entry ∨ outranks e' local_entry ∨ same_rank e' local_entry ∧ before (registry demo_ops) e' local_entry.
Proof.
  destruct (Update_holds two_records NewResolver) as (d & Ed & _ & Ez); [repeat constructor; vm_compute; discriminate|].
  exists d. split; [exact Ed|]. cbv zeta.
  assert (Hin : local_entry ∈ registry demo_ops) by (apply (bool_decide_unpack _); vm_compute; exact I).
  assert (Hz : findZone "x.example." d = Some false) by (unfold findZone; rewrite Ez; vm_compute; reflexivity).
  split; [exact Hin|]. split; [exact Hz|].
  apply (authoritative_never_leaks demo_ops _ (query "x.example." TypeA)
    {| q_Name := "x.example."; q_Qtype := TypeA; q_Qclass := ClassINET |} [] maxInt local_entry no_host plain d).
  - reflexivity.
  - exact Hin.
  - apply (bool_decide_unpack _). vm_compute. exact I.
  - by rewrite decide_True.
  - exact Hz.
Defined.
