(* ===== verification/FakeIP.v ===== *)
(** * Fake addresses of dynamic routes

    [client/internal/routemanager/fakeip/fakeip.go]: addresses of a reserved
    block that stand for the addresses a domain resolves to, one pool for each
    family.  Nothing is ever given back. *)
From S2P Require Import Prelude NetIP Bytes Order.
Open Scope Z_scope.

(** [Addr.Next]. *)
Definition addr_Next (a : Addr) : Addr :=
  match a with
  | AddrV4 v => if v =? 2 ^ 32 - 1 then AddrInvalid else AddrV4 (v + 1)
  | AddrV6 v z => if v =? 2 ^ 128 - 1 then AddrInvalid else AddrV6 (v + 1) z
  | AddrInvalid => AddrInvalid
  end.

Definition v4Base : Addr := AddrFrom4 [240; 0; 0; 1].
Definition v4Max : Addr := AddrFrom4 [240; 255; 255; 254].
Definition v4Block : Prefix := PrefixFrom (AddrFrom4 [240; 0; 0; 0]) 8.
Definition v6Base : Addr := AddrFrom16 ([1] ++ replicate 14 0 ++ [1]).
Definition v6Max : Addr := AddrFrom16 ([1] ++ replicate 7 0 ++ replicate 7 255 ++ [254]).
Definition v6Block : Prefix := PrefixFrom (AddrFrom16 ([1] ++ replicate 15 0)) 64.

Record fakeIPPool := {
  nextIP : Addr;
  baseIP : Addr;
  maxIP : Addr;
  block : Prefix;
  allocated : gmap Addr Addr;
  fakeToReal : gmap Addr Addr;
}.

Definition newPool (base maxAddr : Addr) (blk : Prefix) : fakeIPPool :=
  {| nextIP := base; baseIP := base; maxIP := maxAddr; block := blk; allocated := ∅; fakeToReal := ∅ |}.

Definition set_next (p : fakeIPPool) (a : Addr) : fakeIPPool :=
  {| nextIP := a; baseIP := baseIP p; maxIP := maxIP p; block := block p; allocated := allocated p;
     fakeToReal := fakeToReal p |}.

Definition record_fake (p : fakeIPPool) (realIP fakeIP : Addr) : fakeIPPool :=
  {| nextIP := nextIP p; baseIP := baseIP p; maxIP := maxIP p; block := block p;
     allocated := <[realIP := fakeIP]> (allocated p); fakeToReal := <[fakeIP := realIP]> (fakeToReal p) |}.

(** Advance, wrapping at the boundary. *)
Definition advance (p : fakeIPPool) : fakeIPPool :=
  match addr_Compare (nextIP p) (maxIP p) with
  | Lt => set_next p (addr_Next (nextIP p))
  | _ => set_next p (baseIP p)
  end.

Inductive FakeError := ErrNoMoreFakeIPs | ErrInvalidIP.

(** The loop of [allocate]; [None] is out of fuel. *)
Fixpoint allocate_loop (fuel : nat) (startIP realIP : Addr) (p : fakeIPPool) : option (fakeIPPool * (FakeError + Addr)) :=
  match fuel with
  | O => None
  | S fuel' =>
      let currentIP := nextIP p in
      let p := advance p in
      match fakeToReal p !! currentIP with
      | None => Some (record_fake p realIP currentIP, inr currentIP)
      | Some _ =>
          match addr_Compare (nextIP p) startIP with
          | Eq => Some (p, inl ErrNoMoreFakeIPs)
          | _ => allocate_loop fuel' startIP realIP p
          end
      end
  end.

(** Each round that does not end meets another address in use. *)
Definition allocate (realIP : Addr) (p : fakeIPPool) : option (fakeIPPool * (FakeError + Addr)) :=
  match allocated p !! realIP with
  | Some fakeIP => Some (p, inr fakeIP)
  | None => allocate_loop (S (size (fakeToReal p))) (nextIP p) realIP p
  end.

Record Manager := { v4 : fakeIPPool; v6 : fakeIPPool }.

Definition NewManager : Manager := {| v4 := newPool v4Base v4Max v4Block; v6 := newPool v6Base v6Max v6Block |}.

Definition pool (m : Manager) (ip : Addr) : fakeIPPool := if Is6 ip then v6 m else v4 m.

Definition set_pool (m : Manager) (ip : Addr) (p : fakeIPPool) : Manager :=
  if Is6 ip then {| v4 := v4 m; v6 := p |} else {| v4 := p; v6 := v6 m |}.

Definition AllocateFakeIP (realIP : Addr) (m : Manager) : option (Manager * (FakeError + Addr)) :=
  let realIP := Unmap realIP in
  if negb (IsValid realIP) then Some (m, inl ErrInvalidIP)
  else
    '(p, res) ← allocate realIP (pool m realIP);
    Some (set_pool m realIP p, res).

Definition GetFakeIP (realIP : Addr) (m : Manager) : option Addr :=
  let realIP := Unmap realIP in
  if negb (IsValid realIP) then None else allocated (pool m realIP) !! realIP.

Definition GetRealIP (fakeIP : Addr) (m : Manager) : option Addr :=
  let fakeIP := Unmap fakeIP in
  if negb (IsValid fakeIP) then None else fakeToReal (pool m fakeIP) !! fakeIP.

Definition GetFakeIPBlock (m : Manager) : Prefix := block (v4 m).
Definition GetFakeIPv6Block (m : Manager) : Prefix := block (v6 m).

(** ** A pool *)

Section Pool.
(** The addresses [lo] to [hi] of one family. *)
Context (mk : Z → Addr) (lo hi : Z).
Context (mk_inj : ∀ a b, mk a = mk b → a = b).
Context (mk_compare : ∀ a b, addr_Compare (mk a) (mk b) = (a ?= b)).
Context (mk_next : ∀ a, lo <= a < hi → addr_Next (mk a) = mk (a + 1)).
Context (Hrange : lo <= hi).

Definition pool_size : Z := hi - lo + 1.

Record pool_wf (p : fakeIPPool) : Prop := {
  pw_base : baseIP p = mk lo;
  pw_max : maxIP p = mk hi;
  pw_next : ∃ n, nextIP p = mk n ∧ lo <= n <= hi;
  pw_inverse r f : allocated p !! r = Some f ↔ fakeToReal p !! f = Some r;
  pw_fakes f : is_Some (fakeToReal p !! f) → ∃ n, f = mk n ∧ lo <= n <= hi;
}.

(** The address [i] rounds after [s]. *)
Definition at_round (s i : Z) : Z := lo + (s - lo + i) mod pool_size.

Lemma at_round_range s i : lo <= at_round s i <= hi.
Proof. unfold at_round. pose proof (Z.mod_pos_bound (s - lo + i) pool_size ltac:(unfold pool_size; lia)). unfold pool_size in *. lia. Qed.

Lemma at_round_0 s : lo <= s <= hi → at_round s 0 = s.
Proof. intros. unfold at_round. rewrite Z.mod_small; unfold pool_size; lia. Qed.

Lemma at_round_inj s i j : 0 <= i < pool_size → 0 <= j < pool_size → at_round s i = at_round s j → i = j.
Proof.
  intros Hi Hj E. unfold at_round in E. assert (E' : (s - lo + i) mod pool_size = (s - lo + j) mod pool_size) by lia.
  apply Z.cong_iff_ex in E' as [k Hk]. generalize dependent pool_size. intros N Hi Hj _ Hk. assert (k = 0) as -> by nia. lia.
Qed.

Lemma at_round_full s i : at_round s (i + pool_size) = at_round s i.
Proof.
  unfold at_round. f_equal. replace (s - lo + (i + pool_size)) with (s - lo + i + 1 * pool_size) by lia.
  apply Z.mod_add. unfold pool_size. lia.
Qed.

Lemma advance_spec p s i : pool_wf p → nextIP p = mk (at_round s i) →
  advance p = set_next p (mk (at_round s (i + 1))).
Proof.
  intros Hp Hn. unfold advance. rewrite Hn, (pw_max p Hp), mk_compare. pose proof (at_round_range s i) as Hr.
  assert (Hsucc : at_round s (i + 1) = if at_round s i =? hi then lo else at_round s i + 1).
  { unfold at_round in *. replace (s - lo + (i + 1)) with (s - lo + i + 1) by lia. set (x := s - lo + i) in *.
    rewrite <- Z.add_mod_idemp_l by (unfold pool_size; lia). set (y := x mod pool_size) in *.
    destruct (Z.eqb_spec (lo + y) hi) as [E|E].
    - replace (y + 1) with (0 + 1 * pool_size) by (unfold pool_size; lia). rewrite Z.mod_add, Z.mod_0_l by (unfold pool_size; lia). lia.
    - rewrite Z.mod_small by (unfold pool_size; lia). lia. }
  rewrite Hsucc. destruct (Z.compare_spec (at_round s i) hi) as [E|E|E]; [|rewrite mk_next by lia|lia].
  - rewrite (pw_base p Hp). rewrite E, Z.eqb_refl. done.
  - destruct (Z.eqb_spec (at_round s i) hi); [lia|done].
Qed.

Lemma set_next_wf p n : pool_wf p → lo <= n <= hi → pool_wf (set_next p (mk n)).
Proof. intros [] Hn. split; [done|done|by exists n|done|done]. Qed.

(** The rounds before are distinct addresses in use, so there are not more of
    them than addresses in use. *)
Lemma rounds_bound (p : fakeIPPool) s (k : nat) :
  Z.of_nat k <= pool_size → (∀ i, 0 <= i < Z.of_nat k → is_Some (fakeToReal p !! mk (at_round s i))) →
  (k <= size (fakeToReal p))%nat.
Proof.
  intros Hk Hu. set (l := (λ i, mk (at_round s i)) <$> seqZ 0 (Z.of_nat k)).
  assert (Hl : length l = k). { unfold l. rewrite length_fmap, length_seqZ. lia. }
  assert (Hnd : NoDup l).
  { unfold l. apply NoDup_fmap_2_strong; [|apply NoDup_seqZ]. intros x y Hx Hy E%mk_inj. apply elem_of_seqZ in Hx, Hy.
    eapply at_round_inj; [..|exact E]; lia. }
  rewrite <- size_dom. rewrite <- Hl, <- (size_list_to_set (C := gset Addr) l Hnd). apply subseteq_size.
  intros x Hx%elem_of_list_to_set. apply list_elem_of_fmap in Hx as (i & -> & Hi%elem_of_seqZ). apply elem_of_dom, Hu. lia.
Qed.

(** The loop ends: with the first free address after the start, or with the
    error when all are in use. *)
Lemma allocate_loop_spec s r fuel : ∀ p (i : nat),
  pool_wf p → lo <= s <= hi → allocated p !! r = None → nextIP p = mk (at_round s (Z.of_nat i)) → Z.of_nat i < pool_size →
  (∀ j, 0 <= j < Z.of_nat i → is_Some (fakeToReal p !! mk (at_round s j))) →
  (S (size (fakeToReal p)) <= fuel + i)%nat →
  ∃ p' res, allocate_loop fuel (mk s) r p = Some (p', res) ∧ pool_wf p' ∧ block p' = block p ∧
    match res with
    | inr f => fakeToReal p !! f = None ∧ allocated p' = <[r := f]> (allocated p)
    | inl e => e = ErrNoMoreFakeIPs ∧ allocated p' = allocated p ∧ ∀ n, lo <= n <= hi → is_Some (fakeToReal p !! mk n)
    end.
Proof.
  induction fuel as [|fuel IH]; intros p i Hp Hs Hr Hn Hi Hused Hfuel.
  { pose proof (rounds_bound p s i ltac:(lia) Hused). lia. }
  cbn [allocate_loop]. rewrite (advance_spec p s (Z.of_nat i) Hp Hn), Hn. cbn [fakeToReal set_next nextIP].
  pose proof (at_round_range s (Z.of_nat i)) as Hrg. pose proof (at_round_range s (Z.of_nat i + 1)) as Hrg'.
  destruct (fakeToReal p !! mk (at_round s (Z.of_nat i))) as [r'|] eqn:Ef; cycle 1.
  { eexists _, _. split; [done|]. split; [|done]. destruct Hp as [B M N I F]. split; [done|done|by eexists| |].
    - intros r0 f. cbn [record_fake allocated fakeToReal set_next].
      destruct (decide (r0 = r)) as [->|Hne].
      + rewrite lookup_insert_eq. split; [intros [= <-]; by rewrite lookup_insert_eq|].
        rewrite lookup_insert_Some. intros [[-> _]|[_ Hf]]; [done|]. apply I in Hf. congruence.
      + rewrite lookup_insert_ne by done. rewrite I, lookup_insert_Some. split.
        * intros Hf. right. split; [|done]. intros <-. congruence.
        * intros [[_ ->]|[_ ?]]; done.
    - intros f. cbn [record_fake fakeToReal set_next]. rewrite lookup_insert_is_Some. intros [<-|[_ Hf]]; [by eexists|by apply F]. }
  assert (Hused' : ∀ j, 0 <= j < Z.of_nat (S i) → is_Some (fakeToReal p !! mk (at_round s j))).
  { intros j Hj. destruct (decide (j = Z.of_nat i)) as [->|]; [by exists r'|]. apply Hused. lia. }
  assert (Hp' : pool_wf (set_next p (mk (at_round s (Z.of_nat i + 1))))) by (by apply set_next_wf).
  rewrite mk_compare. destruct (Z.compare_spec (at_round s (Z.of_nat i + 1)) s) as [E|E|E].
  { eexists _, _. split; [done|]. split; [done|]. split; [done|]. split; [done|]. split; [done|]. intros n Hnr.
    assert (Ei : Z.of_nat (S i) = pool_size).
    { rewrite <- (at_round_0 s Hs) in E at 2. destruct (decide (Z.of_nat i + 1 = pool_size)) as [|Hne]; [lia|].
      apply at_round_inj in E; [lia|lia|unfold pool_size in *; lia]. }
    replace n with (at_round s ((n - s) mod pool_size)).
    - apply Hused'. rewrite Ei. apply Z.mod_pos_bound. unfold pool_size. lia.
    - unfold at_round. rewrite Z.add_mod_idemp_r by (unfold pool_size; lia). rewrite Z.mod_small; unfold pool_size; lia. }
  all: assert (Hlt : Z.of_nat (S i) < pool_size);
    [destruct (decide (Z.of_nat (S i) = pool_size)) as [Ei|]; [|lia];
     replace (Z.of_nat i + 1) with (0 + pool_size) in E by lia; rewrite at_round_full, at_round_0 in E by lia; lia|].
  all: replace (Z.of_nat i + 1) with (Z.of_nat (S i)) in * by lia.
  all: destruct (IH (set_next p (mk (at_round s (Z.of_nat (S i))))) (S i) Hp' Hs Hr eq_refl Hlt Hused' ltac:(cbn; lia))
    as (p' & res & E1 & E2 & E3 & E4); exists p', res; done.
Qed.
End Pool.

(** ** The two pools *)

Lemma v4_compare a b : addr_Compare (AddrV4 a) (AddrV4 b) = (a ?= b).
Proof. unfold addr_Compare, addr_key. cbn. by destruct (a ?= b). Qed.

Lemma v6_compare a b : addr_Compare (AddrV6 a "") (AddrV6 b "") = (a ?= b).
Proof. unfold addr_Compare, addr_key. cbn. by destruct (a ?= b). Qed.

Notation v4lo := 4026531841.
Notation v4hi := 4043309054.
Notation v6lo := 1329227995784915872903807060280344577.
Notation v6hi := 1329227995784915891350551133989896190.

Lemma v4_next a : v4lo <= a < v4hi → addr_Next (AddrV4 a) = AddrV4 (a + 1).
Proof. intros H. cbn [addr_Next]. destruct (Z.eqb_spec a (2 ^ 32 - 1)); [lia|done]. Qed.

Lemma v6_next a : v6lo <= a < v6hi → addr_Next (AddrV6 a "") = AddrV6 (a + 1) "".
Proof. intros H. cbn [addr_Next]. destruct (Z.eqb_spec a (2 ^ 128 - 1)); [lia|done]. Qed.

(** The addresses that have a fake one: valid, not mapped, of the family. *)
Definition reals_of (is6 : bool) (p : fakeIPPool) : Prop :=
  ∀ r, is_Some (allocated p !! r) → Unmap r = r ∧ IsValid r = true ∧ Is6 r = is6.

Record manager_wf (m : Manager) : Prop := {
  mw_v4 : pool_wf AddrV4 v4lo v4hi (v4 m);
  mw_v6 : pool_wf (λ v, AddrV6 v "") v6lo v6hi (v6 m);
  mw_real4 : reals_of false (v4 m);
  mw_real6 : reals_of true (v6 m);
}.

Lemma newPool_wf mk lo hi blk : lo <= hi → pool_wf mk lo hi (newPool (mk lo) (mk hi) blk).
Proof.
  intros H. split; [done|done|exists lo; split; [done|lia]|intros r f; cbn; by rewrite !lookup_empty|].
  intros f [r E]. cbn in E. by rewrite lookup_empty in E.
Qed.

Lemma NewManager_wf : manager_wf NewManager.
Proof.
  split.
  - apply (newPool_wf AddrV4 v4lo v4hi). lia.
  - apply (newPool_wf (λ v, AddrV6 v "") v6lo v6hi). lia.
  - intros r [f E]. cbn in E. by rewrite lookup_empty in E.
  - intros r [f E]. cbn in E. by rewrite lookup_empty in E.
Qed.

Lemma reals_keep is6 p p' r (res : FakeError + Addr) :
  reals_of is6 p → Unmap r = r → IsValid r = true → Is6 r = is6 →
  match res with
  | inr _ => ∀ r', r' ≠ r → allocated p' !! r' = allocated p !! r'
  | inl _ => allocated p' = allocated p
  end → reals_of is6 p'.
Proof.
  intros Hp H1 H2 H3 Hres r' Hr'. destruct (decide (r' = r)) as [->|Hne]; [done|]. apply Hp.
  destruct res; [by rewrite <- Hres|by rewrite <- Hres].
Qed.

Lemma Unmap_idemp a : Unmap (Unmap a) = Unmap a.
Proof. destruct a as [|v|v z]; [done|done|]. cbn. destruct (Z.shiftr v 32 =? 65535) eqn:E; [done|]. cbn. by rewrite E. Qed.

(** What an allocation does to a pool of either family. *)
Lemma allocate_spec mk lo hi p r :
  (∀ a b, mk a = mk b → a = b) → (∀ a b, addr_Compare (mk a) (mk b) = (a ?= b)) →
  (∀ a, lo <= a < hi → addr_Next (mk a) = mk (a + 1)) → lo <= hi → pool_wf mk lo hi p →
  ∃ p' res, allocate r p = Some (p', res) ∧ pool_wf mk lo hi p' ∧
    match res with
    | inr f => allocated p' !! r = Some f ∧ (∀ r', r' ≠ r → allocated p' !! r' = allocated p !! r') ∧
        (∀ f', allocated p !! r = Some f' → f = f')
    | inl e => e = ErrNoMoreFakeIPs ∧ allocated p !! r = None ∧ allocated p' = allocated p ∧
        ∀ n, lo <= n <= hi → is_Some (fakeToReal p !! mk n)
    end.
Proof.
  intros H1 H2 H3 H4 Hp. unfold allocate. destruct (allocated p !! r) as [f|] eqn:Er.
  { exists p, (inr f). split_and!; [done|done|done|done|congruence]. }
  destruct (pw_next _ _ _ _ Hp) as (s & Hs & Hr).
  destruct (allocate_loop_spec mk lo hi H1 H2 H3 H4 s r (S (size (fakeToReal p))) p 0 Hp Hr Er) as (p' & res & E1 & E2 & _ & E4).
  - by rewrite at_round_0.
  - unfold pool_size. lia.
  - intros j Hj. lia.
  - lia.
  - rewrite <- Hs in E1. exists p', res. split; [done|]. split; [done|]. destruct res as [e|f].
    + destruct E4 as (-> & E4 & E5). done.
    + destruct E4 as [_ ->]. split; [by rewrite lookup_insert_eq|]. split; [|done].
      intros r' Hne. by rewrite lookup_insert_ne.
Qed.

Definition fake_run (reqs : list Addr) : option Manager :=
  foldl (λ acc r, m ← acc; fst <$> AllocateFakeIP r m) (Some NewManager) reqs.

(** Between the bounds of the pool of its family. *)
Definition in_pool (f : Addr) : Prop :=
  (∃ n, f = AddrV4 n ∧ v4lo <= n <= v4hi) ∨ ∃ n, f = AddrV6 n "" ∧ v6lo <= n <= v6hi.

Lemma Unmap_fake6 n : v6lo <= n <= v6hi → Unmap (AddrV6 n "") = AddrV6 n "".
Proof.
  intros Hn. cbn. destruct (Z.eqb_spec (Z.shiftr n 32) 65535) as [E|]; [|done]. rewrite Z.shiftr_div_pow2 in E by lia.
  pose proof (Z.div_le_mono v6lo n (2 ^ 32) ltac:(lia) ltac:(lia)). change (v6lo / 2 ^ 32) with 309485009821345068724781056 in *. lia.
Qed.

Lemma AllocateFakeIP_spec m r :
  manager_wf m →
  ∃ m' res, AllocateFakeIP r m = Some (m', res) ∧ manager_wf m' ∧
    (∀ r', Unmap r' ≠ Unmap r → GetFakeIP r' m' = GetFakeIP r' m) ∧
    match res with
    | inr f => GetFakeIP r m' = Some f ∧ ∀ f', GetFakeIP r m = Some f' → f = f'
    | inl ErrInvalidIP => IsValid (Unmap r) = false
    | inl ErrNoMoreFakeIPs => GetFakeIP r m = None ∧
        ∀ f, in_pool f → Is6 f = Is6 (Unmap r) → is_Some (GetRealIP f m)
    end.
Proof.
  intros [H4 H6 R4 R6]. unfold AllocateFakeIP. destruct (IsValid (Unmap r)) eqn:Ev; cbn [negb]; cycle 1.
  { eexists m, _. split; [done|]. split; [by split|]. split; [done|]. done. }
  unfold GetFakeIP. rewrite Ev. cbn [negb]. unfold pool, set_pool.
  destruct (Is6 (Unmap r)) eqn:E6.
  - destruct (allocate_spec (λ v, AddrV6 v "") v6lo v6hi (v6 m) (Unmap r)) as (p' & res & Ea & Hp' & Hres);
      [congruence|apply v6_compare|apply v6_next|lia|done|]. rewrite Ea. cbn [mbind option_bind].
    assert (Hk : reals_of true p').
    { eapply (reals_keep true (v6 m) p' (Unmap r) res R6); [apply Unmap_idemp|done|done|]. by destruct res; [destruct Hres as (_ & _ & ? & _)|apply Hres]. }
    eexists _, res. split; [done|]. split; [by split|]. cbn [v4 v6]. split.
    { intros r' Hne. destruct (IsValid (Unmap r')); [|done]. cbn [negb]. destruct (Is6 (Unmap r')); [|done].
      destruct res as [e|f]; [by destruct Hres as (_ & _ & -> & _)|by apply Hres]. }
    destruct res as [e|f]; [|by destruct Hres as (H1 & _ & H3)]. destruct Hres as (-> & Hn & _ & Hall). split; [done|].
    intros f [(n & -> & _)|(n & -> & Hn')] Hf; [done|]. unfold GetRealIP, pool. cbn.
    destruct (Hall n Hn') as [x Hx]. pose proof (Unmap_fake6 n Hn') as Eu. cbn in Eu. rewrite Eu. cbn. by exists x.
  - destruct (allocate_spec AddrV4 v4lo v4hi (v4 m) (Unmap r)) as (p' & res & Ea & Hp' & Hres);
      [congruence|apply v4_compare|apply v4_next|lia|done|]. rewrite Ea. cbn [mbind option_bind].
    assert (Hk : reals_of false p').
    { eapply (reals_keep false (v4 m) p' (Unmap r) res R4); [apply Unmap_idemp|done|done|]. by destruct res; [destruct Hres as (_ & _ & ? & _)|apply Hres]. }
    eexists _, res. split; [done|]. split; [by split|]. cbn [v4 v6]. split.
    { intros r' Hne. destruct (IsValid (Unmap r')); [|done]. cbn [negb]. destruct (Is6 (Unmap r')); [done|].
      destruct res as [e|f]; [by destruct Hres as (_ & _ & -> & _)|by apply Hres]. }
    destruct res as [e|f]; [|by destruct Hres as (H1 & _ & H3)]. destruct Hres as (-> & Hn & _ & Hall). split; [done|].
    intros f [(n & -> & Hn')|(n & -> & _)] Hf; [|done]. unfold GetRealIP, pool. cbn. by apply Hall.
Qed.

(** C28. Whatever addresses are asked for, every call ends; an address and its fake
    one belong to each other and to no third, the fake one lies in the pool of
    the family, allocations are never changed, and the pool is reported as
    exhausted only when each of its addresses is in use. *)
Theorem fake_ips_exact reqs :
  ∃ m, fake_run reqs = Some m ∧
    (∀ r f, GetFakeIP r m = Some f → GetRealIP f m = Some (Unmap r) ∧ in_pool f ∧ Is6 f = Is6 (Unmap r)) ∧
    (∀ f r, GetRealIP f m = Some r → GetFakeIP r m = Some (Unmap f)) ∧
    ∀ r, ∃ m' res, AllocateFakeIP r m = Some (m', res) ∧
      (∀ r', Unmap r' ≠ Unmap r → GetFakeIP r' m' = GetFakeIP r' m) ∧
      match res with
      | inr f => GetFakeIP r m' = Some f ∧ ∀ f', GetFakeIP r m = Some f' → f = f'
      | inl ErrInvalidIP => IsValid (Unmap r) = false
      | inl ErrNoMoreFakeIPs => GetFakeIP r m = None ∧
          ∀ f, in_pool f → Is6 f = Is6 (Unmap r) → is_Some (GetRealIP f m)
      end.
Proof.
  assert (Hrun : ∃ m, fake_run reqs = Some m ∧ manager_wf m).
  { unfold fake_run. induction reqs as [|r reqs IH] using rev_ind; [exists NewManager; split; [done|apply NewManager_wf]|].
    destruct IH as (m & E & Hm). rewrite foldl_snoc, E. cbn [mbind option_bind].
    destruct (AllocateFakeIP_spec m r Hm) as (m' & res & -> & Hm' & _). by exists m'. }
  destruct Hrun as (m & E & Hm). exists m. split; [done|]. split_and!.
  - intros r f. unfold GetFakeIP, GetRealIP, pool. destruct (IsValid (Unmap r)) eqn:Ev; [|done]. cbn [negb].
    destruct Hm as [H4 H6 _ _]. destruct (Is6 (Unmap r)) eqn:E6; intros Hf.
    + apply (pw_inverse _ _ _ _ H6) in Hf as Hr. destruct (pw_fakes _ _ _ _ H6 f ltac:(by eexists)) as (n & -> & Hn).
      rewrite (Unmap_fake6 n Hn). split; [exact Hr|]. split; [right; by exists n|done].
    + apply (pw_inverse _ _ _ _ H4) in Hf as Hr. destruct (pw_fakes _ _ _ _ H4 f ltac:(by eexists)) as (n & -> & Hn).
      cbn. split; [exact Hr|]. split; [left; by exists n|done].
  - intros f r. unfold GetFakeIP, GetRealIP, pool. destruct (IsValid (Unmap f)); [|done]. cbn [negb].
    destruct Hm as [H4 H6 R4 R6]. destruct (Is6 (Unmap f)); intros Hf.
    + apply (pw_inverse _ _ _ _ H6) in Hf. destruct (R6 r ltac:(by eexists)) as (-> & -> & ->). done.
    + apply (pw_inverse _ _ _ _ H4) in Hf. destruct (R4 r ltac:(by eexists)) as (-> & -> & ->). done.
  - intros r. destruct (AllocateFakeIP_spec m r Hm) as (m' & res & E1 & _ & E2 & E3). by exists m', res.
Qed.
