(* ===== verification/RefCounter.v ===== *)
(** * Reference counters of the route manager

    [client/internal/routemanager/refcounter/refcounter.go]: a key is added to
    the system with its first reference and removed with its last; references
    can be grouped under an identifier.

    What the add and remove functions answer is part of each call.  The calls
    made to them are returned, and the system they act on is the map of the
    keys that are in it.  A nil map is [None], and so is a panic. *)
From S2P Require Import Prelude.
Open Scope Z_scope.

Section Counter.
Context {MO : MapOrder} {K O : Type} `{Countable K} (zero : O).

Record Ref := { Count : Z; Out : O }.

Record Counter := {
  refCountMap : option (gmap K Ref);
  idMap : option (gmap string (list K));
}.

Definition New : Counter := {| refCountMap := Some ∅; idMap := Some ∅ |}.

(** What the add function answers; [Ignored] is [ErrIgnore]. *)
Inductive AddResult := Added (out : O) | Ignored | AddFailed.

(** The calls to both functions with their outcome. *)
Inductive Call := CallAdd (key : K) (res : AddResult) | CallRemove (key : K) (out : O) (ok : bool).

Definition lookup_nil {A B} `{Countable A} (m : option (gmap A B)) (k : A) : option B := m ← m; m !! k.

Definition set_ref (c : Counter) (key : K) (ref : Ref) : option Counter :=
  m ← refCountMap c; Some {| refCountMap := Some (<[key := ref]> m); idMap := idMap c |}.

(** The counter, the calls, the reference and whether there was an error. *)
Definition Step : Type := Counter * list Call * Ref * bool.

Definition increment (add : K → AddResult) (key : K) (c : Counter) : option Step :=
  let ref := default {| Count := 0; Out := zero |} (lookup_nil (refCountMap c) key) in
  let bump ref calls :=
    let ref := {| Count := Count ref + 1; Out := Out ref |} in
    c ← set_ref c key ref; Some (c, calls, ref, false) in
  if Count ref =? 0 then
    match add key with
    | Ignored => Some (c, [CallAdd key Ignored], ref, false)
    | AddFailed => Some (c, [CallAdd key AddFailed], ref, true)
    | Added out => bump {| Count := Count ref; Out := out |} [CallAdd key (Added out)]
    end
  else bump ref [].

Definition Increment := increment.

Definition IncrementWithID (add : K → AddResult) (id : string) (key : K) (c : Counter) : option Step :=
  '(c, calls, ref, err) ← increment add key c;
  if err : bool then Some (c, calls, ref, true)
  else
    ids ← idMap c;
    Some ({| refCountMap := refCountMap c; idMap := Some (<[id := default [] (ids !! id) ++ [key]]> ids) |}, calls, ref, false).

Definition decrement (remove : K → bool) (key : K) (c : Counter) : option Step :=
  match lookup_nil (refCountMap c) key with
  | None => Some (c, [], {| Count := 0; Out := zero |}, false)
  | Some ref =>
      if Count ref =? 1 then
        if remove key
        then Some ({| refCountMap := delete key <$> refCountMap c; idMap := idMap c |}, [CallRemove key (Out ref) true], ref, false)
        else Some (c, [CallRemove key (Out ref) false], ref, true)
      else
        let ref := {| Count := Count ref - 1; Out := Out ref |} in
        c ← set_ref c key ref; Some (c, [], ref, false)
  end.

Definition Decrement := decrement.

(** The keys of an identifier one after the other; the answers of the remove
    function go by the position in the list. *)
Fixpoint decrement_each (remove : nat → K → bool) (keys : list K) (c : Counter) : option (Counter * list Call * bool) :=
  match keys with
  | [] => Some (c, [], false)
  | key :: keys' =>
      '(c, calls, _, err) ← decrement (remove (length keys')) key c;
      '(c, calls', err') ← decrement_each remove keys' c;
      Some (c, calls ++ calls', (err || err'))
  end.

Definition DecrementWithID (remove : nat → K → bool) (id : string) (c : Counter) : option (Counter * list Call * bool) :=
  '(c, calls, err) ← decrement_each remove (default [] (lookup_nil (idMap c) id)) c;
  Some ({| refCountMap := refCountMap c; idMap := delete id <$> idMap c |}, calls, err).

Definition Flush (remove : K → bool) (seed : nat) (c : Counter) : Counter * list Call * bool :=
  let calls := (λ kv : K * Ref, CallRemove kv.1 (Out kv.2) (remove kv.1)) <$> range_list seed (default ∅ (refCountMap c)) in
  ({| refCountMap := (λ _, ∅) <$> refCountMap c; idMap := (λ _, ∅) <$> idMap c |}, calls,
   existsb (λ call, match call with CallRemove _ _ ok => negb ok | _ => false end) calls).

Definition Clear (c : Counter) : Counter :=
  {| refCountMap := (λ _, ∅) <$> refCountMap c; idMap := (λ _, ∅) <$> idMap c |}.

Definition LoadData (existingCounter c : Counter) : Counter := existingCounter.

Definition Get (key : K) (c : Counter) : option Ref := lookup_nil (refCountMap c) key.

(** The keys that are applied again. *)
Definition ReapplyMatching (pred : O → bool) (c : Counter) : gset K :=
  dom (filter (λ kv : K * Ref, pred (Out kv.2) = true) (default ∅ (refCountMap c))).

(** The object between [MarshalJSON] and [UnmarshalJSON]; a missing or null
    map is [None]. *)
Record CounterJSON := { js_refCountMap : option (gmap K Ref); js_idMap : option (gmap string (list K)) }.

Definition MarshalJSON (c : Counter) : CounterJSON := {| js_refCountMap := refCountMap c; js_idMap := idMap c |}.

Definition UnmarshalJSON (temp : CounterJSON) : Counter :=
  {| refCountMap := js_refCountMap temp; idMap := js_idMap temp |}.

(** ** The system *)

Definition apply_call (w : gmap K O) (call : Call) : gmap K O :=
  match call with
  | CallAdd key (Added out) => <[key := out]> w
  | CallRemove key _ true => delete key w
  | _ => w
  end.

Inductive Op :=
| OpIncrement (add : K → AddResult) (key : K)
| OpIncrementWithID (add : K → AddResult) (id : string) (key : K)
| OpDecrement (remove : K → bool) (key : K)
| OpDecrementWithID (remove : nat → K → bool) (id : string)
| OpFlush (remove : K → bool) (seed : nat).

Definition exec (op : Op) (c : Counter) : option (Counter * list Call) :=
  match op with
  | OpIncrement add key => '(c, calls, _, _) ← Increment add key c; Some (c, calls)
  | OpIncrementWithID add id key => '(c, calls, _, _) ← IncrementWithID add id key c; Some (c, calls)
  | OpDecrement remove key => '(c, calls, _, _) ← Decrement remove key c; Some (c, calls)
  | OpDecrementWithID remove id => '(c, calls, _) ← DecrementWithID remove id c; Some (c, calls)
  | OpFlush remove seed => let '(c, calls, _) := Flush remove seed c in Some (c, calls)
  end.

Definition counter_run (ops : list Op) : option (Counter * gmap K O) :=
  foldl (λ acc op, '(c, w) ← acc; '(c, calls) ← exec op c; Some (c, foldl apply_call w calls)) (Some (New, ∅)) ops.

(** A key is added only while it is not in the system, and removed only with
    the output it was added with. *)
Definition call_ok (w : gmap K O) (call : Call) : Prop :=
  match call with CallAdd key _ => w !! key = None | CallRemove key out _ => w !! key = Some out end.

Fixpoint calls_ok (w : gmap K O) (calls : list Call) : Prop :=
  match calls with [] => True | call :: calls' => call_ok w call ∧ calls_ok (apply_call w call) calls' end.

Lemma calls_ok_app w l1 l2 : calls_ok w (l1 ++ l2) ↔ calls_ok w l1 ∧ calls_ok (foldl apply_call w l1) l2.
Proof. revert w. induction l1 as [|x l1 IH]; intros w; cbn; [tauto|]. rewrite IH. tauto. Qed.

(** The counter has the keys of the system, with their outputs. *)
Definition tracks (m : gmap K Ref) (w : gmap K O) : Prop :=
  w = Out <$> m ∧ ∀ k ref, m !! k = Some ref → 1 <= Count ref.

Lemma tracks_lookup m w k : tracks m w → w !! k = Out <$> m !! k.
Proof. intros [-> _]. apply lookup_fmap. Qed.

Lemma tracks_insert m w k ref : tracks m w → 1 <= Count ref → tracks (<[k := ref]> m) (<[k := Out ref]> w).
Proof.
  intros [-> Hc] Hr. split; [by rewrite fmap_insert|]. intros k' r' [[_ <-]|[_ Hk']]%lookup_insert_Some; [done|by eapply Hc].
Qed.

Lemma tracks_bump m w k ref ref' :
  tracks m w → m !! k = Some ref → Out ref' = Out ref → 1 <= Count ref' → tracks (<[k := ref']> m) w.
Proof.
  intros Ht Hk Ho Hr. pose proof (tracks_insert m w k ref' Ht Hr) as H1. rewrite Ho in H1.
  rewrite (insert_id w) in H1; [done|]. by rewrite (tracks_lookup m w k Ht), Hk.
Qed.

Lemma tracks_delete m w k : tracks m w → tracks (delete k m) (delete k w).
Proof. intros [-> Hc]. split; [by rewrite fmap_delete|]. intros k' r' [_ Hk']%lookup_delete_Some. by eapply Hc. Qed.

(** What both steps do: no panic, the calls are in order, and the counter keeps
    track of the system. *)
Definition good (ids : gmap string (list K)) (w : gmap K O) (st : option (Counter * list Call)) : Prop :=
  ∃ m' calls, st = Some ({| refCountMap := Some m'; idMap := Some ids |}, calls) ∧ calls_ok w calls ∧
    tracks m' (foldl apply_call w calls).

Lemma increment_good add key m ids w :
  tracks m w →
  good ids w ('(c, calls, _, _) ← increment add key {| refCountMap := Some m; idMap := Some ids |}; Some (c, calls)).
Proof.
  intros Ht. unfold increment, lookup_nil, good. cbn [refCountMap mbind option_bind].
  pose proof (tracks_lookup m w key Ht) as Hw. destruct (m !! key) as [ref|] eqn:Ek; cbn [from_option id].
  - assert (Hc : 1 <= Count ref) by (by eapply Ht). destruct (Z.eqb_spec (Count ref) 0); [lia|]. cbn.
    eexists _, _. split; [done|]. split; [done|]. cbn. eapply tracks_bump; [done|done|done|cbn; lia].
  - cbn [Count Z.eqb]. destruct (add key) as [out| |]; cbn.
    + eexists _, _. split; [done|]. split; [done|]. cbn. apply (tracks_insert m w key {| Count := 1; Out := out |}); [done|cbn; lia].
    + eexists m, _. split; [done|]. done.
    + eexists m, _. split; [done|]. done.
Qed.

Lemma decrement_good remove key m ids w :
  tracks m w →
  good ids w ('(c, calls, _, _) ← decrement remove key {| refCountMap := Some m; idMap := Some ids |}; Some (c, calls)).
Proof.
  intros Ht. unfold decrement, lookup_nil, good. cbn [refCountMap mbind option_bind].
  pose proof (tracks_lookup m w key Ht) as Hw. destruct (m !! key) as [ref|] eqn:Ek; [|by eexists m, _].
  assert (Hc : 1 <= Count ref) by (by eapply Ht). destruct (Z.eqb_spec (Count ref) 1) as [E|E].
  - destruct (remove key); cbn; eexists _, _; (split; [done|]); (split; [by split|]); cbn; [by apply tracks_delete|done].
  - cbn. eexists _, _. split; [done|]. split; [done|]. cbn. eapply tracks_bump; [done|done|done|cbn; lia].
Qed.

Lemma decrement_each_good remove keys m ids w :
  tracks m w →
  good ids w ('(c, calls, _) ← decrement_each remove keys {| refCountMap := Some m; idMap := Some ids |}; Some (c, calls)).
Proof.
  revert m w. induction keys as [|key keys IH]; intros m w Ht; [by exists m, []|]. cbn [decrement_each].
  destruct (decrement_good (remove (length keys)) key m ids w Ht) as (m1 & calls1 & E1 & O1 & T1).
  destruct (decrement _ _ _) as [[[[c1 cs1] ref] err]|]; [|done]. injection E1 as -> ->. cbn [mbind option_bind].
  destruct (IH m1 _ T1) as (m2 & calls2 & E2 & O2 & T2).
  destruct (decrement_each _ _ _) as [[[c2 cs2] err']|]; [|done]. injection E2 as -> ->. cbn [mbind option_bind].
  exists m2, (calls1 ++ calls2). rewrite calls_ok_app, foldl_app. done.
Qed.

Definition flush_ok (op : Op) : Prop := match op with OpFlush remove _ => ∀ k, remove k = true | _ => True end.

Lemma foldl_removes (l : list (K * Ref)) (w : gmap K O) :
  NoDup l.*1 → (∀ k ref, (k, ref) ∈ l → w !! k = Some (Out ref)) →
  calls_ok w ((λ kv : K * Ref, CallRemove kv.1 (Out kv.2) true) <$> l) ∧
  ∀ k, foldl apply_call w ((λ kv : K * Ref, CallRemove kv.1 (Out kv.2) true) <$> l) !! k =
    if decide (k ∈ l.*1) then None else w !! k.
Proof.
  revert w. induction l as [|[k ref] l IH]; intros w Hn Hl; [done|]. cbn [fmap list_fmap fst snd] in *.
  apply NoDup_cons in Hn as [Hk Hn]. destruct (IH (delete k w) Hn) as [I1 I2].
  { intros k' ref' Hin. rewrite lookup_delete_ne; [apply Hl; by constructor|]. intros <-. apply Hk.
    apply list_elem_of_fmap. by exists (k, ref'). }
  split; [split; [apply Hl; by constructor|exact I1]|]. intros k'. cbn [foldl apply_call]. rewrite I2.
  destruct (decide (k' ∈ l.*1)) as [Hin|Hin]; [by rewrite decide_True by (by constructor)|].
  destruct (decide (k' = k)) as [->|Hne]; [rewrite lookup_delete_eq, decide_True by constructor; done|].
  rewrite lookup_delete_ne, decide_False by (rewrite ?elem_of_cons; naive_solver). done.
Qed.

Lemma flush_good remove seed m ids w :
  (∀ k, remove k = true) → tracks m w →
  good ∅ w (let '(c, calls, _) := Flush remove seed {| refCountMap := Some m; idMap := Some ids |} in Some (c, calls)).
Proof.
  intros Hr Ht. unfold Flush. cbn [refCountMap idMap from_option id fmap option_fmap option_map].
  set (calls := (λ kv : K * Ref, CallRemove kv.1 (Out kv.2) (remove kv.1)) <$> range_list seed m).
  assert (Ec : calls = (λ kv : K * Ref, CallRemove kv.1 (Out kv.2) true) <$> range_list seed m).
  { apply list_fmap_ext. intros i kv _. by rewrite Hr. }
  destruct (foldl_removes (range_list seed m) w) as [F1 F2].
  - apply NoDup_fst_range_list.
  - intros k ref Hin%elem_of_range_list. by rewrite (tracks_lookup m w k Ht), Hin.
  - exists ∅, calls. split; [done|]. rewrite Ec. split; [done|]. split; [|intros k ref; by rewrite lookup_empty].
    rewrite fmap_empty. apply map_eq. intros k. rewrite F2, lookup_empty. destruct (decide _) as [|Hin]; [done|].
    rewrite (tracks_lookup m w k Ht). destruct (m !! k) as [ref|] eqn:Ek; [|done]. exfalso. apply Hin.
    apply list_elem_of_fmap. exists (k, ref). by rewrite elem_of_range_list.
Qed.

(** One call: no panic, the calls in order, the counter follows the system. *)
Lemma exec_good op m ids w :
  flush_ok op → tracks m w →
  ∃ c' m' ids' calls, exec op {| refCountMap := Some m; idMap := Some ids |} = Some (c', calls) ∧
    c' = {| refCountMap := Some m'; idMap := Some ids' |} ∧ calls_ok w calls ∧ tracks m' (foldl apply_call w calls).
Proof.
  intros Hf Ht. destruct op as [add key|add id key|remove key|remove id|remove seed]; cbn [exec].
  - destruct (increment_good add key m ids w Ht) as (m' & calls & E & ?). by eexists _, m', ids, calls.
  - destruct (increment_good add key m ids w Ht) as (m' & calls & E & Hok). unfold IncrementWithID.
    destruct (increment add key _) as [[[[c1 cs1] ref] err]|]; [|done]. injection E as -> ->. cbn [mbind option_bind].
    destruct err; cbn; eexists _, m', _, calls; done.
  - destruct (decrement_good remove key m ids w Ht) as (m' & calls & E & ?). by eexists _, m', ids, calls.
  - destruct (decrement_each_good remove (default [] (lookup_nil (Some ids) id)) m ids w Ht) as (m' & calls & E & Hok).
    unfold DecrementWithID. cbn [idMap]. destruct (decrement_each _ _ _) as [[[c1 cs1] err]|]; [|done].
    injection E as -> ->. cbn. eexists _, m', _, calls. done.
  - destruct (flush_good remove seed m ids w Hf Ht) as (m' & calls & E & Hok).
    eexists _, m', _, calls. split; [exact E|]. done.
Qed.

Lemma run_tracks ops :
  Forall flush_ok ops →
  ∃ m ids w, counter_run ops = Some ({| refCountMap := Some m; idMap := Some ids |}, w) ∧ tracks m w.
Proof.
  unfold counter_run. induction ops as [|op ops IH] using rev_ind; intros Hf.
  { exists ∅, ∅, ∅. split; [done|]. split; [by rewrite fmap_empty|]. intros k ref. by rewrite lookup_empty. }
  apply Forall_app in Hf as [Hf [Hop _]%Forall_cons]. destruct (IH Hf) as (m & ids & w & E & Ht).
  rewrite foldl_snoc, E. cbn [mbind option_bind].
  destruct (exec_good op m ids w Hop Ht) as (c' & m' & ids' & calls & -> & -> & _ & Ht'). cbn. by exists m', ids', (foldl apply_call w calls).
Qed.

(** Whatever the calls and whatever the add and remove functions answer (a
    flush apart, which forgets what it could not remove): nothing panics, the
    counter holds exactly the keys that are in the system, with the output
    they were added with and a positive count, and the next call adds only a
    key that is absent and removes only a present one, with its output. *)
Theorem refcount_tracks ops :
  Forall flush_ok ops →
  ∃ c w, counter_run ops = Some (c, w) ∧
    (∀ k, w !! k = Out <$> Get k c) ∧ (∀ k ref, Get k c = Some ref → 1 <= Count ref) ∧
    ∀ op, flush_ok op → ∃ c' calls, exec op c = Some (c', calls) ∧ calls_ok w calls.
Proof.
  intros Hf. destruct (run_tracks ops Hf) as (m & ids & w & E & Ht).
  exists {| refCountMap := Some m; idMap := Some ids |}, w. split; [done|]. unfold Get. cbn. split_and!.
  - intros k. by apply tracks_lookup.
  - intros k ref Hk. by eapply Ht.
  - intros op Hop. destruct (exec_good op m ids w Hop Ht) as (c' & m' & ids' & calls & E' & _ & Hok & _). by exists c', calls.
Qed.

(** ** References by identifier *)

Definition occ (l : list K) (k : K) : nat := length (filter (λ k', k' = k) l).
Definition refs_of (ids : gmap string (list K)) (k : K) : nat := map_fold (λ _ l acc, (occ l k + acc)%nat) 0%nat ids.
Definition count_of (m : gmap K Ref) (k : K) : Z := match m !! k with Some ref => Count ref | None => 0 end.

Lemma occ_snoc l key k : occ (l ++ [key]) k = (occ l k + if decide (key = k) then 1 else 0)%nat.
Proof. unfold occ. rewrite filter_app, filter_cons, filter_nil, length_app. by destruct (decide (key = k)). Qed.

Lemma occ_cons key l k : occ (key :: l) k = ((if decide (key = k) then 1 else 0) + occ l k)%nat.
Proof. unfold occ. rewrite filter_cons. by destruct (decide (key = k)). Qed.

Lemma refs_of_split ids id k : refs_of ids k = (occ (default [] (ids !! id)) k + refs_of (delete id ids) k)%nat.
Proof.
  unfold refs_of. destruct (ids !! id) as [l|] eqn:E.
  - erewrite map_fold_delete_L; [|intros; lia|exact E]. done.
  - by rewrite delete_id by done.
Qed.

Lemma refs_of_insert ids id l k : refs_of (<[id := l]> ids) k = (occ l k + refs_of (delete id ids) k)%nat.
Proof. rewrite (refs_of_split _ id), lookup_insert_eq, delete_insert_eq. done. Qed.

Lemma refs_of_pos ids k : (0 < refs_of ids k)%nat ↔ ∃ id l, ids !! id = Some l ∧ k ∈ l.
Proof.
  split.
  - unfold refs_of. induction ids as [|id l ids Hid IH] using map_ind; [rewrite map_fold_empty; lia|].
    rewrite map_fold_insert_L by (done || (intros; lia)). intros Hpos. destruct (decide (k ∈ l)) as [Hin|Hin].
    { exists id, l. by rewrite lookup_insert_eq. }
    assert (E : occ l k = 0%nat).
    { unfold occ. apply length_zero_iff_nil. destruct (filter _ l) as [|x xs] eqn:E; [done|]. exfalso.
      assert (Hx : x ∈ filter (λ k', k' = k) l) by (rewrite E; by constructor).
      apply list_elem_of_filter in Hx as [-> Hx]. done. }
    destruct IH as (id' & l' & E' & Hin'); [lia|]. exists id', l'. rewrite lookup_insert_ne; [done|]. congruence.
  - intros (id & l & E & Hin). rewrite (refs_of_split ids id), E. cbn.
    assert (Hx : k ∈ filter (λ k', k' = k) l) by (by apply list_elem_of_filter). unfold occ.
    destruct (filter _ l); [by apply elem_of_nil in Hx|cbn; lia].
Qed.

Lemma decrement_count key m ids w :
  tracks m w → 1 <= count_of m key →
  ∃ m' calls ref, decrement (λ _, true) key {| refCountMap := Some m; idMap := Some ids |} =
      Some ({| refCountMap := Some m'; idMap := Some ids |}, calls, ref, false) ∧
    ∀ k, count_of m' k = count_of m k - if decide (key = k) then 1 else 0.
Proof.
  intros Ht Hc. unfold decrement, lookup_nil, count_of in *. cbn [refCountMap mbind option_bind].
  destruct (m !! key) as [ref|] eqn:Ek; [|lia]. destruct (Z.eqb_spec (Count ref) 1) as [E|E].
  - eexists _, _, _. split; [done|]. intros k. destruct (decide (key = k)) as [<-|Hne].
    + rewrite lookup_delete_eq, Ek. lia.
    + rewrite lookup_delete_ne by done. destruct (m !! k); lia.
  - eexists _, _, _. split; [done|]. intros k. destruct (decide (key = k)) as [<-|Hne].
    + rewrite lookup_insert_eq, Ek. done.
    + rewrite lookup_insert_ne by done. destruct (m !! k); lia.
Qed.

Lemma decrement_each_count remove keys m ids w :
  (∀ i k, remove i k = true) → tracks m w → (∀ k, Z.of_nat (occ keys k) <= count_of m k) →
  ∃ m' calls, decrement_each remove keys {| refCountMap := Some m; idMap := Some ids |} =
      Some ({| refCountMap := Some m'; idMap := Some ids |}, calls, false) ∧
    ∀ k, count_of m' k = count_of m k - Z.of_nat (occ keys k).
Proof.
  intros Hr. revert m w. induction keys as [|key keys IH]; intros m w Ht Hle.
  { exists m, []. split; [done|]. intros k. cbn. lia. }
  cbn [decrement_each].
  assert (Hd : decrement (remove (length keys)) key {| refCountMap := Some m; idMap := Some ids |} =
               decrement (λ _, true) key {| refCountMap := Some m; idMap := Some ids |}).
  { unfold decrement. by rewrite Hr. }
  destruct (decrement_count key m ids w Ht) as (m1 & calls1 & ref & E1 & C1).
  { specialize (Hle key). rewrite occ_cons, decide_True in Hle by done. lia. }
  destruct (decrement_good (λ _, true) key m ids w Ht) as (m1' & calls1' & E1' & _ & T1).
  rewrite E1 in E1'. cbn in E1'. injection E1' as -> ->. rewrite Hd, E1. cbn [mbind option_bind].
  destruct (IH m1' _ T1) as (m2 & calls2 & E2 & C2).
  { intros k. specialize (Hle k). rewrite occ_cons in Hle. rewrite C1. destruct (decide (key = k)); lia. }
  rewrite E2. cbn [mbind option_bind orb]. eexists m2, _. split; [done|]. intros k. rewrite C2, C1, occ_cons. destruct (decide (key = k)); lia.
Qed.

(** Calls by identifier whose adds are not ignored and whose removes succeed. *)
Definition by_id (op : Op) : Prop :=
  match op with
  | OpIncrementWithID add _ _ => ∀ k, add k ≠ Ignored
  | OpDecrementWithID remove _ => ∀ i k, remove i k = true
  | OpFlush remove _ => ∀ k, remove k = true
  | _ => False
  end.

Lemma exec_balanced op m ids w :
  by_id op → tracks m w → (∀ k, count_of m k = Z.of_nat (refs_of ids k)) →
  ∃ m' ids' calls, exec op {| refCountMap := Some m; idMap := Some ids |} = Some ({| refCountMap := Some m'; idMap := Some ids' |}, calls) ∧
    ∀ k, count_of m' k = Z.of_nat (refs_of ids' k).
Proof.
  intros Hop Ht Hb. destruct op as [add key|add rid key|remove key|remove rid|remove seed]; [done| |done| |].
  - cbn [exec by_id] in *. unfold IncrementWithID, increment, lookup_nil. cbn [refCountMap mbind option_bind].
    assert (Hinsert : ∀ ref, Count ref = count_of m key + 1 →
      ∀ k, count_of (<[key := ref]> m) k = Z.of_nat (refs_of (<[rid := default [] (ids !! rid) ++ [key]]> ids) k)).
    { intros ref Hc k. rewrite refs_of_insert, occ_snoc. specialize (Hb k). rewrite (refs_of_split ids rid) in Hb.
      unfold count_of in *. destruct (decide (key = k)) as [<-|Hne].
      - rewrite lookup_insert_eq. destruct (m !! key); lia.
      - rewrite lookup_insert_ne by done. destruct (m !! k); lia. }
    destruct (m !! key) as [ref|] eqn:Ek; cbn [from_option id].
    + assert (Hc : 1 <= Count ref) by (by eapply Ht). destruct (Z.eqb_spec (Count ref) 0); [lia|]. cbn.
      eexists _, _, _. split; [done|]. apply Hinsert. unfold count_of. by rewrite Ek.
    + cbn [Count Z.eqb]. specialize (Hop key). destruct (add key) as [out| |]; [|done|]; cbn.
      * eexists _, _, _. split; [done|]. apply Hinsert. unfold count_of. by rewrite Ek.
      * eexists m, ids, _. split; [done|]. done.
  - cbn [exec by_id] in *. unfold DecrementWithID. cbn [idMap].
    destruct (decrement_each_count remove (default [] (lookup_nil (Some ids) rid)) m ids w Hop Ht) as (m' & calls & E & Hc).
    { intros k. rewrite Hb, (refs_of_split ids rid). unfold lookup_nil. cbn [mbind option_bind]. lia. }
    rewrite E. cbn [mbind option_bind refCountMap idMap fmap option_fmap option_map]. eexists _, _, _. split; [done|]. intros k.
    rewrite Hc, Hb, (refs_of_split ids rid). unfold lookup_nil. cbn [mbind option_bind]. lia.
  - cbn [exec]. unfold Flush. cbn. eexists ∅, ∅, _. split; [done|]. intros k. unfold count_of. rewrite lookup_empty. done.
Qed.

(** References held by identifiers are counted exactly: a key is in the system
    if and only if some identifier holds it. *)
Theorem refcount_by_id ops :
  Forall by_id ops →
  ∃ c ids w, counter_run ops = Some (c, w) ∧ idMap c = Some ids ∧
    (∀ k, default 0 (Count <$> Get k c) = Z.of_nat (refs_of ids k)) ∧
    ∀ k, is_Some (w !! k) ↔ ∃ id l, ids !! id = Some l ∧ k ∈ l.
Proof.
  intros Hops. assert (H0 : ∃ m ids w, counter_run ops = Some ({| refCountMap := Some m; idMap := Some ids |}, w) ∧ tracks m w ∧
    ∀ k, count_of m k = Z.of_nat (refs_of ids k)).
  { unfold counter_run. induction ops as [|op ops IH] using rev_ind.
    { exists ∅, ∅, ∅. split; [done|]. split; [|done]. split; [by rewrite fmap_empty|]. intros k ref. by rewrite lookup_empty. }
    apply Forall_app in Hops as [Hops [Hop _]%Forall_cons]. destruct (IH Hops) as (m & ids & w & E & Ht & Hb).
    rewrite foldl_snoc, E. cbn [mbind option_bind].
    assert (Hfl : flush_ok op) by (by destruct op).
    destruct (exec_good op m ids w Hfl Ht) as (c' & m' & ids' & calls & E1 & -> & _ & Ht').
    destruct (exec_balanced op m ids w Hop Ht Hb) as (m'' & ids'' & calls'' & E2 & Hb'').
    rewrite E1 in E2. injection E2 as -> -> ->. rewrite E1. cbn. by exists m'', ids'', (foldl apply_call w calls''). }
  destruct H0 as (m & ids & w & E & Ht & Hb). exists {| refCountMap := Some m; idMap := Some ids |}, ids, w.
  split; [done|]. split; [done|]. unfold Get. cbn. split.
  - intros k. rewrite <- Hb. unfold count_of. by destruct (m !! k).
  - intros k. rewrite <- refs_of_pos, (tracks_lookup m w k Ht), fmap_is_Some. specialize (Hb k). unfold count_of in Hb.
    destruct (m !! k) as [ref|] eqn:Ek.
    + assert (1 <= Count ref) by (by eapply Ht). split; [intros _; lia|by exists ref].
    + split; [intros [? [=]]|lia].
Qed.
End Counter.
