(* ===== verification/AllowedIPs.v ===== *)
(** * Allowed addresses of WireGuard peers

    [client/internal/routemanager/refcounter/allowedips.go]: several peers can
    reference a prefix, WireGuard has it on one of them, and the prefix is
    handed over when that one releases it.  The functions that program the
    device are those of [setupRefCounters] in [routemanager/manager.go]: the
    stored peer is the one the prefix was added for. *)
From S2P Require Import Prelude NetIP Order RefCounter.
Open Scope Z_scope.

Record allowedIPsEntry := { peers : gmap string nat; active : string; total : nat }.

Notation AllowedIPsRefCounter := (gmap Prefix allowedIPsEntry).

Definition NewAllowedIPs : AllowedIPsRefCounter := ∅.

(** What the device answers to an add. *)
Inductive AddAnswer := AddOk | AddIgnored | AddFailed.

(** The calls to the device with their outcome. *)
Inductive DeviceCall :=
| AddAllowedIP (prefix : Prefix) (peer : string) (res : AddAnswer)
| RemoveAllowedIP (prefix : Prefix) (peer : string) (ok : bool).

Definition refs_for (e : allowedIPsEntry) (peer : string) : nat := default 0%nat (peers e !! peer).

Definition add_ref (e : allowedIPsEntry) (act peer : string) : allowedIPsEntry :=
  {| peers := <[peer := S (refs_for e peer)]> (peers e); active := act; total := S (total e) |}.

(** The reference an entry returns: its total and the active peer. *)
Definition ref_of (e : allowedIPsEntry) : nat * string := (total e, active e).

(** The counter, the calls, the reference and whether there was an error. *)
Definition Step : Type := AllowedIPsRefCounter * list DeviceCall * (nat * string) * bool.

Definition Increment (add : Prefix → string → AddAnswer) (prefix : Prefix) (peerKey : string) (c : AllowedIPsRefCounter)
    : Step :=
  let e := default {| peers := ∅; active := ""; total := 0 |} (c !! prefix) in
  let c := <[prefix := e]> c in
  let dropped := if (total e =? 0)%nat then delete prefix c else c in
  if String.eqb (active e) "" then
    match add prefix peerKey with
    | AddIgnored => (dropped, [AddAllowedIP prefix peerKey AddIgnored], ref_of e, false)
    | AddFailed => (dropped, [AddAllowedIP prefix peerKey AddFailed], (0%nat, ""), true)
    | AddOk =>
        let e := add_ref e peerKey peerKey in
        (<[prefix := e]> c, [AddAllowedIP prefix peerKey AddOk], ref_of e, false)
    end
  else
    let e := add_ref e (active e) peerKey in
    (<[prefix := e]> c, [], ref_of e, false).

(** The lowest peer key. *)
Definition pickSurvivor (ps : gmap string nat) : option string := head (sort_by strings_Compare (elements (dom ps))).

(** One reference less, if the peer has one. *)
Definition release (e : allowedIPsEntry) (peer : string) : allowedIPsEntry :=
  match refs_for e peer with
  | O => e
  | S n => {| peers := if (n =? 0)%nat then delete peer (peers e) else <[peer := n]> (peers e); active := active e;
              total := (total e - 1)%nat |}
  end.

Definition with_active (e : allowedIPsEntry) (act : string) : allowedIPsEntry :=
  {| peers := peers e; active := act; total := total e |}.

(** The prefix goes to a surviving peer, or the entry is dropped. *)
Definition hand_over (add : Prefix → string → AddAnswer) (prefix : Prefix) (e : allowedIPsEntry) (c : AllowedIPsRefCounter)
    : Step :=
  match pickSurvivor (peers e) with
  | Some survivor =>
      match add prefix survivor with
      | AddOk => (<[prefix := with_active e survivor]> c, [AddAllowedIP prefix survivor AddOk], (total e, survivor), false)
      | res => (<[prefix := with_active e ""]> c, [AddAllowedIP prefix survivor res], (total e, ""), true)
      end
  | None => (delete prefix c, [], (0%nat, ""), false)
  end.

Definition Decrement (add : Prefix → string → AddAnswer) (remove : Prefix → string → bool) (prefix : Prefix)
    (peerKey : string) (c : AllowedIPsRefCounter) : Step :=
  match c !! prefix with
  | None => (c, [], (0%nat, ""), false)
  | Some e =>
      let e := release e peerKey in
      let c := <[prefix := e]> c in
      if negb (String.eqb (active e) "") && (0 <? refs_for e (active e))%nat then (c, [], ref_of e, false)
      else if String.eqb (active e) "" then hand_over add prefix e c
      else if remove prefix (active e) then
        let '(c, calls, ref, err) := hand_over add prefix e c in
        (c, RemoveAllowedIP prefix (active e) true :: calls, ref, err)
      else (c, [RemoveAllowedIP prefix (active e) false], ref_of e, true)
  end.

Section Ops.
Context {MO : MapOrder}.

Definition Flush (remove : Prefix → string → bool) (seed : nat) (c : AllowedIPsRefCounter)
    : AllowedIPsRefCounter * list DeviceCall * bool :=
  let calls := (λ kv : Prefix * allowedIPsEntry, RemoveAllowedIP kv.1 (active kv.2) (remove kv.1 (active kv.2))) <$>
    filter (λ kv : Prefix * allowedIPsEntry, active kv.2 ≠ "") (range_list seed c) in
  (∅, calls, existsb (λ call, match call with RemoveAllowedIP _ _ ok => negb ok | _ => false end) calls).

(** The prefixes that are applied again. *)
Definition ReapplyMatching (pred : string → bool) (c : AllowedIPsRefCounter) : gset Prefix :=
  dom (filter (λ kv : Prefix * allowedIPsEntry, active kv.2 ≠ "" ∧ pred (active kv.2) = true) c).

(** ** The device *)

Definition apply_call (w : gmap Prefix string) (call : DeviceCall) : gmap Prefix string :=
  match call with
  | AddAllowedIP prefix peer AddOk => <[prefix := peer]> w
  | RemoveAllowedIP prefix peer true => if decide (w !! prefix = Some peer) then delete prefix w else w
  | _ => w
  end.

Inductive Op :=
| OpIncrement (add : Prefix → string → AddAnswer) (prefix : Prefix) (peerKey : string)
| OpDecrement (add : Prefix → string → AddAnswer) (remove : Prefix → string → bool) (prefix : Prefix) (peerKey : string)
| OpFlush (remove : Prefix → string → bool) (seed : nat).

Definition exec (op : Op) (c : AllowedIPsRefCounter) : AllowedIPsRefCounter * list DeviceCall :=
  match op with
  | OpIncrement add prefix peerKey => (Increment add prefix peerKey c).1.1
  | OpDecrement add remove prefix peerKey => (Decrement add remove prefix peerKey c).1.1
  | OpFlush remove seed => (Flush remove seed c).1
  end.

Definition run_step (s : AllowedIPsRefCounter * gmap Prefix string) (op : Op) : AllowedIPsRefCounter * gmap Prefix string :=
  let '(c, calls) := exec op s.1 in (c, foldl apply_call s.2 calls).

Definition allowed_run (ops : list Op) : AllowedIPsRefCounter * gmap Prefix string :=
  foldl run_step (NewAllowedIPs, ∅) ops.

(** ** What the device has *)

(** A prefix is added only while no peer has it, and removed only from the peer
    that has it. *)
Definition call_ok (w : gmap Prefix string) (call : DeviceCall) : Prop :=
  match call with AddAllowedIP prefix _ _ => w !! prefix = None | RemoveAllowedIP prefix peer _ => w !! prefix = Some peer end.

Fixpoint calls_ok (w : gmap Prefix string) (calls : list DeviceCall) : Prop :=
  match calls with [] => True | call :: calls' => call_ok w call ∧ calls_ok (apply_call w call) calls' end.

Definition installed (e : option allowedIPsEntry) : option string :=
  e ← e; if String.eqb (active e) "" then None else Some (active e).

Record entry_ok (e : allowedIPsEntry) : Prop := {
  eo_counts p : peers e !! p ≠ Some 0%nat;
  eo_names : peers e !! "" = None;
}.

Record tracks (c : AllowedIPsRefCounter) (w : gmap Prefix string) : Prop := {
  tr_device prefix : w !! prefix = installed (c !! prefix);
  tr_entries prefix e : c !! prefix = Some e → entry_ok e;
}.

Lemma ai_tracks_insert c w prefix e act :
  tracks c w → entry_ok e → active e = act → act ≠ "" → tracks (<[prefix := e]> c) (<[prefix := act]> w).
Proof.
  intros [Hd He] Hok <- Hne. split.
  - intros p. destruct (decide (p = prefix)) as [->|Hn].
    + rewrite !lookup_insert_eq. cbn. destruct (String.eqb_spec (active e) ""); [done|done].
    + by rewrite !lookup_insert_ne.
  - intros p e' [[_ <-]|[_ Hc]]%lookup_insert_Some; [done|by eapply He].
Qed.

Lemma tracks_keep c w prefix e :
  tracks c w → entry_ok e → w !! prefix = installed (Some e) → tracks (<[prefix := e]> c) w.
Proof.
  intros [Hd He] Hok Hw. split.
  - intros p. destruct (decide (p = prefix)) as [->|Hn]; [by rewrite lookup_insert_eq|by rewrite lookup_insert_ne].
  - intros p e' [[_ <-]|[_ Hc]]%lookup_insert_Some; [done|by eapply He].
Qed.

Lemma ai_tracks_delete c w prefix : tracks c w → w !! prefix = None → tracks (delete prefix c) w.
Proof.
  intros [Hd He] Hw. split.
  - intros p. destruct (decide (p = prefix)) as [->|Hn]; [by rewrite lookup_delete_eq|by rewrite lookup_delete_ne].
  - intros p e' [_ Hc]%lookup_delete_Some. by eapply He.
Qed.

Lemma add_ref_ok e act peer : entry_ok e → peer ≠ "" → entry_ok (add_ref e act peer).
Proof.
  intros [Hc Hn] Hp. split; cbn [add_ref peers].
  - intros p. rewrite lookup_insert_Some. intros [[_ [=]]|[_ H]]. by eapply Hc.
  - by rewrite lookup_insert_ne.
Qed.

Lemma release_ok e peer : entry_ok e → entry_ok (release e peer).
Proof.
  intros [Hc Hn]. unfold release. destruct (refs_for e peer) as [|n] eqn:E; [by split|]. split; cbn [peers].
  - intros p. destruct (Nat.eqb_spec n 0); [rewrite lookup_delete_Some; intros [_ H]; by eapply Hc|].
    rewrite lookup_insert_Some. intros [[_ [=]]|[_ H]]; [done|]. by eapply Hc.
  - destruct (Nat.eqb_spec n 0); [by apply lookup_delete_None; right|]. apply lookup_insert_None. split; [done|].
    intros ->. unfold refs_for in E. by rewrite Hn in E.
Qed.

Lemma release_active e peer : active (release e peer) = active e.
Proof. unfold release. by destruct (refs_for e peer). Qed.

Lemma pickSurvivor_elem ps s : pickSurvivor ps = Some s → is_Some (ps !! s).
Proof.
  unfold pickSurvivor. intros E. assert (Hin : s ∈ sort_by strings_Compare (elements (dom ps))).
  { destruct (sort_by _ _); [done|]. injection E as ->. by constructor. }
  rewrite sort_by_perm, elem_of_elements, elem_of_dom in Hin. done.
Qed.

Lemma pickSurvivor_none ps : pickSurvivor ps = None → ps = ∅.
Proof.
  unfold pickSurvivor. intros E. assert (Hl : sort_by strings_Compare (elements (dom ps)) = []) by (by destruct (sort_by _ _)).
  pose proof (sort_by_perm strings_Compare (elements (dom ps))) as Hp. rewrite Hl in Hp. apply Permutation_nil_l in Hp. symmetry in Hp.
  apply (elements_empty_inv (dom ps)) in Hp. by apply dom_empty_inv_L, leibniz_equiv.
Qed.

Lemma entry_ok_same e act : entry_ok e → entry_ok (with_active e act).
Proof. intros [H1 H2]. by split. Qed.

Lemma hand_over_good add prefix e c w :
  entry_ok e → w !! prefix = None →
  (∀ e', entry_ok e' → active e' = "" → tracks (<[prefix := e']> c) w) →
  let '(c', calls, _, _) := hand_over add prefix e c in calls_ok w calls ∧ tracks c' (foldl apply_call w calls).
Proof.
  intros He Hw Hc. unfold hand_over.
  pose proof (Hc _ (entry_ok_same e "" He) eq_refl) as H0.
  destruct (pickSurvivor (peers e)) as [s|] eqn:Es.
  - assert (Hs : s ≠ ""). { intros ->. apply pickSurvivor_elem in Es. rewrite (eo_names e He) in Es. by destruct Es. }
    destruct (add prefix s); cbn; [|done|done]. split; [done|].
    pose proof (ai_tracks_insert _ w prefix (with_active e s) s H0 (entry_ok_same e s He) eq_refl Hs) as H1.
    by rewrite insert_insert_eq in H1.
  - cbn. split; [done|]. pose proof (ai_tracks_delete _ w prefix H0 Hw) as H1. by rewrite delete_insert_eq in H1.
Qed.

Definition op_ok (op : Op) : Prop :=
  match op with
  | OpIncrement _ _ peerKey => peerKey ≠ ""
  | OpFlush remove _ => ∀ prefix peer, remove prefix peer = true
  | _ => True
  end.

Lemma ai_increment_good add prefix peerKey c w :
  peerKey ≠ "" → tracks c w →
  let '(c', calls, _, _) := Increment add prefix peerKey c in calls_ok w calls ∧ tracks c' (foldl apply_call w calls).
Proof.
  intros Hp Ht. unfold Increment. set (e := default _ (c !! prefix)).
  assert (He : entry_ok e).
  { unfold e. destruct (c !! prefix) as [e0|] eqn:E; [by eapply Ht|]. split; [|done]. intros p. cbn. by rewrite lookup_empty. }
  assert (Hw : w !! prefix = installed (Some e)).
  { rewrite (tr_device c w Ht). unfold e. by destruct (c !! prefix). }
  clearbody e. pose proof (tracks_keep c w prefix e Ht He Hw) as H1. cbn in Hw.
  destruct (String.eqb_spec (active e) "") as [Ea|Ea]; cycle 1.
  { cbn. split; [done|]. rewrite insert_insert_eq. apply tracks_keep; [done|by apply add_ref_ok|]. cbn.
    destruct (String.eqb_spec (active e) ""); done. }
  assert (Hdrop : tracks (if (total e =? 0)%nat then delete prefix (<[prefix := e]> c) else <[prefix := e]> c) w).
  { destruct (total e =? 0)%nat; [by apply ai_tracks_delete|done]. }
  destruct (add prefix peerKey); cbn; [|done|done]. split; [done|].
  by apply ai_tracks_insert; [|apply add_ref_ok| |].
Qed.

Lemma ai_decrement_good add remove prefix peerKey c w :
  tracks c w →
  let '(c', calls, _, _) := Decrement add remove prefix peerKey c in calls_ok w calls ∧ tracks c' (foldl apply_call w calls).
Proof.
  intros Ht. unfold Decrement. destruct (c !! prefix) as [e0|] eqn:Ec; [|done].
  pose proof (release_ok e0 peerKey ltac:(by eapply Ht)) as He.
  assert (Hw : w !! prefix = installed (Some (release e0 peerKey))).
  { rewrite (tr_device c w Ht), Ec. cbn. by rewrite release_active. }
  set (e := release e0 peerKey) in *. clearbody e. pose proof (tracks_keep c w prefix e Ht He Hw) as H1. cbn in Hw.
  destruct (negb (String.eqb (active e) "") && (0 <? refs_for e (active e))%nat); [done|].
  destruct (String.eqb_spec (active e) "") as [Ea|Ea].
  { apply hand_over_good; [done|done|]. intros e' He' Ea'. rewrite insert_insert_eq. apply tracks_keep; [done|done|]. cbn.
    by rewrite Ea'. }
  destruct (remove prefix (active e)); [|done].
  assert (Hdel : (delete prefix w : gmap Prefix string) !! prefix = None) by apply lookup_delete_eq.
  pose proof (hand_over_good add prefix e (<[prefix := e]> c) (delete prefix w) He Hdel) as Hg.
  destruct (hand_over _ _ _ _) as [[[c' calls] ref] err]. cbn. rewrite decide_True by done.
  split; [split; [done|]|]; apply Hg; intros e' He' Ea'; rewrite insert_insert_eq.
  all: split; [|intros p x [[_ <-]|[_ Hx]]%lookup_insert_Some; [done|by eapply Ht]].
  all: intros p; destruct (decide (p = prefix)) as [->|Hn];
    [rewrite lookup_delete_eq, lookup_insert_eq; cbn; by rewrite Ea'|rewrite lookup_delete_ne, lookup_insert_ne by done; apply Ht].
Qed.

Lemma ai_foldl_removes (l : list (Prefix * allowedIPsEntry)) (w : gmap Prefix string) :
  NoDup l.*1 → (∀ p e, (p, e) ∈ l → w !! p = Some (active e)) →
  calls_ok w ((λ kv : Prefix * allowedIPsEntry, RemoveAllowedIP kv.1 (active kv.2) true) <$> l) ∧
  ∀ p, foldl apply_call w ((λ kv : Prefix * allowedIPsEntry, RemoveAllowedIP kv.1 (active kv.2) true) <$> l) !! p =
    if decide (p ∈ l.*1) then None else w !! p.
Proof.
  revert w. induction l as [|[k e] l IH]; intros w Hn Hl; [done|]. cbn [fmap list_fmap fst snd] in *.
  apply NoDup_cons in Hn as [Hk Hn]. destruct (IH (delete k w) Hn) as [I1 I2].
  { intros p e' Hin. rewrite lookup_delete_ne; [apply Hl; by constructor|]. intros <-. apply Hk.
    apply list_elem_of_fmap. by exists (k, e'). }
  assert (Hke : w !! k = Some (active e)) by (apply Hl; by constructor).
  cbn [calls_ok foldl]. assert (Eap : apply_call w (RemoveAllowedIP k (active e) true) = delete k w) by (cbn; by rewrite decide_True).
  rewrite Eap. split; [split; [exact Hke|exact I1]|]. intros p. rewrite I2.
  destruct (decide (p ∈ l.*1)) as [Hin|Hin]; [by rewrite decide_True by (by constructor)|].
  destruct (decide (p = k)) as [->|Hne]; [rewrite lookup_delete_eq, decide_True by constructor; done|].
  rewrite lookup_delete_ne, decide_False by (rewrite ?elem_of_cons; naive_solver). done.
Qed.

Lemma ai_flush_good remove seed c w :
  (∀ prefix peer, remove prefix peer = true) → tracks c w →
  calls_ok w (Flush remove seed c).1.2 ∧ foldl apply_call w (Flush remove seed c).1.2 = ∅.
Proof.
  intros Hr Ht. unfold Flush. cbn [fst snd]. set (l := filter (λ kv : Prefix * allowedIPsEntry, active kv.2 ≠ "") (range_list seed c)).
  assert (El : (λ kv : Prefix * allowedIPsEntry, RemoveAllowedIP kv.1 (active kv.2) (remove kv.1 (active kv.2))) <$> l =
               (λ kv : Prefix * allowedIPsEntry, RemoveAllowedIP kv.1 (active kv.2) true) <$> l).
  { apply list_fmap_ext. intros i kv _. by rewrite Hr. }
  rewrite El. destruct (ai_foldl_removes l w) as [F1 F2].
  - eapply sublist_NoDup; [apply (NoDup_fst_range_list seed c)|]. apply fmap_sublist, sublist_filter.
  - intros p e [Ha Hin%elem_of_range_list]%list_elem_of_filter. rewrite (tr_device c w Ht), Hin. cbn in Ha |- *.
    by destruct (String.eqb_spec (active e) "").
  - split; [done|]. apply map_eq. intros p. rewrite F2, lookup_empty. destruct (decide _) as [|Hin]; [done|].
    rewrite (tr_device c w Ht). destruct (c !! p) as [e|] eqn:Ec; [|done]. cbn. destruct (String.eqb_spec (active e) "") as [|Ha]; [done|].
    exfalso. apply Hin, list_elem_of_fmap. exists (p, e). split; [done|]. apply list_elem_of_filter. by rewrite elem_of_range_list.
Qed.

Lemma ai_exec_good op c w :
  op_ok op → tracks c w → let '(c', calls) := exec op c in calls_ok w calls ∧ tracks c' (foldl apply_call w calls).
Proof.
  intros Hop Ht. destruct op as [add prefix peerKey|add remove prefix peerKey|remove seed]; cbn [exec].
  - pose proof (ai_increment_good add prefix peerKey c w Hop Ht) as H. by destruct (Increment _ _ _ _) as [[[c' calls] ref] err].
  - pose proof (ai_decrement_good add remove prefix peerKey c w Ht) as H. by destruct (Decrement _ _ _ _ _) as [[[c' calls] ref] err].
  - destruct (ai_flush_good remove seed c w Hop Ht) as [H1 H2]. destruct (Flush remove seed c) as [[c' calls] err] eqn:E.
    cbn [fst snd] in *. split; [done|]. rewrite H2. unfold Flush in E. injection E as <- _ _.
    split; [intros p; by rewrite !lookup_empty|intros p e; by rewrite lookup_empty].
Qed.

(** Whatever the device answers (a flush apart, which forgets what it could not
    remove): the counter knows for every prefix which peer has it on the
    device, a prefix is added only while no peer has it, and it is removed
    only from the peer that has it. *)
Theorem allowed_ips_track ops :
  Forall op_ok ops →
  let '(c, w) := allowed_run ops in
  (∀ prefix, w !! prefix = installed (c !! prefix)) ∧
  ∀ op, op_ok op → calls_ok w (exec op c).2.
Proof.
  intros Hops. assert (H : tracks (allowed_run ops).1 (allowed_run ops).2).
  { unfold allowed_run. induction ops as [|op ops IH] using rev_ind.
    { cbn. unfold NewAllowedIPs. split; [intros p; by rewrite !lookup_empty|intros p e; by rewrite lookup_empty]. }
    apply Forall_app in Hops as [Hops [Hop _]%Forall_cons]. rewrite foldl_snoc. set (s := foldl run_step _ ops) in *.
    specialize (IH Hops). unfold run_step. pose proof (ai_exec_good op s.1 s.2 Hop IH) as H1. destruct (exec op s.1) as [c' calls]. by apply H1. }
  destruct (allowed_run ops) as [c w]. cbn [fst snd] in H. split; [apply H|].
  intros op Hop. pose proof (ai_exec_good op c w Hop H) as H1. destruct (exec op c) as [c' calls]. by apply H1.
Qed.

(** ** Who holds a reference *)

(** The references of each peer to each prefix, from the calls alone. *)
Definition held_step (h : Prefix → string → nat) (op : Op) (prefix : Prefix) (peer : string) : nat :=
  match op with
  | OpIncrement _ p k => if decide (p = prefix ∧ k = peer) then S (h prefix peer) else h prefix peer
  | OpDecrement _ _ p k => if decide (p = prefix ∧ k = peer) then pred (h prefix peer) else h prefix peer
  | OpFlush _ _ => 0
  end.

Definition held (ops : list Op) : Prefix → string → nat := foldl held_step (λ _ _, 0%nat) ops.

(** The device accepts what it is asked. *)
Definition device_ok (op : Op) : Prop :=
  match op with
  | OpIncrement add _ peerKey => peerKey ≠ "" ∧ ∀ p k, add p k = AddOk
  | OpDecrement add remove _ _ => ∀ p k, add p k = AddOk ∧ remove p k = true
  | OpFlush remove _ => ∀ p k, remove p k = true
  end.

(** The counts are the references, and the active peer has one. *)
Record settled (h : Prefix → string → nat) (c : AllowedIPsRefCounter) : Prop := {
  se_refs prefix peer : h prefix peer = match c !! prefix with Some e => refs_for e peer | None => 0%nat end;
  se_active prefix e : c !! prefix = Some e → active e ≠ "" ∧ (0 < refs_for e (active e))%nat;
}.

Lemma add_ref_refs e act peer k : refs_for (add_ref e act peer) k = if decide (peer = k) then S (refs_for e k) else refs_for e k.
Proof.
  unfold refs_for at 1. cbn [add_ref peers]. destruct (decide (peer = k)) as [->|Hne]; [by rewrite lookup_insert_eq|by rewrite lookup_insert_ne].
Qed.

Lemma release_refs e peer k : refs_for (release e peer) k = if decide (peer = k) then pred (refs_for e k) else refs_for e k.
Proof.
  unfold release. destruct (refs_for e peer) as [|n] eqn:E.
  { destruct (decide (peer = k)) as [<-|]; [by rewrite E|done]. }
  unfold refs_for at 1. cbn [peers]. destruct (Nat.eqb_spec n 0) as [->|Hn].
  - destruct (decide (peer = k)) as [<-|Hne]; [by rewrite lookup_delete_eq, E|by rewrite lookup_delete_ne].
  - destruct (decide (peer = k)) as [<-|Hne]; [by rewrite lookup_insert_eq, E|by rewrite lookup_insert_ne].
Qed.

Lemma settled_insert h c prefix e (h' : Prefix → string → nat) :
  settled h c → active e ≠ "" → (0 < refs_for e (active e))%nat → (∀ k, h' prefix k = refs_for e k) →
  (∀ p k, p ≠ prefix → h' p k = h p k) → settled h' (<[prefix := e]> c).
Proof.
  intros [Hr Ha] H1 H2 H3 H4. split.
  - intros p k. destruct (decide (p = prefix)) as [->|Hne]; [by rewrite lookup_insert_eq, H3|].
    by rewrite lookup_insert_ne, H4, Hr.
  - intros p e' [[_ <-]|[_ Hc]]%lookup_insert_Some; [done|by eapply Ha].
Qed.

Lemma increment_settled h add prefix peerKey c :
  peerKey ≠ "" → (∀ p k, add p k = AddOk) → settled h c →
  settled (held_step h (OpIncrement add prefix peerKey)) (Increment add prefix peerKey c).1.1.1.
Proof.
  intros Hp Hadd Hs. unfold Increment. set (e := default _ (c !! prefix)).
  assert (He : ∀ k, h prefix k = refs_for e k). { intros k. rewrite (se_refs h c Hs). unfold e. by destruct (c !! prefix). }
  assert (Hactive : active e ≠ "" → (0 < refs_for e (active e))%nat).
  { unfold e. destruct (c !! prefix) as [e0|] eqn:E; cbn; [|done]. intros _. by eapply Hs. }
  clearbody e. rewrite Hadd. destruct (String.eqb_spec (active e) "") as [Ea|Ea]; cbn [fst]; rewrite insert_insert_eq.
  - apply (settled_insert h c prefix); [done|done| | |].
    + cbn [add_ref active]. rewrite add_ref_refs, decide_True by done. lia.
    + intros k. cbn. rewrite add_ref_refs, He. destruct (decide (peerKey = k)) as [->|]; [by rewrite decide_True|].
      rewrite decide_False by tauto. done.
    + intros p k Hne. cbn. rewrite decide_False by (intros [? _]; congruence). done.
  - apply (settled_insert h c prefix); [done|done| | |].
    + cbn [add_ref active]. rewrite add_ref_refs. specialize (Hactive Ea). destruct (decide _); lia.
    + intros k. cbn. rewrite add_ref_refs, He. destruct (decide (peerKey = k)) as [->|]; [by rewrite decide_True|].
      rewrite decide_False by tauto. done.
    + intros p k Hne. cbn. rewrite decide_False by (intros [? _]; congruence). done.
Qed.

Lemma decrement_settled h add remove prefix peerKey c :
  (∀ p k, add p k = AddOk ∧ remove p k = true) → settled h c → (∀ p e, c !! p = Some e → entry_ok e) →
  settled (held_step h (OpDecrement add remove prefix peerKey)) (Decrement add remove prefix peerKey c).1.1.1.
Proof.
  intros Hdev Hs Hok. unfold Decrement. destruct (c !! prefix) as [e0|] eqn:Ec; cycle 1.
  { cbn [fst]. split; [|apply Hs]. intros p k. cbn. rewrite (se_refs h c Hs). destruct (decide _) as [[<- <-]|]; [by rewrite Ec|done]. }
  destruct (se_active h c Hs prefix e0 Ec) as [Hne Hpos]. pose proof (release_ok e0 peerKey (Hok _ _ Ec)) as He.
  assert (Hh : ∀ k, held_step h (OpDecrement add remove prefix peerKey) prefix k = refs_for (release e0 peerKey) k).
  { intros k. cbn. rewrite release_refs, (se_refs h c Hs), Ec. destruct (decide (peerKey = k)) as [->|]; [by rewrite decide_True|].
    rewrite decide_False by tauto. done. }
  assert (Hoth : ∀ p k, p ≠ prefix → held_step h (OpDecrement add remove prefix peerKey) p k = h p k).
  { intros p k Hn. cbn. rewrite decide_False by (intros [? _]; congruence). done. }
  pose proof (release_active e0 peerKey) as Eact. set (e := release e0 peerKey) in *. clearbody e. rewrite Eact.
  destruct (String.eqb_spec (active e0) "") as [|_]; [done|]. cbn [negb andb].
  destruct (0 <? refs_for e (active e0))%nat eqn:El.
  { apply Nat.ltb_lt in El. cbn [fst]. apply (settled_insert h c prefix); [done|by rewrite Eact|by rewrite Eact|done|done]. }
  rewrite (proj2 (Hdev _ _)). unfold hand_over. destruct (pickSurvivor (peers e)) as [s|] eqn:Es.
  - rewrite (proj1 (Hdev _ _)). cbn [fst]. rewrite insert_insert_eq. destruct (pickSurvivor_elem _ _ Es) as [n Hn].
    apply (settled_insert h c prefix); [done| | |done|done].
    + cbn. intros ->. rewrite (eo_names e He) in Hn. done.
    + cbn. unfold refs_for. cbn. rewrite Hn. cbn. pose proof (eo_counts e He s). destruct n; [congruence|lia].
  - cbn [fst]. rewrite delete_insert_eq. apply pickSurvivor_none in Es. split.
    + intros p k. destruct (decide (p = prefix)) as [->|Hn].
      * rewrite lookup_delete_eq, Hh. unfold refs_for. by rewrite Es, lookup_empty.
      * rewrite lookup_delete_ne, Hoth by done. apply Hs.
    + intros p e' [_ Hc]%lookup_delete_Some. by eapply Hs.
Qed.

(** C27. While the device accepts what it is asked: a prefix is on the device if and
    only if some peer holds a reference to it, and it is on a peer that does. *)
Theorem allowed_ips_handed_over ops :
  Forall device_ok ops →
  let w := (allowed_run ops).2 in
  ∀ prefix,
    (∀ peer, w !! prefix = Some peer → (0 < held ops prefix peer)%nat) ∧
    (w !! prefix = None → ∀ peer, held ops prefix peer = 0%nat).
Proof.
  intros Hops. assert (H : tracks (allowed_run ops).1 (allowed_run ops).2 ∧ settled (held ops) (allowed_run ops).1).
  { unfold allowed_run, held. induction ops as [|op ops IH] using rev_ind.
    { cbn. unfold NewAllowedIPs. split; split.
      - intros p. by rewrite !lookup_empty.
      - intros p e. by rewrite lookup_empty.
      - intros p k. by rewrite lookup_empty.
      - intros p e. by rewrite lookup_empty. }
    apply Forall_app in Hops as [Hops [Hop _]%Forall_cons]. rewrite !foldl_snoc. set (s := foldl run_step _ ops) in *.
    destruct (IH Hops) as [Ht Hs]. assert (Hok : op_ok op). { destruct op; cbn in Hop |- *; tauto. }
    unfold run_step. pose proof (ai_exec_good op s.1 s.2 Hok Ht) as H1.
    assert (H2 : settled (held_step (foldl held_step (λ _ _, 0%nat) ops) op) (exec op s.1).1).
    { destruct op as [add prefix peerKey|add remove prefix peerKey|remove seed]; cbn [exec].
      - destruct Hop as [Hp Ha]. by apply increment_settled.
      - apply decrement_settled; [done|done|apply Ht].
      - unfold Flush. cbn [fst]. split; [intros p k; by rewrite lookup_empty|intros p e; by rewrite lookup_empty]. }
    destruct (exec op s.1) as [c' calls]. cbn [fst snd] in *. split; [apply H1|done]. }
  destruct H as [Ht Hs]. cbn zeta. intros prefix. rewrite (tr_device _ _ Ht). split.
  - intros peer. destruct ((allowed_run ops).1 !! prefix) as [e|] eqn:Ec; [|done]. cbn.
    destruct (String.eqb (active e) ""); [done|]. intros [= <-]. rewrite (se_refs _ _ Hs), Ec. by eapply Hs.
  - intros Hn peer. rewrite (se_refs _ _ Hs). destruct ((allowed_run ops).1 !! prefix) as [e|] eqn:Ec; [|done].
    destruct (se_active _ _ Hs prefix e Ec) as [Hne _]. cbn in Hn. by destruct (String.eqb_spec (active e) "").
Qed.
End Ops.

(** ** Concrete runs of the reference counters

    Instances of the theorems, and two defects. *)

#[local] Existing Instance canonical_order.

Definition added (k : string) : AddResult := Added 7.
Definition ignored (k : string) : AddResult (O := Z) := Ignored.
Definition removed (i : nat) (k : string) : bool := true.

(** An ignored add is not counted but grouped under its identifier all the
    same.  When the add succeeds for another identifier later, the release of
    the first one removes the key that the second still holds. *)
Theorem ignored_reference_steals :
  match counter_run 0 [OpIncrementWithID ignored "a" "10.0.0.1/32"; OpIncrementWithID added "b" "10.0.0.1/32";
                       OpDecrementWithID removed "a"] with
  | Some (c, w) => w !! "10.0.0.1/32" = None ∧ idMap c = Some {["b" := ["10.0.0.1/32"]]}
  | None => False
  end.
Proof. vm_compute. by split. Qed.

(** The state read from disk keeps its nil maps: the replacement is stored in
    the temporary.  The next reference panics. *)
Theorem null_counter_panics :
  RefCounter.Increment 0 added "10.0.0.1/32" (UnmarshalJSON {| js_refCountMap := None; js_idMap := None |}) = None.
Proof. reflexivity. Qed.

(** ** Instances of the theorems *)

Definition two_holders : list (RefCounter.Op (K := string) (O := Z)) :=
  [OpIncrementWithID added "a" "k"; OpIncrementWithID added "b" "k"; OpDecrementWithID removed "a"].

Lemma refcount_by_id_witness :
  ∃ c ids w, counter_run 0 two_holders = Some (c, w) ∧ idMap c = Some ids ∧ w !! "k" = Some 7 ∧
    default 0 (Count <$> Get "k" c) = Z.of_nat (refs_of ids "k").
Proof.
  destruct (refcount_by_id 0 two_holders) as (c & ids & w & E & Hi & Hc & _).
  { repeat constructor; done. }
  exists c, ids, w. split; [exact E|]. split; [exact Hi|]. split; [|apply Hc].
  vm_compute in E. injection E as _ <-. reflexivity.
Defined.

Lemma refcount_tracks_witness :
  ∃ c w, counter_run 0 two_holders = Some (c, w) ∧ ∀ k, w !! k = Out <$> Get k c.
Proof.
  destruct (refcount_tracks 0 two_holders) as (c & w & E & Hw & _).
  { repeat constructor. }
  exists c, w. split; [exact E|exact Hw].
Defined.

Definition net10 : Prefix := PrefixFrom (AddrV4 167772160) 24.
Definition accepts (p : Prefix) (k : string) : AddAnswer := AddOk.
Definition removes (p : Prefix) (k : string) : bool := true.

(** Two peers reference a network; the first releases it. *)
Definition hand : list AllowedIPs.Op :=
  [AllowedIPs.OpIncrement accepts net10 "p1"; AllowedIPs.OpIncrement accepts net10 "p2";
   AllowedIPs.OpDecrement accepts removes net10 "p1"].

Lemma allowed_ips_handed_over_witness :
  (allowed_run hand).2 !! net10 = Some "p2" ∧ (0 < held hand net10 "p2")%nat.
Proof.
  assert (E : (allowed_run hand).2 !! net10 = Some "p2") by (vm_compute; reflexivity).
  split; [exact E|]. apply (allowed_ips_handed_over hand); [|exact E].
  repeat constructor; done.
Defined.

Lemma allowed_ips_track_witness :
  let '(c, w) := allowed_run hand in w !! net10 = installed (c !! net10).
Proof.
  pose proof (allowed_ips_track hand) as H. destruct (allowed_run hand) as [c w].
  destruct H as [H _]; [repeat constructor; done|]. apply H.
Defined.
