(* ===== verification/FlowRoutes.v ===== *)
(** * The resource an address belongs to

    [client/internal/peer/route.go] and [CheckRoutes] of
    [client/internal/peer/status.go]: the prefixes routed locally and by other
    peers with the resources they stand for, kept in lists ordered by length,
    and the addresses that were resolved for a resource.

    [sort.Slice] does not keep the order of equal elements, so the sort is a
    parameter known by what the package documents. *)
From stdpp Require Import sorting.
From S2P Require Import Prelude NetIP Order.
Open Scope Z_scope.

Class SortSlice := {
  sort_slice : ∀ {A : Type}, (A → Z) → list A → list A;
  sort_slice_perm : ∀ {A : Type} (key : A → Z) l, sort_slice key l ≡ₚ l;
  sort_slice_sorted : ∀ {A : Type} (key : A → Z) l,
    StronglySorted (λ x y, key y <= key x) (sort_slice key l);
}.

Record routeEntry := { prefix : Prefix; resourceID : string }.

Record routeIDLookup := {
  localRoutes : list routeEntry;
  remoteRoutes : list routeEntry;
  resolvedIPs : gmap Addr string;
}.

Definition empty_lookup : routeIDLookup := {| localRoutes := []; remoteRoutes := []; resolvedIPs := ∅ |}.

Section Routes.
Context {SS : SortSlice}.

(** The loop that updates the entry of a route, if there is one. *)
Fixpoint update_entry (id : string) (route : Prefix) (l : list routeEntry) : option (list routeEntry) :=
  match l with
  | [] => None
  | entry :: l' =>
      if bool_decide (prefix entry = route) then Some ({| prefix := prefix entry; resourceID := id |} :: l')
      else (λ k, entry :: k) <$> update_entry id route l'
  end.

Definition add_route (id : string) (route : Prefix) (l : list routeEntry) : list routeEntry :=
  match update_entry id route l with
  | Some l' => l'
  | None => sort_slice (λ e, prefix_Bits (prefix e)) (l ++ [{| prefix := route; resourceID := id |}])
  end.

Fixpoint remove_route (route : Prefix) (l : list routeEntry) : list routeEntry :=
  match l with
  | [] => []
  | entry :: l' => if bool_decide (prefix entry = route) then l' else entry :: remove_route route l'
  end.

Definition AddLocalRouteID (id : string) (route : Prefix) (r : routeIDLookup) : routeIDLookup :=
  {| localRoutes := add_route id route (localRoutes r); remoteRoutes := remoteRoutes r; resolvedIPs := resolvedIPs r |}.

Definition RemoveLocalRouteID (route : Prefix) (r : routeIDLookup) : routeIDLookup :=
  {| localRoutes := remove_route route (localRoutes r); remoteRoutes := remoteRoutes r; resolvedIPs := resolvedIPs r |}.

Definition AddRemoteRouteID (id : string) (route : Prefix) (r : routeIDLookup) : routeIDLookup :=
  {| localRoutes := localRoutes r; remoteRoutes := add_route id route (remoteRoutes r); resolvedIPs := resolvedIPs r |}.

Definition RemoveRemoteRouteID (route : Prefix) (r : routeIDLookup) : routeIDLookup :=
  {| localRoutes := localRoutes r; remoteRoutes := remove_route route (remoteRoutes r); resolvedIPs := resolvedIPs r |}.

Definition AddResolvedIP (id : string) (route : Prefix) (r : routeIDLookup) : routeIDLookup :=
  {| localRoutes := localRoutes r; remoteRoutes := remoteRoutes r;
     resolvedIPs := <[prefix_Addr route := id]> (resolvedIPs r) |}.

Definition RemoveResolvedIP (route : Prefix) (r : routeIDLookup) : routeIDLookup :=
  {| localRoutes := localRoutes r; remoteRoutes := remoteRoutes r;
     resolvedIPs := delete (prefix_Addr route) (resolvedIPs r) |}.

(** The resource of an address and whether it is reached through an exit
    node. *)
Definition Lookup (ip : Addr) (r : routeIDLookup) : string * bool :=
  match resolvedIPs r !! ip with
  | Some res => (res, false)
  | None =>
      let scan routes init :=
        match find_first (λ e, prefix_Contains (prefix e) ip) routes with
        | Some e => (resourceID e, prefix_Bits (prefix e) =? 0)
        | None => init
        end in
      let '(id, exit) := scan (localRoutes r) ("", false) in
      if String.eqb id "" then scan (remoteRoutes r) (id, exit) else (id, exit)
  end.

(** [CheckRoutes]; [None] is the nil recorder. *)
Definition CheckRoutes (d : option routeIDLookup) (ip : Addr) : string * bool :=
  match d with None => ("", false) | Some r => Lookup ip r end.

(** ** What is registered *)

Inductive route_op :=
| AddLocal (id : string) (route : Prefix)
| RemoveLocal (route : Prefix)
| AddRemote (id : string) (route : Prefix)
| RemoveRemote (route : Prefix)
| AddResolved (id : string) (route : Prefix)
| RemoveResolved (route : Prefix).

Definition route_step (r : routeIDLookup) (op : route_op) : routeIDLookup :=
  match op with
  | AddLocal id route => AddLocalRouteID id route r
  | RemoveLocal route => RemoveLocalRouteID route r
  | AddRemote id route => AddRemoteRouteID id route r
  | RemoveRemote route => RemoveRemoteRouteID route r
  | AddResolved id route => AddResolvedIP id route r
  | RemoveResolved route => RemoveResolvedIP route r
  end.

(** The same history as three maps. *)
Record registered := {
  locals : gmap Prefix string;
  remotes : gmap Prefix string;
  resolved : gmap Addr string;
}.

Definition register_op (a : registered) (op : route_op) : registered :=
  match op with
  | AddLocal id route => {| locals := <[route := id]> (locals a); remotes := remotes a; resolved := resolved a |}
  | RemoveLocal route => {| locals := delete route (locals a); remotes := remotes a; resolved := resolved a |}
  | AddRemote id route => {| locals := locals a; remotes := <[route := id]> (remotes a); resolved := resolved a |}
  | RemoveRemote route => {| locals := locals a; remotes := delete route (remotes a); resolved := resolved a |}
  | AddResolved id route =>
      {| locals := locals a; remotes := remotes a; resolved := <[prefix_Addr route := id]> (resolved a) |}
  | RemoveResolved route =>
      {| locals := locals a; remotes := remotes a; resolved := delete (prefix_Addr route) (resolved a) |}
  end.

Definition routes_after (ops : list route_op) : routeIDLookup := foldl route_step empty_lookup ops.
Definition registered_after (ops : list route_op) : registered :=
  foldl register_op {| locals := ∅; remotes := ∅; resolved := ∅ |} ops.

(** [o] is a most specific registered prefix of an address. *)
Definition most_specific (m : gmap Prefix string) (ip : Addr) (o : option Prefix) : Prop :=
  match o with
  | None => ∀ p, is_Some (m !! p) → prefix_Contains p ip = false
  | Some p => is_Some (m !! p) ∧ prefix_Contains p ip = true ∧
      ∀ q, is_Some (m !! q) → prefix_Contains q ip = true → prefix_Bits q <= prefix_Bits p
  end.

Definition resource_of (m : gmap Prefix string) (o : option Prefix) : string :=
  default "" (p ← o; m !! p).

Definition is_exit (o : option Prefix) : bool := from_option (λ p, prefix_Bits p =? 0) false o.

Definition masked (p : Prefix) : Prop := prefix_Masked p = p ∧ 0 <= prefix_Bits p <= BitLen (prefix_Addr p).

(** ** Lemmas *)

(** The list of one table against its map. *)
Definition represents (l : list routeEntry) (m : gmap Prefix string) : Prop :=
  NoDup (prefix <$> l) ∧ StronglySorted (λ x y, prefix_Bits (prefix y) <= prefix_Bits (prefix x)) l ∧
  ∀ e, e ∈ l ↔ m !! prefix e = Some (resourceID e).

Lemma update_entry_None id route l : update_entry id route l = None ↔ route ∉ (prefix <$> l).
Proof.
  induction l as [|e l IH]; simpl; [split; [intros _; apply not_elem_of_nil|done]|].
  rewrite not_elem_of_cons. case_bool_decide as E; [naive_solver|].
  rewrite fmap_None, IH. naive_solver.
Qed.

Lemma update_entry_Some id route l l' : update_entry id route l = Some l' →
  ∃ l1 e l2, l = l1 ++ e :: l2 ∧ prefix e = route ∧ l' = l1 ++ {| prefix := route; resourceID := id |} :: l2.
Proof.
  revert l'. induction l as [|e l IH]; intros l'; simpl; [done|]. case_bool_decide as E.
  - intros [= <-]. exists [], e, l. by rewrite E.
  - intros (k & Hk & ->)%fmap_Some. apply IH in Hk as (l1 & e' & l2 & -> & ? & ->). by exists (e :: l1), e', l2.
Qed.

Lemma remove_route_spec route l : NoDup (prefix <$> l) →
  remove_route route l = filter (λ e, prefix e ≠ route) l.
Proof.
  induction l as [|e l IH]; simpl; [done|]. intros [Hn Hd]%NoDup_cons. rewrite filter_cons.
  case_bool_decide as E.
  - rewrite decide_False by naive_solver. symmetry. apply filter_all_id.
    apply Forall_forall. intros e' He' E'. apply Hn. rewrite E, <- E'. by apply list_elem_of_fmap_2.
  - by rewrite decide_True, IH.
Qed.

Lemma sorted_same_keys (l l' : list routeEntry) : prefix <$> l' = prefix <$> l →
  StronglySorted (λ x y, prefix_Bits (prefix y) <= prefix_Bits (prefix x)) l →
  StronglySorted (λ x y, prefix_Bits (prefix y) <= prefix_Bits (prefix x)) l'.
Proof.
  revert l'. induction l as [|e l IH]; intros [|e' l'] E Hs; try done.
  injection E as E1 E2. apply StronglySorted_inv in Hs as [Hs Hf]. constructor; [by apply IH|].
  rewrite E1. change (prefix <$> l' = prefix <$> l) in E2. rewrite Forall_forall in *. intros x Hx.
  apply (list_elem_of_fmap_2 prefix) in Hx. rewrite E2 in Hx. apply list_elem_of_fmap in Hx as (y & -> & Hy). by apply Hf.
Qed.

Lemma add_route_represents id route l m : represents l m → represents (add_route id route l) (<[route := id]> m).
Proof.
  intros (Hn & Hs & He). unfold add_route. destruct (update_entry id route l) as [l'|] eqn:E.
  - apply update_entry_Some in E as (l1 & e & l2 & -> & Ee & ->). split_and!.
    + rewrite fmap_app, fmap_cons in *. simpl in *. by rewrite Ee in Hn.
    + eapply sorted_same_keys; [|exact Hs]. rewrite !fmap_app, !fmap_cons. simpl. by rewrite Ee.
    + rewrite fmap_app, fmap_cons, Ee, NoDup_app in Hn. destruct Hn as (_ & Hx & Hn).
      apply NoDup_cons in Hn as [Hn _]. intros x. destruct (decide (prefix x = route)) as [Ex|Ex].
      * rewrite Ex, lookup_insert_eq, elem_of_app, elem_of_cons. split.
        -- intros [Hi|[->|Hi]]; [|done|].
           ++ destruct (Hx (prefix x)); [by apply list_elem_of_fmap_2|]. rewrite Ex. left.
           ++ destruct Hn. rewrite <- Ex. by apply list_elem_of_fmap_2.
        -- intros [= ->]. right. left. destruct x. simpl in *. by subst.
      * rewrite lookup_insert_ne by done. rewrite <- He, !elem_of_app, !elem_of_cons.
        assert (x ≠ e) by congruence. assert (x ≠ {| prefix := route; resourceID := id |}) by (intros ->; done). tauto.
  - apply update_entry_None in E.
    assert (l ++ [{| prefix := route; resourceID := id |}] ≡ₚ sort_slice (λ e, prefix_Bits (prefix e)) (l ++ [{| prefix := route; resourceID := id |}])) as Hp
      by (symmetry; apply sort_slice_perm).
    split_and!.
    + rewrite <- Hp, fmap_app. apply NoDup_app. split_and!; [done| |apply NoDup_singleton].
      intros p Hp1 Hp2%list_elem_of_singleton. by subst.
    + apply sort_slice_sorted.
    + intros x. rewrite <- Hp, elem_of_app, list_elem_of_singleton. destruct (decide (prefix x = route)) as [Ex|Ex].
      * rewrite Ex, lookup_insert_eq. split.
        -- intros [Hi| ->]; [|done]. destruct E. rewrite <- Ex. by apply list_elem_of_fmap_2.
        -- intros [= ->]. right. destruct x. simpl in *. by subst.
      * rewrite lookup_insert_ne, <- He by done. split; [|by left]. by intros [?| ->].
Qed.

Lemma remove_route_represents route l m : represents l m → represents (remove_route route l) (delete route m).
Proof.
  intros (Hn & Hs & He). rewrite remove_route_spec by done. split_and!.
  - eapply sublist_NoDup; [exact Hn|]. apply fmap_sublist. apply sublist_filter.
  - by apply StronglySorted_filter'.
  - intros x. rewrite list_elem_of_filter, He, lookup_delete_Some. naive_solver.
Qed.

(** The first match of an ordered list is a most specific one. *)
Lemma scan_represents l m ip init : represents l m → ∃ o, most_specific m ip o ∧
  match find_first (λ e, prefix_Contains (prefix e) ip) l with
  | Some e => (resourceID e, prefix_Bits (prefix e) =? 0)
  | None => init
  end = match o with Some _ => (resource_of m o, is_exit o) | None => init end.
Proof.
  intros (_ & Hs & He). destruct (find_first _ l) as [e|] eqn:E.
  - exists (Some (prefix e)). destruct (find_first_Some _ _ _ E) as [Hin Hc].
    assert (Hm : m !! prefix e = Some (resourceID e)) by (by apply He). split; [|cbn; by rewrite Hm].
    split_and!; [eauto|done|]. intros q [id Hq] Hc'.
    assert (Hin' : {| prefix := q; resourceID := id |} ∈ l) by (by apply He).
    clear He Hm Hin. revert E Hin'. induction Hs as [|x l Hs IH Hf]; [done|]. cbn [find_first].
    destruct (prefix_Contains (prefix x) ip) eqn:Ex.
    + intros [= ->] [<-|Hin]%elem_of_cons; [cbn; lia|]. rewrite Forall_forall in Hf. by apply Hf in Hin.
    + intros E [Hx|Hin]%elem_of_cons; [|by apply IH]. subst x. cbn in Ex. congruence.
  - exists None. split; [|done]. intros p [id Hp].
    by apply (proj1 (find_first_None _ _) E {| prefix := p; resourceID := id |}), He.
Qed.

Lemma routes_represent ops :
  represents (localRoutes (routes_after ops)) (locals (registered_after ops)) ∧
  represents (remoteRoutes (routes_after ops)) (remotes (registered_after ops)) ∧
  resolvedIPs (routes_after ops) = resolved (registered_after ops).
Proof.
  unfold routes_after, registered_after. induction ops as [|op ops IH] using rev_ind.
  - cbn. assert (represents [] ∅).
    { split_and!; [constructor..|]. intros e. rewrite elem_of_nil, lookup_empty. done. }
    done.
  - rewrite !foldl_app. cbn [foldl]. destruct IH as (H1 & H2 & H3).
    destruct op; cbn; rewrite ?H3; split_and!; auto using add_route_represents, remove_route_represents.
Qed.

(** Prefixes without host bits are told apart by their lengths. *)
Lemma masked_unique p q ip : masked p → masked q → prefix_Contains p ip = true → prefix_Contains q ip = true →
  prefix_Bits p = prefix_Bits q → p = q.
Proof.
  destruct p as [pa pb], q as [qa qb]. unfold masked, prefix_Contains, prefix_Masked, prefix_IsValid. cbn.
  intros [Mp Rp] [Mq Rq] Hp Hq E. bools. subst qb.
  destruct Hp as [[[[V _] Z0] L1] X1], Hq as [[[_ _] L2] X2].
  assert (Hsh : Z.shiftr (addr_val pa) (BitLen ip - pb) = Z.shiftr (addr_val qa) (BitLen ip - pb)).
  { rewrite Z.shiftr_lxor in X1, X2. apply Z.lxor_eq in X1, X2. congruence. }
  rewrite (proj2 (Z.leb_le 0 pb) V) in Mp, Mq.
  destruct pa, qa, ip; cbn in *; try done; try lia; unfold mask_low in *;
    injection Mp; injection Mq; intros; congruence.
Qed.

Lemma most_specific_unique m ip o o' : (∀ p, is_Some (m !! p) → masked p) →
  most_specific m ip o → most_specific m ip o' → o = o'.
Proof.
  intros Hm. destruct o as [p|], o' as [q|]; intros H H'; [|destruct H as (Hp & Cp & _); rewrite (H' p Hp) in Cp; done|destruct H' as (Hp & Cp & _); rewrite (H q Hp) in Cp; done|done].
  f_equal. destruct H as (Hp & Cp & Bp), H' as (Hq & Cq & Bq). apply (masked_unique p q ip); auto.
  specialize (Bp q Hq Cq). specialize (Bq p Hp Cp). lia.
Qed.

(** An address that was resolved for a resource belongs to it; every other
    address belongs to the resource of the most specific local prefix that has
    one, and else to that of the most specific remote prefix.  Prefixes without
    host bits leave no choice. *)
Theorem resource_lookup_exact ops ip :
  let a := registered_after ops in
  (match resolved a !! ip with
   | Some res => Lookup ip (routes_after ops) = (res, false)
   | None => ∃ l r, most_specific (locals a) ip l ∧ most_specific (remotes a) ip r ∧
       Lookup ip (routes_after ops) =
         if String.eqb (resource_of (locals a) l) "" then
           match r with Some _ => (resource_of (remotes a) r, is_exit r) | None => ("", is_exit l) end
         else (resource_of (locals a) l, is_exit l)
   end) ∧
  ∀ m o o', m = locals a ∨ m = remotes a → (∀ p, is_Some (m !! p) → masked p) →
    most_specific m ip o → most_specific m ip o' → o = o'.
Proof.
  intros a. destruct (routes_represent ops) as (Hl & Hr & Hi). fold a in Hl, Hr, Hi. split; [|eauto using most_specific_unique].
  unfold Lookup. rewrite Hi. destruct (resolved a !! ip) as [res|]; [done|].
  destruct (scan_represents _ _ ip ("", false) Hl) as (l & Sl & El). rewrite El.
  set (st := match l with Some _ => _ | None => _ end).
  assert (Hst : st = (resource_of (locals a) l, is_exit l)) by (by destruct l). rewrite Hst.
  destruct (scan_represents _ _ ip (resource_of (locals a) l, is_exit l) Hr) as (r & Sr & Er). exists l, r.
  split_and!; [done..|]. destruct (String.eqb_spec (resource_of (locals a) l) "") as [Ee|Ee]; [|done].
  rewrite Er. destruct r; [done|]. by rewrite Ee.
Qed.
End Routes.
