(* ===== verification/Netflow.v ===== *)
(** * Traffic events: the stores

    [client/internal/netflow/types/types.go], the memory stores of
    [client/internal/netflow/store/memory.go] and the address tests of
    [shared/netiputil/address.go].

    The fields of an event that the trackers fill in are the [EventFields] of
    [ConnTrack]; those that are set later (resources and counts) are fields of
    [Event] here.  A UUID is its 128-bit value, an instant the nanoseconds of
    the wall clock since 1970. *)
From stdpp Require Import sorting.
From S2P Require Import Prelude NetIP Bytes ConnTrack Order NetParse.
Open Scope Z_scope.

(** ** Addresses that are not traffic *)

Definition IsLoopback (a : Addr) : bool :=
  match a with AddrInvalid => false | AddrV4 v => octet v 3 =? 127 | AddrV6 v _ => v =? 1 end.

Definition IsMulticast (a : Addr) : bool :=
  match a with
  | AddrInvalid => false
  | AddrV4 v => Z.land (octet v 3) 0xf0 =? 0xe0
  | AddrV6 v _ => Z.shiftr v 120 =? 0xff
  end.

Definition IsLinkLocalUnicast (a : Addr) : bool :=
  match a with
  | AddrInvalid => false
  | AddrV4 v => (octet v 3 =? 169) && (octet v 2 =? 254)
  | AddrV6 v _ => Z.land (Z.shiftr v 112) 0xffc0 =? 0xfe80
  end.

Definition IsLinkLocalMulticast (a : Addr) : bool :=
  match a with
  | AddrInvalid => false
  | AddrV4 v => (octet v 3 =? 224) && (octet v 2 =? 0) && (octet v 1 =? 0)
  | AddrV6 v _ => Z.land (Z.shiftr v 112) 0xff0f =? 0xff02
  end.

Definition limitedBroadcast : Addr := AddrV4 0xffffffff.

Definition IsSystemLocalAddress (addr : Addr) : bool :=
  let addr := Unmap addr in
  negb (IsValid addr) || IsUnspecified addr || IsLoopback addr || IsMulticast addr ||
  IsLinkLocalUnicast addr || IsLinkLocalMulticast addr || bool_decide (addr = limitedBroadcast).

(** The loop over the host bits, the most significant bit being 0. *)
Definition set_host_bits (bits : Z) (base : Z) : Z :=
  foldl (λ base bit, Z.lor base (Z.shiftl 1 (31 - bit))) base (seqZ bits (32 - bits)).

Definition IsPrefixBroadcast (addr : Addr) (prefix : Prefix) : bool :=
  let addr := Unmap addr in
  if negb (Is4 addr) || negb (prefix_IsValid prefix) || negb (Is4 (Unmap (prefix_Addr prefix))) ||
     (32 <=? prefix_Bits prefix) then false
  else
    let prefix := prefix_Masked (PrefixFrom (Unmap (prefix_Addr prefix)) (prefix_Bits prefix)) in
    if negb (prefix_Contains prefix addr) then false
    else bool_decide (addr = AddrV4 (set_host_bits (prefix_Bits prefix) (addr_val (prefix_Addr prefix)))).

(** ** Events *)

Definition uuid_Nil : N := 0.

Definition type_code (t : EventType) : Z :=
  match t with TypeUnknown => 0 | TypeStart => 1 | TypeEnd => 2 | TypeDrop => 3 end.
Definition direction_code (d : Direction) : Z :=
  match d with DirectionUnknown => 0 | Ingress => 1 | Egress => 2 end.

Record Event := {
  e_ID : N;
  e_Timestamp : Z;
  e_WindowStart : Z;
  e_WindowEnd : Z;
  e_fields : EventFields;
  e_SourceResourceID : list Z;
  e_DestResourceID : list Z;
  e_NumOfStarts : Z;
  e_NumOfEnds : Z;
  e_NumOfDrops : Z;
}.

(** [time.Time{}]. *)
Definition time_zero : Z := -62135596800 * 10 ^ 9.

(** ** The aggregating store *)

Record AggregatingMemory := {
  am_events : gmap N Event;
  am_WindowStart : Z;
  am_WindowEnd : Z;
}.

Definition NewAggregatingMemoryStore (now : Z) : AggregatingMemory :=
  {| am_events := ∅; am_WindowStart := now; am_WindowEnd := time_zero |}.

Definition am_StoreEvent (event : Event) (m : AggregatingMemory) : AggregatingMemory :=
  {| am_events := <[e_ID event := event]> (am_events m); am_WindowStart := am_WindowStart m; am_WindowEnd := am_WindowEnd m |}.

Definition am_Close (m : AggregatingMemory) : AggregatingMemory :=
  {| am_events := ∅; am_WindowStart := am_WindowStart m; am_WindowEnd := am_WindowEnd m |}.

Definition am_DeleteEvents (ids : list N) (m : AggregatingMemory) : AggregatingMemory :=
  {| am_events := foldl (λ es id, delete id es) (am_events m) ids;
     am_WindowStart := am_WindowStart m; am_WindowEnd := am_WindowEnd m |}.

(** The window that ends and the store that goes on. *)
Definition ResetAggregationWindow (now : Z) (am : AggregatingMemory) : AggregatingMemory * AggregatingMemory :=
  ({| am_events := am_events am; am_WindowStart := am_WindowStart am; am_WindowEnd := now |},
   {| am_events := ∅; am_WindowStart := now; am_WindowEnd := am_WindowEnd am |}).

Record aggregationKey := {
  ak_srcAddr : Addr; ak_destAddr : Addr; ak_destPort : Z; ak_direction : Z; ak_protocol : Z; ak_icmpType : Z;
  ak_kind : Z; ak_flowID : N; ak_ruleID : list Z; ak_sourceResource : list Z; ak_destResource : list Z; ak_unique : N;
}.

#[global] Instance aggregationKey_eq_dec : EqDecision aggregationKey.
Proof. solve_decision. Defined.

(** A key as the list of its fields. *)
Definition key_fields (k : aggregationKey) : list (Addr + Z + N + list Z) :=
  [inl (inl (inl (ak_srcAddr k))); inl (inl (inl (ak_destAddr k))); inl (inl (inr (ak_destPort k)));
   inl (inl (inr (ak_direction k))); inl (inl (inr (ak_protocol k))); inl (inl (inr (ak_icmpType k)));
   inl (inl (inr (ak_kind k))); inl (inr (ak_flowID k)); inr (ak_ruleID k); inr (ak_sourceResource k);
   inr (ak_destResource k); inl (inr (ak_unique k))].

Definition key_of_fields (l : list (Addr + Z + N + list Z)) : option aggregationKey :=
  match l with
  | [inl (inl (inl a)); inl (inl (inl b)); inl (inl (inr c)); inl (inl (inr d)); inl (inl (inr e)); inl (inl (inr f));
     inl (inl (inr g)); inl (inr h); inr i; inr j; inr k; inl (inr m)] =>
      Some {| ak_srcAddr := a; ak_destAddr := b; ak_destPort := c; ak_direction := d; ak_protocol := e; ak_icmpType := f;
              ak_kind := g; ak_flowID := h; ak_ruleID := i; ak_sourceResource := j; ak_destResource := k; ak_unique := m |}
  | _ => None
  end.

#[global] Instance aggregationKey_countable : Countable aggregationKey.
Proof. apply (inj_countable key_fields key_of_fields). by intros []. Defined.

(** The key of the events of one flow. *)
Definition flow_key (flowID : N) : aggregationKey :=
  {| ak_srcAddr := AddrInvalid; ak_destAddr := AddrInvalid; ak_destPort := 0; ak_direction := 0; ak_protocol := 0;
     ak_icmpType := 0; ak_kind := type_code TypeStart; ak_flowID := flowID; ak_ruleID := [];
     ak_sourceResource := []; ak_destResource := []; ak_unique := uuid_Nil |}.

Definition aggregationKeyFor (event : Event) : aggregationKey :=
  let f := e_fields event in
  let p := ev_Protocol f in
  if negb (bool_decide (ev_Type f = TypeDrop)) && negb (bool_decide (ev_FlowID f = uuid_Nil)) &&
     ((p =? ICMP) || (p =? ICMPv6) || (p =? UDP) || (p =? TCP))
  then flow_key (ev_FlowID f)
  else
    let drop := bool_decide (ev_Type f = TypeDrop) in
    {| ak_srcAddr := ev_SourceIP f; ak_destAddr := ev_DestIP f; ak_destPort := ev_DestPort f;
       ak_direction := direction_code (ev_Direction f); ak_protocol := p; ak_icmpType := ev_ICMPType f;
       ak_kind := type_code (ev_Type f); ak_flowID := uuid_Nil;
       ak_ruleID := if drop then ev_RuleID f else [];
       ak_sourceResource := if drop then e_SourceResourceID event else [];
       ak_destResource := if drop then e_DestResourceID event else [];
       ak_unique := if drop then uuid_Nil else e_ID event |}.

(** [n] with one more when the event is of the given type. *)
Definition tally (t t' : EventType) (n : Z) : Z := if bool_decide (t = t') then uint 64 (n + 1) else n.

(** The first event of a key: a copy that carries its own counts. *)
Definition first_of_key (am : AggregatingMemory) (v : Event) : Event :=
  let f := e_fields v in
  let t := ev_Type f in
  {| e_ID := e_ID v; e_Timestamp := e_Timestamp v; e_WindowStart := am_WindowStart am; e_WindowEnd := am_WindowEnd am;
     e_fields := {| ev_FlowID := ev_FlowID f; ev_Type := TypeUnknown; ev_RuleID := ev_RuleID f;
       ev_Direction := ev_Direction f; ev_Protocol := ev_Protocol f; ev_SourceIP := ev_SourceIP f; ev_DestIP := ev_DestIP f;
       ev_SourcePort := ev_SourcePort f; ev_DestPort := ev_DestPort f; ev_ICMPType := ev_ICMPType f; ev_ICMPCode := ev_ICMPCode f;
       ev_RxPackets := ev_RxPackets f; ev_TxPackets := ev_TxPackets f; ev_RxBytes := ev_RxBytes f; ev_TxBytes := ev_TxBytes f |};
     e_SourceResourceID := e_SourceResourceID v; e_DestResourceID := e_DestResourceID v;
     e_NumOfStarts := tally t TypeStart (e_NumOfStarts v);
     e_NumOfEnds := tally t TypeEnd (e_NumOfEnds v);
     e_NumOfDrops := tally t TypeDrop (e_NumOfDrops v) |}.

Definition or_else (a b : list Z) : list Z := match a with [] => b | _ => a end.

(** A further event of the key. *)
Definition merge_into (a v : Event) : Event :=
  let fa := e_fields a in
  let fv := e_fields v in
  let t := ev_Type fv in
  let earlier := e_Timestamp v <? e_Timestamp a in
  {| e_ID := if earlier then e_ID v else e_ID a;
     e_Timestamp := if earlier then e_Timestamp v else e_Timestamp a;
     e_WindowStart := e_WindowStart a; e_WindowEnd := e_WindowEnd a;
     e_fields := {| ev_FlowID := ev_FlowID fa; ev_Type := ev_Type fa; ev_RuleID := or_else (ev_RuleID fa) (ev_RuleID fv);
       ev_Direction := ev_Direction fa; ev_Protocol := ev_Protocol fa; ev_SourceIP := ev_SourceIP fa; ev_DestIP := ev_DestIP fa;
       ev_SourcePort := if earlier then ev_SourcePort fv else ev_SourcePort fa;
       ev_DestPort := ev_DestPort fa; ev_ICMPType := ev_ICMPType fa; ev_ICMPCode := ev_ICMPCode fa;
       ev_RxPackets := uint 64 (ev_RxPackets fa + ev_RxPackets fv);
       ev_TxPackets := uint 64 (ev_TxPackets fa + ev_TxPackets fv);
       ev_RxBytes := uint 64 (ev_RxBytes fa + ev_RxBytes fv);
       ev_TxBytes := uint 64 (ev_TxBytes fa + ev_TxBytes fv) |};
     e_SourceResourceID := or_else (e_SourceResourceID a) (e_SourceResourceID v);
     e_DestResourceID := or_else (e_DestResourceID a) (e_DestResourceID v);
     e_NumOfStarts := tally t TypeStart (e_NumOfStarts a);
     e_NumOfEnds := tally t TypeEnd (e_NumOfEnds a);
     e_NumOfDrops := tally t TypeDrop (e_NumOfDrops a) |}.

Definition aggregate_one (am : AggregatingMemory) (aggregated : gmap aggregationKey Event) (v : Event) : gmap aggregationKey Event :=
  let key := aggregationKeyFor v in
  match aggregated !! key with
  | None => <[key := first_of_key am v]> aggregated
  | Some a => <[key := merge_into a v]> aggregated
  end.

Section Aggregate.
Context {MO : MapOrder}.

Definition aggregate (am : AggregatingMemory) (seed : nat) : gmap aggregationKey Event :=
  foldl (aggregate_one am) ∅ (range_list seed (am_events am)).*2.

(** One order for the events, one for the results. *)
Definition GetAggregatedEvents (am : AggregatingMemory) (seed seed' : nat) : list Event :=
  (range_list seed' (aggregate am seed)).*2.
End Aggregate.

(** ** The bounded store *)

Definition IncompleteRetryQueueFull : Z := 1.
Definition IncompleteOutboxOpen : Z := 2.
Definition IncompleteOutboxWrite : Z := 3.
Definition IncompleteOutboxDelete : Z := 4.
Definition IncompleteOutboxCorrupt : Z := 5.
Definition IncompleteOutboxUnavailable : Z := 6.

Record BoundedMemory := {
  bm_events : gmap N Event;
  bm_sizes : gmap N Z;
  bm_bytes : Z;
  bm_maxEvents : Z;
  bm_maxBytes : Z;
  bm_incomplete : list Z;
}.

Definition NewBoundedMemoryStore (maxEvents maxBytes : Z) : BoundedMemory :=
  {| bm_events := ∅; bm_sizes := ∅; bm_bytes := 0; bm_maxEvents := maxEvents; bm_maxBytes := maxBytes;
     bm_incomplete := replicate 6 0 |}.

Definition MarkIncomplete (reason : Z) (m : BoundedMemory) : BoundedMemory :=
  if (IncompleteRetryQueueFull <=? reason) && (reason <=? 6) then
    {| bm_events := bm_events m; bm_sizes := bm_sizes m; bm_bytes := bm_bytes m; bm_maxEvents := bm_maxEvents m;
       bm_maxBytes := bm_maxBytes m; bm_incomplete := alter (λ n, uint 64 (n + 1)) (Z.to_nat (reason - 1)) (bm_incomplete m) |}
  else m.

Definition IncompleteCount (reason : Z) (m : BoundedMemory) : Z :=
  if (reason <? IncompleteRetryQueueFull) || (6 <? reason) then 0
  else default 0 (bm_incomplete m !! Z.to_nat (reason - 1)).

Definition eventSize (event : Event) : Z :=
  768 + Z.of_nat (length (ev_RuleID (e_fields event))) + Z.of_nat (length (e_SourceResourceID event)) +
  Z.of_nat (length (e_DestResourceID event)).

Definition bm_put (event : Event) (size : Z) (m : BoundedMemory) : BoundedMemory :=
  {| bm_events := <[e_ID event := event]> (bm_events m); bm_sizes := <[e_ID event := size]> (bm_sizes m);
     bm_bytes := bm_bytes m + size; bm_maxEvents := bm_maxEvents m; bm_maxBytes := bm_maxBytes m;
     bm_incomplete := bm_incomplete m |}.

Definition bm_drop (id : N) (m : BoundedMemory) : BoundedMemory :=
  {| bm_events := delete id (bm_events m); bm_sizes := delete id (bm_sizes m);
     bm_bytes := bm_bytes m - default 0 (bm_sizes m !! id); bm_maxEvents := bm_maxEvents m; bm_maxBytes := bm_maxBytes m;
     bm_incomplete := bm_incomplete m |}.

(** The functions [persist] and [remove] of a durable store act on a world
    [W]: [persist] answers the size on disk or an error, [remove] whether it
    succeeded.  A store without them has none. *)
Record Backend (W : Type) := {
  be_persist : Event → W → W * option Z;
  be_remove : N → W → W * bool;
}.
Arguments be_persist {_} _ _ _.
Arguments be_remove {_} _ _ _.

Section Bounded.
Context {W : Type} (backend : option (Backend W)).

Definition fits (m : BoundedMemory) (size : Z) : bool := bm_bytes m + size <=? bm_maxBytes m.

Definition TryStoreEvent (event : Event) (m : BoundedMemory) (w : W) : BoundedMemory * W * bool :=
  match bm_events m !! e_ID event with
  | Some _ => (m, w, true)
  | None =>
      let sz := eventSize event in
      if (bm_maxEvents m <=? Z.of_nat (size (bm_events m))) || negb (fits m sz) then (MarkIncomplete IncompleteRetryQueueFull m, w, false)
      else
        match backend with
        | None => (bm_put event sz m, w, true)
        | Some b =>
            match be_persist b event w with
            | (w, None) => (MarkIncomplete IncompleteOutboxWrite m, w, false)
            | (w, Some sz) =>
                if negb (fits m sz) then
                  let m := MarkIncomplete IncompleteRetryQueueFull m in
                  let '(w, ok) := be_remove b (e_ID event) w in
                  ((if ok : bool then m else MarkIncomplete IncompleteOutboxDelete m), w, false)
                else (bm_put event sz m, w, true)
            end
        end
  end.

Definition delete_one (s : BoundedMemory * W) (id : N) : BoundedMemory * W :=
  let '(m, w) := s in
  match bm_events m !! id with
  | None => (m, w)
  | Some _ =>
      match backend with
      | None => (bm_drop id m, w)
      | Some b =>
          let '(w, ok) := be_remove b id w in
          ((if ok : bool then bm_drop id m else MarkIncomplete IncompleteOutboxDelete m), w)
      end
  end.

Definition DeleteEvents (ids : list N) (m : BoundedMemory) (w : W) : BoundedMemory * W :=
  foldl delete_one (m, w) ids.
End Bounded.

(** Events in the order of their age, by identifier within an instant. *)
Definition event_cmp (a b : Event) : comparison :=
  match e_Timestamp a ?= e_Timestamp b with
  | Eq => lex (be_bytes 16 (Z.of_N (e_ID a))) (be_bytes 16 (Z.of_N (e_ID b)))
  | c => c
  end.

Definition GetEvents {MO : MapOrder} (seed : nat) (m : BoundedMemory) : list Event :=
  sort_by event_cmp (range_list seed (bm_events m)).*2.

(** The fallback store is kept when flows are disabled. *)
Definition bm_Close (m : BoundedMemory) : BoundedMemory := m.

(** ** Traffic events: aggregation and bounds

    What an aggregated event says of the events of its key, for every order in
    which maps are visited; what the bounded store holds. *)

(** ** Sums *)

Fixpoint sum_of {A} (f : A → Z) (l : list A) : Z := match l with [] => 0 | x :: l => f x + sum_of f l end.

Lemma sum_of_app {A} (f : A → Z) l k : sum_of f (l ++ k) = sum_of f l + sum_of f k.
Proof. induction l as [|x l IH]; cbn [sum_of app]; lia. Qed.

#[global] Instance sum_of_perm {A} (f : A → Z) : Proper ((≡ₚ) ==> (=)) (sum_of f).
Proof. intros l k. induction 1; cbn [sum_of]; lia. Qed.

Lemma uint_add_l a b : uint 64 (uint 64 a + b) = uint 64 (a + b).
Proof. unfold uint. apply Zplus_mod_idemp_l. Qed.

Lemma uint_add_r a b : uint 64 (a + uint 64 b) = uint 64 (a + b).
Proof. unfold uint. apply Zplus_mod_idemp_r. Qed.

Lemma sum_of_insert {K V} `{Countable K} (f : V → Z) (m : gmap K V) k a :
  sum_of f (map_to_list (<[k := a]> m)).*2 = sum_of f (map_to_list m).*2 + f a - default 0 (f <$> m !! k).
Proof.
  destruct (m !! k) as [b|] eqn:E; cbn.
  - rewrite <- (insert_delete_id m k b E) at 2. rewrite <- insert_delete_eq.
    rewrite !map_to_list_insert by apply lookup_delete_eq. cbn. lia.
  - rewrite map_to_list_insert by done. cbn. lia.
Qed.

Lemma sum_of_delete {K V} `{Countable K} (f : V → Z) (m : gmap K V) k :
  sum_of f (map_to_list (delete k m)).*2 = sum_of f (map_to_list m).*2 - default 0 (f <$> m !! k).
Proof.
  destruct (m !! k) as [b|] eqn:E; cbn; [|rewrite delete_id by done; lia].
  rewrite <- (insert_delete_id m k b E) at 2. rewrite sum_of_insert, lookup_delete_eq. cbn. lia.
Qed.

(** ** The broadcast address *)

Lemma lor_low a b n : 0 <= n → 0 <= b < 2 ^ n → Z.lor (Z.shiftl a n) b = a * 2 ^ n + b.
Proof.
  intros Hn Hb. rewrite Z.shiftl_mul_pow2 by done. rewrite <- Z.add_lor_land.
  assert (Z.land (a * 2 ^ n) b = 0) as ->; [|lia]. apply Z.bits_inj'. intros i Hi.
  rewrite Z.land_spec, Z.bits_0. destruct (Z.lt_ge_cases i n) as [Hl|Hl].
  - by rewrite Z.mul_pow2_bits_low.
  - rewrite <- (Z.mod_small b (2 ^ n)) by done. rewrite Z.mod_pow2_bits_high by lia. apply andb_false_r.
Qed.

Lemma set_host_bits_ones k base : (k <= 32)%nat →
  set_host_bits (32 - Z.of_nat k) base = Z.lor base (2 ^ Z.of_nat k - 1).
Proof.
  unfold set_host_bits. replace (32 - (32 - Z.of_nat k)) with (Z.of_nat k) by lia. revert base.
  induction k as [|k IH]; intros base Hk; [cbn; by rewrite Z.lor_0_r|].
  rewrite Nat2Z.inj_succ, seqZ_cons by lia. cbn [foldl].
  replace (Z.succ (32 - Z.succ (Z.of_nat k))) with (32 - Z.of_nat k) by lia. rewrite Z.pred_succ, IH by lia.
  rewrite <- Z.lor_assoc. f_equal. replace (31 - (32 - Z.succ (Z.of_nat k))) with (Z.of_nat k) by lia.
  rewrite lor_low, Z.pow_succ_r by lia. lia.
Qed.

(** The directed broadcast address is the last one of an IPv4 prefix. *)
Lemma IsPrefixBroadcast_spec a p v w : Unmap a = AddrV4 v → Unmap (prefix_Addr p) = AddrV4 w → in_width 32 w →
  0 <= prefix_Bits p < 32 →
  IsPrefixBroadcast a p = true ↔ v = w / 2 ^ (32 - prefix_Bits p) * 2 ^ (32 - prefix_Bits p) + 2 ^ (32 - prefix_Bits p) - 1.
Proof.
  intros Ea Ep Hw Hb. unfold IsPrefixBroadcast. rewrite Ea, Ep. set (b := prefix_Bits p) in *. set (n := 32 - b).
  assert (H0 : (0 <=? b) = true) by lia. assert (H1 : (32 <=? b) = false) by lia. assert (H2 : (b <=? 32) = true) by lia.
  assert (EM : prefix_Masked (PrefixFrom (AddrV4 w) b) = MkPrefix (AddrV4 (mask_low w n)) b).
  { unfold PrefixFrom, prefix_Masked, prefix_IsValid. cbn [IsValid BitLen prefix_Bits prefix_Addr withoutZone]. rewrite H0, H2. cbn [andb].
    by rewrite H0. }
  rewrite EM. unfold prefix_IsValid. fold b. rewrite H0, H1. cbn [Is4 negb orb prefix_Bits prefix_Addr addr_val].
  assert (Hs : set_host_bits b (mask_low w n) = w / 2 ^ n * 2 ^ n + 2 ^ n - 1).
  { replace b with (32 - Z.of_nat (Z.to_nat n)) by lia. rewrite set_host_bits_ones, Z2Nat.id by lia.
    unfold mask_low. rewrite lor_low, Z.shiftr_div_pow2 by lia. lia. }
  rewrite Hs. unfold prefix_Contains, prefix_IsValid. cbn [prefix_Bits prefix_Addr addr_val addr_zone BitLen]. rewrite H0.
  cbn [andb negb Z.eqb Pos.eqb String.eqb]. fold n. destruct (negb _) eqn:E; bools.
  - split; [done|]. intros ->. destruct E. unfold mask_low. rewrite Z.shiftr_lxor, !Z.shiftr_div_pow2, Z.shiftl_mul_pow2 by lia.
    assert (0 < 2 ^ n) by lia. rewrite Z.div_mul by lia.
    replace (w / 2 ^ n * 2 ^ n + 2 ^ n - 1) with (2 ^ n - 1 + w / 2 ^ n * 2 ^ n) by lia.
    rewrite Z.div_add, Z.div_small by lia. apply Z.lxor_nilpotent.
  - split; [by intros [= ->]|by intros ->].
Qed.

(** ** What is counted

    A quantity of the single events and the field of the aggregated events
    that sums it up. *)
Definition is_type (t : EventType) (v : Event) : Z := if bool_decide (ev_Type (e_fields v) = t) then 1 else 0.

Definition quantities : list ((Event → Z) * (Event → Z)) :=
  [ (ev_RxPackets ∘ e_fields, ev_RxPackets ∘ e_fields); (ev_TxPackets ∘ e_fields, ev_TxPackets ∘ e_fields);
    (ev_RxBytes ∘ e_fields, ev_RxBytes ∘ e_fields); (ev_TxBytes ∘ e_fields, ev_TxBytes ∘ e_fields);
    (is_type TypeStart, e_NumOfStarts); (is_type TypeEnd, e_NumOfEnds); (is_type TypeDrop, e_NumOfDrops) ].

(** An event as it enters the store: 64-bit counters and no counts yet. *)
Definition raw_event (v : Event) : Prop :=
  let f := e_fields v in
  in_width 64 (ev_RxPackets f) ∧ in_width 64 (ev_TxPackets f) ∧ in_width 64 (ev_RxBytes f) ∧ in_width 64 (ev_TxBytes f) ∧
  e_NumOfStarts v = 0 ∧ e_NumOfEnds v = 0 ∧ e_NumOfDrops v = 0.

#[global] Instance raw_event_dec v : Decision (raw_event v).
Proof. unfold raw_event, in_width. apply _. Defined.

(** The aggregated event [a] of the events [g] in the window of [am]. *)
Record summary (am : AggregatingMemory) (g : list Event) (a : Event) : Prop := {
  sum_quantities : ∀ q, q ∈ quantities → q.2 a = uint 64 (sum_of q.1 g);
  sum_oldest : ∃ v, v ∈ g ∧ e_ID a = e_ID v ∧ e_Timestamp a = e_Timestamp v ∧
    ev_SourcePort (e_fields a) = ev_SourcePort (e_fields v) ∧ ∀ u, u ∈ g → e_Timestamp v <= e_Timestamp u;
  sum_identity : ∃ v, v ∈ g ∧ let f := e_fields a in let h := e_fields v in
    ev_FlowID f = ev_FlowID h ∧ ev_Direction f = ev_Direction h ∧ ev_Protocol f = ev_Protocol h ∧
    ev_SourceIP f = ev_SourceIP h ∧ ev_DestIP f = ev_DestIP h ∧ ev_DestPort f = ev_DestPort h ∧
    ev_ICMPType f = ev_ICMPType h ∧ ev_ICMPCode f = ev_ICMPCode h;
  sum_texts : ∀ text, text ∈ [ev_RuleID ∘ e_fields; e_SourceResourceID; e_DestResourceID] →
    (∃ v, v ∈ g ∧ text a = text v) ∧ (text a = [] → ∀ v, v ∈ g → text v = []);
  sum_window : ev_Type (e_fields a) = TypeUnknown ∧ e_WindowStart a = am_WindowStart am ∧ e_WindowEnd a = am_WindowEnd am;
}.

Lemma summary_perm am g g' a : g ≡ₚ g' → summary am g a → summary am g' a.
Proof.
  intros Hp [S1 S2 S3 S4 S5]. split; [..|done].
  - intros q Hq. rewrite <- Hp. by apply S1.
  - destruct S2 as (v & Hv & H1 & H2 & H3 & H4). exists v. rewrite <- Hp. split_and!; [done..|]. intros u. rewrite <- Hp. apply H4.
  - destruct S3 as (v & Hv & H). exists v. by rewrite <- Hp.
  - intros text Ht. destruct (S4 text Ht) as [(v & Hv & E) Hn]. split; [exists v; by rewrite <- Hp|].
    intros E' u. rewrite <- Hp. by apply Hn.
Qed.

Lemma tally_spec t t' n : in_width 64 n → tally t t' n = uint 64 (n + if bool_decide (t = t') then 1 else 0).
Proof. intros Hn. unfold tally. case_bool_decide; [done|]. by rewrite Z.add_0_r, uint_id. Qed.

Lemma summary_first am v : raw_event v → summary am [v] (first_of_key am v).
Proof.
  intros (W1 & W2 & W3 & W4 & N1 & N2 & N3). split.
  - intros q. unfold quantities. rewrite !elem_of_cons. cbn [sum_of].
    intros [->|[->|[->|[->|[->|[->|[->|Hn%elem_of_nil]]]]]]]; cbn; [..|done];
      rewrite ?Z.add_0_r, ?N1, ?N2, ?N3, ?tally_spec by done; try (by rewrite uint_id); done.
  - exists v. rewrite list_elem_of_singleton. split_and!; [done..|]. intros u ->%list_elem_of_singleton. done.
  - exists v. by rewrite list_elem_of_singleton.
  - intros text Ht. assert (E : text (first_of_key am v) = text v).
    { rewrite !elem_of_cons in Ht. destruct Ht as [->|[->|[->|Hn%elem_of_nil]]]; done. }
    rewrite E. split; [exists v; by rewrite list_elem_of_singleton|]. by intros Hv u ->%list_elem_of_singleton.
  - done.
Qed.

Lemma or_else_spec a b : (or_else a b = a ∨ (a = [] ∧ or_else a b = b)) ∧ (or_else a b = [] → a = [] ∧ b = []).
Proof. destruct a; cbn; naive_solver. Qed.

Lemma summary_merge am g a v : summary am g a → raw_event v → summary am (g ++ [v]) (merge_into a v).
Proof.
  intros [S1 S2 S3 S4 S5] (W1 & W2 & W3 & W4 & N1 & N2 & N3).
  assert (Hwid : ∀ q, q ∈ quantities → in_width 64 (q.2 a)) by (intros q Hq; rewrite (S1 q Hq); apply uint_range; lia).
  split; [..|done].
  - intros q Hq. rewrite sum_of_app, <- uint_add_l, <- (S1 q Hq). pose proof (Hwid q Hq) as Hw. cbn [sum_of]. rewrite Z.add_0_r.
    revert Hq Hw. unfold quantities. rewrite !elem_of_cons.
    intros [->|[->|[->|[->|[->|[->|[->|Hn%elem_of_nil]]]]]]] Hw; cbn; [done..| | | |done]; by rewrite tally_spec.
  - destruct S2 as (u & Hu & E1 & E2 & E3 & Hmin). cbn. destruct (Z.ltb_spec (e_Timestamp v) (e_Timestamp a)) as [Hlt|Hge].
    + exists v. split_and!; [apply elem_of_app; right; by apply list_elem_of_singleton|done..|].
      intros x [Hx| ->%list_elem_of_singleton]%elem_of_app; [|done]. specialize (Hmin x Hx). lia.
    + exists u. split_and!; [apply elem_of_app; by left|done..|].
      intros x [Hx| ->%list_elem_of_singleton]%elem_of_app; [by apply Hmin|lia].
  - destruct S3 as (u & Hu & H). exists u. split; [apply elem_of_app; by left|]. exact H.
  - intros text Ht. assert (E : text (merge_into a v) = or_else (text a) (text v)).
    { rewrite !elem_of_cons in Ht. destruct Ht as [->|[->|[->|Hn%elem_of_nil]]]; done. }
    rewrite E. destruct (S4 text Ht) as [(u & Hu & Eu) Hn], (or_else_spec (text a) (text v)) as [Ho He]. split.
    + destruct Ho as [Ho|[_ Ho]]; [exists u|exists v]; rewrite elem_of_app, list_elem_of_singleton, Ho; auto.
    + intros [Ea Ev]%He x [Hx| ->%list_elem_of_singleton]%elem_of_app; auto.
Qed.

(** ** Aggregation *)

Definition group (k : aggregationKey) (l : list Event) : list Event := filter (λ v, aggregationKeyFor v = k) l.

Lemma group_snoc k l v : group k (l ++ [v]) = group k l ++ if decide (aggregationKeyFor v = k) then [v] else [].
Proof. unfold group. rewrite filter_app, filter_cons. by destruct (decide _). Qed.

Definition aggregates (am : AggregatingMemory) (l : list Event) (m : gmap aggregationKey Event) : Prop :=
  ∀ k, match m !! k with Some a => summary am (group k l) a | None => group k l = [] end.

Lemma aggregate_fold am l : Forall raw_event l → aggregates am l (foldl (aggregate_one am) ∅ l).
Proof.
  induction l as [|v l IH] using rev_ind; intros Hr k; [cbn; by rewrite lookup_empty|].
  apply Forall_app in Hr as [Hr [Hv _]%Forall_cons]. specialize (IH Hr). rewrite foldl_app. cbn [foldl].
  set (m := foldl _ _ l) in *. unfold aggregate_one. pose proof (IH (aggregationKeyFor v)) as Hk. rewrite group_snoc.
  destruct (m !! aggregationKeyFor v) as [a|] eqn:E;
    (destruct (decide (aggregationKeyFor v = k)) as [<-|Hne]; [rewrite lookup_insert_eq|rewrite lookup_insert_ne, app_nil_r by done; apply IH]).
  - by apply summary_merge.
  - rewrite Hk. by apply summary_first.
Qed.

Lemma aggregate_total am l q : Forall raw_event l → q ∈ quantities →
  uint 64 (sum_of q.2 (map_to_list (foldl (aggregate_one am) ∅ l)).*2) = uint 64 (sum_of q.1 l).
Proof.
  intros Hr Hq. induction l as [|v l IH] using rev_ind; [cbn [foldl]; by rewrite map_to_list_empty|].
  apply Forall_app in Hr as [Hr [Hv _]%Forall_cons]. specialize (IH Hr).
  pose proof (aggregate_fold am l Hr (aggregationKeyFor v)) as Hk. rewrite foldl_app, sum_of_app. cbn [foldl sum_of].
  rewrite Z.add_0_r, <- uint_add_l, <- IH, uint_add_l. set (m := foldl _ _ l) in *. unfold aggregate_one.
  destruct (m !! aggregationKeyFor v) as [a|] eqn:E; rewrite sum_of_insert, E; cbn [fmap option_fmap option_map default].
  - pose proof (sum_quantities _ _ _ Hk q Hq) as E1.
    pose proof (sum_quantities _ _ _ (summary_merge _ _ _ _ Hk Hv) q Hq) as E2.
    rewrite sum_of_app, <- uint_add_l, <- E1 in E2. cbn [sum_of] in E2. rewrite Z.add_0_r in E2.
    rewrite E2. replace (sum_of q.2 (map_to_list m).*2 + uint 64 (q.2 a + q.1 v) - q.2 a)
      with (sum_of q.2 (map_to_list m).*2 - q.2 a + uint 64 (q.2 a + q.1 v)) by lia.
    rewrite uint_add_r. f_equal. lia.
  - pose proof (sum_quantities _ _ _ (summary_first am v Hv) q Hq) as E2. cbn [sum_of] in E2. rewrite Z.add_0_r in E2.
    rewrite E2, Z.sub_0_r, uint_add_r. done.
Qed.

Lemma flow_group v f : f ≠ uuid_Nil →
  aggregationKeyFor v = flow_key f ↔
  ev_Type (e_fields v) ≠ TypeDrop ∧ ev_FlowID (e_fields v) = f ∧ ev_Protocol (e_fields v) ∈ [ICMP; ICMPv6; UDP; TCP].
Proof.
  intros Hf. unfold aggregationKeyFor.
  set (p := ev_Protocol (e_fields v)).
  assert (Hp : ((p =? ICMP) || (p =? ICMPv6) || (p =? UDP) || (p =? TCP)) = true ↔ p ∈ [ICMP; ICMPv6; UDP; TCP]).
  { bools. rewrite !elem_of_cons, elem_of_nil. tauto. }
  destruct (_ && _ && _) eqn:E.
  - rewrite !andb_true_iff, Hp in E. bools. destruct E as [[E1 E2] E3]. split; [by intros [= ->]|]. by intros (_ & -> & _).
  - split; [intros [= _ _ _ _ _ _ _ E' _ _ _ _]; by destruct Hf|]. intros (H1 & H2 & H3).
    apply not_true_iff_false in E. destruct E. rewrite !andb_true_iff, Hp. bools. subst f. done.
Qed.

Section Orders.
Context {MO : MapOrder}.

Definition window_events (am : AggregatingMemory) : list Event := (map_to_list (am_events am)).*2.

Lemma aggregation_cases am seed seed' : Forall raw_event (window_events am) →
  let m := aggregate am seed in
  GetAggregatedEvents am seed seed' ≡ₚ (map_to_list m).*2 ∧ aggregates am (window_events am) m ∧
  ∀ q, q ∈ quantities → uint 64 (sum_of q.2 (GetAggregatedEvents am seed seed')) = uint 64 (sum_of q.1 (window_events am)).
Proof.
  intros Hr. set (l := (range_list seed (am_events am)).*2).
  assert (Hl : l ≡ₚ window_events am) by (unfold l, window_events; by rewrite range_list_perm).
  assert (Hr' : Forall raw_event l) by (by rewrite Hl).
  assert (Hp : GetAggregatedEvents am seed seed' ≡ₚ (map_to_list (aggregate am seed)).*2) by (unfold GetAggregatedEvents; by rewrite range_list_perm).
  split_and!; [done| |].
  - intros k. pose proof (aggregate_fold am l Hr' k) as H. unfold aggregate. fold l.
    assert (Hg : group k l ≡ₚ group k (window_events am)) by (unfold group; by rewrite Hl).
    destruct (_ !! k); [by eapply summary_perm|]. rewrite H in Hg. by apply Permutation_nil_l in Hg.
  - intros q Hq. rewrite Hp, <- Hl. by apply aggregate_total.
Qed.

Lemma aggregation_summaries am seed seed' : Forall raw_event (window_events am) →
  (∀ q, q ∈ quantities → uint 64 (sum_of q.2 (GetAggregatedEvents am seed seed')) = uint 64 (sum_of q.1 (window_events am))) ∧
  ∀ e, e ∈ GetAggregatedEvents am seed seed' → ∃ k, summary am (group k (window_events am)) e.
Proof.
  intros Hr. destruct (aggregation_cases am seed seed' Hr) as (Hp & Hs & Ht). split; [done|]. intros e He. rewrite Hp in He.
  apply list_elem_of_fmap in He as ([k a] & -> & Hk). apply elem_of_map_to_list in Hk. exists k. specialize (Hs k). by rewrite Hk in Hs.
Qed.

(** C33. Whatever the order of the maps, the aggregated events are one summary per
    key that occurs in the window: its counters are the sums of the events of
    the key, its counts their numbers by type, its instant, identifier and
    source port those of an oldest one.  The events of a flow have a key of
    their own.  No packet, byte, start, end or drop is lost or counted twice. *)
Theorem aggregation_exact am seed seed' :
  Forall raw_event (window_events am) →
  ∃ m : gmap aggregationKey Event,
    GetAggregatedEvents am seed seed' ≡ₚ (map_to_list m).*2 ∧
    (∀ k, match m !! k with
          | Some a => summary am (group k (window_events am)) a
          | None => group k (window_events am) = []
          end) ∧
    (∀ q, q ∈ quantities →
       uint 64 (sum_of q.2 (GetAggregatedEvents am seed seed')) = uint 64 (sum_of q.1 (window_events am))) ∧
    (∀ f, f ≠ uuid_Nil → group (flow_key f) (window_events am) =
       filter (λ v, ev_Type (e_fields v) ≠ TypeDrop ∧ ev_FlowID (e_fields v) = f ∧
                    ev_Protocol (e_fields v) ∈ [ICMP; ICMPv6; UDP; TCP]) (window_events am)).
Proof.
  intros Hr. destruct (aggregation_cases am seed seed' Hr) as (Hp & Hs & Ht). exists (aggregate am seed). split_and!; [done..|].
  intros f Hf. apply list_filter_iff. intros v. by apply flow_group.
Qed.
End Orders.

(** ** The bounded store *)

Record bounded (m : BoundedMemory) : Prop := {
  bd_ids : ∀ id e, bm_events m !! id = Some e → e_ID e = id;
  bd_dom : ∀ id, is_Some (bm_events m !! id) ↔ is_Some (bm_sizes m !! id);
  bd_bytes : bm_bytes m = sum_of id (map_to_list (bm_sizes m)).*2;
  bd_pos : ∀ id sz, bm_sizes m !! id = Some sz → 0 <= sz;
  bd_count : Z.of_nat (size (bm_events m)) <= bm_maxEvents m;
  bd_fit : bm_bytes m <= bm_maxBytes m;
}.

Lemma MarkIncomplete_frame r m :
  bm_events (MarkIncomplete r m) = bm_events m ∧ bm_sizes (MarkIncomplete r m) = bm_sizes m ∧
  bm_bytes (MarkIncomplete r m) = bm_bytes m ∧ bm_maxEvents (MarkIncomplete r m) = bm_maxEvents m ∧
  bm_maxBytes (MarkIncomplete r m) = bm_maxBytes m.
Proof. unfold MarkIncomplete. by destruct (_ && _). Qed.

Lemma MarkIncomplete_bounded r m : bounded m → bounded (MarkIncomplete r m).
Proof.
  destruct (MarkIncomplete_frame r m) as (E1 & E2 & E3 & E4 & E5). intros [B1 B2 B3 B4 B5 B6].
  split; rewrite ?E1, ?E2, ?E3, ?E4, ?E5; done.
Qed.

Lemma NewBounded_bounded n b : 0 <= n → 0 <= b → bounded (NewBoundedMemoryStore n b).
Proof.
  intros Hn Hb. split; cbn; rewrite ?map_to_list_empty, ?map_size_empty; try done.
  - intros id. by rewrite !lookup_empty.
Qed.

Lemma bm_put_bounded event sz m : bounded m → bm_events m !! e_ID event = None → 0 <= sz →
  Z.of_nat (size (bm_events m)) < bm_maxEvents m → fits m sz = true → bounded (bm_put event sz m).
Proof.
  intros [B1 B2 B3 B4 B5 B6] Hn Hs Hc Hf. apply Z.leb_le in Hf.
  assert (Hn' : bm_sizes m !! e_ID event = None) by (apply eq_None_not_Some; rewrite <- B2; by rewrite Hn; intros []).
  split; cbn.
  - intros id e. rewrite lookup_insert_Some. intros [[<- <-]|[_ He]]; [done|by apply B1].
  - intros id. destruct (decide (e_ID event = id)) as [<-|Hne]; [by rewrite !lookup_insert_eq|]. by rewrite !lookup_insert_ne.
  - rewrite sum_of_insert, Hn'. cbn. lia.
  - intros id sz'. rewrite lookup_insert_Some. intros [[<- <-]|[_ He]]; [done|by eapply B4].
  - rewrite map_size_insert_None by done. lia.
  - lia.
Qed.

Lemma bm_drop_bounded i m : bounded m → bounded (bm_drop i m).
Proof.
  intros [B1 B2 B3 B4 B5 B6]. split; cbn.
  - intros id e [_ He]%lookup_delete_Some. by apply B1.
  - intros id. destruct (decide (i = id)) as [<-|Hne]; [by rewrite !lookup_delete_eq|]. by rewrite !lookup_delete_ne.
  - rewrite sum_of_delete, B3. by destruct (bm_sizes m !! i).
  - intros id sz [_ He]%lookup_delete_Some. by eapply B4.
  - assert (size (delete i (bm_events m)) <= size (bm_events m))%nat by (apply map_subseteq_size, delete_subseteq). lia.
  - assert (0 <= default 0 (bm_sizes m !! i)); [|lia]. destruct (bm_sizes m !! i) eqn:E; [by eapply B4|done].
Qed.

Lemma bounded_bytes m : bounded m → 0 <= bm_bytes m.
Proof.
  intros [_ _ B3 B4 _ _]. rewrite B3. assert (Hl : Forall (λ x, 0 <= x) (map_to_list (bm_sizes m)).*2).
  { apply Forall_forall. intros x ([i y] & -> & Hx)%list_elem_of_fmap. apply elem_of_map_to_list in Hx. by eapply B4. }
  clear B3 B4. revert Hl. generalize (map_to_list (bm_sizes m)).*2. induction 1 as [|x l Hx _ IH]; cbn [sum_of]; [done|]. unfold id at 1. lia.
Qed.

Section Stores.
Context {W : Type} (backend : option (Backend W)).

(** Sizes on disk are not negative. *)
Definition backend_sizes (event : Event) : Prop :=
  ∀ b w w' sz, backend = Some b → be_persist b event w = (w', Some sz) → 0 <= sz.

Lemma TryStoreEvent_cases event m w : backend_sizes event →
  let '(m', w', ok) := TryStoreEvent backend event m w in
  (bounded m → bounded m') ∧ bm_maxEvents m' = bm_maxEvents m ∧ bm_maxBytes m' = bm_maxBytes m ∧
  (if ok : bool then is_Some (bm_events m' !! e_ID event) else bm_events m' = bm_events m) ∧
  (bm_events m' = bm_events m ∨ (bm_events m !! e_ID event = None ∧ bm_events m' = <[e_ID event := event]> (bm_events m))).
Proof.
  intros Hb. unfold TryStoreEvent. destruct (bm_events m !! e_ID event) as [e|] eqn:E; [rewrite E; by split_and!; eauto|].
  destruct (_ || _) eqn:Ef.
  - destruct (MarkIncomplete_frame IncompleteRetryQueueFull m) as (E1 & _ & _ & E4 & E5).
    split_and!; auto using MarkIncomplete_bounded.
  - bools. destruct Ef as [Hc Hf].
    assert (Hput : ∀ sz, 0 <= sz → fits m sz = true → bounded m → bounded (bm_put event sz m)) by (intros; apply bm_put_bounded; done).
    destruct backend as [b|] eqn:Eb.
    + destruct (be_persist b event w) as [w1 [sz|]] eqn:Ep.
      * destruct (fits m sz) eqn:Es; cbn [negb].
        -- split_and!; cbn; eauto; rewrite lookup_insert_eq; eauto.
        -- destruct (be_remove b (e_ID event) w1) as [w2 []]; [|
             pose proof (MarkIncomplete_frame IncompleteOutboxDelete (MarkIncomplete IncompleteRetryQueueFull m)) as (F1 & _ & _ & F4 & F5)];
             destruct (MarkIncomplete_frame IncompleteRetryQueueFull m) as (E1 & _ & _ & E4 & E5);
             split_and!; eauto using MarkIncomplete_bounded; try congruence; left; congruence.
      * destruct (MarkIncomplete_frame IncompleteOutboxWrite m) as (E1 & _ & _ & E4 & E5).
        split_and!; auto using MarkIncomplete_bounded.
    + split_and!; cbn; eauto; [|rewrite lookup_insert_eq; eauto]. apply Hput; [unfold eventSize; lia|done].
Qed.

Lemma delete_one_cases id m w :
  let '(m', w') := delete_one backend (m, w) id in
  (bounded m → bounded m') ∧ bm_maxEvents m' = bm_maxEvents m ∧ bm_maxBytes m' = bm_maxBytes m ∧
  (bm_events m' = bm_events m ∨ bm_events m' = delete id (bm_events m)).
Proof.
  unfold delete_one. destruct (bm_events m !! id); [|by split_and!; auto]. destruct backend as [b|].
  - destruct (be_remove b id w) as [w' []].
    + split_and!; auto using bm_drop_bounded.
    + destruct (MarkIncomplete_frame IncompleteOutboxDelete m) as (E1 & _ & _ & E4 & E5).
      split_and!; auto using MarkIncomplete_bounded.
  - split_and!; auto using bm_drop_bounded.
Qed.
End Stores.

(** ** Oldest first *)

Definition not_younger (a b : Event) : Prop := e_Timestamp a <= e_Timestamp b.

Section Age.
Context {MO : MapOrder}.

Lemma event_cmp_le a b : cmp_le event_cmp a b → not_younger a b.
Proof. unfold cmp_le, event_cmp, not_younger. destruct (Z.compare_spec (e_Timestamp a) (e_Timestamp b)); try lia. naive_solver. Qed.

#[local] Instance event_cmp_total : Total (cmp_le event_cmp).
Proof.
  intros a b. unfold cmp_le, event_cmp. rewrite (Z.compare_antisym (e_Timestamp a)).
  destruct (e_Timestamp a ?= e_Timestamp b); cbn [CompOpp]; [|naive_solver..].
  rewrite (cmp_sym lex (be_bytes 16 (Z.of_N (e_ID a)))). destruct (lex _ _); cbn [CompOpp]; naive_solver.
Qed.

#[local] Instance event_cmp_transitive : Transitive (cmp_le event_cmp).
Proof.
  intros a b c. unfold cmp_le, event_cmp.
  destruct (Z.compare_spec (e_Timestamp a) (e_Timestamp b)), (Z.compare_spec (e_Timestamp b) (e_Timestamp c)),
    (Z.compare_spec (e_Timestamp a) (e_Timestamp c)); try done; try lia; intros Hab Hbc.
  exact (cmp_le_trans lex _ _ _ Hab Hbc).
Qed.

Lemma GetEvents_spec seed m : GetEvents seed m ≡ₚ (map_to_list (bm_events m)).*2 ∧
  StronglySorted not_younger (GetEvents seed m).
Proof.
  unfold GetEvents. split; [by rewrite sort_by_perm, range_list_perm|].
  assert (Hs : StronglySorted (cmp_le event_cmp) (sort_by event_cmp (range_list seed (bm_events m)).*2)) by
    (apply sorting.StronglySorted_merge_sort; apply _).
  revert Hs. generalize (sort_by event_cmp (range_list seed (bm_events m)).*2). intros l.
  induction 1 as [|x l Hl IH Hx]; constructor; [done|]. eapply Forall_impl; [exact Hx|]. apply event_cmp_le.
Qed.
End Age.
