(* ===== verification/FlowLogger.v ===== *)
(** * Traffic events: the logger

    [client/internal/netflow/logger/logger.go], and the events of the kernel's
    connection tracker in [client/internal/netflow/conntrack/conntrack.go].

    The logger is a machine whose steps are what happens under its lock or on
    its channels: a call of [StoreEvent] tests the event, then takes the lock;
    a receiver takes one event from its channel; [Close] tells the receiver to
    stop and waits for it or gives up.  A receiver that was told to stop
    empties its own channel, also after a new one was started. *)
From S2P Require Import Prelude NetIP Bytes ConnTrack Order NetParse Netflow.
Open Scope Z_scope.

Definition captureQueueSize : nat := 100.
Definition ForwarderClientPort : Z := 5353.
Definition ForwarderServerPort : Z := 22054.

Record Stats := {
  st_Accepted : Z; st_Filtered : Z; st_Disabled : Z; st_CaptureQueueFull : Z; st_Closing : Z; st_ShutdownTimeout : Z;
}.

Inductive stat := Accepted | Filtered | Disabled | CaptureQueueFull | Closing | ShutdownTimeout.

#[global] Instance stat_eq_dec : EqDecision stat.
Proof. solve_decision. Defined.

(** [Add(1)] on one of the counters. *)
Definition bump (k : stat) (s : Stats) : Stats :=
  let inc k' n := if bool_decide (k = k') then uint 64 (n + 1) else n in
  {| st_Accepted := inc Accepted (st_Accepted s); st_Filtered := inc Filtered (st_Filtered s);
     st_Disabled := inc Disabled (st_Disabled s); st_CaptureQueueFull := inc CaptureQueueFull (st_CaptureQueueFull s);
     st_Closing := inc Closing (st_Closing s); st_ShutdownTimeout := inc ShutdownTimeout (st_ShutdownTimeout s) |}.

(** The channel of a receiver that was told to stop, and whether [Close] still
    waits for it. *)
Record Stopping := { sp_queue : list EventFields; sp_waited : bool }.

Record Logger := {
  lg_enabled : bool;
  lg_rcvChan : list EventFields;
  lg_stopping : list Stopping;
  lg_entered : list EventFields;   (* calls of [StoreEvent] before the lock *)
  lg_wgIfaceNet : Prefix;
  lg_wgIfaceNetV6 : Prefix;
  lg_dnsCollection : bool;
  lg_exitNodeCollection : bool;
  lg_stats : Stats;
  lg_store : AggregatingMemory;
}.

Definition New (wgIfaceIPNet wgIfaceIPNetV6 : Prefix) (now : Z) : Logger :=
  {| lg_enabled := false; lg_rcvChan := []; lg_stopping := []; lg_entered := []; lg_wgIfaceNet := wgIfaceIPNet;
     lg_wgIfaceNetV6 := wgIfaceIPNetV6; lg_dnsCollection := false; lg_exitNodeCollection := false;
     lg_stats := {| st_Accepted := 0; st_Filtered := 0; st_Disabled := 0; st_CaptureQueueFull := 0; st_Closing := 0; st_ShutdownTimeout := 0 |};
     lg_store := NewAggregatingMemoryStore now |}.

Definition isDNSFlow (f : EventFields) : bool :=
  (ev_Protocol f =? UDP) &&
  ((ev_DestPort f =? 53) || (ev_DestPort f =? ForwarderClientPort) || (ev_DestPort f =? ForwarderServerPort)).

Definition isOverlayIP (l : Logger) (ip : Addr) : bool :=
  prefix_Contains (lg_wgIfaceNet l) ip || (prefix_IsValid (lg_wgIfaceNetV6 l) && prefix_Contains (lg_wgIfaceNetV6 l) ip).

(** Traffic of the host or of the link. *)
Definition is_local (l : Logger) (f : EventFields) : bool :=
  IsSystemLocalAddress (ev_SourceIP f) || IsSystemLocalAddress (ev_DestIP f) ||
  IsPrefixBroadcast (ev_SourceIP f) (lg_wgIfaceNet l) || IsPrefixBroadcast (ev_DestIP f) (lg_wgIfaceNet l).

Definition count_in (k : stat) (l : Logger) : Logger :=
  {| lg_enabled := lg_enabled l; lg_rcvChan := lg_rcvChan l; lg_stopping := lg_stopping l; lg_entered := lg_entered l;
     lg_wgIfaceNet := lg_wgIfaceNet l; lg_wgIfaceNetV6 := lg_wgIfaceNetV6 l; lg_dnsCollection := lg_dnsCollection l;
     lg_exitNodeCollection := lg_exitNodeCollection l; lg_stats := bump k (lg_stats l); lg_store := lg_store l |}.

Definition with_channels (enabled : bool) (queue : list EventFields) (stopping : list Stopping) (entered : list EventFields)
    (store : AggregatingMemory) (l : Logger) : Logger :=
  {| lg_enabled := enabled; lg_rcvChan := queue; lg_stopping := stopping; lg_entered := entered;
     lg_wgIfaceNet := lg_wgIfaceNet l; lg_wgIfaceNetV6 := lg_wgIfaceNetV6 l; lg_dnsCollection := lg_dnsCollection l;
     lg_exitNodeCollection := lg_exitNodeCollection l; lg_stats := lg_stats l; lg_store := store |}.

(** [StoreEvent] up to the lock. *)
Definition StoreEvent_enter (f : EventFields) (l : Logger) : Logger :=
  if negb (lg_enabled l) then count_in Disabled l
  else if negb (isDNSFlow f) && is_local l f then count_in Filtered l
  else with_channels (lg_enabled l) (lg_rcvChan l) (lg_stopping l) (lg_entered l ++ [f]) (lg_store l) l.

(** [StoreEvent] under the lock, for the [i]-th call that waits for it. *)
Definition StoreEvent_locked (i : nat) (l : Logger) : Logger :=
  match lg_entered l !! i with
  | None => l
  | Some f =>
      let entered := delete i (lg_entered l) in
      let go queue := with_channels (lg_enabled l) queue (lg_stopping l) entered (lg_store l) l in
      if negb (lg_enabled l) then count_in Closing (go (lg_rcvChan l))
      else if (length (lg_rcvChan l) <? captureQueueSize)%nat then count_in Accepted (go (lg_rcvChan l ++ [f]))
      else count_in CaptureQueueFull (go (lg_rcvChan l))
  end.

Definition Enable (l : Logger) : Logger :=
  if lg_enabled l then l else with_channels true [] (lg_stopping l) (lg_entered l) (lg_store l) l.

Definition shouldStore (l : Logger) (event : Event) (isExitNode : bool) : bool :=
  let f := e_fields event in
  if isDNSFlow f then lg_dnsCollection l
  else if isExitNode then lg_exitNodeCollection l
  else
    let isP2P := isOverlayIP l (ev_SourceIP f) && isOverlayIP l (ev_DestIP f) in
    let hasPublishedResource := (0 <? length (e_SourceResourceID event))%nat || (0 <? length (e_DestResourceID event))%nat in
    isP2P || hasPublishedResource.

(** The event made of the fields, with the resources of its addresses, and
    whether it goes through an exit node.  [check] is [CheckRoutes]. *)
Definition resolve (check : Addr → string * bool) (id : N) (now : Z) (f : EventFields) (l : Logger) : Event * bool :=
  let '(src, isSrcExitNode) := if isOverlayIP l (ev_SourceIP f) then ("", false) else check (ev_SourceIP f) in
  let '(dst, isDestExitNode) := if isOverlayIP l (ev_DestIP f) then ("", false) else check (ev_DestIP f) in
  ({| e_ID := id; e_Timestamp := now; e_WindowStart := time_zero; e_WindowEnd := time_zero; e_fields := f;
      e_SourceResourceID := codes src; e_DestResourceID := codes dst;
      e_NumOfStarts := 0; e_NumOfEnds := 0; e_NumOfDrops := 0 |}, isSrcExitNode || isDestExitNode).

Definition storeEvent (check : Addr → string * bool) (id : N) (now : Z) (f : EventFields) (l : Logger) : AggregatingMemory :=
  let '(event, isExitNode) := resolve check id now f l in
  if shouldStore l event isExitNode then am_StoreEvent event (lg_store l) else lg_store l.

(** The receiver takes an event. *)
Definition receive (check : Addr → string * bool) (id : N) (now : Z) (l : Logger) : Logger :=
  match lg_rcvChan l with
  | f :: queue => if lg_enabled l then
      with_channels true queue (lg_stopping l) (lg_entered l) (storeEvent check id now f l) l else l
  | [] => l
  end.

(** A stopping receiver takes an event. *)
Definition drain (k : nat) (check : Addr → string * bool) (id : N) (now : Z) (l : Logger) : Logger :=
  match lg_stopping l !! k with
  | Some {| sp_queue := f :: queue; sp_waited := waited |} =>
      with_channels (lg_enabled l) (lg_rcvChan l) (<[k := {| sp_queue := queue; sp_waited := waited |}]> (lg_stopping l))
        (lg_entered l) (storeEvent check id now f l) l
  | _ => l
  end.

(** [Close] until it waits. *)
Definition Close_begin (l : Logger) : Logger :=
  if negb (lg_enabled l) then
    with_channels false (lg_rcvChan l) (lg_stopping l) (lg_entered l) (am_Close (lg_store l)) l
  else
    with_channels false [] (lg_stopping l ++ [{| sp_queue := lg_rcvChan l; sp_waited := true |}]) (lg_entered l) (lg_store l) l.

(** The receiver is done, or the second is over. *)
Definition Close_done (k : nat) (l : Logger) : Logger :=
  match lg_stopping l !! k with
  | Some {| sp_queue := []; sp_waited := true |} =>
      with_channels (lg_enabled l) (lg_rcvChan l) (delete k (lg_stopping l)) (lg_entered l) (am_Close (lg_store l)) l
  | _ => l
  end.

Definition Close_timeout (k : nat) (l : Logger) : Logger :=
  match lg_stopping l !! k with
  | Some {| sp_queue := queue; sp_waited := true |} =>
      count_in ShutdownTimeout
        (with_channels (lg_enabled l) (lg_rcvChan l) (<[k := {| sp_queue := queue; sp_waited := false |}]> (lg_stopping l))
          (lg_entered l) (lg_store l) l)
  | _ => l
  end.

Definition UpdateConfig (dnsCollection exitNodeCollection : bool) (l : Logger) : Logger :=
  {| lg_enabled := lg_enabled l; lg_rcvChan := lg_rcvChan l; lg_stopping := lg_stopping l; lg_entered := lg_entered l;
     lg_wgIfaceNet := lg_wgIfaceNet l; lg_wgIfaceNetV6 := lg_wgIfaceNetV6 l; lg_dnsCollection := dnsCollection;
     lg_exitNodeCollection := exitNodeCollection; lg_stats := lg_stats l; lg_store := lg_store l |}.

Definition logger_ResetWindow (now : Z) (l : Logger) : AggregatingMemory * Logger :=
  let '(window, store) := ResetAggregationWindow now (lg_store l) in
  (window, with_channels (lg_enabled l) (lg_rcvChan l) (lg_stopping l) (lg_entered l) store l).

Definition logger_DeleteEvents (ids : list N) (l : Logger) : Logger :=
  with_channels (lg_enabled l) (lg_rcvChan l) (lg_stopping l) (lg_entered l) (am_DeleteEvents ids (lg_store l)) l.

(** ** Runs *)

Inductive log_op :=
| LEnter (f : EventFields)
| LLocked (i : nat)
| LReceive (check : Addr → string * bool) (id : N) (now : Z)
| LDrain (k : nat) (check : Addr → string * bool) (id : N) (now : Z)
| LEnable
| LClose
| LCloseDone (k : nat)
| LCloseTimeout (k : nat)
| LUpdateConfig (dnsCollection exitNodeCollection : bool)
| LReset (now : Z)
| LDelete (ids : list N).

Definition log_step (l : Logger) (op : log_op) : Logger :=
  match op with
  | LEnter f => StoreEvent_enter f l
  | LLocked i => StoreEvent_locked i l
  | LReceive check id now => receive check id now l
  | LDrain k check id now => drain k check id now l
  | LEnable => Enable l
  | LClose => Close_begin l
  | LCloseDone k => Close_done k l
  | LCloseTimeout k => Close_timeout k l
  | LUpdateConfig dns exit => UpdateConfig dns exit l
  | LReset now => (logger_ResetWindow now l).2
  | LDelete ids => logger_DeleteEvents ids l
  end.

(** ** Traffic events: what the logger counts and stores *)

(** A run, with the number of events that left a channel. *)
Definition takes (l : Logger) (op : log_op) : nat :=
  match op with
  | LReceive _ _ _ => match lg_rcvChan l with _ :: _ => if lg_enabled l then 1 else 0 | [] => 0 end
  | LDrain k _ _ _ => match lg_stopping l !! k with Some {| sp_queue := _ :: _ |} => 1 | _ => 0 end
  | _ => 0
  end.

Definition log_track (s : Logger * nat) (op : log_op) : Logger * nat := (log_step s.1 op, s.2 + takes s.1 op)%nat.

Definition is_enter (op : log_op) : bool := match op with LEnter _ => true | _ => false end.

(** The collection of DNS and of exit-node traffic that the last
    [UpdateConfig] of a run asked for. *)
Definition ask (asked : bool * bool) (op : log_op) : bool * bool :=
  match op with LUpdateConfig dns exit => (dns, exit) | _ => asked end.

Definition asked (ops : list log_op) : bool * bool := foldl ask (false, false) ops.

(** The routes, the identifier and the time with which a receiver takes an
    event. *)
Definition taken_by (op : log_op) : option ((Addr → string * bool) * N * Z) :=
  match op with LReceive check id now | LDrain _ check id now => Some (check, id, now) | _ => None end.

(** Events that wait in a channel. *)
Definition queued (l : Logger) : nat := (length (lg_rcvChan l) + sum_list_with (length ∘ sp_queue) (lg_stopping l))%nat.

(** All the outcomes of a call of [StoreEvent]. *)
Definition outcomes (s : Stats) : Z :=
  st_Accepted s + st_Filtered s + st_Disabled s + st_CaptureQueueFull s + st_Closing s.

Definition wide (f : EventFields) : Prop :=
  in_width 64 (ev_RxPackets f) ∧ in_width 64 (ev_TxPackets f) ∧ in_width 64 (ev_RxBytes f) ∧ in_width 64 (ev_TxBytes f).

Section Run.
Context (net net6 : Prefix) (start : Z).

Let l0 : Logger := New net net6 start.

Definition log_run (ops : list log_op) : Logger * nat := foldl log_track (l0, O) ops.

(** Fields that may be reported: DNS, or not traffic of the host. *)
Definition admissible (f : EventFields) : Prop := wide f ∧ (isDNSFlow f = true ∨ is_local l0 f = false).

(** The resource of an address, and whether an exit node routes it. *)
Definition resource_of (check : Addr → string * bool) (a : Addr) : list Z := if isOverlayIP l0 a then [] else codes (check a).1.
Definition by_exit_node (check : Addr → string * bool) (a : Addr) : bool := negb (isOverlayIP l0 a) && (check a).2.

(** Traffic that is collected when [dns] and [exit] are asked for. *)
Definition collected (dns exit : bool) (check : Addr → string * bool) (f : EventFields) : Prop :=
  if isDNSFlow f then dns = true
  else if by_exit_node check (ev_SourceIP f) || by_exit_node check (ev_DestIP f) then exit = true
  else (isOverlayIP l0 (ev_SourceIP f) = true ∧ isOverlayIP l0 (ev_DestIP f) = true) ∨
       resource_of check (ev_SourceIP f) ≠ [] ∨ resource_of check (ev_DestIP f) ≠ [].

(** What a receiver makes of the fields it takes. *)
Definition recorded (check : Addr → string * bool) (id : N) (now : Z) (v : Event) : Prop :=
  e_ID v = id ∧ e_Timestamp v = now ∧
  e_SourceResourceID v = resource_of check (ev_SourceIP (e_fields v)) ∧
  e_DestResourceID v = resource_of check (ev_DestIP (e_fields v)).

(** The step of a run that stored an event, under the configuration in force
    at that step. *)
Definition stored_in (ops : list log_op) (v : Event) : Prop :=
  ∃ before op after check id now, ops = before ++ op :: after ∧ taken_by op = Some (check, id, now) ∧
    recorded check id now v ∧ collected (asked before).1 (asked before).2 check (e_fields v).

Record logger_inv (R : Event → Prop) (a : bool * bool) (enters : nat) (s : Logger * nat) : Prop := {
  li_nets : lg_wgIfaceNet s.1 = net ∧ lg_wgIfaceNetV6 s.1 = net6;
  li_asked : (lg_dnsCollection s.1, lg_exitNodeCollection s.1) = a;
  li_queue : (length (lg_rcvChan s.1) <= captureQueueSize)%nat;
  li_off : lg_enabled s.1 = false → lg_rcvChan s.1 = [];
  li_calls : uint 64 (outcomes (lg_stats s.1) + Z.of_nat (length (lg_entered s.1))) = uint 64 (Z.of_nat enters);
  li_accepted : st_Accepted (lg_stats s.1) = uint 64 (Z.of_nat (queued s.1 + s.2));
  li_waiting : Forall admissible (lg_entered s.1) ∧ Forall admissible (lg_rcvChan s.1) ∧
    Forall (λ p, Forall admissible (sp_queue p)) (lg_stopping s.1);
  li_store : map_Forall (λ id v, e_ID v = id ∧ raw_event v ∧ admissible (e_fields v) ∧ R v) (am_events (lg_store s.1));
}.

Lemma uint_multiple x : ∃ k, uint 64 x = x + k * 2 ^ 64.
Proof. exists (- (x / 2 ^ 64)). unfold uint. rewrite Z.mod_eq by lia. lia. Qed.

Lemma uint_shift64 x y k : x = y + k * 2 ^ 64 → uint 64 x = uint 64 y.
Proof. intros ->. apply Z_mod_plus_full. Qed.

Lemma uint_succ a b : uint 64 a = uint 64 b → uint 64 (a + 1) = uint 64 (b + 1).
Proof. intros E. by rewrite <- uint_add_l, E, uint_add_l. Qed.

Lemma bump_outcomes k s : k ≠ ShutdownTimeout → uint 64 (outcomes (bump k s)) = uint 64 (outcomes s + 1).
Proof.
  intros Hk. unfold outcomes.
  destruct k; try done; cbn -[uint Z.add]; repeat (case_bool_decide; try done);
    (match goal with |- context [uint 64 (?g s + 1)] => destruct (uint_multiple (g s + 1)) as [j ->]; apply (uint_shift64 _ _ j); lia end).
Qed.

Lemma bump_timeout s : outcomes (bump ShutdownTimeout s) = outcomes s.
Proof. done. Qed.

Lemma bump_accepted k s : st_Accepted (bump k s) = if bool_decide (k = Accepted) then uint 64 (st_Accepted s + 1) else st_Accepted s.
Proof. done. Qed.

(** Changes of the channels that neither count nor store. *)
Lemma is_local_same (l : Logger) f : lg_wgIfaceNet l = net → is_local l f = is_local l0 f.
Proof. intros E. unfold is_local. by rewrite E. Qed.

Lemma isOverlayIP_same (l : Logger) a : lg_wgIfaceNet l = net → lg_wgIfaceNetV6 l = net6 → isOverlayIP l a = isOverlayIP l0 a.
Proof. intros E E'. unfold isOverlayIP. by rewrite E, E'. Qed.

Lemma logger_inv_mono (R R' : Event → Prop) a k s : (∀ v, R v → R' v) → logger_inv R a k s → logger_inv R' a k s.
Proof. intros HR [I1 I2 I3 I4 I5 I6 I7 I8]. split; try done. eapply map_Forall_impl; [exact I8|]. intros id v (H1 & H2 & H3 & H4). auto. Qed.

Lemma resolve_exact l check id now f : lg_wgIfaceNet l = net → lg_wgIfaceNetV6 l = net6 →
  let '(event, ex) := resolve check id now f l in
  e_fields event = f ∧ recorded check id now event ∧ ex = by_exit_node check (ev_SourceIP f) || by_exit_node check (ev_DestIP f) ∧
  e_NumOfStarts event = 0 ∧ e_NumOfEnds event = 0 ∧ e_NumOfDrops event = 0.
Proof.
  intros N1 N2. unfold resolve, recorded, resource_of, by_exit_node. rewrite !(isOverlayIP_same l) by done.
  destruct (isOverlayIP l0 (ev_SourceIP f)) eqn:E1, (isOverlayIP l0 (ev_DestIP f)) eqn:E2,
    (check (ev_SourceIP f)) eqn:E3, (check (ev_DestIP f)) eqn:E4; cbn; by rewrite ?E1, ?E2, ?E3, ?E4, ?orb_false_r.
Qed.

Lemma shouldStore_collected l check id now event ex : lg_wgIfaceNet l = net → lg_wgIfaceNetV6 l = net6 → recorded check id now event →
  ex = by_exit_node check (ev_SourceIP (e_fields event)) || by_exit_node check (ev_DestIP (e_fields event)) →
  shouldStore l event ex = true → collected (lg_dnsCollection l) (lg_exitNodeCollection l) check (e_fields event).
Proof.
  intros N1 N2 (_ & _ & E1 & E2) -> H. unfold shouldStore in H. unfold collected. destruct (isDNSFlow _); [done|]. destruct (_ || _); [done|].
  rewrite !(isOverlayIP_same l), E1, E2 in H by done. bools.
  destruct H as [H|[H|H]]; [left; by apply andb_true_iff|right; left|right; right]; apply Nat.ltb_lt in H; intros E; rewrite E in H; cbn in H; lia.
Qed.

(** What enters the store. *)
Lemma storeEvent_collected l check id now f (R : Event → Prop) :
  lg_wgIfaceNet l = net → lg_wgIfaceNetV6 l = net6 →
  (∀ v, recorded check id now v → collected (lg_dnsCollection l) (lg_exitNodeCollection l) check (e_fields v) → R v) →
  admissible f → map_Forall (λ id v, e_ID v = id ∧ raw_event v ∧ admissible (e_fields v) ∧ R v) (am_events (lg_store l)) →
  map_Forall (λ id v, e_ID v = id ∧ raw_event v ∧ admissible (e_fields v) ∧ R v) (am_events (storeEvent check id now f l)).
Proof.
  intros N1 N2 HR Hf Hs. unfold storeEvent. pose proof (resolve_exact l check id now f N1 N2) as HE. destruct (resolve check id now f l) as [event ex].
  destruct HE as (Ef & Hrec & Hex & Z1 & Z2 & Z3). destruct (shouldStore l event ex) eqn:Ess; [|done].
  cbn [am_StoreEvent am_events]. apply map_Forall_insert_2; [|done]. rewrite <- Ef in Hex.
  split; [done|]. rewrite Ef. split_and!; [|done|].
  - unfold raw_event. rewrite Ef, Z1, Z2, Z3. destruct Hf as [(W1 & W2 & W3 & W4) _]. by split_and!.
  - apply HR; [done|]. by eapply shouldStore_collected.
Qed.

Lemma queued_delete (ps : list Stopping) k p : ps !! k = Some p → sp_queue p = [] →
  sum_list_with (length ∘ sp_queue) (delete k ps) = sum_list_with (length ∘ sp_queue) ps.
Proof.
  intros Hk Hq. rewrite <- (take_drop_middle ps k p Hk) at 2. rewrite delete_take_drop, !sum_list_with_app. cbn. by rewrite Hq.
Qed.

Lemma queued_insert (ps : list Stopping) k p p' : ps !! k = Some p →
  (sum_list_with (length ∘ sp_queue) (<[k := p']> ps) + length (sp_queue p) =
   sum_list_with (length ∘ sp_queue) ps + length (sp_queue p'))%nat.
Proof.
  intros Hk. rewrite <- (take_drop_middle ps k p Hk) at 2. rewrite (insert_take_drop ps k p') by (by eapply lookup_lt_Some).
  rewrite !sum_list_with_app. cbn. lia.
Qed.

Lemma Forall_delete_list {A} (P : A → Prop) (l : list A) i : Forall P l → Forall P (delete i l).
Proof. intros H. rewrite delete_take_drop. apply Forall_app. split; [by apply Forall_take|by apply Forall_drop]. Qed.

Ltac logger_fields :=
  cbn [fst snd with_channels count_in lg_enabled lg_rcvChan lg_stopping lg_entered lg_wgIfaceNet
       lg_wgIfaceNetV6 lg_dnsCollection lg_exitNodeCollection lg_stats lg_store] in *.

(** The calls of [StoreEvent]. *)
Lemma enter_inv R a k l n f : wide f → logger_inv R a k (l, n) → logger_inv R a (S k) (StoreEvent_enter f l, n).
Proof.
  intros Hf [I1 I2 I3 I4 I5 I6 I7 I8]. unfold StoreEvent_enter.
  assert (Hc : ∀ s, s ≠ Accepted → s ≠ ShutdownTimeout → logger_inv R a (S k) (count_in s l, n)).
  { intros s Hs Hs'. split; logger_fields; [done..| | |done|done].
    - rewrite <- uint_add_l, bump_outcomes, uint_add_l by done. rewrite Nat2Z.inj_succ, <- Z.add_1_r.
      etransitivity; [|apply uint_succ; exact I5]. f_equal. lia.
    - rewrite bump_accepted, bool_decide_eq_false_2 by done. exact I6. }
  destruct (lg_enabled l) eqn:He; cbn [negb]; [|by apply Hc].
  destruct (negb (isDNSFlow f) && is_local l f) eqn:Ef; [by apply Hc|].
  split; logger_fields; [done..| | | |done].
  - rewrite length_app. cbn [length]. replace (Z.of_nat (S k)) with (Z.of_nat k + 1) by lia. etransitivity; [|apply uint_succ; exact I5]. f_equal. lia.
  - exact I6.
  - destruct I7 as (H1 & H2 & H3). split_and!; [|done..]. apply Forall_app. split; [done|]. constructor; [|done]. split; [done|].
    rewrite (is_local_same l) in Ef by apply I1. bools. tauto.
Qed.

Lemma locked_inv R a k l n i : logger_inv R a k (l, n) → logger_inv R a k (StoreEvent_locked i l, n).
Proof.
  intros HI. pose proof HI as [I1 I2 I3 I4 I5 I6 I7 I8]. unfold StoreEvent_locked. destruct (lg_entered l !! i) as [f|] eqn:Ei; [|done].
  destruct I7 as (H1 & H2 & H3). pose proof (Forall_lookup_1 _ _ _ _ H1 Ei) as Hf.
  pose proof (length_delete (lg_entered l) i (mk_is_Some _ _ Ei)) as Hlen. assert (Hpos : (0 < length (lg_entered l))%nat) by (apply lookup_lt_Some in Ei; lia).
  assert (Hc : ∀ s q, s ≠ ShutdownTimeout → (length q <= captureQueueSize)%nat → (lg_enabled l = false → q = []) → Forall admissible q →
    (length q = length (lg_rcvChan l) + if bool_decide (s = Accepted) then 1 else 0)%nat →
    logger_inv R a k (count_in s (with_channels (lg_enabled l) q (lg_stopping l) (delete i (lg_entered l)) (lg_store l) l), n)).
  { intros s q Hs' Hq Hoff Hadm Hl. split; logger_fields; [done..| | | |done].
    - rewrite <- uint_add_l, bump_outcomes, uint_add_l, Hlen by done. rewrite <- I5. f_equal. lia.
    - unfold queued in *. logger_fields. rewrite bump_accepted, Hl, I6. case_bool_decide; [|f_equal; lia].
      rewrite uint_add_l. f_equal. lia.
    - split_and!; [by apply Forall_delete_list|done..]. }
  destruct (lg_enabled l) eqn:He; cbn [negb].
  - destruct (Nat.ltb_spec (length (lg_rcvChan l)) captureQueueSize) as [Hlt|Hge].
    + apply Hc; [done| |done| |rewrite length_app; done]; [rewrite length_app; cbn; lia|]. apply Forall_app. by split; [|constructor].
    + apply Hc; rewrite ?Nat.add_0_r; auto; done.
  - apply Hc; rewrite ?Nat.add_0_r; auto; done.
Qed.

(** An event leaves a channel. *)
Lemma taken_inv R a k l n queue stopping check id now f :
  logger_inv R a k (l, n) → admissible f → (∀ v, recorded check id now v → collected a.1 a.2 check (e_fields v) → R v) →
  (length queue + sum_list_with (length ∘ sp_queue) stopping + 1 = queued l)%nat →
  (length queue <= captureQueueSize)%nat → (lg_enabled l = false → queue = []) → Forall admissible queue →
  Forall (λ p, Forall admissible (sp_queue p)) stopping →
  logger_inv R a k (with_channels (lg_enabled l) queue stopping (lg_entered l) (storeEvent check id now f l) l, S n).
Proof.
  intros [I1 I2 I3 I4 I5 I6 I7 I8] Hf HR Hq Hl Hoff Ha Hs. split; logger_fields; [done..| | |].
  - unfold queued in *. logger_fields. rewrite I6. f_equal. lia.
  - by split_and!; [apply I7|..].
  - apply storeEvent_collected; try done; try apply I1. by rewrite <- I2 in HR.
Qed.

(** The other changes: the store shrinks, the channels keep their events. *)
Lemma moved_inv R a k l n enabled queue stopping store :
  logger_inv R a k (l, n) →
  (length queue + sum_list_with (length ∘ sp_queue) stopping = queued l)%nat →
  (length queue <= captureQueueSize)%nat → (enabled = false → queue = []) → Forall admissible queue →
  Forall (λ p, Forall admissible (sp_queue p)) stopping → am_events store ⊆ am_events (lg_store l) →
  logger_inv R a k (with_channels enabled queue stopping (lg_entered l) store l, n).
Proof.
  intros [I1 I2 I3 I4 I5 I6 I7 I8] Hq Hl Hoff Ha Hs Hst. split; logger_fields; [done..| | |].
  - unfold queued in *. logger_fields. rewrite I6. f_equal. lia.
  - by split_and!; [apply I7|..].
  - intros id v Hv. apply I8. by eapply lookup_weaken.
Qed.

Lemma foldl_delete_subseteq (m : gmap N Event) ids : foldl (λ es id, delete id es) m ids ⊆ m.
Proof.
  revert m. induction ids as [|id ids IH]; intros m; [done|]. cbn [foldl]. etransitivity; [apply IH|]. apply delete_subseteq.
Qed.

Lemma log_track_inv R a k s op : (∀ f, op = LEnter f → wide f) →
  (∀ check id now v, taken_by op = Some (check, id, now) → recorded check id now v → collected a.1 a.2 check (e_fields v) → R v) →
  logger_inv R a k s → logger_inv R (ask a op) (k + if is_enter op then 1 else 0) (log_track s op).
Proof.
  destruct s as [l n]. intros Hop HR HI. pose proof HI as [I1 I2 I3 I4 I5 I6 I7 I8]. cbn [fst] in *. destruct I7 as (H1 & H2 & H3).
  unfold log_track. cbn [fst snd].
  destruct op as [f|i|check id now|j check id now| | |j|j|d x|now|ids];
    cbn [ask is_enter takes log_step taken_by] in *; rewrite ?Nat.add_0_r, ?Nat.add_1_r.
  - apply enter_inv; auto.
  - by apply locked_inv.
  - unfold receive. destruct (lg_rcvChan l) as [|f q] eqn:Eq; [by rewrite Nat.add_0_r|]. destruct (lg_enabled l) eqn:He; [|by rewrite Nat.add_0_r].
    rewrite Nat.add_1_r. rewrite <- He at 1. apply Forall_cons in H2 as [Hf H2].
    apply taken_inv; try done; [intros v Hr Hc; exact (HR check id now v eq_refl Hr Hc)|unfold queued; rewrite Eq; cbn; lia|cbn in I3; lia|congruence].
  - unfold drain. destruct (lg_stopping l !! j) as [[[|f q] w]|] eqn:Ej; rewrite ?Nat.add_0_r, ?Nat.add_1_r; [done| |done].
    pose proof (Forall_lookup_1 _ _ _ _ H3 Ej) as Hp. cbn in Hp. apply Forall_cons in Hp as [Hf Hp].
    apply taken_inv; try done.
    + intros v Hr Hc. exact (HR check id now v eq_refl Hr Hc).
    + unfold queued. pose proof (queued_insert _ j _ {| sp_queue := q; sp_waited := w |} Ej) as Hq. cbn in Hq |- *. lia.
    + by apply Forall_insert.
  - unfold Enable. destruct (lg_enabled l) eqn:He; [done|]. apply moved_inv; try done; [unfold queued; by rewrite (I4 eq_refl)|cbn; lia].
  - unfold Close_begin. destruct (lg_enabled l) eqn:He; cbn [negb].
    + apply moved_inv; try done; [unfold queued; rewrite sum_list_with_app; cbn; lia|cbn; lia|].
      apply Forall_app. split; [done|]. by constructor.
    + apply moved_inv; try done. apply map_empty_subseteq.
  - unfold Close_done. destruct (lg_stopping l !! j) as [[[|f q] []]|] eqn:Ej; try done.
    apply moved_inv; try done; [|by apply Forall_delete_list|apply map_empty_subseteq]. unfold queued. by erewrite queued_delete.
  - unfold Close_timeout. destruct (lg_stopping l !! j) as [[q []]|] eqn:Ej; try done.
    assert (HM : logger_inv R a k (with_channels (lg_enabled l) (lg_rcvChan l) (<[j := {| sp_queue := q; sp_waited := false |}]> (lg_stopping l)) (lg_entered l) (lg_store l) l, n)).
    { apply moved_inv; try done.
      - unfold queued. pose proof (queued_insert _ j _ {| sp_queue := q; sp_waited := false |} Ej) as Hq. cbn in Hq. lia.
      - apply Forall_insert; [done|]. exact (Forall_lookup_1 _ _ _ _ H3 Ej). }
    destruct HM as [M1 M2 M3 M4 M5 M6 M7 M8]. by split.
  - split; cbn; done.
  - apply moved_inv; try done. apply map_empty_subseteq.
  - apply moved_inv; try done. apply foldl_delete_subseteq.
Qed.

Lemma stored_in_snoc ops op v : stored_in ops v → stored_in (ops ++ [op]) v.
Proof.
  intros (before & o & after & check & id & now & -> & H). exists before, o, (after ++ [op]), check, id, now. by rewrite <- app_assoc.
Qed.

Lemma log_run_inv ops : (∀ f, LEnter f ∈ ops → wide f) →
  logger_inv (stored_in ops) (asked ops) (count is_enter ops) (log_run ops).
Proof.
  unfold log_run, asked. induction ops as [|op ops IH] using rev_ind; intros Hw.
  - split; cbn; try done; lia.
  - rewrite !foldl_app, count_app, count_singleton. cbn [foldl].
    apply log_track_inv; [intros f ->; apply Hw; set_solver| |].
    + intros check id now v Ht Hr Hc. by exists ops, op, [], check, id, now.
    + eapply logger_inv_mono; [apply stored_in_snoc|]. apply IH. intros f Hf. apply Hw. set_solver.
Qed.

(** C31. Along every run of captures, receivers and shutdowns: each call of
    [StoreEvent] is counted once; what was accepted is in a channel or was
    taken from one; the channel keeps its bound.  Each event of the window was
    stored by one receiver step: its resources are those of the routes that step
    looked up, and it is DNS, if the configuration in force then collects DNS;
    else routed by an exit node, if it collects that; else between overlay
    addresses or of a resource.  Other than DNS it is never of the host or the
    link. *)
Theorem logger_sound ops : (∀ f, LEnter f ∈ ops → wide f) →
  let '(l, taken) := log_run ops in
  uint 64 (outcomes (lg_stats l) + Z.of_nat (length (lg_entered l))) = uint 64 (Z.of_nat (count is_enter ops)) ∧
  st_Accepted (lg_stats l) = uint 64 (Z.of_nat (queued l + taken)) ∧
  (length (lg_rcvChan l) <= captureQueueSize)%nat ∧
  Forall (λ v, raw_event v ∧ (isDNSFlow (e_fields v) = true ∨ is_local (New net net6 start) (e_fields v) = false) ∧
    ∃ before op after check id now, ops = before ++ op :: after ∧ taken_by op = Some (check, id, now) ∧
      recorded check id now v ∧ collected (asked before).1 (asked before).2 check (e_fields v)) (window_events (lg_store l)).
Proof.
  intros Hw. destruct (log_run_inv ops Hw) as [_ _ I3 _ I5 I6 _ I8]. destruct (log_run ops) as [l taken]. cbn [fst snd] in *.
  split_and!; [done..|]. apply Forall_forall. intros v ([id v'] & -> & Hv)%list_elem_of_fmap.
  apply elem_of_map_to_list in Hv. destruct (I8 id v' Hv) as (_ & Hr & [_ Ha] & Hst). by split_and!.
Qed.
End Run.
