(* ===== verification/FlowWire.v ===== *)
(** * Traffic events: the encoded form

    [eventToProto], [validateOutboxEvent] and [decodeEvent] of
    [client/internal/netflow/store/outbox.go] and [toProtoEvent] of
    [client/internal/netflow/manager.go], with the messages of
    [flow/proto/flow.proto].

    The UUID and the protobuf packages are parameters; what is relied on of
    them is [FlowLibsSpec]. *)
From S2P Require Import Prelude NetIP Bytes ConnTrack Netflow.
Open Scope Z_scope.

(** ** Messages *)

Record Timestamp := { ts_seconds : Z; ts_nanos : Z }.

Inductive ConnectionInfo :=
| PortInfo (SourcePort DestPort : Z)
| IcmpInfo (IcmpType IcmpCode : Z).

Record FlowFields := {
  ff_FlowId : list Z; ff_Type : Z; ff_RuleId : list Z; ff_Direction : Z; ff_Protocol : Z;
  ff_SourceIp : list Z; ff_DestIp : list Z; ff_ConnectionInfo : option ConnectionInfo;
  ff_RxPackets : Z; ff_TxPackets : Z; ff_RxBytes : Z; ff_TxBytes : Z;
  ff_SourceResourceId : list Z; ff_DestResourceId : list Z;
  ff_NumOfStarts : Z; ff_NumOfEnds : Z; ff_NumOfDrops : Z;
}.

Record FlowEvent := {
  fe_EventId : list Z;
  fe_Timestamp : option Timestamp;
  fe_PublicKey : list Z;
  fe_FlowFields : option FlowFields;
  fe_IsInitiator : bool;
  fe_WindowStart : option Timestamp;
  fe_WindowEnd : option Timestamp;
}.

Class FlowLibs := {
  uuid_String : N → string;
  uuid_FromBytes : list Z → option N;
  timestamppb_New : Z → Timestamp;
  AsTime : Timestamp → Z;
  CheckValid : Timestamp → bool;
  proto_Marshal : FlowEvent → option (list Z);
  proto_Unmarshal : list Z → option FlowEvent;
}.

Definition uuid_wf (id : N) : Prop := (id < 2 ^ 128)%N.
Definition uuid_bytes (id : N) : list Z := be_bytes 16 (Z.of_N id).

(** Characters of the text of a UUID. *)
Definition uuid_char (c : ascii) : bool :=
  let n := Ascii.N_of_ascii c in ((48 <=? n) && (n <=? 57) || (97 <=? n) && (n <=? 102) || (n =? 45))%N.

Class FlowLibsSpec {L : FlowLibs} : Prop := {
  uuid_String_inj : ∀ a b, uuid_wf a → uuid_wf b → uuid_String a = uuid_String b → a = b;
  uuid_String_text : ∀ a, String.length (uuid_String a) = 36%nat ∧
    Forall (λ c, uuid_char c = true) (String.list_ascii_of_string (uuid_String a));
  uuid_FromBytes_bytes : ∀ a, uuid_wf a → uuid_FromBytes (uuid_bytes a) = Some a;
  AsTime_New : ∀ t, AsTime (timestamppb_New t) = t;
  Unmarshal_Marshal : ∀ w data, proto_Marshal w = Some data → proto_Unmarshal data = Some w;
}.

Section Wire.
Context {L : FlowLibs}.

Definition is_icmp (f : EventFields) : bool := (ev_Protocol f =? ICMP) || (ev_Protocol f =? ICMPv6).

Definition flow_fields (event : Event) : FlowFields :=
  let f := e_fields event in
  {| ff_FlowId := uuid_bytes (ev_FlowID f); ff_Type := type_code (ev_Type f); ff_RuleId := ev_RuleID f;
     ff_Direction := direction_code (ev_Direction f); ff_Protocol := ev_Protocol f;
     ff_SourceIp := AsSlice (ev_SourceIP f); ff_DestIp := AsSlice (ev_DestIP f);
     ff_ConnectionInfo := Some (if is_icmp f then IcmpInfo (ev_ICMPType f) (ev_ICMPCode f)
                                else PortInfo (ev_SourcePort f) (ev_DestPort f));
     ff_RxPackets := ev_RxPackets f; ff_TxPackets := ev_TxPackets f; ff_RxBytes := ev_RxBytes f; ff_TxBytes := ev_TxBytes f;
     ff_SourceResourceId := e_SourceResourceID event; ff_DestResourceId := e_DestResourceID event;
     ff_NumOfStarts := e_NumOfStarts event; ff_NumOfEnds := e_NumOfEnds event; ff_NumOfDrops := e_NumOfDrops event |}.

(** [toProtoEvent] adds the key of the peer to what the outbox writes. *)
Definition toProtoEvent (publicKey : list Z) (event : Event) : FlowEvent :=
  {| fe_EventId := uuid_bytes (e_ID event); fe_Timestamp := Some (timestamppb_New (e_Timestamp event));
     fe_PublicKey := publicKey; fe_FlowFields := Some (flow_fields event); fe_IsInitiator := false;
     fe_WindowStart := Some (timestamppb_New (e_WindowStart event)); fe_WindowEnd := Some (timestamppb_New (e_WindowEnd event)) |}.

Definition eventToProto (event : Event) : FlowEvent := toProtoEvent [] event.

(** Whether there is no error. *)
Definition validateOutboxEvent (wire : FlowEvent) : bool :=
  if uuid_FromBytes (fe_EventId wire) then
    match fe_FlowFields wire with
    | None => false
    | Some fields =>
        if uuid_FromBytes (ff_FlowId fields) then
        if IsValid (AddrFromSlice (ff_SourceIp fields)) then
        if IsValid (AddrFromSlice (ff_DestIp fields)) then
        if (255 <? ff_Protocol fields) || (3 <? ff_Type fields) || (2 <? ff_Direction fields) then false else
        if (1024 <? length (ff_RuleId fields))%nat || (1024 <? length (ff_SourceResourceId fields))%nat ||
           (1024 <? length (ff_DestResourceId fields))%nat then false else
        if match ff_ConnectionInfo fields with
           | Some (PortInfo s d) => (65535 <? s) || (65535 <? d)
           | Some (IcmpInfo t c) => (255 <? t) || (255 <? c)
           | None => false
           end then false else
        match fe_Timestamp wire, fe_WindowStart wire, fe_WindowEnd wire with
        | Some t, Some s, Some e => CheckValid t && CheckValid s && CheckValid e && negb (AsTime e <? AsTime s)
        | _, _, _ => false
        end
        else false else false else false
    end
  else false.

(** The conversions of the enumerations; what lies outside them, which
    [eventToProto] does not write, is read as unknown. *)
Definition type_of_code (z : Z) : EventType :=
  if z =? 1 then TypeStart else if z =? 2 then TypeEnd else if z =? 3 then TypeDrop else TypeUnknown.
Definition direction_of_code (z : Z) : Direction :=
  if z =? 1 then Ingress else if z =? 2 then Egress else DirectionUnknown.

Definition decodeEvent (data : list Z) : option Event :=
  wire ← proto_Unmarshal data;
  if negb (validateOutboxEvent wire) then None
  else
    let id := default uuid_Nil (uuid_FromBytes (fe_EventId wire)) in
    fields ← fe_FlowFields wire;
    t ← fe_Timestamp wire; ws ← fe_WindowStart wire; we ← fe_WindowEnd wire;
    let flowID := default uuid_Nil (uuid_FromBytes (ff_FlowId fields)) in
    let src := AddrFromSlice (ff_SourceIp fields) in
    let dst := AddrFromSlice (ff_DestIp fields) in
    let '(sp, dp) := match ff_ConnectionInfo fields with Some (PortInfo s d) => (uint 16 s, uint 16 d) | _ => (0, 0) end in
    let '(it, ic) := match ff_ConnectionInfo fields with Some (IcmpInfo t c) => (uint 8 t, uint 8 c) | _ => (0, 0) end in
    Some {| e_ID := id; e_Timestamp := AsTime t; e_WindowStart := AsTime ws; e_WindowEnd := AsTime we;
      e_fields := {| ev_FlowID := flowID; ev_Type := type_of_code (ff_Type fields); ev_RuleID := ff_RuleId fields;
        ev_Direction := direction_of_code (ff_Direction fields); ev_Protocol := uint 8 (ff_Protocol fields);
        ev_SourceIP := Unmap src; ev_DestIP := Unmap dst; ev_SourcePort := sp; ev_DestPort := dp;
        ev_ICMPType := it; ev_ICMPCode := ic;
        ev_RxPackets := ff_RxPackets fields; ev_TxPackets := ff_TxPackets fields;
        ev_RxBytes := ff_RxBytes fields; ev_TxBytes := ff_TxBytes fields |};
      e_SourceResourceID := ff_SourceResourceId fields; e_DestResourceID := ff_DestResourceId fields;
      e_NumOfStarts := ff_NumOfStarts fields; e_NumOfEnds := ff_NumOfEnds fields; e_NumOfDrops := ff_NumOfDrops fields |}.

(** ** Round trip *)

(** Values within their widths. *)
Definition event_wf (e : Event) : Prop :=
  let f := e_fields e in
  uuid_wf (e_ID e) ∧ uuid_wf (ev_FlowID f) ∧ addr_wf (ev_SourceIP f) ∧ addr_wf (ev_DestIP f) ∧
  in_width 8 (ev_Protocol f) ∧ in_width 16 (ev_SourcePort f) ∧ in_width 16 (ev_DestPort f) ∧
  in_width 8 (ev_ICMPType f) ∧ in_width 8 (ev_ICMPCode f).

(** What the encoding keeps: addresses without zones and unmapped, ports or
    the ICMP type and code. *)
Definition normal (e : Event) : Event :=
  let f := e_fields e in
  let icmp := is_icmp f in
  {| e_ID := e_ID e; e_Timestamp := e_Timestamp e; e_WindowStart := e_WindowStart e; e_WindowEnd := e_WindowEnd e;
     e_fields := {| ev_FlowID := ev_FlowID f; ev_Type := ev_Type f; ev_RuleID := ev_RuleID f; ev_Direction := ev_Direction f;
       ev_Protocol := ev_Protocol f; ev_SourceIP := Unmap (withoutZone (ev_SourceIP f)); ev_DestIP := Unmap (withoutZone (ev_DestIP f));
       ev_SourcePort := if icmp then 0 else ev_SourcePort f; ev_DestPort := if icmp then 0 else ev_DestPort f;
       ev_ICMPType := if icmp then ev_ICMPType f else 0; ev_ICMPCode := if icmp then ev_ICMPCode f else 0;
       ev_RxPackets := ev_RxPackets f; ev_TxPackets := ev_TxPackets f; ev_RxBytes := ev_RxBytes f; ev_TxBytes := ev_TxBytes f |};
     e_SourceResourceID := e_SourceResourceID e; e_DestResourceID := e_DestResourceID e;
     e_NumOfStarts := e_NumOfStarts e; e_NumOfEnds := e_NumOfEnds e; e_NumOfDrops := e_NumOfDrops e |}.

Lemma AddrFromSlice_AsSlice a : addr_wf a → AddrFromSlice (AsSlice a) = withoutZone a.
Proof.
  destruct a as [|v|v z]; [done|..]; intros Hw; unfold AddrFromSlice, AsSlice; rewrite length_be_bytes; cbn [Nat.eqb withoutZone];
    unfold AddrFrom4, AddrFrom16; rewrite be_value_bytes; try done; exact Hw.
Qed.

Lemma IsValid_withoutZone a : IsValid (withoutZone a) = IsValid a.
Proof. by destruct a. Qed.

Lemma type_code_inv t : type_of_code (type_code t) = t.
Proof. by destruct t. Qed.

Lemma direction_code_inv d : direction_of_code (direction_code d) = d.
Proof. by destruct d. Qed.

Context {LS : FlowLibsSpec}.

(** What is refused. *)
Lemma validate_eventToProto e : event_wf e →
  validateOutboxEvent (eventToProto e) = true ↔
  IsValid (ev_SourceIP (e_fields e)) = true ∧ IsValid (ev_DestIP (e_fields e)) = true ∧
  (length (ev_RuleID (e_fields e)) <= 1024)%nat ∧ (length (e_SourceResourceID e) <= 1024)%nat ∧ (length (e_DestResourceID e) <= 1024)%nat ∧
  CheckValid (timestamppb_New (e_Timestamp e)) = true ∧ CheckValid (timestamppb_New (e_WindowStart e)) = true ∧
  CheckValid (timestamppb_New (e_WindowEnd e)) = true ∧ e_WindowStart e <= e_WindowEnd e.
Proof.
  intros (W1 & W2 & W3 & W4 & W5 & W6 & W7 & W8 & W9). unfold validateOutboxEvent, eventToProto, toProtoEvent.
  cbn [fe_EventId fe_FlowFields fe_Timestamp fe_WindowStart fe_WindowEnd]. rewrite uuid_FromBytes_bytes by done. cbn [flow_fields
    ff_FlowId ff_SourceIp ff_DestIp ff_Protocol ff_Type ff_Direction ff_RuleId ff_SourceResourceId ff_DestResourceId ff_ConnectionInfo].
  rewrite uuid_FromBytes_bytes by done. unfold in_width in *.
  rewrite !AddrFromSlice_AsSlice, !IsValid_withoutZone by done.
  destruct (IsValid (ev_SourceIP (e_fields e))); [|naive_solver]. destruct (IsValid (ev_DestIP (e_fields e))); [|naive_solver].
  assert ((255 <? ev_Protocol (e_fields e)) || (3 <? type_code (ev_Type (e_fields e))) || (2 <? direction_code (ev_Direction (e_fields e))) = false) as ->.
  { change (2 ^ 8) with 256 in *. destruct (ev_Type (e_fields e)), (ev_Direction (e_fields e)); cbn; lia. }
  assert (match (if is_icmp (e_fields e) then IcmpInfo (ev_ICMPType (e_fields e)) (ev_ICMPCode (e_fields e))
             else PortInfo (ev_SourcePort (e_fields e)) (ev_DestPort (e_fields e))) with
           | PortInfo s d => (65535 <? s) || (65535 <? d)
           | IcmpInfo t c => (255 <? t) || (255 <? c) end = false) as ->.
  { change (2 ^ 8) with 256 in *. change (2 ^ 16) with 65536 in *. destruct (is_icmp (e_fields e)); lia. }
  rewrite !AsTime_New. destruct (_ || _ || _) eqn:El.
  - split; [done|]. intros (_ & _ & H1 & H2 & H3 & _). rewrite !orb_true_iff, !Nat.ltb_lt in El. lia.
  - rewrite !orb_false_iff, !Nat.ltb_ge in El. bools. tauto.
Qed.

(** A window that ends before it begins is refused. *)
Lemma validate_window e : e_WindowEnd e < e_WindowStart e → validateOutboxEvent (eventToProto e) = false.
Proof.
  intros He. unfold validateOutboxEvent. cbn [eventToProto toProtoEvent fe_EventId fe_FlowFields fe_Timestamp fe_WindowStart fe_WindowEnd].
  rewrite !AsTime_New, (proj2 (Z.ltb_lt _ _) He). cbn [negb]. rewrite andb_false_r. repeat case_match; done.
Qed.

(** What the outbox writes is read back, in its normal form. *)
Lemma decode_written e data : event_wf e → validateOutboxEvent (eventToProto e) = true →
  proto_Marshal (eventToProto e) = Some data → decodeEvent data = Some (normal e).
Proof.
  intros Hwf Hv Hm. unfold decodeEvent. rewrite (Unmarshal_Marshal _ _ Hm). cbn [mbind option_bind]. rewrite Hv. cbn [negb].
  apply validate_eventToProto in Hv; [|done]. destruct Hv as (V1 & V2 & _).
  destruct Hwf as (W1 & W2 & W3 & W4 & W5 & W6 & W7 & W8 & W9).
  unfold eventToProto, toProtoEvent, flow_fields. cbn -[AsSlice AddrFromSlice uuid_bytes type_code type_of_code direction_of_code Unmap].
  rewrite !uuid_FromBytes_bytes, !AddrFromSlice_AsSlice, !AsTime_New, type_code_inv, direction_code_inv by done. cbn [default from_option].
  unfold normal. destruct (is_icmp (e_fields e)); cbn; rewrite !uint_id by done; done.
Qed.

Lemma Unmap_plain a : addr_wf a → Unmap (withoutZone (Unmap (withoutZone a))) = Unmap (withoutZone a).
Proof.
  intros Hw. destruct a as [|v|v z]; [done|done|]. cbn [withoutZone].
  destruct (Is4In6 (AddrV6 v "")) eqn:E; cbn [Unmap]; rewrite E; cbn [withoutZone Unmap]; [done|]. by rewrite E.
Qed.

Lemma normal_idemp e : event_wf e → normal (normal e) = normal e.
Proof.
  intros (_ & _ & W3 & W4 & _). unfold normal, is_icmp. cbn. rewrite !Unmap_plain by done.
  destruct (_ || _); done.
Qed.
End Wire.
