(* ===== verification/FlowOutbox.v ===== *)
(** * Traffic events: the outbox

    [client/internal/netflow/store/outbox.go]: the directory in which a client
    keeps the events the server has not acknowledged, over restarts.

    The directory is a map from names to entries.  Every system call takes its
    answer from a list: it succeeds, it fails (a failed write leaves part of
    the data), or the process ends there.  After that no call has an effect.
    [M] is the monad of such programs; an error is [None]. *)
From S2P Require Import Prelude GoStrings NetIP Bytes ConnTrack Netflow FlowWire.
Open Scope Z_scope.

(** ** The file system *)

Inductive DirEntry := Directory | Irregular | Regular (data : list Z).
Inductive Answer := Ok | Fails (written : nat) | Crash.

Notation Dir := (gmap string DirEntry).

Record FS := { fs_dir : Dir; fs_answers : list Answer; fs_alive : bool }.

Definition M (A : Type) : Type := FS → FS * option A.

Definition ret {A} (a : A) : M A := λ fs, (fs, Some a).
Definition fail {A} : M A := λ fs, (fs, None).
Definition bind {A B} (m : M A) (k : A → M B) : M B :=
  λ fs, match m fs with (fs, Some a) => k a fs | (fs, None) => (fs, None) end.

Declare Scope outbox_scope.
Delimit Scope outbox_scope with outbox.
Notation "x ←' m ; k" := (bind m (λ x, k)) (at level 20, m at level 100, k at level 200, right associativity,
  format "x  ←'  m ;  '/' k") : outbox_scope.
Notation "m ;;' k" := (bind m (λ _, k)) (at level 100, k at level 200, right associativity) : outbox_scope.
Local Open Scope outbox_scope.

(** [partial n] is the effect of a call that fails after [n] bytes. *)
Definition syscall {A} (effect : Dir → Dir * option A) (partial : nat → Dir → Dir) : M A := λ fs,
  if negb (fs_alive fs) then (fs, None)
  else
    let continue dir rest a := ({| fs_dir := dir; fs_answers := rest; fs_alive := true |}, a) in
    match fs_answers fs with
    | [] => let '(dir, a) := effect (fs_dir fs) in continue dir [] a
    | Ok :: rest => let '(dir, a) := effect (fs_dir fs) in continue dir rest a
    | Fails n :: rest => continue (partial n (fs_dir fs)) rest None
    | Crash :: rest => ({| fs_dir := fs_dir fs; fs_answers := rest; fs_alive := false |}, None)
    end.

(** A call that leaves the directory as it is when it fails. *)
Definition call {A} (effect : Dir → Dir * option A) : M A := syscall effect (λ _ d, d).

(** [Sync], [Close], [Chmod], [Open] of a file that is there, ... *)
Definition touch : M () := call (λ d, (d, Some ())).

(** [Lstat] and [Stat]; [None] is [IsNotExist]. *)
Definition Lstat (name : string) : M (option DirEntry) := call (λ d, (d, Some (d !! name))).

(** [CreateTemp] in the directory; [rnd] replaces the star. *)
Definition CreateTemp (rnd : string) : M string :=
  let name := ".tmp-" +:+ rnd in
  call (λ d, match d !! name with Some _ => (d, None) | None => (<[name := Regular []]> d, Some name) end).

Definition Write (name : string) (data : list Z) : M () :=
  syscall (λ d, (<[name := Regular data]> d, Some ())) (λ n d, <[name := Regular (take n data)]> d).

Definition Rename (from to : string) : M () :=
  call (λ d, match d !! from with Some x => (<[to := x]> (delete from d), Some ()) | None => (d, None) end).

(** [Remove]; the answer is whether the entry existed. *)
Definition Remove (name : string) : M bool :=
  call (λ d, match d !! name with Some _ => (delete name d, Some true) | None => (d, Some false) end).

(** The content of a regular file. *)
Definition ReadFile (name : string) : M (list Z) :=
  call (λ d, match d !! name with Some (Regular data) => (d, Some data) | _ => (d, None) end).

(** A deferred clean-up that runs when there was an error. *)
Definition on_error {A B} (m : M A) (cleanup : M B) : M A := λ fs,
  match m fs with (fs, Some a) => (fs, Some a) | (fs, None) => let '(fs, _) := cleanup fs in (fs, None) end.

(** [_ = m()]: the error is ignored; a process that died goes no further. *)
Definition ignore {A} (m : M A) : M () := λ fs, let '(fs, _) := m fs in (fs, if fs_alive fs then Some () else None).

Fixpoint fold_m {A B} (f : B → A → M B) (b : B) (l : list A) : M B :=
  match l with [] => ret b | x :: l => b ←' f b x; fold_m f b l end.

(** [syncDir]: the directory is opened and synchronised. *)
Definition syncDir : M () := touch ;;' touch.

(** ** Programs *)

Definition outboxFileExt : string := ".pb".
Definition maxOutboxAge : Z := 7 * 24 * 3600 * 10 ^ 9.
Definition maxOutboxFiles : nat := 4096.
Definition maxOutboxQuarantine : nat := 16.
Definition maxOutboxEntries : nat := 2 * maxOutboxFiles.

Section Outbox.
Context {L : FlowLibs} {MO : MapOrder}.

Definition outbox_file (id : N) : string := uuid_String id +:+ outboxFileExt.

Definition persistEvent (rnd : string) (event : Event) : M Z :=
  let wire := eventToProto event in
  if negb (validateOutboxEvent wire) then fail
  else
    match proto_Marshal wire with
    | None => fail
    | Some data =>
        let target := outbox_file (e_ID event) in
        info ←' Lstat target;
        match info with
        | Some (Regular old) => ret (Z.of_nat (length old))
        | Some _ => fail
        | None =>
            tempName ←' CreateTemp rnd;
            on_error
              (Write tempName data ;;' touch ;;' touch ;;' Rename tempName target ;;' touch ;;' syncDir ;;'
               ret (Z.of_nat (length data)))
              (ignore touch ;;' Remove tempName)
        end
    end.

Definition removeEvent (id : N) : M () := Remove (outbox_file id) ;;' syncDir.

(** The functions of a store that was opened on the directory. *)
Definition outbox_backend (rnd : string) : Backend FS :=
  {| be_persist := persistEvent rnd;
     be_remove := λ id fs, match removeEvent id fs with (fs, Some _) => (fs, true) | (fs, None) => (fs, false) end |}.

(** [fresh] is what [uuid.NewString] returns for the path. *)
Definition quarantine (fresh : string → string) (path : string) (count : nat) : M nat :=
  if (maxOutboxQuarantine <=? count)%nat then Remove path ;;' syncDir ;;' ret count
  else
    let target := path +:+ ".corrupt" in
    info ←' Lstat target;
    Rename path (match info with Some _ => target +:+ "." +:+ fresh path | None => target end) ;;'
    syncDir ;;' ret (S count).

(** [os.Remove] in [recoverEvents]: an entry that is gone is an error there. *)
Definition RemoveExisting (name : string) : M () := found ←' Remove name; if found : bool then ret () else fail.

Definition is_temp (name : string) : bool := HasPrefix name ".tmp-".
Definition is_quarantined (name : string) : bool := HasSuffix name ".corrupt" || strings_Contains name ".corrupt.".

(** The first loop: live entries in order, and the number in quarantine. *)
Definition sort_entry (s : list string * nat) (entry : string * DirEntry) : M (list string * nat) :=
  let '(live, quarantined) := s in
  let '(name, kind) := entry in
  match kind with
  | Directory => fail
  | _ =>
      if is_temp name then RemoveExisting name ;;' ret s
      else if is_quarantined name then
        if (quarantined <? maxOutboxQuarantine)%nat then ret (live, S quarantined)
        else RemoveExisting name ;;' ret s
      else if HasSuffix name outboxFileExt then
        let live := live ++ [name] in
        if (maxOutboxFiles <? length live)%nat then fail else ret (live, quarantined)
      else fail
  end.

(** One round of the second loop. *)
Definition recover_one (cutoff : Z) (fresh : string → string) (s : BoundedMemory * nat) (name : string) : M (BoundedMemory * nat) :=
  let '(store, quarantined) := s in
  let discard :=
    let store := MarkIncomplete IncompleteOutboxCorrupt store in
    quarantined ←' quarantine fresh name quarantined; ret (store, quarantined) in
  info ←' Lstat name;
  match info with
  | Some (Regular _) =>
      touch ;;' data ←' ReadFile name; touch ;;'
      let data := take (Z.to_nat (bm_maxBytes store + 1)) data in
      let sz := Z.of_nat (length data) in
      if bm_maxBytes store <? sz then discard
      else
        match decodeEvent data with
        | None => discard
        | Some event =>
            if e_Timestamp event <? cutoff then discard
            else if negb (String.eqb name (outbox_file (e_ID event))) then discard
            else if (bm_maxEvents store <=? Z.of_nat (size (bm_events store))) || negb (fits store sz) then fail
            else ret (bm_put event sz store, quarantined)
        end
  | _ => fail
  end.

(** [ReadDir(n)]: at most [n] entries, in an order of the system's. *)
Definition ReadDir (seed : nat) (n : nat) : M (list (string * DirEntry)) :=
  call (λ d, (d, Some (take n (range_list seed d)))).

Definition recoverEvents (now : Z) (seed : nat) (fresh : string → string) (store : BoundedMemory) : M BoundedMemory :=
  touch ;;' entries ←' ReadDir seed (S maxOutboxEntries); touch ;;'
  if (maxOutboxEntries <? length entries)%nat then fail
  else
    s ←' fold_m sort_entry ([], O) entries;
    s ←' fold_m (recover_one (now - maxOutboxAge) fresh) (store, s.2) s.1;
    syncDir ;;' ret s.1.

Definition NewOutboxStore (now : Z) (seed : nat) (fresh : string → string) (publicKey : list Z) (maxEvents maxBytes : Z) : M BoundedMemory :=
  match publicKey with
  | [] => fail
  | _ => touch ;;' touch ;;' syncDir ;;' recoverEvents now seed fresh (NewBoundedMemoryStore maxEvents maxBytes)
  end.
End Outbox.

(** ** Traffic events: what the outbox keeps

    A small program logic for the file-system programs, the effect of each
    operation on the directory whatever its system calls answer, and what a
    restart recovers. *)

(** ** Programs and directories

    From a directory in [P] the program ends in [Q] with its result, or in [E]
    with an error or with the end of the process. *)
Definition triple {A} (P : Dir → Prop) (m : M A) (Q : A → Dir → Prop) (E : Dir → Prop) : Prop :=
  ∀ fs, P (fs_dir fs) →
    match m fs with
    | (fs', Some a) => Q a (fs_dir fs') ∧ fs_alive fs' = fs_alive fs
    | (fs', None) => E (fs_dir fs')
    end.

Lemma triple_ret {A} P (a : A) (Q : A → Dir → Prop) E : (∀ d, P d → Q a d) → triple P (ret a) Q E.
Proof. intros H fs Hp. split; [by apply H|done]. Qed.

Lemma triple_fail {A} (P : Dir → Prop) (Q : A → Dir → Prop) E : (∀ d, P d → E d) → triple P fail Q E.
Proof. intros H fs Hp. by apply H. Qed.

Lemma triple_bind {A B} P (m : M A) (k : A → M B) R Q E :
  triple P m R E → (∀ a, triple (R a) (k a) Q E) → triple P (bind m k) Q E.
Proof.
  intros Hm Hk fs Hp. specialize (Hm fs Hp). unfold bind. destruct (m fs) as [fs1 [a|]]; [|done].
  destruct Hm as [Hr Ha]. specialize (Hk a fs1 Hr). destruct (k a fs1) as [fs2 [b|]]; [|done]. by rewrite <- Ha.
Qed.

Lemma triple_conseq {A} P' P (m : M A) Q' Q E' E : triple P' m Q' E' →
  (∀ d, P d → P' d) → (∀ a d, Q' a d → Q a d) → (∀ d, E' d → E d) → triple P m Q E.
Proof.
  intros H HP HQ HE fs Hp. specialize (H fs (HP _ Hp)). destruct (m fs) as [fs1 [a|]]; [|by apply HE].
  destruct H. split; [by apply HQ|done].
Qed.

Lemma triple_syscall {A} (P : Dir → Prop) (effect : Dir → Dir * option A) partial Q E :
  (∀ d, P d → E d ∧ ∀ n, E (partial n d)) →
  (∀ d, P d → match effect d with (d', Some a) => Q a d' | (d', None) => E d' end) →
  triple P (syscall effect partial) Q E.
Proof.
  intros HE HQ fs Hp. unfold syscall. specialize (HQ _ Hp). destruct (HE _ Hp) as [H1 H2].
  destruct (fs_alive fs) eqn:Ea; cbn [negb]; [|done]. destruct (fs_answers fs) as [|[|n|] rest]; cbn; try done;
    destruct (effect (fs_dir fs)) as [d' [a|]]; done.
Qed.

Lemma triple_call {A} (P : Dir → Prop) (effect : Dir → Dir * option A) Q E :
  (∀ d, P d → E d) →
  (∀ d, P d → match effect d with (d', Some a) => Q a d' | (d', None) => E d' end) →
  triple P (call effect) Q E.
Proof. intros HE HQ. apply triple_syscall; [auto|done]. Qed.

Lemma triple_touch P E : (∀ d, P d → E d) → triple P touch (λ _, P) E.
Proof. intros H. apply triple_call; auto. Qed.

Lemma triple_syncDir P E : (∀ d, P d → E d) → triple P syncDir (λ _, P) E.
Proof. intros H. eapply triple_bind; [by apply triple_touch|]. intros ?. by apply triple_touch. Qed.

Lemma triple_on_error {A B} P (m : M A) (cleanup : M B) Q E' E :
  triple P m Q E' → triple E' cleanup (λ _, E) E → triple P (on_error m cleanup) Q E.
Proof.
  intros Hm Hc fs Hp. specialize (Hm fs Hp). unfold on_error. destruct (m fs) as [fs1 [a|]]; [done|].
  specialize (Hc fs1 Hm). destruct (cleanup fs1) as [fs2 [b|]]; [by destruct Hc|done].
Qed.

Lemma triple_ignore_touch P : triple P (ignore touch) (λ _, P) P.
Proof.
  intros fs Hp. unfold ignore, touch, call, syscall. destruct (fs_alive fs) eqn:Ha; cbn [negb]; [|by rewrite Ha].
  destruct (fs_answers fs) as [|[|n|] rest]; cbn; rewrite ?Ha; done.
Qed.

(** The invariant knows what is left to do. *)
Lemma triple_fold_m {A B} (f : B → A → M B) (I : B → list A → Dir → Prop) E l b :
  (∀ b x l, triple (I b (x :: l)) (f b x) (λ b', I b' l) E) →
  triple (I b l) (fold_m f b l) (λ b', I b' []) E.
Proof.
  intros Hf. revert b. induction l as [|x l IH]; intros b; cbn [fold_m]; [by apply triple_ret|].
  eapply triple_bind; [apply Hf|]. intros b'. apply IH.
Qed.

Lemma triple_if {A} (b : bool) P (m m' : M A) Q E : triple P m Q E → triple P m' Q E → triple P (if b then m else m') Q E.
Proof. by destruct b. Qed.

Lemma triple_pure {A} (φ : Prop) P (m : M A) Q E : (φ → triple P m Q E) → triple (λ d, φ ∧ P d) m Q E.
Proof. intros H fs [Hf Hp]. by apply H. Qed.

Lemma triple_facts {A} (φ : Prop) P (m : M A) Q E : (∀ d, P d → φ) → (φ → triple P m Q E) → triple P m Q E.
Proof. intros Hφ H fs Hp. apply H; [by eapply Hφ|done]. Qed.

(** ** Names *)

Lemma HasPrefix_app p s : HasPrefix (p +:+ s) p = true.
Proof. induction p as [|c p IH]; [by destruct s|]. rewrite cons_app. cbn [HasPrefix]. by rewrite Ascii.eqb_refl, IH. Qed.

Lemma Contains_app a sub s : strings_Contains (a +:+ sub +:+ s) sub = true.
Proof.
  induction a as [|c a IH].
  - rewrite nil_app. destruct (sub +:+ s) eqn:E; cbn [strings_Contains]; rewrite <- E, HasPrefix_app; done.
  - rewrite cons_app. cbn [strings_Contains]. rewrite IH. apply orb_true_r.
Qed.

Definition live_name (n : string) : Prop := is_temp n = false ∧ is_quarantined n = false.

#[global] Instance live_name_dec n : Decision (live_name n).
Proof. unfold live_name. apply _. Defined.

Section Names.
Context {L : FlowLibs} {LS : FlowLibsSpec}.

Lemma uuid_first id : ∃ c s, uuid_String id = String c s ∧ uuid_char c = true.
Proof.
  destruct (uuid_String_text id) as [Hl Hc]. destruct (uuid_String id) as [|c s]; [done|]. exists c, s. split; [done|].
  by apply Forall_cons in Hc as [? _].
Qed.

Lemma uuid_not_dot c : uuid_char c = true → c ≠ "."%char.
Proof. by intros Hc ->. Qed.

Lemma Contains_uuid u s : Forall (λ c, uuid_char c = true) (String.list_ascii_of_string u) →
  strings_Contains s ".corrupt." = false → strings_Contains (u +:+ s) ".corrupt." = false.
Proof.
  intros Hu Hs. induction u as [|c u IH]; [done|]. cbn in Hu. apply Forall_cons in Hu as [Hc Hu].
  rewrite cons_app. cbn [strings_Contains HasPrefix]. rewrite (IH Hu).
  destruct (Ascii.eqb_spec "."%char c) as [E|E]; [by destruct (uuid_not_dot c Hc)|done].
Qed.

Lemma HasSuffix_app s x y : String.length x = String.length y → HasSuffix (s +:+ x) y = String.eqb x y.
Proof.
  intros Hl. unfold HasSuffix. rewrite length_string_app.
  replace (String.length s + String.length x - String.length y)%nat with (String.length s) by lia.
  rewrite (proj2 (Nat.leb_le _ _)) by lia. cbn [andb]. by rewrite substring_skip, <- Hl, substring_all.
Qed.

Lemma outbox_file_live id : live_name (outbox_file id).
Proof.
  unfold live_name, outbox_file, is_temp, is_quarantined. split.
  - destruct (uuid_first id) as (c & s & -> & Hc). rewrite cons_app. cbn [HasPrefix].
    destruct (Ascii.eqb_spec "."%char c) as [E|E]; [by destruct (uuid_not_dot c Hc)|done].
  - apply orb_false_iff. split; [|by apply Contains_uuid; [apply uuid_String_text|]].
    apply not_true_iff_false. intros [p E]%HasSuffix_iff.
    pose proof (HasSuffix_app (uuid_String id +:+ ".p") "b" "b" eq_refl) as H1. rewrite string_app_assoc in H1.
    change (".p" +:+ "b") with outboxFileExt in H1. rewrite E in H1. change ".corrupt" with (".corrup" +:+ "t") in H1.
    rewrite <- string_app_assoc, HasSuffix_app in H1; done.
Qed.

Lemma outbox_file_suffix id : HasSuffix (outbox_file id) outboxFileExt = true.
Proof. apply HasSuffix_iff. by exists (uuid_String id). Qed.

Lemma outbox_file_inj a b : uuid_wf a → uuid_wf b → outbox_file a = outbox_file b → a = b.
Proof. intros Ha Hb E%string_app_inj_r. by apply uuid_String_inj. Qed.

Lemma temp_not_live rnd : ¬ live_name (".tmp-" +:+ rnd).
Proof. intros [H _]. unfold is_temp in H. by rewrite HasPrefix_app in H. Qed.

Lemma quarantine_not_live path : ¬ live_name (path +:+ ".corrupt").
Proof. intros [_ H]. unfold is_quarantined in H. by rewrite (proj2 (HasSuffix_iff _ ".corrupt")) in H by (by exists path). Qed.

Lemma quarantine_not_live' path fresh : ¬ live_name ((path +:+ ".corrupt") +:+ "." +:+ fresh).
Proof.
  intros [_ H]. unfold is_quarantined in H. apply orb_false_iff in H as [_ H].
  rewrite string_app_assoc, <- (string_app_assoc ".corrupt" "." fresh) in H. change (".corrupt" +:+ ".") with ".corrupt." in H.
  by rewrite Contains_app in H.
Qed.
End Names.

(** ** What the operations do to the directory *)

(** Live entries stay as they are, except perhaps those of [names]. *)
Definition same_live (names : list string) (d d' : Dir) : Prop :=
  ∀ n, live_name n → n ∉ names → d' !! n = d !! n.

Section Effects.
Context {L : FlowLibs} {LS : FlowLibsSpec} {MO : MapOrder}.

(** [data] is the whole encoding of an event that can be read back. *)
Definition complete (e : Event) (data : list Z) : Prop :=
  event_wf e ∧ validateOutboxEvent (eventToProto e) = true ∧ proto_Marshal (eventToProto e) = Some data.

(** The directory after an attempt to store an event: the file is there as a
    whole, or what was there is. *)
Definition persisted (e : Event) (d d' : Dir) : Prop :=
  same_live [outbox_file (e_ID e)] d d' ∧
  (d' !! outbox_file (e_ID e) = d !! outbox_file (e_ID e) ∨
   d !! outbox_file (e_ID e) = None ∧ ∃ data, complete e data ∧ d' !! outbox_file (e_ID e) = Some (Regular data)).

Lemma same_live_insert names d d' n x : same_live names d d' → ¬ live_name n → same_live names d (<[n := x]> d').
Proof. intros H Hn m Hm Hi. rewrite lookup_insert_ne by (by intros ->). by apply H. Qed.

Lemma same_live_delete names d d' n : same_live names d d' → ¬ live_name n → same_live names d (delete n d').
Proof. intros H Hn m Hm Hi. rewrite lookup_delete_ne by (by intros ->). by apply H. Qed.

Lemma persisted_other e d d' n x : persisted e d d' → ¬ live_name n → persisted e d (<[n := x]> d').
Proof.
  intros [H1 H2] Hn. split; [by apply same_live_insert|].
  rewrite lookup_insert_ne; [done|]. intros ->. destruct Hn. apply outbox_file_live.
Qed.

Lemma persisted_removed e d d' n : persisted e d d' → ¬ live_name n → persisted e d (delete n d').
Proof.
  intros [H1 H2] Hn. split; [by apply same_live_delete|].
  rewrite lookup_delete_ne; [done|]. intros ->. destruct Hn. apply outbox_file_live.
Qed.

Lemma persistEvent_spec rnd e d0 : event_wf e →
  triple (λ d, d = d0) (persistEvent rnd e)
    (λ sz d, persisted e d0 d ∧ ∃ data, d !! outbox_file (e_ID e) = Some (Regular data) ∧ sz = Z.of_nat (length data))
    (persisted e d0).
Proof.
  intros Hwf. set (target := outbox_file (e_ID e)).
  assert (H0 : persisted e d0 d0) by (split; [done|by left]).
  unfold persistEvent. destruct (validateOutboxEvent (eventToProto e)) eqn:Hv; cbn [negb]; [|by apply triple_fail; intros d ->].
  destruct (proto_Marshal (eventToProto e)) as [data|] eqn:Hm; [|by apply triple_fail; intros d ->].
  fold target. eapply (triple_bind _ _ _ (λ info d, d = d0 ∧ info = d0 !! target)); [by apply triple_call; intros d ->|].
  intros info. destruct info as [x|].
  - destruct x as [| |old]; [apply triple_fail; by intros d [-> _]..|].
    apply triple_ret. intros d [-> E]. split; [done|]. by exists old.
  - set (temp := ".tmp-" +:+ rnd). assert (Ht : ¬ live_name temp) by apply temp_not_live.
    assert (Hlt : live_name target) by apply outbox_file_live.
    assert (Hne : temp ≠ target) by (intros E; apply Ht; by rewrite E).
    set (opened d := d0 !! target = None ∧ persisted e d0 d ∧ d !! target = None ∧ is_Some (d !! temp)).
    set (written d := d0 !! target = None ∧ persisted e d0 d ∧ d !! target = None ∧ d !! temp = Some (Regular data)).
    set (done' d := persisted e d0 d ∧ d !! target = Some (Regular data)).
    eapply (triple_bind _ _ _ (λ n d, n = temp ∧ opened d)).
    { apply triple_call; [by intros d [-> _]|]. intros d [-> E]. destruct (d0 !! (".tmp-" +:+ rnd)); [done|].
      split; [done|]. split_and!; [done|by apply persisted_other| |by rewrite lookup_insert_eq; eauto].
      by rewrite lookup_insert_ne. }
    intros n. apply triple_pure. intros ->. eapply triple_on_error with (E' := persisted e d0).
    + eapply (triple_bind _ _ _ (λ _, written)).
      { apply triple_syscall.
        - intros d (_ & Hp & _ & _). split; [done|]. intros k. by apply persisted_other.
        - intros d (Hn & Hp & Hd & _). split_and!; [done|by apply persisted_other| |by rewrite lookup_insert_eq].
          by rewrite lookup_insert_ne. }
      intros _. assert (HW : ∀ d, written d → persisted e d0 d) by (intros d (_ & ? & _); done).
      eapply triple_bind; [by apply triple_touch|]. intros ?. eapply triple_bind; [by apply triple_touch|]. intros ?.
      eapply (triple_bind _ _ _ (λ _, done')).
      { apply triple_call; [done|]. intros d (Hn & Hp & Hd & Hx). rewrite Hx. split; [|by rewrite lookup_insert_eq].
        split.
        - intros m Hl Hm'. rewrite lookup_insert_ne by (intros <-; apply Hm'; by apply list_elem_of_singleton).
          rewrite lookup_delete_ne by (intros E; apply Ht; by rewrite E). by apply Hp.
        - right. split; [done|]. exists data. split; [done|]. by rewrite lookup_insert_eq. }
      intros _. assert (HD : ∀ d, done' d → persisted e d0 d) by (by intros d [? _]).
      eapply triple_bind; [by apply triple_touch|]. intros ?. eapply triple_bind; [by apply triple_syncDir|]. intros ?.
      apply triple_ret. intros d [Hp Hd]. split; [done|]. by exists data.
    + eapply triple_bind; [by apply triple_ignore_touch|]. intros ?. apply triple_call; [done|]. intros d Hp.
      destruct (d !! temp); [by apply persisted_removed|done].
Qed.

Lemma removeEvent_spec id d0 :
  triple (λ d, d = d0) (removeEvent id) (λ _ d, d = delete (outbox_file id) d0)
    (λ d, d = d0 ∨ d = delete (outbox_file id) d0).
Proof.
  eapply (triple_bind _ _ _ (λ _ d, d = delete (outbox_file id) d0)).
  - apply triple_call; [auto|]. intros d ->. destruct (d0 !! outbox_file id) eqn:E; [done|]. by rewrite delete_id.
  - intros ?. apply triple_syncDir. auto.
Qed.

Lemma quarantine_spec fresh path count d0 : live_name path →
  triple (λ d, d = d0) (quarantine fresh path count)
    (λ _ d, same_live [path] d0 d ∧ d !! path = None)
    (λ d, same_live [path] d0 d ∧ (d !! path = d0 !! path ∨ d !! path = None)).
Proof.
  intros Hl. unfold quarantine. set (gone d := same_live [path] d0 d ∧ d !! path = None).
  assert (Hgone : ∀ d, gone d → same_live [path] d0 d ∧ (d !! path = d0 !! path ∨ d !! path = None)) by (intros d []; auto).
  assert (Hsame : same_live [path] d0 d0 ∧ (d0 !! path = d0 !! path ∨ d0 !! path = None)) by (split; [done|auto]).
  destruct (_ <=? count)%nat.
  - eapply (triple_bind _ _ _ (λ _, gone)).
    { apply triple_call; [by intros d ->|]. intros d ->. destruct (d0 !! path) eqn:E; [|done]. split; [|apply lookup_delete_eq].
      intros n _ Hn. rewrite lookup_delete_ne; [done|]. intros <-. apply Hn. by apply list_elem_of_singleton. }
    intros ?. eapply triple_bind; [by apply triple_syncDir|]. intros ?. by apply triple_ret.
  - eapply (triple_bind _ _ _ (λ _ d, d = d0)); [apply triple_call; by intros d ->|]. intros info.
    eapply (triple_bind _ _ _ (λ _, gone)).
    { set (to := match info with Some _ => _ | None => _ end).
      assert (Hto : ¬ live_name to) by (unfold to; destruct info; [apply quarantine_not_live'|apply quarantine_not_live]).
      apply triple_call; [by intros d ->|]. intros d ->. destruct (d0 !! path) as [x|] eqn:E; [|split; [done|auto]]. split.
      - apply same_live_insert; [|done]. intros n _ Hn. rewrite lookup_delete_ne; [done|]. intros <-. apply Hn. by apply list_elem_of_singleton.
      - rewrite lookup_insert_ne by (by intros ->). apply lookup_delete_eq. }
    intros ?. eapply triple_bind; [by apply triple_syncDir|]. intros ?. by apply triple_ret.
Qed.

(** ** Recovery *)

(** Every live entry is the whole encoding of an event of [S] of its name. *)
Definition whole (S : Event → Prop) (d : Dir) : Prop :=
  ∀ n x, live_name n → d !! n = Some x →
    ∃ e data, S e ∧ n = outbox_file (e_ID e) ∧ x = Regular data ∧ complete e data.

Definition keep (cutoff maxBytes : Z) (e : Event) (data : list Z) : Prop :=
  cutoff <= e_Timestamp e ∧ Z.of_nat (length data) <= maxBytes.

(** The file of an event, with its content. *)
Definition on_disk (d : Dir) (e : Event) (data : list Z) : Prop :=
  complete e data ∧ d !! outbox_file (e_ID e) = Some (Regular data).

(** What a file says does not depend on the event it is read as. *)
Lemma on_disk_keep d e e1 data data1 cutoff B : on_disk d e data → on_disk d e1 data1 →
  outbox_file (e_ID e) = outbox_file (e_ID e1) → keep cutoff B e data → keep cutoff B e1 data1.
Proof.
  intros [(W & V & M0) L0] [(W1 & V1 & M1) L1] E Hk. rewrite <- E, L0 in L1. injection L1 as <-.
  pose proof (decode_written e data W V M0) as D. rewrite (decode_written e1 data W1 V1 M1) in D. injection D as ?.
  unfold keep in *. by replace (e_Timestamp e1) with (e_Timestamp e) by congruence.
Qed.

Section Recovery.
Context (S : Event → Prop) (d0 : Dir) (Hwhole : whole S d0) (cutoff B : Z).

(** Only what is too old or too long goes away. *)
Definition only_dropped (d : Dir) : Prop :=
  ∀ n, live_name n → d !! n = d0 !! n ∨
    (d !! n = None ∧ ∃ e data, n = outbox_file (e_ID e) ∧ on_disk d0 e data ∧ ¬ keep cutoff B e data).

Definition recovering (s : BoundedMemory * nat) (rest : list string) (d : Dir) : Prop :=
  let events := bm_events s.1 in
  NoDup rest ∧ Forall live_name rest ∧ (∀ n, n ∈ rest → d !! n = d0 !! n) ∧ only_dropped d ∧
  bounded s.1 ∧ bm_maxBytes s.1 = B ∧
  (∀ id e', events !! id = Some e' → outbox_file id ∉ rest ∧ 
     ∃ e data, S e ∧ e' = normal e ∧ e_ID e = id ∧ on_disk d0 e data ∧ keep cutoff B e data) ∧
  (∀ e data, on_disk d0 e data → keep cutoff B e data →
     outbox_file (e_ID e) ∈ rest ∨ events !! e_ID e = Some (normal e)).

Lemma only_dropped_step d d' n e data : only_dropped d → d !! n = d0 !! n → live_name n → n = outbox_file (e_ID e) →
  on_disk d0 e data → ¬ keep cutoff B e data → same_live [n] d d' → (d' !! n = d !! n ∨ d' !! n = None) → only_dropped d'.
Proof.
  intros Hd Hn Hl He Hdisk Hk Hs Hx m Hm. destruct (decide (m = n)) as [->|Hne].
  - destruct Hx as [Hx|Hx]; [left; congruence|right; eauto 10].
  - rewrite (Hs m Hm) by (by rewrite list_elem_of_singleton). by apply Hd.
Qed.

Lemma whole_at n x : live_name n → d0 !! n = Some x → ∃ e data, S e ∧ n = outbox_file (e_ID e) ∧ x = Regular data ∧ on_disk d0 e data.
Proof.
  intros Hl Hx. destruct (Hwhole n x Hl Hx) as (e & data & He & -> & -> & Hc). exists e, data. done.
Qed.

(** Dropping the file at hand. *)
Lemma discard_spec fresh store q n rest e data :
  n = outbox_file (e_ID e) → on_disk d0 e data → ¬ keep cutoff B e data →
  triple (λ d, recovering (store, q) (n :: rest) d)
    (quarantined ←' quarantine fresh n q; ret (MarkIncomplete IncompleteOutboxCorrupt store, quarantined))%outbox
    (λ s, recovering s rest) only_dropped.
Proof.
  intros Hn Hdisk Hk fs HI. set (d := fs_dir fs) in *.
  pose proof HI as (Hnd & Hlive & Hsame & Hdrop & Hb & HB & Hin & Hout).
  apply NoDup_cons in Hnd as [Hni Hnd]. apply Forall_cons in Hlive as [Hln Hlive].
  assert (Hd : d !! n = d0 !! n) by (apply Hsame; left).
  assert (HT : triple (λ d', d' = d) (quarantined ←' quarantine fresh n q; ret (MarkIncomplete IncompleteOutboxCorrupt store, quarantined))%outbox
    (λ s, recovering s rest) only_dropped).
  { eapply triple_bind.
    - eapply triple_conseq; [apply (quarantine_spec fresh n q d Hln)|done|intros a d' Hq; exact Hq|].
      intros d' [H1 H2]. by eapply only_dropped_step.
    - intros q'. apply triple_ret. intros d' [H1 H2]. unfold recovering. cbn [fst].
      destruct (MarkIncomplete_frame IncompleteOutboxCorrupt store) as (F1 & _ & _ & _ & F5). rewrite F1, F5.
      split_and!; [done|done| | |by apply MarkIncomplete_bounded|done| |].
      + intros m Hm. rewrite <- Hsame by (by right). apply H1; [by eapply Forall_forall in Hlive|].
        rewrite list_elem_of_singleton. by intros ->.
      + eapply only_dropped_step; eauto.
      + intros id e' He'. destruct (Hin id e' He') as [Hr Hx]. split; [|done]. intros Hi. apply Hr. by right.
      + intros e1 data1 Hd1 Hk1. destruct (Hout e1 data1 Hd1 Hk1) as [[E|Hr]%elem_of_cons|Hr]; [|by left|by right].
        destruct Hk. eapply on_disk_keep; [exact Hd1|exact Hdisk|congruence|done]. }
  exact (HT fs eq_refl).
Qed.

Lemma recover_one_spec fresh s n rest :
  triple (recovering s (n :: rest)) (recover_one cutoff fresh s n) (λ s', recovering s' rest) only_dropped.
Proof.
  destruct s as [store q]. set (P := recovering (store, q) (n :: rest)).
  assert (HP : ∀ d, P d → only_dropped d) by (intros d H; apply H).
  assert (Hn : ∀ d, P d → d !! n = d0 !! n) by (intros d (_ & _ & H & _); apply H; left).
  apply (triple_facts (live_name n ∧ bounded store ∧ bm_maxBytes store = B)).
  { intros d (_ & Hl & _ & _ & Hb & HB & _). by apply Forall_cons in Hl as [? _]. }
  intros (Hln & Hb & HB). unfold recover_one.
  eapply (triple_bind _ _ _ (λ info d, info = d0 !! n ∧ P d)); [apply triple_call; [done|]; intros d H; by rewrite (Hn d H)|].
  intros info. apply triple_pure. intros ->. destruct (d0 !! n) as [[| |data]|] eqn:En; try by apply triple_fail.
  destruct (whole_at n _ Hln En) as (e & data' & HS & Hne & [= <-] & Hdisk). pose proof Hdisk as [(W & V & M1) Lk].
  pose proof (decode_written e data W V M1) as HD.
  eapply triple_bind; [by apply triple_touch|]. intros ?.
  eapply (triple_bind _ _ _ (λ x d, x = data ∧ P d)); [apply triple_call; [done|]; intros d H; rewrite (Hn d H); done|].
  intros x. apply triple_pure. intros ->. eapply triple_bind; [by apply triple_touch|]. intros ?. rewrite HB.
  destruct (Z.ltb_spec B (Z.of_nat (length (take (Z.to_nat (B + 1)) data)))) as [Hlong|Hshort].
  { eapply triple_conseq; [apply (discard_spec fresh store q n rest e data Hne Hdisk)|done..].
    intros [_ Hk]. rewrite length_take in Hlong. lia. }
  rewrite length_take in Hshort. assert (Hlen : Z.of_nat (length data) <= B) by lia. rewrite take_ge by lia. rewrite HD.
  assert (ET : e_Timestamp (normal e) = e_Timestamp e) by done. rewrite ET. destruct (Z.ltb_spec (e_Timestamp e) cutoff) as [Hold|Hnew].
  { eapply triple_conseq; [apply (discard_spec fresh store q n rest e data Hne Hdisk)|done..]. intros [Hk _]. lia. }
  change (e_ID (normal e)) with (e_ID e). rewrite <- Hne, String.eqb_refl. cbn [negb]. destruct (_ || _) eqn:Ef; [by apply triple_fail|].
  apply orb_false_iff in Ef as [Hc Hf]. apply Z.leb_gt in Hc. apply negb_false_iff in Hf.
  assert (Hkeep : keep cutoff B e data) by done.
  apply triple_ret. intros d (Hnd & Hlive & Hsame & Hdrop & _ & _ & Hin & Hout). cbn [fst] in *.
  apply NoDup_cons in Hnd as [Hni Hnd]. apply Forall_cons in Hlive as [_ Hlive].
  unfold recovering. cbn [fst bm_put bm_events bm_maxBytes]. split_and!; [done|done| |done| |done| |].
  - intros m Hm. apply Hsame. by right.
  - apply bm_put_bounded; [done| |lia|done|done]. destruct (bm_events store !! e_ID (normal e)) as [e'|] eqn:Ex; [|done].
    destruct (Hin _ _ Ex) as [Hr _]. destruct Hr. change (e_ID (normal e)) with (e_ID e). rewrite <- Hne. left.
  - intros id e'. rewrite lookup_insert_Some. intros [[<- <-]|[_ He']].
    + change (e_ID (normal e)) with (e_ID e). rewrite <- Hne. split; [done|]. by exists e, data.
    + destruct (Hin _ _ He') as [Hr Hx]. split; [|done]. intros Hi. apply Hr. by right.
  - intros e1 data1 Hd1 Hk1. destruct (decide (e_ID (normal e) = e_ID e1)) as [Ee|Ee].
    + right. rewrite Ee, lookup_insert_eq. f_equal. destruct Hd1 as [(W1 & V1 & M2) L1]. change (e_ID (normal e)) with (e_ID e) in Ee.
      rewrite <- Ee, Lk in L1. injection L1 as <-. pose proof (decode_written e1 data W1 V1 M2). congruence.
    + rewrite lookup_insert_ne by done. destruct (Hout e1 data1 Hd1 Hk1) as [[E|Hr]%elem_of_cons|Hr]; [|by left|by right].
      destruct Ee. change (e_ID (normal e)) with (e_ID e). destruct Hd1 as [(W1 & _) _].
      apply outbox_file_inj; [apply W|apply W1|congruence].
Qed.

Definition untouched (d : Dir) : Prop := ∀ n, live_name n → d !! n = d0 !! n.

Lemma untouched_only d : untouched d → only_dropped d.
Proof. intros H n Hn. left. by apply H. Qed.

Lemma RemoveExisting_spec name : ¬ live_name name →
  triple untouched (RemoveExisting name) (λ _, untouched) untouched.
Proof.
  intros Hn. eapply (triple_bind _ _ _ (λ _, untouched)).
  - apply triple_call; [done|]. intros d H. destruct (d !! name); [|done].
    intros m Hm. rewrite lookup_delete_ne by (by intros ->). by apply H.
  - intros []; [by apply triple_ret|by apply triple_fail].
Qed.

(** The live names of a list of entries. *)
Definition live_names (entries : list (string * DirEntry)) : list string := filter live_name entries.*1.

Lemma sort_entry_spec all s entry rest :
  triple (λ d, untouched d ∧ s.1 ++ live_names (entry :: rest) = live_names all) (sort_entry s entry)
    (λ s' d, untouched d ∧ s'.1 ++ live_names rest = live_names all) untouched.
Proof.
  destruct s as [live q], entry as [name kind]. unfold live_names. cbn [fst fmap list_fmap]. rewrite filter_cons.
  assert (Hfail : triple (λ d, untouched d ∧ live ++ (if decide (live_name name) then name :: filter live_name rest.*1 else filter live_name rest.*1) = filter live_name all.*1)
    fail (λ (s' : list string * nat) d, untouched d ∧ s'.1 ++ filter live_name rest.*1 = filter live_name all.*1) untouched)
    by (apply triple_fail; by intros d [? _]).
  assert (Hdead : ∀ s' : list string * nat, s'.1 = live → ¬ live_name name →
    triple (λ d, untouched d ∧ live ++ (if decide (live_name name) then name :: filter live_name rest.*1 else filter live_name rest.*1) = filter live_name all.*1)
      (RemoveExisting name ;;' ret s')%outbox (λ s' d, untouched d ∧ s'.1 ++ filter live_name rest.*1 = filter live_name all.*1) untouched).
  { intros s' Es Hn. rewrite decide_False by done. intros fs [Hu Hl]. revert fs Hu. change (triple untouched (RemoveExisting name ;;' ret s')%outbox
      (λ s' d, untouched d ∧ s'.1 ++ filter live_name rest.*1 = filter live_name all.*1) untouched).
    eapply triple_bind; [by apply RemoveExisting_spec|]. intros ?. apply triple_ret. intros d Hu. by rewrite Es. }
  unfold sort_entry. destruct kind as [| |x]; [exact Hfail|..];
    (destruct (is_temp name) eqn:Et; [apply Hdead; [done|]; intros [? _]; congruence|];
     destruct (is_quarantined name) eqn:Eq;
     [destruct (_ <? _)%nat; [rewrite decide_False by (intros [_ ?]; congruence); by apply triple_ret|];
      apply Hdead; [done|]; intros [_ ?]; congruence|];
     destruct (HasSuffix name outboxFileExt); [|exact Hfail];
     destruct (_ <? _)%nat; [exact Hfail|]; rewrite decide_True by done; apply triple_ret; intros d [Hu Hl];
     split; [done|]; cbn [fst]; by rewrite <- app_assoc).
Qed.

(** What a restart finds: the store holds exactly the events of the directory
    that are recent enough and not too long, and they stay there. *)
Lemma recoverEvents_spec now seed fresh store : now - maxOutboxAge = cutoff → bm_maxBytes store = B → bounded store → bm_events store = ∅ →
  triple (λ d, d = d0) (recoverEvents now seed fresh store) (λ store' d, ∃ q, recovering (store', q) [] d) only_dropped.
Proof.
  intros Hcut HB Hb Hemp. assert (H0 : ∀ d, d = d0 → only_dropped d) by (intros d ->; by apply untouched_only).
  unfold recoverEvents. eapply triple_bind; [by apply triple_touch|]. intros ?.
  eapply (triple_bind _ _ _ (λ entries d, entries = take (Datatypes.S maxOutboxEntries) (range_list seed d0) ∧ d = d0));
    [apply triple_call; [done|]; by intros d ->|].
  intros entries. apply triple_pure. intros ->. eapply triple_bind; [by apply triple_touch|]. intros ?.
  destruct (Nat.ltb_spec maxOutboxEntries (length (take (Datatypes.S maxOutboxEntries) (range_list seed d0)))) as [Hlong|Hshort]; [by apply triple_fail|].
  rewrite length_take in Hshort. rewrite take_ge by lia. set (all := range_list seed d0).
  eapply (triple_bind _ _ _ (λ s d, untouched d ∧ s.1 = live_names all)).
  { eapply triple_conseq; [apply (triple_fold_m sort_entry (λ s rest d, untouched d ∧ s.1 ++ live_names rest = live_names all) untouched)| | |].
    - intros. apply sort_entry_spec.
    - by intros d ->.
    - intros s d [Hu Hl]. split; [done|]. by rewrite app_nil_r in Hl.
    - apply untouched_only. }
  intros [live q]. cbn [fst snd]. rewrite Hcut.
  eapply (triple_bind _ _ _ (λ s d, recovering s [] d)).
  { eapply triple_conseq; [apply (triple_fold_m (recover_one cutoff fresh) recovering only_dropped live); intros; apply recover_one_spec| |done|done].
    intros d [Hu ->]. unfold recovering. cbn [fst]. rewrite Hemp.
    assert (Hel : ∀ n, n ∈ live_names all ↔ live_name n ∧ is_Some (d0 !! n)).
    { intros n. unfold live_names. rewrite list_elem_of_filter, list_elem_of_fmap. split.
      - intros [Hl ([k x] & -> & Hx)]. unfold all in Hx. rewrite elem_of_range_list in Hx. eauto.
      - intros [Hl [x Hx]]. split; [done|]. exists (n, x). unfold all. by rewrite elem_of_range_list. }
    split_and!; [apply NoDup_filter, NoDup_fst_range_list| |  |by apply untouched_only|done|done| |].
    - apply Forall_forall. intros n Hn. by apply Hel in Hn as [? _].
    - intros n [Hn _]%Hel. by apply Hu.
    - intros id e'. by rewrite lookup_empty.
    - intros e data [Hc Hx] _. left. apply Hel. split; [apply outbox_file_live|eauto]. }
  intros [store' q']. cbn [fst]. eapply triple_bind; [apply triple_syncDir; by intros d (_ & _ & _ & ? & _)|].
  intros ?. apply triple_ret. eauto.
Qed.
End Recovery.

Lemma NewOutboxStore_spec S d0 now seed fresh publicKey maxEvents maxBytes : whole S d0 → 0 <= maxEvents → 0 <= maxBytes →
  triple (λ d, d = d0) (NewOutboxStore now seed fresh publicKey maxEvents maxBytes)
    (λ store d, ∃ q, recovering S d0 (now - maxOutboxAge) maxBytes (store, q) [] d) (only_dropped d0 (now - maxOutboxAge) maxBytes).
Proof.
  intros Hw He Hb. assert (H0 : ∀ d, d = d0 → only_dropped d0 (now - maxOutboxAge) maxBytes d) by (intros d ->; by left).
  unfold NewOutboxStore. destruct publicKey; [by apply triple_fail|].
  eapply triple_bind; [by apply triple_touch|]. intros ?. eapply triple_bind; [by apply triple_touch|]. intros ?.
  eapply triple_bind; [by apply triple_syncDir|]. intros ?.
  apply recoverEvents_spec; [done|done|done|by apply NewBounded_bounded|done].
Qed.
End Effects.
