(* ===== verification/FlowDurable.v ===== *)
(** * Traffic events: restarts

    The retry store of a client on its outbox, over calls that fail, crashes
    and restarts: what was accepted and not acknowledged is not lost. *)
From S2P Require Import Prelude GoStrings NetIP Bytes ConnTrack Netflow FlowWire FlowOutbox.
Open Scope Z_scope.

Section World.
Context {L : FlowLibs} {LS : FlowLibsSpec} {MO : MapOrder}.
Context (publicKey : list Z) (maxEvents maxBytes : Z).

(** The directory, the store of the running process and whether it is the
    durable one.  [wd_submitted] and [wd_unacked] are what happened: the events
    handed to the store, and those it accepted durably that were not
    acknowledged since. *)
Record World := {
  wd_fs : FS;
  wd_mem : BoundedMemory;
  wd_durable : bool;
  wd_submitted : list Event;
  wd_unacked : gmap N Event;
}.

Definition new_world : World :=
  {| wd_fs := {| fs_dir := ∅; fs_answers := []; fs_alive := false |}; wd_mem := NewBoundedMemoryStore maxEvents maxBytes;
     wd_durable := false; wd_submitted := []; wd_unacked := ∅ |}.

Inductive outbox_op :=
| OStore (event : Event) (rnd : string) (answers : list Answer)
| OAck (ids : list N) (answers : list Answer)
| ORestart (now : Z) (seed : nat) (fresh : string → string) (answers : list Answer).

Definition answering (answers : list Answer) (fs : FS) : FS :=
  {| fs_dir := fs_dir fs; fs_answers := answers; fs_alive := fs_alive fs |}.

Definition store_of (durable : bool) (rnd : string) : option (Backend FS) :=
  if durable then Some (outbox_backend rnd) else None.

(** A process that ended does nothing until it is started again.  A restart
    opens the outbox, as [NewManager] does, or falls back to memory. *)
Definition outbox_step (w : World) (op : outbox_op) : World :=
  match op with
  | OStore e rnd answers =>
      if fs_alive (wd_fs w) then
        let '(m, fs, ok) := TryStoreEvent (store_of (wd_durable w) rnd) e (wd_mem w) (answering answers (wd_fs w)) in
        {| wd_fs := fs; wd_mem := m; wd_durable := wd_durable w; wd_submitted := wd_submitted w ++ [e];
           wd_unacked := if ok && wd_durable w then <[e_ID e := e]> (wd_unacked w) else wd_unacked w |}
      else w
  | OAck ids answers =>
      if fs_alive (wd_fs w) then
        let '(m, fs) := DeleteEvents (store_of (wd_durable w) "") ids (wd_mem w) (answering answers (wd_fs w)) in
        {| wd_fs := fs; wd_mem := m; wd_durable := wd_durable w; wd_submitted := wd_submitted w;
           wd_unacked := foldl (λ u id, delete id u) (wd_unacked w) ids |}
      else w
  | ORestart now seed fresh answers =>
      let fs := {| fs_dir := fs_dir (wd_fs w); fs_answers := answers; fs_alive := true |} in
      let '(fs, r) := NewOutboxStore now seed fresh publicKey maxEvents maxBytes fs in
      {| wd_fs := fs;
         wd_mem := match r with Some store => store | None => MarkIncomplete IncompleteOutboxOpen (NewBoundedMemoryStore maxEvents maxBytes) end;
         wd_durable := if r then true else false; wd_submitted := wd_submitted w;
         wd_unacked := filter (λ p, now - maxOutboxAge <= e_Timestamp p.2) (wd_unacked w) |}
  end.

Definition outbox_run (ops : list outbox_op) : World := foldl outbox_step new_world ops.

Definition stored (op : outbox_op) : option Event := match op with OStore e _ _ => Some e | _ => None end.

(** Well-formed events with identifiers of their own, as [uuid.New] gives
    them. *)
Definition fresh_events (ops : list outbox_op) : Prop :=
  Forall event_wf (omap stored ops) ∧ NoDup (e_ID <$> omap stored ops).

(** ** The invariant *)

Record durable_inv (w : World) : Prop := {
  di_wf : Forall event_wf (wd_submitted w);
  di_whole : whole (λ e, e ∈ wd_submitted w) (fs_dir (wd_fs w));
  di_bounded : bounded (wd_mem w);
  di_limit : bm_maxBytes (wd_mem w) = maxBytes;
  di_unacked : ∀ id e, wd_unacked w !! id = Some e → e_ID e = id ∧
    (∃ data, on_disk (fs_dir (wd_fs w)) e data ∧ Z.of_nat (length data) <= maxBytes) ∧
    (fs_alive (wd_fs w) = true → wd_durable w = true →
       ∃ e', bm_events (wd_mem w) !! id = Some e' ∧ (e' = e ∨ e' = normal e));
  di_known : ∀ id e', bm_events (wd_mem w) !! id = Some e' →
    ∃ e, e ∈ wd_submitted w ∧ e_ID e = id ∧ (e' = e ∨ e' = normal e);
}.

Lemma persist_size rnd e : event_wf e → backend_sizes (Some (outbox_backend rnd)) e.
Proof.
  intros Hwf b fs fs' sz [= <-] Hp. pose proof (persistEvent_spec rnd e (fs_dir fs) Hwf fs eq_refl) as H. cbn in Hp. rewrite Hp in H.
  destruct H as [(_ & data & _ & ->) _]. lia.
Qed.

(** One attempt to store a new event, on disk. *)
Lemma try_store_disk rnd e m fs : event_wf e → fs_dir fs !! outbox_file (e_ID e) = None → bm_events m !! e_ID e = None →
  let '(m', fs', ok) := TryStoreEvent (Some (outbox_backend rnd)) e m fs in
  persisted e (fs_dir fs) (fs_dir fs') ∧
  (ok = true → ∃ data, on_disk (fs_dir fs') e data ∧ fits m (Z.of_nat (length data)) = true).
Proof.
  intros Hwf Hd Hm. unfold TryStoreEvent. rewrite Hm.
  assert (H0 : persisted e (fs_dir fs) (fs_dir fs)) by (split; [done|by left]). destruct (_ || _); [done|].
  cbn [be_persist outbox_backend be_remove]. pose proof (persistEvent_spec rnd e (fs_dir fs) Hwf fs eq_refl) as Hp.
  destruct (persistEvent rnd e fs) as [fs1 [sz|]]; [|done]. destruct Hp as [(Hp & data & Hx & ->) _].
  destruct (fits m (Z.of_nat (length data))) eqn:Ef; cbn [negb].
  - split; [done|]. intros _. exists data. split; [|done]. split; [|done].
    destruct Hp as [_ [E|(_ & data' & Hc & E)]]; [congruence|]. rewrite Hx in E. by injection E as <-.
  - pose proof (removeEvent_spec (e_ID e) (fs_dir fs1) fs1 eq_refl) as Hr.
    assert (Hdel : persisted e (fs_dir fs) (delete (outbox_file (e_ID e)) (fs_dir fs1))).
    { destruct Hp as [Hs _]. split; [|left; by rewrite lookup_delete_eq]. intros n Hn Hi. rewrite lookup_delete_ne; [by apply Hs|].
      intros <-. apply Hi. by apply list_elem_of_singleton. }
    destruct (removeEvent (e_ID e) fs1) as [fs2 [u|]]; [destruct Hr as [-> _]|destruct Hr as [-> | ->]]; by split.
Qed.

Lemma whole_persisted (S S' : Event → Prop) e d d' : whole S d → persisted e d d' → S' e → (∀ x, S x → S' x) → whole S' d'.
Proof.
  intros Hw [Hs Hf] He HS n x Hn Hx. destruct (decide (n = outbox_file (e_ID e))) as [->|Hne].
  - destruct Hf as [E|(_ & data & Hc & E)].
    + rewrite E in Hx. destruct (Hw _ _ Hn Hx) as (e1 & d1 & H1 & H2). eauto.
    + rewrite E in Hx. injection Hx as <-. by exists e, data.
  - rewrite (Hs n Hn) in Hx by (by rewrite list_elem_of_singleton). destruct (Hw _ _ Hn Hx) as (e1 & d1 & H1 & H2). eauto.
Qed.

(** A new identifier is neither on disk nor in memory. *)
Lemma fresh_absent w e : durable_inv w → event_wf e → e_ID e ∉ (e_ID <$> wd_submitted w) →
  fs_dir (wd_fs w) !! outbox_file (e_ID e) = None ∧ bm_events (wd_mem w) !! e_ID e = None ∧ wd_unacked w !! e_ID e = None.
Proof.
  intros [I1 I2 _ _ I5 I6] Hwf Hn.
  assert (Hno : ∀ x, x ∈ wd_submitted w → e_ID x = e_ID e → False).
  { intros x Hx E. apply Hn. rewrite <- E. by apply list_elem_of_fmap_2. }
  assert (Hd : fs_dir (wd_fs w) !! outbox_file (e_ID e) = None).
  { destruct (_ !! _) as [x|] eqn:Ex; [|done]. destruct (I2 _ _ (outbox_file_live _) Ex) as (e1 & d1 & H1 & H2 & _ & (W & _)).
    exfalso. apply (Hno e1 H1). symmetry. apply outbox_file_inj; [apply Hwf|apply W|done]. }
  split_and!; [done| |].
  - destruct (bm_events (wd_mem w) !! e_ID e) as [x|] eqn:Ex; [|done]. destruct (I6 _ _ Ex) as (e1 & H1 & H2 & _). by destruct (Hno e1 H1).
  - destruct (wd_unacked w !! e_ID e) as [x|] eqn:Ex; [|done]. destruct (I5 _ _ Ex) as (E & (data & [_ H] & _) & _). rewrite E in H. congruence.
Qed.

Lemma on_disk_same d d' e data : event_wf e → on_disk d e data → (∀ n, live_name n → n = outbox_file (e_ID e) → d' !! n = d !! n) → on_disk d' e data.
Proof. intros _ [Hc Hd] H. split; [done|]. rewrite H; [done|apply outbox_file_live|done]. Qed.

Lemma store_inv w e rnd answers : durable_inv w → event_wf e → e_ID e ∉ (e_ID <$> wd_submitted w) →
  durable_inv (outbox_step w (OStore e rnd answers)).
Proof.
  intros Hi Hwf Hfresh. destruct (fresh_absent w e Hi Hwf Hfresh) as (A1 & A2 & A3). pose proof Hi as [I1 I2 I3 I4 I5 I6].
  cbn [outbox_step]. destruct (fs_alive (wd_fs w)) eqn:Hal; [|done]. clear Hi.
  set (fs0 := answering answers (wd_fs w)).
  assert (Hsz : backend_sizes (store_of (wd_durable w) rnd) e) by (destruct (wd_durable w); [by apply persist_size|done]).
  pose proof (TryStoreEvent_cases (store_of (wd_durable w) rnd) e (wd_mem w) fs0 Hsz) as Hmem.
  assert (Hdisk : let '(m', fs', ok) := TryStoreEvent (store_of (wd_durable w) rnd) e (wd_mem w) fs0 in
    persisted e (fs_dir (wd_fs w)) (fs_dir fs') ∧
    (ok && wd_durable w = true → ∃ data, on_disk (fs_dir fs') e data ∧ Z.of_nat (length data) <= maxBytes)).
  { destruct (wd_durable w); cbn [store_of].
    - pose proof (try_store_disk rnd e (wd_mem w) fs0 Hwf A1 A2) as H. destruct (TryStoreEvent _ _ _ _) as [[m' fs'] ok].
      destruct H as [H1 H2]. split; [done|]. rewrite andb_true_r. intros Ho. destruct (H2 Ho) as (data & Hd & Hf). exists data. split; [done|].
      apply Z.leb_le in Hf. pose proof (bounded_bytes _ I3). lia.
    - unfold TryStoreEvent. rewrite A2. destruct (_ || _); (split; [split; [done|by left]|done]). }
  destruct (TryStoreEvent _ _ _ _) as [[m' fs'] ok]. destruct Hmem as (B1 & _ & B3 & B4 & B5), Hdisk as [D1 D2].
  assert (Hother : ∀ id x, wd_unacked w !! id = Some x → e_ID e ≠ id) by (intros id x Hx <-; congruence).
  split; cbn [wd_fs wd_mem wd_durable wd_submitted wd_unacked].
  - apply Forall_app. split; [done|]. by constructor.
  - eapply whole_persisted; [exact I2|exact D1| |]; cbn; intros; rewrite elem_of_app, ?list_elem_of_singleton; auto.
  - auto.
  - congruence.
  - assert (Hold : ∀ id x, wd_unacked w !! id = Some x → e_ID x = id ∧ (∃ data, on_disk (fs_dir fs') x data ∧ Z.of_nat (length data) <= maxBytes) ∧
      (wd_durable w = true → ∃ e', bm_events m' !! id = Some e' ∧ (e' = x ∨ e' = normal x))).
    { intros id x Hx. pose proof (Hother id x Hx) as Hne. destruct (I5 id x Hx) as (E & (data & [Hc Hd] & Hl) & Hm). split_and!; [done| |].
      - exists data. split; [|done]. split; [done|]. destruct D1 as [Hs _]. rewrite Hs; [done|apply outbox_file_live|].
        rewrite list_elem_of_singleton. intros Ef. apply Hne. subst id. symmetry. apply outbox_file_inj; [apply Hc|apply Hwf|done].
      - intros Hdur. destruct (Hm eq_refl Hdur) as (e' & H1 & H2). exists e'. split; [|done].
        destruct B5 as [-> | [_ ->]]; [done|]. by rewrite lookup_insert_ne. }
    destruct (ok && wd_durable w) eqn:Eok; [|intros id x Hx; destruct (Hold id x Hx) as (? & ? & ?); auto].
    intros id x. rewrite lookup_insert_Some. intros [[<- <-]|[_ Hx]]; [|destruct (Hold id x Hx) as (? & ? & ?); auto].
    split_and!; [done|auto|]. intros _ _. apply andb_true_iff in Eok as [-> _]. destruct B4 as [e' He']. exists e'. split; [done|].
    destruct B5 as [E|[_ E]]; rewrite E in He'; [congruence|]. rewrite lookup_insert_eq in He'. left. congruence.
  - intros id e' He'. destruct B5 as [E|[_ E]]; rewrite E in He'.
    + destruct (I6 id e' He') as (x & H1 & H2). exists x. rewrite elem_of_app. auto.
    + apply lookup_insert_Some in He' as [[<- <-]|[_ He']].
      * exists e. rewrite elem_of_app, list_elem_of_singleton. auto.
      * destruct (I6 id e' He') as (x & H1 & H2). exists x. rewrite elem_of_app. auto.
Qed.

(** One acknowledgement. *)
Lemma ack_one_inv w id : durable_inv w →
  let '(m, fs) := delete_one (store_of (wd_durable w) "") (wd_mem w, wd_fs w) id in
  durable_inv {| wd_fs := fs; wd_mem := m; wd_durable := wd_durable w; wd_submitted := wd_submitted w;
                 wd_unacked := delete id (wd_unacked w) |}.
Proof.
  intros [I1 I2 I3 I4 I5 I6]. pose proof (delete_one_cases (store_of (wd_durable w) "") id (wd_mem w) (wd_fs w)) as Hmem.
  set (d := fs_dir (wd_fs w)) in *.
  assert (Hdisk : let '(m, fs) := delete_one (store_of (wd_durable w) "") (wd_mem w, wd_fs w) id in
    (fs_dir fs = d ∨ (fs_dir fs = delete (outbox_file id) d ∧ uuid_wf id)) ∧ (fs_alive fs = true → fs_alive (wd_fs w) = true)).
  { unfold delete_one. destruct (bm_events (wd_mem w) !! id) as [e'|] eqn:Ee; [|by split; [left|]].
    destruct (I6 id e' Ee) as (e & He & Eid & _). assert (Hid : uuid_wf id) by (rewrite Forall_forall in I1; rewrite <- Eid; apply (I1 e He)).
    destruct (wd_durable w); cbn [store_of]; [|by split; [left|]]. cbn [be_remove outbox_backend].
    pose proof (removeEvent_spec id d (wd_fs w) eq_refl) as H. destruct (removeEvent id (wd_fs w)) as [fs [u|]] eqn:Er.
    - destruct H as [H Ha]. split; [by right|congruence].
    - split; [tauto|]. intros Ha. destruct (fs_alive (wd_fs w)) eqn:E; [done|].
      unfold removeEvent, bind, Remove, call, syscall in Er. rewrite E in Er. cbn in Er. injection Er as <-. congruence. }
  destruct (delete_one _ _ _) as [m fs]. destruct Hmem as (B1 & _ & B3 & B4), Hdisk as [D1 D2].
  split; cbn [wd_fs wd_mem wd_durable wd_submitted wd_unacked]; [done| |auto|congruence| |].
  - intros n x Hn Hx. apply I2; [done|]. destruct D1 as [<-|[E _]]; [done|]. rewrite E in Hx. by apply lookup_delete_Some in Hx as [_ ?].
  - intros i e [Hne He]%lookup_delete_Some. destruct (I5 i e He) as (E & (data & [Hc Hd] & Hl) & Hm). split_and!; [done| |].
    + exists data. split; [|done]. split; [done|]. destruct D1 as [->|[-> Hid]]; [done|]. rewrite lookup_delete_ne; [done|].
      intros Ef. apply Hne. rewrite <- E. apply outbox_file_inj; [done|apply Hc|done].
    + intros Ha Hdur. destruct (Hm (D2 Ha) Hdur) as (e' & H1 & H2). exists e'. split; [|done].
      destruct B4 as [->| ->]; [done|]. by rewrite lookup_delete_ne.
  - intros i e' He'. apply I6. destruct B4 as [<-|E]; [done|]. rewrite E in He'. by apply lookup_delete_Some in He' as [_ ?].
Qed.

Lemma ack_inv w ids answers : durable_inv w → durable_inv (outbox_step w (OAck ids answers)).
Proof.
  intros Hi. cbn [outbox_step]. destruct (fs_alive (wd_fs w)) eqn:Hal; [|done].
  assert (Ha : durable_inv {| wd_fs := answering answers (wd_fs w); wd_mem := wd_mem w; wd_durable := wd_durable w;
    wd_submitted := wd_submitted w; wd_unacked := wd_unacked w |}) by (by destruct Hi; split).
  revert Ha. generalize (answering answers (wd_fs w)), (wd_mem w), (wd_unacked w). clear Hi Hal. unfold DeleteEvents.
  induction ids as [|id ids IH]; intros fs m u Ha; [done|]. cbn [foldl].
  pose proof (ack_one_inv _ id Ha) as H1. cbn [wd_fs wd_mem wd_durable wd_submitted wd_unacked] in H1.
  destruct (delete_one _ (m, fs) id) as [m1 fs1]. exact (IH fs1 m1 _ H1).
Qed.

Lemma restart_inv w now seed fresh answers : 0 <= maxEvents → 0 <= maxBytes → durable_inv w →
  durable_inv (outbox_step w (ORestart now seed fresh answers)).
Proof.
  intros He Hb [I1 I2 I3 I4 I5 I6]. cbn [outbox_step]. set (fs0 := {| fs_dir := _; fs_answers := _; fs_alive := _ |}).
  set (cutoff := now - maxOutboxAge).
  pose proof (NewOutboxStore_spec _ _ now seed fresh publicKey maxEvents maxBytes I2 He Hb fs0 eq_refl) as H.
  destruct (NewOutboxStore now seed fresh publicKey maxEvents maxBytes fs0) as [fs r].
  set (d := fs_dir (wd_fs w)) in *. fold cutoff in H.
  assert (Hdrop : only_dropped d cutoff maxBytes (fs_dir fs)).
  { destruct r as [store|]; [|done]. by destruct H as [(q & _ & _ & _ & Hd & _) _]. }
  assert (Hkeep : ∀ e data, on_disk d e data → keep cutoff maxBytes e data → on_disk (fs_dir fs) e data).
  { intros e data Hd Hk. pose proof Hd as [Hc Hx]. split; [done|].
    destruct (Hdrop (outbox_file (e_ID e)) (outbox_file_live _)) as [E|(_ & e1 & data1 & En & Hd1 & Hk1)]; [congruence|].
    destruct Hk1. exact (on_disk_keep d e e1 data data1 _ _ Hd Hd1 En Hk). }
  assert (Hold : ∀ id e, filter (λ p, cutoff <= e_Timestamp p.2) (wd_unacked w) !! id = Some e →
    e_ID e = id ∧ ∃ data, on_disk d e data ∧ on_disk (fs_dir fs) e data ∧ keep cutoff maxBytes e data).
  { intros id e [Hx Ht]%map_lookup_filter_Some. destruct (I5 id e Hx) as (E & (data & Hd & Hl) & _). split; [done|].
    exists data. assert (Hk : keep cutoff maxBytes e data) by done. auto. }
  split; cbn [wd_fs wd_mem wd_durable wd_submitted wd_unacked]; [done| | | | |].
  - intros n x Hn Hx. apply I2; [done|]. destruct (Hdrop n Hn) as [<-|[E _]]; [done|congruence].
  - destruct r as [store|]; [by destruct H as [(q & _ & _ & _ & _ & Hbd & _) _]|]. by apply MarkIncomplete_bounded, NewBounded_bounded.
  - destruct r as [store|]; [by destruct H as [(q & _ & _ & _ & _ & _ & HB & _) _]|]. done.
  - intros id e Hx. destruct (Hold id e Hx) as (E & data & Hd & Hd' & Hk). split_and!; [done|exists data; split; [done|apply Hk]|].
    intros _ Hdur. destruct r as [store|]; [|done]. destruct H as [(q & _ & _ & _ & _ & _ & _ & _ & Hout) _].
    destruct (Hout e data Hd Hk) as [Hn|Hn]; [by apply elem_of_nil in Hn|]. exists (normal e). subst id. auto.
  - intros id e' Hx. destruct r as [store|]; [|cbn in Hx; by rewrite lookup_empty in Hx]. destruct H as [(q & _ & _ & _ & _ & _ & _ & Hin & _) _].
    destruct (Hin id e' Hx) as (_ & e & data & HS & E & Eid & _). exists e. auto.
Qed.

Lemma submitted_sublist ops : wd_submitted (outbox_run ops) `sublist_of` omap stored ops.
Proof.
  unfold outbox_run. induction ops as [|op ops IH] using rev_ind; [done|]. rewrite foldl_app, omap_app. cbn [foldl].
  destruct op as [e rnd ans|ids ans|now seed fresh ans]; cbn [outbox_step omap list_omap stored].
  - destruct (fs_alive _); [|by apply sublist_inserts_r]. destruct (TryStoreEvent _ _ _ _) as [[m fs] ok]. by apply sublist_app.
  - rewrite app_nil_r. destruct (fs_alive _); [|done]. by destruct (DeleteEvents _ _ _ _).
  - rewrite app_nil_r. by destruct (NewOutboxStore _ _ _ _ _ _ _).
Qed.

Lemma run_durable ops : 0 <= maxEvents → 0 <= maxBytes → fresh_events ops → durable_inv (outbox_run ops).
Proof.
  intros He Hb. unfold outbox_run. induction ops as [|op ops IH] using rev_ind; intros [Hw Hn].
  - split; cbn; try done. by apply NewBounded_bounded.
  - rewrite omap_app, ?Forall_app, fmap_app in *. destruct Hw as [Hw1 Hw2]. apply NoDup_app in Hn as (Hn1 & Hn2 & _).
    rewrite foldl_app. cbn [foldl]. specialize (IH (conj Hw1 Hn1)). destruct op as [e rnd ans|ids ans|now seed fresh ans].
    + apply store_inv; [done|by apply Forall_cons in Hw2 as [? _]|]. intros Hi. apply (Hn2 (e_ID e)); [|left].
      pose proof (fmap_sublist e_ID _ _ (submitted_sublist ops)) as Hs. by eapply elem_of_sublist.
    + by apply ack_inv.
    + by apply restart_inv.
Qed.

(** C29. Whatever the system calls answer and wherever the process ends: an event
    that was accepted durably and neither acknowledged nor older than seven
    days at a restart has its file, whole, and is in the store of a process
    that opened the outbox.  No file is torn, and nothing is in the store that
    was not handed to it.  The store keeps within its bounds. *)
Theorem outbox_survives ops : 0 <= maxEvents → 0 <= maxBytes → fresh_events ops →
  let w := outbox_run ops in
  (∀ id e, wd_unacked w !! id = Some e →
     (∃ data, fs_dir (wd_fs w) !! outbox_file id = Some (Regular data) ∧ decodeEvent data = Some (normal e)) ∧
     (fs_alive (wd_fs w) = true → wd_durable w = true →
        ∃ e', bm_events (wd_mem w) !! id = Some e' ∧ (e' = e ∨ e' = normal e))) ∧
  (∀ n x, fs_dir (wd_fs w) !! n = Some x → is_temp n = false → is_quarantined n = false →
     ∃ e data, e ∈ omap stored ops ∧ n = outbox_file (e_ID e) ∧ x = Regular data ∧ decodeEvent data = Some (normal e)) ∧
  (∀ id e', bm_events (wd_mem w) !! id = Some e' →
     ∃ e, e ∈ omap stored ops ∧ e_ID e = id ∧ (e' = e ∨ e' = normal e)) ∧
  bounded (wd_mem w).
Proof.
  intros He Hb Hf w. destruct (run_durable ops He Hb Hf) as [_ I2 I3 _ I5 I6]. fold w in I2, I3, I5, I6.
  pose proof (submitted_sublist ops) as Hs. fold w in Hs. split_and!; [| | |done].
  - intros id e Hu. destruct (I5 id e Hu) as (<- & (data & [(W & V & M0) Hd] & _) & Hm). split; [|done].
    exists data. split; [done|]. by apply decode_written.
  - intros n x Hx Ht Hq. destruct (I2 n x (conj Ht Hq) Hx) as (e & data & HS & -> & -> & (W & V & M0)). exists e, data.
    split_and!; [by eapply elem_of_sublist|done..|]. by apply decode_written.
  - intros id e' Hx. destruct (I6 id e' Hx) as (e & H1 & H2). exists e. split; [by eapply elem_of_sublist|done].
Qed.
End World.
