(* ===== verification/FlowManager.v ===== *)
(** * Traffic events: the manager

    [client/internal/netflow/manager.go]: the configuration, the client it
    opens and the tasks it starts, one round of the sender and one round of the
    retries.

    What the system answers (whether a client can be created or closed, the
    connection tracker started, an event sent) is part of each call. *)
From stdpp Require Import sorting.
From S2P Require Import Prelude NetIP Bytes ConnTrack Order Netflow FlowLogger FlowWire.
Open Scope Z_scope.

Definition maxUnackedEvents : Z := 4096.
Definition maxUnackedBytes : Z := Z.shiftl 4 20.
Definition maxRetryBatch : nat := 256.

(** ** Configuration *)

Record FlowConfig := {
  fc_URL : string; fc_Interval : Z; fc_Enabled : bool; fc_Counters : bool;
  fc_TokenPayload : string; fc_TokenSignature : string; fc_DNSCollection : bool; fc_ExitNodeCollection : bool;
}.

Record Client := {
  cl_URL : string; cl_TokenPayload : string; cl_TokenSignature : string; cl_Interval : Z; cl_closed : bool;
}.

(** [mg_tasks] is the interval of the receiver, the sender and the retries
    while their context is not cancelled; [mg_conntrack] is the tracker, if there
    is one, and the counters flag with which it was started, if it is. *)
Record Manager := {
  mg_logger : Logger;
  mg_flowConfig : option FlowConfig;
  mg_conntrack : option (option bool);
  mg_receiverClient : option Client;
  mg_tasks : option Z;
}.

Definition NewManager (net net6 : Prefix) (now : Z) (tracker : bool) : Manager :=
  {| mg_logger := FlowLogger.New net net6 now; mg_flowConfig := None; mg_conntrack := if tracker then Some None else None;
     mg_receiverClient := None; mg_tasks := None |}.

(** What fails during a call. *)
Record Faults := { ft_newClient : bool; ft_closeClient : bool; ft_startConntrack : bool }.

Definition needsNewClient (previous : option FlowConfig) (current : FlowConfig) : bool :=
  match previous with
  | None => true
  | Some previous =>
      negb (fc_Enabled previous) || negb (String.eqb (fc_TokenPayload previous) (fc_TokenPayload current)) ||
      negb (String.eqb (fc_TokenSignature previous) (fc_TokenSignature current)) ||
      negb (String.eqb (fc_URL previous) (fc_URL current))
  end.

Definition close_client (c : Client) : Client :=
  {| cl_URL := cl_URL c; cl_TokenPayload := cl_TokenPayload c; cl_TokenSignature := cl_TokenSignature c;
     cl_Interval := cl_Interval c; cl_closed := true |}.

(** The manager and whether there was an error. *)
Definition resetClient (ft : Faults) (config : FlowConfig) (m : Manager) : Manager * bool :=
  let closed := close_client <$> mg_receiverClient m in
  if ft_newClient ft then
    ({| mg_logger := mg_logger m; mg_flowConfig := mg_flowConfig m; mg_conntrack := mg_conntrack m;
        mg_receiverClient := closed; mg_tasks := mg_tasks m |}, true)
  else
    let flowClient := {| cl_URL := fc_URL config; cl_TokenPayload := fc_TokenPayload config;
                         cl_TokenSignature := fc_TokenSignature config; cl_Interval := fc_Interval config; cl_closed := false |} in
    ({| mg_logger := mg_logger m; mg_flowConfig := mg_flowConfig m; mg_conntrack := mg_conntrack m;
        mg_receiverClient := Some flowClient; mg_tasks := Some (fc_Interval config) |}, false).

Definition enableFlow (ft : Faults) (previous : option FlowConfig) (config : FlowConfig) (m : Manager) : Manager * bool :=
  let '(m, err) := if needsNewClient previous config then resetClient ft config m else (m, false) in
  if err : bool then (m, true)
  else
    let logger := FlowLogger.Enable (mg_logger m) in
    let go ct err := ({| mg_logger := logger; mg_flowConfig := mg_flowConfig m; mg_conntrack := ct;
                         mg_receiverClient := mg_receiverClient m; mg_tasks := mg_tasks m |}, err) in
    match mg_conntrack m with
    | Some (Some counters) => go (Some (Some counters)) false
    | Some None => if ft_startConntrack ft then go (Some None) true else go (Some (Some (fc_Counters config))) false
    | None => go None false
    end.

Definition disableFlow (ft : Faults) (m : Manager) : Manager * bool :=
  ({| mg_logger := FlowLogger.Close_begin (mg_logger m); mg_flowConfig := mg_flowConfig m;
      mg_conntrack := (λ _, None) <$> mg_conntrack m; mg_receiverClient := None; mg_tasks := None |},
   if mg_receiverClient m then ft_closeClient ft else false).

(** The tokens of the previous configuration are kept when none are sent. *)
Definition effective (previous : option FlowConfig) (update : FlowConfig) : FlowConfig :=
  match previous with
  | Some previous =>
      if negb (String.eqb (fc_TokenPayload previous) "") && String.eqb (fc_TokenPayload update) "" then
        {| fc_URL := fc_URL update; fc_Interval := fc_Interval update; fc_Enabled := fc_Enabled update; fc_Counters := fc_Counters update;
           fc_TokenPayload := fc_TokenPayload previous; fc_TokenSignature := fc_TokenSignature previous;
           fc_DNSCollection := fc_DNSCollection update; fc_ExitNodeCollection := fc_ExitNodeCollection update |}
      else update
  | None => update
  end.

Definition Update (ft : Faults) (update : option FlowConfig) (m : Manager) : Manager * bool :=
  match update with
  | None => (m, false)
  | Some update =>
      let previous := mg_flowConfig m in
      let config := effective previous update in
      let m := {| mg_logger := FlowLogger.UpdateConfig (fc_DNSCollection config) (fc_ExitNodeCollection config) (mg_logger m);
                  mg_flowConfig := Some config; mg_conntrack := mg_conntrack m;
                  mg_receiverClient := mg_receiverClient m; mg_tasks := mg_tasks m |} in
      if fc_Enabled config then enableFlow ft previous config m else disableFlow ft m
  end.

Definition Close (ft : Faults) (m : Manager) : Manager := (disableFlow ft m).1.

(** ** The sender and the retries *)

Section Rounds.
Context {MO : MapOrder} {L : FlowLibs} {W : Type} (backend : option (Backend W)).

(** [client.Send] on the client there is; [send] is what the stream answers. *)
Definition send (publicKey : list Z) (client : option Client) (answer : FlowEvent → bool) (event : Event) : option FlowEvent * bool :=
  match client with
  | None => (None, false)
  | Some _ => let wire := toProtoEvent publicKey event in (Some wire, answer wire)
  end.

Section Sending.
Context (publicKey : list Z) (client : Event → option Client) (answer : FlowEvent → bool).

(** The store, the world, the events that were kept and those that were lost,
    the messages handed to the stream and the number of sends that failed. *)
Definition SenderState : Type := BoundedMemory * W * list Event * list Event * list FlowEvent * nat.

(** One event of the sender's round.  [client] is the client there is when the
    event is sent; a failed send is logged and no more. *)
Definition sender_one (s : SenderState) (event : Event) : SenderState :=
  let '(m, w, kept, lost, sent, failed) := s in
  let '(m, w, ok) := TryStoreEvent backend event m w in
  if ok : bool then
    let '(wire, delivered) := send publicKey (client event) answer event in
    (m, w, kept ++ [event], lost, sent ++ option_list wire, if delivered : bool then failed else S failed)
  else (m, w, kept, lost ++ [event], sent, failed).

(** One tick of the sender. *)
Definition sender_round (now : Z) (seed seed' : nat) (l : Logger) (m : BoundedMemory) (w : W) : Logger * SenderState :=
  let '(window, l) := logger_ResetWindow now l in
  (l, foldl sender_one (m, w, [], [], [], 0%nat) (GetAggregatedEvents window seed seed')).

(** The loop over the unacknowledged events: those that are sent, and whether
    the last one failed.  [clock] is the time at which each is looked at,
    [sent_ok] whether sending it succeeds. *)
Fixpoint retry_loop (clock : Event → Z) (sent_ok : Event → bool) (retried : nat) (events : list Event) : list Event * bool :=
  match events with
  | [] => ([], false)
  | e :: events =>
      if (retried =? maxRetryBatch)%nat then ([], false)
      else if clock e <? e_Timestamp e + 10 ^ 9 then retry_loop clock sent_ok retried events
      else if sent_ok e then let '(l, failed) := retry_loop clock sent_ok (S retried) events in (e :: l, failed)
      else ([e], true)
  end.

Definition retry_round (clock : Event → Z) (seed : nat) (m : BoundedMemory) : list Event * bool :=
  retry_loop clock (λ e, (send publicKey (client e) answer e).2) 0 (GetEvents seed m).
End Sending.

(** The handler of an acknowledgement. *)
Definition receiveACK (eventId : list Z) (m : BoundedMemory) (w : W) : BoundedMemory * W :=
  match uuid_FromBytes eventId with None => (m, w) | Some id => DeleteEvents backend [id] m w end.
End Rounds.

(** ** Traffic events: configuration, sender and retries *)

(** ** The configuration in force *)

Definition manager_run (net net6 : Prefix) (now : Z) (tracker : bool) (ups : list (FlowConfig * Faults)) : Manager :=
  foldl (λ m u, (Update u.2 (Some u.1) m).1) (NewManager net net6 now tracker) ups.

(** The update whose tokens count: the last one that has any. *)
Fixpoint last_with_token (us : list FlowConfig) : option FlowConfig :=
  match us with
  | [] => None
  | u :: us => match last_with_token us with Some v => Some v | None => if String.eqb (fc_TokenPayload u) "" then None else Some u end
  end.

Lemma last_with_token_snoc us u :
  last_with_token (us ++ [u]) = if String.eqb (fc_TokenPayload u) "" then last_with_token us else Some u.
Proof.
  induction us as [|v us IH]; cbn; [done|]. rewrite IH. destruct (String.eqb (fc_TokenPayload u) ""); [|done].
  by destruct (last_with_token us).
Qed.

(** The configuration after a sequence of updates. *)
Definition config_of (us : list FlowConfig) : option FlowConfig :=
  u ← last us;
  let t := default u (last_with_token us) in
  Some {| fc_URL := fc_URL u; fc_Interval := fc_Interval u; fc_Enabled := fc_Enabled u; fc_Counters := fc_Counters u;
          fc_TokenPayload := fc_TokenPayload t; fc_TokenSignature := fc_TokenSignature t;
          fc_DNSCollection := fc_DNSCollection u; fc_ExitNodeCollection := fc_ExitNodeCollection u |}.

Lemma last_with_token_nonempty us v : last_with_token us = Some v → fc_TokenPayload v ≠ "".
Proof.
  induction us as [|u us IH]; cbn; [done|]. destruct (last_with_token us); [naive_solver|].
  destruct (String.eqb_spec (fc_TokenPayload u) ""); [done|]. by intros [= <-].
Qed.

Lemma last_without_token us u : last us = Some u → last_with_token us = None → fc_TokenPayload u = "".
Proof.
  destruct us as [|v us _] using rev_ind; [done|]. rewrite last_snoc, last_with_token_snoc. intros [= ->].
  by destruct (String.eqb_spec (fc_TokenPayload u) "").
Qed.

Lemma config_of_snoc us u : Some (effective (config_of us) u) = config_of (us ++ [u]).
Proof.
  unfold config_of. rewrite last_snoc, last_with_token_snoc. cbn [mbind option_bind].
  destruct (last us) as [v|] eqn:El; cbn [mbind option_bind effective fc_TokenPayload fc_TokenSignature].
  - destruct (last_with_token us) as [t|] eqn:Et; cbn [default from_option id].
    + apply last_with_token_nonempty in Et. destruct (String.eqb_spec (fc_TokenPayload t) ""); [done|]. cbn [negb andb].
      destruct (String.eqb (fc_TokenPayload u) ""); [reflexivity|]. by destruct u.
    + rewrite (last_without_token us v) by done. cbn. destruct (String.eqb (fc_TokenPayload u) ""); by destruct u.
  - apply last_None in El as ->. cbn. destruct (String.eqb (fc_TokenPayload u) ""); by destruct u.
Qed.

(** The configurations that were in force, one for each update. *)
Definition configs (us : list FlowConfig) : list FlowConfig := omap (λ i, config_of (take (S i) us)) (seq 0 (length us)).

Lemma configs_snoc us u : configs (us ++ [u]) = configs us ++ [effective (config_of us) u].
Proof.
  unfold configs. rewrite length_app, Nat.add_comm. cbn [length Nat.add]. rewrite seq_S, omap_app. cbn [omap list_omap Nat.add].
  rewrite take_ge by (rewrite length_app; cbn; lia). rewrite <- config_of_snoc. f_equal.
  assert (H : Forall (λ i, i < length us)%nat (seq 0 (length us))) by (apply Forall_forall; intros i Hi; apply elem_of_seq in Hi; lia).
  induction H as [|i l Hi _ IH]; [done|]. cbn. by rewrite take_app_le, IH by lia.
Qed.

Lemma last_configs us : last (configs us) = config_of us.
Proof. induction us as [|u us _] using rev_ind; [done|]. rewrite configs_snoc, last_snoc. apply config_of_snoc. Qed.

(** [c0] begins the last stretch of [cs] in which each one [keeps] what its
    predecessor set up. *)
Definition since (keeps : FlowConfig → FlowConfig → Prop) (cs : list FlowConfig) (c0 : FlowConfig) : Prop :=
  ∃ before rest, cs = before ++ c0 :: rest ∧
    (∀ i x y, (c0 :: rest) !! i = Some x → (c0 :: rest) !! S i = Some y → keeps x y) ∧
    (∀ p, last before = Some p → ¬ keeps p c0).

Lemma since_begin keeps cs c : (∀ p, last cs = Some p → ¬ keeps p c) → since keeps (cs ++ [c]) c.
Proof. intros H. exists cs, []. split_and!; [done|by intros [|[]] |done]. Qed.

Lemma since_keep keeps cs p c c0 : last cs = Some p → keeps p c → since keeps cs c0 → since keeps (cs ++ [c]) c0.
Proof.
  intros Hl Hk (before & rest & -> & Hr & Hb). exists before, (rest ++ [c]). split_and!; [by rewrite <- app_assoc| |done].
  rewrite last_app_cons in Hl. intros i x y Hx Hy.
  change (c0 :: rest ++ [c]) with ((c0 :: rest) ++ [c]) in Hx, Hy.
  destruct (decide (S i < length (c0 :: rest))%nat) as [Hi|Hi].
  - rewrite lookup_app_l in Hx, Hy by lia. by eapply Hr.
  - apply lookup_lt_Some in Hy as Hy'. rewrite length_app in Hy'. cbn [length] in Hi, Hy'.
    assert (i = length rest) as -> by lia. rewrite lookup_app_l in Hx by (cbn; lia). rewrite last_lookup in Hl. cbn [length Nat.pred] in Hl.
    rewrite list_lookup_middle in Hy by done. by simplify_eq.
Qed.

(** The client is kept from one configuration to the next, and so is a tracker
    that runs. *)
Definition same_client (p c : FlowConfig) : Prop :=
  fc_Enabled p = true ∧ fc_Enabled c = true ∧ fc_URL p = fc_URL c ∧
  fc_TokenPayload p = fc_TokenPayload c ∧ fc_TokenSignature p = fc_TokenSignature c.
Definition both_enabled (p c : FlowConfig) : Prop := fc_Enabled p = true ∧ fc_Enabled c = true.

Definition is_on (cs : list FlowConfig) : option FlowConfig := c ← last cs; if fc_Enabled c then Some c else None.

(** Collecting with the client of the configuration, at the interval of the one
    that brought this client, or not at all. *)
Record in_force (cs : list FlowConfig) (m : Manager) : Prop := {
  if_config : mg_flowConfig m = last cs;
  if_collection : (lg_dnsCollection (mg_logger m), lg_exitNodeCollection (mg_logger m)) =
    match last cs with Some c => (fc_DNSCollection c, fc_ExitNodeCollection c) | None => (false, false) end;
  if_logger : lg_enabled (mg_logger m) = bool_decide (is_Some (is_on cs));
  if_client : match is_on cs with
    | Some c => ∃ c0, since same_client cs c0 ∧ mg_tasks m = Some (fc_Interval c0) ∧
        mg_receiverClient m = Some {| cl_URL := fc_URL c; cl_TokenPayload := fc_TokenPayload c; cl_TokenSignature := fc_TokenSignature c;
                                      cl_Interval := fc_Interval c0; cl_closed := false |}
    | None => mg_tasks m = None ∧ mg_receiverClient m = None
    end;
}.

(** The tracker, if there is one, runs with the counters of the configuration
    that started it. *)
Definition tracker_in_force (tracker : bool) (cs : list FlowConfig) (m : Manager) : Prop :=
  if tracker then
    match is_on cs with
    | Some _ => ∃ c0, since both_enabled cs c0 ∧ mg_conntrack m = Some (Some (fc_Counters c0))
    | None => mg_conntrack m = Some None
    end
  else mg_conntrack m = None.

Lemma Enable_frame l : lg_enabled (FlowLogger.Enable l) = true ∧ lg_dnsCollection (FlowLogger.Enable l) = lg_dnsCollection l ∧
  lg_exitNodeCollection (FlowLogger.Enable l) = lg_exitNodeCollection l.
Proof. unfold FlowLogger.Enable. by destruct (lg_enabled l) eqn:E. Qed.

Lemma Close_begin_frame l : lg_enabled (FlowLogger.Close_begin l) = false ∧ lg_dnsCollection (FlowLogger.Close_begin l) = lg_dnsCollection l ∧
  lg_exitNodeCollection (FlowLogger.Close_begin l) = lg_exitNodeCollection l.
Proof. unfold FlowLogger.Close_begin. by destruct (lg_enabled l). Qed.

(** What an update leaves, as long as clients can be created. *)
Lemma Update_exact ft u m : ft_newClient ft = false →
  let prev := mg_flowConfig m in let c := effective prev u in let m' := (Update ft (Some u) m).1 in
  mg_flowConfig m' = Some c ∧
  (lg_dnsCollection (mg_logger m'), lg_exitNodeCollection (mg_logger m')) = (fc_DNSCollection c, fc_ExitNodeCollection c) ∧
  lg_enabled (mg_logger m') = fc_Enabled c ∧
  (mg_tasks m', mg_receiverClient m') =
    (if fc_Enabled c then
       if needsNewClient prev c then
         (Some (fc_Interval c), Some {| cl_URL := fc_URL c; cl_TokenPayload := fc_TokenPayload c; cl_TokenSignature := fc_TokenSignature c;
                                        cl_Interval := fc_Interval c; cl_closed := false |})
       else (mg_tasks m, mg_receiverClient m)
     else (None, None)) ∧
  mg_conntrack m' =
    match mg_conntrack m with
    | Some started =>
        Some (if fc_Enabled c then
                match started with
                | Some _ => started
                | None => if ft_startConntrack ft then None else Some (fc_Counters c)
                end
              else None)
    | None => None
    end.
Proof.
  intros Hft prev c m'. subst m'. unfold Update. fold prev c. cbn [mg_flowConfig]. destruct (fc_Enabled c) eqn:Ec.
  - unfold enableFlow, resetClient. rewrite Hft. destruct (needsNewClient prev c);
      cbn [mg_logger mg_flowConfig mg_conntrack mg_receiverClient mg_tasks];
      (destruct (mg_conntrack m) as [[]|]; [|destruct (ft_startConntrack ft)|]; cbn [fst mg_logger mg_flowConfig mg_conntrack mg_receiverClient mg_tasks];
       destruct (Enable_frame (UpdateConfig (fc_DNSCollection c) (fc_ExitNodeCollection c) (mg_logger m))) as (-> & -> & ->); by split_and!).
  - unfold disableFlow. cbn [fst mg_logger mg_flowConfig mg_conntrack mg_receiverClient mg_tasks].
    destruct (Close_begin_frame (UpdateConfig (fc_DNSCollection c) (fc_ExitNodeCollection c) (mg_logger m))) as (-> & -> & ->).
    by destruct (mg_conntrack m).
Qed.

Lemma needsNewClient_exact p c : fc_Enabled c = true → needsNewClient (Some p) c = false ↔ same_client p c.
Proof.
  intros Hc. unfold needsNewClient, same_client. rewrite !orb_false_iff, !negb_false_iff, !String.eqb_eq. tauto.
Qed.

Lemma is_on_snoc cs c : is_on (cs ++ [c]) = if fc_Enabled c then Some c else None.
Proof. unfold is_on. by rewrite last_snoc. Qed.

Lemma Update_in_force ft u m cs : ft_newClient ft = false → in_force cs m →
  in_force (cs ++ [effective (last cs) u]) (Update ft (Some u) m).1.
Proof.
  intros Hft [F1 F2 F3 F4]. destruct (Update_exact ft u m Hft) as (U1 & U2 & U3 & U4 & _). rewrite F1 in U1, U2, U3, U4.
  set (c := effective (last cs) u) in *. split; rewrite ?last_snoc, ?is_on_snoc; [done|done| |].
  - rewrite U3. by destruct (fc_Enabled c).
  - destruct (fc_Enabled c) eqn:Ec; [|by apply pair_equal_spec in U4 as [-> ->]]. destruct (last cs) as [p|] eqn:El; cycle 1.
    { apply pair_equal_spec in U4 as [U4 U5]. exists c. split_and!; [|done..]. apply since_begin. by rewrite El. }
    destruct (needsNewClient (Some p) c) eqn:En.
    { apply pair_equal_spec in U4 as [U4 U5]. exists c. split_and!; [|done..]. apply since_begin. rewrite El. intros p' [= <-] H. apply (needsNewClient_exact p c Ec) in H. congruence. }
    apply (needsNewClient_exact p c Ec) in En. pose proof En as (E1 & _ & E2 & E3 & E4).
    unfold is_on in F4. rewrite El in F4. cbn in F4. rewrite E1 in F4. destruct F4 as (c0 & Hs & Ht & Hcl).
    apply pair_equal_spec in U4 as [U4 U5]. exists c0. rewrite U4, U5, Hcl, <- E2, <- E3, <- E4. split_and!; [by eapply since_keep|done..].
Qed.

Lemma Update_tracker ft u m cs tracker : ft_newClient ft = false → ft_startConntrack ft = false → mg_flowConfig m = last cs →
  tracker_in_force tracker cs m → tracker_in_force tracker (cs ++ [effective (last cs) u]) (Update ft (Some u) m).1.
Proof.
  intros Hft Hct F1 Ht. destruct (Update_exact ft u m Hft) as (_ & _ & _ & _ & U). rewrite F1, Hct in U. set (c := effective (last cs) u) in *.
  unfold tracker_in_force in *. destruct tracker; [|by rewrite U, Ht]. rewrite is_on_snoc. unfold is_on in Ht.
  destruct (last cs) as [p|] eqn:El; cbn in Ht; [destruct (fc_Enabled p) eqn:Ep|].
  - destruct Ht as (c0 & Hs & Ht). rewrite Ht in U. destruct (fc_Enabled c) eqn:Ec; [|done]. exists c0. split; [|done]. by eapply since_keep.
  - rewrite Ht in U. destruct (fc_Enabled c) eqn:Ec; [|done]. exists c. split; [|done]. apply since_begin. rewrite El. intros p' [= <-] [H _]. congruence.
  - rewrite Ht in U. destruct (fc_Enabled c) eqn:Ec; [|done]. exists c. split; [|done]. apply since_begin. by rewrite El.
Qed.

(** C32. As long as clients can be created, after any updates: the configuration
    is the last update, with the tokens of the last one that carried some.  When
    it says so the logger runs, with the client of its address and tokens, and
    else nothing does; DNS and exit-node traffic are collected as it says.  The
    tasks and the client keep the interval of the update that brought the client,
    the first since which the address, the tokens and the switch are the same; a
    later change of the interval alone has no effect.  As long as the tracker can
    be started, it runs when the configuration is on, with the counters flag of
    the update that switched it on. *)
Theorem flow_follows_config net net6 now tracker ups :
  Forall (λ u, ft_newClient u.2 = false) ups →
  let m := manager_run net net6 now tracker ups in
  mg_flowConfig m = config_of ups.*1 ∧ in_force (configs ups.*1) m ∧
  (Forall (λ u, ft_startConntrack u.2 = false) ups → tracker_in_force tracker (configs ups.*1) m).
Proof.
  unfold manager_run. induction ups as [|u ups IH] using rev_ind; intros Hf; [by destruct tracker|].
  apply Forall_app in Hf as [Hf [Hu _]%Forall_cons]. destruct (IH Hf) as (E1 & E2 & E3). rewrite foldl_app, fmap_app. cbn [foldl fmap list_fmap].
  rewrite configs_snoc, <- config_of_snoc, <- last_configs. split_and!.
  - by rewrite (proj1 (Update_exact u.2 u.1 _ Hu)), (if_config _ _ E2).
  - by apply Update_in_force.
  - intros [Hs [Hs' _]%Forall_cons]%Forall_app. apply Update_tracker; [done..|apply E2|by apply E3].
Qed.

(** Closing stops everything. *)
Lemma Close_stops ft m : lg_enabled (mg_logger (Close ft m)) = false ∧ mg_tasks (Close ft m) = None ∧ mg_receiverClient (Close ft m) = None.
Proof. unfold Close, disableFlow. cbn. by rewrite (proj1 (Close_begin_frame _)). Qed.

(** ** The sender *)

(** Events that were dropped, as the store counts them. *)
Definition dropped (m : BoundedMemory) : Z := IncompleteCount IncompleteRetryQueueFull m + IncompleteCount IncompleteOutboxWrite m.

Lemma dropped_queue m : length (bm_incomplete m) = 6%nat → uint 64 (dropped (MarkIncomplete IncompleteRetryQueueFull m)) = uint 64 (dropped m + 1).
Proof.
  intros Hl. unfold dropped, IncompleteCount, MarkIncomplete. cbn. destruct (bm_incomplete m) as [|a [|b [|c r]]]; try done.
  change (uint 64 (uint 64 (a + 1) + c) = uint 64 (a + c + 1)). rewrite uint_add_l. f_equal. lia.
Qed.

Lemma dropped_write m : length (bm_incomplete m) = 6%nat → uint 64 (dropped (MarkIncomplete IncompleteOutboxWrite m)) = uint 64 (dropped m + 1).
Proof.
  intros Hl. unfold dropped, IncompleteCount, MarkIncomplete. cbn. destruct (bm_incomplete m) as [|a [|b [|c r]]]; try done.
  change (uint 64 (a + uint 64 (c + 1)) = uint 64 (a + c + 1)). rewrite uint_add_r. f_equal. lia.
Qed.

Lemma dropped_delete m : dropped (MarkIncomplete IncompleteOutboxDelete m) = dropped m.
Proof.
  unfold dropped, IncompleteCount, MarkIncomplete. cbn. by destruct (bm_incomplete m) as [|a [|b [|c [|d r]]]].
Qed.

Lemma MarkIncomplete_length r m : length (bm_incomplete (MarkIncomplete r m)) = length (bm_incomplete m).
Proof. unfold MarkIncomplete. destruct (_ && _); [|done]. cbn. apply length_alter. Qed.

Section Rounds.
Context {MO : MapOrder} {L : FlowLibs} {W : Type} (backend : option (Backend W)).

Lemma TryStoreEvent_counts event m w : length (bm_incomplete m) = 6%nat →
  let '(m', w', ok) := TryStoreEvent backend event m w in
  length (bm_incomplete m') = 6%nat ∧ uint 64 (dropped m') = uint 64 (dropped m + if ok : bool then 0 else 1) ∧
  (∀ id, is_Some (bm_events m !! id) → is_Some (bm_events m' !! id)) ∧ (ok = true → is_Some (bm_events m' !! e_ID event)).
Proof.
  intros Hl. unfold TryStoreEvent.
  destruct (bm_events m !! e_ID event) as [e|] eqn:E; [rewrite Z.add_0_r, E; by split_and!; eauto|].
  assert (Hput : ∀ sz, length (bm_incomplete (bm_put event sz m)) = 6%nat ∧ uint 64 (dropped (bm_put event sz m)) = uint 64 (dropped m + 0) ∧
    (∀ id, is_Some (bm_events m !! id) → is_Some (bm_events (bm_put event sz m) !! id)) ∧ (true = true → is_Some (bm_events (bm_put event sz m) !! e_ID event))).
  { intros sz. rewrite Z.add_0_r. cbn. rewrite lookup_insert_eq. split_and!; [done|done| |eauto]. intros id Hid. by apply lookup_insert_is_Some'; right. }
  assert (Hmark : ∀ r, bm_events (MarkIncomplete r m) = bm_events m) by (intros r; apply MarkIncomplete_frame).
  destruct (_ || _); [rewrite MarkIncomplete_length, dropped_queue, Hmark by done; done|].
  destruct backend as [b|]; [|apply Hput].
  destruct (be_persist b event w) as [w1 [sz|]]; [|rewrite MarkIncomplete_length, dropped_write, Hmark by done; done].
  destruct (negb (fits m sz)); [|apply Hput].
  destruct (be_remove b (e_ID event) w1) as [w2 []]; [rewrite MarkIncomplete_length, dropped_queue, Hmark by done; done|].
  pose proof (MarkIncomplete_frame IncompleteOutboxDelete (MarkIncomplete IncompleteRetryQueueFull m)) as (F & _).
  rewrite !MarkIncomplete_length, dropped_delete, dropped_queue, F, Hmark by done. done.
Qed.

Context (publicKey : list Z) (client : Event → option Client) (answer : FlowEvent → bool).

(** The messages of the events that find a client. *)
Definition messages_of (events : list Event) : list FlowEvent :=
  toProtoEvent publicKey <$> filter (λ e, is_Some (client e)) events.

Lemma sender_one_stored m w kept lost sent failed event : 
  sender_one backend publicKey client answer (m, w, kept, lost, sent, failed) event =
  let '(m, w, ok) := TryStoreEvent backend event m w in
  if ok : bool then
    (m, w, kept ++ [event], lost, sent ++ messages_of [event],
     (failed + if (send publicKey (client event) answer event).2 then 0 else 1)%nat)
  else (m, w, kept, lost ++ [event], sent, failed).
Proof.
  unfold sender_one, messages_of. destruct (TryStoreEvent backend event m w) as [[m1 w1] []]; [|done].
  rewrite filter_cons, filter_nil. destruct (client event); cbn.
  - destruct (answer _); do 2 f_equal; lia.
  - f_equal; lia.
Qed.

Lemma sender_fold events m w : length (bm_incomplete m) = 6%nat →
  let '(m', w', kept, lost, sent, failed) := foldl (sender_one backend publicKey client answer) (m, w, [], [], [], 0%nat) events in
  length (bm_incomplete m') = 6%nat ∧ kept `sublist_of` events ∧ kept ++ lost ≡ₚ events ∧
  uint 64 (dropped m') = uint 64 (dropped m + Z.of_nat (length lost)) ∧
  Forall (λ e, is_Some (bm_events m' !! e_ID e)) kept ∧ sent = messages_of kept.
Proof.
  intros Hl. induction events as [|e events IH] using rev_ind; [cbn; rewrite Z.add_0_r; by split_and!|].
  rewrite foldl_app. cbn [foldl]. destruct (foldl _ _ events) as [[[[[m1 w1] kept] lost] sent] failed]. destruct IH as (H1 & H2 & H3 & H4 & H5 & H6).
  rewrite sender_one_stored. pose proof (TryStoreEvent_counts e m1 w1 H1) as HT. destruct (TryStoreEvent backend e m1 w1) as [[m2 w2] ok].
  destruct HT as (T1 & T2 & T3 & T4). assert (Hk : Forall (λ e, is_Some (bm_events m2 !! e_ID e)) kept) by (eapply Forall_impl; [exact H5|]; auto).
  assert (Hd : ∀ x, uint 64 (dropped m1 + x) = uint 64 (dropped m + Z.of_nat (length lost) + x))
    by (intros x; by rewrite <- uint_add_l, H4, uint_add_l).
  destruct ok; split_and!; try done.
  - by apply sublist_app.
  - rewrite <- H3. rewrite <- !app_assoc. f_equiv. apply Permutation_app_comm.
  - rewrite T2, Hd. f_equal. lia.
  - apply Forall_app. split; [done|]. constructor; [auto|done].
  - unfold messages_of in *. by rewrite filter_app, fmap_app, H6.
  - by apply sublist_inserts_r.
  - by rewrite app_assoc, H3.
  - rewrite T2, Hd, length_app. f_equal. cbn. lia.
Qed.

(** C30. One tick: what was captured since the last one is handed on as a whole.
    Every aggregated event is either kept for its acknowledgement or dropped
    and counted, in the order of the aggregation.  The kept ones, and no others,
    are handed to the stream in this order, each as its message, except those
    that find no client, which stay for the retries.  Packets, bytes, starts,
    ends and drops add up, and the next window is empty. *)
Theorem sender_accounts now seed seed' l m w :
  Forall raw_event (window_events (lg_store l)) → length (bm_incomplete m) = 6%nat →
  let '(l', (m', w', kept, lost, sent, failed)) := sender_round backend publicKey client answer now seed seed' l m w in
  window_events (lg_store l') = [] ∧
  kept ++ lost ≡ₚ GetAggregatedEvents (logger_ResetWindow now l).1 seed seed' ∧
  sent = toProtoEvent publicKey <$> filter (λ e, is_Some (client e)) kept ∧
  (∀ q, q ∈ quantities → uint 64 (sum_of q.2 kept + sum_of q.2 lost) = uint 64 (sum_of q.1 (window_events (lg_store l)))) ∧
  Forall (λ e, is_Some (bm_events m' !! e_ID e) ∧ e_WindowStart e = am_WindowStart (lg_store l) ∧ e_WindowEnd e = now) kept ∧
  uint 64 (dropped m') = uint 64 (dropped m + Z.of_nat (length lost)) ∧
  kept `sublist_of` GetAggregatedEvents (logger_ResetWindow now l).1 seed seed'.
Proof.
  intros Hr Hl. unfold sender_round. cbn [logger_ResetWindow ResetAggregationWindow fst snd]. set (window := {| am_events := _; am_WindowStart := _; am_WindowEnd := _ |}).
  pose proof (sender_fold (GetAggregatedEvents window seed seed') m w Hl) as HF.
  destruct (foldl _ _ _) as [[[[[m' w'] kept] lost] sent] failed]. destruct HF as (_ & Hs & Hp & Hd & Hk & Hsent).
  assert (Hwin : Forall raw_event (window_events window)) by done.
  destruct (aggregation_summaries window seed seed' Hwin) as (Htot & Hsum).
  split_and!; [done|done|done| | |done|done].
  - intros q Hq. rewrite <- sum_of_app, Hp. by apply Htot.
  - rewrite Forall_forall in *. intros e He. destruct (Hsum e) as (k & HS); [rewrite <- Hp; apply elem_of_app; by left|].
    destruct HS as [_ _ _ _ (_ & E1 & E2)]. split_and!; [by apply Hk|done..].
Qed.

(** ** The retries *)

(** Old enough to be sent again. *)
Definition ripe (clock : Event → Z) (e : Event) : Prop := e_Timestamp e + 10 ^ 9 <= clock e.

#[global] Instance ripe_dec clock e : Decision (ripe clock e).
Proof. unfold ripe. apply _. Defined.

(** The elements up to the first that fails, which is included. *)
Fixpoint upto_failure (ok : Event → bool) (l : list Event) : list Event :=
  match l with [] => [] | e :: l => if ok e then e :: upto_failure ok l else [e] end.

Lemma retry_loop_spec clock ok n events : (n <= maxRetryBatch)%nat →
  retry_loop clock ok n events =
  (upto_failure ok (take (maxRetryBatch - n) (filter (ripe clock) events)),
   negb (forallb ok (take (maxRetryBatch - n) (filter (ripe clock) events)))).
Proof.
  revert n. induction events as [|e events IH]; intros n Hn; cbn [retry_loop]; [by rewrite filter_nil, take_nil|].
  destruct (Nat.eqb_spec n maxRetryBatch) as [->|Hne]; [by rewrite Nat.sub_diag|].
  rewrite filter_cons. destruct (Z.ltb_spec (clock e) (e_Timestamp e + 10 ^ 9)) as [Hy|Ho].
  - rewrite decide_False by (unfold ripe; lia). by apply IH.
  - rewrite decide_True by (unfold ripe; lia). replace (maxRetryBatch - n)%nat with (S (maxRetryBatch - S n)) by lia.
    cbn [firstn upto_failure forallb]. destruct (ok e); [|done]. rewrite IH by lia. done.
Qed.

Lemma upto_failure_all ok l : forallb ok l = true → upto_failure ok l = l.
Proof. induction l as [|e l IH]; cbn; [done|]. intros [He Hl]%andb_true_iff. by rewrite He, IH. Qed.

(** Sending [e] succeeds. *)
Definition send_ok (e : Event) : bool := (send publicKey (client e) answer e).2.

(** A round of retries sends the oldest 256 of the events that are at least a
    second old, in the order of their age, until one fails; when no more than
    that many are waiting and the stream takes them, every one is sent. *)
Theorem retry_exact clock seed m :
  ∃ waiting, waiting ≡ₚ filter (ripe clock) (map_to_list (bm_events m)).*2 ∧ StronglySorted not_younger waiting ∧
    retry_round publicKey client answer clock seed m =
      (upto_failure send_ok (take maxRetryBatch waiting), negb (forallb send_ok (take maxRetryBatch waiting))) ∧
    ((length waiting <= maxRetryBatch)%nat → (∀ e, send_ok e = true) →
     (retry_round publicKey client answer clock seed m).1 ≡ₚ filter (ripe clock) (map_to_list (bm_events m)).*2).
Proof.
  destruct (GetEvents_spec seed m) as [Hp Hs]. exists (filter (ripe clock) (GetEvents seed m)).
  assert (Hw : filter (ripe clock) (GetEvents seed m) ≡ₚ filter (ripe clock) (map_to_list (bm_events m)).*2) by (by rewrite Hp).
  split_and!; [done|by apply StronglySorted_filter'|unfold retry_round; by rewrite retry_loop_spec by lia|].
  intros Hl Hok. unfold retry_round. rewrite retry_loop_spec by lia. cbn [fst].
  rewrite Nat.sub_0_r, take_ge, upto_failure_all; [done| |done]. apply forallb_forall. intros e _. apply Hok.
Qed.
End Rounds.
