(* ===== verification/FlowKernel.v ===== *)
(** * Traffic events: the kernel's connection tracker

    The events of [client/internal/netflow/conntrack/conntrack.go] and the
    marks of [client/net/fwmark.go].  The netlink library is only the source of
    the flows; [uuid.NewSHA1] is a parameter. *)
From S2P Require Import Prelude NetIP Bytes ConnTrack Netflow.
Open Scope Z_scope.

Definition SCTP : Z := 132.

(** ** Marks *)

Definition defaultFwmarkBase : Z := 0x1BD00.
Definition fwmarkOffsetMask : Z := 0xFF.
Definition offsetControlPlane : Z := 0x00.
Definition offsetDataPlaneIn : Z := 0x10.
Definition offsetDataPlaneOut : Z := 0x11.
Definition offsetDataPlaneLower : Z := 0x10.

Definition DataPlaneMarkLower (base : Z) : Z := Z.lor base offsetDataPlaneLower.
Definition DataPlaneMarkUpper (base : Z) : Z := Z.lor base fwmarkOffsetMask.
Definition DataPlaneMarkIn (base : Z) : Z := Z.lor base offsetDataPlaneIn.
Definition DataPlaneMarkOut (base : Z) : Z := Z.lor base offsetDataPlaneOut.
Definition ControlPlaneMark (base : Z) : Z := Z.lor base offsetControlPlane.

Definition IsDataPlaneMark (base mark : Z) : bool := (DataPlaneMarkLower base <=? mark) && (mark <=? DataPlaneMarkUpper base).

(** The checks of [parseFwmarkBase] on the number. *)
Definition checkFwmarkBase (base : Z) : option Z :=
  if base =? 0 then None else if negb (Z.land base fwmarkOffsetMask =? 0) then None else Some base.

(** ** Flows *)

Record Counter := { ct_Packets : Z; ct_Bytes : Z }.

(** What is read of a netlink flow. *)
Record Flow := {
  fl_ID : Z; fl_Mark : Z; fl_Protocol : Z; fl_SourceAddress : Addr; fl_DestinationAddress : Addr;
  fl_SourcePort : Z; fl_DestinationPort : Z; fl_ICMPType : Z; fl_ICMPCode : Z;
  fl_CountersOrig : Counter; fl_CountersReply : Counter;
}.

Inductive kernel_type := EventNew | EventUpdate | EventDestroy | EventOther.

#[global] Instance kernel_type_eq_dec : EqDecision kernel_type.
Proof. solve_decision. Defined.

(** The address of the interface. *)
Record Address := { ad_IP : Addr; ad_Network : Prefix; ad_IPv6 : Addr; ad_IPv6Net : Prefix }.

Section Kernel.
Context (NewSHA1 : N → list Z → N) (instanceID : N) (fwmarkBase : Z) (addr : Address).

Definition relevantFlow (mark : Z) (srcIP dstIP : Addr) : bool :=
  if IsDataPlaneMark fwmarkBase mark then true
  else if prefix_Contains (ad_Network addr) srcIP || prefix_Contains (ad_Network addr) dstIP then true
  else if prefix_IsValid (ad_IPv6Net addr) then prefix_Contains (ad_IPv6Net addr) srcIP || prefix_Contains (ad_IPv6Net addr) dstIP
  else false.

Definition inferDirection (mark : Z) (srcIP dstIP : Addr) : Direction :=
  let is_own ip := bool_decide (ad_IP addr = ip) || (IsValid (ad_IPv6 addr) && bool_decide (ad_IPv6 addr = ip)) in
  let in_net ip := prefix_Contains (ad_Network addr) ip || (prefix_IsValid (ad_IPv6Net addr) && prefix_Contains (ad_IPv6Net addr) ip) in
  if mark =? DataPlaneMarkIn fwmarkBase then Ingress
  else if mark =? DataPlaneMarkOut fwmarkBase then Egress
  else if is_own srcIP then Egress
  else if is_own dstIP then Ingress
  else if in_net srcIP then Ingress
  else if in_net dstIP then Egress
  else DirectionUnknown.

Definition mapRx (flow : Flow) (d : Direction) : Counter :=
  if bool_decide (d = Ingress) then fl_CountersOrig flow else fl_CountersReply flow.
Definition mapTx (flow : Flow) (d : Direction) : Counter :=
  if bool_decide (d = Ingress) then fl_CountersReply flow else fl_CountersOrig flow.

Definition getFlowID (conntrackID : Z) : N := NewSHA1 instanceID (be_bytes 4 conntrackID).

(** The event handed to the logger, if any. *)
Definition handleEvent (typ : kernel_type) (flow : option Flow) : option EventFields :=
  match flow with
  | None => None
  | Some flow =>
      if negb (bool_decide (typ = EventNew)) && negb (bool_decide (typ = EventDestroy)) then None
      else if fl_Protocol flow =? ProtocolUnknown then None
      else
        let p := fl_Protocol flow in
        let srcIP := fl_SourceAddress flow in
        let dstIP := fl_DestinationAddress flow in
        if negb (relevantFlow (fl_Mark flow) srcIP dstIP) then None
        else
          let has_ports := (p =? TCP) || (p =? UDP) || (p =? SCTP) in
          let icmp := (p =? ICMP) || (p =? ICMPv6) in
          let direction := inferDirection (fl_Mark flow) srcIP dstIP in
          let ended := bool_decide (typ = EventDestroy) in
          let counted (n : Z) := if ended then n else 0 in
          Some {| ev_FlowID := getFlowID (fl_ID flow); ev_Type := if ended then TypeEnd else TypeStart; ev_RuleID := [];
                  ev_Direction := direction; ev_Protocol := p; ev_SourceIP := srcIP; ev_DestIP := dstIP;
                  ev_SourcePort := if has_ports then fl_SourcePort flow else 0;
                  ev_DestPort := if has_ports then fl_DestinationPort flow else 0;
                  ev_ICMPType := if icmp then fl_ICMPType flow else 0; ev_ICMPCode := if icmp then fl_ICMPCode flow else 0;
                  ev_RxPackets := counted (ct_Packets (mapRx flow direction)); ev_TxPackets := counted (ct_Packets (mapTx flow direction));
                  ev_RxBytes := counted (ct_Bytes (mapRx flow direction)); ev_TxBytes := counted (ct_Bytes (mapTx flow direction)) |}
  end.

(** ** Lemmas *)

(** Control traffic of the client itself is never taken for data. *)
Lemma control_not_data base : checkFwmarkBase base = Some base → IsDataPlaneMark base (ControlPlaneMark base) = false.
Proof.
  unfold checkFwmarkBase, IsDataPlaneMark, ControlPlaneMark, DataPlaneMarkLower, offsetControlPlane, offsetDataPlaneLower, fwmarkOffsetMask.
  destruct (base =? 0); [done|]. destruct (Z.land base 255 =? 0) eqn:E; [|done]. intros _. apply Z.eqb_eq in E.
  assert (H : Z.land base 16 = 0).
  { replace 16 with (Z.land 255 16) by done. by rewrite Z.land_assoc, E, Z.land_0_l. }
  pose proof (Z.add_lor_land base 16) as Ha. rewrite H in Ha. rewrite Z.lor_0_r. apply andb_false_iff. left. apply Z.leb_gt. lia.
Qed.

(** A flow that is taken for its addresses has a direction. *)
Lemma relevant_direction mark srcIP dstIP : relevantFlow mark srcIP dstIP = true → IsDataPlaneMark fwmarkBase mark = false →
  inferDirection mark srcIP dstIP ≠ DirectionUnknown.
Proof.
  unfold relevantFlow, inferDirection. intros Hr Hm. rewrite Hm in Hr.
  destruct (mark =? DataPlaneMarkIn fwmarkBase); [done|]. destruct (mark =? DataPlaneMarkOut fwmarkBase); [done|].
  destruct (prefix_Contains (ad_Network addr) srcIP), (prefix_Contains (ad_Network addr) dstIP), (prefix_IsValid (ad_IPv6Net addr)),
    (prefix_Contains (ad_IPv6Net addr) srcIP), (prefix_Contains (ad_IPv6Net addr) dstIP); cbn in *; repeat case_match; done.
Qed.

(** The packets and bytes of both directions are reported once, at the end. *)
Lemma kernel_counters typ flow f : handleEvent typ (Some flow) = Some f →
  let n := if bool_decide (typ = EventDestroy) then 1 else 0 in
  ev_RxPackets f + ev_TxPackets f = n * (ct_Packets (fl_CountersOrig flow) + ct_Packets (fl_CountersReply flow)) ∧
  ev_RxBytes f + ev_TxBytes f = n * (ct_Bytes (fl_CountersOrig flow) + ct_Bytes (fl_CountersReply flow)).
Proof.
  unfold handleEvent. destruct (_ && _); [done|]. destruct (_ =? _); [done|]. destruct (negb _); [done|]. intros [= <-].
  cbn -[Z.mul Z.add]. unfold mapRx, mapTx. repeat case_bool_decide; lia.
Qed.
End Kernel.
