(* ===== verification/NetflowCases.v ===== *)
(** * Traffic events: concrete runs

    The packages the outbox relies on instantiated, witnesses of the theorems,
    and runs that show where the code falls short. *)
From stdpp Require Import sorting.
From S2P Require Import Prelude GoStrings NetIP Bytes Order ConnTrack Netflow FlowRoutes FlowLogger FlowWire FlowOutbox FlowDurable FlowManager.
Open Scope Z_scope.

(** ** The packages *)

Definition hexchar (d : N) : ascii := Ascii.ascii_of_N (if (d <? 10)%N then 48 + d else 87 + d).
Definition hexval (c : ascii) : N := let n := Ascii.N_of_ascii c in if (n <? 58)%N then n - 48 else n - 87.

Fixpoint hex (k : nat) (n : N) : string :=
  match k with O => "" | S k => hex k (n / 16) +:+ String (hexchar (n mod 16)) "" end.

Fixpoint unhex (acc : N) (s : string) : N :=
  match s with EmptyString => acc | String c s => unhex (acc * 16 + hexval c) s end.

Lemma unhex_app acc a b : unhex acc (a +:+ b) = unhex (unhex acc a) b.
Proof. revert acc. induction a as [|c a IH]; intros acc; [done|]. rewrite cons_app. cbn [unhex]. apply IH. Qed.

Lemma hexval_hexchar d : (d < 16)%N → hexval (hexchar d) = d ∧ uuid_char (hexchar d) = true.
Proof.
  intros H. assert (Hd : d ∈ N.of_nat <$> seq 0 16) by (apply list_elem_of_fmap; exists (N.to_nat d); rewrite elem_of_seq; lia).
  revert d Hd H. apply (Forall_forall (λ d, (d < 16)%N → hexval (hexchar d) = d ∧ uuid_char (hexchar d) = true)).
  repeat (constructor; [intros _; by vm_compute|]). constructor.
Qed.

Lemma unhex_hex k n : (n < 16 ^ N.of_nat k)%N → unhex 0 (hex k n) = n.
Proof.
  revert n. induction k as [|k IH]; intros n Hn; cbn [hex].
  - cbn in Hn. cbn. lia.
  - rewrite unhex_app, IH; cbn [unhex].
    + rewrite (proj1 (hexval_hexchar (n mod 16) ltac:(apply N.mod_lt; lia))). rewrite N.mul_comm. symmetry. apply N.div_mod'.
    + rewrite Nat2N.inj_succ, N.pow_succ_r' in Hn. apply N.Div0.div_lt_upper_bound. lia.
Qed.

Lemma list_ascii_app a b : String.list_ascii_of_string (a +:+ b) = String.list_ascii_of_string a ++ String.list_ascii_of_string b.
Proof. induction a as [|c a IH]; [done|]. rewrite cons_app. cbn. by rewrite IH. Qed.

Lemma hex_text k n : String.length (hex k n) = k ∧ Forall (λ c, uuid_char c = true) (String.list_ascii_of_string (hex k n)).
Proof.
  revert n. induction k as [|k IH]; intros n; cbn [hex]; [by split; [|constructor]|].
  destruct (IH (n / 16)%N) as [IH1 IH2]. rewrite length_string_app, list_ascii_app, IH1. split; [cbn; lia|].
  apply Forall_app. split; [done|]. constructor; [|constructor]. apply hexval_hexchar. apply N.mod_lt. lia.
Qed.

(** Messages as lists: byte strings with their lengths, options with a tag. *)
Definition put (l : list Z) : list Z := Z.of_nat (length l) :: l.
Definition put_time (o : option Timestamp) : list Z := match o with None => [0] | Some t => [1; ts_seconds t; ts_nanos t] end.
Definition put_info (o : option ConnectionInfo) : list Z :=
  match o with None => [0] | Some (PortInfo a b) => [1; a; b] | Some (IcmpInfo a b) => [2; a; b] end.
Definition put_fields (o : option FlowFields) : list Z :=
  match o with
  | None => [0]
  | Some f =>
      [1; ff_Type f; ff_Direction f; ff_Protocol f; ff_RxPackets f; ff_TxPackets f; ff_RxBytes f; ff_TxBytes f;
       ff_NumOfStarts f; ff_NumOfEnds f; ff_NumOfDrops f] ++
      put (ff_FlowId f) ++ put (ff_RuleId f) ++ put (ff_SourceIp f) ++ put (ff_DestIp f) ++ put (ff_SourceResourceId f) ++
      put (ff_DestResourceId f) ++ put_info (ff_ConnectionInfo f)
  end.
Definition put_event (w : FlowEvent) : list Z :=
  put (fe_EventId w) ++ put_time (fe_Timestamp w) ++ put (fe_PublicKey w) ++ put_time (fe_WindowStart w) ++ put_time (fe_WindowEnd w) ++
  [if fe_IsInitiator w then 1 else 0] ++ put_fields (fe_FlowFields w).

Definition get (l : list Z) : option (list Z * list Z) :=
  match l with n :: l => Some (take (Z.to_nat n) l, drop (Z.to_nat n) l) | [] => None end.
Definition get_time (l : list Z) : option (option Timestamp * list Z) :=
  match l with
  | 0 :: l => Some (None, l)
  | 1 :: s :: n :: l => Some (Some {| ts_seconds := s; ts_nanos := n |}, l)
  | _ => None
  end.
Definition get_info (l : list Z) : option ConnectionInfo :=
  match l with [1; a; b] => Some (PortInfo a b) | [2; a; b] => Some (IcmpInfo a b) | _ => None end.
Definition get_fields (l : list Z) : option (option FlowFields) :=
  match l with
  | [0] => Some None
  | 1 :: ty :: di :: pr :: rp :: tp :: rb :: tb :: ns :: ne :: nd :: l =>
      '(a, l) ← get l; '(b, l) ← get l; '(c, l) ← get l; '(d, l) ← get l; '(e, l) ← get l; '(f, l) ← get l;
      Some (Some {| ff_FlowId := a; ff_Type := ty; ff_RuleId := b; ff_Direction := di; ff_Protocol := pr; ff_SourceIp := c; ff_DestIp := d;
        ff_ConnectionInfo := get_info l; ff_RxPackets := rp; ff_TxPackets := tp; ff_RxBytes := rb; ff_TxBytes := tb;
        ff_SourceResourceId := e; ff_DestResourceId := f; ff_NumOfStarts := ns; ff_NumOfEnds := ne; ff_NumOfDrops := nd |})
  | _ => None
  end.
Definition get_event (l : list Z) : option FlowEvent :=
  '(id, l) ← get l; '(t, l) ← get_time l; '(k, l) ← get l; '(ws, l) ← get_time l; '(we, l) ← get_time l;
  match l with
  | i :: l => fields ← get_fields l;
      Some {| fe_EventId := id; fe_Timestamp := t; fe_PublicKey := k; fe_FlowFields := fields; fe_IsInitiator := i =? 1;
              fe_WindowStart := ws; fe_WindowEnd := we |}
  | [] => None
  end.

Lemma get_put l r : get (put l ++ r) = Some (l, r).
Proof. unfold get, put. cbn. by rewrite Nat2Z.id, take_app_length, drop_app_length. Qed.

Lemma get_put_time o r : get_time (put_time o ++ r) = Some (o, r).
Proof. by destruct o as [[]|]. Qed.

Lemma get_put_fields o : get_fields (put_fields o) = Some o.
Proof.
  destruct o as [f|]; [|done]. unfold put_fields. cbn [app get_fields]. do 6 (rewrite get_put; cbn [mbind option_bind]).
  destruct f as [a b c d e f g [[]|]]; done.
Qed.

Lemma get_put_event w : get_event (put_event w) = Some w.
Proof.
  unfold get_event, put_event. rewrite get_put. cbn [mbind option_bind]. rewrite get_put_time. cbn [mbind option_bind].
  rewrite get_put. cbn [mbind option_bind]. do 2 (rewrite get_put_time; cbn [mbind option_bind]). cbn [app]. rewrite get_put_fields.
  cbn [mbind option_bind]. by destruct w as [? ? ? ? [] ? ?].
Qed.

(** Hexadecimal identifiers, seconds and nanoseconds, and the messages
    above. *)
#[local] Instance case_libs : FlowLibs :=
  {| uuid_String := λ id, hex 32 id +:+ "----";
     uuid_FromBytes := λ bs, if (length bs =? 16)%nat then Some (Z.to_N (be_value bs)) else None;
     timestamppb_New := λ t, {| ts_seconds := t / 10 ^ 9; ts_nanos := t mod 10 ^ 9 |};
     AsTime := λ t, ts_seconds t * 10 ^ 9 + ts_nanos t;
     CheckValid := λ t, (-62135596800 <=? ts_seconds t) && (ts_seconds t <=? 253402300799) && (0 <=? ts_nanos t) && (ts_nanos t <? 10 ^ 9);
     proto_Marshal := λ w, Some (put_event w);
     proto_Unmarshal := get_event |}.

Lemma case_libs_spec : FlowLibsSpec.
Proof.
  split.
  - intros a b Ha Hb E%string_app_inj_r. apply (f_equal (unhex 0)) in E. by rewrite !unhex_hex in E.
  - intros a. unfold uuid_String, case_libs. destruct (hex_text 32 a) as [H1 H2]. rewrite length_string_app, list_ascii_app, H1.
    split; [done|]. apply Forall_app. split; [done|]. by repeat constructor.
  - intros a Ha. unfold uuid_FromBytes, case_libs, uuid_bytes. rewrite length_be_bytes. cbn [Nat.eqb].
    unfold uuid_wf in Ha. rewrite be_value_bytes; [by rewrite N2Z.id|]. change (256 ^ Z.of_nat 16) with (Z.of_N (2 ^ 128)). lia.
  - intros t. cbn. rewrite Z.mul_comm. symmetry. apply Z.div_mod. lia.
  - intros w data [= <-]. apply get_put_event.
Qed.

#[local] Existing Instance case_libs_spec.
#[local] Existing Instance canonical_order.

(** ** Events *)

Definition second : Z := 10 ^ 9.
Definition day : Z := 86400 * second.

Definition ssh (flow : N) (t : EventType) (rx tx : Z) : EventFields :=
  {| ev_FlowID := flow; ev_Type := t; ev_RuleID := [7]; ev_Direction := Ingress; ev_Protocol := TCP;
     ev_SourceIP := AddrV4 0x64400001; ev_DestIP := AddrV4 0x64400002; ev_SourcePort := 40000; ev_DestPort := 22;
     ev_ICMPType := 0; ev_ICMPCode := 0; ev_RxPackets := rx; ev_TxPackets := tx; ev_RxBytes := 60 * rx; ev_TxBytes := 60 * tx |}.

Definition event (id : N) (ts : Z) (f : EventFields) : Event :=
  {| e_ID := id; e_Timestamp := ts; e_WindowStart := 0; e_WindowEnd := second; e_fields := f; e_SourceResourceID := [];
     e_DestResourceID := []; e_NumOfStarts := 0; e_NumOfEnds := 0; e_NumOfDrops := 0 |}.

Definition overlay : Prefix := PrefixFrom (AddrV4 0x64400000) 10.

(** A window with the start and the end of a flow, and another start. *)
Definition window : AggregatingMemory :=
  am_StoreEvent (event 3 30 (ssh 9 TypeStart 0 0)) (am_StoreEvent (event 2 20 (ssh 8 TypeEnd 4 3))
    (am_StoreEvent (event 1 10 (ssh 8 TypeStart 1 0)) {| am_events := ∅; am_WindowStart := 0; am_WindowEnd := second |})).

Lemma window_raw : Forall raw_event (window_events window).
Proof. apply (bool_decide_unpack _). by vm_compute. Qed.

Lemma aggregation_exact_witness : ∃ m : gmap aggregationKey Event,
  GetAggregatedEvents window 0 0 ≡ₚ (map_to_list m).*2 ∧ (e_NumOfStarts <$> (m !! flow_key 8)) = Some 1 ∧
  (e_NumOfEnds <$> (m !! flow_key 8)) = Some 1 ∧ ((ev_RxBytes ∘ e_fields) <$> (m !! flow_key 8)) = Some 300.
Proof.
  destruct (aggregation_exact window 0 0 window_raw) as (m & Hp & Hs & _ & Hf). exists m. split; [exact Hp|].
  pose proof (Hs (flow_key 8)) as H8. rewrite (Hf 8%N) in H8 by done. unfold window_events in H8.
  destruct (m !! flow_key 8) as [a|] eqn:E; [|exfalso; revert H8; by vm_compute].
  cbn. pose proof (sum_quantities _ _ _ H8) as Q. unfold quantities in Q.
  split_and!; f_equal.
  - refine (eq_trans (Q (is_type TypeStart, e_NumOfStarts) _) _); [set_solver|by vm_compute].
  - refine (eq_trans (Q (is_type TypeEnd, e_NumOfEnds) _) _); [set_solver|by vm_compute].
  - refine (eq_trans (Q (ev_RxBytes ∘ e_fields, ev_RxBytes ∘ e_fields) _) _); [set_solver|by vm_compute].
Defined.

(** ** The logger *)

Definition no_routes (_ : Addr) : string * bool := ("", false).

Definition to_address (dst : Z) : EventFields :=
  {| ev_FlowID := 5; ev_Type := TypeStart; ev_RuleID := []; ev_Direction := Egress; ev_Protocol := TCP;
     ev_SourceIP := AddrV4 0x64400001; ev_DestIP := AddrV4 dst; ev_SourcePort := 1; ev_DestPort := 2; ev_ICMPType := 0;
     ev_ICMPCode := 0; ev_RxPackets := 0; ev_TxPackets := 0; ev_RxBytes := 0; ev_TxBytes := 0 |}.

(** Everything outside the overlay is the resource "r" behind an exit node. *)
Definition exit_routes (_ : Addr) : string * bool := ("r", true).

(** One event is captured and stored; one of the loopback is filtered; one that
    leaves by an exit node is taken, and stored only once that is asked for. *)
Definition captures : list log_op :=
  [LEnable; LEnter (ssh 8 TypeStart 1 0); LLocked 0; LReceive no_routes 1 10; LEnter (to_address 0x7f000001);
   LEnter (to_address 0x08080808); LLocked 0; LReceive exit_routes 2 20;
   LUpdateConfig false true; LEnter (to_address 0x08080404); LLocked 0; LReceive exit_routes 3 30].

#[local] Instance wide_dec f : Decision (wide f).
Proof. unfold wide, in_width. apply _. Defined.

Lemma captures_wide f : LEnter f ∈ captures → wide f.
Proof.
  unfold captures. rewrite !elem_of_cons, elem_of_nil. intros H. destruct_or! H; simplify_eq; apply (bool_decide_unpack _); by vm_compute.
Qed.

Lemma logger_sound_witness :
  let l := (log_run overlay PrefixZero 0 captures).1 in
  st_Accepted (lg_stats l) = 3 ∧ st_Filtered (lg_stats l) = 1 ∧ (e_ID <$> window_events (lg_store l)) ≡ₚ [1%N; 3%N] ∧
  Forall (λ v, ∃ before op after check id now, captures = before ++ op :: after ∧ taken_by op = Some (check, id, now) ∧
    recorded overlay PrefixZero 0 check id now v ∧
    collected overlay PrefixZero 0 (asked before).1 (asked before).2 check (e_fields v)) (window_events (lg_store l)).
Proof.
  pose proof (logger_sound overlay PrefixZero 0 captures captures_wide) as H.
  split_and!; [by vm_compute..|apply (bool_decide_unpack _); by vm_compute|]. destruct (log_run overlay PrefixZero 0 captures) as [l n].
  destruct H as (_ & _ & _ & H). eapply Forall_impl; [exact H|]. by intros v (_ & _ & ?).
Defined.

(** ** The sender *)

Definition busy : Logger := with_channels true [] [] [] window (FlowLogger.New overlay PrefixZero 0).

Definition receiver : Client := {| cl_URL := "flow"; cl_TokenPayload := "t"; cl_TokenSignature := "s"; cl_Interval := second; cl_closed := false |}.

(** Room for one event: it is kept and its message sent, the other is counted. *)
Definition one_tick :=
  sender_round (None : option (Backend ())) [7] (λ _, Some receiver) (λ _, true) (5 * second) 0 0 busy (NewBoundedMemoryStore 1 4096) ().

Lemma sender_accounts_witness :
  let '(l', (m', w', kept, lost, sent, failed)) := one_tick in
  length kept = 1%nat ∧ length lost = 1%nat ∧ IncompleteCount IncompleteRetryQueueFull m' = 1 ∧ failed = 0%nat ∧
  sent = toProtoEvent [7] <$> kept ∧ sent ≠ [] ∧
  uint 64 (sum_of (ev_RxBytes ∘ e_fields) kept + sum_of (ev_RxBytes ∘ e_fields) lost) = 300.
Proof.
  assert (E : let '(l', (m', w', kept, lost, sent, failed)) := one_tick in
    length kept = 1%nat ∧ length lost = 1%nat ∧ IncompleteCount IncompleteRetryQueueFull m' = 1 ∧ failed = 0%nat ∧ length sent = 1%nat)
    by (vm_compute; split_and!; reflexivity).
  pose proof (sender_accounts (None : option (Backend ())) [7] (λ _, Some receiver) (λ _, true) (5 * second) 0 0 busy
    (NewBoundedMemoryStore 1 4096) () window_raw eq_refl) as H.
  unfold one_tick in *. destruct (sender_round _ _ _ _ _ _ _ _ _ _) as [l' [[[[[m' w'] kept] lost] sent] failed]].
  destruct H as (_ & _ & Hs & H & _), E as (E1 & E2 & E3 & E4 & E5). split_and!; [done..| | |].
  - rewrite Hs. f_equal. apply filter_all_id, Forall_forall. eauto.
  - by destruct sent.
  - refine (eq_trans (H (ev_RxBytes ∘ e_fields, ev_RxBytes ∘ e_fields) _) _); [unfold quantities; set_solver|by vm_compute].
Defined.

(** ** The configuration *)

Definition no_fault : Faults := {| ft_newClient := false; ft_closeClient := false; ft_startConntrack := false |}.
Definition bad_url : Faults := {| ft_newClient := true; ft_closeClient := false; ft_startConntrack := false |}.

Definition flow_on (url token : string) (interval : Z) : FlowConfig :=
  {| fc_URL := url; fc_Interval := interval; fc_Enabled := true; fc_Counters := false; fc_TokenPayload := token;
     fc_TokenSignature := token; fc_DNSCollection := false; fc_ExitNodeCollection := false |}.

(** A new address with the tokens kept, then another interval, with which
    nothing happens. *)
Definition three_updates : list (FlowConfig * Faults) :=
  [(flow_on "a" "t" second, no_fault); (flow_on "b" "" second, no_fault); (flow_on "b" "" (2 * second), no_fault)].

Lemma flow_follows_config_witness :
  let m := manager_run overlay PrefixZero 0 true three_updates in
  in_force (configs three_updates.*1) m ∧ tracker_in_force true (configs three_updates.*1) m ∧
  (fc_TokenPayload <$> mg_flowConfig m) = Some "t" ∧ (fc_Interval <$> mg_flowConfig m) = Some (2 * second) ∧
  (cl_URL <$> mg_receiverClient m) = Some "b" ∧ mg_tasks m = Some second ∧ mg_conntrack m = Some (Some false).
Proof.
  destruct (flow_follows_config overlay PrefixZero 0 true three_updates ltac:(by repeat constructor)) as (_ & H & Ht).
  split; [exact H|]. split; [apply Ht; by repeat constructor|]. by split_and!; vm_compute.
Defined.

(** A client that cannot be created is not tried again when the same
    configuration arrives once more: the update succeeds, the logger runs, and
    there is neither a client nor a sender. *)
Theorem failed_update_sticks net net6 now tracker c : fc_Enabled c = true →
  let m1 := Update bad_url (Some c) (NewManager net net6 now tracker) in
  let m2 := Update no_fault (Some c) m1.1 in
  m1.2 = true ∧ m2.2 = false ∧ lg_enabled (mg_logger m2.1) = true ∧ mg_receiverClient m2.1 = None ∧ mg_tasks m2.1 = None.
Proof.
  intros Hc. unfold Update. cbn [NewManager mg_flowConfig effective]. rewrite Hc. cbn [enableFlow needsNewClient resetClient bad_url ft_newClient fst].
  cbn [mg_flowConfig effective]. destruct (_ && _) eqn:E.
  - apply andb_true_iff in E as [E1 E2]. by rewrite E2 in E1.
  - rewrite Hc. unfold enableFlow, needsNewClient. rewrite Hc, !String.eqb_refl. by destruct tracker.
Qed.

(** An update that changes only the interval leaves the tasks as they are. *)
Theorem interval_change_ignored m c c' : mg_flowConfig m = Some c → fc_Enabled c = true → fc_Enabled c' = true →
  fc_URL c' = fc_URL c → fc_TokenPayload c' = fc_TokenPayload c → fc_TokenSignature c' = fc_TokenSignature c →
  mg_tasks (Update no_fault (Some c') m).1 = mg_tasks m.
Proof.
  intros Hm H1 H2 H3 H4 H5. unfold Update. rewrite Hm. unfold effective. rewrite H4. destruct (_ && _) eqn:E.
  - apply andb_true_iff in E as [E1 E2]. by rewrite E2 in E1.
  - rewrite H2. unfold enableFlow, needsNewClient. rewrite H1, H3, H4, H5, !String.eqb_refl. cbn. by destruct (mg_conntrack m) as [[]|].
Qed.

(** An update that changes only the counters flag leaves the tracker as it is. *)
Theorem counters_change_ignored ft m c c' counters : mg_flowConfig m = Some c → fc_Enabled c' = true → ft_newClient ft = false →
  mg_conntrack m = Some (Some counters) → mg_conntrack (Update ft (Some c') m).1 = Some (Some counters).
Proof.
  intros Hm Hc Hft Ht. destruct (Update_exact ft c' m Hft) as (_ & _ & _ & _ & U). rewrite Hm, Ht in U. rewrite U.
  replace (fc_Enabled (effective (Some c) c')) with (fc_Enabled c'); [by rewrite Hc|]. cbn. by destruct (_ && _).
Qed.

(** ** The outbox *)

Definition e1 : Event := event 1 10 (ssh 8 TypeStart 1 0).
Definition e2 : Event := event 2 20 (ssh 9 TypeStart 1 0).

#[local] Instance event_wf_dec e : Decision (event_wf e).
Proof. unfold event_wf, uuid_wf, addr_wf, in_width. repeat apply and_dec; apply _ || (case_match; apply _). Defined.

(** The process ends while the second event is written. *)
Definition crash_run : list outbox_op :=
  [ORestart 0 0 (λ _, "") []; OStore e1 "x" []; OStore e2 "y" [Ok; Ok; Ok; Ok; Crash]; ORestart second 0 (λ _, "") []].

Lemma crash_run_fresh : fresh_events crash_run.
Proof. split; apply (bool_decide_unpack _); by vm_compute. Qed.

Lemma outbox_survives_witness :
  let w := outbox_run [1] 4 8192 crash_run in
  wd_durable w = true ∧ map_size (bm_events (wd_mem w)) = 1%nat ∧ ∃ e', bm_events (wd_mem w) !! 1%N = Some e' ∧ (e' = e1 ∨ e' = normal e1).
Proof.
  destruct (outbox_survives [1] 4 8192 crash_run ltac:(lia) ltac:(lia) crash_run_fresh) as (H & _).
  split_and!; [by vm_compute..|]. apply (H 1%N e1); by vm_compute.
Defined.

(** A write that fails at its very end leaves its file behind: the event was
    dropped, yet its file counts against the bounds at the next restart.  The
    outbox cannot be opened any more, and the event that waits there is not
    sent again. *)
Theorem leaked_file_blocks_recovery :
  let ops := [ORestart 0 0 (λ _, "") []; OStore e1 "x" [Ok; Ok; Ok; Ok; Ok; Ok; Ok; Ok; Fails 0]; OStore e2 "y" []] in
  let restart := ORestart second 0 (λ _, "") [] in
  let w := outbox_run [1] 1 8192 ops in
  let w' := outbox_run [1] 1 8192 (ops ++ [restart]) in
  let w2 := outbox_run [1] 1 8192 (ops ++ [restart; restart]) in
  IncompleteCount IncompleteOutboxWrite (wd_mem w) = 1 ∧ wd_unacked w !! 2%N = Some e2 ∧
  (wd_durable w' = false ∧ bm_events (wd_mem w') = ∅ ∧ wd_unacked w' !! 2%N = Some e2) ∧
  (wd_durable w2 = false ∧ bm_events (wd_mem w2) = ∅).
Proof. vm_compute. done. Qed.

(** A clock that is set back during a window costs the whole window: the
    outbox refuses events whose window ends before it begins, and what it
    refuses is not sent. *)
Theorem clock_step_drops_window rnd publicKey client answer now seed seed' l m fs :
  now < am_WindowStart (lg_store l) → Forall raw_event (window_events (lg_store l)) → bm_events m = ∅ → length (bm_incomplete m) = 6%nat →
  let '(l', (m', fs', kept, lost, sent, failed)) :=
    sender_round (Some (outbox_backend rnd)) publicKey client answer now seed seed' l m fs in kept = [] ∧ sent = [].
Proof.
  intros Hnow Hraw Hm Hl. unfold sender_round. cbn [logger_ResetWindow ResetAggregationWindow fst snd].
  set (win := {| am_events := _; am_WindowStart := _; am_WindowEnd := _ |}).
  destruct (aggregation_summaries win seed seed' Hraw) as (_ & Hsum).
  assert (HF : ∀ events, Forall (λ e, e_WindowEnd e < e_WindowStart e) events →
    let '(m', fs', kept, lost, sent, failed) :=
      foldl (sender_one (Some (outbox_backend rnd)) publicKey client answer) (m, fs, [], [], [], 0%nat) events in
    kept = [] ∧ sent = [] ∧ bm_events m' = ∅).
  { induction events as [|e events IH] using rev_ind; intros Hev; [done|]. apply Forall_app in Hev as [Hev [He _]%Forall_cons].
    specialize (IH Hev). rewrite foldl_app. cbn [foldl]. destruct (foldl _ _ events) as [[[[[m1 fs1] kept] lost] sent] failed]. destruct IH as (-> & -> & Hm1).
    unfold sender_one, TryStoreEvent. rewrite Hm1, lookup_empty. cbn [be_persist outbox_backend]. unfold persistEvent.
    rewrite validate_window by done. cbn [negb fail]. destruct (_ || _); by rewrite (proj1 (MarkIncomplete_frame _ m1)). }
  specialize (HF (GetAggregatedEvents win seed seed')). destruct (foldl _ _ _) as [[[[[m' fs'] kept] lost] sent] failed].
  enough (kept = [] ∧ sent = [] ∧ bm_events m' = ∅) by tauto. apply HF. apply Forall_forall. intros e He. destruct (Hsum e He) as (k & [_ _ _ _ (_ & E1 & E2)]). rewrite E1, E2. done.
Qed.
