(* ===== verification/LazyConn.v ===== *)
(** * Connections on demand: the lazy manager

    [client/internal/lazyconn]: which peers are connected only while there is
    traffic, what wakes them and what puts them to sleep; with
    [client/internal/peerstore] and, of [client/internal/peer/conn.go], whether
    a connection is open.

    A connection is an object that several components point to: [ps_conns] holds
    every connection by its address, which is also its identifier, and the store
    maps the key of a peer to the address of its current one.  What the system
    answers to a call (whether an endpoint can be armed, a connection opened)
    is the argument [sys], by the key of the peer. *)
From S2P Require Import Prelude GoStrings NetIP.
Open Scope Z_scope.

(** ** Connections and their store *)

Record Conn := {
  cn_Key : string; cn_AllowedIps : list Prefix; cn_AgentVersion : string;
  cn_opened : bool; cn_pendingFirstPacket : list Z;
}.

(** [ps_idle] lists the peers that were told that their connection went idle. *)
Record Peers := {
  ps_conns : gmap N Conn;
  ps_next : N;
  ps_store : gmap string N;
  ps_idle : list string;
}.

Record Sys := { sys_arm : string → bool; sys_open : string → bool; sys_create : string → bool }.

Definition set_opened (opened : bool) (packet : list Z) (c : Conn) : Conn :=
  {| cn_Key := cn_Key c; cn_AllowedIps := cn_AllowedIps c; cn_AgentVersion := cn_AgentVersion c; cn_opened := opened;
     cn_pendingFirstPacket := match packet with [] => cn_pendingFirstPacket c | _ => packet end |}.

(** [Open] and [OpenWithFirstPacket]. *)
Definition conn_open (sys : Sys) (packet : list Z) (c : Conn) : Conn :=
  if cn_opened c then c else if sys_open sys (cn_Key c) then set_opened true packet c else c.

Definition with_conns (conns : gmap N Conn) (p : Peers) : Peers :=
  {| ps_conns := conns; ps_next := ps_next p; ps_store := ps_store p; ps_idle := ps_idle p |}.

Definition open_at (sys : Sys) (packet : list Z) (id : N) (p : Peers) : Peers :=
  with_conns (alter (conn_open sys packet) id (ps_conns p)) p.

(** [Close]; a connection that is not open is left alone. *)
Definition close_at (signalToRemote : bool) (id : N) (p : Peers) : Peers :=
  match ps_conns p !! id with
  | Some c =>
      if cn_opened c then
        {| ps_conns := <[id := set_opened false [] c]> (ps_conns p); ps_next := ps_next p; ps_store := ps_store p;
           ps_idle := if signalToRemote then ps_idle p ++ [cn_Key c] else ps_idle p |}
      else p
  | None => p
  end.

Definition PeerConnOpenWithFirstPacket (sys : Sys) (pubKey : string) (firstPacket : list Z) (p : Peers) : Peers :=
  match ps_store p !! pubKey with Some id => open_at sys firstPacket id p | None => p end.

Definition PeerConnOpen (sys : Sys) (pubKey : string) (p : Peers) : Peers :=
  PeerConnOpenWithFirstPacket sys pubKey [] p.

Definition PeerConnIdle (pubKey : string) (p : Peers) : Peers :=
  match ps_store p !! pubKey with Some id => close_at true id p | None => p end.

Definition PeerConnClose (pubKey : string) (p : Peers) : Peers :=
  match ps_store p !! pubKey with Some id => close_at false id p | None => p end.

(** ** Configurations *)

Record PeerConfig := { pc_PublicKey : string; pc_AllowedIPs : list Prefix; pc_PeerConnID : N }.

Inductive watcherType := watcherActivity | watcherInactivity.

#[global] Instance watcherType_eq_dec : EqDecision watcherType.
Proof. solve_decision. Defined.

Record managedPeer := { mp_peerCfg : PeerConfig; mp_expectedWatcher : watcherType }.

(** ** Inactivity, [inactivity/manager.go] *)

Definition DefaultInactivityThreshold : Z := 15 * 60 * 10 ^ 9.
Definition MinimumInactivityThreshold : Z := 60 * 10 ^ 9.

(** [in_chan] is the channel with room for one set. *)
Record Inactivity := {
  in_interestedPeers : gmap string PeerConfig;
  in_inactivityThreshold : Z;
  in_chan : option (gset string);
}.

Definition validateInactivityThreshold (configuredThreshold : option Z) : option Z :=
  match configuredThreshold with
  | None => Some DefaultInactivityThreshold
  | Some t => if t <? MinimumInactivityThreshold then None else Some t
  end.

Definition inactivity_New (configuredThreshold : option Z) : Inactivity :=
  {| in_interestedPeers := ∅;
     in_inactivityThreshold := default DefaultInactivityThreshold (validateInactivityThreshold configuredThreshold);
     in_chan := None |}.

Definition with_interested (peers : gmap string PeerConfig) (m : Inactivity) : Inactivity :=
  {| in_interestedPeers := peers; in_inactivityThreshold := in_inactivityThreshold m; in_chan := in_chan m |}.

(** The manager is nil in kernel mode; then these calls do nothing. *)
Definition inactivity_AddPeer (peerCfg : PeerConfig) (m : option Inactivity) : option Inactivity :=
  (λ m, match in_interestedPeers m !! pc_PublicKey peerCfg with
        | Some _ => m
        | None => with_interested (<[pc_PublicKey peerCfg := peerCfg]> (in_interestedPeers m)) m
        end) <$> m.

Definition inactivity_RemovePeer (peer : string) (m : option Inactivity) : option Inactivity :=
  (λ m, with_interested (delete peer (in_interestedPeers m)) m) <$> m.

(** The peers without traffic for longer than the threshold; one without
    statistics is still connecting. *)
Definition is_idle (lastActivities : gmap string Z) (now threshold : Z) (peerID : string) : bool :=
  match lastActivities !! peerID with Some lastActive => threshold <? now - lastActive | None => false end.

Definition checkStats (lastActivities : gmap string Z) (now : Z) (m : Inactivity) : gset string :=
  filter (λ peerID, is_idle lastActivities now (in_inactivityThreshold m) peerID = true) (dom (in_interestedPeers m)).

(** The set is dropped while the channel is full. *)
Definition notifyInactivePeers (inactivePeers : gset string) (m : Inactivity) : Inactivity :=
  {| in_interestedPeers := in_interestedPeers m; in_inactivityThreshold := in_inactivityThreshold m;
     in_chan := match in_chan m with Some s => Some s | None => Some inactivePeers end |}.

(** One tick of [Start]. *)
Definition inactivity_tick (lastActivities : gmap string Z) (now : Z) (m : Inactivity) : Inactivity :=
  let idlePeers := checkStats lastActivities now m in
  if decide (idlePeers = ∅) then m else notifyInactivePeers idlePeers m.

(** ** Activity, [activity/manager.go] *)

Record Event := { av_PeerConnID : N; av_FirstPacket : list Z }.

(** Listeners have an identity: [ac_peers] is the map of the manager,
    [ac_reading] are the listeners whose [ReadPackets] has not returned.  The
    goroutines whose call has returned are in [ac_returned] until they take the
    lock, and [ac_OnActivityChan] holds what they notified. *)
Record Activity := {
  ac_peers : gmap N nat;
  ac_reading : gmap nat N;
  ac_returned : list Event;
  ac_OnActivityChan : list Event;
  ac_done : bool;
  ac_next : nat;
}.

Definition activity_New : Activity :=
  {| ac_peers := ∅; ac_reading := ∅; ac_returned := []; ac_OnActivityChan := []; ac_done := false; ac_next := 0 |}.

(** The manager and whether there was an error. *)
Definition MonitorPeerActivity (sys : Sys) (peerCfg : PeerConfig) (m : Activity) : Activity * bool :=
  match ac_peers m !! pc_PeerConnID peerCfg with
  | Some _ => (m, false)
  | None =>
      if negb (sys_arm sys (pc_PublicKey peerCfg)) then (m, true)
      else
        ({| ac_peers := <[pc_PeerConnID peerCfg := ac_next m]> (ac_peers m);
            ac_reading := <[ac_next m := pc_PeerConnID peerCfg]> (ac_reading m);
            ac_returned := ac_returned m; ac_OnActivityChan := ac_OnActivityChan m; ac_done := ac_done m;
            ac_next := S (ac_next m) |}, false)
  end.

(** [ReadPackets] of a listener returns. *)
Definition read_returns (listener : nat) (packet : list Z) (m : Activity) : Activity :=
  match ac_reading m !! listener with
  | Some id =>
      {| ac_peers := ac_peers m; ac_reading := delete listener (ac_reading m);
         ac_returned := ac_returned m ++ [{| av_PeerConnID := id; av_FirstPacket := packet |}];
         ac_OnActivityChan := ac_OnActivityChan m; ac_done := ac_done m; ac_next := ac_next m |}
  | None => m
  end.

Definition delete_peer (id : N) (m : Activity) : Activity :=
  {| ac_peers := delete id (ac_peers m); ac_reading := ac_reading m; ac_returned := ac_returned m;
     ac_OnActivityChan := ac_OnActivityChan m; ac_done := ac_done m; ac_next := ac_next m |}.

(** [listener.Close] makes [ReadPackets] return without a packet and waits for
    it. *)
Definition activity_RemovePeer (peerConnID : N) (m : Activity) : Activity :=
  match ac_peers m !! peerConnID with
  | None => m
  | Some listener => read_returns listener [] (delete_peer peerConnID m)
  end.

Definition notify (ev : Event) (m : Activity) : Activity :=
  if ac_done m then m
  else {| ac_peers := ac_peers m; ac_reading := ac_reading m; ac_returned := ac_returned m;
          ac_OnActivityChan := ac_OnActivityChan m ++ [ev]; ac_done := ac_done m; ac_next := ac_next m |}.

(** [waitForTraffic] after [ReadPackets], for the [i]-th goroutine. *)
Definition waitForTraffic (i : nat) (m : Activity) : Activity :=
  match ac_returned m !! i with
  | None => m
  | Some ev =>
      let m := {| ac_peers := ac_peers m; ac_reading := ac_reading m; ac_returned := delete i (ac_returned m);
                  ac_OnActivityChan := ac_OnActivityChan m; ac_done := ac_done m; ac_next := ac_next m |} in
      match ac_peers m !! av_PeerConnID ev with
      | None => m
      | Some _ => notify ev (delete_peer (av_PeerConnID ev) m)
      end
  end.

(** The address of the endpoint that stands for a sleeping peer in the userspace
    device, [activity/listener_bind.go]: 127.2 and the last two bytes of the
    overlay address. *)
Definition endpoint_of (v : Z) : Addr := AddrV4 (32514 * 65536 + octet v 1 * 256 + octet v 0).

Definition deriveFakeIP (ourNetwork IPv6Net : Prefix) (allowedIPs : list Prefix) : option Addr :=
  match List.find (λ p, Is4 (prefix_Addr p) && prefix_Contains ourNetwork (prefix_Addr p)) allowedIPs with
  | Some p => Some (endpoint_of (addr_val (prefix_Addr p)))
  | None =>
      if prefix_IsValid IPv6Net then
        (λ p, endpoint_of (addr_val (prefix_Addr p))) <$>
          List.find (λ p, Is6 (prefix_Addr p) && prefix_Contains IPv6Net (prefix_Addr p)) allowedIPs
      else None
  end.

Section Lazy.
Context {MO : MapOrder}.

Definition activity_Close (seed : nat) (m : Activity) : Activity :=
  foldl (λ m id, activity_RemovePeer id m)
    {| ac_peers := ac_peers m; ac_reading := ac_reading m; ac_returned := ac_returned m;
       ac_OnActivityChan := ac_OnActivityChan m; ac_done := true; ac_next := ac_next m |}
    (range_list seed (ac_peers m)).*1.

(** ** The manager, [manager/manager.go] *)

Record Manager := {
  lm_managedPeers : gmap string PeerConfig;
  lm_managedPeersByConnID : gmap N managedPeer;
  lm_excludes : gmap string PeerConfig;
  lm_activityManager : Activity;
  lm_inactivityManager : option Inactivity;
  lm_peerToHAGroups : gmap string (list string);
  lm_haGroupToPeers : gmap string (list string);
}.

Definition NewManager (userspaceBind : bool) (inactivityThreshold : option Z) : Manager :=
  {| lm_managedPeers := ∅; lm_managedPeersByConnID := ∅; lm_excludes := ∅; lm_activityManager := activity_New;
     lm_inactivityManager := if userspaceBind then Some (inactivity_New inactivityThreshold) else None;
     lm_peerToHAGroups := ∅; lm_haGroupToPeers := ∅ |}.

Definition with_groups (p g : gmap string (list string)) (m : Manager) : Manager :=
  {| lm_managedPeers := lm_managedPeers m; lm_managedPeersByConnID := lm_managedPeersByConnID m; lm_excludes := lm_excludes m;
     lm_activityManager := lm_activityManager m; lm_inactivityManager := lm_inactivityManager m;
     lm_peerToHAGroups := p; lm_haGroupToPeers := g |}.

Definition with_peers (p : gmap string PeerConfig) (c : gmap N managedPeer) (a : Activity) (i : option Inactivity) (m : Manager) : Manager :=
  {| lm_managedPeers := p; lm_managedPeersByConnID := c; lm_excludes := lm_excludes m;
     lm_activityManager := a; lm_inactivityManager := i;
     lm_peerToHAGroups := lm_peerToHAGroups m; lm_haGroupToPeers := lm_haGroupToPeers m |}.

Definition with_excludes (e : gmap string PeerConfig) (m : Manager) : Manager :=
  {| lm_managedPeers := lm_managedPeers m; lm_managedPeersByConnID := lm_managedPeersByConnID m; lm_excludes := e;
     lm_activityManager := lm_activityManager m; lm_inactivityManager := lm_inactivityManager m;
     lm_peerToHAGroups := lm_peerToHAGroups m; lm_haGroupToPeers := lm_haGroupToPeers m |}.

Definition with_activity (a : Activity) (m : Manager) : Manager :=
  with_peers (lm_managedPeers m) (lm_managedPeersByConnID m) a (lm_inactivityManager m) m.

Definition with_inactivity (i : option Inactivity) (m : Manager) : Manager :=
  with_peers (lm_managedPeers m) (lm_managedPeersByConnID m) (lm_activityManager m) i m.

(** *** Groups *)

(** The peers of the routes of a group, each once; of a route only the peer is
    read. *)
Definition add_distinct (peers : list string) (peer : string) : list string :=
  if bool_decide (peer ∈ peers) then peers else peers ++ [peer].

Definition update_group (s : gmap string (list string) * gmap string (list string)) (entry : string * list string) :
    gmap string (list string) * gmap string (list string) :=
  let '(peerToHAGroups, haGroupToPeers) := s in
  let '(haUniqueID, routes) := entry in
  let peers := foldl add_distinct [] routes in
  if (length peers <=? 1)%nat then s
  else
    (foldl (λ m peerID, <[peerID := default [] (m !! peerID) ++ [haUniqueID]]> m) peerToHAGroups peers,
     <[haUniqueID := peers]> haGroupToPeers).

Definition UpdateRouteHAMap (seed : nat) (haMap : gmap string (list string)) (m : Manager) : Manager :=
  let '(p, g) := foldl update_group (∅, ∅) (range_list seed haMap) in with_groups p g m.

Definition groups_of (m : Manager) (peerID : string) : list string := default [] (lm_peerToHAGroups m !! peerID).
Definition peers_of (m : Manager) (haGroup : string) : list string := default [] (lm_haGroupToPeers m !! haGroup).

(** The peer is managed and its watcher is the given one. *)
Definition expects (w : watcherType) (m : Manager) (peerID : string) : bool :=
  match lm_managedPeers m !! peerID with
  | None => false
  | Some cfg =>
      match lm_managedPeersByConnID m !! pc_PeerConnID cfg with
      | None => false
      | Some mp => bool_decide (mp_expectedWatcher mp = w)
      end
  end.

(** *** Single peers *)

Definition armActivityListener (sys : Sys) (peerCfg : PeerConfig) (m : Manager) : Manager * bool :=
  let '(a, err) := MonitorPeerActivity sys peerCfg (lm_activityManager m) in (with_activity a m, err).

Definition set_watcher (w : watcherType) (mp : managedPeer) : managedPeer :=
  {| mp_peerCfg := mp_peerCfg mp; mp_expectedWatcher := w |}.

Definition expect (w : watcherType) (id : N) (m : Manager) : Manager :=
  with_peers (lm_managedPeers m) (alter (set_watcher w) id (lm_managedPeersByConnID m)) (lm_activityManager m) (lm_inactivityManager m) m.

(** [mp] is the entry of the connection of [cfg]. *)
Definition activateSinglePeer (cfg : PeerConfig) (mp : managedPeer) (m : Manager) : Manager * bool :=
  match mp_expectedWatcher mp with
  | watcherInactivity => (m, false)
  | watcherActivity =>
      let m := expect watcherInactivity (pc_PeerConnID cfg) m in
      let m := with_activity (activity_RemovePeer (pc_PeerConnID cfg) (lm_activityManager m)) m in
      (with_inactivity (inactivity_AddPeer cfg (lm_inactivityManager m)) m, true)
  end.

Definition getPeerForActivation (peerID : string) (m : Manager) : option (PeerConfig * managedPeer) :=
  match lm_managedPeers m !! peerID with
  | None => None
  | Some cfg =>
      match lm_managedPeersByConnID m !! pc_PeerConnID cfg with
      | None => None
      | Some mp => match mp_expectedWatcher mp with watcherInactivity => None | watcherActivity => Some (cfg, mp) end
      end
  end.

Definition addActivePeer (peerCfg : PeerConfig) (m : Manager) : Manager :=
  match lm_managedPeers m !! pc_PublicKey peerCfg with
  | Some _ => m
  | None =>
      with_peers (<[pc_PublicKey peerCfg := peerCfg]> (lm_managedPeers m))
        (<[pc_PeerConnID peerCfg := {| mp_peerCfg := peerCfg; mp_expectedWatcher := watcherInactivity |}]> (lm_managedPeersByConnID m))
        (lm_activityManager m) (inactivity_AddPeer peerCfg (lm_inactivityManager m)) m
  end.

(** A new entry. *)
Definition enter (cfg : PeerConfig) (w : watcherType) (m : Manager) : Manager :=
  with_peers (<[pc_PublicKey cfg := cfg]> (lm_managedPeers m))
    (<[pc_PeerConnID cfg := {| mp_peerCfg := cfg; mp_expectedWatcher := w |}]> (lm_managedPeersByConnID m))
    (lm_activityManager m) (lm_inactivityManager m) m.

Definition removePeer (peerID : string) (m : Manager) : Manager :=
  match lm_managedPeers m !! peerID with
  | None => m
  | Some cfg =>
      with_peers (delete peerID (lm_managedPeers m)) (delete (pc_PeerConnID cfg) (lm_managedPeersByConnID m))
        (activity_RemovePeer (pc_PeerConnID cfg) (lm_activityManager m))
        (inactivity_RemovePeer (pc_PublicKey cfg) (lm_inactivityManager m)) m
  end.

(** *** Activation of groups *)

Definition peersToActivate (m : Manager) (peerID : string) : list string :=
  flat_map (λ haGroup, filter (λ p, p ≠ peerID) (peers_of m haGroup)) (groups_of m peerID).

Definition activate_one (sys : Sys) (s : Manager * Peers) (peerID : string) : Manager * Peers :=
  let '(m, p) := s in
  match getPeerForActivation peerID m with
  | None => s
  | Some (cfg, mp) =>
      let '(m, activated) := activateSinglePeer cfg mp m in
      (m, if activated : bool then PeerConnOpen sys (pc_PublicKey cfg) p else p)
  end.

Definition activateHAGroupPeers (sys : Sys) (triggered : PeerConfig) (m : Manager) (p : Peers) : Manager * Peers :=
  foldl (activate_one sys) (m, p) (peersToActivate m (pc_PublicKey triggered)).

Definition shouldActivateNewPeer (m : Manager) (peerID : string) : bool :=
  existsb (λ haGroup, existsb (λ groupPeerID, negb (String.eqb groupPeerID peerID) && expects watcherInactivity m groupPeerID)
                        (peers_of m haGroup)) (groups_of m peerID).

Definition activateNewPeerInActiveGroup (sys : Sys) (peerCfg : PeerConfig) (m : Manager) (p : Peers) : Manager * Peers :=
  match lm_managedPeersByConnID m !! pc_PeerConnID peerCfg with
  | None => (m, p)
  | Some mp =>
      let '(m, activated) := activateSinglePeer peerCfg mp m in
      (m, if activated : bool then PeerConnOpen sys (pc_PublicKey peerCfg) p else p)
  end.

(** *** Requests *)

(** Whether the peer is excluded, and whether there was an error. *)
Definition AddPeer (sys : Sys) (peerCfg : PeerConfig) (m : Manager) (p : Peers) : Manager * Peers * bool * bool :=
  match lm_excludes m !! pc_PublicKey peerCfg with
  | Some _ => (m, p, true, false)
  | None =>
      match lm_managedPeers m !! pc_PublicKey peerCfg with
      | Some _ => (m, p, false, false)
      | None =>
          let '(m, err) := armActivityListener sys peerCfg m in
          if err : bool then (m, p, false, true)
          else
            let m := enter peerCfg watcherActivity m in
            if shouldActivateNewPeer m (pc_PublicKey peerCfg) then
              let '(m, p) := activateNewPeerInActiveGroup sys peerCfg m p in (m, p, false, false)
            else (m, p, false, false)
      end
  end.

Definition AddActivePeers (peerCfgs : list PeerConfig) (m : Manager) : Manager :=
  foldl (λ m cfg, addActivePeer cfg m) m peerCfgs.

Definition exclude_one (old : gmap string PeerConfig) (s : Manager * list string) (pubKey : string) : Manager * list string :=
  let '(m, added) := s in
  match old !! pubKey with Some _ => s | None => (removePeer pubKey m, added ++ [pubKey]) end.

Definition readmit_one (new : gmap string PeerConfig) (m : Manager) (entry : string * PeerConfig) : Manager :=
  match new !! entry.1 with Some _ => m | None => addActivePeer entry.2 m end.

(** The keys that were not excluded before. *)
Definition ExcludePeer (seed seed' : nat) (peerConfigs : list PeerConfig) (m : Manager) : Manager * list string :=
  let excludes := foldl (λ e cfg, <[pc_PublicKey cfg := cfg]> e) ∅ peerConfigs in
  let old := lm_excludes m in
  let '(m, added) := foldl (exclude_one old) (m, []) (range_list seed excludes).*1 in
  let m := foldl (readmit_one excludes) m (range_list seed' old) in
  (with_excludes excludes m, added).

Definition ActivatePeer (sys : Sys) (peerID : string) (m : Manager) (p : Peers) : Manager * Peers * bool :=
  match getPeerForActivation peerID m with
  | None => (m, p, false)
  | Some (cfg, mp) =>
      let '(m, activated) := activateSinglePeer cfg mp m in
      if activated : bool then let '(m, p) := activateHAGroupPeers sys cfg m p in (m, p, true)
      else (m, p, false)
  end.

(** The peer is put to sleep: its watcher is exchanged and its listener armed.
    An error of the listener is only logged. *)
Definition put_to_sleep (sys : Sys) (mp : managedPeer) (m : Manager) : Manager :=
  let cfg := mp_peerCfg mp in
  let m := expect watcherActivity (pc_PeerConnID cfg) m in
  let m := with_inactivity (inactivity_RemovePeer (pc_PublicKey cfg) (lm_inactivityManager m)) m in
  (armActivityListener sys cfg m).1.

Definition DeactivatePeer (sys : Sys) (peerID : N) (m : Manager) (p : Peers) : Manager * Peers :=
  match lm_managedPeersByConnID m !! peerID with
  | None => (m, p)
  | Some mp =>
      match mp_expectedWatcher mp with
      | watcherActivity => (m, p)
      | watcherInactivity => (put_to_sleep sys mp m, PeerConnClose (pc_PublicKey (mp_peerCfg mp)) p)
      end
  end.

(** *** Events *)

Definition onPeerActivity (sys : Sys) (ev : Event) (m : Manager) (p : Peers) : Manager * Peers :=
  match lm_managedPeersByConnID m !! av_PeerConnID ev with
  | None => (m, p)
  | Some mp =>
      match mp_expectedWatcher mp with
      | watcherInactivity => (m, p)
      | watcherActivity =>
          let '(m, activated) := activateSinglePeer (mp_peerCfg mp) mp m in
          if negb activated then (m, p)
          else
            let '(m, p) := activateHAGroupPeers sys (mp_peerCfg mp) m p in
            (m, PeerConnOpenWithFirstPacket sys (pc_PublicKey (mp_peerCfg mp)) (av_FirstPacket ev) p)
      end
  end.

Definition checkHaGroupActivity (m : Manager) (haGroup peerID : string) (inactivePeers : gset string) : bool :=
  existsb (λ groupPeerID, negb (String.eqb groupPeerID peerID) && expects watcherInactivity m groupPeerID &&
                          negb (bool_decide (groupPeerID ∈ inactivePeers))) (peers_of m haGroup).

Definition shouldDeferIdleForHA (m : Manager) (inactivePeers : gset string) (peerID : string) : bool :=
  existsb (λ haGroup, checkHaGroupActivity m haGroup peerID inactivePeers) (groups_of m peerID).

Definition time_out_one (sys : Sys) (peerIDs : gset string) (s : Manager * Peers) (peerID : string) : Manager * Peers :=
  let '(m, p) := s in
  match lm_managedPeers m !! peerID with
  | None => s
  | Some peerCfg =>
      match lm_managedPeersByConnID m !! pc_PeerConnID peerCfg with
      | None => s
      | Some mp =>
          match mp_expectedWatcher mp with
          | watcherActivity => s
          | watcherInactivity =>
              if shouldDeferIdleForHA m peerIDs (pc_PublicKey (mp_peerCfg mp)) then s
              else (put_to_sleep sys mp m, PeerConnIdle (pc_PublicKey (mp_peerCfg mp)) p)
          end
      end
  end.

Definition onPeerInactivityTimedOut (sys : Sys) (seed : nat) (peerIDs : gset string) (m : Manager) (p : Peers) : Manager * Peers :=
  foldl (time_out_one sys peerIDs) (m, p) (range_set seed peerIDs).

Definition lazy_close (seed : nat) (m : Manager) : Manager :=
  with_groups ∅ ∅ (with_peers ∅ ∅ (activity_Close seed (lm_activityManager m)) (lm_inactivityManager m) m).
End Lazy.
