(* ===== verification/ConnMgr.v ===== *)
(** * Connections on demand: the connection manager

    [client/internal/conn_mgr.go] and the part of [client/internal/engine.go]
    that brings the connections in line with the peers of a network map.  The
    version library is a parameter. *)
From S2P Require Import Prelude GoStrings NetIP NetParse FwGen LazyConn.
Open Scope Z_scope.

Inductive lazyForce := lazyForceNone | lazyForceOn | lazyForceOff.
Inductive State := StateUnset | StateOn | StateOff.
Inductive LazyState := LazyStateDefault | LazyStateLazy | LazyStateEager.

#[global] Instance State_eq_dec : EqDecision State.
Proof. solve_decision. Defined.

(** [appliedExcludeList] has only true entries, and nil is the empty map. *)
Record ConnMgr := {
  cm_force : lazyForce;
  cm_remoteLazyEnabled : bool;
  cm_lazyConnMgr : option Manager;
  cm_appliedExcludeList : gset string;
}.

(** The environment, then the policy of the device. *)
Definition resolveLazyForce (env mdmState : State) : lazyForce :=
  match (if decide (env = StateUnset) then mdmState else env) with
  | StateOn => lazyForceOn
  | StateOff => lazyForceOff
  | StateUnset => lazyForceNone
  end.

Definition NewConnMgr (env mdmState : State) : ConnMgr :=
  {| cm_force := resolveLazyForce env mdmState; cm_remoteLazyEnabled := false; cm_lazyConnMgr := None; cm_appliedExcludeList := ∅ |}.

Definition with_lazy (m : Manager) (e : ConnMgr) : ConnMgr :=
  {| cm_force := cm_force e; cm_remoteLazyEnabled := cm_remoteLazyEnabled e; cm_lazyConnMgr := Some m;
     cm_appliedExcludeList := cm_appliedExcludeList e |}.

(** [Start] with [initLazyManager]. *)
Definition Start (userspaceBind : bool) (inactivityThreshold : option Z) (e : ConnMgr) : ConnMgr :=
  match cm_lazyConnMgr e with
  | Some _ => e
  | None => {| cm_force := cm_force e; cm_remoteLazyEnabled := cm_remoteLazyEnabled e;
               cm_lazyConnMgr := Some (NewManager userspaceBind inactivityThreshold); cm_appliedExcludeList := ∅ |}
  end.

Definition UpdatedRemoteFeatureFlag (enabled : bool) (e : ConnMgr) : ConnMgr :=
  {| cm_force := cm_force e; cm_remoteLazyEnabled := enabled; cm_lazyConnMgr := cm_lazyConnMgr e;
     cm_appliedExcludeList := cm_appliedExcludeList e |}.

Definition PeerLazyDefault (e : ConnMgr) (state : LazyState) : bool :=
  match cm_force e with
  | lazyForceOn => true
  | lazyForceOff => false
  | lazyForceNone =>
      match state with
      | LazyStateLazy => true
      | LazyStateEager => false
      | LazyStateDefault => cm_remoteLazyEnabled e
      end
  end.

(** The threshold of the environment; the duration parser is a parameter. *)
Definition inactivityThresholdEnv (ParseDuration : string → option Z) (envValue : string) : option Z :=
  if String.eqb envValue "" then None
  else
    match ParseDuration envValue with
    | Some d => if d <=? 0 then None else Some d
    | None =>
        match Atoi envValue with
        | Some parsedMinutes => if 0 <? parsedMinutes then Some ((parsedMinutes * (60 * 10 ^ 9) + 2 ^ 63) mod 2 ^ 64 - 2 ^ 63) else None
        | None => None
        end
    end.

(** ** The world

    The connection manager, the connections, and the calls of [ActivatePeer]
    that have still to open their connection. *)
Record World := { w_mgr : ConnMgr; w_peers : Peers; w_opening : list N }.

Definition no_peers : Peers := {| ps_conns := ∅; ps_next := 0; ps_store := ∅; ps_idle := [] |}.

Definition with_mgr (e : ConnMgr) (w : World) : World := {| w_mgr := e; w_peers := w_peers w; w_opening := w_opening w |}.

Definition with_conn (p : Peers) (w : World) : World := {| w_mgr := w_mgr w; w_peers := p; w_opening := w_opening w |}.

Definition with_lazy_peers (m : Manager) (p : Peers) (w : World) : World :=
  {| w_mgr := with_lazy m (w_mgr w); w_peers := p; w_opening := w_opening w |}.

Definition lazy_of (w : World) : option Manager := cm_lazyConnMgr (w_mgr w).

Section Manager.
Context {MO : MapOrder} (GreaterOrEqual : string → string → option bool).

(** [lazyconn.IsSupported]; [GreaterOrEqual] parses the version and compares it. *)
Definition normalizeVersion (version : string) : string :=
  let version := match version with
                 | String c rest => if Ascii.eqb c "v" || Ascii.eqb c "a" then rest else version
                 | EmptyString => version
                 end in
  (split_first "-"%char version).1.

Definition minVersion : string := "0.45.0".

Definition IsSupported (agentVersion : string) : bool :=
  if IsDevelopmentVersion agentVersion then true
  else if negb (strings_Contains agentVersion ".") then false
  else default false (GreaterOrEqual (normalizeVersion agentVersion) minVersion).

Definition config_of_conn (peerKey : string) (id : N) (c : Conn) : PeerConfig :=
  {| pc_PublicKey := peerKey; pc_AllowedIPs := cn_AllowedIps c; pc_PeerConnID := id |}.

Definition mgr_UpdateRouteHAMap (seed : nat) (haMap : gmap string (list string)) (w : World) : World :=
  match lazy_of w with
  | None => w
  | Some m => with_lazy_peers (UpdateRouteHAMap seed haMap m) (w_peers w) w
  end.

(** The configurations of the keys that have a connection. *)
Definition excludedPeers (p : Peers) (keys : list string) : list PeerConfig :=
  omap (λ peerID, id ← ps_store p !! peerID; c ← ps_conns p !! id; Some (config_of_conn peerID id c)) keys.

Definition SetExcludeList (sys : Sys) (seed seed' seed'' : nat) (peerIDs : gset string) (w : World) : World :=
  match lazy_of w with
  | None => w
  | Some m =>
      if decide (peerIDs = cm_appliedExcludeList (w_mgr w)) then w
      else
        let '(m, added) := ExcludePeer seed' seed'' (excludedPeers (w_peers w) (range_set seed peerIDs)) m in
        let p := foldl (λ p peerID, PeerConnOpen sys peerID p) (w_peers w) added in
        {| w_mgr := {| cm_force := cm_force (w_mgr w); cm_remoteLazyEnabled := cm_remoteLazyEnabled (w_mgr w);
                       cm_lazyConnMgr := Some m; cm_appliedExcludeList := peerIDs |};
           w_peers := p; w_opening := w_opening w |}
  end.

(** A connection object, before it is stored. *)
Definition NewConn (peerKey : string) (allowedIPs : list Prefix) (agentVersion : string) (p : Peers) : N * Peers :=
  (ps_next p,
   {| ps_conns := <[ps_next p := {| cn_Key := peerKey; cn_AllowedIps := allowedIPs; cn_AgentVersion := agentVersion;
                                    cn_opened := false; cn_pendingFirstPacket := [] |}]> (ps_conns p);
      ps_next := ps_next p + 1; ps_store := ps_store p; ps_idle := ps_idle p |}).

Definition store_AddPeerConn (pubKey : string) (id : N) (p : Peers) : option Peers :=
  match ps_store p !! pubKey with
  | Some _ => None
  | None => Some {| ps_conns := ps_conns p; ps_next := ps_next p; ps_store := <[pubKey := id]> (ps_store p); ps_idle := ps_idle p |}
  end.

(** The second result says that there is a connection already. *)
Definition AddPeerConn (sys : Sys) (peerKey : string) (id : N) (permanent : bool) (w : World) : World * bool :=
  match store_AddPeerConn peerKey id (w_peers w) with
  | None => (w, true)
  | Some p =>
      let opened p := with_conn (open_at sys [] id p) w in
      match lazy_of w, ps_conns p !! id with
      | Some m, Some c =>
          if permanent then (opened p, false)
          else if negb (IsSupported (cn_AgentVersion c)) then (opened p, false)
          else
            let '(m, p, excluded, err) := LazyConn.AddPeer sys (config_of_conn peerKey id c) m p in
            if err || excluded : bool then (with_lazy_peers m (open_at sys [] id p) w, false)
            else (with_lazy_peers m p w, false)
      | _, _ => (opened p, false)
      end
  end.

Definition store_Remove (pubKey : string) (p : Peers) : Peers :=
  {| ps_conns := ps_conns p; ps_next := ps_next p; ps_store := delete pubKey (ps_store p); ps_idle := ps_idle p |}.

Definition RemovePeerConn (peerKey : string) (w : World) : World :=
  match ps_store (w_peers w) !! peerKey with
  | None => w
  | Some id =>
      let p := close_at false id (store_Remove peerKey (w_peers w)) in
      match lazy_of w with
      | None => with_conn p w
      | Some m => with_lazy_peers (LazyConn.removePeer peerKey m) p w
      end
  end.

(** [ActivatePeer] up to the call of [Open], which is the next step. *)
Definition mgr_ActivatePeer (sys : Sys) (id : N) (w : World) : World :=
  match lazy_of w, ps_conns (w_peers w) !! id with
  | Some m, Some c =>
      let '(m, p, found) := LazyConn.ActivatePeer sys (cn_Key c) m (w_peers w) in
      {| w_mgr := with_lazy m (w_mgr w); w_peers := p; w_opening := if found : bool then w_opening w ++ [id] else w_opening w |}
  | _, _ => w
  end.

Definition finish_activation (sys : Sys) (i : nat) (w : World) : World :=
  match w_opening w !! i with
  | None => w
  | Some id => {| w_mgr := w_mgr w; w_peers := open_at sys [] id (w_peers w); w_opening := delete i (w_opening w) |}
  end.

Definition mgr_DeactivatePeer (sys : Sys) (id : N) (w : World) : World :=
  match lazy_of w with
  | None => w
  | Some m => let '(m, p) := LazyConn.DeactivatePeer sys id m (w_peers w) in with_lazy_peers m p w
  end.

(** The lazy manager ends with [lazy_close] and is forgotten. *)
Definition mgr_Close (w : World) : World :=
  match lazy_of w with
  | None => w
  | Some _ =>
      with_mgr {| cm_force := cm_force (w_mgr w); cm_remoteLazyEnabled := cm_remoteLazyEnabled (w_mgr w);
                  cm_lazyConnMgr := None; cm_appliedExcludeList := ∅ |} w
  end.

(** ** Peers of a network map *)

Record RemotePeerConfig := {
  rp_WgPubKey : string; rp_AllowedIps : list string; rp_AgentVersion : string; rp_LazyState : LazyState;
}.

Context (HasIPv6 : bool).

(** The usable prefixes of a peer; [None] when one cannot be parsed. *)
Fixpoint usable_prefixes (ips : list string) : option (list Prefix) :=
  match ips with
  | [] => Some []
  | s :: ips =>
      match ParsePrefix s with
      | None => None
      | Some p => if Is6 (prefix_Addr p) && negb HasIPv6 then usable_prefixes ips else cons p <$> usable_prefixes ips
      end
  end.

Definition filterAllowedIPs (ips : list string) : list string :=
  if HasIPv6 then ips
  else filter (λ s, match ParsePrefix s with Some p => negb (Is6 (prefix_Addr p)) | None => true end = true) ips.

(** The texts of the first list are counted, those of the second counted
    down. *)
Definition count_up (freq : gmap string nat) (p : Prefix) : gmap string nat :=
  <[prefix_String p := S (default O (freq !! prefix_String p))]> freq.

Fixpoint count_down (list2 : list string) (freq : gmap string nat) : option (gmap string nat) :=
  match list2 with
  | [] => Some freq
  | s :: list2 =>
      match ParsePrefix s with
      | None => None
      | Some p =>
          match default O (freq !! prefix_String p) with
          | O => None
          | S n => count_down list2 (<[prefix_String p := n]> freq)
          end
      end
  end.

Definition compareNetIPLists (list1 : list Prefix) (list2 : list string) : bool :=
  if negb (length list1 =? length list2)%nat then false
  else
    match count_down list2 (foldl count_up ∅ list1) with
    | None => false
    | Some freq => bool_decide (map_Forall (λ _ count, count = O) freq)
    end.

(** Each returns the world and whether there was an error. *)
Definition addNewPeer (sys : Sys) (peerConfig : RemotePeerConfig) (w : World) : World * bool :=
  let peerKey := rp_WgPubKey peerConfig in
  match ps_store (w_peers w) !! peerKey with
  | Some _ => (w, false)
  | None =>
      match usable_prefixes (rp_AllowedIps peerConfig) with
      | None => (w, true)
      | Some [] => (w, true)
      | Some peerIPs =>
          if negb (sys_create sys peerKey) then (w, true)
          else
            let '(id, p) := NewConn peerKey peerIPs (rp_AgentVersion peerConfig) (w_peers w) in
            let permanent := negb (PeerLazyDefault (w_mgr w) (rp_LazyState peerConfig)) in
            AddPeerConn sys peerKey id permanent (with_conn p w)
      end
  end.

Fixpoint addNewPeers (sys : Sys) (peersUpdate : list RemotePeerConfig) (w : World) : World * bool :=
  match peersUpdate with
  | [] => (w, false)
  | p :: peersUpdate => let '(w, err) := addNewPeer sys p w in if err : bool then (w, true) else addNewPeers sys peersUpdate w
  end.

Definition removeAll (keys : list string) (w : World) : World := foldl (λ w key, RemovePeerConn key w) w keys.

(** [removePeers], and [removeAllPeers] with no peers in the update. *)
Definition removePeers (seed : nat) (peersUpdate : list RemotePeerConfig) (w : World) : World :=
  removeAll (filter (λ key, key ∉ rp_WgPubKey <$> peersUpdate) (range_list seed (ps_store (w_peers w))).*1) w.

(** A stored peer whose agent or addresses changed. *)
Definition is_modified (p : Peers) (r : RemotePeerConfig) : bool :=
  match ps_store p !! rp_WgPubKey r ≫= λ id, ps_conns p !! id with
  | None => false
  | Some c => negb (String.eqb (cn_AgentVersion c) (rp_AgentVersion r)) ||
              negb (compareNetIPLists (cn_AllowedIps c) (filterAllowedIPs (rp_AllowedIps r)))
  end.

Definition modifyPeers (sys : Sys) (peersUpdate : list RemotePeerConfig) (w : World) : World * bool :=
  let modified := filter (λ r, is_modified (w_peers w) r = true) peersUpdate in
  addNewPeers sys modified (removeAll (rp_WgPubKey <$> modified) w).

Definition toExcludedLazyPeers (e : ConnMgr) (peers : list RemotePeerConfig) : gset string :=
  list_to_set (rp_WgPubKey <$> filter (λ r, PeerLazyDefault e (rp_LazyState r) = false) peers).

(** [reconcilePeers] and the exclude list; [remotePeers] is without the peer
    itself. *)
Definition reconcilePeers (sys : Sys) (seed : nat) (isEmpty : bool) (remotePeers : list RemotePeerConfig) (w : World) : World * bool :=
  if isEmpty then (removePeers seed [] w, false)
  else
    let w := removePeers seed remotePeers w in
    let '(w, err) := modifyPeers sys remotePeers w in
    if err : bool then (w, true) else addNewPeers sys remotePeers w.

Definition sync (sys : Sys) (seeds : nat * nat * nat * nat) (isEmpty : bool) (remotePeers : list RemotePeerConfig) (w : World) : World * bool :=
  let '(s0, s1, s2, s3) := seeds in
  let '(w, err) := reconcilePeers sys s0 isEmpty remotePeers w in
  if err : bool then (w, true)
  else (SetExcludeList sys s1 s2 s3 (toExcludedLazyPeers (w_mgr w) remotePeers) w, false).

(** ** Runs

    The engine (one goroutine at a time), the DNS path, the listeners, the
    tickers and the loop of the lazy manager, in any order. *)
Inductive op :=
| WSync (seeds : nat * nat * nat * nat) (isEmpty : bool) (remotePeers : list RemotePeerConfig)
| WAdd (peerConfig : RemotePeerConfig)
| WRemove (peerKey : string)
| WExclude (seeds : nat * nat * nat) (peerIDs : gset string)
| WFlag (enabled : bool)
| WRoutes (seed : nat) (haMap : gmap string (list string))
| WSignal (peerKey : string)
| WWarmUp (id : N)
| WOpen (i : nat)
| WGoIdle (peerKey : string)
| WTraffic (listener : nat) (packet : list Z)
| WWaiter (i : nat)
| WActivity (i : nat)
| WTick (lastActivities : gmap string Z) (now : Z)
| WInactive (seed : nat)
| WClose.

(** The loop of [Start] takes the [i]-th event that was notified. *)
Definition take_event (i : nat) (a : Activity) : Activity :=
  {| ac_peers := ac_peers a; ac_reading := ac_reading a; ac_returned := ac_returned a;
     ac_OnActivityChan := delete i (ac_OnActivityChan a); ac_done := ac_done a; ac_next := ac_next a |}.

Definition receive_activity (sys : Sys) (i : nat) (m : Manager) (p : Peers) : Manager * Peers :=
  match ac_OnActivityChan (lm_activityManager m) !! i with
  | None => (m, p)
  | Some ev => onPeerActivity sys ev (with_activity (take_event i (lm_activityManager m)) m) p
  end.

Definition receive_inactivity (sys : Sys) (seed : nat) (m : Manager) (p : Peers) : Manager * Peers :=
  match lm_inactivityManager m with
  | Some n =>
      match in_chan n with
      | None => (m, p)
      | Some peerIDs =>
          let n := {| in_interestedPeers := in_interestedPeers n; in_inactivityThreshold := in_inactivityThreshold n; in_chan := None |} in
          onPeerInactivityTimedOut sys seed peerIDs (with_inactivity (Some n) m) p
      end
  | None => (m, p)
  end.

Definition on_lazy (f : Manager → Peers → Manager * Peers) (w : World) : World :=
  match lazy_of w with
  | None => w
  | Some m => let '(m, p) := f m (w_peers w) in with_lazy_peers m p w
  end.

Definition step (w : World) (o : Sys * op) : World :=
  let '(sys, o) := o in
  match o with
  | WSync seeds isEmpty remotePeers => (sync sys seeds isEmpty remotePeers w).1
  | WAdd peerConfig => (addNewPeer sys peerConfig w).1
  | WRemove peerKey => RemovePeerConn peerKey w
  | WExclude (s1, s2, s3) peerIDs => SetExcludeList sys s1 s2 s3 peerIDs w
  | WFlag enabled => with_mgr (UpdatedRemoteFeatureFlag enabled (w_mgr w)) w
  | WRoutes seed haMap => mgr_UpdateRouteHAMap seed haMap w
  | WSignal peerKey => match ps_store (w_peers w) !! peerKey with Some id => mgr_ActivatePeer sys id w | None => w end
  | WWarmUp id => mgr_ActivatePeer sys id w
  | WOpen i => finish_activation sys i w
  | WGoIdle peerKey => match ps_store (w_peers w) !! peerKey with Some id => mgr_DeactivatePeer sys id w | None => w end
  | WTraffic listener packet => on_lazy (λ m p, (with_activity (read_returns listener packet (lm_activityManager m)) m, p)) w
  | WWaiter i => on_lazy (λ m p, (with_activity (waitForTraffic i (lm_activityManager m)) m, p)) w
  | WActivity i => on_lazy (receive_activity sys i) w
  | WTick lastActivities now =>
      on_lazy (λ m p, (with_inactivity (inactivity_tick lastActivities now <$> lm_inactivityManager m) m, p)) w
  | WInactive seed => on_lazy (receive_inactivity sys seed) w
  | WClose => mgr_Close w
  end.

Definition started (env mdmState : State) (userspaceBind : bool) (inactivityThreshold : option Z) : World :=
  {| w_mgr := Start userspaceBind inactivityThreshold (NewConnMgr env mdmState); w_peers := no_peers; w_opening := [] |}.

Definition run (w : World) (ops : list (Sys * op)) : World := foldl step w ops.
End Manager.
