(* ===== verification/LazyFacts.v ===== *)
(** * Connections on demand: theorems

    The invariant of the lazy manager along every interleaving of the engine,
    the DNS path, the listeners, the tickers and its own loop; who is woken and
    who is put to sleep. *)
From S2P Require Import Prelude GoStrings NetIP NetParse FwGen LazyConn ConnMgr.
Open Scope Z_scope.

Lemma elem_of_delete {A} (l : list A) i x y : l !! i = Some y → x ∈ l → x = y ∨ x ∈ delete i l.
Proof.
  intros Hi [j Hj]%list_elem_of_lookup. destruct (decide (j = i)) as [->|Hn]; [left; congruence|right].
  rewrite delete_take_drop. apply elem_of_app. destruct (decide (j < i)%nat) as [Hl|Hl].
  - left. apply list_elem_of_lookup. exists j. by rewrite lookup_take, decide_True.
  - right. apply list_elem_of_lookup. exists (j - S i)%nat. rewrite lookup_drop. by replace (S i + (j - S i))%nat with j by lia.
Qed.

(** ** The listeners *)

(** A listener of the connection is armed, or its event was notified. *)
Definition heard (a : Activity) (id : N) : Prop :=
  is_Some (ac_peers a !! id) ∨ id ∈ av_PeerConnID <$> ac_OnActivityChan a.

Lemma read_returns_same l packet a :
  ac_peers (read_returns l packet a) = ac_peers a ∧ ac_OnActivityChan (read_returns l packet a) = ac_OnActivityChan a ∧
  ac_done (read_returns l packet a) = ac_done a.
Proof. unfold read_returns. by destruct (ac_reading a !! l). Qed.

Lemma activity_RemovePeer_spec id a :
  ac_peers (activity_RemovePeer id a) = delete id (ac_peers a) ∧
  ac_OnActivityChan (activity_RemovePeer id a) = ac_OnActivityChan a ∧ ac_done (activity_RemovePeer id a) = ac_done a.
Proof.
  unfold activity_RemovePeer. destruct (ac_peers a !! id) as [l|] eqn:E.
  - destruct (read_returns_same l [] (delete_peer id a)) as (-> & -> & ->). done.
  - by rewrite delete_id.
Qed.

Lemma MonitorPeerActivity_spec sys cfg a :
  let '(a', err) := MonitorPeerActivity sys cfg a in
  ac_OnActivityChan a' = ac_OnActivityChan a ∧ ac_done a' = ac_done a ∧
  (∀ id, id ≠ pc_PeerConnID cfg → ac_peers a' !! id = ac_peers a !! id) ∧
  (err = false → is_Some (ac_peers a' !! pc_PeerConnID cfg)) ∧
  (err = true → a' = a ∧ ac_peers a !! pc_PeerConnID cfg = None ∧ sys_arm sys (pc_PublicKey cfg) = false).
Proof.
  unfold MonitorPeerActivity. destruct (ac_peers a !! pc_PeerConnID cfg) eqn:E; [done|].
  destruct (sys_arm sys (pc_PublicKey cfg)) eqn:Ea; [|done]. cbn. split_and!; try done.
  - intros id Hi. by rewrite lookup_insert_ne.
  - intros _. by rewrite lookup_insert_eq.
Qed.

Lemma heard_remove a id id' : id ≠ id' → heard a id → heard (activity_RemovePeer id' a) id.
Proof.
  intros Hn [H|H]; unfold heard; destruct (activity_RemovePeer_spec id' a) as (-> & -> & _); [left|by right].
  by rewrite lookup_delete_ne.
Qed.

Lemma heard_monitor sys cfg a id : heard a id → heard (MonitorPeerActivity sys cfg a).1 id.
Proof.
  pose proof (MonitorPeerActivity_spec sys cfg a) as H. destruct (MonitorPeerActivity sys cfg a) as [a' err]. cbn.
  destruct H as (E1 & _ & E2 & E3 & E4). unfold heard. rewrite E1. intros [Hi|Hi]; [|by right]. left.
  destruct (decide (id = pc_PeerConnID cfg)) as [->|Hn]; [|by rewrite E2]. destruct err; [|by apply E3].
  destruct E4 as (-> & _ & _); done.
Qed.

Lemma waiter_spec i a :
  ac_done a = false →
  (∀ id, heard a id → heard (waitForTraffic i a) id) ∧ ac_done (waitForTraffic i a) = false ∧
  ∀ id l, ac_peers (waitForTraffic i a) !! id = Some l → ac_peers a !! id = Some l.
Proof.
  intros Hd. unfold waitForTraffic. destruct (ac_returned a !! i) as [ev|]; [|done]. cbn.
  destruct (ac_peers a !! av_PeerConnID ev) eqn:E; [|done]. unfold notify. cbn. rewrite Hd. cbn. split_and!; [|done|].
  - unfold heard. cbn. intros id [H|H].
    + destruct (decide (id = av_PeerConnID ev)) as [->|Hn]; [right|left; by rewrite lookup_delete_ne].
      rewrite fmap_app. apply elem_of_app. right. by apply list_elem_of_singleton.
    + right. rewrite fmap_app. apply elem_of_app. by left.
  - intros id l. rewrite lookup_delete_Some. by intros [].
Qed.

(** ** What the manager holds of a peer *)

Definition view (m : Manager) (k : string) : option (PeerConfig * watcherType) :=
  cfg ← lm_managedPeers m !! k; mp ← lm_managedPeersByConnID m !! pc_PeerConnID cfg; Some (cfg, mp_expectedWatcher mp).

Lemma expects_view w m k : expects w m k = true ↔ ∃ cfg, view m k = Some (cfg, w).
Proof.
  unfold expects, view. destruct (lm_managedPeers m !! k) as [cfg|]; cbn; [|split; [done|by intros []]].
  destruct (lm_managedPeersByConnID m !! pc_PeerConnID cfg) as [mp|]; cbn; [|split; [done|by intros []]].
  rewrite bool_decide_eq_true. split; [intros <-; eauto|]. by intros (c & [= _ ?]).
Qed.

Lemma getPeerForActivation_view m k :
  match getPeerForActivation k m with
  | Some (cfg, mp) => view m k = Some (cfg, watcherActivity) ∧ mp_expectedWatcher mp = watcherActivity
  | None => ∀ cfg, view m k ≠ Some (cfg, watcherActivity)
  end.
Proof.
  unfold getPeerForActivation, view. destruct (lm_managedPeers m !! k) as [cfg|]; [|done]. cbn.
  destruct (lm_managedPeersByConnID m !! pc_PeerConnID cfg) as [mp|]; [|done]. cbn.
  destruct (mp_expectedWatcher mp) eqn:E; [done|]. by intros c [=].
Qed.

(** Both maps hold the same configurations. *)
Record linked (managed : gmap string PeerConfig) (byID : gmap N managedPeer) : Prop := {
  lk_managed : ∀ k cfg, managed !! k = Some cfg →
    pc_PublicKey cfg = k ∧ ∃ w, byID !! pc_PeerConnID cfg = Some {| mp_peerCfg := cfg; mp_expectedWatcher := w |};
  lk_byID : ∀ id mp, byID !! id = Some mp →
    pc_PeerConnID (mp_peerCfg mp) = id ∧ managed !! pc_PublicKey (mp_peerCfg mp) = Some (mp_peerCfg mp);
}.

Definition linked_mgr (m : Manager) : Prop := linked (lm_managedPeers m) (lm_managedPeersByConnID m).

Lemma linked_alter managed byID w id : linked managed byID → linked managed (alter (set_watcher w) id byID).
Proof.
  intros [H1 H2]. split.
  - intros k cfg Hk. destruct (H1 k cfg Hk) as (E & w' & Hw). split; [done|].
    destruct (decide (pc_PeerConnID cfg = id)) as [<-|Hn].
    + exists w. by rewrite lookup_alter_eq, Hw.
    + exists w'. by rewrite lookup_alter_ne.
  - intros id' mp Hm. destruct (decide (id' = id)) as [->|Hn].
    + rewrite lookup_alter_eq in Hm. apply fmap_Some in Hm as (mp' & Hm & ->). exact (H2 id mp' Hm).
    + rewrite lookup_alter_ne in Hm by done. by apply H2.
Qed.

Lemma linked_inj managed byID k k' cfg cfg' : linked managed byID → managed !! k = Some cfg → managed !! k' = Some cfg' →
  pc_PeerConnID cfg = pc_PeerConnID cfg' → k = k'.
Proof.
  intros [H1 H2] Hk Hk' E. destruct (H1 _ _ Hk) as (E1 & w & Hw), (H1 _ _ Hk') as (E2 & w' & Hw'). congruence.
Qed.

Lemma linked_delete managed byID k cfg : linked managed byID → managed !! k = Some cfg →
  linked (delete k managed) (delete (pc_PeerConnID cfg) byID).
Proof.
  intros HL Hk. pose proof HL as [H1 H2]. split.
  - intros k' cfg' [Hn Hk']%lookup_delete_Some. destruct (H1 _ _ Hk') as (E & w & Hw). split; [done|]. exists w.
    rewrite lookup_delete_ne; [done|]. intros E'. apply Hn. by eapply linked_inj.
  - intros id mp [Hn Hm]%lookup_delete_Some. destruct (H2 _ _ Hm) as (E & Hk'). split; [done|].
    rewrite lookup_delete_ne; [done|]. intros E'. congruence.
Qed.

Lemma linked_insert managed byID cfg w : linked managed byID → managed !! pc_PublicKey cfg = None → byID !! pc_PeerConnID cfg = None →
  linked (<[pc_PublicKey cfg := cfg]> managed) (<[pc_PeerConnID cfg := {| mp_peerCfg := cfg; mp_expectedWatcher := w |}]> byID).
Proof.
  intros [H1 H2] Hk Hi. split.
  - intros k cfg' [[<- <-]|[Hn Hk']]%lookup_insert_Some.
    + split; [done|]. exists w. by rewrite lookup_insert_eq.
    + destruct (H1 _ _ Hk') as (E & w' & Hw). split; [done|]. exists w'. rewrite lookup_insert_ne; congruence.
  - intros id mp [[<- <-]|[Hn Hm]]%lookup_insert_Some; [cbn; by rewrite lookup_insert_eq|].
    destruct (H2 _ _ Hm) as (E & Hk'). split; [done|]. rewrite lookup_insert_ne; congruence.
Qed.

Lemma view_linked m k cfg : linked_mgr m → lm_managedPeers m !! k = Some cfg → ∃ w, view m k = Some (cfg, w) ∧
  lm_managedPeersByConnID m !! pc_PeerConnID cfg = Some {| mp_peerCfg := cfg; mp_expectedWatcher := w |}.
Proof.
  intros [H1 _] Hk. destruct (H1 k cfg Hk) as (_ & w & Hw). exists w. unfold view. rewrite Hk. cbn. by rewrite Hw.
Qed.

Lemma view_Some m k cfg w : linked_mgr m → view m k = Some (cfg, w) ↔
  lm_managedPeers m !! k = Some cfg ∧ lm_managedPeersByConnID m !! pc_PeerConnID cfg = Some {| mp_peerCfg := cfg; mp_expectedWatcher := w |}.
Proof.
  intros HL. split.
  - intros Hv. destruct (lm_managedPeers m !! k) as [c|] eqn:Ek; [|unfold view in Hv; by rewrite Ek in Hv].
    destruct (view_linked m k c HL Ek) as (w' & Hv' & Hb). rewrite Hv in Hv'. by simplify_eq.
  - intros [Hk Hb]. unfold view. rewrite Hk. cbn. by rewrite Hb.
Qed.

Lemma view_None m k : linked_mgr m → view m k = None ↔ lm_managedPeers m !! k = None.
Proof.
  intros HL. split; [|unfold view; by intros ->]. intros Hv. destruct (lm_managedPeers m !! k) as [c|] eqn:Ek; [|done].
  destruct (view_linked m k c HL Ek) as (w & Hv' & _). congruence.
Qed.

Lemma view_byID m id mp : linked_mgr m → lm_managedPeersByConnID m !! id = Some mp →
  view m (pc_PublicKey (mp_peerCfg mp)) = Some (mp_peerCfg mp, mp_expectedWatcher mp) ∧ pc_PeerConnID (mp_peerCfg mp) = id.
Proof.
  intros HL Hb. pose proof HL as [_ H2]. destruct (H2 id mp Hb) as [E Hk]. split; [|done].
  apply view_Some; [done|]. rewrite E. split; [done|]. rewrite Hb. by destruct mp.
Qed.

(** ** Connections *)

Definition conn_key (p : Peers) (id : N) : option string := cn_Key <$> ps_conns p !! id.

Definition opened (p : Peers) (id : N) : Prop := ∃ c, ps_conns p !! id = Some c ∧ cn_opened c = true.

(** What does not change of a connection. *)
Definition conn_data (p : Peers) (id : N) : option (string * list Prefix * string) :=
  (λ c, (cn_Key c, cn_AllowedIps c, cn_AgentVersion c)) <$> ps_conns p !! id.

Lemma conn_key_data p id : conn_key p id = (λ d, d.1.1) <$> conn_data p id.
Proof. unfold conn_key, conn_data. by destruct (ps_conns p !! id). Qed.

(** The same connections under the same keys. *)
Record same_conns (p p' : Peers) : Prop := {
  sc_data : ∀ id, conn_data p' id = conn_data p id;
  sc_store : ps_store p' = ps_store p;
  sc_next : ps_next p' = ps_next p;
}.

#[global] Instance same_conns_po : PreOrder same_conns.
Proof. split; [by split|]. intros a b c [] []. split; [intros id|..]; congruence. Qed.

Lemma sc_key p p' : same_conns p p' → ∀ id, conn_key p' id = conn_key p id.
Proof. intros Hs id. by rewrite !conn_key_data, (sc_data _ _ Hs). Qed.

Lemma open_at_same sys packet id p : same_conns p (open_at sys packet id p).
Proof.
  split; [|done|done]. intros id'. unfold conn_data. cbn. destruct (decide (id' = id)) as [->|Hn].
  - rewrite lookup_alter_eq. destruct (ps_conns p !! id) as [c|]; [|done]. cbn. unfold conn_open.
    destruct (cn_opened c), (sys_open sys (cn_Key c)); done.
  - by rewrite lookup_alter_ne.
Qed.

Lemma close_at_same b id p : same_conns p (close_at b id p).
Proof.
  unfold close_at. destruct (ps_conns p !! id) as [c|] eqn:E; [|done]. destruct (cn_opened c); [|done].
  split; [|done|done]. intros id'. unfold conn_data. cbn. destruct (decide (id' = id)) as [->|Hn].
  - by rewrite lookup_insert_eq, E.
  - by rewrite lookup_insert_ne.
Qed.

Lemma PeerConnOpenWithFirstPacket_same sys k packet p : same_conns p (PeerConnOpenWithFirstPacket sys k packet p).
Proof. unfold PeerConnOpenWithFirstPacket. destruct (ps_store p !! k); [apply open_at_same|done]. Qed.

Lemma PeerConnIdle_same k p : same_conns p (PeerConnIdle k p).
Proof. unfold PeerConnIdle. destruct (ps_store p !! k); [apply close_at_same|done]. Qed.

Lemma PeerConnClose_same k p : same_conns p (PeerConnClose k p).
Proof. unfold PeerConnClose. destruct (ps_store p !! k); [apply close_at_same|done]. Qed.

Lemma opened_open_at sys packet id id' p : opened p id → opened (open_at sys packet id' p) id.
Proof.
  intros (c & Hc & Ho). unfold opened. cbn. destruct (decide (id = id')) as [->|Hn].
  - rewrite lookup_alter_eq, Hc. eexists. split; [done|]. unfold conn_open. by rewrite Ho.
  - rewrite lookup_alter_ne by done. eauto.
Qed.

Lemma open_at_opened sys packet id p k : conn_key p id = Some k → sys_open sys k = true → opened (open_at sys packet id p) id.
Proof.
  unfold conn_key, opened. intros (c & Hc & ->)%fmap_Some Hs. cbn. rewrite lookup_alter_eq, Hc. eexists. split; [done|].
  unfold conn_open. rewrite Hs. by destruct (cn_opened c) eqn:E.
Qed.

Lemma opened_PeerConnOpen sys k packet id p : opened p id → opened (PeerConnOpenWithFirstPacket sys k packet p) id.
Proof. unfold PeerConnOpenWithFirstPacket. destruct (ps_store p !! k); [apply opened_open_at|done]. Qed.

Lemma PeerConnOpen_opened sys k packet id p : ps_store p !! k = Some id → conn_key p id = Some k → sys_open sys k = true →
  opened (PeerConnOpenWithFirstPacket sys k packet p) id.
Proof. unfold PeerConnOpenWithFirstPacket. intros ->. apply open_at_opened. Qed.

Lemma opened_close_at b id id' p : id ≠ id' → opened p id → opened (close_at b id' p) id.
Proof.
  intros Hn H. unfold close_at. destruct (ps_conns p !! id'); [|done]. destruct (cn_opened _); [|done].
  unfold opened. cbn. by rewrite lookup_insert_ne.
Qed.

Lemma close_at_closed b id p : ¬ opened (close_at b id p) id.
Proof.
  unfold close_at, opened. destruct (ps_conns p !! id) as [c|] eqn:E; [|intros (?&?&?); congruence].
  destruct (cn_opened c) eqn:Eo; [|intros (?&?&?); congruence]. cbn. rewrite lookup_insert_eq. intros (?&[= <-]&[=]).
Qed.

(** ** The invariant *)

Section Invariant.
(** The peers whose listener can always be armed, and those whose connection can
    always be opened. *)
Context (ok okS : string → Prop).

(** What the manager, its watchers and the connections know of each other.
    [wf_awake] is for the peers whose listener can always be armed. *)
Record wf (m : Manager) (p : Peers) : Prop := {
  wf_linked : linked_mgr m;
  wf_excluded : ∀ k cfg, lm_excludes m !! k = Some cfg →
    pc_PublicKey cfg = k ∧ view m k = None ∧ conn_key p (pc_PeerConnID cfg) = Some k;
  wf_ids : ∀ k cfg w, view m k = Some (cfg, w) → pc_PublicKey cfg = k ∧ conn_key p (pc_PeerConnID cfg) = Some k;
  wf_store : ∀ k id, ps_store p !! k = Some id → conn_key p id = Some k;
  wf_next : ∀ id, is_Some (conn_key p id) → (id < ps_next p)%N;
  wf_listening : ∀ id, is_Some (ac_peers (lm_activityManager m) !! id) →
    ∃ k cfg, view m k = Some (cfg, watcherActivity) ∧ pc_PeerConnID cfg = id;
  wf_interested : ∀ i k, lm_inactivityManager m = Some i →
    is_Some (in_interestedPeers i !! k) ↔ ∃ cfg, view m k = Some (cfg, watcherInactivity);
  wf_awake : ∀ k cfg, view m k = Some (cfg, watcherActivity) → ok k → heard (lm_activityManager m) (pc_PeerConnID cfg);
  wf_running : ac_done (lm_activityManager m) = false;
}.

Lemma wf_same m p p' : same_conns p p' → wf m p → wf m p'.
Proof.
  intros Hs [W1 W2 W3 W4 W5 W6 W7 W8 W9]. pose proof (sc_key _ _ Hs) as Ek. destruct Hs as [_ Es En]. split; try done.
  - intros k cfg Hk. rewrite Ek. by apply W2.
  - intros k cfg w Hk. rewrite Ek. by eapply W3.
  - intros k id. rewrite Es, Ek. apply W4.
  - intros id. rewrite Ek, En. apply W5.
Qed.

(** The watcher of [k] is exchanged; [k] is added or removed; nothing else. *)
Definition views (m m' : Manager) (k : string) (v : option (PeerConfig * watcherType)) : Prop :=
  ∀ k', view m' k' = if decide (k' = k) then v else view m k'.

Lemma view_expect m k cfg w w' : linked_mgr m → view m k = Some (cfg, w) →
  views m (expect w' (pc_PeerConnID cfg) m) k (Some (cfg, w')).
Proof.
  intros HL Hv k'. apply view_Some in Hv as [Hk Hb]; [|done]. unfold view, expect. cbn.
  destruct (decide (k' = k)) as [->|Hn].
  - rewrite Hk. cbn. by rewrite lookup_alter_eq, Hb.
  - destruct (lm_managedPeers m !! k') as [c|] eqn:Ek; [|done]. cbn. rewrite lookup_alter_ne; [done|].
    intros E. apply Hn. by eapply linked_inj.
Qed.

Lemma view_delete m k cfg : linked_mgr m → lm_managedPeers m !! k = Some cfg → views m (removePeer k m) k None.
Proof.
  intros HL Hk k'. unfold removePeer. rewrite Hk. unfold view. cbn. destruct (decide (k' = k)) as [->|Hn].
  - by rewrite lookup_delete_eq.
  - rewrite lookup_delete_ne by done. destruct (lm_managedPeers m !! k') as [c|] eqn:Ek; [|done]. cbn.
    rewrite lookup_delete_ne; [done|]. intros E. apply Hn. by eapply linked_inj.
Qed.

Lemma fresh_byID m p cfg : wf m p → view m (pc_PublicKey cfg) = None →
  conn_key p (pc_PeerConnID cfg) = Some (pc_PublicKey cfg) → lm_managedPeersByConnID m !! pc_PeerConnID cfg = None.
Proof.
  intros W Hk Hc. destruct (lm_managedPeersByConnID m !! pc_PeerConnID cfg) as [mp|] eqn:E; [|done].
  destruct (view_byID m _ mp (wf_linked _ _ W) E) as [Hv Ei]. destruct (wf_ids _ _ W _ _ _ Hv) as [_ Hid]. rewrite Ei in Hid. congruence.
Qed.

Lemma view_enter m cfg w : linked_mgr m → lm_managedPeersByConnID m !! pc_PeerConnID cfg = None →
  views m (enter cfg w m) (pc_PublicKey cfg) (Some (cfg, w)).
Proof.
  intros HL Hi k'. unfold view, enter. cbn. destruct (decide (k' = pc_PublicKey cfg)) as [->|Hn].
  - rewrite lookup_insert_eq. cbn. by rewrite lookup_insert_eq.
  - rewrite lookup_insert_ne by done. destruct (lm_managedPeers m !! k') as [c|] eqn:Ek; [|done]. cbn.
    rewrite lookup_insert_ne; [done|]. intros E. destruct (lk_managed _ _ HL _ _ Ek) as (_ & w' & Hw). congruence.
Qed.

(** Whatever changes the entry of one peer only keeps the invariant when the
    watchers of that peer fit its new entry. *)
Lemma wf_change m m' p k v :
  wf m p → linked_mgr m' → views m m' k v → lm_excludes m' = lm_excludes m →
  (∀ cfg w, v = Some (cfg, w) → pc_PublicKey cfg = k ∧ lm_excludes m !! k = None ∧ conn_key p (pc_PeerConnID cfg) = Some k) →
  (∀ id, is_Some (ac_peers (lm_activityManager m') !! id) →
     (is_Some (ac_peers (lm_activityManager m) !! id) ∧ conn_key p id ≠ Some k) ∨ ∃ cfg, v = Some (cfg, watcherActivity) ∧ pc_PeerConnID cfg = id) →
  (∀ i', lm_inactivityManager m' = Some i' → ∃ i, lm_inactivityManager m = Some i ∧
     (∀ k', k' ≠ k → in_interestedPeers i' !! k' = in_interestedPeers i !! k') ∧
     (is_Some (in_interestedPeers i' !! k) ↔ ∃ cfg, v = Some (cfg, watcherInactivity))) →
  (∀ id, conn_key p id ≠ Some k → heard (lm_activityManager m) id → heard (lm_activityManager m') id) →
  (∀ cfg, v = Some (cfg, watcherActivity) → ok k → heard (lm_activityManager m') (pc_PeerConnID cfg)) →
  ac_done (lm_activityManager m') = false →
  wf m' p.
Proof.
  intros [W1 W2 W3 W4 W5 W6 W7 W8 W9] HL HV He Hid Hlist Hint Hheard Hself Hd. split; try done.
  - rewrite He. intros k' cfg Hk'. rewrite HV. destruct (W2 _ _ Hk') as (E1 & E2 & E3). split_and!; [done| |done].
    destruct (decide (k' = k)) as [->|]; [|done]. destruct v as [[c w]|]; [|done]. destruct (Hid c w eq_refl) as (_ & ? & _). congruence.
  - intros k' cfg w. rewrite HV. destruct (decide (k' = k)) as [->|]; [|apply W3]. intros ->. by destruct (Hid cfg w eq_refl) as (? & _ & ?).
  - intros id [[H Hn]|(cfg & -> & <-)]%Hlist.
    + destruct (W6 id H) as (k' & cfg & Hv & <-). exists k', cfg. rewrite HV, decide_False; [done|]. intros ->.
      by destruct (W3 _ _ _ Hv).
    + exists k, cfg. by rewrite HV, decide_True.
  - intros i' k' Hi'. destruct (Hint i' Hi') as (i & Hi & E1 & E2). rewrite HV. destruct (decide (k' = k)) as [->|Hn]; [done|].
    rewrite E1 by done. by apply W7.
  - intros k' cfg. rewrite HV. destruct (decide (k' = k)) as [->|Hn]; [apply Hself|]. intros Hv Hok. apply Hheard; [|by eapply W8].
    destruct (W3 _ _ _ Hv) as [_ ->]. congruence.
Qed.

Lemma unlisten m p k id : wf m p → conn_key p id = Some k →
  ∀ id', is_Some (delete id (ac_peers (lm_activityManager m)) !! id') → (∀ cfg, view m k = Some (cfg, watcherActivity) → pc_PeerConnID cfg = id) →
  is_Some (ac_peers (lm_activityManager m) !! id') ∧ conn_key p id' ≠ Some k.
Proof.
  intros W Hc id' [l [Hn Hl]%lookup_delete_Some] Hv. split; [by eexists|]. intros Hk.
  destruct (wf_listening _ _ W id') as (k' & cfg & Hv' & <-); [by eexists|]. destruct (wf_ids _ _ W _ _ _ Hv') as [_ E].
  apply Hn. symmetry. apply Hv. congruence.
Qed.

(** *** The changes of one peer *)

Definition activated (cfg : PeerConfig) (m : Manager) : Manager :=
  let m := expect watcherInactivity (pc_PeerConnID cfg) m in
  let m := with_activity (activity_RemovePeer (pc_PeerConnID cfg) (lm_activityManager m)) m in
  with_inactivity (inactivity_AddPeer cfg (lm_inactivityManager m)) m.

Lemma activateSinglePeer_eq cfg mp m :
  activateSinglePeer cfg mp m = if decide (mp_expectedWatcher mp = watcherActivity) then (activated cfg m, true) else (m, false).
Proof. unfold activateSinglePeer. destruct (mp_expectedWatcher mp); by case_decide. Qed.

Lemma views_activated m k cfg : linked_mgr m → view m k = Some (cfg, watcherActivity) →
  views m (activated cfg m) k (Some (cfg, watcherInactivity)).
Proof. intros HL Hv. apply (view_expect m k cfg watcherActivity watcherInactivity HL Hv). Qed.

Lemma wf_activated m p k cfg : wf m p → view m k = Some (cfg, watcherActivity) → wf (activated cfg m) p.
Proof.
  intros W Hv. destruct (wf_ids _ _ W _ _ _ Hv) as [Ek Ec]. pose proof (wf_linked _ _ W) as HL.
  destruct (activity_RemovePeer_spec (pc_PeerConnID cfg) (lm_activityManager m)) as (E1 & E2 & E3).
  apply (wf_change m _ p k (Some (cfg, watcherInactivity)) W); try done.
  - by apply linked_alter.
  - by apply views_activated.
  - intros c w [= <- <-]. split_and!; [done| |done]. destruct (lm_excludes m !! k) as [c|] eqn:Ex; [|done].
    destruct (wf_excluded _ _ W _ _ Ex) as (_ & ? & _). congruence.
  - cbn. rewrite E1. intros id Hid. left. eapply unlisten; [done..|]. intros c Hc. congruence.
  - cbn. unfold inactivity_AddPeer. intros i' (i & Hi & ->)%fmap_Some. exists i. split; [done|].
    assert (Hk : in_interestedPeers i !! k = None).
    { apply eq_None_not_Some. rewrite (wf_interested _ _ W i k Hi). intros (c & ?). congruence. }
    rewrite Ek. rewrite Hk. cbn. split; [intros k' Hn; by rewrite lookup_insert_ne|]. rewrite lookup_insert_eq. split; eauto.
  - intros id Hn Hh. apply heard_remove; [|done]. intros ->. by rewrite Ec in Hn.
  - cbn. rewrite E3. by apply W.
Qed.

Definition slept (sys : Sys) (cfg : PeerConfig) (m : Manager) : Manager :=
  let m := expect watcherActivity (pc_PeerConnID cfg) m in
  let m := with_inactivity (inactivity_RemovePeer (pc_PublicKey cfg) (lm_inactivityManager m)) m in
  (armActivityListener sys cfg m).1.

Lemma slept_fields sys cfg m :
  lm_managedPeers (slept sys cfg m) = lm_managedPeers m ∧
  lm_managedPeersByConnID (slept sys cfg m) = alter (set_watcher watcherActivity) (pc_PeerConnID cfg) (lm_managedPeersByConnID m) ∧
  lm_excludes (slept sys cfg m) = lm_excludes m ∧
  lm_activityManager (slept sys cfg m) = (MonitorPeerActivity sys cfg (lm_activityManager m)).1 ∧
  lm_inactivityManager (slept sys cfg m) = inactivity_RemovePeer (pc_PublicKey cfg) (lm_inactivityManager m) ∧
  lm_peerToHAGroups (slept sys cfg m) = lm_peerToHAGroups m ∧ lm_haGroupToPeers (slept sys cfg m) = lm_haGroupToPeers m.
Proof. unfold slept, armActivityListener. cbn. by destruct (MonitorPeerActivity sys cfg (lm_activityManager m)). Qed.

Lemma views_slept sys m k cfg : linked_mgr m → view m k = Some (cfg, watcherInactivity) →
  views m (slept sys cfg m) k (Some (cfg, watcherActivity)).
Proof.
  intros HL Hv k'. destruct (slept_fields sys cfg m) as (E1 & E2 & _). unfold view. rewrite E1, E2.
  apply (view_expect m k cfg watcherInactivity watcherActivity HL Hv).
Qed.

Lemma wf_slept sys m p k cfg : wf m p → view m k = Some (cfg, watcherInactivity) → (ok k → sys_arm sys k = true) → wf (slept sys cfg m) p.
Proof.
  intros W Hv Ha. destruct (wf_ids _ _ W _ _ _ Hv) as [Ek Ec]. pose proof (wf_linked _ _ W) as HL.
  destruct (slept_fields sys cfg m) as (F1 & F2 & F3 & F4 & F5 & _ & _).
  pose proof (MonitorPeerActivity_spec sys cfg (lm_activityManager m)) as HM.
  pose proof (heard_monitor sys cfg (lm_activityManager m)) as HH.
  destruct (MonitorPeerActivity sys cfg (lm_activityManager m)) as [a' err]. destruct HM as (E1 & E2 & E3 & E4 & E5). cbn in F4, HH.
  apply (wf_change m _ p k (Some (cfg, watcherActivity)) W); try done.
  - unfold linked_mgr. rewrite F1, F2. by apply linked_alter.
  - by apply views_slept.
  - intros c w [= <- <-]. split_and!; [done| |done]. destruct (lm_excludes m !! k) as [c|] eqn:Ex; [|done].
    destruct (wf_excluded _ _ W _ _ Ex) as (_ & ? & _). congruence.
  - rewrite F4. intros id Hid. destruct (decide (id = pc_PeerConnID cfg)) as [->|Hn]; [eauto|]. rewrite E3 in Hid by done. left. split; [done|].
    intros Hk. destruct (wf_listening _ _ W id Hid) as (k' & c & Hv' & <-). destruct (wf_ids _ _ W _ _ _ Hv'). congruence.
  - rewrite F5. unfold inactivity_RemovePeer. intros i' (i & Hi & ->)%fmap_Some. exists i. rewrite Ek. cbn. split_and!; [done| |].
    + intros k' Hn. by rewrite lookup_delete_ne.
    + rewrite lookup_delete_eq. split; [by intros []|by intros (? & [=])].
  - rewrite F4. auto.
  - intros c [= <-] Hok. rewrite F4. left. apply E4. destruct err; [|done]. destruct (E5 eq_refl) as (_ & _ & E). rewrite Ek, Ha in E; done.
  - rewrite F4, E2. by apply W.
Qed.

Lemma removePeer_unmanaged m k : linked_mgr m → view m k = None → removePeer k m = m.
Proof. intros HL Hv. unfold removePeer. by rewrite (proj1 (view_None m k HL) Hv). Qed.

Lemma views_removePeer m k : linked_mgr m → views m (removePeer k m) k None.
Proof.
  intros HL. destruct (lm_managedPeers m !! k) as [cfg|] eqn:Ek; [by eapply view_delete|].
  intros k'. unfold removePeer. rewrite Ek. destruct (decide (k' = k)) as [->|]; [|done]. by apply view_None.
Qed.

Lemma linked_removePeer m k : linked_mgr m → linked_mgr (removePeer k m).
Proof.
  intros HL. unfold removePeer. destruct (lm_managedPeers m !! k) as [cfg|] eqn:Ek; [|done]. by apply linked_delete.
Qed.

Lemma removePeer_excludes m k : lm_excludes (removePeer k m) = lm_excludes m.
Proof. unfold removePeer. by destruct (lm_managedPeers m !! k). Qed.

Lemma wf_removePeer m p k : wf m p → wf (removePeer k m) p.
Proof.
  intros W. pose proof (wf_linked _ _ W) as HL. destruct (lm_managedPeers m !! k) as [cfg|] eqn:Em; [|unfold removePeer; by rewrite Em].
  destruct (view_linked m k cfg HL Em) as (w & Hv & Hb). destruct (wf_ids _ _ W _ _ _ Hv) as [Ek Ec].
  apply (wf_change m _ p k None W); try done.
  - by apply linked_removePeer.
  - by eapply view_delete.
  - apply removePeer_excludes.
  - unfold removePeer. rewrite Em. cbn. destruct (activity_RemovePeer_spec (pc_PeerConnID cfg) (lm_activityManager m)) as (-> & _).
    intros id Hid. left. eapply unlisten; [done..|]. intros c Hc. congruence.
  - unfold removePeer. rewrite Em. cbn. unfold inactivity_RemovePeer. intros i' (i & Hi & ->)%fmap_Some. exists i. rewrite Ek. cbn. split_and!; [done| |].
    + intros k' Hn. by rewrite lookup_delete_ne.
    + rewrite lookup_delete_eq. split; [by intros []|by intros (? & [=])].
  - unfold removePeer. rewrite Em. cbn. intros id Hn Hh. apply heard_remove; [|done]. intros ->. by rewrite Ec in Hn.
  - unfold removePeer. rewrite Em. cbn. destruct (activity_RemovePeer_spec (pc_PeerConnID cfg) (lm_activityManager m)) as (_ & _ & ->). by apply W.
Qed.

Lemma wf_addActivePeer m p cfg : wf m p → lm_excludes m !! pc_PublicKey cfg = None →
  conn_key p (pc_PeerConnID cfg) = Some (pc_PublicKey cfg) → wf (addActivePeer cfg m) p.
Proof.
  intros W He Hc. pose proof (wf_linked _ _ W) as HL. unfold addActivePeer.
  destruct (lm_managedPeers m !! pc_PublicKey cfg) as [c|] eqn:Em; [done|].
  assert (Hv : view m (pc_PublicKey cfg) = None) by (by apply view_None).
  pose proof (fresh_byID m p cfg W Hv Hc) as Hi.
  apply (wf_change m _ p (pc_PublicKey cfg) (Some (cfg, watcherInactivity)) W); try done.
  - by apply linked_insert.
  - by apply (view_enter m cfg watcherInactivity HL).
  - intros c w [= <- <-]. done.
  - cbn. intros id Hid. left. split; [done|]. intros Hk. destruct (wf_listening _ _ W id Hid) as (k' & c & Hv' & <-).
    destruct (wf_ids _ _ W _ _ _ Hv'). congruence.
  - cbn. unfold inactivity_AddPeer. intros i' (i & Hin & ->)%fmap_Some. exists i. split; [done|].
    assert (Hn : in_interestedPeers i !! pc_PublicKey cfg = None).
    { apply eq_None_not_Some. rewrite (wf_interested _ _ W i _ Hin). intros (c & ?). congruence. }
    rewrite Hn. cbn. split; [intros k' Hne; by rewrite lookup_insert_ne|]. rewrite lookup_insert_eq. split; eauto.
  - cbn. by apply W.
Qed.

Lemma views_addActivePeer m p cfg : wf m p → view m (pc_PublicKey cfg) = None →
  conn_key p (pc_PeerConnID cfg) = Some (pc_PublicKey cfg) → views m (addActivePeer cfg m) (pc_PublicKey cfg) (Some (cfg, watcherInactivity)).
Proof.
  intros W Hv Hc. pose proof (wf_linked _ _ W) as HL. unfold addActivePeer. rewrite (proj1 (view_None m _ HL) Hv).
  apply (view_enter m cfg watcherInactivity HL). by eapply fresh_byID.
Qed.

(** A peer that waits for traffic: its listener is armed first. *)
Lemma wf_enter_waiting sys m p cfg : wf m p → lm_excludes m !! pc_PublicKey cfg = None → view m (pc_PublicKey cfg) = None →
  conn_key p (pc_PeerConnID cfg) = Some (pc_PublicKey cfg) →
  (MonitorPeerActivity sys cfg (lm_activityManager m)).2 = false →
  wf (enter cfg watcherActivity (armActivityListener sys cfg m).1) p ∧
  views m (enter cfg watcherActivity (armActivityListener sys cfg m).1) (pc_PublicKey cfg) (Some (cfg, watcherActivity)).
Proof.
  intros W He Hv Hc Herr. pose proof (wf_linked _ _ W) as HL. pose proof (fresh_byID m p cfg W Hv Hc) as Hi.
  pose proof (MonitorPeerActivity_spec sys cfg (lm_activityManager m)) as HM.
  pose proof (heard_monitor sys cfg (lm_activityManager m)) as HH.
  unfold armActivityListener. destruct (MonitorPeerActivity sys cfg (lm_activityManager m)) as [a' err]. cbn in Herr. subst err.
  destruct HM as (E1 & E2 & E3 & E4 & _). cbn [fst] in *.
  assert (HV : views m (enter cfg watcherActivity (with_activity a' m)) (pc_PublicKey cfg) (Some (cfg, watcherActivity))).
  { exact (view_enter m cfg watcherActivity HL Hi). }
  split; [|done]. apply (wf_change m _ p (pc_PublicKey cfg) (Some (cfg, watcherActivity)) W); try done.
  - apply linked_insert; [done| |done]. by apply view_None.
  - intros c w [= <- <-]. done.
  - cbn. intros id Hid. destruct (decide (id = pc_PeerConnID cfg)) as [->|Hn]; [eauto|]. rewrite E3 in Hid by done. left. split; [done|].
    intros Hk. destruct (wf_listening _ _ W id Hid) as (k' & c & Hv' & <-). destruct (wf_ids _ _ W _ _ _ Hv'). congruence.
  - cbn. intros i Hin. exists i. split_and!; [done..|]. rewrite (wf_interested _ _ W i _ Hin). split; [intros (c & ?); congruence|by intros (c & [=])].
  - cbn. auto.
  - intros c [= <-] _. cbn. left. by apply E4.
  - cbn. rewrite E2. by apply W.
Qed.

(** ** Nobody is stranded

    [O] are the connections that an activation is about to open.  A connection
    is open, or about to be, or its peer is managed and waits for traffic, if
    under this connection. *)
Definition ready (p : Peers) (O : list N) (id : N) : Prop := opened p id ∨ id ∈ O.

Definition served (m : Manager) (p : Peers) (O : list N) (k : string) : Prop :=
  ∀ id, ps_store p !! k = Some id →
    ready p O id ∨ ∃ cfg w, view m k = Some (cfg, w) ∧ (pc_PeerConnID cfg = id → w = watcherActivity).

Record inv (m : Manager) (p : Peers) (O : list N) : Prop := {
  inv_wf : wf m p;
  inv_served : ∀ k, okS k → served m p O k;
  inv_excluded : ∀ k id, is_Some (lm_excludes m !! k) → okS k → ps_store p !! k = Some id → ready p O id;
}.

Lemma served_views m m' p k v O k' : views m m' k v → k' ≠ k → served m p O k' → served m' p O k'.
Proof. intros HV Hn H id Hid. unfold served in H. rewrite HV, decide_False by done. by apply H. Qed.

Lemma ready_mono p p' O O' id : (opened p id → opened p' id) → O ⊆ O' → ready p O id → ready p' O' id.
Proof. intros H HO [?|?]; [left|right]; auto. Qed.

(** More connections are open or about to be. *)
Lemma inv_ready m p p' O O' : same_conns p p' →
  (∀ k id, okS k → ps_store p !! k = Some id → ready p O id → ready p' O' id) → inv m p O → inv m p' O'.
Proof.
  intros Hsc Hr [W S E]. pose proof Hsc as [_ Es _]. split.
  - by eapply wf_same.
  - intros k Hok id. rewrite Es. intros Hid. destruct (S k Hok id Hid) as [H|H]; [left; eauto|by right].
  - intros k id He Hok. rewrite Es. intros Hid. eapply Hr; eauto.
Qed.

Lemma inv_pend m p O O' : O ⊆ O' → inv m p O → inv m p O'.
Proof. intros HO. apply inv_ready; [done|]. intros k id _ _. by apply ready_mono. Qed.

Lemma inv_open sys packet k m p O : inv m p O → inv m (PeerConnOpenWithFirstPacket sys k packet p) O.
Proof.
  apply inv_ready; [apply PeerConnOpenWithFirstPacket_same|]. intros k' id _ _.
  apply ready_mono; [apply opened_PeerConnOpen|done].
Qed.

Definition current (p : Peers) (k : string) : list N := option_list (ps_store p !! k).

Lemma inv_open_pending sys packet k m p O : (okS k → sys_open sys k = true) →
  inv m p (O ++ current p k) → inv m (PeerConnOpenWithFirstPacket sys k packet p) O.
Proof.
  intros Hs HI. pose proof (inv_wf _ _ _ HI) as W. revert HI. apply inv_ready; [apply PeerConnOpenWithFirstPacket_same|].
  intros k' id Hok Hid [H|H]; [left; by apply opened_PeerConnOpen|]. apply elem_of_app in H as [H|H]; [by right|left].
  unfold current in H. destruct (ps_store p !! k) as [id'|] eqn:Ek; [|by apply elem_of_nil in H].
  apply list_elem_of_singleton in H as ->. pose proof (wf_store _ _ W _ _ Ek) as E1. pose proof (wf_store _ _ W _ _ Hid) as E2.
  assert (k' = k) as -> by congruence. eapply PeerConnOpen_opened; eauto.
Qed.

Lemma inv_open_at sys packet id k m p O : conn_key p id = Some k → (okS k → sys_open sys k = true) →
  inv m p (O ++ [id]) → inv m (open_at sys packet id p) O.
Proof.
  intros Hk Hs HI. pose proof (inv_wf _ _ _ HI) as W. revert HI. apply inv_ready; [apply open_at_same|].
  intros k' id' Hok Hid [H|H]; [left; by apply opened_open_at|]. apply elem_of_app in H as [H|H]; [by right|left].
  apply list_elem_of_singleton in H as ->. pose proof (wf_store _ _ W _ _ Hid). assert (k' = k) as -> by congruence.
  eapply open_at_opened; eauto.
Qed.

Lemma current_same p p' k : same_conns p p' → current p' k = current p k.
Proof. intros [_ E _]. unfold current. by rewrite E. Qed.

(** One peer is woken and its connection is due. *)
Lemma inv_activated m p O k cfg : inv m p O → view m k = Some (cfg, watcherActivity) → inv (activated cfg m) p (O ++ current p k).
Proof.
  intros HI Hv. pose proof (inv_pend _ _ O (O ++ current p k) ltac:(set_solver) HI) as [_ S E]. destruct HI as [W _ _].
  split; [by eapply wf_activated| |done]. intros k' Hok. destruct (decide (k' = k)) as [->|Hn].
  - intros id Hid. left. right. apply elem_of_app. right. unfold current. rewrite Hid. by apply list_elem_of_singleton.
  - eapply served_views; [by eapply views_activated, Hv; apply W|done|auto].
Qed.

(** One peer is put to sleep. *)
Lemma inv_slept sys b m p O k cfg : inv m p O → view m k = Some (cfg, watcherInactivity) → (ok k → sys_arm sys k = true) →
  inv (slept sys cfg m) (match ps_store p !! k with Some id => close_at b id p | None => p end) O.
Proof.
  intros [W S E] Hv Ha. pose proof (wf_linked _ _ W) as HL. set (p' := match ps_store p !! k with Some id => _ | None => p end).
  assert (Hsc : same_conns p p') by (unfold p'; destruct (ps_store p !! k); [apply close_at_same|done]).
  assert (Hr : ∀ k' id, k' ≠ k → ps_store p !! k' = Some id → ready p O id → ready p' O id).
  { intros k' id Hn Hid. apply ready_mono; [|done]. unfold p'. destruct (ps_store p !! k) as [id'|] eqn:Ek; [|done].
    apply opened_close_at. intros ->. pose proof (wf_store _ _ W _ _ Ek). pose proof (wf_store _ _ W _ _ Hid). congruence. }
  pose proof Hsc as [_ Es _]. destruct (slept_fields sys cfg m) as (_ & _ & F3 & _). split.
  - eapply wf_same; [done|]. by eapply wf_slept.
  - intros k' Hok id. rewrite Es. intros Hid. pose proof (views_slept sys m k cfg HL Hv k') as Hv'. destruct (decide (k' = k)) as [->|Hn].
    + right. exists cfg, watcherActivity. done.
    + rewrite Hv'. destruct (S k' Hok id Hid) as [H|H]; [left; eauto|by right].
  - rewrite F3. intros k' id He Hok. rewrite Es. intros Hid. apply (Hr k'); [|done|eauto]. intros ->.
    destruct He as [c He]. destruct (wf_excluded _ _ W _ _ He) as (_ & ? & _). congruence.
Qed.

(** One peer is not managed any more and its connection is due. *)
Lemma inv_removePeer m p O k : inv m p O → inv (removePeer k m) p (O ++ current p k).
Proof.
  intros HI. pose proof (inv_pend _ _ O (O ++ current p k) ltac:(set_solver) HI) as [_ S E]. destruct HI as [W _ _].
  split; [by apply wf_removePeer| |by rewrite removePeer_excludes]. intros k' Hok. destruct (decide (k' = k)) as [->|Hn].
  - intros id Hid. left. right. apply elem_of_app. right. unfold current. rewrite Hid. by apply list_elem_of_singleton.
  - eapply served_views; [by apply views_removePeer, W|done|auto].
Qed.

Lemma inv_addActivePeer m p O cfg : inv m p O → lm_excludes m !! pc_PublicKey cfg = None →
  conn_key p (pc_PeerConnID cfg) = Some (pc_PublicKey cfg) →
  (∀ id, okS (pc_PublicKey cfg) → ps_store p !! pc_PublicKey cfg = Some id → ready p O id) → inv (addActivePeer cfg m) p O.
Proof.
  intros [W S E] He Hc Hr. pose proof (wf_linked _ _ W) as HL. split.
  - by apply wf_addActivePeer.
  - intros k Hok id Hid. destruct (decide (k = pc_PublicKey cfg)) as [->|Hn]; [left; eauto|].
    destruct (view m (pc_PublicKey cfg)) as [[c w]|] eqn:Ev.
    + apply view_Some in Ev as [Ek _]; [|done]. unfold addActivePeer. rewrite Ek. by apply S.
    + eapply served_views; [by eapply views_addActivePeer|done|by apply S|done].
  - assert (lm_excludes (addActivePeer cfg m) = lm_excludes m) as -> by (unfold addActivePeer; by destruct (lm_managedPeers m !! _)). done.
Qed.

(** *** The operations of the manager *)

(** The system does what it is asked for these peers. *)
Definition works (sys : Sys) : Prop := ∀ k, (ok k → sys_arm sys k = true) ∧ (okS k → sys_open sys k = true).

Lemma inv_activate_one sys m p O k : works sys → inv m p O →
  inv (activate_one sys (m, p) k).1 (activate_one sys (m, p) k).2 O.
Proof.
  intros Hw HI. unfold activate_one. pose proof (getPeerForActivation_view m k) as Hg.
  destruct (getPeerForActivation k m) as [[cfg mp]|]; [|done]. destruct Hg as [Hv Hmp].
  rewrite activateSinglePeer_eq, decide_True by done. cbn [fst snd].
  destruct (wf_ids _ _ (inv_wf _ _ _ HI) _ _ _ Hv) as [-> _].
  apply inv_open_pending; [intros; by apply Hw|]. by apply inv_activated.
Qed.

Lemma inv_activate_all sys l m p O : works sys → inv m p O →
  inv (foldl (activate_one sys) (m, p) l).1 (foldl (activate_one sys) (m, p) l).2 O.
Proof.
  intros Hw. revert m p. induction l as [|k l IH]; intros m p HI; [done|]. cbn [foldl].
  pose proof (inv_activate_one sys m p O k Hw HI) as H. destruct (activate_one sys (m, p) k) as [m' p']. by apply IH.
Qed.

Lemma inv_activateHAGroupPeers sys cfg m p O : works sys → inv m p O →
  inv (activateHAGroupPeers sys cfg m p).1 (activateHAGroupPeers sys cfg m p).2 O.
Proof. apply inv_activate_all. Qed.

Lemma activate_all_same sys l m p : same_conns p (foldl (activate_one sys) (m, p) l).2.
Proof.
  revert m p. induction l as [|k l IH]; intros m p; [done|]. cbn [foldl]. unfold activate_one at 2.
  destruct (getPeerForActivation k m) as [[cfg mp]|]; [|apply IH]. destruct (activateSinglePeer cfg mp m) as [m' []]; [|apply IH].
  etransitivity; [apply PeerConnOpenWithFirstPacket_same|apply IH].
Qed.

Lemma inv_ActivatePeer sys k m p O : works sys → inv m p O →
  let '(m', p', found) := ActivatePeer sys k m p in inv m' p' (if found then O ++ current p k else O).
Proof.
  intros Hw HI. unfold ActivatePeer. pose proof (getPeerForActivation_view m k) as Hg.
  destruct (getPeerForActivation k m) as [[cfg mp]|]; [|done]. destruct Hg as [Hv Hmp].
  rewrite activateSinglePeer_eq, decide_True by done.
  pose proof (inv_activateHAGroupPeers sys cfg (activated cfg m) p (O ++ current p k) Hw (inv_activated m p O k cfg HI Hv)) as H.
  by destruct (activateHAGroupPeers sys cfg (activated cfg m) p) as [m' p'].
Qed.

Lemma put_to_sleep_slept sys mp m : put_to_sleep sys mp m = slept sys (mp_peerCfg mp) m.
Proof. done. Qed.

Lemma inv_DeactivatePeer sys id m p O : works sys → inv m p O →
  inv (DeactivatePeer sys id m p).1 (DeactivatePeer sys id m p).2 O.
Proof.
  intros Hw HI. unfold DeactivatePeer. destruct (lm_managedPeersByConnID m !! id) as [mp|] eqn:E; [|done].
  destruct (view_byID m id mp (wf_linked _ _ (inv_wf _ _ _ HI)) E) as [Hv _]. destruct (mp_expectedWatcher mp); [done|].
  cbn [fst snd]. rewrite put_to_sleep_slept. apply (inv_slept sys false m p O _ _ HI Hv). intros Hok. by apply Hw.
Qed.

(** The rest of [onPeerActivity], once the peer itself is woken. *)
Lemma inv_after_wake sys packet cfg m p O : works sys → inv m p (O ++ current p (pc_PublicKey cfg)) →
  let '(m', p') := activateHAGroupPeers sys cfg m p in inv m' (PeerConnOpenWithFirstPacket sys (pc_PublicKey cfg) packet p') O.
Proof.
  intros Hw HI. pose proof (inv_activateHAGroupPeers sys cfg m p _ Hw HI) as H.
  pose proof (activate_all_same sys (peersToActivate m (pc_PublicKey cfg)) m p) as Hs.
  unfold activateHAGroupPeers in *. destruct (foldl _ _ _) as [m' p']. cbn [fst snd] in *.
  apply inv_open_pending; [intros; by apply Hw|]. by rewrite (current_same p p').
Qed.

Lemma inv_time_out_one sys s m p O k : works sys → inv m p O →
  inv (time_out_one sys s (m, p) k).1 (time_out_one sys s (m, p) k).2 O.
Proof.
  intros Hw HI. unfold time_out_one. destruct (lm_managedPeers m !! k) as [cfg|] eqn:Ek; [|done].
  destruct (lm_managedPeersByConnID m !! pc_PeerConnID cfg) as [mp|] eqn:E; [|done].
  destruct (view_byID m _ mp (wf_linked _ _ (inv_wf _ _ _ HI)) E) as [Hv _]. destruct (mp_expectedWatcher mp); [done|].
  destruct (shouldDeferIdleForHA m s _); [done|]. cbn [fst snd]. rewrite put_to_sleep_slept.
  apply (inv_slept sys true m p O _ _ HI Hv). intros Hok. by apply Hw.
Qed.

Context {MO : MapOrder}.

Lemma inv_onPeerInactivityTimedOut sys seed s m p O : works sys → inv m p O →
  inv (onPeerInactivityTimedOut sys seed s m p).1 (onPeerInactivityTimedOut sys seed s m p).2 O.
Proof.
  intros Hw. unfold onPeerInactivityTimedOut. generalize (range_set seed s) as l. intros l. revert m p.
  induction l as [|k l IH]; intros m p HI; [done|]. cbn [foldl].
  pose proof (inv_time_out_one sys s m p O k Hw HI) as H. destruct (time_out_one sys s (m, p) k) as [m' p']. by apply IH.
Qed.

(** A change of the groups is none of the invariant. *)
Lemma inv_UpdateRouteHAMap seed haMap m p O : inv m p O → inv (UpdateRouteHAMap seed haMap m) p O.
Proof. unfold UpdateRouteHAMap. destruct (foldl _ _ _) as [a b]. intros [[] S E]. by split; [split|..]. Qed.

Lemma inv_unpend m p O id k : ps_store p !! k = Some id → served m p O k → lm_excludes m !! k = None →
  inv m p (O ++ [id]) → inv m p O.
Proof.
  intros Hk Hs He [W S E]. assert (Hr : ∀ k' id', k' ≠ k → ps_store p !! k' = Some id' → ready p (O ++ [id]) id' → ready p O id').
  { intros k' id' Hn Hid [H|H]; [by left|]. apply elem_of_app in H as [H|H]; [by right|]. apply list_elem_of_singleton in H as ->.
    pose proof (wf_store _ _ W _ _ Hk). pose proof (wf_store _ _ W _ _ Hid). congruence. }
  split; [done| |].
  - intros k' Hok. destruct (decide (k' = k)) as [->|Hn]; [done|]. intros id' Hid. destruct (S k' Hok id' Hid) as [H|H]; [left; eauto|by right].
  - intros k' id' Hex Hok Hid. destruct (decide (k' = k)) as [->|Hn]; [rewrite He in Hex; by destruct Hex|eauto].
Qed.

Lemma inv_LazyAddPeer sys cfg m p O : works sys → inv m p (O ++ [pc_PeerConnID cfg]) →
  ps_store p !! pc_PublicKey cfg = Some (pc_PeerConnID cfg) →
  (∀ c w, view m (pc_PublicKey cfg) = Some (c, w) → pc_PeerConnID c ≠ pc_PeerConnID cfg) →
  let '(m', p', excluded, err) := AddPeer sys cfg m p in
  inv m' p' (if err || excluded then O ++ [pc_PeerConnID cfg] else O) ∧ same_conns p p'.
Proof.
  intros Hw HI Hst Hne. pose proof (inv_wf _ _ _ HI) as W. pose proof (wf_linked _ _ W) as HL. unfold AddPeer.
  set (k := pc_PublicKey cfg) in *. set (id := pc_PeerConnID cfg) in *.
  destruct (lm_excludes m !! k) eqn:He; [done|]. destruct (lm_managedPeers m !! k) as [c|] eqn:Em.
  { split; [|done]. apply (inv_unpend m p O id k); [done| |done..]. intros id' Hid. right.
    destruct (view_linked m k c HL Em) as (w & Hv & _). exists c, w. split; [done|]. intros E. destruct (Hne _ _ Hv). congruence. }
  assert (Hv : view m k = None) by (by apply view_None). pose proof (wf_store _ _ W _ _ Hst) as Hc.
  pose proof (wf_enter_waiting sys m p cfg W He Hv Hc) as Hent.
  pose proof (MonitorPeerActivity_spec sys cfg (lm_activityManager m)) as HM.
  unfold armActivityListener in *. destruct (MonitorPeerActivity sys cfg (lm_activityManager m)) as [a err]. cbn [fst snd] in Hent.
  destruct err.
  { destruct HM as (_ & _ & _ & _ & E). destruct (E eq_refl) as (-> & _). cbn [orb].
    assert (with_activity (lm_activityManager m) m = m) as -> by (by destruct m). done. }
  destruct (Hent eq_refl) as [W1 V1].
  set (m1 := enter cfg watcherActivity (with_activity a m)) in *.
  assert (Hv1 : view m1 k = Some (cfg, watcherActivity)) by (rewrite V1, decide_True; done).
  assert (I1 : inv m1 p O).
  { apply (inv_unpend m1 p O id k); [done| |done|].
    - intros id' Hid. right. eauto.
    - destruct HI as [_ S E]. split; [done| |done]. intros k' Hok. destruct (decide (k' = k)) as [->|Hn]; [intros id' Hid; right; eauto|].
      eapply served_views; [done..|auto]. }
  destruct (shouldActivateNewPeer m1 k); [|by split]. unfold activateNewPeerInActiveGroup.
  destruct (lm_managedPeersByConnID m1 !! pc_PeerConnID cfg) as [mp|] eqn:Eb; [|by split]. rewrite activateSinglePeer_eq. case_decide; [|by split].
  split; [|apply PeerConnOpenWithFirstPacket_same]. apply inv_open_pending; [intros; by apply Hw|]. by apply inv_activated.
Qed.

(** *** The excluded peers *)

Lemma removePeer_with_excludes e k m : removePeer k (with_excludes e m) = with_excludes e (removePeer k m).
Proof. unfold removePeer. cbn. by destruct (lm_managedPeers m !! k). Qed.

Lemma addActivePeer_with_excludes e cfg m : addActivePeer cfg (with_excludes e m) = with_excludes e (addActivePeer cfg m).
Proof. unfold addActivePeer. cbn. by destruct (lm_managedPeers m !! _). Qed.

Lemma view_with_excludes e m k : view (with_excludes e m) k = view m k.
Proof. done. Qed.

(** The connections of the given keys. *)
Definition current_all (p : Peers) (keys : list string) : list N := flat_map (current p) keys.

Lemma exclude_loop old e keys m p O added : inv (with_excludes e m) p (O ++ current_all p added) →
  let '(m', added') := foldl (exclude_one old) (m, added) keys in
  inv (with_excludes e m') p (O ++ current_all p added') ∧ lm_excludes m' = lm_excludes m ∧
  (∀ k, view m k = None → view m' k = None) ∧ (∀ k, k ∈ keys → old !! k = None → view m' k = None) ∧
  (∀ k, k ∈ added' ↔ k ∈ added ∨ k ∈ keys ∧ old !! k = None).
Proof.
  revert m added. induction keys as [|k keys IH]; intros m added HI.
  { cbn. split_and!; try done; [by intros k ?%elem_of_nil|]. intros k. rewrite elem_of_nil. tauto. }
  cbn [foldl]. unfold exclude_one at 2. destruct (old !! k) as [c|] eqn:Ek.
  - specialize (IH m added HI). destruct (foldl _ _ _) as [m' added']. destruct IH as (H1 & H2 & H3 & H4 & H5). split_and!; try done.
    + intros k' [->|Hk]%elem_of_cons ?; [congruence|auto].
    + intros k'. rewrite H5, elem_of_cons. split; [naive_solver|]. intros [?|[[->|?] ?]]; [tauto|congruence|tauto].
  - assert (HL : linked_mgr m) by apply (wf_linked _ _ (inv_wf _ _ _ HI)).
    specialize (IH (removePeer k m) (added ++ [k])). destruct (foldl _ _ _) as [m' added']. destruct IH as (H1 & H2 & H3 & H4 & H5).
    { rewrite <- removePeer_with_excludes. unfold current_all. rewrite flat_map_app. cbn. rewrite app_nil_r, app_assoc. by apply inv_removePeer. }
    pose proof (views_removePeer m k HL) as HV. split_and!.
    + done.
    + by rewrite H2, removePeer_excludes.
    + intros k' Hv. apply H3. rewrite HV. by destruct (decide (k' = k)).
    + intros k' [->|Hk]%elem_of_cons Ho; [|auto]. apply H3. by rewrite HV, decide_True.
    + intros k'. rewrite H5, elem_of_app, !elem_of_cons, elem_of_nil. naive_solver.
Qed.

Lemma readmit_loop (new : gmap string PeerConfig) l m p O :
  inv (with_excludes ∅ m) p O →
  (∀ k cfg, (k, cfg) ∈ l → pc_PublicKey cfg = k ∧ conn_key p (pc_PeerConnID cfg) = Some k ∧
     (∀ id, okS k → ps_store p !! k = Some id → ready p O id)) →
  let m' := foldl (readmit_one new) m l in
  inv (with_excludes ∅ m') p O ∧ lm_excludes m' = lm_excludes m ∧ (∀ k, is_Some (new !! k) → view m k = None → view m' k = None).
Proof.
  revert m. induction l as [|[k cfg] l IH]; intros m HI Hl; [done|]. cbn [foldl]. unfold readmit_one at 2 4 6. cbn [fst snd].
  destruct (new !! k) eqn:Ek; [apply IH; [done|]; intros; apply Hl; by right|].
  destruct (Hl k cfg ltac:(left)) as (E1 & E2 & E3). pose proof (inv_wf _ _ _ HI) as W. pose proof (wf_linked _ _ W) as HL.
  destruct (IH (addActivePeer cfg m)) as (H1 & H2 & H3).
  { rewrite <- addActivePeer_with_excludes. subst k. by apply inv_addActivePeer. }
  { intros; apply Hl; by right. }
  split_and!; [done| |].
  - rewrite H2. unfold addActivePeer. by destruct (lm_managedPeers m !! _).
  - intros k' Hn Hv. apply H3; [done|]. destruct (view m (pc_PublicKey cfg)) as [[c w]|] eqn:Ev.
    + apply (view_Some m) in Ev as [Em _]; [|done]. unfold addActivePeer. by rewrite Em.
    + subst k. pose proof (views_addActivePeer (with_excludes ∅ m) p cfg W Ev E2 k') as HV.
      rewrite addActivePeer_with_excludes, !view_with_excludes in HV. rewrite HV, decide_False; [done|]. intros ->. rewrite Ek in Hn. by destruct Hn.
Qed.

Lemma inv_set_excludes e m p O : inv (with_excludes ∅ m) p O →
  (∀ k cfg, e !! k = Some cfg → pc_PublicKey cfg = k ∧ view m k = None ∧ conn_key p (pc_PeerConnID cfg) = Some k ∧
     ∀ id, okS k → ps_store p !! k = Some id → ready p O id) →
  inv (with_excludes e m) p O.
Proof.
  intros [[W1 _ W3 W4 W5 W6 W7 W8 W9] S _] He. split.
  - split; try done. intros k cfg Hk. by destruct (He k cfg Hk) as (? & ? & ? & _).
  - done.
  - intros k id [cfg Hk] Hok Hid. destruct (He k cfg Hk) as (_ & _ & _ & H). auto.
Qed.

Lemma inv_forget_excludes m p O : inv m p O → inv (with_excludes ∅ m) p O.
Proof.
  intros [[W1 _ W3 W4 W5 W6 W7 W8 W9] S _]. split; [by split|done|]. intros k id [c Hc]. cbn in Hc. by rewrite lookup_empty in Hc.
Qed.

Definition keyed (cfgs : list PeerConfig) : gmap string PeerConfig := foldl (λ e cfg, <[pc_PublicKey cfg := cfg]> e) ∅ cfgs.

Lemma keyed_lookup cfgs k cfg : keyed cfgs !! k = Some cfg → cfg ∈ cfgs ∧ pc_PublicKey cfg = k.
Proof.
  unfold keyed. revert cfg. induction cfgs as [|c cfgs IH] using rev_ind; intros cfg; [cbn; by rewrite lookup_empty|].
  rewrite foldl_app. cbn. intros [[<- <-]|[Hn H]]%lookup_insert_Some; [set_solver|]. destruct (IH _ H). set_solver.
Qed.

Lemma keyed_dom cfgs k : is_Some (keyed cfgs !! k) ↔ k ∈ pc_PublicKey <$> cfgs.
Proof.
  clear ok okS. unfold keyed. induction cfgs as [|c cfgs IH] using rev_ind.
  - cbn. rewrite lookup_empty, elem_of_nil. split; [by intros []|done].
  - rewrite foldl_app, fmap_app, elem_of_app, <- IH. cbn. rewrite lookup_insert_is_Some', list_elem_of_singleton. naive_solver.
Qed.

Lemma inv_ExcludePeer seed seed' cfgs m p O : inv m p O →
  (∀ cfg, cfg ∈ cfgs → conn_key p (pc_PeerConnID cfg) = Some (pc_PublicKey cfg)) →
  let '(m', added) := ExcludePeer seed seed' cfgs m in
  inv m' p (O ++ current_all p added) ∧ lm_excludes m' = keyed cfgs ∧
  ∀ k, k ∈ added ↔ k ∈ pc_PublicKey <$> cfgs ∧ lm_excludes m !! k = None.
Proof.
  intros HI Hc. unfold ExcludePeer. fold (keyed cfgs). set (new := keyed cfgs).
  pose proof (exclude_loop (lm_excludes m) ∅ (range_list seed new).*1 m p O []) as H1.
  destruct (foldl (exclude_one (lm_excludes m)) (m, []) (range_list seed new).*1) as [m1 added].
  destruct H1 as (I1 & E1 & V1 & N1 & A1). { cbn. rewrite app_nil_r. by apply inv_forget_excludes. }
  pose proof (readmit_loop new (range_list seed' (lm_excludes m)) m1 p (O ++ current_all p added) I1) as H2.
  set (m2 := foldl (readmit_one new) m1 _) in *. cbv zeta in H2.
  assert (Hin : ∀ k, k ∈ (range_list seed new).*1 ↔ k ∈ pc_PublicKey <$> cfgs).
  { intros k. rewrite <- keyed_dom. fold new. rewrite list_elem_of_fmap. split.
    - intros ([k' c] & -> & Hk%elem_of_range_list). by eexists.
    - intros [c Hk]. exists (k, c). split; [done|]. by apply elem_of_range_list. }
  destruct H2 as (I2 & E2 & V2).
  { intros k cfg Hk%elem_of_range_list. destruct (wf_excluded _ _ (inv_wf _ _ _ HI) _ _ Hk) as (? & ? & ?). split_and!; [done..|].
    intros id Hok Hid. eapply ready_mono; [done|apply list_subseteq_app_l; reflexivity|]. eapply inv_excluded; eauto. }
  split_and!; [|done|].
  - apply inv_set_excludes; [done|]. intros k cfg Hk. destruct (keyed_lookup cfgs k cfg Hk) as [Hcf Epk].
    assert (Hkey : k ∈ (range_list seed new).*1) by (apply Hin, keyed_dom; by eexists). split_and!; [done| |subst k; by apply Hc|].
    + apply V2; [by eexists|]. destruct (lm_excludes m !! k) as [c|] eqn:Eo; [|by apply N1].
      apply V1. by destruct (wf_excluded _ _ (inv_wf _ _ _ HI) _ _ Eo) as (_ & ? & _).
    + intros id Hok Hid. destruct (lm_excludes m !! k) as [c|] eqn:Eo.
      * eapply ready_mono; [done|apply list_subseteq_app_l; reflexivity|]. eapply (inv_excluded m p O HI k); [by eexists|done..].
      * right. apply elem_of_app. right. unfold current_all. apply list_elem_of_In, in_flat_map. exists k. split.
        { apply list_elem_of_In, A1. right. done. }
        { apply list_elem_of_In. unfold current. rewrite Hid. by apply list_elem_of_singleton. }
  - intros k. rewrite A1, Hin. set_solver.
Qed.

Lemma current_all_same p p' keys : same_conns p p' → current_all p' keys = current_all p keys.
Proof. intros Hs. unfold current_all. induction keys as [|k keys IH]; [done|]. cbn. by rewrite IH, (current_same p p'). Qed.

Lemma inv_open_all sys keys m p O : works sys → inv m p (O ++ current_all p keys) →
  inv m (foldl (λ p k, PeerConnOpen sys k p) p keys) O.
Proof.
  intros Hw. revert p. induction keys as [|k keys IH]; intros p HI; [cbn in *; by rewrite app_nil_r in HI|]. cbn [foldl]. apply IH.
  pose proof (PeerConnOpenWithFirstPacket_same sys k [] p) as Hs.
  rewrite (current_all_same p (PeerConnOpen sys k p) keys Hs).
  apply inv_open_pending; [intros; by apply Hw|]. revert HI. apply inv_pend. unfold current_all. cbn. set_solver.
Qed.

(** *** The operations of the connection manager *)

Section World.
Context (GreaterOrEqual : string → string → option bool) (HasIPv6 : bool).

Definition world_inv (w : World) : Prop :=
  match lazy_of w with Some m => inv m (w_peers w) (w_opening w) | None => True end.

Lemma excludedPeers_spec p keys cfg : cfg ∈ excludedPeers p keys →
  pc_PublicKey cfg ∈ keys ∧ ps_store p !! pc_PublicKey cfg = Some (pc_PeerConnID cfg).
Proof.
  unfold excludedPeers. rewrite list_elem_of_omap. intros (k & Hk & H). destruct (ps_store p !! k) as [id|] eqn:E; [|done].
  cbn in H. destruct (ps_conns p !! id); [|done]. cbn in H. by simplify_eq.
Qed.

Lemma world_SetExcludeList sys s1 s2 s3 peerIDs w : works sys → world_inv w → world_inv (SetExcludeList sys s1 s2 s3 peerIDs w).
Proof.
  intros Hw HI. unfold SetExcludeList, world_inv in *. destruct (lazy_of w) as [m|] eqn:El; [|by rewrite El].
  case_decide; [by rewrite El|].
  pose proof (inv_ExcludePeer s2 s3 (excludedPeers (w_peers w) (range_set s1 peerIDs)) m (w_peers w) (w_opening w) HI) as H1.
  destruct (ExcludePeer _ _ _ _) as [m' added]. destruct H1 as (I1 & _ & _).
  { intros cfg [_ Hst]%excludedPeers_spec. by apply (wf_store _ _ (inv_wf _ _ _ HI)). }
  cbn. by apply inv_open_all.
Qed.

(** A new connection is stored under a key that has none. *)
Definition stored_new (k : string) (ips : list Prefix) (v : string) (p : Peers) : Peers :=
  let '(id, p) := NewConn k ips v p in
  {| ps_conns := ps_conns p; ps_next := ps_next p; ps_store := <[k := id]> (ps_store p); ps_idle := ps_idle p |}.

Lemma stored_new_key k ips v p id : conn_key (stored_new k ips v p) id = if decide (id = ps_next p) then Some k else conn_key p id.
Proof.
  unfold conn_key. cbn. destruct (decide (id = ps_next p)) as [->|Hn]; [by rewrite lookup_insert_eq|by rewrite lookup_insert_ne].
Qed.

Lemma no_key_next m p : wf m p → conn_key p (ps_next p) = None.
Proof. intros W. apply eq_None_not_Some. intros H%(wf_next _ _ W). lia. Qed.

Lemma inv_stored_new k ips v m p O : ps_store p !! k = None → inv m p O → inv m (stored_new k ips v p) (O ++ [ps_next p]).
Proof.
  intros Hk [[W1 W2 W3 W4 W5 W6 W7 W8 W9] S E]. set (p' := stored_new k ips v p).
  assert (W : wf m p) by by split. pose proof (no_key_next m p W) as Hnone.
  assert (Hkey : ∀ id k', conn_key p id = Some k' → conn_key p' id = Some k').
  { intros id k' H. unfold p'. rewrite stored_new_key. case_decide; [congruence|done]. }
  assert (Hr : ∀ k' id, k' ≠ k → ps_store p' !! k' = Some id → ps_store p !! k' = Some id).
  { intros k' id Hn. cbn. by rewrite lookup_insert_ne. }
  assert (Hready : ∀ k' id, ps_store p' !! k' = Some id → (k' ≠ k → ready p O id) → ready p' (O ++ [ps_next p]) id).
  { intros k' id Hid H. destruct (decide (k' = k)) as [->|Hn].
    - cbn in Hid. rewrite lookup_insert_eq in Hid. injection Hid as <-. right. set_solver.
    - eapply ready_mono; [|apply list_subseteq_app_l; reflexivity|by apply H]. intros (c & Hc & Ho). exists c. split; [|done].
      cbn. rewrite lookup_insert_ne; [done|]. intros <-. unfold conn_key in Hnone. by rewrite Hc in Hnone. }
  split.
  - split; try done.
    + intros k' cfg H. destruct (W2 _ _ H) as (? & ? & ?). auto.
    + intros k' cfg w' H. destruct (W3 _ _ _ H). auto.
    + intros k' id Hid. destruct (decide (k' = k)) as [->|Hn]; [|apply Hkey; eauto].
      cbn in Hid. rewrite lookup_insert_eq in Hid. injection Hid as <-. unfold p'. by rewrite stored_new_key, decide_True.
    + intros id. unfold p'. rewrite stored_new_key. cbn. case_decide; [intros _; lia|]. intros Hx%W5. lia.
  - intros k' Hok id Hid. destruct (decide (k' = k)) as [->|Hn]; [left; apply (Hready k); done|].
    destruct (S k' Hok id (Hr _ _ Hn Hid)) as [H|H]; [left; by apply (Hready k')|by right].
  - intros k' id He Hok Hid. apply (Hready k'); [done|]. intros Hn. eauto.
Qed.

Definition new_config (k : string) (ips : list Prefix) (p : Peers) : PeerConfig :=
  {| pc_PublicKey := k; pc_AllowedIPs := ips; pc_PeerConnID := ps_next p |}.

Lemma AddPeerConn_new sys k ips v permanent w : ps_store (w_peers w) !! k = None →
  let id := ps_next (w_peers w) in
  let p := stored_new k ips v (w_peers w) in
  AddPeerConn GreaterOrEqual sys k id permanent (with_conn (NewConn k ips v (w_peers w)).2 w) =
  match lazy_of w with
  | None => (with_conn (open_at sys [] id p) w, false)
  | Some m =>
      if permanent || negb (IsSupported GreaterOrEqual v) then (with_conn (open_at sys [] id p) w, false)
      else
        let '(m, p, excluded, err) := AddPeer sys (new_config k ips (w_peers w)) m p in
        (with_lazy_peers m (if err || excluded then open_at sys [] id p else p) w, false)
  end.
Proof.
  intros Ek. unfold AddPeerConn, store_AddPeerConn. cbn. rewrite Ek. cbn. rewrite lookup_insert_eq. unfold lazy_of. cbn.
  destruct (cm_lazyConnMgr (w_mgr w)) as [m|]; [|done]. destruct permanent; [done|]. cbn.
  destruct (IsSupported GreaterOrEqual v); [|done]. cbn. unfold config_of_conn, new_config, stored_new. cbn.
  destruct (AddPeer _ _ _ _) as [[[m' p'] []] []]; done.
Qed.

Lemma new_not_viewed k ips m p c w : wf m p → view m k = Some (c, w) → pc_PeerConnID c ≠ pc_PeerConnID (new_config k ips p).
Proof.
  intros W Hv E. destruct (wf_ids _ _ W _ _ _ Hv) as [_ Hid]. cbn in E. rewrite E in Hid. by rewrite (no_key_next m p W) in Hid.
Qed.

Lemma world_addNewPeer sys r w : works sys → world_inv w → world_inv (addNewPeer GreaterOrEqual HasIPv6 sys r w).1.
Proof.
  intros Hw HI. unfold addNewPeer. set (k := rp_WgPubKey r). destruct (ps_store (w_peers w) !! k) eqn:Ek; [done|].
  destruct (usable_prefixes HasIPv6 (rp_AllowedIps r)) as [[|ip ips]|]; [done| |done]. destruct (sys_create sys k); [|done]. cbn [negb].
  pose proof (AddPeerConn_new sys k (ip :: ips) (rp_AgentVersion r) (negb (PeerLazyDefault (w_mgr w) (rp_LazyState r))) w Ek) as HA.
  cbn zeta in HA. cbn [NewConn snd] in HA |- *. rewrite HA. clear HA. unfold world_inv in *.
  set (p' := stored_new k (ip :: ips) (rp_AgentVersion r) (w_peers w)). set (id := ps_next (w_peers w)).
  destruct (lazy_of w) as [m|] eqn:El; [|unfold lazy_of in *; cbn; by rewrite El].
  pose proof (inv_stored_new k (ip :: ips) (rp_AgentVersion r) m _ _ Ek HI) as I1. fold id p' in I1.
  assert (Hkey : conn_key p' id = Some k) by (unfold p'; by rewrite stored_new_key, decide_True).
  destruct (_ || _).
  { unfold lazy_of in *. cbn. rewrite El. apply (inv_open_at sys [] id k); [done|intros; by apply Hw|done]. }
  pose proof (inv_LazyAddPeer sys (new_config k (ip :: ips) (w_peers w)) m p' (w_opening w) Hw I1) as H.
  cbn [new_config pc_PublicKey pc_PeerConnID] in H. fold id in H.
  assert (Hst : ps_store p' !! k = Some id) by (unfold p'; cbn; by rewrite lookup_insert_eq). specialize (H Hst).
  destruct (AddPeer sys _ m p') as [[[m' p''] excluded] err]. destruct H as [H Hs].
  { intros c' w' Hv. exact (new_not_viewed k (ip :: ips) m _ c' w' (inv_wf _ _ _ HI) Hv). }
  cbn. destruct (err || excluded); [|done]. apply (inv_open_at sys [] id k); [|intros; by apply Hw|exact H]. by rewrite (sc_key _ _ Hs).
Qed.

Lemma world_RemovePeerConn k w : world_inv w → world_inv (RemovePeerConn k w).
Proof.
  intros HI. unfold RemovePeerConn. destruct (ps_store (w_peers w) !! k) as [id|] eqn:Ek; [|done]. unfold world_inv in *.
  destruct (lazy_of w) as [m|] eqn:El; [|unfold lazy_of in *; cbn; by rewrite El]. cbn.
  pose proof (inv_removePeer m (w_peers w) (w_opening w) k HI) as I1. unfold current in I1. rewrite Ek in I1. cbn [option_list] in I1.
  set (p := store_Remove k (w_peers w)). assert (I2 : inv (removePeer k m) p (w_opening w)).
  { destruct I1 as [[W1 W2 W3 W4 W5 W6 W7 W8 W9] S E].
    assert (Hd : ∀ k' id', ps_store p !! k' = Some id' → ps_store (w_peers w) !! k' = Some id' ∧ k' ≠ k).
    { intros k' id'. cbn. rewrite lookup_delete_Some. naive_solver. }
    assert (Hr : ∀ k' id', ps_store p !! k' = Some id' → ready (w_peers w) (w_opening w ++ [id]) id' → ready p (w_opening w) id').
    { intros k' id' Hid [H|H]; [by left|]. apply elem_of_app in H as [H|H]; [by right|]. apply list_elem_of_singleton in H as ->.
      destruct (Hd _ _ Hid) as [H1 H2]. apply W4 in H1. apply W4 in Ek. congruence. }
    split.
    - split; try done. intros k' id' Hid. by apply W4, Hd.
    - intros k' Hok id' Hid. destruct (S k' Hok id') as [H|H]; [by apply Hd|left; eauto|by right].
    - intros k' id' He Hok Hid. eapply Hr; [done|]. destruct (Hd _ _ Hid). eauto. }
  revert I2. apply inv_ready; [apply close_at_same|]. intros k' id' _ Hid. apply ready_mono; [|done]. apply opened_close_at.
  intros ->. cbn in Hid. apply lookup_delete_Some in Hid as [Hn Hid]. pose proof (wf_store _ _ (inv_wf _ _ _ HI)) as Hst.
  apply Hst in Hid. apply Hst in Ek. congruence.
Qed.

Lemma world_removeAll keys w : world_inv w → world_inv (removeAll keys w).
Proof. unfold removeAll. revert w. induction keys as [|k keys IH]; intros w HI; [done|]. apply IH. by apply world_RemovePeerConn. Qed.

Lemma world_addNewPeers sys rs w : works sys → world_inv w → world_inv (addNewPeers GreaterOrEqual HasIPv6 sys rs w).1.
Proof.
  intros Hw. revert w. induction rs as [|r rs IH]; intros w HI; [done|]. cbn.
  pose proof (world_addNewPeer sys r w Hw HI) as H. destruct (addNewPeer _ _ sys r w) as [w' []]; [done|by apply IH].
Qed.

Lemma world_sync sys seeds isEmpty rs w : works sys → world_inv w → world_inv (sync GreaterOrEqual HasIPv6 sys seeds isEmpty rs w).1.
Proof.
  intros Hw HI. destruct seeds as [[[s0 s1] s2] s3]. unfold sync, reconcilePeers. destruct isEmpty.
  { cbn. apply world_SetExcludeList; [done|]. by apply world_removeAll. }
  assert (H1 : world_inv (removePeers s0 rs w)) by (by apply world_removeAll). revert H1. generalize (removePeers s0 rs w) as w1. intros w1 H1.
  unfold modifyPeers.
  pose proof (world_addNewPeers sys (filter (λ r, is_modified HasIPv6 (w_peers w1) r = true) rs) _ Hw
    (world_removeAll (rp_WgPubKey <$> filter (λ r, is_modified HasIPv6 (w_peers w1) r = true) rs) w1 H1)) as H2.
  destruct (addNewPeers _ _ sys _ _) as [w2 []]; [done|]. cbn [fst] in H2.
  pose proof (world_addNewPeers sys rs w2 Hw H2) as H3. destruct (addNewPeers _ _ sys rs w2) as [w3 []]; [done|]. by apply world_SetExcludeList.
Qed.

Lemma inv_activity m a p O : inv m p O → (∀ id, is_Some (ac_peers a !! id) → is_Some (ac_peers (lm_activityManager m) !! id)) →
  (∀ id, heard (lm_activityManager m) id → heard a id) → ac_done a = false → inv (with_activity a m) p O.
Proof.
  intros [[W1 W2 W3 W4 W5 W6 W7 W8 W9] S E] Hl Hh Hd. split; [|done|done]. split; try done.
  - intros id H. by apply W6, Hl.
  - intros k cfg Hv Hok. apply Hh. by eapply W8.
Qed.

Lemma inv_inactivity m i i' p O : inv m p O → lm_inactivityManager m = i → (in_interestedPeers <$> i') = (in_interestedPeers <$> i) →
  inv (with_inactivity i' m) p O.
Proof.
  intros [[W1 W2 W3 W4 W5 W6 W7 W8 W9] S E] Hi Ei. split; [|done|done]. split; try done. cbn. intros n k ->.
  destruct i as [n0|]; [|done]. cbn in Ei. injection Ei as ->. by apply W7.
Qed.

(** An event may be taken once its peer does not wait any more. *)
Lemma inv_take_event i ev m p O : ac_OnActivityChan (lm_activityManager m) !! i = Some ev →
  (∀ k cfg, view m k = Some (cfg, watcherActivity) → pc_PeerConnID cfg ≠ av_PeerConnID ev) →
  inv m p O → inv (with_activity (take_event i (lm_activityManager m)) m) p O.
Proof.
  intros Hi Hev [[W1 W2 W3 W4 W5 W6 W7 W8 W9] S E]. split; [|done|done]. split; try done. cbn. intros k cfg Hv Hok.
  destruct (W8 k cfg Hv Hok) as [H|H]; [by left|right]. cbn. apply list_elem_of_fmap in H as (e & He & Hin).
  apply list_elem_of_fmap. exists e. split; [done|]. destruct (elem_of_delete _ i e ev Hi Hin) as [->|Hd]; [|done].
  by destruct (Hev k cfg Hv).
Qed.

Lemma activated_take cfg i m :
  activated cfg (with_activity (take_event i (lm_activityManager m)) m) =
  with_activity (take_event i (lm_activityManager (activated cfg m))) (activated cfg m).
Proof.
  unfold activated, activity_RemovePeer. cbn. destruct (ac_peers (lm_activityManager m) !! pc_PeerConnID cfg) as [l|] eqn:E; [|done].
  unfold read_returns. cbn. by destruct (ac_reading (lm_activityManager m) !! l).
Qed.

Lemma inv_receive_activity sys i m p O : works sys → inv m p O →
  inv (receive_activity sys i m p).1 (receive_activity sys i m p).2 O.
Proof.
  intros Hw HI. unfold receive_activity. destruct (ac_OnActivityChan (lm_activityManager m) !! i) as [ev|] eqn:Ei; [|done].
  pose proof (wf_linked _ _ (inv_wf _ _ _ HI)) as HL. unfold onPeerActivity. cbn [lm_managedPeersByConnID with_activity with_peers].
  destruct (lm_managedPeersByConnID m !! av_PeerConnID ev) as [mp|] eqn:Eb.
  2:{ apply (inv_take_event i ev); [done| |done]. intros k cfg Hv E. apply view_Some in Hv as [_ Hb]; [|done]. congruence. }
  destruct (view_byID m _ mp HL Eb) as [Hv Eid]. destruct (mp_expectedWatcher mp) eqn:Ew.
  2:{ apply (inv_take_event i ev); [done| |done]. intros k cfg Hv' E. apply view_Some in Hv' as [_ Hb]; [|done].
      rewrite E, Eb in Hb. injection Hb as ->. done. }
  rewrite activateSinglePeer_eq, decide_True by done. cbn [negb]. rewrite activated_take.
  pose proof (inv_after_wake sys (av_FirstPacket ev) (mp_peerCfg mp)
    (with_activity (take_event i (lm_activityManager (activated (mp_peerCfg mp) m))) (activated (mp_peerCfg mp) m)) p O Hw) as H.
  destruct (activateHAGroupPeers _ _ _ _) as [m' p']. apply H. apply (inv_take_event i ev).
  - cbn. by destruct (activity_RemovePeer_spec (pc_PeerConnID (mp_peerCfg mp)) (lm_activityManager m)) as (_ & -> & _).
  - intros k cfg. rewrite (views_activated m _ _ HL Hv). case_decide as Hk; [done|]. intros Hv' E.
    apply view_Some in Hv' as [Hm Hb]; [|done]. rewrite E, Eb in Hb. injection Hb as ->. cbn in Hv.
    destruct (lk_managed _ _ HL _ _ Hm). done.
  - by apply inv_activated.
Qed.

Lemma inv_receive_inactivity sys seed m p O : works sys → inv m p O →
  inv (receive_inactivity sys seed m p).1 (receive_inactivity sys seed m p).2 O.
Proof.
  intros Hw HI. unfold receive_inactivity. destruct (lm_inactivityManager m) as [n|] eqn:En; [|done]. destruct (in_chan n); [|done].
  apply inv_onPeerInactivityTimedOut; [done|]. by eapply inv_inactivity.
Qed.

Lemma inactivity_tick_same acts now n : in_interestedPeers (inactivity_tick acts now n) = in_interestedPeers n.
Proof. unfold inactivity_tick. by case_decide. Qed.

(** A warm-up may hold a connection that was replaced; it is left out where
    connections have to be opened. *)
Definition fine (o : op) : Prop := match o with WWarmUp _ => ∀ k, ¬ okS k | _ => True end.

Lemma inv_mgr_activate sys id m p O : works sys → inv m p O → (∀ k, okS k → ps_store p !! k = Some id ∨ conn_key p id ≠ Some k) →
  ∀ c, ps_conns p !! id = Some c →
  let '(m', p', found) := ActivatePeer sys (cn_Key c) m p in inv m' p' (if found then O ++ [id] else O).
Proof.
  intros Hw HI Hcur c Hc. pose proof (inv_ActivatePeer sys (cn_Key c) m p O Hw HI) as H.
  destruct (ActivatePeer sys (cn_Key c) m p) as [[m' p'] []] eqn:EA; [|done]. revert H. apply inv_ready; [done|].
  assert (Hs : same_conns p p').
  { revert EA. unfold ActivatePeer. destruct (getPeerForActivation _ _) as [[cfg mp]|]; [|done].
    destruct (activateSinglePeer cfg mp m) as [m1 []]; [|done].
    pose proof (activate_all_same sys (peersToActivate m1 (pc_PublicKey cfg)) m1 p) as Hs. unfold activateHAGroupPeers.
    destruct (foldl _ _ _) as [m2 p2]. intros [= <- <-]. done. }
  intros k id' Hok Hid [H|H]; [by left|right]. apply elem_of_app in H as [H|H]; [set_solver|]. rewrite (sc_store _ _ Hs) in Hid.
  unfold current in H. destruct (ps_store p !! cn_Key c) as [id0|] eqn:E0; [|by apply elem_of_nil in H]. apply list_elem_of_singleton in H as ->.
  pose proof (wf_store _ _ (inv_wf _ _ _ HI)) as Hst. assert (k = cn_Key c) as -> by (apply Hst in Hid; apply Hst in E0; congruence).
  destruct (Hcur _ Hok) as [Hq|Hq]; [set_solver|]. unfold conn_key in Hq. by rewrite Hc in Hq.
Qed.

Lemma world_ActivatePeer sys id w : works sys → world_inv w →
  (∀ m k, lazy_of w = Some m → okS k → ps_store (w_peers w) !! k = Some id ∨ conn_key (w_peers w) id ≠ Some k) →
  world_inv (mgr_ActivatePeer sys id w).
Proof.
  intros Hw HI Hcur. unfold mgr_ActivatePeer, world_inv in *. destruct (lazy_of w) as [m|] eqn:El; [|by rewrite El].
  destruct (ps_conns (w_peers w) !! id) as [c|] eqn:Ec; [|by rewrite El].
  pose proof (inv_mgr_activate sys id m _ _ Hw HI (λ k, Hcur m k eq_refl) c Ec) as H. by destruct (ActivatePeer _ _ _ _) as [[m' p'] found].
Qed.

Lemma world_on_lazy f w : (∀ m, lazy_of w = Some m → inv m (w_peers w) (w_opening w) → inv (f m (w_peers w)).1 (f m (w_peers w)).2 (w_opening w)) →
  world_inv w → world_inv (on_lazy f w).
Proof.
  intros Hf HI. unfold on_lazy, world_inv in *. destruct (lazy_of w) as [m|] eqn:El; [|by rewrite El].
  specialize (Hf m eq_refl HI). by destruct (f m (w_peers w)) as [m' p'].
Qed.

Lemma world_step w sys o : works sys → fine o → world_inv w → world_inv (step GreaterOrEqual HasIPv6 w (sys, o)).
Proof.
  intros Hw Hf HI. destruct o as [seeds isEmpty rs|r|k|[[s1 s2] s3] ids|b|seed hm|k|id|i|k|l packet|i|i|acts now|seed|]; cbn [step].
  - by apply world_sync.
  - by apply world_addNewPeer.
  - by apply world_RemovePeerConn.
  - by apply world_SetExcludeList.
  - exact HI.
  - unfold mgr_UpdateRouteHAMap, world_inv in *. destruct (lazy_of w) as [m|] eqn:El; [|by rewrite El]. cbn. by apply inv_UpdateRouteHAMap.
  - destruct (ps_store (w_peers w) !! k) as [id|] eqn:Ek; [|done]. apply world_ActivatePeer; [done..|]. intros m k' El _.
    destruct (decide (k' = k)) as [->|Hn]; [by left|right]. unfold world_inv in HI. rewrite El in HI.
    pose proof (wf_store _ _ (inv_wf _ _ _ HI) _ _ Ek). congruence.
  - apply world_ActivatePeer; [done..|]. intros m k' _ Hok. by destruct (Hf k').
  - unfold finish_activation, world_inv in *. destruct (w_opening w !! i) as [id|] eqn:Ei; [|done]. unfold lazy_of in *. cbn.
    destruct (cm_lazyConnMgr (w_mgr w)) as [m|]; [|done].
    assert (HI' : inv m (w_peers w) (delete i (w_opening w) ++ [id])).
    { revert HI. apply inv_pend. intros x Hx. destruct (elem_of_delete _ i x id Ei Hx) as [->|?]; set_solver. }
    destruct (conn_key (w_peers w) id) as [k|] eqn:Ek; [by apply (inv_open_at sys [] id k); [|intros; apply Hw|]|].
    revert HI'. apply inv_ready; [apply open_at_same|]. intros k id' _ Hid [H|H]; [left; by apply opened_open_at|right].
    apply elem_of_app in H as [H|H]; [done|]. apply list_elem_of_singleton in H as ->. apply (wf_store _ _ (inv_wf _ _ _ HI)) in Hid. congruence.
  - destruct (ps_store (w_peers w) !! k) as [id|]; [|done]. unfold mgr_DeactivatePeer, world_inv in *.
    destruct (lazy_of w) as [m|] eqn:El; [|by rewrite El]. pose proof (inv_DeactivatePeer sys id m _ _ Hw HI) as H.
    by destruct (DeactivatePeer sys id m (w_peers w)).
  - apply world_on_lazy; [|done]. intros m El HI'. cbn. destruct (read_returns_same l packet (lm_activityManager m)) as (E1 & E2 & E3).
    apply inv_activity; [done| | |by rewrite E3; apply (inv_wf _ _ _ HI')].
    + by rewrite E1.
    + unfold heard. by rewrite E1, E2.
  - apply world_on_lazy; [|done]. intros m El HI'. cbn.
    destruct (waiter_spec i (lm_activityManager m)) as (H1 & H2 & H3); [apply (inv_wf _ _ _ HI')|].
    apply inv_activity; [done| |done..]. intros id [l' Hl]. apply H3 in Hl. by eexists.
  - apply world_on_lazy; [|done]. intros m El HI'. by apply inv_receive_activity.
  - apply world_on_lazy; [|done]. intros m El HI'. cbn. eapply inv_inactivity; [done..|].
    destruct (lm_inactivityManager m) as [n|]; [|done]. cbn. by rewrite inactivity_tick_same.
  - apply world_on_lazy; [|done]. intros m El HI'. by apply inv_receive_inactivity.
  - unfold mgr_Close, world_inv in *. destruct (lazy_of w) as [m|] eqn:El; [done|by rewrite El].
Qed.

Lemma world_started env mdm userspace threshold : world_inv (started env mdm userspace threshold).
Proof.
  unfold world_inv. cbn. assert (Hno : ∀ id, conn_key no_peers id = None) by done. split; [split|..]; cbn; try done.
  - intros id. rewrite Hno. by intros [].
  - intros id [? H]. by rewrite lookup_empty in H.
  - intros i k. destruct userspace; [|done]. intros [= <-]. cbn. split; [intros [? H]; by rewrite lookup_empty in H|by intros (? & ?)].
Qed.

Lemma world_run env mdm userspace threshold ops : Forall (λ o, works o.1 ∧ fine o.2) ops →
  world_inv (run GreaterOrEqual HasIPv6 (started env mdm userspace threshold) ops).
Proof.
  unfold run. induction ops as [|[sys o] ops IH] using rev_ind; intros HF; [apply world_started|].
  apply Forall_app in HF as [HF [[H1 H2] _]%Forall_cons]. rewrite foldl_app. cbn [foldl]. apply world_step; auto.
Qed.
End World.
End Invariant.

(** ** Theorems on runs *)

Section Runs.
Context {MO : MapOrder} (GreaterOrEqual : string → string → option bool) (HasIPv6 : bool).
Context (env mdm : State) (userspaceBind : bool) (threshold : option Z).

Definition world_after (ops : list (Sys * op)) : World := run GreaterOrEqual HasIPv6 (started env mdm userspaceBind threshold) ops.

Definition is_warm_up (o : op) : bool := match o with WWarmUp _ => true | _ => false end.

(** C38. Along every run: a peer that is managed is not excluded, and it has the
    watcher it expects and not the other one.  While it waits its listener is
    armed or has already reported traffic, as long as listeners can be armed;
    while it is connected its idleness is watched, where the manager has an
    inactivity manager (with a userspace bind; in kernel mode there is none).
    No listener and no idle watch is left behind. *)
Theorem lazy_watched ops m k : Forall (λ o, sys_arm o.1 k = true) ops → lazy_of (world_after ops) = Some m →
  match view m k with
  | Some (cfg, watcherActivity) =>
      pc_PublicKey cfg = k ∧ lm_excludes m !! k = None ∧ heard (lm_activityManager m) (pc_PeerConnID cfg) ∧
      ∀ i, lm_inactivityManager m = Some i → in_interestedPeers i !! k = None
  | Some (cfg, watcherInactivity) =>
      pc_PublicKey cfg = k ∧ lm_excludes m !! k = None ∧ ac_peers (lm_activityManager m) !! pc_PeerConnID cfg = None ∧
      ∀ i, lm_inactivityManager m = Some i → is_Some (in_interestedPeers i !! k)
  | None => ∀ i, lm_inactivityManager m = Some i → in_interestedPeers i !! k = None
  end ∧
  ∀ id, is_Some (ac_peers (lm_activityManager m) !! id) → ∃ k' cfg, view m k' = Some (cfg, watcherActivity) ∧ pc_PeerConnID cfg = id.
Proof.
  intros Hops El. assert (W : wf (eq k) m (w_peers (world_after ops))).
  { pose proof (world_run (eq k) (λ _, False) GreaterOrEqual HasIPv6 env mdm userspaceBind threshold ops) as H. fold (world_after ops) in H.
    unfold world_inv in H. rewrite El in H. apply H. eapply Forall_impl; [exact Hops|]. intros [sys o] Ha. cbn in *. split.
    - intros k'. split; [by intros <-|done].
    - destruct o; cbn; auto. }
  assert (Hne : ∀ cfg w, view m k = Some (cfg, w) → lm_excludes m !! k = None).
  { intros cfg w Hv. destruct (lm_excludes m !! k) as [c|] eqn:E; [|done]. destruct (wf_excluded _ _ _ W _ _ E) as (_ & ? & _). congruence. }
  assert (Hint : ∀ i, lm_inactivityManager m = Some i → (∀ cfg, view m k ≠ Some (cfg, watcherInactivity)) → in_interestedPeers i !! k = None).
  { intros i Hi Hno. apply eq_None_not_Some. rewrite (wf_interested _ _ _ W i k Hi). intros [cfg ?]. by destruct (Hno cfg). }
  split; [|apply W]. destruct (view m k) as [[cfg []]|] eqn:Hv.
  - split_and!; [by destruct (wf_ids _ _ _ W _ _ _ Hv)|by eapply Hne|by eapply (wf_awake _ _ _ W)|]. intros i Hi. by apply Hint.
  - split_and!; [by destruct (wf_ids _ _ _ W _ _ _ Hv)|by eapply Hne| |].
    + apply eq_None_not_Some. intros H. destruct (wf_listening _ _ _ W _ H) as (k' & c & Hv' & E).
      destruct (wf_ids _ _ _ W _ _ _ Hv) as [_ E1]. destruct (wf_ids _ _ _ W _ _ _ Hv') as [_ E2]. rewrite E in E2. congruence.
    + intros i Hi. rewrite (wf_interested _ _ _ W i k Hi). eauto.
  - intros i Hi. by apply Hint.
Qed.

(** C37. Nobody is stranded: when listeners can be armed and connections opened, the
    connection of every stored peer is open, or about to be opened, or its
    peer waits for traffic that is listened for.  What remains is a peer that
    is managed under a connection it had before. *)
Theorem nobody_stranded ops m k id :
  Forall (λ o, sys_arm o.1 k = true ∧ sys_open o.1 k = true ∧ is_warm_up o.2 = false) ops →
  lazy_of (world_after ops) = Some m → ps_store (w_peers (world_after ops)) !! k = Some id →
  opened (w_peers (world_after ops)) id ∨ id ∈ w_opening (world_after ops) ∨
  (∃ cfg, view m k = Some (cfg, watcherActivity) ∧ pc_PeerConnID cfg = id ∧ heard (lm_activityManager m) id) ∨
  (∃ cfg w, view m k = Some (cfg, w) ∧ pc_PeerConnID cfg ≠ id).
Proof.
  intros Hops El Hid. pose proof (world_run (eq k) (eq k) GreaterOrEqual HasIPv6 env mdm userspaceBind threshold ops) as H.
  fold (world_after ops) in H. unfold world_inv in H. rewrite El in H. destruct H as [W S _].
  { eapply Forall_impl; [exact Hops|]. intros [sys o] (Ha & Ho & Hn). cbn in *. split; [by intros k'; split; intros <-|by destruct o]. }
  destruct (S k eq_refl id Hid) as [[?|?]|(cfg & w & Hv & Hw)]; [tauto|tauto|]. right. right.
  destruct (decide (pc_PeerConnID cfg = id)) as [E|E]; [left|right; eauto]. rewrite (Hw E) in Hv. exists cfg. split_and!; [done..|].
  rewrite <- E. by eapply (wf_awake _ _ _ W).
Qed.
End Runs.
