(* ===== verification/LazyGroups.v ===== *)
(** * Connections on demand: groups

    The peers that route the same networks are woken together and put to sleep
    together; the lists of the last network map decide who belongs to whom. *)
From S2P Require Import Prelude GoStrings NetIP NetParse FwGen LazyConn ConnMgr LazyFacts.
Open Scope Z_scope.

(** ** Groups *)

Definition partner (m : Manager) (k k' : string) : Prop := ∃ g, g ∈ groups_of m k ∧ k' ∈ peers_of m g.

#[global] Instance partner_dec m k k' : Decision (partner m k k').
Proof.
  refine (cast_if (decide (Exists (λ g, k' ∈ peers_of m g) (groups_of m k)))).
  - abstract (apply Exists_exists in e as (g & ? & ?); by exists g).
  - abstract (intros (g & ? & ?); apply n, Exists_exists; by exists g).
Defined.

Lemma elem_of_distinct acc l x : x ∈ foldl add_distinct acc l ↔ x ∈ acc ∨ x ∈ l.
Proof.
  revert acc. induction l as [|y l IH]; intros acc; cbn; [set_solver|]. rewrite IH. unfold add_distinct.
  case_bool_decide; set_solver.
Qed.

(** A group of a route list: the peers it names, when there are two. *)
Definition grouped (haMap : list (string * list string)) (g : string) (k : string) : Prop :=
  ∃ routes, (g, routes) ∈ haMap ∧ k ∈ routes ∧ ∃ k', k' ∈ routes ∧ k' ≠ k.

Record groups_ok (l : list (string * list string)) (P G : gmap string (list string)) : Prop := {
  go_groups : ∀ g k, k ∈ default [] (G !! g) ↔ grouped l g k;
  go_peers : ∀ g k, g ∈ default [] (P !! k) ↔ k ∈ default [] (G !! g);
}.

Lemma add_to_groups g (peers : list string) (P : gmap string (list string)) k g' :
  g' ∈ default [] (foldl (λ m peerID, <[peerID := default [] (m !! peerID) ++ [g]]> m) P peers !! k) ↔
  g' ∈ default [] (P !! k) ∨ g' = g ∧ k ∈ peers.
Proof.
  revert P. induction peers as [|q peers IH]; intros P; cbn; [set_solver|]. rewrite IH. destruct (decide (q = k)) as [->|Hn].
  - rewrite lookup_insert_eq. cbn. set_solver.
  - rewrite lookup_insert_ne by done. set_solver.
Qed.

Lemma short_distinct l k k' : (length (foldl add_distinct [] l) ≤ 1)%nat → k ∈ l → k' ∈ l → k = k'.
Proof.
  intros Hl Hk Hk'. assert (H1 : k ∈ foldl add_distinct [] l) by (apply elem_of_distinct; by right).
  assert (H2 : k' ∈ foldl add_distinct [] l) by (apply elem_of_distinct; by right).
  destruct (foldl add_distinct [] l) as [|x [|y r]]; cbn in Hl; [by apply elem_of_nil in H1| |lia].
  apply list_elem_of_singleton in H1, H2. congruence.
Qed.

Lemma update_groups_ok l : NoDup l.*1 → groups_ok l (foldl update_group (∅, ∅) l).1 (foldl update_group (∅, ∅) l).2.
Proof.
  induction l as [|[g routes] l IH] using rev_ind; intros Hnd.
  { split; intros; cbn; rewrite !lookup_empty; cbn; unfold grouped; set_solver. }
  rewrite fmap_app in Hnd. apply NoDup_app in Hnd as (Hnd & Hd & _). destruct (IH Hnd) as [I1 I2]. clear IH.
  rewrite foldl_app. cbn [foldl]. destruct (foldl update_group (∅, ∅) l) as [P G]. cbn [fst snd] in *. unfold update_group.
  assert (Hg : ∀ k, ¬ grouped l g k).
  { intros k (r & Hr & _). apply (Hd g); [|by left]. apply list_elem_of_fmap. by exists (g, r). }
  assert (Hgr : ∀ g' k, grouped (l ++ [(g, routes)]) g' k ↔ grouped l g' k ∨ g' = g ∧ k ∈ routes ∧ ∃ k', k' ∈ routes ∧ k' ≠ k).
  { intros g' k. unfold grouped. split.
    - intros (r & [Hr|Hr%list_elem_of_singleton]%elem_of_app & H); [left; eauto|right]. by injection Hr as -> ->.
    - intros [(r & Hr & H)|(-> & H)]; [exists r|exists routes]; (split; [set_solver|done]). }
  set (peers := foldl add_distinct [] routes). destruct (Nat.leb_spec (length peers) 1) as [Hl|Hl].
  - split; [|done]. intros g' k. rewrite I1, Hgr. split; [by left|]. intros [H|(-> & H1 & k' & H2 & H3)]; [done|].
    exfalso. apply H3. by eapply short_distinct.
  - assert (Hp : ∀ k, k ∈ peers ↔ k ∈ routes ∧ ∃ k', k' ∈ routes ∧ k' ≠ k).
    { intros k. unfold peers. rewrite elem_of_distinct. split; [intros [H%elem_of_nil|H]; [done|]|intros [? _]; by right]. split; [done|].
      destruct (decide (Exists (λ k', k' ≠ k) routes)) as [He|He]; [by apply Exists_exists in He|].
      exfalso. assert (Hall : ∀ x, x ∈ peers → x = k).
      { intros x Hx. destruct (decide (x = k)); [done|]. exfalso. apply He, Exists_exists. exists x. split; [|done].
        unfold peers in Hx. apply elem_of_distinct in Hx as [?%elem_of_nil|?]; done. }
      assert (Hnd' : NoDup peers).
      { unfold peers. clear. assert (Hgen : ∀ acc, NoDup acc → NoDup (foldl add_distinct acc routes)); [|apply Hgen; constructor].
        induction routes as [|y r IH]; intros acc Ha; [done|]. cbn. apply IH. unfold add_distinct. case_bool_decide; [done|].
        apply NoDup_app. split_and!; [done| |by apply NoDup_singleton]. intros z Hz ->%list_elem_of_singleton. done. }
      destruct peers as [|x [|y r]]; cbn in Hl; [lia..|]. apply NoDup_cons in Hnd' as [Hx _].
      apply Hx. rewrite (Hall x), (Hall y) by set_solver. left. }
    cbn [fst snd]. assert (I1' : ∀ g' k, k ∈ default [] (<[g:=peers]> G !! g') ↔ grouped (l ++ [(g, routes)]) g' k).
    { intros g' k. rewrite Hgr. destruct (decide (g' = g)) as [->|Hn].
      - rewrite lookup_insert_eq. cbn. rewrite Hp. split; [by right|]. intros [H|(_ & H)]; [by destruct (Hg k)|done].
      - rewrite lookup_insert_ne by done. rewrite I1. naive_solver. }
    split; [done|]. intros g' k. rewrite I1', add_to_groups, I2, I1, Hgr, Hp. naive_solver.
Qed.

Lemma partner_update {MO : MapOrder} seed haMap m k k' : k ≠ k' →
  partner (UpdateRouteHAMap seed haMap m) k k' ↔ ∃ g routes, haMap !! g = Some routes ∧ k ∈ routes ∧ k' ∈ routes.
Proof.
  intros Hn. pose proof (update_groups_ok (range_list seed haMap) (NoDup_fst_range_list seed haMap)) as H.
  unfold UpdateRouteHAMap. destruct (foldl update_group (∅, ∅) _) as [P G]. destruct H as [H1 H2].
  unfold partner, groups_of, peers_of. cbn [with_groups lm_peerToHAGroups lm_haGroupToPeers fst snd] in *. split.
  - intros (g & Hg & Hk'). apply H2, H1 in Hg. apply H1 in Hk'. destruct Hg as (r & Hr%elem_of_range_list & Hk & _).
    destruct Hk' as (r' & Hr'%elem_of_range_list & Hk' & _). exists g, r. split_and!; [done..|]. congruence.
  - intros (g & r & Hr & Hk & Hk'). exists g. split; [apply H2|]; apply H1; exists r; (split; [by apply elem_of_range_list|]); eauto.
Qed.

(** ** Only a route update changes the groups *)

Definition grps (m : Manager) := (lm_peerToHAGroups m, lm_haGroupToPeers m).

Lemma partner_grps m m' k k' : grps m' = grps m → partner m' k k' ↔ partner m k k'.
Proof. unfold grps, partner, groups_of, peers_of. by intros [= -> ->]. Qed.

(** With the excluded peers. *)
Definition rest (m : Manager) := (grps m, lm_excludes m).

Lemma rest_foldl {A S} (get : S → Manager) (f : S → A → S) l s : (∀ s x, rest (get (f s x)) = rest (get s)) → rest (get (foldl f s l)) = rest (get s).
Proof. intros Hf. revert s. induction l as [|x l IH]; intros s; [done|]. cbn. by rewrite IH. Qed.

Lemma rest_arm sys cfg m : rest (armActivityListener sys cfg m).1 = rest m.
Proof. unfold armActivityListener. by destruct (MonitorPeerActivity _ _ _). Qed.

Lemma rest_activateSingle cfg mp m : rest (activateSinglePeer cfg mp m).1 = rest m.
Proof. unfold activateSinglePeer. by destruct (mp_expectedWatcher mp). Qed.

Lemma rest_activate_one sys s k : rest (activate_one sys s k).1 = rest s.1.
Proof.
  destruct s as [m p]. unfold activate_one. destruct (getPeerForActivation k m) as [[cfg mp]|]; [|done].
  pose proof (rest_activateSingle cfg mp m) as H. by destruct (activateSinglePeer cfg mp m).
Qed.

Lemma rest_activateGroup sys cfg m p : rest (activateHAGroupPeers sys cfg m p).1 = rest m.
Proof. unfold activateHAGroupPeers. apply (rest_foldl fst). apply rest_activate_one. Qed.

Lemma rest_removePeer k m : rest (removePeer k m) = rest m.
Proof. unfold removePeer. by destruct (lm_managedPeers m !! k). Qed.

Lemma rest_addActivePeer cfg m : rest (addActivePeer cfg m) = rest m.
Proof. unfold addActivePeer. by destruct (lm_managedPeers m !! _). Qed.

Lemma rest_ActivatePeer sys k m p : rest (ActivatePeer sys k m p).1.1 = rest m.
Proof.
  unfold ActivatePeer. destruct (getPeerForActivation k m) as [[cfg mp]|]; [|done].
  pose proof (rest_activateSingle cfg mp m) as H. destruct (activateSinglePeer cfg mp m) as [m1 []]; [|done].
  pose proof (rest_activateGroup sys cfg m1 p) as H2. destruct (activateHAGroupPeers sys cfg m1 p). cbn in *. congruence.
Qed.

Lemma rest_put_to_sleep sys mp m : rest (put_to_sleep sys mp m) = rest m.
Proof. unfold put_to_sleep. by rewrite rest_arm. Qed.

Lemma rest_DeactivatePeer sys id m p : rest (DeactivatePeer sys id m p).1 = rest m.
Proof.
  unfold DeactivatePeer. destruct (_ !! id) as [mp|]; [|done]. destruct (mp_expectedWatcher mp); [done|]. apply rest_put_to_sleep.
Qed.

Lemma rest_onPeerActivity sys ev m p : rest (onPeerActivity sys ev m p).1 = rest m.
Proof.
  unfold onPeerActivity. destruct (_ !! _) as [mp|]; [|done]. destruct (mp_expectedWatcher mp); [|done].
  pose proof (rest_activateSingle (mp_peerCfg mp) mp m) as H. destruct (activateSinglePeer _ mp m) as [m1 []]; [|done]. cbn [negb].
  pose proof (rest_activateGroup sys (mp_peerCfg mp) m1 p) as H2. destruct (activateHAGroupPeers _ _ m1 p). cbn in *. congruence.
Qed.

Lemma rest_time_out_one sys s st k : rest (time_out_one sys s st k).1 = rest st.1.
Proof.
  destruct st as [m p]. unfold time_out_one. destruct (_ !! k) as [cfg|]; [|done]. destruct (_ !! _) as [mp|]; [|done].
  destruct (mp_expectedWatcher mp); [done|]. destruct (shouldDeferIdleForHA _ _ _); [done|]. apply rest_put_to_sleep.
Qed.

Section Routes.
Context {MO : MapOrder} (GreaterOrEqual : string → string → option bool) (HasIPv6 : bool).

Lemma rest_LazyAddPeer sys cfg m p : rest (AddPeer sys cfg m p).1.1.1 = rest m.
Proof.
  unfold AddPeer. destruct (lm_excludes m !! _); [done|]. destruct (lm_managedPeers m !! _); [done|].
  pose proof (rest_arm sys cfg m) as H. destruct (armActivityListener sys cfg m) as [m1 []]; [done|]. cbn [fst] in H.
  destruct (shouldActivateNewPeer _ _); [|done]. unfold activateNewPeerInActiveGroup. destruct (_ !! _) as [mp|]; [|done].
  pose proof (rest_activateSingle cfg mp (enter cfg watcherActivity m1)) as H2.
  destruct (activateSinglePeer cfg mp _) as [m2 b]. cbn in *. by rewrite H2.
Qed.

Lemma grps_ExcludePeer s s' cfgs m : grps (ExcludePeer s s' cfgs m).1 = grps m.
Proof.
  unfold ExcludePeer. set (l := (range_list s _).*1).
  assert (H : rest (foldl (exclude_one (lm_excludes m)) (m, []) l).1 = rest m).
  { apply (rest_foldl fst (exclude_one (lm_excludes m)) l (m, [])). intros [m1 a] k. unfold exclude_one. destruct (_ !! k); [done|apply rest_removePeer]. }
  destruct (foldl (exclude_one _) _ l) as [m1 added]. cbn [fst] in *.
  pose proof (rest_foldl (λ m, m) (readmit_one (keyed cfgs)) (range_list s' (lm_excludes m)) m1) as H2.
  assert (H3 : rest (foldl (readmit_one (keyed cfgs)) m1 (range_list s' (lm_excludes m))) = rest m).
  { rewrite H2; [done|]. intros m2 [k c]. unfold readmit_one. destruct (_ !! _); [done|apply rest_addActivePeer]. }
  exact (f_equal fst H3).
Qed.

(** The manager goes on with its groups, or is gone; with its excluded peers as
    well, unless they are set. *)
Definition keeps (w w' : World) : Prop := ∀ m', lazy_of w' = Some m' → ∃ m, lazy_of w = Some m ∧ grps m' = grps m.

Definition holds (w w' : World) : Prop := ∀ m', lazy_of w' = Some m' →
  ∃ m, lazy_of w = Some m ∧ rest m' = rest m ∧ cm_appliedExcludeList (w_mgr w') = cm_appliedExcludeList (w_mgr w).

#[local] Instance keeps_po : PreOrder keeps.
Proof.
  split; [by intros w m Hm; exists m|]. intros a b c H1 H2 m Hm. destruct (H2 m Hm) as (m1 & E1 & G1). destruct (H1 m1 E1) as (m2 & E2 & G2).
  exists m2. split; [done|congruence].
Qed.

#[local] Instance holds_po : PreOrder holds.
Proof.
  split; [by intros w m Hm; exists m|]. intros a b c H1 H2 m Hm. destruct (H2 m Hm) as (m1 & E1 & G1 & A1). destruct (H1 m1 E1) as (m2 & E2 & G2 & A2).
  exists m2. split_and!; [done|congruence|congruence].
Qed.

Lemma holds_keeps w w' : holds w w' → keeps w w'.
Proof. intros H m Hm. destruct (H m Hm) as (m0 & E & G & _). exists m0. split; [done|]. exact (f_equal fst G). Qed.

Lemma holds_lazy_peers w m0 m p : lazy_of w = Some m0 → rest m = rest m0 → holds w (with_lazy_peers m p w).
Proof. intros E G m' [= <-]. eauto. Qed.

Lemma holds_conn w p : holds w (with_conn p w).
Proof. intros m Hm. by exists m. Qed.

Lemma keeps_SetExcludeList sys s1 s2 s3 ids w : keeps w (SetExcludeList sys s1 s2 s3 ids w).
Proof.
  unfold SetExcludeList. destruct (lazy_of w) as [m|] eqn:El; [|done]. case_decide as Hd; [done|].
  pose proof (grps_ExcludePeer s2 s3 (excludedPeers (w_peers w) (range_set s1 ids)) m) as H.
  destruct (ExcludePeer _ _ _ m) as [m1 added]. intros m' [= <-]. eauto.
Qed.

Lemma holds_RemovePeerConn k w : holds w (RemovePeerConn k w).
Proof.
  unfold RemovePeerConn. destruct (_ !! k) as [id|]; [|done]. destruct (lazy_of w) as [m|] eqn:El; [|apply holds_conn].
  eapply holds_lazy_peers; [done|apply rest_removePeer].
Qed.

Lemma holds_AddPeerConn sys k id permanent w : holds w (AddPeerConn GreaterOrEqual sys k id permanent w).1.
Proof.
  unfold AddPeerConn. destruct (store_AddPeerConn k id (w_peers w)) as [p|]; [|done].
  destruct (lazy_of w) as [m|] eqn:El; [|apply holds_conn]. destruct (ps_conns p !! id) as [c|]; [|apply holds_conn].
  destruct permanent; [apply holds_conn|]. destruct (IsSupported _ _); cbn [negb]; [|apply holds_conn].
  pose proof (rest_LazyAddPeer sys (config_of_conn k id c) m p) as H. destruct (AddPeer _ _ m p) as [[[m1 p1] e] err]. cbn in H.
  destruct (err || e); by eapply holds_lazy_peers.
Qed.

Lemma holds_addNewPeer sys r w : holds w (addNewPeer GreaterOrEqual HasIPv6 sys r w).1.
Proof.
  unfold addNewPeer. destruct (_ !! _); [done|]. destruct (usable_prefixes _ _) as [[|ip ips]|]; [done| |done].
  destruct (sys_create sys _); [|done]. cbn [negb NewConn]. etransitivity; [apply holds_conn|apply holds_AddPeerConn].
Qed.

Lemma holds_addNewPeers sys rs w : holds w (addNewPeers GreaterOrEqual HasIPv6 sys rs w).1.
Proof.
  revert w. induction rs as [|r rs IH]; intros w; [done|]. cbn. pose proof (holds_addNewPeer sys r w) as H.
  destruct (addNewPeer _ _ sys r w) as [w1 []]; [done|]. etransitivity; [done|apply IH].
Qed.

Lemma holds_removeAll keys w : holds w (removeAll keys w).
Proof.
  unfold removeAll. revert w. induction keys as [|k keys IH]; intros w; [done|]. cbn.
  etransitivity; [apply (holds_RemovePeerConn k)|apply IH].
Qed.

Lemma holds_on_lazy f w : (∀ m p, rest (f m p).1 = rest m) → holds w (on_lazy f w).
Proof.
  intros Hf. unfold on_lazy. destruct (lazy_of w) as [m|] eqn:El; [|done]. specialize (Hf m (w_peers w)).
  destruct (f m (w_peers w)) as [m1 p1]. by eapply holds_lazy_peers.
Qed.

Lemma holds_ActivatePeer sys id w : holds w (mgr_ActivatePeer sys id w).
Proof.
  unfold mgr_ActivatePeer. destruct (lazy_of w) as [m|] eqn:El; [|done]. destruct (_ !! id) as [c|]; [|done].
  pose proof (rest_ActivatePeer sys (cn_Key c) m (w_peers w)) as H. destruct (ActivatePeer _ _ _ _) as [[m1 p1] b].
  intros m' [= <-]. eauto.
Qed.

Lemma holds_reconcile sys seed e rs w : holds w (reconcilePeers GreaterOrEqual HasIPv6 sys seed e rs w).1.
Proof.
  unfold reconcilePeers. destruct e; [apply holds_removeAll|].
  unfold modifyPeers. set (w1 := removePeers seed rs w). assert (H1 : holds w w1) by apply holds_removeAll.
  set (l := filter _ rs). assert (H2 : holds w (removeAll (rp_WgPubKey <$> l) w1)) by (etransitivity; [exact H1|apply holds_removeAll]).
  pose proof (holds_addNewPeers sys l (removeAll (rp_WgPubKey <$> l) w1)) as H3.
  destruct (addNewPeers _ _ sys l _) as [w2 []]; cbn [fst] in *; [by etransitivity|].
  do 2 (etransitivity; [done|]). apply holds_addNewPeers.
Qed.

Lemma keeps_sync sys seeds e rs w : keeps w (sync GreaterOrEqual HasIPv6 sys seeds e rs w).1.
Proof.
  destruct seeds as [[[s0 s1] s2] s3]. unfold sync. pose proof (holds_keeps _ _ (holds_reconcile sys s0 e rs w)) as H.
  destruct (reconcilePeers _ _ sys s0 e rs w) as [w1 []]; [done|]. etransitivity; [exact H|apply keeps_SetExcludeList].
Qed.

(** The engine sets the excluded peers with the peers themselves. *)
Definition is_routes (o : op) : bool := match o with WRoutes _ _ => true | _ => false end.
Definition sets_excludes (o : op) : bool := match o with WSync _ _ _ | WExclude _ _ => true | _ => false end.

Lemma holds_step w sys o : is_routes o = false → sets_excludes o = false → holds w (step GreaterOrEqual HasIPv6 w (sys, o)).
Proof.
  intros Ho Hs. destruct o as [seeds isEmpty rs|r|k|[[s1 s2] s3] ids|b|seed hm|k|id|i|k|l packet|i|i|acts now|seed|]; cbn [step]; try done.
  - apply holds_addNewPeer.
  - apply holds_RemovePeerConn.
  - intros m Hm. by exists m.
  - destruct (_ !! k) as [id|]; [apply holds_ActivatePeer|done].
  - apply holds_ActivatePeer.
  - unfold finish_activation. destruct (_ !! i); [|done]. intros m Hm. by exists m.
  - destruct (_ !! k) as [id|]; [|done]. unfold mgr_DeactivatePeer. destruct (lazy_of w) as [m|] eqn:El; [|done].
    pose proof (rest_DeactivatePeer sys id m (w_peers w)) as H. destruct (DeactivatePeer sys id m (w_peers w)). by eapply holds_lazy_peers.
  - by apply holds_on_lazy.
  - by apply holds_on_lazy.
  - apply holds_on_lazy. intros m p. unfold receive_activity. destruct (_ !! i); [|done]. by rewrite rest_onPeerActivity.
  - by apply holds_on_lazy.
  - apply holds_on_lazy. intros m p. unfold receive_inactivity. destruct (lm_inactivityManager m) as [n|]; [|done].
    destruct (in_chan n); [|done]. unfold onPeerInactivityTimedOut. by rewrite (rest_foldl fst) by apply rest_time_out_one.
  - unfold mgr_Close. destruct (lazy_of w); done.
Qed.

Lemma keeps_step w sys o : is_routes o = false → keeps w (step GreaterOrEqual HasIPv6 w (sys, o)).
Proof.
  intros Ho. destruct (sets_excludes o) eqn:Es; [|by apply holds_keeps, holds_step].
  destruct o as [seeds isEmpty rs| | |[[s1 s2] s3] ids| | | | | | | | | | | | ]; try done; [apply keeps_sync|apply keeps_SetExcludeList].
Qed.

(** The routes of the last update. *)
Definition last_routes (ops : list (Sys * op)) : gmap string (list string) :=
  foldl (λ r o, match o.2 with WRoutes _ haMap => haMap | _ => r end) ∅ ops.

Context (env mdm : State) (userspaceBind : bool) (threshold : option Z).
Notation world_after := (world_after GreaterOrEqual HasIPv6 env mdm userspaceBind threshold).

Lemma partner_exact ops m k k' : lazy_of (world_after ops) = Some m → k ≠ k' →
  partner m k k' ↔ ∃ g routes, last_routes ops !! g = Some routes ∧ k ∈ routes ∧ k' ∈ routes.
Proof.
  intros El Hn. revert m El. unfold LazyFacts.world_after, run, last_routes. induction ops as [|[sys o] ops IH] using rev_ind; intros m El.
  - cbn in *. injection El as <-. unfold partner, groups_of. cbn. rewrite lookup_empty. cbn. split; [|intros (g & r & H & _); by rewrite lookup_empty in H].
    intros (g & Hg & _). by apply elem_of_nil in Hg.
  - rewrite foldl_app in El. rewrite !foldl_app. cbn [foldl snd] in *. destruct (is_routes o) eqn:Eo.
    + destruct o; try done. cbn [step] in El. unfold mgr_UpdateRouteHAMap in El. destruct (lazy_of (foldl _ _ ops)) as [m0|] eqn:E0; [|congruence].
      injection El as <-. by apply partner_update.
    + destruct (keeps_step _ sys o Eo m El) as (m0 & E0 & G). rewrite (partner_grps m0 m) by done. rewrite (IH m0 E0). by destruct o.
Qed.

(** ** Who is woken *)

Definition wake (v : option (PeerConfig * watcherType)) : option (PeerConfig * watcherType) := (λ e, (e.1, watcherInactivity)) <$> v.

Lemma wake_idemp v : wake (wake v) = wake v.
Proof. by destruct v as [[]|]. Qed.

Lemma peersToActivate_spec m k k' : k' ∈ peersToActivate m k ↔ k' ≠ k ∧ partner m k k'.
Proof.
  unfold peersToActivate, partner. rewrite list_elem_of_In, in_flat_map. split.
  - intros (g & Hg%list_elem_of_In & Hk'%list_elem_of_In). apply list_elem_of_filter in Hk' as [Hn Hk']. eauto.
  - intros (Hn & g & Hg & Hk'). exists g. split; [by apply list_elem_of_In|]. by apply list_elem_of_In, list_elem_of_filter.
Qed.

Lemma linked_activated cfg m : linked_mgr m → linked_mgr (activated cfg m).
Proof. apply linked_alter. Qed.

Lemma view_activate_one sys m p k : linked_mgr m →
  linked_mgr (activate_one sys (m, p) k).1 ∧ ∀ k', view (activate_one sys (m, p) k).1 k' = if decide (k' = k) then wake (view m k') else view m k'.
Proof.
  intros HL. unfold activate_one. pose proof (getPeerForActivation_view m k) as Hg. destruct (getPeerForActivation k m) as [[cfg mp]|].
  - destruct Hg as [Hv Hmp]. rewrite activateSinglePeer_eq, decide_True by done. cbn [fst]. split; [by apply linked_activated|].
    intros k'. rewrite (views_activated m k cfg HL Hv). case_decide as Hk; [|done]. by rewrite Hk, Hv.
  - split; [done|]. intros k'. case_decide as Hk; [|done]. subst k'. cbn [fst]. destruct (view m k) as [[c []]|]; [by destruct (Hg c)|done..].
Qed.

Lemma view_activate_all sys l m p : linked_mgr m →
  linked_mgr (foldl (activate_one sys) (m, p) l).1 ∧
  ∀ k', view (foldl (activate_one sys) (m, p) l).1 k' = if decide (k' ∈ l) then wake (view m k') else view m k'.
Proof.
  revert m p. induction l as [|k l IH]; intros m p HL; [split; [done|]; intros k'; by rewrite decide_False by set_solver|].
  destruct (view_activate_one sys m p k HL) as [H1 H2]. cbn [foldl]. destruct (activate_one sys (m, p) k) as [m1 p1].
  destruct (IH m1 p1 H1) as [H3 H4]. split; [done|]. intros k'. rewrite H4, H2. destruct (decide (k' = k)) as [->|Hn].
  - rewrite (decide_True (P := k ∈ k :: l)) by set_solver. case_decide; [apply wake_idemp|done].
  - destruct (decide (k' ∈ l)); [by rewrite decide_True by set_solver|by rewrite decide_False by set_solver].
Qed.

Definition keyed_store (p : Peers) : Prop := ∀ k id, ps_store p !! k = Some id → conn_key p id = Some k.

Lemma keyed_same p p' : same_conns p p' → keyed_store p → keyed_store p'.
Proof. intros Hs H k id. rewrite (sc_store _ _ Hs), (sc_key _ _ Hs). apply H. Qed.

Lemma activate_all_opened sys l m p k cfg id : linked_mgr m → keyed_store p →
  (opened p id → opened (foldl (activate_one sys) (m, p) l).2 id) ∧
  (k ∈ l → view m k = Some (cfg, watcherActivity) → ps_store p !! k = Some id → sys_open sys k = true →
     opened (foldl (activate_one sys) (m, p) l).2 id).
Proof.
  revert m p. induction l as [|x l IH]; intros m p HL HK; [split; [done|by intros ?%elem_of_nil]|]. cbn [foldl].
  destruct (view_activate_one sys m p x HL) as [H1 H2]. pose proof (activate_all_same sys [x] m p) as Hs. cbn [foldl] in Hs.
  assert (Hm : opened p id → opened (activate_one sys (m, p) x).2 id).
  { unfold activate_one. destruct (getPeerForActivation x m) as [[c mp]|]; [|done]. destruct (activateSinglePeer c mp m) as [m1 []]; [|done].
    apply opened_PeerConnOpen. }
  assert (Hx : x = k → view m k = Some (cfg, watcherActivity) → ps_store p !! k = Some id → sys_open sys k = true →
    opened (activate_one sys (m, p) x).2 id).
  { intros -> Hv Hst Ho. unfold activate_one. pose proof (getPeerForActivation_view m k) as Hg.
    destruct (getPeerForActivation k m) as [[c mp]|]; [|by destruct (Hg cfg)]. destruct Hg as [Hv' Hmp]. rewrite Hv in Hv'. injection Hv' as <-.
    rewrite activateSinglePeer_eq, decide_True by done. cbn [snd]. apply view_Some in Hv as [Hm' _]; [|done].
    destruct (lk_managed _ _ HL _ _ Hm') as [-> _]. apply PeerConnOpen_opened; auto. }
  destruct (activate_one sys (m, p) x) as [m1 p1]. cbn [fst snd] in *. destruct (IH m1 p1 H1 (keyed_same _ _ Hs HK)) as [I1 I2].
  split; [auto|]. intros Hk Hv Hst Ho. destruct (decide (x = k)) as [->|Hn]; [auto|]. apply I2; [set_solver| | |done].
  - by rewrite H2, decide_False by done.
  - by rewrite (sc_store _ _ Hs).
Qed.

(** What an activation of [k] does to the peers of the set. *)
Record woken (sys : Sys) (m m' : Manager) (p p' : Peers) (k : string) (group : string → Prop) : Prop := {
  wk_group : ∀ k', k' = k ∨ group k' → view m' k' = wake (view m k');
  wk_other : ∀ k', k' ≠ k → ¬ group k' → view m' k' = view m k';
  wk_opened : ∀ k' cfg id, group k' → k' ≠ k → view m k' = Some (cfg, watcherActivity) → ps_store p !! k' = Some id →
    sys_open sys k' = true → opened p' id;
  wk_kept : ∀ id, opened p id → opened p' id;
}.

Lemma activation_wakes sys m p k cfg : linked_mgr m → keyed_store p → view m k = Some (cfg, watcherActivity) → pc_PublicKey cfg = k →
  let '(m', p') := activateHAGroupPeers sys cfg (activated cfg m) p in woken sys m m' p p' k (partner m k).
Proof.
  intros HL HK Hv Ek. unfold activateHAGroupPeers. rewrite Ek. set (l := peersToActivate (activated cfg m) k).
  assert (Hl : ∀ k', k' ∈ l ↔ k' ≠ k ∧ partner m k k') by (intros k'; exact (peersToActivate_spec (activated cfg m) k k')).
  pose proof (view_activate_all sys l (activated cfg m) p (linked_activated cfg m HL)) as [_ HV].
  pose proof (λ k' c id, activate_all_opened sys l (activated cfg m) p k' c id (linked_activated cfg m HL) HK) as HO.
  destruct (foldl (activate_one sys) (activated cfg m, p) l) as [m' p']. cbn [fst snd] in *.
  pose proof (views_activated m k cfg HL Hv) as HA.
  assert (Hk : view m' k = wake (view m k)).
  { rewrite HV, decide_False by (rewrite Hl; tauto). by rewrite HA, decide_True, Hv. }
  split.
  - intros k' Hg. destruct (decide (k' = k)) as [->|Hn]; [done|]. destruct Hg as [?|Hg]; [done|].
    by rewrite HV, decide_True, HA, decide_False by (rewrite ?Hl; done).
  - intros k' Hn Hg. rewrite HV, decide_False by (rewrite Hl; tauto). by rewrite HA, decide_False.
  - intros k' c id Hg Hn Hv' Hst Ho. apply (HO k' c id); [by apply Hl| |done..]. by rewrite HA, decide_False.
  - intros id. apply (HO k cfg id).
Qed.

Lemma reachable_wf ops m : lazy_of (world_after ops) = Some m → wf (λ _, False) m (w_peers (world_after ops)).
Proof.
  intros El. pose proof (world_run (λ _, False) (λ _, False) GreaterOrEqual HasIPv6 env mdm userspaceBind threshold ops) as H.
  fold (world_after ops) in H. unfold world_inv in H. rewrite El in H. apply H. apply Forall_forall. intros [sys o] _. split; [done|].
  destruct o; cbn; auto.
Qed.

(** The other peers that route a network together with [k], by the last routes. *)
Definition routes_with (ops : list (Sys * op)) (k k' : string) : Prop :=
  k' ≠ k ∧ ∃ g routes, last_routes ops !! g = Some routes ∧ k ∈ routes ∧ k' ∈ routes.

Lemma woken_routes ops sys m m' p p' k : lazy_of (world_after ops) = Some m → woken sys m m' p p' k (partner m k) →
  woken sys m m' p p' k (routes_with ops k).
Proof.
  intros El [H1 H2 H3 H4]. assert (Hp : ∀ k', k' ≠ k → partner m k k' ↔ routes_with ops k k').
  { intros k' Hn. unfold routes_with. rewrite (partner_exact ops m k k' El); [tauto|done]. }
  split; [|intros k' Hn Hg; apply H2; [done|by rewrite Hp]| |done].
  - intros k' Hg. destruct (decide (k' = k)) as [->|Hn]; [by apply H1; left|]. apply H1. right. apply Hp; tauto.
  - intros k' c id Hg Hn. apply H3; [by apply Hp|done].
Qed.

(** C40. A waiting peer that receives a signal, or whose listener reports traffic,
    is woken together with every waiting peer that routes a network with it, by
    the routes of the last update, and their connections are opened; the watch
    of all others stays as it is. *)
Theorem ha_group_woken ops m k cfg sys packet :
  lazy_of (world_after ops) = Some m → view m k = Some (cfg, watcherActivity) →
  let p := w_peers (world_after ops) in
  (let '(m', p', found) := ActivatePeer sys k m p in found = true ∧ woken sys m m' p p' k (routes_with ops k)) ∧
  (let '(m', p') := onPeerActivity sys {| av_PeerConnID := pc_PeerConnID cfg; av_FirstPacket := packet |} m p in
   woken sys m m' p p' k (routes_with ops k) ∧
   ∀ id, ps_store p !! k = Some id → sys_open sys k = true → opened p' id).
Proof.
  intros El Hv p. pose proof (reachable_wf ops m El) as W. pose proof (wf_linked _ _ _ W) as HL.
  assert (HK : keyed_store p) by exact (wf_store _ _ _ W). destruct (wf_ids _ _ _ W _ _ _ Hv) as [Ek _].
  pose proof (activation_wakes sys m p k cfg HL HK Hv Ek) as HA. split.
  - unfold ActivatePeer. pose proof (getPeerForActivation_view m k) as Hg. destruct (getPeerForActivation k m) as [[c mp]|]; [|by destruct (Hg cfg)].
    destruct Hg as [Hv' Hmp]. rewrite Hv in Hv'. injection Hv' as <-. rewrite activateSinglePeer_eq, decide_True by done.
    destruct (activateHAGroupPeers _ _ _ _) as [m' p']. split; [done|]. by apply woken_routes.
  - unfold onPeerActivity. cbn [av_PeerConnID av_FirstPacket]. pose proof (proj1 (view_Some m k cfg _ HL) Hv) as [_ Hb]. rewrite Hb.
    cbn [mp_expectedWatcher mp_peerCfg]. rewrite activateSinglePeer_eq, decide_True by done. cbn [negb].
    pose proof (activate_all_same sys (peersToActivate (activated cfg m) (pc_PublicKey cfg)) (activated cfg m) p) as Hs.
    unfold activateHAGroupPeers in *. destruct (foldl _ _ _) as [m' p'] eqn:Ef. cbn [snd] in Hs. split.
    + apply woken_routes; [done|]. destruct HA as [H1 H2 H3 H4]. split; [done..| |].
      * intros k' c id Hg Hn Hv' Hst Ho. apply opened_PeerConnOpen. eauto.
      * intros id Ho. by apply opened_PeerConnOpen, H4.
    + intros id Hst Ho. rewrite Ek. apply PeerConnOpen_opened; [by rewrite (sc_store _ _ Hs)| |done]. rewrite (sc_key _ _ Hs). by apply HK.
Qed.

(** ** Who goes to sleep *)

Definition sleepy (v : option (PeerConfig * watcherType)) : option (PeerConfig * watcherType) := (λ e, (e.1, watcherActivity)) <$> v.

Definition goes_idle (m : Manager) (s : gset string) (k : string) : bool :=
  bool_decide (k ∈ s) && expects watcherInactivity m k && negb (shouldDeferIdleForHA m s k).

Lemma shouldDefer_spec m s k : shouldDeferIdleForHA m s k = true ↔
  ∃ k', k' ≠ k ∧ partner m k k' ∧ expects watcherInactivity m k' = true ∧ k' ∉ s.
Proof.
  unfold shouldDeferIdleForHA, checkHaGroupActivity, partner. rewrite existsb_exists. split.
  - intros (g & Hg%list_elem_of_In & H). apply existsb_exists in H as (k' & Hk'%list_elem_of_In & H).
    rewrite !andb_true_iff, !negb_true_iff, bool_decide_eq_false, String.eqb_neq in H. destruct H as [[? ?] ?]. exists k'. split_and!; [done|by exists g|done..].
  - intros (k' & Hn & (g & Hg & Hk') & He & Hs). exists g. split; [by apply list_elem_of_In|]. apply existsb_exists. exists k'.
    split; [by apply list_elem_of_In|]. rewrite !andb_true_iff, !negb_true_iff, bool_decide_eq_false, String.eqb_neq. done.
Qed.

Lemma shouldDefer_ext m m' s k : grps m' = grps m → (∀ k', k' ∉ s → view m' k' = view m k') →
  shouldDeferIdleForHA m' s k = shouldDeferIdleForHA m s k.
Proof.
  intros Hg Hv. apply eq_iff_eq_true. rewrite !shouldDefer_spec. apply exist_proper. intros k'. rewrite (partner_grps m m') by done.
  split; intros (? & ? & He & Hs); split_and!; try done; revert He; rewrite !expects_view, Hv by done; done.
Qed.

Definition is_awake (v : option (PeerConfig * watcherType)) : bool := match v with Some (_, watcherInactivity) => true | _ => false end.

Lemma expects_awake m k : expects watcherInactivity m k = is_awake (view m k).
Proof.
  apply eq_iff_eq_true. rewrite expects_view. destruct (view m k) as [[c []]|]; cbn; [|split; eauto|]; split; try done; by intros (? & [=]).
Qed.

(** What one round does to a peer and its connection. *)
Record idled (m m' : Manager) (p p' : Peers) (k : string) (idle : bool) : Prop := {
  id_view : view m' k = if idle then sleepy (view m k) else view m k;
  id_closed : ∀ id, ps_store p !! k = Some id → idle = true → ¬ opened p' id ∧ (opened p id → k ∈ ps_idle p');
  id_kept : ∀ id, ps_store p !! k = Some id → idle = false → opened p id → opened p' id;
}.

Lemma close_at_told id k p : conn_key p id = Some k → opened p id → k ∈ ps_idle (close_at true id p).
Proof.
  unfold conn_key, close_at. intros (c & Hc & ->)%fmap_Some (c' & Hc' & Ho). rewrite Hc in Hc'. injection Hc' as <-. rewrite Hc, Ho. cbn. set_solver.
Qed.

Lemma close_at_not_opened b id id' p : ¬ opened p id → ¬ opened (close_at b id' p) id.
Proof.
  intros Hn (c & Hc & Ho). apply Hn. revert Hc. unfold close_at. destruct (ps_conns p !! id') as [c'|] eqn:E'; [|intros; by exists c].
  destruct (cn_opened c') eqn:Eo; [|intros; by exists c]. cbn. destruct (decide (id = id')) as [->|Hne]; [rewrite lookup_insert_eq; by intros [= <-]|].
  rewrite lookup_insert_ne by done. intros. by exists c.
Qed.

Lemma ps_idle_mono k id p : k ∈ ps_idle p → k ∈ ps_idle (close_at true id p).
Proof. intros H. unfold close_at. destruct (ps_conns p !! id) as [c|]; [|done]. destruct (cn_opened c); [|done]. cbn. set_solver. Qed.

Lemma linked_slept sys cfg m : linked_mgr m → linked_mgr (slept sys cfg m).
Proof. intros HL. destruct (slept_fields sys cfg m) as (E1 & E2 & _). unfold linked_mgr. rewrite E1, E2. by apply linked_alter. Qed.

Lemma time_out_one_eq sys s m p k : linked_mgr m →
  time_out_one sys s (m, p) k =
  match view m k with
  | Some (cfg, watcherInactivity) =>
      if shouldDeferIdleForHA m s k then (m, p) else (slept sys cfg m, match ps_store p !! k with Some id => close_at true id p | None => p end)
  | _ => (m, p)
  end.
Proof.
  intros HL. unfold time_out_one. destruct (lm_managedPeers m !! k) as [cfg|] eqn:Ek.
  - destruct (view_linked m k cfg HL Ek) as (w & -> & Hb). rewrite Hb. cbn [mp_expectedWatcher mp_peerCfg].
    destruct (lk_managed _ _ HL _ _ Ek) as [-> _]. destruct w; [done|]. by rewrite put_to_sleep_slept.
  - by rewrite (proj2 (view_None m k HL) Ek).
Qed.

Lemma idle_loop sys s m p l m1 p1 : NoDup l → (∀ k, k ∈ l → k ∈ s) →
  linked_mgr m1 → keyed_store p1 → grps m1 = grps m → (∀ k, k ∈ l ∨ k ∉ s → view m1 k = view m k) → same_conns p p1 →
  (∀ k id, k ∈ l → ps_store p !! k = Some id → opened p id → opened p1 id) →
  let '(m2, p2) := foldl (time_out_one sys s) (m1, p1) l in
  same_conns p1 p2 ∧ (∀ k, k ∈ l → idled m m2 p p2 k (goes_idle m s k)) ∧
  (∀ k, k ∉ l → idled m1 m2 p1 p2 k false) ∧
  (∀ k, k ∈ ps_idle p1 → k ∈ ps_idle p2) ∧ (∀ k id, k ∉ l → ps_store p1 !! k = Some id → ¬ opened p1 id → ¬ opened p2 id).
Proof.
  revert m1 p1. induction l as [|k l IH]; intros m1 p1 Hnd Hs HL HK HG HV Hsc Hop.
  { cbn. split_and!; [done|by intros k ?%elem_of_nil|intros k _; by split|done|done]. }
  apply NoDup_cons in Hnd as [Hk Hnd]. cbn [foldl]. rewrite (time_out_one_eq sys s m1 p1 k HL).
  assert (Hgo : goes_idle m s k = is_awake (view m k) && negb (shouldDeferIdleForHA m1 s k)).
  { unfold goes_idle. rewrite bool_decide_true by (apply Hs; left). rewrite (shouldDefer_ext m m1) by auto. cbn. by rewrite expects_awake. }
  rewrite (HV k) by (left; left). set (stay := (m1, p1)).
  assert (Hstay : goes_idle m s k = false → let '(m2, p2) := foldl (time_out_one sys s) stay l in
    same_conns p1 p2 ∧ (∀ k0, k0 ∈ k :: l → idled m m2 p p2 k0 (goes_idle m s k0)) ∧ (∀ k0, k0 ∉ k :: l → idled m1 m2 p1 p2 k0 false) ∧
    (∀ k0, k0 ∈ ps_idle p1 → k0 ∈ ps_idle p2) ∧ (∀ k0 id, k0 ∉ k :: l → ps_store p1 !! k0 = Some id → ¬ opened p1 id → ¬ opened p2 id)).
  { intros Hno. specialize (IH m1 p1 Hnd). unfold stay. destruct (foldl _ (m1, p1) l) as [m2 p2]. destruct IH as (I1 & I2 & I3 & I4 & I5); try done.
    - intros; apply Hs; by right.
    - intros k0 [?|?]; apply HV; [left; by right|by right].
    - intros k0 id ?. apply Hop. by right.
    - split_and!; [done| |intros k0 Hk0; apply I3; set_solver|done|intros k0 id Hk0; apply I5; set_solver].
      intros k0 [->|Hin]%elem_of_cons; [|by apply I2]. rewrite Hno. destruct (I3 k Hk) as [V1 _ V3]. split; [|done|].
      + rewrite V1. apply HV. left. left.
      + intros id Hid _ Ho. apply V3; [by rewrite (sc_store _ _ Hsc)|done|]. apply (Hop k); [left|done..]. }
  destruct (view m k) as [[cfg []]|] eqn:Ev.
  - by apply Hstay.
  - cbn in Hgo. destruct (shouldDeferIdleForHA m1 s k); [by apply Hstay|]. cbn in Hgo. clear Hstay stay.
    set (m1' := slept sys cfg m1). set (p1' := match ps_store p1 !! k with Some id => close_at true id p1 | None => p1 end).
    assert (Hv1 : view m1 k = Some (cfg, watcherInactivity)) by (rewrite HV; [done|left; left]).
    pose proof (views_slept sys m1 k cfg HL Hv1) as HVs. fold m1' in HVs.
    assert (Hsc' : same_conns p1 p1') by (unfold p1'; destruct (ps_store p1 !! k); [apply close_at_same|done]).
    assert (Hother : ∀ k0 id, k0 ≠ k → ps_store p1 !! k0 = Some id → opened p1 id → opened p1' id).
    { intros k0 id Hn Hid Ho. unfold p1'. destruct (ps_store p1 !! k) as [id'|] eqn:Ek; [|done]. apply opened_close_at; [|done].
      intros ->. pose proof (HK _ _ Hid). pose proof (HK _ _ Ek). congruence. }
    assert (Hidle : ∀ k0, k0 ∈ ps_idle p1 → k0 ∈ ps_idle p1') by (intros k0; unfold p1'; destruct (ps_store p1 !! k); [apply ps_idle_mono|done]).
    assert (Hclosed : ∀ id, ¬ opened p1 id → ¬ opened p1' id) by (intros id; unfold p1'; destruct (ps_store p1 !! k); [apply close_at_not_opened|done]).
    specialize (IH m1' p1' Hnd). destruct (foldl _ (m1', p1') l) as [m2 p2]. destruct IH as (I1 & I2 & I3 & I4 & I5); try done.
    + intros; apply Hs; by right.
    + by apply linked_slept.
    + by eapply keyed_same.
    + unfold m1'. rewrite <- HG. pose proof (rest_put_to_sleep sys {| mp_peerCfg := cfg; mp_expectedWatcher := watcherActivity |} m1) as HR.
      exact (f_equal fst HR).
    + intros k0 Hk0. rewrite HVs. case_decide as Hkk; [subst k0; destruct Hk0 as [?|Hk0]; [done|]; exfalso; apply Hk0, Hs; left|].
      apply HV. destruct Hk0; [left; by right|by right].
    + by etransitivity.
    + intros k0 id Hk0 Hid Ho. apply (Hother k0); [set_solver|by rewrite (sc_store _ _ Hsc)|]. apply (Hop k0); [by right|done..].
    + split_and!; [by etransitivity| | |auto|].
      * intros k0 [->|Hin]%elem_of_cons; [|by apply I2]. rewrite Hgo. destruct (I3 k Hk) as [V1 _ _]. split; [|intros id Hid _|done].
        -- rewrite V1, HVs, decide_True by done. by rewrite Ev.
        -- rewrite <- (sc_store _ _ Hsc) in Hid. assert (Hid' : ps_store p1' !! k = Some id) by (by rewrite (sc_store _ _ Hsc')). split.
           ++ apply (I5 k); [done..|]. unfold p1'. rewrite Hid. apply close_at_closed.
           ++ intros Ho. apply I4. unfold p1'. rewrite Hid. apply close_at_told; [by apply HK|]. apply (Hop k); [left|by rewrite <- (sc_store _ _ Hsc)|done].
      * intros k0 Hk0. destruct (I3 k0) as [V1 _ V3]; [set_solver|]. split; [|done|].
        -- rewrite V1, HVs. by rewrite decide_False by set_solver.
        -- intros id Hid _ Ho. apply V3; [by rewrite (sc_store _ _ Hsc')|done|]. apply (Hother k0); [set_solver|done..].
      * intros k0 id Hk0 Hid Ho. apply (I5 k0); [set_solver|by rewrite (sc_store _ _ Hsc')|auto].
  - by apply Hstay.
Qed.

(** C39. When the loop takes a set of idle peers: those of the set that are connected
    go to sleep, their connection is closed and they are told, unless a
    connected peer outside the set routes a network with them by the routes of
    the last update.  Everybody else stays as he is, whatever the order. *)
Theorem idle_exact ops m sys seed s :
  lazy_of (world_after ops) = Some m →
  let p := w_peers (world_after ops) in
  let '(m', p') := onPeerInactivityTimedOut sys seed s m p in
  ∀ k, ∃ idle, idled m m' p p' k idle ∧
    (idle = true ↔ k ∈ s ∧ expects watcherInactivity m k = true ∧
       ¬ ∃ k', routes_with ops k k' ∧ expects watcherInactivity m k' = true ∧ k' ∉ s).
Proof.
  intros El p. pose proof (reachable_wf ops m El) as W. pose proof (wf_linked _ _ _ W) as HL.
  assert (HK : keyed_store p) by exact (wf_store _ _ _ W). unfold onPeerInactivityTimedOut.
  pose proof (idle_loop sys s m p (range_set seed s) m p (NoDup_range_set seed s)) as H.
  destruct (foldl (time_out_one sys s) (m, p) (range_set seed s)) as [m' p']. destruct H as (_ & H1 & H2 & _ & _); try done.
  { intros k. by rewrite elem_of_range_set. }
  intros k. exists (goes_idle m s k). split.
  - destruct (decide (k ∈ s)) as [Hk|Hk]; [by apply H1, elem_of_range_set|]. unfold goes_idle. rewrite bool_decide_false by done. cbn.
    apply H2. by rewrite elem_of_range_set.
  - unfold goes_idle. rewrite !andb_true_iff, negb_true_iff, bool_decide_eq_true, <- not_true_iff_false, shouldDefer_spec.
    assert (Hp : (∃ k', k' ≠ k ∧ partner m k k' ∧ expects watcherInactivity m k' = true ∧ k' ∉ s) ↔
                 ∃ k', routes_with ops k k' ∧ expects watcherInactivity m k' = true ∧ k' ∉ s).
    { apply exist_proper. intros k'. unfold routes_with. split.
      - intros (Hn & Hpa & ? & ?). split_and!; [done| |done..]. by apply (partner_exact ops m k k' El).
      - intros ((Hn & Hr) & ? & ?). split_and!; [done| |done..]. by apply (partner_exact ops m k k' El). }
    rewrite Hp. tauto.
Qed.
End Routes.
