(* ===== verification/LazySync.v ===== *)
(** * Connections on demand: network maps and concrete runs

    What a network map does to the connections, for every run before it; runs
    that show that the theorems apply, and runs in which a peer is left without
    a connection or gets one it should not have. *)
From S2P Require Import Prelude GoStrings NetIP NetParse FwGen LazyConn ConnMgr LazyFacts LazyGroups.
Open Scope Z_scope.

(** ** Lists of addresses *)

Lemma default_insert (f : gmap string nat) s n t :
  default O (<[s := n]> f !! t) = if decide (t = s) then n else default O (f !! t).
Proof. destruct (decide (t = s)) as [->|Hn]; [by rewrite lookup_insert_eq|by rewrite lookup_insert_ne]. Qed.

Definition occurs (s : string) (l : list Prefix) : nat := count_occ String.string_dec (prefix_String <$> l) s.

Lemma count_up_spec l f s : default O (foldl count_up f l !! s) = (default O (f !! s) + occurs s l)%nat.
Proof.
  revert f. induction l as [|p l IH]; intros f; [cbn; lia|]. cbn [foldl]. rewrite IH. unfold count_up. rewrite default_insert.
  unfold occurs. cbn. destruct (String.string_dec (prefix_String p) s) as [->|Hn]; [rewrite decide_True by done; lia|].
  by rewrite decide_False by done.
Qed.

Lemma count_down_spec l f f' : count_down l f = Some f' →
  ∃ ps, mapM ParsePrefix l = Some ps ∧ ∀ s, default O (f !! s) = (default O (f' !! s) + occurs s ps)%nat.
Proof.
  revert f. induction l as [|x l IH]; intros f; cbn [count_down].
  { intros [= ->]. exists []. split; [done|]. intros s. cbn. lia. }
  destruct (ParsePrefix x) as [p|] eqn:Ex; [|done]. destruct (default O (f !! prefix_String p)) as [|n] eqn:En; [done|].
  intros (ps & Hps & H)%IH. exists (p :: ps). split; [cbn; by rewrite Ex, Hps|]. intros s. specialize (H s). rewrite default_insert in H.
  unfold occurs in *. cbn. destruct (String.string_dec (prefix_String p) s) as [<-|Hn]; [rewrite decide_True in H by done; lia|].
  by rewrite decide_False in H by done.
Qed.

(** The lists are equal when the texts of one can be read and are, up to their
    order, those of the other. *)
Lemma compareNetIPLists_perm l l' : compareNetIPLists l l' = true →
  ∃ ps, mapM ParsePrefix l' = Some ps ∧ prefix_String <$> l ≡ₚ prefix_String <$> ps.
Proof.
  unfold compareNetIPLists. destruct (negb _); [done|]. destruct (count_down l' _) as [f|] eqn:E; [|done].
  intros Hz%bool_decide_eq_true. destruct (count_down_spec _ _ _ E) as (ps & Hps & H). exists ps. split; [done|].
  apply (Permutation_count_occ String.string_dec). intros s. specialize (H s). rewrite count_up_spec, lookup_empty in H. cbn in H.
  unfold occurs in H. rewrite H. destruct (f !! s) as [n|] eqn:Ef; [|done]. by rewrite (Hz _ _ Ef).
Qed.

Lemma usable_filter HasIPv6 ips ps : mapM ParsePrefix (filterAllowedIPs HasIPv6 ips) = Some ps → usable_prefixes HasIPv6 ips = Some ps.
Proof.
  unfold filterAllowedIPs. destruct HasIPv6.
  - revert ps. induction ips as [|x ips IH]; intros ps; [done|]. cbn. destruct (ParsePrefix x) as [p|]; [|done]. cbn. rewrite andb_false_r.
    destruct (mapM ParsePrefix ips) as [ps'|]; [|done]. cbn. intros [= <-]. by rewrite (IH ps').
  - revert ps. induction ips as [|x ips IH]; intros ps; [done|]. rewrite filter_cons. cbn [usable_prefixes].
    destruct (ParsePrefix x) as [p|] eqn:Ex.
    + rewrite andb_true_r. destruct (Is6 (prefix_Addr p)) eqn:E6; cbn.
      * rewrite decide_False by done. apply IH.
      * rewrite decide_True by done. cbn. rewrite Ex. cbn. destruct (mapM _ _) as [ps'|]; [|done]. cbn. intros [= <-]. by rewrite (IH ps').
    + rewrite decide_True by done. cbn. by rewrite Ex.
Qed.

(** ** What a network map does to the connections *)

Section Sync.
Context {MO : MapOrder} (GreaterOrEqual : string → string → option bool) (HasIPv6 : bool).

(** The current connection of a key. *)
Definition info (p : Peers) (k : string) : option (N * (string * list Prefix * string)) :=
  id ← ps_store p !! k; d ← conn_data p id; Some (id, d).

Definition sound_store (p : Peers) : Prop :=
  ∀ k id, ps_store p !! k = Some id → is_Some (conn_data p id) ∧ (id < ps_next p)%N.

Lemma info_same p p' k : same_conns p p' → info p' k = info p k.
Proof. intros Hs. unfold info. rewrite (sc_store _ _ Hs). destruct (ps_store p !! k) as [id|]; [|done]. cbn. by rewrite (sc_data _ _ Hs). Qed.

Lemma sound_same p p' : same_conns p p' → sound_store p → sound_store p'.
Proof. intros Hs H k id. rewrite (sc_store _ _ Hs), (sc_data _ _ Hs), (sc_next _ _ Hs). apply H. Qed.

Lemma info_None p k : sound_store p → info p k = None ↔ ps_store p !! k = None.
Proof.
  intros H. unfold info. destruct (ps_store p !! k) as [id|] eqn:E; [|done]. destruct (H _ _ E) as [[d Hd] _]. cbn. rewrite Hd. done.
Qed.

Lemma wf_sound ok m p : wf ok m p → sound_store p.
Proof.
  intros W k id Hk. pose proof (wf_store _ _ _ W _ _ Hk) as Hc. split; [|apply (wf_next _ _ _ W); by eexists].
  rewrite conn_key_data in Hc. apply fmap_Some in Hc as (d & ? & _). by eexists.
Qed.

(** *** Removal *)

Lemma RemovePeerConn_peers k w : sound_store (w_peers w) →
  sound_store (w_peers (RemovePeerConn k w)) ∧
  ∀ k', info (w_peers (RemovePeerConn k w)) k' = if decide (k' = k) then None else info (w_peers w) k'.
Proof.
  intros H. unfold RemovePeerConn. destruct (ps_store (w_peers w) !! k) as [id|] eqn:E.
  - set (p := close_at false id (store_Remove k (w_peers w))). assert (Hs : same_conns (store_Remove k (w_peers w)) p) by apply close_at_same.
    assert (G : sound_store p ∧ ∀ k', info p k' = if decide (k' = k) then None else info (w_peers w) k').
    { split.
      - eapply sound_same; [exact Hs|]. intros k' id'. cbn. intros [_ Hk]%lookup_delete_Some. exact (H _ _ Hk).
      - intros k'. rewrite (info_same _ _ _ Hs). unfold info. cbn. case_decide as Hd; [subst; by rewrite lookup_delete_eq|].
        by rewrite lookup_delete_ne. }
    by destruct (lazy_of w).
  - split; [done|]. intros k'. case_decide as Hd; [subst|done]. by apply info_None.
Qed.

Lemma removeAll_peers keys w : sound_store (w_peers w) →
  sound_store (w_peers (removeAll keys w)) ∧
  ∀ k, info (w_peers (removeAll keys w)) k = if decide (k ∈ keys) then None else info (w_peers w) k.
Proof.
  unfold removeAll. revert w. induction keys as [|k0 keys IH]; intros w H; [split; [done|]; intros k; by rewrite decide_False by apply not_elem_of_nil|].
  cbn [foldl]. destruct (RemovePeerConn_peers k0 w H) as [H1 H2]. destruct (IH _ H1) as [H3 H4]. split; [done|]. intros k.
  rewrite H4, H2. repeat case_decide; set_solver.
Qed.

(** *** Addition *)

Lemma AddPeer_same sys cfg m p : same_conns p (AddPeer sys cfg m p).1.1.2.
Proof.
  unfold AddPeer. destruct (lm_excludes m !! _); [done|]. destruct (lm_managedPeers m !! _); [done|].
  destruct (armActivityListener sys cfg m) as [m1 []]; [done|]. destruct (shouldActivateNewPeer _ _); [|done].
  unfold activateNewPeerInActiveGroup. destruct (lm_managedPeersByConnID _ !! _) as [mp|]; [|done].
  destruct (activateSinglePeer cfg mp _) as [m2 []]; [|done]. apply PeerConnOpenWithFirstPacket_same.
Qed.

Lemma addNewPeer_peers sys r w : let '(w', err) := addNewPeer GreaterOrEqual HasIPv6 sys r w in
  if err then ps_store (w_peers w) !! rp_WgPubKey r = None ∧
    ∀ ip ips, usable_prefixes HasIPv6 (rp_AllowedIps r) = Some (ip :: ips) → sys_create sys (rp_WgPubKey r) = false
  else (is_Some (ps_store (w_peers w) !! rp_WgPubKey r) ∧ w' = w) ∨
    (ps_store (w_peers w) !! rp_WgPubKey r = None ∧ ∃ l, usable_prefixes HasIPv6 (rp_AllowedIps r) = Some l ∧
       same_conns (stored_new (rp_WgPubKey r) l (rp_AgentVersion r) (w_peers w)) (w_peers w')).
Proof.
  unfold addNewPeer. set (k := rp_WgPubKey r). destruct (ps_store (w_peers w) !! k) eqn:Ek; [left; split; [by eexists|done]|].
  destruct (usable_prefixes HasIPv6 (rp_AllowedIps r)) as [[|ip ips]|]; [by split| |by split].
  destruct (sys_create sys k) eqn:Ec; [|by split]. cbn [negb].
  pose proof (AddPeerConn_new GreaterOrEqual sys k (ip :: ips) (rp_AgentVersion r) (negb (PeerLazyDefault (w_mgr w) (rp_LazyState r))) w Ek) as HA.
  cbn zeta in HA. cbn [NewConn snd] in HA |- *. rewrite HA. clear HA. set (p' := stored_new _ _ _ _).
  destruct (lazy_of w) as [m|]; [|right; split; [done|]; eexists; split; [done|]; apply open_at_same].
  destruct (_ || _); [right; split; [done|]; eexists; split; [done|]; apply open_at_same|].
  pose proof (AddPeer_same sys (new_config k (ip :: ips) (w_peers w)) m p') as Hs.
  destruct (AddPeer _ _ m p') as [[[m' p''] ex] err]. cbn in Hs. right. split; [done|]. eexists. split; [done|]. cbn.
  destruct (err || ex); [|done]. etransitivity; [exact Hs|apply open_at_same].
Qed.

(** The connection is as the map wants it. *)
Definition agrees (r : RemotePeerConfig) (d : N * (string * list Prefix * string)) : Prop :=
  let '(_, (k, ips, v)) := d in
  k = rp_WgPubKey r ∧ v = rp_AgentVersion r ∧
  ∃ l, usable_prefixes HasIPv6 (rp_AllowedIps r) = Some l ∧ prefix_String <$> ips ≡ₚ prefix_String <$> l.

Lemma stored_new_info k l v p : sound_store p → ps_store p !! k = None →
  sound_store (stored_new k l v p) ∧
  ∀ k', info (stored_new k l v p) k' = if decide (k' = k) then Some (ps_next p, (k, l, v)) else info p k'.
Proof.
  intros H Hk. assert (Hd : ∀ id, (id < ps_next p)%N → conn_data (stored_new k l v p) id = conn_data p id).
  { intros id Hid. unfold conn_data. cbn. rewrite lookup_insert_ne by lia. done. }
  assert (Hn : conn_data (stored_new k l v p) (ps_next p) = Some (k, l, v)) by (unfold conn_data; cbn; by rewrite lookup_insert_eq).
  split.
  - intros k' id Hid. change (<[k := ps_next p]> (ps_store p) !! k' = Some id) in Hid. change (ps_next (stored_new k l v p)) with (ps_next p + 1)%N.
    apply lookup_insert_Some in Hid as [[<- <-]|[Hne Hs]]; [rewrite Hn; split; [by eexists|lia]|].
    destruct (H _ _ Hs). rewrite Hd by done. split; [done|lia].
  - intros k'. unfold info. change (ps_store (stored_new k l v p)) with (<[k := ps_next p]> (ps_store p)).
    case_decide as Hd'; [subst; rewrite lookup_insert_eq; cbn [mbind option_bind]; by rewrite Hn|].
    rewrite lookup_insert_ne by done. destruct (ps_store p !! k') as [id|] eqn:E; [|done]. cbn [mbind option_bind]. rewrite Hd; [done|]. by destruct (H _ _ E).
Qed.

Lemma addNewPeers_peers sys rs w : sound_store (w_peers w) →
  let '(w', err) := addNewPeers GreaterOrEqual HasIPv6 sys rs w in
  sound_store (w_peers w') ∧
  (err = true → ∃ r, r ∈ rs ∧ ∀ ip ips, usable_prefixes HasIPv6 (rp_AllowedIps r) = Some (ip :: ips) → sys_create sys (rp_WgPubKey r) = false) ∧
  (err = false → ∀ k,
     match info (w_peers w) k with
     | Some d => info (w_peers w') k = Some d
     | None => match info (w_peers w') k with
               | Some d => ∃ r, r ∈ rs ∧ rp_WgPubKey r = k ∧ agrees r d
               | None => k ∉ rp_WgPubKey <$> rs
               end
     end).
Proof.
  revert w. induction rs as [|r rs IH]; intros w H.
  { split_and!; [done..|]. intros _ k. destruct (info (w_peers w) k); [done|apply not_elem_of_nil]. }
  cbn [addNewPeers]. pose proof (addNewPeer_peers sys r w) as HP. destruct (addNewPeer _ _ sys r w) as [w1 []] eqn:E1.
  { destruct HP as [Hk Hu]. split_and!; [| |done].
    - unfold addNewPeer in E1. rewrite Hk in E1. destruct (usable_prefixes _ _) as [[|ip ips]|]; [by simplify_eq| |by simplify_eq].
      rewrite (Hu ip ips eq_refl) in E1. cbn in E1. by simplify_eq.
    - intros _. exists r. split; [left|exact Hu]. }
  assert (H1 : sound_store (w_peers w1) ∧ ∀ k, match info (w_peers w) k with
    | Some d => info (w_peers w1) k = Some d
    | None => if decide (k = rp_WgPubKey r) then ∃ d, info (w_peers w1) k = Some d ∧ agrees r d else info (w_peers w1) k = None end).
  { destruct HP as [[[id Hid] ->]|(Hk & l & Hl & Hs)].
    - split; [done|]. intros k. destruct (info (w_peers w) k) as [d|] eqn:Ei; [done|]. case_decide as Hd; [subst|done].
      apply info_None in Ei; [|done]. congruence.
    - destruct (stored_new_info (rp_WgPubKey r) l (rp_AgentVersion r) (w_peers w) H Hk) as [S1 S2]. split; [by eapply sound_same|].
      intros k. rewrite (info_same _ _ _ Hs), S2. case_decide as Hd; [subst k|by destruct (info (w_peers w) k)].
      rewrite (proj2 (info_None _ _ H) Hk). eexists. split; [done|]. split_and!; [done..|]. by exists l. }
  destruct H1 as [H1 H2]. specialize (IH w1 H1). destruct (addNewPeers _ _ sys rs w1) as [w2 err]. destruct IH as (I1 & I2 & I3). split_and!; [done| |].
  - intros He. destruct (I2 He) as (r' & Hr' & ?). exists r'. split; [by right|done].
  - intros He k. specialize (I3 He k). specialize (H2 k). destruct (info (w_peers w) k) as [d|]; [by rewrite H2 in I3|].
    case_decide as Hd.
    + destruct H2 as (d & H2 & Ha). rewrite H2 in I3. rewrite I3. exists r. split_and!; [left|done..].
    + rewrite H2 in I3. destruct (info (w_peers w2) k) as [d|].
      * destruct I3 as (r' & ? & ? & ?). exists r'. split_and!; [by right|done..].
      * cbn. rewrite not_elem_of_cons. by split.
Qed.
(** *** The whole map *)

Lemma unmodified_agrees p r id d : info p (rp_WgPubKey r) = Some (id, d) → d.1.1 = rp_WgPubKey r → is_modified HasIPv6 p r = false →
  agrees r (id, d).
Proof.
  unfold info, is_modified. destruct (ps_store p !! rp_WgPubKey r) as [id0|]; [|done]. cbn. unfold conn_data.
  destruct (ps_conns p !! id0) as [c|]; [|done]. cbn. intros [= -> <-] Hk. cbn in Hk. intros [Hv Hc]%orb_false_iff.
  apply negb_false_iff in Hv, Hc. apply String.eqb_eq in Hv. split_and!; [done..|].
  destruct (compareNetIPLists_perm _ _ Hc) as (ps & Hps & Hp). exists ps. split; [by apply usable_filter|done].
Qed.

Lemma key_unique rs r r' : NoDup (rp_WgPubKey <$> rs) → r ∈ rs → r' ∈ rs → rp_WgPubKey r' = rp_WgPubKey r → r' = r.
Proof.
  intros Hd Hr Hr' E. destruct (list_elem_of_lookup_1 _ _ Hr) as [i Hi]. destruct (list_elem_of_lookup_1 _ _ Hr') as [j Hj].
  assert (i = j) as -> by (eapply NoDup_lookup; [exact Hd|by rewrite list_lookup_fmap, Hi|rewrite list_lookup_fmap, Hj; cbn; by rewrite E]).
  congruence.
Qed.

Lemma not_stored_keys seed p k : k ∉ (range_list seed (ps_store p)).*1 → ps_store p !! k = None.
Proof.
  intros H. apply eq_None_not_Some. intros [id Hid]. apply H, list_elem_of_fmap. exists (k, id). split; [done|]. by apply elem_of_range_list.
Qed.

Lemma reconcile_peers sys seed rs w : sound_store (w_peers w) → keyed_store (w_peers w) →
  let '(w', err) := reconcilePeers GreaterOrEqual HasIPv6 sys seed false rs w in
  (err = true → ∃ r, r ∈ rs ∧ ∀ ip ips, usable_prefixes HasIPv6 (rp_AllowedIps r) = Some (ip :: ips) → sys_create sys (rp_WgPubKey r) = false) ∧
  (err = false → sound_store (w_peers w') ∧
     (∀ k, is_Some (info (w_peers w') k) ↔ k ∈ rp_WgPubKey <$> rs) ∧
     (NoDup (rp_WgPubKey <$> rs) → ∀ r d, r ∈ rs → info (w_peers w') (rp_WgPubKey r) = Some d → agrees r d)).
Proof.
  intros H HK. unfold reconcilePeers, modifyPeers, removePeers. set (gone := filter (λ key, key ∉ rp_WgPubKey <$> rs) _).
  destruct (removeAll_peers gone w H) as [H1 R1]. set (w1 := removeAll gone w) in *.
  assert (D1 : ∀ k, is_Some (info (w_peers w1) k) → k ∈ rp_WgPubKey <$> rs).
  { intros k. rewrite R1. case_decide as Hg; [by intros []|]. intros Hi. destruct (decide (k ∈ rp_WgPubKey <$> rs)) as [|Hn]; [done|].
    destruct Hg. apply list_elem_of_filter. split; [done|]. destruct (decide (k ∈ (range_list seed (ps_store (w_peers w))).*1)) as [|Hr]; [done|].
    apply not_stored_keys, (info_None _ _ H) in Hr. rewrite Hr in Hi. by destruct Hi. }
  assert (K1 : ∀ k id d, info (w_peers w1) k = Some (id, d) → d.1.1 = k).
  { intros k id d. rewrite R1. case_decide; [done|]. unfold info. destruct (ps_store (w_peers w) !! k) as [id0|] eqn:E; [|done]. cbn.
    pose proof (HK _ _ E) as Hc. rewrite conn_key_data in Hc. destruct (conn_data (w_peers w) id0) as [d0|]; [|done]. injection Hc as Hc. by intros [= -> ->]. }
  set (l := filter (λ r, is_modified HasIPv6 (w_peers w1) r = true) rs). destruct (removeAll_peers (rp_WgPubKey <$> l) w1 H1) as [H2 R2].
  set (w2 := removeAll (rp_WgPubKey <$> l) w1) in *. pose proof (addNewPeers_peers sys l w2 H2) as A3.
  destruct (addNewPeers _ _ sys l w2) as [w3 []]; destruct A3 as (H3 & B3 & A3).
  { split; [|done]. intros _. destruct (B3 eq_refl) as (r & [_ Hr]%list_elem_of_filter & ?). by exists r. }
  pose proof (addNewPeers_peers sys rs w3 H3) as A4. destruct (addNewPeers _ _ sys rs w3) as [w4 err]. destruct A4 as (H4 & B4 & A4).
  split; [done|]. intros Herr. specialize (A3 eq_refl). specialize (A4 Herr).
  assert (Hl : ∀ k, k ∈ rp_WgPubKey <$> l → k ∈ rp_WgPubKey <$> rs).
  { intros k (r & -> & [_ Hr]%list_elem_of_filter)%list_elem_of_fmap. by apply list_elem_of_fmap_2. }
  split_and!; [done| |].
  - intros k. specialize (A3 k). specialize (A4 k). rewrite R2 in A3. split.
    + intros Hs. destruct (info (w_peers w3) k) as [d3|] eqn:E3.
      * case_decide as Hk; [by apply Hl|]. destruct (info (w_peers w1) k) as [d1|] eqn:E1; [apply D1; by rewrite E1|].
        destruct A3 as (r & Hr & <- & _). apply list_elem_of_filter in Hr as [_ Hr]. by apply list_elem_of_fmap_2.
      * destruct Hs as [d Hd]. rewrite Hd in A4. destruct A4 as (r & Hr & <- & _). by apply list_elem_of_fmap_2.
    + intros Hk. destruct (info (w_peers w3) k) as [d3|]; [rewrite A4; by eexists|]. destruct (info (w_peers w4) k); [by eexists|done].
  - intros Hd r d Hr Hi. specialize (A3 (rp_WgPubKey r)). specialize (A4 (rp_WgPubKey r)). rewrite R2 in A3.
    destruct (info (w_peers w3) (rp_WgPubKey r)) as [d3|] eqn:E3.
    + rewrite A4 in Hi. injection Hi as <-. case_decide as Hk.
      * destruct A3 as (r' & Hr' & E & Ha). apply list_elem_of_filter in Hr' as [_ Hr']. by rewrite <- (key_unique rs r r' Hd Hr Hr' E).
      * destruct (info (w_peers w1) (rp_WgPubKey r)) as [[id1 d1]|] eqn:E1.
        { injection A3 as ->. apply (unmodified_agrees (w_peers w1)); [done|by eapply K1|]. apply not_true_iff_false. intros Hm. apply Hk.
          apply list_elem_of_fmap_2, list_elem_of_filter. by split. }
        destruct A3 as (r' & Hr' & E & Ha). apply list_elem_of_filter in Hr' as [_ Hr']. by rewrite <- (key_unique rs r r' Hd Hr Hr' E).
    + rewrite Hi in A4. destruct A4 as (r' & Hr' & E & Ha). by rewrite <- (key_unique rs r r' Hd Hr Hr' E).
Qed.

(** *** The exclude list *)

(** The peers the connection manager has excluded are excluded by the lazy
    manager. *)
Definition excludes_applied (w : World) : Prop :=
  ∀ m, lazy_of w = Some m → ∀ k, k ∈ cm_appliedExcludeList (w_mgr w) → is_Some (lm_excludes m !! k).

Lemma holds_applied w w' : holds w w' → excludes_applied w → excludes_applied w'.
Proof.
  intros H HE m' Hm' k. destruct (H m' Hm') as (m & Hm & G & ->). intros Hk. replace (lm_excludes m') with (lm_excludes m) by exact (eq_sym (f_equal snd G)).
  by apply HE.
Qed.

Lemma ExcludePeer_excludes s s' cfgs m : lm_excludes (ExcludePeer s s' cfgs m).1 = keyed cfgs.
Proof. unfold ExcludePeer. by destruct (foldl (exclude_one _) _ _) as [m1 added]. Qed.

Lemma excludedPeers_all p keys k : k ∈ keys → is_Some (info p k) → k ∈ pc_PublicKey <$> excludedPeers p keys.
Proof.
  intros Hk [d Hd]. unfold info in Hd. apply list_elem_of_fmap. destruct (ps_store p !! k) as [id|] eqn:E; [|done]. cbn in Hd.
  unfold conn_data in Hd. destruct (ps_conns p !! id) as [c|] eqn:Ec; [|done]. exists (config_of_conn k id c). split; [done|].
  unfold excludedPeers. apply list_elem_of_omap. exists k. split; [done|]. rewrite E. cbn. by rewrite Ec.
Qed.

Lemma open_all_same sys keys p : same_conns p (foldl (λ p k, PeerConnOpen sys k p) p keys).
Proof.
  revert p. induction keys as [|k keys IH]; intros p; [done|]. cbn. etransitivity; [apply PeerConnOpenWithFirstPacket_same|apply IH].
Qed.

Lemma SetExcludeList_spec sys s1 s2 s3 ids w : let w' := SetExcludeList sys s1 s2 s3 ids w in
  same_conns (w_peers w) (w_peers w') ∧ (∀ st, PeerLazyDefault (w_mgr w') st = PeerLazyDefault (w_mgr w) st) ∧
  ∀ m, lazy_of w' = Some m → cm_appliedExcludeList (w_mgr w') = ids ∧
    (excludes_applied w → (∀ k, k ∈ ids → is_Some (info (w_peers w) k)) → excludes_applied w').
Proof.
  unfold SetExcludeList. destruct (lazy_of w) as [m|] eqn:El; [|split_and!; [done..|]; cbv zeta; intros m; by rewrite El].
  case_decide as Hd; [split_and!; [done..|]; by intros _ _|].
  pose proof (ExcludePeer_excludes s2 s3 (excludedPeers (w_peers w) (range_set s1 ids)) m) as HX.
  destruct (ExcludePeer _ _ _ m) as [m1 added]. cbn in HX. split_and!; [apply open_all_same|done|]. intros m' [= <-]. split; [done|].
  intros _ Hi m' [= <-] k. cbn. intros Hk. rewrite HX. apply (proj2 (keyed_dom _ _)), excludedPeers_all; [by rewrite elem_of_range_set|by apply Hi].
Qed.

(** The engine sets the exclude list with each map only, and a map that says it
    is empty has no peers. *)
Definition from_maps (o : op) : Prop :=
  match o with WExclude _ _ => False | WSync _ isEmpty rs => isEmpty = true → rs = [] | _ => True end.

Lemma toExcluded_elem e rs k : k ∈ toExcludedLazyPeers e rs → k ∈ rp_WgPubKey <$> rs.
Proof. unfold toExcludedLazyPeers. rewrite elem_of_list_to_set. intros (r & -> & [_ Hr]%list_elem_of_filter)%list_elem_of_fmap. by apply list_elem_of_fmap_2. Qed.

Lemma sync_applied sys seeds isEmpty rs w : (isEmpty = true → rs = []) →
  (∀ m, lazy_of w = Some m → sound_store (w_peers w) ∧ keyed_store (w_peers w)) → excludes_applied w →
  excludes_applied (sync GreaterOrEqual HasIPv6 sys seeds isEmpty rs w).1.
Proof.
  intros He HS HA m' Hm'. destruct (keeps_sync GreaterOrEqual HasIPv6 sys seeds isEmpty rs w m' Hm') as (m & Hm & _).
  destruct (HS m Hm) as [H HK]. revert m' Hm'. change (excludes_applied (sync GreaterOrEqual HasIPv6 sys seeds isEmpty rs w).1).
  destruct seeds as [[[s0 s1] s2] s3]. unfold sync.
  pose proof (holds_applied _ _ (holds_reconcile GreaterOrEqual HasIPv6 sys s0 isEmpty rs w) HA) as H1.
  assert (Hin : (reconcilePeers GreaterOrEqual HasIPv6 sys s0 isEmpty rs w).2 = false → ∀ k, k ∈ rp_WgPubKey <$> rs →
                is_Some (info (w_peers (reconcilePeers GreaterOrEqual HasIPv6 sys s0 isEmpty rs w).1) k)).
  { destruct isEmpty; [by rewrite He; [intros _ k ?%elem_of_nil|]|].
    pose proof (reconcile_peers sys s0 rs w H HK) as HR. destruct (reconcilePeers _ _ _ _ _ _ _) as [w1 err]. cbn. intros ->.
    destruct HR as [_ HR]. destruct (HR eq_refl) as (_ & HR' & _). intros k. apply HR'. }
  destruct (reconcilePeers _ _ _ _ _ _ _) as [w1 []]; [done|]. cbn [fst snd] in *. intros m' Hm'.
  destruct (SetExcludeList_spec sys s1 s2 s3 (toExcludedLazyPeers (w_mgr w1) rs) w1) as (_ & _ & HX).
  destruct (HX m' Hm') as [_ HX']. apply HX'; [done| |done]. intros k Hk%toExcluded_elem. by apply Hin.
Qed.

Context (env mdm : State) (userspaceBind : bool) (threshold : option Z).
Notation world_after := (world_after GreaterOrEqual HasIPv6 env mdm userspaceBind threshold).

Lemma reachable_store ops m : lazy_of (world_after ops) = Some m →
  sound_store (w_peers (world_after ops)) ∧ keyed_store (w_peers (world_after ops)).
Proof.
  intros El. pose proof (reachable_wf GreaterOrEqual HasIPv6 env mdm userspaceBind threshold ops m El) as W.
  split; [by eapply wf_sound|exact (wf_store _ _ _ W)].
Qed.

Lemma run_applied ops : Forall (λ o, from_maps o.2) ops → excludes_applied (world_after ops).
Proof.
  induction ops as [|[sys o] ops IH] using rev_ind; intros HF; [intros m [= <-] k; set_solver|].
  apply Forall_app in HF as [HF [Ho _]%Forall_cons]. specialize (IH HF). cbn in Ho.
  unfold LazyFacts.world_after, ConnMgr.run in *. rewrite foldl_app. cbn [foldl]. set (w := foldl _ _ ops) in *.
  destruct (is_routes o) eqn:Er.
  { destruct o; try done. cbn. unfold mgr_UpdateRouteHAMap. destruct (lazy_of w) as [m|] eqn:El; [|done]. intros m' [= <-] k Hk.
    unfold UpdateRouteHAMap. destruct (foldl update_group _ _). exact (IH m El k Hk). }
  destruct (sets_excludes o) eqn:Es; [|eapply holds_applied; [by apply holds_step|done]].
  destruct o as [seeds isEmpty rs| | |? ?| | | | | | | | | | | | ]; try done. cbn [step]. apply sync_applied; [done| |done].
  exact (reachable_store ops).
Qed.

(** The system arms and opens for a peer, and there is no warm-up. *)
Definition helpful (k : string) (o : Sys * op) : Prop :=
  sys_arm o.1 k = true ∧ sys_open o.1 k = true ∧ is_warm_up o.2 = false.

Lemma helpful_inv k ops m : Forall (helpful k) ops → lazy_of (world_after ops) = Some m →
  inv (eq k) (eq k) m (w_peers (world_after ops)) (w_opening (world_after ops)).
Proof.
  intros HF El. pose proof (world_run (eq k) (eq k) GreaterOrEqual HasIPv6 env mdm userspaceBind threshold ops) as H.
  fold (world_after ops) in H. unfold world_inv in H. rewrite El in H. apply H. eapply Forall_impl; [exact HF|].
  intros [sys o] (Ha & Ho & Hn). cbn in *. split; [by intros k'; split; intros <-|by destruct o].
Qed.

Lemma after_sync ops sys seeds rs : world_after (ops ++ [(sys, WSync seeds false rs)]) = (sync GreaterOrEqual HasIPv6 sys seeds false rs (world_after ops)).1.
Proof. unfold LazyFacts.world_after, ConnMgr.run. by rewrite foldl_app. Qed.

(** C36. A network map with distinct keys is carried out, with a lazy manager
    running and an exclude list that only maps have set.  It fails only on a peer
    without a usable address or whose connection cannot be created.  After it
    the stored peers are those of the map, each with the agent and, up to their
    order, the addresses the map names, and the peers that are eager by policy
    are not managed.  The connection of such a peer is open or about to be,
    provided that over the whole history the system armed and opened for it and
    no DNS warm-up ran. *)
Theorem sync_reconciles ops sys seeds rs : Forall (λ o, from_maps o.2) ops → NoDup (rp_WgPubKey <$> rs) →
  let '(w', err) := sync GreaterOrEqual HasIPv6 sys seeds false rs (world_after ops) in
  ∀ m, lazy_of w' = Some m →
  ((∀ r, r ∈ rs → sys_create sys (rp_WgPubKey r) = true ∧ ∃ ip ips, usable_prefixes HasIPv6 (rp_AllowedIps r) = Some (ip :: ips)) → err = false) ∧
  (err = false →
     (∀ k, is_Some (ps_store (w_peers w') !! k) ↔ k ∈ rp_WgPubKey <$> rs) ∧
     ∀ r, r ∈ rs → ∃ id c l,
       ps_store (w_peers w') !! rp_WgPubKey r = Some id ∧ ps_conns (w_peers w') !! id = Some c ∧
       cn_Key c = rp_WgPubKey r ∧ cn_AgentVersion c = rp_AgentVersion r ∧
       usable_prefixes HasIPv6 (rp_AllowedIps r) = Some l ∧ prefix_String <$> cn_AllowedIps c ≡ₚ prefix_String <$> l ∧
       (PeerLazyDefault (w_mgr w') (rp_LazyState r) = false →
          view m (rp_WgPubKey r) = None ∧
          (Forall (helpful (rp_WgPubKey r)) (ops ++ [(sys, WSync seeds false rs)]) → opened (w_peers w') id ∨ id ∈ w_opening w'))).
Proof.
  intros HF Hd. pose proof (after_sync ops sys seeds rs) as EW. set (w' := (sync _ _ _ _ _ _ _).1) in EW.
  pose proof (run_applied (ops ++ [(sys, WSync seeds false rs)])) as HA. rewrite EW in HA.
  assert (HA' : excludes_applied w') by (apply HA, Forall_app; split; [done|by repeat constructor]). clear HA.
  pose proof (λ k m, helpful_inv k (ops ++ [(sys, WSync seeds false rs)]) m) as HI. rewrite EW in HI.
  pose proof (reachable_wf GreaterOrEqual HasIPv6 env mdm userspaceBind threshold (ops ++ [(sys, WSync seeds false rs)])) as HW.
  fold (world_after (ops ++ [(sys, WSync seeds false rs)])) in HW. rewrite EW in HW.
  pose proof (keeps_sync GreaterOrEqual HasIPv6 sys seeds false rs (world_after ops)) as HK. fold w' in HK. unfold w' in *. clear w' EW.
  destruct seeds as [[[s0 s1] s2] s3]. unfold sync in *.
  pose proof (reconcile_peers sys s0 rs (world_after ops)) as HR.
  destruct (reconcilePeers _ _ sys s0 false rs (world_after ops)) as [w1 err].
  assert (Herr : ∀ m, lazy_of (world_after ops) = Some m →
    (∀ r, r ∈ rs → sys_create sys (rp_WgPubKey r) = true ∧ ∃ ip ips, usable_prefixes HasIPv6 (rp_AllowedIps r) = Some (ip :: ips)) → err = false).
  { intros m Hm Hall. destruct (reachable_store ops m Hm) as [S1 S2]. destruct (HR S1 S2) as [HR1 _]. destruct err; [|done].
    destruct (HR1 eq_refl) as (r & Hr & Hu). destruct (Hall r Hr) as (Hc & ip & ips & Hl). rewrite (Hu _ _ Hl) in Hc. done. }
  destruct err; intros m Hm; destruct (HK m Hm) as (m0 & Hm0 & _); (split; [by apply Herr with m0|]); [done|]. intros _.
  destruct (reachable_store ops m0 Hm0) as [S1 S2]. destruct (HR S1 S2) as [_ HR']. destruct (HR' eq_refl) as (S3 & D & A). clear HR HR' Herr.
  destruct (SetExcludeList_spec sys s1 s2 s3 (toExcludedLazyPeers (w_mgr w1) rs) w1) as (Hs & HP & HX). cbn [fst] in *.
  set (w2 := SetExcludeList _ _ _ _ _ w1) in *. destruct (HX m Hm) as [HX' _].
  assert (D' : ∀ k, is_Some (ps_store (w_peers w2) !! k) ↔ k ∈ rp_WgPubKey <$> rs).
  { intros k. rewrite <- D, (sc_store _ _ Hs). pose proof (info_None (w_peers w1) k S3) as Hn. unfold is_Some.
    destruct (info (w_peers w1) k) as [d|], (ps_store (w_peers w1) !! k) as [id|]; naive_solver. }
  split; [done|]. intros r Hr. assert (Hk : rp_WgPubKey r ∈ rp_WgPubKey <$> rs) by (by apply list_elem_of_fmap_2).
  destruct (proj2 (D _) Hk) as [d Hi]. pose proof (A Hd r d Hr Hi) as Ha. rewrite <- (info_same _ _ _ Hs) in Hi. unfold info, conn_data in Hi.
  destruct (ps_store (w_peers w2) !! rp_WgPubKey r) as [id|] eqn:Eid; [|done]. cbn in Hi.
  destruct (ps_conns (w_peers w2) !! id) as [c|] eqn:Ec; [|done]. injection Hi as <-. destruct Ha as (E1 & E2 & l & Hl & Hp).
  exists id, c, l. split_and!; [done..|]. rewrite HP. intros He.
  assert (Hex : is_Some (lm_excludes m !! rp_WgPubKey r)).
  { apply (HA' m Hm). rewrite HX'. unfold toExcludedLazyPeers. apply elem_of_list_to_set, list_elem_of_fmap_2, list_elem_of_filter. by split. }
  split; [destruct Hex as [cfg Hex]; by destruct (wf_excluded _ _ _ (HW m Hm) _ _ Hex) as (_ & ? & _)|].
  intros HF'. exact (inv_excluded _ _ _ _ _ (HI _ m HF' Hm) _ id Hex eq_refl Eid).
Qed.
End Sync.

(** ** Concrete runs *)

(** The system grants everything, and every version is new enough. *)
Definition fine_sys : Sys := {| sys_arm := λ _, true; sys_open := λ _, true; sys_create := λ _, true |}.

Definition peer_cfg (key ip : string) (state : LazyState) : RemotePeerConfig :=
  {| rp_WgPubKey := key; rp_AllowedIps := [ip]; rp_AgentVersion := "0.50.0"; rp_LazyState := state |}.

Definition no_seeds : nat * nat * nat * nat := (0, 0, 0, 0)%nat.

Definition synced (rs : list RemotePeerConfig) : Sys * op := (fine_sys, WSync no_seeds (bool_decide (rs = [])) rs).

#[local] Existing Instance canonical_order.

Definition world_of (ops : list (Sys * op)) : World :=
  world_after (λ _ _, Some true) false StateUnset StateUnset true None ops.

Definition lazy_mgr (ops : list (Sys * op)) : Manager := default (NewManager true None) (lazy_of (world_of ops)).

(** Two lazy peers that serve one route, and an eager one. *)
Definition two_routers : list (Sys * op) :=
  [ (fine_sys, WRoutes 0 (list_to_map [("net|10.0.0.0/8", ["A"; "B"])]));
    synced [peer_cfg "A" "100.64.0.2/32" LazyStateLazy; peer_cfg "B" "100.64.0.3/32" LazyStateLazy;
            peer_cfg "C" "100.64.0.4/32" LazyStateEager] ].

Definition cfg_of (key : string) (ops : list (Sys * op)) : PeerConfig :=
  default {| pc_PublicKey := ""; pc_AllowedIPs := []; pc_PeerConnID := 0 |} (fst <$> view (lazy_mgr ops) key).

(** ** Cases of the theorems *)

Definition some_lazy (ops : list (Sys * op)) : bool := if lazy_of (world_of ops) is Some _ then true else false.

Lemma lazy_mgr_eq ops : some_lazy ops = true → lazy_of (world_of ops) = Some (lazy_mgr ops).
Proof. apply some_default. Qed.

Lemma two_routers_lazy : lazy_of (world_of two_routers) = Some (lazy_mgr two_routers).
Proof. apply lazy_mgr_eq. by vm_compute. Qed.

(** Traffic for A wakes both routers. *)
Definition routers_awake : list (Sys * op) :=
  two_routers ++ [(fine_sys, WTraffic 0 [1; 2]); (fine_sys, WWaiter 0); (fine_sys, WActivity 0)].

Lemma routers_awake_lazy : lazy_of (world_of routers_awake) = Some (lazy_mgr routers_awake).
Proof. apply lazy_mgr_eq. by vm_compute. Qed.

Example routers_run :
  (expects watcherActivity (lazy_mgr two_routers) <$> ["A"; "B"; "C"]) = [true; true; false] ∧
  (expects watcherInactivity (lazy_mgr routers_awake) <$> ["A"; "B"; "C"]) = [true; true; false] ∧
  (cn_opened <$> (map_to_list (ps_conns (w_peers (world_of two_routers)))).*2) = [true; false; false] ∧
  (cn_opened <$> (map_to_list (ps_conns (w_peers (world_of routers_awake)))).*2) = [true; true; true].
Proof. by vm_compute. Qed.

Lemma lazy_watched_witness :
  Forall (λ o, sys_arm o.1 "A" = true) two_routers ∧
  view (lazy_mgr two_routers) "A" = Some (cfg_of "A" two_routers, watcherActivity) ∧
  heard (lm_activityManager (lazy_mgr two_routers)) (pc_PeerConnID (cfg_of "A" two_routers)).
Proof.
  assert (Ho : Forall (λ o, sys_arm o.1 "A" = true) two_routers) by (by repeat constructor).
  assert (Hv : view (lazy_mgr two_routers) "A" = Some (cfg_of "A" two_routers, watcherActivity)) by (by vm_compute).
  destruct (lazy_watched (λ _ _, Some true) false StateUnset StateUnset true None two_routers (lazy_mgr two_routers) "A" Ho two_routers_lazy) as [H _].
  rewrite Hv in H. destruct H as (_ & _ & H & _). by split_and!.
Defined.

Lemma nobody_stranded_witness :
  ps_store (w_peers (world_of routers_awake)) !! "B" = Some 1%N ∧
  (opened (w_peers (world_of routers_awake)) 1 ∨ 1%N ∈ w_opening (world_of routers_awake) ∨
   (∃ cfg, view (lazy_mgr routers_awake) "B" = Some (cfg, watcherActivity) ∧ pc_PeerConnID cfg = 1%N ∧
           heard (lm_activityManager (lazy_mgr routers_awake)) 1) ∨
   (∃ cfg w, view (lazy_mgr routers_awake) "B" = Some (cfg, w) ∧ pc_PeerConnID cfg ≠ 1%N)).
Proof.
  assert (Hs : ps_store (w_peers (world_of routers_awake)) !! "B" = Some 1%N) by (by vm_compute). split; [exact Hs|].
  refine (nobody_stranded (λ _ _, Some true) false StateUnset StateUnset true None routers_awake _ "B" 1 _ routers_awake_lazy Hs).
  by repeat constructor.
Defined.

Lemma ha_group_woken_witness :
  view (lazy_mgr two_routers) "A" = Some (cfg_of "A" two_routers, watcherActivity) ∧
  let '(_, p') := onPeerActivity fine_sys {| av_PeerConnID := pc_PeerConnID (cfg_of "A" two_routers); av_FirstPacket := [1; 2] |}
                    (lazy_mgr two_routers) (w_peers (world_of two_routers)) in
  opened p' 0.
Proof.
  assert (Hv : view (lazy_mgr two_routers) "A" = Some (cfg_of "A" two_routers, watcherActivity)) by (by vm_compute). split; [exact Hv|].
  pose proof (ha_group_woken (λ _ _, Some true) false StateUnset StateUnset true None two_routers _ "A" _ fine_sys [1; 2]
                two_routers_lazy Hv) as [_ H]. cbv zeta in H. revert H. change (world_after _ _ _ _ _ _ two_routers) with (world_of two_routers).
  destruct (onPeerActivity _ _ _ _) as [m' p']. intros [_ H]. by apply H; vm_compute.
Defined.

(** The next map: A has another address, B is gone and C is eager as before. *)
Definition next_map : list RemotePeerConfig :=
  [peer_cfg "A" "100.64.0.9/32" LazyStateLazy; peer_cfg "C" "100.64.0.4/32" LazyStateEager].

Lemma sync_reconciles_witness :
  let w' := (sync (λ _ _, Some true) false fine_sys no_seeds false next_map (world_of two_routers)).1 in
  (∀ k, is_Some (ps_store (w_peers w') !! k) ↔ k ∈ ["A"; "C"]) ∧
  ∃ id, ps_store (w_peers w') !! "C" = Some id ∧ (opened (w_peers w') id ∨ id ∈ w_opening w').
Proof.
  intros w'. assert (HF : Forall (λ o, from_maps o.2) two_routers) by (by repeat constructor).
  assert (Hd : NoDup (rp_WgPubKey <$> next_map)) by (apply (bool_decide_unpack _); by vm_compute).
  pose proof (sync_reconciles (λ _ _, Some true) false StateUnset StateUnset true None two_routers fine_sys no_seeds next_map HF Hd) as H.
  change (world_after _ _ _ _ _ _ two_routers) with (world_of two_routers) in H.
  pose proof (surjective_pairing (sync (λ _ _, Some true) false fine_sys no_seeds false next_map (world_of two_routers))) as E.
  rewrite E in H. fold w' in H. assert (Em : ∃ m, lazy_of w' = Some m) by (eexists; by vm_compute). destruct Em as [m Hm].
  destruct (H m Hm) as [_ H']. destruct H' as [H1 H2]; [by vm_compute|]. split; [exact H1|].
  destruct (H2 (peer_cfg "C" "100.64.0.4/32" LazyStateEager)) as (id & c & l & Hid & _ & _ & _ & _ & _ & He); [right; left|].
  exists id. split; [exact Hid|]. apply He; [by vm_compute|by repeat constructor].
Defined.

(** A alone timed out: it stays awake for its group.  With B it sleeps. *)
Lemma idle_exact_witness :
  lazy_of (world_of routers_awake) = Some (lazy_mgr routers_awake) ∧
  let '(m', p') := onPeerInactivityTimedOut fine_sys 0 {["A"]} (lazy_mgr routers_awake) (w_peers (world_of routers_awake)) in
  ∃ idle, idled (lazy_mgr routers_awake) m' (w_peers (world_of routers_awake)) p' "A" idle ∧
    (idle = true ↔ "A" ∈ ({["A"]} : gset string) ∧ expects watcherInactivity (lazy_mgr routers_awake) "A" = true ∧
       ¬ ∃ k', routes_with routers_awake "A" k' ∧ expects watcherInactivity (lazy_mgr routers_awake) k' = true ∧ k' ∉ ({["A"]} : gset string)).
Proof.
  split; [exact routers_awake_lazy|].
  pose proof (idle_exact (λ _ _, Some true) false StateUnset StateUnset true None routers_awake _ fine_sys 0 {["A"]} routers_awake_lazy) as H. cbv zeta in H.
  revert H. change (world_after _ _ _ _ _ _ routers_awake) with (world_of routers_awake).
  destruct (onPeerInactivityTimedOut _ _ _ _ _) as [m' p']. intros H. exact (H "A").
Defined.

Example group_holds_awake :
  let idle s := expects watcherActivity (onPeerInactivityTimedOut fine_sys 0 s (lazy_mgr routers_awake) (w_peers (world_of routers_awake))).1 in
  (idle {["A"]} <$> ["A"; "B"]) = [false; false] ∧ (idle {["A"; "B"]} <$> ["A"; "B"]) = [true; true].
Proof. by vm_compute. Qed.

(** ** Peers that are left behind

    The pieces of a final state that matter: what is open, and how a key is
    managed. *)
Definition conn_open_of (ops : list (Sys * op)) (key : string) : option (N * bool) :=
  let p := w_peers (world_of ops) in id ← ps_store p !! key; c ← ps_conns p !! id; Some (id, cn_opened c).

Definition managed_as (ops : list (Sys * op)) (key : string) : option (N * watcherType) :=
  (λ e, (pc_PeerConnID e.1, e.2)) <$> view (lazy_mgr ops) key.

Definition lazy_peer (key : string) : RemotePeerConfig := peer_cfg key "100.64.0.2/32" LazyStateLazy.
Definition eager_peer (key : string) : RemotePeerConfig := peer_cfg key "100.64.0.2/32" LazyStateEager.

(** An eager peer leaves and comes back as a lazy one: when it left,
    [ExcludePeer] took it off the exclude list into the managed peers, with the
    connection that is gone.  The new connection is neither opened nor
    listened for, and signals do not open it. *)
Definition ghost : list (Sys * op) :=
  [ synced [eager_peer "P"; lazy_peer "Q"]; synced [lazy_peer "Q"]; synced [lazy_peer "P"; lazy_peer "Q"] ].

Lemma ghost_never_connects :
  conn_open_of ghost "P" = Some (2%N, false) ∧ managed_as ghost "P" = Some (0%N, watcherInactivity) ∧
  ac_peers (lm_activityManager (lazy_mgr ghost)) !! 2%N = None ∧
  world_of (ghost ++ [(fine_sys, WSignal "P")]) = world_of ghost.
Proof. by vm_compute. Qed.

(** An agent that is too old for connections on demand is connected for good
    when it is added, but not when the policy of an eager peer becomes lazy. *)
Definition only_new (v _ : string) : option bool := Some (negb (String.eqb v "0.30.0")).

Definition old_peer (state : LazyState) : RemotePeerConfig :=
  {| rp_WgPubKey := "P"; rp_AllowedIps := ["100.64.0.2/32"]; rp_AgentVersion := "0.30.0"; rp_LazyState := state |}.

Definition old_world (rss : list (list RemotePeerConfig)) : World :=
  world_after only_new false StateUnset StateUnset true None (synced <$> rss).

Lemma unsupported_goes_lazy :
  let managed w := (λ m, snd <$> view m "P") <$> lazy_of w in
  IsSupported only_new "0.30.0" = false ∧
  managed (old_world [[old_peer LazyStateLazy]]) = Some None ∧
  managed (old_world [[old_peer LazyStateEager]; [old_peer LazyStateLazy]]) = Some (Some watcherInactivity).
Proof. by vm_compute. Qed.

(** A peer is woken by a signal and told to sleep again before the goroutine of
    its closed listener has the lock.  The goroutine takes the listener armed
    since for its own: the peer is woken without traffic, and the listener is
    left reading with nobody to close it. *)
Definition stale_waiter : list (Sys * op) :=
  [ synced [lazy_peer "P"]; (fine_sys, WSignal "P"); (fine_sys, WOpen 0); (fine_sys, WGoIdle "P") ].

Lemma stale_waiter_wakes :
  let ops := stale_waiter ++ [(fine_sys, WWaiter 0); (fine_sys, WActivity 0)] in
  conn_open_of stale_waiter "P" = Some (0%N, false) ∧ managed_as stale_waiter "P" = Some (0%N, watcherActivity) ∧
  conn_open_of ops "P" = Some (0%N, true) ∧ managed_as ops "P" = Some (0%N, watcherInactivity) ∧
  map_to_list (ac_reading (lm_activityManager (lazy_mgr ops))) = [(1%nat, 0%N)] ∧
  map_to_list (ac_peers (lm_activityManager (lazy_mgr ops))) = [].
Proof. by vm_compute. Qed.

(** A DNS query took the connection of a peer from the store; before it wakes
    the peer, a new network map replaces the connection.  The old connection
    is opened, and the new one is neither open nor waited for. *)
Definition moved_peer (key : string) : RemotePeerConfig := peer_cfg key "100.64.0.9/32" LazyStateLazy.

Definition stale_warm_up : list (Sys * op) :=
  [ synced [lazy_peer "P"]; synced [moved_peer "P"]; (fine_sys, WWarmUp 0); (fine_sys, WOpen 0) ].

Lemma stale_warm_up_strands :
  conn_open_of stale_warm_up "P" = Some (1%N, false) ∧ managed_as stale_warm_up "P" = Some (1%N, watcherInactivity) ∧
  (cn_opened <$> ps_conns (w_peers (world_of stale_warm_up)) !! 0%N) = Some true ∧
  ac_peers (lm_activityManager (lazy_mgr stale_warm_up)) !! 1%N = None ∧
  world_of (stale_warm_up ++ [(fine_sys, WSignal "P")]) = world_of stale_warm_up.
Proof. by vm_compute. Qed.

(** The listener of a peer that goes to sleep cannot be armed: the error is
    logged, and no traffic wakes the peer until its agent sends a signal. *)
Definition deaf_sys : Sys := {| sys_arm := λ _, false; sys_open := λ _, true; sys_create := λ _, true |}.

Definition deaf : list (Sys * op) :=
  [ synced [lazy_peer "P"]; (fine_sys, WSignal "P"); (fine_sys, WOpen 0); (deaf_sys, WGoIdle "P") ].

Lemma failed_arm_sleeps_deaf :
  conn_open_of deaf "P" = Some (0%N, false) ∧ managed_as deaf "P" = Some (0%N, watcherActivity) ∧
  map_to_list (ac_peers (lm_activityManager (lazy_mgr deaf))) = [].
Proof. by vm_compute. Qed.

(** ** Wake endpoints

    In a network of at most 65536 addresses peers have different endpoints. *)
Lemma octets_mod v : octet v 1 * 256 + octet v 0 = v mod 65536.
Proof.
  unfold octet. change 255 with (Z.ones 8). rewrite !Z.land_ones, !Z.shiftr_div_pow2 by lia.
  change (2 ^ (8 * 1)) with 256. change (2 ^ (8 * 0)) with 1. change (2 ^ 8) with 256. rewrite Z.div_1_r. Z.div_mod_to_equations. lia.
Qed.

Lemma Contains_high net v : 16 ≤ prefix_Bits net → prefix_Contains net (AddrV4 v) = true →
  v / 65536 = addr_val (prefix_Addr net) / 65536.
Proof.
  intros Hb H. unfold prefix_Contains in H. rewrite !andb_true_iff in H. destruct H as [_ H]. apply Z.eqb_eq in H. cbn [BitLen addr_val] in H.
  change 65536 with (2 ^ 16). rewrite <- !Z.shiftr_div_pow2 by lia. apply Z.lxor_eq. rewrite <- Z.shiftr_lxor.
  destruct (Z_le_dec (prefix_Bits net) 32) as [Hle|Hgt].
  - replace 16 with ((32 - prefix_Bits net) + (prefix_Bits net - 16)) by lia. rewrite <- Z.shiftr_shiftr by lia. rewrite H. by apply Z.shiftr_0_l.
  - assert (E : Z.lxor v (addr_val (prefix_Addr net)) = 0); [|rewrite E; by apply Z.shiftr_0_l].
    apply Z.bits_inj'. intros i Hi. pose proof (f_equal (λ x, Z.testbit x (i + (prefix_Bits net - 32))) H) as Ht. cbn in Ht.
    rewrite Z.shiftr_spec in Ht by lia. rewrite !Z.testbit_0_l in *. rewrite <- Ht. f_equal. lia.
Qed.

Lemma endpoints_distinct net net6 v v' bits bits' : 16 ≤ prefix_Bits net →
  prefix_Contains net (AddrV4 v) = true → prefix_Contains net (AddrV4 v') = true →
  deriveFakeIP net net6 [MkPrefix (AddrV4 v) bits] = deriveFakeIP net net6 [MkPrefix (AddrV4 v') bits'] → v = v'.
Proof.
  intros Hb Hv Hv' E. unfold deriveFakeIP in E. cbn [List.find Is4 prefix_Addr] in E. rewrite Hv, Hv' in E. cbn in E.
  injection E as E. rewrite <- !Z.add_assoc, !octets_mod in E. apply Z.add_reg_l in E.
  pose proof (Contains_high _ _ Hb Hv). pose proof (Contains_high _ _ Hb Hv'). Z.div_mod_to_equations. lia.
Qed.

(** In a larger one they need not: 10.1.0.2 and 10.2.0.2 share one. *)
Lemma endpoints_collide :
  let net := MkPrefix (AddrV4 (10 * 2 ^ 24)) 8 in let peer b := [MkPrefix (AddrV4 (10 * 2 ^ 24 + b * 2 ^ 16 + 2)) 32] in
  deriveFakeIP net PrefixZero (peer 1) = deriveFakeIP net PrefixZero (peer 2) ∧
  is_Some (deriveFakeIP net PrefixZero (peer 1)).
Proof. vm_compute. split; [done|by eexists]. Qed.
